(* ===== verification/_CoqProject ===== *)
-Q . S2P
Prelude.v
SyncTypes.v
Plan.v
PlanFacts.v
PlanSafety.v
PlanFolders.v
PlanExamples.v
JsValues.v
ChunkProtocol.v
Database.v
MutationMetadata.v
MutationPrepare.v
StorageChanges.v
Journal.v
JournalSteps.v
JournalSafety.v
JournalResources.v
MetadataFacts.v
JournalExamples.v
SyncStore.v
RemoteTree.v
RemoteScope.v
RangeResponse.v
Disk.v
Io.v
StoragePaths.v
StorageLayout.v
TreeManifest.v
ExecutorSteps.v
Executor.v
ManifestFacts.v
ManifestCapture.v
StepFacts.v
RenameFacts.v
ExecutorWorld.v
DeleteFacts.v
ExecutorSafety.v
ForwardPhase.v
UndoFacts.v
ExecutorExamples.v
Async.v
EngineIo.v
LocalScan.v
Transfer.v
PairSync.v
PassGuard.v
PassPromises.v
PassExamples.v
Requests.v
UploadAdmission.v
UploadIo.v
UploadSessions.v
UploadRoutes.v
StagingCleanup.v
UploadInvariant.v
UploadRules.v
UploadFollows.v
UploadWrites.v
UploadServing.v
UploadPromises.v
UploadExamples.v
Jobs.v
JobWorker.v
JobFacts.v
JobServing.v
JobExamples.v
EngineLoop.v
EngineFresh.v
EnginePromises.v
EngineExamples.v
FileRows.v
DurableMutation.v
FileService.v
FileOperations.v
FilePromises.v
FolderTree.v
FolderMoves.v
FolderPromises.v
FileBytes.v
FileExamples.v
