(* ===== verification/Prelude.v ===== *)
(** * Staaash: a verification development

    Staaash is a self-hosted file server with a desktop client that keeps local
    folders and server folders the same. This library models the parts of its
    TypeScript sources that decide what happens to files, and proves what a
    user relies on: that nothing is overwritten or deleted unseen, that
    background workers never act on the same files at once or on a stale claim,
    and that clients see every change.

    ** The program's parts

    - The desktop engine ([apps/desktop/src/engine]) compares a local scan, the
      server's items and the state both sides last agreed on, and plans actions.
      The server's items are kept in a tree that the change feed updates
      ([remote.ts]); tree, base, uploads and conflicts are kept in a small
      database ([store.ts]).
    - The server writes every change of a user's files as a durable mutation
      ([packages/db/src/storage-mutations.ts]): it is prepared with its resource
      locks, claimed by a worker under a lease and a fencing token, carried out
      on the disk step by step, committed (the metadata intent is applied and
      the change feed extended in one transaction), finalized and completed; or
      it is retried, aborted, or left to an operator. The executor
      ([storage-mutation-executor.ts]) does the work on the disk: renames and
      folders before the commit, deletions after it.
    - A pass of the engine ([pair-sync.ts]) scans the folder ([local.ts]), plans,
      and carries the plan out with transfers in parallel ([transfer.ts]),
      looking at each file again before it touches it.
    - The change feed ([storage-changes.ts]) numbers the committed changes; the
      server sends pages of it and of a folder's live items ([routes/sync.ts]).
      The engine's loop ([engine.ts]) pages through the feed with a cursor it
      saves, takes a snapshot of a folder it has not seen or of all when its
      cursor is too old, runs a pass over each pair, and asks for the next one.
    - The web server takes uploads in chunks ([uploads/]): a session reserves its
      bytes ([admission.ts]), chunks are written to a staging file and recorded
      ([session-service.ts], [chunk-upload.ts]), and a complete session's checksum
      is verified before its file is committed through the journal
      ([complete.ts]). The worker clears away what finished or lapsed
      ([handlers/staging-cleanup.ts]). It serves ranges of files
      ([downloads/range-response.ts]).
    - What a user does to files and folders in the window ([files/service.ts]) is
      read, checked and planned by a request, and written as one durable mutation
      that the web server carries out itself ([durable-storage-mutation.ts]). A
      request that is sent again under the same idempotency key is answered from
      the mutation it made.
    - What is done later is a job in the database ([packages/db/src/jobs.ts]):
      workers claim due jobs in three lanes, under leases they renew, and report
      how they went ([apps/worker/src/runner.ts]); failures are tried again, and
      recurring jobs are scheduled ([job-registry.ts], [scheduling.ts]).

    ** Files of the library

    Shared.
    - [Prelude]: the result monad, booleans as the source tests them, strings
      and JavaScript [Map]s, and the lemmas on lists the components share.
    - [JsValues]: [BigInt(string)], [new Date(string)], and both written back.

    The desktop engine.
    - [SyncTypes]: [names.ts], and the records of [types.ts], [local.ts],
      [store.ts]. A path's key is its Unicode and letter-case fold, two functions
      of the platform that the class [Platform] abstracts, with the law that they
      respect slashes ([PlatformLaws]).
    - [Plan]: [plan.ts] in full, one definition per function: the view of a
      pass, the moves, the rules for folders and files, the loop over the paths,
      the emptied-side hold, the conflict copy's name.
    - [PlanFacts], [PlanSafety], [PlanFolders]: what a plan
      guarantees. A file is overwritten or trashed only in the version both
      sides had agreed on; a folder only when everything below it is known and
      unchanged; one-way pairs leave the other side alone; paths left out stay
      untouched; a pair in agreement has nothing to do; a side that was emptied
      is held; a conflict copy always finds a name. [PlanExamples] has the
      concrete pairs.
    - [SyncStore]: the tables of [store.ts], and that moving a path in the base
      or forgetting pairs does exactly that.
    - [RemoteTree]: [remote.ts] in full: the index of children
      and the stored rows mirror the items; removal is exact and ends; replays
      change nothing. [RemoteScope]: the paths given to the planner have
      distinct keys and no item is lost; it ends with a concrete tree.

    The durable journal.
    - [Database]: the tables, the errors, and transactions: functions from a
      database to a result, in which a throw leaves no database, so that it
      rolls back. Locks that other transactions hold at the time are an
      argument ([Locks]); a statement that would wait for one fails as the
      lock timeout makes it fail.
    - [MutationMetadata]: intents: parsing and casting of values, batches,
      compare-and-swap updates and deletes, creations, trash entries, upload
      sessions, and the owner's quota. [MetadataFacts]: they never touch the
      journal, and a bulk update is all or nothing.
    - [MutationPrepare]: [prepareStorageMutation] with replays, revisions,
      target names and resource locks. [MetadataFacts] has its quota and replays too.
    - [Journal]: claims, leases, fences, step marks, commit, finalization,
      completion, retry, recovery, abort, parents and pruning.
    - [JournalSteps]: every call, by any worker, with any arguments, is a step of
      [journal_step]; the life of one mutation is the abstract machine [moves];
      what each call does. [JournalSafety]: it refines
      the abstract machine and keeps the invariant of a row, and what follows for
      a worker: fencing, final commits, leases, retries.
    - [JournalResources]: the overlap of resource keys and the query that looks
      for it; live locks of two mutations never overlap and
      always have a living owner.
    - [StorageChanges]: the feed: order, paging, pruning.
    - [JournalExamples]: one rename from its preparation to its end, run by the
      definitions, on which the properties are checked.

    The executor.
    - [Disk]: a file system as a map from paths to nodes, and the
      calls of [node:fs] the executor makes. [Io]: its monad: errors,
      the disk, the database, and a list of ticks ([Tick]) that let any call fail,
      stop the process anywhere, move the clock, and let others work in
      between; they leave the disk below the mutation's own keys alone.
    - [StoragePaths]: keys and the paths they name, below the files root.
    - [TreeManifest], [ManifestFacts], [ManifestCapture]: the digest of a tree, its
      preimage, which is injective, and the digest of a captured list.
    - [ExecutorSteps]: one definition per function: renames, folders, deletions,
      their guards and syncs. [Executor]: the phases of an execution, failures,
      rollback, recovery.
    - [StepFacts], [RenameFacts], [DeleteFacts]: what one step
      does to the disk. [ExecutorWorld]: what every execution keeps.
      [ExecutorSafety]: no file is lost, and
      a worker without its lease touches nothing. [ForwardPhase]:
      an interrupted execution can be resumed. [UndoFacts]: a rollback restores
      the disk, up to directories made on the way to a target, which it leaves. [ExecutorExamples] runs the executor on small disks.

    The passes of the desktop engine.
    - [Async]: programs that wait for effects, pools of workers, the steps of a
      running program in any interleaving, a scheduler that runs it ([run]), the
      rules to prove that every effect a program asks for is allowed by what it
      saw before, and the same runs with each thread's own log ([logged]).
    - [EngineIo]: the effects: disk, server, clock, signals, and the memory the
      transfers share.
    - [LocalScan]: the scan, and that it leaves nothing out.
    - [Transfer]: downloads and uploads; the chunks that are sent.
    - [PairSync]: [syncPair], a definition per handler.
    - [PassGuard]: for each effect, what its own thread must have seen before it,
      and in which order, and the rules that prove it. [PassPromises]: that every
      handler has seen it, and what a user relies on, as theorems on every run
      ([passRun]), or on every run with the threads' logs ([passThreads]).
      [PassExamples] runs passes against a small server and disk.

    The loop of the desktop engine.
    - [EngineLoop]: [engine.ts]: settings, the work done one piece at a time,
      choices, [pull], [pass], what is told and when the next pass starts.
    - [EngineFresh]: the two routes over [readStorageChanges] and
      [readStorageSnapshotPage], the engine and a server that changes and prunes
      its feed meanwhile ([engine_step], labelled with what was answered), and what
      ties the cursor to the tree.
    - [EnginePromises]: the tree is never older than the saved cursor, in every
      system that is reached without reading a feed while no cursor is saved
      ([savedStep]); a pull ends at the head of the feed when the server answers
      and takes the place it reads from, or has the folder of some pair.
      [EngineExamples] runs passes over two pairs, one of which fails.

    The web server.
    - [ChunkProtocol]: the chunks of an upload tile the file.
    - [RangeResponse]: ranges, responses and the file name header; and a file of
      ten bytes in chunks and ranges.
    - [Requests]: programs served at the same time, and the rules of rely and
      guarantee: what a program knows between two effects is stable under what
      the others may do.
    - [UploadAdmission], [UploadSessions], [UploadRoutes],
      [StagingCleanup]: the upload service, a definition per transaction and
      per function. [UploadIo]: staging paths, its effects, the world they act on (database,
      staging files, advisory locks), and what the rest of the installation
      does to that world ([elsewhere]).
    - [UploadInvariant]: well-formed rows, the limits, and what one step may change
      ([changes]), and that the journal and dying programs keep to it;
      [UploadRules]: allowed effects; [UploadFollows], [UploadWrites], [UploadServing]: every function of the service
      performs only allowed effects. [UploadPromises]: what holds of every system
      that can be reached. [UploadExamples] runs an upload and a cancellation.

    The file service.
    - [StorageLayout]: the names that are accepted, and the storage keys made of
      them ([storage-layout.ts], [storage.ts]).
    - [FileRows]: folders and files as the service reads them ([repository.ts],
      [folder-tree.ts]): each query is a function of the database it reads. The
      class [Installation] holds what a server is set up with.
    - [DurableMutation]: [durable-storage-mutation.ts]: a mutation is prepared,
      carried out, or found as an earlier attempt left it.
    - [FileService]: the reads with their checks, replays, captured trees, and the
      two functions every change goes through, [durablyUpdateFile] and
      [durablyUpdateFolderTree].
    - [FileOperations]: [renameFile], [moveFile], [trashFile], [restoreFile],
      [keepMine], [createFolder], [renameFolder], [moveFolder], [trashFolder],
      [restoreFolder].
    - [FilePromises]: reads change nothing; a known key runs nothing
      ([a_known_key_runs_nothing]), and items of others are not found
      ([items_of_others_are_not_found]).
    - [FolderTree]: the specification of an owner's tree ([orderly]): one root,
      every live folder hangs from it, the key of a live file spells its folders;
      and that the walks of [FileRows] find what it says. [FolderMoves]: what a
      moved folder does to it. [FolderPromises]: a rename or move of a folder keeps
      the tree in order ([moving_keeps_the_tree_in_order]) and loses no bytes
      ([moving_loses_no_bytes]).
    - [FileBytes]: the same of one file ([a_moved_file_keeps_its_bytes]) and of the
      two files of a conflict ([keep_mine_exchanges_the_bytes]). [FileExamples]
      runs the service on a small tree, and requests that meet.

    The jobs.
    - [Jobs]: the rows of the queue and a definition per statement or transaction:
      claims by lane, renewals, reports, the actions of administrators,
      scheduling.
    - [JobWorker]: the calls of [jobs.ts] and the worker's [runner.ts],
      [job-registry.ts] and [scheduling.ts] as programs over these statements.
    - [JobFacts]: a due job is in exactly one lane and the first in order is
      taken; retry delays; scheduling answers the first of the jobs that are
      still to do the work, or makes one, which it finds again; what a statement writes, and the life of a job ([life_step]). [JobServing]: every
      step of every reachable system follows that life or comes too late, rows
      stay well-formed, scheduling ends, and a worker that keeps its claim, while
      others act between its effects, does not leave the job running when it is
      done with it, but for the steps named by [excused]. [JobExamples]: a queue with two workers.

    ** Interleaving

    A call whose source runs one transaction is atomic here. A call that reads
    again after its transaction takes the later database as an argument
    ([prepareStorageMutation], [claimStorageMutation],
    [claimStorageMutationFinalization]), and its transactions are the steps of
    [journal_step]; other work on the database, anything that leaves mutations
    and locks alone, is the step [st_elsewhere]. The properties of [JournalSafety]
    and [JournalResources] hold after any number of steps in any order.

    An execution meets the other workers through its ticks: between any two of
    its calls the database may take any steps, the clock may move, the call may
    fail, and the process may stop.

    A pass is a program whose every effect any of its workers may be the next to
    perform; the answer is open, so that the disk and the server may change at
    any time and every call may fail. The memory read back is open as well,
    except where a theorem is about what it holds. The names of one folder are
    looked at one after the other, where [scanLocal] has the calls under way at
    the same time and awaits them all.

    A web server and a worker serve any number of upload requests and clean-ups
    at once: [system_step] lets any of them perform its next effect, lets new ones
    start and others die at any point, and lets the journal and everything else
    work in between. A statement may fail, or be carried out and its answer lost;
    a connection may break at any call of a chunk's writer. A transaction is one
    step, under an advisory lock where the source takes one. Assumed are: a broken
    connection stops the writing of its chunk before its locks are given to
    another; a file is read in one go; the settings stay the same during a run;
    an aborted mutation is no completed session's. What the file service answers
    to a commit is open. [completeResumableSessionWithFile], which the commit of
    the journal replaced, is modelled but served by none of the programs; an
    intent never updates a session's row by [update_upload_session], which
    nothing emits.

    Workers, administrators and schedulers share the queue of jobs in the same
    way. A transaction that reads a row before it writes it is two steps, since
    it runs as [READ COMMITTED] and its read takes no lock; its writes are one,
    for the first of them locks the row; scheduling is serializable and one step.
    The clock is one for all. The timers that renew a lease are programs of their
    own, and a handler returns or throws anything.

    A request to the file service is a program of [Io], as an execution is: ticks
    come between any two of its calls. Its plan is a function of the world it was
    read from. The theorems on bytes are stated of a plan and of the rows and the
    disk its mutation is applied to: the rows are those of the plan (the mutation's
    revisions see to those it names), and what the disk holds is what the steps
    expect. [FileExamples] shows what happens where the revisions do not see a
    change made in between.

    The engine's loop performs its effects one after the other; a stretch of code
    between two awaits is one effect, and the process may die only at an await,
    where it starts again from the store. At any await settings may change, the
    server may take changes in or prune its feed, and any call may fail. Of the
    server is assumed what its journal sees to: along the feed the revisions of
    an item grow, and a live row is at least as new as its last entry; and that
    entries are stamped in their order as they are written, without which pruning
    leaves a gap (see below); it may prune whenever it likes. A feed may also be
    read from 0 while no cursor is saved, as a loop without pairs does;
    [tree_is_never_older_than_the_cursor] is of the runs where none is, and leaves
    out folders that were ever chosen for a pair. A pass over a pair sets items
    from answers no older than the cursor, which its requests follow, and else
    does any of its writes in any order.

    ** Fuel

    Loops that are not structural take fuel. The engine's [pathChain] has the
    length of the path. [applyOperations] has the number of operations, of which
    each turn takes one or more. The recursive queries for folder paths stop at
    depth 1000 and [inScope] at 4096, as the source does; those of [FileRows] have
    a round per folder, and [collectDescendants] a turn per folder of its queue. [subtree] has a turn
    per item, which [subtree_spec] proves enough in a tree without cycles, and
    [scope] a level per item, which [scope_loses_nothing] proves enough. The
    conflict copy's loop is proved to end. Directories are walked with a turn per
    node of the disk. [admissionTurns] is the number of pauses that fit before
    the deadline, and one, and in the upload service 101: a pause is 50
    milliseconds or more, of 5 seconds. [scheduleTurns] is 201, since a pause is
    25 milliseconds or more of 5 seconds ([scheduling_ends_in_its_window]).
    [drainDueJobs] runs any number of turns of the worker's loop. The scan has a depth of folders ([cx_depth]) and
    throws below it; [startsFrom] has a turn per chunk, which
    [missingStarts_spec] proves enough. The two loops of [pull] have a number of
    turns, after which they wait for ever, so that no property that holds
    at every point depends on it; [enoughTurns] of them are proved enough.

    ** Numbers, times, strings

    Numbers are integers: sizes and revisions are safe integers, and arithmetic
    on them exact. Times are milliseconds. Strings are the bytes of their UTF-8
    form.

    ** Not modelled

    Of the engine's loop the status message, the watchers and the live connection,
    which only ask for passes; its HTTP client,
    folder sizes, the throttle's waiting times and the upload meter; uploads
    without a session; of the file service the commit of uploads, [ensureFolderPaths],
    [deleteFile] and [clearTrash], batches, the listings, path labels, colours,
    icons, and the times a row was made and written, and of its answers to a retry
    only what the service itself reads again;
    the handlers of jobs but for the clean-up of uploads: thumbnails, archives,
    the disk audit; releases and settings; sign-in,
    sharing, other routes and user interfaces. In the
    modelled files: the ignore globs of [names.ts]; the opening and upgrading of
    the store; the health summary, the queries for blocking mutations and the
    cutover of [storage-mutations.ts]; the notification of [storage-changes.ts]; the owner queues, the abort signals and the
    classification of driver errors of [storage-transactions.ts]; the probe that
    tells whether directories can be synced; the part of [staging-cleanup.ts]
    that looks for files no session owns; the polling loop of the worker with its
    timers, lists of jobs and workers, and their summary.

    ** What the proofs turned up

    - Pruning the feed by time leaves a gap behind an accepted cursor when entries
      are stamped against their numbers ([JournalExamples.prune_can_leave_a_gap]).
    - A suffix range of an empty file is accepted as the bytes 0 to -1, for which
      no stream can be made ([RangeResponse.empty_file_suffix_fails]).
    - A step that was made but not yet marked when the last attempt failed is not
      undone by the rollback ([ExecutorExamples.unmarked_step_is_not_undone]).
    - A rename found already made is marked without syncing its directories
      ([ExecutorExamples.resumed_rename_is_not_synced]).
    - A file that became a folder since the scan is trashed with all the folder
      holds ([PassExamples.file_turned_folder_is_trashed]).
    - An edit made between the scan and the renaming of a file that moved on the
      server is taken for agreed, and not sent
      ([PassExamples.edit_before_a_move_is_taken_for_agreed]).
    - A name that ends in a tab or a newline is tested for a dot at its end before
      it is trimmed, so that the parent folder's name is accepted
      ([StorageLayout.parent_segment_is_accepted]); a folder can be given it
      ([FileExamples.a_name_of_dots_is_accepted]).
    - A folder can be made in a folder that is being trashed, which can then not be
      restored ([FileExamples.a_folder_is_made_in_a_trashed_folder]).
    - A folder made in one that is being renamed leaves the rename to an operator
      ([FileExamples.a_rename_meets_a_new_folder]).
    - An upload whose mutation is prepared but not yet run goes back to receiving
      bytes, and can then not be completed by that mutation
      ([UploadExamples.restored_session_cannot_be_completed]).
    - A failure reported after the lease ran out ends the claim of the worker that
      took the job over, or revives a job that was cancelled
      ([JobExamples.late_report_takes_a_live_claim],
      [JobExamples.cancelled_job_is_queued_again]).
    - A dismissal that comes after the job was queued again and claimed cancels it
      while it runs, and leaves it the lease
      ([JobExamples.late_dismissal_keeps_the_lease]).
    - A job whose worker dies each time is claimed without end
      ([JobExamples.dying_job_is_claimed_again]).
    - When the feed is too old the tree is cleared but the pairs stay marked as
      ready: if a snapshot then fails, the next pass takes that pair as empty on
      the server ([EngineExamples.failed_snapshot_empties_a_ready_pair]).
    - Without a pair, reading a feed that was pruned never ends
      ([EngineExamples.pull_without_pairs_never_ends]). *)

From Stdlib Require Export ZArith Lia.
From Stdlib Require Import Ascii.
From Stdlib Require String.
From stdpp Require Export pretty numbers.
From stdpp Require Export base gmap strings list fin_maps sorting relations.

(** ** Notations and hint databases *)

Declare Scope staaash_scope.
Delimit Scope staaash_scope with staaash.
Open Scope staaash_scope.

(** Lemmas that rewrite a model function to its specification. *)
Create HintDb staaash.
Create Rewrite HintDb staaash.

(** ** Results: a JavaScript call returns or throws *)

Inductive result (E A : Type) : Type :=
| Ok (a : A)
| Throw (e : E).
Arguments Ok {E A} a.
Arguments Throw {E A} e.

#[export] Instance result_ret {E} : MRet (result E) := fun A a => Ok a.
#[export] Instance result_bind {E} : MBind (result E) :=
  fun A B f r => match r with Ok a => f a | Throw e => Throw e end.

#[export] Instance result_eq_dec {E A} `{EqDecision E, EqDecision A} :
  EqDecision (result E A).
Proof. solve_decision. Defined.

Definition isOk {E A} (r : result E A) : bool :=
  match r with Ok _ => true | Throw _ => false end.

(** [guard b else e]: [if (!b) throw e]. *)
Definition require {E} (b : bool) (e : E) : result E unit :=
  if b then Ok tt else Throw e.

Lemma require_ok {E} (b : bool) (e : E) u :
  require b e = Ok u -> b = true.
Proof. by destruct b. Qed.

Lemma require_throw {E} (b : bool) (e e' : E) :
  require b e = Throw e' -> b = false /\ e' = e.
Proof. destruct b; [done|]. by intros [= <-]. Qed.

(** ** Booleans *)

Lemma bool_decide_spec (P : Prop) `{Decision P} :
  bool_decide P = true <-> P.
Proof. by rewrite bool_decide_eq_true. Qed.

Ltac bool_simpl :=
  repeat match goal with
  | H : (_ && _)%bool = true |- _ => apply andb_prop in H as [? ?]
  | H : (_ || _)%bool = false |- _ => apply orb_false_elim in H as [? ?]
  | H : negb _ = true |- _ => apply negb_true_iff in H
  | H : negb _ = false |- _ => apply negb_false_iff in H
  | H : bool_decide _ = true |- _ => apply bool_decide_eq_true_1 in H
  | H : bool_decide _ = false |- _ => apply bool_decide_eq_false_1 in H
  | H : Is_true _ |- _ => apply Is_true_eq_true in H
  end.

(** ** Options, the way the source tests them

    [x?.f === y] on an optional [x] is [opt_is]; a value that is [undefined]
    or [null] never equals a string. *)

Definition opt_is {A} `{EqDecision A} (o : option A) (a : A) : bool :=
  match o with Some b => bool_decide (b = a) | None => false end.

Lemma opt_is_true {A} `{EqDecision A} (o : option A) (a : A) :
  opt_is o a = true <-> o = Some a.
Proof.
  destruct o as [b|]; cbn; [|done]. rewrite bool_decide_eq_true.
  split; congruence.
Qed.
#[export] Hint Rewrite @opt_is_true : staaash.

(** [a ?? b] on optional values. *)
Definition nullish {A} (a : option A) (b : A) : A := default b a.

(** ** Strings

    A JavaScript string is held as the bytes of its UTF-8 form. *)

Definition slash : ascii := "/"%char.

(** [s.lastIndexOf(c)] for one ASCII character; [None] is [-1]. *)
Fixpoint lastIndexOf (c : ascii) (s : string) : option nat :=
  match s with
  | EmptyString => None
  | String a s' =>
      match lastIndexOf c s' with
      | Some i => Some (S i)
      | None => if bool_decide (a = c) then Some 0 else None
      end
  end.

(** [s.slice(0, n)] and [s.slice(n)]. *)
Fixpoint sliceTo (n : nat) (s : string) : string :=
  match n, s with
  | S n', String a s' => String a (sliceTo n' s')
  | _, _ => EmptyString
  end.

Fixpoint sliceFrom (n : nat) (s : string) : string :=
  match n, s with
  | 0, _ => s
  | S n', String _ s' => sliceFrom n' s'
  | S _, EmptyString => EmptyString
  end.

Fixpoint hasChar (c : ascii) (s : string) : bool :=
  match s with
  | EmptyString => false
  | String a s' => bool_decide (a = c) || hasChar c s'
  end.

(** [s.split(c)] for one ASCII character; never the empty list. *)
Fixpoint splitOn (c : ascii) (s : string) : list string :=
  match s with
  | EmptyString => [EmptyString]
  | String a s' =>
      if bool_decide (a = c) then EmptyString :: splitOn c s'
      else match splitOn c s' with
           | [] => [String a EmptyString]
           | w :: ws => String a w :: ws
           end
  end.

(** [parts.join(sep)]. *)
Fixpoint joinWith (sep : string) (l : list string) : string :=
  match l with
  | [] => EmptyString
  | [x] => x
  | x :: l' => x +:+ sep +:+ joinWith sep l'
  end.

(** [s.startsWith(p)]. *)
Definition startsWith (p s : string) : bool := String.prefix p s.

Lemma string_app_cons a (s t : string) :
  String a s +:+ t = String a (s +:+ t).
Proof. done. Qed.

Lemma string_app_nil_l (s : string) : "" +:+ s = s.
Proof. done. Qed.

Lemma string_app_nil_r (s : string) : s +:+ "" = s.
Proof. induction s as [|a s IH]; [done|]. by rewrite string_app_cons, IH. Qed.

Lemma string_app_assoc (s t u : string) : s +:+ (t +:+ u) = (s +:+ t) +:+ u.
Proof. induction s as [|a s IH]; [done|]. by rewrite !string_app_cons, IH. Qed.

Lemma string_length_app (s t : string) :
  String.length (s +:+ t) = String.length s + String.length t.
Proof. induction s as [|a s IH]; [done|]. rewrite string_app_cons. cbn. by rewrite IH. Qed.

Lemma string_app_inj_l (s t u : string) : s +:+ t = s +:+ u -> t = u.
Proof. intros H. by apply (inj (String.app s)) in H. Qed.

Lemma string_app_inj_r (s t u : string) : s +:+ u = t +:+ u -> s = t.
Proof.
  revert t. induction s as [|a s IH]; intros [|b t] H; [done| | |].
  - apply (f_equal String.length) in H. rewrite !string_length_app in H. cbn in H. lia.
  - apply (f_equal String.length) in H. rewrite !string_length_app in H. cbn in H. lia.
  - rewrite !string_app_cons in H. injection H as -> H. f_equal. by apply IH.
Qed.

Lemma hasChar_app c (s t : string) :
  hasChar c (s +:+ t) = hasChar c s || hasChar c t.
Proof.
  induction s as [|a s IH]; [done|].
  rewrite string_app_cons. cbn. rewrite IH. by rewrite orb_assoc.
Qed.

Lemma lastIndexOf_None c s : lastIndexOf c s = None <-> hasChar c s = false.
Proof.
  induction s as [|a s IH]; [done|]. cbn.
  destruct (lastIndexOf c s) as [i|].
  - split; [done|]. intros [_ H]%orb_false_elim. apply IH in H. done.
  - rewrite (proj1 IH eq_refl), orb_false_r.
    by case_bool_decide.
Qed.

(** The character found is the last one: nothing after it is another. *)
Lemma lastIndexOf_app c s t :
  hasChar c t = false ->
  lastIndexOf c (s +:+ String c t) = Some (String.length s).
Proof.
  intros Ht. induction s as [|a s IH].
  - rewrite string_app_nil_l. cbn. rewrite (proj2 (lastIndexOf_None c t) Ht).
    by rewrite bool_decide_eq_true_2.
  - rewrite string_app_cons. cbn. by rewrite IH.
Qed.

Lemma lastIndexOf_Some c s i :
  lastIndexOf c s = Some i ->
  s = sliceTo i s +:+ String c (sliceFrom (S i) s) /\
  hasChar c (sliceFrom (S i) s) = false /\ String.length (sliceTo i s) = i.
Proof.
  revert i. induction s as [|a s IH]; intros i; [done|]. cbn.
  destruct (lastIndexOf c s) as [j|] eqn:E.
  - intros [= <-]. destruct (IH j eq_refl) as (H1 & H2 & H3).
    change (sliceFrom (S (S j)) (String a s)) with (sliceFrom (S j) s).
    change (sliceTo (S j) (String a s)) with (String a (sliceTo j s)).
    rewrite string_app_cons, <- H1. cbn [String.length]. by rewrite H3.
  - case_bool_decide; [|done]. intros [= <-]. subst a. cbn.
    apply lastIndexOf_None in E. by destruct s.
Qed.

Lemma sliceTo_app s t : sliceTo (String.length s) (s +:+ t) = s.
Proof.
  induction s as [|a s IH]; [by destruct t|].
  rewrite string_app_cons. cbn. by rewrite IH.
Qed.

Lemma sliceFrom_app s t : sliceFrom (String.length s) (s +:+ t) = t.
Proof. induction s as [|a s IH]; [done|]. rewrite string_app_cons. by cbn. Qed.

Lemma prefix_cons a p b s :
  String.prefix (String a p) (String b s) = bool_decide (a = b) && String.prefix p s.
Proof. unfold String.prefix at 1. fold String.prefix. destruct (ascii_dec a b); by case_bool_decide. Qed.

Lemma prefix_spec p s : String.prefix p s = true <-> exists r, s = p +:+ r.
Proof.
  revert s. induction p as [|a p IH]; intros s.
  - split; [intros _; by exists s|]. by destruct s.
  - destruct s as [|b s]; [split; [done|by intros [r ?]]|].
    rewrite prefix_cons, andb_true_iff, IH, bool_decide_eq_true. split.
    + intros [-> [r ->]]. by exists r.
    + intros [r Hr]. rewrite string_app_cons in Hr. injection Hr as -> ->. eauto.
Qed.

Lemma splitOn_not_nil c s : splitOn c s <> [].
Proof.
  destruct s as [|a s]; cbn; [done|]. case_bool_decide; [done|].
  by destruct (splitOn c s).
Qed.

Lemma splitOn_no_char c s : hasChar c s = false -> splitOn c s = [s].
Proof.
  induction s as [|a s IH]; [done|]. cbn.
  intros [Ha Hs]%orb_false_elim. rewrite Ha, IH by done. done.
Qed.

Lemma splitOn_app c s t :
  splitOn c (s +:+ String c t) = splitOn c s ++ splitOn c t.
Proof.
  induction s as [|a s IH].
  - rewrite string_app_nil_l. cbn. by rewrite bool_decide_eq_true_2.
  - rewrite string_app_cons. cbn. rewrite IH. case_bool_decide; [done|].
    destruct (splitOn c s) eqn:E; [|done]. by apply splitOn_not_nil in E.
Qed.

Lemma splitOn_pieces c s : Forall (fun w => hasChar c w = false) (splitOn c s).
Proof.
  induction s as [|a s IH]; cbn.
  - by repeat constructor.
  - case_bool_decide as Ha; [by constructor|].
    destruct (splitOn c s) as [|w ws]; inversion IH; subst; constructor; cbn;
      rewrite ?bool_decide_eq_false_2 by done; auto.
Qed.

Lemma joinWith_splitOn c s : joinWith (String c EmptyString) (splitOn c s) = s.
Proof.
  induction s as [|a s IH]; [done|]. cbn. case_bool_decide as Ha.
  - subst a. destruct (splitOn c s) eqn:E; [by apply splitOn_not_nil in E|].
    change (joinWith (String c "") ("" :: s0 :: l))
      with (String c (joinWith (String c "") (s0 :: l))). by rewrite IH.
  - destruct (splitOn c s) as [|w [|w' ws]] eqn:E;
      [by apply splitOn_not_nil in E| |]; cbn in *; by rewrite <- IH.
Qed.

(** [s.trim()]: the ECMAScript white space and line terminators, in UTF-8. *)
Definition jsWhiteSpace : list (list nat) :=
  [[9]; [10]; [11]; [12]; [13]; [32]; [194; 160]; [225; 154; 128]]
  ++ ((fun b => [226; 128; b]) <$> seq 128 11)
  ++ [[226; 128; 168]; [226; 128; 169]; [226; 128; 175]; [226; 129; 159];
      [227; 128; 128]; [239; 187; 191]].

Definition whiteSpaceString (bytes : list nat) : string :=
  String.string_of_list_ascii (ascii_of_nat <$> bytes).

(** Drops one leading occurrence of a string of the list, if there is one. *)
Definition dropOne (ws : list string) (s : string) : option string :=
  match filter (fun w => Is_true (String.prefix w s)) ws with
  | w :: _ => Some (sliceFrom (String.length w) s)
  | [] => None
  end.

Fixpoint dropAll (ws : list string) (fuel : nat) (s : string) : string :=
  match fuel with
  | 0 => s
  | S fuel' =>
      match dropOne ws s with Some s' => dropAll ws fuel' s' | None => s end
  end.

Definition trimStart (s : string) : string :=
  dropAll (whiteSpaceString <$> jsWhiteSpace) (String.length s) s.

Definition trimEnd (s : string) : string :=
  String.rev
    (dropAll ((fun b => whiteSpaceString (reverse b)) <$> jsWhiteSpace)
       (String.length s) (String.rev s)).

Definition trim (s : string) : string := trimEnd (trimStart s).

(** Decimal digits of a number, as [String(n)] and templates print it. *)
Definition numberString (n : Z) : string := pretty n.

(** [String(n).padStart(2, "0")]. *)
Definition padStart2 (s : string) : string :=
  match String.length s with
  | 0 => "00" +:+ s | 1 => "0" +:+ s | _ => s
  end.

(** ** Maps and sets with insertion order

    A JavaScript [Map] iterates in the order its keys were first set, and
    setting a key again keeps its place. A [Map<string, V>] is the list of its
    entries; a [Set<string>] whose order matters is the list of its keys, and
    one that is only asked [has] is a [gset string]. *)

Section JsMap.
Context {V : Type}.
Implicit Types (m : list (string * V)) (l : list (string * V)).

(** [m.get(k)]. *)
Fixpoint mapGet (k : string) (m : list (string * V)) : option V :=
  match m with
  | [] => None
  | (k', v) :: m' => if bool_decide (k' = k) then Some v else mapGet k m'
  end.

(** [m.has(k)]. *)
Definition mapHas (k : string) (m : list (string * V)) : bool :=
  match mapGet k m with Some _ => true | None => false end.

(** [m.set(k, v)]. *)
Fixpoint mapSet (k : string) (v : V) (m : list (string * V)) :
    list (string * V) :=
  match m with
  | [] => [(k, v)]
  | (k', v') :: m' =>
      if bool_decide (k' = k) then (k, v) :: m' else (k', v') :: mapSet k v m'
  end.

(** [m.delete(k)]. *)
Fixpoint mapDelete (k : string) (m : list (string * V)) : list (string * V) :=
  match m with
  | [] => []
  | (k', v') :: m' =>
      if bool_decide (k' = k) then mapDelete k m' else (k', v') :: mapDelete k m'
  end.

(** [new Map(entries)]. *)
Definition mapOf (l : list (string * V)) : list (string * V) :=
  foldl (fun m e => mapSet e.1 e.2 m) [] l.

(** A map never holds a key twice. *)
Definition mapOk (m : list (string * V)) : Prop := NoDup m.*1.

Lemma mapGet_mapSet k k' v m :
  mapGet k (mapSet k' v m) = if bool_decide (k' = k) then Some v else mapGet k m.
Proof.
  induction m as [|[k0 v0] m IH]; cbn; [done|].
  repeat case_bool_decide; cbn; repeat case_bool_decide; simplify_eq; auto.
Qed.

Lemma mapGet_mapDelete k k' m :
  mapGet k (mapDelete k' m) = if bool_decide (k' = k) then None else mapGet k m.
Proof.
  induction m as [|[k0 v0] m IH]; cbn; [by case_bool_decide|].
  repeat case_bool_decide; cbn; repeat case_bool_decide; simplify_eq; auto.
Qed.

Lemma elem_of_mapSet_keys k k' v m :
  k ∈ (mapSet k' v m).*1 <-> k = k' \/ k ∈ m.*1.
Proof.
  induction m as [|[k0 v0] m IH]; cbn; [set_solver|].
  case_bool_decide; cbn; set_solver.
Qed.

Lemma mapOk_mapSet k v m : mapOk m -> mapOk (mapSet k v m).
Proof.
  unfold mapOk. induction m as [|[k0 v0] m IH]; cbn.
  - intros _. apply NoDup_singleton.
  - intros [H1 H2]%NoDup_cons. case_bool_decide; cbn.
    + subst. by apply NoDup_cons.
    + apply NoDup_cons. split; [|by apply IH].
      intros [->|?]%elem_of_mapSet_keys; done.
Qed.

Lemma mapGet_Some_elem k v m : mapGet k m = Some v -> (k, v) ∈ m.
Proof.
  induction m as [|[k0 v0] m IH]; cbn; [done|].
  case_bool_decide; set_solver.
Qed.

Lemma mapGet_elem k v m : mapOk m -> (k, v) ∈ m -> mapGet k m = Some v.
Proof.
  unfold mapOk. induction m as [|[k0 v0] m IH]; cbn; [set_solver|].
  intros [H1 H2]%NoDup_cons [[= -> ->]|H]%elem_of_cons.
  - by rewrite bool_decide_eq_true_2.
  - rewrite bool_decide_eq_false_2; [by apply IH|].
    intros ->. apply H1. apply (list_elem_of_fmap_2 fst) in H. done.
Qed.

Lemma mapGet_keys k m : is_Some (mapGet k m) <-> k ∈ m.*1.
Proof.
  induction m as [|[k0 v0] m IH]; cbn.
  - split; [by intros []|set_solver].
  - case_bool_decide; split; try set_solver; eauto.
Qed.

Lemma mapGet_None k m : mapGet k m = None <-> k ∉ m.*1.
Proof. rewrite <- mapGet_keys, eq_None_not_Some. done. Qed.

Lemma mapHas_true k m : mapHas k m = true <-> is_Some (mapGet k m).
Proof. unfold mapHas. destruct (mapGet k m); split; try done; by intros []. Qed.

Lemma mapHas_false k m : mapHas k m = false <-> mapGet k m = None.
Proof. unfold mapHas. by destruct (mapGet k m). Qed.

Lemma foldl_mapSet_ok l m :
  mapOk m -> mapOk (foldl (fun m e => mapSet e.1 e.2 m) m l).
Proof. revert m. induction l; cbn; auto using mapOk_mapSet. Qed.

Lemma mapOk_mapOf l : mapOk (mapOf l).
Proof. apply foldl_mapSet_ok. apply NoDup_nil_2. Qed.

Lemma foldl_mapSet_keys l m k :
  k ∈ (foldl (fun m e => mapSet e.1 e.2 m) m l).*1 <-> k ∈ m.*1 \/ k ∈ l.*1.
Proof.
  revert m. induction l as [|[k0 v0] l IH]; intros m; cbn; [set_solver|].
  rewrite IH, elem_of_mapSet_keys. set_solver.
Qed.

Lemma mapOf_keys l k : k ∈ (mapOf l).*1 <-> k ∈ l.*1.
Proof. unfold mapOf. rewrite foldl_mapSet_keys. cbn. set_solver. Qed.

(** The last entry of a key wins. *)
Lemma mapGet_mapOf_snoc l k k' v :
  mapGet k (mapOf (l ++ [(k', v)])) =
    if bool_decide (k' = k) then Some v else mapGet k (mapOf l).
Proof. unfold mapOf. rewrite foldl_app. cbn. apply mapGet_mapSet. Qed.

Lemma mapGet_mapOf_elem l k v : mapGet k (mapOf l) = Some v -> (k, v) ∈ l.
Proof.
  induction l as [|[k' v'] l IH] using rev_ind; [done|].
  rewrite mapGet_mapOf_snoc. case_bool_decide; set_solver.
Qed.

Lemma mapGet_mapOf_NoDup l k v :
  NoDup l.*1 -> (k, v) ∈ l -> mapGet k (mapOf l) = Some v.
Proof.
  intros Hnd Hin.
  destruct (proj2 (mapGet_keys k (mapOf l))) as [v' Hv'].
  { apply mapOf_keys. by apply (list_elem_of_fmap_2 fst) in Hin. }
  rewrite Hv'. f_equal. apply mapGet_mapOf_elem in Hv'.
  apply mapGet_elem in Hv'; [|done]. apply mapGet_elem in Hin; [|done].
  congruence.
Qed.

Lemma mapOf_nodup_id l : NoDup l.*1 -> mapOf l = l.
Proof.
  induction l as [|[k v] l IH] using rev_ind; [done|].
  rewrite fmap_app, NoDup_app. intros (H1 & H2 & _).
  unfold mapOf in *. rewrite foldl_app. cbn. rewrite IH by done.
  clear IH H1. assert (Hk : k ∉ l.*1) by (intros Hk; specialize (H2 k Hk); set_solver).
  clear H2. induction l as [|[k0 v0] l IH]; [done|]. cbn in *.
  rewrite bool_decide_eq_false_2 by set_solver. f_equal. apply IH. set_solver.
Qed.
End JsMap.

(** [new Set(keys)] when its order matters. *)
Definition setOf (l : list string) : list string :=
  (mapOf ((fun k => (k, tt)) <$> l)).*1.

Lemma setOf_NoDup l : NoDup (setOf l).
Proof. apply mapOk_mapOf. Qed.

Lemma elem_of_setOf l k : k ∈ setOf l <-> k ∈ l.
Proof. unfold setOf. rewrite mapOf_keys, <- list_fmap_compose. by rewrite list_fmap_id. Qed.

(** [xs.sort((a, b) => f(a) - f(b))]: the stable sort of the language. *)
Section SortBy.
Context {A : Type} (f : A -> nat).

Fixpoint insertBy (x : A) (l : list A) : list A :=
  match l with
  | [] => [x]
  | y :: l' => if bool_decide (f x <= f y) then x :: y :: l' else y :: insertBy x l'
  end.

Definition sortBy (l : list A) : list A := foldr insertBy [] l.

Lemma insertBy_Permutation x l : insertBy x l ≡ₚ x :: l.
Proof.
  induction l as [|y l IH]; cbn; [done|]. case_bool_decide; [done|].
  rewrite IH. apply Permutation_swap.
Qed.

Lemma sortBy_Permutation l : sortBy l ≡ₚ l.
Proof.
  induction l as [|x l IH]; cbn; [done|]. by rewrite insertBy_Permutation, IH.
Qed.

Lemma elem_of_sortBy x l : x ∈ sortBy l <-> x ∈ l.
Proof. by rewrite sortBy_Permutation. Qed.

Lemma insertBy_Sorted x l :
  StronglySorted (fun a b => f a <= f b) l ->
  StronglySorted (fun a b => f a <= f b) (insertBy x l).
Proof.
  induction l as [|y l IH]; cbn; intros Hs.
  - by repeat constructor.
  - inversion Hs as [|? ? Hs' Hall]; subst. case_bool_decide.
    + constructor; [done|]. constructor; [done|].
      eapply Forall_impl; [done|]. cbn. lia.
    + constructor; [by apply IH|]. rewrite insertBy_Permutation.
      constructor; [lia|done].
Qed.

Lemma sortBy_Sorted l : StronglySorted (fun a b => f a <= f b) (sortBy l).
Proof. induction l; cbn; [constructor|]. by apply insertBy_Sorted. Qed.

Lemma insertBy_filter n x l :
  filter (fun y => f y = n) (insertBy x l) =
  filter (fun y => f y = n) (x :: l).
Proof.
  induction l as [|y l IH]; [done|]. cbn [insertBy]. case_bool_decide; [done|].
  rewrite filter_cons, IH, !filter_cons.
  repeat case_decide; try done. lia.
Qed.

(** Stability: elements with equal keys keep their order. *)
Lemma sortBy_stable n l :
  filter (fun y => f y = n) (sortBy l) = filter (fun y => f y = n) l.
Proof.
  induction l as [|x l IH]; [done|]. cbn [sortBy foldr].
  rewrite insertBy_filter. rewrite !filter_cons, <- IH. done.
Qed.
End SortBy.

(** ** Sublists of sorted lists *)

Lemma sublist_StronglySorted {A} (R : relation A) (l1 l2 : list A) :
  l1 `sublist_of` l2 -> StronglySorted R l2 -> StronglySorted R l1.
Proof.
  induction 1 as [|x l1 l2 Hs IH|x l1 l2 Hs IH]; intros H; [done| |].
  - inversion H as [|? ? H2 H3]; subst. constructor; [by apply IH|].
    rewrite Forall_forall in *. intros y Hy. eapply H3, sublist_subseteq; [|done]. done.
  - inversion H; subst. by apply IH.
Qed.

Lemma StronglySorted_lookup_lt {A} (R : relation A) (l : list A) i j x y :
  StronglySorted R l -> i < j -> l !! i = Some x -> l !! j = Some y -> R x y.
Proof.
  intros Hs. revert i j. induction Hs as [|z l Hs IH Hall]; intros i j Hij Hi Hj; [done|].
  destruct j as [|j]; [lia|]. cbn in Hj. destruct i as [|i]; cbn in Hi.
  - injection Hi as <-. rewrite Forall_lookup in Hall. by eapply Hall.
  - eapply (IH i j); [lia|done..].
Qed.

(** ** Filters *)

Lemma filter_all {A} (P : A -> Prop) `{forall x, Decision (P x)} (l : list A) :
  Forall P l -> filter P l = l.
Proof.
  induction 1 as [|x l Hx _ IH]; [done|]. rewrite filter_cons, decide_True by done.
  by rewrite IH.
Qed.

Lemma StronglySorted_filter {A} (R : relation A) (P : A -> Prop) `{forall x, Decision (P x)}
    (l : list A) :
  StronglySorted R l -> StronglySorted R (filter P l).
Proof. apply sublist_StronglySorted, sublist_filter. Qed.
