(* ===== verification/SyncTypes.v ===== *)
(** * Names, and the data the desktop engine works on

    [apps/desktop/src/engine/names.ts]: the key two paths collide on, the
    parent, base name and join of a relative path, why a name cannot exist on
    this computer, and what a pair leaves out. The loop
    [for (each = key; each; each = parentRel(each))] that the planner runs over
    a path and its folders is [selfAndParents].

    The types of [apps/desktop/src/shared/types.ts], [engine/local.ts],
    [engine/remote.ts] and [engine/store.ts] that the planner, the server tree
    and the saved base share. A time in milliseconds is a finite double; the
    engine only compares times for equality, so it is held as the integer it
    is a fixed multiple of. *)

From Stdlib Require Import Ascii.
From Stdlib Require String.
From S2P Require Import Prelude.

(** The process the engine runs in: whether [process.platform] is Windows or
    macOS, and the two Unicode functions of the language that [pathKey] calls. *)
Class Platform := {
  caseInsensitive : bool;
  normalizeNFC : string -> string;
  toLowerCase : string -> string
}.

(** What [pathKey] relies on: neither function makes, moves or removes a
    slash, so a path's key has the keys of its segments. *)
Class PlatformLaws `{Platform} := {
  normalizeNFC_slash a b :
    normalizeNFC (a +:+ String slash b) =
    normalizeNFC a +:+ String slash (normalizeNFC b);
  toLowerCase_slash a b :
    toLowerCase (a +:+ String slash b) =
    toLowerCase a +:+ String slash (toLowerCase b)
}.

(** ** Paths *)

Definition pathKey `{Platform} (rel : string) : string :=
  let nfc := normalizeNFC rel in
  if caseInsensitive then toLowerCase nfc else nfc.

Definition joinRel (parent name : string) : string :=
  if bool_decide (parent = "") then name else parent +:+ "/" +:+ name.

Definition parentRel (rel : string) : string :=
  match lastIndexOf slash rel with
  | None => ""
  | Some i => sliceTo i rel
  end.

Definition baseName (rel : string) : string :=
  match lastIndexOf slash rel with
  | None => rel
  | Some i => sliceFrom (S i) rel
  end.

(** [for (let each = key; each; each = parentRel(each))]: the values of [each]. *)
Fixpoint pathChain (fuel : nat) (each : string) : list string :=
  match fuel with
  | 0 => []
  | S fuel' =>
      if bool_decide (each = "") then [] else each :: pathChain fuel' (parentRel each)
  end.

Definition selfAndParents (key : string) : list string :=
  pathChain (String.length key) key.

(** The values of [parent] in
    [for (let parent = parentRel(key); parent; parent = parentRel(parent))]. *)
Definition properParents (key : string) : list string :=
  selfAndParents (parentRel key).

(** ** Names this computer cannot hold *)

Inductive NodePlatform := win32 | darwin | linux | otherPlatform.
#[export] Instance NodePlatform_eq_dec : EqDecision NodePlatform.
Proof. solve_decision. Defined.

Fixpoint hasAnyChar (cs : list ascii) (s : string) : bool :=
  match s with
  | EmptyString => false
  | String a s' => bool_decide (a ∈ cs) || hasAnyChar cs s'
  end.

(** The characters of the pattern: [<], [>], [:], the double quote, the
    backslash, [|], [?] and [*]. *)
Definition WINDOWS_BAD_CHARS : list ascii :=
  ["<"%char; ">"%char; ":"%char; ascii_of_nat 34; ascii_of_nat 92; "|"%char;
   "?"%char; "*"%char].

Fixpoint hasControlCharacter (name : string) : bool :=
  match name with
  | EmptyString => false
  | String a s' => bool_decide (nat_of_ascii a < 32) || hasControlCharacter s'
  end.

(** The character a regular expression's [i] flag compares an ASCII letter by. *)
Definition foldAscii (a : ascii) : ascii :=
  let n := nat_of_ascii a in
  if bool_decide (65 <= n <= 90) then ascii_of_nat (n + 32) else a.

Fixpoint foldAsciiString (s : string) : string :=
  match s with
  | EmptyString => EmptyString
  | String a s' => String (foldAscii a) (foldAsciiString s')
  end.

(** What [.] does not match: line feed, carriage return, U+2028 and U+2029. *)
Fixpoint hasLineTerminator (s : string) : bool :=
  match s with
  | EmptyString => false
  | String a s' =>
      bool_decide (nat_of_ascii a ∈ [10; 13])
      || String.prefix (whiteSpaceString [226; 128; 168]) s
      || String.prefix (whiteSpaceString [226; 128; 169]) s
      || hasLineTerminator s'
  end.

Definition superscriptDigits : list string :=
  [whiteSpaceString [194; 185]; whiteSpaceString [194; 178];
   whiteSpaceString [194; 179]].

(** [con], [prn], [aux], [nul], [com[0-9¹²³]], [lpt[0-9¹²³]]. *)
Definition reservedStems : list string :=
  ["con"; "prn"; "aux"; "nul"]
  ++ (String.append "com" <$> (["0"; "1"; "2"; "3"; "4"; "5"; "6"; "7"; "8"; "9"]
                               ++ superscriptDigits))
  ++ (String.append "lpt" <$> (["0"; "1"; "2"; "3"; "4"; "5"; "6"; "7"; "8"; "9"]
                               ++ superscriptDigits)).

(** [WINDOWS_RESERVED.test(name)]. *)
Definition windowsReserved (name : string) : bool :=
  existsb
    (fun stem =>
       String.prefix stem (foldAsciiString name)
       && match sliceFrom (String.length stem) name with
          | EmptyString => true
          | String "."%char rest => negb (hasLineTerminator rest)
          | _ => false
          end)
    reservedStems.

(** [/[. ]$/]. *)
Fixpoint endsInDotOrSpace (s : string) : bool :=
  match s with
  | EmptyString => false
  | String a EmptyString => bool_decide (a ∈ ["."%char; " "%char])
  | String _ s' => endsInDotOrSpace s'
  end.

Inductive NameReason := BadCharacter | BadEnding | ReservedName | NameTooLong.
#[export] Instance NameReason_eq_dec : EqDecision NameReason.
Proof. solve_decision. Defined.

(** The text of a reason; the Windows one names the double quote. *)
Definition reasonText (reason : NameReason) : string :=
  match reason with
  | BadCharacter =>
      "Windows does not allow < > : " +:+ String (ascii_of_nat 34) " \ | ? * in names."
  | BadEnding => "Windows does not allow names ending in a dot or space."
  | ReservedName => "Windows reserves this name."
  | NameTooLong => "The name is too long."
  end.

(** Why [name] cannot exist on this computer; [None] when it can. *)
Definition invalidNameReason (name : string) (platform : NodePlatform) :
    option NameReason :=
  let tooLong :=
    if bool_decide (255 < String.length name) then Some NameTooLong else None in
  if bool_decide (platform = win32) then
    if hasAnyChar WINDOWS_BAD_CHARS name || hasControlCharacter name
    then Some BadCharacter
    else if endsInDotOrSpace name then Some BadEnding
    else if windowsReserved name then Some ReservedName
    else tooLong
  else tooLong.

(** ** What a pair leaves out *)

Record SkipFolder := { sf_id : string; sf_label : string }.

Record LeftOut := {
  leftOut_ids : gset string;
  leftOut_local : string -> bool;
  leftOut_remote : string -> string -> bool
}.

Definition leftOutOf `{Platform} (skipFolders : option (list SkipFolder))
    (skipPaths : option (list string)) : LeftOut :=
  let ids : gset string := list_to_set (sf_id <$> default [] skipFolders) in
  let paths : gset string := list_to_set (pathKey <$> default [] skipPaths) in
  let local := fun rel => bool_decide (pathKey rel ∈ paths) in
  {| leftOut_ids := ids;
     leftOut_local := local;
     leftOut_remote := fun id rel => bool_decide (id ∈ ids) || local rel |}.

(** ** Lemmas on paths *)

Lemma parentRel_no_slash rel : hasChar slash rel = false -> parentRel rel = "".
Proof. intros H%lastIndexOf_None. unfold parentRel. by rewrite H. Qed.

Lemma parentRel_app p b :
  hasChar slash b = false -> parentRel (p +:+ String slash b) = p.
Proof. intros H. unfold parentRel. by rewrite lastIndexOf_app, sliceTo_app. Qed.

Lemma baseName_app p b :
  hasChar slash b = false -> baseName (p +:+ String slash b) = b.
Proof.
  intros H. unfold baseName. rewrite lastIndexOf_app by done.
  induction p as [|a p IH]; [done|]. rewrite string_app_cons. exact IH.
Qed.

Lemma parent_base_split rel :
  hasChar slash rel = true ->
  rel = parentRel rel +:+ String slash (baseName rel) /\
  hasChar slash (baseName rel) = false.
Proof.
  intros H. unfold parentRel, baseName.
  destruct (lastIndexOf slash rel) as [i|] eqn:E.
  - apply lastIndexOf_Some in E as (H1 & H2 & _). done.
  - apply lastIndexOf_None in E. congruence.
Qed.

Lemma baseName_no_slash rel : hasChar slash (baseName rel) = false.
Proof.
  destruct (hasChar slash rel) eqn:E; [by apply parent_base_split|].
  unfold baseName. by rewrite (proj2 (lastIndexOf_None _ _) E).
Qed.

Lemma parentRel_joinRel parent name :
  hasChar slash name = false -> parentRel (joinRel parent name) = parent.
Proof.
  intros H. unfold joinRel. case_bool_decide as Hp.
  - subst. by apply parentRel_no_slash.
  - change ("/" +:+ name) with (String slash name). by apply parentRel_app.
Qed.

Lemma baseName_joinRel parent name :
  hasChar slash name = false -> baseName (joinRel parent name) = name.
Proof.
  intros H. unfold joinRel. case_bool_decide as Hp.
  - unfold baseName. by rewrite (proj2 (lastIndexOf_None _ _) H).
  - change ("/" +:+ name) with (String slash name). by apply baseName_app.
Qed.

Lemma joinRel_parent_base rel :
  parentRel rel <> "" -> joinRel (parentRel rel) (baseName rel) = rel.
Proof.
  intros H. unfold joinRel. rewrite bool_decide_eq_false_2 by done.
  destruct (hasChar slash rel) eqn:E.
  - apply parent_base_split in E as [E _]. by symmetry.
  - by rewrite (parentRel_no_slash rel E) in H.
Qed.

Lemma parentRel_shorter rel :
  rel <> "" -> String.length (parentRel rel) < String.length rel.
Proof.
  intros Hne. destruct (hasChar slash rel) eqn:E.
  - apply parent_base_split in E as [E _].
    apply (f_equal String.length) in E. rewrite string_length_app in E. cbn in E. lia.
  - rewrite parentRel_no_slash by done. destruct rel; cbn; [done|lia].
Qed.

(** [above x key]: [x] is the path [key] or one of its folders. *)
Definition above (x key : string) : Prop :=
  x <> "" /\ (key = x \/ exists rest, key = x +:+ String slash rest).

Lemma last_split_unique s1 t1 s2 t2 :
  hasChar slash t1 = false -> hasChar slash t2 = false ->
  s1 +:+ String slash t1 = s2 +:+ String slash t2 -> s1 = s2 /\ t1 = t2.
Proof.
  intros H1 H2 E. split.
  - by rewrite <- (parentRel_app s1 t1), E, parentRel_app.
  - by rewrite <- (baseName_app s1 t1), E, baseName_app.
Qed.

Lemma above_parent x key :
  above x key <-> (x <> "" /\ key = x) \/ above x (parentRel key).
Proof.
  unfold above. destruct (hasChar slash key) eqn:E.
  - destruct (parent_base_split key E) as [Hk Hb].
    generalize (parentRel key) (baseName key) Hk Hb. clear E. intros p b -> Hb'.
    split.
    + intros [Hx [->|[r Hr]]]; [by left|]. right. split; [done|].
      destruct (hasChar slash r) eqn:Er.
      * destruct (parent_base_split r Er) as [Hr' Hbr]. right.
        exists (parentRel r). rewrite Hr' in Hr.
        rewrite <- (string_app_cons slash), string_app_assoc in Hr.
        apply last_split_unique in Hr as [-> _]; done.
      * apply last_split_unique in Hr as [-> _]; auto.
    + intros [[Hx ->]|[Hx [->|[r ->]]]]; (split; [done|]); [by left|right..].
      * by exists b.
      * exists (r +:+ String slash b).
        by rewrite <- string_app_assoc, string_app_cons.
  - rewrite (parentRel_no_slash key E). split.
    + intros [Hx [->|[r ->]]]; [by left|].
      rewrite hasChar_app in E. cbn in E. rewrite bool_decide_eq_true_2 in E by done.
      cbn in E. rewrite orb_true_r in E. done.
    + intros [[Hx ->]|[Hx [H|[r H]]]]; [auto|by subst|].
      by destruct x.
Qed.

Lemma elem_of_pathChain fuel x key :
  String.length key <= fuel -> x ∈ pathChain fuel key <-> above x key.
Proof.
  revert key. induction fuel as [|fuel IH]; intros key Hlen; cbn.
  - destruct key as [|a key]; [|cbn in Hlen; lia]. split; [set_solver|].
    intros [Hx [H|[r H]]]; by destruct x.
  - case_bool_decide as Hk.
    + subst. split; [set_solver|]. intros [Hx [H|[r H]]]; by destruct x.
    + rewrite elem_of_cons, IH, (above_parent x key) by
        (pose proof (parentRel_shorter key Hk); lia).
      naive_solver.
Qed.

(** The loop visits exactly the path and its folders; its fuel is enough. *)
Lemma elem_of_selfAndParents x key : x ∈ selfAndParents key <-> above x key.
Proof. by apply elem_of_pathChain. Qed.

Lemma elem_of_properParents x key :
  x ∈ properParents key <-> above x (parentRel key).
Proof. apply elem_of_selfAndParents. Qed.

Lemma above_refl x : x <> "" -> above x x.
Proof. intros H. by split; [|left]. Qed.

Lemma above_trans x y z : above x y -> above y z -> above x z.
Proof.
  intros [Hx Hxy] [Hy Hyz]. split; [done|].
  destruct Hyz as [->|[r ->]]; [done|]. right.
  destruct Hxy as [->|[r' ->]]; [by exists r|].
  exists (r' +:+ String slash r). by rewrite <- string_app_assoc, string_app_cons.
Qed.

(** A proper folder of a path is not the path. *)
Lemma above_proper_ne x key : above x (parentRel key) -> x <> key.
Proof.
  intros [Hx H] ->. assert (Hl := parentRel_shorter key Hx).
  destruct H as [H|[r H]]; rewrite H in Hl; [lia|].
  rewrite string_length_app in Hl. cbn in Hl. lia.
Qed.

Lemma above_child_parent x key :
  above x key -> x <> key -> above x (parentRel key).
Proof. intros [[_ ->]|?]%above_parent ?; done. Qed.

#[export] Hint Resolve above_refl above_trans : staaash.

(** [depth] of the planner: [rel.split("/").length]. *)
Definition depth (rel : string) : nat := length (splitOn slash rel).

Lemma depth_app p b : depth (p +:+ String slash b) = depth p + depth b.
Proof. unfold depth. by rewrite splitOn_app, length_app. Qed.

Lemma depth_pos k : 0 < depth k.
Proof. unfold depth. pose proof (splitOn_not_nil slash k). destruct (splitOn _ _); cbn; [done|lia]. Qed.

(** A folder is shallower than what it holds. *)
Lemma depth_above x key : above x key -> x <> key -> depth x < depth key.
Proof.
  intros [_ [->|[r ->]]] Hne; [done|]. rewrite depth_app. pose proof (depth_pos r). lia.
Qed.

(** ** The platform functions on ASCII names

    A concrete platform: names of ASCII characters are their own NFC form. *)
Definition asciiPlatform : Platform := {|
  caseInsensitive := true;
  normalizeNFC := fun s => s;
  toLowerCase := foldAsciiString
|}.

Lemma foldAsciiString_app a b :
  foldAsciiString (a +:+ b) = foldAsciiString a +:+ foldAsciiString b.
Proof.
  induction a as [|c a IH]; [done|]. rewrite !string_app_cons. cbn.
  by rewrite IH, string_app_cons.
Qed.

Lemma asciiPlatformLaws : @PlatformLaws asciiPlatform.
Proof. constructor; intros a b; [done|]. apply foldAsciiString_app. Qed.

(** [SyncMode]. *)
Inductive SyncMode := TwoWay | Download | Upload.
#[export] Instance SyncMode_eq_dec : EqDecision SyncMode.
Proof. solve_decision. Defined.

(** ["folder" | "file"]. *)
Inductive ItemType := folder | file.
#[export] Instance ItemType_eq_dec : EqDecision ItemType.
Proof. solve_decision. Defined.

(** [LocalEntry]. *)
Record LocalEntry := {
  le_rel : string;
  le_type : ItemType;
  le_size : Z;
  le_mtimeMs : Z;
  le_ino : string
}.
#[export] Instance LocalEntry_eq_dec : EqDecision LocalEntry.
Proof. solve_decision. Defined.

(** No id to go by: ['0']. *)
Definition UNKNOWN_INO : string := "0".

(** [RemoteItem]: a server item as the change feed last described it. *)
Record RemoteItem := {
  ri_id : string;
  ri_type : ItemType;
  ri_parentId : option string;
  ri_name : string;
  ri_size : option Z;
  ri_checksum : option string;
  ri_rev : Z;
  ri_modifiedAt : option Z
}.
#[export] Instance RemoteItem_eq_dec : EqDecision RemoteItem.
Proof. solve_decision. Defined.

(** [BaseEntry]: the last state both sides agreed on, for one path. *)
Record BaseEntry := {
  be_pairId : string;
  be_rel : string;
  be_type : ItemType;
  be_remoteId : string;
  be_rev : Z;
  be_checksum : option string;
  be_size : Z;
  be_mtimeMs : Z;
  be_ino : string
}.
#[export] Instance BaseEntry_eq_dec : EqDecision BaseEntry.
Proof. solve_decision. Defined.

(** [ScopedItem] and [SkippedItem]. *)
Record ScopedItem := { si_rel : string; si_item : RemoteItem }.
#[export] Instance ScopedItem_eq_dec : EqDecision ScopedItem.
Proof. solve_decision. Defined.

Record SkippedItem := { sk_rel : string; sk_item : RemoteItem; sk_reason : string }.

(** [Issue]. *)
Inductive IssueSource := scan | operation.
Inductive IssueKind :=
| invalid_name | quota | disk_full | folder_missing | folder_emptied
| server_folder_gone | error.

Record Issue := {
  is_pairId : string;
  is_rel : string;
  is_source : IssueSource;
  is_kind : IssueKind;
  is_message : string;
  is_remoteId : option string
}.

(** [Pick<LocalEntry, "size" | "mtimeMs" | "ino">]: what [sameStat] reads. *)
Record Stat := { st_size : Z; st_mtimeMs : Z; st_ino : string }.
#[export] Instance Stat_eq_dec : EqDecision Stat.
Proof. solve_decision. Defined.

Definition localStat (e : LocalEntry) : Stat :=
  {| st_size := le_size e; st_mtimeMs := le_mtimeMs e; st_ino := le_ino e |}.
Definition baseStat (e : BaseEntry) : Stat :=
  {| st_size := be_size e; st_mtimeMs := be_mtimeMs e; st_ino := be_ino e |}.

Definition sameStat (a b : Stat) : bool :=
  bool_decide (st_size a = st_size b)
  && bool_decide (st_mtimeMs a = st_mtimeMs b)
  && bool_decide (st_ino a = st_ino b).

Lemma sameStat_eq a b : sameStat a b = true <-> a = b.
Proof.
  unfold sameStat. rewrite !andb_true_iff, !bool_decide_eq_true.
  destruct a, b; cbn. naive_solver.
Qed.

Lemma sameStat_refl a : sameStat a a = true.
Proof. by apply sameStat_eq. Qed.
#[export] Hint Rewrite sameStat_eq : staaash.
