(* ===== verification/Plan.v ===== *)
(** * The sync planner

    [apps/desktop/src/engine/plan.ts]: from the three states of a pair (this
    computer, the server, and the last state both agreed on) the planner
    decides what to do with every path. It is pure; the engine reads both
    sides, calls it, runs the actions and plans again. The definitions follow
    the file's functions one by one: [view], the move rules, the folder and
    file rules, [decide] and [plan]. *)

From Stdlib Require Import Ascii.
From S2P Require Import Prelude SyncTypes.

(** ** Data *)

(** [LocalFile]: a local entry, with its checksum when one was computed. *)
Record LocalFile := { lf_entry : LocalEntry; lf_checksum : option string }.
#[export] Instance LocalFile_eq_dec : EqDecision LocalFile.
Proof. solve_decision. Defined.

Definition lf_rel (f : LocalFile) := le_rel (lf_entry f).
Definition lf_type (f : LocalFile) := le_type (lf_entry f).
Definition lf_ino (f : LocalFile) := le_ino (lf_entry f).
Definition lf_stat (f : LocalFile) := localStat (lf_entry f).

(** [replace] of an upload, and [unverified] of a conflict copy. *)
Record Replace := { rp_remoteId : string; rp_rev : Z }.
#[export] Instance Replace_eq_dec : EqDecision Replace.
Proof. solve_decision. Defined.
Record Unverified := { uv_remote : RemoteItem; uv_checksum : option string }.
#[export] Instance Unverified_eq_dec : EqDecision Unverified.
Proof. solve_decision. Defined.

Inductive Action :=
| move_local (from to : string) (remote : RemoteItem)
| move_remote (from to : string) (base : BaseEntry) (local : LocalFile)
| mkdir (rel : string) (remote : RemoteItem)
| create_remote_folder (rel : string) (local : LocalFile)
| download (rel : string) (remote : RemoteItem) (expect : option LocalFile)
| upload (rel : string) (local : LocalFile) (replace : option Replace)
| keep_mine (rel : string) (local : LocalFile) (remote : RemoteItem)
| conflict_copy (rel : string) (local : LocalFile) (localOnly : bool)
    (unverified : option Unverified)
| trash_local (rel : string) (local : LocalFile)
| trash_remote (rel : string) (remote : RemoteItem)
| link (rel : string) (local : LocalFile) (remote : RemoteItem)
| forget (rel : string).
#[export] Instance Action_eq_dec : EqDecision Action.
Proof. solve_decision. Defined.

(** [Excluded]: a path sync leaves alone this pass. *)
Inductive Side := local_side | remote_side.
#[export] Instance Side_eq_dec : EqDecision Side.
Proof. solve_decision. Defined.

Record Excluded := {
  ex_side : Side;
  ex_rel : string;
  ex_ino : option string;
  ex_remoteId : option string
}.

(** [Hold]: everything on one side of a pair disappeared. *)
Inductive Hold := hold_local | hold_server.
#[export] Instance Hold_eq_dec : EqDecision Hold.
Proof. solve_decision. Defined.

Record PlanInput := {
  in_pairId : string;
  in_mode : SyncMode;
  in_local : list LocalFile;
  in_remote : list ScopedItem;
  in_skipped : list SkippedItem;
  in_excluded : list Excluded;
  in_base : list BaseEntry;
  in_allowEmptied : bool
}.

Record Plan := {
  pl_actions : list Action;
  pl_issues : list Issue;
  pl_hold : option Hold;
  pl_needsHash : list LocalFile
}.

Definition EMPTIED_HOLD_FILES : nat := 10.

(** ** Paths and sets of paths *)

(** Some server files have no checksum; only their revision can show a change. *)
Definition sameOnServer (previous : BaseEntry) (item : RemoteItem) : bool :=
  match ri_checksum item with
  | None => bool_decide (be_rev previous = ri_rev item)
  | Some c => bool_decide (be_checksum previous = Some c)
  end.

(** Whether [key] or one of its folders is in one of the sets. *)
Definition covered (key : string) (sets : list (gset string)) : bool :=
  existsb (fun each => existsb (fun s => bool_decide (each ∈ s)) sets)
    (selfAndParents key).

(** The inner loop of [dirtyFolders]: stops at the first folder already dirty. *)
Fixpoint addParents (parents : list string) (dirty : gset string) : gset string :=
  match parents with
  | [] => dirty
  | parent :: rest =>
      if bool_decide (parent ∈ dirty) then dirty
      else addParents rest ({[parent]} ∪ dirty)
  end.

(** Folders whose subtree differs from the base on one side. *)
Definition dirtyFolders (keys : list string) (isClean : string -> bool) :
    gset string :=
  foldl (fun dirty key =>
           if isClean key then dirty else addParents (properParents key) dirty)
    ∅ keys.

(** ** The view: both sides and the base, indexed *)

Record Hidden := {
  hd_keys : gset string;
  hd_inos : gset string;
  hd_ids : gset string
}.

Record View := {
  v_mode : SyncMode;
  v_local : list (string * LocalFile);
  v_remote : list (string * ScopedItem);
  v_base : list (string * BaseEntry);
  v_remoteById : list (string * ScopedItem);
  v_localByIno : list (string * LocalFile);
  v_hidden : Hidden;
  v_hiddenUnder_local : gset string;
  v_hiddenUnder_remote : gset string
}.

(** One path, as each side and the base see it. *)
Record Cell := {
  c_key : string;
  c_rel : string;
  c_here : option LocalFile;
  c_there : option ScopedItem;
  c_previous : option BaseEntry
}.

Definition allExcluded (input : PlanInput) : list Excluded :=
  in_excluded input
  ++ ((fun skip => {| ex_side := remote_side; ex_rel := sk_rel skip;
                      ex_ino := None; ex_remoteId := Some (ri_id (sk_item skip)) |})
      <$> in_skipped input).

Section Planner.
Context `{Platform}.

Definition view (input : PlanInput) : View :=
  let base := mapOf ((fun entry => (pathKey (be_rel entry), entry)) <$> in_base input) in
  let excluded := allExcluded input in
  let under (side : Side) :=
    dirtyFolders
      ((fun each => pathKey (ex_rel each))
       <$> filter (fun each => ex_side each = side) excluded)
      (fun _ => false) in
  {| v_mode := in_mode input;
     v_local := mapOf ((fun entry => (pathKey (lf_rel entry), entry)) <$> in_local input);
     v_remote := mapOf ((fun each => (pathKey (si_rel each), each)) <$> in_remote input);
     v_base := base;
     v_remoteById := mapOf ((fun each => (ri_id (si_item each), each)) <$> in_remote input);
     v_localByIno :=
       mapOf ((fun entry => (lf_ino entry, entry))
              <$> filter (fun entry =>
                     lf_ino entry <> UNKNOWN_INO
                     /\ mapHas (pathKey (lf_rel entry)) base = false)
                  (in_local input));
     v_hidden :=
       {| hd_keys := list_to_set ((fun each => pathKey (ex_rel each)) <$> excluded);
          hd_inos := list_to_set (omap ex_ino excluded);
          hd_ids := list_to_set (omap ex_remoteId excluded) |};
     v_hiddenUnder_local := under local_side;
     v_hiddenUnder_remote := under remote_side |}.

(** Synced folders renamed on either side to a name sync leaves alone. *)
Definition vanishedFolders (v : View) : gset string :=
  list_to_set
    (filter (fun e : string * BaseEntry =>
       be_type e.2 = folder
       /\ covered e.1 [hd_keys (v_hidden v)] = false
       /\ ((be_ino e.2 <> UNKNOWN_INO /\ be_ino e.2 ∈ hd_inos (v_hidden v))
           \/ be_remoteId e.2 ∈ hd_ids (v_hidden v)))
     (v_base v)).*1.

(** The server item still exists somewhere. *)
Definition stillOnServer (v : View) (previous : BaseEntry) : bool :=
  mapHas (be_remoteId previous) (v_remoteById v)
  || bool_decide (be_remoteId previous ∈ hd_ids (v_hidden v)).

(** The local file or folder still exists somewhere. *)
Definition stillHere (v : View) (previous : BaseEntry) : bool :=
  bool_decide (be_ino previous <> UNKNOWN_INO)
  && (mapHas (be_ino previous) (v_localByIno v)
      || bool_decide (be_ino previous ∈ hd_inos (v_hidden v))).

(** Emptying a small folder on purpose is normal; a big one needs a yes. *)
Definition holdFor (input : PlanInput) : option Hold :=
  if in_allowEmptied input then None
  else
    let files := length (filter (fun entry => be_type entry = file) (in_base input)) in
    if bool_decide (files < EMPTIED_HOLD_FILES) then None
    else if bool_decide (in_local input = []) && bool_decide (in_mode input = TwoWay)
    then Some hold_local
    else if bool_decide (in_remote input = []) && bool_decide (in_mode input <> Upload)
    then Some hold_server
    else None.

(** ** Moves *)

Record Move := { mv_target : string; mv_action : option Action }.

Definition set_be_ino (ino : string) (e : BaseEntry) : BaseEntry :=
  {| be_pairId := be_pairId e; be_rel := be_rel e; be_type := be_type e;
     be_remoteId := be_remoteId e; be_rev := be_rev e;
     be_checksum := be_checksum e; be_size := be_size e;
     be_mtimeMs := be_mtimeMs e; be_ino := ino |}.

(** A server move this computer can repeat; no action while its folder is missing. *)
Definition serverMove (v : View) (entry : BaseEntry) : option Move :=
  let key := pathKey (be_rel entry) in
  let here := mapGet key (v_local v) in
  match mapGet (be_remoteId entry) (v_remoteById v) with
  | None => None
  | Some onServer =>
      if bool_decide (v_mode v = Upload) || bool_decide (pathKey (si_rel onServer) = key)
      then None
      else
        let target := pathKey (si_rel onServer) in
        match here with
        | None => None
        | Some here =>
            if negb (bool_decide (lf_type here = be_type entry))
               || mapHas target (v_local v)
            then None
            else
              (* Following a rename moves no bytes, so an unknown id need not block it. *)
              let known :=
                if bool_decide (be_ino entry = UNKNOWN_INO)
                then set_be_ino (lf_ino here) entry else entry in
              if bool_decide (be_type entry = file)
                 && negb (sameStat (lf_stat here) (baseStat known))
              then None
              else
                let ready :=
                  bool_decide (parentRel target = "")
                  || opt_is (lf_type <$> mapGet (parentRel target) (v_local v)) folder in
                Some {| mv_target := target;
                        mv_action :=
                          if ready
                          then Some (move_local (lf_rel here) (si_rel onServer)
                                       (si_item onServer))
                          else None |}
        end
  end.

(** A stop between the two calls of a move and rename leaves the server item
    with the new folder and the old name, or the other way round. *)
Definition halfway (from there to : string) : bool :=
  (bool_decide (parentRel there = parentRel to)
   && bool_decide (baseName there = baseName from))
  || (bool_decide (parentRel there = parentRel from)
      && bool_decide (baseName there = baseName to)).

(** A local move, found by inode, that the server can repeat. *)
Definition localMove (v : View) (entry : BaseEntry) : option Move :=
  let key := pathKey (be_rel entry) in
  let onServer := mapGet (be_remoteId entry) (v_remoteById v) in
  if bool_decide (v_mode v = Download) || mapHas key (v_local v)
     || bool_decide (be_ino entry = UNKNOWN_INO)
  then None
  else
    match onServer, mapGet (be_ino entry) (v_localByIno v) with
    | Some onServer, Some moved =>
        if negb (bool_decide (lf_type moved = be_type entry)) then None
        else if bool_decide (be_type entry = file)
                && negb (sameStat (lf_stat moved) (baseStat entry))
        then None
        else
          let target := pathKey (lf_rel moved) in
          let there := pathKey (si_rel onServer) in
          if negb (bool_decide (there = key)) && negb (halfway key there target)
          then None
          else if negb (bool_decide (there = target)) && mapHas target (v_remote v)
          then None
          else
            let ready :=
              bool_decide (parentRel target = "")
              || opt_is ((fun each => ri_type (si_item each))
                         <$> mapGet (parentRel target) (v_remote v)) folder in
            Some {| mv_target := target;
                    mv_action :=
                      if ready
                      then Some (move_remote (be_rel entry) (lf_rel moved) entry moved)
                      else None |}
    | _, _ => None
    end.

(** One turn of the loop of [planMoves]: the moves so far and the pending keys. *)
Definition planMove (v : View) (state : list Action * gset string)
    (entry : BaseEntry) : list Action * gset string :=
  let '(moves, pending) := state in
  let blocked (key : string) := covered key [pending; hd_keys (v_hidden v)] in
  let key := pathKey (be_rel entry) in
  if blocked key then state
  else
    match (match serverMove v entry with
           | Some move => Some move
           | None => localMove v entry
           end) with
    | None => state
    | Some move =>
        if blocked (mv_target move) then state
        else
          (match mv_action move with
           | Some action => moves ++ [action]
           | None => moves
           end,
           {[mv_target move]} ∪ ({[key]} ∪ pending))
    end.

(** Moves come first and alone. *)
Definition planMoves (v : View) (base : list BaseEntry) : list Action * gset string :=
  foldl (planMove v) ([], ∅) (sortBy (fun entry => depth (be_rel entry)) base).

(** ** Folders whose contents changed on a side since the base *)

Definition cleanHere (v : View) (key : string) : bool :=
  match mapGet key (v_local v) with
  | None => true
  | Some here =>
      match mapGet key (v_base v) with
      | None => false
      | Some previous =>
          if negb (bool_decide (be_type previous = lf_type here)) then false
          else bool_decide (lf_type here = folder)
               || sameStat (lf_stat here) (baseStat previous)
      end
  end.

Definition cleanThere (v : View) (key : string) : bool :=
  match mapGet key (v_remote v) with
  | None => true
  | Some there =>
      match mapGet key (v_base v) with
      | None => false
      | Some previous =>
          if negb (bool_decide (be_remoteId previous = ri_id (si_item there))) then false
          else bool_decide (ri_type (si_item there) = folder)
               || sameOnServer previous (si_item there)
      end
  end.

Record Dirty := { d_local : gset string; d_remote : gset string }.

Definition dirtySides (v : View) : Dirty :=
  {| d_local := v_hiddenUnder_local v ∪ dirtyFolders (v_local v).*1 (cleanHere v);
     d_remote := v_hiddenUnder_remote v ∪ dirtyFolders (v_remote v).*1 (cleanThere v) |}.

Record PlanDecision := { dc_action : option Action; dc_gone : bool }.
Definition just (action : Action) : PlanDecision :=
  {| dc_action := Some action; dc_gone := false |}.
Definition nothing : PlanDecision := {| dc_action := None; dc_gone := false |}.

(** The saved id was unknown and the disk now gives one worth saving. *)
Definition idToSave (previous : option BaseEntry) (here : LocalFile) : bool :=
  opt_is (be_ino <$> previous) UNKNOWN_INO
  && negb (bool_decide (lf_ino here = UNKNOWN_INO)).

(** ** Folders *)

Definition folderOnBothSides (cell : Cell) : PlanDecision :=
  match c_here cell, c_there cell with
  | Some here, Some there =>
      if negb (opt_is (be_remoteId <$> c_previous cell) (ri_id (si_item there)))
         || idToSave (c_previous cell) here
      then just (link (c_rel cell) here (si_item there))
      else nothing
  | _, _ => nothing
  end.

(** A folder only the server has: new there, or deleted here. *)
Definition folderOnlyThere (v : View) (cell : Cell) (dirty : gset string) :
    PlanDecision :=
  match c_there cell with
  | None => nothing
  | Some there =>
      let trash :=
        match c_previous cell with
        | None => false
        | Some previous =>
            bool_decide (v_mode v = TwoWay)
            && bool_decide (c_key cell ∉ dirty)
            && negb (stillHere v previous)
        end in
      if trash then
        {| dc_action := Some (trash_remote (c_rel cell) (si_item there));
           dc_gone := true |}
      else if negb (bool_decide (v_mode v = Upload))
      then just (mkdir (si_rel there) (si_item there))
      else match c_previous cell with
           | Some _ => just (forget (c_rel cell))
           | None => nothing
           end
  end.

(** A folder only this computer has: new here, or deleted on the server. *)
Definition folderOnlyHere (v : View) (cell : Cell) (dirty : gset string) :
    PlanDecision :=
  match c_here cell with
  | None => nothing
  | Some here =>
      let trash :=
        match c_previous cell with
        | None => false
        | Some previous =>
            negb (bool_decide (v_mode v = Upload))
            && bool_decide (c_key cell ∉ dirty)
            && negb (stillOnServer v previous)
        end in
      if trash then
        {| dc_action := Some (trash_local (c_rel cell) here); dc_gone := true |}
      else if negb (bool_decide (v_mode v = Download))
      then just (create_remote_folder (c_rel cell) here)
      else match c_previous cell with
           | Some _ => just (forget (c_rel cell))
           | None => nothing
           end
  end.

(** [previous ? { kind: "forget", rel } : null]. *)
Definition forgetPrevious (cell : Cell) : option Action :=
  match c_previous cell with
  | Some _ => Some (forget (c_rel cell))
  | None => None
  end.

Definition planFolder (v : View) (cell : Cell) (dirty : Dirty) : PlanDecision :=
  match c_here cell, c_there cell with
  | Some _, Some _ => folderOnBothSides cell
  | None, Some _ => folderOnlyThere v cell (d_remote dirty)
  | Some _, None => folderOnlyHere v cell (d_local dirty)
  | None, None => {| dc_action := forgetPrevious cell; dc_gone := false |}
  end.

(** ** Files *)

(** Both sides have the file; [mine] is the local checksum. *)
Definition fileOnBothSides (v : View) (rel : string) (here : LocalFile)
    (there : ScopedItem) (previous : option BaseEntry) (mine : option string) :
    option Action :=
  let item := si_item there in
  let theirs := ri_checksum item in
  let sameItem := opt_is (be_remoteId <$> previous) (ri_id item) in
  if bool_decide (mine = theirs) then
    let stale :=
      match previous with
      | None => true
      | Some previous =>
          negb sameItem || negb (bool_decide (be_rev previous = ri_rev item))
          || negb (sameStat (lf_stat here) (baseStat previous))
      end in
    if stale then Some (link rel here item) else None
  else
    let localChanged :=
      match previous with
      | None => true
      | Some previous => negb (bool_decide (mine = be_checksum previous))
      end in
    let remoteChanged :=
      match previous with
      | None => true
      | Some previous => negb sameItem || negb (sameOnServer previous item)
      end in
    if negb localChanged && negb remoteChanged then None
    else if localChanged && remoteChanged then
      if bool_decide (v_mode v = Upload) then Some (keep_mine rel here item)
      else Some (conflict_copy rel here (bool_decide (v_mode v = Download))
                   (match theirs with
                    | None => Some {| uv_remote := item; uv_checksum := mine |}
                    | Some _ => None
                    end))
    else if localChanged then
      if bool_decide (v_mode v = Download)
      then Some (conflict_copy rel here true None)
      else Some (upload rel here
                   (Some {| rp_remoteId := ri_id item; rp_rev := ri_rev item |}))
    else if bool_decide (v_mode v = Upload) then None
    else Some (download rel item (Some here)).

(** Only this computer has the file: new here, or deleted on the server. *)
Definition fileOnlyHere (v : View) (rel : string) (here : LocalFile)
    (previous : option BaseEntry) : option Action :=
  let kept :=
    match previous with Some previous => stillOnServer v previous | None => false end in
  if kept then Some (forget rel)
  else
    let unchanged :=
      match previous with
      | None => false
      | Some p =>
          sameStat (lf_stat here) (baseStat p)
          || (idToSave previous here
              && match lf_checksum here, be_checksum p with
                 | Some a, Some b => bool_decide (a = b)
                 | _, _ => false
                 end)
      end in
    if bool_decide (v_mode v = Upload)
       || (bool_decide (v_mode v = TwoWay) && negb unchanged)
    then Some (upload rel here None)
    else if unchanged then Some (trash_local rel here)
    else match previous with Some _ => Some (forget rel) | None => None end.

(** Only the server has the file: new there, or deleted here. *)
Definition fileOnlyThere (v : View) (rel : string) (there : ScopedItem)
    (previous : option BaseEntry) : option Action :=
  let item := si_item there in
  let unchanged :=
    match previous with
    | None => false
    | Some p => bool_decide (be_remoteId p = ri_id item) && sameOnServer p item
    end in
  if bool_decide (v_mode v = Download)
     || (bool_decide (v_mode v = TwoWay) && negb unchanged)
  then Some (download (si_rel there) item None)
  else
    let moved :=
      match previous with Some previous => stillHere v previous | None => false end in
    if moved then Some (forget rel)
    else if unchanged && bool_decide (v_mode v = TwoWay)
    then Some (trash_remote rel item)
    else match previous with Some _ => Some (forget rel) | None => None end.

(** The local checksum when it is known without reading the file. The outer
    option is [undefined], the inner one [null]. *)
Definition checksumOf (entry : LocalFile) (previous : option BaseEntry) :
    option (option string) :=
  match previous with
  | Some p =>
      if sameStat (lf_stat entry) (baseStat p) then Some (be_checksum p)
      else Some <$> lf_checksum entry
  | None => Some <$> lf_checksum entry
  end.

(** ** Deciding one path *)

(** [here?.type ?? there?.item.type ?? previous?.type]. *)
Definition cellType (cell : Cell) : option ItemType :=
  match c_here cell with
  | Some here => Some (lf_type here)
  | None =>
      match c_there cell with
      | Some there => Some (ri_type (si_item there))
      | None => be_type <$> c_previous cell
      end
  end.

(** [here && there && here.type !== there.item.type]. *)
Definition typesDiffer (cell : Cell) : bool :=
  match c_here cell, c_there cell with
  | Some here, Some there =>
      negb (bool_decide (lf_type here = ri_type (si_item there)))
  | _, _ => false
  end.

Definition act (action : option Action) : PlanDecision :=
  {| dc_action := action; dc_gone := false |}.

(** The decision, and the files whose checksum is needed first. *)
Definition decideFile (v : View) (cell : Cell) (needsHash : list LocalFile) :
    PlanDecision * list LocalFile :=
  match c_here cell, c_there cell with
  | Some here, Some there =>
      match checksumOf here (c_previous cell) with
      | None => (nothing, needsHash ++ [here])
      | Some mine =>
          (act (fileOnBothSides v (c_rel cell) here there (c_previous cell) mine),
           needsHash)
      end
  | Some here, None =>
      (* Size and time can't prove an edit away, and an edit beats a delete. *)
      if idToSave (c_previous cell) here && bool_decide (lf_checksum here = None)
      then (nothing, needsHash ++ [here])
      else (act (fileOnlyHere v (c_rel cell) here (c_previous cell)), needsHash)
  | None, Some there =>
      (act (fileOnlyThere v (c_rel cell) there (c_previous cell)), needsHash)
  | None, None => (act (forgetPrevious cell), needsHash)
  end.

Definition decideCell (v : View) (cell : Cell) (dirty : Dirty)
    (needsHash : list LocalFile) : PlanDecision * list LocalFile :=
  if typesDiffer cell then
    (match c_here cell with
     | Some here =>
         if bool_decide (v_mode v = Upload) then nothing
         else just (conflict_copy (c_rel cell) here
                      (bool_decide (v_mode v = Download)) None)
     | None => nothing
     end, needsHash)
  else if opt_is (cellType cell) folder then (planFolder v cell dirty, needsHash)
  else decideFile v cell needsHash.

(** ** The plan *)

(** The state of the loop over all paths. *)
Record Loop := {
  lp_actions : list Action;
  lp_gone : gset string;
  lp_needsHash : list LocalFile
}.

Definition cellOf (v : View) (key : string) : Cell :=
  let here := mapGet key (v_local v) in
  let there := mapGet key (v_remote v) in
  let previous := mapGet key (v_base v) in
  {| c_key := key;
     c_rel :=
       match here with
       | Some here => lf_rel here
       | None =>
           match there with
           | Some there => si_rel there
           | None => match previous with Some p => be_rel p | None => key end
           end
       end;
     c_here := here;
     c_there := there;
     c_previous := previous |}.

Definition planPath (v : View) (dirty : Dirty) (pending vanished : gset string)
    (state : Loop) (key : string) : Loop :=
  if covered key [pending; lp_gone state; hd_keys (v_hidden v)] then state
  else if covered key [vanished] then
    (* Renamed out of sight; the other side's copy syncs again as new. *)
    match mapGet key (v_base v) with
    | Some previous =>
        {| lp_actions := lp_actions state ++ [forget (be_rel previous)];
           lp_gone := lp_gone state; lp_needsHash := lp_needsHash state |}
    | None => state
    end
  else
    let '(decision, needsHash) :=
      decideCell v (cellOf v key) dirty (lp_needsHash state) in
    {| lp_actions :=
         match dc_action decision with
         | Some action => lp_actions state ++ [action]
         | None => lp_actions state
         end;
       lp_gone := if dc_gone decision then {[key]} ∪ lp_gone state else lp_gone state;
       lp_needsHash := needsHash |}.

(** [keys.sort(...)]: every path of the three states, folders first. *)
Definition planKeys (v : View) : list string :=
  sortBy depth (setOf ((v_local v).*1 ++ (v_remote v).*1 ++ (v_base v).*1)).

Definition planPaths (v : View) (pending : gset string) : Loop :=
  foldl (planPath v (dirtySides v) pending (vanishedFolders v))
    {| lp_actions := []; lp_gone := ∅; lp_needsHash := [] |} (planKeys v).

Definition planIssues (input : PlanInput) : list Issue :=
  (fun skip =>
     {| is_pairId := in_pairId input; is_rel := sk_rel skip; is_source := scan;
        is_kind := invalid_name; is_message := sk_reason skip;
        is_remoteId := Some (ri_id (sk_item skip)) |}) <$> in_skipped input.

Definition plan (input : PlanInput) : Plan :=
  let issues := planIssues input in
  match holdFor input with
  | Some hold =>
      {| pl_actions := []; pl_issues := issues; pl_hold := Some hold;
         pl_needsHash := [] |}
  | None =>
      let v := view input in
      let '(moves, pending) := planMoves v (in_base input) in
      match moves with
      | _ :: _ =>
          {| pl_actions := moves; pl_issues := issues; pl_hold := None;
             pl_needsHash := [] |}
      | [] =>
          let loop := planPaths v pending in
          {| pl_actions := lp_actions loop; pl_issues := issues; pl_hold := None;
             pl_needsHash := lp_needsHash loop |}
      end
  end.

End Planner.

(** ** The name of a conflict copy *)

(** The local date parts the name is stamped with; [getMonth] counts from 0. *)
Record LocalDate := {
  getFullYear : Z; getMonth : Z; getDate : Z; getHours : Z; getMinutes : Z
}.

(** [deviceName.replace(...)] with the characters a name cannot hold. *)
Definition deviceBadChars : list ascii :=
  ["<"%char; ">"%char; ":"%char; ascii_of_nat 34; "/"%char; ascii_of_nat 92;
   "|"%char; "?"%char; "*"%char; "("%char; ")"%char].

Fixpoint removeChars (cs : list ascii) (s : string) : string :=
  match s with
  | EmptyString => EmptyString
  | String a s' =>
      if bool_decide (a ∈ cs) then removeChars cs s' else String a (removeChars cs s')
  end.

Definition conflictStamp (now : LocalDate) : string :=
  numberString (getFullYear now)
  +:+ "-" +:+ padStart2 (numberString (getMonth now + 1))
  +:+ "-" +:+ padStart2 (numberString (getDate now))
  +:+ " " +:+ padStart2 (numberString (getHours now))
  +:+ "-" +:+ padStart2 (numberString (getMinutes now)).

(** The candidate of one attempt, counted from 1. *)
Definition conflictCandidate (rel deviceName : string) (now : LocalDate)
    (attempt : nat) : string :=
  let name := baseName rel in
  let '(stem, extension) :=
    match lastIndexOf "."%char name with
    | Some (S dot) => (sliceTo (S dot) name, sliceFrom (S dot) name)
    | _ => (name, "")
    end in
  let cleaned := trim (removeChars deviceBadChars deviceName) in
  let device := if bool_decide (cleaned = "") then "this device" else cleaned in
  let folder := parentRel rel in
  let suffix :=
    if bool_decide (attempt = 1) then "" else " " +:+ numberString (Z.of_nat attempt) in
  let candidate :=
    stem +:+ " (conflict, " +:+ device +:+ ", " +:+ conflictStamp now +:+ suffix
    +:+ ")" +:+ extension in
  if bool_decide (folder = "") then candidate else folder +:+ "/" +:+ candidate.

(** The unbounded loop over attempts, with fuel; [None] when it runs out. *)
Fixpoint conflictLoop (fuel : nat) (rel deviceName : string) (now : LocalDate)
    (taken : string -> bool) (attempt : nat) : option string :=
  match fuel with
  | 0 => None
  | S fuel' =>
      let candidateRel := conflictCandidate rel deviceName now attempt in
      if taken candidateRel
      then conflictLoop fuel' rel deviceName now taken (S attempt)
      else Some candidateRel
  end.

Definition conflictCopyName (fuel : nat) (rel deviceName : string)
    (now : LocalDate) (taken : string -> bool) : option string :=
  conflictLoop fuel rel deviceName now taken 1.
