(* ===== verification/PlanFacts.v ===== *)
(** * Lemmas on the sync planner

    The view's indexes, [covered] and [dirtyFolders] in terms of the relation
    [above], and where an action of a plan comes from. The properties of the
    planner are in [PlanSafety]. *)

From S2P Require Import Prelude SyncTypes Plan.

Create HintDb plan.

(** ** Sets of paths *)

Lemma covered_true key sets :
  covered key sets = true <-> exists x s, above x key /\ s ∈ sets /\ x ∈ s.
Proof.
  unfold covered. rewrite existsb_exists. split.
  - intros (x & Hx%list_elem_of_In%elem_of_selfAndParents & Hs).
    apply existsb_exists in Hs as (s & Hs%list_elem_of_In & Hin).
    apply bool_decide_eq_true_1 in Hin. eauto.
  - intros (x & s & Hx & Hs & Hin). exists x.
    split; [by apply list_elem_of_In, elem_of_selfAndParents|].
    apply existsb_exists. exists s. split; [by apply list_elem_of_In|].
    by apply bool_decide_eq_true_2.
Qed.

Lemma covered_false key sets :
  covered key sets = false <-> forall x s, above x key -> s ∈ sets -> x ∉ s.
Proof.
  rewrite <- not_true_iff_false, covered_true. split.
  - intros Hn x s Hx Hs Hin. apply Hn. eauto.
  - intros Hn (x & s & Hx & Hs & Hin). by apply (Hn x s).
Qed.

Lemma covered_incl key sets sets' :
  sets' ⊆ sets -> covered key sets = false -> covered key sets' = false.
Proof. rewrite !covered_false. set_solver. Qed.

(** A set of folders that holds every folder of each of its members. *)
Definition parentClosed (dirty : gset string) : Prop :=
  forall x y, x ∈ dirty -> above y x -> y ∈ dirty.

Lemma addParents_chain fuel p extra dirty :
  parentClosed dirty -> String.length p <= fuel ->
  (forall x, above x p -> x ∉ extra) ->
  addParents (pathChain fuel p) (extra ∪ dirty) =
  list_to_set (pathChain fuel p) ∪ (extra ∪ dirty).
Proof.
  intros Hcl. revert p extra. induction fuel as [|fuel IH]; intros p extra Hlen Hex.
  - cbn. set_solver.
  - cbn [pathChain]. case_bool_decide as Hp; [cbn; set_solver|].
    cbn [addParents list_to_set]. case_bool_decide as Hin.
    + assert (Hd : p ∈ dirty) by (specialize (Hex p (above_refl p Hp)); set_solver).
      apply set_eq. intros x. split; [set_solver|]. rewrite elem_of_union.
      intros [Hx|]; [|done]. apply elem_of_union_r.
      apply (Hcl p); [done|].
      change (list_to_set (p :: pathChain fuel (parentRel p)))
        with (list_to_set (C:=gset string) (p :: pathChain fuel (parentRel p))) in Hx.
      apply elem_of_union in Hx as [Hx%elem_of_singleton|Hx].
      * subst. by apply above_refl.
      * apply elem_of_list_to_set, elem_of_pathChain in Hx.
        -- by apply above_parent; right.
        -- pose proof (parentRel_shorter p Hp). lia.
    + rewrite (union_assoc_L {[p]} extra dirty), IH.
      * set_solver.
      * pose proof (parentRel_shorter p Hp). lia.
      * intros x Hx. pose proof (above_proper_ne x p Hx).
        assert (x ∉ extra) by (apply Hex, above_parent; by right). set_solver.
Qed.

Lemma addParents_parents key dirty :
  parentClosed dirty ->
  addParents (properParents key) dirty = list_to_set (properParents key) ∪ dirty.
Proof.
  intros Hcl. unfold properParents, selfAndParents.
  rewrite <- (union_empty_l_L dirty) at 1. rewrite addParents_chain; [set_solver|done|done|].
  set_solver.
Qed.

Lemma parentClosed_parents key dirty :
  parentClosed dirty -> parentClosed (list_to_set (properParents key) ∪ dirty).
Proof.
  intros Hcl x y [Hx|Hx]%elem_of_union Hy; [|set_solver].
  apply elem_of_union_l, elem_of_list_to_set, elem_of_properParents.
  apply elem_of_list_to_set, elem_of_properParents in Hx.
  by apply (above_trans y x).
Qed.

Lemma foldl_dirty (keys : list string) (isClean : string -> bool) (dirty : gset string) :
  parentClosed dirty ->
  let r := foldl (fun (dirty : gset string) key =>
             if isClean key then dirty else addParents (properParents key) dirty)
             dirty keys in
  parentClosed r /\
  forall x, x ∈ r <->
    x ∈ dirty \/ exists k, k ∈ keys /\ isClean k = false /\ above x (parentRel k).
Proof.
  revert dirty. induction keys as [|k keys IH]; intros dirty Hcl; cbn.
  - split; [done|]. set_solver.
  - destruct (isClean k) eqn:E.
    + destruct (IH dirty Hcl) as [H1 H2]. split; [done|]. intros x. rewrite H2.
      split.
      * intros [?|(k' & ? & ? & ?)]; [by left|right; exists k'].
        rewrite elem_of_cons. auto.
      * intros [?|(k' & [->|?]%elem_of_cons & ? & ?)]; [by left|congruence|].
        right. by exists k'.
    + rewrite addParents_parents by done.
      destruct (IH _ (parentClosed_parents k dirty Hcl)) as [H1 H2]. split; [done|].
      intros x. rewrite H2, elem_of_union, elem_of_list_to_set, elem_of_properParents.
      split.
      * intros [[?|?]|(k' & ? & ? & ?)]; [right; exists k|by left|right; exists k'];
          rewrite elem_of_cons; auto.
      * intros [?|(k' & [->|?]%elem_of_cons & ? & ?)]; [by left; right|by left; left|].
        right. by exists k'.
Qed.

(** The loop with its early exit computes every proper folder of a key that
    is not clean. *)
Lemma elem_of_dirtyFolders x keys isClean :
  x ∈ dirtyFolders keys isClean <->
  exists k, k ∈ keys /\ isClean k = false /\ above x (parentRel k).
Proof.
  unfold dirtyFolders.
  assert (Hcl : parentClosed ∅) by (intros a b Ha; set_solver).
  destruct (foldl_dirty keys isClean ∅ Hcl) as [_ ->].
  split; [intros [?%elem_of_empty|?]|]; auto. done.
Qed.

(** ** The view *)

Section View.
Context `{Platform}.

Lemma mapGet_keyed {A} (f : A -> string) (l : list A) k x :
  mapGet k (mapOf ((fun e => (f e, e)) <$> l)) = Some x -> f x = k /\ x ∈ l.
Proof.
  intros Hg%mapGet_mapOf_elem. apply list_elem_of_fmap in Hg as (y & [= -> ->] & Hy).
  done.
Qed.

Lemma mapHas_keyed {A} (f : A -> string) (l : list A) k :
  mapHas k (mapOf ((fun e => (f e, e)) <$> l)) = true <-> exists x, x ∈ l /\ f x = k.
Proof.
  rewrite mapHas_true, mapGet_keys, mapOf_keys, <- list_fmap_compose.
  rewrite list_elem_of_fmap. cbn. naive_solver.
Qed.

Lemma view_local input key here :
  mapGet key (v_local (view input)) = Some here ->
  pathKey (lf_rel here) = key /\ here ∈ in_local input.
Proof. apply (mapGet_keyed (fun e => pathKey (lf_rel e))). Qed.

Lemma view_remote input key there :
  mapGet key (v_remote (view input)) = Some there ->
  pathKey (si_rel there) = key /\ there ∈ in_remote input.
Proof. apply (mapGet_keyed (fun e => pathKey (si_rel e))). Qed.

Lemma view_base input key previous :
  mapGet key (v_base (view input)) = Some previous ->
  pathKey (be_rel previous) = key /\ previous ∈ in_base input.
Proof. apply (mapGet_keyed (fun e => pathKey (be_rel e))). Qed.

Lemma view_remoteById input id there :
  mapGet id (v_remoteById (view input)) = Some there ->
  ri_id (si_item there) = id /\ there ∈ in_remote input.
Proof. apply (mapGet_keyed (fun each => ri_id (si_item each))). Qed.

Lemma view_localByIno input ino here :
  mapGet ino (v_localByIno (view input)) = Some here ->
  lf_ino here = ino /\ here ∈ in_local input.
Proof.
  intros [H1 H2]%(mapGet_keyed lf_ino). split; [done|].
  by apply list_elem_of_filter in H2 as [_ ?].
Qed.

(** A server id the view does not know is on no listed server item. *)
Lemma stillOnServer_false input previous :
  stillOnServer (view input) previous = false ->
  (forall each, each ∈ in_remote input ->
     ri_id (si_item each) <> be_remoteId previous) /\
  be_remoteId previous ∉ hd_ids (v_hidden (view input)).
Proof.
  unfold stillOnServer. intros [H1 H2]%orb_false_elim.
  apply bool_decide_eq_false_1 in H2. split; [|done].
  intros each Hin Heq. apply not_true_iff_false in H1. apply H1.
  apply (mapHas_keyed (fun each => ri_id (si_item each))). eauto.
Qed.

(** An inode the view does not know is on no local entry new to the base. *)
Lemma stillHere_false input previous :
  stillHere (view input) previous = false ->
  be_ino previous = UNKNOWN_INO \/
  ((forall here, here ∈ in_local input -> lf_ino here = be_ino previous ->
      exists p, p ∈ in_base input /\ pathKey (be_rel p) = pathKey (lf_rel here)) /\
   be_ino previous ∉ hd_inos (v_hidden (view input))).
Proof.
  unfold stillHere. rewrite andb_false_iff, orb_false_iff.
  intros [Hi%bool_decide_eq_false_1|[H1 H2%bool_decide_eq_false_1]].
  - left. destruct (decide (be_ino previous = UNKNOWN_INO)); tauto.
  - destruct (decide (be_ino previous = UNKNOWN_INO)) as [|Hne]; [by left|right].
    split; [|done]. intros here Hin Hino. apply not_true_iff_false in H1.
    destruct (mapHas (pathKey (lf_rel here)) (v_base (view input))) eqn:E.
    + apply (mapHas_keyed (fun e => pathKey (be_rel e))) in E. naive_solver.
    + exfalso. apply H1. apply (mapHas_keyed lf_ino). exists here. split; [|done].
      apply list_elem_of_filter. rewrite Hino. done.
Qed.

(** The paths of a cell all have the cell's key. *)
Lemma cellOf_rel input key :
  key ∈ planKeys (view input) -> pathKey (c_rel (cellOf (view input) key)) = key.
Proof.
  intros Hk. unfold cellOf; cbn [c_rel].
  destruct (mapGet key (v_local _)) as [here|] eqn:El; [by apply view_local in El as []|].
  destruct (mapGet key (v_remote _)) as [there|] eqn:Er; [by apply view_remote in Er as []|].
  destruct (mapGet key (v_base _)) as [p|] eqn:Eb; [by apply view_base in Eb as []|].
  exfalso. unfold planKeys in Hk.
  rewrite elem_of_sortBy, elem_of_setOf, !elem_of_app, <- !mapGet_keys in Hk.
  rewrite El, Er, Eb in Hk. destruct Hk as [[? ?]|[[? ?]|[? ?]]]; done.
Qed.

(** ** Where an action comes from *)

(** The path an action is about, and every path it touches. *)
Definition actionRel (a : Action) : string :=
  match a with
  | move_local from _ _ | move_remote from _ _ _ => from
  | mkdir rel _ | create_remote_folder rel _ | download rel _ _ | upload rel _ _
  | keep_mine rel _ _ | conflict_copy rel _ _ _ | trash_local rel _
  | trash_remote rel _ | link rel _ _ | forget rel => rel
  end.

Definition actionPaths (a : Action) : list string :=
  match a with
  | move_local from to _ | move_remote from to _ _ => [from; to]
  | _ => [actionRel a]
  end.

Definition isMove (a : Action) : bool :=
  match a with move_local _ _ _ | move_remote _ _ _ _ => true | _ => false end.

(** The decision does not depend on the checksums asked for so far. *)
Lemma decideCell_fst v cell dirty needsHash :
  (decideCell v cell dirty needsHash).1 = (decideCell v cell dirty []).1.
Proof.
  unfold decideCell, decideFile. repeat (case_match; try done).
Qed.

Definition decision (v : View) (key : string) : PlanDecision :=
  (decideCell v (cellOf v key) (dirtySides v) []).1.

(** What the loop does at one path, from the state it finds. *)
Variant pathAction (v : View) (pending gone : gset string) (key : string) :
    option Action -> Prop :=
| path_vanished p :
    covered key [vanishedFolders v] = true -> mapGet key (v_base v) = Some p ->
    pathAction v pending gone key (Some (forget (be_rel p)))
| path_decided a :
    covered key [vanishedFolders v] = false -> dc_action (decision v key) = Some a ->
    pathAction v pending gone key (Some a)
| path_none : pathAction v pending gone key None.

Lemma planPath_cases v pending state key :
  exists o,
    lp_actions (planPath v (dirtySides v) pending (vanishedFolders v) state key)
      = lp_actions state ++ option_list o /\
    (o <> None -> covered key [pending; lp_gone state; hd_keys (v_hidden v)] = false /\
                  pathAction v pending (lp_gone state) key o) /\
    lp_gone state ⊆ lp_gone (planPath v (dirtySides v) pending (vanishedFolders v) state key) /\
    (o <> None -> covered key [vanishedFolders v] = false -> dc_gone (decision v key) = true ->
     key ∈ lp_gone (planPath v (dirtySides v) pending (vanishedFolders v) state key)).
Proof.
  unfold planPath.
  destruct (covered key [pending; lp_gone state; hd_keys (v_hidden v)]) eqn:Ec.
  { exists None. cbn. rewrite app_nil_r. by repeat split. }
  destruct (covered key [vanishedFolders v]) eqn:Ev.
  { destruct (mapGet key (v_base v)) as [p|] eqn:Ep.
    - exists (Some (forget (be_rel p))). cbn. split; [done|].
      split; [intros _; split; [done|by eapply path_vanished]|done].
    - exists None. cbn. rewrite app_nil_r. by repeat split. }
  destruct (decideCell v (cellOf v key) (dirtySides v) (lp_needsHash state))
    as [d nh] eqn:Ed.
  assert (Hd : d = decision v key).
  { unfold decision.
    by rewrite <- (decideCell_fst v (cellOf v key) (dirtySides v) (lp_needsHash state)), Ed. }
  exists (dc_action d). cbn. split; [|split; [|split]].
  - destruct (dc_action d); cbn; [done|by rewrite app_nil_r].
  - intros Hne. split; [done|]. rewrite Hd in *.
    destruct (dc_action (decision v key)) eqn:Ea; [|done]. by apply path_decided.
  - destruct (dc_gone d); [apply union_subseteq_r|done].
  - intros _ _. rewrite Hd. intros ->. apply elem_of_union_l, elem_of_singleton. done.
Qed.

(** An action of a plan without moves was decided at one path, outside every
    path left alone. *)
Lemma planPaths_action v pending a :
  a ∈ lp_actions (planPaths v pending) ->
  exists key gone, key ∈ planKeys v /\
    covered key [pending; gone; hd_keys (v_hidden v)] = false /\
    pathAction v pending gone key (Some a).
Proof.
  unfold planPaths.
  set (f := planPath v (dirtySides v) pending (vanishedFolders v)).
  assert (Hgen : forall keys state,
    a ∈ lp_actions (foldl f state keys) ->
    a ∈ lp_actions state \/
    exists key gone, key ∈ keys /\
      covered key [pending; gone; hd_keys (v_hidden v)] = false /\
      pathAction v pending gone key (Some a)).
  { induction keys as [|key keys IH]; intros state; cbn; [by left|].
    intros [Hin|(k & g & Hk & Hrest)]%IH.
    - destruct (planPath_cases v pending state key) as (o & Ha & Ho & _).
      fold f in Ha. rewrite Ha in Hin. apply elem_of_app in Hin as [?|Hin]; [by left|].
      right. destruct o as [a'|]; [|set_solver].
      apply list_elem_of_singleton in Hin as <-.
      destruct (Ho ltac:(done)) as [Hc Hp]. exists key, (lp_gone state).
      split; [set_solver|done].
    - right. exists k, g. split; [set_solver|done]. }
  intros [Hin|Hex]%Hgen; [cbn in Hin; set_solver|done].
Qed.

(** ** Moves *)

Lemma planMoves_action v base a :
  a ∈ (planMoves v base).1 ->
  exists entry m, entry ∈ base /\
    (serverMove v entry = Some m \/ localMove v entry = Some m) /\
    mv_action m = Some a /\
    covered (pathKey (be_rel entry)) [hd_keys (v_hidden v)] = false /\
    covered (mv_target m) [hd_keys (v_hidden v)] = false.
Proof.
  unfold planMoves.
  assert (Hgen : forall es st, a ∈ (foldl (planMove v) st es).1 ->
    a ∈ st.1 \/ exists entry m, entry ∈ es /\
      (serverMove v entry = Some m \/ localMove v entry = Some m) /\
      mv_action m = Some a /\
      covered (pathKey (be_rel entry)) [hd_keys (v_hidden v)] = false /\
      covered (mv_target m) [hd_keys (v_hidden v)] = false).
  { induction es as [|e es IH]; intros st; cbn; [by left|].
    intros [Hin|(e' & m & He & Hrest)]%IH;
      [|right; exists e', m; split; [by apply elem_of_cons; right|done]].
    destruct st as [moves pending]. unfold planMove in Hin.
    destruct (covered (pathKey (be_rel e)) _) eqn:Ec; [by left|].
    destruct (match serverMove v e with Some m => Some m | None => localMove v e end)
      as [m|] eqn:Em; [|by left].
    destruct (covered (mv_target m) _) eqn:Et; [by left|]. cbn in Hin.
    destruct (mv_action m) as [a'|] eqn:Ea; [|by left].
    apply elem_of_app in Hin as [?|Hin%list_elem_of_singleton]; [by left|]. subst a'.
    right. exists e, m. split; [by apply elem_of_cons; left|].
    split; [|split; [done|split; (eapply covered_incl; [|done]);
      by intros x ->%list_elem_of_singleton; apply elem_of_cons; right; apply elem_of_cons; left]].
    destruct (serverMove v e); naive_solver. }
  intros [Hin%elem_of_nil|(e & m & He & Hrest)]%Hgen; [done|].
  exists e, m. by rewrite elem_of_sortBy in He.
Qed.

Lemma serverMove_action v entry m a :
  serverMove v entry = Some m -> mv_action m = Some a ->
  exists onServer here,
    mapGet (be_remoteId entry) (v_remoteById v) = Some onServer /\
    mapGet (pathKey (be_rel entry)) (v_local v) = Some here /\
    v_mode v <> Upload /\ mv_target m = pathKey (si_rel onServer) /\
    mapHas (pathKey (si_rel onServer)) (v_local v) = false /\
    a = move_local (lf_rel here) (si_rel onServer) (si_item onServer).
Proof.
  unfold serverMove. intros Hm Ha.
  destruct (mapGet (be_remoteId entry) _) as [s|] eqn:Es; [|done].
  destruct (_ || _) eqn:E1 in Hm; [done|]. bool_simpl.
  destruct (mapGet (pathKey (be_rel entry)) _) as [h|] eqn:Eh; [|done].
  destruct (_ || _) eqn:E2 in Hm; [done|].
  destruct (_ && _) eqn:E3 in Hm; [done|]. bool_simpl.
  injection Hm as <-. cbn in *. destruct (_ || _) eqn:E4 in Ha; [|done].
  injection Ha as <-. eauto 10.
Qed.

Lemma localMove_action v entry m a :
  localMove v entry = Some m -> mv_action m = Some a ->
  exists onServer moved,
    mapGet (be_remoteId entry) (v_remoteById v) = Some onServer /\
    mapGet (be_ino entry) (v_localByIno v) = Some moved /\
    v_mode v <> Download /\ mv_target m = pathKey (lf_rel moved) /\
    (pathKey (si_rel onServer) <> pathKey (lf_rel moved) ->
     mapHas (pathKey (lf_rel moved)) (v_remote v) = false) /\
    lf_type moved = be_type entry /\
    (be_type entry = file -> lf_stat moved = baseStat entry) /\
    a = move_remote (be_rel entry) (lf_rel moved) entry moved.
Proof.
  unfold localMove. intros Hm Ha.
  destruct (_ || _) eqn:E1 in Hm; [done|]. bool_simpl.
  destruct (mapGet (be_remoteId entry) _) as [s|] eqn:Es; [|done].
  destruct (mapGet (be_ino entry) _) as [mv|] eqn:Eh; [|done].
  destruct (negb _) eqn:E2 in Hm; [done|].
  destruct (_ && _) eqn:E3 in Hm; [done|].
  destruct (_ && negb _) eqn:E4 in Hm; [done|].
  destruct (_ && mapHas _ _) eqn:E5 in Hm; [done|].
  injection Hm as <-. cbn in *. destruct (_ || _) eqn:E6 in Ha; [|done].
  injection Ha as <-. exists s, mv. repeat (split; [done|]).
  split_and!; [|by apply negb_false_iff, bool_decide_eq_true_1 in E2| |done].
  - intros Hne. rewrite andb_false_iff, negb_false_iff in E5.
    destruct E5 as [E5%bool_decide_eq_true_1|]; done.
  - intros Hf. rewrite bool_decide_eq_true_2 in E3 by done. cbn in E3.
    by apply negb_false_iff, sameStat_eq in E3.
Qed.

End View.
