(* ===== verification/PlanSafety.v ===== *)
(** * What the sync planner guarantees

    The modes keep their promises, nothing is deleted or overwritten that
    changed since both sides agreed, hidden paths are left alone, every path
    gets at most one action and parents come first, and a pair whose sides
    agree needs nothing. The rules of the planner are first inverted once, as
    the relations [folderRule] and [fileRule]. *)

From S2P Require Import Prelude SyncTypes Plan PlanFacts.

Section Safety.
Context `{Platform}.

(** ** The rules, inverted *)

(** A local file that is what both sides last agreed on: same size, time and
    id, or the same known checksum. *)
Definition unchangedHere (previous : BaseEntry) (here : LocalFile) : Prop :=
  lf_stat here = baseStat previous \/
  (lf_checksum here = be_checksum previous /\ lf_checksum here <> None).

(** A server item that is what both sides last agreed on. *)
Definition unchangedThere (previous : BaseEntry) (item : RemoteItem) : Prop :=
  be_remoteId previous = ri_id item /\ sameOnServer previous item = true.

(** Every action of the folder rules with what made the planner choose it, and
    whether everything below the folder is skipped. *)
Variant folderRule (v : View) (cell : Cell) (dirty : Dirty) : Action -> bool -> Prop :=
| fr_link here there :
    c_here cell = Some here -> c_there cell = Some there ->
    folderRule v cell dirty (link (c_rel cell) here (si_item there)) false
| fr_trash_remote there p :
    c_here cell = None -> c_there cell = Some there -> c_previous cell = Some p ->
    v_mode v = TwoWay -> c_key cell ∉ d_remote dirty -> stillHere v p = false ->
    folderRule v cell dirty (trash_remote (c_rel cell) (si_item there)) true
| fr_mkdir there :
    c_here cell = None -> c_there cell = Some there -> v_mode v <> Upload ->
    folderRule v cell dirty (mkdir (si_rel there) (si_item there)) false
| fr_trash_local here p :
    c_here cell = Some here -> c_there cell = None -> c_previous cell = Some p ->
    v_mode v <> Upload -> c_key cell ∉ d_local dirty -> stillOnServer v p = false ->
    folderRule v cell dirty (trash_local (c_rel cell) here) true
| fr_create here :
    c_here cell = Some here -> c_there cell = None -> v_mode v <> Download ->
    folderRule v cell dirty (create_remote_folder (c_rel cell) here) false
| fr_forget p :
    c_previous cell = Some p -> folderRule v cell dirty (forget (c_rel cell)) false.

Lemma planFolder_rule v cell dirty a :
  dc_action (planFolder v cell dirty) = Some a ->
  folderRule v cell dirty a (dc_gone (planFolder v cell dirty)).
Proof.
  unfold planFolder, folderOnBothSides, folderOnlyThere, folderOnlyHere, forgetPrevious,
    just, nothing.
  destruct (c_here cell) as [h|] eqn:Eh, (c_there cell) as [t|] eqn:Et,
    (c_previous cell) as [p|] eqn:Ep; cbn;
    repeat (case_match; cbn); intros [= <-]; bool_simpl;
    by econstructor; eauto.
Qed.

Lemma planFolder_gone v cell dirty :
  dc_gone (planFolder v cell dirty) = true ->
  exists a, dc_action (planFolder v cell dirty) = Some a.
Proof.
  unfold planFolder, folderOnBothSides, folderOnlyThere, folderOnlyHere, forgetPrevious,
    just, nothing.
  repeat (case_match; cbn); intros; eauto; done.
Qed.

(** The same for the file rules. *)
Variant fileRule (v : View) (cell : Cell) : Action -> Prop :=
| file_link here there :
    c_here cell = Some here -> c_there cell = Some there ->
    checksumOf here (c_previous cell) = Some (ri_checksum (si_item there)) ->
    fileRule v cell (link (c_rel cell) here (si_item there))
| file_keep_mine here there :
    c_here cell = Some here -> c_there cell = Some there -> v_mode v = Upload ->
    fileRule v cell (keep_mine (c_rel cell) here (si_item there))
| file_conflict here there localOnly unverified :
    c_here cell = Some here -> c_there cell = Some there -> v_mode v <> Upload ->
    localOnly = bool_decide (v_mode v = Download) ->
    (forall u, unverified = Some u -> uv_remote u = si_item there /\
       checksumOf here (c_previous cell) = Some (uv_checksum u)) ->
    fileRule v cell (conflict_copy (c_rel cell) here localOnly unverified)
| file_replace here there p mine :
    c_here cell = Some here -> c_there cell = Some there -> c_previous cell = Some p ->
    checksumOf here (Some p) = Some mine -> mine <> be_checksum p ->
    unchangedThere p (si_item there) -> v_mode v <> Download ->
    fileRule v cell (upload (c_rel cell) here
      (Some {| rp_remoteId := ri_id (si_item there); rp_rev := ri_rev (si_item there) |}))
| file_download_over here there p :
    c_here cell = Some here -> c_there cell = Some there -> c_previous cell = Some p ->
    checksumOf here (Some p) = Some (be_checksum p) -> v_mode v <> Upload ->
    fileRule v cell (download (c_rel cell) (si_item there) (Some here))
| file_forget p :
    c_previous cell = Some p -> fileRule v cell (forget (c_rel cell))
| file_upload_new here :
    c_here cell = Some here -> c_there cell = None -> v_mode v <> Download ->
    fileRule v cell (upload (c_rel cell) here None)
| file_trash_local here p :
    c_here cell = Some here -> c_there cell = None -> c_previous cell = Some p ->
    v_mode v <> Upload -> stillOnServer v p = false -> unchangedHere p here ->
    fileRule v cell (trash_local (c_rel cell) here)
| file_download_new there :
    c_here cell = None -> c_there cell = Some there -> v_mode v <> Upload ->
    fileRule v cell (download (si_rel there) (si_item there) None)
| file_trash_remote there p :
    c_here cell = None -> c_there cell = Some there -> c_previous cell = Some p ->
    v_mode v = TwoWay -> stillHere v p = false -> unchangedThere p (si_item there) ->
    fileRule v cell (trash_remote (c_rel cell) (si_item there)).

Lemma fileOnBothSides_rule v cell here there mine a :
  c_here cell = Some here -> c_there cell = Some there ->
  checksumOf here (c_previous cell) = Some mine ->
  fileOnBothSides v (c_rel cell) here there (c_previous cell) mine = Some a ->
  fileRule v cell a.
Proof.
  intros Hh Ht Hc. unfold fileOnBothSides.
  destruct (c_previous cell) as [p|] eqn:Ep; cbn; repeat (case_match; cbn);
    intros [= <-]; bool_simpl;
    try (eapply file_link; [done..|rewrite Ep; congruence]);
    try (apply (file_conflict _ _ here there); [done..|intros u [= <-]; by rewrite Ep]);
    try (by econstructor; eauto).
  - apply (file_conflict _ _ here there); [done|done|congruence| |done].
    symmetry. by apply bool_decide_eq_true_2.
  - cbn in *. bool_simpl. eapply file_replace; eauto. by split.
  - subst mine. by eapply file_download_over.
Qed.

Lemma fileOnlyHere_rule v cell here a :
  c_here cell = Some here -> c_there cell = None ->
  fileOnlyHere v (c_rel cell) here (c_previous cell) = Some a -> fileRule v cell a.
Proof.
  intros Hh Ht. unfold fileOnlyHere.
  destruct (c_previous cell) as [p|] eqn:Ep; cbn.
  - destruct (stillOnServer v p) eqn:Es; [intros [= <-]; by eapply file_forget|].
    destruct (sameStat (lf_stat here) (baseStat p) || _) eqn:Eu; cbn.
    + rewrite andb_false_r, orb_false_r. case_bool_decide; intros [= <-].
      * eapply file_upload_new; eauto. congruence.
      * eapply file_trash_local; eauto.
        apply orb_true_iff in Eu as [Eu%sameStat_eq|Eu]; [by left|right].
        apply andb_true_iff in Eu as [_ Eu].
        destruct (lf_checksum here), (be_checksum p); try done.
        apply bool_decide_eq_true_1 in Eu. by subst.
    + rewrite andb_true_r.
      destruct (bool_decide (v_mode v = Upload) || bool_decide (v_mode v = TwoWay)) eqn:E;
        intros [= <-].
      * eapply file_upload_new; eauto.
        apply orb_true_iff in E as [E|E]; apply bool_decide_eq_true_1 in E; congruence.
      * by eapply file_forget.
  - rewrite andb_true_r.
    destruct (bool_decide (v_mode v = Upload) || bool_decide (v_mode v = TwoWay)) eqn:E;
      [intros [= <-]|done].
    eapply file_upload_new; eauto.
    apply orb_true_iff in E as [E|E]; apply bool_decide_eq_true_1 in E; congruence.
Qed.

Lemma fileOnlyThere_rule v cell there a :
  c_here cell = None -> c_there cell = Some there ->
  fileOnlyThere v (c_rel cell) there (c_previous cell) = Some a -> fileRule v cell a.
Proof.
  intros Hh Ht. unfold fileOnlyThere.
  set (unchanged := match c_previous cell with Some p => _ | None => false end).
  destruct (bool_decide (v_mode v = Download) || _) eqn:E.
  - intros [= <-]. eapply file_download_new; eauto.
    apply orb_true_iff in E as [E|[E _]%andb_true_iff];
      apply bool_decide_eq_true_1 in E; congruence.
  - destruct (c_previous cell) as [p|] eqn:Ep; subst unchanged; cbn.
    + destruct (stillHere v p) eqn:Es; [intros [= <-]; by eapply file_forget|].
      destruct ((_ && _) && _) eqn:Eu; intros [= <-]; bool_simpl.
      * eapply file_trash_remote; eauto. by split.
      * by eapply file_forget.
    + done.
Qed.

Lemma decideFile_rule v cell nh a :
  dc_action (decideFile v cell nh).1 = Some a -> fileRule v cell a.
Proof.
  unfold decideFile.
  destruct (c_here cell) as [h|] eqn:Eh, (c_there cell) as [t|] eqn:Et; cbn.
  - destruct (checksumOf h (c_previous cell)) eqn:Ec; cbn; [|done].
    by apply fileOnBothSides_rule.
  - destruct (_ && _); cbn; [done|]. by apply fileOnlyHere_rule.
  - by apply fileOnlyThere_rule.
  - unfold forgetPrevious. destruct (c_previous cell) as [p|] eqn:Ep; [|done].
    intros [= <-]. by eapply file_forget.
Qed.

(** Every decided action comes from one of the rules. *)
Variant decided (v : View) (key : string) : Action -> bool -> Prop :=
| dd_types_differ here there :
    mapGet key (v_local v) = Some here -> mapGet key (v_remote v) = Some there ->
    lf_type here <> ri_type (si_item there) -> v_mode v <> Upload ->
    decided v key (conflict_copy (c_rel (cellOf v key)) here
                     (bool_decide (v_mode v = Download)) None) false
| dd_folder a gone :
    typesDiffer (cellOf v key) = false -> cellType (cellOf v key) = Some folder ->
    folderRule v (cellOf v key) (dirtySides v) a gone -> decided v key a gone
| dd_file a :
    typesDiffer (cellOf v key) = false -> cellType (cellOf v key) <> Some folder ->
    fileRule v (cellOf v key) a -> decided v key a false.

Lemma decideFile_not_gone v cell nh : dc_gone (decideFile v cell nh).1 = false.
Proof. unfold decideFile. by repeat case_match. Qed.

Lemma decision_decided v key a :
  dc_action (decision v key) = Some a -> decided v key a (dc_gone (decision v key)).
Proof.
  unfold decision, decideCell. destruct (typesDiffer (cellOf v key)) eqn:Et.
  - unfold typesDiffer, cellOf in Et. unfold cellOf at 1 3. cbn [c_here c_there] in *.
    destruct (mapGet key (v_local v)) as [h|] eqn:El,
      (mapGet key (v_remote v)) as [r|] eqn:Er; try done; cbn.
    apply negb_true_iff, bool_decide_eq_false_1 in Et.
    case_bool_decide; intros [= <-].
    replace (lf_rel h) with (c_rel (cellOf v key)) by (unfold cellOf; by rewrite El).
    by eapply dd_types_differ.
  - destruct (opt_is (cellType (cellOf v key)) folder) eqn:Ef; cbn [fst].
    + intros Ha%planFolder_rule. apply opt_is_true in Ef. by apply dd_folder.
    + rewrite decideFile_not_gone. intros Ha%decideFile_rule.
      apply dd_file; [done| |done]. intros Hc%opt_is_true. congruence.
Qed.

Lemma decision_gone v key :
  dc_gone (decision v key) = true ->
  cellType (cellOf v key) = Some folder /\ exists a, dc_action (decision v key) = Some a.
Proof.
  unfold decision, decideCell. destruct (typesDiffer (cellOf v key)); [by repeat case_match|].
  destruct (opt_is (cellType (cellOf v key)) folder) eqn:Ef; cbn [fst].
  - apply opt_is_true in Ef. intros Hg%planFolder_gone. done.
  - by rewrite decideFile_not_gone.
Qed.

(** ** Where the actions of a plan come from *)

(** A server move, a local move, a path renamed out of sight, or a decision. *)
Definition sameFile (moved : LocalFile) (entry : BaseEntry) : Prop :=
  lf_ino moved = be_ino entry /\ lf_type moved = be_type entry /\
  (be_type entry = file -> lf_stat moved = baseStat entry).

Variant planned (input : PlanInput) : Action -> Prop :=
| planned_server_move entry m onServer here :
    entry ∈ in_base input -> serverMove (view input) entry = Some m ->
    in_mode input <> Upload -> onServer ∈ in_remote input -> here ∈ in_local input ->
    ri_id (si_item onServer) = be_remoteId entry ->
    pathKey (lf_rel here) = pathKey (be_rel entry) ->
    mv_target m = pathKey (si_rel onServer) ->
    covered (pathKey (be_rel entry)) [hd_keys (v_hidden (view input))] = false ->
    covered (mv_target m) [hd_keys (v_hidden (view input))] = false ->
    planned input (move_local (lf_rel here) (si_rel onServer) (si_item onServer))
| planned_local_move entry m moved :
    entry ∈ in_base input -> localMove (view input) entry = Some m ->
    in_mode input <> Download -> moved ∈ in_local input -> sameFile moved entry ->
    mv_target m = pathKey (lf_rel moved) ->
    covered (pathKey (be_rel entry)) [hd_keys (v_hidden (view input))] = false ->
    covered (mv_target m) [hd_keys (v_hidden (view input))] = false ->
    planned input (move_remote (be_rel entry) (lf_rel moved) entry moved)
| planned_vanished key p :
    covered key [hd_keys (v_hidden (view input))] = false ->
    mapGet key (v_base (view input)) = Some p -> planned input (forget (be_rel p))
| planned_decided key a gone :
    key ∈ planKeys (view input) ->
    covered key [hd_keys (v_hidden (view input))] = false ->
    decided (view input) key a gone -> planned input a.

Lemma plan_planned input a : a ∈ pl_actions (plan input) -> planned input a.
Proof.
  unfold plan. destruct (holdFor input); [by intros ?%elem_of_nil|].
  destruct (planMoves (view input) (in_base input)) as [moves pending] eqn:Em.
  destruct moves as [|mv moves]; cbn [pl_actions].
  - intros (key & gone & Hk & Hc & Ha)%planPaths_action.
    apply (covered_incl _ _ [hd_keys (v_hidden (view input))]) in Hc; [|set_solver].
    inversion Ha; subst; [by eapply planned_vanished|].
    eapply planned_decided; [done..|]. by apply decision_decided.
  - intros Hin. assert (Ha : a ∈ (planMoves (view input) (in_base input)).1) by by rewrite Em.
    apply planMoves_action in Ha as (entry & m & He & [Hm|Hm] & Hact & Hc & Ht).
    + destruct (serverMove_action _ _ _ _ Hm Hact)
        as (s & h & Hs%view_remoteById & Hh%view_local & Hmode & Htg & _ & ->).
      destruct Hs as [Hi Hs], Hh as [Hh1 Hh2]. by eapply planned_server_move.
    + destruct (localMove_action _ _ _ _ Hm Hact)
        as (s & mv' & _ & Hmv%view_localByIno & Hmode & Htg & _ & Hty & Hst & ->).
      destruct Hmv as [Hi Hmv]. by eapply planned_local_move.
Qed.

(** No server item, and no local entry, has a key the view does not know. *)
Lemma view_remote_None input key :
  mapGet key (v_remote (view input)) = None ->
  forall each, each ∈ in_remote input -> pathKey (si_rel each) <> key.
Proof.
  intros Hn each Hin Hk. apply mapHas_false, not_true_iff_false in Hn.
  apply Hn, (mapHas_keyed (fun e => pathKey (si_rel e))). eauto.
Qed.

Lemma view_local_None input key :
  mapGet key (v_local (view input)) = None ->
  forall each, each ∈ in_local input -> pathKey (lf_rel each) <> key.
Proof.
  intros Hn each Hin Hk. apply mapHas_false, not_true_iff_false in Hn.
  apply Hn, (mapHas_keyed (fun e => pathKey (lf_rel e))). eauto.
Qed.

End Safety.

(** Cases of an action: the rule that gave it, with the view's facts. *)
Ltac cell_fields :=
  repeat match goal with
  | H : context [v_mode (view ?i)] |- _ => change (v_mode (view i)) with (in_mode i) in H
  | |- context [v_mode (view ?i)] => change (v_mode (view i)) with (in_mode i)
  | H : context [c_here (cellOf ?v ?k)] |- _ =>
      change (c_here (cellOf v k)) with (mapGet k (v_local v)) in H
  | H : context [c_there (cellOf ?v ?k)] |- _ =>
      change (c_there (cellOf v k)) with (mapGet k (v_remote v)) in H
  | H : context [c_previous (cellOf ?v ?k)] |- _ =>
      change (c_previous (cellOf v k)) with (mapGet k (v_base v)) in H
  | H : context [c_key (cellOf ?v ?k)] |- _ => change (c_key (cellOf v k)) with k in H
  end.

Ltac action_cases Ha :=
  apply plan_planned in Ha; inversion Ha; subst; clear Ha;
  repeat match goal with
  | H : decided _ _ _ _ |- _ => inversion H; subst; clear H
  | H : folderRule _ _ _ _ _ |- _ => inversion H; subst; clear H
  | H : fileRule _ _ _ |- _ => inversion H; subst; clear H
  end; cell_fields.

Section Modes.
Context `{Platform}.

(** A cell's type is its local entry's, or else its server item's. *)
Lemma cellType_here v key here :
  mapGet key (v_local v) = Some here -> cellType (cellOf v key) = Some (lf_type here).
Proof. intros E. unfold cellType, cellOf. cbn. by rewrite E. Qed.

Lemma cellType_there v key there :
  mapGet key (v_local v) = None -> mapGet key (v_remote v) = Some there ->
  cellType (cellOf v key) = Some (ri_type (si_item there)).
Proof. intros E1 E2. unfold cellType, cellOf. cbn. by rewrite E1, E2. Qed.

(** ** The modes *)

(** What an upload-only pair may do: nothing that changes the computer, and
    nothing that deletes on the server. *)
Definition uploadModeAction (a : Action) : Prop :=
  match a with
  | move_remote _ _ _ _ | create_remote_folder _ _ | upload _ _ _
  | keep_mine _ _ _ | link _ _ _ | forget _ => True
  | _ => False
  end.

(** What a download-only pair may do: nothing that changes the server. A
    conflict copy stays on the computer. *)
Definition downloadModeAction (a : Action) : Prop :=
  match a with
  | move_local _ _ _ | mkdir _ _ | download _ _ _ | trash_local _ _
  | link _ _ _ | forget _ => True
  | conflict_copy _ _ localOnly _ => localOnly = true
  | _ => False
  end.

(** An upload-only pair is a backup: whatever the three states are, its
    plan never changes the computer (no download, folder, move, trash or
    conflict copy there) and never trashes anything on the server. *)
Theorem upload_only_plan_keeps_computer_and_server input a :
  in_mode input = Upload -> a ∈ pl_actions (plan input) -> uploadModeAction a.
Proof.
  intros Hm Ha. action_cases Ha; try done; congruence.
Qed.

(** A download-only pair never changes the server: no upload, folder, move,
    trash or replacement there, and a conflict copy it makes stays local. *)
Theorem download_only_plan_keeps_server input a :
  in_mode input = Download -> a ∈ pl_actions (plan input) -> downloadModeAction a.
Proof.
  intros Hm Ha. action_cases Ha; try done; try congruence;
    by apply bool_decide_eq_true_2.
Qed.

(** ** Deletions and overwrites need an unchanged side *)

(** A local file is trashed only when both sides had agreed on it, it has
    not changed since, the server has nothing at its path, and the server item
    it came from exists nowhere the planner can see, hidden items included. *)
Theorem trash_local_file_is_deleted_on_server input rel here :
  trash_local rel here ∈ pl_actions (plan input) -> lf_type here = file ->
  in_mode input <> Upload /\ here ∈ in_local input /\
  exists previous, previous ∈ in_base input /\
    pathKey (be_rel previous) = pathKey (lf_rel here) /\
    unchangedHere previous here /\
    (forall each, each ∈ in_remote input ->
       pathKey (si_rel each) <> pathKey (lf_rel here) /\
       ri_id (si_item each) <> be_remoteId previous) /\
    be_remoteId previous ∉ hd_ids (v_hidden (view input)).
Proof.
  intros Ha Hf. action_cases Ha.
  - erewrite cellType_here in * by done. congruence.
  - match goal with H : mapGet _ (v_remote _) = None |- _ =>
      pose proof (view_remote_None _ _ H) as Hr end.
    match goal with H : stillOnServer _ _ = false |- _ =>
      apply stillOnServer_false in H as [Hid Hhid] end.
    match goal with H : mapGet _ (v_local _) = Some _ |- _ =>
      apply view_local in H as [<- Hin] end.
    match goal with H : mapGet _ (v_base _) = Some _ |- _ =>
      apply view_base in H as [Hk Hb] end.
    split; [done|]. split; [done|]. exists p. repeat (split; [by auto|]). auto.
Qed.

(** A server file is trashed only by a two-way pair, when both sides had
    agreed on it, the server's copy has not changed since, the computer has
    nothing at its path, and the local file is not found under another name. *)
Theorem trash_remote_file_is_deleted_here input rel item :
  trash_remote rel item ∈ pl_actions (plan input) -> ri_type item = file ->
  in_mode input = TwoWay /\
  exists previous key, previous ∈ in_base input /\ pathKey (be_rel previous) = key /\
    unchangedThere previous item /\
    (forall here, here ∈ in_local input -> pathKey (lf_rel here) <> key) /\
    (be_ino previous = UNKNOWN_INO \/
     ((forall here, here ∈ in_local input -> lf_ino here = be_ino previous ->
         exists p, p ∈ in_base input /\ pathKey (be_rel p) = pathKey (lf_rel here)) /\
      be_ino previous ∉ hd_inos (v_hidden (view input)))).
Proof.
  intros Ha Hf. action_cases Ha.
  - erewrite cellType_there in * by done. congruence.
  - match goal with H : mapGet _ (v_local _) = None |- _ =>
      pose proof (view_local_None _ _ H) as Hr end.
    match goal with H : stillHere _ _ = false |- _ =>
      apply stillHere_false in H end.
    match goal with H : mapGet _ (v_base _) = Some _ |- _ =>
      apply view_base in H as [Hk Hb] end.
    split; [done|]. by exists p, key.
Qed.

(** ** Overwriting *)

(** What an overwrite relies on: a download over a local file finds in it the
    content both sides last agreed on, and an upload over a server file names
    the revision it was planned against, of an item unchanged since then. *)
Definition overwritesOnlySeen (input : PlanInput) (a : Action) : Prop :=
  match a with
  | download _ _ (Some here) =>
      here ∈ in_local input /\
      exists previous, previous ∈ in_base input /\
        pathKey (be_rel previous) = pathKey (lf_rel here) /\
        checksumOf here (Some previous) = Some (be_checksum previous)
  | upload _ here (Some replace) =>
      exists previous there, previous ∈ in_base input /\ there ∈ in_remote input /\
        pathKey (be_rel previous) = pathKey (si_rel there) /\
        unchangedThere previous (si_item there) /\
        replace = {| rp_remoteId := ri_id (si_item there); rp_rev := ri_rev (si_item there) |}
  | _ => True
  end.

Lemma plan_overwrites_only_seen input a :
  a ∈ pl_actions (plan input) -> overwritesOnlySeen input a.
Proof.
  intros Ha. action_cases Ha; try exact I; cbn [overwritesOnlySeen];
    repeat match goal with
    | H : mapGet _ (v_local _) = Some _ |- _ => apply view_local in H as [? ?]
    | H : mapGet _ (v_remote _) = Some _ |- _ => apply view_remote in H as [? ?]
    | H : mapGet _ (v_base _) = Some _ |- _ => apply view_base in H as [? ?]
    end; simplify_eq; eauto 10 with congruence.
Qed.

(** C30: the planner never overwrites a version it has not seen agreed on: a
    download replaces only a local file that still has the agreed content, and
    an upload replaces only a server file unchanged since the agreement. *)
Theorem plan_overwrites_only_seen_versions input a :
  a ∈ pl_actions (plan input) -> overwritesOnlySeen input a.
Proof. apply plan_overwrites_only_seen. Qed.

(** ** What an action is made of *)

Section Sides.
Context (input : PlanInput).

Definition hereAt (rel : string) (local : LocalFile) : Prop :=
  local ∈ in_local input /\ lf_rel local = rel.
Definition thereAt (rel : string) (item : RemoteItem) : Prop :=
  exists each, each ∈ in_remote input /\ pathKey (si_rel each) = pathKey rel /\ si_item each = item.

(** The checksum of a local file that the planner went by: its own, or that of
    the saved row of its path when size, time and identity are the row's. *)
Definition knownAs (local : LocalFile) (checksum : option string) : Prop :=
  exists previous, (forall p, previous = Some p ->
      p ∈ in_base input /\ pathKey (be_rel p) = pathKey (lf_rel local)) /\
    checksumOf local previous = Some checksum.

(** The entries and items an action carries are those of its path. *)
Definition sidesOf (a : Action) : Prop :=
  match a with
  | move_local from to remote => thereAt to remote /\ exists here entry, hereAt from here /\
      entry ∈ in_base input /\ pathKey (be_rel entry) = pathKey from /\ be_remoteId entry = ri_id remote
  | move_remote from to base local =>
      base ∈ in_base input /\ be_rel base = from /\ hereAt to local /\ sameFile local base
  | mkdir rel remote | download rel remote _ => thereAt rel remote
  | create_remote_folder rel local | upload rel local _ => hereAt rel local
  | keep_mine rel local remote => hereAt rel local /\ thereAt rel remote
  | conflict_copy rel local _ unverified => hereAt rel local /\ forall u, unverified = Some u ->
      thereAt rel (uv_remote u) /\ knownAs local (uv_checksum u)
  | link rel local remote => hereAt rel local /\ thereAt rel remote /\
      lf_type local = ri_type remote /\ (lf_type local = file -> knownAs local (ri_checksum remote))
  | _ => True
  end.

Lemma cellOf_here key here :
  mapGet key (v_local (view input)) = Some here ->
  hereAt (c_rel (cellOf (view input) key)) here.
Proof.
  intros E. pose proof (view_local _ _ _ E) as [_ Hin]. split; [done|].
  revert E. generalize (view input). intros v E. unfold cellOf. cbn. by rewrite E.
Qed.

Lemma cellOf_there key there :
  key ∈ planKeys (view input) -> mapGet key (v_remote (view input)) = Some there ->
  thereAt (c_rel (cellOf (view input) key)) (si_item there).
Proof.
  intros Hk (E & Hin)%view_remote. exists there. by rewrite cellOf_rel.
Qed.

Lemma cellOf_known key here checksum :
  mapGet key (v_local (view input)) = Some here ->
  checksumOf here (mapGet key (v_base (view input))) = Some checksum -> knownAs here checksum.
Proof.
  intros [E _]%view_local Hc. eexists. split; [|exact Hc]. intros p [Ep Hp]%view_base.
  split; [exact Hp|congruence].
Qed.

Lemma cell_same_type key here there :
  typesDiffer (cellOf (view input) key) = false ->
  mapGet key (v_local (view input)) = Some here -> mapGet key (v_remote (view input)) = Some there ->
  lf_type here = ri_type (si_item there).
Proof.
  generalize (view input). intros v. unfold typesDiffer, cellOf. cbn. intros Ht El Er.
  rewrite El, Er in Ht.
  apply negb_false_iff in Ht. by apply bool_decide_eq_true_1 in Ht.
Qed.

Lemma plan_sides a : a ∈ pl_actions (plan input) -> sidesOf a.
Proof.
  intros Ha. action_cases Ha; try exact I; cbn [sidesOf];
    try (split; [by apply cellOf_here|]); try by apply cellOf_here; try by apply cellOf_there.
  all: repeat match goal with
    | H : mapGet _ (v_remote _) = Some ?there |- thereAt (si_rel ?there) _ =>
        apply view_remote in H as [_ H]; by exists there
    | |- thereAt (c_rel _) _ => by apply cellOf_there
    end.
  - split; [by exists onServer|]. by exists here, entry.
  - done.
  - done.
  - split_and!; [by apply cellOf_there|by eapply cell_same_type|]. intros Hf.
    lazymatch goal with H : cellType _ = Some folder |- _ =>
      rewrite (cellType_here _ _ here) in H by done; congruence end.
  - split_and!; [by apply cellOf_there|by eapply cell_same_type|]. intros _. by eapply cellOf_known.
  - intros u Hu. lazymatch goal with H : forall u, _ -> _ /\ _ |- _ => destruct (H u Hu) as [-> Hc] end.
    split; [by apply cellOf_there|by eapply cellOf_known].
Qed.
End Sides.

(** ** Paths *)

(** Every path an action decided at [key] touches has the key [key]. *)
Lemma decided_paths input key a gone :
  key ∈ planKeys (view input) -> decided (view input) key a gone ->
  Forall (fun rel => pathKey rel = key) (actionPaths a) /\ isMove a = false.
Proof.
  intros Hk Hd. pose proof (cellOf_rel input key Hk) as Hr.
  inversion Hd; subst;
    repeat match goal with
    | H : folderRule _ _ _ _ _ |- _ => inversion H; subst; clear H
    | H : fileRule _ _ _ |- _ => inversion H; subst; clear H
    end; (split; [|done]); repeat constructor; try done; cbn [actionRel];
    match goal with H : c_there _ = Some _ |- _ => by apply view_remote in H as [] end.
Qed.

(** No action touches a path the pass leaves alone, nor anything below
    one: not the path it is about, and not the path a move ends at. *)
Theorem plan_leaves_hidden_paths_alone input a rel :
  a ∈ pl_actions (plan input) -> rel ∈ actionPaths a ->
  forall each, each ∈ allExcluded input -> ~ above (pathKey (ex_rel each)) (pathKey rel).
Proof.
  intros Ha Hrel each He Habove.
  enough (Hc : covered (pathKey rel) [hd_keys (v_hidden (view input))] = false).
  { rewrite covered_false in Hc. apply (Hc _ _ Habove (list_elem_of_here _ _)).
    apply elem_of_list_to_set, list_elem_of_fmap. eauto. }
  apply plan_planned in Ha. inversion Ha; subst.
  - apply elem_of_cons in Hrel as [->| ->%list_elem_of_singleton]; congruence.
  - apply elem_of_cons in Hrel as [->| ->%list_elem_of_singleton]; congruence.
  - apply list_elem_of_singleton in Hrel as ->. cbn [actionRel].
    match goal with H : mapGet _ (v_base _) = Some _ |- _ => apply view_base in H as [-> _] end.
    done.
  - match goal with H : decided _ _ _ _ |- _ => apply decided_paths in H as [HF _] end; [|done].
    rewrite Forall_forall in HF. by rewrite (HF rel Hrel).
Qed.

(** The path of an action found by the loop is the key the loop is at. *)
Lemma pathAction_key input pending gone key a :
  key ∈ planKeys (view input) -> pathAction (view input) pending gone key (Some a) ->
  pathKey (actionRel a) = key /\ isMove a = false.
Proof.
  intros Hk Ha. inversion Ha; subst.
  - match goal with H : mapGet _ (v_base _) = Some _ |- _ => by apply view_base in H as [] end.
  - match goal with H : dc_action _ = Some _ |- _ => apply decision_decided in H as Hd end.
    destruct (decided_paths _ _ _ _ Hk Hd) as [HF Hm]. split; [|done].
    rewrite Forall_forall in HF. destruct a; try done; apply HF; constructor.
Qed.

(** The keys of the loop's actions, in order. *)
Definition actionKey (a : Action) : string := pathKey (actionRel a).

Lemma planPaths_keys input pending :
  actionKey <$> lp_actions (planPaths (view input) pending)
    `sublist_of` planKeys (view input).
Proof.
  unfold planPaths.
  set (f := planPath _ _ _ _).
  assert (Hgen : forall keys state, keys ⊆ planKeys (view input) ->
    exists ks, actionKey <$> lp_actions (foldl f state keys)
               = (actionKey <$> lp_actions state) ++ ks /\ ks `sublist_of` keys).
  { induction keys as [|key keys IH]; intros state Hin; cbn.
    { exists []. by rewrite app_nil_r. }
    destruct (IH (f state key)) as (ks & Hks & Hsub); [set_solver|].
    destruct (planPath_cases (view input) pending state key) as (o & Ho & Hp & _).
    fold f in Ho. rewrite Ho, fmap_app in Hks. destruct o as [a|].
    - destruct (Hp ltac:(done)) as [_ Hpa].
      apply pathAction_key in Hpa as [Hk _]; [|set_solver].
      exists (key :: ks). rewrite Hks. cbn. unfold actionKey at 2.
      rewrite Hk, <- app_assoc. split; [done|]. by constructor.
    - exists ks. rewrite Hks. cbn. rewrite app_nil_r. split; [done|].
      by apply sublist_cons. }
  destruct (Hgen (planKeys (view input)) {| lp_actions := []; lp_gone := ∅; lp_needsHash := [] |})
    as (ks & -> & Hs); [done|]. done.
Qed.

Lemma planKeys_NoDup v : NoDup (planKeys v).
Proof. unfold planKeys. rewrite sortBy_Permutation. apply setOf_NoDup. Qed.

(** A plan has moves only, or decisions only. *)
Lemma plan_actions_cases input :
  Forall (fun a => isMove a = true) (pl_actions (plan input)) \/
  exists pending, pl_actions (plan input) = lp_actions (planPaths (view input) pending).
Proof.
  unfold plan. destruct (holdFor input); [left; constructor|].
  destruct (planMoves (view input) (in_base input)) as [moves pending] eqn:Em.
  destruct moves as [|mv moves]; [right; by exists pending|]. left.
  apply Forall_forall. intros a Hin. cbn [pl_actions] in Hin.
  assert (Ha : a ∈ (planMoves (view input) (in_base input)).1) by by rewrite Em.
  apply planMoves_action in Ha as (entry & m & _ & [Hm|Hm] & Hact & _).
  - by destruct (serverMove_action _ _ _ _ Hm Hact) as (s & h & _ & _ & _ & _ & _ & ->).
  - by destruct (localMove_action _ _ _ _ Hm Hact) as (s & h & _ & _ & _ & _ & _ & _ & _ & ->).
Qed.

(** Moves come alone: a plan that moves anything does nothing else, since
    every move changes the paths the other actions would be about. *)
Theorem moves_come_alone input a :
  a ∈ pl_actions (plan input) -> isMove a = true ->
  Forall (fun b => isMove b = true) (pl_actions (plan input)).
Proof.
  intros Ha Hm. destruct (plan_actions_cases input) as [?|[pending Hp]]; [done|].
  rewrite Hp in *. apply planPaths_action in Ha as (key & gone & Hk & _ & Hpa).
  apply pathAction_key in Hpa as [_ ?]; [congruence|done].
Qed.

(** a plan without moves acts at most once on each path, and never on
    something before the folder it is in. *)
Theorem plan_acts_once_per_path_parents_first input :
  Forall (fun a => isMove a = false) (pl_actions (plan input)) ->
  NoDup (actionKey <$> pl_actions (plan input)) /\
  forall i j a b, pl_actions (plan input) !! i = Some a ->
    pl_actions (plan input) !! j = Some b ->
    above (actionKey a) (parentRel (actionKey b)) -> i < j.
Proof.
  intros Hno. destruct (plan_actions_cases input) as [Hall|[pending Hp]].
  { destruct (pl_actions (plan input)) as [|x l]; [split; [constructor|done]|].
    inversion Hall; inversion Hno; congruence. }
  rewrite Hp. pose proof (planPaths_keys input pending) as Hs.
  split; [eapply sublist_NoDup; [apply planKeys_NoDup|done]|].
  intros i j a b Hi Hj Hab.
  pose proof (sublist_StronglySorted _ _ _ Hs (sortBy_Sorted depth _)) as Hsort.
  destruct (decide (i < j)) as [|Hge]; [done|exfalso].
  assert (Hd : depth (actionKey a) < depth (actionKey b)).
  { apply depth_above; [|by apply above_proper_ne].
    apply above_parent. by right. }
  apply Nat.nlt_ge, Nat.lt_eq_cases in Hge as [Hlt| ->]; [|simplify_eq; lia].
  apply (list_lookup_fmap_Some_2 actionKey) in Hi, Hj.
  pose proof (StronglySorted_lookup_lt _ _ _ _ _ _ Hsort Hlt Hj Hi). cbn in *. lia.
Qed.

End Modes.
