(* ===== verification/PlanFolders.v ===== *)
(** * Folders the planner deletes, and when it does nothing or waits

    Trashing a folder deletes everything in it, so the planner must know all of
    it: the properties here say that a folder is trashed only when everything
    below it on that side is what both sides last agreed on, that nothing the
    pass leaves alone is inside, and that the plan does nothing else below it.
    [dirtyFolders], the loop that finds the folders that may not go, is shown
    equal to its one-line specification.

    The second part: a pair whose two sides and base agree has an empty plan,
    an emptied side of a big folder is held, an edit on both sides keeps both
    versions, and the name of a conflict copy is found and free. *)

From Stdlib Require Import Ascii.
From S2P Require Import Prelude SyncTypes Plan PlanFacts PlanSafety.

(** ** The dirty folders *)

(** Every folder of a path that is not clean. *)
Definition dirtyFoldersSpec (keys : list string) (isClean : string -> bool) : gset string :=
  list_to_set (filter (fun key => isClean key = false) keys ≫= properParents).

(** The loop of [dirtyFolders], which stops climbing at the first folder
    already found, computes every folder above every key that is not clean. *)
Theorem dirtyFolders_spec keys isClean :
  dirtyFolders keys isClean = dirtyFoldersSpec keys isClean.
Proof.
  apply set_eq. intros x. unfold dirtyFoldersSpec.
  rewrite elem_of_dirtyFolders, elem_of_list_to_set, list_elem_of_bind.
  setoid_rewrite list_elem_of_filter. setoid_rewrite elem_of_properParents. naive_solver.
Qed.

Section Folders.
Context `{Platform}.

(** [x] is strictly below the folder with key [key]. *)
Definition below (key x : string) : Prop := above key (parentRel x).

(** A key that is not dirty on the server: everything the view lists below it
    is known to the base as the same item, and a file in it is unchanged. *)
Lemma not_dirty_remote input key :
  key ∉ d_remote (dirtySides (view input)) ->
  (forall k there, mapGet k (v_remote (view input)) = Some there -> below key k ->
     exists previous, mapGet k (v_base (view input)) = Some previous /\
       be_remoteId previous = ri_id (si_item there) /\
       (ri_type (si_item there) = file -> sameOnServer previous (si_item there) = true)) /\
  (forall each, each ∈ allExcluded input -> ex_side each = remote_side ->
     ~ below key (pathKey (ex_rel each))).
Proof.
  unfold dirtySides. cbn [d_remote]. rewrite not_elem_of_union, !elem_of_dirtyFolders.
  intros [Hhid Hdirty]. split.
  - intros k there Hk Hbelow.
    assert (Hc : cleanThere (view input) k = true).
    { apply not_false_iff_true. intros Hf. apply Hdirty. exists k.
      split; [|by split]. apply mapGet_keys. eauto. }
    unfold cleanThere in Hc. rewrite Hk in Hc.
    destruct (mapGet k (v_base _)) as [p|]; [|done]. exists p. split; [done|].
    destruct (negb _) eqn:E; [done|]. bool_simpl. split; [done|].
    intros Hfile. rewrite Hfile in Hc. done.
  - intros each He Hside Hb. apply Hhid, elem_of_dirtyFolders. exists (pathKey (ex_rel each)).
    split; [|by split]. apply list_elem_of_fmap. exists each. split; [done|].
    apply list_elem_of_filter. done.
Qed.

Lemma not_dirty_local input key :
  key ∉ d_local (dirtySides (view input)) ->
  (forall k here, mapGet k (v_local (view input)) = Some here -> below key k ->
     exists previous, mapGet k (v_base (view input)) = Some previous /\
       be_type previous = lf_type here /\
       (lf_type here = file -> lf_stat here = baseStat previous)) /\
  (forall each, each ∈ allExcluded input -> ex_side each = local_side ->
     ~ below key (pathKey (ex_rel each))).
Proof.
  unfold dirtySides. cbn [d_local]. rewrite not_elem_of_union, !elem_of_dirtyFolders.
  intros [Hhid Hdirty]. split.
  - intros k here Hk Hbelow.
    assert (Hc : cleanHere (view input) k = true).
    { apply not_false_iff_true. intros Hf. apply Hdirty. exists k.
      split; [|by split]. apply mapGet_keys. eauto. }
    unfold cleanHere in Hc. rewrite Hk in Hc.
    destruct (mapGet k (v_base _)) as [p|]; [|done]. exists p. split; [done|].
    destruct (negb _) eqn:E; [done|]. bool_simpl. split; [done|].
    intros Hfile. rewrite Hfile in Hc. by apply sameStat_eq in Hc.
  - intros each He Hside Hb. apply Hhid, elem_of_dirtyFolders. exists (pathKey (ex_rel each)).
    split; [|by split]. apply list_elem_of_fmap. exists each. split; [done|].
    apply list_elem_of_filter. done.
Qed.

(** The action of a cell is at the cell's key, in the goal. *)
Ltac at_cell_key :=
  match goal with
  | Hk : ?key ∈ planKeys (view ?input) |- context [pathKey ?rel] =>
      replace (pathKey rel) with key by (symmetry; exact (cellOf_rel input key Hk))
  end.

(** C12: a server folder is trashed only when all of it is known: below it the
    server has only items the base knows under the same path and id, the files
    among them unchanged, and nothing that sync leaves alone. *)
Theorem trash_remote_folder_is_all_known input rel item :
  trash_remote rel item ∈ pl_actions (plan input) -> ri_type item = folder ->
  NoDup ((fun each => pathKey (si_rel each)) <$> in_remote input) ->
  (forall each, each ∈ in_remote input -> below (pathKey rel) (pathKey (si_rel each)) ->
     exists previous, previous ∈ in_base input /\
       pathKey (be_rel previous) = pathKey (si_rel each) /\
       be_remoteId previous = ri_id (si_item each) /\
       (ri_type (si_item each) = file -> sameOnServer previous (si_item each) = true)) /\
  (forall each, each ∈ allExcluded input -> ex_side each = remote_side ->
     ~ below (pathKey rel) (pathKey (ex_rel each))).
Proof.
  intros Ha Hf Hnd. action_cases Ha;
    [|erewrite cellType_there in * by done; congruence].
  match goal with H : _ ∉ d_remote _ |- _ => apply not_dirty_remote in H as [Hb Hx] end.
  at_cell_key. split; [|done].
  intros each Hin Hbelow.
  destruct (Hb (pathKey (si_rel each)) each) as (q & [Hq1 Hq2]%view_base & Hq3 & Hq4); [|done|].
  - apply mapGet_mapOf_NoDup; [by rewrite <- list_fmap_compose|].
    apply list_elem_of_fmap. eauto.
  - by exists q.
Qed.

(** a local folder is trashed only when all of it is known: below it this
    computer has only entries of the base, of the same type, the files among
    them with the same size, time and id, and nothing that sync leaves alone. *)
Theorem trash_local_folder_is_all_known input rel here :
  trash_local rel here ∈ pl_actions (plan input) -> lf_type here = folder ->
  NoDup ((fun each => pathKey (lf_rel each)) <$> in_local input) ->
  (forall each, each ∈ in_local input -> below (pathKey rel) (pathKey (lf_rel each)) ->
     exists previous, previous ∈ in_base input /\
       pathKey (be_rel previous) = pathKey (lf_rel each) /\
       be_type previous = lf_type each /\
       (lf_type each = file -> lf_stat each = baseStat previous)) /\
  (forall each, each ∈ allExcluded input -> ex_side each = local_side ->
     ~ below (pathKey rel) (pathKey (ex_rel each))).
Proof.
  intros Ha Hf Hnd. action_cases Ha;
    [|erewrite cellType_here in * by done; congruence].
  match goal with H : _ ∉ d_local _ |- _ => apply not_dirty_local in H as [Hb Hx] end.
  at_cell_key. split; [|done].
  intros each Hin Hbelow.
  destruct (Hb (pathKey (lf_rel each)) each) as (q & [Hq1 Hq2]%view_base & Hq3 & Hq4); [|done|].
  - apply mapGet_mapOf_NoDup; [by rewrite <- list_fmap_compose|].
    apply list_elem_of_fmap. eauto.
  - by exists q.
Qed.

(** ** Nothing else below a trashed folder *)

Definition trashesFolder (a : Action) : bool :=
  match a with
  | trash_local _ here => bool_decide (lf_type here = folder)
  | trash_remote _ item => bool_decide (ri_type item = folder)
  | _ => false
  end.

(** A trashed folder is what the loop calls gone. *)
Lemma decided_trash_gone v key a gone :
  decided v key a gone -> trashesFolder a = true -> gone = true.
Proof.
  intros Hd Ht. inversion Hd; subst; [done| |];
    repeat match goal with
    | H : folderRule _ _ _ _ _ |- _ => inversion H; subst; clear H
    | H : fileRule _ _ _ |- _ => inversion H; subst; clear H
    end; try done; cbn in *; bool_simpl;
    unfold cellType, cellOf in *; cbn in *; simplify_option_eq; congruence.
Qed.

(** What holds of the loop after the keys [done]: everything in the list is at
    one of them, a trashed folder is gone, and nothing else is below one. *)
Record LoopInv (done : list string) (actions : list Action) (gone : gset string) : Prop := {
  li_keys a : a ∈ actions -> actionKey a ∈ done;
  li_gone a : a ∈ actions -> trashesFolder a = true -> actionKey a ∈ gone;
  li_alone a b : a ∈ actions -> b ∈ actions -> trashesFolder a = true ->
    ~ below (actionKey a) (actionKey b)
}.

Lemma LoopInv_skip done actions gone gone' key :
  LoopInv done actions gone -> gone ⊆ gone' -> LoopInv (done ++ [key]) actions gone'.
Proof. intros [H1 H2 H3] Hs. constructor; [set_solver|set_solver|done]. Qed.

Lemma LoopInv_snoc done actions gone gone' key a :
  LoopInv done actions gone -> gone ⊆ gone' ->
  actionKey a = key -> (trashesFolder a = true -> key ∈ gone') ->
  (forall d, d ∈ done -> depth d <= depth key) ->
  (forall g, above g key -> g ∉ gone) ->
  LoopInv (done ++ [key]) (actions ++ [a]) gone'.
Proof.
  intros [H1 H2 H3] Hs Hk Ht Hd Hg. constructor.
  - intros b [Hb| ->%list_elem_of_singleton]%elem_of_app; apply elem_of_app;
      [left; auto|right; rewrite Hk; constructor].
  - intros b [Hb| ->%list_elem_of_singleton]%elem_of_app Hbt; [auto|]. rewrite Hk. auto.
  - intros b c [Hb| ->%list_elem_of_singleton]%elem_of_app
      [Hc| ->%list_elem_of_singleton]%elem_of_app Hbt Hbelow; unfold below in *.
    + by eapply (H3 b c).
    + rewrite Hk in Hbelow. eapply Hg, (H2 b); [|done..]. apply above_parent. by right.
    + rewrite Hk in Hbelow. specialize (Hd _ (H1 c Hc)).
      assert (depth key < depth (actionKey c)); [|lia].
      apply depth_above; [apply above_parent; by right|by apply above_proper_ne].
    + by apply above_proper_ne in Hbelow.
Qed.

Lemma planPaths_inv input pending :
  exists gone, LoopInv (planKeys (view input))
    (lp_actions (planPaths (view input) pending)) gone.
Proof.
  unfold planPaths. set (f := planPath _ _ _ _).
  assert (Hgen : forall todo done state, done ++ todo = planKeys (view input) ->
    LoopInv done (lp_actions state) (lp_gone state) ->
    exists gone, LoopInv (planKeys (view input)) (lp_actions (foldl f state todo)) gone).
  { induction todo as [|key todo IH]; intros done state Hdone Hinv; cbn.
    { rewrite app_nil_r in Hdone. subst. eauto. }
    apply (IH (done ++ [key])); [by rewrite <- app_assoc|].
    assert (Hkey : key ∈ planKeys (view input)) by (rewrite <- Hdone; set_solver).
    destruct (planPath_cases (view input) pending state key) as (o & Ho & Hp & Hsub & Hg).
    fold f in Ho, Hsub, Hg.
    rewrite Ho. destruct o as [a|]; cbn [option_list].
    - destruct (Hp ltac:(done)) as [Hc Hpa].
      eapply LoopInv_snoc; try done.
      + by apply pathAction_key in Hpa as [? _].
      + intros Ht. inversion Hpa; subst; [done|].
        match goal with H : dc_action _ = Some _ |- _ => apply decision_decided in H as Hd end.
        apply decided_trash_gone in Hd; [|done]. by apply Hg.
      + intros d Hd. pose proof (sortBy_Sorted depth (setOf ((v_local (view input)).*1
          ++ (v_remote (view input)).*1 ++ (v_base (view input)).*1))) as Hs.
        fold (planKeys (view input)) in Hs. rewrite <- Hdone in Hs.
        eapply StronglySorted_app_1_elem_of in Hs; [exact Hs|done|constructor].
      + intros g Hab. rewrite covered_false in Hc. apply Hc; [done|]. set_solver.
    - rewrite app_nil_r. by eapply LoopInv_skip. }
  eapply (Hgen (planKeys (view input)) []); [done|].
  constructor; cbn; set_solver.
Qed.

(** Once a folder is trashed, on either side, the plan does nothing else
    with anything below it: no transfer into it, no second deletion. *)
Theorem nothing_planned_below_trashed_folder input a b :
  a ∈ pl_actions (plan input) -> b ∈ pl_actions (plan input) ->
  trashesFolder a = true -> ~ below (actionKey a) (actionKey b).
Proof.
  intros Ha Hb Ht. destruct (plan_actions_cases input) as [Hall|[pending Hp]].
  - rewrite Forall_forall in Hall. specialize (Hall a Ha). by destruct a.
  - rewrite Hp in *. destruct (planPaths_inv input pending) as [gone Hinv].
    by eapply li_alone.
Qed.
End Folders.

Section Agreement.
Context `{Platform}.

(** ** A pair in sync *)

(** One path as all three states agree on it. *)
Record agrees (entry : BaseEntry) (here : LocalFile) (there : ScopedItem) : Prop := {
  ag_local_key : pathKey (lf_rel here) = pathKey (be_rel entry);
  ag_remote_key : pathKey (si_rel there) = pathKey (be_rel entry);
  ag_local_type : lf_type here = be_type entry;
  ag_remote_type : ri_type (si_item there) = be_type entry;
  ag_stat : lf_stat here = baseStat entry;
  ag_id : ri_id (si_item there) = be_remoteId entry;
  ag_rev : ri_rev (si_item there) = be_rev entry;
  ag_checksum : ri_checksum (si_item there) = be_checksum entry
}.

(** Both sides hold exactly what the base holds, and nothing is left alone.
    A folder may have an unknown id only when the disk gives none. *)
Record inSync (input : PlanInput) : Prop := {
  sync_base entry : entry ∈ in_base input -> exists here there,
    here ∈ in_local input /\ there ∈ in_remote input /\ agrees entry here there;
  sync_local here : here ∈ in_local input -> exists entry,
    entry ∈ in_base input /\ pathKey (be_rel entry) = pathKey (lf_rel here);
  sync_remote there : there ∈ in_remote input -> exists entry,
    entry ∈ in_base input /\ pathKey (be_rel entry) = pathKey (si_rel there);
  sync_local_keys : NoDup ((fun e => pathKey (lf_rel e)) <$> in_local input);
  sync_remote_keys : NoDup ((fun e => pathKey (si_rel e)) <$> in_remote input);
  sync_base_keys : NoDup ((fun e => pathKey (be_rel e)) <$> in_base input);
  sync_ids : NoDup ((fun e => ri_id (si_item e)) <$> in_remote input)
}.

Lemma mapGet_keyed_elem {A} (f : A -> string) (l : list A) x :
  NoDup (f <$> l) -> x ∈ l -> mapGet (f x) (mapOf ((fun e => (f e, e)) <$> l)) = Some x.
Proof.
  intros Hnd Hin. apply mapGet_mapOf_NoDup; [by rewrite <- list_fmap_compose|].
  apply list_elem_of_fmap. eauto.
Qed.

(** What the view of a pair in sync gives for a base entry. *)
Lemma inSync_entry input entry :
  inSync input -> entry ∈ in_base input -> exists here there,
    agrees entry here there /\
    mapGet (pathKey (be_rel entry)) (v_local (view input)) = Some here /\
    mapGet (pathKey (be_rel entry)) (v_remote (view input)) = Some there /\
    mapGet (pathKey (be_rel entry)) (v_base (view input)) = Some entry /\
    mapGet (be_remoteId entry) (v_remoteById (view input)) = Some there.
Proof.
  intros Hs He. destruct (sync_base _ Hs entry He) as (here & there & Hl & Hr & Ha).
  exists here, there. split; [done|]. split; [|split; [|split]].
  - rewrite <- (ag_local_key _ _ _ Ha).
    apply (mapGet_keyed_elem (fun e => pathKey (lf_rel e))); [by apply Hs|done].
  - rewrite <- (ag_remote_key _ _ _ Ha).
    apply (mapGet_keyed_elem (fun e => pathKey (si_rel e))); [by apply Hs|done].
  - apply (mapGet_keyed_elem (fun e => pathKey (be_rel e))); [by apply Hs|done].
  - rewrite <- (ag_id _ _ _ Ha).
    apply (mapGet_keyed_elem (fun e => ri_id (si_item e))); [by apply Hs|done].
Qed.

(** Every path of a pair in sync is a base entry's. *)
Lemma inSync_key input key :
  inSync input -> key ∈ planKeys (view input) ->
  exists entry, entry ∈ in_base input /\ key = pathKey (be_rel entry).
Proof.
  intros Hs Hk. unfold planKeys in Hk.
  rewrite elem_of_sortBy, elem_of_setOf, !elem_of_app in Hk. cbn [v_local v_remote v_base view] in Hk.
  rewrite !mapOf_keys, <- !list_fmap_compose, !list_elem_of_fmap in Hk. cbn in Hk.
  destruct Hk as [(x & -> & Hx)|[(x & -> & Hx)|(x & -> & Hx)]].
  - destruct (sync_local _ Hs x Hx) as (e & ? & ?). by exists e.
  - destruct (sync_remote _ Hs x Hx) as (e & ? & ?). by exists e.
  - by exists x.
Qed.

Lemma inSync_no_moves input :
  inSync input -> planMoves (view input) (in_base input) = ([], ∅).
Proof.
  intros Hs. unfold planMoves.
  assert (Hin : forall e, e ∈ sortBy (fun e => depth (be_rel e)) (in_base input) ->
    e ∈ in_base input) by (intros e; by rewrite elem_of_sortBy).
  induction (sortBy _ _) as [|e es IH]; [done|]. cbn.
  destruct (inSync_entry input e Hs) as (here & there & Ha & Hl & Hr & Hb & Hid);
    [apply Hin; constructor|].
  assert (Hno : serverMove (view input) e = None /\ localMove (view input) e = None).
  { split.
    - unfold serverMove. rewrite Hid, (ag_remote_key _ _ _ Ha).
      by rewrite (bool_decide_eq_true_2 (pathKey (be_rel e) = _)), orb_true_r.
    - unfold localMove, mapHas. by rewrite Hl, orb_true_r. }
  destruct Hno as [-> ->].
  destruct (covered _ _); apply IH; intros e' He'; apply Hin; by constructor.
Qed.

Lemma inSync_decision input key :
  inSync input -> key ∈ planKeys (view input) ->
  decideCell (view input) (cellOf (view input) key) (dirtySides (view input)) []
    = (nothing, []).
Proof.
  intros Hs Hk. destruct (inSync_key input key Hs Hk) as (e & He & ->).
  destruct (inSync_entry input e Hs He) as (here & there & Ha & Hl & Hr & Hb & _).
  destruct Ha as [_ _ Htl Htr Hst Hid Hrev Hck].
  assert (Hino : idToSave (Some e) here = false).
  { unfold idToSave. cbn. rewrite andb_false_iff.
    assert (Hi : lf_ino here = be_ino e) by (apply (f_equal st_ino) in Hst; exact Hst).
    rewrite Hi. repeat case_bool_decide; auto. }
  unfold decideCell, typesDiffer, cellType, planFolder, folderOnBothSides, decideFile,
    checksumOf, fileOnBothSides, cellOf.
  clear Hs He Hk. revert Hl Hr Hb. generalize (view input). intros v Hl Hr Hb. cbn.
  rewrite Hl, Hr, Hb. cbn.
  rewrite Htl, Htr, bool_decide_eq_true_2 by done. cbn.
  rewrite Hino, Hid, Hst, sameStat_refl, Hrev, Hck. cbn.
  rewrite (bool_decide_eq_true_2 (be_remoteId e = _)), (bool_decide_eq_true_2 (be_rev e = _)),
    (bool_decide_eq_true_2 (be_checksum e = _)) by done. cbn.
  by destruct (bool_decide _).
Qed.

(** Nothing is hidden in a pair in sync, so no folder vanished. *)
Lemma vanished_none (v : View) :
  hd_inos (v_hidden v) = ∅ -> hd_ids (v_hidden v) = ∅ -> vanishedFolders v = ∅.
Proof.
  intros Hi Hd. apply set_eq. intros x. split; [|set_solver]. unfold vanishedFolders.
  rewrite elem_of_list_to_set, list_elem_of_fmap. intros (e & _ & He).
  apply list_elem_of_filter in He as [(_ & _ & [[_ Hx]|Hx]) _];
    [rewrite Hi in Hx|rewrite Hd in Hx]; set_solver.
Qed.

(** a pair whose computer, server and base agree needs nothing: the plan
    has no action and no move, asks for no checksum and holds nothing, in every
    mode. *)
Theorem plan_of_agreeing_pair_is_empty input :
  inSync input -> allExcluded input = [] ->
  pl_actions (plan input) = [] /\ pl_needsHash (plan input) = [] /\
  pl_hold (plan input) = None.
Proof.
  intros Hs Hex.
  assert (Hhold : holdFor input = None).
  { unfold holdFor. destruct (in_allowEmptied input); [done|].
    destruct (in_base input) as [|e es] eqn:Eb; [done|].
    destruct (sync_base _ Hs e) as (here & there & Hl & Hr & _); [rewrite Eb; constructor|].
    destruct (in_local input); [by apply elem_of_nil in Hl|].
    destruct (in_remote input); [by apply elem_of_nil in Hr|]. by case_bool_decide. }
  unfold plan. rewrite Hhold. cbv zeta. rewrite inSync_no_moves by done.
  cbn [pl_actions pl_needsHash pl_hold].
  unfold planPaths. rewrite vanished_none; [|cbn; by rewrite Hex..].
  enough (Hloop : forall keys, keys ⊆ planKeys (view input) ->
    foldl (planPath (view input) (dirtySides (view input)) ∅ ∅)
      {| lp_actions := []; lp_gone := ∅; lp_needsHash := [] |} keys
    = {| lp_actions := []; lp_gone := ∅; lp_needsHash := [] |}) by by rewrite Hloop.
  induction keys as [|key keys IH]; intros Hin; [done|]. cbn.
  assert (Hstep : planPath (view input) (dirtySides (view input)) ∅ ∅
    {| lp_actions := []; lp_gone := ∅; lp_needsHash := [] |} key
    = {| lp_actions := []; lp_gone := ∅; lp_needsHash := [] |}).
  { unfold planPath. destruct (covered key _); [done|].
    destruct (covered key [∅]) eqn:Ec.
    - apply covered_true in Ec as (x & s & _ & ->%list_elem_of_singleton & Hx). set_solver.
    - cbn [lp_needsHash]. rewrite inSync_decision; [done|done|]. apply Hin. constructor. }
  rewrite Hstep. apply IH. set_solver.
Qed.

(** ** An emptied side *)

(** When a whole side of a pair with at least ten files disappeared, the
    plan does nothing and says which side: the deletion is not repeated on the
    other side until it is allowed. *)
Theorem emptied_side_is_held input :
  in_allowEmptied input = false ->
  EMPTIED_HOLD_FILES <= length (filter (fun entry => be_type entry = file) (in_base input)) ->
  (in_local input = [] -> in_mode input = TwoWay ->
     pl_actions (plan input) = [] /\ pl_hold (plan input) = Some hold_local) /\
  (in_local input <> [] -> in_remote input = [] -> in_mode input <> Upload ->
     pl_actions (plan input) = [] /\ pl_hold (plan input) = Some hold_server).
Proof.
  intros Hal Hn. unfold plan, holdFor. rewrite Hal.
  rewrite (bool_decide_eq_false_2 (_ < _)) by lia. split.
  - intros Hl Hm. rewrite Hl, Hm. done.
  - intros Hl Hr Hm. rewrite (bool_decide_eq_false_2 (in_local input = [])) by done. cbn.
    rewrite Hr, !bool_decide_eq_true_2 by done. done.
Qed.

(** ** Both sides changed *)

(** When a file changed on both sides since they agreed and the contents
    differ, a two-way pair keeps both: it makes a conflict copy, and compares
    the contents first when the server file has no checksum. *)
Theorem both_changed_keeps_both (v : View) key here there (previous : option BaseEntry) mine nh :
  v_mode v = TwoWay ->
  mapGet key (v_local v) = Some here -> mapGet key (v_remote v) = Some there ->
  mapGet key (v_base v) = previous ->
  lf_type here = file -> ri_type (si_item there) = file ->
  checksumOf here previous = Some mine -> mine <> ri_checksum (si_item there) ->
  (forall p, previous = Some p -> mine <> be_checksum p /\ ~ unchangedThere p (si_item there)) ->
  decideCell v (cellOf v key) (dirtySides v) nh
  = (just (conflict_copy (lf_rel here) here false
       (match ri_checksum (si_item there) with
        | None => Some {| uv_remote := si_item there; uv_checksum := mine |}
        | Some _ => None
        end)), nh).
Proof.
  intros Hm Hl Hr Hb Hfl Hfr Hck Hne Hprev.
  unfold decideCell, typesDiffer, cellType, decideFile, fileOnBothSides, cellOf.
  generalize (dirtySides v). intros dirty. cbn. rewrite Hl, Hr, Hb. cbn.
  rewrite Hfl, Hfr, Hck. cbn. rewrite (bool_decide_eq_false_2 (mine = _)) by done.
  destruct previous as [p|]; cbn; [|by rewrite Hm].
  destruct (Hprev p eq_refl) as [Hn1 Hn2].
  rewrite (bool_decide_eq_false_2 (mine = _)) by done. cbn.
  assert (Hch : negb (bool_decide (be_remoteId p = ri_id (si_item there)))
                || negb (sameOnServer p (si_item there)) = true).
  { rewrite <- negb_andb, negb_true_iff. apply not_true_iff_false. intros Ht.
    apply andb_true_iff in Ht as [Ht1%bool_decide_eq_true_1 Ht2]. by apply Hn2. }
  rewrite Hch, Hm. done.
Qed.

End Agreement.

(** ** The name of a conflict copy *)

Section ConflictName.
Context (rel deviceName : string) (now : LocalDate).

Lemma pretty_Z_inj (n m : Z) : pretty n = pretty m -> n = m.
Proof. apply (inj pretty). Qed.

(** The part of a candidate that changes with the attempt, between parts that
    do not. *)
Definition attemptSuffix (attempt : nat) : string :=
  if bool_decide (attempt = 1) then "" else " " +:+ numberString (Z.of_nat attempt).

Lemma conflictCandidate_shape : exists before after, forall attempt,
  conflictCandidate rel deviceName now attempt = before +:+ attemptSuffix attempt +:+ after.
Proof.
  unfold conflictCandidate. fold slash.
  destruct (match lastIndexOf _ (baseName rel) with Some (S d) => _ | _ => _ end) as [stem ext].
  set (device := if bool_decide _ then _ else _).
  exists (if bool_decide (parentRel rel = "")
          then stem +:+ " (conflict, " +:+ device +:+ ", " +:+ conflictStamp now
          else parentRel rel +:+ "/" +:+ stem +:+ " (conflict, " +:+ device +:+ ", "
               +:+ conflictStamp now), (")" +:+ ext).
  intros attempt. fold (attemptSuffix attempt).
  destruct (bool_decide (parentRel rel = "")); by rewrite <- ?string_app_assoc.
Qed.

(** Two attempts never try the same name. *)
Lemma conflictCandidate_inj i j :
  1 <= i -> 1 <= j ->
  conflictCandidate rel deviceName now i = conflictCandidate rel deviceName now j -> i = j.
Proof.
  destruct conflictCandidate_shape as (before & after & Hs). rewrite !Hs.
  intros Hi Hj E%string_app_inj_l%string_app_inj_r. unfold attemptSuffix in E.
  do 2 case_bool_decide; subst; try done.
  apply string_app_inj_l, pretty_Z_inj in E. lia.
Qed.

Lemma conflictLoop_some fuel taken attempt r :
  conflictLoop fuel rel deviceName now taken attempt = Some r ->
  taken r = false /\ exists n, attempt <= n /\ r = conflictCandidate rel deviceName now n.
Proof.
  revert attempt. induction fuel as [|fuel IH]; intros attempt; cbn; [done|].
  destruct (taken (conflictCandidate rel deviceName now attempt)) eqn:Et; [|intros E; injection E as E; subst r; eauto].
  intros [? (n & ? & ?)]%IH. split; [done|]. exists n. split; [lia|done].
Qed.

Lemma conflictLoop_none fuel taken attempt :
  conflictLoop fuel rel deviceName now taken attempt = None ->
  forall i, i < fuel -> taken (conflictCandidate rel deviceName now (attempt + i)) = true.
Proof.
  revert attempt. induction fuel as [|fuel IH]; intros attempt Hn i Hi; [lia|]. cbn in Hn.
  destruct (taken (conflictCandidate rel deviceName now attempt)) eqn:Et; [|done].
  destruct i as [|i]; [by rewrite Nat.add_0_r|].
  rewrite <- Nat.add_succ_comm. apply IH; [done|lia].
Qed.

(** a conflict copy always gets a name, and a free one: when the taken
    names are among [names], [length names + 1] attempts are enough, and the
    name found is not taken. *)
Theorem conflictCopyName_finds_free_name taken (names : list string) :
  (forall name, taken name = true -> name ∈ names) ->
  exists r, conflictCopyName (S (length names)) rel deviceName now taken = Some r /\
    taken r = false.
Proof.
  intros Htaken. unfold conflictCopyName.
  destruct (conflictLoop _ _ _ _ _ _) as [r|] eqn:E.
  { exists r. split; [done|]. by apply conflictLoop_some in E as [? _]. }
  exfalso. pose proof (conflictLoop_none _ _ _ E) as Hall.
  set (tried := (fun i => conflictCandidate rel deviceName now (1 + i))
                <$> seq 0 (S (length names))).
  assert (Hnd : NoDup tried).
  { apply NoDup_fmap_2_strong; [|apply NoDup_seq].
    intros i j _ _ Hij%conflictCandidate_inj; lia. }
  assert (Hsub : tried ⊆ names).
  { intros x (i & -> & Hi%elem_of_seq)%list_elem_of_fmap. apply Htaken, Hall. lia. }
  pose proof (submseteq_length _ _ (NoDup_submseteq _ _ Hnd Hsub)) as Hlen.
  subst tried. rewrite length_fmap, length_seq in Hlen. lia.
Qed.
End ConflictName.
