(* ===== verification/PlanExamples.v ===== *)
(** * The planner on concrete pairs

    Small pairs on which the planner's properties apply: each lemma checks the
    hypotheses of one property on concrete data and applies it. *)

From S2P Require Import Prelude SyncTypes Plan PlanFacts PlanSafety PlanFolders.

#[local] Existing Instance asciiPlatform.

(** ** Building blocks *)

Definition exampleLocal (rel : string) (type : ItemType) (size : Z) (ino : string)
    (checksum : option string) : LocalFile :=
  {| lf_entry := {| le_rel := rel; le_type := type; le_size := size; le_mtimeMs := 1000;
                    le_ino := ino |};
     lf_checksum := checksum |}.

Definition exampleItem (id : string) (type : ItemType) (name : string)
    (checksum : option string) (rev : Z) : RemoteItem :=
  {| ri_id := id; ri_type := type; ri_parentId := None; ri_name := name;
     ri_size := Some 3%Z; ri_checksum := checksum; ri_rev := rev; ri_modifiedAt := None |}.

Definition exampleBase (rel : string) (type : ItemType) (id ino : string)
    (checksum : option string) (rev : Z) : BaseEntry :=
  {| be_pairId := "p"; be_rel := rel; be_type := type; be_remoteId := id; be_rev := rev;
     be_checksum := checksum; be_size := 3; be_mtimeMs := 1000; be_ino := ino |}.

Definition exampleInput (mode : SyncMode) (local : list LocalFile)
    (remote : list ScopedItem) (base : list BaseEntry) : PlanInput :=
  {| in_pairId := "p"; in_mode := mode; in_local := local; in_remote := remote;
     in_skipped := []; in_excluded := []; in_base := base; in_allowEmptied := false |}.

(** A photo and a folder of notes both sides agreed on. *)
Definition photoHere := exampleLocal "Photo.jpg" file 3 "11" None.
Definition photoThere :=
  {| si_rel := "photo.JPG"; si_item := exampleItem "r1" file "photo.JPG" (Some "c1") 7 |}.
Definition photoBase := exampleBase "Photo.jpg" file "r1" "11" (Some "c1") 7.
Definition notesHere := exampleLocal "notes" folder 3 "12" None.
Definition notesThere :=
  {| si_rel := "notes"; si_item := exampleItem "r2" folder "notes" None 2 |}.
Definition notesBase := exampleBase "notes" folder "r2" "12" None 2.
Definition todoHere := exampleLocal "notes/todo.txt" file 3 "13" None.
Definition todoThere :=
  {| si_rel := "notes/todo.txt"; si_item := exampleItem "r3" file "todo.txt" (Some "c3") 4 |}.
Definition todoBase := exampleBase "notes/todo.txt" file "r3" "13" (Some "c3") 4.

(** The photo as edited on the computer, and as edited on the server. *)
Definition photoEditedHere := exampleLocal "Photo.jpg" file 5 "11" (Some "d1").
Definition photoEditedThere :=
  {| si_rel := "photo.JPG"; si_item := exampleItem "r1" file "photo.JPG" (Some "e1") 8 |}.

Definition allHere := [photoHere; notesHere; todoHere].
Definition allThere := [photoThere; notesThere; todoThere].
Definition allBase := [photoBase; notesBase; todoBase].

Ltac nth_action n := apply list_elem_of_lookup_2 with n; vm_compute; reflexivity.
Ltac no_duplicates := apply (bool_decide_eq_true_1 _); vm_compute; reflexivity.

(** ** The properties on them *)

Definition uploadOnly := exampleInput Upload [photoEditedHere] [photoThere] [photoBase].

Lemma upload_only_witness :
  uploadModeAction (upload "Photo.jpg" photoEditedHere
    (Some {| rp_remoteId := "r1"; rp_rev := 7 |})).
Proof.
  apply (upload_only_plan_keeps_computer_and_server uploadOnly); [done|nth_action 0].
Defined.

Definition downloadOnly := exampleInput Download [photoEditedHere] [photoThere] [photoBase].

Lemma download_only_witness :
  downloadModeAction (conflict_copy "Photo.jpg" photoEditedHere true None).
Proof.
  apply (download_only_plan_keeps_server downloadOnly); [done|nth_action 0].
Defined.

Definition deletedThere := exampleInput TwoWay allHere [notesThere; todoThere] allBase.

Lemma trash_local_file_witness :
  exists previous, previous ∈ in_base deletedThere /\ unchangedHere previous photoHere.
Proof.
  destruct (trash_local_file_is_deleted_on_server deletedThere "Photo.jpg" photoHere)
    as (_ & _ & previous & Hp & _ & Hu & _); [nth_action 0|done|].
  exists previous. by split.
Defined.

Definition deletedHere := exampleInput TwoWay [notesHere; todoHere] allThere allBase.

Lemma trash_remote_file_witness :
  in_mode deletedHere = TwoWay /\
  exists previous, previous ∈ in_base deletedHere /\ unchangedThere previous (si_item photoThere).
Proof.
  destruct (trash_remote_file_is_deleted_here deletedHere "photo.JPG" (si_item photoThere))
    as (Hm & previous & key & Hp & _ & Hu & _); [nth_action 0|done|].
  split; [done|]. exists previous. by split.
Defined.

Definition editedHere := exampleInput TwoWay [photoEditedHere] [photoThere] [photoBase].

Lemma overwrites_witness :
  overwritesOnlySeen editedHere (upload "Photo.jpg" photoEditedHere
    (Some {| rp_remoteId := "r1"; rp_rev := 7 |})).
Proof. apply plan_overwrites_only_seen_versions. nth_action 0. Defined.

(** The notes folder holds a name this computer cannot have. *)
Definition hiddenNotes : PlanInput :=
  {| in_pairId := "p"; in_mode := TwoWay; in_local := [photoEditedHere];
     in_remote := [photoThere]; in_skipped := [];
     in_excluded := [{| ex_side := remote_side; ex_rel := "Notes"; ex_ino := None;
                        ex_remoteId := Some "r2" |}];
     in_base := [photoBase]; in_allowEmptied := false |}.

Lemma hidden_paths_witness : ~ above (pathKey "Notes") (pathKey "Photo.jpg").
Proof.
  apply (plan_leaves_hidden_paths_alone hiddenNotes
    (upload "Photo.jpg" photoEditedHere (Some {| rp_remoteId := "r1"; rp_rev := 7 |}))
    "Photo.jpg") with
    (each := {| ex_side := remote_side; ex_rel := "Notes"; ex_ino := None;
                ex_remoteId := Some "r2" |}).
  - nth_action 0.
  - constructor.
  - constructor.
Defined.

(** The server renamed the photo while the todo file was edited here. *)
Definition renamedThere :=
  exampleInput TwoWay [photoHere]
    [{| si_rel := "Cat.jpg"; si_item := exampleItem "r1" file "Cat.jpg" (Some "c1") 8 |}]
    [photoBase].

Lemma moves_alone_witness :
  Forall (fun b => isMove b = true) (pl_actions (plan renamedThere)).
Proof.
  apply (moves_come_alone renamedThere
    (move_local "Photo.jpg" "Cat.jpg" (exampleItem "r1" file "Cat.jpg" (Some "c1") 8)));
    [nth_action 0|done].
Defined.

Definition newHere := exampleInput TwoWay allHere [] [].

Lemma once_per_path_witness :
  NoDup (actionKey <$> pl_actions (plan newHere)) /\ length (pl_actions (plan newHere)) = 3.
Proof.
  split; [|by vm_compute].
  apply (plan_acts_once_per_path_parents_first newHere). vm_compute. by repeat constructor.
Defined.

Definition notesDeletedHere := exampleInput TwoWay [photoHere] allThere allBase.

Lemma trash_remote_folder_witness :
  exists previous, previous ∈ in_base notesDeletedHere /\ be_remoteId previous = "r3".
Proof.
  destruct (trash_remote_folder_is_all_known notesDeletedHere "notes" (si_item notesThere))
    as [Hall _]; [nth_action 0|done|no_duplicates|].
  destruct (Hall todoThere) as (previous & Hp & _ & Hid & _).
  - nth_action 2.
  - split; [done|by left].
  - exists previous. by split.
Defined.

Definition notesDeletedThere := exampleInput TwoWay allHere [photoThere] allBase.

Lemma trash_local_folder_witness :
  exists previous, previous ∈ in_base notesDeletedThere /\
    lf_stat todoHere = baseStat previous.
Proof.
  destruct (trash_local_folder_is_all_known notesDeletedThere "notes" notesHere)
    as [Hall _]; [nth_action 0|done|no_duplicates|].
  destruct (Hall todoHere) as (previous & Hp & _ & _ & Hst).
  - nth_action 2.
  - split; [done|by left].
  - exists previous. split; [done|]. by apply Hst.
Defined.

Definition notesDeletedPhotoEdited :=
  exampleInput TwoWay [photoEditedHere] allThere allBase.

Lemma nothing_below_witness :
  ~ below (pathKey "notes") (actionKey (upload "Photo.jpg" photoEditedHere
      (Some {| rp_remoteId := "r1"; rp_rev := 7 |}))).
Proof.
  apply (nothing_planned_below_trashed_folder notesDeletedPhotoEdited
    (trash_remote "notes" (si_item notesThere))); [nth_action 1|nth_action 0|done].
Defined.

(** ** A pair in sync *)

Definition agreed := exampleInput TwoWay allHere allThere allBase.

Lemma agreed_inSync : inSync agreed.
Proof.
  assert (H1 : agrees photoBase photoHere photoThere) by by constructor; vm_compute.
  assert (H2 : agrees notesBase notesHere notesThere) by by constructor; vm_compute.
  assert (H3 : agrees todoBase todoHere todoThere) by by constructor; vm_compute.
  constructor; try no_duplicates.
  - intros e He. cbn in He. unfold allBase, allHere, allThere in *.
    repeat (apply elem_of_cons in He as [->|He]); [| | |by apply elem_of_nil in He];
      do 2 eexists; (split; [|split; [|eassumption]]);
      (apply list_elem_of_In; cbn; tauto).
  - intros e He. cbn in He. unfold allBase, allHere, allThere in *.
    repeat (apply elem_of_cons in He as [->|He]); [| | |by apply elem_of_nil in He];
      [exists photoBase|exists notesBase|exists todoBase];
      (split; [apply list_elem_of_In; cbn; tauto|by vm_compute]).
  - intros e He. cbn in He. unfold allBase, allHere, allThere in *.
    repeat (apply elem_of_cons in He as [->|He]); [| | |by apply elem_of_nil in He];
      [exists photoBase|exists notesBase|exists todoBase];
      (split; [apply list_elem_of_In; cbn; tauto|by vm_compute]).
Defined.

Lemma agreeing_pair_witness : pl_actions (plan agreed) = [].
Proof. apply plan_of_agreeing_pair_is_empty; [apply agreed_inSync|done]. Defined.

(** ** An emptied side, an edit on both sides, a taken name *)

Definition tenFiles : list BaseEntry :=
  (fun n => exampleBase (numberString n) file (numberString n) (numberString n) None 1)
  <$> [1; 2; 3; 4; 5; 6; 7; 8; 9; 10]%Z.

Definition emptiedHere := exampleInput TwoWay [] [photoThere] tenFiles.

Lemma emptied_side_witness : pl_hold (plan emptiedHere) = Some hold_local.
Proof.
  destruct (emptied_side_is_held emptiedHere) as [Hl _]; [done|vm_compute; lia|].
  by apply Hl.
Defined.

Definition editedOnBothSides :=
  exampleInput TwoWay [photoEditedHere] [photoEditedThere] [photoBase].

Lemma both_changed_witness :
  (decideCell (view editedOnBothSides) (cellOf (view editedOnBothSides) "photo.jpg")
     (dirtySides (view editedOnBothSides)) []).1
  = just (conflict_copy "Photo.jpg" photoEditedHere false None).
Proof.
  rewrite (both_changed_keeps_both (view editedOnBothSides) "photo.jpg" photoEditedHere
    photoEditedThere (Some photoBase) (Some "d1")); try done.
  intros p [= <-]. split; [done|]. intros [_ Hs]. by vm_compute in Hs.
Defined.

Definition someDate : LocalDate :=
  {| getFullYear := 2026; getMonth := 0; getDate := 9; getHours := 8; getMinutes := 5 |}.

Lemma conflict_name_witness :
  exists r, conflictCopyName 2 "docs/a.txt" "laptop" someDate
    (String.eqb "docs/a (conflict, laptop, 2026-01-09 08-05).txt") = Some r /\
    r = "docs/a (conflict, laptop, 2026-01-09 08-05 2).txt".
Proof.
  destruct (conflictCopyName_finds_free_name "docs/a.txt" "laptop" someDate
    (String.eqb "docs/a (conflict, laptop, 2026-01-09 08-05).txt")
    ["docs/a (conflict, laptop, 2026-01-09 08-05).txt"]) as (r & Hr & _).
  - intros name Hn. apply String.eqb_eq in Hn as <-. constructor.
  - exists r. split; [done|]. vm_compute in Hr. by injection Hr.
Defined.
