(* ===== verification/JsValues.v ===== *)
(** * The language's values the journal parses

    [BigInt(string)] and [new Date(string)], as the durable intents use them: a
    string that is no integer literal throws, and a date string is one of the
    form [Date.prototype.toISOString] prints. *)

From Stdlib Require Import Ascii.
From Stdlib Require String.
From S2P Require Import Prelude.

Open Scope Z_scope.

(** ** Numbers *)

(** The value of a digit character in a radix. *)
Definition digitValue (radix : Z) (a : ascii) : option Z :=
  let n := Z.of_nat (nat_of_ascii a) in
  let v :=
    if bool_decide (48 <= n <= 57) then n - 48
    else if bool_decide (97 <= n <= 102) then n - 87
    else if bool_decide (65 <= n <= 70) then n - 55
    else radix in
  if bool_decide (v < radix) then Some v else None.

Fixpoint digitsFrom (radix acc : Z) (s : string) : option Z :=
  match s with
  | EmptyString => Some acc
  | String a s' =>
      match digitValue radix a with
      | Some d => digitsFrom radix (acc * radix + d) s'
      | None => None
      end
  end.

(** A non-empty run of digits. *)
Definition digits (radix : Z) (s : string) : option Z :=
  if bool_decide (s = "") then None else digitsFrom radix 0 s.

(** [BigInt(s)]: [None] when it throws a SyntaxError. *)
Definition bigIntOf (s : string) : option Z :=
  match trim s with
  | EmptyString => Some 0
  | String "0" (String ("x" | "X") hex) => digits 16 hex
  | String "0" (String ("o" | "O") oct) => digits 8 oct
  | String "0" (String ("b" | "B") bin) => digits 2 bin
  | String "-" rest => Z.opp <$> digits 10 rest
  | String "+" rest => digits 10 rest
  | t => digits 10 t
  end.

(** ** Dates *)

(** Days from 1970-01-01 to a civil date of the proleptic Gregorian calendar. *)
Definition daysFromCivil (year month day : Z) : Z :=
  let y := if bool_decide (month <= 2) then year - 1 else year in
  let era := y / 400 in
  let yoe := y - era * 400 in
  let mp := (month + 9) mod 12 in
  let doy := (153 * mp + 2) / 5 + (day - 1) in
  let doe := yoe * 365 + yoe / 4 - yoe / 100 + doy in
  era * 146097 + doe - 719468.

Definition stringSlice (from len : nat) (s : string) : string :=
  sliceTo len (sliceFrom from s).

(** [new Date(s).getTime()] of [YYYY-MM-DDTHH:mm:ss.sssZ]; [None] is an
    invalid date, which no write accepts. *)
Definition dateOf (s : string) : option Z :=
  if negb (bool_decide (String.length s = 24%nat)
           && bool_decide (stringSlice 4 1 s = "-") && bool_decide (stringSlice 7 1 s = "-")
           && bool_decide (stringSlice 10 1 s = "T") && bool_decide (stringSlice 13 1 s = ":")
           && bool_decide (stringSlice 16 1 s = ":") && bool_decide (stringSlice 19 1 s = ".")
           && bool_decide (stringSlice 23 1 s = "Z"))
  then None
  else
    year ← digits 10 (stringSlice 0 4 s);
    month ← digits 10 (stringSlice 5 2 s);
    day ← digits 10 (stringSlice 8 2 s);
    hour ← digits 10 (stringSlice 11 2 s);
    minute ← digits 10 (stringSlice 14 2 s);
    second ← digits 10 (stringSlice 17 2 s);
    ms ← digits 10 (stringSlice 20 3 s);
    if bool_decide (1 <= month <= 12) && bool_decide (1 <= day <= 31)
       && (bool_decide (hour <= 23)
           || (bool_decide (hour = 24) && bool_decide (minute = 0)
               && bool_decide (second = 0) && bool_decide (ms = 0)))
       && bool_decide (minute <= 59) && bool_decide (second <= 59)
    then Some (daysFromCivil year month day * 86400000
               + hour * 3600000 + minute * 60000 + second * 1000 + ms)
    else None.

(** The civil date of a day, and [date.toISOString()] for years up to 9999. *)
Definition civilFromDays (days : Z) : Z * Z * Z :=
  let z := days + 719468 in
  let era := z / 146097 in
  let doe := z - era * 146097 in
  let yoe := (doe - doe / 1460 + doe / 36524 - doe / 146096) / 365 in
  let doy := doe - (365 * yoe + yoe / 4 - yoe / 100) in
  let mp := (5 * doy + 2) / 153 in
  let month := if bool_decide (mp < 10) then mp + 3 else mp - 9 in
  let year := yoe + era * 400 in
  (if bool_decide (month <= 2) then year + 1 else year, month, doy - (153 * mp + 2) / 5 + 1).

Fixpoint zeros (count : nat) : string :=
  match count with O => "" | S count' => String "0" (zeros count') end.
Definition padded (width : nat) (n : Z) : string :=
  let s := numberString n in zeros (width - String.length s) +:+ s.

Definition toISOString (ms : Z) : string :=
  let '(year, month, day) := civilFromDays (ms / 86400000) in
  let rest := ms mod 86400000 in
  padded 4 year +:+ "-" +:+ padded 2 month +:+ "-" +:+ padded 2 day +:+ "T"
  +:+ padded 2 (rest / 3600000) +:+ ":" +:+ padded 2 (rest / 60000 mod 60) +:+ ":"
  +:+ padded 2 (rest / 1000 mod 60) +:+ "." +:+ padded 3 (rest mod 1000) +:+ "Z".

Example dateOf_epoch : dateOf "1970-01-01T00:00:00.000Z" = Some 0.
Proof. by vm_compute. Qed.
Example dateOf_example : dateOf "2026-07-26T12:34:56.789Z" = Some 1785069296789.
Proof. by vm_compute. Qed.
Example toISOString_leap_day : toISOString 1709210096789 = "2024-02-29T12:34:56.789Z".
Proof. by vm_compute. Qed.
Example toISOString_example : dateOf (toISOString 1785069296789) = Some 1785069296789.
Proof. by vm_compute. Qed.
Example bigIntOf_example : bigIntOf "-120" = Some (-120).
Proof. by vm_compute. Qed.

(** ** Numbers read back

    [BigInt(String(n))] is [n]. *)

Definition isDigit (a : ascii) : Prop := is_Some (digitValue 10 a).
Fixpoint onlyDigits (s : string) : Prop :=
  match s with EmptyString => True | String a s' => isDigit a /\ onlyDigits s' end.

Lemma digit_cases a : isDigit a ->
  a ∈ ["0"; "1"; "2"; "3"; "4"; "5"; "6"; "7"; "8"; "9"]%char.
Proof.
  intros [d Hd]. destruct a as [[] [] [] [] [] [] [] []]; try discriminate Hd;
    apply (bool_decide_eq_true_1 _); vm_compute; reflexivity.
Qed.

Lemma digit_value (n : N) : (n < 10)%N ->
  digitValue 10 (pretty_N_char n) = Some (Z.of_N n).
Proof.
  intros Hn. destruct n as [|[[[[]|[]|]|[[]|[]|]|]|[[[]|[]|]|[[]|[]|]|]|]]; reflexivity || lia.
Qed.

Lemma digitsFrom_pretty (x : N) s : (0 < x)%N -> onlyDigits s ->
  digitsFrom 10 0 (pretty_N_go x s) = digitsFrom 10 (Z.of_N x) s /\ onlyDigits (pretty_N_go x s).
Proof.
  revert s. induction (N.lt_wf_0 x) as [x _ IH]. intros s Hx Hs.
  rewrite pretty_N_go_step by done.
  assert (Hm : (x mod 10 < 10)%N) by (apply N.mod_lt; done).
  assert (Hs' : onlyDigits (String (pretty_N_char (x mod 10)) s)).
  { split; [|done]. exists (Z.of_N (x mod 10)). by apply digit_value. }
  destruct (decide (x / 10 = 0)%N) as [E|E].
  - assert (Em : (x mod 10 = x)%N) by (rewrite (N.div_mod x 10) at 2 by done; lia).
    rewrite E, pretty_N_go_0. split; [|done]. cbn [digitsFrom]. rewrite digit_value by done.
    by rewrite Em, Z.mul_0_l, Z.add_0_l.
  - assert (Hlt : (x / 10 < x)%N) by (apply N.div_lt; lia).
    destruct (IH (x / 10)%N Hlt _ (proj1 (N.neq_0_lt_0 _) E) Hs') as [-> H].
    split; [|done]. cbn [digitsFrom]. rewrite digit_value by done. f_equal.
    rewrite N2Z.inj_div, N2Z.inj_mod. pose proof (Z.div_mod (Z.of_N x) 10). cbn in *. lia.
Qed.

Lemma dropOne_digit a s : isDigit a ->
  dropOne (whiteSpaceString <$> jsWhiteSpace) (String a s) = None /\
  dropOne ((fun b => whiteSpaceString (reverse b)) <$> jsWhiteSpace) (String a s) = None.
Proof.
  intros H%digit_cases. rewrite !elem_of_cons, elem_of_nil in H.
  repeat (destruct H as [->|H]; [split; vm_compute; reflexivity|]). done.
Qed.

Lemma rev_app_digits s s' : onlyDigits s -> onlyDigits s' -> onlyDigits (String.rev_app s s').
Proof. revert s'. induction s as [|a s IH]; intros s'; cbn; [done|]. intros [Ha Hs] Hs'. by apply IH. Qed.

Lemma rev_app_rev_app a b c :
  String.rev_app (String.rev_app a b) c = String.rev_app b (a +:+ c).
Proof. revert b. induction a as [|x a IH]; intros b; cbn; [done|]. by rewrite IH. Qed.

Lemma dropAll_digits (ws : list string) fuel s :
  (forall a s', isDigit a -> dropOne ws (String a s') = None) ->
  dropOne ws "" = None -> onlyDigits s -> dropAll ws fuel s = s.
Proof.
  intros Hd He Hs. destruct fuel; [done|]. cbn. destruct s as [|a s]; [by rewrite He|].
  destruct Hs as [Ha _]. by rewrite Hd.
Qed.

Lemma trim_digits s : onlyDigits s -> trim s = s.
Proof.
  intros Hs. unfold trim, trimStart, trimEnd.
  rewrite (dropAll_digits _ _ s); [|intros; by apply dropOne_digit|by vm_compute|done].
  assert (Hr : onlyDigits (String.rev s)) by (apply rev_app_digits; done).
  rewrite dropAll_digits; [|intros; by apply dropOne_digit|by vm_compute|done].
  unfold String.rev. rewrite rev_app_rev_app. cbn. by rewrite string_app_nil_r.
Qed.

(** What [String] prints of a number that is not negative, [BigInt] reads. *)
Lemma bigIntOf_numberString n : 0 <= n -> bigIntOf (numberString n) = Some n.
Proof.
  intros Hn. destruct n as [|p|p]; [reflexivity| |lia].
  change (numberString (Z.pos p)) with (pretty_N_go (Npos p) "").
  destruct (digitsFrom_pretty (Npos p) "" ltac:(lia) I) as [Hd Hs].
  assert (Hne : pretty_N_go (Npos p) "" <> "").
  { intros E. rewrite E in Hd. cbn in Hd. lia || congruence. }
  unfold bigIntOf. rewrite trim_digits by done. revert Hd Hs Hne.
  generalize (pretty_N_go (N.pos p) ""). intros s Hd Hs Hne.
  assert (Hg : digits 10 s = Some (Z.pos p)).
  { unfold digits. rewrite bool_decide_eq_false_2 by done. by rewrite Hd. }
  destruct s as [|a s]; [done|]. destruct Hs as [Ha Hs].
  apply digit_cases in Ha. rewrite !elem_of_cons, elem_of_nil in Ha.
  repeat (destruct Ha as [->|Ha]; [try exact Hg|]); [|done].
  destruct s as [|b s]; [exact Hg|]. destruct Hs as [Hb _].
  apply digit_cases in Hb. rewrite !elem_of_cons, elem_of_nil in Hb.
  repeat (destruct Hb as [->|Hb]; [exact Hg|]). done.
Qed.
