(* ===== verification/ChunkProtocol.v ===== *)
(** * The chunks of a resumable upload

    [apps/web/server/uploads/chunk-protocol.ts]: which chunk a byte range is,
    and when the chunks that arrived are the whole file. Sizes and offsets are
    safe integers, on which the double arithmetic of the source is exact, so
    they are integers here. *)

From S2P Require Import Prelude.

Open Scope Z_scope.

Record UploadByteRange := { ub_start : Z; ub_end : Z }.

(** [Number.isSafeInteger] of an integer. *)
Definition isSafeInteger (n : Z) : bool := bool_decide (Z.abs n <= 2 ^ 53 - 1).

(** [a % b === 0]; the remainder by zero is NaN. *)
Definition divides (b a : Z) : bool := bool_decide (b <> 0) && bool_decide (Z.rem a b = 0).

(** [Math.ceil(totalSizeBytes / chunkSizeBytes)]. *)
Definition getExpectedUploadChunkCount (totalSizeBytes chunkSizeBytes : Z) : Z :=
  - (- totalSizeBytes / chunkSizeBytes).

Definition getUploadChunkIndex (range : UploadByteRange) (totalSizeBytes chunkSizeBytes : Z) :
    option Z :=
  let rangeIsValid :=
    forallb (fun b => b)
      [isSafeInteger (ub_start range); isSafeInteger (ub_end range);
       bool_decide (0 <= ub_start range); bool_decide (ub_start range <= ub_end range);
       bool_decide (ub_end range < totalSizeBytes); divides chunkSizeBytes (ub_start range)] in
  if negb rangeIsValid then None
  else
    let chunkIndex := Z.quot (ub_start range) chunkSizeBytes in
    let expectedEnd := Z.min (ub_start range + chunkSizeBytes) totalSizeBytes - 1 in
    if bool_decide (ub_end range = expectedEnd) then Some chunkIndex else None.

Record UploadChunk := {
  uc_chunkIndex : Z; uc_startByte : Z; uc_endByte : Z; uc_sizeBytes : Z
}.
#[export] Instance UploadChunk_eq_dec : EqDecision UploadChunk.
Proof. solve_decision. Defined.

(** The test of [every] on the chunk at a position. *)
Definition chunkFits (totalSizeBytes chunkSizeBytes chunkIndex : Z) (chunk : UploadChunk) : bool :=
  let startByte := chunkIndex * chunkSizeBytes in
  let endByte := Z.min (startByte + chunkSizeBytes) totalSizeBytes - 1 in
  bool_decide (uc_chunkIndex chunk = chunkIndex) && bool_decide (uc_startByte chunk = startByte)
  && bool_decide (uc_endByte chunk = endByte)
  && bool_decide (uc_sizeBytes chunk = endByte - startByte + 1).

Definition hasCompleteUploadChunkSet (completedChunks : list UploadChunk)
    (totalSizeBytes chunkSizeBytes : Z) : bool :=
  let expectedCount := getExpectedUploadChunkCount totalSizeBytes chunkSizeBytes in
  if negb (bool_decide (Z.of_nat (length completedChunks) = expectedCount)) then false
  else forallb (fun b => b)
         (imap (fun i chunk => chunkFits totalSizeBytes chunkSizeBytes (Z.of_nat i) chunk)
            completedChunks).

(** ** The chunks of a file *)

Definition chunkAt (total chunk index : Z) : UploadChunk :=
  {| uc_chunkIndex := index; uc_startByte := index * chunk;
     uc_endByte := Z.min (index * chunk + chunk) total - 1;
     uc_sizeBytes := Z.min (index * chunk + chunk) total - 1 - index * chunk + 1 |}.

Lemma chunkFits_true total chunk index c :
  chunkFits total chunk index c = true <-> c = chunkAt total chunk index.
Proof.
  unfold chunkFits, chunkAt. rewrite !andb_true_iff, !bool_decide_eq_true.
  destruct c; cbn. naive_solver.
Qed.

(** A number of chunks is enough exactly when it reaches the end of the file. *)
Lemma expectedCount_spec total chunk n :
  0 < chunk ->
  getExpectedUploadChunkCount total chunk = n <-> (n - 1) * chunk < total <= n * chunk.
Proof.
  intros Hc. unfold getExpectedUploadChunkCount.
  pose proof (Z.div_mod (- total) chunk ltac:(lia)) as Hd.
  pose proof (Z.mod_pos_bound (- total) chunk Hc) as Hm. split; intros H; nia.
Qed.

Lemma chunk_in_range total chunk index :
  0 < chunk -> 0 <= index < getExpectedUploadChunkCount total chunk <->
  0 <= index /\ index * chunk < total.
Proof.
  intros Hc. pose proof (proj1 (expectedCount_spec total chunk _ Hc) eq_refl) as Hn.
  split; intros [H1 H2]; split; try lia; nia.
Qed.

(** A range is taken as a chunk exactly when it is one of the file's
    chunks, whole: it starts at a multiple of the chunk size, ends where the
    next one starts or the file ends, and its index is below the count. *)
Theorem chunk_index_names_exactly_the_chunks range total chunk index :
  0 < chunk -> 0 <= total <= 2 ^ 53 - 1 ->
  getUploadChunkIndex range total chunk = Some index <->
  0 <= index < getExpectedUploadChunkCount total chunk /\
  ub_start range = uc_startByte (chunkAt total chunk index) /\
  ub_end range = uc_endByte (chunkAt total chunk index).
Proof.
  intros Hc Ht. rewrite chunk_in_range by done.
  destruct range as [s e]. unfold getUploadChunkIndex, divides, isSafeInteger, chunkAt.
  cbn [forallb ub_start ub_end uc_startByte uc_endByte]. split.
  - destruct (negb _) eqn:E; [done|]. apply negb_false_iff in E.
    rewrite !andb_true_iff, !bool_decide_eq_true in E.
    destruct E as (_ & _ & Hs & Hse & Het & (_ & Hr) & _).
    case_bool_decide as He; [|done]. intros [= <-].
    apply Z.rem_divide in Hr as [k ->]; [|lia]. rewrite Z.quot_mul by lia. nia.
  - intros ((Hi & Hlt) & -> & ->).
    assert (Hv : Z.abs (index * chunk) <= 2 ^ 53 - 1 /\
      Z.abs (Z.min (index * chunk + chunk) total - 1) <= 2 ^ 53 - 1) by nia.
    rewrite !bool_decide_eq_true_2; try lia; try nia.
    + cbn. by rewrite Z.quot_mul by lia.
    + apply Z.rem_mul. lia.
Qed.

Lemma complete_iff chunks total chunk :
  0 < chunk -> 0 <= total ->
  hasCompleteUploadChunkSet chunks total chunk = true <->
  chunks = chunkAt total chunk <$> seqZ 0 (getExpectedUploadChunkCount total chunk).
Proof.
  intros Hc Ht. unfold hasCompleteUploadChunkSet.
  set (n := getExpectedUploadChunkCount total chunk).
  assert (Hn : 0 <= n) by (pose proof (proj1 (expectedCount_spec total chunk n Hc) eq_refl); nia).
  split.
  - case_bool_decide as Hl; [|done]. cbn [negb]. intros Hf. rewrite forallb_forall in Hf.
    apply list_eq. intros i. rewrite list_lookup_fmap.
    destruct (chunks !! i) as [c|] eqn:Ei.
    + assert (Hi : (i < length chunks)%nat) by by apply lookup_lt_is_Some; eauto.
      rewrite (proj2 (lookup_seqZ 0 n i (Z.of_nat i))) by lia. cbn. f_equal.
      apply chunkFits_true, Hf, list_elem_of_In.
      apply list_elem_of_lookup_2 with i. by rewrite list_lookup_imap, Ei.
    + apply lookup_ge_None in Ei. rewrite lookup_seqZ_ge by lia. done.
  - intros ->. rewrite length_fmap, length_seqZ, Z2Nat.id by done.
    rewrite bool_decide_eq_true_2 by done. cbn [negb]. apply forallb_forall.
    intros b Hb%list_elem_of_In%elem_of_lookup_imap. destruct Hb as (i & c & -> & Hi).
    rewrite list_lookup_fmap in Hi. apply fmap_Some in Hi as (z & Hz & ->).
    apply lookup_seqZ in Hz as [-> _]. by apply chunkFits_true.
Qed.

Lemma chunk_sizes_sum total chunk m :
  0 < chunk -> 0 <= total -> (Z.of_nat m <= getExpectedUploadChunkCount total chunk) ->
  foldr Z.add 0 (uc_sizeBytes <$> (chunkAt total chunk <$> seqZ 0 (Z.of_nat m)))
  = Z.min (Z.of_nat m * chunk) total.
Proof.
  intros Hc Ht. assert (Hadd : forall l k, foldr Z.add k l = foldr Z.add 0 l + k).
  { induction l as [|x l IH]; intros k; cbn; [lia|]. rewrite IH. lia. }
  induction m as [|m IH]; intros Hm; [rewrite seqZ_nil by lia; cbn; lia|].
  replace (Z.of_nat (S m)) with (Z.of_nat m + 1) in * by lia.
  rewrite seqZ_app by lia. rewrite !fmap_app, foldr_app, Hadd, IH by lia.
  rewrite seqZ_cons, seqZ_nil by lia. cbn [fmap list_fmap foldr chunkAt uc_sizeBytes].
  destruct (proj1 (chunk_in_range total chunk (Z.of_nat m) Hc)) as [_ Hlt]; [lia|]. lia.
Qed.

(** The chunks that arrived are accepted as the whole file exactly when
    they are its chunks in order; their sizes then add up to the file, and
    every byte of it is in exactly one of them. *)
Theorem complete_chunks_tile_the_file chunks total chunk :
  0 < chunk -> 0 <= total ->
  (hasCompleteUploadChunkSet chunks total chunk = true <->
   chunks = chunkAt total chunk <$> seqZ 0 (getExpectedUploadChunkCount total chunk)) /\
  (hasCompleteUploadChunkSet chunks total chunk = true ->
   foldr Z.add 0 (uc_sizeBytes <$> chunks) = total /\
   forall byte, 0 <= byte < total ->
     exists! c, c ∈ chunks /\ uc_startByte c <= byte <= uc_endByte c).
Proof.
  intros Hc Ht. split; [by apply complete_iff|]. intros ->%complete_iff; [|done|done].
  pose proof (proj1 (expectedCount_spec total chunk _ Hc) eq_refl) as Hn.
  set (n := getExpectedUploadChunkCount total chunk) in *. split.
  - rewrite <- (Z2Nat.id n) by nia. rewrite chunk_sizes_sum; [nia|done|done|]. fold n. lia.
  - intros byte Hb. pose proof (Z.div_mod byte chunk ltac:(lia)) as Hd.
    pose proof (Z.mod_pos_bound byte chunk Hc) as Hmod. set (index := byte / chunk) in *.
    exists (chunkAt total chunk index). split.
    + split; [|cbn; lia]. apply list_elem_of_fmap_2, elem_of_seqZ. nia.
    + intros c [(i & -> & Hi%elem_of_seqZ)%list_elem_of_fmap Hr]. cbn in Hr.
      f_equal. nia.
Qed.
