(* ===== verification/Database.v ===== *)
(** * The rows the durable storage journal reads and writes

    The tables of [packages/db/prisma/schema.prisma] that
    [packages/db/src/storage-mutations.ts] and [storage-changes.ts] touch, the
    types of those files, and transactions. A transaction is a function from
    the database to a result: a throw carries no database, so what the
    transaction did is rolled back. Times are milliseconds; a [Date] made from
    a string is the string's time. *)

From Stdlib Require Import Ascii.
From Stdlib Require String.
From S2P Require Import Prelude ChunkProtocol.

(** ** JSON values *)

Inductive Json :=
| JNull
| JBool (b : bool)
| JNumber (n : Z)
| JString (s : string)
| JArray (items : list Json)
| JObject (fields : list (string * Json)).

(** ** Kinds, statuses and step actions *)

(** [STORAGE_MUTATION_KINDS]. *)
Inductive StorageMutationKind :=
| folder_create | file_rename | file_move | file_trash | file_restore
| folder_rename | folder_move | folder_trash | folder_restore
| upload_create | upload_replace | file_keep_mine
| file_purge | folder_purge | clear_trash | trash_retention | batch_move
| derivative_publish | derivative_purge | archive_publish | archive_purge
| legacy_recovery.
#[export] Instance StorageMutationKind_eq_dec : EqDecision StorageMutationKind.
Proof. solve_decision. Defined.

(** [USER_STORAGE_MUTATION_KINDS]. *)
Definition isUserKind (kind : StorageMutationKind) : bool :=
  match kind with
  | folder_create | file_rename | file_move | file_trash | file_restore
  | folder_rename | folder_move | folder_trash | folder_restore
  | upload_create | upload_replace | file_keep_mine => true
  | _ => false
  end.

Inductive StorageMutationStatus :=
| preparing | prepared | running | metadata_committed | finalizing | succeeded
| aborted | retrying | recovery_required.
#[export] Instance StorageMutationStatus_eq_dec : EqDecision StorageMutationStatus.
Proof. solve_decision. Defined.

Inductive StorageMutationAction :=
| mkdir_step | rename_step | delete_file_step | delete_tree_step
| remove_empty_directory_step.
#[export] Instance StorageMutationAction_eq_dec : EqDecision StorageMutationAction.
Proof. solve_decision. Defined.

Inductive NodeType := file_node | directory_node.
#[export] Instance NodeType_eq_dec : EqDecision NodeType.
Proof. solve_decision. Defined.

(** The types a guarded entity can have. *)
Inductive EntityType := et_file | et_folder | et_derivative | et_archive | et_upload_session.
#[export] Instance EntityType_eq_dec : EqDecision EntityType.
Proof. solve_decision. Defined.
#[export] Instance EntityType_countable : Countable EntityType.
Proof.
  refine (inj_countable'
    (fun t => match t with et_file => 0 | et_folder => 1 | et_derivative => 2
              | et_archive => 3 | et_upload_session => 4 end)
    (fun n => match n with 0 => et_file | 1 => et_folder | 2 => et_derivative
              | 3 => et_archive | _ => et_upload_session end) _).
  by intros [].
Defined.

(** ** Steps, entities and metadata operations *)

Record StorageMutationStepInput := {
  in_action : StorageMutationAction;
  in_sourceKey : option string;
  in_targetKey : option string;
  in_expectedNodeType : option NodeType;
  in_expectedSizeBytes : option Z;
  in_expectedChecksum : option string;
  in_treeManifestDigest : option string
}.

Record StorageMutationEntityInput := {
  en_entityType : EntityType;
  en_entityId : string;
  en_preRevision : Z;
  en_postRevision : Z;
  en_beforeJson : option Json;
  en_afterJson : option Json
}.

(** [string | number | boolean | null], the values of an update. *)
Inductive JsonScalar := JsNull | JsString (s : string) | JsNumber (n : Z) | JsBool (b : bool).
#[export] Instance JsonScalar_eq_dec : EqDecision JsonScalar.
Proof. solve_decision. Defined.

Record CreateFileData := {
  cf_id : string; cf_ownerUserId : string; cf_folderId : option string;
  cf_originalName : string; cf_storageKey : string; cf_mimeType : string;
  cf_sizeBytes : string; cf_contentChecksum : option string;
  cf_clientModifiedAt : option string
}.

Record CreateFolderData := {
  cd_id : string; cd_ownerUserId : string; cd_parentId : option string; cd_name : string
}.

Inductive RootKind := root_file | root_folder.
#[export] Instance RootKind_eq_dec : EqDecision RootKind.
Proof. solve_decision. Defined.
Inductive LayoutVersion := legacy_layout | isolated_layout.
#[export] Instance LayoutVersion_eq_dec : EqDecision LayoutVersion.
Proof. solve_decision. Defined.

Record CreateTrashEntryData := {
  ct_id : string; ct_ownerUserId : string; ct_rootKind : RootKind;
  ct_rootEntityId : string; ct_deletedAt : string; ct_storageRootKey : option string;
  ct_treeManifestDigest : option string; ct_layoutVersion : LayoutVersion
}.

(** An update of one row; [data] is a JavaScript object, its keys in order. *)
Record UpdateOperation := {
  up_entityType : EntityType; up_entityId : string; up_preRevision : Z;
  up_data : list (string * JsonScalar)
}.

Record DeleteOperation := {
  de_entityType : EntityType; de_entityId : string; de_preRevision : Z
}.

Inductive StorageMetadataOperation :=
| op_update (operation : UpdateOperation)
| op_delete (operation : DeleteOperation)
| op_create_file (data : CreateFileData)
| op_create_folder (data : CreateFolderData)
| op_update_upload_session (entityId : string) (data : list (string * JsonScalar))
| op_complete_upload_session (entityId ownerUserId committedFileId completedAt
    storageMutationId : string)
| op_create_trash_entry (data : CreateTrashEntryData)
| op_delete_trash_entry (entityId : string)
| op_assert_owner_quota (ownerUserId additionalBytes : string).

(** An intent as the code reads it: its [version], and its
    [metadataOperations] when they are an array. *)
Inductive IntentJson :=
| intent (version : option Z) (metadataOperations : option (list StorageMetadataOperation))
| intent_not_object
| intent_redacted.

(** ** Rows *)

(** A column of a File, Folder, MediaDerivative or ZipArchive row. *)
Inductive Column :=
| CNull | CText (s : string) | CNumber (n : Z) | CBool (b : bool) | CDate (ms : Z)
| CBigInt (n : Z).
#[export] Instance Column_eq_dec : EqDecision Column.
Proof. solve_decision. Defined.

Record Row := { rw_storageRevision : Z; rw_columns : gmap string Column }.
#[export] Instance Row_eq_dec : EqDecision Row.
Proof. solve_decision. Defined.

Definition column (row : Row) (name : string) : Column :=
  default CNull (rw_columns row !! name).
Definition textColumn (row : Row) (name : string) : option string :=
  match column row name with CText s => Some s | _ => None end.
Definition dateColumn (row : Row) (name : string) : option Z :=
  match column row name with CDate ms => Some ms | _ => None end.
Definition bigIntColumn (row : Row) (name : string) : option Z :=
  match column row name with CBigInt n => Some n | _ => None end.

(** [User]. [us_usageKnown] is false when [committedStorageBytes] is null. *)
Record User := { us_storageLimitBytes : option Z; us_usageKnown : bool }.

Inductive SessionStatus :=
| ss_allocating | ss_created | ss_receiving | ss_committing | ss_completed
| ss_failed | ss_cancelled | ss_expired.
#[export] Instance SessionStatus_eq_dec : EqDecision SessionStatus.
Proof. solve_decision. Defined.

(** The columns of [UploadSession] that only the upload service reads or writes. *)
Record UploadDetails := {
  ud_folderId : option string;
  ud_originalName : string;
  ud_mimeType : string;
  ud_receivedBytes : Z;
  ud_expectedChecksum : option string;
  ud_protocolVersion : Z;
  ud_chunkSizeBytes : option Z;
  ud_tmpPath : string;
  ud_conflictStrategy : string;
  ud_clientModifiedAt : option Z;
  ud_cleanupAttemptCount : Z;
  ud_cleanupLastAttemptAt : option Z
}.

(** [UploadSession] with its rows of [UploadChunk]. *)
Record UploadSession := {
  se_ownerUserId : string;
  se_totalSizeBytes : Z;
  se_status : SessionStatus;
  se_expiresAt : Z;
  se_terminalAt : option Z;
  se_stagingReleasedAt : option Z;
  se_committedFileId : option string;
  se_cleanupLastError : option string;
  se_storageMutationId : option string;
  se_chunks : list UploadChunk;
  se_upload : UploadDetails
}.

Record TrashEntry := {
  te_ownerUserId : string; te_rootKind : RootKind; te_rootEntityId : string;
  te_deletedAt : Z; te_storageRootKey : option string;
  te_treeManifestDigest : option string; te_layoutVersion : LayoutVersion
}.

(** The lease of a mutation, its fencing token, and its attempts. *)
Record Lease := {
  ls_owner : option string; ls_token : Z; ls_expiresAt : option Z
}.
Record Attempts := {
  at_count : Z; at_lastAttemptAt : option Z; at_nextAttemptAt : option Z;
  at_lastError : option string
}.

Inductive StepStatus := step_pending | step_applied.
#[export] Instance StepStatus_eq_dec : EqDecision StepStatus.
Proof. solve_decision. Defined.

Record Step := {
  sp_id : string;
  sp_input : StorageMutationStepInput;
  sp_status : StepStatus;
  sp_attemptCount : Z;
  sp_appliedAt : option Z;
  sp_lastError : option string
}.

Record Mutation := {
  mu_parentId : option string;
  mu_kind : StorageMutationKind;
  mu_ownerUserId : string;
  mu_requestHash : option string;
  mu_originDeviceId : option string;
  mu_idempotencyKey : option string;
  mu_status : StorageMutationStatus;
  mu_intentJson : IntentJson;
  mu_resultJson : option Json;
  mu_reservedBytes : option Z;
  mu_metadataCommittedAt : option Z;
  mu_completedAt : option Z;
  mu_recoveryRequiredAt : option Z;
  mu_lease : Lease;
  mu_attempts : Attempts;
  mu_steps : list Step;
  mu_entities : list StorageMutationEntityInput
}.

(** [StorageMutationResource]: live while [releasedAt] is null. *)
Record Resource := {
  rs_resourceKey : string; rs_mutationId : string; rs_fenceToken : Z;
  rs_releasedAt : option Z
}.

Inductive StorageChangeKind :=
| created_change | updated_change | moved_change | trashed_change | restored_change
| deleted_change.
#[export] Instance StorageChangeKind_eq_dec : EqDecision StorageChangeKind.
Proof. solve_decision. Defined.

Record StorageChange := {
  sc_seq : Z;
  sc_ownerUserId : string;
  sc_mutationId : string;
  sc_kind : StorageChangeKind;
  sc_itemType : EntityType;
  sc_itemId : string;
  sc_parentId : option string;
  sc_previousParentId : option string;
  sc_path : string;
  sc_previousPath : option string;
  sc_name : string;
  sc_sizeBytes : option Z;
  sc_contentChecksum : option string;
  sc_storageRevision : Z;
  sc_clientModifiedAt : option Z;
  sc_originDeviceId : option string;
  sc_createdAt : Z
}.

Record DB := {
  db_rows : gmap (EntityType * string) Row;
  db_users : gmap string User;
  db_sessions : gmap string UploadSession;
  db_trash : gmap string TrashEntry;
  db_mutations : gmap string Mutation;
  db_resources : list Resource;
  db_changes : list StorageChange;
  db_nextSeq : Z
}.

(** ** Errors *)

Inductive ConflictCode :=
| STORAGE_MUTATION_IN_PROGRESS | STORAGE_MUTATION_RECOVERING | STORAGE_RECOVERY_REQUIRED
| STORAGE_IDEMPOTENCY_KEY_REUSED.
#[export] Instance ConflictCode_eq_dec : EqDecision ConflictCode.
Proof. solve_decision. Defined.

Inductive StorageMutationRejectionCode :=
| USER_STORAGE_QUOTA_EXCEEDED | STORAGE_PATH_TOO_LONG | STORAGE_MUTATION_ABORTED.
#[export] Instance StorageMutationRejectionCode_eq_dec :
  EqDecision StorageMutationRejectionCode.
Proof. solve_decision. Defined.

(** [UploadAdmissionErrorCode] of [uploads/admission.ts]; [UPLOAD_QUOTA_EXCEEDED] is its
    [USER_STORAGE_QUOTA_EXCEEDED], which here is a rejection of the journal. *)
Inductive UploadAdmissionErrorCode :=
| UPLOAD_SIZE_LIMIT_EXCEEDED
| RESUMABLE_USER_SESSION_LIMIT_EXCEEDED
| RESUMABLE_INSTANCE_SESSION_LIMIT_EXCEEDED
| RESUMABLE_USER_RESERVED_BYTES_LIMIT_EXCEEDED
| RESUMABLE_INSTANCE_RESERVED_BYTES_LIMIT_EXCEEDED
| UPLOAD_USER_SESSION_BACKLOG_LIMIT_EXCEEDED
| UPLOAD_INSTANCE_SESSION_BACKLOG_LIMIT_EXCEEDED
| UPLOAD_QUOTA_EXCEEDED
| UPLOAD_STORAGE_CAPACITY_EXCEEDED
| UPLOAD_STORAGE_CAPACITY_UNAVAILABLE
| UPLOAD_ADMISSION_BUSY.
#[export] Instance UploadAdmissionErrorCode_eq_dec : EqDecision UploadAdmissionErrorCode.
Proof. solve_decision. Defined.

(** [PlainError] is an [Error] that only has a message. *)
Inductive StorageError :=
| StorageMutationConflictError (code : ConflictCode) (mutationId : option string)
| StorageMutationFenceError
| StorageMutationIntentError (message : string)
| StorageMutationRejectedError (code : StorageMutationRejectionCode)
| StorageAdmissionBusyError
| UniqueViolation
| LockNotAvailable
| ForeignKeyViolation
| RecordNotFound
| InvalidValue
| UploadAdmissionError (code : UploadAdmissionErrorCode)
| PlainError (message : string).
#[export] Instance StorageError_eq_dec : EqDecision StorageError.
Proof. solve_decision. Defined.

(** The HTTP status of an error the routes answer with. *)
Definition conflictStatus (code : ConflictCode) : Z :=
  if bool_decide (code = STORAGE_IDEMPOTENCY_KEY_REUSED) then 409 else 503.
Definition rejectionStatus (code : StorageMutationRejectionCode) : Z :=
  match code with
  | USER_STORAGE_QUOTA_EXCEEDED => 413
  | STORAGE_PATH_TOO_LONG => 400
  | STORAGE_MUTATION_ABORTED => 503
  end.

(** ** Transactions *)

Definition Tx (A : Type) : Type := DB -> result StorageError (A * DB).

#[export] Instance Tx_ret : MRet Tx := fun A a db => Ok (a, db).
#[export] Instance Tx_bind : MBind Tx := fun A B f m db =>
  match m db with Ok (a, db') => f a db' | Throw e => Throw e end.

Definition throw {A} (e : StorageError) : Tx A := fun _ => Throw e.
Definition read {A} (f : DB -> A) : Tx A := fun db => Ok (f db, db).
Definition modify (f : DB -> DB) : Tx unit := fun db => Ok (tt, f db).
(** [if (!b) throw e]. *)
Definition ensure (b : bool) (e : StorageError) : Tx unit :=
  if b then mret tt else throw e.

Lemma bind_ok {A B} (m : Tx A) (f : A -> Tx B) db b db' :
  (m ≫= f) db = Ok (b, db') <->
  exists a db1, m db = Ok (a, db1) /\ f a db1 = Ok (b, db').
Proof.
  unfold mbind, Tx_bind. destruct (m db) as [[a db1]|e]; split.
  - eauto.
  - by intros (? & ? & [= <- <-] & ?).
  - done.
  - by intros (? & ? & ? & ?).
Qed.

Lemma ensure_ok b e db u db' : ensure b e db = Ok (u, db') <-> b = true /\ db' = db.
Proof.
  destruct u, b; unfold ensure, throw, mret, Tx_ret; split.
  - by intros [= ->].
  - by intros [_ ->].
  - done.
  - by intros [? _].
Qed.

Lemma read_ok {A} (f : DB -> A) db a db' : read f db = Ok (a, db') <-> a = f db /\ db' = db.
Proof. unfold read. naive_solver. Qed.

Lemma modify_ok f db u db' : modify f db = Ok (u, db') <-> db' = f db.
Proof. destruct u. unfold modify. naive_solver. Qed.

Lemma ret_ok {A} (a b : A) db db' : (mret a : Tx A) db = Ok (b, db') <-> b = a /\ db' = db.
Proof. unfold mret, Tx_ret. naive_solver. Qed.

Lemma throw_ok {A} e db (a : A) db' : throw e db = Ok (a, db') <-> False.
Proof. done. Qed.

#[export] Hint Rewrite @bind_ok ensure_ok @read_ok modify_ok @ret_ok @throw_ok : tx.

(** [runStorageTransaction], with the part of [classifyStorageTransactionError]
    that concerns a lock another transaction holds (SQLSTATE 55P03): the work
    was rolled back and may be tried again. *)
Definition classifyStorageTransactionError (e : StorageError) : StorageError :=
  match e with LockNotAvailable => StorageAdmissionBusyError | _ => e end.

Definition runStorageTransaction {A} (tx : Tx A) : Tx A := fun db =>
  match tx db with
  | Ok r => Ok r
  | Throw e => Throw (classifyStorageTransactionError e)
  end.

Lemma runStorageTransaction_ok {A} (tx : Tx A) db r :
  runStorageTransaction tx db = Ok r <-> tx db = Ok r.
Proof. unfold runStorageTransaction. destruct (tx db); naive_solver. Qed.

(** Takes a successful transaction apart, statement by statement. *)
Ltac tx_inv H :=
  lazymatch type of H with
  | (_ ≫= _) _ = Ok _ =>
      let a := fresh "a" in let db := fresh "db" in let H1 := fresh "Htx" in
      apply bind_ok in H as (a & db & H1 & H); tx_inv H1; tx_inv H
  | ensure _ _ _ = Ok _ => apply ensure_ok in H as [H ->]
  | read _ _ = Ok _ => apply read_ok in H as [-> ->]
  | modify _ _ = Ok _ => apply modify_ok in H as ->
  | (mret _) _ = Ok _ => apply ret_ok in H as [? ?]; subst
  | throw _ _ = Ok _ => by apply throw_ok in H
  | runStorageTransaction _ _ = Ok _ => apply (proj1 (runStorageTransaction_ok _ _ _)) in H; tx_inv H
  | _ => idtac
  end.

(** ** Setters, one per part a statement writes *)

Definition set_rows (rows : gmap (EntityType * string) Row) (db : DB) : DB :=
  {| db_rows := rows; db_users := db_users db; db_sessions := db_sessions db;
     db_trash := db_trash db; db_mutations := db_mutations db;
     db_resources := db_resources db; db_changes := db_changes db;
     db_nextSeq := db_nextSeq db |}.
Definition set_sessions (sessions : gmap string UploadSession) (db : DB) : DB :=
  {| db_rows := db_rows db; db_users := db_users db; db_sessions := sessions;
     db_trash := db_trash db; db_mutations := db_mutations db;
     db_resources := db_resources db; db_changes := db_changes db;
     db_nextSeq := db_nextSeq db |}.
Definition set_trash (trash : gmap string TrashEntry) (db : DB) : DB :=
  {| db_rows := db_rows db; db_users := db_users db; db_sessions := db_sessions db;
     db_trash := trash; db_mutations := db_mutations db;
     db_resources := db_resources db; db_changes := db_changes db;
     db_nextSeq := db_nextSeq db |}.
Definition set_mutations (mutations : gmap string Mutation) (db : DB) : DB :=
  {| db_rows := db_rows db; db_users := db_users db; db_sessions := db_sessions db;
     db_trash := db_trash db; db_mutations := mutations;
     db_resources := db_resources db; db_changes := db_changes db;
     db_nextSeq := db_nextSeq db |}.
Definition set_resources (resources : list Resource) (db : DB) : DB :=
  {| db_rows := db_rows db; db_users := db_users db; db_sessions := db_sessions db;
     db_trash := db_trash db; db_mutations := db_mutations db;
     db_resources := resources; db_changes := db_changes db;
     db_nextSeq := db_nextSeq db |}.
Definition set_changes (changes : list StorageChange) (next : Z) (db : DB) : DB :=
  {| db_rows := db_rows db; db_users := db_users db; db_sessions := db_sessions db;
     db_trash := db_trash db; db_mutations := db_mutations db;
     db_resources := db_resources db; db_changes := changes;
     db_nextSeq := next |}.
