(* ===== verification/MutationMetadata.v ===== *)
(** * Applying a durable intent to the metadata

    [packages/db/src/storage-mutations.ts] from [updateMetadataEntity] to
    [applyStorageMutationIntentMetadata]: an intent's operations are applied in
    order, runs of updates of one shape and runs of deletes of one type each as
    one compare-and-swap statement. The quota assertion is here too. *)

From Stdlib Require Import Ascii.
From Stdlib Require String.
From S2P Require Import Prelude JsValues Database.

Open Scope Z_scope.

(** ** Values *)

Definition metadataDateKeys : list string :=
  ["deletedAt"; "storageCheckedAt"; "storageMissingAt"; "generatedAt"; "terminalAt";
   "stagingReleasedAt"].

(** [s.endsWith(t)]. *)
Definition endsWith (t s : string) : bool :=
  String.prefix (String.rev t) (String.rev s).

(** The value a column is written with; [None] when [BigInt] throws or the
    date is invalid. *)
Definition parseMetadataValue (key : string) (value : JsonScalar) : option Column :=
  match value with
  | JsNull => Some CNull
  | JsNumber n => Some (CNumber n)
  | JsBool b => Some (CBool b)
  | JsString s =>
      if bool_decide (key ∈ metadataDateKeys) then CDate <$> dateOf s
      else if bool_decide (key = "sizeBytes") || endsWith "Bytes" key
      then CBigInt <$> bigIntOf s
      else Some (CText s)
  end.

Fixpoint parseMetadataData (data : list (string * JsonScalar)) :
    option (list (string * Column)) :=
  match data with
  | [] => Some []
  | (key, value) :: rest =>
      parsed ← parseMetadataValue key value;
      others ← parseMetadataData rest;
      Some ((key, parsed) :: others)
  end.

(** The SQL types the columns are cast to. *)
Inductive SqlType := sql_text | sql_bigint | sql_timestamp | sql_status | sql_integer | sql_double.

(** [metadataColumnByKey], whose columns are the keys, with [metadataCastByKey]. *)
Definition metadataCastByKey (key : string) : option SqlType :=
  if bool_decide (key ∈ ["name"; "originalName"; "folderId"; "parentId"; "storageKey";
       "mimeType"; "contentChecksum"; "trashEntryId"; "status"; "videoCodec";
       "audioCodec"; "error"; "fileName"]) then Some sql_text
  else if bool_decide (key = "sizeBytes") then Some sql_bigint
  else if bool_decide (key ∈ ["clientModifiedAt"; "deletedAt"; "storageCheckedAt";
       "storageMissingAt"; "generatedAt"]) then Some sql_timestamp
  else if bool_decide (key = "storageStatus") then Some sql_status
  else if bool_decide (key ∈ ["width"; "height"; "fileCount"]) then Some sql_integer
  else if bool_decide (key = "durationSeconds") then Some sql_double
  else None.

(** [value::type]; [None] when PostgreSQL refuses the cast. *)
Definition sqlCast (type : SqlType) (value : Column) : option Column :=
  match type, value with
  | _, CNull => Some CNull
  | sql_text, CText s | sql_status, CText s => Some (CText s)
  | sql_text, CNumber n => Some (CText (numberString n))
  | sql_text, CBool b => Some (CText (if b then "true" else "false"))
  | sql_bigint, CBigInt n | sql_bigint, CNumber n => Some (CBigInt n)
  | sql_bigint, CText s => CBigInt <$> bigIntOf s
  | sql_timestamp, CDate ms => Some (CDate ms)
  | sql_timestamp, CText s => CDate <$> dateOf s
  | sql_integer, CNumber n | sql_double, CNumber n => Some (CNumber n)
  | _, _ => None
  end.

(** [Object.keys(data).sort()]. *)
Fixpoint insertString (x : string) (l : list string) : list string :=
  match l with
  | [] => [x]
  | y :: l' => if String.leb x y then x :: y :: l' else y :: insertString x l'
  end.
Definition sortStrings (l : list string) : list string := foldr insertString [] l.

Definition nul : string := String "000" EmptyString.

Definition dataShape (data : list (string * JsonScalar)) : string :=
  joinWith nul (sortStrings data.*1).

(** ** Constraints and counts *)

Definition typedRows (type : EntityType) (db : DB) : list (string * Row) :=
  omap (fun e : (EntityType * string) * Row =>
          if bool_decide (e.1.1 = type) then Some (e.1.2, e.2) else None)
    (map_to_list (db_rows db)).

Definition uniqueBy {A B} `{EqDecision B} (f : A -> option B) (l : list A) : bool :=
  bool_decide (NoDup (omap f l)).

(** The unique indexes of the tables an intent writes. *)
Definition uniqueOk (db : DB) : bool :=
  forallb (fun type => uniqueBy (fun e : string * Row => textColumn e.2 "storageKey")
                         (typedRows type db))
    [et_file; et_derivative; et_archive]
  && uniqueBy (fun e : string * Row =>
       match textColumn e.2 "ownerUserId", textColumn e.2 "parentId",
             textColumn e.2 "name", column e.2 "deletedAt" with
       | Some owner, Some parent, Some name, CNull => Some (owner, parent, name)
       | _, _, _, _ => None
       end) (typedRows et_folder db)
  && uniqueBy (fun e : string * TrashEntry =>
       Some (bool_decide (te_rootKind e.2 = root_file), te_rootEntityId e.2))
       (map_to_list (db_trash db))
  && uniqueBy (fun e : string * TrashEntry =>
       if bool_decide (te_layoutVersion e.2 = isolated_layout) then te_storageRootKey e.2
       else None) (map_to_list (db_trash db)).

(** A write of rows, refused when it breaks a unique index. *)
Definition writeChecked (f : DB -> DB) : Tx unit := fun db =>
  if uniqueOk (f db) then Ok (tt, f db) else Throw UniqueViolation.

(** ** Bulk updates *)

(** The columns of one row of the VALUES list, cast. *)
Fixpoint castColumns (data : list (string * Column)) : option (list (string * Column)) :=
  match data with
  | [] => Some []
  | (key, value) :: rest =>
      type ← metadataCastByKey key;
      cast ← sqlCast type value;
      others ← castColumns rest;
      Some ((key, cast) :: others)
  end.

(** [target.id = source.id AND target.storageRevision = source.preRevision]. *)
Definition casMatches (db : DB) (type : EntityType) (id : string) (preRevision : Z) : bool :=
  match db_rows db !! (type, id) with
  | Some row => bool_decide (rw_storageRevision row = preRevision)
  | None => false
  end.

Definition setColumns (columns : list (string * Column)) (row : Row) : Row :=
  {| rw_storageRevision := rw_storageRevision row + 1;
     rw_columns := foldl (fun m e => <[e.1 := e.2]> m) (rw_columns row) columns |}.

(** The rows of an [UPDATE ... FROM (VALUES ...)]: a row matched by several
    sources is updated once, and counted once. *)
Fixpoint bulkUpdate (db : DB) (sources : list (UpdateOperation * list (string * Column)))
    (updated : gset string) (rows : gmap (EntityType * string) Row) :
    gset string * gmap (EntityType * string) Row :=
  match sources with
  | [] => (updated, rows)
  | (operation, columns) :: rest =>
      let id := up_entityId operation in
      if casMatches db (up_entityType operation) id (up_preRevision operation)
         && negb (bool_decide (id ∈ updated))
      then bulkUpdate db rest ({[id]} ∪ updated)
             (alter (setColumns columns) (up_entityType operation, id) rows)
      else bulkUpdate db rest updated rows
  end.

Fixpoint parseSources (operations : list UpdateOperation) :
    option (list (UpdateOperation * list (string * Column))) :=
  match operations with
  | [] => Some []
  | operation :: rest =>
      data ← parseMetadataData (up_data operation);
      columns ← castColumns data;
      others ← parseSources rest;
      Some ((operation, columns) :: others)
  end.

Definition applyBulkMetadataUpdates (operations : list UpdateOperation) : Tx unit :=
  match operations with
  | [] => throw (StorageMutationIntentError "Invalid metadata update batch.")
  | first :: _ =>
      _ ← ensure (forallb (fun item => bool_decide (up_entityType item = up_entityType first))
                    operations)
            (StorageMutationIntentError "Invalid metadata update batch.");
      _ ← ensure (forallb (fun item => bool_decide (dataShape (up_data item)
                                                     = dataShape (up_data first))) operations)
            (StorageMutationIntentError "Metadata update batch has inconsistent columns.");
      _ ← ensure (forallb (fun key => match metadataCastByKey key with
                                      | Some _ => true | None => false end)
                    (up_data first).*1)
            (StorageMutationIntentError "Unsupported durable metadata column.");
      match parseSources operations with
      | None => throw InvalidValue
      | Some sources =>
          '(updated, rows) ← read (fun db => bulkUpdate db sources ∅ (db_rows db));
          _ ← writeChecked (set_rows rows);
          ensure (bool_decide (size updated = length operations))
            (StorageMutationIntentError "Metadata bulk CAS failed.")
      end
  end.

(** ** Bulk deletes *)

(** What the foreign keys do when rows of a type go: folders leave their
    contents without a parent, a file takes its derivatives along. *)
Definition refersTo (name : string) (gone : gset string) (row : Row) : bool :=
  match textColumn row name with Some id => bool_decide (id ∈ gone) | None => false end.

Definition clearReference (name : string) (gone : gset string) (row : Row) : Row :=
  if refersTo name gone row
  then {| rw_storageRevision := rw_storageRevision row;
          rw_columns := <[name := CNull]> (rw_columns row) |}
  else row.

Definition afterDelete (type : EntityType) (gone : gset string)
    (rows : gmap (EntityType * string) Row) : gmap (EntityType * string) Row :=
  match type with
  | et_folder =>
      map_imap (fun k row =>
        Some (match k.1 with
              | et_folder => clearReference "parentId" gone row
              | et_file => clearReference "folderId" gone row
              | _ => row
              end)) rows
  | et_file =>
      filter (fun e : (EntityType * string) * Row =>
        ~ (e.1.1 = et_derivative /\ refersTo "fileId" gone e.2 = true))
        rows
  | _ => rows
  end.

Definition deletedIds (db : DB) (operations : list DeleteOperation) (type : EntityType) :
    gset string :=
  list_to_set (de_entityId <$> filter (fun operation =>
    casMatches db type (de_entityId operation) (de_preRevision operation) = true) operations).

Definition removeRows (type : EntityType) (gone : gset string) (db : DB) : DB :=
  let rows := filter (fun e : (EntityType * string) * Row =>
                        ~ (e.1.1 = type /\ e.1.2 ∈ gone)) (db_rows db) in
  let db := set_rows (afterDelete type gone rows) db in
  if bool_decide (type = et_file)
  then set_sessions ((fun session =>
         match se_committedFileId session with
         | Some id =>
             if bool_decide (id ∈ gone)
             then {| se_ownerUserId := se_ownerUserId session;
                     se_totalSizeBytes := se_totalSizeBytes session;
                     se_status := se_status session; se_expiresAt := se_expiresAt session;
                     se_terminalAt := se_terminalAt session;
                     se_stagingReleasedAt := se_stagingReleasedAt session;
                     se_committedFileId := None;
                     se_cleanupLastError := se_cleanupLastError session;
                     se_storageMutationId := se_storageMutationId session;
                     se_chunks := se_chunks session;
                     se_upload := se_upload session |}
             else session
         | None => session
         end) <$> db_sessions db) db
  else db.

Definition applyBulkMetadataDeletes (operations : list DeleteOperation) : Tx unit :=
  match operations with
  | [] => mret tt
  | first :: _ =>
      let type := de_entityType first in
      gone ← read (fun db => deletedIds db operations type);
      _ ← writeChecked (removeRows type gone);
      ensure (bool_decide (size gone = length operations))
        (StorageMutationIntentError "Metadata delete CAS failed.")
  end.

(** ** The owner's quota *)

(** [committedStorageBytes], which triggers keep equal to the owner's files. *)
Definition committedStorageBytes (db : DB) (ownerUserId : string) : Z :=
  foldr Z.add 0 (omap (fun e : string * Row =>
    if bool_decide (textColumn e.2 "ownerUserId" = Some ownerUserId)
    then bigIntColumn e.2 "sizeBytes" else None) (typedRows et_file db)).

(** The advisory and row locks that other transactions hold now. *)
Definition Locks := gset string.
Definition userRowLock (ownerUserId : string) : string := "row:User:" +:+ ownerUserId.

Definition hasEnforcedStorageLimit (limit : option Z) : bool :=
  match limit with Some n => bool_decide (0 < n) | None => false end.

(** The limit in force, or [None]. *)
Definition lockOwnerStorageLimit (locks : Locks) (ownerUserId : string) : Tx (option Z) :=
  user ← read (fun db => db_users db !! ownerUserId);
  match user with
  | None => mret None
  | Some user =>
      _ ← ensure (negb (bool_decide (userRowLock ownerUserId ∈ locks))) LockNotAvailable;
      _ ← ensure (us_usageKnown user)
            (StorageMutationIntentError "Committed storage usage requires reconciliation.");
      mret (if hasEnforcedStorageLimit (us_storageLimitBytes user)
            then us_storageLimitBytes user else None)
  end.

(** A session whose bytes are still reserved. *)
Definition sessionReserves (now : Z) (session : UploadSession) : bool :=
  match se_status session with
  | ss_allocating | ss_created | ss_receiving => bool_decide (now < se_expiresAt session)
  | ss_committing => true
  | _ => false
  end.

(** Committed files, live session reservations and in-flight reservations. *)
Definition sumOwnerQuotaUsage (now : Z) (ownerUserId : string) (db : DB) : Z :=
  committedStorageBytes db ownerUserId
  + foldr Z.add 0 ((fun e : string * UploadSession => se_totalSizeBytes e.2)
      <$> filter (fun e : string * UploadSession =>
             se_ownerUserId e.2 = ownerUserId /\ sessionReserves now e.2 = true)
            (map_to_list (db_sessions db)))
  + foldr Z.add 0 (omap (fun e : string * Mutation =>
      if bool_decide (mu_ownerUserId e.2 = ownerUserId) then mu_reservedBytes e.2 else None)
      (map_to_list (db_mutations db))).

Definition assertOwnerQuotaAvailable (locks : Locks) (now : Z) (ownerUserId : string)
    (additionalBytes : Z) : Tx unit :=
  limit ← lockOwnerStorageLimit locks ownerUserId;
  match limit with
  | None => mret tt
  | Some limit =>
      usage ← read (sumOwnerQuotaUsage now ownerUserId);
      ensure (bool_decide (usage + additionalBytes <= limit))
        (StorageMutationRejectedError USER_STORAGE_QUOTA_EXCEEDED)
  end.

(** ** The other operations *)

Definition optionalText (value : option string) : Column :=
  match value with Some s => CText s | None => CNull end.

(** A create: the id must be new. *)
Definition createRow (type : EntityType) (id : string) (columns : list (string * Column)) :
    Tx unit :=
  taken ← read (fun db => db_rows db !! (type, id));
  match taken with
  | Some _ => throw UniqueViolation
  | None =>
      writeChecked (fun db =>
        set_rows (<[(type, id) := {| rw_storageRevision := 0;
                                     rw_columns := list_to_map columns |}]> (db_rows db)) db)
  end.

(** [operation.data.clientModifiedAt ? new Date(...) : null]. *)
Definition optionalDate (value : option string) : option Column :=
  match value with
  | None | Some EmptyString => Some CNull
  | Some s => CDate <$> dateOf s
  end.

Definition create_file (now : Z) (data : CreateFileData) : Tx unit :=
  match bigIntOf (cf_sizeBytes data), optionalDate (cf_clientModifiedAt data) with
  | Some size, Some modified =>
      createRow et_file (cf_id data)
        [("ownerUserId", CText (cf_ownerUserId data));
         ("folderId", optionalText (cf_folderId data));
         ("originalName", CText (cf_originalName data));
         ("storageKey", CText (cf_storageKey data));
         ("mimeType", CText (cf_mimeType data));
         ("sizeBytes", CBigInt size);
         ("contentChecksum", optionalText (cf_contentChecksum data));
         ("clientModifiedAt", modified);
         ("storageStatus", CText "available");
         ("storageCheckedAt", CDate now)]
  | _, _ => throw InvalidValue
  end.

Definition create_folder (data : CreateFolderData) : Tx unit :=
  createRow et_folder (cd_id data)
    [("ownerUserId", CText (cd_ownerUserId data));
     ("parentId", optionalText (cd_parentId data));
     ("name", CText (cd_name data));
     ("isFilesRoot", CBool false)].

Definition complete_upload_session (entityId ownerUserId committedFileId completedAt
    storageMutationId : string) : Tx unit :=
  match dateOf completedAt with
  | None => throw InvalidValue
  | Some completedAt =>
      session ← read (fun db => db_sessions db !! entityId);
      match session with
      | Some session =>
          _ ← ensure (bool_decide (se_ownerUserId session = ownerUserId)
                      && bool_decide (se_status session = ss_committing)
                      && bool_decide (se_stagingReleasedAt session = None)
                      && bool_decide (se_storageMutationId session = Some storageMutationId))
                (StorageMutationIntentError "Upload session is not committing.");
          modify (fun db =>
            set_sessions (<[entityId :=
              {| se_ownerUserId := se_ownerUserId session;
                 se_totalSizeBytes := se_totalSizeBytes session;
                 se_status := ss_completed; se_expiresAt := se_expiresAt session;
                 se_terminalAt := Some completedAt; se_stagingReleasedAt := Some completedAt;
                 se_committedFileId := Some committedFileId; se_cleanupLastError := None;
                 se_storageMutationId := se_storageMutationId session;
                 se_chunks := []; se_upload := se_upload session |}]> (db_sessions db)) db)
      | None => throw (StorageMutationIntentError "Upload session is not committing.")
      end
  end.

Definition create_trash_entry (data : CreateTrashEntryData) : Tx unit :=
  match dateOf (ct_deletedAt data) with
  | None => throw InvalidValue
  | Some deletedAt =>
      taken ← read (fun db => db_trash db !! ct_id data);
      match taken with
      | Some _ => throw UniqueViolation
      | None =>
          writeChecked (fun db =>
            set_trash (<[ct_id data :=
              {| te_ownerUserId := ct_ownerUserId data; te_rootKind := ct_rootKind data;
                 te_rootEntityId := ct_rootEntityId data; te_deletedAt := deletedAt;
                 te_storageRootKey := ct_storageRootKey data;
                 te_treeManifestDigest := ct_treeManifestDigest data;
                 te_layoutVersion := ct_layoutVersion data |}]> (db_trash db)) db)
      end
  end.

(** Deleting the entry clears the reference of the rows it held. *)
Definition delete_trash_entry (entityId : string) : Tx unit :=
  entry ← read (fun db => db_trash db !! entityId);
  match entry with
  | None => throw (StorageMutationIntentError "Trash entry is missing.")
  | Some _ =>
      modify (fun db =>
        set_rows (clearReference "trashEntryId" {[entityId]} <$> db_rows db)
          (set_trash (delete entityId (db_trash db)) db))
  end.

(** One field of an upload session's update; other fields are refused. *)
Definition setSessionField (session : UploadSession) (field : string * Column) :
    option UploadSession :=
  let set status terminalAt stagingReleasedAt committedFileId cleanupLastError :=
    {| se_ownerUserId := se_ownerUserId session;
       se_totalSizeBytes := se_totalSizeBytes session; se_status := status;
       se_expiresAt := se_expiresAt session; se_terminalAt := terminalAt;
       se_stagingReleasedAt := stagingReleasedAt; se_committedFileId := committedFileId;
       se_cleanupLastError := cleanupLastError;
       se_storageMutationId := se_storageMutationId session;
       se_chunks := se_chunks session;
       se_upload := se_upload session |} in
  let status := se_status session in
  let terminal := se_terminalAt session in
  let released := se_stagingReleasedAt session in
  let committed := se_committedFileId session in
  let error := se_cleanupLastError session in
  match field with
  | ("status", CText s) =>
      (fun status => set status terminal released committed error) <$>
      match s with
      | "allocating" => Some ss_allocating | "created" => Some ss_created
      | "receiving" => Some ss_receiving | "committing" => Some ss_committing
      | "completed" => Some ss_completed | "failed" => Some ss_failed
      | "cancelled" => Some ss_cancelled | "expired" => Some ss_expired
      | _ => None
      end
  | ("terminalAt", CDate ms) => Some (set status (Some ms) released committed error)
  | ("terminalAt", CNull) => Some (set status None released committed error)
  | ("stagingReleasedAt", CDate ms) => Some (set status terminal (Some ms) committed error)
  | ("stagingReleasedAt", CNull) => Some (set status terminal None committed error)
  | ("committedFileId", CText id) => Some (set status terminal released (Some id) error)
  | ("committedFileId", CNull) => Some (set status terminal released None error)
  | ("cleanupLastError", CText e) => Some (set status terminal released committed (Some e))
  | ("cleanupLastError", CNull) => Some (set status terminal released committed None)
  | _ => None
  end.

Definition update_upload_session (entityId : string) (data : list (string * JsonScalar)) :
    Tx unit :=
  match parseMetadataData data with
  | None => throw InvalidValue
  | Some fields =>
      session ← read (fun db => db_sessions db !! entityId);
      match session with
      | None => throw (StorageMutationIntentError "Upload session is missing.")
      | Some session =>
          match foldl (fun o f => s ← o; setSessionField s f) (Some session) fields with
          | None => throw InvalidValue
          | Some session' =>
              modify (fun db => set_sessions (<[entityId := session']> (db_sessions db)) db)
          end
      end
  end.

Definition assert_owner_quota (locks : Locks) (now : Z) (ownerUserId additionalBytes : string) :
    Tx unit :=
  match bigIntOf additionalBytes with
  | None => throw InvalidValue
  | Some bytes => assertOwnerQuotaAvailable locks now ownerUserId bytes
  end.

(** [metadataOperationHandlers]; updates and deletes go in batches. *)
Definition metadataOperationHandler (locks : Locks) (now : Z)
    (operation : StorageMetadataOperation) : Tx unit :=
  match operation with
  | op_create_file data => create_file now data
  | op_create_folder data => create_folder data
  | op_update_upload_session entityId data => update_upload_session entityId data
  | op_complete_upload_session entityId owner committed completedAt mutationId =>
      complete_upload_session entityId owner committed completedAt mutationId
  | op_create_trash_entry data => create_trash_entry data
  | op_delete_trash_entry entityId => delete_trash_entry entityId
  | op_assert_owner_quota owner bytes => assert_owner_quota locks now owner bytes
  | op_update _ | op_delete _ => mret tt
  end.

(** ** Batches *)

(** Entity type names, as the shape of an update prints them. *)
Definition entityTypeName (type : EntityType) : string :=
  match type with
  | et_file => "file" | et_folder => "folder" | et_derivative => "derivative"
  | et_archive => "archive" | et_upload_session => "upload_session"
  end.

Definition metadataUpdateShape (operation : UpdateOperation) : string :=
  entityTypeName (up_entityType operation) +:+ nul +:+ dataShape (up_data operation).

(** The updates after the first one that have its shape, and what follows. *)
Fixpoint takeUpdates (shape : string) (operations : list StorageMetadataOperation) :
    list UpdateOperation * list StorageMetadataOperation :=
  match operations with
  | op_update candidate :: rest =>
      if bool_decide (metadataUpdateShape candidate = shape)
      then let '(batch, after) := takeUpdates shape rest in (candidate :: batch, after)
      else ([], operations)
  | _ => ([], operations)
  end.

Definition takeMetadataUpdateBatch (first : UpdateOperation)
    (rest : list StorageMetadataOperation) :
    list UpdateOperation * list StorageMetadataOperation :=
  let '(batch, after) := takeUpdates (metadataUpdateShape first) rest in
  (first :: batch, after).

(** The deletes from here on that have the type of the first one. *)
Fixpoint takeDeletes (type : EntityType) (operations : list StorageMetadataOperation) :
    list DeleteOperation * list StorageMetadataOperation :=
  match operations with
  | op_delete operation :: rest =>
      if bool_decide (de_entityType operation = type)
      then let '(batch, after) := takeDeletes type rest in (operation :: batch, after)
      else ([], operations)
  | _ => ([], operations)
  end.

Definition takeMetadataDeleteBatch (first : DeleteOperation)
    (rest : list StorageMetadataOperation) :
    list DeleteOperation * list StorageMetadataOperation :=
  let '(batch, after) := takeDeletes (de_entityType first) rest in
  (first :: batch, after).

(** [parseRecoverableStorageMutationIntent]. *)
Definition parseRecoverableStorageMutationIntent (intentJson : IntentJson) :
    result StorageError (list StorageMetadataOperation) :=
  match intentJson with
  | intent (Some 1) (Some operations) => Ok operations
  | _ => Throw (StorageMutationIntentError
                  "Mutation lacks a supported durable metadata intent.")
  end.

(** The loop over the operations. Every turn takes at least one, so the list's
    length is fuel enough. *)
Fixpoint applyOperations (fuel : nat) (locks : Locks) (now : Z)
    (operations : list StorageMetadataOperation) : Tx unit :=
  match operations, fuel with
  | [], _ => mret tt
  | _ :: _, O => mret tt
  | op_update first :: rest, S fuel' =>
      let '(batch, after) := takeMetadataUpdateBatch first rest in
      _ ← applyBulkMetadataUpdates batch;
      applyOperations fuel' locks now after
  | op_delete first :: rest, S fuel' =>
      let '(batch, after) := takeMetadataDeleteBatch first rest in
      _ ← applyBulkMetadataDeletes batch;
      applyOperations fuel' locks now after
  | operation :: rest, S fuel' =>
      _ ← metadataOperationHandler locks now operation;
      applyOperations fuel' locks now rest
  end.

Definition applyStorageMutationIntentMetadata (locks : Locks) (now : Z)
    (intentJson : IntentJson) : Tx unit :=
  match parseRecoverableStorageMutationIntent intentJson with
  | Throw e => throw e
  | Ok operations => applyOperations (length operations) locks now operations
  end.
