(* ===== verification/MutationPrepare.v ===== *)
(** * Preparing a durable mutation

    [packages/db/src/storage-mutations.ts] from [validatePreparedEntityRevisions]
    to [prepareStorageMutation]: a mutation is written with its steps, guarded
    entities and resource locks in one transaction, after the owner's quota, the
    locks of other mutations, the entities' revisions and the target names have
    been checked. The tree of resource keys is here. *)

From Stdlib Require Import Ascii.
From Stdlib Require String.
From S2P Require Import Prelude Database MutationMetadata.

Open Scope Z_scope.

Record PrepareStorageMutationInput := {
  pi_id : option string;
  pi_reservedBytes : option Z;
  pi_parentId : option string;
  pi_kind : StorageMutationKind;
  pi_ownerUserId : string;
  pi_idempotencyKey : option string;
  pi_requestHash : option string;
  pi_intentJson : IntentJson;
  pi_initialResultJson : option Json;
  pi_resourceKeys : option (list string);
  pi_steps : list StorageMutationStepInput;
  pi_entities : list StorageMutationEntityInput;
  pi_uploadSessionId : option string;
  pi_originDeviceId : option string
}.

Definition inProgress : StorageError :=
  StorageMutationConflictError STORAGE_MUTATION_IN_PROGRESS None.

(** ** Guarded entities *)

Definition mutationList (db : DB) : list (string * Mutation) := map_to_list (db_mutations db).

(** A mutation that needs an operator and guards one of the entities. *)
Definition blockedBy (db : DB) (entities : list StorageMutationEntityInput) : option string :=
  head (omap (fun e : string * Mutation =>
    if bool_decide (mu_status e.2 = recovery_required)
       && existsb (fun held => existsb (fun wanted =>
            bool_decide (en_entityType held = en_entityType wanted)
            && bool_decide (en_entityId held = en_entityId wanted)) entities)
          (mu_entities e.2)
    then Some e.1 else None) (mutationList db)).

(** The revision an entity was planned against is still the row's; [-1] says
    there must be no row. *)
Definition revisionOk (db : DB) (entity : StorageMutationEntityInput) : bool :=
  let revision :=
    rw_storageRevision <$> db_rows db !! (en_entityType entity, en_entityId entity) in
  negb ((bool_decide (en_preRevision entity = -1) && bool_decide (revision <> None))
        || (bool_decide (en_preRevision entity <> -1)
            && negb (bool_decide (revision = Some (en_preRevision entity))))).

Definition validateType (entities : list StorageMutationEntityInput) (type : EntityType)
    (db : DB) : bool :=
  forallb (fun entity => negb (bool_decide (en_entityType entity = type))
                         || revisionOk db entity) entities.

Definition validatePreparedEntityRevisions (entities : list StorageMutationEntityInput) :
    Tx unit :=
  match entities with
  | [] => mret tt
  | _ =>
      blocked ← read (fun db => blockedBy db entities);
      match blocked with
      | Some id => throw (StorageMutationConflictError STORAGE_RECOVERY_REQUIRED (Some id))
      | None =>
          ok ← read (fun db => validateType entities et_file db
                               && validateType entities et_folder db
                               && validateType entities et_derivative db
                               && validateType entities et_archive db);
          ensure ok inProgress
      end
  end.

(** ** Target names *)

Record NamespaceTarget := {
  nt_entityId : string; nt_parentId : option string; nt_name : string
}.

Record PreparedNamespace := {
  pn_parentId : option string; pn_name : string; pn_deletedAt : option Z
}.

Definition getPreparedMetadataOperations (intentJson : IntentJson) :
    option (list StorageMetadataOperation) :=
  match intentJson with intent _ operations => operations | _ => None end.

(** [key in data], and [data[key]]. *)
Definition dataHas (key : string) (data : list (string * JsonScalar)) : bool :=
  mapHas key data.

Definition isNamespaceChangingUpdate (operation : UpdateOperation) : bool :=
  let data := up_data operation in
  opt_is (mapGet "deletedAt" data) JsNull
  || dataHas "name" data || dataHas "originalName" data
  || dataHas "folderId" data || dataHas "parentId" data.

(** [String(value)]. *)
Definition jsString (value : JsonScalar) : string :=
  match value with
  | JsNull => "null"
  | JsString s => s
  | JsNumber n => numberString n
  | JsBool b => if b then "true" else "false"
  end.

(** The current namespace of an updated file or folder of the owner. *)
Definition currentNamespace (db : DB) (ownerUserId : string) (operation : UpdateOperation) :
    option PreparedNamespace :=
  let type := up_entityType operation in
  match type with
  | et_file | et_folder =>
      row ← db_rows db !! (type, up_entityId operation);
      if bool_decide (textColumn row "ownerUserId" = Some ownerUserId)
      then Some
        {| pn_parentId := textColumn row (if bool_decide (type = et_file) then "folderId"
                                          else "parentId");
           pn_name := default "" (textColumn row (if bool_decide (type = et_file)
                                                  then "originalName" else "name"));
           pn_deletedAt := dateColumn row "deletedAt" |}
      else None
  | _ => None
  end.

Definition updatedNamespaceTarget (operation : UpdateOperation) (current : PreparedNamespace) :
    option NamespaceTarget :=
  let data := up_data operation in
  let deleted :=
    match mapGet "deletedAt" data with
    | Some value => negb (bool_decide (value = JsNull))
    | None => bool_decide (pn_deletedAt current <> None)
    end in
  if deleted then None
  else
    let isFile := bool_decide (up_entityType operation = et_file) in
    let parentKey := if isFile then "folderId" else "parentId" in
    let nameKey := if isFile then "originalName" else "name" in
    Some
      {| nt_entityId := up_entityId operation;
         nt_parentId :=
           match mapGet parentKey data with
           | Some JsNull => None
           | Some value => Some (jsString value)
           | None => pn_parentId current
           end;
         nt_name :=
           match mapGet nameKey data with
           | Some value => jsString value
           | None => pn_name current
           end |}.

(** The name an operation ends up at, if it makes or changes one. *)
Definition collectPreparedNamespaceOperation (db : DB) (ownerUserId : string)
    (operation : StorageMetadataOperation) : result StorageError (option NamespaceTarget) :=
  match operation with
  | op_create_file data =>
      _ ← require (bool_decide (cf_ownerUserId data = ownerUserId)) inProgress;
      Ok (Some {| nt_entityId := cf_id data; nt_parentId := cf_folderId data;
                  nt_name := cf_originalName data |})
  | op_create_folder data =>
      _ ← require (bool_decide (cd_ownerUserId data = ownerUserId)) inProgress;
      Ok (Some {| nt_entityId := cd_id data; nt_parentId := cd_parentId data;
                  nt_name := cd_name data |})
  | op_update operation =>
      if isNamespaceChangingUpdate operation then
        Ok (current ← currentNamespace db ownerUserId operation;
            updatedNamespaceTarget operation current)
      else Ok None
  | _ => Ok None
  end.

Fixpoint collectTargets (db : DB) (ownerUserId : string)
    (operations : list StorageMetadataOperation) : result StorageError (list NamespaceTarget) :=
  match operations with
  | [] => Ok []
  | operation :: rest =>
      target ← collectPreparedNamespaceOperation db ownerUserId operation;
      targets ← collectTargets db ownerUserId rest;
      Ok (option_list target ++ targets)
  end.

(** [operation.data.storageRootKey] of the trash entries, when not empty. *)
Definition trashStorageRoots (operations : list StorageMetadataOperation) : list string :=
  omap (fun operation =>
    match operation with
    | op_create_trash_entry data =>
        match ct_storageRootKey data with
        | Some EmptyString | None => None
        | Some key => Some key
        end
    | _ => None
    end) operations.

Definition validatePreparedTrashRoots (roots : list string) (db : DB) : bool :=
  negb (existsb (fun e : string * TrashEntry =>
          match te_storageRootKey e.2 with
          | Some key => bool_decide (key ∈ roots) | None => false end)
        (map_to_list (db_trash db))).

Definition targetKey (target : NamespaceTarget) : string :=
  default "" (nt_parentId target) +:+ nul +:+ nt_name target.

(** A live file or folder of the owner has the target's place and name. *)
Definition namespaceTaken (db : DB) (ownerUserId : string) (target : NamespaceTarget) : bool :=
  let taken (type : EntityType) (parentKey nameKey : string) :=
    existsb (fun e : string * Row =>
      bool_decide (textColumn e.2 "ownerUserId" = Some ownerUserId)
      && bool_decide (column e.2 "deletedAt" = CNull)
      && bool_decide (textColumn e.2 parentKey = nt_parentId target)
      && bool_decide (textColumn e.2 nameKey = Some (nt_name target))
      && negb (bool_decide (e.1 = nt_entityId target)))
      (typedRows type db) in
  taken et_file "folderId" "originalName" || taken et_folder "parentId" "name".

Definition validatePreparedTargets (ownerUserId : string) (targets : list NamespaceTarget)
    (db : DB) : bool :=
  bool_decide (NoDup (targetKey <$> targets))
  && forallb (fun target => negb (namespaceTaken db ownerUserId target)) targets.

Definition validatePreparedNamespaces (ownerUserId : string) (intentJson : IntentJson) :
    Tx unit :=
  match getPreparedMetadataOperations intentJson with
  | None => mret tt
  | Some operations =>
      collected ← read (fun db => collectTargets db ownerUserId operations);
      match collected with
      | Throw e => throw e
      | Ok targets =>
          rootsOk ← read (validatePreparedTrashRoots (trashStorageRoots operations));
          _ ← ensure rootsOk inProgress;
          targetsOk ← read (validatePreparedTargets ownerUserId targets);
          ensure targetsOk inProgress
      end
  end.

(** ** Resources *)

Definition OWNER_RESOURCE_PREFIX : string := "owner:".
Definition globalRecovery : string := "storage:global-recovery".

Definition ownerResourceKey (ownerUserId : string) : string :=
  OWNER_RESOURCE_PREFIX +:+ ownerUserId.

Definition storagePathResourceKey (ownerUserId storageKey : string) : string :=
  ownerResourceKey ownerUserId +:+ "/" +:+ storageKey.

(** [key ? [...] : []]: an absent or empty key locks nothing. *)
Definition stepKey (ownerUserId : string) (key : option string) : list string :=
  match key with
  | None | Some EmptyString => []
  | Some key => [storagePathResourceKey ownerUserId key]
  end.

Definition deriveStorageMutationResourceKeys (input : PrepareStorageMutationInput) :
    list string :=
  if negb (isUserKind (pi_kind input)) then [ownerResourceKey (pi_ownerUserId input)]
  else
    match pi_steps input ≫= (fun step =>
            stepKey (pi_ownerUserId input) (in_sourceKey step)
            ++ stepKey (pi_ownerUserId input) (in_targetKey step)) with
    | [] => [ownerResourceKey (pi_ownerUserId input)]
    | keys => keys
    end.

Definition ownerOfResourceKey (resourceKey : string) : option string :=
  if startsWith OWNER_RESOURCE_PREFIX resourceKey
  then head (splitOn slash (sliceFrom (String.length OWNER_RESOURCE_PREFIX) resourceKey))
  else None.

(** The owner when it is truthy. *)
Definition resourceOwner (resourceKey : string) : option string :=
  match ownerOfResourceKey resourceKey with
  | Some EmptyString | None => None
  | Some owner => Some owner
  end.

Fixpoint prefixesFrom (acc : string) (parts : list string) : list string :=
  match parts with
  | [] => []
  | part :: rest =>
      let prefix := acc +:+ "/" +:+ part in prefix :: prefixesFrom prefix rest
  end.

(** [parts.slice(0, index + 1).join("/")] for every index. *)
Definition resourceKeyAndAncestors (resourceKey : string) : list string :=
  match splitOn slash resourceKey with
  | [] => []
  | first :: rest => first :: prefixesFrom first rest
  end.

Definition liveResources (db : DB) : list Resource :=
  filter (fun r => rs_releasedAt r = None) (db_resources db).

(** The SQL condition on a live resource and the owner keys requested. *)
Definition overlapsRequested (ownerKeys : list string) (resourceKey : string) : bool :=
  bool_decide (resourceKey ∈ ownerKeys ≫= resourceKeyAndAncestors)
  || existsb (fun requested => startsWith (requested +:+ "/") resourceKey) ownerKeys.

Definition ownerResourcesLock (ownerUserId : string) : string :=
  "advisory:storage-owner-resources:" +:+ ownerUserId.

Definition assertNoOverlappingOwnerResources (locks : Locks) (resourceKeys : list string)
    (selfMutationId : option string) : Tx unit :=
  let ownerKeys := filter (fun key => resourceOwner key <> None) resourceKeys in
  let owners := omap resourceOwner ownerKeys in
  _ ← ensure (forallb (fun owner => negb (bool_decide (ownerResourcesLock owner ∈ locks))) owners)
        StorageAdmissionBusyError;
  match ownerKeys with
  | [] => mret tt
  | _ =>
      conflict ← read (fun db =>
        head (filter (fun r =>
          rs_mutationId r <> default "" selfMutationId
          /\ overlapsRequested ownerKeys (rs_resourceKey r) = true) (liveResources db)));
      match conflict with
      | Some r => throw (StorageMutationConflictError STORAGE_MUTATION_IN_PROGRESS
                           (Some (rs_mutationId r)))
      | None => mret tt
      end
  end.

(** The acquisition lock: held shared by every acquisition, and alone by a
    global recovery. *)
Definition acquisitionShared : string := "advisory:resource-acquisition:shared".
Definition acquisitionExclusive : string := "advisory:resource-acquisition:exclusive".

Definition acquireStorageMutationResources (locks : Locks) (resourceKeys : list string)
    (selfMutationId : option string) : Tx unit :=
  match resourceKeys with
  | [] => mret tt
  | _ =>
      let globalRequested := bool_decide (globalRecovery ∈ resourceKeys) in
      let busy :=
        bool_decide (acquisitionExclusive ∈ locks)
        || (globalRequested && bool_decide (acquisitionShared ∈ locks)) in
      _ ← ensure (negb busy) StorageAdmissionBusyError;
      conflicting ← read (fun db =>
        head (filter (fun r => globalRequested = true \/ rs_resourceKey r = globalRecovery)
                (liveResources db)));
      match conflicting with
      | Some r => throw (StorageMutationConflictError STORAGE_RECOVERY_REQUIRED
                           (Some (rs_mutationId r)))
      | None => assertNoOverlappingOwnerResources locks resourceKeys selfMutationId
      end
  end.

(** ** Writing the mutation *)

Definition newStep (mutationId : string) (ordinal : nat) (step : StorageMutationStepInput) :
    Step :=
  {| sp_id := mutationId +:+ "/" +:+ numberString (Z.of_nat ordinal);
     sp_input := step; sp_status := step_pending; sp_attemptCount := 0;
     sp_appliedAt := None; sp_lastError := None |}.

Definition newMutation (input : PrepareStorageMutationInput) (id : string)
    (originDeviceId : option string) : Mutation :=
  {| mu_parentId := pi_parentId input;
     mu_kind := pi_kind input;
     mu_ownerUserId := pi_ownerUserId input;
     mu_requestHash := pi_requestHash input;
     mu_originDeviceId := originDeviceId;
     mu_idempotencyKey := pi_idempotencyKey input;
     mu_status := preparing;
     mu_intentJson := pi_intentJson input;
     mu_resultJson := pi_initialResultJson input;
     mu_reservedBytes := pi_reservedBytes input;
     mu_metadataCommittedAt := None;
     mu_completedAt := None;
     mu_recoveryRequiredAt := None;
     mu_lease := {| ls_owner := None; ls_token := 0; ls_expiresAt := None |};
     mu_attempts := {| at_count := 0; at_lastAttemptAt := None; at_nextAttemptAt := None;
                       at_lastError := None |};
     mu_steps := imap (newStep id) (pi_steps input);
     mu_entities := pi_entities input |}.

Definition idempotencyKeyTaken (db : DB) (key : option string) : bool :=
  match key with
  | None => false
  | Some key => existsb (fun e : string * Mutation =>
                  opt_is (mu_idempotencyKey e.2) key) (mutationList db)
  end.

(** The unique index on live resource keys. *)
Definition resourceKeyLive (db : DB) (key : string) : bool :=
  existsb (fun r => bool_decide (rs_resourceKey r = key)) (liveResources db).

Definition newResources (mutationId : string) (fenceToken : Z) (keys : list string) :
    list Resource :=
  (fun key => {| rs_resourceKey := key; rs_mutationId := mutationId;
                 rs_fenceToken := fenceToken; rs_releasedAt := None |}) <$> keys.

Definition insertResources (mutationId : string) (fenceToken : Z) (keys : list string) :
    Tx unit :=
  free ← read (fun db => forallb (fun key => negb (resourceKeyLive db key)) keys
                         && bool_decide (NoDup keys));
  _ ← ensure free UniqueViolation;
  modify (fun db =>
    set_resources (db_resources db ++ newResources mutationId fenceToken keys) db).

Definition parentOriginDeviceId (db : DB) (parentId : option string) : option string :=
  match parentId with
  | None | Some EmptyString => None
  | Some id => parent ← db_mutations db !! id; mu_originDeviceId parent
  end.

(** The owner and the parent a new mutation names exist; it may be its own parent. *)
Definition mutationReferencesExist (input : PrepareStorageMutationInput) (id : string)
    (db : DB) : bool :=
  bool_decide (db_users db !! pi_ownerUserId input <> None)
  && match pi_parentId input with
     | None => true
     | Some parentId => bool_decide (parentId = id)
                        || bool_decide (db_mutations db !! parentId <> None)
     end.

Definition createPreparingStorageMutation (input : PrepareStorageMutationInput)
    (id : string) (resourceKeys : list string) : Tx unit :=
  origin ← read (fun db =>
    match pi_originDeviceId input with
    | Some origin => Some origin
    | None => parentOriginDeviceId db (pi_parentId input)
    end);
  free ← read (fun db => bool_decide (db_mutations db !! id = None)
                         && negb (idempotencyKeyTaken db (pi_idempotencyKey input))
                         && bool_decide (NoDup ((fun e => (en_entityType e, en_entityId e))
                                                <$> pi_entities input)));
  _ ← ensure free UniqueViolation;
  known ← read (mutationReferencesExist input id);
  _ ← ensure known ForeignKeyViolation;
  _ ← modify (fun db =>
        set_mutations (<[id := newMutation input id origin]> (db_mutations db)) db);
  insertResources id 0 resourceKeys.

Definition linkSession (session : UploadSession) (mutationId : option string)
    (status : SessionStatus) (terminalAt : option Z) : UploadSession :=
  {| se_ownerUserId := se_ownerUserId session;
     se_totalSizeBytes := se_totalSizeBytes session; se_status := status;
     se_expiresAt := se_expiresAt session; se_terminalAt := terminalAt;
     se_stagingReleasedAt := se_stagingReleasedAt session;
     se_committedFileId := se_committedFileId session;
     se_cleanupLastError := se_cleanupLastError session;
     se_storageMutationId := mutationId; se_chunks := se_chunks session;
     se_upload := se_upload session |}.

Definition linkPreparedUploadSession (input : PrepareStorageMutationInput)
    (mutationId : string) : Tx unit :=
  match pi_uploadSessionId input with
  | None | Some EmptyString => mret tt
  | Some sessionId =>
      session ← read (fun db => db_sessions db !! sessionId);
      match session with
      | Some session =>
          _ ← ensure (bool_decide (se_ownerUserId session = pi_ownerUserId input)
                      && bool_decide (se_status session = ss_committing)
                      && bool_decide (se_storageMutationId session = None))
                (StorageMutationIntentError
                   "Resumable upload cannot be linked to durable mutation.");
          modify (fun db =>
            set_sessions (<[sessionId :=
              linkSession session (Some mutationId) (se_status session)
                (se_terminalAt session)]> (db_sessions db)) db)
      | None => throw (StorageMutationIntentError
                         "Resumable upload cannot be linked to durable mutation.")
      end
  end.

(** A write of a mutation's row: the fields that never change stay. *)
Definition mutate (m : Mutation) (status : StorageMutationStatus) (intentJson : IntentJson)
    (resultJson : option Json) (idempotencyKey : option string) (reservedBytes : option Z)
    (metadataCommittedAt completedAt recoveryRequiredAt : option Z) (lease : Lease)
    (attempts : Attempts) : Mutation :=
  {| mu_parentId := mu_parentId m; mu_kind := mu_kind m; mu_ownerUserId := mu_ownerUserId m;
     mu_requestHash := mu_requestHash m; mu_originDeviceId := mu_originDeviceId m;
     mu_idempotencyKey := idempotencyKey; mu_status := status;
     mu_intentJson := intentJson; mu_resultJson := resultJson;
     mu_reservedBytes := reservedBytes;
     mu_metadataCommittedAt := metadataCommittedAt;
     mu_completedAt := completedAt; mu_recoveryRequiredAt := recoveryRequiredAt;
     mu_lease := lease; mu_attempts := attempts; mu_steps := mu_steps m;
     mu_entities := mu_entities m |}.

Definition set_status (status : StorageMutationStatus) (m : Mutation) : Mutation :=
  mutate m status (mu_intentJson m) (mu_resultJson m) (mu_idempotencyKey m)
    (mu_reservedBytes m) (mu_metadataCommittedAt m) (mu_completedAt m)
    (mu_recoveryRequiredAt m) (mu_lease m) (mu_attempts m).

Definition updateMutation (id : string) (f : Mutation -> Mutation) : Tx unit :=
  modify (fun db => set_mutations (alter f id (db_mutations db)) db).

Definition prepareStorageMutationTransaction (locks : Locks) (now : Z)
    (input : PrepareStorageMutationInput) (id : string) (resourceKeys : list string) :
    Tx Mutation :=
  _ ← match pi_reservedBytes input with
      | Some bytes =>
          if bool_decide (bytes = 0) then mret tt
          else assertOwnerQuotaAvailable locks now (pi_ownerUserId input) bytes
      | None => mret tt
      end;
  _ ← acquireStorageMutationResources locks resourceKeys None;
  _ ← createPreparingStorageMutation input id resourceKeys;
  _ ← validatePreparedEntityRevisions (pi_entities input);
  _ ← validatePreparedNamespaces (pi_ownerUserId input) (pi_intentJson input);
  _ ← linkPreparedUploadSession input id;
  _ ← updateMutation id (set_status prepared);
  found ← read (fun db => db_mutations db !! id);
  match found with Some mutation => mret mutation | None => throw RecordNotFound end.

(** ** Replays *)

Record PrepareStorageMutationResult := {
  pr_id : string; pr_mutation : Mutation; pr_replayed : bool
}.

Definition assertMatchingStorageMutationReplay (existing : string * Mutation)
    (input : PrepareStorageMutationInput) : result StorageError PrepareStorageMutationResult :=
  if bool_decide (mu_ownerUserId existing.2 = pi_ownerUserId input)
     && bool_decide (mu_kind existing.2 = pi_kind input)
     && bool_decide (mu_requestHash existing.2 = pi_requestHash input)
  then Ok {| pr_id := existing.1; pr_mutation := existing.2; pr_replayed := true |}
  else Throw (StorageMutationConflictError STORAGE_IDEMPOTENCY_KEY_REUSED None).

Definition findByIdempotencyKey (db : DB) (key : string) : option (string * Mutation) :=
  head (filter (fun e : string * Mutation => mu_idempotencyKey e.2 = Some key)
          (mutationList db)).

Definition findPreparedMutationReplay (db : DB) (input : PrepareStorageMutationInput) :
    result StorageError (option PrepareStorageMutationResult) :=
  match pi_idempotencyKey input with
  | None | Some EmptyString => Ok None
  | Some key =>
      match findByIdempotencyKey db key with
      | None => Ok None
      | Some existing =>
          replay ← assertMatchingStorageMutationReplay existing input; Ok (Some replay)
      end
  end.

Definition resolvePreparationConflict (db : DB) (error : StorageError)
    (input : PrepareStorageMutationInput) (resourceKeys : list string) :
    result StorageError PrepareStorageMutationResult :=
  match error with
  | UniqueViolation =>
      replay ← findPreparedMutationReplay db input;
      match replay with
      | Some replay => Ok replay
      | None =>
          Throw (StorageMutationConflictError STORAGE_MUTATION_IN_PROGRESS
                   (rs_mutationId <$> head (filter (fun r => rs_resourceKey r ∈ resourceKeys)
                                              (liveResources db))))
      end
  | _ => Throw error
  end.

(** [Array.from(new Set(keys)).sort()]. *)
Definition uniqueSorted (keys : list string) : list string := sortStrings (setOf keys).

(** [prepareStorageMutation]: the replay check reads the database [before], the
    transaction runs on [during], and a unique violation is resolved by reading
    it [later]. The database after the call is the second component. *)
Definition prepareStorageMutation (locks : Locks) (now : Z) (freshId : string)
    (input : PrepareStorageMutationInput) (before during later : DB) :
    result StorageError PrepareStorageMutationResult * DB :=
  let resourceKeys :=
    match pi_resourceKeys input with
    | Some keys => keys
    | None => deriveStorageMutationResourceKeys input
    end in
  let id := default freshId (pi_id input) in
  match findPreparedMutationReplay before input with
  | Throw e => (Throw e, during)
  | Ok (Some replay) => (Ok replay, during)
  | Ok None =>
      match runStorageTransaction
              (prepareStorageMutationTransaction locks now input id (uniqueSorted resourceKeys))
              during with
      | Ok (mutation, db') =>
          (Ok {| pr_id := id; pr_mutation := mutation; pr_replayed := false |}, db')
      | Throw e => (resolvePreparationConflict later e input resourceKeys, during)
      end
  end.
