(* ===== verification/StorageChanges.v ===== *)
(** * The change feed

    [packages/db/src/storage-changes.ts]: the snapshot of the items a mutation
    touches before and after its metadata is committed, the changes that are
    appended for the difference, and the cursor reads clients page the feed
    with. Rows that a query returns in no stated order are taken in the order
    of the mutation's entities.

    Every append keeps the sequence increasing with parents before children,
    and a client that pages with the cursors it is given reads every change of
    its owner once, in order, whatever the page size. *)

From Stdlib Require Import Ascii.
From S2P Require Import Prelude Database.

Open Scope Z_scope.

Definition STORAGE_CHANGE_RETENTION_DAYS : Z := 90.

Record ItemState := {
  it_type : EntityType;
  it_id : string;
  it_parentId : option string;
  it_name : string;
  it_path : string;
  it_deletedAt : option Z;
  it_sizeBytes : option Z;
  it_contentChecksum : option string;
  it_storageRevision : Z;
  it_clientModifiedAt : option Z
}.

(** [StorageItemSnapshot]: a map from [keyOf] to the item. *)
Definition StorageItemSnapshot := list (string * ItemState).

Definition keyOf (type : EntityType) (id : string) : string :=
  match type with et_file => "file" | _ => "folder" end +:+ ":" +:+ id.

(** ** Paths *)

(** The recursive query: a folder and the folders above it, at most 1000 up. *)
Fixpoint upChain (fuel : nat) (rows : gmap (EntityType * string) Row) (id : string) : list Row :=
  match rows !! (et_folder, id) with
  | None => []
  | Some row =>
      row :: match fuel, textColumn row "parentId" with
             | S fuel', Some parent => upChain fuel' rows parent
             | _, _ => []
             end
  end.

Definition isFilesRoot (row : Row) : bool :=
  bool_decide (column row "isFilesRoot" = CBool true).

Definition folderPath (rows : gmap (EntityType * string) Row) (id : string) : string :=
  joinWith "/" (reverse (omap (fun row => if isFilesRoot row then None
                                          else textColumn row "name")
                           (upChain 1000 rows id))).

(** [readFolderPaths]: a path for every folder of the list that exists. *)
Definition readFolderPaths (rows : gmap (EntityType * string) Row) (folderIds : list string) :
    list (string * string) :=
  omap (fun id => match rows !! (et_folder, id) with
                  | Some _ => Some (id, folderPath rows id)
                  | None => None
                  end) folderIds.

Definition joinPath (parent : option string) (name : string) : string :=
  match parent with
  | None | Some EmptyString => name
  | Some parent => parent +:+ "/" +:+ name
  end.

(** ** Snapshots *)

Definition folderState (paths : list (string * string)) (id : string) (row : Row) : ItemState :=
  let name := default "" (textColumn row "name") in
  {| it_type := et_folder; it_id := id; it_parentId := textColumn row "parentId";
     it_name := name; it_path := default name (mapGet id paths);
     it_deletedAt := dateColumn row "deletedAt"; it_sizeBytes := None;
     it_contentChecksum := None; it_storageRevision := rw_storageRevision row;
     it_clientModifiedAt := None |}.

Definition fileState (paths : list (string * string)) (id : string) (row : Row) : ItemState :=
  let name := default "" (textColumn row "originalName") in
  {| it_type := et_file; it_id := id; it_parentId := textColumn row "folderId";
     it_name := name;
     it_path := joinPath (folder ← textColumn row "folderId"; mapGet folder paths) name;
     it_deletedAt := dateColumn row "deletedAt";
     it_sizeBytes := bigIntColumn row "sizeBytes";
     it_contentChecksum := textColumn row "contentChecksum";
     it_storageRevision := rw_storageRevision row;
     it_clientModifiedAt := dateColumn row "clientModifiedAt" |}.

Definition readStorageItemSnapshot (mutationId : string) (db : DB) : StorageItemSnapshot :=
  let entities := match db_mutations db !! mutationId with
                  | Some mutation => mu_entities mutation | None => [] end in
  let ids (type : EntityType) :=
    en_entityId <$> filter (fun e => en_entityType e = type) entities in
  let files := omap (fun id => row ← db_rows db !! (et_file, id); Some (id, row)) (ids et_file) in
  let folders :=
    omap (fun id => row ← db_rows db !! (et_folder, id);
                    if isFilesRoot row then None else Some (id, row)) (ids et_folder) in
  let paths := readFolderPaths (db_rows db)
    (setOf (folders.*1 ++ omap (fun e : string * Row => textColumn e.2 "folderId") files)) in
  mapOf (((fun e : string * Row => (keyOf et_folder e.1, folderState paths e.1 e.2)) <$> folders)
         ++ ((fun e : string * Row => (keyOf et_file e.1, fileState paths e.1 e.2)) <$> files)).

#[global] Arguments folderPath : simpl never.
#[global] Arguments readStorageItemSnapshot : simpl never.

(** ** Changes *)

Definition kindOf (before after : option ItemState) : option StorageChangeKind :=
  match before, after with
  | None, None => None
  | None, Some after =>
      match it_deletedAt after with None => Some created_change | Some _ => None end
  | Some _, None => Some deleted_change
  | Some before, Some after =>
      match it_deletedAt before, it_deletedAt after with
      | None, Some _ => Some trashed_change
      | Some _, None => Some restored_change
      | Some _, Some _ => None
      | None, None =>
          if negb (bool_decide (it_parentId before = it_parentId after))
             || negb (bool_decide (it_name before = it_name after))
          then Some moved_change
          else if negb (bool_decide (it_contentChecksum before = it_contentChecksum after))
                  || negb (bool_decide (it_sizeBytes before = it_sizeBytes after))
                  || negb (bool_decide (it_clientModifiedAt before = it_clientModifiedAt after))
                  || (bool_decide (it_type after = et_file)
                      && negb (bool_decide (it_storageRevision before
                                            = it_storageRevision after))
                      && bool_decide (it_path before = it_path after))
          then Some updated_change
          else None
      end
  end.

(** One entry to append: its kind, the item before, and the item now. *)
Record PendingChange := {
  pc_kind : StorageChangeKind; pc_previous : option ItemState; pc_current : ItemState
}.

Definition changeKinds (before after : StorageItemSnapshot) :
    list (string * StorageChangeKind) :=
  omap (fun key => kind ← kindOf (mapGet key before) (mapGet key after); Some (key, kind))
    (setOf (before.*1 ++ after.*1)).

(** A child that went with its folder is covered by the folder's entry. *)
Definition coveredByParent (kinds : list (string * StorageChangeKind))
    (kind : StorageChangeKind) (previous : option ItemState) (current : ItemState) : bool :=
  negb (bool_decide (kind = created_change)) && negb (bool_decide (kind = updated_change))
  && match previous with
     | Some previous => bool_decide (it_parentId previous = it_parentId current)
     | None => false
     end
  && opt_is (mapGet (keyOf et_folder (default "" (it_parentId current))) kinds) kind.

Definition pendingChanges (before after : StorageItemSnapshot) : list PendingChange :=
  let kinds := changeKinds before after in
  omap (fun e : string * StorageChangeKind =>
    let '(key, kind) := e in
    let previous := mapGet key before in
    current ← match mapGet key after with Some current => Some current | None => previous end;
    if coveredByParent kinds kind previous current then None
    else Some {| pc_kind := kind; pc_previous := previous; pc_current := current |}) kinds.

Definition pathDepth (path : string) : nat := length (splitOn slash path).

(** Parents come before their children. *)
Definition sortedChanges (before after : StorageItemSnapshot) : list PendingChange :=
  sortBy (fun c => pathDepth (it_path (pc_current c))) (pendingChanges before after).

Definition storageChange (now : Z) (mutationId ownerUserId : string)
    (originDeviceId : option string) (seq : Z) (change : PendingChange) : StorageChange :=
  let current := pc_current change in
  {| sc_seq := seq;
     sc_ownerUserId := ownerUserId;
     sc_mutationId := mutationId;
     sc_kind := pc_kind change;
     sc_itemType := it_type current;
     sc_itemId := it_id current;
     sc_parentId := it_parentId current;
     sc_previousParentId :=
       match pc_previous change with
       | Some previous =>
           if bool_decide (it_parentId previous = it_parentId current) then None
           else it_parentId previous
       | None => None
       end;
     sc_path := it_path current;
     sc_previousPath :=
       match pc_previous change with
       | Some previous =>
           if bool_decide (it_path previous = it_path current) then None
           else Some (it_path previous)
       | None => None
       end;
     sc_name := it_name current;
     sc_sizeBytes := it_sizeBytes current;
     sc_contentChecksum := it_contentChecksum current;
     sc_storageRevision := it_storageRevision current;
     sc_clientModifiedAt := it_clientModifiedAt current;
     sc_originDeviceId := originDeviceId;
     sc_createdAt := now |}.

#[global] Arguments sortedChanges : simpl never.
#[global] Arguments pendingChanges : simpl never.

(** The rows of [createManyAndReturn]: consecutive values of the sequence. *)
Definition numberedChanges (now : Z) (mutationId ownerUserId : string)
    (originDeviceId : option string) (first : Z) (changes : list PendingChange) :
    list StorageChange :=
  imap (fun i => storageChange now mutationId ownerUserId originDeviceId (first + Z.of_nat i))
    changes.

Definition STORAGE_CHANGES_LOCK : string := "advisory:storage-changes".

Definition appendStorageChanges (locks : gset string) (now : Z) (mutationId ownerUserId : string)
    (before : StorageItemSnapshot) : Tx unit :=
  after ← read (readStorageItemSnapshot mutationId);
  match sortedChanges before after with
  | [] => mret tt
  | changes =>
      _ ← ensure (negb (bool_decide (STORAGE_CHANGES_LOCK ∈ locks))) LockNotAvailable;
      origin ← read (fun db => mutation ← db_mutations db !! mutationId;
                               mu_originDeviceId mutation);
      modify (fun db =>
        set_changes
          (db_changes db
           ++ numberedChanges now mutationId ownerUserId origin (db_nextSeq db) changes)
          (db_nextSeq db + Z.of_nat (length changes)) db)
  end.

(** ** Reading the feed *)

Definition oldestSeq (db : DB) : option Z := sc_seq <$> head (db_changes db).
Definition newestSeq (db : DB) : option Z := sc_seq <$> last (db_changes db).

Definition currentStorageChangeCursor (db : DB) : Z := default 0 (newestSeq db).

Inductive ReadChangesError := StorageChangesExpiredError | ReadTypeError.

Record StorageChangesPage := {
  pg_changes : list StorageChange; pg_hasMore : bool; pg_cursor : Z
}.

Definition changesAfter (ownerUserId : string) (after head : Z) (db : DB) :
    list StorageChange :=
  filter (fun c => sc_ownerUserId c = ownerUserId /\ after < sc_seq c /\ sc_seq c <= head)
    (db_changes db).

Definition readStorageChanges (ownerUserId : string) (after : Z) (limit : nat) (db : DB) :
    result ReadChangesError StorageChangesPage :=
  let head := currentStorageChangeCursor db in
  let expired :=
    bool_decide (head < after)
    || match oldestSeq db with Some oldest => bool_decide (after < oldest - 1) | None => false end in
  if expired then Throw StorageChangesExpiredError
  else
    let rows := take (limit + 1) (changesAfter ownerUserId after head db) in
    let hasMore := bool_decide (limit < length rows)%nat in
    let changes := take limit rows in
    if hasMore then
      match last changes with
      | Some c => Ok {| pg_changes := changes; pg_hasMore := true; pg_cursor := sc_seq c |}
      | None => Throw ReadTypeError
      end
    else Ok {| pg_changes := changes; pg_hasMore := false;
               pg_cursor := if bool_decide (after < head) then head else after |}.

(** The newest row stays so the table always marks how far back it reaches. *)
Definition pruneStorageChanges (now : Z) (db : DB) : DB * nat :=
  match newestSeq db with
  | None => (db, O)
  | Some newest =>
      let pruned c := sc_seq c < newest
                      /\ sc_createdAt c < now - STORAGE_CHANGE_RETENTION_DAYS * 86400000 in
      (set_changes (filter (fun c => ~ pruned c) (db_changes db)) (db_nextSeq db) db,
       length (filter (fun c => pruned c) (db_changes db)))
  end.

(** ** A page of the live tree *)

Record StorageSnapshotItem := {
  ss_type : EntityType; ss_id : string; ss_parentId : option string; ss_name : string;
  ss_path : string; ss_sizeBytes : option Z; ss_contentChecksum : option string;
  ss_storageRevision : Z; ss_clientModifiedAt : option Z; ss_updatedAt : option Z
}.

Definition isLive (row : Row) : bool := bool_decide (column row "deletedAt" = CNull).

(** The folder a page is asked for; the owner's files root when none is. *)
Definition snapshotRoot (ownerUserId : string) (folderId : option string) (db : DB) :
    option string :=
  match folderId with
  | Some id =>
      row ← db_rows db !! (et_folder, id);
      if opt_is (textColumn row "ownerUserId") ownerUserId && isLive row then Some id else None
  | None =>
      head (omap (fun e : (EntityType * string) * Row =>
        let '((type, id), row) := e in
        if bool_decide (type = et_folder) && isFilesRoot row
           && opt_is (textColumn row "ownerUserId") ownerUserId
        then Some id else None) (map_to_list (db_rows db)))
  end.

(** The live folders of the owner in a folder, with their paths. *)
Definition foldersIn (ownerUserId : string) (rows : gmap (EntityType * string) Row)
    (tree : string * string) : list (string * string) :=
  omap (fun e : (EntityType * string) * Row =>
    let '((type, id), row) := e in
    if bool_decide (type = et_folder) && opt_is (textColumn row "parentId") tree.1
       && isLive row && opt_is (textColumn row "ownerUserId") ownerUserId
    then Some (id, joinPath (Some tree.2) (default "" (textColumn row "name"))) else None)
    (map_to_list rows).

(** The recursive query below the folders of a level, at most [depth] levels. *)
Fixpoint foldersBelow (depth : nat) (ownerUserId : string)
    (rows : gmap (EntityType * string) Row) (level : list (string * string)) :
    list (string * string) :=
  match depth with
  | O => []
  | S depth' =>
      match level ≫= foldersIn ownerUserId rows with
      | [] => []
      | next => next ++ foldersBelow depth' ownerUserId rows next
      end
  end.

Definition folderItem (rows : gmap (EntityType * string) Row) (tree : string * string) :
    option StorageSnapshotItem :=
  row ← rows !! (et_folder, tree.1);
  Some {| ss_type := et_folder; ss_id := tree.1; ss_parentId := textColumn row "parentId";
          ss_name := default "" (textColumn row "name"); ss_path := tree.2;
          ss_sizeBytes := None; ss_contentChecksum := None;
          ss_storageRevision := rw_storageRevision row; ss_clientModifiedAt := None;
          ss_updatedAt := dateColumn row "updatedAt" |}.

Definition filesIn (rows : gmap (EntityType * string) Row) (tree : string * string) :
    list StorageSnapshotItem :=
  omap (fun e : (EntityType * string) * Row =>
    let '((type, id), row) := e in
    let name := default "" (textColumn row "originalName") in
    if bool_decide (type = et_file) && opt_is (textColumn row "folderId") tree.1 && isLive row
    then Some {| ss_type := et_file; ss_id := id; ss_parentId := textColumn row "folderId";
                 ss_name := name; ss_path := joinPath (Some tree.2) name;
                 ss_sizeBytes := bigIntColumn row "sizeBytes";
                 ss_contentChecksum := textColumn row "contentChecksum";
                 ss_storageRevision := rw_storageRevision row;
                 ss_clientModifiedAt := dateColumn row "clientModifiedAt";
                 ss_updatedAt := dateColumn row "updatedAt" |}
    else None) (map_to_list rows).

Definition liveItems (ownerUserId root : string) (db : DB) : list StorageSnapshotItem :=
  let rows := db_rows db in
  let start := (root, folderPath rows root) in
  let below := foldersBelow 1000 ownerUserId rows [start] in
  omap (folderItem rows) below ++ ((start :: below) ≫= filesIn rows).

(** [ORDER BY type DESC, id]: folders first. Ids compare by their bytes. *)
Definition placeOf (type : EntityType) (id : string) : bool * string :=
  (negb (bool_decide (type = et_folder)), id).
Definition placeBefore (a b : bool * string) : bool :=
  match a.1, b.1 with
  | false, true => true
  | true, false => false
  | _, _ => bool_decide (String.compare a.2 b.2 = Lt)
  end.
Definition placed (item : StorageSnapshotItem) : bool * string :=
  placeOf (ss_type item) (ss_id item).
Definition notAfter (a b : StorageSnapshotItem) : Prop := placeBefore (placed b) (placed a) = false.
#[export] Instance notAfter_dec : RelDecision notAfter.
Proof. intros a b. unfold notAfter. solve_decision. Defined.

(** One page, and whether there is more; nothing when the folder is not live. *)
Definition readStorageSnapshotPage (ownerUserId : string) (folderId : option string)
    (after : option (EntityType * string)) (limit : nat) (db : DB) :
    option (list StorageSnapshotItem * bool) :=
  root ← snapshotRoot ownerUserId folderId db;
  let items := merge_sort notAfter (liveItems ownerUserId root db) in
  let rows := match after with
              | Some (type, id) =>
                  filter (fun item => placeBefore (placeOf type id) (placed item) = true) items
              | None => items
              end in
  Some (take limit rows, bool_decide (limit < length rows)%nat).

(** ** Properties of the feed *)

(** The sequence: every row is older than the next number. *)
Definition feedOk (db : DB) : Prop :=
  StronglySorted (fun c c' => sc_seq c < sc_seq c') (db_changes db) /\
  Forall (fun c => 0 < sc_seq c < db_nextSeq db) (db_changes db) /\ 0 < db_nextSeq db.

Lemma numberedChanges_seq now m o d first changes c :
  c ∈ numberedChanges now m o d first changes ->
  first <= sc_seq c < first + Z.of_nat (length changes).
Proof.
  unfold numberedChanges. revert first.
  induction changes as [|x changes IH]; intros first; [by intros ?%elem_of_nil|].
  rewrite imap_cons. intros [->|Hin]%elem_of_cons; cbn [length]; [cbn; lia|].
  assert (Hc : c ∈ imap (fun i => storageChange now m o d ((first + 1) + Z.of_nat i)) changes).
  { erewrite imap_ext; [exact Hin|]. intros i y _. cbn. f_equal. lia. }
  apply IH in Hc. lia.
Qed.

Lemma numberedChanges_sorted now m o d first changes :
  StronglySorted (fun c c' => sc_seq c < sc_seq c') (numberedChanges now m o d first changes).
Proof.
  revert first. induction changes as [|x changes IH]; intros first; [constructor|].
  assert (E : numberedChanges now m o d first (x :: changes)
    = storageChange now m o d (first + 0) x :: numberedChanges now m o d (first + 1) changes).
  { unfold numberedChanges. rewrite imap_cons. f_equal.
    apply imap_ext. intros i y _. cbn. f_equal. lia. }
  rewrite E. constructor; [done|]. apply Forall_forall. intros c Hc%numberedChanges_seq.
  cbn. lia.
Qed.

(** ** Appending *)

Lemma numberedChanges_depth now m o d first changes :
  StronglySorted (fun a b => (pathDepth (it_path (pc_current a))
                              <= pathDepth (it_path (pc_current b)))%nat) changes ->
  StronglySorted (fun c c' => (pathDepth (sc_path c) <= pathDepth (sc_path c'))%nat)
    (numberedChanges now m o d first changes).
Proof.
  unfold numberedChanges. revert first.
  induction changes as [|x changes IH]; intros first Hs; [constructor|].
  inversion Hs as [|? ? Hs' Hall]; subst. rewrite imap_cons. constructor.
  - erewrite imap_ext; [by apply (IH (first + 1))|]. intros i y _. cbn. f_equal. lia.
  - apply Forall_forall. intros c Hc.
    apply elem_of_lookup_imap in Hc as (i & p & -> & Hp%list_elem_of_lookup_2).
    rewrite Forall_forall in Hall. by apply Hall.
Qed.

(** Appending the changes of a commit keeps the feed's sequence strictly
    increasing, never touches an earlier entry, and adds exactly the pending
    changes, folders before what they hold. *)
Theorem appendStorageChanges_keeps_order locks now mutationId ownerUserId before db db' :
  feedOk db ->
  appendStorageChanges locks now mutationId ownerUserId before db = Ok (tt, db') ->
  feedOk db' /\
  exists added, db_changes db' = db_changes db ++ added /\
    length added = length (pendingChanges before (readStorageItemSnapshot mutationId db)) /\
    Forall (fun c => sc_mutationId c = mutationId /\ sc_ownerUserId c = ownerUserId) added /\
    StronglySorted (fun c c' => (pathDepth (sc_path c) <= pathDepth (sc_path c'))%nat) added.
Proof.
  intros (Hs & Hb & Hn) H. unfold appendStorageChanges in H. tx_inv H.
  assert (Hlen : length (sortedChanges before (readStorageItemSnapshot mutationId db))
    = length (pendingChanges before (readStorageItemSnapshot mutationId db)))
    by apply Permutation_length, sortBy_Permutation.
  destruct (sortedChanges _ _) as [|c cs] eqn:Ec.
  - tx_inv H. split; [done|]. exists []. rewrite app_nil_r, <- Hlen. by repeat constructor.
  - rewrite <- Ec in *. clear Ec c cs. tx_inv H. subst. cbn in *.
    set (new := numberedChanges _ _ _ _ _ _).
    assert (Hnew : forall c, c ∈ new -> db_nextSeq db <= sc_seq c < db_nextSeq db
      + Z.of_nat (length (sortedChanges before (readStorageItemSnapshot mutationId db))))
      by (intros c; apply numberedChanges_seq).
    split; [split; [|split]|].
    + cbn. apply StronglySorted_app_2; [|done|apply numberedChanges_sorted].
      intros c c' Hc Hc'%Hnew. rewrite Forall_forall in Hb. specialize (Hb c Hc). lia.
    + cbn. apply Forall_app. split.
      * eapply Forall_impl; [done|]. cbn. lia.
      * apply Forall_forall. intros c Hc%Hnew. lia.
    + cbn. lia.
    + exists new. cbn. split; [done|].
      split; [by unfold new, numberedChanges; rewrite length_imap|].
      split.
      * apply Forall_forall. intros c Hc. unfold new, numberedChanges in Hc.
        apply elem_of_lookup_imap in Hc as (i & p & -> & _). done.
      * unfold new. apply numberedChanges_depth, sortBy_Sorted.
Qed.

(** ** Paging *)

Section Paging.
Context (ownerUserId : string) (db : DB) (Hfeed : feedOk db).

Lemma last_take_filter (l : list StorageChange) n c :
  StronglySorted (fun c c' => sc_seq c < sc_seq c') l ->
  last (take n l) = Some c ->
  filter (fun x => sc_seq c < sc_seq x) l = drop n l.
Proof.
  revert n. induction l as [|x l IH]; intros n Hs Hl; [by rewrite take_nil in Hl|].
  inversion Hs as [|? ? Hs' Hall]; subst.
  destruct n as [|n]; [done|]. cbn [take drop] in *. rewrite filter_cons.
  assert (Hx : sc_seq x <= sc_seq c).
  { apply last_Some_elem_of in Hl. apply elem_of_cons in Hl as [->|Hl]; [lia|].
    rewrite Forall_forall in Hall. apply elem_of_take in Hl as (i & Hl & _).
    apply list_elem_of_lookup_2 in Hl. specialize (Hall c Hl). lia. }
  rewrite decide_False by lia.
  rewrite last_cons in Hl. destruct (last (take n l)) as [c'|] eqn:E.
  - injection Hl as ->. by apply IH.
  - apply last_None in E. injection Hl as ->.
    assert (Hd : drop n l = l).
    { destruct n; [done|]. destruct l; [done|]. done. }
    rewrite Hd. by apply filter_all.
Qed.

(** Reading on from the last change of a page reads what the page left. *)
Lemma changesAfter_cursor after head n c :
  last (take n (changesAfter ownerUserId after head db)) = Some c ->
  changesAfter ownerUserId (sc_seq c) head db
  = drop n (changesAfter ownerUserId after head db).
Proof.
  intros Hl. rewrite <- (last_take_filter _ n c); [|by apply StronglySorted_filter, Hfeed|done].
  unfold changesAfter. rewrite list_filter_filter. apply list_filter_iff.
  intros x. assert (after < sc_seq c); [|naive_solver lia].
  apply last_Some_elem_of, elem_of_take in Hl as (i & Hl%list_elem_of_lookup_2 & _).
  apply list_elem_of_filter in Hl. naive_solver.
Qed.

(** A client that reads pages until there are no more. *)
Fixpoint readAll (fuel : nat) (after : Z) (limit : nat) :
    result ReadChangesError (list StorageChange * Z) :=
  match fuel with
  | O => Ok ([], after)
  | S fuel' =>
      page ← readStorageChanges ownerUserId after limit db;
      if pg_hasMore page then
        '(rest, cursor) ← readAll fuel' (pg_cursor page) limit;
        Ok (pg_changes page ++ rest, cursor)
      else Ok (pg_changes page, pg_cursor page)
  end.

(** The cursor is one the server gave, and nothing after it was pruned. *)
Definition cursorOk (after : Z) : Prop :=
  after <= currentStorageChangeCursor db /\
  forall oldest, oldestSeq db = Some oldest -> oldest - 1 <= after.

(** C37: whatever the page size, a client that pages from a live cursor until
    there is no more reads every later change of its owner exactly once and in
    order, and ends at the head of the feed. *)
Theorem paging_reads_every_change after limit fuel :
  cursorOk after -> (0 < limit)%nat ->
  (length (changesAfter ownerUserId after (currentStorageChangeCursor db) db) < fuel)%nat ->
  readAll fuel after limit
  = Ok (changesAfter ownerUserId after (currentStorageChangeCursor db) db,
        currentStorageChangeCursor db).
Proof.
  intros Hc Hlim. revert after Hc.
  induction fuel as [|fuel IH]; intros after [Hhead Hold] Hfuel; [lia|].
  set (head := currentStorageChangeCursor db) in *. cbn [readAll].
  unfold readStorageChanges. fold head.
  rewrite (bool_decide_eq_false_2 (head < after)) by lia.
  assert (E : match oldestSeq db with
              | Some oldest => bool_decide (after < oldest - 1) | None => false end = false).
  { destruct (oldestSeq db); [|done]. apply bool_decide_eq_false_2. specialize (Hold _ eq_refl). lia. }
  rewrite E. cbn [orb].
  set (rows := changesAfter ownerUserId after head db) in *.
  rewrite take_take, Nat.min_l, length_take by lia.
  case_bool_decide as Hmore.
  - destruct (last (take limit rows)) as [c|] eqn:El.
    + unfold mbind, result_bind; cbn [pg_hasMore pg_cursor pg_changes].
      pose proof (changesAfter_cursor after head limit c El) as Hd. fold rows in Hd.
      apply last_Some_elem_of, elem_of_take in El as (i & El%list_elem_of_lookup_2 & _).
      apply list_elem_of_filter in El as [(_ & Hlt & Hle) _].
      rewrite IH; [|split; [lia|intros o Ho; specialize (Hold o Ho); lia]|].
      * rewrite Hd. by rewrite take_drop.
      * rewrite Hd, length_drop. lia.
    + apply last_None, (f_equal length) in El. rewrite length_take in El. cbn in El. lia.
  - unfold mbind, result_bind; cbn [pg_hasMore pg_cursor pg_changes].
    rewrite take_ge by lia. do 2 f_equal. case_bool_decide; [done|]. lia.
Qed.
End Paging.

(** ** Pruning *)

Lemma filter_filter_all {A} (P Q : A -> Prop) `{forall x, Decision (P x)}
    `{forall x, Decision (Q x)} (l : list A) :
  (forall x, x ∈ l -> P x -> Q x) -> filter P (filter Q l) = filter P l.
Proof.
  induction l as [|x l IH]; intros Hpq; [done|]. rewrite !filter_cons.
  assert (IH' : filter P (filter Q l) = filter P l) by (apply IH; set_solver).
  destruct (decide (Q x)) as [Hq|Hq]; [rewrite filter_cons|];
    destruct (decide (P x)) as [Hp|Hp]; rewrite ?IH'; try done.
  exfalso. apply Hq, Hpq; [constructor|done].
Qed.

Lemma last_filter {A} (P : A -> Prop) `{forall x, Decision (P x)} (l : list A) x :
  last l = Some x -> P x -> last (filter P l) = Some x.
Proof.
  intros [l' ->]%last_Some Hp. rewrite filter_app, filter_cons_True by done.
  by rewrite filter_nil, last_snoc.
Qed.

(** Entries are stamped in the order of their numbers. *)
Definition stampedInOrder (db : DB) : Prop :=
  forall c c', c ∈ db_changes db -> c' ∈ db_changes db -> sc_seq c <= sc_seq c' ->
    sc_createdAt c <= sc_createdAt c'.

(** when entries are stamped in order, pruning is invisible to every cursor
    that is still accepted: the head stays, and what is left to read after the
    cursor is exactly what was left before. *)
Theorem prune_is_invisible_to_live_cursors now db ownerUserId after :
  feedOk db -> stampedInOrder db -> cursorOk (pruneStorageChanges now db).1 after ->
  currentStorageChangeCursor (pruneStorageChanges now db).1 = currentStorageChangeCursor db /\
  changesAfter ownerUserId after (currentStorageChangeCursor db) (pruneStorageChanges now db).1
  = changesAfter ownerUserId after (currentStorageChangeCursor db) db.
Proof.
  intros Hf Hst [_ Hold]. unfold pruneStorageChanges in *.
  destruct (newestSeq db) as [newest|] eqn:En; [|done].
  unfold newestSeq in En. destruct (last (db_changes db)) as [top|] eqn:Et; [|done].
  injection En as <-. cbn [fst] in *. set (cut := now - _) in *.
  assert (Hkeep : last (filter (fun c => ~ (sc_seq c < sc_seq top /\ sc_createdAt c < cut))
    (db_changes db)) = Some top) by (apply last_filter; [done|lia]).
  split; [unfold currentStorageChangeCursor, newestSeq; cbn; by rewrite Hkeep, Et|].
  unfold changesAfter. cbn [db_changes set_changes]. apply filter_filter_all.
  intros c Hc (_ & Hlt & _) [Htop Hcut]. unfold oldestSeq in Hold. cbn in Hold.
  destruct (filter _ (db_changes db)) as [|first rest] eqn:Ef; [done|].
  specialize (Hold (sc_seq first) eq_refl).
  assert (Hin : first ∈ filter (fun c => ~ (sc_seq c < sc_seq top /\ sc_createdAt c < cut))
    (db_changes db)) by (rewrite Ef; constructor).
  apply list_elem_of_filter in Hin as [Hn Hin].
  specialize (Hst first c Hin Hc). lia.
Qed.
