(* ===== verification/Journal.v ===== *)
(** * The life of a durable mutation

    [packages/db/src/storage-mutations.ts] from [claimStorageMutation] on:
    leases and fencing tokens, the steps' progress, the metadata commit, the
    finalization, and the ways out: success, retry, operator recovery, abort.
    [now] arguments are the [new Date()] of the call; a function that reads the
    clock twice takes two. *)

From Stdlib Require Import Ascii.
From Stdlib Require String.
From S2P Require Import Prelude Database MutationMetadata MutationPrepare StorageChanges.

Open Scope Z_scope.

Definition STORAGE_MUTATION_LEASE_MS : Z := 30000.
Definition STORAGE_MUTATION_RENEW_MS : Z := 10000.

(** [error.slice(0, 4_000)]. *)
Definition errorText (error : string) : string := sliceTo 4000 error.

(** ** Rows of a statement's WHERE *)

(** [column <= now]; a null column is not. *)
Definition dueBy (column : option Z) (now : Z) : bool :=
  match column with Some t => bool_decide (t <= now) | None => false end.
(** [column IS NULL OR column <= now]. *)
Definition nullOrDueBy (column : option Z) (now : Z) : bool :=
  match column with Some t => bool_decide (t <= now) | None => true end.
(** [column > now]. *)
Definition laterThan (column : option Z) (now : Z) : bool :=
  match column with Some t => bool_decide (now < t) | None => false end.

Definition statusIn (statuses : list StorageMutationStatus) (m : Mutation) : bool :=
  bool_decide (mu_status m ∈ statuses).

(** The lease of the row is this owner's, under this token. *)
Definition leasedBy (leaseOwner : string) (leaseToken : Z) (m : Mutation) : bool :=
  opt_is (ls_owner (mu_lease m)) leaseOwner
  && bool_decide (ls_token (mu_lease m) = leaseToken).

Definition mutationWhere (db : DB) (id : string) (condition : Mutation -> bool) :
    option Mutation :=
  match db_mutations db !! id with
  | Some m => if condition m then Some m else None
  | None => None
  end.

(** [updateMany({ where: { id, ... }, data })]: the number of rows. *)
Definition updateWhere (id : string) (condition : Mutation -> bool) (f : Mutation -> Mutation) :
    Tx nat :=
  row ← read (fun db => mutationWhere db id condition);
  match row with
  | Some m =>
      _ ← modify (fun db => set_mutations (<[id := f m]> (db_mutations db)) db);
      mret 1%nat
  | None => mret O
  end.

(** The same when the code throws a fence error unless one row changed. *)
Definition updateFenced (id : string) (condition : Mutation -> bool) (f : Mutation -> Mutation) :
    Tx unit :=
  count ← updateWhere id condition f;
  ensure (bool_decide (count = 1%nat)) StorageMutationFenceError.

Definition releaseResources (mutationId : string) (fenceToken : option Z) (now : Z) : Tx unit :=
  modify (fun db =>
    set_resources ((fun r =>
      if bool_decide (rs_mutationId r = mutationId) && bool_decide (rs_releasedAt r = None)
      then {| rs_resourceKey := rs_resourceKey r; rs_mutationId := rs_mutationId r;
              rs_fenceToken := default (rs_fenceToken r) fenceToken;
              rs_releasedAt := Some now |}
      else r) <$> db_resources db) db).

Definition fenceResources (mutationId : string) (fenceToken : Z) : Tx unit :=
  modify (fun db =>
    set_resources ((fun r =>
      if bool_decide (rs_mutationId r = mutationId) && bool_decide (rs_releasedAt r = None)
      then {| rs_resourceKey := rs_resourceKey r; rs_mutationId := rs_mutationId r;
              rs_fenceToken := fenceToken; rs_releasedAt := None |}
      else r) <$> db_resources db) db).

(** ** Claiming *)

(** The row after a claim: a new token, one more attempt. *)
Definition claimRow (status : StorageMutationStatus) (leaseOwner : string)
    (now leaseExpiresAt : Z) (m : Mutation) : Mutation :=
  mutate m status (mu_intentJson m) (mu_resultJson m) (mu_idempotencyKey m)
    (mu_reservedBytes m) (mu_metadataCommittedAt m) (mu_completedAt m)
    (mu_recoveryRequiredAt m)
    {| ls_owner := Some leaseOwner; ls_token := ls_token (mu_lease m) + 1;
       ls_expiresAt := Some leaseExpiresAt |}
    {| at_count := at_count (mu_attempts m) + 1; at_lastAttemptAt := Some now;
       at_nextAttemptAt := None; at_lastError := None |}.

Definition claimable (now : Z) (m : Mutation) : bool :=
  (statusIn [prepared; retrying] m
   && nullOrDueBy (at_nextAttemptAt (mu_attempts m)) now
   && nullOrDueBy (ls_expiresAt (mu_lease m)) now)
  || (statusIn [running] m && dueBy (ls_expiresAt (mu_lease m)) now).

(** The live resource with a key, as [findFirst] finds it. *)
Definition liveResource (db : DB) (resourceKey : string) : option Resource :=
  head (filter (fun r => rs_resourceKey r = resourceKey) (liveResources db)).

Definition ownedByOther (db : DB) (id resourceKey : string) : bool :=
  match liveResource db resourceKey with
  | Some r => negb (bool_decide (rs_mutationId r = id))
  | None => false
  end.

Fixpoint addMissingResources (id : string) (token : Z) (resourceKeys : list string) : Tx unit :=
  match resourceKeys with
  | [] => mret tt
  | key :: rest =>
      existing ← read (fun db => liveResource db key);
      _ ← match existing with
          | Some _ => mret tt
          | None => insertResources id token [key]
          end;
      addMissingResources id token rest
  end.

(** The claim's transaction: the new token, or [None]. *)
Definition claimTransaction (locks : Locks) (now leaseMs : Z) (id leaseOwner : string)
    (resources : list string) : Tx (option Z) :=
  taken ← match resources with
          | [] => mret false
          | _ =>
              _ ← acquireStorageMutationResources locks resources (Some id);
              read (fun db => existsb (ownedByOther db id) resources)
          end;
  if (taken : bool) then mret None
  else
    row ← read (fun db => mutationWhere db id (claimable now));
    match row with
    | None => mret None
    | Some m =>
        let token := ls_token (mu_lease m) + 1 in
        _ ← modify (fun db =>
              set_mutations (<[id := claimRow running leaseOwner now (now + leaseMs) m]>
                               (db_mutations db)) db);
        _ ← addMissingResources id token resources;
        _ ← fenceResources id token;
        mret (Some token)
    end.

(** The mutation as the claim's last read finds it, when it is still claimed. *)
Definition claimedBy (leaseOwner : string) (mutation : option Mutation) : option Mutation :=
  match mutation with
  | Some m =>
      if opt_is (ls_owner (mu_lease m)) leaseOwner
         && bool_decide (ls_expiresAt (mu_lease m) <> None)
      then Some m else None
  | None => None
  end.

(** [claimStorageMutation]: the transaction runs on [during]; what it returns
    is read from [later], the database some time after. *)
Definition claimStorageMutation (locks : Locks) (now leaseMs : Z) (id leaseOwner : string)
    (resourceKeys : list string) (during : DB) (later : DB -> DB) :
    result StorageError (option Mutation) * DB :=
  match runStorageTransaction
          (claimTransaction locks now leaseMs id leaseOwner (uniqueSorted resourceKeys))
          during with
  | Ok (Some _, db') => (Ok (claimedBy leaseOwner (db_mutations (later db') !! id)), later db')
  | Ok (None, db') => (Ok None, db')
  | Throw UniqueViolation => (Ok None, during)
  | Throw e => (Throw e, during)
  end.

(** ** The fence *)

Definition fencedStatuses : list StorageMutationStatus :=
  [running; metadata_committed; finalizing].

Definition mutationRowLock (id : string) : string := "row:StorageMutation:" +:+ id.

Definition fenceHolds (leaseOwner : string) (leaseToken now : Z) (m : Mutation) : bool :=
  leasedBy leaseOwner leaseToken m && laterThan (ls_expiresAt (mu_lease m)) now
  && statusIn fencedStatuses m.

(** [SELECT ... FOR UPDATE NOWAIT]. *)
Definition assertFence (locks : Locks) (now : Z) (mutationId leaseOwner : string)
    (leaseToken : Z) : Tx unit :=
  row ← read (fun db => mutationWhere db mutationId (fenceHolds leaseOwner leaseToken now));
  _ ← ensure (bool_decide (row <> None)) StorageMutationFenceError;
  ensure (negb (bool_decide (mutationRowLock mutationId ∈ locks))) LockNotAvailable.

Definition set_lease (lease : Lease) (m : Mutation) : Mutation :=
  mutate m (mu_status m) (mu_intentJson m) (mu_resultJson m) (mu_idempotencyKey m)
    (mu_reservedBytes m) (mu_metadataCommittedAt m) (mu_completedAt m)
    (mu_recoveryRequiredAt m) lease (mu_attempts m).

Definition renewStorageMutationLease (now leaseMs : Z) (id leaseOwner : string)
    (leaseToken : Z) : Tx unit :=
  updateFenced id (fenceHolds leaseOwner leaseToken now)
    (fun m => set_lease {| ls_owner := ls_owner (mu_lease m);
                           ls_token := ls_token (mu_lease m);
                           ls_expiresAt := Some (now + leaseMs) |} m).

(** ** Steps *)

Definition set_steps (steps : list Step) (m : Mutation) : Mutation :=
  {| mu_parentId := mu_parentId m; mu_kind := mu_kind m; mu_ownerUserId := mu_ownerUserId m;
     mu_requestHash := mu_requestHash m; mu_originDeviceId := mu_originDeviceId m;
     mu_idempotencyKey := mu_idempotencyKey m; mu_status := mu_status m;
     mu_intentJson := mu_intentJson m; mu_resultJson := mu_resultJson m;
     mu_reservedBytes := mu_reservedBytes m;
     mu_metadataCommittedAt := mu_metadataCommittedAt m;
     mu_completedAt := mu_completedAt m; mu_recoveryRequiredAt := mu_recoveryRequiredAt m;
     mu_lease := mu_lease m; mu_attempts := mu_attempts m; mu_steps := steps;
     mu_entities := mu_entities m |}.

(** An update of one step, found by its id; a missing one throws. *)
Definition updateStep (mutationId stepId : string) (f : Step -> Step) : Tx unit :=
  row ← read (fun db => db_mutations db !! mutationId);
  match row with
  | Some m =>
      _ ← ensure (existsb (fun s => bool_decide (sp_id s = stepId)) (mu_steps m)) RecordNotFound;
      updateMutation mutationId (fun m =>
        set_steps ((fun s => if bool_decide (sp_id s = stepId) then f s else s)
                   <$> mu_steps m) m)
  | None => throw RecordNotFound
  end.

Definition markStorageMutationStepApplied (locks : Locks) (now appliedAt : Z)
    (mutationId stepId leaseOwner : string) (leaseToken : Z) : Tx unit :=
  runStorageTransaction (
    _ ← assertFence locks now mutationId leaseOwner leaseToken;
    updateStep mutationId stepId (fun s =>
      {| sp_id := sp_id s; sp_input := sp_input s; sp_status := step_applied;
         sp_attemptCount := sp_attemptCount s + 1; sp_appliedAt := Some appliedAt;
         sp_lastError := None |})).

Definition markStorageMutationStepFailed (locks : Locks) (now : Z)
    (mutationId stepId leaseOwner : string) (leaseToken : Z) (error : string) : Tx unit :=
  runStorageTransaction (
    _ ← assertFence locks now mutationId leaseOwner leaseToken;
    updateStep mutationId stepId (fun s =>
      {| sp_id := sp_id s; sp_input := sp_input s; sp_status := sp_status s;
         sp_attemptCount := sp_attemptCount s + 1; sp_appliedAt := sp_appliedAt s;
         sp_lastError := Some (errorText error) |})).

(** ** The metadata commit *)

Definition clearReservation (m : Mutation) : Mutation :=
  mutate m (mu_status m) (mu_intentJson m) (mu_resultJson m) (mu_idempotencyKey m) None
    (mu_metadataCommittedAt m) (mu_completedAt m) (mu_recoveryRequiredAt m)
    (mu_lease m) (mu_attempts m).

Definition commitRow (now : Z) (durableResult : option Json) (m : Mutation) : Mutation :=
  mutate m metadata_committed (mu_intentJson m)
    (match durableResult with Some r => Some r | None => mu_resultJson m end)
    (mu_idempotencyKey m) (mu_reservedBytes m) (Some now) (mu_completedAt m)
    (mu_recoveryRequiredAt m) (mu_lease m) (mu_attempts m).

(** The reservation is released, the callback writes the metadata, the changes
    are appended, and the mutation is committed, in one transaction. *)
Definition commitStorageMutationMetadata {T} (locks : Locks) (fenceNow now : Z)
    (mutationId ownerUserId leaseOwner : string) (leaseToken : Z) (callback : Tx T)
    (resultJson : T -> option Json) : Tx T :=
  runStorageTransaction (
    _ ← assertFence locks fenceNow mutationId leaseOwner leaseToken;
    _ ← updateWhere mutationId (fun m => bool_decide (mu_reservedBytes m <> None))
          clearReservation;
    before ← read (readStorageItemSnapshot mutationId);
    result ← callback;
    _ ← appendStorageChanges locks now mutationId ownerUserId before;
    _ ← updateFenced mutationId
          (fun m => leasedBy leaseOwner leaseToken m && statusIn [running] m
                    && laterThan (ls_expiresAt (mu_lease m)) now)
          (commitRow now (resultJson result));
    mret result).

(** ** Finalization *)

Definition beginStorageMutationFinalization (locks : Locks) (now fenceNow : Z)
    (mutationId leaseOwner : string) (leaseToken : Z) : Tx unit :=
  runStorageTransaction (
    _ ← assertFence locks fenceNow mutationId leaseOwner leaseToken;
    _ ← updateFenced mutationId
          (fun m => leasedBy leaseOwner leaseToken m && statusIn [metadata_committed] m
                    && laterThan (ls_expiresAt (mu_lease m)) now)
          (set_status finalizing);
    releaseResources mutationId None now).

Definition finalizable (now : Z) (m : Mutation) : bool :=
  statusIn [metadata_committed; finalizing] m
  && nullOrDueBy (at_nextAttemptAt (mu_attempts m)) now
  && nullOrDueBy (ls_expiresAt (mu_lease m)) now.

(** The first statement of [claimStorageMutationFinalization]: the token. *)
Definition claimFinalizationRow (now leaseMs : Z) (id leaseOwner : string) : Tx (option Z) :=
  row ← read (fun db => mutationWhere db id (finalizable now));
  match row with
  | None => mret None
  | Some m =>
      _ ← modify (fun db =>
            set_mutations (<[id := claimRow finalizing leaseOwner now (now + leaseMs) m]>
                             (db_mutations db)) db);
      mret (Some (ls_token (mu_lease m) + 1))
  end.

(** The statements run one after the other, outside a transaction: [between]
    is what others do between the first two. *)
Definition claimStorageMutationFinalization (now leaseMs : Z) (id leaseOwner : string)
    (db : DB) (between later : DB -> DB) : result StorageError (option Mutation) * DB :=
  match claimFinalizationRow now leaseMs id leaseOwner db with
  | Ok (Some token, db1) =>
      match releaseResources id (Some token) now (between db1) with
      | Ok (_, db2) => (Ok (claimedBy leaseOwner (db_mutations (later db2) !! id)), later db2)
      | Throw e => (Throw e, between db1)
      end
  | Ok (None, db1) => (Ok None, db1)
  | Throw e => (Throw e, db)
  end.

(** ** The ways out *)

Definition freeLease (m : Mutation) : Lease :=
  {| ls_owner := None; ls_token := ls_token (mu_lease m); ls_expiresAt := None |}.

Definition withError (error : option string) (nextAttemptAt : option Z) (m : Mutation) :
    Attempts :=
  {| at_count := at_count (mu_attempts m);
     at_lastAttemptAt := at_lastAttemptAt (mu_attempts m);
     at_nextAttemptAt := nextAttemptAt; at_lastError := error |}.

Definition completeRow (resultJson : option Json) (completedAt : Z) (m : Mutation) : Mutation :=
  mutate m succeeded intent_redacted
    (match resultJson with Some r => Some r | None => mu_resultJson m end)
    (mu_idempotencyKey m) (mu_reservedBytes m) (mu_metadataCommittedAt m) (Some completedAt)
    (mu_recoveryRequiredAt m) (freeLease m)
    (withError None (at_nextAttemptAt (mu_attempts m)) m).

Definition redactStep (s : Step) : Step :=
  {| sp_id := sp_id s;
     sp_input := {| in_action := in_action (sp_input s); in_sourceKey := None;
                    in_targetKey := None;
                    in_expectedNodeType := in_expectedNodeType (sp_input s);
                    in_expectedSizeBytes := None; in_expectedChecksum := None;
                    in_treeManifestDigest := None |};
     sp_status := sp_status s; sp_attemptCount := sp_attemptCount s;
     sp_appliedAt := sp_appliedAt s; sp_lastError := sp_lastError s |}.

Definition redactEntity (e : StorageMutationEntityInput) : StorageMutationEntityInput :=
  {| en_entityType := en_entityType e; en_entityId := en_entityId e;
     en_preRevision := en_preRevision e; en_postRevision := en_postRevision e;
     en_beforeJson := Some JNull; en_afterJson := Some JNull |}.

Definition redactMutation (m : Mutation) : Mutation :=
  {| mu_parentId := mu_parentId m; mu_kind := mu_kind m; mu_ownerUserId := mu_ownerUserId m;
     mu_requestHash := mu_requestHash m; mu_originDeviceId := mu_originDeviceId m;
     mu_idempotencyKey := mu_idempotencyKey m; mu_status := mu_status m;
     mu_intentJson := mu_intentJson m; mu_resultJson := mu_resultJson m;
     mu_reservedBytes := mu_reservedBytes m;
     mu_metadataCommittedAt := mu_metadataCommittedAt m;
     mu_completedAt := mu_completedAt m; mu_recoveryRequiredAt := mu_recoveryRequiredAt m;
     mu_lease := mu_lease m; mu_attempts := mu_attempts m;
     mu_steps := redactStep <$> mu_steps m;
     mu_entities := redactEntity <$> mu_entities m |}.

Definition completeStorageMutation (locks : Locks) (fenceNow completedAt : Z)
    (mutationId leaseOwner : string) (leaseToken : Z) (resultJson : option Json) : Tx unit :=
  runStorageTransaction (
    _ ← assertFence locks fenceNow mutationId leaseOwner leaseToken;
    _ ← updateFenced mutationId
          (fun m => leasedBy leaseOwner leaseToken m
                    && laterThan (ls_expiresAt (mu_lease m)) completedAt)
          (completeRow resultJson completedAt);
    _ ← updateMutation mutationId redactMutation;
    releaseResources mutationId None completedAt).

(** A mutation whose metadata is committed is only ever rolled forward. *)
Definition retryStatusForMutation (mutation : option Mutation) : StorageMutationStatus :=
  match mutation with
  | Some m =>
      if bool_decide (mu_metadataCommittedAt m <> None) then finalizing
      else if statusIn [metadata_committed; finalizing] m then finalizing else retrying
  | None => retrying
  end.

(** [2 ** Math.min(attemptCount ?? 0, 10) * 1_000]. *)
Definition retryDelayMs (mutation : option Mutation) : Z :=
  let attemptCount := match mutation with Some m => at_count (mu_attempts m) | None => 0 end in
  2 ^ Z.min attemptCount 10 * 1000.

Definition retryRow (status : StorageMutationStatus) (nextAttemptAt : Z) (error : string)
    (m : Mutation) : Mutation :=
  mutate m status (mu_intentJson m) (mu_resultJson m) (mu_idempotencyKey m)
    (mu_reservedBytes m) (mu_metadataCommittedAt m) (mu_completedAt m)
    (mu_recoveryRequiredAt m) (freeLease m)
    (withError (Some (errorText error)) (Some nextAttemptAt) m).

(** The read and the update are two statements; nothing comes between them here:
    whoever could change the row the fence admits would hold the same lease. *)
Definition retryStorageMutation (now : Z) (mutationId leaseOwner : string) (leaseToken : Z)
    (error : string) : Tx unit :=
  mutation ← read (fun db => db_mutations db !! mutationId);
  updateFenced mutationId
    (fun m => leasedBy leaseOwner leaseToken m && laterThan (ls_expiresAt (mu_lease m)) now)
    (retryRow (retryStatusForMutation mutation) (now + retryDelayMs mutation) error).

Definition recoveryRow (now : Z) (error : string) (m : Mutation) : Mutation :=
  mutate m recovery_required (mu_intentJson m) (mu_resultJson m) (mu_idempotencyKey m)
    (mu_reservedBytes m) (mu_metadataCommittedAt m) (mu_completedAt m) (Some now)
    (freeLease m) (withError (Some (errorText error)) None m).

Definition requireStorageMutationRecovery (now : Z) (mutationId leaseOwner : string)
    (leaseToken : Z) (error : string) : Tx unit :=
  updateFenced mutationId
    (fun m => leasedBy leaseOwner leaseToken m && laterThan (ls_expiresAt (mu_lease m)) now)
    (recoveryRow now error).

Definition rejectionCodeName (code : StorageMutationRejectionCode) : string :=
  match code with
  | USER_STORAGE_QUOTA_EXCEEDED => "USER_STORAGE_QUOTA_EXCEEDED"
  | STORAGE_PATH_TOO_LONG => "STORAGE_PATH_TOO_LONG"
  | STORAGE_MUTATION_ABORTED => "STORAGE_MUTATION_ABORTED"
  end.

Definition abortRow (rejection : StorageMutationRejectionCode) (abortedAt : Z)
    (error : string) (m : Mutation) : Mutation :=
  mutate m aborted (mu_intentJson m)
    (Some (JObject [("abortedCode", JString (rejectionCodeName rejection))])) None None
    (mu_metadataCommittedAt m) (Some abortedAt) (mu_recoveryRequiredAt m) (freeLease m)
    (withError (Some (errorText error)) None m).

Definition failLinkedSessions (mutationId : string) (abortedAt : Z) : Tx unit :=
  modify (fun db =>
    set_sessions ((fun session =>
      if bool_decide (se_storageMutationId session = Some mutationId)
      then linkSession session None ss_failed (Some abortedAt) else session)
      <$> db_sessions db) db).

Definition abortStorageMutation (locks : Locks) (fenceNow abortedAt : Z)
    (mutationId leaseOwner : string) (leaseToken : Z)
    (rejection : StorageMutationRejectionCode) (error : string) : Tx unit :=
  runStorageTransaction (
    _ ← assertFence locks fenceNow mutationId leaseOwner leaseToken;
    _ ← updateFenced mutationId
          (fun m => leasedBy leaseOwner leaseToken m && statusIn [running] m
                    && bool_decide (mu_metadataCommittedAt m = None))
          (abortRow rejection abortedAt error);
    _ ← releaseResources mutationId None abortedAt;
    failLinkedSessions mutationId abortedAt).

(** [storageMutationRejectionFromResult]. *)
Definition storageMutationRejectionFromResult (resultJson : option Json) :
    StorageMutationRejectionCode :=
  match resultJson with
  | Some (JObject fields) =>
      match mapGet "abortedCode" fields with
      | Some (JString "USER_STORAGE_QUOTA_EXCEEDED") => USER_STORAGE_QUOTA_EXCEEDED
      | Some (JString "STORAGE_PATH_TOO_LONG") => STORAGE_PATH_TOO_LONG
      | _ => STORAGE_MUTATION_ABORTED
      end
  | _ => STORAGE_MUTATION_ABORTED
  end.

(** ** Parents and their children *)

Definition childrenOf (resultJson : option Json) : list Json :=
  match resultJson with
  | Some (JObject fields) =>
      match mapGet "children" fields with Some (JArray children) => children | _ => [] end
  | _ => []
  end.

Definition childOrdinal (child : Json) : option Z :=
  match child with
  | JObject fields =>
      match mapGet "ordinal" fields with Some (JNumber n) => Some n | _ => None end
  | _ => None
  end.

(** [next.sort((left, right) => (left.ordinal ?? 0) - (right.ordinal ?? 0))]. *)
Fixpoint insertChild (child : Json) (children : list Json) : list Json :=
  match children with
  | [] => [child]
  | other :: rest =>
      if bool_decide (default 0 (childOrdinal child) <= default 0 (childOrdinal other))
      then child :: other :: rest else other :: insertChild child rest
  end.
Definition sortChildren (children : list Json) : list Json := foldr insertChild [] children.

Definition nextChildren (children : list Json) (ordinal : Z) (childId : option string)
    (result : Json) : list Json :=
  sortChildren
    (filter (fun child => childOrdinal child <> Some ordinal) children
     ++ [JObject [("ordinal", JNumber ordinal);
                  ("childId", match childId with Some id => JString id | None => JNull end);
                  ("result", result)]]).

Definition set_result (resultJson : option Json) (m : Mutation) : Mutation :=
  mutate m (mu_status m) (mu_intentJson m) resultJson (mu_idempotencyKey m)
    (mu_reservedBytes m) (mu_metadataCommittedAt m) (mu_completedAt m)
    (mu_recoveryRequiredAt m) (mu_lease m) (mu_attempts m).

Definition recordStorageMutationParentChild (locks : Locks) (now : Z) (parentId : string)
    (childId : option string) (ordinal : Z) (result : Json) (leaseOwner : string)
    (leaseToken : Z) : Tx unit :=
  runStorageTransaction (
    _ ← assertFence locks now parentId leaseOwner leaseToken;
    row ← read (fun db => db_mutations db !! parentId);
    match row with
    | None => throw RecordNotFound
    | Some parent =>
        if bool_decide (mu_status parent = succeeded) then mret tt
        else
          updateMutation parentId
            (set_result (Some (JObject [("children",
               JArray (nextChildren (childrenOf (mu_resultJson parent)) ordinal childId
                         result))])))
    end).

(** The children stay beside the public summary. *)
Definition parentResult (children : list Json) (resultJson : Json) : Json :=
  match resultJson with
  | JObject fields => JObject (mapSet "children" (JArray children) fields)
  | JNull => JObject [("children", JArray children)]
  | other => JObject [("result", other); ("children", JArray children)]
  end.

(** The read comes before the transaction; nothing comes between them here. *)
Definition completeStorageMutationParent (locks : Locks) (fenceNow completedAt : Z)
    (parentId : string) (resultJson : Json) (leaseOwner : string) (leaseToken : Z) : Tx unit :=
  row ← read (fun db => db_mutations db !! parentId);
  completeStorageMutation locks fenceNow completedAt parentId leaseOwner leaseToken
    (Some (parentResult (childrenOf (row ≫= mu_resultJson)) resultJson)).

(** ** Maintenance *)

Definition recoverable (now : Z) (m : Mutation) : bool :=
  statusIn [prepared; metadata_committed; finalizing] m
  || (statusIn [retrying] m && dueBy (at_nextAttemptAt (mu_attempts m)) now)
  || (statusIn [running] m && dueBy (ls_expiresAt (mu_lease m)) now).

Definition retryStorageMutationNow (now : Z) (mutationId : string) : Tx bool :=
  count ← updateWhere mutationId
    (fun m => statusIn [retrying; finalizing] m && bool_decide (ls_owner (mu_lease m) = None))
    (fun m => mutate m (mu_status m) (mu_intentJson m) (mu_resultJson m)
       (mu_idempotencyKey m) (mu_reservedBytes m) (mu_metadataCommittedAt m)
       (mu_completedAt m) (mu_recoveryRequiredAt m) (mu_lease m)
       (withError None (Some now) m));
  mret (bool_decide (count = 1%nat)).

Definition prunable (db : DB) (before : Z) (m : Mutation) : bool :=
  statusIn [succeeded] m
  && match mu_completedAt m with Some t => bool_decide (t < before) | None => false end
  && match mu_parentId m with
     | None => true
     | Some parentId =>
         match db_mutations db !! parentId with
         | Some parent => statusIn [succeeded] parent
         | None => false
         end
     end.

Definition pruneSucceededStorageMutationResults (before : Z) : Tx nat :=
  pruned ← read (fun db => filter (fun e : string * Mutation => prunable db before e.2 = true)
                             (mutationList db));
  _ ← modify (fun db =>
        set_mutations ((fun m => if prunable db before m then set_result (Some JNull) m else m)
                       <$> db_mutations db) db);
  mret (length pruned).
