(* ===== verification/JournalSteps.v ===== *)
(** * The journal as a state machine

    Every call that changes the journal, by any worker with any arguments, is a
    step of [journal_step]. What a step may do to one mutation is the abstract
    life of a mutation, [moves]; the refinement lemma [step_moves] says the
    code's statements do nothing else. The invariants of a row follow from the
    abstract life alone.

    Then what each call writes, a lemma per call: the row it found, the condition
    it checked, and the mutations and resources it left. *)

From S2P Require Import Prelude Database MutationMetadata MutationPrepare StorageChanges Journal.

Open Scope Z_scope.

(** ** The abstract life of a mutation *)

(** What the abstract machine sees of a row. *)
Definition sameCore (m m' : Mutation) : Prop :=
  mu_status m' = mu_status m /\ mu_metadataCommittedAt m' = mu_metadataCommittedAt m /\
  ls_token (mu_lease m') = ls_token (mu_lease m) /\
  ls_owner (mu_lease m') = ls_owner (mu_lease m).

Definition released (m m' : Mutation) : Prop :=
  mu_metadataCommittedAt m' = mu_metadataCommittedAt m /\
  ls_token (mu_lease m') = ls_token (mu_lease m) /\ ls_owner (mu_lease m') = None.

Definition claimed (m m' : Mutation) : Prop :=
  mu_metadataCommittedAt m' = mu_metadataCommittedAt m /\
  ls_token (mu_lease m') = ls_token (mu_lease m) + 1 /\ ls_owner (mu_lease m') <> None.

Definition leased (m : Mutation) : Prop := ls_owner (mu_lease m) <> None.

Variant moves (m m' : Mutation) : Prop :=
| mv_keep : sameCore m m' -> moves m m'
| mv_claim :
    mu_status m ∈ [prepared; retrying; running] -> mu_status m' = running ->
    claimed m m' -> moves m m'
| mv_claim_finalization :
    mu_status m ∈ [metadata_committed; finalizing] -> mu_status m' = finalizing ->
    claimed m m' -> moves m m'
| mv_commit now :
    mu_status m = running -> leased m -> mu_status m' = metadata_committed ->
    mu_metadataCommittedAt m' = Some now ->
    ls_token (mu_lease m') = ls_token (mu_lease m) ->
    ls_owner (mu_lease m') = ls_owner (mu_lease m) -> moves m m'
| mv_begin_finalization :
    mu_status m = metadata_committed -> mu_status m' = finalizing ->
    mu_metadataCommittedAt m' = mu_metadataCommittedAt m ->
    ls_token (mu_lease m') = ls_token (mu_lease m) ->
    ls_owner (mu_lease m') = ls_owner (mu_lease m) -> moves m m'
| mv_complete :
    leased m -> mu_status m ∈ fencedStatuses -> mu_status m' = succeeded ->
    released m m' -> moves m m'
| mv_retry :
    leased m -> mu_status m' = retryStatusForMutation (Some m) -> released m m' -> moves m m'
| mv_recover :
    leased m -> mu_status m' = recovery_required -> released m m' -> moves m m'
| mv_abort :
    leased m -> mu_status m = running -> mu_metadataCommittedAt m = None ->
    mu_status m' = aborted -> released m m' -> moves m m'.

(** A mutation as [prepareStorageMutation] leaves it. *)
Definition fresh (m : Mutation) : Prop :=
  mu_status m = prepared /\ mu_metadataCommittedAt m = None /\
  ls_token (mu_lease m) = 0 /\ ls_owner (mu_lease m) = None.

(** ** The steps *)

(** The metadata callback of a commit writes no journal row. *)
Definition keepsJournal {T} (callback : Tx T) : Prop :=
  forall db x db', callback db = Ok (x, db') ->
    db_mutations db' = db_mutations db /\ db_resources db' = db_resources db.

Inductive journal_step (db db' : DB) : Prop :=
| st_prepare locks now input id resourceKeys m :
    id <> "" ->
    prepareStorageMutationTransaction locks now input id resourceKeys db = Ok (m, db') ->
    journal_step db db'
| st_claim locks now leaseMs id leaseOwner resources token :
    id <> "" ->
    claimTransaction locks now leaseMs id leaseOwner resources db = Ok (token, db') ->
    journal_step db db'
| st_renew now leaseMs id leaseOwner leaseToken :
    renewStorageMutationLease now leaseMs id leaseOwner leaseToken db = Ok (tt, db') ->
    journal_step db db'
| st_step_applied locks now appliedAt id stepId leaseOwner leaseToken :
    markStorageMutationStepApplied locks now appliedAt id stepId leaseOwner leaseToken db
      = Ok (tt, db') -> journal_step db db'
| st_step_failed locks now id stepId leaseOwner leaseToken error :
    markStorageMutationStepFailed locks now id stepId leaseOwner leaseToken error db
      = Ok (tt, db') -> journal_step db db'
| st_commit T locks fenceNow now id ownerUserId leaseOwner leaseToken (callback : Tx T)
    resultJson x :
    keepsJournal callback ->
    commitStorageMutationMetadata locks fenceNow now id ownerUserId leaseOwner leaseToken
      callback resultJson db = Ok (x, db') -> journal_step db db'
| st_begin_finalization locks now fenceNow id leaseOwner leaseToken :
    beginStorageMutationFinalization locks now fenceNow id leaseOwner leaseToken db
      = Ok (tt, db') -> journal_step db db'
| st_claim_finalization now leaseMs id leaseOwner token :
    claimFinalizationRow now leaseMs id leaseOwner db = Ok (token, db') -> journal_step db db'
| st_release_finalization now id token m :
    db_mutations db !! id = Some m -> mu_metadataCommittedAt m <> None ->
    releaseResources id (Some token) now db = Ok (tt, db') -> journal_step db db'
| st_complete locks fenceNow completedAt id leaseOwner leaseToken resultJson :
    completeStorageMutation locks fenceNow completedAt id leaseOwner leaseToken resultJson db
      = Ok (tt, db') -> journal_step db db'
| st_retry now id leaseOwner leaseToken error :
    retryStorageMutation now id leaseOwner leaseToken error db = Ok (tt, db') ->
    journal_step db db'
| st_recover now id leaseOwner leaseToken error :
    requireStorageMutationRecovery now id leaseOwner leaseToken error db = Ok (tt, db') ->
    journal_step db db'
| st_abort locks fenceNow abortedAt id leaseOwner leaseToken rejection error :
    abortStorageMutation locks fenceNow abortedAt id leaseOwner leaseToken rejection error db
      = Ok (tt, db') -> journal_step db db'
| st_record_child locks now parentId childId ordinal result leaseOwner leaseToken :
    recordStorageMutationParentChild locks now parentId childId ordinal result leaseOwner
      leaseToken db = Ok (tt, db') -> journal_step db db'
| st_retry_now now id b :
    retryStorageMutationNow now id db = Ok (b, db') -> journal_step db db'
| st_prune before n :
    pruneSucceededStorageMutationResults before db = Ok (n, db') -> journal_step db db'
| st_elsewhere :
    db_mutations db' = db_mutations db -> db_resources db' = db_resources db ->
    journal_step db db'.

(** ** What a statement does to the rows *)

(** Every row keeps to the abstract life; new rows are fresh. *)
Definition rowsMove (db db' : DB) : Prop :=
  forall id, match db_mutations db !! id, db_mutations db' !! id with
             | Some m, Some m' => moves m m'
             | None, Some m' => fresh m'
             | Some _, None => False
             | None, None => True
             end.

Lemma moves_refl m : moves m m.
Proof. by apply mv_keep. Qed.

Lemma rowsMove_same db db' : db_mutations db' = db_mutations db -> rowsMove db db'.
Proof.
  intros E id. rewrite E. destruct (_ !! id); [apply moves_refl|done].
Qed.

(** The common shape: one row is written, and keeps to the abstract life. *)
Lemma rowsMove_insert db db' id m m' :
  db_mutations db !! id = Some m -> db_mutations db' = <[id := m']> (db_mutations db) ->
  moves m m' -> rowsMove db db'.
Proof.
  intros Hm E Hmv id'. rewrite E. destruct (decide (id = id')) as [<-|Hne].
  - by rewrite Hm, lookup_insert_eq.
  - rewrite lookup_insert_ne by done. destruct (_ !! id'); [apply moves_refl|done].
Qed.

Lemma rowsMove_fmap db db' (f : Mutation -> Mutation) :
  db_mutations db' = f <$> db_mutations db -> (forall m, moves m (f m)) -> rowsMove db db'.
Proof.
  intros E Hf id. rewrite E, lookup_fmap. by destruct (_ !! id); cbn.
Qed.

(** ** The statements *)

Lemma updateWhere_ok id condition f db n db' :
  updateWhere id condition f db = Ok (n, db') ->
  (n = 1%nat /\ exists m, db_mutations db !! id = Some m /\ condition m = true /\
     db' = set_mutations (<[id := f m]> (db_mutations db)) db) \/ (n = O /\ db' = db).
Proof.
  intros H. unfold updateWhere in H. tx_inv H. unfold mutationWhere in H.
  destruct (db_mutations db !! id) as [m|] eqn:Em; [|tx_inv H; by right].
  destruct (condition m) eqn:Ec; tx_inv H; [left|by right].
  split; [done|]. subst. eauto.
Qed.

Lemma updateFenced_ok id condition f db u db' :
  updateFenced id condition f db = Ok (u, db') <->
  exists m, db_mutations db !! id = Some m /\ condition m = true /\
    db' = set_mutations (<[id := f m]> (db_mutations db)) db.
Proof.
  split.
  - intros H. unfold updateFenced in H. tx_inv H.
    apply updateWhere_ok in Htx as [[-> ?]|[-> ->]]; [done|].
    by apply bool_decide_eq_true_1 in H.
  - intros (m & Hm & Hc & ->). destruct u. unfold updateFenced, updateWhere, mutationWhere.
    unfold mbind, Tx_bind, read, modify, mret, Tx_ret. by rewrite Hm, Hc.
Qed.

Lemma assertFence_ok locks now id leaseOwner leaseToken db u db' :
  assertFence locks now id leaseOwner leaseToken db = Ok (u, db') ->
  db' = db /\ exists m, db_mutations db !! id = Some m /\
    fenceHolds leaseOwner leaseToken now m = true.
Proof.
  intros H. unfold assertFence in H. tx_inv H. split; [done|].
  match goal with H : bool_decide (mutationWhere _ _ _ <> None) = true |- _ =>
    apply bool_decide_eq_true_1 in H; unfold mutationWhere in H end.
  destruct (db_mutations db !! id) as [m|]; [|done].
  destruct (fenceHolds leaseOwner leaseToken now m) eqn:Ef; [|done]. eauto.
Qed.

Lemma leasedBy_leased leaseOwner leaseToken m : leasedBy leaseOwner leaseToken m = true -> leased m.
Proof. unfold leasedBy, leased. intros [H%opt_is_true _]%andb_true_iff. by rewrite H. Qed.

Lemma leasedBy_token leaseOwner leaseToken m :
  leasedBy leaseOwner leaseToken m = true -> ls_token (mu_lease m) = leaseToken.
Proof. unfold leasedBy. intros [_ H%bool_decide_eq_true_1]%andb_true_iff. done. Qed.

Lemma statusIn_true statuses m : statusIn statuses m = true <-> mu_status m ∈ statuses.
Proof. unfold statusIn. by rewrite bool_decide_eq_true. Qed.

(** ** Resources *)

Lemma elem_of_live r db :
  r ∈ liveResources db <-> r ∈ db_resources db /\ rs_releasedAt r = None.
Proof. unfold liveResources. rewrite list_elem_of_filter. tauto. Qed.

Lemma resourceKeyLive_true db key :
  resourceKeyLive db key = true <-> exists r, r ∈ liveResources db /\ rs_resourceKey r = key.
Proof.
  unfold resourceKeyLive. rewrite existsb_exists. split.
  - intros (r & Hr%list_elem_of_In & Hk%bool_decide_eq_true_1). eauto.
  - intros (r & Hr & Hk). exists r. split; [by apply list_elem_of_In|].
    by apply bool_decide_eq_true_2.
Qed.

Lemma resourceKeyLive_false db key :
  resourceKeyLive db key = false <-> forall r, r ∈ liveResources db -> rs_resourceKey r <> key.
Proof.
  rewrite <- not_true_iff_false, resourceKeyLive_true. naive_solver.
Qed.

Lemma elem_of_newResources r id token keys :
  r ∈ newResources id token keys <->
  exists key, key ∈ keys /\ r = {| rs_resourceKey := key; rs_mutationId := id;
                                  rs_fenceToken := token; rs_releasedAt := None |}.
Proof. unfold newResources. rewrite list_elem_of_fmap. naive_solver. Qed.

Lemma elem_of_live_app r new db :
  r ∈ liveResources (set_resources (db_resources db ++ new) db) <->
  r ∈ liveResources db \/ (r ∈ new /\ rs_releasedAt r = None).
Proof. rewrite !elem_of_live. cbn. rewrite elem_of_app. tauto. Qed.

Definition releaseOne (mutationId : string) (fenceToken : option Z) (now : Z) (r : Resource) :
    Resource :=
  if bool_decide (rs_mutationId r = mutationId) && bool_decide (rs_releasedAt r = None)
  then {| rs_resourceKey := rs_resourceKey r; rs_mutationId := rs_mutationId r;
          rs_fenceToken := default (rs_fenceToken r) fenceToken;
          rs_releasedAt := Some now |}
  else r.

Definition fenceOne (mutationId : string) (fenceToken : Z) (r : Resource) : Resource :=
  if bool_decide (rs_mutationId r = mutationId) && bool_decide (rs_releasedAt r = None)
  then {| rs_resourceKey := rs_resourceKey r; rs_mutationId := rs_mutationId r;
          rs_fenceToken := fenceToken; rs_releasedAt := None |}
  else r.

Lemma releaseResources_ok id token now db u db' :
  releaseResources id token now db = Ok (u, db') <->
  db' = set_resources (releaseOne id token now <$> db_resources db) db.
Proof. unfold releaseResources. rewrite modify_ok. done. Qed.

Lemma fenceResources_ok id token db u db' :
  fenceResources id token db = Ok (u, db') <->
  db' = set_resources (fenceOne id token <$> db_resources db) db.
Proof. unfold fenceResources. rewrite modify_ok. done. Qed.

Lemma insertResources_ok id token keys db u db' :
  insertResources id token keys db = Ok (u, db') ->
  (forall key, key ∈ keys -> resourceKeyLive db key = false) /\ NoDup keys /\
  db' = set_resources (db_resources db ++ newResources id token keys) db.
Proof.
  intros H. unfold insertResources in H. tx_inv H.
  match goal with H : _ && _ = true |- _ => apply andb_true_iff in H as [Hf Hn] end.
  apply bool_decide_eq_true_1 in Hn. split; [|done].
  intros key Hk. rewrite forallb_forall in Hf.
  apply negb_true_iff, Hf. by apply list_elem_of_In.
Qed.

Lemma addMissingResources_ok id token keys db u db' :
  addMissingResources id token keys db = Ok (u, db') ->
  exists added, db' = set_resources (db_resources db ++ newResources id token added) db /\
    added ⊆ keys /\
    (forall key, key ∈ added -> resourceKeyLive db key = false) /\ NoDup added.
Proof.
  revert db. induction keys as [|key keys IH]; intros db H; cbn [addMissingResources] in H.
  - tx_inv H. exists []. cbn. rewrite app_nil_r. split; [by destruct db|].
    split; [done|]. split; [set_solver|constructor].
  - tx_inv H. destruct (liveResource db key) as [r|] eqn:Er.
    + tx_inv Htx. apply IH in H as (added & -> & Hs & Hf & Hn).
      exists added. split; [done|]. split; [set_solver|done].
    + apply insertResources_ok in Htx as (Hfree & _ & ->).
      apply IH in H as (added & -> & Hs & Hf & Hn). exists (key :: added).
      assert (Hold : forall k, k ∈ added -> resourceKeyLive db k = false /\ k <> key).
      { intros k Hk%Hf. rewrite resourceKeyLive_false in Hk. split.
        - apply resourceKeyLive_false. intros r Hr. apply Hk, elem_of_live_app. by left.
        - intros ->. apply (Hk {| rs_resourceKey := key; rs_mutationId := id;
                                 rs_fenceToken := token; rs_releasedAt := None |}); [|done].
          apply elem_of_live_app. right.
          split; [|done]. apply elem_of_newResources. exists key.
          split; [constructor|done]. }
      split; [|split; [set_solver|split]].
      * unfold set_resources; cbn. by rewrite <- app_assoc.
      * intros k [->|Hk]%elem_of_cons; [apply Hfree; constructor|by apply Hold].
      * constructor; [|done]. intros Hk. by apply Hold in Hk as [_ ?].
Qed.

(** ** Acquisition *)

Lemma acquire_ok locks keys self db u db' :
  acquireStorageMutationResources locks keys self db = Ok (u, db') ->
  db' = db /\ (keys <> [] ->
    (forall r, r ∈ liveResources db ->
       globalRecovery ∉ keys /\ rs_resourceKey r <> globalRecovery) /\
    (forall r, r ∈ liveResources db -> rs_mutationId r <> default "" self ->
       overlapsRequested (filter (fun key => resourceOwner key <> None) keys)
         (rs_resourceKey r) = false)).
Proof.
  intros H. unfold acquireStorageMutationResources in H.
  destruct keys as [|key0 keys0]; [tx_inv H; done|].
  set (keys := key0 :: keys0) in *. tx_inv H.
  destruct (head _) as [r|] eqn:Eh in H; [by tx_inv H|].
  unfold assertNoOverlappingOwnerResources in H. tx_inv H.
  assert (Hg : forall r, r ∈ liveResources db ->
    globalRecovery ∉ keys /\ rs_resourceKey r <> globalRecovery).
  { intros r Hr. apply head_None in Eh.
    assert (Hn : r ∉ filter (fun r => bool_decide (globalRecovery ∈ keys) = true
      \/ rs_resourceKey r = globalRecovery) (liveResources db)) by (rewrite Eh; set_solver).
    split; intros Hk; apply Hn, list_elem_of_filter; (split; [|done]);
      [left; by apply bool_decide_eq_true_2|by right]. }
  destruct (filter (fun key => resourceOwner key <> None) keys) as [|ok oks] eqn:Eo.
  - tx_inv H. split; [done|]. intros _. split; [done|]. intros r _ _.
    unfold overlapsRequested. cbn. by rewrite orb_false_r.
  - rewrite <- Eo in *. clear Eo. tx_inv H.
    destruct (head _) as [r|] eqn:Eh2 in H; tx_inv H. split; [done|]. intros _.
    split; [done|]. intros r Hr Hne. apply head_None in Eh2.
    apply not_true_iff_false. intros Ht.
    assert (Hin : r ∈ filter (fun r => rs_mutationId r <> default "" self /\
      overlapsRequested (filter (fun key => resourceOwner key <> None) keys)
        (rs_resourceKey r) = true) (liveResources db)).
    { apply list_elem_of_filter. done. }
    rewrite Eh2 in Hin. by apply elem_of_nil in Hin.
Qed.

(** ** Preparing *)

Lemma assertOwnerQuotaAvailable_ok locks now owner bytes db u db' :
  assertOwnerQuotaAvailable locks now owner bytes db = Ok (u, db') -> db' = db.
Proof.
  unfold assertOwnerQuotaAvailable, lockOwnerStorageLimit. intros H. tx_inv H.
  destruct (db_users db !! owner); tx_inv Htx; [|by tx_inv H].
  destruct (hasEnforcedStorageLimit _); [|by tx_inv H].
  destruct (us_storageLimitBytes _); by tx_inv H.
Qed.

Lemma validateRevisions_ok entities db u db' :
  validatePreparedEntityRevisions entities db = Ok (u, db') -> db' = db.
Proof.
  unfold validatePreparedEntityRevisions. intros H. destruct entities; [by tx_inv H|].
  tx_inv H. destruct (blockedBy _ _); by tx_inv H.
Qed.

Lemma validateNamespaces_ok owner intentJson db u db' :
  validatePreparedNamespaces owner intentJson db = Ok (u, db') -> db' = db.
Proof.
  unfold validatePreparedNamespaces. intros H.
  destruct (getPreparedMetadataOperations _); [|by tx_inv H].
  tx_inv H. destruct (collectTargets _ _ _); by tx_inv H.
Qed.

Lemma linkSession_ok input id db u db' :
  linkPreparedUploadSession input id db = Ok (u, db') ->
  exists sessions, db' = set_sessions sessions db.
Proof.
  unfold linkPreparedUploadSession. intros H.
  assert (Hid : db = set_sessions (db_sessions db) db) by by destruct db.
  destruct (pi_uploadSessionId input) as [[|a s]|]; [tx_inv H; eauto| |tx_inv H; eauto].
  tx_inv H. destruct (db_sessions db !! _); tx_inv H. eauto.
Qed.

(** What a prepared mutation leaves, and what had to hold before. *)
Record prepared_ok (locks : Locks) (input : PrepareStorageMutationInput) (id : string)
    (keys : list string) (m : Mutation) (db db' : DB) : Prop := {
  po_new : db_mutations db !! id = None;
  po_fresh : fresh m;
  po_reserved : mu_reservedBytes m = pi_reservedBytes input;
  po_owner : mu_ownerUserId m = pi_ownerUserId input;
  po_mutations : db_mutations db' = <[id := m]> (db_mutations db);
  po_resources : db_resources db' = db_resources db ++ newResources id 0 keys;
  po_rows : db_rows db' = db_rows db;
  po_free : forall key, key ∈ keys -> resourceKeyLive db key = false;
  po_nodup : NoDup keys;
  po_acquired : keys <> [] ->
    (forall r, r ∈ liveResources db ->
       globalRecovery ∉ keys /\ rs_resourceKey r <> globalRecovery) /\
    (forall r, r ∈ liveResources db -> rs_mutationId r <> "" ->
       overlapsRequested (filter (fun key => resourceOwner key <> None) keys)
         (rs_resourceKey r) = false)
}.

Lemma prepare_ok locks now input id keys db m db' :
  prepareStorageMutationTransaction locks now input id keys db = Ok (m, db') ->
  prepared_ok locks input id keys m db db'.
Proof.
  intros H. unfold prepareStorageMutationTransaction in H. tx_inv H.
  assert (Hq : db0 = db).
  { destruct (pi_reservedBytes input); [|by tx_inv Htx].
    destruct (bool_decide _); [by tx_inv Htx|].
    by apply assertOwnerQuotaAvailable_ok in Htx. }
  subst db0.
  apply acquire_ok in Htx0 as [-> Hacq].
  unfold createPreparingStorageMutation in Htx1. tx_inv Htx1.
  match goal with H : _ && _ && _ = true |- _ =>
    apply andb_true_iff in H as [[Hnew _]%andb_true_iff _] end.
  apply bool_decide_eq_true_1 in Hnew.
  apply insertResources_ok in Htx1 as (Hfree & Hnd & ->).
  apply validateRevisions_ok in Htx2 as ->.
  apply validateNamespaces_ok in Htx3 as ->.
  apply linkSession_ok in Htx4 as [sessions ->].
  unfold updateMutation in Htx5. tx_inv Htx5. cbn in H.
  rewrite lookup_alter_eq, lookup_insert_eq in H. cbn in H. tx_inv H.
  constructor; try done.
  cbn. by rewrite alter_insert_eq.
Qed.

(** ** Claiming *)

Lemma claim_ok locks now leaseMs id leaseOwner keys db token db' :
  claimTransaction locks now leaseMs id leaseOwner keys db = Ok (token, db') ->
  (token = None /\ db' = db) \/
  exists m added, token = Some (ls_token (mu_lease m) + 1) /\
    db_mutations db !! id = Some m /\ claimable now m = true /\
    db_mutations db' = <[id := claimRow running leaseOwner now (now + leaseMs) m]>
                         (db_mutations db) /\
    db_resources db' = fenceOne id (ls_token (mu_lease m) + 1)
      <$> (db_resources db ++ newResources id (ls_token (mu_lease m) + 1) added) /\
    db_rows db' = db_rows db /\
    added ⊆ keys /\ NoDup added /\
    (forall key, key ∈ added -> resourceKeyLive db key = false) /\
    (added <> [] ->
      (forall r, r ∈ liveResources db ->
         globalRecovery ∉ keys /\ rs_resourceKey r <> globalRecovery) /\
      (forall r, r ∈ liveResources db -> rs_mutationId r <> id ->
         overlapsRequested (filter (fun key => resourceOwner key <> None) keys)
           (rs_resourceKey r) = false)).
Proof.
  intros H. unfold claimTransaction in H. tx_inv H.
  assert (Hacq : db0 = db /\ (keys <> [] ->
    (forall r, r ∈ liveResources db ->
       globalRecovery ∉ keys /\ rs_resourceKey r <> globalRecovery) /\
    (forall r, r ∈ liveResources db -> rs_mutationId r <> id ->
       overlapsRequested (filter (fun key => resourceOwner key <> None) keys)
         (rs_resourceKey r) = false))).
  { destruct keys; [by tx_inv Htx|].
    apply bind_ok in Htx as (? & ? & Ha & Hr). tx_inv Hr. by apply acquire_ok in Ha. }
  destruct Hacq as [-> Hacq]. destruct a; [tx_inv H; by left|].
  tx_inv H. unfold mutationWhere in H.
  destruct (db_mutations db !! id) as [m|] eqn:Em; [|tx_inv H; by left].
  destruct (claimable now m) eqn:Ec; [|tx_inv H; by left]. tx_inv H. right.
  apply addMissingResources_ok in Htx0 as (added & -> & Hs & Hf & Hn).
  apply fenceResources_ok in Htx1 as ->.
  exists m, added. repeat (split; [done|]). intros Hne. apply Hacq.
  intros ->. destruct added; [done|]. set_solver.
Qed.

Lemma claimFinalization_ok now leaseMs id leaseOwner db token db' :
  claimFinalizationRow now leaseMs id leaseOwner db = Ok (token, db') ->
  (token = None /\ db' = db) \/
  exists m, token = Some (ls_token (mu_lease m) + 1) /\
    db_mutations db !! id = Some m /\ finalizable now m = true /\
    db' = set_mutations (<[id := claimRow finalizing leaseOwner now (now + leaseMs) m]>
                           (db_mutations db)) db.
Proof.
  intros H. unfold claimFinalizationRow in H. tx_inv H. unfold mutationWhere in H.
  destruct (db_mutations db !! id) as [m|] eqn:Em; [|tx_inv H; by left].
  destruct (finalizable now m) eqn:Ec; [|tx_inv H; by left]. tx_inv H. right. eauto.
Qed.

(** ** Committing *)

Lemma appendStorageChanges_journal locks now id owner before db u db' :
  appendStorageChanges locks now id owner before db = Ok (u, db') ->
  db_mutations db' = db_mutations db /\ db_resources db' = db_resources db.
Proof.
  intros H. unfold appendStorageChanges in H. tx_inv H.
  generalize dependent (sortedChanges before (readStorageItemSnapshot id db)).
  intros changes H. destruct changes; tx_inv H; [done|]. split; reflexivity.
Qed.

Lemma commit_ok {T} locks fenceNow now id owner leaseOwner leaseToken (callback : Tx T)
    resultJson db x db' :
  keepsJournal callback ->
  commitStorageMutationMetadata locks fenceNow now id owner leaseOwner leaseToken callback
    resultJson db = Ok (x, db') ->
  exists m m1, db_mutations db !! id = Some m /\
    fenceHolds leaseOwner leaseToken fenceNow m = true /\
    (m1 = m \/ m1 = clearReservation m) /\ mu_status m = running /\
    db_mutations db' = <[id := commitRow now (resultJson x) m1]> (db_mutations db) /\
    db_resources db' = db_resources db.
Proof.
  intros Hk H. unfold commitStorageMutationMetadata in H. tx_inv H.
  apply assertFence_ok in Htx as (-> & m & Hm & Hf).
  assert (Hu : exists m1, (m1 = m \/ m1 = clearReservation m) /\
    db_mutations db1 = <[id := m1]> (db_mutations db) /\ db_resources db1 = db_resources db).
  { apply updateWhere_ok in Htx0 as [(_ & m' & Hm' & _ & ->)|[_ ->]].
    - simplify_eq. exists (clearReservation m). split; [by right|done].
    - exists m. split; [by left|]. by rewrite insert_id. }
  destruct Hu as (m1 & Hm1 & Hmu1 & Hre1).
  apply Hk in Htx1 as [Hmu2 Hre2].
  apply appendStorageChanges_journal in Htx2 as [Hmu3 Hre3].
  apply updateFenced_ok in Htx3 as (m2 & Hm2 & Hc & ->).
  rewrite Hmu3, Hmu2, Hmu1, lookup_insert_eq in Hm2. injection Hm2 as <-.
  exists m, m1. split; [done|]. split; [done|]. split; [done|].
  repeat (apply andb_true_iff in Hc as [Hc ?]).
  match goal with H : statusIn [running] m1 = true |- _ =>
    apply statusIn_true, list_elem_of_singleton in H as Hst end.
  split; [by destruct Hm1; subst|].
  cbn. rewrite Hmu3, Hmu2, Hmu1, Hre3, Hre2, Hre1, insert_insert_eq. done.
Qed.

(** ** The fenced calls *)

Lemma begin_ok locks now fenceNow id leaseOwner leaseToken db u db' :
  beginStorageMutationFinalization locks now fenceNow id leaseOwner leaseToken db = Ok (u, db') ->
  exists m, db_mutations db !! id = Some m /\ fenceHolds leaseOwner leaseToken fenceNow m = true /\
    mu_status m = metadata_committed /\
    db_mutations db' = <[id := set_status finalizing m]> (db_mutations db) /\
    db_resources db' = releaseOne id None now <$> db_resources db.
Proof.
  intros H. unfold beginStorageMutationFinalization in H. tx_inv H.
  apply assertFence_ok in Htx as (-> & m & Hm & Hf).
  apply updateFenced_ok in Htx0 as (m' & Hm' & Hc & ->). simplify_eq.
  apply releaseResources_ok in H as ->. exists m. split; [done|]. split; [done|].
  repeat (apply andb_true_iff in Hc as [Hc ?]).
  match goal with H : statusIn _ m = true |- _ =>
    apply statusIn_true, list_elem_of_singleton in H end. done.
Qed.

Lemma complete_ok locks fenceNow completedAt id leaseOwner leaseToken resultJson db u db' :
  completeStorageMutation locks fenceNow completedAt id leaseOwner leaseToken resultJson db
    = Ok (u, db') ->
  exists m, db_mutations db !! id = Some m /\ fenceHolds leaseOwner leaseToken fenceNow m = true /\
    db_mutations db' = <[id := redactMutation (completeRow resultJson completedAt m)]>
                         (db_mutations db) /\
    db_resources db' = releaseOne id None completedAt <$> db_resources db.
Proof.
  intros H. unfold completeStorageMutation in H. tx_inv H.
  apply assertFence_ok in Htx as (-> & m & Hm & Hf).
  apply updateFenced_ok in Htx0 as (m' & Hm' & Hc & ->). simplify_eq.
  unfold updateMutation in Htx1. tx_inv Htx1. apply releaseResources_ok in H as ->.
  exists m. split; [done|]. split; [done|]. cbn. by rewrite alter_insert_eq.
Qed.

Lemma abort_ok locks fenceNow abortedAt id leaseOwner leaseToken rejection error db u db' :
  abortStorageMutation locks fenceNow abortedAt id leaseOwner leaseToken rejection error db
    = Ok (u, db') ->
  exists m, db_mutations db !! id = Some m /\ fenceHolds leaseOwner leaseToken fenceNow m = true /\
    mu_status m = running /\ mu_metadataCommittedAt m = None /\
    db_mutations db' = <[id := abortRow rejection abortedAt error m]> (db_mutations db) /\
    db_resources db' = releaseOne id None abortedAt <$> db_resources db.
Proof.
  intros H. unfold abortStorageMutation in H. tx_inv H.
  apply assertFence_ok in Htx as (-> & m & Hm & Hf).
  apply updateFenced_ok in Htx0 as (m' & Hm' & Hc & ->). simplify_eq.
  apply releaseResources_ok in Htx1 as ->. unfold failLinkedSessions in H. tx_inv H.
  exists m. split; [done|]. split; [done|].
  repeat (apply andb_true_iff in Hc as [Hc ?]).
  match goal with H : statusIn _ m = true |- _ =>
    apply statusIn_true, list_elem_of_singleton in H end.
  match goal with H : bool_decide (mu_metadataCommittedAt m = None) = true |- _ =>
    apply bool_decide_eq_true_1 in H end. done.
Qed.

Lemma updateStep_ok id stepId f db u db' :
  updateStep id stepId f db = Ok (u, db') ->
  exists m steps, db_mutations db !! id = Some m /\
    db_mutations db' = <[id := set_steps steps m]> (db_mutations db) /\
    db_resources db' = db_resources db.
Proof.
  intros H. unfold updateStep in H. tx_inv H.
  destruct (db_mutations db !! id) as [m|] eqn:Em; tx_inv H.
  unfold updateMutation in H. tx_inv H. exists m. eexists. split; [done|].
  cbn. split; [|done]. apply map_eq. intros k.
  destruct (decide (k = id)) as [->|Hne].
  - by rewrite lookup_alter_eq, lookup_insert_eq, Em.
  - by rewrite lookup_alter_ne, lookup_insert_ne by done.
Qed.

Lemma recordChild_ok locks now id childId ordinal result leaseOwner leaseToken db u db' :
  recordStorageMutationParentChild locks now id childId ordinal result leaseOwner leaseToken db
    = Ok (u, db') ->
  exists m, db_mutations db !! id = Some m /\ fenceHolds leaseOwner leaseToken now m = true /\
    (db' = db \/ exists r, db' = set_mutations (<[id := set_result r m]> (db_mutations db)) db).
Proof.
  intros H. unfold recordStorageMutationParentChild in H. tx_inv H.
  apply assertFence_ok in Htx as (-> & m & Hm & Hf). exists m. split; [done|]. split; [done|].
  rewrite Hm in H. destruct (bool_decide _); [tx_inv H; by left|]. right.
  unfold updateMutation in H. tx_inv H. eexists. f_equal. apply map_eq. intros k.
  destruct (decide (k = id)) as [->|Hne].
  - by rewrite lookup_alter_eq, lookup_insert_eq, Hm.
  - by rewrite lookup_alter_ne, lookup_insert_ne by done.
Qed.
