(* ===== verification/JournalSafety.v ===== *)
(** * Fencing, commit and termination of durable mutations

    What the journal guarantees about one mutation: the code refines the abstract
    life of a mutation, fencing tokens only grow, a worker whose claim was taken
    over can no longer do anything, and metadata that was committed is never taken
    back, retried or committed again. The properties a worker relies on follow
    from that life. *)

From S2P Require Import Prelude Database MutationMetadata MutationPrepare StorageChanges Journal JournalSteps.

Open Scope Z_scope.

(** ** Refinement *)

Lemma fenceHolds_leased leaseOwner leaseToken now m :
  fenceHolds leaseOwner leaseToken now m = true ->
  leasedBy leaseOwner leaseToken m = true /\ leased m /\ mu_status m ∈ fencedStatuses.
Proof.
  unfold fenceHolds. intros [[H1 _]%andb_true_iff H2]%andb_true_iff.
  split; [done|]. split; [by eapply leasedBy_leased|]. by apply statusIn_true.
Qed.

Lemma claimable_status now m :
  claimable now m = true -> mu_status m ∈ [prepared; retrying; running].
Proof.
  unfold claimable. intros [[[H%statusIn_true _]%andb_true_iff _]%andb_true_iff
    |[H%statusIn_true _]%andb_true_iff]%orb_true_iff.
  - by repeat (apply elem_of_cons in H as [->|H]; [repeat constructor|]); apply elem_of_nil in H.
  - apply list_elem_of_singleton in H as ->. repeat constructor.
Qed.

Lemma moves_claim status leaseOwner now expires m :
  (mu_status m ∈ [prepared; retrying; running] /\ status = running) \/
  (mu_status m ∈ [metadata_committed; finalizing] /\ status = finalizing) ->
  moves m (claimRow status leaseOwner now expires m).
Proof.
  intros [[H ->]|[H ->]]; [by apply mv_claim|by apply mv_claim_finalization].
Qed.

Lemma updateWhere_moves id condition f db n db' :
  updateWhere id condition f db = Ok (n, db') ->
  (forall m, condition m = true -> moves m (f m)) -> rowsMove db db'.
Proof.
  intros [(_ & m & Hm & Hc & ->)|[_ ->]]%updateWhere_ok Hf; [|by apply rowsMove_same].
  eapply rowsMove_insert; [done|done|by apply Hf].
Qed.

Lemma updateFenced_moves id condition f db u db' :
  updateFenced id condition f db = Ok (u, db') ->
  (forall m, db_mutations db !! id = Some m -> condition m = true -> moves m (f m)) ->
  rowsMove db db'.
Proof.
  intros (m & Hm & Hc & ->)%updateFenced_ok Hf.
  eapply rowsMove_insert; [done|done|by apply Hf].
Qed.

(** Every call of the journal keeps every row to the abstract life. *)
Lemma step_moves db db' : journal_step db db' -> rowsMove db db'.
Proof.
  intros [].
  - match goal with H : _ = Ok _ |- _ => apply prepare_ok in H as [Hnew Hfresh _ _ Hmu _ _ _ _ _] end.
    intros id'. rewrite Hmu. destruct (decide (id = id')) as [<-|Hne].
    + by rewrite Hnew, lookup_insert_eq.
    + rewrite lookup_insert_ne by done. destruct (_ !! id'); [apply moves_refl|done].
  - match goal with H : _ = Ok _ |- _ =>
      apply claim_ok in H as [[_ ->]|(m & added & _ & Hm & Hc & Hmu & _)] end;
      [by apply rowsMove_same|].
    eapply rowsMove_insert; [done|done|]. apply moves_claim. left.
    split; [by eapply claimable_status|done].
  - eapply updateFenced_moves; [done|]. intros m _ _. by apply mv_keep.
  - unfold markStorageMutationStepApplied in *. tx_inv H.
    apply assertFence_ok in Htx as [-> _].
    apply updateStep_ok in H as (m & steps & Hm & Hmu & _).
    eapply rowsMove_insert; [done|done|]. by apply mv_keep.
  - unfold markStorageMutationStepFailed in *. tx_inv H.
    apply assertFence_ok in Htx as [-> _].
    apply updateStep_ok in H as (m & steps & Hm & Hmu & _).
    eapply rowsMove_insert; [done|done|]. by apply mv_keep.
  - match goal with H : _ = Ok _ |- _ =>
      apply commit_ok in H as (m & m1 & Hm & Hf & Hm1 & Hst & Hmu & _); [|done] end.
    eapply rowsMove_insert; [done|done|]. apply fenceHolds_leased in Hf as (_ & Hl & _).
    eapply mv_commit; try done; by destruct Hm1; subst.
  - match goal with H : _ = Ok _ |- _ =>
      apply begin_ok in H as (m & Hm & Hf & Hst & Hmu & _) end.
    eapply rowsMove_insert; [done|done|]. by apply mv_begin_finalization.
  - match goal with H : _ = Ok _ |- _ =>
      apply claimFinalization_ok in H as [[_ ->]|(m & _ & Hm & Hc & ->)] end;
      [by apply rowsMove_same|].
    eapply rowsMove_insert; [done|done|]. apply moves_claim. right. split; [|done].
    unfold finalizable in Hc. apply andb_true_iff in Hc as [[Hc _]%andb_true_iff _].
    by apply statusIn_true.
  - match goal with H : _ = Ok _ |- _ => apply releaseResources_ok in H as -> end.
    by apply rowsMove_same.
  - match goal with H : _ = Ok _ |- _ => apply complete_ok in H as (m & Hm & Hf & Hmu & _) end.
    eapply rowsMove_insert; [done|done|]. apply fenceHolds_leased in Hf as (_ & Hl & Hst).
    by apply mv_complete.
  - unfold retryStorageMutation in *. tx_inv H.
    eapply updateFenced_moves; [done|]. intros m Hm Hc. rewrite Hm.
    apply andb_true_iff in Hc as [Hc%leasedBy_leased _]. by apply mv_retry.
  - eapply updateFenced_moves; [done|]. intros m Hm Hc.
    apply andb_true_iff in Hc as [Hc%leasedBy_leased _]. by apply mv_recover.
  - match goal with H : _ = Ok _ |- _ =>
      apply abort_ok in H as (m & Hm & Hf & Hst & Hcm & Hmu & _) end.
    eapply rowsMove_insert; [done|done|]. apply fenceHolds_leased in Hf as (_ & Hl & _).
    by apply mv_abort.
  - match goal with H : _ = Ok _ |- _ =>
      apply recordChild_ok in H as (m & Hm & _ & [->|[r ->]]) end; [by apply rowsMove_same|].
    eapply rowsMove_insert; [done|done|]. by apply mv_keep.
  - unfold retryStorageMutationNow in *. tx_inv H.
    eapply updateWhere_moves; [done|]. intros m _. by apply mv_keep.
  - unfold pruneSucceededStorageMutationResults in *. tx_inv H. subst.
    eapply rowsMove_fmap; [done|]. intros m. cbv beta. destruct (prunable db before m); by apply mv_keep.
  - by apply rowsMove_same.
Qed.

(** ** The invariant of a row *)

(** A commit time is there exactly in the states after the commit, and only a
    mutation being worked on has a lease. *)
Record rowOk (m : Mutation) : Prop := {
  ro_uncommitted :
    mu_status m ∈ [preparing; prepared; running; retrying; aborted] ->
    mu_metadataCommittedAt m = None;
  ro_committed :
    mu_status m ∈ [metadata_committed; finalizing] -> mu_metadataCommittedAt m <> None;
  ro_leased : leased m -> mu_status m ∈ fencedStatuses
}.

Ltac status_cases :=
  repeat match goal with
  | H : _ ∈ _ :: _ |- _ => apply elem_of_cons in H as [H|H]
  | H : _ ∈ [] |- _ => by apply elem_of_nil in H
  | H : _ ∈ fencedStatuses |- _ => unfold fencedStatuses in H
  end.

Lemma fresh_rowOk m : fresh m -> rowOk m.
Proof.
  intros (Hs & Hc & _ & Ho). constructor; [done|rewrite Hs; intros ?; status_cases; done|].
  intros Hl. by destruct Hl.
Qed.

Lemma retryStatus_ok m :
  rowOk m ->
  (mu_metadataCommittedAt m = None -> retryStatusForMutation (Some m) = retrying) /\
  (mu_metadataCommittedAt m <> None -> retryStatusForMutation (Some m) = finalizing).
Proof.
  intros Hr. unfold retryStatusForMutation. split; intros Hc.
  - rewrite bool_decide_eq_false_2 by tauto.
    destruct (statusIn _ m) eqn:E; [|done]. apply statusIn_true in E.
    by apply (ro_committed _ Hr) in E.
  - by rewrite bool_decide_eq_true_2.
Qed.


Lemma elem_of_status (s : StorageMutationStatus) (l : list StorageMutationStatus) : bool_decide (s ∈ l) = true -> s ∈ l.
Proof. apply bool_decide_eq_true_1. Qed.

Lemma moves_rowOk m m' : rowOk m -> moves m m' -> rowOk m'.
Proof.
  intros Hr [].
  - destruct H as (Hs & Hc & _ & Ho). destruct Hr as [H1 H2 H3].
    constructor; unfold leased; rewrite ?Hs, ?Hc, ?Ho; [exact H1|exact H2|exact H3].
  - destruct H1 as (Hc & _ & _). constructor; unfold leased; rewrite H0, ?Hc; try done.
    + intros _. apply (ro_uncommitted _ Hr). status_cases; rewrite H; by apply elem_of_status.
    + intros ?; status_cases; done.
    + intros _. by apply elem_of_status.
  - destruct H1 as (Hc & _ & _). constructor; unfold leased; rewrite H0, ?Hc; try done.
    + intros ?; status_cases; done.
    + intros _. by apply (ro_committed _ Hr).
    + intros _. by apply elem_of_status.
  - constructor; rewrite H1, ?H2; try done; intros ?; status_cases; try done.
    by apply elem_of_status.
  - constructor; rewrite H0, ?H1; try done; intros ?; status_cases; try done.
    + apply (ro_committed _ Hr). rewrite H. by apply elem_of_status.
    + by apply elem_of_status.
  - destruct H2 as (Hc & _ & Ho). constructor; unfold leased; rewrite H1; rewrite ?Ho; try done;
      intros ?; status_cases; done.
  - destruct H1 as (Hc & _ & Ho). destruct (retryStatus_ok m Hr) as [Hn Hy].
    constructor; unfold leased; rewrite ?Ho; try done; rewrite H0, Hc; intros Hin.
    + destruct (mu_metadataCommittedAt m) eqn:E; [|done]. rewrite Hy in Hin by done.
      status_cases; done.
    + intros E. rewrite Hn in Hin by done. status_cases; done.
  - destruct H1 as (Hc & _ & Ho). constructor; unfold leased; rewrite H0; rewrite ?Ho; try done;
      intros ?; status_cases; done.
  - destruct H3 as (Hc & _ & Ho). constructor; unfold leased; rewrite H2; rewrite ?Ho, ?Hc;
      try done; intros ?; status_cases; done.
Qed.

Definition journalOk (db : DB) : Prop :=
  forall id m, db_mutations db !! id = Some m -> rowOk m.

Lemma step_journalOk db db' : journalOk db -> journal_step db db' -> journalOk db'.
Proof.
  intros Hok Hs id m' Hm'. pose proof (step_moves _ _ Hs id) as Hmv. rewrite Hm' in Hmv.
  destruct (db_mutations db !! id) as [m|] eqn:Em; [|by apply fresh_rowOk].
  by eapply moves_rowOk; [apply (Hok id)|].
Qed.

Lemma steps_journalOk db db' : journalOk db -> rtc journal_step db db' -> journalOk db'.
Proof. intros H1 H2. induction H2; eauto using step_journalOk. Qed.

(** ** Following one mutation through any number of steps *)

Section Follow.
Context (I : Mutation -> Mutation -> Prop) (Irefl : forall m, I m m)
  (Istep : forall m0 m m', rowOk m -> I m0 m -> moves m m' -> I m0 m').

Lemma follow db db' id m :
  journalOk db -> rtc journal_step db db' -> db_mutations db !! id = Some m ->
  exists m', db_mutations db' !! id = Some m' /\ I m m'.
Proof.
  intros Hok Hs Hm.
  enough (Hgen : forall db1, journalOk db1 -> rtc journal_step db1 db' ->
    forall m1, db_mutations db1 !! id = Some m1 -> I m m1 ->
    exists m', db_mutations db' !! id = Some m' /\ I m m') by by eapply Hgen.
  clear dependent db. intros db1 Hok Hs. induction Hs as [|db1 db2 db3 H1 _ IH]; [eauto|].
  intros m1 Hm1 HI. pose proof (step_moves _ _ H1 id) as Hmv. rewrite Hm1 in Hmv.
  destruct (db_mutations db2 !! id) as [m2|] eqn:Em2; [|done].
  eapply IH; [by eapply step_journalOk|done|]. eapply Istep; [|done..]. by apply (Hok id).
Qed.
End Follow.

Lemma moves_token m m' : moves m m' -> ls_token (mu_lease m) <= ls_token (mu_lease m').
Proof.
  intros [(_ & _ & H & _)|_ _ (_ & H & _)|_ _ (_ & H & _)|now _ _ _ _ H|_ _ _ H|_ _ _ (_ & H & _)
    |_ _ (_ & H & _)|_ _ (_ & H & _)|_ _ _ _ (_ & H & _)]; lia.
Qed.

Lemma token_grows db db' id m :
  journalOk db -> rtc journal_step db db' -> db_mutations db !! id = Some m ->
  exists m', db_mutations db' !! id = Some m' /\
    ls_token (mu_lease m) <= ls_token (mu_lease m').
Proof.
  apply (follow (fun m m' => ls_token (mu_lease m) <= ls_token (mu_lease m'))); [done|].
  intros m0 m1 m2 _ H1 H2%moves_token. lia.
Qed.

Lemma committed_follow db db' id m t :
  journalOk db -> rtc journal_step db db' -> db_mutations db !! id = Some m ->
  mu_metadataCommittedAt m = Some t ->
  exists m', db_mutations db' !! id = Some m' /\ mu_metadataCommittedAt m' = Some t /\
    mu_status m' ∈ [metadata_committed; finalizing; succeeded; recovery_required].
Proof.
  intros Hok Hs Hm Ht.
  destruct (follow (fun m m' => forall t, mu_metadataCommittedAt m = Some t ->
    mu_metadataCommittedAt m' = Some t)) with (db := db) (db' := db') (id := id) (m := m)
    as (m' & Hm' & Hc); try done.
  - intros m0 m1 m2 Hr H1 H2 t0 Ht0. specialize (H1 _ Ht0).
    destruct H2 as [(_ & Hc & _)|_ _ (Hc & _)|_ _ (Hc & _)|now Hst|_ _ Hc|_ _ _ (Hc & _)
      |_ _ (Hc & _)|_ _ (Hc & _)|_ _ _ _ (Hc & _)]; try congruence.
    rewrite (ro_uncommitted _ Hr) in H1; [done|]. rewrite Hst. by apply elem_of_status.
  - exists m'. split; [done|]. specialize (Hc t Ht). split; [done|].
    pose proof (steps_journalOk _ _ Hok Hs id m' Hm') as Hr.
    destruct (decide (mu_status m' ∈ [preparing; prepared; running; retrying; aborted]))
      as [Hin|Hout]; [by rewrite (ro_uncommitted _ Hr Hin) in Hc|].
    destruct (mu_status m'); try (by apply elem_of_status);
      exfalso; apply Hout; by apply elem_of_status.
Qed.

(** C35: every call of the journal refines the abstract life of a mutation: a
    row only makes the moves of [moves], new rows are freshly prepared, no row
    disappears, and a commit time is there exactly after the commit. *)
Theorem journal_refines_mutation_life db db' :
  journalOk db -> rtc journal_step db db' -> journalOk db' /\
  forall db'', journal_step db' db'' -> rowsMove db' db'' /\ journalOk db''.
Proof.
  intros Hok Hs. pose proof (steps_journalOk _ _ Hok Hs) as Hok'. split; [done|].
  intros db'' H. split; [by apply step_moves|by eapply step_journalOk].
Qed.

(** ** Fencing *)

(** No call that names this lease gets through on this database. *)
Record fencedOff (db : DB) (id leaseOwner : string) (leaseToken : Z) : Prop := {
  fo_renew now leaseMs :
    renewStorageMutationLease now leaseMs id leaseOwner leaseToken db
    = Throw StorageMutationFenceError;
  fo_applied locks now appliedAt stepId :
    markStorageMutationStepApplied locks now appliedAt id stepId leaseOwner leaseToken db
    = Throw StorageMutationFenceError;
  fo_failed locks now stepId error :
    markStorageMutationStepFailed locks now id stepId leaseOwner leaseToken error db
    = Throw StorageMutationFenceError;
  fo_commit T locks fenceNow now ownerUserId (callback : Tx T) resultJson :
    commitStorageMutationMetadata locks fenceNow now id ownerUserId leaseOwner leaseToken
      callback resultJson db = Throw StorageMutationFenceError;
  fo_begin locks now fenceNow :
    beginStorageMutationFinalization locks now fenceNow id leaseOwner leaseToken db
    = Throw StorageMutationFenceError;
  fo_complete locks fenceNow completedAt resultJson :
    completeStorageMutation locks fenceNow completedAt id leaseOwner leaseToken resultJson db
    = Throw StorageMutationFenceError;
  fo_retry now error :
    retryStorageMutation now id leaseOwner leaseToken error db
    = Throw StorageMutationFenceError;
  fo_recover now error :
    requireStorageMutationRecovery now id leaseOwner leaseToken error db
    = Throw StorageMutationFenceError;
  fo_abort locks fenceNow abortedAt rejection error :
    abortStorageMutation locks fenceNow abortedAt id leaseOwner leaseToken rejection error db
    = Throw StorageMutationFenceError;
  fo_record locks now childId ordinal result :
    recordStorageMutationParentChild locks now id childId ordinal result leaseOwner
      leaseToken db = Throw StorageMutationFenceError
}.

Lemma updateFenced_throw id condition f db :
  (forall m, db_mutations db !! id = Some m -> condition m = false) ->
  updateFenced id condition f db = Throw StorageMutationFenceError.
Proof.
  intros Hc. unfold updateFenced, updateWhere, mutationWhere, read, mbind, Tx_bind, mret, Tx_ret.
  destruct (db_mutations db !! id) as [m|] eqn:E; [rewrite (Hc m eq_refl)|]; done.
Qed.

Lemma assertFence_throw locks now id leaseOwner leaseToken db :
  (forall m, db_mutations db !! id = Some m -> leasedBy leaseOwner leaseToken m = false) ->
  assertFence locks now id leaseOwner leaseToken db = Throw StorageMutationFenceError.
Proof.
  intros Hc. unfold assertFence, mutationWhere, read, mbind, Tx_bind, fenceHolds.
  destruct (db_mutations db !! id) as [m|] eqn:E; [rewrite (Hc m eq_refl)|]; done.
Qed.

(** A transaction that starts with the fence throws when the fence does. *)
Lemma fenced_transaction_throw {A} locks now id leaseOwner leaseToken (rest : unit -> Tx A) db :
  assertFence locks now id leaseOwner leaseToken db = Throw StorageMutationFenceError ->
  runStorageTransaction (_ ← assertFence locks now id leaseOwner leaseToken; rest tt) db
  = Throw StorageMutationFenceError.
Proof. intros E. unfold runStorageTransaction, mbind, Tx_bind. by rewrite E. Qed.

Lemma not_leased_fencedOff db id leaseOwner leaseToken :
  (forall m, db_mutations db !! id = Some m -> leasedBy leaseOwner leaseToken m = false) ->
  fencedOff db id leaseOwner leaseToken.
Proof.
  intros Hc.
  assert (Hf : forall locks now, assertFence locks now id leaseOwner leaseToken db
    = Throw StorageMutationFenceError) by (intros; by apply assertFence_throw).
  constructor; intros.
  all: try (unfold markStorageMutationStepApplied, markStorageMutationStepFailed,
    commitStorageMutationMetadata, beginStorageMutationFinalization, completeStorageMutation,
    abortStorageMutation, recordStorageMutationParentChild;
    unfold runStorageTransaction, mbind, Tx_bind; by rewrite Hf).
  - apply updateFenced_throw. intros m Hm. unfold fenceHolds. by rewrite (Hc m Hm).
  - unfold retryStorageMutation. unfold mbind, Tx_bind, read.
    apply updateFenced_throw. intros m Hm. by rewrite (Hc m Hm).
  - apply updateFenced_throw. intros m Hm. by rewrite (Hc m Hm).
Qed.

(** C31: once a mutation was claimed again, under a larger token, the worker
    that held it before is fenced off forever: whatever else happens, each of
    its calls throws a fence error and changes nothing. *)
Theorem stale_worker_is_fenced_off db db' id m leaseOwner leaseToken :
  journalOk db -> db_mutations db !! id = Some m -> leaseToken < ls_token (mu_lease m) ->
  rtc journal_step db db' -> fencedOff db' id leaseOwner leaseToken.
Proof.
  intros Hok Hm Ht Hs. destruct (token_grows _ _ _ _ Hok Hs Hm) as (m' & Hm' & Hle).
  apply not_leased_fencedOff. intros m'' Hm''. simplify_eq.
  apply not_true_iff_false. intros Hl%leasedBy_token. lia.
Qed.

(** A lease that has not run out cannot be taken: no claim of the mutation
    succeeds before it expires, neither to run it nor to finalize it. *)
Theorem live_lease_cannot_be_taken db id m expires now :
  journalOk db -> db_mutations db !! id = Some m -> leased m ->
  ls_expiresAt (mu_lease m) = Some expires -> now < expires ->
  (forall locks leaseMs other resources token db',
     claimTransaction locks now leaseMs id other resources db = Ok (token, db') ->
     token = None /\ db' = db) /\
  (forall leaseMs other token db',
     claimFinalizationRow now leaseMs id other db = Ok (token, db') ->
     token = None /\ db' = db).
Proof.
  intros Hok Hm Hl He Hnow. split.
  - intros locks leaseMs other resources token db' H.
    apply claim_ok in H as [?|(m' & added & _ & Hm' & Hc & _)]; [done|].
    exfalso. simplify_eq. unfold claimable, nullOrDueBy, dueBy in Hc. rewrite He in Hc.
    rewrite bool_decide_eq_false_2, !andb_false_r in Hc by lia. done.
  - intros leaseMs other token db' H.
    apply claimFinalization_ok in H as [?|(m' & _ & Hm' & Hc & _)]; [done|].
    exfalso. simplify_eq. unfold finalizable, nullOrDueBy in Hc. rewrite He in Hc.
    rewrite (bool_decide_eq_false_2 (expires <= now)), !andb_false_r in Hc by lia. done.
Qed.

(** ** The commit *)

(** C34: metadata is committed at most once and never taken back: once the
    commit time is set it stays, the mutation can only be finalized, succeed or
    wait for an operator, and no later commit or abort of it succeeds. *)
Theorem committed_metadata_is_final db db' id m t :
  journalOk db -> db_mutations db !! id = Some m -> mu_metadataCommittedAt m = Some t ->
  rtc journal_step db db' ->
  (exists m', db_mutations db' !! id = Some m' /\ mu_metadataCommittedAt m' = Some t /\
     mu_status m' ∈ [metadata_committed; finalizing; succeeded; recovery_required]) /\
  (forall T locks fenceNow now ownerUserId leaseOwner leaseToken (callback : Tx T) resultJson x db'',
     keepsJournal callback ->
     commitStorageMutationMetadata locks fenceNow now id ownerUserId leaseOwner leaseToken
       callback resultJson db' <> Ok (x, db'')) /\
  (forall locks fenceNow abortedAt leaseOwner leaseToken rejection error db'',
     abortStorageMutation locks fenceNow abortedAt id leaseOwner leaseToken rejection error db'
     <> Ok (tt, db'')).
Proof.
  intros Hok Hm Ht Hs.
  destruct (committed_follow _ _ _ _ _ Hok Hs Hm Ht) as (m' & Hm' & Hc' & Hst').
  split; [eauto|]. split.
  - intros T locks fenceNow now owner leaseOwner token callback resultJson x db'' Hk H.
    apply commit_ok in H as (m1 & _ & Hm1 & _ & _ & Hrun & _); [|done]. simplify_eq.
    rewrite Hrun in Hst'. status_cases; done.
  - intros locks fenceNow abortedAt leaseOwner token rejection error db'' H.
    apply abort_ok in H as (m1 & Hm1 & _ & _ & Hnone & _). congruence.
Qed.

(** A mutation that succeeded, was aborted, or waits for an operator stays
    so: no call of the journal starts it again. *)
Theorem terminal_mutations_stay db db' id m :
  journalOk db -> db_mutations db !! id = Some m ->
  mu_status m ∈ [succeeded; aborted; recovery_required] -> rtc journal_step db db' ->
  exists m', db_mutations db' !! id = Some m' /\ mu_status m' = mu_status m /\
    ls_owner (mu_lease m') = None.
Proof.
  intros Hok Hm Hst Hs.
  destruct (follow (fun m m' => mu_status m ∈ [succeeded; aborted; recovery_required] ->
    mu_status m' = mu_status m)) with (db := db) (db' := db') (id := id) (m := m)
    as (m' & Hm' & Hsame); try done.
  - intros m0 m1 m2 Hr H1 H2 Hin. specialize (H1 Hin). rewrite <- H1 in Hin.
    assert (Hnl : ~ leased m1).
    { intros Hl%(ro_leased _ Hr). status_cases; congruence. }
    destruct H2 as [(Hc & _)|Hp _ _|Hp _ _|now Hp|Hp| | | |]; try tauto; try congruence;
      exfalso; status_cases; congruence.
  - exists m'. split; [done|]. specialize (Hsame Hst). split; [done|].
    pose proof (steps_journalOk _ _ Hok Hs id m' Hm') as Hr.
    destruct (ls_owner (mu_lease m')) eqn:Eo; [|done]. exfalso.
    assert (Hl : leased m') by (unfold leased; by rewrite Eo).
    apply (ro_leased _ Hr) in Hl. rewrite Hsame in Hl. status_cases; congruence.
Qed.

(** ** Retries *)

(** A failed attempt waits at least one second and at most 1024 seconds,
    doubling with every attempt, and goes back to running only when its
    metadata is not committed. *)
Theorem retry_backs_off now id leaseOwner leaseToken error db db' m :
  journalOk db -> db_mutations db !! id = Some m -> 0 <= at_count (mu_attempts m) ->
  retryStorageMutation now id leaseOwner leaseToken error db = Ok (tt, db') ->
  exists m' next, db_mutations db' !! id = Some m' /\
    at_nextAttemptAt (mu_attempts m') = Some next /\
    next = now + 1000 * 2 ^ Z.min (at_count (mu_attempts m)) 10 /\
    now + 1000 <= next <= now + 1024000 /\
    mu_status m' = (if bool_decide (mu_metadataCommittedAt m = None) then retrying else finalizing).
Proof.
  intros Hok Hm Hc H. unfold retryStorageMutation in H. tx_inv H.
  apply updateFenced_ok in H as (m1 & Hm1 & _ & ->). simplify_eq.
  rewrite Hm. eexists _, _. cbn. rewrite lookup_insert_eq. split; [done|]. split; [done|].
  unfold retryDelayMs. split; [lia|].
  pose proof (Z.pow_le_mono_r 2 0 (Z.min (at_count (mu_attempts m)) 10)) as H1.
  pose proof (Z.pow_le_mono_r 2 (Z.min (at_count (mu_attempts m)) 10) 10) as H2.
  split; [lia|]. destruct (retryStatus_ok m (Hok id m Hm)) as [Hn Hy].
  change (mu_status _) with (retryStatusForMutation (Some m)).
  case_bool_decide; [by apply Hn|by apply Hy].
Qed.
