(* ===== verification/JournalResources.v ===== *)
(** * What the journal guarantees about locks

    The tree of resource keys: [resourceKeyAndAncestors] and the SQL overlap
    condition of [assertNoOverlappingOwnerResources], in terms of one key
    containing the other: [owner:<id>] contains every path of the account, and a
    path everything below it. Live locks of different mutations never overlap, a
    global recovery is alone, and every live lock belongs to a mutation that has
    not ended. *)

From Stdlib Require Import Ascii.
From Stdlib Require String.
From S2P Require Import Prelude Database MutationMetadata MutationPrepare StorageChanges Journal JournalSteps JournalSafety.

(** [contains x k]: [k] is [x] or below it. *)
Definition contains (x k : string) : Prop :=
  k = x \/ exists rest, k = x +:+ "/" +:+ rest.

(** Two keys that cannot be locked by different mutations at once. *)
Definition overlap (x k : string) : Prop := contains x k \/ contains k x.

Lemma overlap_sym x k : overlap x k -> overlap k x.
Proof. unfold overlap. tauto. Qed.

(** ** Joined paths *)

Lemma joinWith_app sep l1 l2 :
  l1 <> [] -> l2 <> [] ->
  joinWith sep (l1 ++ l2) = joinWith sep l1 +:+ sep +:+ joinWith sep l2.
Proof.
  intros H1 H2. induction l1 as [|x l1 IH]; [done|].
  destruct l1 as [|y l1].
  - destruct l2 as [|z l2]; [done|]. done.
  - change (joinWith sep ((x :: y :: l1) ++ l2))
      with (x +:+ sep +:+ joinWith sep ((y :: l1) ++ l2)).
    rewrite IH by done.
    change (joinWith sep (x :: y :: l1)) with (x +:+ sep +:+ joinWith sep (y :: l1)).
    by rewrite <- !string_app_assoc.
Qed.

Lemma joinWith_cons sep x l :
  l <> [] -> joinWith sep (x :: l) = x +:+ sep +:+ joinWith sep l.
Proof. by destruct l. Qed.

Lemma elem_of_prefixesFrom x acc parts :
  x ∈ prefixesFrom acc parts <->
  exists parts1 parts2, parts1 <> [] /\ parts = parts1 ++ parts2 /\
    x = acc +:+ "/" +:+ joinWith "/" parts1.
Proof.
  revert acc. induction parts as [|part parts IH]; intros acc; cbn.
  - split; [by intros ?%elem_of_nil|]. intros (p1 & p2 & Hne & E & _).
    by destruct p1.
  - rewrite elem_of_cons, IH. split.
    + intros [->|(p1 & p2 & Hne & -> & ->)].
      * exists [part], parts. done.
      * exists (part :: p1), p2. split; [done|]. split; [done|].
        rewrite joinWith_cons by done. by rewrite <- !string_app_assoc.
    + intros (p1 & p2 & Hne & E & ->). destruct p1 as [|q p1]; [done|].
      injection E as <- ->. destruct p1 as [|q' p1]; [by left|]. right.
      exists (q' :: p1), p2. split; [done|]. split; [done|].
      rewrite joinWith_cons by done. by rewrite <- !string_app_assoc.
Qed.

(** The keys a lock conflicts with from above: itself and its ancestors. *)
Lemma elem_of_resourceKeyAndAncestors x key :
  x ∈ resourceKeyAndAncestors key <-> contains x key.
Proof.
  unfold resourceKeyAndAncestors, contains.
  pose proof (joinWith_splitOn slash key) as Hj.
  change (String slash "") with "/" in Hj.
  destruct (splitOn slash key) as [|first rest] eqn:Es;
    [by apply splitOn_not_nil in Es|].
  rewrite elem_of_cons, elem_of_prefixesFrom. split.
  - intros [->|(p1 & p2 & Hne & -> & ->)].
    + destruct rest as [|r rest]; [by left|]. right. exists (joinWith "/" (r :: rest)).
      by rewrite <- Hj.
    + destruct p2 as [|q p2].
      * left. rewrite app_nil_r in Hj. by rewrite <- Hj, joinWith_cons.
      * right. exists (joinWith "/" (q :: p2)). rewrite <- Hj, joinWith_cons by by destruct p1.
        rewrite joinWith_app by done. by rewrite <- !string_app_assoc.
  - assert (Hgen : forall p2, splitOn slash key = splitOn slash x ++ p2 ->
      x = first \/ exists p1 p2, p1 <> [] /\ rest = p1 ++ p2 /\
        x = first +:+ "/" +:+ joinWith "/" p1).
    { intros p2 E. rewrite Es in E.
      pose proof (joinWith_splitOn slash x) as Hx. change (String slash "") with "/" in Hx.
      destruct (splitOn slash x) as [|f p1] eqn:Ex; [by apply splitOn_not_nil in Ex|].
      injection E as <- ->. destruct p1 as [|q p1]; [by left|]. right.
      exists (q :: p1), p2. split; [done|]. split; [done|]. by rewrite <- Hx. }
    intros [->|[r ->]].
    + apply (Hgen []). by rewrite app_nil_r.
    + apply (Hgen (splitOn slash r)).
      change ("/" +:+ r) with (String slash r). apply splitOn_app.
Qed.

(** The condition of the query is exactly an overlap with a requested key. *)
Lemma overlapsRequested_spec ownerKeys key :
  overlapsRequested ownerKeys key = true <-> exists q, q ∈ ownerKeys /\ overlap q key.
Proof.
  unfold overlapsRequested, overlap. rewrite orb_true_iff, bool_decide_eq_true, existsb_exists.
  rewrite list_elem_of_bind. setoid_rewrite elem_of_resourceKeyAndAncestors.
  unfold startsWith. split.
  - intros [(q & Hc & Hq)|(q & Hq%list_elem_of_In & [r ->]%prefix_spec)].
    + exists q. split; [done|by right].
    + exists q. split; [done|]. left. right. exists r. by rewrite <- string_app_assoc.
  - intros (q & Hq & [[->|[r ->]]|Hc]).
    + left. exists q. split; [by left|done].
    + right. exists q. split; [by apply list_elem_of_In|]. apply prefix_spec.
      exists r. by rewrite string_app_assoc.
    + left. eauto.
Qed.

(** A path lock and the account lock of the same owner overlap. *)
Lemma account_contains_path ownerUserId storageKey :
  contains (ownerResourceKey ownerUserId) (storagePathResourceKey ownerUserId storageKey).
Proof. right. by exists storageKey. Qed.

(** the query that looks for conflicting locks, ancestors by equality and
    descendants by prefix, finds a live key exactly when it is, contains, or is
    contained in a requested one; so an account's lock conflicts with every
    path below it, and two paths conflict when one holds the other. *)
Theorem lock_query_finds_exactly_the_overlaps ownerKeys key :
  (overlapsRequested ownerKeys key = true <-> exists q, q ∈ ownerKeys /\ overlap q key) /\
  (forall ownerUserId storageKey,
     overlapsRequested [ownerResourceKey ownerUserId]
       (storagePathResourceKey ownerUserId storageKey) = true) /\
  (forall ownerUserId folder rest,
     overlapsRequested [storagePathResourceKey ownerUserId folder]
       (storagePathResourceKey ownerUserId (folder +:+ "/" +:+ rest)) = true).
Proof.
  split; [apply overlapsRequested_spec|]. split.
  - intros owner storageKey. apply overlapsRequested_spec. eexists. split; [constructor|].
    left. apply account_contains_path.
  - intros owner folder rest. apply overlapsRequested_spec. eexists. split; [constructor|].
    left. right. exists rest. unfold storagePathResourceKey. by rewrite <- !string_app_assoc.
Qed.

Open Scope Z_scope.

Definition isOwnerKey (key : string) : Prop := resourceOwner key <> None.

(** No two mutations hold locks that exclude each other. *)
Record locksDisjoint (db : DB) : Prop := {
  ld_id r : r ∈ liveResources db -> rs_mutationId r <> "";
  ld_key r r' : r ∈ liveResources db -> r' ∈ liveResources db ->
    rs_mutationId r <> rs_mutationId r' -> rs_resourceKey r <> rs_resourceKey r';
  ld_overlap r r' : r ∈ liveResources db -> r' ∈ liveResources db ->
    rs_mutationId r <> rs_mutationId r' -> isOwnerKey (rs_resourceKey r) ->
    isOwnerKey (rs_resourceKey r') -> ~ overlap (rs_resourceKey r) (rs_resourceKey r');
  ld_global r r' : r ∈ liveResources db -> r' ∈ liveResources db ->
    rs_resourceKey r = globalRecovery -> rs_mutationId r = rs_mutationId r'
}.

(** Live locks after the step are live locks from before. *)
Definition locksShrink (db db' : DB) : Prop :=
  forall r', r' ∈ liveResources db' -> exists r, r ∈ liveResources db /\
    rs_resourceKey r = rs_resourceKey r' /\ rs_mutationId r = rs_mutationId r'.

Lemma locksShrink_same db db' : db_resources db' = db_resources db -> locksShrink db db'.
Proof. intros E r'. rewrite !elem_of_live, E, <- elem_of_live. eauto. Qed.

Lemma locksShrink_release db db' id token now :
  db_resources db' = releaseOne id token now <$> db_resources db ->
  locksShrink db db' /\ forall r', r' ∈ liveResources db' -> rs_mutationId r' <> id.
Proof.
  intros E.
  assert (Hgen : forall r', r' ∈ liveResources db' ->
    r' ∈ liveResources db /\ rs_mutationId r' <> id).
  { intros r'. rewrite !elem_of_live, E, list_elem_of_fmap.
    intros [(r & -> & Hr) Hl]. unfold releaseOne in *.
    destruct (bool_decide (rs_mutationId r = id)) eqn:Ei; cbn in *.
    - destruct (bool_decide (rs_releasedAt r = None)) eqn:En; cbn in *; [done|].
      apply bool_decide_eq_false_1 in En. done.
    - apply bool_decide_eq_false_1 in Ei. done. }
  split; [intros r' Hr'; exists r'; naive_solver|naive_solver].
Qed.

Lemma live_fence (db' : DB) id token (base : list Resource) :
  db_resources db' = fenceOne id token <$> base ->
  forall r', r' ∈ liveResources db' -> exists r, r ∈ base /\ rs_releasedAt r = None /\
    rs_resourceKey r = rs_resourceKey r' /\ rs_mutationId r = rs_mutationId r'.
Proof.
  intros E r'. rewrite elem_of_live, E, list_elem_of_fmap. intros [(r & -> & Hr) Hl].
  exists r. split; [done|]. unfold fenceOne in *.
  destruct (bool_decide (rs_mutationId r = id)) eqn:Ei; cbn in *; [|done].
  destruct (bool_decide (rs_releasedAt r = None)) eqn:En; cbn in *; [|done].
  by apply bool_decide_eq_true_1 in En.
Qed.

Lemma disjoint_shrink db db' : locksDisjoint db -> locksShrink db db' -> locksDisjoint db'.
Proof.
  intros [H1 H2 H3 H4] Hs. constructor.
  - intros r (r0 & Hr & _ & <-)%Hs. by apply H1.
  - intros r r' (r0 & Hr & <- & <-)%Hs (r0' & Hr' & <- & <-)%Hs. by apply H2.
  - intros r r' (r0 & Hr & <- & <-)%Hs (r0' & Hr' & <- & <-)%Hs. by apply H3.
  - intros r r' (r0 & Hr & <- & <-)%Hs (r0' & Hr' & _ & <-)%Hs. by apply H4.
Qed.

(** Every live lock after the step is one from before, or one of [added], held
    by [id], that the acquisition checked against the locks of others. *)
Lemma disjoint_acquire db db' id keys added :
  locksDisjoint db -> id <> "" -> added ⊆ keys ->
  (forall r', r' ∈ liveResources db' ->
     (exists r, r ∈ liveResources db /\ rs_resourceKey r = rs_resourceKey r' /\
        rs_mutationId r = rs_mutationId r') \/
     (rs_resourceKey r' ∈ added /\ rs_mutationId r' = id)) ->
  (forall key, key ∈ added -> resourceKeyLive db key = false) ->
  (added <> [] ->
    (forall r, r ∈ liveResources db ->
       globalRecovery ∉ keys /\ rs_resourceKey r <> globalRecovery) /\
    (forall r, r ∈ liveResources db -> rs_mutationId r <> id ->
       overlapsRequested (filter (fun key => resourceOwner key <> None) keys)
         (rs_resourceKey r) = false)) ->
  locksDisjoint db'.
Proof.
  intros [H1 H2 H3 H4] Hid Hsub Hlive Hfree Hacq.
  assert (Hnew : forall key r, key ∈ added -> r ∈ liveResources db ->
    key <> rs_resourceKey r /\ key <> globalRecovery /\ rs_resourceKey r <> globalRecovery /\
    (rs_mutationId r <> id -> isOwnerKey key -> ~ overlap key (rs_resourceKey r))).
  { intros key r Hk Hr. destruct Hacq as [Hg Ho]; [by intros ->; apply elem_of_nil in Hk|].
    destruct (Hg r Hr) as [Hgk Hgr].
    pose proof (proj1 (resourceKeyLive_false _ _) (Hfree key Hk) r Hr) as Hne.
    split; [congruence|]. split; [intros ->; by apply Hgk, Hsub|]. split; [done|].
    intros Hri Hown Hov. specialize (Ho r Hr Hri). apply not_true_iff_false in Ho.
    apply Ho, overlapsRequested_spec. exists key. split; [|done].
    apply list_elem_of_filter. split; [done|by apply Hsub]. }
  constructor.
  - intros r [(r0 & Hr & _ & <-)|[_ ->]]%Hlive; [by apply H1|done].
  - intros r r' [(r0 & Hr & <- & <-)|[Hk Hi]]%Hlive [(r0' & Hr' & <- & <-)|[Hk' Hi']]%Hlive Hne.
    + by apply H2.
    + destruct (Hnew _ _ Hk' Hr) as (? & _). congruence.
    + destruct (Hnew _ _ Hk Hr') as (? & _). congruence.
    + congruence.
  - intros r r' [(r0 & Hr & <- & <-)|[Hk Hi]]%Hlive [(r0' & Hr' & <- & <-)|[Hk' Hi']]%Hlive
      Hne Ho Ho'.
    + by apply H3.
    + destruct (Hnew _ _ Hk' Hr) as (_ & _ & _ & Hn).
      intros Hov%overlap_sym. apply Hn in Hov; [done|congruence|done].
    + destruct (Hnew _ _ Hk Hr') as (_ & _ & _ & Hn). apply Hn; [congruence|done].
    + congruence.
  - intros r r' [(r0 & Hr & <- & <-)|[Hk Hi]]%Hlive [(r0' & Hr' & _ & <-)|[Hk' Hi']]%Hlive Hg.
    + by apply H4.
    + by destruct (Hnew _ _ Hk' Hr) as (_ & _ & ? & _).
    + by destruct (Hnew _ _ Hk Hr') as (_ & ? & _).
    + congruence.
Qed.

(** ** Locks belong to unfinished mutations *)

Definition ended (m : Mutation) : Prop := mu_status m ∈ [succeeded; aborted].

Definition locksOwned (db : DB) : Prop :=
  forall r, r ∈ liveResources db -> exists m, db_mutations db !! rs_mutationId r = Some m /\
    ~ ended m.

Lemma owned_insert db db' id m m' :
  locksOwned db -> locksShrink db db' -> db_mutations db !! id = Some m ->
  db_mutations db' = <[id := m']> (db_mutations db) ->
  (ended m' -> ended m \/ forall r', r' ∈ liveResources db' -> rs_mutationId r' <> id) ->
  locksOwned db'.
Proof.
  intros Ho Hs Hm E He r' Hr'. destruct (Hs r' Hr') as (r & Hr & _ & Hid).
  destruct (Ho r Hr) as (m0 & Hm0 & Hn). rewrite Hid in Hm0. rewrite E.
  destruct (decide (rs_mutationId r' = id)) as [Heq|Hne].
  - rewrite Heq, lookup_insert_eq. exists m'. split; [done|]. intros Hend.
    rewrite Heq in Hm0. simplify_eq. destruct (He Hend) as [?|Hno]; [done|]. by eapply Hno.
  - rewrite lookup_insert_ne by done. eauto.
Qed.

Lemma owned_same db db' :
  locksOwned db -> locksShrink db db' -> db_mutations db' = db_mutations db -> locksOwned db'.
Proof.
  intros Ho Hs E r' Hr'. destruct (Hs r' Hr') as (r & Hr & _ & Hid).
  destruct (Ho r Hr) as (m & Hm & Hn). rewrite E, <- Hid. eauto.
Qed.

Definition locksOk (db : DB) : Prop := locksDisjoint db /\ locksOwned db.

Lemma locksOk_insert db db' id m m' :
  locksOk db -> locksShrink db db' -> db_mutations db !! id = Some m ->
  db_mutations db' = <[id := m']> (db_mutations db) ->
  (ended m' -> ended m \/ forall r', r' ∈ liveResources db' -> rs_mutationId r' <> id) ->
  locksOk db'.
Proof.
  intros [Hd Ho] ? ? ? ?. split; [by eapply disjoint_shrink|by eapply owned_insert].
Qed.

Lemma locksOk_same db db' :
  locksOk db -> locksShrink db db' -> db_mutations db' = db_mutations db -> locksOk db'.
Proof. intros [Hd Ho] ? ?. split; [by eapply disjoint_shrink|by eapply owned_same]. Qed.

Lemma locksOk_updateFenced id condition f db u db' :
  locksOk db -> updateFenced id condition f db = Ok (u, db') ->
  (forall m, db_mutations db !! id = Some m -> condition m = true -> ended (f m) -> ended m) ->
  locksOk db'.
Proof.
  intros Hok (m & Hm & Hc & ->)%updateFenced_ok Hf.
  eapply locksOk_insert; [done|by apply locksShrink_same|done|done|]. intros He. left. eauto.
Qed.

Lemma prepare_locksOk locks input id keys m db db' :
  locksOk db -> id <> "" -> prepared_ok locks input id keys m db db' -> locksOk db'.
Proof.
  intros [Hd Ho] Hid [Hnew Hfresh _ _ Hmu Hres _ Hfree Hnd Hacq].
  assert (Hlive : forall r', r' ∈ liveResources db' -> r' ∈ liveResources db \/
    (rs_resourceKey r' ∈ keys /\ rs_mutationId r' = id)).
  { intros r'. rewrite !elem_of_live, Hres, elem_of_app.
    intros [[Hr|(key & Hk & ->)%elem_of_newResources] Hl]; [by left|by right]. }
  split.
  - eapply (disjoint_acquire db db' id keys keys); try done.
    + intros r' [?|?]%Hlive; [left; by exists r'|by right].
    + intros Hne. destruct (Hacq Hne) as [Hg Hov]. split; [done|].
      intros r Hr Hri. apply Hov; [done|]. by apply (ld_id _ Hd).
  - intros r' Hr'. rewrite Hmu. destruct (Hlive r' Hr') as [Hr|[_ ->]].
    + destruct (Ho r' Hr) as (m0 & Hm0 & Hn).
      rewrite lookup_insert_ne by congruence. eauto.
    + rewrite lookup_insert_eq. exists m. split; [done|]. destruct Hfresh as [Hs _].
      unfold ended. rewrite Hs. intros ?. status_cases; done.
Qed.

Lemma claim_locksOk locks now leaseMs id leaseOwner keys db token db' :
  locksOk db -> id <> "" ->
  claimTransaction locks now leaseMs id leaseOwner keys db = Ok (token, db') -> locksOk db'.
Proof.
  intros [Hd Ho] Hid [[_ ->]|(m & added & _ & Hm & Hc & Hmu & Hres & _ & Hsub & Hnd & Hfree & Hacq)]%claim_ok;
    [done|].
  assert (Hlive : forall r', r' ∈ liveResources db' ->
    (exists r, r ∈ liveResources db /\ rs_resourceKey r = rs_resourceKey r' /\
       rs_mutationId r = rs_mutationId r') \/
    (rs_resourceKey r' ∈ added /\ rs_mutationId r' = id)).
  { intros r' Hr'. destruct (live_fence _ _ _ _ Hres r' Hr') as (r & Hr & Hl & Hk & Hi).
    rewrite <- Hk, <- Hi.
    apply elem_of_app in Hr as [Hr|(key & Hkey & ->)%elem_of_newResources];
      [left; exists r; by rewrite elem_of_live|by right]. }
  split; [by eapply disjoint_acquire|].
  intros r' Hr'. rewrite Hmu. destruct (decide (rs_mutationId r' = id)) as [->|Hne].
  - rewrite lookup_insert_eq. eexists. split; [done|]. intros ?. unfold ended in *.
    cbn in *. status_cases; done.
  - rewrite lookup_insert_ne by done.
    destruct (Hlive r' Hr') as [(r & Hr & _ & <-)|[_ ?]]; [by apply Ho|done].
Qed.

Lemma not_ended (m : Mutation) s : mu_status m = s -> s <> succeeded -> s <> aborted -> ~ ended m.
Proof. intros Hs H1 H2 He. unfold ended in He. rewrite Hs in He. status_cases; done. Qed.

Lemma step_locksOk db db' : journalOk db -> locksOk db -> journal_step db db' -> locksOk db'.
Proof.
  intros Hj Hok [].
  - eapply prepare_locksOk; [done|done|by eapply prepare_ok].
  - by eapply claim_locksOk.
  - eapply locksOk_updateFenced; [done|done|]. done.
  - unfold markStorageMutationStepApplied in *. tx_inv H.
    apply assertFence_ok in Htx as [-> _].
    apply updateStep_ok in H as (m & steps & Hm & Hmu & Hres).
    eapply locksOk_insert; [done|by apply locksShrink_same|done|done|by left].
  - unfold markStorageMutationStepFailed in *. tx_inv H.
    apply assertFence_ok in Htx as [-> _].
    apply updateStep_ok in H as (m & steps & Hm & Hmu & Hres).
    eapply locksOk_insert; [done|by apply locksShrink_same|done|done|by left].
  - match goal with H : _ = Ok _ |- _ =>
      apply commit_ok in H as (m & m1 & Hm & Hf & Hm1 & Hst & Hmu & Hres); [|done] end.
    eapply locksOk_insert; [done|by apply locksShrink_same|done|done|].
    intros He. exfalso. by eapply not_ended in He.
  - match goal with H : _ = Ok _ |- _ =>
      apply begin_ok in H as (m & Hm & Hf & Hst & Hmu & Hres) end.
    eapply locksOk_insert; [done|by eapply locksShrink_release|done|done|].
    intros He. exfalso. by eapply not_ended in He.
  - match goal with H : _ = Ok _ |- _ =>
      apply claimFinalization_ok in H as [[_ ->]|(m & _ & Hm & Hc & ->)] end; [done|].
    eapply locksOk_insert; [done|by apply locksShrink_same|done|done|].
    intros He. exfalso. by eapply not_ended in He.
  - match goal with H : releaseResources _ _ _ _ = Ok _ |- _ => apply releaseResources_ok in H as -> end.
    eapply locksOk_same; [done|by eapply locksShrink_release|done].
  - match goal with H : _ = Ok _ |- _ => apply complete_ok in H as (m & Hm & Hf & Hmu & Hres) end.
    destruct (locksShrink_release _ _ _ _ _ Hres) as [Hs Hno].
    eapply locksOk_insert; [done|done|done|done|by right].
  - unfold retryStorageMutation in *. tx_inv H.
    eapply locksOk_updateFenced; [done|done|]. intros m Hm Hc He. exfalso.
    destruct (retryStatus_ok m (Hj id m Hm)) as [Hn Hy]. rewrite Hm in He.
    unfold ended in He. change (mu_status (retryRow _ _ _ m))
      with (retryStatusForMutation (Some m)) in He.
    destruct (mu_metadataCommittedAt m); [rewrite Hy in He by done|rewrite Hn in He by done];
      status_cases; done.
  - eapply locksOk_updateFenced; [done|done|]. intros m Hm Hc He. exfalso.
    by eapply not_ended in He.
  - match goal with H : _ = Ok _ |- _ =>
      apply abort_ok in H as (m & Hm & Hf & Hst & Hcm & Hmu & Hres) end.
    destruct (locksShrink_release _ _ _ _ _ Hres) as [Hs Hno].
    eapply locksOk_insert; [done|done|done|done|by right].
  - match goal with H : _ = Ok _ |- _ =>
      apply recordChild_ok in H as (m & Hm & _ & [->|[r ->]]) end; [done|].
    eapply locksOk_insert; [done|by apply locksShrink_same|done|done|by left].
  - unfold retryStorageMutationNow in *. tx_inv H.
    apply updateWhere_ok in Htx as [(_ & m & Hm & _ & ->)|[_ ->]]; [|done].
    eapply locksOk_insert; [done|by apply locksShrink_same|done|done|by left].
  - unfold pruneSucceededStorageMutationResults in *. tx_inv H. subst.
    destruct Hok as [Hd Ho]. split; [eapply disjoint_shrink; [done|by apply locksShrink_same]|].
    intros r Hr. destruct (Ho r Hr) as (m & Hm & Hn). cbn. rewrite lookup_fmap, Hm. cbn.
    eexists. split; [done|]. by destruct (prunable db before m).
  - eapply locksOk_same; [done|by apply locksShrink_same|done].
Qed.

Lemma steps_locksOk db db' :
  journalOk db -> locksOk db -> rtc journal_step db db' -> locksOk db'.
Proof.
  intros Hj Hok Hs. induction Hs; [done|].
  eauto using step_journalOk, step_locksOk.
Qed.

(** C29: whatever the workers do, two mutations never hold overlapping locks at
    the same time: no equal keys, no account with one of its paths, no folder
    with something below it, and nothing beside a global recovery. *)
Theorem live_locks_never_overlap db db' r r' :
  journalOk db -> locksOk db -> rtc journal_step db db' ->
  r ∈ liveResources db' -> r' ∈ liveResources db' -> rs_mutationId r <> rs_mutationId r' ->
  rs_resourceKey r <> rs_resourceKey r' /\
  (isOwnerKey (rs_resourceKey r) -> isOwnerKey (rs_resourceKey r') ->
     ~ overlap (rs_resourceKey r) (rs_resourceKey r')) /\
  rs_resourceKey r <> globalRecovery.
Proof.
  intros Hj Hok Hs Hr Hr' Hne. destruct (steps_locksOk _ _ Hj Hok Hs) as [[_ H2 H3 H4] _].
  split; [by apply H2|]. split; [by apply H3|]. intros Hg. by apply Hne, H4.
Qed.

(** no lock leaks: a live lock always belongs to a mutation that has
    neither succeeded nor been aborted. *)
Theorem live_locks_have_a_living_owner db db' r :
  journalOk db -> locksOk db -> rtc journal_step db db' -> r ∈ liveResources db' ->
  exists m, db_mutations db' !! rs_mutationId r = Some m /\
    mu_status m <> succeeded /\ mu_status m <> aborted.
Proof.
  intros Hj Hok Hs Hr. destruct (steps_locksOk _ _ Hj Hok Hs) as [_ Ho].
  destruct (Ho r Hr) as (m & Hm & Hn). exists m. split; [done|].
  split; intros E; apply Hn; unfold ended; rewrite E; by apply elem_of_status.
Qed.
