(* ===== verification/MetadataFacts.v ===== *)
(** * What applying an intent and preparing a mutation guarantee

    The operations of an intent never touch the journal itself; a bulk update
    or delete takes effect only as a compare-and-swap of every row it names. An
    admitted reservation leaves the owner within the storage limit, and a
    retried request with the same idempotency key gets the mutation it made
    before, whatever has happened to the journal since. *)

From S2P Require Import Prelude JsValues Database MutationMetadata MutationPrepare StorageChanges Journal JournalSteps.

Open Scope Z_scope.

(** ** The journal is out of reach *)

Lemma keeps_bind {A B} (tx : Tx A) (f : A -> Tx B) :
  keepsJournal tx -> (forall a, keepsJournal (f a)) -> keepsJournal (tx ≫= f).
Proof.
  intros H1 H2 db x db' (a & db1 & Ha & Hb)%bind_ok.
  apply H1 in Ha as [Hm Hr]. apply H2 in Hb as [Hm' Hr']. split; congruence.
Qed.

Lemma keeps_ret {A} (a : A) : keepsJournal (mret a : Tx A).
Proof. by intros db x db' [-> ->]%ret_ok. Qed.
Lemma keeps_throw {A} e : keepsJournal (throw e : Tx A).
Proof. by intros db x db' []%throw_ok. Qed.
Lemma keeps_read {A} (f : DB -> A) : keepsJournal (read f).
Proof. by intros db x db' [-> ->]%read_ok. Qed.
Lemma keeps_ensure b e : keepsJournal (ensure b e).
Proof. by intros db x db' [_ ->]%ensure_ok. Qed.
Lemma keeps_modify f :
  (forall db, db_mutations (f db) = db_mutations db /\ db_resources (f db) = db_resources db) ->
  keepsJournal (modify f).
Proof. intros Hf db x db' ->%modify_ok. apply Hf. Qed.
Lemma keeps_writeChecked f :
  (forall db, db_mutations (f db) = db_mutations db /\ db_resources (f db) = db_resources db) ->
  keepsJournal (writeChecked f).
Proof.
  intros Hf db x db' H. unfold writeChecked in H. destruct (uniqueOk (f db)); [|done].
  injection H as _ <-. apply Hf.
Qed.

Create HintDb keeps.
#[export] Hint Resolve keeps_ret keeps_throw keeps_read keeps_ensure : keeps.

(** Takes a transaction apart: binds, matches, then its statements. *)
Ltac keeps :=
  repeat first
    [ progress eauto with keeps
    | apply keeps_bind; [|intros ?]
    | apply keeps_modify; done
    | apply keeps_writeChecked; done
    | match goal with |- keepsJournal (match ?x with _ => _ end) => destruct x end ].

Lemma keeps_createRow type id columns : keepsJournal (createRow type id columns).
Proof. unfold createRow. keeps. Qed.

Lemma keeps_removeRows type gone db :
  db_mutations (removeRows type gone db) = db_mutations db /\
  db_resources (removeRows type gone db) = db_resources db.
Proof. unfold removeRows. by case_bool_decide. Qed.

Lemma keeps_assertOwnerQuotaAvailable locks now owner bytes :
  keepsJournal (assertOwnerQuotaAvailable locks now owner bytes).
Proof. unfold assertOwnerQuotaAvailable, lockOwnerStorageLimit. keeps. Qed.
#[export] Hint Resolve keeps_createRow keeps_assertOwnerQuotaAvailable : keeps.

Lemma keeps_handler locks now operation :
  keepsJournal (metadataOperationHandler locks now operation).
Proof.
  destruct operation; cbn [metadataOperationHandler];
    unfold create_file, create_folder, update_upload_session, complete_upload_session,
      create_trash_entry, delete_trash_entry, assert_owner_quota; keeps.
Qed.

Lemma keeps_bulkUpdates operations : keepsJournal (applyBulkMetadataUpdates operations).
Proof. unfold applyBulkMetadataUpdates. keeps. Qed.

Lemma keeps_bulkDeletes operations : keepsJournal (applyBulkMetadataDeletes operations).
Proof.
  unfold applyBulkMetadataDeletes. destruct operations; keeps.
  apply keeps_writeChecked. apply keeps_removeRows.
Qed.
#[export] Hint Resolve keeps_handler keeps_bulkUpdates keeps_bulkDeletes : keeps.

Lemma keeps_applyOperations fuel locks now operations :
  keepsJournal (applyOperations fuel locks now operations).
Proof.
  revert operations. induction fuel as [|fuel IH]; intros [|operation rest]; cbn [applyOperations];
    keeps.
Qed.

Lemma keeps_intent locks now intentJson :
  keepsJournal (applyStorageMutationIntentMetadata locks now intentJson).
Proof.
  unfold applyStorageMutationIntentMetadata. destruct (parseRecoverableStorageMutationIntent _);
    [apply keeps_applyOperations|apply keeps_throw].
Qed.

(** ** Bulk updates are a compare-and-swap *)

Definition sourceKey (source : UpdateOperation * list (string * Column)) : EntityType * string :=
  (up_entityType source.1, up_entityId source.1).

Definition applySource (rows : gmap (EntityType * string) Row)
    (source : UpdateOperation * list (string * Column)) : gmap (EntityType * string) Row :=
  alter (setColumns source.2) (sourceKey source) rows.

Lemma bulkUpdate_size db sources updated rows updated' rows' :
  bulkUpdate db sources updated rows = (updated', rows') ->
  (size updated' <= size updated + length sources)%nat.
Proof.
  revert updated rows. induction sources as [|[op columns] sources IH]; intros updated rows H; cbn in *.
  - injection H as <- <-. lia.
  - destruct (_ && negb _) eqn:E; apply IH in H; [|lia].
    apply andb_true_iff in E as [_ E%negb_true_iff%bool_decide_eq_false_1].
    rewrite size_union, size_singleton in H by set_solver. lia.
Qed.

(** When as many rows were updated as sources were given, every source matched
    and no two named the same row. *)
Lemma bulkUpdate_all db sources updated rows updated' rows' :
  bulkUpdate db sources updated rows = (updated', rows') ->
  size updated' = (size updated + length sources)%nat ->
  Forall (fun s => casMatches db (up_entityType s.1) (up_entityId s.1) (up_preRevision s.1) = true)
    sources /\
  NoDup ((fun s => up_entityId s.1) <$> sources) /\
  Forall (fun s => up_entityId s.1 ∉ updated) sources /\
  rows' = foldl applySource rows sources.
Proof.
  revert updated rows. induction sources as [|[op columns] sources IH]; intros updated rows H Hs; cbn in *.
  - injection H as <- <-. repeat constructor.
  - destruct (_ && negb _) eqn:E.
    + apply andb_true_iff in E as [Ec En%negb_true_iff%bool_decide_eq_false_1].
      apply IH in H as (H1 & H2 & H3 & ->);
        [|rewrite size_union, size_singleton by set_solver; lia].
      split; [by constructor|]. split; [|split; [|done]].
      * constructor; [|done]. intros (s & Hid & Hin)%list_elem_of_fmap.
        rewrite Forall_forall in H3. apply (H3 s Hin). set_solver.
      * constructor; [done|]. eapply Forall_impl; [done|]. cbn. set_solver.
    + apply bulkUpdate_size in H. lia.
Qed.

Lemma foldl_applySource_ne rows sources key :
  (forall s, s ∈ sources -> sourceKey s <> key) ->
  foldl applySource rows sources !! key = rows !! key.
Proof.
  revert rows. induction sources as [|s sources IH]; intros rows Hne; cbn; [done|].
  rewrite IH by (intros; apply Hne; set_solver).
  apply lookup_alter_ne, Hne. set_solver.
Qed.

Lemma foldl_applySource rows sources s :
  NoDup ((fun s => up_entityId s.1) <$> sources) -> s ∈ sources ->
  foldl applySource rows sources !! sourceKey s = setColumns s.2 <$> (rows !! sourceKey s).
Proof.
  revert rows. induction sources as [|s0 sources IH]; intros rows Hnd Hin; [set_solver|].
  inversion Hnd as [|? ? Hn Hnd']; subst. cbn.
  assert (Hid : forall s1, s1 ∈ sources -> sourceKey s1 <> sourceKey s0).
  { intros s1 Hs1 [= _ E]. apply Hn, list_elem_of_fmap. eauto. }
  apply elem_of_cons in Hin as [->|Hin].
  - rewrite foldl_applySource_ne by done. apply lookup_alter_eq.
  - rewrite IH by done. unfold applySource.
    rewrite lookup_alter_ne; [done|]. by apply not_eq_sym, Hid.
Qed.

Lemma parseSources_fst operations sources :
  parseSources operations = Some sources -> sources.*1 = operations.
Proof.
  revert sources. induction operations as [|op rest IH]; intros sources H; cbn in H.
  - by injection H as <-.
  - destruct (parseMetadataData (up_data op)) as [data|]; [|done]. cbn in H.
    destruct (castColumns data); [|done]. cbn in H.
    destruct (parseSources rest) eqn:E; [|done]. cbn in H. injection H as <-.
    cbn. by rewrite (IH _ eq_refl).
Qed.

Lemma writeChecked_ok f db u db' : writeChecked f db = Ok (u, db') -> db' = f db.
Proof. unfold writeChecked. destruct (uniqueOk (f db)); [|done]. by intros [= _ <-]. Qed.

(** The columns an update sets. *)
Definition columnsOf (operation : UpdateOperation) : option (list (string * Column)) :=
  data ← parseMetadataData (up_data operation); castColumns data.

Definition rowKey (operation : UpdateOperation) : EntityType * string :=
  (up_entityType operation, up_entityId operation).

Lemma parseSources_columns operations sources :
  parseSources operations = Some sources ->
  forall s, s ∈ sources -> columnsOf s.1 = Some s.2.
Proof.
  revert sources. induction operations as [|op rest IH]; intros sources H; cbn in H.
  - injection H as <-. set_solver.
  - unfold columnsOf in *. destruct (parseMetadataData (up_data op)) as [data|] eqn:Ed; [|done]. cbn in H.
    destruct (castColumns data) eqn:Ec; [|done]. cbn in H.
    destruct (parseSources rest) eqn:E; [|done]. cbn in H. injection H as <-.
    intros s [->|Hs]%elem_of_cons; [cbn; by rewrite Ed|by eapply IH].
Qed.

(** The rows named, each once, at the revision expected, take their new columns. *)
Definition rowsUpdated (operations : list UpdateOperation) (db db' : DB) : Prop :=
  db' = set_rows (db_rows db') db /\
  (forall operation, operation ∈ operations -> exists row columns,
     db_rows db !! rowKey operation = Some row /\
     rw_storageRevision row = up_preRevision operation /\
     columnsOf operation = Some columns /\
     db_rows db' !! rowKey operation = Some (setColumns columns row)) /\
  (forall key, (forall operation, operation ∈ operations -> key <> rowKey operation) ->
     db_rows db' !! key = db_rows db !! key).

Lemma bulk_update_rows operations db u db' :
  applyBulkMetadataUpdates operations db = Ok (u, db') ->
  NoDup (up_entityId <$> operations) /\ rowsUpdated operations db db' /\ uniqueOk db' = true.
Proof.
  intros H. unfold applyBulkMetadataUpdates in H. destruct operations as [|first rest] eqn:Eops; [done|].
  rewrite <- Eops in *. tx_inv H. clear dependent first.
  destruct (parseSources operations) as [sources|] eqn:Es; [|done]. tx_inv H.
  pose proof (parseSources_columns _ _ Es) as Hcols.
  apply parseSources_fst in Es. destruct (bulkUpdate _ _ _ _) as [updated rows] eqn:Eb. tx_inv H.
  apply bool_decide_eq_true_1 in H.
  match type of Htx with _ = Ok (_, ?db2) => assert (Hu : uniqueOk db2 = true) end.
  { unfold writeChecked in Htx. destruct (uniqueOk (set_rows rows _)) eqn:Eu; [|done].
    by injection Htx as _ <-. }
  apply writeChecked_ok in Htx as ->. cbn [db_rows set_rows] in *.
  eapply bulkUpdate_all in Eb as (H1 & H2 & _ & ->);
    [|by rewrite size_empty, H, <- Es, length_fmap].
  assert (Hin : forall operation, operation ∈ operations ->
    exists s, s ∈ sources /\ s.1 = operation).
  { intros operation. rewrite <- Es, list_elem_of_fmap. naive_solver. }
  split; [by rewrite <- Es, <- list_fmap_compose|]. split; [|done]. split_and!; [done| |].
  - intros operation (s & Hs & <-)%Hin. rewrite Forall_forall in H1. specialize (H1 s Hs).
    unfold casMatches in H1. destruct (db_rows db !! _) as [row|] eqn:Er; [|done].
    exists row, s.2. split_and!; [done|by apply bool_decide_eq_true_1 in H1|by apply Hcols|].
    change (rowKey s.1) with (sourceKey s) in *. cbn [db_rows set_rows].
    change (up_entityType s.1, up_entityId s.1) with (sourceKey s) in Er.
    by rewrite foldl_applySource, Er.
  - intros key Hne. cbn [db_rows set_rows]. apply foldl_applySource_ne. intros s Hs <-.
    apply (Hne s.1); [|done]. rewrite <- Es. apply list_elem_of_fmap. eauto.
Qed.

(** a bulk update takes effect only as a compare-and-swap of all its rows:
    each named row was there once, at the revision the operation expected, and
    moves to the next revision with the new columns; no other row changes. *)
Theorem bulk_update_is_compare_and_swap operations db db' :
  applyBulkMetadataUpdates operations db = Ok (tt, db') ->
  NoDup (up_entityId <$> operations) /\
  (forall operation, operation ∈ operations -> exists row columns,
     db_rows db !! (up_entityType operation, up_entityId operation) = Some row /\
     rw_storageRevision row = up_preRevision operation /\
     db_rows db' !! (up_entityType operation, up_entityId operation)
       = Some (setColumns columns row)) /\
  (forall key, (forall operation, operation ∈ operations ->
       key <> (up_entityType operation, up_entityId operation)) ->
     db_rows db' !! key = db_rows db !! key).
Proof.
  intros (Hn & (_ & Hrows & Hothers) & _)%bulk_update_rows. split; [done|]. split; [|done].
  intros operation Hop. destruct (Hrows operation Hop) as (row & columns & ? & ? & _ & ?).
  by exists row, columns.
Qed.

(** ** A run of updates *)

Lemma takeUpdates_app shape operations batch after :
  takeUpdates shape operations = (batch, after) -> operations = (op_update <$> batch) ++ after.
Proof.
  revert batch after. induction operations as [|op rest IH]; intros batch after; cbn.
  - by intros [= <- <-].
  - destruct op; try by intros [= <- <-]. case_bool_decide; [|by intros [= <- <-]].
    destruct (takeUpdates shape rest) as [batch' after'] eqn:E. intros [= <- <-].
    cbn. by rewrite <- (IH batch' after').
Qed.

Lemma rowsUpdated_nil db : rowsUpdated [] db db.
Proof. split_and!; [by destruct db|by intros ? ?%elem_of_nil|done]. Qed.

Lemma rowsUpdated_app ops1 ops2 db db1 db2 :
  NoDup (rowKey <$> ops1 ++ ops2) ->
  rowsUpdated ops1 db db1 -> rowsUpdated ops2 db1 db2 -> rowsUpdated (ops1 ++ ops2) db db2.
Proof.
  intros Hn (E1 & Hr1 & Ho1) (E2 & Hr2 & Ho2). rewrite fmap_app in Hn.
  apply NoDup_app in Hn as (_ & Hn & _). split_and!.
  - rewrite E2. cbn. by rewrite E1.
  - intros op [Hop|Hop]%elem_of_app.
    + destruct (Hr1 op Hop) as (row & columns & ? & ? & ? & E). exists row, columns.
      split_and!; [done..|]. rewrite Ho2; [done|]. intros op' Hop' E'.
      apply (Hn (rowKey op)); [by apply list_elem_of_fmap_2|rewrite E'; by apply list_elem_of_fmap_2].
    + destruct (Hr2 op Hop) as (row & columns & E & ? & ? & ?). exists row, columns.
      split_and!; [|done..]. rewrite <- E. symmetry. apply Ho1. intros op' Hop' E'.
      apply (Hn (rowKey op)); [rewrite E'; by apply list_elem_of_fmap_2|by apply list_elem_of_fmap_2].
  - intros key Hne. rewrite Ho2 by (intros; apply Hne, elem_of_app; by right).
    apply Ho1. intros; apply Hne, elem_of_app; by left.
Qed.

(** ** Updates among entries of the trash *)

Definition ofTrash (operation : StorageMetadataOperation) : Prop :=
  match operation with op_create_trash_entry _ | op_delete_trash_entry _ => True | _ => False end.

(** The rows but for the entries of the trash that they name. *)
Definition keptRows (rows rows' : gmap (EntityType * string) Row) : Prop :=
  forall key name, name <> "trashEntryId" ->
    (fun row => column row name) <$> rows' !! key = (fun row => column row name) <$> rows !! key.

Lemma keptRows_refl rows : keptRows rows rows.
Proof. done. Qed.
Lemma keptRows_trans rows1 rows2 rows3 :
  keptRows rows1 rows2 -> keptRows rows2 rows3 -> keptRows rows1 rows3.
Proof. intros H1 H2 key name Hn. by rewrite H2, H1. Qed.

Lemma trash_keeps_rows locks now operation db u db' :
  ofTrash operation -> metadataOperationHandler locks now operation db = Ok (u, db') ->
  keptRows (db_rows db) (db_rows db').
Proof.
  intros Ho H. destruct operation; try done; cbn in H.
  - unfold create_trash_entry in H. destruct (dateOf _); [|done]. tx_inv H.
    destruct (db_trash _ !! _); [done|]. by apply writeChecked_ok in H as ->.
  - unfold delete_trash_entry in H. tx_inv H. destruct (db_trash _ !! _); [|done]. tx_inv H.
    intros key name Hn. cbn. rewrite lookup_fmap. destruct (_ !! key) as [row|]; [|done]. cbn. f_equal.
    unfold clearReference. destruct (refersTo _ _ _); [|done]. unfold column. cbn.
    by rewrite lookup_insert_ne.
Qed.

Lemma trash_run fuel locks now : forall operations rest db u db',
  Forall ofTrash operations -> (length (operations ++ rest) <= fuel)%nat ->
  applyOperations fuel locks now (operations ++ rest) db = Ok (u, db') ->
  exists fuel' db1, (length rest <= fuel')%nat /\ keptRows (db_rows db) (db_rows db1) /\
    applyOperations fuel' locks now rest db1 = Ok (u, db').
Proof.
  induction fuel as [|fuel IH]; intros [|op operations] rest db u db' Ht Hf H; cbn in Hf;
    [by exists 0%nat, db|lia|by exists (S fuel), db|].
  apply Forall_cons in Ht as [Ho Ht].
  assert (E : (metadataOperationHandler locks now op ≫= fun _ =>
    applyOperations fuel locks now (operations ++ rest)) db = Ok (u, db')) by (by destruct op).
  tx_inv E. apply trash_keeps_rows in Htx; [|done].
  apply IH in E as (fuel' & db1 & ? & ? & ?); [|done|lia].
  exists fuel', db1. split_and!; [done| |done]. by eapply keptRows_trans.
Qed.

(** Updates, batch after batch, every row once; and then the rest of the intent. *)
Lemma updates_then fuel locks now : forall operations post db u db',
  (length operations + length post <= fuel)%nat -> NoDup (rowKey <$> operations) ->
  Forall ofTrash post ->
  applyOperations fuel locks now ((op_update <$> operations) ++ post) db = Ok (u, db') ->
  exists fuel' db1, (length post <= fuel')%nat /\ rowsUpdated operations db db1 /\
    applyOperations fuel' locks now post db1 = Ok (u, db').
Proof.
  induction fuel as [|fuel IH]; intros [|first rest] post db u db' Hf Hn Hp H; cbn [length] in Hf;
    try lia; [exists 0%nat, db|exists (S fuel), db|].
  1,2: split_and!; [done|apply rowsUpdated_nil|done].
  cbn [fmap list_fmap app applyOperations] in H. unfold takeMetadataUpdateBatch in H.
  destruct (takeUpdates (metadataUpdateShape first) ((op_update <$> rest) ++ post)) as [batch after] eqn:Et.
  apply takeUpdates_app in Et. tx_inv H.
  assert (Hsplit : exists others, after = (op_update <$> others) ++ post /\ rest = batch ++ others).
  { clear -Et Hp. revert rest Et. induction batch as [|b batch IHb]; intros rest Et; [by exists rest|].
    destruct rest as [|r rest]; cbn in Et.
    - destruct post as [|o post]; [done|]. injection Et as -> _. by apply Forall_cons in Hp as [? _].
    - injection Et as -> Et. destruct (IHb rest Et) as (others & -> & ->). by exists others. }
  destruct Hsplit as (others & -> & ->). clear Et.
  apply bulk_update_rows in Htx as (_ & Hr & _).
  change (first :: batch ++ others) with ((first :: batch) ++ others) in *.
  rewrite length_app in Hf. pose proof Hn as Hn'. rewrite fmap_app in Hn'.
  apply NoDup_app in Hn' as (_ & _ & Hn').
  apply IH in H as (fuel' & db2 & Hl & Hr' & H); [|lia|done|done].
  exists fuel', db2. split_and!; [done|by eapply rowsUpdated_app|done].
Qed.

Lemma apply_nothing fuel locks now db u db' :
  applyOperations fuel locks now [] db = Ok (u, db') -> db' = db.
Proof. destruct fuel; by intros [= _ <-]. Qed.

(** An intent that only updates. *)
Lemma updates_apply fuel locks now operations db u db' :
  (length operations <= fuel)%nat -> NoDup (rowKey <$> operations) ->
  applyOperations fuel locks now (op_update <$> operations) db = Ok (u, db') ->
  rowsUpdated operations db db'.
Proof.
  intros Hf Hn H. rewrite <- (app_nil_r (op_update <$> operations)) in H.
  apply updates_then in H as (fuel' & db1 & _ & Hr & H); [|cbn; lia|done|done].
  by apply apply_nothing in H as ->.
Qed.

(** Updates among entries of the trash. *)
Lemma intent_run fuel locks now pre operations post db u db' :
  Forall ofTrash pre -> Forall ofTrash post -> NoDup (rowKey <$> operations) ->
  (length (pre ++ (op_update <$> operations) ++ post) <= fuel)%nat ->
  applyOperations fuel locks now (pre ++ (op_update <$> operations) ++ post) db = Ok (u, db') ->
  exists db1 db2, keptRows (db_rows db) (db_rows db1) /\ rowsUpdated operations db1 db2 /\
    keptRows (db_rows db2) (db_rows db').
Proof.
  intros Hpre Hpost Hn Hf H. apply trash_run in H as (fuel1 & db1 & Hl & Hk & H); [|done..].
  rewrite length_app, length_fmap in Hl.
  apply updates_then in H as (fuel2 & db2 & Hl' & Hr & H); [|done..].
  rewrite <- (app_nil_r post) in H, Hl'. apply trash_run in H as (fuel3 & db3 & _ & Hk' & H); [|done..].
  apply apply_nothing in H as ->. by exists db1, db2.
Qed.

(** ** Sums over a table *)

Definition sumOf {A} (f : A -> Z) (l : list A) : Z := foldr Z.add 0 (f <$> l).

Lemma sumOf_Permutation {A} (f : A -> Z) l l' : l ≡ₚ l' -> sumOf f l = sumOf f l'.
Proof. unfold sumOf. induction 1; cbn in *; lia. Qed.

Lemma sum_omap {A} (f : A -> option Z) l :
  foldr Z.add 0 (omap f l) = sumOf (fun x => default 0 (f x)) l.
Proof.
  unfold sumOf. induction l as [|x l IH]; cbn; [done|].
  destruct (f x); cbn; rewrite IH; cbn; lia.
Qed.

Lemma sum_filter {A} (P : A -> Prop) `{forall x, Decision (P x)} (f : A -> Z) l :
  foldr Z.add 0 (f <$> filter P l) = sumOf (fun x => if decide (P x) then f x else 0) l.
Proof.
  unfold sumOf. induction l as [|x l IH]; [done|].
  rewrite filter_cons, fmap_cons. cbn [foldr]. rewrite <- IH.
  destruct (decide (P x)); cbn; lia.
Qed.

Lemma sumOf_insert {A} (f : string * A -> Z) (m : gmap string A) k x :
  m !! k = None ->
  sumOf f (map_to_list (<[k := x]> m)) = f (k, x) + sumOf f (map_to_list m).
Proof. intros Hk. by rewrite (sumOf_Permutation _ _ _ (map_to_list_insert m k x Hk)). Qed.

Lemma sumOf_update {A} (f : string * A -> Z) (m : gmap string A) k x y :
  m !! k = Some x -> f (k, y) = f (k, x) ->
  sumOf f (map_to_list (<[k := y]> m)) = sumOf f (map_to_list m).
Proof.
  intros Hk E. rewrite <- (insert_delete_id m k x Hk) at 2. rewrite <- insert_delete_eq.
  rewrite !sumOf_insert by apply lookup_delete_eq. by rewrite E.
Qed.

(** ** Usage *)

Definition sessionBytes (now : Z) (owner : string) (e : string * UploadSession) : Z :=
  if decide (se_ownerUserId e.2 = owner /\ sessionReserves now e.2 = true)
  then se_totalSizeBytes e.2 else 0.
Definition reservedBytesOf (owner : string) (e : string * Mutation) : Z :=
  default 0 (if bool_decide (mu_ownerUserId e.2 = owner) then mu_reservedBytes e.2 else None).

Lemma sumOwnerQuotaUsage_split now owner db :
  sumOwnerQuotaUsage now owner db
  = committedStorageBytes db owner + sumOf (sessionBytes now owner) (map_to_list (db_sessions db))
    + sumOf (reservedBytesOf owner) (map_to_list (db_mutations db)).
Proof. unfold sumOwnerQuotaUsage. by rewrite sum_filter, sum_omap. Qed.

Lemma linkSession_usage input id db u db' now owner :
  linkPreparedUploadSession input id db = Ok (u, db') ->
  db_rows db' = db_rows db /\ db_mutations db' = db_mutations db /\
  sumOf (sessionBytes now owner) (map_to_list (db_sessions db'))
  = sumOf (sessionBytes now owner) (map_to_list (db_sessions db)).
Proof.
  unfold linkPreparedUploadSession. intros H.
  destruct (pi_uploadSessionId input) as [[|a s]|]; [by tx_inv H| |by tx_inv H].
  tx_inv H. destruct (db_sessions db !! _) as [session|] eqn:Es; tx_inv H. subst.
  split; [done|]. split; [done|]. cbn. by eapply sumOf_update.
Qed.

Lemma quota_admits locks now owner bytes db u db' user limit :
  db_users db !! owner = Some user -> us_storageLimitBytes user = Some limit -> 0 < limit ->
  assertOwnerQuotaAvailable locks now owner bytes db = Ok (u, db') ->
  sumOwnerQuotaUsage now owner db + bytes <= limit.
Proof.
  intros Hu Hl Hpos H. unfold assertOwnerQuotaAvailable, lockOwnerStorageLimit in H. tx_inv H.
  rewrite Hu in Htx. tx_inv Htx. subst. rewrite Hl in *. unfold hasEnforcedStorageLimit in *.
  rewrite bool_decide_eq_true_2 in * by done. tx_inv H.
  by apply bool_decide_eq_true_1 in H.
Qed.

(** C36: a mutation that reserves bytes is prepared only when committed files,
    live upload sessions and every in-flight reservation, its own included, fit
    in the owner's limit. *)
Theorem reservation_fits_the_limit locks now input id keys db m db' user limit bytes :
  db_users db !! pi_ownerUserId input = Some user ->
  us_storageLimitBytes user = Some limit -> 0 < limit ->
  pi_reservedBytes input = Some bytes -> bytes <> 0 ->
  prepareStorageMutationTransaction locks now input id keys db = Ok (m, db') ->
  sumOwnerQuotaUsage now (pi_ownerUserId input) db'
    = sumOwnerQuotaUsage now (pi_ownerUserId input) db + bytes /\
  sumOwnerQuotaUsage now (pi_ownerUserId input) db' <= limit.
Proof.
  intros Hu Hl Hpos Hb Hnz H. pose proof (prepare_ok _ _ _ _ _ _ _ _ H) as Hp.
  unfold prepareStorageMutationTransaction in H. rewrite Hb in H.
  rewrite bool_decide_eq_false_2 in H by done. tx_inv H.
  assert (Hq : db0 = db /\ sumOwnerQuotaUsage now (pi_ownerUserId input) db + bytes <= limit).
  { split; [by eapply assertOwnerQuotaAvailable_ok|by eapply quota_admits]. }
  destruct Hq as [-> Hq].
  assert (E : sumOwnerQuotaUsage now (pi_ownerUserId input) db'
    = sumOwnerQuotaUsage now (pi_ownerUserId input) db + bytes); [|lia].
  apply acquire_ok in Htx0 as [-> _].
  unfold createPreparingStorageMutation in Htx1. tx_inv Htx1.
  apply insertResources_ok in Htx1 as (_ & _ & ->).
  apply validateRevisions_ok in Htx2 as ->. apply validateNamespaces_ok in Htx3 as ->.
  apply (linkSession_usage _ _ _ _ _ now (pi_ownerUserId input)) in Htx4 as (Er & Em & Es).
  unfold updateMutation in Htx5. tx_inv Htx5. cbn in H.
  destruct (alter _ _ _ !! id); tx_inv H. subst. rewrite !sumOwnerQuotaUsage_split.
  unfold committedStorageBytes, typedRows. cbn [db_rows db_sessions db_mutations set_mutations].
  rewrite Er, Es. cbn [db_rows db_sessions db_mutations set_mutations set_resources].
  destruct Hp as [Hnew _ Hr Ho Hm _ _ _ _ _]. cbn in Hm. rewrite Hm.
  rewrite sumOf_insert by done. unfold reservedBytesOf at 1. cbn.
  rewrite Hr, Ho, Hb, bool_decide_eq_true_2 by done. cbn. lia.
Qed.

(** ** Replays *)

(** The unique index on idempotency keys. *)
Definition keysUnique (db : DB) : Prop :=
  forall id id' m m' key, db_mutations db !! id = Some m -> db_mutations db !! id' = Some m' ->
    mu_idempotencyKey m = Some key -> mu_idempotencyKey m' = Some key -> id = id'.

Lemma findByIdempotencyKey_spec db id m key :
  keysUnique db -> db_mutations db !! id = Some m -> mu_idempotencyKey m = Some key ->
  findByIdempotencyKey db key = Some (id, m).
Proof.
  intros Hu Hm Hk. unfold findByIdempotencyKey, mutationList.
  assert (Hin : (id, m) ∈ filter (fun e : string * Mutation => mu_idempotencyKey e.2 = Some key)
                  (map_to_list (db_mutations db)))
    by (apply list_elem_of_filter; split; [done|by apply elem_of_map_to_list]).
  destruct (filter _ _) as [|[id' m'] l] eqn:E; [by apply elem_of_nil in Hin|].
  assert (Hin' : (id', m') ∈ filter (fun e : string * Mutation => mu_idempotencyKey e.2 = Some key)
                   (map_to_list (db_mutations db))) by (rewrite E; constructor).
  apply list_elem_of_filter in Hin' as [Hk' Hm'%elem_of_map_to_list].
  assert (id' = id) as -> by by eapply Hu. rewrite Hm in Hm'. by injection Hm' as ->.
Qed.

(** A request that comes again with its idempotency key, however the first
    one ended, gets that mutation back and changes nothing; the key with
    another request behind it is refused, and that changes nothing either. *)
Theorem prepare_replays_by_key locks now freshId input before during later id m a key :
  keysUnique before -> db_mutations before !! id = Some m ->
  pi_idempotencyKey input = Some (String a key) ->
  mu_idempotencyKey m = Some (String a key) ->
  prepareStorageMutation locks now freshId input before during later
  = ((if bool_decide (mu_ownerUserId m = pi_ownerUserId input)
         && bool_decide (mu_kind m = pi_kind input)
         && bool_decide (mu_requestHash m = pi_requestHash input)
      then Ok {| pr_id := id; pr_mutation := m; pr_replayed := true |}
      else Throw (StorageMutationConflictError STORAGE_IDEMPOTENCY_KEY_REUSED None)), during).
Proof.
  intros Hu Hm Hk Hkm. unfold prepareStorageMutation, findPreparedMutationReplay.
  rewrite Hk, (findByIdempotencyKey_spec before id m) by done.
  unfold assertMatchingStorageMutationReplay. cbn [fst snd]. by destruct (_ && _ && _).
Qed.
