(* ===== verification/JournalExamples.v ===== *)
(** * The journal on a concrete database

    One file is renamed by a durable mutation: it is prepared, claimed,
    committed, finalized and completed by the code itself, and claimed again by
    a second worker after the first one's lease ran out. Each lemma checks the
    hypotheses of one property there and applies it. *)

From Stdlib Require Import Ascii.
From S2P Require Import Prelude Database MutationMetadata MutationPrepare StorageChanges Journal JournalSteps JournalSafety JournalResources MetadataFacts.

Open Scope Z_scope.

(** ** The database and the mutation *)

Definition exampleFile : Row :=
  {| rw_storageRevision := 3;
     rw_columns := <["ownerUserId" := CText "u1"]> (<["folderId" := CText "root"]>
       (<["originalName" := CText "a.txt"]> (<["storageKey" := CText "u1/a.txt"]>
       (<["sizeBytes" := CBigInt 5]> ∅)))) |}.

Definition exampleRoot : Row :=
  {| rw_storageRevision := 0;
     rw_columns := <["ownerUserId" := CText "u1"]> (<["name" := CText "Files"]>
       (<["isFilesRoot" := CBool true]> ∅)) |}.

Definition exampleDB : DB :=
  {| db_rows := <[(et_file, "f1") := exampleFile]> (<[(et_folder, "root") := exampleRoot]> ∅);
     db_users := {[ "u1" := {| us_storageLimitBytes := None; us_usageKnown := true |} ]};
     db_sessions := ∅; db_trash := ∅; db_mutations := ∅; db_resources := [];
     db_changes := []; db_nextSeq := 1 |}.

Definition renameIntent : IntentJson :=
  intent (Some 1) (Some [op_update {| up_entityType := et_file; up_entityId := "f1";
    up_preRevision := 3; up_data := [("originalName", JsString "b.txt")] |}]).

Definition renameInput : PrepareStorageMutationInput :=
  {| pi_id := Some "m1"; pi_reservedBytes := None; pi_parentId := None;
     pi_kind := file_rename; pi_ownerUserId := "u1"; pi_idempotencyKey := Some "k1";
     pi_requestHash := Some "h1"; pi_intentJson := renameIntent;
     pi_initialResultJson := None; pi_resourceKeys := None;
     pi_steps := [{| in_action := rename_step; in_sourceKey := Some "u1/a.txt";
       in_targetKey := Some "u1/b.txt"; in_expectedNodeType := Some file_node;
       in_expectedSizeBytes := Some 5; in_expectedChecksum := None;
       in_treeManifestDigest := None |}];
     pi_entities := [{| en_entityType := et_file; en_entityId := "f1"; en_preRevision := 3;
       en_postRevision := 4; en_beforeJson := None; en_afterJson := None |}];
     pi_uploadSessionId := None; pi_originDeviceId := Some "laptop" |}.

Definition renameKeys : list string :=
  uniqueSorted (deriveStorageMutationResourceKeys renameInput).

(** The database after a transaction that goes through. *)
Definition afterTx {A} (tx : Tx A) (db : DB) : DB :=
  match tx db with Ok (_, db') => db' | Throw _ => db end.

Definition preparedDB := afterTx (prepareStorageMutationTransaction ∅ 0 renameInput "m1" renameKeys) exampleDB.
Definition claimedDB := afterTx (claimTransaction ∅ 1000 30000 "m1" "w1" renameKeys) preparedDB.
Definition takenOverDB := afterTx (claimTransaction ∅ 60000 30000 "m1" "w2" renameKeys) claimedDB.

(** Another mutation, of another path, beside the first one. *)
Definition otherInput : PrepareStorageMutationInput :=
  {| pi_id := Some "m2"; pi_reservedBytes := None; pi_parentId := None;
     pi_kind := folder_create; pi_ownerUserId := "u1"; pi_idempotencyKey := None;
     pi_requestHash := None;
     pi_intentJson := intent (Some 1) (Some [op_create_folder {| cd_id := "d1";
       cd_ownerUserId := "u1"; cd_parentId := Some "root"; cd_name := "docs" |}]);
     pi_initialResultJson := None; pi_resourceKeys := None;
     pi_steps := [{| in_action := mkdir_step; in_sourceKey := None;
       in_targetKey := Some "u1/docs"; in_expectedNodeType := Some directory_node;
       in_expectedSizeBytes := None; in_expectedChecksum := None;
       in_treeManifestDigest := None |}];
     pi_entities := []; pi_uploadSessionId := None; pi_originDeviceId := None |}.
Definition otherKeys : list string := uniqueSorted (deriveStorageMutationResourceKeys otherInput).
Definition bothDB := afterTx (prepareStorageMutationTransaction ∅ 0 otherInput "m2" otherKeys) claimedDB.

Definition renameMetadata : Tx unit := applyStorageMutationIntentMetadata ∅ 2000 renameIntent.
Definition committedDB :=
  afterTx (commitStorageMutationMetadata ∅ 2000 2000 "m1" "u1" "w1" 1 renameMetadata
             (fun _ => Some (JString "renamed"))) claimedDB.
Definition succeededDB :=
  afterTx (completeStorageMutation ∅ 3000 3000 "m1" "w1" 1 None) committedDB.
Definition retriedDB := afterTx (retryStorageMutation 2000 "m1" "w1" 1 "disk busy") claimedDB.

Definition goesThrough {A} (tx : Tx A) (db : DB) : bool :=
  match tx db with Ok _ => true | Throw _ => false end.

Lemma afterTx_ok {A} (tx : Tx A) db :
  goesThrough tx db = true -> exists x, tx db = Ok (x, afterTx tx db).
Proof. unfold goesThrough, afterTx. destruct (tx db) as [[x db']|e]; [eauto|done]. Qed.

Lemma afterTx_unit (tx : Tx unit) db :
  goesThrough tx db = true -> tx db = Ok (tt, afterTx tx db).
Proof. by intros [[] E]%afterTx_ok. Qed.

Lemma exampleDB_journalOk : journalOk exampleDB.
Proof. by intros id m Hm. Qed.

Lemma exampleDB_locksOk : locksOk exampleDB.
Proof.
  assert (Hno : forall r, r ∈ liveResources exampleDB -> False).
  { intros r [Hr _]%elem_of_live. by apply elem_of_nil in Hr. }
  split; [constructor|]; first
    [by intros r []%Hno|by intros r r' []%Hno].
Qed.

Lemma prepared_step : journal_step exampleDB preparedDB.
Proof.
  destruct (afterTx_ok (prepareStorageMutationTransaction ∅ 0 renameInput "m1" renameKeys)
    exampleDB) as [m E]; [vm_compute; reflexivity|].
  refine (st_prepare _ _ _ _ _ _ _ _ _ E). discriminate.
Qed.

Lemma claimed_step : journal_step preparedDB claimedDB.
Proof.
  destruct (afterTx_ok (claimTransaction ∅ 1000 30000 "m1" "w1" renameKeys) preparedDB)
    as [m E]; [vm_compute; reflexivity|].
  refine (st_claim _ _ _ _ _ _ _ _ _ _ E). discriminate.
Qed.

Lemma takenOver_step : journal_step claimedDB takenOverDB.
Proof.
  destruct (afterTx_ok (claimTransaction ∅ 60000 30000 "m1" "w2" renameKeys) claimedDB)
    as [m E]; [vm_compute; reflexivity|].
  refine (st_claim _ _ _ _ _ _ _ _ _ _ E). discriminate.
Qed.

Lemma claimed_steps : rtc journal_step exampleDB claimedDB.
Proof. eapply rtc_l; [apply prepared_step|]. apply rtc_once, claimed_step. Qed.

Lemma claimedDB_journalOk : journalOk claimedDB.
Proof. eapply steps_journalOk; [apply exampleDB_journalOk|apply claimed_steps]. Qed.

Lemma both_step : journal_step claimedDB bothDB.
Proof.
  destruct (afterTx_ok (prepareStorageMutationTransaction ∅ 0 otherInput "m2" otherKeys)
    claimedDB) as [m E]; [vm_compute; reflexivity|].
  refine (st_prepare _ _ _ _ _ _ _ _ _ E). discriminate.
Qed.

Lemma committed_step : journal_step claimedDB committedDB.
Proof.
  destruct (afterTx_ok (commitStorageMutationMetadata ∅ 2000 2000 "m1" "u1" "w1" 1
    renameMetadata (fun _ => Some (JString "renamed"))) claimedDB) as [x E];
    [vm_compute; reflexivity|].
  refine (st_commit _ _ _ _ _ _ _ _ _ _ _ _ _ _ E). apply keeps_intent.
Qed.

Lemma succeeded_step : journal_step committedDB succeededDB.
Proof.
  refine (st_complete _ _ _ _ _ _ _ _ _ (afterTx_unit _ _ _)). vm_compute; reflexivity.
Qed.

Lemma both_steps : rtc journal_step exampleDB bothDB.
Proof. eapply rtc_r; [apply claimed_steps|apply both_step]. Qed.

Lemma committedDB_journalOk : journalOk committedDB.
Proof. exact (step_journalOk _ _ claimedDB_journalOk committed_step). Qed.

Lemma succeededDB_journalOk : journalOk succeededDB.
Proof. exact (step_journalOk _ _ committedDB_journalOk succeeded_step). Qed.

(** The row a database holds, for goals that name it. *)
Definition rowAt (db : DB) (id : string) : Mutation :=
  match db_mutations db !! id with Some m => m | None => newMutation renameInput "m1" None end.

(** ** The properties on it *)

Lemma journal_refines_witness :
  journalOk exampleDB /\ rtc journal_step exampleDB claimedDB /\ journalOk claimedDB.
Proof.
  split; [apply exampleDB_journalOk|]. split; [apply claimed_steps|].
  exact (proj1 (journal_refines_mutation_life exampleDB claimedDB exampleDB_journalOk
    claimed_steps)).
Defined.

(** The second worker took the mutation over under token 2. *)
Lemma stale_worker_witness :
  db_mutations takenOverDB !! "m1" = Some (rowAt takenOverDB "m1") /\
  ls_token (mu_lease (rowAt takenOverDB "m1")) = 2 /\
  fencedOff takenOverDB "m1" "w1" 1.
Proof.
  split; [vm_compute; reflexivity|]. split; [vm_compute; reflexivity|].
  apply (stale_worker_is_fenced_off takenOverDB takenOverDB "m1" (rowAt takenOverDB "m1") "w1" 1).
  - eapply step_journalOk; [apply claimedDB_journalOk|apply takenOver_step].
  - vm_compute; reflexivity.
  - vm_compute; reflexivity.
  - apply rtc_refl.
Defined.

Lemma live_lease_witness :
  goesThrough (claimTransaction ∅ 2000 30000 "m1" "w2" renameKeys) claimedDB = true /\
  forall locks leaseMs other resources token db',
    claimTransaction locks 2000 leaseMs "m1" other resources claimedDB = Ok (token, db') ->
    token = None /\ db' = claimedDB.
Proof.
  split; [vm_compute; reflexivity|].
  refine (proj1 (live_lease_cannot_be_taken claimedDB "m1" (rowAt claimedDB "m1") 31000 2000
    _ _ _ _ _)).
  - apply claimedDB_journalOk.
  - vm_compute; reflexivity.
  - intros H. vm_compute in H. discriminate H.
  - vm_compute; reflexivity.
  - lia.
Defined.

Lemma committed_metadata_witness :
  mu_metadataCommittedAt (rowAt committedDB "m1") = Some 2000 /\
  exists m', db_mutations succeededDB !! "m1" = Some m' /\
    mu_metadataCommittedAt m' = Some 2000 /\
    mu_status m' ∈ [metadata_committed; finalizing; succeeded; recovery_required].
Proof.
  split; [vm_compute; reflexivity|].
  refine (proj1 (committed_metadata_is_final committedDB succeededDB "m1"
    (rowAt committedDB "m1") 2000 committedDB_journalOk _ _ (rtc_once _ _ succeeded_step)));
    vm_compute; reflexivity.
Defined.

Lemma terminal_mutations_witness :
  mu_status (rowAt succeededDB "m1") = succeeded /\
  exists m', db_mutations succeededDB !! "m1" = Some m' /\
    mu_status m' = mu_status (rowAt succeededDB "m1") /\ ls_owner (mu_lease m') = None.
Proof.
  split; [vm_compute; reflexivity|].
  refine (terminal_mutations_stay succeededDB succeededDB "m1" (rowAt succeededDB "m1")
    succeededDB_journalOk _ _ (rtc_refl _ _)).
  - vm_compute; reflexivity.
  - apply elem_of_status. vm_compute; reflexivity.
Defined.

Lemma retry_witness :
  exists m' next, db_mutations retriedDB !! "m1" = Some m' /\
    at_nextAttemptAt (mu_attempts m') = Some next /\
    next = 2000 + 1000 * 2 ^ Z.min (at_count (mu_attempts (rowAt claimedDB "m1"))) 10 /\
    2000 + 1000 <= next <= 2000 + 1024000 /\
    mu_status m' = (if bool_decide (mu_metadataCommittedAt (rowAt claimedDB "m1") = None)
                    then retrying else finalizing).
Proof.
  refine (retry_backs_off 2000 "m1" "w1" 1 "disk busy" claimedDB retriedDB
    (rowAt claimedDB "m1") claimedDB_journalOk _ _ (afterTx_unit _ _ _)).
  - vm_compute; reflexivity.
  - vm_compute. discriminate.
  - vm_compute; reflexivity.
Defined.

(** The locks of both mutations, live at the same time. *)
Definition lockOn (key mutationId : string) (fenceToken : Z) : Resource :=
  {| rs_resourceKey := key; rs_mutationId := mutationId; rs_fenceToken := fenceToken;
     rs_releasedAt := None |}.

Lemma live_locks_witness :
  rs_resourceKey (lockOn "owner:u1/u1/a.txt" "m1" 1) <> rs_resourceKey (lockOn "owner:u1/u1/docs" "m2" 0) /\
  rs_resourceKey (lockOn "owner:u1/u1/a.txt" "m1" 1) <> globalRecovery.
Proof.
  assert (H := live_locks_never_overlap exampleDB bothDB (lockOn "owner:u1/u1/a.txt" "m1" 1)
    (lockOn "owner:u1/u1/docs" "m2" 0) exampleDB_journalOk exampleDB_locksOk both_steps).
  destruct H as (H1 & _ & H2).
  - apply list_elem_of_lookup_2 with 0%nat. vm_compute; reflexivity.
  - apply list_elem_of_lookup_2 with 2%nat. vm_compute; reflexivity.
  - discriminate.
  - by split.
Defined.

Lemma living_owner_witness :
  exists m, db_mutations claimedDB !! "m1" = Some m /\
    mu_status m <> succeeded /\ mu_status m <> aborted.
Proof.
  refine (live_locks_have_a_living_owner exampleDB claimedDB (lockOn "owner:u1/u1/a.txt" "m1" 1)
    exampleDB_journalOk exampleDB_locksOk claimed_steps _).
  apply list_elem_of_lookup_2 with 0%nat. vm_compute; reflexivity.
Defined.

(** ** The feed *)

(** The file as it was before the rename. *)
Definition beforeRename : StorageItemSnapshot := readStorageItemSnapshot "m1" claimedDB.
Definition renamedDB : DB := afterTx renameMetadata claimedDB.
Definition appendedDB : DB :=
  afterTx (appendStorageChanges ∅ 2000 "m1" "u1" beforeRename) renamedDB.

Lemma append_witness :
  length (db_changes appendedDB) = 1%nat /\ feedOk appendedDB.
Proof.
  split; [vm_compute; reflexivity|].
  refine (proj1 (appendStorageChanges_keeps_order ∅ 2000 "m1" "u1" beforeRename renamedDB
    appendedDB _ (afterTx_unit _ _ _))).
  - split; [constructor|]. split; [constructor|]. vm_compute. reflexivity.
  - vm_compute; reflexivity.
Defined.

(** A feed that lost its first entry to pruning, read one entry at a time. *)
Definition exampleChange (seq : Z) (ownerUserId : string) : StorageChange :=
  {| sc_seq := seq; sc_ownerUserId := ownerUserId; sc_mutationId := "m"; sc_kind := created_change;
     sc_itemType := et_file; sc_itemId := "f"; sc_parentId := Some "root";
     sc_previousParentId := None; sc_path := "f"; sc_previousPath := None; sc_name := "f";
     sc_sizeBytes := Some 1; sc_contentChecksum := None; sc_storageRevision := 0;
     sc_clientModifiedAt := None; sc_originDeviceId := None; sc_createdAt := seq * 1000 |}.

Definition feedDB : DB :=
  set_changes [exampleChange 2 "u1"; exampleChange 3 "u2"; exampleChange 4 "u1";
               exampleChange 6 "u1"; exampleChange 7 "u2"] 8 exampleDB.

Lemma feedDB_feedOk : feedOk feedDB.
Proof.
  split; [|split].
  - repeat (constructor; [|repeat (constructor; [reflexivity|]); constructor]). constructor.
  - repeat (constructor; [by split|]). constructor.
  - reflexivity.
Qed.

Lemma paging_witness :
  readAll "u1" feedDB 4 1 1
  = Ok ([exampleChange 2 "u1"; exampleChange 4 "u1"; exampleChange 6 "u1"], 7).
Proof.
  refine (paging_reads_every_change "u1" feedDB feedDB_feedOk 1 1 4 _ _ _).
  - split; [vm_compute; discriminate|]. intros oldest [= <-]. lia.
  - lia.
  - vm_compute. lia.
Defined.

(** ** Pruning *)

Definition feedTime : Z := 90 * 86400000 + 4500.

(** The entries 2, 3 and 4 are older than the retention. *)
Lemma prune_witness :
  (pruneStorageChanges feedTime feedDB).2 = 3%nat /\
  changesAfter "u1" 5 (currentStorageChangeCursor feedDB) (pruneStorageChanges feedTime feedDB).1
  = changesAfter "u1" 5 (currentStorageChangeCursor feedDB) feedDB.
Proof.
  split; [vm_compute; reflexivity|].
  refine (proj2 (prune_is_invisible_to_live_cursors feedTime feedDB "u1" 5 feedDB_feedOk _ _)).
  - intros c c' Hc Hc'. unfold feedDB in Hc, Hc'. cbn in Hc, Hc'.
    repeat (apply elem_of_cons in Hc as [->|Hc]);
      repeat (apply elem_of_cons in Hc' as [->|Hc']); cbn; try lia;
      try (by apply elem_of_nil in Hc); by apply elem_of_nil in Hc'.
  - split; [vm_compute; discriminate|]. intros oldest H. vm_compute in H. injection H as <-. lia.
Defined.

(** Two entries stamped against their numbers: a transaction that began first
    but took the feed's lock second. *)
Definition crossedDB : DB :=
  set_changes
    [exampleChange 1 "u1";
     {| sc_seq := 2; sc_ownerUserId := "u1"; sc_mutationId := "m"; sc_kind := created_change;
        sc_itemType := et_file; sc_itemId := "g"; sc_parentId := Some "root";
        sc_previousParentId := None; sc_path := "g"; sc_previousPath := None; sc_name := "g";
        sc_sizeBytes := Some 1; sc_contentChecksum := None; sc_storageRevision := 0;
        sc_clientModifiedAt := None; sc_originDeviceId := None; sc_createdAt := 900 |};
     exampleChange 3 "u1"] 4 exampleDB.

(** Without stamps in order, an accepted cursor can miss an entry: 2 is pruned
    while 1 stays, and a reader at 1 is not told that its cursor expired. *)
Example prune_can_leave_a_gap :
  feedOk crossedDB /\
  readStorageChanges "u1" 1 10 (pruneStorageChanges (90 * 86400000 + 950) crossedDB).1
  = Ok {| pg_changes := [exampleChange 3 "u1"]; pg_hasMore := false; pg_cursor := 3 |} /\
  length (changesAfter "u1" 1 3 crossedDB) = 2%nat.
Proof.
  split; [|split; vm_compute; reflexivity]. split; [|split].
  - repeat (constructor; [|repeat (constructor; [reflexivity|]); constructor]). constructor.
  - repeat (constructor; [by split|]). constructor.
  - reflexivity.
Qed.

(** ** Statements *)

Definition renameUpdate : UpdateOperation :=
  {| up_entityType := et_file; up_entityId := "f1"; up_preRevision := 3;
     up_data := [("originalName", JsString "b.txt")] |}.

Lemma bulk_update_witness :
  exists row columns,
    db_rows exampleDB !! (et_file, "f1") = Some row /\ rw_storageRevision row = 3 /\
    db_rows (afterTx (applyBulkMetadataUpdates [renameUpdate]) exampleDB) !! (et_file, "f1")
      = Some (setColumns columns row).
Proof.
  destruct (bulk_update_is_compare_and_swap [renameUpdate] exampleDB
    (afterTx (applyBulkMetadataUpdates [renameUpdate]) exampleDB)) as (_ & H & _).
  - apply afterTx_unit. vm_compute; reflexivity.
  - exact (H renameUpdate (list_elem_of_here _ _)).
Defined.

(** ** Quota and replays *)

Definition limitedDB : DB :=
  {| db_rows := db_rows exampleDB;
     db_users := {[ "u1" := {| us_storageLimitBytes := Some 100; us_usageKnown := true |} ]};
     db_sessions := ∅; db_trash := ∅; db_mutations := ∅; db_resources := [];
     db_changes := []; db_nextSeq := 1 |}.

Definition uploadInput : PrepareStorageMutationInput :=
  {| pi_id := Some "m3"; pi_reservedBytes := Some 90; pi_parentId := None;
     pi_kind := upload_create; pi_ownerUserId := "u1"; pi_idempotencyKey := Some "k3";
     pi_requestHash := Some "h3"; pi_intentJson := intent (Some 1) (Some []);
     pi_initialResultJson := None; pi_resourceKeys := None; pi_steps := []; pi_entities := [];
     pi_uploadSessionId := None; pi_originDeviceId := None |}.

Definition uploadTx := prepareStorageMutationTransaction ∅ 0 uploadInput "m3" ["owner:u1"].

Lemma reservation_witness :
  sumOwnerQuotaUsage 0 "u1" (afterTx uploadTx limitedDB) = 95 /\
  sumOwnerQuotaUsage 0 "u1" (afterTx uploadTx limitedDB) <= 100.
Proof.
  split; [vm_compute; reflexivity|].
  destruct (afterTx_ok uploadTx limitedDB) as [m E]; [vm_compute; reflexivity|].
  refine (proj2 (reservation_fits_the_limit ∅ 0 uploadInput "m3" ["owner:u1"] limitedDB m
    (afterTx uploadTx limitedDB) {| us_storageLimitBytes := Some 100; us_usageKnown := true |}
    100 90 _ _ _ _ _ E)); first [reflexivity|lia].
Defined.

(** The rename comes again, after it succeeded. *)
Lemma replay_witness :
  (prepareStorageMutation ∅ 9000 "new" renameInput succeededDB succeededDB succeededDB).1
  = Ok {| pr_id := "m1"; pr_mutation := rowAt succeededDB "m1"; pr_replayed := true |}.
Proof.
  rewrite (prepare_replays_by_key ∅ 9000 "new" renameInput succeededDB succeededDB succeededDB "m1"
    (rowAt succeededDB "m1") "k"%char "1").
  - vm_compute; reflexivity.
  - assert (E : map_to_list (db_mutations succeededDB) = [("m1", rowAt succeededDB "m1")])
      by (vm_compute; reflexivity).
    intros id id' m m' key Hm%elem_of_map_to_list Hm'%elem_of_map_to_list _ _.
    rewrite E in Hm, Hm'. apply list_elem_of_singleton in Hm, Hm'. congruence.
  - vm_compute; reflexivity.
  - reflexivity.
  - vm_compute; reflexivity.
Defined.
