(* ===== verification/SyncStore.v ===== *)
(** * The engine's memory between runs

    [apps/desktop/src/engine/store.ts]: the tables of the local SQLite file and
    what each method does to them. A table with a primary key is a map from the
    key; the conflicts are rows in the order of their ids. Opening, closing and
    upgrading the file are not modelled, and every method that runs in
    [transaction] is one update. *)

From Stdlib Require Import Ascii.
From Stdlib Require String.
From S2P Require Import Prelude SyncTypes.

Open Scope Z_scope.

Record PendingUpload := {
  pu_pairId : string; pu_rel : string; pu_sessionId : string; pu_checksum : string;
  pu_size : Z; pu_mtimeMs : Z; pu_target : string
}.

Record ConflictRow := {
  cr_id : Z; cr_pairId : string; cr_rel : string; cr_copyRel : string
}.

Record Store := {
  st_meta : gmap string string;
  st_remote : gmap string RemoteItem;
  st_base : gmap (string * string) BaseEntry;
  st_upload : gmap (string * string) PendingUpload;
  st_conflict : list ConflictRow;
  st_nextConflict : Z
}.

Definition set_meta (meta : gmap string string) (s : Store) : Store :=
  {| st_meta := meta; st_remote := st_remote s; st_base := st_base s;
     st_upload := st_upload s; st_conflict := st_conflict s;
     st_nextConflict := st_nextConflict s |}.
Definition set_remote (remote : gmap string RemoteItem) (s : Store) : Store :=
  {| st_meta := st_meta s; st_remote := remote; st_base := st_base s;
     st_upload := st_upload s; st_conflict := st_conflict s;
     st_nextConflict := st_nextConflict s |}.
Definition set_base (base : gmap (string * string) BaseEntry) (s : Store) : Store :=
  {| st_meta := st_meta s; st_remote := st_remote s; st_base := base;
     st_upload := st_upload s; st_conflict := st_conflict s;
     st_nextConflict := st_nextConflict s |}.
Definition set_upload (upload : gmap (string * string) PendingUpload) (s : Store) : Store :=
  {| st_meta := st_meta s; st_remote := st_remote s; st_base := st_base s;
     st_upload := upload; st_conflict := st_conflict s;
     st_nextConflict := st_nextConflict s |}.
Definition set_conflict (conflict : list ConflictRow) (next : Z) (s : Store) : Store :=
  {| st_meta := st_meta s; st_remote := st_remote s; st_base := st_base s;
     st_upload := st_upload s; st_conflict := conflict; st_nextConflict := next |}.

(** ** Meta *)

Definition getMeta (key : string) (s : Store) : option string := st_meta s !! key.
Definition setMeta (key : string) (value : option string) (s : Store) : Store :=
  match value with
  | None => set_meta (delete key (st_meta s)) s
  | Some value => set_meta (<[key := value]> (st_meta s)) s
  end.

(** ** Server items *)

Definition remoteItems (s : Store) : list RemoteItem := (map_to_list (st_remote s)).*2.
Definition putRemote (item : RemoteItem) (s : Store) : Store :=
  set_remote (<[ri_id item := item]> (st_remote s)) s.
Definition deleteRemote (ids : list string) (s : Store) : Store :=
  set_remote (foldl (fun remote id => delete id remote) (st_remote s) ids) s.
Definition clearRemote (s : Store) : Store := set_remote ∅ s.

(** ** The base *)

Definition baseEntries (pairId : string) (s : Store) : list BaseEntry :=
  filter (fun e => be_pairId e = pairId) (map_to_list (st_base s)).*2.
Definition fileCount (pairId : string) (s : Store) : nat :=
  length (filter (fun e => be_pairId e = pairId /\ be_type e = file)
            (map_to_list (st_base s)).*2).
Definition putBase (entry : BaseEntry) (s : Store) : Store :=
  set_base (<[(be_pairId entry, be_rel entry) := entry]> (st_base s)) s.
Definition deleteBase (pairId rel : string) (s : Store) : Store :=
  set_base (delete (pairId, rel) (st_base s)) s.

(** [rel = ? OR substr(rel, 1, length(?)) = ?]: the path or one below it. *)
Definition inBaseTree (tree rel : string) : bool :=
  bool_decide (rel = tree) || String.prefix (tree +:+ "/") rel.

Definition deleteBaseTree (pairId rel : string) (s : Store) : Store :=
  set_base (filter (fun e : (string * string) * BaseEntry =>
              ~ (e.1.1 = pairId /\ inBaseTree rel e.1.2 = true)) (st_base s)) s.

Definition withRel (rel : string) (e : BaseEntry) : BaseEntry :=
  {| be_pairId := be_pairId e; be_rel := rel; be_type := be_type e;
     be_remoteId := be_remoteId e; be_rev := be_rev e; be_checksum := be_checksum e;
     be_size := be_size e; be_mtimeMs := be_mtimeMs e; be_ino := be_ino e |}.

Definition moveBaseTree (pairId from to : string) (s : Store) : Store :=
  let rows := filter (fun e => be_pairId e = pairId /\ inBaseTree from (be_rel e) = true)
                (map_to_list (st_base s)).*2 in
  foldl (fun s row => putBase (withRel (to +:+ sliceFrom (String.length from) (be_rel row)) row) s)
    (deleteBaseTree pairId from s) rows.

(** ** Pairs *)

Definition clearPair (pairId : string) (s : Store) : Store :=
  set_conflict (filter (fun c => cr_pairId c <> pairId) (st_conflict s)) (st_nextConflict s)
    (set_upload (filter (fun e : (string * string) * PendingUpload => e.1.1 <> pairId)
                   (st_upload s))
       (set_base (filter (fun e : (string * string) * BaseEntry => e.1.1 <> pairId)
                    (st_base s)) s)).

Definition pairKeys : list string := ["ready"; "gone"; "allow-emptied"; "sizes"].

(** [/^(?:ready|gone|allow-emptied|sizes):(.+)$/]. *)
Definition pairOfKey (key : string) : option string :=
  head (omap (fun name =>
    if String.prefix (name +:+ ":") key
    then let pairId := sliceFrom (S (String.length name)) key in
         if bool_decide (pairId = "") || hasLineTerminator pairId then None else Some pairId
    else None) pairKeys).

Definition knownPairs (s : Store) : list string :=
  setOf ((map_to_list (st_base s)).*1.*1 ++ (map_to_list (st_upload s)).*1.*1
         ++ (cr_pairId <$> st_conflict s)
         ++ omap pairOfKey (map_to_list (st_meta s)).*1).

Definition forgetPair (pairId : string) (s : Store) : Store :=
  foldl (fun s key => setMeta (key +:+ ":" +:+ pairId) None s) (clearPair pairId s) pairKeys.

Definition forgetPairsExcept (pairIds : list string) (s : Store) : Store :=
  foldl (fun s pairId => if bool_decide (pairId ∈ pairIds) then s else forgetPair pairId s)
    s (knownPairs s).

(** ** Uploads and conflicts *)

Definition pendingUploads (s : Store) : list PendingUpload := (map_to_list (st_upload s)).*2.
Definition pendingUpload (pairId rel : string) (s : Store) : option PendingUpload :=
  st_upload s !! (pairId, rel).
Definition putUpload (upload : PendingUpload) (s : Store) : Store :=
  set_upload (<[(pu_pairId upload, pu_rel upload) := upload]> (st_upload s)) s.
Definition deleteUpload (pairId rel : string) (s : Store) : Store :=
  set_upload (delete (pairId, rel) (st_upload s)) s.

Definition conflicts (s : Store) : list ConflictRow := st_conflict s.
(** AUTOINCREMENT: an id is never used again. *)
Definition addConflict (pairId rel copyRel : string) (s : Store) : Store :=
  set_conflict
    (st_conflict s ++ [{| cr_id := st_nextConflict s; cr_pairId := pairId; cr_rel := rel;
                          cr_copyRel := copyRel |}])
    (st_nextConflict s + 1) s.
Definition deleteConflict (id : Z) (s : Store) : Store :=
  set_conflict (filter (fun c => cr_id c <> id) (st_conflict s)) (st_nextConflict s) s.

(** ** Facts *)

Lemma inBaseTree_spec tree rel :
  inBaseTree tree rel = true <->
  exists rest, rel = tree +:+ rest /\ (rest = "" \/ exists below, rest = "/" +:+ below).
Proof.
  unfold inBaseTree. rewrite orb_true_iff, bool_decide_eq_true, prefix_spec. split.
  - intros [->|[r ->]]; [exists ""; rewrite string_app_nil_r; eauto|].
    exists ("/" +:+ r). rewrite string_app_assoc. eauto.
  - intros (rest & -> & [->|[below ->]]); [left; apply string_app_nil_r|right].
    exists below. by rewrite string_app_assoc.
Qed.

(** Every row sits under its own key. *)
Definition storeOk (s : Store) : Prop :=
  (forall k e, st_base s !! k = Some e -> k = (be_pairId e, be_rel e)) /\
  (forall id item, st_remote s !! id = Some item -> ri_id item = id) /\
  (forall k u, st_upload s !! k = Some u -> k = (pu_pairId u, pu_rel u)).

Lemma st_base_fold_put (f : BaseEntry -> BaseEntry) rows s :
  st_base (foldl (fun s row => putBase (f row) s) s rows)
  = foldl (fun base row => <[(be_pairId (f row), be_rel (f row)) := f row]> base)
      (st_base s) rows.
Proof. revert s. induction rows as [|row rows IH]; intros s; cbn; [done|]. by rewrite IH. Qed.

(** Rows written under distinct keys are all there after the loop. *)
Lemma foldl_put_lookup {A} (key : A -> string * string) (value : A -> BaseEntry) (rows : list A)
    (base : gmap (string * string) BaseEntry) (k : string * string) :
  foldl (fun base row => <[key row := value row]> base) base rows !! k
  = match last (filter (fun row => key row = k) rows) with
    | Some row => Some (value row)
    | None => base !! k
    end.
Proof.
  induction rows as [|row rows IH] using rev_ind; [done|].
  rewrite foldl_app, filter_app. cbn [foldl].
  rewrite filter_cons, filter_nil. destruct (decide (key row = k)) as [<-|Hne].
  - by rewrite lookup_insert_eq, last_snoc.
  - by rewrite lookup_insert_ne, IH, app_nil_r.
Qed.

Lemma elem_of_baseRows s e :
  storeOk s -> e ∈ (map_to_list (st_base s)).*2 <-> st_base s !! (be_pairId e, be_rel e) = Some e.
Proof.
  intros [Hok _]. rewrite list_elem_of_fmap. split.
  - intros ([k e'] & -> & He%elem_of_map_to_list). cbn. by rewrite <- (Hok k e' He).
  - intros He. exists ((be_pairId e, be_rel e), e). split; [done|]. by apply elem_of_map_to_list.
Qed.

Definition movedRows (pairId from : string) (s : Store) : list BaseEntry :=
  filter (fun e => be_pairId e = pairId /\ inBaseTree from (be_rel e) = true)
    (map_to_list (st_base s)).*2.

Definition movedRel (from to : string) (row : BaseEntry) : string :=
  to +:+ sliceFrom (String.length from) (be_rel row).

Lemma elem_of_movedRows pairId from s e :
  storeOk s -> e ∈ movedRows pairId from s <->
  be_pairId e = pairId /\ inBaseTree from (be_rel e) = true /\
  st_base s !! (pairId, be_rel e) = Some e.
Proof.
  intros Hok. unfold movedRows. rewrite list_elem_of_filter, elem_of_baseRows by done.
  naive_solver.
Qed.

(** What the base holds at a path after a move. *)
Lemma moveBaseTree_lookup pairId from to s pair rel :
  storeOk s ->
  st_base (moveBaseTree pairId from to s) !! (pair, rel)
  = match last (filter (fun row => (be_pairId row, movedRel from to row) = (pair, rel))
                  (movedRows pairId from s)) with
    | Some row => Some (withRel rel row)
    | None => if bool_decide (pair = pairId) && inBaseTree from rel then None
              else st_base s !! (pair, rel)
    end.
Proof.
  intros Hok. unfold moveBaseTree. fold (movedRows pairId from s).
  rewrite (st_base_fold_put (fun row => withRel (movedRel from to row) row)).
  cbn [withRel be_pairId be_rel].
  rewrite (foldl_put_lookup (fun row => (be_pairId row, movedRel from to row))
    (fun row => withRel (movedRel from to row) row)).
  destruct (last (filter _ _)) as [row|] eqn:El.
  - apply last_Some_elem_of, list_elem_of_filter in El as [[= _ ->] _]. done.
  - unfold deleteBaseTree. cbn [st_base set_base].
    destruct (bool_decide (pair = pairId) && inBaseTree from rel) eqn:E.
    + apply andb_true_iff in E as [->%bool_decide_eq_true_1 E].
      apply map_lookup_filter_None_2. right. intros e _ Hn. by apply Hn.
    + destruct (st_base s !! (pair, rel)) as [e|] eqn:Eb.
      * apply map_lookup_filter_Some_2; [done|]. cbn. intros [-> Hin].
        rewrite bool_decide_eq_true_2, Hin in E by done. done.
      * apply map_lookup_filter_None_2. by left.
Qed.

(** Renaming a path in the base carries its entry and every entry below it
    to the new place, leaves nothing behind, and touches no entry outside the
    old and the new place. *)
Theorem moveBaseTree_moves_the_tree pairId from to s :
  storeOk s ->
  (forall rest e, inBaseTree from (from +:+ rest) = true ->
     st_base s !! (pairId, from +:+ rest) = Some e ->
     st_base (moveBaseTree pairId from to s) !! (pairId, to +:+ rest)
     = Some (withRel (to +:+ rest) e)) /\
  (forall rel, inBaseTree from rel = true -> inBaseTree to rel = false ->
     st_base (moveBaseTree pairId from to s) !! (pairId, rel) = None) /\
  (forall pair rel, pair <> pairId \/ (inBaseTree from rel = false /\ inBaseTree to rel = false) ->
     st_base (moveBaseTree pairId from to s) !! (pair, rel) = st_base s !! (pair, rel)).
Proof.
  intros Hok.
  assert (Hto : forall row, row ∈ movedRows pairId from s ->
    be_pairId row = pairId /\ exists rest, be_rel row = from +:+ rest /\
      movedRel from to row = to +:+ rest /\ inBaseTree to (to +:+ rest) = true /\
      st_base s !! (pairId, from +:+ rest) = Some row).
  { intros row (Hp & (rest & Hr & Hrest)%inBaseTree_spec & Hl)%elem_of_movedRows; [|done].
    split; [done|]. exists rest. unfold movedRel. rewrite Hr, sliceFrom_app, <- Hr.
    split; [done|]. split; [done|]. split; [|done]. apply inBaseTree_spec. eauto. }
  split; [|split].
  - intros rest e Hin He. rewrite moveBaseTree_lookup by done.
    assert (Hrow : e ∈ movedRows pairId from s /\ be_rel e = from +:+ rest).
    { pose proof (proj1 Hok _ _ He) as [= Hp Hr]. split; [|done].
      apply elem_of_movedRows; [done|]. rewrite <- Hr. done. }
    destruct Hrow as [Hrow Hrel].
    destruct (last (filter _ _)) as [row|] eqn:El.
    + apply last_Some_elem_of, list_elem_of_filter in El as [[= Hp Hm] Hin'].
      destruct (Hto row Hin') as (_ & rest' & _ & Hm' & _ & Hl). rewrite Hm' in Hm.
      apply string_app_inj_l in Hm as ->. congruence.
    + exfalso. apply last_None in El.
      assert (Hf : e ∈ filter (fun row => (be_pairId row, movedRel from to row)
        = (pairId, to +:+ rest)) (movedRows pairId from s)).
      { apply list_elem_of_filter. split; [|done]. destruct (Hto e Hrow) as (-> & _).
        unfold movedRel. by rewrite Hrel, sliceFrom_app. }
      rewrite El in Hf. by apply elem_of_nil in Hf.
  - intros rel Hf Ht. rewrite moveBaseTree_lookup by done.
    destruct (last (filter _ _)) as [row|] eqn:El; [|by rewrite bool_decide_eq_true_2, Hf].
    apply last_Some_elem_of, list_elem_of_filter in El as [[= _ <-] Hin].
    destruct (Hto row Hin) as (_ & rest & _ & E & Hy & _). congruence.
  - intros pair rel Hout. rewrite moveBaseTree_lookup by done.
    destruct (last (filter _ _)) as [row|] eqn:El.
    + apply last_Some_elem_of, list_elem_of_filter in El as [[= <- <-] Hin].
      destruct (Hto row Hin) as (? & rest & _ & E & Hy & _). destruct Hout as [?|[_ ?]]; congruence.
    + destruct Hout as [Hne|[Hf _]].
      * by rewrite bool_decide_eq_false_2.
      * by rewrite Hf, andb_false_r.
Qed.

(** ** Forgetting pairs *)

Definition pairKey (key pairId : string) : string := key +:+ ":" +:+ pairId.

Lemma pairOfKey_spec key pairId :
  pairOfKey key = Some pairId -> exists name, name ∈ pairKeys /\ key = pairKey name pairId.
Proof.
  unfold pairOfKey. intros H. apply head_Some_elem_of, list_elem_of_omap in H as (name & Hn & H).
  exists name. split; [done|]. destruct (String.prefix _ _) eqn:Ep; [|done].
  apply prefix_spec in Ep as [r ->].
  assert (E : sliceFrom (S (String.length name)) ((name +:+ ":") +:+ r) = r).
  { replace (S (String.length name)) with (String.length (name +:+ ":"));
      [apply sliceFrom_app|rewrite string_length_app; cbn; lia]. }
  rewrite E in H. destruct (_ || _); [done|]. injection H as <-.
  unfold pairKey. by rewrite string_app_assoc.
Qed.

Lemma pairOfKey_inj name pairId pairId' :
  name ∈ pairKeys -> pairOfKey (pairKey name pairId) = Some pairId' -> pairId' = pairId.
Proof.
  intros Hn (name' & Hn' & E)%pairOfKey_spec. unfold pairKey in E.
  repeat (apply elem_of_cons in Hn as [->|Hn]); try (by apply elem_of_nil in Hn);
    repeat (apply elem_of_cons in Hn' as [->|Hn']); try (by apply elem_of_nil in Hn');
    try done; by injection E.
Qed.

Lemma st_meta_clearKeys keys pairId s key :
  st_meta (foldl (fun s k => setMeta (pairKey k pairId) None s) s keys) !! key
  = if existsb (fun k => bool_decide (key = pairKey k pairId)) keys then None
    else st_meta s !! key.
Proof.
  revert s. induction keys as [|k keys IH]; intros s; cbn [foldl existsb]; [done|].
  rewrite IH. cbn [setMeta st_meta set_meta]. destruct (existsb _ keys).
  - by rewrite orb_true_r.
  - rewrite orb_false_r. case_bool_decide as E; subst;
      [by rewrite lookup_delete_eq|by rewrite lookup_delete_ne].
Qed.

Lemma forgetPair_spec pairId s :
  (forall k, st_base (forgetPair pairId s) !! k
     = if bool_decide (k.1 = pairId) then None else st_base s !! k) /\
  (forall k, st_upload (forgetPair pairId s) !! k
     = if bool_decide (k.1 = pairId) then None else st_upload s !! k) /\
  st_conflict (forgetPair pairId s) = filter (fun c => cr_pairId c <> pairId) (st_conflict s) /\
  (forall key p, pairOfKey key = Some p -> st_meta (forgetPair pairId s) !! key
     = if bool_decide (p = pairId) then None else st_meta s !! key).
Proof.
  assert (Hkeep : forall keys s0,
    st_base (foldl (fun s k => setMeta (pairKey k pairId) None s) s0 keys) = st_base s0 /\
    st_upload (foldl (fun s k => setMeta (pairKey k pairId) None s) s0 keys) = st_upload s0 /\
    st_conflict (foldl (fun s k => setMeta (pairKey k pairId) None s) s0 keys) = st_conflict s0).
  { induction keys as [|k keys IH]; intros s0; cbn [foldl]; [done|].
    by destruct (IH (setMeta (pairKey k pairId) None s0)) as (-> & -> & ->). }
  unfold forgetPair.
  destruct (Hkeep pairKeys (clearPair pairId s)) as (Hb & Hu & Hc).
  change (fun s key => setMeta (key +:+ ":" +:+ pairId) None s)
    with (fun s key => setMeta (pairKey key pairId) None s).
  split; [|split; [|split]].
  - intros k. rewrite Hb. cbn. rewrite map_lookup_filter. case_bool_decide as E.
    + destruct (st_base s !! k); cbn; [|done]. by rewrite option_guard_False by (by intros []).
    + destruct (st_base s !! k); cbn; [|done]. by rewrite option_guard_True.
  - intros k. rewrite Hu. cbn. rewrite map_lookup_filter. case_bool_decide as E.
    + destruct (st_upload s !! k); cbn; [|done]. by rewrite option_guard_False by (by intros []).
    + destruct (st_upload s !! k); cbn; [|done]. by rewrite option_guard_True.
  - by rewrite Hc.
  - intros key p Hp. rewrite st_meta_clearKeys. cbn [st_meta clearPair set_conflict set_upload set_base].
    destruct (existsb _ _) eqn:Ex.
    + apply existsb_exists in Ex as (k & Hk%list_elem_of_In & ->%bool_decide_eq_true_1).
      apply pairOfKey_inj in Hp as ->; [|done]. by rewrite bool_decide_eq_true_2.
    + rewrite bool_decide_eq_false_2; [done|]. intros ->.
      apply pairOfKey_spec in Hp as (k & Hk & ->). apply not_true_iff_false in Ex.
      apply Ex, existsb_exists. exists k. split; [by apply list_elem_of_In|].
      by apply bool_decide_eq_true_2.
Qed.

Lemma filter_same {A} (P Q : A -> Prop) `{forall x, Decision (P x)} `{forall x, Decision (Q x)}
    (l : list A) :
  (forall x, x ∈ l -> P x <-> Q x) -> filter P l = filter Q l.
Proof.
  induction l as [|x l IH]; intros Hpq; [done|].
  rewrite !filter_cons, IH by (intros; apply Hpq; by constructor).
  destruct (decide (P x)), (decide (Q x)); try done;
    exfalso; apply n; by apply (Hpq x (list_elem_of_here _ _)).
Qed.

Lemma forgetAll_spec (pairIds known : list string) (s : Store) :
  let s' := foldl (fun s pairId => if bool_decide (pairId ∈ pairIds) then s
                                   else forgetPair pairId s) s known in
  let dropped pairId := bool_decide (pairId ∈ known) && negb (bool_decide (pairId ∈ pairIds)) in
  (forall k, st_base s' !! k = if dropped k.1 then None else st_base s !! k) /\
  (forall k, st_upload s' !! k = if dropped k.1 then None else st_upload s !! k) /\
  st_conflict s' = filter (fun c => dropped (cr_pairId c) = false) (st_conflict s) /\
  (forall key p, pairOfKey key = Some p ->
     st_meta s' !! key = if dropped p then None else st_meta s !! key).
Proof.
  cbv zeta. revert s. induction known as [|x known IH]; intros s; cbn [foldl].
  - split; [done|]. split; [done|]. split; [|done].
    symmetry. apply filter_all, Forall_forall. intros c _. by rewrite bool_decide_eq_false_2 by set_solver.
  - destruct (IH (if bool_decide (x ∈ pairIds) then s else forgetPair x s)) as (H1 & H2 & H3 & H4).
    destruct (forgetPair_spec x s) as (F1 & F2 & F3 & F4).
    assert (Hd : forall p, bool_decide (p ∈ x :: known) && negb (bool_decide (p ∈ pairIds))
      = (bool_decide (p ∈ known) && negb (bool_decide (p ∈ pairIds)))
        || (bool_decide (p = x) && negb (bool_decide (x ∈ pairIds)))).
    { intros p. apply eq_true_iff_eq.
      rewrite orb_true_iff, !andb_true_iff, !negb_true_iff, !bool_decide_eq_true,
        !bool_decide_eq_false, elem_of_cons. naive_solver. }
    split; [|split; [|split]].
    + intros k. rewrite H1, Hd. destruct (bool_decide (x ∈ pairIds)); cbn [negb].
      * by rewrite andb_false_r, orb_false_r.
      * rewrite andb_true_r, F1. destruct (_ && _), (bool_decide (k.1 = x)); done.
    + intros k. rewrite H2, Hd. destruct (bool_decide (x ∈ pairIds)); cbn [negb].
      * by rewrite andb_false_r, orb_false_r.
      * rewrite andb_true_r, F2. destruct (_ && _), (bool_decide (k.1 = x)); done.
    + rewrite H3. destruct (bool_decide (x ∈ pairIds)) eqn:Ex.
      * apply list_filter_iff. intros c. by rewrite Hd, andb_false_r, orb_false_r.
      * rewrite F3, list_filter_filter. apply list_filter_iff. intros c. cbn [negb] in Hd.
        rewrite Hd, andb_true_r, orb_false_iff, bool_decide_eq_false. tauto.
    + intros key p Hp. rewrite (H4 key p Hp), Hd. destruct (bool_decide (x ∈ pairIds)); cbn [negb].
      * by rewrite andb_false_r, orb_false_r.
      * rewrite andb_true_r, (F4 key p Hp). destruct (_ && _), (bool_decide (p = x)); done.
Qed.

(** Forgetting every pair but the listed ones leaves exactly what belongs
    to a listed pair: its base, its uploads, its conflicts and its settings are
    untouched, and nothing of any other pair is left. *)
Theorem forgetPairsExcept_keeps_exactly_the_listed (pairIds : list string) (s : Store) :
  (forall k, st_base (forgetPairsExcept pairIds s) !! k
     = if bool_decide (k.1 ∈ pairIds) then st_base s !! k else None) /\
  (forall k, st_upload (forgetPairsExcept pairIds s) !! k
     = if bool_decide (k.1 ∈ pairIds) then st_upload s !! k else None) /\
  st_conflict (forgetPairsExcept pairIds s)
    = filter (fun c => cr_pairId c ∈ pairIds) (st_conflict s) /\
  (forall key p, pairOfKey key = Some p ->
     st_meta (forgetPairsExcept pairIds s) !! key
     = if bool_decide (p ∈ pairIds) then st_meta s !! key else None).
Proof.
  destruct (forgetAll_spec pairIds (knownPairs s) s) as (H1 & H2 & H3 & H4).
  fold (forgetPairsExcept pairIds s) in H1, H2, H3, H4.
  split; [|split; [|split]].
  - intros k. rewrite H1. destruct (st_base s !! k) as [e|] eqn:E.
    + rewrite (bool_decide_eq_true_2 (k.1 ∈ knownPairs s)); [by case_bool_decide|].
      apply elem_of_setOf. apply elem_of_app. left.
      apply list_elem_of_fmap. exists k. split; [done|].
      apply list_elem_of_fmap. exists (k, e). split; [done|]. by apply elem_of_map_to_list.
    + by destruct (_ && _), (bool_decide _).
  - intros k. rewrite H2. destruct (st_upload s !! k) as [e|] eqn:E.
    + rewrite (bool_decide_eq_true_2 (k.1 ∈ knownPairs s)); [by case_bool_decide|].
      apply elem_of_setOf. apply elem_of_app. right. apply elem_of_app. left.
      apply list_elem_of_fmap. exists k. split; [done|].
      apply list_elem_of_fmap. exists (k, e). split; [done|]. by apply elem_of_map_to_list.
    + by destruct (_ && _), (bool_decide _).
  - rewrite H3. apply filter_same. intros c Hc.
    rewrite (bool_decide_eq_true_2 (cr_pairId c ∈ knownPairs s)); [by case_bool_decide|].
    apply elem_of_setOf. rewrite !elem_of_app. do 2 right. left.
    apply list_elem_of_fmap. eauto.
  - intros key p Hp. rewrite (H4 key p Hp). destruct (st_meta s !! key) as [v|] eqn:E.
    + rewrite (bool_decide_eq_true_2 (p ∈ knownPairs s)); [by case_bool_decide|].
      apply elem_of_setOf. rewrite !elem_of_app. do 3 right.
      apply list_elem_of_omap. exists key. split; [|done].
      apply list_elem_of_fmap. exists (key, v). split; [done|]. by apply elem_of_map_to_list.
    + by destruct (_ && _), (bool_decide _).
Qed.
