(* ===== verification/RemoteTree.v ===== *)
(** * The server folders the desktop engine knows

    [apps/desktop/src/engine/remote.ts]: the items under every pair, indexed by
    their parent and mirrored in the store, kept current from snapshots and the
    change feed, and the walk that gives a pair's items their paths. A
    JavaScript [Set] of children is the list of its members in the order they
    were added.

    The index of children and the rows of the store always mirror the items;
    removing an item removes exactly what is below it; and a change that comes
    twice, or late, leaves the tree as it is. *)

From Stdlib Require Import Ascii.
From Stdlib Require String.
From S2P Require Import Prelude SyncTypes JsValues SyncStore.

Open Scope Z_scope.

(** ** Data *)

Inductive ChangeKind := created | updated | moved | trashed | restored | deleted.
#[export] Instance ChangeKind_eq_dec : EqDecision ChangeKind.
Proof. solve_decision. Defined.

(** [StorageChange]: one entry of [GET /api/sync/changes]. *)
Record StorageChange := {
  ch_kind : ChangeKind; ch_itemType : ItemType; ch_itemId : string;
  ch_parentId : option string; ch_name : string; ch_sizeBytes : option Z;
  ch_contentChecksum : option string; ch_storageRevision : Z;
  ch_clientModifiedAt : option string
}.

(** [SnapshotItem]: one entry of [GET /api/sync/snapshot]. *)
Record SnapshotItem := {
  sn_type : ItemType; sn_id : string; sn_parentId : option string; sn_name : string;
  sn_sizeBytes : option Z; sn_contentChecksum : option string; sn_storageRevision : Z;
  sn_clientModifiedAt : option string
}.

(** [new Date(value).getTime()]; the server sends ISO times only, and a text
    that is none is stored like no time. *)
Definition toMs (value : option string) : option Z := text ← value; dateOf text.

Definition fromSnapshot (item : SnapshotItem) : RemoteItem :=
  {| ri_id := sn_id item; ri_type := sn_type item; ri_parentId := sn_parentId item;
     ri_name := sn_name item; ri_size := sn_sizeBytes item;
     ri_checksum := sn_contentChecksum item; ri_rev := sn_storageRevision item;
     ri_modifiedAt := toMs (sn_clientModifiedAt item) |}.

Record RemoteTree := {
  rt_items : gmap string RemoteItem;
  rt_children : gmap (option string) (list string);
  rt_store : Store;
  rt_roots : gset string
}.

(** [this.children.get(parentId) ?? []]. *)
Definition childIds (t : RemoteTree) (parentId : option string) : list string :=
  default [] (rt_children t !! parentId).

(** [set.add(id)] and [set.delete(id)]. *)
Definition setAdd (id : string) (ids : list string) : list string :=
  if bool_decide (id ∈ ids) then ids else ids ++ [id].
Definition setDelete (id : string) (ids : list string) : list string :=
  filter (fun other => other <> id) ids.

(** ** Upkeep *)

Definition index (item : RemoteItem) (t : RemoteTree) : RemoteTree :=
  let id := ri_id item in
  let children :=
    match rt_items t !! id with
    | Some previous => alter (setDelete id) (ri_parentId previous) (rt_children t)
    | None => rt_children t
    end in
  {| rt_items := <[id := item]> (rt_items t);
     rt_children :=
       <[ri_parentId item := setAdd id (default [] (children !! ri_parentId item))]> children;
     rt_store := rt_store t; rt_roots := rt_roots t |}.

Definition put (item : RemoteItem) (t : RemoteTree) : RemoteTree :=
  let t := index item t in
  {| rt_items := rt_items t; rt_children := rt_children t;
     rt_store := putRemote item (rt_store t); rt_roots := rt_roots t |}.

(** The constructor. *)
Definition newRemoteTree (store : Store) (roots : gset string) : RemoteTree :=
  foldl (fun t item => index item t)
    {| rt_items := ∅; rt_children := ∅; rt_store := store; rt_roots := roots |}
    (remoteItems store).

Definition clear (t : RemoteTree) : RemoteTree :=
  {| rt_items := ∅; rt_children := ∅; rt_store := clearRemote (rt_store t);
     rt_roots := rt_roots t |}.

Definition setRoots (roots : gset string) (t : RemoteTree) : RemoteTree :=
  {| rt_items := rt_items t; rt_children := rt_children t; rt_store := rt_store t;
     rt_roots := roots |}.

(** The loop of [subtree] over the ids not visited yet. *)
Fixpoint subtreeFrom (fuel : nat) (t : RemoteTree) (queue : list string) : list string :=
  match fuel, queue with
  | S fuel', id :: rest => id :: subtreeFrom fuel' t (rest ++ childIds t (Some id))
  | _, _ => queue
  end.

(** A turn per item is enough, see [subtree_spec]. *)
Definition subtree (t : RemoteTree) (id : string) : list string :=
  subtreeFrom (S (size (rt_items t))) t [id].

(** One turn of the loop of [removeSubtree]. *)
Definition removeOne (t : RemoteTree) (each : string) : RemoteTree :=
  let children :=
    match rt_items t !! each with
    | Some item => alter (setDelete each) (ri_parentId item) (rt_children t)
    | None => rt_children t
    end in
  {| rt_items := delete each (rt_items t);
     rt_children := delete (Some each) children;
     rt_store := rt_store t; rt_roots := rt_roots t |}.

Definition removeSubtree (id : string) (t : RemoteTree) : RemoteTree :=
  let ids := filter (fun each => is_Some (rt_items t !! each)) (subtree t id) in
  let t := foldl removeOne t ids in
  {| rt_items := rt_items t; rt_children := rt_children t;
     rt_store := deleteRemote ids (rt_store t); rt_roots := rt_roots t |}.

Fixpoint inScopeFrom (depth : nat) (t : RemoteTree) (current : option string) : bool :=
  match depth, current with
  | S depth', Some id =>
      bool_decide (id ∈ rt_roots t)
      || inScopeFrom depth' t (item ← rt_items t !! id; ri_parentId item)
  | _, _ => false
  end.

Definition inScope (t : RemoteTree) (parentId : option string) : bool :=
  inScopeFrom 4096 t parentId.
#[global] Arguments inScope : simpl never.

Definition replaceUnder (rootId : string) (items : list RemoteItem) (t : RemoteTree) :
    RemoteTree :=
  foldl (fun t item => put item t)
    (foldl (fun t child => removeSubtree child t) t (childIds t (Some rootId))) items.

Definition addUnder (items : list RemoteItem) (t : RemoteTree) : RemoteTree :=
  foldl (fun t item =>
    match rt_items t !! ri_id item with
    | Some current => if bool_decide (ri_rev current <= ri_rev item) then put item t else t
    | None => put item t
    end) t items.

Definition changedItem (change : StorageChange) : RemoteItem :=
  {| ri_id := ch_itemId change; ri_type := ch_itemType change;
     ri_parentId := ch_parentId change; ri_name := ch_name change;
     ri_size := ch_sizeBytes change; ri_checksum := ch_contentChecksum change;
     ri_rev := ch_storageRevision change; ri_modifiedAt := toMs (ch_clientModifiedAt change) |}.

(** The tree after a change, and the folder whose snapshot is to be fetched. *)
Definition apply (change : StorageChange) (t : RemoteTree) : RemoteTree * option string :=
  let current := rt_items t !! ch_itemId change in
  let removed := match current with
                 | Some _ => removeSubtree (ch_itemId change) t | None => t end in
  if bool_decide (ch_itemId change ∈ rt_roots t) then (t, None)
  else if match current with
          | Some item => bool_decide (ch_storageRevision change < ri_rev item)
          | None => false
          end then (t, None)
  else if bool_decide (ch_kind change ∈ [trashed; deleted]) then (removed, None)
  else if negb (inScope t (ch_parentId change)) then (removed, None)
  else (put (changedItem change) t,
        if bool_decide (ch_itemType change = folder) && bool_decide (current = None)
           && negb (bool_decide (ch_kind change = created))
        then Some (ch_itemId change) else None).

(** The method [set]. *)
Definition setItem (item : RemoteItem) (t : RemoteTree) : RemoteTree :=
  if inScope t (ri_parentId item) then put item t
  else if bool_decide (is_Some (rt_items t !! ri_id item)) then removeSubtree (ri_id item) t
  else t.

(** ** The walk *)

Record Scope := {
  sp_items : list ScopedItem; sp_skipped : list SkippedItem; sp_ignored : list ScopedItem
}.

Definition noScope : Scope := {| sp_items := []; sp_skipped := []; sp_ignored := [] |}.
Definition joinScope (a b : Scope) : Scope :=
  {| sp_items := sp_items a ++ sp_items b; sp_skipped := sp_skipped a ++ sp_skipped b;
     sp_ignored := sp_ignored a ++ sp_ignored b |}.

Section Walk.
Context `{Platform} (platform : NodePlatform)
  (ignore : string -> bool) (leftOut : string -> string -> bool).

(** The children grouped by the key of their name, groups in the order of their
    first item. *)
Definition byKey (items : list RemoteItem) : list (string * list RemoteItem) :=
  foldl (fun groups item =>
    let key := pathKey (ri_name item) in
    mapSet key (default [] (mapGet key groups) ++ [item]) groups) [] items.

Definition clashReason : string :=
  "Another item here has the same name in different letter case, which this computer treats as the same name.".

(** Why an item of a group is not taken. *)
Definition skipReason (group : list RemoteItem) (item : RemoteItem) : option string :=
  match invalidNameReason (ri_name item) platform with
  | Some reason => Some (reasonText reason)
  | None => if bool_decide (1 < length group)%nat then Some clashReason else None
  end.

(** The items of a folder, in the order of the walk, each with its group. *)
Definition entriesOf (t : RemoteTree) (parentId : string) : list (list RemoteItem * RemoteItem) :=
  let items := omap (fun id => rt_items t !! id) (childIds t (Some parentId)) in
  mjoin ((fun e : string * list RemoteItem => (fun item => (e.2, item)) <$> e.2) <$> byKey items).

Fixpoint walk (fuel : nat) (t : RemoteTree) (parentId parentRel : string) : Scope :=
  match fuel with
  | O => noScope
  | S fuel' =>
      foldr joinScope noScope
        ((fun e : list RemoteItem * RemoteItem =>
            let '(group, item) := e in
            let rel := joinRel parentRel (ri_name item) in
            if ignore (ri_name item) || leftOut (ri_id item) rel
            then {| sp_items := []; sp_skipped := [];
                    sp_ignored := [{| si_rel := rel; si_item := item |}] |}
            else
              match skipReason group item with
              | Some reason =>
                  {| sp_items := []; sp_ignored := [];
                     sp_skipped := [{| sk_rel := rel; sk_item := item; sk_reason := reason |}] |}
              | None =>
                  joinScope {| sp_items := [{| si_rel := rel; si_item := item |}];
                               sp_skipped := []; sp_ignored := [] |}
                    (if bool_decide (ri_type item = folder)
                     then walk fuel' t (ri_id item) rel else noScope)
              end) <$> entriesOf t parentId)
  end.

(** A level per item is enough. *)
Definition scope (t : RemoteTree) (rootId : string) : Scope :=
  walk (S (size (rt_items t))) t rootId "".
End Walk.

(** ** The invariant *)

Record treeOk (t : RemoteTree) : Prop := {
  to_items id item : rt_items t !! id = Some item -> ri_id item = id;
  to_children p id : id ∈ childIds t p <->
    exists item, rt_items t !! id = Some item /\ ri_parentId item = p;
  to_nodup p : NoDup (childIds t p);
  to_store : st_remote (rt_store t) = rt_items t
}.

Definition childOf (t : RemoteTree) (parent child : string) : Prop :=
  child ∈ childIds t (Some parent).
Definition below (t : RemoteTree) : string -> string -> Prop := rtc (childOf t).

(** No item is below itself. *)
Definition acyclic (t : RemoteTree) : Prop := forall id, ~ tc (childOf t) id id.

Lemma childIds_alter f q children p :
  f [] = [] ->
  default [] (alter f q children !! p)
  = (if bool_decide (p = q) then f (default [] (children !! p))
     else default [] ((children : gmap (option string) (list string)) !! p)).
Proof.
  intros Hf. case_bool_decide as E.
  - subst. rewrite lookup_alter_eq. destruct (children !! q); cbn; [done|by rewrite Hf].
  - by rewrite lookup_alter_ne.
Qed.

(** What [index] does to a set of children. *)
Lemma childIds_index item t p :
  treeOk t ->
  childIds (index item t) p
  = if bool_decide (p = ri_parentId item) then setDelete (ri_id item) (childIds t p) ++ [ri_id item]
    else setDelete (ri_id item) (childIds t p).
Proof.
  intros Hok. unfold childIds at 1, index. cbn [rt_children].
  set (children := match rt_items t !! ri_id item with Some _ => _ | None => _ end).
  assert (Hc : forall q, default [] (children !! q) = setDelete (ri_id item) (childIds t q)).
  { intros q. assert (Hnot : forall q, ri_id item ∉ childIds t q ->
      childIds t q = setDelete (ri_id item) (childIds t q)).
    { intros q' Hn. symmetry. apply filter_all, Forall_forall. intros x Hx ->. done. }
    unfold children. destruct (rt_items t !! ri_id item) as [previous|] eqn:Ep.
    - rewrite childIds_alter by done. case_bool_decide as E; [done|].
      apply Hnot. intros (x & Hx & Hp)%(to_children t Hok). congruence.
    - apply Hnot. intros (x & Hx & _)%(to_children t Hok). congruence. }
  case_bool_decide as E.
  - subst. rewrite lookup_insert_eq. cbn [default]. rewrite Hc. unfold setAdd.
    rewrite bool_decide_eq_false_2; [done|]. unfold setDelete.
    intros [? _]%list_elem_of_filter. done.
  - by rewrite lookup_insert_ne, Hc.
Qed.

Lemma NoDup_setDelete id ids : NoDup ids -> NoDup (setDelete id ids).
Proof. apply NoDup_filter. Qed.

Lemma elem_of_setDelete x id ids : x ∈ setDelete id ids <-> x <> id /\ x ∈ ids.
Proof. unfold setDelete. by rewrite list_elem_of_filter. Qed.

Lemma index_ok item t :
  treeOk t -> rt_items (index item t) = <[ri_id item := item]> (rt_items t) /\
  (forall p id, id ∈ childIds (index item t) p <->
     exists it, rt_items (index item t) !! id = Some it /\ ri_parentId it = p) /\
  (forall p, NoDup (childIds (index item t) p)).
Proof.
  intros Hok. split; [done|]. split.
  - intros p id. rewrite childIds_index by done. cbn [index rt_items].
    assert (Hold : id ∈ setDelete (ri_id item) (childIds t p) <->
      id <> ri_id item /\ exists it, rt_items t !! id = Some it /\ ri_parentId it = p).
    { rewrite elem_of_setDelete, (to_children t Hok). done. }
    destruct (decide (id = ri_id item)) as [->|Hne].
    + rewrite lookup_insert_eq. case_bool_decide as E.
      * rewrite elem_of_app, list_elem_of_singleton. naive_solver.
      * rewrite Hold. naive_solver.
    + rewrite lookup_insert_ne by done.
      case_bool_decide; rewrite ?elem_of_app, ?list_elem_of_singleton, Hold; naive_solver.
  - intros p. rewrite childIds_index by done.
    assert (Hn : NoDup (setDelete (ri_id item) (childIds t p)))
      by apply NoDup_setDelete, (to_nodup t Hok).
    case_bool_decide; [|done]. apply NoDup_app. split; [done|].
    split; [|apply NoDup_singleton].
    intros x [? _]%elem_of_setDelete ->%list_elem_of_singleton. done.
Qed.

Lemma put_treeOk item t : treeOk t -> treeOk (put item t).
Proof.
  intros Hok. destruct (index_ok item t Hok) as (Hi & Hc & Hn). constructor.
  - intros id it. cbn. intros [[<- <-]|[_ H]]%lookup_insert_Some; [done|].
    by eapply to_items.
  - exact Hc.
  - exact Hn.
  - cbn. by rewrite (to_store t Hok).
Qed.

Lemma foldl_inv {A B} (I : A -> Prop) (f : A -> B -> A) l a :
  (forall a b, I a -> I (f a b)) -> I a -> I (foldl f a l).
Proof. intros Hf. revert a. induction l as [|b l IH]; intros a Ha; cbn; auto. Qed.

Lemma addUnder_treeOk items t : treeOk t -> treeOk (addUnder items t).
Proof.
  apply foldl_inv. intros t' item Ht. destruct (_ !! _); [|by apply put_treeOk].
  case_bool_decide; [by apply put_treeOk|done].
Qed.

(** ** The loop of [subtree] *)

Section Subtree.
Context (t : RemoteTree) (id : string) (Hok : treeOk t) (Hac : ~ tc (childOf t) id id).

(** What holds when [visited] has been left and [queue] is still to come. *)
Record visiting (visited queue : list string) : Prop := {
  vi_nodup : NoDup (visited ++ queue);
  vi_below c : c ∈ visited ++ queue -> below t id c;
  vi_closed v c : v ∈ visited -> childOf t v c -> c ∈ visited ++ queue;
  vi_origin c : c ∈ visited ++ queue -> c = id \/ exists v, v ∈ visited /\ childOf t v c;
  vi_start : id ∈ visited ++ queue
}.

Lemma childOf_parent v c : childOf t v c ->
  exists it, rt_items t !! c = Some it /\ ri_parentId it = Some v.
Proof. apply (to_children t Hok). Qed.

Lemma childOf_unique v v' c : childOf t v c -> childOf t v' c -> v = v'.
Proof. intros (? & ? & ?)%childOf_parent (? & ? & ?)%childOf_parent. congruence. Qed.

Lemma below_item c : below t id c -> c = id \/ is_Some (rt_items t !! c).
Proof.
  intros H. destruct (rtc_inv_r _ _ H) as [<-|(v & _ & (it & Hi & _)%childOf_parent)];
    [by left|right; by exists it].
Qed.

(** No more than one id beyond the items is ever in the list. *)
Lemma visiting_length visited queue :
  visiting visited queue -> (length (visited ++ queue) <= S (size (rt_items t)))%nat.
Proof.
  intros Hv. assert (Hs : list_to_set (visited ++ queue) ⊆ {[id]} ∪ dom (rt_items t)).
  { intros c Hc%elem_of_list_to_set. apply (vi_below _ _ Hv), below_item in Hc as [->|Hc];
      [set_solver|]. apply elem_of_union_r, elem_of_dom, Hc. }
  apply (subseteq_size (C := gset string)) in Hs.
  rewrite size_list_to_set in Hs by apply (vi_nodup _ _ Hv).
  etransitivity; [exact Hs|].
  rewrite size_union_alt, size_singleton, <- (size_dom (rt_items t)).
  assert (size (dom (rt_items t) ∖ {[id]} : gset string) <= size (dom (rt_items t) : gset string))%nat
    by (apply subseteq_size; set_solver).
  lia.
Qed.

Lemma visiting_step visited x queue :
  visiting visited (x :: queue) -> visiting (visited ++ [x]) (queue ++ childIds t (Some x)).
Proof.
  intros [H1 H2 H3 H4 H5].
  assert (Eapp : (visited ++ [x]) ++ queue ++ childIds t (Some x)
    = (visited ++ x :: queue) ++ childIds t (Some x)) by (by rewrite <- !app_assoc).
  assert (Hx : x ∉ visited).
  { intros Hx. apply NoDup_app in H1 as (_ & H1 & _). apply (H1 x Hx). constructor. }
  constructor; rewrite ?Eapp.
  - apply NoDup_app. split; [done|]. split; [|apply (to_nodup t Hok)].
    intros c Hc Hch. destruct (H4 c Hc) as [->|(v & Hv & Hvc)].
    + apply Hac. eapply tc_rtc_l; [|by apply tc_once].
      apply H2. apply elem_of_app. right. constructor.
    + by rewrite (childOf_unique v x c) in Hv.
  - intros c [Hc|Hc]%elem_of_app; [by apply H2|].
    eapply rtc_r; [|exact Hc]. apply H2. apply elem_of_app. right. constructor.
  - intros v c [Hv| ->%list_elem_of_singleton]%elem_of_app Hvc; apply elem_of_app;
      [left; by eapply H3|by right].
  - intros c [Hc|Hc]%elem_of_app.
    + destruct (H4 c Hc) as [?|(v & Hv & ?)]; [by left|right]. exists v.
      split; [by apply elem_of_app; left|done].
    + right. exists x. split; [apply elem_of_app; right; constructor|done].
  - apply elem_of_app. by left.
Qed.

Lemma visiting_done visited :
  visiting visited [] ->
  NoDup (visited ++ []) /\ forall c, c ∈ visited ++ [] <-> below t id c.
Proof.
  intros Hv. split; [apply Hv|]. intros c. split; [apply (vi_below _ _ Hv)|].
  apply (rtc_ind_r (fun c => c ∈ visited ++ [])); [apply Hv|].
  intros y z _ Hyz Hy. eapply (vi_closed _ _ Hv); [|exact Hyz]. by rewrite app_nil_r in Hy.
Qed.

Lemma subtreeFrom_spec fuel visited queue :
  visiting visited queue -> (S (size (rt_items t)) <= length visited + fuel)%nat ->
  NoDup (visited ++ subtreeFrom fuel t queue) /\
  forall c, c ∈ visited ++ subtreeFrom fuel t queue <-> below t id c.
Proof.
  revert visited queue. induction fuel as [|fuel IH]; intros visited queue Hv Hf.
  - assert (Hq : queue = []).
    { apply visiting_length in Hv. rewrite length_app in Hv. destruct queue; [done|].
      cbn in Hv. lia. }
    subst. by apply visiting_done.
  - destruct queue as [|x queue]; cbn [subtreeFrom].
    + by apply visiting_done.
    + specialize (IH _ _ (visiting_step _ _ _ Hv)). rewrite <- app_assoc in IH. cbn in IH.
      apply IH. rewrite length_app. cbn. lia.
Qed.

(** The loop ends, and lists the item and everything below it, each once. *)
Lemma subtree_spec :
  NoDup (subtree t id) /\ forall c, c ∈ subtree t id <-> below t id c.
Proof.
  apply (subtreeFrom_spec (S (size (rt_items t))) [] [id]); [|cbn; lia]. constructor; cbn.
  - apply NoDup_singleton.
  - intros c ->%list_elem_of_singleton. apply rtc_refl.
  - by intros v c ?%elem_of_nil.
  - intros c ->%list_elem_of_singleton. by left.
  - constructor.
Qed.
End Subtree.

(** ** Removal *)

(** Members of a set of children are items with that parent. *)
Definition indexSound (t : RemoteTree) : Prop :=
  forall p id, id ∈ childIds t p -> exists it, rt_items t !! id = Some it /\ ri_parentId it = p.

Lemma childIds_removeOne t each p :
  indexSound t ->
  childIds (removeOne t each) p
  = if bool_decide (p = Some each) then [] else setDelete each (childIds t p).
Proof.
  intros Hs. unfold childIds at 1, removeOne. cbn [rt_children]. case_bool_decide as E.
  - subst. by rewrite lookup_delete_eq.
  - rewrite lookup_delete_ne by done.
    assert (Hnot : each ∉ childIds t p -> childIds t p = setDelete each (childIds t p)).
    { intros Hn. symmetry. apply filter_all, Forall_forall. intros x Hx ->. done. }
    destruct (rt_items t !! each) as [item|] eqn:Ei.
    + rewrite childIds_alter by done. case_bool_decide; [done|].
      apply Hnot. intros (? & ? & ?)%Hs. congruence.
    + apply Hnot. intros (? & ? & _)%Hs. congruence.
Qed.

Lemma indexSound_removeOne t each : indexSound t -> indexSound (removeOne t each).
Proof.
  intros Hs p id. rewrite childIds_removeOne by done. case_bool_decide; [by intros ?%elem_of_nil|].
  intros [Hne (it & Hi & Hp)%Hs]%elem_of_setDelete. exists it. split; [|done].
  cbn. by rewrite lookup_delete_ne.
Qed.

Lemma removeMany t ids :
  indexSound t ->
  rt_items (foldl removeOne t ids) = foldl (fun items id => delete id items) (rt_items t) ids /\
  rt_store (foldl removeOne t ids) = rt_store t /\
  rt_roots (foldl removeOne t ids) = rt_roots t /\
  forall p, childIds (foldl removeOne t ids) p
    = if bool_decide (p ∈ Some <$> ids) then [] else filter (fun id => id ∉ ids) (childIds t p).
Proof.
  revert t. induction ids as [|x ids IH]; intros t Hs; cbn [foldl].
  - split; [done|]. split; [done|]. split; [done|]. intros p. cbn.
    rewrite bool_decide_eq_false_2 by apply not_elem_of_nil.
    symmetry. apply filter_all, Forall_forall. intros; apply not_elem_of_nil.
  - destruct (IH (removeOne t x) (indexSound_removeOne _ _ Hs)) as (H1 & H2 & H3 & H4).
    split; [done|]. split; [done|]. split; [done|].
    intros p. rewrite H4, childIds_removeOne by done. rewrite fmap_cons.
    destruct (decide (p ∈ Some <$> ids)) as [Hin|Hout].
    + rewrite !bool_decide_eq_true_2; [done|by constructor|done].
    + rewrite (bool_decide_eq_false_2 (p ∈ Some <$> ids)) by done. case_bool_decide as E.
      * subst. rewrite bool_decide_eq_true_2 by constructor. done.
      * rewrite bool_decide_eq_false_2 by (intros [?|?]%elem_of_cons; done).
        unfold setDelete. rewrite list_filter_filter. apply list_filter_iff.
        intros id. rewrite not_elem_of_cons. tauto.
Qed.

Lemma foldl_delete_lookup {A} (m : gmap string A) ids k :
  foldl (fun m id => delete id m) m ids !! k = if bool_decide (k ∈ ids) then None else m !! k.
Proof.
  revert m. induction ids as [|x ids IH]; intros m; cbn [foldl].
  - by rewrite bool_decide_eq_false_2 by apply not_elem_of_nil.
  - rewrite IH. destruct (decide (k ∈ ids)) as [Hin|Hout].
    + by rewrite !bool_decide_eq_true_2 by (try constructor; done).
    + rewrite (bool_decide_eq_false_2 (k ∈ ids)) by done. destruct (decide (k = x)) as [->|Hne].
      * by rewrite lookup_delete_eq, bool_decide_eq_true_2 by constructor.
      * rewrite lookup_delete_ne, bool_decide_eq_false_2; try done.
        by intros [?|?]%elem_of_cons.
Qed.

Lemma treeOk_sound t : treeOk t -> indexSound t.
Proof. intros Hok p id. apply (to_children t Hok). Qed.

(** What is left after a removal, and that the tree stays well formed. *)
Lemma removeSubtree_spec id t :
  treeOk t -> ~ tc (childOf t) id id ->
  treeOk (removeSubtree id t) /\ rt_roots (removeSubtree id t) = rt_roots t /\
  (forall p, childIds (removeSubtree id t) p
     = if bool_decide (p ∈ Some <$> filter (fun each => is_Some (rt_items t !! each)) (subtree t id))
       then [] else filter (fun c => c ∉ filter (fun each => is_Some (rt_items t !! each)) (subtree t id))
                           (childIds t p)) /\
  forall x, (below t id x -> rt_items (removeSubtree id t) !! x = None) /\
            (~ below t id x -> rt_items (removeSubtree id t) !! x = rt_items t !! x).
Proof.
  intros Hok Hac. destruct (subtree_spec t id Hok Hac) as [_ Hsub].
  unfold removeSubtree. set (ids := filter _ (subtree t id)).
  destruct (removeMany t ids (treeOk_sound t Hok)) as (H1 & H2 & H3 & H4).
  assert (Hids : forall x, x ∈ ids <-> is_Some (rt_items t !! x) /\ below t id x).
  { intros x. unfold ids. by rewrite list_elem_of_filter, Hsub. }
  assert (Hitems : forall x, (below t id x -> rt_items (foldl removeOne t ids) !! x = None) /\
    (~ below t id x -> rt_items (foldl removeOne t ids) !! x = rt_items t !! x)).
  { intros x. rewrite H1, foldl_delete_lookup. split; intros Hb.
    - case_bool_decide as Hin; [done|]. rewrite Hids in Hin.
      destruct (rt_items t !! x) eqn:E; [|done]. exfalso. apply Hin. by split.
    - rewrite bool_decide_eq_false_2; [done|]. rewrite Hids. tauto. }
  split; [|split; [done|split; [exact H4|exact Hitems]]].
  clearbody ids. constructor; cbn [rt_items rt_children rt_store].
  - intros x it. rewrite H1, foldl_delete_lookup. case_bool_decide; [done|]. by eapply to_items.
  - intros p c. change (childIds {| rt_items := _ |} p) with (childIds (foldl removeOne t ids) p).
    rewrite H4, H1, foldl_delete_lookup. split.
    + case_bool_decide; [by intros ?%elem_of_nil|].
      intros [Hn (it & Hi & Hp)%(to_children t Hok)]%list_elem_of_filter.
      exists it. by rewrite bool_decide_eq_false_2.
    + intros (it & Hi & Hp). case_bool_decide as Hin; [done|].
      assert (Hch : c ∈ childIds t p) by (apply (to_children t Hok); eauto).
      rewrite bool_decide_eq_false_2; [by apply list_elem_of_filter|].
      intros (x & -> & [_ Hx]%Hids)%list_elem_of_fmap. apply Hin, Hids. split; [by exists it|].
      eapply rtc_r; [exact Hx|exact Hch].
  - intros p. change (childIds {| rt_items := _ |} p) with (childIds (foldl removeOne t ids) p).
    rewrite H4. case_bool_decide; [apply NoDup_nil_2|]. apply NoDup_filter, (to_nodup t Hok).
  - rewrite H2. cbn. by rewrite (to_store t Hok), H1.
Qed.

Lemma removeSubtree_childOf id t v c :
  treeOk t -> ~ tc (childOf t) id id -> childOf (removeSubtree id t) v c -> childOf t v c.
Proof.
  intros Hok Hac. destruct (removeSubtree_spec id t Hok Hac) as (_ & _ & Hc & _).
  unfold childOf. rewrite Hc. case_bool_decide; [by intros ?%elem_of_nil|].
  by intros [_ ?]%list_elem_of_filter.
Qed.

Lemma tc_subrel {A} (R S : relation A) x y :
  (forall a b, R a b -> S a b) -> tc R x y -> tc S x y.
Proof. intros Hsub. induction 1; [apply tc_once|eapply tc_l]; eauto. Qed.

Lemma removeSubtree_acyclic id t : treeOk t -> acyclic t -> acyclic (removeSubtree id t).
Proof.
  intros Hok Hac x Hx. apply (Hac x). eapply tc_subrel; [|exact Hx].
  intros a b. by apply removeSubtree_childOf.
Qed.

Lemma replaceUnder_treeOk rootId items t :
  treeOk t -> acyclic t -> treeOk (replaceUnder rootId items t).
Proof.
  intros Hok Hac. unfold replaceUnder. apply foldl_inv; [by intros; apply put_treeOk|].
  apply (foldl_inv (fun t => treeOk t /\ acyclic t)); [|done].
  intros t' child [Hok' Hac']. split; [by apply removeSubtree_spec|by apply removeSubtree_acyclic].
Qed.

(** The constructor indexes the rows before they are known to mirror anything. *)
Definition mirrored (t : RemoteTree) : RemoteTree :=
  {| rt_items := rt_items t; rt_children := rt_children t;
     rt_store := set_remote (rt_items t) (rt_store t); rt_roots := rt_roots t |}.

Lemma mirrored_index item t : treeOk (mirrored t) -> treeOk (mirrored (index item t)).
Proof.
  intros Hok. destruct (index_ok item (mirrored t) Hok) as (Hi & Hc & Hn). constructor.
  - intros id it. cbn. intros [[<- <-]|[_ H]]%lookup_insert_Some; [done|].
    by apply (to_items _ Hok).
  - exact Hc.
  - exact Hn.
  - done.
Qed.

Lemma foldl_index items t :
  treeOk (mirrored t) ->
  treeOk (mirrored (foldl (fun t item => index item t) t items)) /\
  rt_store (foldl (fun t item => index item t) t items) = rt_store t /\
  rt_items (foldl (fun t item => index item t) t items)
  = foldl (fun m item => <[ri_id item := item]> m) (rt_items t) items.
Proof.
  revert t. induction items as [|item items IH]; intros t Ht; cbn [foldl]; [done|].
  by apply (IH (index item t)), mirrored_index.
Qed.

Lemma foldl_insert_items items (m : gmap string RemoteItem) id :
  NoDup (ri_id <$> items) ->
  foldl (fun m item => <[ri_id item := item]> m) m items !! id
  = match head (filter (fun item => ri_id item = id) items) with
    | Some item => Some item | None => m !! id end.
Proof.
  revert m. induction items as [|item items IH]; intros m Hn; cbn [foldl]; [done|].
  inversion Hn as [|? ? Hout Hn']; subst. rewrite IH by done.
  rewrite filter_cons. destruct (decide (ri_id item = id)) as [<-|Hne].
  - assert (Hnil : filter (fun it => ri_id it = ri_id item) items = []).
    { destruct (filter _ items) as [|x l] eqn:E; [done|]. exfalso.
      assert (Hx : x ∈ filter (fun it => ri_id it = ri_id item) items) by (rewrite E; constructor).
      apply list_elem_of_filter in Hx as [Hid Hx]. apply Hout. rewrite <- Hid.
      by apply list_elem_of_fmap_2. }
    by rewrite Hnil, lookup_insert_eq.
  - destruct (head _); [done|]. by rewrite lookup_insert_ne.
Qed.

Lemma newRemoteTree_treeOk store roots :
  (forall id item, st_remote store !! id = Some item -> ri_id item = id) ->
  treeOk (newRemoteTree store roots).
Proof.
  intros Hids.
  set (t0 := {| rt_items := ∅; rt_children := ∅; rt_store := store; rt_roots := roots |}).
  assert (H0 : treeOk (mirrored t0)).
  { constructor; cbn; [done| |intros; apply NoDup_nil_2|done].
    intros p id. split; [by intros ?%elem_of_nil|]. by intros (? & ? & _). }
  destruct (foldl_index (remoteItems store) t0 H0) as (Hok & Hs & Hi).
  change (foldl _ t0 _) with (newRemoteTree store roots) in Hok, Hs, Hi.
  assert (Hin : forall item, item ∈ remoteItems store <->
    st_remote store !! ri_id item = Some item).
  { intros item. unfold remoteItems. rewrite list_elem_of_fmap. split.
    - intros ([id it] & -> & H%elem_of_map_to_list). cbn. by rewrite (Hids id it H).
    - intros H. exists (ri_id item, item). split; [done|]. by apply elem_of_map_to_list. }
  assert (Hn : NoDup (ri_id <$> remoteItems store)).
  { unfold remoteItems. rewrite <- list_fmap_compose.
    assert (E : (ri_id ∘ snd) <$> map_to_list (st_remote store) = (map_to_list (st_remote store)).*1).
    { apply list_fmap_ext. intros i [id it] H%list_elem_of_lookup_2%elem_of_map_to_list. cbn. by apply Hids. }
    rewrite E. apply NoDup_fst_map_to_list. }
  assert (Eq : st_remote store = rt_items (newRemoteTree store roots)).
  { rewrite Hi. apply map_eq. intros id. rewrite foldl_insert_items by done.
    destruct (head _) as [item|] eqn:Eh.
    - apply head_Some_elem_of, list_elem_of_filter in Eh as [<- Hx]. by apply Hin.
    - cbn. rewrite lookup_empty. destruct (st_remote store !! id) as [item|] eqn:E; [|done].
      exfalso. apply head_None in Eh. pose proof (Hids id item E) as <-.
      assert (Hx : item ∈ filter (fun it => ri_id it = ri_id item) (remoteItems store))
        by (apply list_elem_of_filter; split; [done|by apply Hin]).
      rewrite Eh in Hx. by apply elem_of_nil in Hx. }
  destruct Hok as [K1 K2 K3 _]. constructor; [exact K1|exact K2|exact K3|]. by rewrite Hs.
Qed.

(** ** The properties *)

Lemma apply_cases change t :
  apply change t = (t, None) \/
  (exists item, rt_items t !! ch_itemId change = Some item /\
     apply change t = (removeSubtree (ch_itemId change) t, None) /\
     (ch_kind change ∈ [trashed; deleted] \/ inScope t (ch_parentId change) = false)) \/
  (inScope t (ch_parentId change) = true /\ ch_itemId change ∉ rt_roots t /\
   ch_kind change ∉ [trashed; deleted] /\
   (apply change t).1 = put (changedItem change) t).
Proof.
  unfold apply. case_bool_decide as Hr; [by left|].
  destruct (match rt_items t !! ch_itemId change with Some _ => _ | None => _ end) eqn:Es;
    [by left|].
  case_bool_decide as Hk.
  - destruct (rt_items t !! ch_itemId change) as [item|]; [right; left; eauto 10|by left].
  - destruct (inScope t (ch_parentId change)) eqn:Ei; cbn [negb]; [right; right; done|].
    destruct (rt_items t !! ch_itemId change) as [item|]; [right; left; eauto 10|by left].
Qed.

(** the index of children and the rows of the store mirror the items of a
    tree read from a store, and every operation keeps it so. *)
Theorem server_tree_stays_mirrored t :
  treeOk t -> acyclic t ->
  (forall change, treeOk (apply change t).1) /\
  (forall item, treeOk (setItem item t)) /\
  (forall items, treeOk (addUnder items t)) /\
  (forall rootId items, treeOk (replaceUnder rootId items t)) /\
  (forall store roots, storeOk store -> treeOk (newRemoteTree store roots)).
Proof.
  intros Hok Hac. split; [|split; [|split; [|split]]].
  - intros change. destruct (apply_cases change t) as [->|[(item & _ & -> & _)|(_ & _ & _ & ->)]].
    + done.
    + by apply removeSubtree_spec.
    + by apply put_treeOk.
  - intros item. unfold setItem. destruct (inScope t _); [by apply put_treeOk|].
    case_bool_decide; [by apply removeSubtree_spec|done].
  - intros items. by apply addUnder_treeOk.
  - intros rootId items. by apply replaceUnder_treeOk.
  - intros store roots (_ & Hids & _). by apply newRemoteTree_treeOk.
Qed.

(** Removing an item ends, and takes exactly the item and what is below it:
    from the items, from the index, and from the store. *)
Theorem removeSubtree_is_exact id t :
  treeOk t -> acyclic t ->
  (forall x, below t id x ->
     rt_items (removeSubtree id t) !! x = None /\
     st_remote (rt_store (removeSubtree id t)) !! x = None /\
     forall p, x ∉ childIds (removeSubtree id t) p) /\
  (forall x, ~ below t id x ->
     rt_items (removeSubtree id t) !! x = rt_items t !! x /\
     st_remote (rt_store (removeSubtree id t)) !! x = st_remote (rt_store t) !! x).
Proof.
  intros Hok Hac. destruct (removeSubtree_spec id t Hok (Hac id)) as (Hok' & _ & _ & Hi).
  split; intros x Hx.
  - destruct (Hi x) as [H _]. specialize (H Hx). split; [done|].
    split; [by rewrite (to_store _ Hok')|].
    intros p (it & Hit & _)%(to_children _ Hok'). congruence.
  - destruct (Hi x) as [_ H]. specialize (H Hx). split; [done|].
    by rewrite (to_store _ Hok'), (to_store _ Hok).
Qed.

(** ** Replays *)

Lemma put_twice item t : treeOk t -> put item (put item t) = put item t.
Proof.
  intros Hok. pose proof (put_treeOk item t Hok) as Hok'.
  assert (Hl : rt_children (put item t) !! ri_parentId item
    = Some (setDelete (ri_id item) (childIds t (ri_parentId item)) ++ [ri_id item])).
  { pose proof (childIds_index item t (ri_parentId item) Hok) as E.
    rewrite bool_decide_eq_true_2 in E by done. rewrite <- E. unfold childIds.
    cbn. by rewrite lookup_insert_eq. }
  set (l := setDelete _ _) in *.
  assert (Hn : setDelete (ri_id item) (l ++ [ri_id item]) = l).
  { unfold setDelete. rewrite filter_app, filter_cons_False, filter_nil, app_nil_r by naive_solver.
    apply filter_all, Forall_forall. by intros x [? _]%elem_of_setDelete. }
  assert (Hd : ri_id item ∉ l) by by intros [? _]%elem_of_setDelete.
  unfold put at 1. unfold index.
  assert (Ei : rt_items (put item t) !! ri_id item = Some item) by (cbn; by rewrite lookup_insert_eq).
  rewrite Ei. destruct (put item t) as [items children store roots] eqn:Ep. cbn in *.
  assert (Es : st_remote store = items) by exact (to_store _ Hok').
  f_equal.
  - by apply insert_id.
  - rewrite lookup_alter_eq, Hl. cbn. rewrite Hn. unfold setAdd.
    rewrite bool_decide_eq_false_2 by done. apply map_eq. intros p.
    destruct (decide (p = ri_parentId item)) as [->|Hne].
    + by rewrite lookup_insert_eq, Hl.
    + by rewrite lookup_insert_ne, lookup_alter_ne by done.
  - unfold putRemote. rewrite insert_id by (by rewrite Es). by destruct store.
Qed.

(** What lies above an item does not depend on the item. *)
Lemma inScopeFrom_put depth item t current :
  treeOk t ->
  (forall c, current = Some c -> ~ below (put item t) (ri_id item) c) ->
  inScopeFrom depth (put item t) current = inScopeFrom depth t current.
Proof.
  intros Hok. pose proof (put_treeOk item t Hok) as Hok'.
  revert current. induction depth as [|depth IH]; intros current Hn; [done|].
  destruct current as [c|]; [|done]. cbn [inScopeFrom]. f_equal.
  assert (Hc : ri_id item <> c) by (intros <-; by apply (Hn (ri_id item) eq_refl), rtc_refl).
  assert (E : rt_items (put item t) !! c = rt_items t !! c) by (cbn; by rewrite lookup_insert_ne).
  rewrite E. apply IH. intros p Hp Hb. apply (Hn c eq_refl).
  eapply rtc_r; [exact Hb|]. apply (to_children _ Hok').
  rewrite E. destruct (rt_items t !! c) as [it|]; [|done]. cbn in Hp. eauto.
Qed.

Lemma inScopeFrom_mono depth t t' current :
  rt_roots t' = rt_roots t ->
  (forall c it, rt_items t' !! c = Some it -> rt_items t !! c = Some it) ->
  inScopeFrom depth t' current = true -> inScopeFrom depth t current = true.
Proof.
  intros Hr Hi. revert current. induction depth as [|depth IH]; intros [c|]; cbn [inScopeFrom]; try done.
  rewrite Hr, !orb_true_iff. intros [?|H]; [by left|right]. apply IH.
  destruct (rt_items t' !! c) as [it|] eqn:E; [by rewrite (Hi c it E)|by destruct depth].
Qed.

Lemma below_or_not t id x : treeOk t -> ~ tc (childOf t) id id -> below t id x \/ ~ below t id x.
Proof.
  intros Hok Hac. destruct (subtree_spec t id Hok Hac) as [_ Hs].
  destruct (decide (x ∈ subtree t id)) as [H|H]; [left|right]; by rewrite <- Hs.
Qed.

(** A change that comes a second time leaves the tree exactly as the first
    one did and asks for nothing, and so does an older change of the item. *)
Theorem replayed_changes_change_nothing change t :
  treeOk t -> acyclic t -> acyclic (apply change t).1 ->
  apply change (apply change t).1 = ((apply change t).1, None) /\
  forall old, ch_itemId old = ch_itemId change ->
    ch_storageRevision old < ch_storageRevision change ->
    rt_items (apply change t).1 !! ch_itemId change = Some (changedItem change) ->
    apply old (apply change t).1 = ((apply change t).1, None).
Proof.
  intros Hok Hac Hac'. split.
  - destruct (apply_cases change t) as [E|[(item & Hi & -> & Hwhy)|(Hin & Hr & Hk & Hp)]].
    + rewrite E. exact E.
    + cbn [fst]. destruct (removeSubtree_spec _ t Hok (Hac (ch_itemId change)))
        as (_ & Hroots & _ & Hitems).
      destruct (apply_cases change (removeSubtree (ch_itemId change) t))
        as [E|[(it & E & _)|(Hin & _ & Hk & _)]]; [done| |].
      * by rewrite (proj1 (Hitems _)) in E by apply rtc_refl.
      * exfalso. destruct Hwhy as [?|Hout]; [done|]. apply not_true_iff_false in Hout.
        apply Hout. unfold inScope in *. eapply inScopeFrom_mono; [exact Hroots| |exact Hin].
        intros c it' Hc. destruct (below_or_not t (ch_itemId change) c Hok (Hac _)) as [Hb|Hb].
        -- by rewrite (proj1 (Hitems c) Hb) in Hc.
        -- by rewrite (proj2 (Hitems c) Hb) in Hc.
    + rewrite Hp in *. unfold apply. rewrite bool_decide_eq_false_2 by done.
      assert (Ei : rt_items (put (changedItem change) t) !! ch_itemId change
        = Some (changedItem change)) by (cbn; by rewrite lookup_insert_eq).
      rewrite Ei, (bool_decide_eq_false_2 (_ < _)) by (cbn; lia).
      rewrite (bool_decide_eq_false_2 (ch_kind change ∈ _)) by done.
      assert (Es : inScope (put (changedItem change) t) (ch_parentId change) = true).
      { unfold inScope in *. rewrite inScopeFrom_put; [done|done|].
        intros c Hc Hb. apply (Hac' (ri_id (changedItem change))).
        eapply tc_rtc_l; [exact Hb|]. apply tc_once. apply (to_children _ (put_treeOk _ _ Hok)).
        exists (changedItem change). by rewrite <- Hc. }
      rewrite Es. cbn [negb]. rewrite put_twice by done.
      by rewrite (bool_decide_eq_false_2 (Some _ = None)), andb_false_r by done.
  - intros old Hid Hrev Hit. set (t' := (apply change t).1) in *. clearbody t'. unfold apply. rewrite Hid, Hit. cbn [ri_rev changedItem].
    case_bool_decide; [done|]. by rewrite bool_decide_eq_true_2.
Qed.

(** Items that grow in some measure from parent to child make no cycle. *)
Lemma acyclic_rank t (rank : string -> nat) :
  (forall p c, childOf t p c -> (rank p < rank c)%nat) -> acyclic t.
Proof.
  intros Hr.
  assert (Hlt : forall x y, tc (childOf t) x y -> (rank x < rank y)%nat).
  { induction 1 as [x y H|x y z H _ IH]; [by apply Hr|]. apply Hr in H. lia. }
  intros id Hid%Hlt. lia.
Qed.
