(* ===== verification/RemoteScope.v ===== *)
(** * What the walk of the server tree guarantees

    The paths [scope] gives are distinct keys on this computer, every name it
    gives can exist here, and every item inside a taken folder is taken,
    skipped or ignored: none is lost.

    At the end, the store and the tree on concrete items: a pair's folder with a
    subfolder, a file in it, and two files whose names differ in case only; and a
    base with a folder that moves. Each lemma checks the hypotheses of one
    property there and applies it. *)

From Stdlib Require Import Ascii.
From S2P Require Import Prelude SyncTypes JsValues SyncStore RemoteTree.

(** ** Groups *)

Lemma filter_none {A} (P : A -> Prop) `{forall x, Decision (P x)} (l : list A) :
  (forall x, x ∈ l -> ~ P x) -> filter P l = [].
Proof.
  intros Hn. destruct (filter P l) as [|x l'] eqn:E; [done|].
  assert (Hx : x ∈ filter P l) by (rewrite E; constructor).
  apply list_elem_of_filter in Hx as [Hp Hx]. by apply Hn in Hx.
Qed.

Section Scope.
Context `{!Platform} `{!PlatformLaws} (platform : NodePlatform)
  (ignore : string -> bool) (leftOut : string -> string -> bool).

(** The Unicode functions make no slash either. *)
Context (pathKey_no_slash : forall name, hasChar slash name = false ->
  hasChar slash (pathKey name) = false).

(** The groups: each under its own key, holding items with that key. *)
Definition groupsOk (items : list RemoteItem) (groups : list (string * list RemoteItem)) : Prop :=
  mapOk groups /\
  (forall key group item, (key, group) ∈ groups -> item ∈ group -> pathKey (ri_name item) = key) /\
  forall item, item ∈ items <-> exists key group, (key, group) ∈ groups /\ item ∈ group.

Lemma elem_of_mapSet {V} k (v : V) m k' v' :
  mapOk m -> (k', v') ∈ mapSet k v m <-> (k' = k /\ v' = v) \/ (k' <> k /\ (k', v') ∈ m).
Proof.
  intros Hm. pose proof (mapOk_mapSet k v m Hm) as Hm'. split.
  - intros Hin. apply mapGet_elem in Hin; [|done]. rewrite mapGet_mapSet in Hin.
    case_bool_decide; [left; naive_solver|right]. split; [done|]. by apply mapGet_Some_elem.
  - intros [[-> ->]|[Hne Hin]]; apply mapGet_Some_elem; rewrite mapGet_mapSet.
    + by rewrite bool_decide_eq_true_2.
    + rewrite bool_decide_eq_false_2 by done. by apply mapGet_elem.
Qed.

Lemma byKey_ok items : groupsOk items (byKey items).
Proof.
  unfold byKey. induction items as [|item items (Hm & Hk & He)] using rev_ind.
  - split; [apply NoDup_nil_2|]. split; [by intros ? ? ? ?%elem_of_nil|].
    intros item. split; [by intros ?%elem_of_nil|]. by intros (? & ? & ?%elem_of_nil & _).
  - rewrite foldl_app. cbn [foldl]. set (groups := foldl _ [] items) in *.
    set (key := pathKey (ri_name item)).
    assert (Hold : forall it, it ∈ default [] (mapGet key groups) <-> (exists g, (key, g) ∈ groups /\ it ∈ g)).
    { intros it. destruct (mapGet key groups) as [g|] eqn:Eg; cbn.
      - split; [intros; exists g; split; [by apply mapGet_Some_elem|done]|].
        intros (g' & Hg'%mapGet_elem & Hit); [congruence|done].
      - split; [by intros ?%elem_of_nil|]. intros (g' & Hg'%mapGet_elem & _); [congruence|done]. }
    split; [by apply mapOk_mapSet|]. split.
    + intros key' group it Hin Hit. apply elem_of_mapSet in Hin as [[-> ->]|[_ Hin]]; [| |done].
      * apply elem_of_app in Hit as [Hit| ->%list_elem_of_singleton]; [|done].
        apply Hold in Hit as (g & Hg & Hit). by eapply Hk.
      * by eapply Hk.
    + intros it. rewrite elem_of_app, list_elem_of_singleton, He. split.
      * intros [(key' & g & Hg & Hit)| ->].
        -- destruct (decide (key' = key)) as [->|Hne].
           ++ eexists key, _. split; [apply elem_of_mapSet; [done|by left]|].
              apply elem_of_app. left. apply Hold. eauto.
           ++ exists key', g. split; [apply elem_of_mapSet; [done|by right]|done].
        -- eexists key, _. split; [apply elem_of_mapSet; [done|by left]|].
           apply elem_of_app. right. constructor.
      * intros (key' & g & [[-> ->]|[Hne Hg]]%elem_of_mapSet & Hit); [| |done].
        -- apply elem_of_app in Hit as [(g & ? & ?)%Hold| ->%list_elem_of_singleton]; [left; eauto|by right].
        -- left. eauto.
Qed.

(** ** The entries of a folder *)

(** An entry the walk takes. *)
Definition taken (parentRel : string) (e : list RemoteItem * RemoteItem) : bool :=
  negb (ignore (ri_name e.2) || leftOut (ri_id e.2) (joinRel parentRel (ri_name e.2)))
  && bool_decide (skipReason platform e.1 e.2 = None).

Lemma elem_of_entriesOf t parentId group item :
  (group, item) ∈ entriesOf t parentId -> item ∈ group /\
  exists id, id ∈ childIds t (Some parentId) /\ rt_items t !! id = Some item.
Proof.
  unfold entriesOf. destruct (byKey_ok (omap (fun id => rt_items t !! id) (childIds t (Some parentId))))
    as (_ & _ & He).
  intros (es & Hin & ([key g] & -> & Hg)%list_elem_of_fmap)%list_elem_of_join.
  apply list_elem_of_fmap in Hin as (it & [= -> ->] & Hit). split; [done|].
  apply list_elem_of_omap, He. eauto.
Qed.

Lemma entriesOf_complete t parentId id item :
  id ∈ childIds t (Some parentId) -> rt_items t !! id = Some item ->
  exists group, (group, item) ∈ entriesOf t parentId.
Proof.
  intros Hid Hi. unfold entriesOf.
  destruct (byKey_ok (omap (fun id => rt_items t !! id) (childIds t (Some parentId))))
    as (_ & _ & He).
  destruct (proj1 (He item)) as (key & g & Hg & Hit); [apply list_elem_of_omap; eauto|].
  exists g. apply list_elem_of_join. exists ((fun it => (g, it)) <$> g). split;
    apply list_elem_of_fmap; [eauto|by exists (key, g)].
Qed.

(** Two entries that are taken have different keys. *)
Lemma taken_keys_NoDup parentRel t parentId :
  NoDup ((fun e => pathKey (ri_name e.2)) <$>
    filter (fun e => taken parentRel e = true) (entriesOf t parentId)).
Proof.
  unfold entriesOf. destruct (byKey_ok (omap (fun id => rt_items t !! id) (childIds t (Some parentId))))
    as (Hm & Hk & _). unfold mapOk in Hm.
  set (groups := byKey _) in *. clearbody groups.
  induction groups as [|[key g] groups IH]; [apply NoDup_nil_2|].
  cbn in Hm. apply NoDup_cons in Hm as [Hout Hm].
  change (mjoin ((fun e => (fun item => (e.2, item)) <$> e.2) <$> ((key, g) :: groups)))
    with (((fun item => (g, item)) <$> g)
          ++ mjoin ((fun e : string * list RemoteItem => (fun item => (e.2, item)) <$> e.2) <$> groups)).
  rewrite filter_app, fmap_app. apply NoDup_app. split; [|split].
  - destruct g as [|x [|y g]]; [apply NoDup_nil_2| |].
    + cbn [fmap list_fmap]. rewrite filter_cons, filter_nil.
      destruct (decide _); [apply NoDup_singleton|apply NoDup_nil_2].
    + assert (En : filter (fun e => taken parentRel e = true)
        ((fun item => (x :: y :: g, item)) <$> x :: y :: g) = []); [|rewrite En; apply NoDup_nil_2].
      apply filter_none. intros e (it & -> & _)%list_elem_of_fmap.
      unfold taken, skipReason. cbn [fst snd]. rewrite (bool_decide_eq_true_2 (1 < _)%nat) by (cbn; lia).
      destruct (invalidNameReason _ _); by rewrite andb_false_r.
  - intros k (e & -> & He)%list_elem_of_fmap (e' & E & He')%list_elem_of_fmap.
    apply list_elem_of_filter in He as [_ (it & -> & Hit)%list_elem_of_fmap].
    apply list_elem_of_filter in He' as [_ He'].
    apply list_elem_of_join in He' as (es & Hin & ([key' g'] & -> & Hg')%list_elem_of_fmap).
    apply list_elem_of_fmap in Hin as (it' & -> & Hit'). cbn in E.
    rewrite (Hk key g it), (Hk key' g' it') in E; [|by constructor|done|constructor|done].
    subst. apply Hout. apply list_elem_of_fmap. exists (key', g'). done.
  - apply IH; [done|]. intros key' g' it Hg' Hit. eapply Hk; [by constructor|done].
Qed.

(** ** Paths and their keys *)

(** What comes before a name in a path below [rel]. *)
Definition relPrefix (rel : string) : string := if bool_decide (rel = "") then "" else rel +:+ "/".
Definition keyPrefix (rel : string) : string :=
  if bool_decide (rel = "") then "" else pathKey rel +:+ "/".

Lemma joinRel_prefix rel x : joinRel rel x = relPrefix rel +:+ x.
Proof. unfold joinRel, relPrefix. case_bool_decide; [done|]. by rewrite string_app_assoc. Qed.

Lemma pathKey_slash a b : pathKey (a +:+ "/" +:+ b) = pathKey a +:+ "/" +:+ pathKey b.
Proof.
  change (a +:+ "/" +:+ b) with (a +:+ String slash b).
  unfold pathKey. rewrite normalizeNFC_slash. destruct caseInsensitive; [|done].
  by rewrite toLowerCase_slash.
Qed.

Lemma pathKey_prefix rel x : pathKey (relPrefix rel +:+ x) = keyPrefix rel +:+ pathKey x.
Proof.
  unfold relPrefix, keyPrefix. case_bool_decide; [done|].
  by rewrite <- string_app_assoc, pathKey_slash, string_app_assoc.
Qed.

Lemma relPrefix_app rel x : x <> "" -> relPrefix (relPrefix rel +:+ x) = relPrefix rel +:+ x +:+ "/".
Proof.
  intros Hx. unfold relPrefix at 1. rewrite bool_decide_eq_false_2.
  - by rewrite string_app_assoc.
  - intros E. apply (f_equal String.length) in E. rewrite string_length_app in E.
    destruct x; [done|]. cbn in E. lia.
Qed.

(** ** The items of a walk *)

Lemma sp_items_fold l : sp_items (foldr joinScope noScope l) = mjoin (sp_items <$> l).
Proof. induction l as [|x l IH]; [done|]. cbn. by rewrite IH. Qed.

Definition entryItem (parentRel : string) (e : list RemoteItem * RemoteItem) : ScopedItem :=
  {| si_rel := relPrefix parentRel +:+ ri_name e.2; si_item := e.2 |}.

(** What the walk takes for one entry. *)
Definition piece (fuel : nat) (t : RemoteTree) (parentRel : string)
    (e : list RemoteItem * RemoteItem) : list ScopedItem :=
  entryItem parentRel e ::
  (if bool_decide (ri_type e.2 = folder)
   then sp_items (walk platform ignore leftOut fuel t (ri_id e.2)
                    (relPrefix parentRel +:+ ri_name e.2))
   else []).

Lemma join_cons {A} (l : list A) ls : mjoin (l :: ls) = l ++ mjoin ls.
Proof. done. Qed.

Lemma walk_items fuel t parentId parentRel :
  sp_items (walk platform ignore leftOut (S fuel) t parentId parentRel)
  = mjoin (piece fuel t parentRel
           <$> filter (fun e => taken parentRel e = true) (entriesOf t parentId)).
Proof.
  cbn [walk]. rewrite sp_items_fold.
  induction (entriesOf t parentId) as [|[g item] es IH]; [done|].
  rewrite filter_cons, !fmap_cons, join_cons.
  destruct (decide (taken parentRel (g, item) = true)) as [Ht|Ht].
  - rewrite fmap_cons, join_cons, <- IH. f_equal.
    unfold taken in Ht. cbn [fst snd] in Ht.
    apply andb_true_iff in Ht as [->%negb_true_iff ->%bool_decide_eq_true_1].
    unfold piece, entryItem. cbn [fst snd]. rewrite joinRel_prefix. by case_bool_decide.
  - rewrite <- IH. unfold taken in Ht. cbn [fst snd] in Ht.
    destruct (ignore _ || leftOut _ _); [done|]. cbn [negb andb] in Ht.
    destruct (skipReason platform g item); [done|]. by rewrite bool_decide_eq_true_2 in Ht.
Qed.

(** Server names are not empty and hold no slash. *)
Definition namesOk (t : RemoteTree) : Prop :=
  forall id item, rt_items t !! id = Some item ->
    ri_name item <> "" /\ hasChar slash (ri_name item) = false.

Lemma entry_name t parentId e :
  namesOk t -> e ∈ entriesOf t parentId ->
  ri_name e.2 <> "" /\ hasChar slash (ri_name e.2) = false.
Proof.
  destruct e as [g item]. intros Hn (_ & id & _ & Hi)%elem_of_entriesOf. by apply (Hn id).
Qed.

(** Every path of a walk starts with the name of an entry. *)
Lemma walk_rel fuel t parentId parentRel s :
  namesOk t -> s ∈ sp_items (walk platform ignore leftOut fuel t parentId parentRel) ->
  exists e tail, e ∈ entriesOf t parentId /\
    si_rel s = relPrefix parentRel +:+ ri_name e.2 +:+ tail /\
    (tail = "" \/ exists rest, tail = "/" +:+ rest).
Proof.
  intros Hn. revert parentId parentRel.
  induction fuel as [|fuel IH]; intros parentId parentRel Hs; [by apply elem_of_nil in Hs|].
  rewrite walk_items in Hs.
  apply list_elem_of_join in Hs as (l & Hs & (e & -> & He)%list_elem_of_fmap).
  apply list_elem_of_filter in He as [_ He]. exists e.
  apply elem_of_cons in Hs as [->|Hs].
  - exists "". cbn. rewrite string_app_nil_r. eauto.
  - case_bool_decide; [|by apply elem_of_nil in Hs].
    destruct (entry_name _ _ _ Hn He) as [Hne _].
    apply IH in Hs as (e' & tail & _ & -> & _). rewrite relPrefix_app by done.
    exists ("/" +:+ ri_name e'.2 +:+ tail). split; [done|].
    split; [by rewrite <- !string_app_assoc|eauto].
Qed.

(** The key of the entry a path goes through. *)
Definition tag (parentRel : string) (s : ScopedItem) : option string :=
  head (splitOn slash (sliceFrom (String.length (keyPrefix parentRel)) (pathKey (si_rel s)))).

Lemma tag_spec parentRel s name tail :
  hasChar slash name = false -> si_rel s = relPrefix parentRel +:+ name +:+ tail ->
  (tail = "" \/ exists rest, tail = "/" +:+ rest) -> tag parentRel s = Some (pathKey name).
Proof.
  intros Hn E Ht. unfold tag. rewrite E, pathKey_prefix, sliceFrom_app.
  apply pathKey_no_slash in Hn. destruct Ht as [->|[rest ->]].
  - by rewrite string_app_nil_r, splitOn_no_char.
  - rewrite pathKey_slash. change ("/" +:+ pathKey rest) with (String slash (pathKey rest)).
    by rewrite splitOn_app, splitOn_no_char.
Qed.

Lemma NoDup_join {A B K V} (f : A -> list B) (key : A -> K) (tagOf : B -> K) (val : B -> V) l :
  NoDup (key <$> l) -> (forall a b, a ∈ l -> b ∈ f a -> tagOf b = key a) ->
  (forall a, a ∈ l -> NoDup (val <$> f a)) ->
  (forall b b', val b = val b' -> tagOf b = tagOf b') ->
  NoDup (val <$> mjoin (f <$> l)).
Proof.
  intros Hk Htag Hf Hv. induction l as [|a l IH]; [apply NoDup_nil_2|].
  rewrite fmap_cons in Hk. apply NoDup_cons in Hk as [Hout Hk].
  rewrite fmap_cons, join_cons, fmap_app. apply NoDup_app. split; [apply Hf; constructor|]. split.
  - intros v (b & -> & Hb)%list_elem_of_fmap (b' & E & Hb')%list_elem_of_fmap.
    apply Hv in E. apply list_elem_of_join in Hb' as (bs & Hb' & (a' & -> & Ha')%list_elem_of_fmap).
    rewrite (Htag a b), (Htag a' b') in E by (try constructor; done).
    apply Hout. rewrite E. by apply list_elem_of_fmap_2.
  - apply IH; [done| |]; intros; [apply Htag|apply Hf]; by try constructor.
Qed.

Lemma walk_NoDup fuel t parentId parentRel :
  namesOk t ->
  NoDup ((fun s => pathKey (si_rel s))
         <$> sp_items (walk platform ignore leftOut fuel t parentId parentRel)).
Proof.
  intros Hn. revert parentId parentRel.
  induction fuel as [|fuel IH]; intros parentId parentRel; [apply NoDup_nil_2|].
  rewrite walk_items. apply (NoDup_join _ (fun e => Some (pathKey (ri_name e.2))) (tag parentRel)).
  - pose proof (taken_keys_NoDup parentRel t parentId) as Hnd.
    apply (NoDup_fmap_2 Some) in Hnd. by rewrite <- list_fmap_compose in Hnd.
  - intros e s [_ He]%list_elem_of_filter Hs. destruct (entry_name _ _ _ Hn He) as [Hne Hsl].
    apply elem_of_cons in Hs as [->|Hs].
    + eapply (tag_spec _ _ _ ""); [done|by cbn; rewrite string_app_nil_r|by left].
    + case_bool_decide; [|by apply elem_of_nil in Hs].
      apply walk_rel in Hs as (e' & tail & _ & E & _); [|done]. rewrite relPrefix_app in E by done.
      eapply (tag_spec _ _ _ ("/" +:+ ri_name e'.2 +:+ tail)); [done| |eauto].
      by rewrite E, <- !string_app_assoc.
  - intros e [_ He]%list_elem_of_filter. destruct (entry_name _ _ _ Hn He) as [Hne Hsl].
    unfold piece. rewrite fmap_cons. apply NoDup_cons. split; [|case_bool_decide; [apply IH|apply NoDup_nil_2]].
    intros (s & E & Hs)%list_elem_of_fmap. case_bool_decide; [|by apply elem_of_nil in Hs].
    apply walk_rel in Hs as (e' & tail & _ & Er & _); [|done].
    cbn [entryItem si_rel] in E.
    rewrite Er, relPrefix_app, <- !string_app_assoc, !pathKey_prefix in E by done.
    apply (f_equal String.length) in E.
    rewrite pathKey_slash, !string_length_app in E. cbn in E. lia.
  - intros b b' E. unfold tag. by rewrite E.
Qed.

(** ** Nothing is lost *)

(** Every item a walk comes to, whatever it does with it. *)
Definition reached (r : Scope) : list RemoteItem :=
  (si_item <$> sp_items r) ++ (sk_item <$> sp_skipped r) ++ (si_item <$> sp_ignored r).

Lemma elem_of_reached_join x a b :
  x ∈ reached (joinScope a b) <-> x ∈ reached a \/ x ∈ reached b.
Proof. unfold reached. cbn. rewrite !fmap_app, !elem_of_app. tauto. Qed.

Lemma elem_of_reached_fold x l :
  x ∈ reached (foldr joinScope noScope l) <-> exists r, r ∈ l /\ x ∈ reached r.
Proof.
  induction l as [|r l IH]; cbn [foldr].
  - split; [by intros ?%elem_of_nil|]. by intros (? & ?%elem_of_nil & _).
  - rewrite elem_of_reached_join, IH. setoid_rewrite elem_of_cons. naive_solver.
Qed.

(** What the walk does with one entry. *)
Definition entryScope (fuel : nat) (t : RemoteTree) (parentRel : string)
    (e : list RemoteItem * RemoteItem) : Scope :=
  let '(group, item) := e in
  let rel := joinRel parentRel (ri_name item) in
  if ignore (ri_name item) || leftOut (ri_id item) rel
  then {| sp_items := []; sp_skipped := []; sp_ignored := [{| si_rel := rel; si_item := item |}] |}
  else
    match skipReason platform group item with
    | Some reason =>
        {| sp_items := []; sp_ignored := [];
           sp_skipped := [{| sk_rel := rel; sk_item := item; sk_reason := reason |}] |}
    | None =>
        joinScope {| sp_items := [{| si_rel := rel; si_item := item |}];
                     sp_skipped := []; sp_ignored := [] |}
          (if bool_decide (ri_type item = folder)
           then walk platform ignore leftOut fuel t (ri_id item) rel else noScope)
    end.

Lemma walk_entries fuel t parentId parentRel :
  walk platform ignore leftOut (S fuel) t parentId parentRel
  = foldr joinScope noScope (entryScope fuel t parentRel <$> entriesOf t parentId).
Proof. done. Qed.

Lemma reached_entry fuel t parentRel e : e.2 ∈ reached (entryScope fuel t parentRel e).
Proof.
  destruct e as [g item]. unfold entryScope. cbn [snd].
  destruct (_ || _); [apply list_elem_of_here|].
  destruct (skipReason _ _ _); [apply list_elem_of_here|]. apply elem_of_reached_join. left.
  apply list_elem_of_here.
Qed.

(** An item whose contents are to be shown: the root, or a folder taken. *)
Definition shown (rootId : string) (r : Scope) (id : string) : Prop :=
  id = rootId \/ exists s, s ∈ sp_items r /\ ri_id (si_item s) = id /\ ri_type (si_item s) = folder.

(** The folders on the way to the one being walked. *)
Record onPath (t : RemoteTree) (path : list string) (parentId : string) : Prop := {
  op_nodup : NoDup path;
  op_below x : x ∈ path -> is_Some (rt_items t !! x) /\ below t x parentId
}.

Lemma onPath_length t path parentId : onPath t path parentId -> (length path <= size (rt_items t))%nat.
Proof.
  intros [Hn Hb]. rewrite <- (size_list_to_set (C := gset string) path Hn), <- size_dom.
  apply subseteq_size. intros x Hx%elem_of_list_to_set. apply elem_of_dom. by apply Hb.
Qed.

Lemma onPath_child t path parentId c :
  treeOk t -> acyclic t -> onPath t path parentId -> childOf t parentId c ->
  onPath t (c :: path) c.
Proof.
  intros Hok Hac [Hn Hb] Hc.
  assert (Hi : is_Some (rt_items t !! c))
    by (destruct (proj1 (to_children t Hok _ _) Hc) as (it & -> & _); eauto).
  constructor.
  - apply NoDup_cons. split; [|done]. intros Hin. apply Hb in Hin as [_ Hin]. apply (Hac c).
    eapply tc_rtc_l; [exact Hin|by apply tc_once].
  - intros x [->|Hx]%elem_of_cons; [split; [done|apply rtc_refl]|].
    split; [by apply Hb|]. eapply rtc_r; [by apply Hb|exact Hc].
Qed.

Lemma walk_reaches_children fuel t parentId parentRel path c item :
  onPath t path parentId -> (size (rt_items t) < length path + fuel)%nat ->
  c ∈ childIds t (Some parentId) -> rt_items t !! c = Some item ->
  item ∈ reached (walk platform ignore leftOut fuel t parentId parentRel).
Proof.
  intros Hp Hf Hc Hi. pose proof (onPath_length _ _ _ Hp).
  destruct fuel as [|fuel]; [lia|]. rewrite walk_entries, elem_of_reached_fold.
  destruct (entriesOf_complete _ _ _ _ Hc Hi) as [g Hg]. exists (entryScope fuel t parentRel (g, item)).
  split; [by apply list_elem_of_fmap_2|]. apply (reached_entry _ _ _ (g, item)).
Qed.

Lemma walk_reaches fuel t parentId parentRel path id c item :
  treeOk t -> acyclic t -> onPath t path parentId ->
  (size (rt_items t) < length path + fuel)%nat ->
  shown parentId (walk platform ignore leftOut fuel t parentId parentRel) id ->
  c ∈ childIds t (Some id) -> rt_items t !! c = Some item ->
  item ∈ reached (walk platform ignore leftOut fuel t parentId parentRel).
Proof.
  intros Hok Hac. revert parentId parentRel path.
  induction fuel as [|fuel IH]; intros parentId parentRel path Hp Hf Hs Hc Hi.
  - apply onPath_length in Hp. lia.
  - destruct Hs as [->|(s & Hs & Hid & Hty)]; [by eapply walk_reaches_children|].
    rewrite walk_items in Hs.
    apply list_elem_of_join in Hs as (l & Hs & (e & -> & He)%list_elem_of_fmap).
    apply list_elem_of_filter in He as [Ht He]. destruct e as [g folderItem].
    pose proof (elem_of_entriesOf _ _ _ _ He) as (_ & fid & Hfid & Hfi).
    pose proof (to_items t Hok _ _ Hfi) as Hfid'. subst fid.
    rewrite walk_entries. apply elem_of_reached_fold. exists (entryScope fuel t parentRel (g, folderItem)).
    split; [by apply list_elem_of_fmap_2|].
    assert (Hfolder : shown (ri_id folderItem) (walk platform ignore leftOut fuel t (ri_id folderItem)
      (relPrefix parentRel +:+ ri_name folderItem)) id /\ ri_type folderItem = folder).
    { unfold piece in Hs. apply elem_of_cons in Hs as [->|Hs]; [by split; [left|]|].
      cbn [snd] in Hs. case_bool_decide as Hf'; [|by apply elem_of_nil in Hs].
      split; [right; eauto|done]. }
    destruct Hfolder as [Hsh Hfo]. unfold entryScope, taken in *. cbn [fst snd] in Ht.
    apply andb_true_iff in Ht as [->%negb_true_iff ->%bool_decide_eq_true_1].
    apply elem_of_reached_join. right. rewrite bool_decide_eq_true_2 by done.
    rewrite joinRel_prefix. eapply (IH _ _ (ri_id folderItem :: path)); try done.
    + by eapply onPath_child.
    + cbn. lia.
Qed.

(** The paths of a pair's items are distinct on this computer, letter case
    and all, and no item taken has a name that cannot exist here or that the
    pair leaves out. *)
Theorem scope_paths_are_distinct_here t rootId :
  namesOk t ->
  NoDup ((fun s => pathKey (si_rel s)) <$> sp_items (scope platform ignore leftOut t rootId)) /\
  forall s, s ∈ sp_items (scope platform ignore leftOut t rootId) ->
    invalidNameReason (ri_name (si_item s)) platform = None /\
    ignore (ri_name (si_item s)) = false /\ leftOut (ri_id (si_item s)) (si_rel s) = false.
Proof.
  intros Hn. split; [by apply walk_NoDup|]. unfold scope. generalize (S (size (rt_items t))), rootId, "".
  intros fuel. induction fuel as [|fuel IH]; intros parentId parentRel s Hs; [by apply elem_of_nil in Hs|].
  rewrite walk_items in Hs.
  apply list_elem_of_join in Hs as (l & Hs & ([g item] & -> & He)%list_elem_of_fmap).
  apply list_elem_of_filter in He as [Ht _].
  apply elem_of_cons in Hs as [->|Hs].
  - unfold taken in Ht. cbn [fst snd] in Ht.
    apply andb_true_iff in Ht as [[H1 H2]%negb_true_iff%orb_false_iff Ht%bool_decide_eq_true_1].
    rewrite joinRel_prefix in H2. split; [|done].
    unfold skipReason in Ht. cbn [entryItem si_item snd]. by destruct (invalidNameReason _ _).
  - case_bool_decide; [by eapply IH|by apply elem_of_nil in Hs].
Qed.

(** The walk loses nothing: every item inside the pair's folder, or inside
    a folder it took, is taken, skipped with a reason, or ignored. *)
Theorem scope_loses_nothing t rootId id c item :
  treeOk t -> acyclic t -> shown rootId (scope platform ignore leftOut t rootId) id ->
  rt_items t !! c = Some item -> ri_parentId item = Some id ->
  item ∈ reached (scope platform ignore leftOut t rootId).
Proof.
  intros Hok Hac Hs Hi Hp. eapply (walk_reaches _ _ _ _ []); try done.
  - constructor; [apply NoDup_nil_2|by intros x ?%elem_of_nil].
  - cbn. lia.
  - apply (to_children t Hok). eauto.
Qed.
End Scope.

Open Scope Z_scope.
#[local] Existing Instance asciiPlatform.
#[local] Existing Instance asciiPlatformLaws.

(** ** The store *)

Definition storedBase (rel : string) : BaseEntry :=
  {| be_pairId := "p"; be_rel := rel; be_type := file; be_remoteId := "r"; be_rev := 1;
     be_checksum := None; be_size := 1; be_mtimeMs := 1; be_ino := "0" |}.

Definition emptyStore : Store :=
  {| st_meta := ∅; st_remote := ∅; st_base := ∅; st_upload := ∅; st_conflict := [];
     st_nextConflict := 1 |}.

Definition baseStore : Store :=
  putBase (storedBase "notes") (putBase (storedBase "notes/todo.txt")
    (putBase (storedBase "notes.txt") emptyStore)).

Lemma baseStore_storeOk : storeOk baseStore.
Proof.
  split; [|split]; [|by intros id item H|by intros k u H].
  intros k e. cbn.
  intros [[<- <-]|[_ [[<- <-]|[_ [[<- <-]|[_ H]]%lookup_insert_Some]]%lookup_insert_Some]]%lookup_insert_Some;
    done.
Qed.

Lemma moveBaseTree_witness :
  st_base (moveBaseTree "p" "notes" "old/notes" baseStore) !! ("p", "old/notes/todo.txt")
  = Some (withRel "old/notes/todo.txt" (storedBase "notes/todo.txt")) /\
  st_base (moveBaseTree "p" "notes" "old/notes" baseStore) !! ("p", "notes.txt")
  = Some (storedBase "notes.txt").
Proof.
  destruct (moveBaseTree_moves_the_tree "p" "notes" "old/notes" baseStore baseStore_storeOk)
    as (H1 & _ & H3). split.
  - apply (H1 "/todo.txt" (storedBase "notes/todo.txt")); vm_compute; reflexivity.
  - rewrite H3; [vm_compute; reflexivity|]. right. split; vm_compute; reflexivity.
Defined.

(** ** The tree *)

Definition exampleRemote (id : string) (type : ItemType) (parentId name : string) : RemoteItem :=
  {| ri_id := id; ri_type := type; ri_parentId := Some parentId; ri_name := name;
     ri_size := None; ri_checksum := None; ri_rev := 5; ri_modifiedAt := None |}.

Definition exampleItems : list RemoteItem :=
  [exampleRemote "d" folder "root" "Notes"; exampleRemote "f" file "d" "todo.txt";
   exampleRemote "g" file "root" "a.txt"; exampleRemote "h" file "root" "A.TXT"].

Definition exampleTree : RemoteTree :=
  addUnder exampleItems (newRemoteTree emptyStore {["root"]}).

Lemma exampleTree_treeOk : treeOk exampleTree.
Proof.
  apply addUnder_treeOk, newRemoteTree_treeOk. by intros id item H.
Qed.

Definition exampleRank (id : string) : nat :=
  if bool_decide (id = "root") then 0 else if bool_decide (id = "f") then 2 else 1.

Lemma rank_acyclic t :
  treeOk t ->
  forallb (fun e : string * RemoteItem =>
    match ri_parentId e.2 with
    | Some p => bool_decide (exampleRank p < exampleRank e.1)%nat | None => true end)
    (map_to_list (rt_items t)) = true -> acyclic t.
Proof.
  intros Hok Hf. apply (acyclic_rank t exampleRank). intros p c (it & Hi & Hp)%(to_children t Hok).
  rewrite forallb_forall in Hf.
  specialize (Hf (c, it)). cbn in Hf. rewrite Hp in Hf.
  apply (bool_decide_eq_true_1 _), Hf, list_elem_of_In, elem_of_map_to_list, Hi.
Qed.

Lemma exampleTree_acyclic : acyclic exampleTree.
Proof. apply rank_acyclic; [apply exampleTree_treeOk|vm_compute; reflexivity]. Qed.

(** The notes move under another name. *)
Definition renameChange : StorageChange :=
  {| ch_kind := moved; ch_itemType := folder; ch_itemId := "d"; ch_parentId := Some "root";
     ch_name := "Texts"; ch_sizeBytes := None; ch_contentChecksum := None;
     ch_storageRevision := 6; ch_clientModifiedAt := None |}.

Lemma mirrored_witness : treeOk (apply renameChange exampleTree).1.
Proof.
  exact (proj1 (server_tree_stays_mirrored exampleTree exampleTree_treeOk exampleTree_acyclic)
    renameChange).
Defined.

Lemma removal_witness :
  rt_items (removeSubtree "d" exampleTree) !! "f" = None /\
  rt_items exampleTree !! "f" = Some (exampleRemote "f" file "d" "todo.txt").
Proof.
  split; [|vm_compute; reflexivity].
  refine (proj1 (proj1 (removeSubtree_is_exact "d" exampleTree exampleTree_treeOk
    exampleTree_acyclic) "f" _)).
  apply rtc_once. apply list_elem_of_lookup_2 with 0%nat. vm_compute; reflexivity.
Defined.

Lemma replay_change_witness :
  apply renameChange (apply renameChange exampleTree).1
  = ((apply renameChange exampleTree).1, None).
Proof.
  refine (proj1 (replayed_changes_change_nothing renameChange exampleTree exampleTree_treeOk
    exampleTree_acyclic _)).
  apply rank_acyclic; [apply mirrored_witness|vm_compute; reflexivity].
Defined.

(** ** The walk *)

Lemma foldAscii_no_slash name :
  hasChar slash name = false -> hasChar slash (pathKey name) = false.
Proof.
  unfold pathKey. cbn [caseInsensitive normalizeNFC toLowerCase asciiPlatform].
  induction name as [|a name IH]; [done|]. cbn. rewrite !orb_false_iff. intros [Ha Hn].
  split; [|by apply IH]. apply bool_decide_eq_false in Ha. apply bool_decide_eq_false.
  intros E. apply Ha. destruct a as [[] [] [] [] [] [] [] []]; vm_compute in E; first [done|by injection E].
Qed.

Lemma exampleTree_namesOk : namesOk exampleTree.
Proof.
  intros id item Hi%elem_of_map_to_list.
  assert (Hf : forallb (fun e : string * RemoteItem => negb (bool_decide (ri_name e.2 = ""))
    && negb (hasChar slash (ri_name e.2))) (map_to_list (rt_items exampleTree)) = true)
    by (vm_compute; reflexivity).
  rewrite forallb_forall in Hf. specialize (Hf (id, item) (proj1 (list_elem_of_In _ _) Hi)).
  apply andb_true_iff in Hf as [H1%negb_true_iff%bool_decide_eq_false_1 H2%negb_true_iff].
  by split.
Qed.

Definition exampleScope : Scope :=
  scope linux (fun _ => false) (fun _ _ => false) exampleTree "root".

Lemma scope_paths_witness :
  (si_rel <$> sp_items exampleScope) = ["Notes"; "Notes/todo.txt"] /\
  NoDup ((fun s => pathKey (si_rel s)) <$> sp_items exampleScope).
Proof.
  split; [vm_compute; reflexivity|].
  exact (proj1 (scope_paths_are_distinct_here linux (fun _ => false) (fun _ _ => false)
    foldAscii_no_slash exampleTree "root" exampleTree_namesOk)).
Defined.

(** The two files whose names differ in case only are not lost. *)
Lemma scope_complete_witness :
  exampleRemote "h" file "root" "A.TXT" ∈ reached exampleScope.
Proof.
  refine (scope_loses_nothing linux (fun _ => false) (fun _ _ => false) exampleTree "root" "root" "h"
    _ exampleTree_treeOk exampleTree_acyclic _ _ _).
  - by left.
  - vm_compute; reflexivity.
  - reflexivity.
Defined.
