(* ===== verification/RangeResponse.v ===== *)
(** * Downloads and byte ranges

    [apps/web/server/downloads/range-response.ts] and
    [content-disposition.ts]: what a Range header asks for, and the response.
    File sizes are safe integers. A number in the header is the integer its
    digits write; it only meets comparisons with the size, in which the double
    the source reads decides the same way, and it is finite below
    [2^1024 - 2^970]. Opening a file and reading its bytes belong to Node and
    are parameters. At the end, a file of ten bytes, in chunks of four, and ranges
    of it. *)

From Stdlib Require Import Ascii.
From Stdlib Require String.
From stdpp Require Import pretty.
From S2P Require Import Prelude JsValues ChunkProtocol.

Open Scope Z_scope.

(** ** The Range header *)

Record ByteRange := { br_start : Z; br_end : Z }.

Fixpoint allDigits (s : string) : bool :=
  match s with
  | EmptyString => true
  | String a s' => bool_decide (48 <= nat_of_ascii a <= 57)%nat && allDigits s'
  end.

Definition dash : ascii := "-"%char.

(** [Number(s)] of a digit string, and [Number.isFinite] of it. *)
Definition numberOf (s : string) : Z := default 0 (digitsFrom 10 0 s).
Definition isFinite (n : Z) : bool := bool_decide (n < 2 ^ 1024 - 2 ^ 970).

(** [/^\d*-\d*$/]. *)
Definition isRangePart (part : string) : bool :=
  match splitOn dash part with
  | [s; e] => allDigits s && allDigits e
  | _ => false
  end.

Definition parseSingleByteRange (rangeHeader : string) (size : Z) : option ByteRange :=
  if negb (startsWith "bytes=" rangeHeader) then None
  else
    let part := trim (sliceFrom (String.length "bytes=") rangeHeader) in
    if negb (isRangePart part) then None
    else
      match take 2 (splitOn dash part) with
      | [s; e] =>
          if bool_decide (s = "") then
            let suffix := numberOf e in
            if negb (isFinite suffix) || bool_decide (suffix <= 0) then None
            else Some {| br_start := Z.max (size - suffix) 0; br_end := size - 1 |}
          else
            let start := numberOf s in
            if negb (isFinite start) || bool_decide (start < 0) || bool_decide (size <= start)
            then None
            else
              let end_ := if bool_decide (e = "") then size - 1 else Z.min (numberOf e) (size - 1) in
              if negb (isFinite end_) || bool_decide (end_ < start) then None
              else Some {| br_start := start; br_end := end_ |}
      | _ => None
      end.

(** ** The file name *)

(** [encodeURIComponent] keeps letters, digits and [-_.!~*'()]; every other
    byte of the UTF-8 form becomes an escape. *)
Definition isUnreserved (a : ascii) : bool :=
  let n := nat_of_ascii a in
  bool_decide (48 <= n <= 57)%nat || bool_decide (65 <= n <= 90)%nat
  || bool_decide (97 <= n <= 122)%nat
  || bool_decide (a ∈ ["-"; "_"; "."; "!"; "~"; "*"; "'"; "("; ")"]%char).

Definition hexDigit (n : nat) : ascii :=
  ascii_of_nat (if bool_decide (n < 10)%nat then 48 + n else 55 + n).

Definition escape (a : ascii) : string :=
  let n := nat_of_ascii a in
  String "%" (String (hexDigit (n / 16)) (String (hexDigit (n mod 16)) EmptyString)).

Fixpoint encodeURIComponent (s : string) : string :=
  match s with
  | EmptyString => EmptyString
  | String a s' =>
      (if isUnreserved a then String a EmptyString else escape a) +:+ encodeURIComponent s'
  end.

(** [.replace(/['()*]/g, ...)]. *)
Fixpoint escapeQuotes (s : string) : string :=
  match s with
  | EmptyString => EmptyString
  | String a s' =>
      (if bool_decide (a ∈ ["'"; "("; ")"; "*"]%char) then escape a else String a EmptyString)
      +:+ escapeQuotes s'
  end.

Inductive DispositionType := attachment | inline.

Definition contentDisposition (type : DispositionType) (fileName : string) : string :=
  match type with attachment => "attachment" | inline => "inline" end
  +:+ "; filename*=UTF-8''" +:+ escapeQuotes (encodeURIComponent fileName).

(** [rangeHeader ? parseSingleByteRange(...) : undefined]. *)
Definition requestedRange (rangeHeader : option string) (size : Z) : option (option ByteRange) :=
  match rangeHeader with
  | None | Some EmptyString => None
  | Some header => Some (parseSingleByteRange header size)
  end.

(** ** Responses *)

Section Response.
(** [fileHandle.createReadStream({ ...range })]: a stream of the bytes of the
    range, or of all; it throws on a range that is none. *)
Context {Stream StreamError : Type} (createReadStream : option ByteRange -> result StreamError Stream).

Inductive Body := body_stream (stream : Stream) | body_text (text : string).

Record Response := {
  re_status : Z; re_headers : list (string * string); re_body : Body
}.

(** [closed] is whether the handle was closed at once; a stream closes it when
    it ends. *)
Definition respondWithFile (sizeBytes : Z) (headers : list (string * string))
    (range : option (option ByteRange)) : result StreamError (Response * bool) :=
  match range with
  | None =>
      stream ← createReadStream None;
      Ok ({| re_status := 200;
             re_headers := mapSet "content-length" (pretty sizeBytes) headers;
             re_body := body_stream stream |}, false)
  | Some None =>
      Ok ({| re_status := 416;
             re_headers := [("content-range", "bytes */" +:+ pretty sizeBytes);
                            ("content-type", "text/plain; charset=utf-8")];
             re_body := body_text "Range not satisfiable." |}, true)
  | Some (Some range) =>
      stream ← createReadStream (Some range);
      Ok ({| re_status := 206;
             re_headers :=
               mapSet "content-range"
                 ("bytes " +:+ pretty (br_start range) +:+ "-" +:+ pretty (br_end range)
                  +:+ "/" +:+ pretty sizeBytes)
                 (mapSet "content-length" (pretty (br_end range - br_start range + 1)) headers);
             re_body := body_stream stream |}, false)
  end.

Definition createRangeResponseFromHandle (rangeHeader : option string) (sizeBytes : Z)
    (mimeType fileName : string) : result StreamError (Response * bool) :=
  respondWithFile sizeBytes
    [("content-disposition", contentDisposition attachment fileName);
     ("content-type", mimeType); ("accept-ranges", "bytes");
     ("x-content-type-options", "nosniff")]
    (requestedRange rangeHeader sizeBytes).

(** What a download from a path does: the response, whether the missing object
    was reported, and whether the handle was closed at once. [opened] is the
    outcome of [open], with the error's code. *)
Record Served := {
  sv_response : result StreamError (option Response);
  sv_reportedMissing : bool;
  sv_closed : bool
}.

Definition createRangeResponseFromPath (opened : result (option string) unit)
    (rangeHeader : option string) (sizeBytes : Z) (mimeType fileName : string) : Served :=
  match opened with
  | Throw code =>
      {| sv_response := Ok None;
         sv_reportedMissing := opt_is code "ENOENT" || opt_is code "EISDIR";
         sv_closed := false |}
  | Ok _ =>
      match createRangeResponseFromHandle rangeHeader sizeBytes mimeType fileName with
      | Ok (response, closed) =>
          {| sv_response := Ok (Some response); sv_reportedMissing := false; sv_closed := closed |}
      | Throw e =>
          {| sv_response := Throw e; sv_reportedMissing := false; sv_closed := true |}
      end
  end.
End Response.

(** ** Ranges *)

Lemma digitsFrom_nonneg s acc n : 0 <= acc -> digitsFrom 10 acc s = Some n -> 0 <= n.
Proof.
  revert acc. induction s as [|a s IH]; intros acc Ha H; cbn in H; [by injection H as <-|].
  destruct (digitValue 10 a) as [d|] eqn:Ed; [|done]. eapply IH; [|exact H].
  assert (0 <= d); [|lia]. unfold digitValue in Ed.
  repeat case_bool_decide; simplify_eq; lia.
Qed.

Lemma numberOf_nonneg s : 0 <= numberOf s.
Proof.
  unfold numberOf. destruct (digitsFrom 10 0 s) as [n|] eqn:E; cbn; [|done].
  by eapply digitsFrom_nonneg.
Qed.

(** A range that is accepted lies inside the file, first byte before last;
    an empty file alone is different: a suffix range of it is accepted as the
    bytes 0 to -1. *)
Theorem accepted_ranges_lie_in_the_file rangeHeader size range :
  parseSingleByteRange rangeHeader size = Some range -> 0 <= size ->
  (0 < size -> 0 <= br_start range <= br_end range /\ br_end range < size) /\
  (size = 0 -> range = {| br_start := 0; br_end := -1 |}).
Proof.
  intros H Hs. unfold parseSingleByteRange in H.
  destruct (negb (startsWith _ _)); [done|]. destruct (negb (isRangePart _)); [done|].
  destruct (take 2 _) as [|s [|e []]]; try done. case_bool_decide.
  - destruct (negb _ || _) eqn:E; [done|]. bool_simpl. injection H as <-. cbn. split; [lia|].
    intros ->. f_equal; lia.
  - pose proof (numberOf_nonneg s). pose proof (numberOf_nonneg e).
    destruct (negb _ || _ || _) eqn:E; [done|].
    set (end_ := if bool_decide (e = "") then _ else _) in H.
    assert (end_ <= size - 1) by (clear H E; unfold end_; case_bool_decide; lia).
    destruct (negb _ || _) eqn:E2 in H; [done|]. injection H as <-. cbn. bool_simpl. lia.
Qed.

(** ** The response *)

Section Served.
Context {Stream StreamError : Type} (createReadStream : option ByteRange -> result StreamError Stream)
  (emptyRange : StreamError) (bytesOf : option ByteRange -> Stream).

(** Node reads what it is asked for, and throws only for offsets that are
    negative or in the wrong order. *)
Context (createReadStream_ok : forall range,
  createReadStream range =
  match range with
  | Some r => if bool_decide (0 <= br_start r <= br_end r) then Ok (bytesOf range)
              else Throw emptyRange
  | None => Ok (bytesOf None)
  end).

(** C38: a download of a file that is not empty never fails on its Range header:
    it gets the whole file, or the bytes of a range inside the file under
    their own length and place, or 416 with the handle closed. *)
Theorem download_answers_every_header opened rangeHeader size mimeType fileName :
  opened = Ok tt -> 0 < size ->
  exists response,
    sv_response (createRangeResponseFromPath createReadStream opened rangeHeader size mimeType fileName)
      = Ok (Some response) /\
    ((re_status response = 200 /\ re_body response = body_stream (bytesOf None) /\
      mapGet "content-length" (re_headers response) = Some (pretty size)) \/
     (re_status response = 206 /\ exists r, 0 <= br_start r <= br_end r /\ br_end r < size /\
      re_body response = body_stream (bytesOf (Some r)) /\
      mapGet "content-length" (re_headers response)
        = Some (pretty (br_end r - br_start r + 1)) /\
      mapGet "content-range" (re_headers response)
        = Some ("bytes " +:+ pretty (br_start r) +:+ "-" +:+ pretty (br_end r) +:+ "/" +:+ pretty size)) \/
     (re_status response = 416 /\
      sv_closed (createRangeResponseFromPath createReadStream opened rangeHeader size mimeType fileName)
        = true)).
Proof.
  intros -> Hs. unfold createRangeResponseFromPath, createRangeResponseFromHandle.
  set (headers := [_; _; _; _]). set (parsed := requestedRange rangeHeader size).
  assert (Hp : forall r, parsed = Some (Some r) -> 0 <= br_start r <= br_end r /\ br_end r < size).
  { intros r. unfold parsed, requestedRange. destruct rangeHeader as [[|a h]|]; try done.
    intros [= H]. apply accepted_ranges_lie_in_the_file in H; [|lia]. by apply H. }
  clearbody parsed. destruct parsed as [[r|]|]; cbn [respondWithFile].
  - destruct (Hp r eq_refl) as [Hr Hlt]. rewrite createReadStream_ok, bool_decide_eq_true_2 by done.
    eexists. split; [reflexivity|]. right; left. split; [done|]. exists r. cbn [re_body re_headers].
    split; [done|]. split; [done|]. split; [done|]. by rewrite !mapGet_mapSet.
  - eexists. split; [reflexivity|]. by right; right.
  - rewrite createReadStream_ok. eexists. split; [reflexivity|]. left.
    split; [done|]. split; [done|]. cbn [re_headers]. by rewrite mapGet_mapSet.
Qed.
End Served.

(** ** The file name *)

(** What a reader of the header makes of the name: escapes become bytes. *)
Definition hexValue (a : ascii) : nat :=
  let n := nat_of_ascii a in if bool_decide (n < 58)%nat then n - 48 else n - 55.

Fixpoint decodePercent (s : string) : string :=
  match s with
  | String "%" (String a (String b s')) =>
      String (ascii_of_nat (16 * hexValue a + hexValue b)) (decodePercent s')
  | String a s' => String a (decodePercent s')
  | EmptyString => EmptyString
  end.

(** The bytes RFC 8187 lets stand for themselves. *)
Definition isAttrChar (a : ascii) : bool :=
  isUnreserved a && negb (bool_decide (a ∈ ["'"; "("; ")"; "*"]%char)).

Definition allAscii (f : ascii -> bool) : bool :=
  forallb (fun n => f (ascii_of_nat n)) (seq 0 256).

Lemma allAscii_spec f a : allAscii f = true -> f a = true.
Proof.
  unfold allAscii. rewrite forallb_forall. intros H.
  rewrite <- (ascii_nat_embedding a). apply H, in_seq. pose proof (nat_ascii_bounded a). lia.
Qed.

Lemma hex_decodes a :
  ascii_of_nat (16 * hexValue (hexDigit (nat_of_ascii a / 16))
                + hexValue (hexDigit (nat_of_ascii a mod 16))) = a.
Proof.
  assert (H : allAscii (fun a => bool_decide
    (ascii_of_nat (16 * hexValue (hexDigit (nat_of_ascii a / 16))
                   + hexValue (hexDigit (nat_of_ascii a mod 16))) = a)) = true)
    by (vm_compute; reflexivity).
  apply (allAscii_spec _ a) in H. by apply bool_decide_eq_true_1 in H.
Qed.

Lemma decodePercent_pair x y s :
  decodePercent (String "%" (String x (String y s)))
  = String (ascii_of_nat (16 * hexValue x + hexValue y)) (decodePercent s).
Proof. done. Qed.

Lemma escape_decodes a s : decodePercent (escape a +:+ s) = String a (decodePercent s).
Proof.
  unfold escape. rewrite !string_app_cons, string_app_nil_l, decodePercent_pair. by rewrite hex_decodes.
Qed.

Lemma decodePercent_plain a s : a <> "%"%char -> decodePercent (String a s) = String a (decodePercent s).
Proof.
  intros Ha. cbn. destruct a as [b0 b1 b2 b3 b4 b5 b6 b7].
  destruct b0, b1, b2, b3, b4, b5, b6, b7; done.
Qed.

(** Escapes hold nothing that is escaped again. *)
Lemma escapeQuotes_app s t : escapeQuotes (s +:+ t) = escapeQuotes s +:+ escapeQuotes t.
Proof.
  induction s as [|a s IH]; [done|]. rewrite string_app_cons. cbn [escapeQuotes].
  by rewrite IH, string_app_assoc.
Qed.

Lemma escapeQuotes_escape a : escapeQuotes (escape a) = escape a.
Proof.
  assert (H : allAscii (fun a => bool_decide (escapeQuotes (escape a) = escape a)) = true)
    by (vm_compute; reflexivity).
  apply (allAscii_spec _ a) in H. by apply bool_decide_eq_true_1 in H.
Qed.

(** What one byte of the name becomes. *)
Definition nameByte (a : ascii) : string := if isAttrChar a then String a EmptyString else escape a.

Lemma escapeQuotes_byte a :
  escapeQuotes (if isUnreserved a then String a EmptyString else escape a) = nameByte a.
Proof.
  unfold nameByte, isAttrChar. destruct (isUnreserved a) eqn:Eu; cbn [andb].
  - cbn [escapeQuotes]. rewrite string_app_nil_r.
    destruct (decide (a ∈ ["'"; "*"; "("; ")"]%char)) as [Hin|Hout];
      repeat case_bool_decide; try done; set_solver.
  - apply escapeQuotes_escape.
Qed.

Lemma nameByte_spec a : nameByte a = escape a \/ (nameByte a = String a EmptyString /\ isAttrChar a = true).
Proof. unfold nameByte. destruct (isAttrChar a); auto. Qed.

Definition encodedName (name : string) : string := escapeQuotes (encodeURIComponent name).

Lemma encodedName_cons a s : encodedName (String a s) = nameByte a +:+ encodedName s.
Proof. unfold encodedName. cbn [encodeURIComponent]. by rewrite escapeQuotes_app, escapeQuotes_byte. Qed.

(** Every character of the value is a token character or part of an escape. *)
Fixpoint safeValue (s : string) : bool :=
  match s with
  | EmptyString => true
  | String a s' => (isAttrChar a || bool_decide (a = "%"%char)) && safeValue s'
  end.

Lemma safeValue_app s t : safeValue (s +:+ t) = safeValue s && safeValue t.
Proof.
  induction s as [|a s IH]; [done|]. rewrite string_app_cons. cbn [safeValue].
  by rewrite IH, andb_assoc.
Qed.

Lemma safeValue_escape a : safeValue (escape a) = true.
Proof. apply (allAscii_spec (fun a => safeValue (escape a))). vm_compute. reflexivity. Qed.

(** Whatever the file is called, the header carries it as one safe value
    that reads back as exactly that name. *)
Theorem disposition_carries_the_name type fileName :
  exists value, contentDisposition type fileName
    = match type with attachment => "attachment" | inline => "inline" end
      +:+ "; filename*=UTF-8''" +:+ value /\
    safeValue value = true /\ decodePercent value = fileName.
Proof.
  exists (encodedName fileName). split; [done|].
  induction fileName as [|a s [IHs IHd]]; [done|]. rewrite encodedName_cons.
  rewrite safeValue_app, IHs. destruct (nameByte_spec a) as [->|[-> Ha]].
  - by rewrite safeValue_escape, escape_decodes, IHd.
  - cbn [safeValue]. rewrite Ha, string_app_cons, string_app_nil_l. split; [done|].
    rewrite decodePercent_plain, IHd; [done|]. intros ->. by vm_compute in Ha.
Qed.

Lemma chunk_index_witness :
  getUploadChunkIndex {| ub_start := 8; ub_end := 9 |} 10 4 = Some 2.
Proof.
  refine (proj2 (chunk_index_names_exactly_the_chunks {| ub_start := 8; ub_end := 9 |} 10 4 2 _ _) _).
  - lia.
  - lia.
  - split; [vm_compute; split; [discriminate|reflexivity]|split; reflexivity].
Defined.

Definition tenBytes : list UploadChunk :=
  [{| uc_chunkIndex := 0; uc_startByte := 0; uc_endByte := 3; uc_sizeBytes := 4 |};
   {| uc_chunkIndex := 1; uc_startByte := 4; uc_endByte := 7; uc_sizeBytes := 4 |};
   {| uc_chunkIndex := 2; uc_startByte := 8; uc_endByte := 9; uc_sizeBytes := 2 |}].

Lemma complete_chunks_witness :
  hasCompleteUploadChunkSet tenBytes 10 4 = true /\
  foldr Z.add 0 (uc_sizeBytes <$> tenBytes) = 10.
Proof.
  split; [vm_compute; reflexivity|].
  refine (proj1 (proj2 (complete_chunks_tile_the_file tenBytes 10 4 _ _) _)); [lia|lia|].
  vm_compute; reflexivity.
Defined.

Lemma accepted_range_witness :
  parseSingleByteRange "bytes=2-50" 10 = Some {| br_start := 2; br_end := 9 |} /\
  0 <= 2 <= 9 /\ 9 < 10.
Proof.
  split; [vm_compute; reflexivity|].
  refine (proj1 (accepted_ranges_lie_in_the_file "bytes=2-50" 10 {| br_start := 2; br_end := 9 |} _ _) _);
    [vm_compute; reflexivity|lia|lia].
Defined.

(** A stream that is the range it reads, as Node makes one. *)
Definition exampleStream (range : option ByteRange) : result string (option ByteRange) :=
  match range with
  | Some r => if bool_decide (0 <= br_start r <= br_end r) then Ok range
              else Throw "ERR_OUT_OF_RANGE"
  | None => Ok None
  end.

Lemma download_witness :
  exists response,
    sv_response (createRangeResponseFromPath exampleStream (Ok tt) (Some "bytes=2-5") 10 "text/plain" "a.txt")
    = Ok (Some response) /\ re_status response = 206.
Proof.
  destruct (download_answers_every_header exampleStream "ERR_OUT_OF_RANGE" (fun r => r)
    ltac:(by intros [r|]) (Ok tt) (Some "bytes=2-5") 10 "text/plain" "a.txt" eq_refl ltac:(lia))
    as (response & E & _).
  exists response. split; [exact E|]. vm_compute in E. injection E as <-. reflexivity.
Defined.

(** An empty file and a suffix range: the download fails. *)
Example empty_file_suffix_fails :
  sv_response (createRangeResponseFromPath exampleStream (Ok tt) (Some "bytes=-5") 0 "text/plain" "a.txt")
  = Throw "ERR_OUT_OF_RANGE".
Proof. vm_compute. reflexivity. Qed.
