(* ===== verification/Disk.v ===== *)
(** * The file system under the files root

    The calls of [node:fs/promises] that
    [packages/db/src/storage-mutation-executor.ts] makes, on a disk. A path is
    the list of its segments below the files root, and the root is the empty
    list. A disk also keeps which directories and files have changes that were
    not synced yet: an entry made, moved or removed is lost or comes back at a
    power failure until its directory is synced.

    Then what the calls do: the nodes of the disk after each, and that every call
    keeps a disk well-formed. *)

From Stdlib Require Import Ascii.
From Stdlib Require String.
From S2P Require Import Prelude.

Notation path := (list string).

(** What [lstat] tells apart. *)
Inductive Node := NFile (content : string) | NDirectory | NSymlink | NOther.
#[export] Instance Node_eq_dec : EqDecision Node.
Proof. solve_decision. Defined.

Record Disk := { dk_nodes : gmap path Node; dk_unsynced : gset path }.

Inductive Errno :=
| ENOENT | ENOTDIR | EEXIST | ENOTEMPTY | EISDIR | EINVAL | ENAMETOOLONG
| errno_other (code : string).
#[export] Instance Errno_eq_dec : EqDecision Errno.
Proof. solve_decision. Defined.

Definition nodeAt (d : Disk) (p : path) : option Node := dk_nodes d !! p.
#[global] Arguments nodeAt d p : simpl never.

(** [path.dirname]. *)
Definition dirname (p : path) : path := take (pred (length p)) p.

(** The path is [top] or below it. *)
Notation "top '⊑' p" := (prefix top p) (at level 70) : staaash_scope.

(** The directories a path is looked up through, from the root down. *)
Definition ancestors (p : path) : list path := (fun n => take n p) <$> seq 0 (length p).

(** Why a path cannot be looked up. The code asserts the ancestors of a path
    before it uses the path, so that it never looks through a symbolic link. *)
Definition lookupError (d : Disk) (p : path) : option Errno :=
  head (omap (fun q => match nodeAt d q with
                       | Some NDirectory => None
                       | None => Some ENOENT
                       | Some _ => Some ENOTDIR
                       end) (ancestors p)).

(** ** The calls *)

(** A call on the disk returns a value and the disk after it, or fails. *)
Definition Call (A : Type) : Type := Disk -> result Errno (A * Disk).

Definition lstat (p : path) : Call Node := fun d =>
  match lookupError d p, nodeAt d p with
  | Some e, _ => Throw e
  | None, Some n => Ok (n, d)
  | None, None => Throw ENOENT
  end.

(** A path without links is its own real path. *)
Definition realpath (p : path) : Call path := fun d =>
  match lstat p d with
  | Ok (NSymlink, _) => Throw (errno_other "ELOOP")
  | Ok (_, _) => Ok (p, d)
  | Throw e => Throw e
  end.

Definition markUnsynced (ps : gset path) (d : Disk) : Disk :=
  {| dk_nodes := dk_nodes d; dk_unsynced := dk_unsynced d ∪ ps |}.

Definition mkdir (p : path) : Call unit := fun d =>
  match lookupError d p, nodeAt d p with
  | Some e, _ => Throw e
  | None, Some _ => Throw EEXIST
  | None, None =>
      Ok (tt, markUnsynced {[p; dirname p]}
                {| dk_nodes := <[p := NDirectory]> (dk_nodes d);
                   dk_unsynced := dk_unsynced d |})
  end.

(** The name of a path as an entry of a directory. *)
Definition entryName (dir p : path) : option string :=
  if decide (dir ⊑ p) then match drop (length dir) p with [name] => Some name | _ => None end
  else None.

Definition entries (d : Disk) (dir : path) : list (string * Node) :=
  omap (fun e : path * Node => (fun name => (name, e.2)) <$> entryName dir e.1)
    (map_to_list (dk_nodes d)).

(** [readdir(p, { withFileTypes: true })], in the order the disk has. *)
Definition readdir (p : path) : Call (list (string * Node)) := fun d =>
  match lstat p d with
  | Ok (NDirectory, _) => Ok (entries d p, d)
  | Ok (_, _) => Throw ENOTDIR
  | Throw e => Throw e
  end.

(** [open(p, "r")]. *)
Definition openRead (p : path) : Call unit := fun d =>
  match lstat p d with Ok (_, _) => Ok (tt, d) | Throw e => Throw e end.

(** What reading an open file gives. *)
Definition readAll (p : path) : Call string := fun d =>
  match nodeAt d p with
  | Some (NFile content) => Ok (content, d)
  | Some NDirectory => Throw EISDIR
  | _ => Throw EINVAL
  end.

(** [handle.sync()] on an open file or directory. *)
Definition fsync (p : path) : Call unit := fun d =>
  Ok (tt, {| dk_nodes := dk_nodes d; dk_unsynced := dk_unsynced d ∖ {[p]} |}).

(** The disk without what is at a path of [ps] or below one. *)
Definition without (ps : list path) (d : Disk) : Disk :=
  let kept (q : path) := forallb (fun p => negb (bool_decide (p ⊑ q))) ps in
  {| dk_nodes := filter (fun e => kept e.1 = true) (dk_nodes d);
     dk_unsynced := filter (fun q => kept q = true) (dk_unsynced d) |}.

Definition rmdir (p : path) : Call unit := fun d =>
  match lstat p d with
  | Ok (NDirectory, _) =>
      match entries d p with
      | [] => if decide (p = []) then Throw (errno_other "EBUSY")
              else Ok (tt, markUnsynced {[dirname p]} (without [p] d))
      | _ => Throw ENOTEMPTY
      end
  | Ok (_, _) => Throw ENOTDIR
  | Throw e => Throw e
  end.

(** [rm(p)]: a directory is refused. *)
Definition rm (p : path) : Call unit := fun d =>
  match lstat p d with
  | Ok (NDirectory, _) => Throw EISDIR
  | Ok (_, _) => Ok (tt, markUnsynced {[dirname p]} (without [p] d))
  | Throw e => Throw e
  end.

(** [rm(p, { recursive: true })]. *)
Definition rmTree (p : path) : Call unit := fun d =>
  match lstat p d with
  | Ok (_, _) => if decide (p = []) then Throw (errno_other "EBUSY")
                 else Ok (tt, markUnsynced {[dirname p]} (without [p] d))
  | Throw e => Throw e
  end.

(** What the same call leaves when it stops early: the subtrees of [gone] that
    lie below [p] are deleted, their directories are not synced. *)
Definition rmTreePartly (p : path) (gone : list path) (d : Disk) : Disk :=
  let below := filter (fun q => p ⊑ q) gone in
  markUnsynced (list_to_set (dirname <$> below)) (without below d).

(** ** Renaming *)

(** Paths below [source] and below [target] change places. *)
Definition swapPath (source target q : path) : path :=
  if decide (source ⊑ q) then target ++ drop (length source) q
  else if decide (target ⊑ q) then source ++ drop (length target) q
  else q.

Definition moveNodes {A} (source target : path) (m : gmap path A) : gmap path A :=
  kmap (swapPath source target)
    (filter (fun e : path * A => ~ target ⊑ e.1) m).

(** Whether a node may take the place of another. *)
Definition replaceError (d : Disk) (node : Node) (target : path) : option Errno :=
  match node, nodeAt d target with
  | _, None => None
  | NDirectory, Some NDirectory =>
      match entries d target with [] => None | _ => Some ENOTEMPTY end
  | NDirectory, Some _ => Some ENOTDIR
  | _, Some NDirectory => Some EISDIR
  | _, Some _ => None
  end.

Definition rename (source target : path) : Call unit := fun d =>
  match lstat source d with
  | Throw e => Throw e
  | Ok (node, _) =>
      match lookupError d target with
      | Some e => Throw e
      | None =>
          if decide (source = target) then Ok (tt, d)
          else if decide (source ⊑ target) then Throw EINVAL
          else match replaceError d node target with
               | Some e => Throw e
               | None =>
                   Ok (tt, markUnsynced {[dirname source; dirname target]}
                     {| dk_nodes := moveNodes source target (dk_nodes d);
                        dk_unsynced := set_map (swapPath source target)
                          (filter (fun q => ~ target ⊑ q) (dk_unsynced d)) |})
               end
      end
  end.

(** ** Well-formed disks: the root is a directory, and so is what anything lies in *)

Record wellFormed (d : Disk) : Prop := {
  wf_root : nodeAt d [] = Some NDirectory;
  wf_parent p name : nodeAt d (p ++ [name]) <> None -> nodeAt d p = Some NDirectory
}.

(** ** Paths *)

Lemma prefix_dec_app (p q : path) : p ⊑ q <-> exists r, q = p ++ r.
Proof. done. Qed.

Lemma prefix_drop (p q : path) : p ⊑ q -> p ++ drop (length p) q = q.
Proof. intros [r ->]. by rewrite drop_app_length. Qed.

Lemma prefix_take_iff (p q : path) : p ⊑ q <-> p = take (length p) q.
Proof.
  split.
  - intros [r ->]. by rewrite take_app_length.
  - intros ->. apply prefix_take.
Qed.

Lemma elem_of_ancestors q p : q ∈ ancestors p <-> q ⊑ p /\ q <> p.
Proof.
  unfold ancestors. rewrite list_elem_of_fmap. split.
  - intros (n & -> & Hn%elem_of_seq). split; [apply prefix_take|].
    intros E%(f_equal length). rewrite length_take in E. lia.
  - intros [[r ->] Hne]. exists (length q). split; [by rewrite take_app_length|].
    apply elem_of_seq. rewrite length_app. destruct r; [by rewrite app_nil_r in Hne|]. cbn. lia.
Qed.

Lemma dirname_app p name : dirname (p ++ [name]) = p.
Proof.
  unfold dirname. rewrite length_app. cbn. rewrite Nat.add_1_r. cbn.
  by rewrite take_app_length.
Qed.

Lemma dirname_case (p : path) : p = [] \/ exists name, p = dirname p ++ [name].
Proof.
  destruct p as [|name p _] using rev_ind; [by left|]. right. exists name. by rewrite dirname_app.
Qed.

Lemma dirname_prefix p : dirname p ⊑ p.
Proof. apply prefix_take. Qed.

Lemma prefix_dirname q p : q ⊑ p -> q <> p -> q ⊑ dirname p.
Proof.
  intros [r ->] Hne. destruct r as [|x r _] using rev_ind; [by rewrite app_nil_r in Hne|].
  rewrite app_assoc, dirname_app. by exists r.
Qed.

Lemma entryName_spec dir p name : entryName dir p = Some name <-> p = dir ++ [name].
Proof.
  unfold entryName. case_decide as Hp.
  - destruct Hp as [r ->]. rewrite drop_app_length. destruct r as [|x [|y r]].
    + split; [done|]. intros E%(f_equal length). rewrite !length_app in E. cbn in E. lia.
    + split; [by intros [= ->]|]. intros E%(inj (app dir)). by injection E as ->.
    + split; [done|]. intros E%(inj (app dir)). done.
  - split; [done|]. intros ->. destruct Hp. by exists [name].
Qed.

Lemma elem_of_entries d dir name n :
  (name, n) ∈ entries d dir <-> nodeAt d (dir ++ [name]) = Some n.
Proof.
  unfold entries. rewrite list_elem_of_omap. split.
  - intros ([p m] & Hin%elem_of_map_to_list & E). cbn in E.
    destruct (entryName dir p) as [name'|] eqn:Hn; [|done]. cbn in E. injection E as -> ->.
    apply entryName_spec in Hn as ->. done.
  - intros Hn. exists (dir ++ [name], n). split; [by apply elem_of_map_to_list|].
    cbn. by rewrite (proj2 (entryName_spec _ _ _) eq_refl).
Qed.

Lemma entries_nil d dir : entries d dir = [] <-> forall name, nodeAt d (dir ++ [name]) = None.
Proof.
  split.
  - intros E name. destruct (nodeAt d (dir ++ [name])) as [n|] eqn:Hn; [|done].
    apply elem_of_entries in Hn. rewrite E in Hn. by apply elem_of_nil in Hn.
  - intros H. destruct (entries d dir) as [|[name n] es] eqn:E; [done|].
    assert (Hin : (name, n) ∈ entries d dir) by (rewrite E; apply list_elem_of_here).
    apply elem_of_entries in Hin. by rewrite H in Hin.
Qed.

(** ** Looking a path up *)

Lemma lookupError_None d p :
  lookupError d p = None <-> forall q, q ⊑ p -> q <> p -> nodeAt d q = Some NDirectory.
Proof.
  unfold lookupError. rewrite head_None. split.
  - intros E q Hq Hne.
    assert (Hin : q ∈ ancestors p) by by apply elem_of_ancestors.
    destruct (decide (nodeAt d q = Some NDirectory)) as [?|Hn]; [done|].
    assert (Hex : exists e, e ∈ omap (fun q => match nodeAt d q with
                       | Some NDirectory => None
                       | None => Some ENOENT
                       | Some _ => Some ENOTDIR
                       end) (ancestors p)).
    { destruct (nodeAt d q) as [[]|] eqn:E'; try done;
        eexists; apply list_elem_of_omap; exists q; rewrite E'; eauto. }
    destruct Hex as [e He]. rewrite E in He. by apply elem_of_nil in He.
  - intros H. apply elem_of_nil_inv. intros e (q & Hq%elem_of_ancestors & E)%list_elem_of_omap.
    by rewrite H in E by apply Hq.
Qed.

Section looking_up.
Context (d : Disk) (Hwf : wellFormed d).

(** Everything lies in directories, up to the root. *)
Lemma wf_ancestor p q :
  nodeAt d p <> None -> q ⊑ p -> q <> p -> nodeAt d q = Some NDirectory.
Proof.
  induction p as [|name p IH] using rev_ind; intros Hp Hq Hne.
  - by apply prefix_nil_inv in Hq.
  - apply wf_parent in Hp; [|done].
    apply prefix_dirname in Hq; [|done]. rewrite dirname_app in Hq.
    destruct (decide (q = p)) as [->|]; [done|]. apply IH; [congruence|done..].
Qed.

Lemma wf_lookupError p : nodeAt d p <> None -> lookupError d p = None.
Proof. intros Hp. apply lookupError_None. intros q. by apply wf_ancestor. Qed.

Lemma wf_dirname p : nodeAt d p <> None -> nodeAt d (dirname p) = Some NDirectory.
Proof.
  intros Hp. destruct (dirname_case p) as [->|[name E]]; [by apply wf_root|].
  rewrite E in Hp. by apply wf_parent in Hp.
Qed.

(** A node below something makes that a directory. *)
Lemma wf_below p q : nodeAt d q <> None -> p ⊑ q -> nodeAt d p <> None.
Proof.
  intros Hq Hp. destruct (decide (p = q)) as [->|]; [done|].
  by rewrite (wf_ancestor q p).
Qed.

Lemma lstat_ok p n d' : lstat p d = Ok (n, d') <-> nodeAt d p = Some n /\ d' = d.
Proof.
  unfold lstat. destruct (nodeAt d p) as [m|] eqn:E.
  - rewrite wf_lookupError by (by rewrite E). naive_solver.
  - destruct (lookupError d p); naive_solver.
Qed.

Lemma lstat_missing p :
  (forall q, q ⊑ p -> q <> p -> nodeAt d q = Some NDirectory \/ nodeAt d q = None) ->
  nodeAt d p = None -> lstat p d = Throw ENOENT.
Proof.
  intros H E. unfold lstat. rewrite E. destruct (lookupError d p) as [e|] eqn:He; [|done].
  f_equal. unfold lookupError in He.
  apply head_Some_elem_of, list_elem_of_omap in He as (q & [Hq Hne]%elem_of_ancestors & Hm).
  destruct (H q Hq Hne) as [Hd|Hd]; rewrite Hd in Hm; [done|congruence].
Qed.
End looking_up.

(** ** The nodes after each call *)

Lemma nodeAt_markUnsynced ps d q : nodeAt (markUnsynced ps d) q = nodeAt d q.
Proof. done. Qed.

Definition belowAny (ps : list path) (q : path) : Prop := exists p, p ∈ ps /\ p ⊑ q.

Lemma kept_spec ps q :
  forallb (fun p => negb (bool_decide (p ⊑ q))) ps = true <-> ~ belowAny ps q.
Proof.
  unfold belowAny. rewrite forallb_forall. split.
  - intros H (p & Hp%list_elem_of_In & Hq). apply H, negb_true_iff, bool_decide_eq_false in Hp.
    done.
  - intros H p Hp%list_elem_of_In. apply negb_true_iff, bool_decide_eq_false. eauto.
Qed.

Lemma nodeAt_without_gone ps d q : belowAny ps q -> nodeAt (without ps d) q = None.
Proof.
  intros H. apply map_lookup_filter_None_2. right. cbn. intros n _. rewrite kept_spec. tauto.
Qed.

Lemma nodeAt_without_kept ps d q : ~ belowAny ps q -> nodeAt (without ps d) q = nodeAt d q.
Proof.
  intros H. unfold nodeAt. destruct (dk_nodes d !! q) as [n|] eqn:E.
  - apply map_lookup_filter_Some_2; [done|]. cbn. by rewrite kept_spec.
  - apply map_lookup_filter_None_2. by left.
Qed.

Lemma nodeAt_without_Some ps d q n :
  nodeAt (without ps d) q = Some n <-> nodeAt d q = Some n /\ ~ belowAny ps q.
Proof.
  split.
  - intros H. unfold nodeAt, without in H. cbn in H.
    apply map_lookup_filter_Some in H as [H1 H2]. cbn in H2. by rewrite kept_spec in H2.
  - intros [H1 H2]. by rewrite nodeAt_without_kept.
Qed.

(** ** Moving a subtree *)

Section moving.
Context (source target : path) (Hst : ~ source ⊑ target) (Hts : ~ target ⊑ source).

Lemma apart q : source ⊑ q -> target ⊑ q -> False.
Proof.
  intros H1 H2. destruct (prefix_weak_total source target q H1 H2); [by apply Hst|by apply Hts].
Qed.

Lemma swapPath_source r : swapPath source target (source ++ r) = target ++ r.
Proof.
  unfold swapPath. rewrite decide_True by by exists r. by rewrite drop_app_length.
Qed.

Lemma swapPath_target r : swapPath source target (target ++ r) = source ++ r.
Proof.
  unfold swapPath. rewrite decide_False; [|intros H; apply (apart _ H); by exists r].
  rewrite decide_True by by exists r. by rewrite drop_app_length.
Qed.

Lemma swapPath_other q : ~ source ⊑ q -> ~ target ⊑ q -> swapPath source target q = q.
Proof. intros H1 H2. unfold swapPath. by rewrite !decide_False. Qed.

Lemma swapPath_involutive q : swapPath source target (swapPath source target q) = q.
Proof.
  destruct (decide (source ⊑ q)) as [[r ->]|H1].
  { by rewrite swapPath_source, swapPath_target. }
  destruct (decide (target ⊑ q)) as [[r ->]|H2].
  { by rewrite swapPath_target, swapPath_source. }
  rewrite (swapPath_other q) by done. by apply swapPath_other.
Qed.

Lemma swapPath_inj : Inj (=) (=) (swapPath source target).
Proof. intros p q E. by rewrite <- (swapPath_involutive p), E, swapPath_involutive. Qed.

Lemma lookup_moveNodes {A} (m : gmap path A) q :
  moveNodes source target m !! q =
  if decide (source ⊑ q) then None else m !! swapPath source target q.
Proof.
  pose proof swapPath_inj as Hinj. unfold moveNodes.
  rewrite <- (swapPath_involutive q) at 1. rewrite lookup_kmap by done.
  case_decide as H1.
  - destruct H1 as [r ->]. rewrite swapPath_source. apply map_lookup_filter_None_2.
    right. cbn. intros _ _ H. apply H. by exists r.
  - destruct (m !! swapPath source target q) as [x|] eqn:E.
    + apply map_lookup_filter_Some_2; [done|]. cbn. intros H2. apply H1.
      destruct (decide (target ⊑ q)) as [[r ->]|H3].
      { rewrite swapPath_target in H2. destruct (apart (source ++ r)); [by exists r|done]. }
      by rewrite swapPath_other in H2.
    + apply map_lookup_filter_None_2. by left.
Qed.

(** What lay below the source lies below the target, in the same order. *)
Lemma lookup_moveNodes_target {A} (m : gmap path A) r :
  moveNodes source target m !! (target ++ r) = m !! (source ++ r).
Proof.
  rewrite lookup_moveNodes, swapPath_target. rewrite decide_False; [done|].
  intros H. apply (apart _ H). by exists r.
Qed.

Lemma lookup_moveNodes_source {A} (m : gmap path A) r :
  moveNodes source target m !! (source ++ r) = None.
Proof. rewrite lookup_moveNodes. by rewrite decide_True by by exists r. Qed.

Lemma lookup_moveNodes_other {A} (m : gmap path A) q :
  ~ source ⊑ q -> ~ target ⊑ q -> moveNodes source target m !! q = m !! q.
Proof. intros H1 H2. by rewrite lookup_moveNodes, decide_False, swapPath_other. Qed.

Lemma elem_of_moved_unsynced (unsynced : gset path) q :
  q ∈ (set_map (swapPath source target) (filter (fun q => ~ target ⊑ q) unsynced) : gset path)
  <-> ~ source ⊑ q /\ swapPath source target q ∈ unsynced.
Proof.
  rewrite elem_of_map. setoid_rewrite elem_of_filter. split.
  - intros (p & -> & Hp & Hin). rewrite swapPath_involutive. split; [|done].
    intros [r Hr]. rewrite <- (swapPath_involutive p), Hr, swapPath_source in Hp.
    apply Hp. by exists r.
  - intros [H1 H2]. exists (swapPath source target q). rewrite swapPath_involutive.
    split_and!; [done| |done]. intros [r Hr]. apply H1.
    rewrite <- (swapPath_involutive q), Hr, swapPath_target. by exists r.
Qed.
End moving.

(** A rename that succeeds moves a node to a place that is not on its way. *)
Lemma rename_ok d source target u d' :
  wellFormed d -> rename source target d = Ok (u, d') ->
  (source = target /\ d' = d) \/
  (~ source ⊑ target /\ ~ target ⊑ source /\ nodeAt d source <> None /\
   lookupError d target = None /\
   (forall q, target ⊑ q -> nodeAt d q <> None -> q = target) /\
   d' = markUnsynced {[dirname source; dirname target]}
     {| dk_nodes := moveNodes source target (dk_nodes d);
        dk_unsynced := set_map (swapPath source target)
          (filter (fun q => ~ target ⊑ q) (dk_unsynced d)) |}).
Proof.
  intros Hwf H. unfold rename in H.
  destruct (lstat source d) as [[node d1]|] eqn:El; [|done].
  apply lstat_ok in El as [Hs ->]; [|done].
  destruct (lookupError d target) eqn:Ht; [done|].
  case_decide; [left; naive_solver|]. case_decide as Hst; [done|].
  destruct (replaceError d node target) eqn:Hr; [done|]. injection H as _ <-. right.
  assert (Hempty : forall q, target ⊑ q -> nodeAt d q <> None -> q = target).
  { intros q Hq Hn. destruct (decide (q = target)) as [|Hne]; [done|]. exfalso.
    assert (Hd : nodeAt d target = Some NDirectory) by by apply (wf_ancestor _ Hwf q).
    unfold replaceError in Hr. rewrite Hd in Hr.
    destruct node; try done. destruct (entries d target) eqn:Ee; [|done].
    rewrite entries_nil in Ee. destruct Hq as [[|name r] ->]; [by rewrite app_nil_r in Hne|].
    apply (wf_below _ Hwf (target ++ [name])) in Hn; [by rewrite Ee in Hn|].
    exists r. by rewrite <- app_assoc. }
  split_and!; try done; [|congruence].
  intros H. apply Hempty in H; [congruence|]. by rewrite Hs.
Qed.

(** ** Every call keeps the disk well-formed *)

Create HintDb disk_wf.

Lemma markUnsynced_wf ps d : wellFormed d -> wellFormed (markUnsynced ps d).
Proof. intros [H1 H2]. by constructor. Qed.

Lemma without_wf ps d : [] ∉ ps -> wellFormed d -> wellFormed (without ps d).
Proof.
  intros Hps [Hroot Hparent]. constructor.
  - rewrite nodeAt_without_kept; [done|]. intros (p & Hp & ->%prefix_nil_inv). done.
  - intros p name Hn. destruct (nodeAt (without ps d) (p ++ [name])) eqn:E; [|done].
    apply nodeAt_without_Some in E as [E Hk]. apply nodeAt_without_Some. split.
    + apply (Hparent p name). by rewrite E.
    + intros (q & Hq & Hle). apply Hk. exists q. split; [done|].
      etrans; [done|]. by exists [name].
Qed.

Lemma mkdir_nodeAt p d u d' q :
  mkdir p d = Ok (u, d') ->
  nodeAt d p = None /\ lookupError d p = None /\
  nodeAt d' q = if decide (q = p) then Some NDirectory else nodeAt d q.
Proof.
  unfold mkdir. destruct (lookupError d p) eqn:El; [done|].
  destruct (nodeAt d p) eqn:En; [done|]. intros [= _ <-]. split_and!; [done..|].
  unfold nodeAt. cbn. case_decide as Hq; [subst; by rewrite lookup_insert_eq|].
  by rewrite lookup_insert_ne by congruence.
Qed.

Lemma mkdir_wf p d u d' : wellFormed d -> mkdir p d = Ok (u, d') -> wellFormed d'.
Proof.
  intros Hwf H. pose proof (fun q => mkdir_nodeAt p d u d' q H) as Hn.
  destruct (Hn []) as (Hp & Hl & _). constructor.
  - destruct (Hn []) as (_ & _ & ->). case_decide; [done|]. by apply wf_root.
  - intros q name. destruct (Hn (q ++ [name])) as (_ & _ & ->), (Hn q) as (_ & _ & ->).
    intros Hq. destruct (decide (q = p)) as [|Hq2]; [done|].
    destruct (decide (q ++ [name] = p)) as [Hq3|Hq3].
    + subst p. rewrite lookupError_None in Hl. apply Hl; [by exists [name]|].
      intros E%(f_equal length). rewrite length_app in E. cbn in E. lia.
    + by apply (wf_parent _ Hwf q name).
Qed.

Lemma rename_wf source target d u d' :
  wellFormed d -> rename source target d = Ok (u, d') -> wellFormed d'.
Proof.
  intros Hwf H. apply rename_ok in H; [|done].
  destruct H as [[_ ->]|(Hst & Hts & Hs & Ht & Hempty & ->)]; [done|].
  apply markUnsynced_wf. rewrite lookupError_None in Ht.
  constructor; unfold nodeAt; cbn.
  - rewrite lookup_moveNodes_other; [by apply wf_root|done|done| |];
      intros ->%prefix_nil_inv; [apply Hst|apply Hts]; apply prefix_nil.
  - intros p name Hn. rewrite lookup_moveNodes in Hn by done.
    case_decide as H1; [done|].
    assert (Hp1 : ~ source ⊑ p) by (intros ?; apply H1; etrans; [done|by exists [name]]).
    destruct (decide (target ⊑ p)) as [[r ->]|Hp2].
    + rewrite lookup_moveNodes_target by done. apply (wf_parent _ Hwf (source ++ r) name).
      rewrite <- app_assoc, swapPath_target in Hn by done. by rewrite <- app_assoc.
    + rewrite lookup_moveNodes_other by done.
      destruct (decide (target ⊑ p ++ [name])) as [Ht2|Hp3].
      * assert (target = p ++ [name]) as ->.
        { destruct (decide (target = p ++ [name])) as [|Hne]; [done|].
          apply prefix_dirname in Ht2; [|done]. by rewrite dirname_app in Ht2. }
        apply Ht; [by exists [name]|]. intros E%(f_equal length). rewrite length_app in E.
        cbn in E. lia.
      * rewrite swapPath_other in Hn by done. by apply (wf_parent _ Hwf p name).
Qed.

Lemma rmTreePartly_wf p gone d : p <> [] -> wellFormed d -> wellFormed (rmTreePartly p gone d).
Proof.
  intros Hp Hwf. apply markUnsynced_wf, without_wf; [|done].
  intros [H _]%list_elem_of_filter. by apply prefix_nil_inv in H.
Qed.

(** The calls that delete leave the disk without what is at the path or below. *)
Lemma removal_ok p d u d' :
  wellFormed d ->
  rmdir p d = Ok (u, d') \/ rm p d = Ok (u, d') \/ rmTree p d = Ok (u, d') ->
  p <> [] /\ nodeAt d p <> None /\ d' = markUnsynced {[dirname p]} (without [p] d).
Proof.
  intros Hwf [H|[H|H]]; [unfold rmdir in H|unfold rm in H|unfold rmTree in H];
    (destruct (lstat p d) as [[n d1]|] eqn:El; [|done]);
    apply lstat_ok in El as [Hn ->]; try done.
  - destruct n; try done. destruct (entries d p); [|done]. case_decide; [done|].
    injection H as _ <-. by rewrite Hn.
  - destruct n; try done; injection H as _ <-; (split_and!; [|by rewrite Hn|done]);
      intros ->; rewrite (wf_root _ Hwf) in Hn; done.
  - case_decide; [done|]. injection H as _ <-. by rewrite Hn.
Qed.

Lemma removal_wf p d u d' :
  wellFormed d ->
  rmdir p d = Ok (u, d') \/ rm p d = Ok (u, d') \/ rmTree p d = Ok (u, d') -> wellFormed d'.
Proof.
  intros Hwf H. apply removal_ok in H as (Hp & _ & ->); [|done].
  apply markUnsynced_wf, without_wf; [|done]. rewrite list_elem_of_singleton. congruence.
Qed.

(** A call that only looks. *)
Definition looks {A} (f : Call A) : Prop := forall d a d', f d = Ok (a, d') -> d' = d.

Lemma lstat_looks p : looks (lstat p).
Proof. intros d a d'. unfold lstat. destruct (lookupError d p), (nodeAt d p); naive_solver. Qed.

Lemma realpath_looks p : looks (realpath p).
Proof.
  intros d a d'. unfold realpath. destruct (lstat p d) as [[[] ?]|]; naive_solver.
Qed.

Lemma readdir_looks p : looks (readdir p).
Proof. intros d a d'. unfold readdir. destruct (lstat p d) as [[[] ?]|]; naive_solver. Qed.

Lemma openRead_looks p : looks (openRead p).
Proof. intros d a d'. unfold openRead. destruct (lstat p d) as [[[] ?]|]; naive_solver. Qed.

Lemma readAll_looks p : looks (readAll p).
Proof. intros d a d'. unfold readAll. destruct (nodeAt d p) as [[]|]; naive_solver. Qed.

#[export] Hint Resolve lstat_looks realpath_looks readdir_looks openRead_looks readAll_looks
  : disk_wf.
#[export] Hint Resolve mkdir_wf rename_wf removal_wf rmTreePartly_wf markUnsynced_wf : disk_wf.
