(* ===== verification/Io.v ===== *)
(** * Programs that work on the disk and the database

    An asynchronous function of the executor is a function from a world to an
    outcome and the world after it. Every call on the disk or the database is
    one effect. Before an effect time passes, other processes work on the
    database, and the renewal timer may fire; the effect itself may be struck:
    the process is killed, or the call fails, before or after it did its work.
    The list of such ticks is part of the world, so that a property of all
    worlds is a property of all interleavings and all faults. When the ticks
    are used up the rest runs undisturbed.

    Other processes leave the disk below a mutation's keys alone: its resource
    locks say so ([JournalResources]).

    There are three ways to speak of a program. [spec] is a triple over disks that
    holds under every interleaving and fault: what is true of the disk when the
    program returns, and what is true of it when it is stopped or throws. [finishes]
    is a total triple for undisturbed runs. [observes] says that a program only
    looks at the disk, and that what it returns is what [look] computes from the
    disk alone. *)

From Stdlib Require Import Ascii.
From Stdlib Require String.
From S2P Require Import Prelude Database MutationMetadata MutationPrepare Journal Disk.

Open Scope Z_scope.

(** ** What the platform provides *)

(** [sha256] is the hexadecimal digest, [platformText] the messages of the
    operating system and the database client, [stringLess] the order of
    JavaScript strings, [lowerCase] their [toLowerCase], and [entrySize] what [lstat] gives as the size of
    something that is not a regular file. *)
Class Runtime := {
  sha256 : string -> string;
  stringLess : string -> string -> bool;
  lowerCase : string -> string;
  entrySize : Node -> Z;
  errnoText : Errno -> string;
  databaseText : StorageError -> string
}.

(** Strings are totally ordered. *)
Class RuntimeLaws `{Runtime} : Prop := {
  stringLess_irreflexive s : stringLess s s = false;
  stringLess_transitive s t u :
    stringLess s t = true -> stringLess t u = true -> stringLess s u = true;
  stringLess_total s t : s = t \/ stringLess s t = true \/ stringLess t s = true
}.

(** ** Errors *)

Inductive StorageMutationExecutionBoundary :=
| filesystem_step_applied | forward_steps_applied | boundary_metadata_committed
| finalization_started | cleanup_steps_applied | completed.
#[export] Instance StorageMutationExecutionBoundary_eq_dec :
  EqDecision StorageMutationExecutionBoundary.
Proof. solve_decision. Defined.

(** What a call can throw; [StorageTransactionUnavailableError] is a database
    that could not be asked or did not answer. *)
Inductive IoError :=
| StorageMutationAmbiguityError (message : string)
| StorageFilesystemUnsupportedError (message : string)
| ErrnoException (code : Errno)
| StorageException (error : StorageError)
| StorageTransactionUnavailableError
| StorageMutationAbruptInterruptionError (boundary : StorageMutationExecutionBoundary).
#[export] Instance IoError_eq_dec : EqDecision IoError.
Proof. solve_decision. Defined.

Definition boundaryName (boundary : StorageMutationExecutionBoundary) : string :=
  match boundary with
  | filesystem_step_applied => "filesystem_step_applied"
  | forward_steps_applied => "forward_steps_applied"
  | boundary_metadata_committed => "metadata_committed"
  | finalization_started => "finalization_started"
  | cleanup_steps_applied => "cleanup_steps_applied"
  | completed => "completed"
  end.

Definition storageErrorText `{Runtime} (error : StorageError) : string :=
  match error with
  | StorageMutationConflictError STORAGE_MUTATION_IN_PROGRESS _ =>
      "Another durable storage mutation owns this resource."
  | StorageMutationConflictError STORAGE_MUTATION_RECOVERING _ =>
      "The durable storage mutation is being recovered."
  | StorageMutationConflictError STORAGE_RECOVERY_REQUIRED _ =>
      "The durable storage mutation requires operator recovery."
  | StorageMutationConflictError STORAGE_IDEMPOTENCY_KEY_REUSED _ =>
      "Idempotency key was reused with a different request."
  | StorageMutationFenceError =>
      "Storage mutation lease or fencing token is no longer valid."
  | StorageMutationIntentError message => message
  | StorageMutationRejectedError USER_STORAGE_QUOTA_EXCEEDED =>
      "This upload would exceed the user's storage quota."
  | StorageMutationRejectedError STORAGE_PATH_TOO_LONG =>
      "The name or path is too long for the storage filesystem."
  | StorageMutationRejectedError STORAGE_MUTATION_ABORTED =>
      "The storage operation kept failing and was rolled back. Try again."
  | StorageAdmissionBusyError => "Storage is busy. Try again shortly."
  | _ => databaseText error
  end.

(** [messageOf]. *)
Definition messageOf `{Runtime} (error : IoError) : string :=
  match error with
  | StorageMutationAmbiguityError message | StorageFilesystemUnsupportedError message => message
  | ErrnoException code => errnoText code
  | StorageException error => storageErrorText error
  | StorageTransactionUnavailableError =>
      "Storage could not finish this transaction. Try again shortly."
  | StorageMutationAbruptInterruptionError boundary =>
      "Abrupt interruption at " +:+ boundaryName boundary +:+ "."
  end.

(** ** Worlds *)

(** A fault is an error of the device or the system, not one that says what the
    disk holds. *)
Inductive Strike := killed | name_too_long | fails (code : string).
Definition faultOf (strike : Strike) : option Errno :=
  match strike with
  | killed => None
  | name_too_long => Some ENAMETOOLONG
  | fails code => Some (errno_other code)
  end.
Inductive Renewal := no_renewal | renewal_runs | renewal_unavailable.

(** What happens just before an effect, and to it. A struck effect did its work
    when [tk_done]; a recursive removal deleted [tk_deleted]. A transaction that
    reads the clock again reads it [tk_within] later. The clock does not run
    backwards. *)
Record Tick := {
  tk_elapsed : nat; tk_within : nat;
  tk_others : DB -> DB;
  tk_locks : Locks;
  tk_renewal : Renewal;
  tk_strike : option Strike;
  tk_done : bool;
  tk_deleted : list path
}.

Definition quietTick : Tick :=
  {| tk_elapsed := 0; tk_within := 0; tk_others := id; tk_locks := ∅;
     tk_renewal := no_renewal; tk_strike := None; tk_done := false; tk_deleted := [] |}.

(** The mutation a worker holds, as it claimed it. *)
Record Holder := { hd_id : string; hd_leaseOwner : string; hd_leaseToken : Z }.

(** [w_steps] are the steps of the mutation in the worker's memory, where a step
    it applied is marked; [w_timer] the mutation its timer renews, and
    [w_leaseFailure] the error of a renewal. *)
Record World := {
  w_disk : Disk;
  w_db : DB;
  w_now : Z;
  w_steps : list Step;
  w_timer : option Holder;
  w_leaseFailure : option IoError;
  w_future : list Tick
}.

Definition set_disk (d : Disk) (w : World) : World :=
  {| w_disk := d; w_db := w_db w; w_now := w_now w; w_steps := w_steps w;
     w_timer := w_timer w; w_leaseFailure := w_leaseFailure w; w_future := w_future w |}.
Definition set_db (db : DB) (w : World) : World :=
  {| w_disk := w_disk w; w_db := db; w_now := w_now w; w_steps := w_steps w;
     w_timer := w_timer w; w_leaseFailure := w_leaseFailure w; w_future := w_future w |}.
Definition set_now (now : Z) (w : World) : World :=
  {| w_disk := w_disk w; w_db := w_db w; w_now := now; w_steps := w_steps w;
     w_timer := w_timer w; w_leaseFailure := w_leaseFailure w; w_future := w_future w |}.
Definition set_memory (steps : list Step) (w : World) : World :=
  {| w_disk := w_disk w; w_db := w_db w; w_now := w_now w; w_steps := steps;
     w_timer := w_timer w; w_leaseFailure := w_leaseFailure w; w_future := w_future w |}.
Definition set_timer (timer : option Holder) (w : World) : World :=
  {| w_disk := w_disk w; w_db := w_db w; w_now := w_now w; w_steps := w_steps w;
     w_timer := timer; w_leaseFailure := w_leaseFailure w; w_future := w_future w |}.
Definition set_leaseFailure (failure : option IoError) (w : World) : World :=
  {| w_disk := w_disk w; w_db := w_db w; w_now := w_now w; w_steps := w_steps w;
     w_timer := w_timer w; w_leaseFailure := failure; w_future := w_future w |}.
Definition set_future (future : list Tick) (w : World) : World :=
  {| w_disk := w_disk w; w_db := w_db w; w_now := w_now w; w_steps := w_steps w;
     w_timer := w_timer w; w_leaseFailure := w_leaseFailure w; w_future := future |}.

(** Nothing disturbs what follows. *)
Definition calm (w : World) : Prop := w_future w = [].

(** ** Outcomes *)

(** A killed process neither returns nor throws: no [catch] or [finally] runs. *)
Inductive outcome (A : Type) := Done (a : A) | Failed (error : IoError) | Killed.
Arguments Done {A} a.
Arguments Failed {A} error.
Arguments Killed {A}.

Definition Io (A : Type) : Type := World -> outcome A * World.

#[export] Instance Io_ret : MRet Io := fun A a w => (Done a, w).
#[export] Instance Io_bind : MBind Io := fun A B f m w =>
  match m w with
  | (Done a, w') => f a w'
  | (Failed e, w') => (Failed e, w')
  | (Killed, w') => (Killed, w')
  end.

Definition throwIo {A} (e : IoError) : Io A := fun w => (Failed e, w).
Definition liftIo {A} (r : result IoError A) : Io A :=
  match r with Ok a => mret a | Throw e => throwIo e end.
(** [if (!b) throw e]. *)
Definition assertIo (b : bool) (e : IoError) : Io unit := if b then mret tt else throwIo e.

(** [try { ... } catch (error) { ... }]. *)
Definition catchIo {A} (m : Io A) (handler : IoError -> Io A) : Io A := fun w =>
  match m w with
  | (Failed e, w') => handler e w'
  | r => r
  end.

(** [.catch(() => undefined)]. *)
Definition ignoreErrors (m : Io unit) : Io unit := catchIo m (fun _ => mret tt).

(** ** Effects *)

(** The timer's [renewStorageMutationLease(...).catch(onFailure)]. *)
Definition runTimer (renewal : Renewal) (w : World) : World :=
  match w_timer w, renewal with
  | Some holder, renewal_runs =>
      match renewStorageMutationLease (w_now w) STORAGE_MUTATION_LEASE_MS (hd_id holder)
              (hd_leaseOwner holder) (hd_leaseToken holder) (w_db w) with
      | Ok (_, db) => set_db db w
      | Throw e => set_leaseFailure (Some (StorageException e)) w
      end
  | Some _, renewal_unavailable =>
      set_leaseFailure (Some StorageTransactionUnavailableError) w
  | _, _ => w
  end.

Definition nextTick (w : World) : Tick * World :=
  match w_future w with
  | [] => (quietTick, w)
  | tick :: rest =>
      (tick, runTimer (tk_renewal tick)
               (set_db (tk_others tick (w_db w))
                  (set_now (w_now w + Z.of_nat (tk_elapsed tick)) (set_future rest w))))
  end.

(** A call on the disk; [partly] is what the disk holds when the call is struck. *)
Definition diskEffect {A} (f : Call A) (partly : Tick -> Disk -> Disk) : Io A := fun w =>
  let '(tick, w) := nextTick w in
  match tk_strike tick with
  | None =>
      match f (w_disk w) with
      | Ok (a, d) => (Done a, set_disk d w)
      | Throw e => (Failed (ErrnoException e), w)
      end
  | Some strike =>
      (match faultOf strike with Some e => Failed (ErrnoException e) | None => Killed end,
       set_disk (partly tick (w_disk w)) w)
  end.

(** A call that happens in one piece, or does not happen. *)
Definition fs {A} (f : Call A) : Io A :=
  diskEffect f (fun tick d =>
    if tk_done tick then match f d with Ok (_, d') => d' | Throw _ => d end else d).

(** A transaction, or one statement. It is given the time of the call, the time
    it runs, and the time when it reads the clock again. *)
Definition dbEffect {A} (tx : Locks -> Z -> Z -> Z -> Tx A) : Io A := fun w =>
  let called := w_now w in
  let '(tick, w) := nextTick w in
  let later := w_now w + Z.of_nat (tk_within tick) in
  match tk_strike tick with
  | None =>
      match tx (tk_locks tick) called (w_now w) later (w_db w) with
      | Ok (a, db) => (Done a, set_now later (set_db db w))
      | Throw e => (Failed (StorageException e), set_now later w)
      end
  | Some strike =>
      let w := match tk_done tick, tx (tk_locks tick) called (w_now w) later (w_db w) with
               | true, Ok (_, db) => set_now later (set_db db w)
               | _, _ => set_now later w
               end in
      (match faultOf strike with
       | Some _ => Failed StorageTransactionUnavailableError
       | None => Killed
       end, w)
  end.

(** The worker's own memory. *)
Definition memory {A} (f : World -> A) : Io A := fun w => (Done (f w), w).
Definition remember (f : World -> World) : Io unit := fun w => (Done tt, f w).

(** [for (const x of xs) { ... }]. *)
Fixpoint forEach {A} (xs : list A) (body : A -> Io unit) : Io unit :=
  match xs with
  | [] => mret tt
  | x :: rest => _ ← body x; forEach rest body
  end.

(** ** What an effect leaves alone *)

Lemma runTimer_disk renewal w : w_disk (runTimer renewal w) = w_disk w.
Proof.
  unfold runTimer. destruct (w_timer w), renewal; try done.
  by destruct (renewStorageMutationLease _ _ _ _ _ _) as [[]|].
Qed.

Lemma runTimer_future renewal w : w_future (runTimer renewal w) = w_future w.
Proof.
  unfold runTimer. destruct (w_timer w), renewal; try done.
  by destruct (renewStorageMutationLease _ _ _ _ _ _) as [[]|].
Qed.

Lemma runTimer_memory renewal w : w_steps (runTimer renewal w) = w_steps w.
Proof.
  unfold runTimer. destruct (w_timer w), renewal; try done.
  by destruct (renewStorageMutationLease _ _ _ _ _ _) as [[]|].
Qed.

Lemma nextTick_disk w : w_disk (nextTick w).2 = w_disk w.
Proof. unfold nextTick. destruct (w_future w); [done|]. cbn. by rewrite runTimer_disk. Qed.

Lemma nextTick_memory w : w_steps (nextTick w).2 = w_steps w.
Proof. unfold nextTick. destruct (w_future w); [done|]. cbn. by rewrite runTimer_memory. Qed.

Lemma nextTick_calm w : calm w -> nextTick w = (quietTick, w).
Proof. unfold calm, nextTick. by intros ->. Qed.

(** ** Partial triples

    [J] is an invariant of everything but the disk: what other processes and
    the timer do keeps it. *)

Class Stable (J : World -> Prop) : Prop := {
  stable_disk w d : J w -> J (set_disk d w);
  stable_tick w : J w -> J (nextTick w).2
}.

Definition anyWorld (w : World) : Prop := True.
#[export] Instance anyWorld_stable : Stable anyWorld.
Proof. by split. Qed.

Definition spec {A} (J : World -> Prop) (P : Disk -> Prop) (m : Io A) (Q : A -> Disk -> Prop)
    (X : Disk -> Prop) : Prop :=
  forall w, J w -> P (w_disk w) ->
    J (m w).2 /\
    match (m w).1 with
    | Done a => Q a (w_disk (m w).2)
    | _ => X (w_disk (m w).2)
    end.

Section spec_rules.
Context {A B : Type} (J : World -> Prop).
Implicit Types (P X : Disk -> Prop).

Lemma spec_ret (a : A) P X : spec J P (mret a) (fun b d => b = a /\ P d) X.
Proof. intros w HJ Hw. by cbn. Qed.

Lemma spec_throw (e : IoError) P (Q : A -> Disk -> Prop) : spec J P (throwIo e) Q P.
Proof. intros w HJ Hw. by cbn. Qed.

Lemma spec_bind (m : Io A) (f : A -> Io B) P Q R X :
  spec J P m R X -> (forall a, spec J (R a) (f a) Q X) -> spec J P (m ≫= f) Q X.
Proof.
  intros Hm Hf w HJ Hw. unfold mbind, Io_bind. destruct (Hm w HJ Hw) as [HJ' Hr].
  destruct (m w) as [[a|e|] w']; [by apply Hf|done..].
Qed.

Lemma spec_conseq (m : Io A) P P' (Q Q' : A -> Disk -> Prop) X X' :
  spec J P m Q X -> (forall d, P' d -> P d) -> (forall a d, Q a d -> Q' a d) ->
  (forall d, X d -> X' d) -> spec J P' m Q' X'.
Proof.
  intros Hm HP HQ HX w HJ Hw. destruct (Hm w HJ (HP _ Hw)) as [HJ' Hr]. split; [done|].
  destruct (m w) as [[a|e|] w']; cbn in *; auto.
Qed.

Lemma spec_catch (m : Io A) (handler : IoError -> Io A) P Q X :
  spec J P m Q X -> (forall e, spec J X (handler e) Q X) -> spec J P (catchIo m handler) Q X.
Proof.
  intros Hm Hh w HJ Hw. unfold catchIo. destruct (Hm w HJ Hw) as [HJ' Hr].
  destruct (m w) as [[a|e|] w']; [done|by apply Hh|done].
Qed.

Lemma spec_pure (phi : Prop) P (m : Io A) Q X :
  (phi -> spec J P m Q X) -> spec J (fun d => phi /\ P d) m Q X.
Proof. intros Hm w HJ [Hphi Hw]. by apply Hm. Qed.

Lemma spec_ex {C} (P : C -> Disk -> Prop) (m : Io A) Q X :
  (forall c, spec J (P c) m Q X) -> spec J (fun d => exists c, P c d) m Q X.
Proof. intros Hm w HJ [c Hw]. by apply (Hm c). Qed.

Lemma spec_lift (r : result IoError A) P :
  spec J P (liftIo r) (fun a d => r = Ok a /\ P d) P.
Proof. intros w HJ Hw. destruct r; by cbn. Qed.

Lemma spec_assert (b : bool) e P : spec J P (assertIo b e) (fun _ d => b = true /\ P d) P.
Proof. intros w HJ Hw. destruct b; by cbn. Qed.

Lemma spec_memory (f : World -> A) P X : spec J P (memory f) (fun _ d => P d) X.
Proof. intros w HJ Hw. by cbn. Qed.

(** Where a program never returns, only what it leaves when stopped matters. *)
Lemma spec_vacuous (m : Io A) P Q X :
  spec J P m (fun _ _ => False) X -> spec J P m Q X.
Proof. intros Hm. by eapply spec_conseq. Qed.

Context `{!Stable J}.

Lemma spec_db (tx : Locks -> Z -> Z -> Z -> Tx A) P :
  (forall w later, J w -> J (set_now later w)) ->
  (forall w locks called now later a db, J w -> tx locks called now later (w_db w) = Ok (a, db) ->
     J (set_now later (set_db db w))) ->
  spec J P (dbEffect tx) (fun _ d => P d) P.
Proof.
  intros Hnow Htx w HJ Hw. unfold dbEffect. pose proof (stable_tick w HJ) as HJ1.
  pose proof (nextTick_disk w) as Hd. destruct (nextTick w) as [tick w1]. cbn in HJ1, Hd.
  rewrite <- Hd in Hw. set (later := w_now w1 + Z.of_nat (tk_within tick)).
  destruct (tx (tk_locks tick) (w_now w) (w_now w1) later (w_db w1)) as [[a db]|e] eqn:E.
  - specialize (Htx _ _ _ _ _ _ _ HJ1 E). specialize (Hnow _ later HJ1).
    destruct (tk_strike tick) as [s|]; [|done].
    by destruct (faultOf s), (tk_done tick).
  - specialize (Hnow _ later HJ1). destruct (tk_strike tick) as [s|]; [|done].
    by destruct (faultOf s), (tk_done tick).
Qed.

Lemma spec_diskEffect (f : Call A) partly P (Q : A -> Disk -> Prop) X :
  (forall d, P d -> X d) -> (forall d a d', P d -> f d = Ok (a, d') -> Q a d') ->
  (forall tick d, P d -> X (partly tick d)) ->
  spec J P (diskEffect f partly) Q X.
Proof.
  intros HX Hf Hp w HJ Hw. unfold diskEffect. pose proof (stable_tick w HJ) as HJ1.
  pose proof (nextTick_disk w) as Hd. destruct (nextTick w) as [tick w1]. cbn in HJ1, Hd.
  rewrite <- Hd in Hw. destruct (tk_strike tick) as [s|].
  - split; [by apply stable_disk|]. specialize (Hp tick _ Hw). cbn. by destruct (faultOf s).
  - destruct (f (w_disk w1)) as [[a d']|] eqn:Ef; (split; [by try apply stable_disk|]).
    + by eapply Hf.
    + by apply HX.
Qed.

(** A call in one piece: on a fault it happened or it did not. *)
Lemma spec_fs (f : Call A) P (Q : A -> Disk -> Prop) X :
  (forall d, P d -> X d) ->
  (forall d a d', P d -> f d = Ok (a, d') -> Q a d' /\ X d') ->
  spec J P (fs f) Q X.
Proof.
  intros HX Hf. apply spec_diskEffect; [done|by intros d a d' Hd E; eapply Hf|].
  intros tick d Hd. destruct (tk_done tick); [|by apply HX].
  destruct (f d) as [[a d']|] eqn:Ef; [by eapply Hf|by apply HX].
Qed.

Lemma spec_looks (f : Call A) P :
  looks f -> spec J P (fs f) (fun a d => P d /\ f d = Ok (a, d)) P.
Proof.
  intros Hf. apply spec_fs; [done|]. intros d a d' HP E.
  pose proof (Hf _ _ _ E) as ->. done.
Qed.
End spec_rules.

(** The same rules for any conditions, given what they must imply. *)
Section spec_rules_for.
Context {A : Type} (J : World -> Prop) `{!Stable J}.
Implicit Types (P X : Disk -> Prop).

Lemma spec_ret_for (a : A) P Q X : (forall d, P d -> Q a d) -> spec J P (mret a) Q X.
Proof. intros HQ w HJ Hw. split; [done|]. cbn. auto. Qed.

Lemma spec_throw_for (e : IoError) P (Q : A -> Disk -> Prop) X :
  (forall d, P d -> X d) -> spec J P (throwIo e) Q X.
Proof. intros HX w HJ Hw. split; [done|]. cbn. auto. Qed.

Lemma spec_lift_for (r : result IoError A) P Q X :
  (forall d, P d -> X d) -> (forall a d, r = Ok a -> P d -> Q a d) -> spec J P (liftIo r) Q X.
Proof. intros HX HQ w HJ Hw. destruct r; (split; [done|]); cbn; auto. Qed.

Lemma spec_assert_for (b : bool) e P Q X :
  (forall d, P d -> X d) -> (forall d, P d -> b = true -> Q tt d) -> spec J P (assertIo b e) Q X.
Proof. intros HX HQ w HJ Hw. destruct b; (split; [done|]); cbn; auto. Qed.

Lemma spec_looks_for (f : Call A) P Q X :
  looks f -> (forall d, P d -> X d) -> (forall d a, P d -> f d = Ok (a, d) -> Q a d) ->
  spec J P (fs f) Q X.
Proof.
  intros Hf HX HQ. eapply spec_conseq; [apply (spec_looks J f P Hf)|done| |done].
  intros a d [HP E]. by eapply HQ.
Qed.
End spec_rules_for.

Lemma spec_forEach {A} J (xs : list A) (body : A -> Io unit) (I : Disk -> Prop) :
  (forall x, x ∈ xs -> spec J I (body x) (fun _ => I) I) ->
  spec J I (forEach xs body) (fun _ => I) I.
Proof.
  induction xs as [|x xs IH]; intros H; cbn.
  - eapply spec_conseq; [apply spec_ret|done|naive_solver|done].
  - eapply spec_bind; [apply H, list_elem_of_here|]. intros ?. apply IH.
    intros y Hy. by apply H, list_elem_of_further.
Qed.

(** ** Undisturbed runs

    [L] is what the program needs of the world besides the disk: that it is
    calm, and that the lease holds. *)

Definition finishes {A} (L : World -> Prop) (P : Disk -> Prop) (m : Io A)
    (Q : A -> Disk -> Prop) : Prop :=
  forall w, L w -> P (w_disk w) ->
    exists a w', m w = (Done a, w') /\ L w' /\ Q a (w_disk w').

(** A condition on everything but the disk, which implies that nothing disturbs
    the program. *)
Class Undisturbed (L : World -> Prop) : Prop := {
  undisturbed_calm w : L w -> calm w;
  undisturbed_disk w d : L w -> L (set_disk d w)
}.

Section finishes_rules.
Context {A B : Type} (L : World -> Prop) `{!Undisturbed L}.
Implicit Types P : Disk -> Prop.

Lemma finishes_ret (a : A) P : finishes L P (mret a) (fun b d => b = a /\ P d).
Proof. intros w HL HP. by exists a, w. Qed.

Lemma finishes_ret_for (a : A) P (Q : A -> Disk -> Prop) :
  (forall d, P d -> Q a d) -> finishes L P (mret a) Q.
Proof. intros HQ w HL HP. exists a, w. auto. Qed.

Lemma finishes_assert_for (b : bool) e P (Q : unit -> Disk -> Prop) :
  (forall d, P d -> b = true /\ Q tt d) -> finishes L P (assertIo b e) Q.
Proof. intros Hb w HL HP. destruct (Hb _ HP) as [-> HQ]. by exists tt, w. Qed.

Lemma finishes_bind (m : Io A) (f : A -> Io B) P Q R :
  finishes L P m R -> (forall a, finishes L (R a) (f a) Q) -> finishes L P (m ≫= f) Q.
Proof.
  intros Hm Hf w HL HP. destruct (Hm w HL HP) as (a & w1 & E1 & HL1 & HR).
  destruct (Hf a w1 HL1 HR) as (b & w2 & E2 & HL2 & HQ).
  exists b, w2. unfold mbind, Io_bind. by rewrite E1.
Qed.

Lemma finishes_conseq (m : Io A) P P' (Q Q' : A -> Disk -> Prop) :
  finishes L P m Q -> (forall d, P' d -> P d) -> (forall a d, Q a d -> Q' a d) ->
  finishes L P' m Q'.
Proof.
  intros Hm HP HQ w HL Hw. destruct (Hm w HL (HP _ Hw)) as (a & w' & E & HL' & Ha).
  exists a, w'. auto.
Qed.

Lemma finishes_catch (m : Io A) handler P Q :
  finishes L P m Q -> finishes L P (catchIo m handler) Q.
Proof.
  intros Hm w HL HP. destruct (Hm w HL HP) as (a & w' & E & H').
  exists a, w'. unfold catchIo. by rewrite E.
Qed.

Lemma finishes_pure (phi : Prop) P (m : Io A) Q :
  (phi -> finishes L P m Q) -> finishes L (fun d => phi /\ P d) m Q.
Proof. intros Hm w HL [Hphi HP]. by apply Hm. Qed.

Lemma finishes_lift (r : result IoError A) a P :
  r = Ok a -> finishes L P (liftIo r) (fun b d => b = a /\ P d).
Proof. intros -> w HL HP. by exists a, w. Qed.

Lemma finishes_assert (b : bool) e P :
  (forall d, P d -> b = true) -> finishes L P (assertIo b e) (fun _ d => P d).
Proof. intros Hb w HL HP. rewrite (Hb _ HP). by exists tt, w. Qed.

Lemma fs_calm (f : Call A) w :
  calm w -> fs f w = match f (w_disk w) with
                     | Ok (a, d) => (Done a, set_disk d w)
                     | Throw e => (Failed (ErrnoException e), w)
                     end.
Proof. intros Hc. unfold fs, diskEffect. by rewrite nextTick_calm. Qed.

Lemma finishes_fs (f : Call A) P Q :
  (forall d, P d -> exists a d', f d = Ok (a, d') /\ Q a d') -> finishes L P (fs f) Q.
Proof.
  intros Hf w HL HP. destruct (Hf _ HP) as (a & d' & E & HQ).
  exists a, (set_disk d' w). rewrite fs_calm by by apply undisturbed_calm.
  rewrite E. split_and!; [done| |done]. by apply undisturbed_disk.
Qed.
End finishes_rules.

(** ** Programs that only look *)

(** A world with nothing but a disk, in which nothing disturbs. *)
Definition emptyDB : DB :=
  {| db_rows := ∅; db_users := ∅; db_sessions := ∅; db_trash := ∅; db_mutations := ∅;
     db_resources := []; db_changes := []; db_nextSeq := 1 |}.
Definition stillWorld (d : Disk) : World :=
  {| w_disk := d; w_db := emptyDB; w_now := 0; w_steps := []; w_timer := None;
     w_leaseFailure := None; w_future := [] |}.

(** What a program that only looks returns on a disk. *)
Definition look {A} (m : Io A) (d : Disk) : outcome A := (m (stillWorld d)).1.

Definition observes {A} (m : Io A) : Prop :=
  (forall w, calm w -> m w = (look m (w_disk w), w)) /\
  (forall w, w_disk (m w).2 = w_disk w) /\
  (forall w a, (m w).1 = Done a -> look m (w_disk w) = Done a) /\
  (forall J w, Stable J -> J w -> J (m w).2).

Lemma set_disk_same w : set_disk (w_disk w) w = w.
Proof. by destruct w. Qed.

Section observes_rules.
Context {A B : Type}.

Lemma observes_ret (a : A) : observes (mret a).
Proof. by split_and!. Qed.

Lemma observes_throw (e : IoError) : observes (throwIo e : Io A).
Proof. by split_and!. Qed.

Lemma observes_lift (r : result IoError A) : observes (liftIo r).
Proof. destruct r; [apply observes_ret|apply observes_throw]. Qed.

Lemma observes_disk {C} (f : Disk -> C) : observes (memory (fun w => f (w_disk w))).
Proof. by split_and!. Qed.

Lemma look_bind (m : Io A) (f : A -> Io B) d :
  observes m ->
  look (m ≫= f) d = match look m d with
                    | Done a => look (f a) d
                    | Failed e => Failed e
                    | Killed => Killed
                    end.
Proof.
  intros (Hm & _). unfold look at 1, mbind, Io_bind. rewrite (Hm (stillWorld d)) by done.
  cbn. by destruct (look m d).
Qed.

Lemma observes_bind (m : Io A) (f : A -> Io B) :
  observes m -> (forall a, observes (f a)) -> observes (m ≫= f).
Proof.
  intros Hm Hf. pose proof Hm as Hm'. destruct Hm as (Hm1 & Hm2 & Hm3 & Hm4). split_and!.
  - intros w Hw. rewrite look_bind by done. unfold mbind, Io_bind. rewrite Hm1 by done.
    destruct (look m (w_disk w)) as [a|e|] eqn:E; [|done|done].
    by apply (proj1 (Hf a)).
  - intros w. unfold mbind, Io_bind. specialize (Hm2 w).
    destruct (m w) as [[a|e|] w']; cbn in *; [|done|done].
    rewrite <- Hm2. apply (proj1 (proj2 (Hf a))).
  - intros w b. rewrite look_bind by done. unfold mbind, Io_bind.
    specialize (Hm2 w). specialize (Hm3 w).
    destruct (m w) as [[a|e|] w']; cbn in *; [|done|done]. intros Hb.
    rewrite (Hm3 a eq_refl), <- Hm2. by apply (proj1 (proj2 (proj2 (Hf a)))).
  - intros J w HJ Hw. unfold mbind, Io_bind. specialize (Hm4 J w HJ Hw).
    destruct (m w) as [[a|e|] w']; cbn in *; [|done..].
    by apply (proj2 (proj2 (proj2 (Hf a)))).
Qed.

Lemma observes_fs (f : Call A) : looks f -> observes (fs f).
Proof.
  intros Hf. split_and!.
  - intros w Hw. rewrite fs_calm by done. unfold look. rewrite fs_calm by done. cbn.
    destruct (f (w_disk w)) as [[a d']|] eqn:E; [|done].
    rewrite (Hf _ _ _ E). by rewrite set_disk_same.
  - intros w. unfold fs, diskEffect. pose proof (nextTick_disk w) as Hd.
    destruct (nextTick w) as [tick w1]. cbn in Hd.
    destruct (tk_strike tick); cbn.
    + destruct (tk_done tick); [|done]. destruct (f (w_disk w1)) as [[a d']|] eqn:E; [|done].
      by rewrite (Hf _ _ _ E).
    + destruct (f (w_disk w1)) as [[a d']|] eqn:E; cbn; [by rewrite (Hf _ _ _ E)|done].
  - intros w a. unfold look. rewrite (fs_calm f (stillWorld _)) by done. cbn. unfold fs, diskEffect.
    pose proof (nextTick_disk w) as Hd. destruct (nextTick w) as [tick w1]. cbn in Hd.
    rewrite <- Hd. destruct (tk_strike tick) as [s|].
    + cbn. by destruct (faultOf s).
    + by destruct (f (w_disk w1)) as [[]|].
  - intros J w HJ Hw. unfold fs, diskEffect. pose proof (stable_tick w Hw) as H1.
    destruct (nextTick w) as [tick w1]. cbn in H1.
    destruct (tk_strike tick); [by apply stable_disk|].
    destruct (f (w_disk w1)) as [[]|]; [by apply stable_disk|done].
Qed.

Lemma look_fs (f : Call A) d :
  look (fs f) d = match f d with Ok (a, _) => Done a | Throw e => Failed (ErrnoException e) end.
Proof. unfold look. rewrite fs_calm by done. cbn. by destruct (f d) as [[]|]. Qed.

(** What such a program says holds of the disk it leaves, which is the disk it
    found. It may still be interrupted, and time passes. *)
Lemma spec_observes J `{!Stable J} (m : Io A) P :
  observes m -> spec J P m (fun a d => look m d = Done a /\ P d) P.
Proof.
  intros (_ & Hd & Hl & HJ) w Hw HP. split; [by apply HJ|]. specialize (Hd w). specialize (Hl w).
  destruct (m w) as [[a|e|] w']; cbn in *; rewrite Hd; auto.
Qed.

Lemma spec_observes_for J `{!Stable J} (m : Io A) P Q X :
  observes m -> (forall d, P d -> X d) -> (forall d a, P d -> look m d = Done a -> Q a d) ->
  spec J P m Q X.
Proof.
  intros Hm HX HQ. eapply spec_conseq; [apply (spec_observes J m P Hm)|done| |done].
  intros a d [E HP]. by apply HQ.
Qed.

Lemma finishes_observes (L : World -> Prop) `{!Undisturbed L} (m : Io A) P a :
  observes m -> (forall d, P d -> look m d = Done a) ->
  finishes L P m (fun b d => b = a /\ P d).
Proof.
  intros (Hc & _) Hl w HL HP. exists a, w.
  rewrite Hc by by apply undisturbed_calm. by rewrite Hl.
Qed.

Lemma finishes_observes_for (L : World -> Prop) `{!Undisturbed L} (m : Io A) P Q a :
  observes m -> (forall d, P d -> look m d = Done a /\ Q a d) -> finishes L P m Q.
Proof.
  intros (Hc & _) Hl w HL HP. destruct (Hl _ HP) as [E HQ]. exists a, w.
  rewrite Hc by by apply undisturbed_calm. by rewrite E.
Qed.
End observes_rules.

Lemma observes_assert (b : bool) e : observes (assertIo b e).
Proof. destruct b; [apply observes_ret|apply observes_throw]. Qed.

Create HintDb observes.
#[export] Hint Resolve observes_ret observes_throw observes_lift observes_bind observes_assert
  observes_disk : observes.
#[export] Hint Resolve lstat_looks realpath_looks readdir_looks openRead_looks readAll_looks
  : observes.
#[export] Hint Extern 2 (observes (fs _)) => apply observes_fs : observes.
#[export] Hint Extern 3 (observes (match ?x with _ => _ end)) => destruct x : observes.
