(* ===== verification/StoragePaths.v ===== *)
(** * Storage keys

    How [packages/db/src/storage-mutation-executor.ts] turns the key of a step
    into a path below the files root: [normalizeStorageKey],
    [resolveMutationStoragePath] and [getOwnedArtifactRoot], with the parts of
    [node:path] they use. *)

From Stdlib Require Import Ascii.
From Stdlib Require String.
From S2P Require Import Prelude Database MutationPrepare Disk Io.

(** ** [path.posix.normalize] *)

(** The segments kept so far, the last one first. *)
Fixpoint normalizeSegments (allowAboveRoot : bool) (kept segments : list string) :
    list string :=
  match segments with
  | [] => kept
  | segment :: rest =>
      normalizeSegments allowAboveRoot
        (if bool_decide (segment = "") || bool_decide (segment = ".") then kept
         else if bool_decide (segment = "..") then
           match kept with
           | top :: below =>
               if bool_decide (top = "..") then
                 if allowAboveRoot then segment :: kept else kept
               else below
           | [] => if allowAboveRoot then [segment] else []
           end
         else segment :: kept) rest
  end.

Definition endsWithSlash (s : string) : bool :=
  bool_decide (last (String.list_ascii_of_string s) = Some slash).

Definition posixNormalize (s : string) : string :=
  if bool_decide (s = "") then "."
  else
    let isAbsolute := startsWith "/" s in
    let normalized := joinWith "/" (reverse
      (normalizeSegments (negb isAbsolute) [] (splitOn slash s))) in
    let trailing := if endsWithSlash s then "/" else "" in
    if bool_decide (normalized = "") then
      if isAbsolute then "/" else "." +:+ trailing
    else (if isAbsolute then "/" else "") +:+ normalized +:+ trailing.

(** ** Keys *)

Definition backslash : ascii := "\"%char.

Definition normalizeStorageKey (storageKey : string) : result IoError string :=
  if bool_decide (storageKey = "") || hasChar backslash storageKey || startsWith "/" storageKey
  then Throw (StorageMutationAmbiguityError "Invalid mutation storage key.")
  else
    let normalized := posixNormalize storageKey in
    if bool_decide (normalized = ".") || bool_decide (normalized = "..")
       || startsWith "../" normalized
    then Throw (StorageMutationAmbiguityError "Mutation storage key escapes storage root.")
    else Ok normalized.

(** [path.resolve(root, ...segments)], as the path relative to the root. *)
Definition resolveSegments (segments : list string) : path :=
  reverse (normalizeSegments true [] segments).

(** [!relative || relative.startsWith("..") || path.isAbsolute(relative)]. *)
Definition relativeEscapes (p : path) : bool :=
  let relative := joinWith "/" p in
  bool_decide (relative = "") || startsWith ".." relative || startsWith "/" relative.

Definition resolveMutationStoragePath (storageKey : string) : result IoError path :=
  normalized ← normalizeStorageKey storageKey;
  let resolved := resolveSegments (splitOn slash normalized) in
  if relativeEscapes resolved
  then Throw (StorageMutationAmbiguityError "Mutation storage key escapes storage root.")
  else Ok resolved.

(** ** Artifacts a mutation owns

    A key [tmp/<kind>/<id>/...]: its [artifactRoot] and [kindRoot]. *)

Definition ownedKinds : list string := ["backup"; "incoming"; "quarantine"].

Record OwnedArtifact := { oa_artifactRoot : path; oa_kindRoot : path }.

Definition getOwnedArtifactRoot (storageKey : string) : result IoError (option OwnedArtifact) :=
  normalized ← normalizeStorageKey storageKey;
  let segments := splitOn slash normalized in
  let ownedKind := bool_decide (nth 1 segments "" ∈ ownedKinds) in
  if negb (bool_decide (nth 0 segments "" = "tmp")) || negb ownedKind
     || bool_decide (length segments < 4)%nat
  then Ok None
  else Ok (Some {| oa_artifactRoot := resolveSegments (take 3 segments);
                   oa_kindRoot := resolveSegments (take 2 segments) |}).

(** ** A key never leaves the files root *)

(** A segment that names an entry. *)
Definition isEntryName (s : string) : Prop :=
  s <> "" /\ s <> "." /\ s <> ".." /\ hasChar slash s = false.

(** Above the first ordinary segment there may only be [".."]s, and only where
    going above the root is allowed. *)
Definition keptOk (allowAboveRoot : bool) (kept : list string) : Prop :=
  exists names ups, kept = names ++ replicate ups ".." /\ Forall isEntryName names /\
    (allowAboveRoot = false -> ups = O).

Lemma normalizeSegments_ok allow kept segments :
  Forall (fun s => hasChar slash s = false) segments -> keptOk allow kept ->
  keptOk allow (normalizeSegments allow kept segments).
Proof.
  intros Hs. revert kept. induction Hs as [|segment rest Hseg Hs IH]; intros kept Hk; [done|].
  cbn. apply IH. destruct Hk as (names & ups & -> & Hn & Hups).
  destruct (bool_decide (segment = "") || bool_decide (segment = ".")) eqn:E1;
    [by exists names, ups|].
  apply orb_false_elim in E1 as [He1%bool_decide_eq_false Hd%bool_decide_eq_false].
  case_bool_decide as E2.
  - subst segment. destruct Hn as [|name names Hname Hn]; cbn.
    + destruct ups as [|ups]; cbn.
      * destruct allow; [by exists [], 1%nat|by exists [], O].
      * destruct allow; [by exists [], (S (S ups))|]. specialize (Hups eq_refl). lia.
    + rewrite bool_decide_eq_false_2 by (by destruct Hname as (_ & _ & ? & _)).
      by exists names, ups.
  - exists (segment :: names), ups. split_and!; [done| |done]. by constructor.
Qed.

Lemma joinWith_cons_cons sep x y l :
  joinWith sep (x :: y :: l) = x +:+ sep +:+ joinWith sep (y :: l).
Proof. done. Qed.

Lemma splitOn_join c l :
  l <> [] -> Forall (fun w => hasChar c w = false) l ->
  splitOn c (joinWith (String c "") l) = l.
Proof.
  induction l as [|w l IH]; [done|]. intros _ [Hw Hl]%Forall_cons. destruct l as [|w' l].
  - by apply splitOn_no_char.
  - rewrite joinWith_cons_cons, string_app_cons, string_app_nil_l, splitOn_app.
    by rewrite (splitOn_no_char c w), IH.
Qed.

Lemma joinWith_prefix_first x l :
  exists rest, joinWith "/" (x :: l) = x +:+ rest.
Proof.
  destruct l as [|y l].
  - exists "". by rewrite string_app_nil_r.
  - exists ("/" +:+ joinWith "/" (y :: l)). apply joinWith_cons_cons.
Qed.

(** What the key of a step resolves to. *)
Definition keyPath (p : path) : Prop :=
  p <> [] /\ Forall isEntryName p /\ relativeEscapes p = false.

Lemma resolve_keyPath storageKey p : resolveMutationStoragePath storageKey = Ok p -> keyPath p.
Proof.
  unfold resolveMutationStoragePath. cbn. unfold mbind, result_bind.
  destruct (normalizeStorageKey storageKey) as [normalized|]; [|done].
  destruct (relativeEscapes _) eqn:E; [done|]. intros [= <-].
  pose proof E as E0. unfold relativeEscapes in E.
  apply orb_false_elim in E as [[Hne Hup]%orb_false_elim _].
  apply bool_decide_eq_false in Hne. unfold resolveSegments in *.
  destruct (normalizeSegments_ok true [] (splitOn slash normalized)) as (names & ups & E & Hn & _).
  { apply splitOn_pieces. }
  { by exists [], O. }
  rewrite E in *. rewrite reverse_app, reverse_replicate in *.
  destruct ups as [|ups]; cbn [replicate app] in *.
  - split_and!; [|by apply Forall_reverse|done]. by intros H; rewrite H in Hne.
  - exfalso. destruct (joinWith_prefix_first ".." (replicate ups ".." ++ reverse names))
      as [rest Hr]. rewrite Hr in Hup. unfold startsWith in Hup.
    assert (String.prefix ".." (".." +:+ rest) = true) by (apply prefix_spec; eauto). congruence.
Qed.

Lemma startsWith_dots_first s rest :
  isEntryName s -> startsWith ".." (joinWith "/" (s :: rest)) = startsWith ".." s.
Proof.
  intros (H1 & H2 & _ & _). destruct rest as [|y rest]; [done|]. rewrite joinWith_cons_cons.
  unfold startsWith. destruct s as [|a [|b s]]; [done| |].
  - rewrite !string_app_cons, !prefix_cons. case_bool_decide; [|done]. by subst a.
  - rewrite !string_app_cons, !prefix_cons. by destruct s.
Qed.

Lemma startsWith_slash_first s rest :
  isEntryName s -> startsWith "/" (joinWith "/" (s :: rest)) = false.
Proof.
  intros (H1 & _ & _ & H4). destruct (joinWith_prefix_first s rest) as [t ->].
  destruct s as [|a s]; [done|]. cbn in H4. apply orb_false_elim in H4 as [H4 _].
  unfold startsWith. rewrite string_app_cons, prefix_cons.
  apply bool_decide_eq_false in H4. rewrite bool_decide_eq_false_2; [done|].
  unfold slash in H4. congruence.
Qed.

(** The directories on the way are inside the root as well. *)
Lemma keyPath_prefix p q :
  keyPath p -> q ⊑ p -> q <> [] ->
  startsWith ".." (joinWith "/" q) = false /\ startsWith "/" (joinWith "/" q) = false.
Proof.
  intros (_ & Hp & He) [r ->] Hq. destruct q as [|s q]; [done|]. cbn [app] in *.
  apply Forall_cons in Hp as [Hs _]. unfold relativeEscapes in He.
  rewrite startsWith_dots_first in He by done. rewrite startsWith_dots_first by done.
  rewrite startsWith_slash_first by done. split; [|done].
  by apply orb_false_elim in He as [[_ He]%orb_false_elim _].
Qed.

(** the path of a step's key lies strictly below the files root: it is a
    non-empty list of entry names, with no [..], no [.] and no separator in
    them. *)
Theorem resolved_keys_stay_below_the_root storageKey p :
  resolveMutationStoragePath storageKey = Ok p -> p <> [] /\ Forall isEntryName p.
Proof. intros (H1 & H2 & _)%resolve_keyPath. done. Qed.

Lemma resolved_keys_stay_below_the_root_witness :
  exists p, resolveMutationStoragePath "files/../files/u1//a.txt" = Ok p /\
    (p <> [] /\ Forall isEntryName p).
Proof.
  destruct (resolveMutationStoragePath "files/../files/u1//a.txt") as [p|e] eqn:E.
  - exists p. split; [done|]. refine (resolved_keys_stay_below_the_root _ p E).
  - vm_compute in E. discriminate E.
Defined.
