(* ===== verification/StorageLayout.v ===== *)
(** * Names and storage keys

    [apps/web/server/files/storage-layout.ts] and the keys of
    [apps/web/server/storage.ts]: the names users may give, the path of a folder as
    the names from its root down, and the storage key of every folder and file,
    live or in the trash.

    Strings are UTF-8, so a character below 128 is one byte; letters are folded as
    in ASCII, which is all that the reserved names and the known extensions need. *)

From Stdlib Require Import Ascii.
From Stdlib Require String.
From S2P Require Import Prelude JsValues Disk StoragePaths.

(** ** Letters *)

Definition upperLetter (c : ascii) : ascii :=
  let n := nat_of_ascii c in
  if (97 <=? n)%nat && (n <=? 122)%nat then ascii_of_nat (n - 32) else c.
Definition lowerLetter (c : ascii) : ascii :=
  let n := nat_of_ascii c in
  if (65 <=? n)%nat && (n <=? 90)%nat then ascii_of_nat (n + 32) else c.
Definition mapLetters (f : ascii -> ascii) (s : string) : string :=
  String.string_of_list_ascii (f <$> String.list_ascii_of_string s).
Definition toUpperCase : string -> string := mapLetters upperLetter.
Definition toLowerCase : string -> string := mapLetters lowerLetter.

(** ** Segments *)

Inductive SegmentKind := file_segment | folder_segment.
Inductive SegmentError := required | invalidCharacter | tooLong | trailingSpaceOrDot | reserved.
#[export] Instance SegmentError_eq_dec : EqDecision SegmentError.
Proof. solve_decision. Defined.

Definition segmentErrorCodes (kind : SegmentKind) (e : SegmentError) : string :=
  match kind, e with
  | file_segment, required => "FILE_NAME_REQUIRED"
  | file_segment, invalidCharacter => "FILE_NAME_INVALID_CHARACTER"
  | file_segment, tooLong => "FILE_NAME_TOO_LONG"
  | file_segment, trailingSpaceOrDot => "FILE_NAME_TRAILING_SPACE_OR_DOT"
  | file_segment, reserved => "FILE_NAME_RESERVED"
  | folder_segment, required => "FOLDER_NAME_REQUIRED"
  | folder_segment, invalidCharacter => "FOLDER_NAME_INVALID_CHARACTER"
  | folder_segment, tooLong => "FOLDER_NAME_TOO_LONG"
  | folder_segment, trailingSpaceOrDot => "FOLDER_NAME_TRAILING_SPACE_OR_DOT"
  | folder_segment, reserved => "FOLDER_NAME_RESERVED"
  end.

Definition reservedWindowsNames : list string :=
  ["CON"; "PRN"; "AUX"; "NUL"; "COM1"; "COM2"; "COM3"; "COM4"; "COM5"; "COM6"; "COM7"; "COM8";
   "COM9"; "LPT1"; "LPT2"; "LPT3"; "LPT4"; "LPT5"; "LPT6"; "LPT7"; "LPT8"; "LPT9"; "."; ".."].

(** [invalidSegmentCharacters]; 34 is the double quote. *)
Definition invalidSegmentCharacters : list ascii :=
  [ascii_of_nat 0; backslash; slash; "<"%char; ">"%char; ":"%char; ascii_of_nat 34; "|"%char;
   "?"%char; "*"%char].

Definition maxFilesystemComponentBytes : nat := 255.

Definition findSegmentError (rawValue value : string) : option SegmentError :=
  if bool_decide (String.length value = 0)%nat then Some required
  else if existsb (fun c => hasChar c value) invalidSegmentCharacters then Some invalidCharacter
  else if bool_decide (maxFilesystemComponentBytes < String.length value)%nat then Some tooLong
  else if match last (String.list_ascii_of_string rawValue) with
          | Some c => bool_decide (c ∈ [" "%char; "."%char])
          | None => false
          end then Some trailingSpaceOrDot
  else if bool_decide (toUpperCase (nth 0 (splitOn "." value) value) ∈ reservedWindowsNames)
       then Some reserved
  else None.

(** The code of the [FilesError] that is thrown. *)
Definition validateSegment (rawValue : string) (kind : SegmentKind) : result string string :=
  let value := trim rawValue in
  match findSegmentError rawValue value with
  | Some e => Throw (segmentErrorCodes kind e)
  | None => Ok value
  end.

Definition normalizeFolderName (value : string) : result string string :=
  validateSegment value folder_segment.
Definition normalizeFileName (value : string) : result string string :=
  validateSegment value file_segment.

(** What a name that is taken can be: one entry of a directory, unless it is a
    dot or two, with something else than a space or a dot at its end that [trim]
    removed. *)
Lemma segment_taken rawValue kind value :
  validateSegment rawValue kind = Ok value ->
  value <> "" /\ hasChar slash value = false /\ (String.length value <= 255)%nat /\
  forall c, last (String.list_ascii_of_string rawValue) = Some c -> c <> "."%char /\ c <> " "%char.
Proof.
  unfold validateSegment. destruct (findSegmentError _ _) as [e|] eqn:E; [done|].
  intros [= <-]. revert E. generalize (trim rawValue). intros v. unfold findSegmentError.
  case_bool_decide as Hl; [done|]. destruct (existsb _ _) eqn:Ex; [done|].
  case_bool_decide as Hlen; [done|]. destruct (last _) as [c|] eqn:Ec.
  2:{ intros _. split_and!; [by intros ->| |unfold maxFilesystemComponentBytes in *; lia|done].
      by apply not_true_iff_false; intros Hs; apply not_true_iff_false in Ex; apply Ex;
        apply existsb_exists; exists slash; split; [vm_compute; auto|]. }
  case_bool_decide as Hc; [done|]. intros _. split_and!.
  - by intros ->.
  - apply not_true_iff_false. intros Hs. apply not_true_iff_false in Ex. apply Ex.
    apply existsb_exists. exists slash. split; [vm_compute; auto|done].
  - unfold maxFilesystemComponentBytes in *. lia.
  - intros d [= <-]. split; intros ->; apply Hc; repeat constructor.
Qed.

(** The reserved names "." and ".." are never found: a value is looked up by what
    stands before its first dot. *)
Definition newline : string := String (ascii_of_nat 10) "".

Example parent_segment_is_accepted : normalizeFolderName (".." +:+ newline) = Ok "..".
Proof. reflexivity. Qed.
Example trailing_dot_is_accepted : normalizeFileName ("report." +:+ newline) = Ok "report.".
Proof. reflexivity. Qed.

(** ** Keys *)

(** [path.posix.join]. *)
Definition posixJoin (parts : list string) : string :=
  match filter (fun part => part <> "") parts with
  | [] => "."
  | parts => posixNormalize (joinWith "/" parts)
  end.

Definition getUserFilesRootStorageKey (storageId : string) : string := posixJoin ["files"; storageId].

Definition getActiveFolderStorageKey (storageId : string) (folderPathSegments : list string) : string :=
  posixJoin (getUserFilesRootStorageKey storageId :: folderPathSegments).
Definition getActiveCommittedStorageKey (storageId : string) (folderPathSegments : list string)
    (fileName : string) : string :=
  posixJoin (getUserFilesRootStorageKey storageId :: folderPathSegments ++ [fileName]).

(** ** The name of something in the trash *)

(** The characters of a string: a first byte with its continuation bytes. *)
Definition isContinuation (c : ascii) : bool :=
  let n := nat_of_ascii c in (128 <=? n)%nat && (n <? 192)%nat.
Fixpoint utf8Characters (s : string) : list string :=
  match s with
  | EmptyString => []
  | String c rest =>
      match utf8Characters rest with
      | (String d _ as character) :: others =>
          if isContinuation d then String c character :: others
          else String c "" :: character :: others
      | others => String c "" :: others
      end
  end.

Fixpoint takeCharacters (characters : list string) (maxBytes : Z) : string :=
  match characters with
  | [] => ""
  | character :: rest =>
      let bytes := Z.of_nat (String.length character) in
      if bool_decide (maxBytes < bytes)%Z then ""
      else character +:+ takeCharacters rest (maxBytes - bytes)
  end.
Definition takeUtf8Bytes (value : string) (maxBytes : Z) : string :=
  takeCharacters (utf8Characters value) maxBytes.

(** [path.posix.extname] of a name without a slash. *)
Definition extname (name : string) : string :=
  match lastIndexOf "." name with
  | None | Some O => ""
  | Some dot => if bool_decide (name = "..") then "" else sliceFrom dot name
  end.

Definition truncateStorageComponentName (name : string) (maxBytes : Z) (preserveExtension : bool) :
    string :=
  if bool_decide (Z.of_nat (String.length name) <= maxBytes)%Z then name
  else
    let extension := if preserveExtension then extname name else "" in
    let extensionBytes := Z.of_nat (String.length extension) in
    if negb (bool_decide (extension = "")) && bool_decide (extensionBytes < maxBytes)%Z
    then takeUtf8Bytes (String.substring 0 (String.length name - String.length extension) name)
           (maxBytes - extensionBytes) +:+ extension
    else takeUtf8Bytes name maxBytes.

(** [BigInt("0x" + id.replaceAll("-", ""))]: it throws on anything but digits. *)
Definition hexDigit (c : ascii) : option Z :=
  let n := Z.of_nat (nat_of_ascii c) in
  if bool_decide (48 <= n <= 57)%Z then Some (n - 48)%Z
  else if bool_decide (97 <= n <= 102)%Z then Some (n - 87)%Z
  else if bool_decide (65 <= n <= 70)%Z then Some (n - 55)%Z
  else None.
Fixpoint hexNumber (acc : Z) (digits : list ascii) : option Z :=
  match digits with
  | [] => Some acc
  | c :: rest => digit ← hexDigit c; hexNumber (acc * 16 + digit)%Z rest
  end.
Definition uuidNumber (uuid : string) : option Z :=
  match filter (fun c => c <> "-"%char) (String.list_ascii_of_string uuid) with
  | [] => None
  | digits => hexNumber 0 digits
  end.

Definition replaceChar (from : ascii) (to : string) (s : string) : string :=
  joinWith to (splitOn from s).

(** The time as a name may hold it; an ISO time has one [T] and one [Z]. *)
Definition trashTimestamp (deletedAt : Z) : string :=
  replaceChar "Z" " UTC" (replaceChar ":" "-" (replaceChar "T" " " (toISOString deletedAt))).

Definition buildIsolatedTrashStorageKey (ownerStorageId : string) (kind : SegmentKind)
    (name : string) (deletedAt : Z) (trashEntryId : string) : option string :=
  number ← uuidNumber trashEntryId;
  let collisionSuffix := " (" +:+ numberString number +:+ ")" in
  let prefix := trashTimestamp deletedAt +:+ " - " in
  let isFile := match kind with file_segment => true | folder_segment => false end in
  let safeName := truncateStorageComponentName name
    (Z.of_nat maxFilesystemComponentBytes - Z.of_nat (String.length prefix)
     - Z.of_nat (String.length collisionSuffix)) isFile in
  Some (posixJoin [".trash"; ownerStorageId; (if isFile then "files" else "folders");
                   prefix +:+ safeName +:+ collisionSuffix]).

Example trash_key :
  buildIsolatedTrashStorageKey "u1" file_segment "a.txt" 1785069296789
    "00000000-0000-5000-a000-00000000000f"
  = Some ".trash/u1/files/2026-07-26 12-34-56.789 UTC - a.txt (377800847844617685565455)".
Proof. by vm_compute. Qed.
Example truncated_name : truncateStorageComponentName "abcdef.txt" 7 true = "abc.txt".
Proof. by vm_compute. Qed.

(** ** Keys of plain names

    A key of names that are entries of directories is those names: joining and
    resolving it changes nothing. *)

Definition pathOfKey (storageKey : string) : path := resolveSegments (splitOn slash storageKey).

Definition keyOf (names : list string) : string := joinWith "/" names.

Lemma normalizeSegments_plain above kept names :
  Forall isEntryName names -> normalizeSegments above kept names = reverse names ++ kept.
Proof.
  revert kept. induction names as [|name names IH]; intros kept Hp; [done|].
  apply Forall_cons in Hp as [(He & Hd & Hdd & _) Hp]. cbn [normalizeSegments].
  rewrite !bool_decide_eq_false_2 by done. cbn [orb]. rewrite IH by done.
  by rewrite reverse_cons, <- app_assoc.
Qed.

Lemma splitOn_keyOf names :
  names <> [] -> Forall isEntryName names -> splitOn slash (keyOf names) = names.
Proof.
  intros Hne Hp. apply splitOn_join; [done|].
  eapply Forall_impl; [done|]. by intros x (_ & _ & _ & ?).
Qed.

Lemma pathOfKey_keyOf names : names <> [] -> Forall isEntryName names -> pathOfKey (keyOf names) = names.
Proof.
  intros Hne Hp. unfold pathOfKey, resolveSegments.
  by rewrite splitOn_keyOf, normalizeSegments_plain, app_nil_r, reverse_involutive.
Qed.

Lemma keyOf_cons name names : exists rest, keyOf (name :: names) = name +:+ rest.
Proof. apply joinWith_prefix_first. Qed.

Lemma last_app_string s t :
  t <> "" -> last (String.list_ascii_of_string (s +:+ t)) = last (String.list_ascii_of_string t).
Proof.
  intros Ht. assert (E : String.list_ascii_of_string (s +:+ t)
    = String.list_ascii_of_string s ++ String.list_ascii_of_string t).
  { induction s as [|a s IH]; [done|]. rewrite string_app_cons. cbn. by rewrite IH. }
  rewrite E. destruct t as [|a t]; [done|]. cbn. by rewrite last_app_cons.
Qed.

Lemma hasChar_elem_of c s : c ∈ String.list_ascii_of_string s -> hasChar c s = true.
Proof.
  induction s as [|a s IH]; cbn; [by intros ?%elem_of_nil|].
  intros [->|Hc]%elem_of_cons; apply orb_true_iff; [left; by apply bool_decide_eq_true|right; auto].
Qed.

Lemma endsWithSlash_name s name : isEntryName name -> endsWithSlash (s +:+ name) = false.
Proof.
  intros (He & _ & _ & Hs). unfold endsWithSlash. rewrite last_app_string by done.
  apply bool_decide_eq_false. intros Hl%last_Some_elem_of%hasChar_elem_of. congruence.
Qed.

Lemma keyOf_snoc names name :
  exists s, keyOf (names ++ [name]) = s +:+ name.
Proof.
  induction names as [|x names [s IH]]; [by exists ""|]. unfold keyOf in *. cbn [app].
  destruct (names ++ [name]) as [|y l] eqn:E; [by destruct names|].
  rewrite joinWith_cons_cons, IH. exists (x +:+ "/" +:+ s). by rewrite !string_app_assoc.
Qed.

Lemma posixNormalize_keyOf names :
  names <> [] -> Forall isEntryName names -> posixNormalize (keyOf names) = keyOf names.
Proof.
  intros Hne Hp. unfold posixNormalize.
  destruct names as [|first names]; [done|].
  pose proof (Forall_inv Hp) as (Hf & _ & _ & Hs).
  destruct (keyOf_cons first names) as [rest Hrest].
  assert (Hk : keyOf (first :: names) <> "").
  { rewrite Hrest. destruct first as [|a first]; [done|]. by rewrite string_app_cons. }
  assert (Hslash : startsWith "/" (keyOf (first :: names)) = false).
  { rewrite Hrest. unfold startsWith. destruct first as [|a first]; [done|].
    rewrite string_app_cons, prefix_cons. cbn in Hs. apply orb_false_elim in Hs as [Ha _].
    apply bool_decide_eq_false in Ha. rewrite bool_decide_eq_false_2; [done|].
    unfold slash in Ha. congruence. }
  assert (Hend : endsWithSlash (keyOf (first :: names)) = false).
  { destruct (exists_last (l := first :: names)) as (l & x & E); [done|].
    rewrite E in *. apply Forall_app in Hp as [_ Hx%Forall_inv].
    destruct (keyOf_snoc l x) as [s ->]. by apply endsWithSlash_name. }
  rewrite bool_decide_eq_false_2 by done. rewrite Hslash, Hend, splitOn_keyOf by done.
  rewrite normalizeSegments_plain, app_nil_r, reverse_involutive by done. fold (keyOf (first :: names)).
  rewrite bool_decide_eq_false_2 by done. cbn. by rewrite string_app_nil_l, string_app_nil_r.
Qed.

Lemma keyOf_app l names : l <> [] -> keyOf (keyOf l :: names) = keyOf (l ++ names).
Proof.
  intros Hl. destruct names as [|z names]; [by rewrite app_nil_r|]. unfold keyOf.
  rewrite joinWith_cons_cons. revert Hl. induction l as [|x [|y l] IH]; intros Hl; [done|done|].
  cbn [app] in *. rewrite (joinWith_cons_cons _ x y (l ++ _)), <- IH by done.
  by rewrite joinWith_cons_cons, !string_app_assoc.
Qed.

Lemma posixJoin_keyOf l names :
  l <> [] -> Forall isEntryName (l ++ names) -> posixJoin (keyOf l :: names) = keyOf (l ++ names).
Proof.
  intros Hl Hp. unfold posixJoin.
  assert (Hk : keyOf l <> "").
  { destruct l as [|x l]; [done|]. destruct (keyOf_cons x l) as [rest ->].
    cbn in Hp. apply Forall_cons in Hp as [(Hx & _) _]. destruct x; [done|]. by rewrite string_app_cons. }
  rewrite filter_cons_True by done.
  assert (E : filter (fun part => part <> "") names = names).
  { apply Forall_app in Hp as [_ Hp]. clear -Hp. induction Hp as [|x names (Hx & _) Hp IH]; [done|].
    by rewrite filter_cons_True, IH. }
  rewrite E. change (joinWith "/" (keyOf l :: names)) with (keyOf (keyOf l :: names)).
  rewrite keyOf_app by done. apply posixNormalize_keyOf; [|done]. by destruct l.
Qed.

Lemma getActiveFolderStorageKey_plain storageId segments :
  isEntryName storageId -> Forall isEntryName segments ->
  getActiveFolderStorageKey storageId segments = keyOf ("files" :: storageId :: segments).
Proof.
  intros Hi Hs. assert (Hf : isEntryName "files") by (by split_and!).
  unfold getActiveFolderStorageKey, getUserFilesRootStorageKey.
  change (posixJoin ["files"; storageId]) with (posixJoin (keyOf ["files"] :: [storageId])).
  assert (Hall : Forall isEntryName ("files" :: storageId :: segments)) by auto.
  rewrite (posixJoin_keyOf ["files"]); [|done|by apply (Forall_take _ 2) in Hall].
  by apply posixJoin_keyOf.
Qed.

Lemma getActiveCommittedStorageKey_plain storageId segments name :
  isEntryName storageId -> Forall isEntryName segments -> isEntryName name ->
  getActiveCommittedStorageKey storageId segments name
  = keyOf ("files" :: storageId :: segments ++ [name]).
Proof.
  intros Hi Hs Hn. change (getActiveCommittedStorageKey storageId segments name)
    with (getActiveFolderStorageKey storageId (segments ++ [name])).
  apply getActiveFolderStorageKey_plain; [done|]. apply Forall_app; split; [done|by constructor].
Qed.
