(* ===== verification/TreeManifest.v ===== *)
(** * Fingerprints of files and trees

    From [packages/db/src/storage-mutation-executor.ts]: the state of a path,
    the ancestors that must be directories, checksums of files and the manifest
    of a tree, with the checks a step makes of them before it acts. *)

From Stdlib Require Import Ascii.
From Stdlib Require String.
From S2P Require Import Prelude Database MutationMetadata Disk Io StoragePaths.

Open Scope Z_scope.

Section fingerprints.
Context `{Runtime}.

Definition ambiguous {A} (message : string) : Io A :=
  throwIo (StorageMutationAmbiguityError message).

(** ** The state of a path *)

Inductive PathType := type_file | type_directory | type_other.
#[local] Instance PathType_eq_dec : EqDecision PathType.
Proof. solve_decision. Defined.

Inductive PathState := missing | existing (type : PathType) (size : Z).

Definition exists' (state : PathState) : bool :=
  match state with existing _ _ => true | missing => false end.
Definition isType (type : PathType) (state : PathState) : bool :=
  match state with existing type' _ => bool_decide (type' = type) | missing => false end.

Definition stateOf (node : Node) : PathState :=
  match node with
  | NFile content => existing type_file (Z.of_nat (String.length content))
  | NDirectory => existing type_directory (entrySize node)
  | _ => existing type_other (entrySize node)
  end.

Definition pathState (candidate : path) : Io PathState :=
  catchIo (node ← fs (lstat candidate); mret (stateOf node))
    (fun error => match error with ErrnoException ENOENT => mret missing | _ => throwIo error end).

Definition isDirectory (node : Node) : bool :=
  match node with NDirectory => true | _ => false end.

(** [path.relative(root, real)] leaves the root. *)
Definition realEscapes (root real : path) : bool :=
  if decide (root ⊑ real) then
    let relative := joinWith "/" (drop (length root) real) in
    startsWith ".." relative || startsWith "/" relative
  else true.

(** The walk of [assertSafeStorageAncestors] over the segments before the last. *)
Fixpoint assertSafeAncestors (rootRealPath current : path) (segments : list string) : Io unit :=
  match segments with
  | [] => mret tt
  | segment :: rest =>
      let current := current ++ [segment] in
      state ← pathState current;
      if negb (exists' state) then mret tt
      else
        info ← fs (lstat current);
        _ ← assertIo (isDirectory info)
              (StorageMutationAmbiguityError "Mutation path has unsafe non-directory ancestor.");
        currentRealPath ← fs (realpath current);
        _ ← assertIo (negb (realEscapes rootRealPath currentRealPath))
              (StorageMutationAmbiguityError
                 "Mutation path ancestor resolves outside storage root.");
        assertSafeAncestors rootRealPath current rest
  end.

Definition assertSafeStorageAncestors (candidate : path) : Io unit :=
  rootRealPath ← fs (realpath []);
  assertSafeAncestors rootRealPath [] (take (pred (length candidate)) candidate).

(** ** Checksums *)

(** The reads of [computeFileSha256]: what was hashed so far, and what is left
    of the file. The buffer grows once a file fills it. *)
Fixpoint hashReads (fuel : nat) (bufferLength : Z) (rest hashed : string) : option string :=
  match fuel with
  | O => None
  | S fuel =>
      let bytesRead := Z.min bufferLength (Z.of_nat (String.length rest)) in
      if bytesRead =? 0 then Some (sha256 hashed)
      else
        let hashed := hashed +:+ sliceTo (Z.to_nat bytesRead) rest in
        let bufferLength :=
          if (bytesRead =? bufferLength) && (bufferLength <? 1024 * 1024)
          then 1024 * 1024 else bufferLength in
        hashReads fuel bufferLength (sliceFrom (Z.to_nat bytesRead) rest) hashed
  end.

Definition contentSha256 (content : string) : option string :=
  hashReads (S (String.length content)) (64 * 1024) content "".

(** The reads of an open file are one effect. *)
Definition computeFileSha256 (filePath : path) : Io string :=
  _ ← fs (openRead filePath);
  content ← fs (readAll filePath);
  match contentSha256 content with
  | Some checksum => mret checksum
  | None => throwIo (ErrnoException (errno_other "the reads of a file end"))
  end.

Definition requireStorageRegularFile (storageKey : string) : Io path :=
  candidate ← liftIo (resolveMutationStoragePath storageKey);
  _ ← assertSafeStorageAncestors candidate;
  state ← pathState candidate;
  _ ← assertIo (isType type_file state)
        (StorageMutationAmbiguityError "Cannot fingerprint missing or non-file storage entry.");
  mret candidate.

Definition calculateStorageFileChecksum (storageKey : string) : Io string :=
  candidate ← requireStorageRegularFile storageKey; computeFileSha256 candidate.

(** ** Tree manifests *)

(** [entries.sort((left, right) => ...)] by name. *)
Fixpoint insertEntry (e : string * Node) (l : list (string * Node)) : list (string * Node) :=
  match l with
  | [] => [e]
  | e' :: rest => if stringLess e'.1 e.1 then e' :: insertEntry e rest else e :: l
  end.
Definition sortEntries (l : list (string * Node)) : list (string * Node) :=
  foldr insertEntry [] l.

(** [path.posix.join(prefix, entry.name)] for the name of an entry. *)
Definition joinEntry (prefix name : string) : string :=
  if bool_decide (prefix = "") then name else prefix +:+ "/" +:+ name.

Definition directoryRecord (relative : string) : string := "D " +:+ relative.
Definition fileRecord (relative : string) (size : Z) (checksum : string) : string :=
  "F " +:+ relative +:+ " " +:+ numberString size +:+ " " +:+ checksum.

(** The records of one entry of a directory; [visit] reads a directory below. *)
Definition entryRecords (visit : path -> string -> Io (list string)) (directoryPath : path)
    (prefix name : string) (node : Node) : Io (list string) :=
  let relative := joinEntry prefix name in
  let entryPath := directoryPath ++ [name] in
  match node with
  | NSymlink => ambiguous "Tree manifest contains symbolic link."
  | NDirectory => below ← visit entryPath relative; mret (directoryRecord relative :: below)
  | NFile _ =>
      info ← fs (lstat entryPath);
      checksum ← computeFileSha256 entryPath;
      mret [fileRecord relative
              (match stateOf info with existing _ size => size | missing => 0 end) checksum]
  | NOther => ambiguous "Tree manifest contains unsupported node."
  end.

Fixpoint visitEntries (visit : path -> string -> Io (list string)) (directoryPath : path)
    (prefix : string) (es : list (string * Node)) : Io (list string) :=
  match es with
  | [] => mret []
  | (name, node) :: rest =>
      records ← entryRecords visit directoryPath prefix name node;
      more ← visitEntries visit directoryPath prefix rest;
      mret (records ++ more)
  end.

Fixpoint visitDirectory (fuel : nat) (directoryPath : path) (prefix : string) :
    Io (list string) :=
  match fuel with
  | O => throwIo (ErrnoException (errno_other "directories nest deeper than the disk has nodes"))
  | S fuel =>
      es ← fs (readdir directoryPath);
      visitEntries (visitDirectory fuel) directoryPath prefix (sortEntries es)
  end.

(** A tree is not deeper than the disk has nodes. *)
Definition readTreeManifestRecords (treeRoot : path) : Io (list string) :=
  fuel ← memory (fun w => size (dk_nodes (w_disk w)));
  visitDirectory fuel treeRoot "".

(** What [hash.update] is given: each record after its length in bytes. *)
Definition manifestPreimage (records : list string) : string :=
  foldr (fun record rest =>
    numberString (Z.of_nat (String.length record)) +:+ ":" +:+ record +:+ rest) "" records.

Definition hashTreeManifestRecords (records : list string) : string :=
  "v2:" +:+ sha256 (manifestPreimage records).

Definition newline : string := String "010" "".

Definition hashLegacyTreeManifestRecords (records : list string) : string :=
  sha256 (joinWith newline records).

Definition EMPTY_TREE_MANIFEST_DIGEST : string := hashTreeManifestRecords [].

Definition calculateTreeManifestDigest (treeRoot : path) : Io string :=
  records ← readTreeManifestRecords treeRoot; mret (hashTreeManifestRecords records).

Definition recordsMatch (expected : string) (records : list string) : bool :=
  bool_decide (expected = if startsWith "v2:" expected then hashTreeManifestRecords records
                          else hashLegacyTreeManifestRecords records).

Definition treeManifestMatches (treeRoot : path) (expected : string) : Io bool :=
  records ← readTreeManifestRecords treeRoot; mret (recordsMatch expected records).

(** ** Captured trees *)

Inductive CapturedEntry :=
| captured_directory (relativeKey : string)
| captured_file (relativeKey : string) (sizeBytes : Z) (checksum : string).

Definition relativeKey (e : CapturedEntry) : string :=
  match e with captured_directory key | captured_file key _ _ => key end.

(** [compareKeys(left, right) < 0]: segment by segment, a shorter key first. *)
Fixpoint keyPartsLess (left right : list string) : bool :=
  match left, right with
  | _, [] => false
  | [], _ :: _ => true
  | l :: lefts, r :: rights =>
      if stringLess l r then true else if stringLess r l then false
      else keyPartsLess lefts rights
  end.

Definition capturedLess (a b : CapturedEntry) : bool :=
  keyPartsLess (splitOn slash (relativeKey a)) (splitOn slash (relativeKey b)).

Fixpoint insertCaptured (e : CapturedEntry) (l : list CapturedEntry) : list CapturedEntry :=
  match l with
  | [] => [e]
  | e' :: rest => if capturedLess e' e then e' :: insertCaptured e rest else e :: l
  end.
Definition sortCaptured (l : list CapturedEntry) : list CapturedEntry :=
  foldr insertCaptured [] l.

Definition capturedRecord (e : CapturedEntry) : string :=
  match e with
  | captured_directory key => directoryRecord key
  | captured_file key sizeBytes checksum => fileRecord key sizeBytes checksum
  end.

Definition calculateCapturedTreeManifestDigest (entries : list CapturedEntry) : string :=
  hashTreeManifestRecords (capturedRecord <$> sortCaptured entries).

(** ** What a step expects of a node *)

Definition assertExpectedNodeExists (state : PathState) : Io unit :=
  assertIo (exists' state) (StorageMutationAmbiguityError "Expected mutation path missing.").

Definition nodeTypeOf (type : NodeType) : PathType :=
  match type with file_node => type_file | directory_node => type_directory end.

Definition assertExpectedNodeType (state : PathState) (step : Step) : Io unit :=
  assertIo (match in_expectedNodeType (sp_input step) with
            | Some type => isType (nodeTypeOf type) state
            | None => true
            end)
    (StorageMutationAmbiguityError "Mutation path has unexpected node type.").

Definition assertExpectedNodeSize (state : PathState) (step : Step) : Io unit :=
  assertIo (match in_expectedSizeBytes (sp_input step), state with
            | Some expected, existing _ size => bool_decide (size = expected)
            | Some _, missing => false
            | None, _ => true
            end)
    (StorageMutationAmbiguityError "Mutation path has unexpected size.").

(** A checksum or digest that is there and not empty. *)
Definition given (s : option string) : bool :=
  match s with Some (String _ _) => true | _ => false end.

Definition assertExpectedNodeChecksum (candidate : path) (state : PathState) (step : Step) :
    Io unit :=
  if negb (given (in_expectedChecksum (sp_input step))) then mret tt
  else
    checksum ←
      (if isType type_file state then c ← computeFileSha256 candidate; mret (Some c)
       else mret None);
    assertIo (bool_decide (checksum = lowerCase <$> in_expectedChecksum (sp_input step)))
      (StorageMutationAmbiguityError "Mutation path checksum differs from intent.").

Definition assertExpectedTreeManifest (candidate : path) (state : PathState) (step : Step) :
    Io unit :=
  match in_treeManifestDigest (sp_input step) with
  | None | Some EmptyString => mret tt
  | Some digest =>
      matches ← (if isType type_directory state then treeManifestMatches candidate digest
                 else mret false);
      assertIo (matches : bool)
        (StorageMutationAmbiguityError "Mutation tree differs from captured manifest.")
  end.

Definition validateExpectedNode (candidate : path) (step : Step) : Io unit :=
  state ← pathState candidate;
  _ ← assertExpectedNodeExists state;
  _ ← assertExpectedNodeType state step;
  _ ← assertExpectedNodeSize state step;
  _ ← assertExpectedNodeChecksum candidate state step;
  assertExpectedTreeManifest candidate state step.

End fingerprints.
