(* ===== verification/ExecutorSteps.v ===== *)
(** * Carrying one step of a mutation out on the disk

    From [packages/db/src/storage-mutation-executor.ts]: directories made and
    removed with their entries synced, and [applyRename], [applyMkdir] and
    [applyDelete], which a crashed worker's successor can call again. *)

From Stdlib Require Import Ascii.
From Stdlib Require String.
From S2P Require Import Prelude Database MutationMetadata MutationPrepare Journal Disk Io StoragePaths TreeManifest.

Open Scope Z_scope.

Section steps.
Context `{Runtime}.

(** ** Syncing *)

Definition syncHandle (handle : path) (label : string) : Io unit :=
  catchIo (fs (fsync handle))
    (fun error => throwIo (StorageFilesystemUnsupportedError
       ("Storage filesystem cannot sync " +:+ label +:+ ": " +:+ messageOf error))).

Definition syncDirectory (directoryPath : path) : Io unit :=
  _ ← fs (openRead directoryPath); syncHandle directoryPath "directory".
Definition syncFile (filePath : path) : Io unit :=
  _ ← fs (openRead filePath); syncHandle filePath "file".

(** [new Set(items.map(path.dirname))], in the order of first occurrence. *)
Definition parentsOf (items : list path) : list path :=
  foldl (fun parents item =>
    if bool_decide (dirname item ∈ parents) then parents else parents ++ [dirname item])
    [] items.

Definition syncParents (items : list path) : Io unit :=
  forEach (parentsOf items) syncDirectory.

(** ** Removing directories *)

Inductive ArtifactRemoval := removal_removed | removal_missing | removal_not_empty.
#[local] Instance ArtifactRemoval_eq_dec : EqDecision ArtifactRemoval.
Proof. solve_decision. Defined.

Definition removeArtifactDirectory (directory : path) : Io ArtifactRemoval :=
  catchIo
    (_ ← fs (rmdir directory);
     _ ← syncParents [directory];
     mret removal_removed)
    (fun error =>
       match error with
       | ErrnoException ENOENT => mret removal_missing
       | ErrnoException ENOTEMPTY => mret removal_not_empty
       | _ => throwIo error
       end).

(** The [while] loop: true when it left the artifact's root behind. Every turn
    goes one directory up. *)
Fixpoint removeArtifactsUp (fuel : nat) (artifactRoot current : path) : Io bool :=
  match fuel with
  | O => mret true
  | S fuel =>
      if bool_decide (artifactRoot ⊑ current) then
        removal ← removeArtifactDirectory current;
        if bool_decide (removal = removal_not_empty) then mret false
        else removeArtifactsUp fuel artifactRoot (dirname current)
      else mret true
  end.

(** True when the removal reached, and synced, the directory of the kind. *)
Definition removeEmptyArtifactAncestors (storageKey : string) (target : path) : Io bool :=
  owned ← liftIo (getOwnedArtifactRoot storageKey);
  match owned with
  | None => mret false
  | Some owned =>
      gone ← removeArtifactsUp (S (length target)) (oa_artifactRoot owned) (dirname target);
      if (gone : bool) then _ ← syncDirectory (oa_kindRoot owned); mret true
      else mret false
  end.

(** ** Making directories *)

Definition assertSafeDirectoryInfo (info : Node) (message : string) : Io unit :=
  assertIo (isDirectory info) (StorageMutationAmbiguityError message).

(** The segments of [target] below the root, or [None] when it is the root. *)
Definition getRelativeStorageDirectory (target : path) : Io (option (list string)) :=
  match target with
  | [] =>
      info ← fs (lstat []);
      _ ← assertSafeDirectoryInfo info "Storage root is not a safe directory.";
      mret None
  | _ =>
      let relative := joinWith "/" target in
      _ ← assertIo (negb (startsWith ".." relative || startsWith "/" relative))
            (StorageMutationAmbiguityError "Mutation directory escapes storage root.");
      _ ← assertSafeStorageAncestors target;
      mret (Some target)
  end.

Definition unsafeAncestor : string := "Mutation path has unsafe non-directory ancestor.".

Definition ensureDurableDirectorySegment (current next : path) (beforeCreate : Io unit) :
    Io unit :=
  state ← pathState next;
  if exists' state then
    info ← fs (lstat next); assertSafeDirectoryInfo info unsafeAncestor
  else
    _ ← beforeCreate;
    _ ← catchIo (fs (mkdir next))
          (fun error =>
             match error with
             | ErrnoException EEXIST =>
                 info ← fs (lstat next); assertSafeDirectoryInfo info unsafeAncestor
             | _ => throwIo error
             end);
    _ ← syncDirectory next;
    syncDirectory current.

Fixpoint durableMkdirSegments (current : path) (segments : list string)
    (beforeCreate : Io unit) : Io unit :=
  match segments with
  | [] => mret tt
  | segment :: rest =>
      let next := current ++ [segment] in
      _ ← ensureDurableDirectorySegment current next beforeCreate;
      durableMkdirSegments next rest beforeCreate
  end.

Definition durableMkdirWithinRoot (target : path) (beforeCreate : Io unit) : Io unit :=
  relativeDirectory ← getRelativeStorageDirectory target;
  match relativeDirectory with
  | None => mret tt
  | Some segments => durableMkdirSegments [] segments beforeCreate
  end.

(** ** Renames *)

Definition stepSource (step : Step) : string := default "" (in_sourceKey (sp_input step)).
Definition stepTarget (step : Step) : string := default "" (in_targetKey (sp_input step)).

Definition assertRenamePaths (step : Step) : Io unit :=
  assertIo (given (in_sourceKey (sp_input step)) && given (in_targetKey (sp_input step)))
    (StorageMutationAmbiguityError "Rename step lacks source or target.").

Definition assertRenameStepIntent (step : Step) : Io unit :=
  _ ← assertRenamePaths step;
  match in_expectedNodeType (sp_input step) with
  | None => ambiguous "Rename step lacks a supported node fingerprint."
  | Some file_node =>
      assertIo (given (in_expectedChecksum (sp_input step)))
        (StorageMutationAmbiguityError "File rename lacks a captured checksum.")
  | Some directory_node =>
      assertIo (given (in_treeManifestDigest (sp_input step)))
        (StorageMutationAmbiguityError "Directory rename lacks a captured tree manifest.")
  end.

Record RenameState := {
  rn_source : path; rn_target : path; rn_sourceState : PathState
}.

Definition resolveRenameState (step : Step) : Io RenameState :=
  source ← liftIo (resolveMutationStoragePath (stepSource step));
  target ← liftIo (resolveMutationStoragePath (stepTarget step));
  _ ← assertSafeStorageAncestors source;
  _ ← assertSafeStorageAncestors target;
  sourceState ← pathState source;
  targetState ← pathState target;
  _ ← assertIo (negb (exists' sourceState && exists' targetState))
        (StorageMutationAmbiguityError "Both rename source and target exist.");
  _ ← assertIo (exists' sourceState || exists' targetState)
        (StorageMutationAmbiguityError "Both rename source and target are missing.");
  mret {| rn_source := source; rn_target := target; rn_sourceState := sourceState |}.

Definition syncRenameSource (source : path) (state : PathState) : Io unit :=
  if isType type_file state then syncFile source
  else if isType type_directory state then syncDirectory source
  else mret tt.

Definition applyRename (step : Step) (assertLease : Io unit) : Io unit :=
  _ ← assertRenameStepIntent step;
  paths ← resolveRenameState step;
  let source := rn_source paths in
  let target := rn_target paths in
  if negb (exists' (rn_sourceState paths)) then validateExpectedNode target step
  else
    _ ← validateExpectedNode source step;
    _ ← syncRenameSource source (rn_sourceState paths);
    _ ← syncDirectory (dirname source);
    _ ← durableMkdirWithinRoot (dirname target) assertLease;
    _ ← assertLease;
    _ ← fs (rename source target);
    syncParents [source; target].

(** ** Directories *)

Definition applyMkdir (step : Step) (assertLease : Io unit) : Io unit :=
  _ ← assertIo (given (in_targetKey (sp_input step)))
        (StorageMutationAmbiguityError "Mkdir step lacks target.");
  _ ← assertIo (given (in_treeManifestDigest (sp_input step)))
        (StorageMutationAmbiguityError
           "Mkdir step lacks a captured empty-directory manifest.");
  target ← liftIo (resolveMutationStoragePath (stepTarget step));
  _ ← assertSafeStorageAncestors target;
  state ← pathState target;
  _ ← assertIo (negb (exists' state) || isType type_directory state)
        (StorageMutationAmbiguityError "Mkdir target has unexpected node type.");
  _ ← (if negb (exists' state) then durableMkdirWithinRoot target assertLease
       else
         matches ← treeManifestMatches target
                     (default "" (in_treeManifestDigest (sp_input step)));
         assertIo matches
           (StorageMutationAmbiguityError
              "Existing mkdir target is not the captured empty directory."));
  syncDirectory target.

(** ** Deletions *)

Definition deleteMutationFile (target : path) (step : Step) (assertLease : Io unit) : Io unit :=
  _ ← assertIo (given (in_expectedChecksum (sp_input step)))
        (StorageMutationAmbiguityError "File-delete step lacks a captured checksum.");
  _ ← validateExpectedNode target step;
  _ ← assertLease;
  fs (rm target).

Definition deleteMutationTree (target : path) (state : PathState) (step : Step)
    (assertLease : Io unit) (allowOwnedPartialTreeDelete : bool) : Io unit :=
  _ ← assertIo (isType type_directory state)
        (StorageMutationAmbiguityError "Tree-delete target is not directory.");
  _ ← assertIo (given (in_treeManifestDigest (sp_input step)))
        (StorageMutationAmbiguityError "Tree-delete step lacks captured manifest.");
  matches ← treeManifestMatches target (default "" (in_treeManifestDigest (sp_input step)));
  _ ← assertIo (matches || allowOwnedPartialTreeDelete)
        (StorageMutationAmbiguityError "Tree-delete content differs from captured manifest.");
  _ ← assertLease;
  diskEffect (rmTree target) (fun tick d =>
    if tk_done tick then match rmTree target d with Ok (_, d') => d' | Throw _ => d end
    else rmTreePartly target (tk_deleted tick) d).

Definition removeMutationDirectory (target : path) (state : PathState) (assertLease : Io unit) :
    Io unit :=
  _ ← assertIo (isType type_directory state)
        (StorageMutationAmbiguityError "Empty-directory target is not directory.");
  _ ← assertLease;
  catchIo (fs (rmdir target))
    (fun error =>
       match error with
       | ErrnoException ENOTEMPTY =>
           ambiguous "Directory expected empty contains untracked entries."
       | _ => throwIo error
       end).

Definition deleteExistingMutationNode (target : path) (state : PathState) (step : Step)
    (assertLease : Io unit) (allowOwnedPartialTreeDelete : bool) : Io unit :=
  match in_action (sp_input step) with
  | delete_file_step => deleteMutationFile target step assertLease
  | delete_tree_step =>
      deleteMutationTree target state step assertLease allowOwnedPartialTreeDelete
  | _ => removeMutationDirectory target state assertLease
  end.

(** [step.targetKey ?? step.sourceKey]. *)
Definition deleteKey (step : Step) : option string :=
  match in_targetKey (sp_input step) with
  | Some key => Some key
  | None => in_sourceKey (sp_input step)
  end.

Definition applyDelete (step : Step) (assertLease : Io unit)
    (allowOwnedPartialTreeDelete : bool) : Io unit :=
  _ ← assertIo (given (deleteKey step))
        (StorageMutationAmbiguityError "Delete step lacks target.");
  let key := default "" (deleteKey step) in
  target ← liftIo (resolveMutationStoragePath key);
  _ ← assertSafeStorageAncestors target;
  state ← pathState target;
  if negb (exists' state) then
    sealed ← removeEmptyArtifactAncestors key target;
    if (sealed : bool) then mret tt else syncParents [target]
  else
    _ ← deleteExistingMutationNode target state step assertLease allowOwnedPartialTreeDelete;
    _ ← syncParents [target];
    _ ← removeEmptyArtifactAncestors key target;
    mret tt.

(** ** Choosing the step's work *)

Definition isCleanup (action : StorageMutationAction) : bool :=
  match action with
  | delete_file_step | delete_tree_step | remove_empty_directory_step => true
  | _ => false
  end.

(** The tree lies where this mutation itself put it: its deletion may have been
    cut short. *)
Definition isOwnedQuarantineTreeDelete (steps : list Step) (step : Step) :
    result IoError bool :=
  if negb (bool_decide (in_action (sp_input step) = delete_tree_step))
     || negb (given (in_targetKey (sp_input step)))
  then Ok false
  else
    normalized ← normalizeStorageKey (stepTarget step);
    let parts := splitOn slash normalized in
    if bool_decide (length parts < 3)%nat || negb (bool_decide (nth 0 parts "" = "tmp"))
       || negb (bool_decide (nth 1 parts "" = "quarantine"))
    then Ok false
    else Ok (existsb (fun candidate =>
           bool_decide (in_action (sp_input candidate) = rename_step)
           && bool_decide (in_targetKey (sp_input candidate) = in_targetKey (sp_input step))
           && bool_decide (sp_status candidate = step_applied)) steps).

Inductive Phase := forward | cleanup.
#[local] Instance Phase_eq_dec : EqDecision Phase.
Proof. solve_decision. Defined.

Definition shouldApplyStorageStep (step : Step) (phase : Phase) : bool :=
  negb (bool_decide (sp_status step = step_applied))
  && eqb (isCleanup (in_action (sp_input step))) (bool_decide (phase = cleanup)).

Definition applyFilesystemStep (step : Step) (assertLease : Io unit) : Io unit :=
  match in_action (sp_input step) with
  | rename_step => applyRename step assertLease
  | mkdir_step => applyMkdir step assertLease
  | _ =>
      steps ← memory w_steps;
      allowed ← liftIo (isOwnedQuarantineTreeDelete steps step);
      applyDelete step assertLease allowed
  end.

End steps.
