(* ===== verification/Executor.v ===== *)
(** * Executing a claimed mutation

    The rest of [packages/db/src/storage-mutation-executor.ts]: the phases of an
    execution with the calls of the journal between them, the undoing of forward
    steps before an abort, what is recorded of a failure, and the recovery of an
    interrupted cleanup. The wait in front of the metadata commit is the retry
    loop of [storage-transactions.ts]. *)

From Stdlib Require Import Ascii.
From Stdlib Require String.
From S2P Require Import Prelude Database MutationMetadata MutationPrepare StorageChanges Journal Disk Io StoragePaths TreeManifest ExecutorSteps.

Open Scope Z_scope.

Section executor.
Context `{Runtime}.

(** ** The calls of the journal *)

Definition renewLease (holder : Holder) : Io unit :=
  dbEffect (fun _ called _ _ => renewStorageMutationLease called STORAGE_MUTATION_LEASE_MS
    (hd_id holder) (hd_leaseOwner holder) (hd_leaseToken holder)).

Definition markApplied (holder : Holder) (step : Step) : Io unit :=
  dbEffect (fun locks _ now later => markStorageMutationStepApplied locks now later
    (hd_id holder) (sp_id step) (hd_leaseOwner holder) (hd_leaseToken holder)).

Definition markFailed (holder : Holder) (step : Step) (error : IoError) : Io unit :=
  dbEffect (fun locks _ now _ => markStorageMutationStepFailed locks now
    (hd_id holder) (sp_id step) (hd_leaseOwner holder) (hd_leaseToken holder)
    (messageOf error)).

Definition findStorageMutation (id : string) : Io (option Mutation) :=
  dbEffect (fun _ _ _ _ => read (fun db => db_mutations db !! id)).

(** ** The steps of a phase *)

(** [leaseFailure] is the worker's look at its timer, where it has one. *)
Definition assertLease (leaseFailure : World -> option IoError) (holder : Holder) : Io unit :=
  failure ← memory leaseFailure;
  match failure with
  | Some error => throwIo error
  | None => renewLease holder
  end.

Definition markedApplied (step : Step) : Step :=
  {| sp_id := sp_id step; sp_input := sp_input step; sp_status := step_applied;
     sp_attemptCount := sp_attemptCount step; sp_appliedAt := sp_appliedAt step;
     sp_lastError := sp_lastError step |}.

(** [step.status = "applied"] on the step the loop is at. *)
Definition rememberApplied (index : nat) : Io unit :=
  remember (fun w => set_memory (alter markedApplied index (w_steps w)) w).

Definition applyOneStep (holder : Holder) (phase : Phase) (lease : Io unit)
    (afterFilesystemStep : Step -> Io unit) (indexed : nat * Step) : Io unit :=
  let '(index, step) := indexed in
  if negb (shouldApplyStorageStep step phase) then mret tt
  else
    _ ← lease;
    _ ← catchIo (applyFilesystemStep step lease)
          (fun error => _ ← markFailed holder step error; throwIo error);
    _ ← afterFilesystemStep step;
    _ ← markApplied holder step;
    rememberApplied index.

Definition applyStorageMutationSteps (holder : Holder) (phase : Phase)
    (leaseFailure : World -> option IoError) (afterFilesystemStep : Step -> Io unit) : Io unit :=
  steps ← memory w_steps;
  forEach (imap pair steps)
    (applyOneStep holder phase (assertLease leaseFailure holder) afterFilesystemStep).

(** ** Waiting to be admitted *)

Definition ADMISSION_MS : Z := 5000.

(** [waiter.acquire()], which throws when too many requests wait already, and a
    pause; the tick of the effect says how much longer it took. *)
Definition pause (milliseconds : Z) : Io unit := fun w =>
  let '(tick, w) := nextTick (set_now (w_now w + milliseconds) w) in
  match tk_strike tick with
  | None => (Done tt, w)
  | Some killed => (Killed, w)
  | Some _ => (Failed (StorageException StorageAdmissionBusyError), w)
  end.

(** The least wait after the [attempt]th try: 50 ms doubled up to thrice, not
    past the deadline. The random part is time of the tick. *)
Definition admissionPause (attempt remaining : Z) : Z :=
  Z.min remaining (50 * 2 ^ Z.min attempt 3).

(** [retryStorageAdmission]: each turn but the last waits 50 ms or more, so that
    the turns of [ADMISSION_MS] are enough. *)
Fixpoint retryStorageAdmission {T} (fuel : nat) (attempt deadline : Z) (operation : Z -> Io T) :
    Io T :=
  match fuel with
  | O => throwIo (StorageException StorageAdmissionBusyError)
  | S fuel =>
      catchIo (operation deadline)
        (fun error =>
           if negb (bool_decide (error = StorageException StorageAdmissionBusyError))
           then throwIo error
           else
             now ← memory w_now;
             if deadline - now <=? 0 then throwIo error
             else
               _ ← pause (admissionPause attempt (deadline - now));
               now ← memory w_now;
               if deadline <=? now then throwIo error
               else retryStorageAdmission fuel (attempt + 1) deadline operation)
  end.

Definition admissionTurns : nat := 101.

(** [waitForStorageAdmission]: the turn in the owner's queue comes or does not. *)
Definition waitForStorageAdmission {T} (operation : Z -> Io T) : Io T :=
  _ ← catchIo (dbEffect (fun _ _ _ _ => mret tt))
        (fun _ => throwIo (StorageException StorageAdmissionBusyError));
  now ← memory w_now;
  retryStorageAdmission admissionTurns 0 (now + ADMISSION_MS) operation.

(** ** Executing *)

Record ExecuteInput (T : Type) := {
  ei_id : string;
  ei_mutation : Mutation;
  ei_leaseOwner : string;
  ei_leaseToken : Z;
  ei_commitMetadata : Tx T;
  ei_resultJson : T -> option Json;
  ei_hook : StorageMutationExecutionBoundary -> option Step -> Io unit
}.
Arguments ei_id {T} _.
Arguments ei_mutation {T} _.
Arguments ei_leaseOwner {T} _.
Arguments ei_leaseToken {T} _.
Arguments ei_commitMetadata {T} _.
Arguments ei_resultJson {T} _ _.
Arguments ei_hook {T} _ _ _.

Definition holderOf {T} (input : ExecuteInput T) : Holder :=
  {| hd_id := ei_id input; hd_leaseOwner := ei_leaseOwner input;
     hd_leaseToken := ei_leaseToken input |}.

(** [input.executionHook ?? (async () => undefined)]. *)
Definition noHook (boundary : StorageMutationExecutionBoundary) (step : option Step) : Io unit :=
  mret tt.

Definition resultJsonForCompletion {T} (input : ExecuteInput T) (result : T) : option Json :=
  match ei_resultJson input result with
  | Some current => Some current
  | None => mu_resultJson (ei_mutation input)
  end.

Definition commitMetadata {T} (input : ExecuteInput T) (deadline : Z) : Io T :=
  dbEffect (fun locks _ now later =>
    if deadline <=? now then throw StorageAdmissionBusyError
    else commitStorageMutationMetadata locks now later (ei_id input)
           (mu_ownerUserId (ei_mutation input)) (ei_leaseOwner input) (ei_leaseToken input)
           (ei_commitMetadata input) (ei_resultJson input)).

Definition beginFinalization (holder : Holder) : Io unit :=
  dbEffect (fun locks called now _ => beginStorageMutationFinalization locks called now
    (hd_id holder) (hd_leaseOwner holder) (hd_leaseToken holder)).

Definition completeMutation (holder : Holder) (resultJson : option Json) : Io unit :=
  dbEffect (fun locks _ now later => completeStorageMutation locks now later
    (hd_id holder) (hd_leaseOwner holder) (hd_leaseToken holder) resultJson).

Definition executeStorageMutationPhases {T} (input : ExecuteInput T)
    (leaseFailure : World -> option IoError) : Io T :=
  let holder := holderOf input in
  let afterFilesystemStep step := ei_hook input filesystem_step_applied (Some step) in
  _ ← applyStorageMutationSteps holder forward leaseFailure afterFilesystemStep;
  _ ← ei_hook input forward_steps_applied None;
  result ← waitForStorageAdmission (commitMetadata input);
  _ ← ei_hook input boundary_metadata_committed None;
  _ ← beginFinalization holder;
  _ ← ei_hook input finalization_started None;
  _ ← applyStorageMutationSteps holder cleanup leaseFailure afterFilesystemStep;
  _ ← ei_hook input cleanup_steps_applied None;
  _ ← completeMutation holder (resultJsonForCompletion input result);
  _ ← ei_hook input completed None;
  mret result.

(** ** Failures *)

Definition STORAGE_MUTATION_MAX_PRECOMMIT_ATTEMPTS : Z := 11.

Definition permanentRejectionOf (error : IoError) : option StorageMutationRejectionCode :=
  match error with
  | StorageException (StorageMutationRejectedError code) => Some code
  | ErrnoException ENAMETOOLONG => Some STORAGE_PATH_TOO_LONG
  | _ => None
  end.

(** A state of the disk or an intent that an operator has to look at. *)
Definition needsOperator (error : IoError) : bool :=
  match error with
  | StorageMutationAmbiguityError _ | StorageException (StorageMutationIntentError _) => true
  | _ => false
  end.

Definition mayAbort (error : IoError) (mutation : Mutation) : bool :=
  bool_decide (mu_parentId mutation = None) && isUserKind (mu_kind mutation)
  && negb (needsOperator error)
  && negb (bool_decide (error = StorageException StorageMutationFenceError)).

Definition abortReasonFor (error : IoError) (mutation : Mutation) :
    option StorageMutationRejectionCode :=
  if negb (mayAbort error mutation) then None
  else match permanentRejectionOf error with
       | Some rejection => Some rejection
       | None =>
           if STORAGE_MUTATION_MAX_PRECOMMIT_ATTEMPTS <=? at_count (mu_attempts mutation)
           then Some STORAGE_MUTATION_ABORTED else None
       end.

Definition removeUndoneDirectory (step : Step) : Io unit :=
  if negb (given (in_targetKey (sp_input step))) then mret tt
  else
    target ← liftIo (resolveMutationStoragePath (stepTarget step));
    _ ← assertSafeStorageAncestors target;
    result ← removeArtifactDirectory target;
    match result with
    | removal_not_empty =>
        ambiguous "Created directory gained entries before rollback."
    | _ => mret tt
    end.

(** [{ ...step, sourceKey: step.targetKey, targetKey: step.sourceKey }]. *)
Definition reversedStep (step : Step) : Step :=
  let input := sp_input step in
  {| sp_id := sp_id step;
     sp_input := {| in_action := in_action input; in_sourceKey := in_targetKey input;
                    in_targetKey := in_sourceKey input;
                    in_expectedNodeType := in_expectedNodeType input;
                    in_expectedSizeBytes := in_expectedSizeBytes input;
                    in_expectedChecksum := in_expectedChecksum input;
                    in_treeManifestDigest := in_treeManifestDigest input |};
     sp_status := sp_status step; sp_attemptCount := sp_attemptCount step;
     sp_appliedAt := sp_appliedAt step; sp_lastError := sp_lastError step |}.

Definition undoStep (lease : Io unit) (step : Step) : Io unit :=
  if negb (bool_decide (sp_status step = step_applied)) || isCleanup (in_action (sp_input step))
  then mret tt
  else match in_action (sp_input step) with
       | rename_step => applyRename (reversedStep step) lease
       | mkdir_step => _ ← lease; removeUndoneDirectory step
       | _ => mret tt
       end.

Definition undoForwardSteps (lease : Io unit) : Io unit :=
  steps ← memory w_steps;
  forEach (reverse steps) (undoStep lease).

Definition abortMutation (holder : Holder) (rejection : StorageMutationRejectionCode)
    (error : IoError) : Io unit :=
  dbEffect (fun locks _ now later => abortStorageMutation locks now later
    (hd_id holder) (hd_leaseOwner holder) (hd_leaseToken holder) rejection (messageOf error)).

Definition rollBackAndAbort (holder : Holder) (rejection : StorageMutationRejectionCode)
    (error : IoError) : Io bool :=
  current ← findStorageMutation (hd_id holder);
  match current with
  | Some current =>
      if bool_decide (mu_metadataCommittedAt current <> None)
         || negb (bool_decide (mu_status current = running))
      then mret false
      else
        _ ← undoForwardSteps (renewLease holder);
        _ ← abortMutation holder rejection error;
        mret true
  | None => mret false
  end.

Definition requireRecovery (holder : Holder) (message : string) : Io unit :=
  dbEffect (fun _ called _ _ => requireStorageMutationRecovery called (hd_id holder)
    (hd_leaseOwner holder) (hd_leaseToken holder) message).

Definition retryLater (holder : Holder) (message : string) : Io unit :=
  dbEffect (fun _ called _ _ => retryStorageMutation called (hd_id holder)
    (hd_leaseOwner holder) (hd_leaseToken holder) message).

Definition persistExecutionFailure (holder : Holder) (error : IoError) : Io unit :=
  if needsOperator error
  then ignoreErrors (requireRecovery holder (messageOf error))
  else ignoreErrors (retryLater holder (messageOf error)).

Definition tryAbortBeforeCommit {T} (input : ExecuteInput T) (error : IoError) :
    Io (option StorageMutationRejectionCode) :=
  match abortReasonFor error (ei_mutation input) with
  | None => mret None
  | Some rejection =>
      catchIo
        (aborted ← rollBackAndAbort (holderOf input) rejection error;
         mret (if (aborted : bool) then Some rejection else None))
        (fun undoError =>
           _ ← persistExecutionFailure (holderOf input) undoError; throwIo error)
  end.

Definition isAbrupt (error : IoError) : bool :=
  match error with StorageMutationAbruptInterruptionError _ => true | _ => false end.

(** [finally { clearInterval(timer) }]. *)
Definition clearInterval {T} (m : Io T) : Io T := fun w =>
  match m w with
  | (Killed, w') => (Killed, w')
  | (o, w') => (o, set_timer None w')
  end.

Definition executeClaimedStorageMutation {T} (input : ExecuteInput T) : Io T :=
  let holder := holderOf input in
  _ ← remember (fun w => set_memory (mu_steps (ei_mutation input))
                           (set_leaseFailure None (set_timer (Some holder) w)));
  clearInterval
    (catchIo (executeStorageMutationPhases input w_leaseFailure)
       (fun error =>
          if isAbrupt error then throwIo error
          else
            rejection ← tryAbortBeforeCommit input error;
            match rejection with
            | Some code => throwIo (StorageException (StorageMutationRejectedError code))
            | None =>
                _ ← persistExecutionFailure holder error; throwIo error
            end)).

(** ** Claiming *)

(** [claimStorageMutation({ id, leaseOwner })]: a transaction, and a read. *)
Definition claimMutation (id leaseOwner : string) : Io (option Mutation) :=
  claimed ← catchIo
    (dbEffect (fun locks called _ _ => runStorageTransaction
       (claimTransaction locks called STORAGE_MUTATION_LEASE_MS id leaseOwner (uniqueSorted []))))
    (fun error => match error with
                  | StorageException UniqueViolation => mret None
                  | _ => throwIo error
                  end);
  match claimed with
  | None => mret None
  | Some _ => mutation ← findStorageMutation id; mret (claimedBy leaseOwner mutation)
  end.

Definition claimAndExecuteStorageMutation {T} (mutationId leaseOwner : string)
    (commit : Tx T) (resultJson : T -> option Json)
    (hook : StorageMutationExecutionBoundary -> option Step -> Io unit) : Io T :=
  mutation ← claimMutation mutationId leaseOwner;
  match mutation with
  | None =>
      throwIo (StorageException
                 (StorageMutationConflictError STORAGE_MUTATION_IN_PROGRESS None))
  | Some mutation =>
      executeClaimedStorageMutation
        {| ei_id := mutationId; ei_mutation := mutation; ei_leaseOwner := leaseOwner;
           ei_leaseToken := ls_token (mu_lease mutation); ei_commitMetadata := commit;
           ei_resultJson := resultJson; ei_hook := hook |}
  end.

(** ** Recovering an interrupted cleanup *)

(** [claimStorageMutationFinalization]: three statements. *)
Definition claimFinalization (id leaseOwner : string) : Io (option Mutation) :=
  now ← memory w_now;
  claimed ← dbEffect (fun _ _ _ _ =>
    claimFinalizationRow now STORAGE_MUTATION_LEASE_MS id leaseOwner);
  match claimed with
  | None => mret None
  | Some token =>
      _ ← dbEffect (fun _ _ _ _ => releaseResources id (Some token) now);
      mutation ← findStorageMutation id;
      mret (claimedBy leaseOwner mutation)
  end.

Definition noLeaseFailure (w : World) : option IoError := None.

Definition recoverStorageMutationCleanup (mutationId leaseOwner : string) : Io bool :=
  claimed ← claimFinalization mutationId leaseOwner;
  match claimed with
  | None => mret false
  | Some mutation =>
      let holder := {| hd_id := mutationId; hd_leaseOwner := leaseOwner;
                       hd_leaseToken := ls_token (mu_lease mutation) |} in
      _ ← remember (set_memory (mu_steps mutation));
      catchIo
        (_ ← applyStorageMutationSteps holder cleanup noLeaseFailure (fun _ => mret tt);
         _ ← completeMutation holder (mu_resultJson mutation);
         mret true)
        (fun error => _ ← persistExecutionFailure holder error; throwIo error)
  end.

End executor.

#[global] Arguments ei_id {T} _.
#[global] Arguments ei_mutation {T} _.
#[global] Arguments ei_leaseOwner {T} _.
#[global] Arguments ei_leaseToken {T} _.
#[global] Arguments ei_commitMetadata {T} _.
#[global] Arguments ei_resultJson {T} _ _.
#[global] Arguments ei_hook {T} _ _ _.
