(* ===== verification/ManifestFacts.v ===== *)
(** * What fingerprints say

    The programs of [TreeManifest] only look at the disk. The manifest of a tree
    depends on nothing but what lies below its root, whatever the root is called
    and in whatever order directories list their entries; the chunked hash of a
    file is the hash of its bytes; the bytes hashed for a manifest determine its
    records. *)

From Stdlib Require Import Ascii.
From Stdlib Require String.
From S2P Require Import Prelude Database MutationMetadata Disk Io StoragePaths TreeManifest.

Open Scope Z_scope.

Lemma sliceTo_sliceFrom n s : sliceTo n s +:+ sliceFrom n s = s.
Proof.
  revert n. induction s as [|a s IH]; intros [|n]; cbn; try done.
  by rewrite string_app_cons, IH.
Qed.

Lemma length_sliceFrom n s : (String.length (sliceFrom n s) = String.length s - n)%nat.
Proof. revert n. induction s as [|a s IH]; intros [|n]; cbn; auto. Qed.

(** ** Directories list their entries in any order *)

Lemma NoDup_omap' {A B} (f : A -> option B) l :
  NoDup l -> (forall x y z, f x = Some z -> f y = Some z -> x = y) -> NoDup (omap f l).
Proof.
  intros Hl Hf. induction Hl as [|x l Hx Hl IH]; cbn; [constructor|].
  destruct (f x) as [z|] eqn:E; [|done]. constructor; [|done].
  intros (y & Hy & Ey)%list_elem_of_omap. by rewrite (Hf x y z) in Hx.
Qed.

Lemma NoDup_entries d p : NoDup (entries d p).
Proof.
  apply NoDup_omap'; [apply NoDup_map_to_list|].
  intros [q n] [q' n'] [name m]. cbn.
  destruct (entryName p q) eqn:E1, (entryName p q') eqn:E2; try done.
  apply entryName_spec in E1 as ->. apply entryName_spec in E2 as ->. naive_solver.
Qed.

Section orders.
Context `{RuntimeLaws}.

Lemma stringLess_antisym s t : stringLess s t = true -> stringLess t s = false.
Proof.
  intros H1. destruct (stringLess t s) eqn:H2; [|done].
  by rewrite <- (stringLess_irreflexive s), (stringLess_transitive s t s).
Qed.

Lemma stringLess_false s t : s <> t -> stringLess s t = false -> stringLess t s = true.
Proof. intros Hne Hf. destruct (stringLess_total s t) as [|[|]]; congruence. Qed.

Lemma insertEntry_comm a b l :
  a.1 <> b.1 -> insertEntry a (insertEntry b l) = insertEntry b (insertEntry a l).
Proof.
  assert (Hlt : forall a b l, stringLess a.1 b.1 = true ->
    insertEntry a (insertEntry b l) = insertEntry b (insertEntry a l)).
  { clear a b l. intros a b l Hab. pose proof (stringLess_antisym _ _ Hab) as Hba.
    induction l as [|c l IH]; cbn; [by rewrite Hba, Hab|].
    destruct (stringLess c.1 b.1) eqn:Ecb, (stringLess c.1 a.1) eqn:Eca;
      repeat (cbn; rewrite ?Hba, ?Hab, ?Ecb, ?Eca); [by rewrite IH|done| |done].
    by rewrite (stringLess_transitive c.1 a.1 b.1) in Ecb. }
  intros Hne. destruct (stringLess_total a.1 b.1) as [|[|]]; [done|by apply Hlt|].
  symmetry. by apply Hlt.
Qed.

Lemma sortEntries_permutation l l' :
  NoDup l.*1 -> l ≡ₚ l' -> sortEntries l = sortEntries l'.
Proof.
  intros Hnd Hp. unfold sortEntries. apply (foldr_permutation (=)); [by intros ? ? ? ->| |done].
  intros i a j b acc Hij Ha Hb. apply insertEntry_comm. intros E.
  apply Hij. eapply (NoDup_lookup l.*1); [done| |]; rewrite list_lookup_fmap.
  - by rewrite Ha.
  - rewrite Hb. cbn. by rewrite E.
Qed.
End orders.

Section manifest_facts.
Context `{Runtime}.

(** ** They only look *)

Lemma observes_ambiguous {A} message : observes (ambiguous message : Io A).
Proof. apply observes_throw. Qed.
#[local] Hint Resolve observes_ambiguous : observes.

Lemma look_pathState p d :
  look (pathState p) d = match lstat p d with
                         | Ok (n, _) => Done (stateOf n)
                         | Throw ENOENT => Done missing
                         | Throw e => Failed (ErrnoException e)
                         end.
Proof.
  unfold look, pathState, catchIo, mbind, Io_bind. rewrite fs_calm by done. cbn.
  destruct (lstat p d) as [[n d']|[]]; done.
Qed.

Lemma observes_pathState p : observes (pathState p).
Proof.
  assert (Hb : observes (node ← fs (lstat p); mret (stateOf node))) by eauto with observes.
  destruct Hb as (Hc & Hd & Hl & HJ). split_and!.
  - intros w Hw. unfold look, pathState, catchIo. rewrite !Hc by done. cbn.
    by destruct (look _ _) as [| [| |[]| | |] |].
  - intros w. specialize (Hd w). unfold pathState, catchIo.
    destruct ((node ← fs (lstat p); mret (stateOf node)) w) as [[s|[| |[]| | |]|] w']; done.
  - intros w s. rewrite look_pathState. unfold pathState, catchIo, mbind, Io_bind, fs, diskEffect.
    pose proof (nextTick_disk w) as Hn. destruct (nextTick w) as [tick w1]. cbn in Hn.
    rewrite <- Hn. destruct (tk_strike tick) as [[]|]; [done..|].
    destruct (lstat p (w_disk w1)) as [[n d']|[]]; cbn; congruence.
  - intros J w Hst Hw. specialize (HJ J w Hst Hw). unfold pathState, catchIo.
    destruct ((node ← fs (lstat p); mret (stateOf node)) w) as [[s|[| |[]| | |]|] w']; done.
Qed.
#[local] Hint Resolve observes_pathState : observes.

Lemma observes_assertSafeAncestors real current segments :
  observes (assertSafeAncestors real current segments).
Proof. revert current. induction segments as [|s rest IH]; intros current; cbn; eauto 15 with observes. Qed.
#[local] Hint Resolve observes_assertSafeAncestors : observes.

Lemma observes_assertSafeStorageAncestors p : observes (assertSafeStorageAncestors p).
Proof. unfold assertSafeStorageAncestors. eauto 10 with observes. Qed.
#[local] Hint Resolve observes_assertSafeStorageAncestors : observes.

Lemma observes_computeFileSha256 p : observes (computeFileSha256 p).
Proof. unfold computeFileSha256. eauto 10 with observes. Qed.
#[local] Hint Resolve observes_computeFileSha256 : observes.

Lemma observes_entryRecords visit directoryPath prefix name node :
  (forall p s, observes (visit p s)) ->
  observes (entryRecords visit directoryPath prefix name node).
Proof. intros Hv. unfold entryRecords. destruct node; eauto 15 with observes. Qed.
#[local] Hint Resolve observes_entryRecords : observes.

Lemma observes_visitEntries visit directoryPath prefix es :
  (forall p s, observes (visit p s)) -> observes (visitEntries visit directoryPath prefix es).
Proof.
  intros Hv. induction es as [|[name node] rest IH]; cbn; [eauto with observes|].
  eauto 10 with observes.
Qed.

Lemma observes_visitDirectory fuel p prefix : observes (visitDirectory fuel p prefix).
Proof.
  revert p prefix. induction fuel as [|fuel IH]; intros p prefix; cbn; [eauto with observes|].
  apply observes_bind; [eauto with observes|]. intros es. by apply observes_visitEntries.
Qed.
#[local] Hint Resolve observes_visitDirectory : observes.

Lemma observes_readTreeManifestRecords p : observes (readTreeManifestRecords p).
Proof.
  unfold readTreeManifestRecords. apply observes_bind; [|eauto with observes].
  apply (observes_disk (fun d => size (dk_nodes d))).
Qed.
#[local] Hint Resolve observes_readTreeManifestRecords : observes.

Lemma observes_treeManifestMatches p digest : observes (treeManifestMatches p digest).
Proof. unfold treeManifestMatches. eauto with observes. Qed.
#[local] Hint Resolve observes_treeManifestMatches : observes.

Lemma observes_assertExpectedNodeChecksum p state step :
  observes (assertExpectedNodeChecksum p state step).
Proof. unfold assertExpectedNodeChecksum. case_match; eauto 15 with observes. Qed.

Lemma observes_assertExpectedTreeManifest p state step :
  observes (assertExpectedTreeManifest p state step).
Proof.
  unfold assertExpectedTreeManifest. repeat case_match; eauto 15 with observes.
Qed.
#[local] Hint Resolve observes_assertExpectedNodeChecksum observes_assertExpectedTreeManifest
  : observes.

Lemma observes_validateExpectedNode p step : observes (validateExpectedNode p step).
Proof.
  unfold validateExpectedNode, assertExpectedNodeExists, assertExpectedNodeType,
    assertExpectedNodeSize. eauto 15 with observes.
Qed.

(** ** Hashing a file in pieces *)

Lemma hashReads_spec fuel bufferLength rest hashed :
  0 < bufferLength -> (String.length rest < fuel)%nat ->
  hashReads fuel bufferLength rest hashed = Some (sha256 (hashed +:+ rest)).
Proof.
  revert bufferLength rest hashed.
  induction fuel as [|fuel IH]; intros bufferLength rest hashed Hb Hf; [lia|]. cbn.
  case_match eqn:E.
  - apply Z.eqb_eq in E. destruct rest as [|a rest]; [by rewrite string_app_nil_r|].
    cbn [String.length] in E. lia.
  - apply Z.eqb_neq in E. rewrite IH.
    + by rewrite <- string_app_assoc, sliceTo_sliceFrom.
    + case_match; lia.
    + rewrite length_sliceFrom. lia.
Qed.

(** Reading a file piece by piece with a growing buffer hashes all its bytes. *)
Lemma contentSha256_spec content : contentSha256 content = Some (sha256 content).
Proof. unfold contentSha256. rewrite hashReads_spec; [by rewrite string_app_nil_l|lia..]. Qed.

Lemma look_computeFileSha256 d p content :
  wellFormed d -> nodeAt d p = Some (NFile content) ->
  look (computeFileSha256 p) d = Done (sha256 content).
Proof.
  intros Hwf Hp. unfold computeFileSha256.
  rewrite look_bind by eauto with observes. rewrite look_fs. unfold openRead.
  rewrite (proj2 (lstat_ok _ Hwf _ _ _) (conj Hp eq_refl)).
  rewrite look_bind by eauto with observes. rewrite look_fs. unfold readAll. rewrite Hp.
  by rewrite contentSha256_spec.
Qed.

(** ** A manifest depends on what lies below its root only *)

(** The same lies below [p] on [d] as below [p'] on [d']. *)
Definition sameBelow (d : Disk) (p : path) (d' : Disk) (p' : path) : Prop :=
  forall r, nodeAt d (p ++ r) = nodeAt d' (p' ++ r).

Lemma sameBelow_app d p d' p' q : sameBelow d p d' p' -> sameBelow d (p ++ q) d' (p' ++ q).
Proof. intros Hs r. rewrite <- !app_assoc. apply Hs. Qed.

Lemma sortEntries_same `{!RuntimeLaws} d p d' p' :
  sameBelow d p d' p' -> sortEntries (entries d p) = sortEntries (entries d' p').
Proof.
  intros Hs. apply sortEntries_permutation.
  - apply NoDup_fmap_fst; [|apply NoDup_entries].
    intros name n m Hn%elem_of_entries Hm%elem_of_entries. congruence.
  - apply NoDup_Permutation; [apply NoDup_entries..|]. intros [name n].
    by rewrite !elem_of_entries, Hs.
Qed.

Definition deeperThan (fuel : nat) (d : Disk) (p : path) : Prop :=
  forall r, nodeAt d (p ++ r) <> None -> (length r < fuel)%nat.

Lemma elem_of_sortEntries e l : e ∈ sortEntries l <-> e ∈ l.
Proof.
  assert (Hi : forall x l, insertEntry x l ≡ₚ x :: l).
  { intros x l'. induction l' as [|y l' IH]; cbn; [done|]. case_match; [|done].
    rewrite IH. apply perm_swap. }
  induction l as [|x l IH]; [done|]. cbn. rewrite (Hi x), !elem_of_cons. by rewrite IH.
Qed.

Lemma look_readdir d p :
  wellFormed d -> nodeAt d p = Some NDirectory ->
  look (fs (readdir p)) d = Done (entries d p).
Proof.
  intros Hwf Hp. rewrite look_fs. unfold readdir.
  by rewrite (proj2 (lstat_ok _ Hwf _ _ _) (conj Hp eq_refl)).
Qed.

Lemma look_lstat d p n :
  wellFormed d -> nodeAt d p = Some n -> look (fs (lstat p)) d = Done n.
Proof.
  intros Hwf Hp. rewrite look_fs. by rewrite (proj2 (lstat_ok _ Hwf _ _ _) (conj Hp eq_refl)).
Qed.

Lemma look_visitEntries_same visit visit' d d' p p' prefix es :
  wellFormed d -> wellFormed d' -> sameBelow d p d' p' ->
  (forall q s, observes (visit q s)) -> (forall q s, observes (visit' q s)) ->
  (forall name s, nodeAt d (p ++ [name]) = Some NDirectory ->
     look (visit (p ++ [name]) s) d = look (visit' (p' ++ [name]) s) d') ->
  (forall name n, (name, n) ∈ es -> nodeAt d (p ++ [name]) = Some n) ->
  look (visitEntries visit p prefix es) d = look (visitEntries visit' p' prefix es) d'.
Proof.
  intros Hwf Hwf' Hs Ho Ho' Hv. induction es as [|[name node] rest IH]; intros Hin; [done|].
  assert (Hn : nodeAt d (p ++ [name]) = Some node) by (apply Hin, list_elem_of_here).
  assert (Hn' : nodeAt d' (p' ++ [name]) = Some node) by by rewrite <- Hs.
  cbn. rewrite !look_bind by by apply observes_entryRecords.
  assert (E : look (entryRecords visit p prefix name node) d
            = look (entryRecords visit' p' prefix name node) d').
  { unfold entryRecords. destruct node as [content| | |]; [| |done..].
    - rewrite !look_bind by eauto with observes. rewrite !(look_lstat _ _ (NFile content)) by done.
      rewrite !look_bind by eauto with observes.
      by rewrite !(look_computeFileSha256 _ _ content) by done.
    - rewrite !look_bind by done. by rewrite Hv. }
  rewrite E. destruct (look (entryRecords visit' p' prefix name node) d'); [|done..].
  rewrite !look_bind by by apply observes_visitEntries.
  rewrite IH; [done|]. intros name' n' Hin'. by apply Hin, list_elem_of_further.
Qed.

Lemma look_visitDirectory_same `{!RuntimeLaws} fuel fuel' d d' p p' prefix :
  wellFormed d -> wellFormed d' -> sameBelow d p d' p' ->
  nodeAt d p = Some NDirectory -> deeperThan fuel d p -> deeperThan fuel' d' p' ->
  look (visitDirectory fuel p prefix) d = look (visitDirectory fuel' p' prefix) d'.
Proof.
  intros Hwf Hwf'. revert fuel' p p' prefix.
  induction fuel as [|fuel IH]; intros fuel' p p' prefix Hs Hp Hf Hf'.
  { specialize (Hf []). rewrite app_nil_r, Hp in Hf. specialize (Hf ltac:(done)). lia. }
  assert (Hp' : nodeAt d' p' = Some NDirectory).
  { specialize (Hs []). rewrite !app_nil_r in Hs. congruence. }
  destruct fuel' as [|fuel'].
  { specialize (Hf' []). rewrite app_nil_r, Hp' in Hf'. specialize (Hf' ltac:(done)). lia. }
  cbn. rewrite !look_bind by eauto with observes. rewrite !look_readdir by done.
  rewrite (sortEntries_same d p d' p') by done.
  apply look_visitEntries_same; try done; [by eauto with observes..| |].
  - intros name s Hn. apply IH; [by apply sameBelow_app|done|..];
      intros r Hr; rewrite <- app_assoc in Hr; [apply Hf in Hr|apply Hf' in Hr]; cbn in Hr; lia.
  - intros name n. rewrite elem_of_sortEntries, elem_of_entries. by rewrite Hs.
Qed.

(** A disk has a node for every directory on the way to a node. *)
Lemma disk_depth d p :
  wellFormed d -> deeperThan (size (dk_nodes d)) d p.
Proof.
  intros Hwf r Hr.
  assert (Hsub : list_to_set ((fun n => p ++ take n r) <$> seq 0 (S (length r)))
                 ⊆ dom (dk_nodes d)).
  { intros q. rewrite elem_of_list_to_set, list_elem_of_fmap. intros (n & -> & _).
    apply elem_of_dom, not_eq_None_Some. apply (wf_below _ Hwf _ (p ++ r)); [done|].
    apply prefix_app, prefix_take. }
  apply subseteq_size in Hsub. rewrite size_list_to_set, size_dom in Hsub.
  - rewrite length_fmap, length_seq in Hsub. lia.
  - apply NoDup_fmap_2_strong; [|apply NoDup_seq].
    intros n m Hn%elem_of_seq Hm%elem_of_seq E%(inj (app p))%(f_equal length).
    rewrite !length_take in E. lia.
Qed.

Lemma look_manifest_same `{!RuntimeLaws} d d' p p' :
  wellFormed d -> wellFormed d' -> sameBelow d p d' p' -> nodeAt d p = Some NDirectory ->
  look (readTreeManifestRecords p) d = look (readTreeManifestRecords p') d'.
Proof.
  intros Hwf Hwf' Hs Hp. unfold readTreeManifestRecords.
  rewrite !look_bind by apply (observes_disk (fun d => size (dk_nodes d))). cbn.
  apply look_visitDirectory_same; try done; by apply disk_depth.
Qed.

End manifest_facts.

#[export] Hint Resolve observes_ambiguous observes_pathState
  observes_assertSafeStorageAncestors observes_computeFileSha256 observes_readTreeManifestRecords
  observes_treeManifestMatches observes_validateExpectedNode
  observes_assertExpectedNodeChecksum observes_assertExpectedTreeManifest : observes.
