(* ===== verification/ManifestCapture.v ===== *)
(** * Captured manifests

    A mutation is planned from the entries the database lists below a folder
    ([calculateCapturedTreeManifestDigest]) and checked against what the disk
    holds ([calculateTreeManifestDigest]). The two agree exactly when the list
    describes the tree, in whatever order; and the bytes a digest hashes give
    its records back. *)

From Stdlib Require Import Ascii.
From Stdlib Require String.
From S2P Require Import Prelude Database MutationMetadata Disk Io StoragePaths TreeManifest ManifestFacts.

Open Scope Z_scope.

(** ** Decimal digits have no separator *)

Lemma hasChar_pretty_N c (x : N) :
  (forall n, (n < 10)%N -> pretty_N_char n <> c) -> hasChar c (pretty x) = false.
Proof.
  intros Hc.
  assert (Hgo : forall x s, hasChar c s = false -> hasChar c (pretty_N_go x s) = false).
  { clear x. intros x. induction (N.lt_wf_0 x) as [x _ IH]; intros s Hs.
    destruct (decide (x = 0)%N) as [->|]; [done|].
    rewrite pretty_N_go_step by lia. apply IH; [apply N.div_lt; lia|].
    cbn. rewrite Hs, orb_false_r. apply bool_decide_eq_false_2, Hc, N.mod_lt. done. }
  unfold pretty, pretty_N. case_decide; [|by apply Hgo].
  cbn. rewrite orb_false_r. by apply bool_decide_eq_false_2, (Hc 0%N).
Qed.

Lemma hasChar_numberString c z :
  (forall n, (n < 10)%N -> pretty_N_char n <> c) -> c <> "-"%char ->
  hasChar c (numberString z) = false.
Proof.
  intros Hc Hdash. destruct z as [|p|p]; unfold numberString, pretty, pretty_Z.
  - by apply (hasChar_pretty_N c 0).
  - by apply (hasChar_pretty_N c (Npos p)).
  - rewrite hasChar_app. apply orb_false_intro; [|by apply (hasChar_pretty_N c (Npos p))].
    cbn. rewrite orb_false_r. apply bool_decide_eq_false_2. congruence.
Qed.

(** What comes before the first separator, and after it. *)
Lemma first_separator c s s' t t' :
  hasChar c s = false -> hasChar c s' = false ->
  s +:+ String c t = s' +:+ String c t' -> s = s' /\ t = t'.
Proof.
  revert s'. induction s as [|a s IH]; intros [|b s'] Hs Hs'; cbn in Hs, Hs'.
  - intros E. rewrite !string_app_nil_l in E. by injection E.
  - intros E. rewrite string_app_nil_l, string_app_cons in E. injection E as -> _.
    by rewrite bool_decide_eq_true_2 in Hs'.
  - intros E. rewrite string_app_nil_l, string_app_cons in E. injection E as -> _.
    by rewrite bool_decide_eq_true_2 in Hs.
  - intros E. rewrite !string_app_cons in E. injection E as -> E.
    apply orb_false_elim in Hs as [_ Hs], Hs' as [_ Hs'].
    destruct (IH s' Hs Hs' E) as [-> ->]. done.
Qed.

Lemma string_app_inj_length s s' t t' :
  String.length s = String.length s' -> s +:+ t = s' +:+ t' -> s = s' /\ t = t'.
Proof.
  revert s'. induction s as [|a s IH]; intros [|b s'] Hl; try done.
  cbn in Hl. rewrite !string_app_cons. intros [= -> E].
  destruct (IH s' ltac:(lia) E) as [-> ->]. done.
Qed.

(** The bytes hashed for a version 2 digest determine its records: no two
    different lists of records, of any contents, are hashed alike before SHA-256
    is taken. *)
Theorem manifest_preimage_is_injective (records records' : list string) :
  manifestPreimage records = manifestPreimage records' -> records = records'.
Proof.
  revert records'.
  assert (Hne : forall r rs, manifestPreimage (r :: rs) <> "").
  { intros r rs E. cbn in E. apply (f_equal String.length) in E.
    rewrite !string_length_app in E. cbn in E. lia. }
  induction records as [|r rs IH]; intros [|r' rs'] E; [done| | |].
  - by destruct (Hne r' rs').
  - by destruct (Hne r rs).
  - assert (Hd : forall n, hasChar ":" (numberString n) = false).
    { intros n. apply hasChar_numberString; [|done]. intros d _. unfold pretty_N_char.
      by repeat case_match. }
    cbn in E. apply (first_separator ":" (numberString _) (numberString _) (r +:+ _)
      (r' +:+ _)) in E as [El E]; [|apply Hd..].
    apply (inj pretty) in El. apply string_app_inj_length in E as [-> E]; [|lia].
    by rewrite (IH rs' E).
Qed.

Lemma manifest_preimage_is_injective_witness :
  exists records, manifestPreimage records = "3:D a9:F a/b 1 c" /\
    (forall records', manifestPreimage records = manifestPreimage records' -> records = records').
Proof.
  exists ["D a"; "F a/b 1 c"]. split; [vm_compute; reflexivity|].
  intros records'. refine (manifest_preimage_is_injective _ records').
Defined.

Lemma StronglySorted_fmap_in {A B} (f : A -> B) (R1 : relation A) (R2 : relation B) l :
  (forall x y, x ∈ l -> y ∈ l -> R1 x y -> R2 (f x) (f y)) ->
  StronglySorted R1 l -> StronglySorted R2 (f <$> l).
Proof.
  intros Hf Hl. induction Hl as [|x l Hl IH Hall]; [constructor|]. rewrite fmap_cons. constructor.
  - apply IH. intros y z Hy Hz. apply Hf; by apply list_elem_of_further.
  - apply Forall_fmap, Forall_forall. intros y Hy. cbn. rewrite Forall_forall in Hall.
    apply Hf; [apply list_elem_of_here|by apply list_elem_of_further|by apply Hall].
Qed.

Lemma StronglySorted_NoDup {A} (R : relation A) l :
  (forall x, ~ R x x) -> StronglySorted R l -> NoDup l.
Proof.
  intros HR Hl. induction Hl as [|x l Hl IH Hall]; constructor; [|done].
  intros Hx. rewrite Forall_forall in Hall. by apply (HR x), Hall.
Qed.

(** ** The order of keys *)

Section key_order.
Context `{RuntimeLaws}.

Lemma keyPartsLess_irreflexive r : keyPartsLess r r = false.
Proof. induction r as [|s r IH]; cbn; [done|]. by rewrite stringLess_irreflexive. Qed.

Lemma keyPartsLess_transitive a b c :
  keyPartsLess a b = true -> keyPartsLess b c = true -> keyPartsLess a c = true.
Proof.
  revert b c. induction a as [|x a IH]; intros [|y b] [|z c]; cbn; try done.
  intros H1 H2. destruct (stringLess x y) eqn:Exy.
  - destruct (stringLess y z) eqn:Eyz.
    + by rewrite (stringLess_transitive x y z).
    + destruct (stringLess z y) eqn:Ezy; [done|].
      destruct (stringLess_total y z) as [->|[|]]; [by rewrite Exy|congruence..].
  - destruct (stringLess y x) eqn:Eyx; [done|].
    assert (x = y) as -> by (destruct (stringLess_total x y) as [|[|]]; congruence).
    destruct (stringLess y z) eqn:Eyz; [done|]. destruct (stringLess z y); [done|]. eauto.
Qed.

Lemma keyPartsLess_total a b : a = b \/ keyPartsLess a b = true \/ keyPartsLess b a = true.
Proof.
  revert b. induction a as [|x a IH]; intros [|y b]; cbn; auto.
  destruct (stringLess_total x y) as [->|[->|E]]; auto.
  - rewrite stringLess_irreflexive. destruct (IH b) as [->|[|]]; auto.
  - rewrite E. by destruct (stringLess x y); auto.
Qed.

(** The segments a key is compared by. *)
Definition keyParts (e : CapturedEntry) : list string := splitOn slash (relativeKey e).
Definition capturedBefore (a b : CapturedEntry) : Prop := capturedLess a b = true.

Lemma insertCaptured_permutation e l : insertCaptured e l ≡ₚ e :: l.
Proof.
  induction l as [|e' l IH]; cbn; [done|]. case_match; [|done]. rewrite IH. apply perm_swap.
Qed.

Lemma sortCaptured_permutation l : sortCaptured l ≡ₚ l.
Proof. induction l as [|e l IH]; cbn; [done|]. by rewrite insertCaptured_permutation, IH. Qed.

Lemma insertCaptured_sorted e l :
  keyParts e ∉ keyParts <$> l ->
  StronglySorted capturedBefore l -> StronglySorted capturedBefore (insertCaptured e l).
Proof.
  intros He Hl. induction Hl as [|e' l Hl IH Hall]; cbn; [by repeat constructor|].
  rewrite fmap_cons, not_elem_of_cons in He. destruct He as [Hne He].
  destruct (capturedLess e' e) eqn:E.
  - constructor; [by apply IH|]. rewrite insertCaptured_permutation. by constructor.
  - assert (Hlt : capturedLess e e' = true).
    { destruct (keyPartsLess_total (keyParts e) (keyParts e')) as [|[|Hlt]]; [done|done|].
      change (capturedLess e' e = true) in Hlt. congruence. }
    constructor; [by constructor|]. constructor; [done|].
    eapply Forall_impl; [done|]. intros x Hx. unfold capturedBefore, capturedLess in *.
    by eapply keyPartsLess_transitive.
Qed.

Lemma sortCaptured_sorted l :
  NoDup (keyParts <$> l) -> StronglySorted capturedBefore (sortCaptured l).
Proof.
  induction l as [|e l IH]; [constructor|]. rewrite fmap_cons, NoDup_cons. intros [He Hl].
  change (sortCaptured (e :: l)) with (insertCaptured e (sortCaptured l)).
  apply insertCaptured_sorted; [|by apply IH].
  intros (x & Hx & Hin)%list_elem_of_fmap. rewrite sortCaptured_permutation in Hin.
  apply He, list_elem_of_fmap. eauto.
Qed.

(** ** The tree in the order it is visited *)

(** What lies below [p], with its path relative to the tree. *)
Fixpoint treeList (fuel : nat) (d : Disk) (p rel : path) : list (path * Node) :=
  match fuel with
  | O => []
  | S fuel =>
      flat_map (fun e : string * Node =>
        (rel ++ [e.1], e.2)
        :: match e.2 with
           | NDirectory => treeList fuel d (p ++ [e.1]) (rel ++ [e.1])
           | _ => []
           end) (sortEntries (entries d p))
  end.

Definition capture (e : path * Node) : CapturedEntry :=
  match e.2 with
  | NFile content =>
      captured_file (joinWith "/" e.1) (Z.of_nat (String.length content)) (sha256 content)
  | _ => captured_directory (joinWith "/" e.1)
  end.

(** A tree of regular files and directories whose entries have proper names. *)
Definition plainTree (d : Disk) (p : path) : Prop :=
  forall r n, nodeAt d (p ++ r) = Some n ->
    Forall isEntryName r /\ match n with NFile _ | NDirectory => True | _ => False end.

Lemma plainTree_below d p name : plainTree d p -> plainTree d (p ++ [name]).
Proof.
  intros Hp r n. rewrite <- app_assoc. intros Hn. destruct (Hp _ _ Hn) as [Hf Hk].
  split; [|done]. by apply Forall_cons in Hf as [_ Hf].
Qed.

Lemma joinEntry_join rel name :
  Forall isEntryName rel -> joinEntry (joinWith "/" rel) name = joinWith "/" (rel ++ [name]).
Proof.
  intros Hr. unfold joinEntry. destruct rel as [|x rel]; [done|].
  assert (E : joinWith "/" (x :: rel) <> "").
  { destruct (joinWith_prefix_first x rel) as [rest ->]. intros E.
    apply Forall_cons in Hr as [(Hx & _) _]. by destruct x. }
  rewrite bool_decide_eq_false_2 by done. clear E Hr. revert x.
  induction rel as [|y rel IH]; intros x; [done|].
  cbn [app]. rewrite !joinWith_cons_cons, <- !string_app_assoc. by rewrite IH.
Qed.

Lemma look_visit_treeList fuel d p rel :
  wellFormed d -> nodeAt d p = Some NDirectory -> plainTree d p -> Forall isEntryName rel ->
  deeperThan fuel d p ->
  look (visitDirectory fuel p (joinWith "/" rel)) d
  = Done ((capturedRecord ∘ capture) <$> treeList fuel d p rel).
Proof.
  intros Hwf. revert p rel. induction fuel as [|fuel IH]; intros p rel Hp Hplain Hrel Hdeep.
  { specialize (Hdeep []). rewrite app_nil_r, Hp in Hdeep. specialize (Hdeep ltac:(done)). lia. }
  cbn [visitDirectory treeList]. rewrite look_bind by eauto with observes.
  rewrite look_readdir by done.
  assert (Hin : forall name n, (name, n) ∈ sortEntries (entries d p) ->
    nodeAt d (p ++ [name]) = Some n).
  { intros name n. by rewrite elem_of_sortEntries, elem_of_entries. }
  induction (sortEntries (entries d p)) as [|[name node] es IHes]; [done|].
  cbn [visitEntries flat_map]. rewrite look_bind.
  2:{ apply observes_entryRecords. intros. apply observes_visitDirectory. }
  assert (Hn := Hin name node ltac:(apply list_elem_of_here)).
  assert (E : look (entryRecords (visitDirectory fuel) p (joinWith "/" rel) name node) d
    = Done ((capturedRecord ∘ capture) <$>
        ((rel ++ [name], node) :: match node with
                                  | NDirectory => treeList fuel d (p ++ [name]) (rel ++ [name])
                                  | _ => []
                                  end))).
  { destruct (Hplain [name] node Hn) as [Hname Hkind].
    unfold entryRecords. rewrite joinEntry_join by done. destruct node as [content| | |]; [| |done..].
    - rewrite look_bind by eauto with observes. rewrite (look_lstat _ _ (NFile content)) by done.
      rewrite look_bind by eauto with observes.
      by rewrite (look_computeFileSha256 _ _ content) by done.
    - rewrite look_bind by apply observes_visitDirectory.
      rewrite IH; [done|done|by apply plainTree_below| |].
      + apply Forall_app. split; [done|]. done.
      + intros r Hr. rewrite <- app_assoc in Hr. apply Hdeep in Hr. cbn in Hr. lia. }
  rewrite E. rewrite look_bind.
  2:{ apply observes_visitEntries. intros. apply observes_visitDirectory. }
  rewrite IHes. 2:{ intros name' n' Hin'. by apply Hin, list_elem_of_further. }
  unfold look. cbn [fst]. by rewrite fmap_app.
Qed.

Lemma elem_of_treeList fuel d p rel q n :
  wellFormed d -> deeperThan fuel d p ->
  (q, n) ∈ treeList fuel d p rel <->
  exists name r, q = rel ++ name :: r /\ nodeAt d (p ++ name :: r) = Some n.
Proof.
  intros Hwf. revert p rel. induction fuel as [|fuel IH]; intros p rel Hdeep.
  { split; [by intros ?%elem_of_nil|]. intros (name & r & -> & Hn).
    specialize (Hdeep (name :: r) ltac:(congruence)). lia. }
  assert (Hd : forall name, deeperThan fuel d (p ++ [name])).
  { intros name r Hr. rewrite <- app_assoc in Hr. apply Hdeep in Hr. cbn in Hr. lia. }
  cbn [treeList]. rewrite list_elem_of_In, in_flat_map. split.
  - intros ([name node] & Hin & Hq). apply list_elem_of_In in Hin, Hq.
    rewrite elem_of_sortEntries, elem_of_entries in Hin. cbn [fst snd] in Hq.
    apply elem_of_cons in Hq as [[= -> ->]|Hq]; [by exists name, []|].
    destruct node; try (by apply elem_of_nil in Hq). apply IH in Hq as (name' & r & -> & Hn); [|done].
    exists name, (name' :: r). by rewrite <- app_assoc in *.
  - intros (name & r & -> & Hn).
    destruct (nodeAt d (p ++ [name])) as [node|] eqn:E.
    2:{ exfalso. apply (wf_below _ Hwf (p ++ [name]) (p ++ name :: r)); [congruence| |done].
        exists r. by rewrite <- app_assoc. }
    exists (name, node). split; apply list_elem_of_In.
    { by rewrite elem_of_sortEntries, elem_of_entries. }
    cbn [fst snd]. destruct r as [|name' r].
    { apply elem_of_cons. left. congruence. }
    apply elem_of_cons. right.
    assert (node = NDirectory) as ->.
    { enough (Some node = Some NDirectory) by congruence. rewrite <- E.
      apply (wf_ancestor _ Hwf (p ++ name :: name' :: r)); [congruence| |].
      - exists (name' :: r). by rewrite <- app_assoc.
      - intros Eq%(inj (app p)). by injection Eq. }
    apply IH; [done|]. exists name', r. by rewrite <- !app_assoc.
Qed.

Definition nameBefore (a b : string * Node) : Prop := stringLess a.1 b.1 = true.

Lemma insertEntry_permutation e l : insertEntry e l ≡ₚ e :: l.
Proof.
  induction l as [|e' l IH]; cbn; [done|]. case_match; [|done]. rewrite IH. apply perm_swap.
Qed.

Lemma sortEntries_sorted l : NoDup l.*1 -> StronglySorted nameBefore (sortEntries l).
Proof.
  induction l as [|e l IH]; [constructor|]. rewrite fmap_cons, NoDup_cons. intros [He Hl].
  change (sortEntries (e :: l)) with (insertEntry e (sortEntries l)).
  assert (He' : forall x, x ∈ sortEntries l -> x.1 <> e.1).
  { intros x Hx E. rewrite elem_of_sortEntries in Hx. apply He, list_elem_of_fmap.
    exists x. by rewrite E. }
  specialize (IH Hl). clear He Hl. induction IH as [|e' l' Hl' IH' Hall]; cbn; [by repeat constructor|].
  destruct (stringLess e'.1 e.1) eqn:E.
  - constructor; [apply IH'; intros x Hx; by apply He', list_elem_of_further|].
    rewrite insertEntry_permutation. by constructor.
  - assert (Hlt : stringLess e.1 e'.1 = true).
    { apply stringLess_false; [apply He', list_elem_of_here|done]. }
    constructor; [by constructor|]. constructor; [done|]. eapply Forall_impl; [done|].
    intros x Hx. unfold nameBefore in *. by eapply stringLess_transitive.
Qed.

Definition pathBefore (a b : path * Node) : Prop := keyPartsLess a.1 b.1 = true.

Lemma keyPartsLess_app rel a b : keyPartsLess (rel ++ a) (rel ++ b) = keyPartsLess a b.
Proof. induction rel as [|x rel IH]; cbn; [done|]. by rewrite stringLess_irreflexive. Qed.

Lemma treeList_sorted fuel d p rel :
  wellFormed d -> deeperThan fuel d p -> StronglySorted pathBefore (treeList fuel d p rel).
Proof.
  intros Hwf. revert p rel. induction fuel as [|fuel IH]; intros p rel Hdeep; [constructor|].
  assert (Hd : forall name, deeperThan fuel d (p ++ [name])).
  { intros name r Hr. rewrite <- app_assoc in Hr. apply Hdeep in Hr. cbn in Hr. lia. }
  cbn [treeList]. set (f := fun e : string * Node => _ :: _).
  assert (Hf : forall e a, a ∈ f e -> exists r, a.1 = rel ++ e.1 :: r).
  { intros [name node] [q n] Ha. unfold f in Ha. cbn [fst snd] in Ha.
    apply elem_of_cons in Ha as [[= -> _]|Ha]; [by exists []|].
    destruct node; try (by apply elem_of_nil in Ha).
    apply elem_of_treeList in Ha as (name' & r & -> & _); [|done..].
    exists (name' :: r). by rewrite <- app_assoc. }
  assert (Hs : forall e, StronglySorted pathBefore (f e)).
  { intros [name node]. unfold f. cbn [fst snd]. constructor.
    - destruct node; try constructor. by apply IH.
    - apply Forall_forall. intros [q n] Hq. destruct node; try (by apply elem_of_nil in Hq).
      apply elem_of_treeList in Hq as (name' & r & -> & _); [|done..].
      unfold pathBefore. cbn [fst]. rewrite <- app_assoc, keyPartsLess_app. cbn.
      by rewrite stringLess_irreflexive. }
  assert (Hes : StronglySorted nameBefore (sortEntries (entries d p))).
  { apply sortEntries_sorted, NoDup_fmap_fst; [|apply NoDup_entries].
    intros name n m Hn%elem_of_entries Hm%elem_of_entries. congruence. }
  clearbody f. induction Hes as [|e es Hes IHes Hall]; cbn [flat_map]; [constructor|].
  apply StronglySorted_app. split_and!; [|done|done].
  intros a b Ha Hb. apply list_elem_of_In, in_flat_map in Hb as (e' & He' & Hb).
  apply list_elem_of_In in He', Hb.
  destruct (Hf _ _ Ha) as [r Er], (Hf _ _ Hb) as [r' Er'].
  unfold pathBefore. rewrite Er, Er', keyPartsLess_app. cbn.
  rewrite Forall_forall in Hall. by rewrite (Hall e' He').
Qed.

Lemma keyParts_capture r n :
  r <> [] -> Forall isEntryName r -> keyParts (capture (r, n)) = r.
Proof.
  intros Hne Hr. unfold keyParts. assert (relativeKey (capture (r, n)) = joinWith "/" r) as ->.
  { by destruct n. }
  apply splitOn_join; [done|]. eapply Forall_impl; [done|]. by intros x (_ & _ & _ & ?).
Qed.

(** The list has an entry for everything that lies below the root, once. *)
Definition describes (d : Disk) (p : path) (captured : list CapturedEntry) : Prop :=
  NoDup captured /\
  forall e, e ∈ captured <->
    exists name r n, nodeAt d (p ++ name :: r) = Some n /\ e = capture (name :: r, n).

Lemma sortCaptured_treeList d p fuel captured :
  wellFormed d -> plainTree d p -> deeperThan fuel d p -> describes d p captured ->
  sortCaptured captured = capture <$> treeList fuel d p [].
Proof.
  intros Hwf Hplain Hdeep [Hnd Hin].
  assert (Hparts : forall a, a ∈ treeList fuel d p [] ->
    a.1 <> [] /\ nodeAt d (p ++ a.1) = Some a.2 /\ keyParts (capture a) = a.1).
  { intros [q n] Ha. apply elem_of_treeList in Ha as (name & r & -> & Hn); [|done..].
    split_and!; [done..|]. apply keyParts_capture; [done|]. by apply (Hplain _ n). }
  pose proof (treeList_sorted fuel d p [] Hwf Hdeep) as Hsorted.
  assert (Htree : StronglySorted capturedBefore (capture <$> treeList fuel d p [])).
  { apply (StronglySorted_fmap_in capture pathBefore); [|done].
    intros a b Ha Hb Hab. unfold capturedBefore, capturedLess.
    change (keyPartsLess (keyParts (capture a)) (keyParts (capture b)) = true).
    destruct (Hparts a Ha) as (_ & _ & ->), (Hparts b Hb) as (_ & _ & ->). done. }
  assert (Hmem : forall e, e ∈ captured <-> e ∈ capture <$> treeList fuel d p []).
  { intros e. rewrite Hin, list_elem_of_fmap. split.
    - intros (name & r & n & Hn & ->). exists (name :: r, n). split; [done|].
      apply elem_of_treeList; [done..|]. by exists name, r.
    - intros ([q n] & -> & Ha). apply elem_of_treeList in Ha as (name & r & -> & Hn); [|done..].
      by exists name, r, n. }
  assert (Hkeys : forall e e', e ∈ captured -> e' ∈ captured -> keyParts e = keyParts e' -> e = e').
  { intros e e' (a & -> & Ha)%Hmem%list_elem_of_fmap (b & -> & Hb)%Hmem%list_elem_of_fmap E.
    destruct (Hparts a Ha) as (_ & Hna & Ea), (Hparts b Hb) as (_ & Hnb & Eb).
    rewrite Ea, Eb in E. destruct a as [q n], b as [q' n']. cbn in *. subst q'.
    rewrite Hna in Hnb. by injection Hnb as ->. }
  apply (StronglySorted_unique_strong capturedBefore); [| |done|].
  - intros e e' _ _ H1 H2. unfold capturedBefore, capturedLess in *.
    pose proof (keyPartsLess_transitive _ _ _ H1 H2) as E. by rewrite keyPartsLess_irreflexive in E.
  - apply sortCaptured_sorted, NoDup_fmap_2_strong; [|done].
    intros e e' He He'. by apply Hkeys.
  - rewrite sortCaptured_permutation. apply NoDup_Permutation; [done| |done].
    apply (NoDup_fmap_1 keyParts). apply StronglySorted_NoDup with (R := fun a b => keyPartsLess a b = true).
    + intros a E. by rewrite keyPartsLess_irreflexive in E.
    + apply (StronglySorted_fmap_in keyParts capturedBefore); [|done]. by intros a b _ _.
Qed.

(** C40: the digest captured from a list that describes the tree below a folder,
    in any order, is the digest that walking the folder on the disk computes:
    the sort by key segments puts the records where the walk finds them. *)
Theorem captured_digest_is_the_digest_of_the_tree d p captured :
  wellFormed d -> nodeAt d p = Some NDirectory -> plainTree d p -> describes d p captured ->
  look (calculateTreeManifestDigest p) d = Done (calculateCapturedTreeManifestDigest captured).
Proof.
  intros Hwf Hp Hplain Hcap. unfold calculateTreeManifestDigest.
  rewrite look_bind by eauto with observes.
  unfold readTreeManifestRecords.
  rewrite look_bind by apply (observes_disk (fun d => size (dk_nodes d))).
  change (look (memory _) d) with (Done (size (dk_nodes d))). cbv iota beta.
  pose proof (disk_depth d p Hwf) as Hdeep.
  pose proof (look_visit_treeList (size (dk_nodes d)) d p [] Hwf Hp Hplain ltac:(constructor)
    Hdeep) as E. cbn [joinWith] in E. rewrite E. cbv iota beta.
  unfold calculateCapturedTreeManifestDigest.
  rewrite (sortCaptured_treeList d p (size (dk_nodes d))) by done.
  by rewrite list_fmap_compose.
Qed.
End key_order.
