(* ===== verification/StepFacts.v ===== *)
(** * What one step does to the disk

    Under every interleaving and fault, [applyRename] and [applyMkdir] leave the
    disk in one of few states: some missing directories on the way to the target
    are there, or the step is done. From any of these states an undisturbed run
    ends in the state that one undisturbed run from the start ends in. *)

From Stdlib Require Import Ascii.
From Stdlib Require String.
From S2P Require Import Prelude Database MutationMetadata MutationPrepare Journal Disk Io StoragePaths TreeManifest ManifestFacts ExecutorSteps.

Open Scope Z_scope.

(** ** Directories that were made *)

(** [d'] is [d] with some missing directories on the way to [p], [p] included. *)
Definition grown (p : path) (d d' : Disk) : Prop :=
  forall q, nodeAt d' q = nodeAt d q \/
            (nodeAt d q = None /\ q ⊑ p /\ nodeAt d' q = Some NDirectory).

Lemma grown_refl p d : grown p d d.
Proof. intros q. by left. Qed.

Lemma grown_trans p d1 d2 d3 : grown p d1 d2 -> grown p d2 d3 -> grown p d1 d3.
Proof.
  intros H1 H2 q. destruct (H1 q) as [E1|(E1 & Hq & E1')], (H2 q) as [E2|(E2 & Hq2 & E2')];
    naive_solver congruence.
Qed.

Lemma grown_Some p d d' q n : grown p d d' -> nodeAt d q = Some n -> nodeAt d' q = Some n.
Proof. intros H E. destruct (H q) as [->|(E' & _)]; congruence. Qed.

Lemma grown_outside p d d' q : grown p d d' -> ~ q ⊑ p -> nodeAt d' q = nodeAt d q.
Proof. intros H Hq. by destruct (H q) as [->|(_ & ? & _)]. Qed.

Lemma grown_weaken p q d d' : grown p d d' -> p ⊑ q -> grown q d d'.
Proof.
  intros H Hpq r. destruct (H r) as [E|(E & Hr & E')]; [by left|right].
  split_and!; [done|by etrans|done].
Qed.

(** [d] with every directory on the way to [p], [p] included. *)
Definition withDirectories (p : path) (m : gmap path Node) : gmap path Node :=
  m ∪ list_to_map ((fun q => (q, NDirectory)) <$> p :: ancestors p).

Lemma lookup_withDirectories p m q :
  withDirectories p m !! q =
  match m !! q with
  | Some n => Some n
  | None => if decide (q ⊑ p) then Some NDirectory else None
  end.
Proof.
  unfold withDirectories. rewrite lookup_union.
  assert (E : (list_to_map ((fun q => (q, NDirectory)) <$> p :: ancestors p) : gmap path Node) !! q
    = if decide (q ⊑ p) then Some NDirectory else None).
  { case_decide as Hq.
    - apply elem_of_list_to_map'.
      + intros x _ Hx. by apply list_elem_of_fmap in Hx as (? & [= _ ->] & _).
      + apply list_elem_of_fmap. exists q. split; [done|]. apply elem_of_cons.
        destruct (decide (q = p)); [by left|right]. by apply elem_of_ancestors.
    - apply not_elem_of_list_to_map_1. rewrite <- list_fmap_compose, list_elem_of_fmap.
      intros (x & -> & [->|[Hx _]%elem_of_ancestors]%elem_of_cons); by apply Hq. }
  rewrite E. destruct (m !! q) as [n|]; by destruct (decide (q ⊑ p)).
Qed.

Lemma grown_full p d d' :
  wellFormed d' -> grown p d d' -> nodeAt d' p = Some NDirectory ->
  dk_nodes d' = withDirectories p (dk_nodes d).
Proof.
  intros Hwf Hg Hp. apply map_eq. intros q. rewrite lookup_withDirectories.
  fold (nodeAt d' q) (nodeAt d q).
  destruct (Hg q) as [E|(-> & Hq & ->)]; [|by rewrite decide_True by done].
  rewrite E. destruct (nodeAt d q) eqn:E2; [done|]. case_decide as Hq; [|done].
  exfalso. apply (wf_below _ Hwf q p); [congruence|done|congruence].
Qed.

Lemma withDirectories_grown p d d' :
  grown p d d' -> withDirectories p (dk_nodes d') = withDirectories p (dk_nodes d).
Proof.
  intros Hg. apply map_eq. intros q. rewrite !lookup_withDirectories.
  fold (nodeAt d' q) (nodeAt d q).
  destruct (Hg q) as [->|(-> & Hq & ->)]; [done|]. by rewrite decide_True by done.
Qed.

(** Everything on the way to [p], [p] excluded, is a directory or missing. *)
Definition safeAncestors (d : Disk) (p : path) : Prop :=
  forall q, q ⊑ p -> q <> p -> nodeAt d q = Some NDirectory \/ nodeAt d q = None.

Lemma safeAncestors_grown p r d d' : grown r d d' -> safeAncestors d p -> safeAncestors d' p.
Proof.
  intros Hg Hs q Hq Hne. destruct (Hg q) as [->|(_ & _ & ->)]; [by apply Hs|by left].
Qed.

(** ** Looking at a path *)

Section step_facts.
Context `{Runtime}.

Lemma look_pathState_some d p n :
  wellFormed d -> nodeAt d p = Some n -> look (pathState p) d = Done (stateOf n).
Proof.
  intros Hwf Hp. rewrite look_pathState.
  by rewrite (proj2 (lstat_ok _ Hwf _ _ _) (conj Hp eq_refl)).
Qed.

Lemma look_pathState_none d p :
  nodeAt d p = None -> safeAncestors d p -> look (pathState p) d = Done missing.
Proof. intros Hp Hs. rewrite look_pathState. by rewrite lstat_missing. Qed.

Lemma exists'_stateOf n : exists' (stateOf n) = true.
Proof. by destruct n. Qed.

Lemma look_pathState_inv d p s :
  wellFormed d -> look (pathState p) d = Done s ->
  (s = missing /\ nodeAt d p = None) \/ (exists n, s = stateOf n /\ nodeAt d p = Some n).
Proof.
  intros Hwf. rewrite look_pathState. destruct (nodeAt d p) as [n|] eqn:E.
  - rewrite (proj2 (lstat_ok _ Hwf _ _ _) (conj E eq_refl)). intros [= <-]. right. eauto.
  - destruct (lstat p d) as [[n d']|[]] eqn:El; try done.
    + apply lstat_ok in El as [El _]; [congruence|done].
    + intros [= <-]. by left.
Qed.

Lemma look_assertSafeAncestors d real current segments u :
  wellFormed d -> nodeAt d current = Some NDirectory ->
  look (assertSafeAncestors real current segments) d = Done u ->
  forall q, q ⊑ segments -> nodeAt d (current ++ q) = Some NDirectory \/
                            nodeAt d (current ++ q) = None.
Proof.
  intros Hwf. revert current. induction segments as [|s rest IH]; intros current Hc Hl q Hq.
  { apply prefix_nil_inv in Hq as ->. rewrite app_nil_r. by left. }
  destruct q as [|s' q]; [rewrite app_nil_r; by left|].
  apply prefix_cons_inv_1 in Hq as Hs. apply prefix_cons_inv_2 in Hq. subst s'.
  cbn in Hl. rewrite look_bind in Hl by eauto with observes.
  destruct (look (pathState (current ++ [s])) d) as [state|e|] eqn:Es; [|done..].
  assert (Eapp : current ++ s :: q = (current ++ [s]) ++ q) by by rewrite <- app_assoc.
  apply look_pathState_inv in Es as [[-> Hn]|(n & -> & Hn)]; [| |done].
  - right. destruct (nodeAt d (current ++ s :: q)) eqn:E; [|done].
    exfalso. apply (wf_below _ Hwf (current ++ [s]) (current ++ s :: q)); [congruence| |done].
    rewrite Eapp. by exists q.
  - rewrite exists'_stateOf in Hl. cbn in Hl.
    rewrite look_bind in Hl by eauto with observes. rewrite (look_lstat _ _ n) in Hl by done.
    rewrite look_bind in Hl by eauto with observes.
    destruct n; cbn in Hl; try done.
    rewrite look_bind in Hl by eauto with observes.
    destruct (look (fs (realpath (current ++ [s]))) d) as [real'|e|]; [|done..].
    rewrite look_bind in Hl by eauto with observes.
    destruct (realEscapes real real'); [done|]. cbn in Hl.
    rewrite Eapp. by eapply IH.
Qed.

Lemma assertSafe_sound d p u :
  wellFormed d -> look (assertSafeStorageAncestors p) d = Done u -> safeAncestors d p.
Proof.
  intros Hwf Hl q Hq Hne. unfold assertSafeStorageAncestors in Hl.
  rewrite look_bind in Hl by eauto with observes.
  destruct (look (fs (realpath [])) d) as [real|e|]; [|done..].
  apply (look_assertSafeAncestors d real [] _ u Hwf (wf_root _ Hwf) Hl).
  apply prefix_dirname; done.
Qed.

Lemma look_realpath d p :
  wellFormed d -> nodeAt d p = Some NDirectory -> look (fs (realpath p)) d = Done p.
Proof.
  intros Hwf Hp. rewrite look_fs. unfold realpath.
  by rewrite (proj2 (lstat_ok _ Hwf _ _ _) (conj Hp eq_refl)).
Qed.

Lemma assertSafe_complete d p :
  wellFormed d -> keyPath p -> safeAncestors d p ->
  look (assertSafeStorageAncestors p) d = Done tt.
Proof.
  intros Hwf Hkey Hs. unfold assertSafeStorageAncestors.
  rewrite look_bind by eauto with observes. rewrite look_realpath by (done || by apply wf_root).
  fold (dirname p).
  assert (Hd : forall current segments, current ++ segments = dirname p ->
    look (assertSafeAncestors [] current segments) d = Done tt).
  { intros current segments. revert current.
    induction segments as [|s rest IH]; intros current E; [done|].
    assert (Hq : current ++ [s] ⊑ p).
    { etrans; [|apply dirname_prefix]. rewrite <- E. exists rest. by rewrite <- app_assoc. }
    assert (Hne : current ++ [s] <> p).
    { intros <-. destruct (dirname_case (current ++ [s])) as [E'|[x E']]; [by destruct current|].
      rewrite E' in E. apply (f_equal length) in E. rewrite dirname_app in E.
      apply (f_equal length) in E'. rewrite !length_app in *. cbn in *. lia. }
    cbn. rewrite look_bind by eauto with observes.
    destruct (Hs _ Hq Hne) as [Hn|Hn].
    - rewrite (look_pathState_some d _ NDirectory) by done. cbn.
      rewrite look_bind by eauto with observes. rewrite (look_lstat _ _ NDirectory) by done.
      rewrite look_bind by eauto with observes. cbn.
      rewrite look_bind by eauto with observes. rewrite look_realpath by done.
      rewrite look_bind by eauto with observes.
      destruct (keyPath_prefix p _ Hkey Hq) as [H1 H2]; [by destruct current|].
      unfold realEscapes. rewrite decide_True by apply prefix_nil. cbn [length].
      rewrite drop_0, H1, H2. cbn. apply IH. by rewrite <- app_assoc.
    - rewrite look_pathState_none; [done|done|].
      intros q Hq1 Hq2. apply Hs; [by etrans|]. intros ->. apply Hne.
      by apply (anti_symm prefix). }
  by apply Hd.
Qed.

(** ** Syncing *)

(** A predicate that does not ask what is synced. *)
Definition nodesOnly (P : Disk -> Prop) : Prop :=
  forall d d', dk_nodes d = dk_nodes d' -> P d -> P d'.

Lemma wellFormed_nodes d d' : dk_nodes d = dk_nodes d' -> wellFormed d -> wellFormed d'.
Proof.
  intros E [H1 H2]. unfold nodeAt in *. constructor; unfold nodeAt; by rewrite <- E.
Qed.

Lemma grown_nodes p d0 : nodesOnly (grown p d0).
Proof. intros d d' E Hg q. unfold nodeAt. rewrite <- E. apply Hg. Qed.

Section interleaved.
Context (J : World -> Prop) `{!Stable J}.

Lemma spec_syncHandle P p label : nodesOnly P -> spec J P (syncHandle p label) (fun _ => P) P.
Proof.
  intros HP. apply spec_catch.
  - apply spec_fs; [done|done|]. intros d a d' Hd [= _ <-]. split; by apply (HP d).
  - intros e. apply spec_throw.
Qed.

Lemma spec_syncDirectory P p : nodesOnly P -> spec J P (syncDirectory p) (fun _ => P) P.
Proof.
  intros HP. eapply spec_bind; [|intros ?; by apply spec_syncHandle].
  apply spec_looks_for; [apply _|apply openRead_looks|done|done].
Qed.

Lemma spec_syncFile P p : nodesOnly P -> spec J P (syncFile p) (fun _ => P) P.
Proof.
  intros HP. eapply spec_bind; [|intros ?; by apply spec_syncHandle].
  apply spec_looks_for; [apply _|apply openRead_looks|done|done].
Qed.

Lemma spec_syncParents P ps : nodesOnly P -> spec J P (syncParents ps) (fun _ => P) P.
Proof. intros HP. apply spec_forEach. intros p _. by apply spec_syncDirectory. Qed.

(** ** Making the directories on the way *)

Context (lease : Io unit) (Hlease : forall P, spec J P lease (fun _ => P) P).

Lemma spec_ensureSegment d0 target current next :
  next ⊑ target ->
  spec J (fun d => wellFormed d /\ grown target d0 d)
    (ensureDurableDirectorySegment current next lease)
    (fun _ d => (wellFormed d /\ grown target d0 d) /\ nodeAt d next = Some NDirectory)
    (fun d => wellFormed d /\ grown target d0 d).
Proof.
  intros Hnext. set (I := fun d => wellFormed d /\ grown target d0 d).
  assert (HI : nodesOnly (fun d => I d /\ nodeAt d next = Some NDirectory)).
  { intros d d' E [[Hwf Hg] Hn].
    split; [split; [by eapply wellFormed_nodes|by eapply grown_nodes]|].
    unfold nodeAt. by rewrite <- E. }
  assert (Hinfo : spec J I (info ← fs (lstat next); assertSafeDirectoryInfo info unsafeAncestor)
                    (fun _ d => I d /\ nodeAt d next = Some NDirectory) I).
  { eapply spec_bind; [apply spec_looks, lstat_looks; apply _|]. intros info.
    apply spec_assert_for; [naive_solver|]. intros d [Hd Hl] Hi. split; [done|].
    apply lstat_ok in Hl as [Hn _]; [|apply Hd]. by destruct info. }
  unfold ensureDurableDirectorySegment.
  apply (spec_bind J _ _ _ _ (fun _ => I)).
  { apply spec_observes_for; [apply _|apply observes_pathState|done|done]. }
  intros state. destruct (exists' state) eqn:Es; [done|].
  eapply spec_bind; [apply Hlease|]. intros _u. cbn beta.
  eapply spec_bind.
  { apply (spec_catch J _ _ _ (fun _ d => I d /\ nodeAt d next = Some NDirectory) I).
    - apply spec_fs; [done|done|].
      intros d a d' [Hwf Hg] Hm. assert (Hwf' : wellFormed d') by by eapply mkdir_wf.
      assert (Hg' : grown target d0 d').
      { eapply grown_trans; [done|]. intros q.
        destruct (mkdir_nodeAt next d a d' q Hm) as (Hn & _ & Eq).
        destruct (decide (q = next)) as [->|]; [right; by split_and!|by left]. }
      destruct (mkdir_nodeAt next d a d' next Hm) as (_ & _ & En).
      rewrite decide_True in En by done. done.
    - intros e. destruct e as [| |[]| | |]; try done; by apply spec_throw_for. }
  intros ?. set (N := fun d => I d /\ nodeAt d next = Some NDirectory).
  apply (spec_conseq J _ N _ (fun _ => N) _ N); [|done|done|by intros d [Hd _]].
  eapply spec_bind; [by apply spec_syncDirectory|]. intros ?. by apply spec_syncDirectory.
Qed.

Lemma spec_durableSegments d0 target current segments :
  current ++ segments ⊑ target ->
  spec J (fun d => (wellFormed d /\ grown target d0 d) /\ nodeAt d current = Some NDirectory)
    (durableMkdirSegments current segments lease)
    (fun _ d => (wellFormed d /\ grown target d0 d) /\
                nodeAt d (current ++ segments) = Some NDirectory)
    (fun d => wellFormed d /\ grown target d0 d).
Proof.
  revert current. induction segments as [|s rest IH]; intros current Hle; cbn.
  - apply spec_ret_for. by rewrite app_nil_r.
  - assert (E : current ++ s :: rest = (current ++ [s]) ++ rest) by by rewrite <- app_assoc.
    rewrite E in *. eapply spec_bind; [|intros ?; by apply IH].
    eapply spec_conseq; [apply (spec_ensureSegment d0 target)| | |done].
    + etrans; [|done]. by exists rest.
    + naive_solver.
    + done.
Qed.

(** However it ends, [durableMkdirWithinRoot] only makes missing directories on
    the way to its target; when it returns, they are all there. *)
Lemma spec_durableMkdir d0 target :
  spec J (fun d => wellFormed d /\ grown target d0 d)
    (durableMkdirWithinRoot target lease)
    (fun _ d => (wellFormed d /\ grown target d0 d) /\ nodeAt d target = Some NDirectory)
    (fun d => wellFormed d /\ grown target d0 d).
Proof.
  set (I := fun d => wellFormed d /\ grown target d0 d). unfold durableMkdirWithinRoot.
  apply (spec_bind J _ _ _ _ (fun r d =>
    r = match target with [] => None | _ => Some target end /\ I d)).
  - unfold getRelativeStorageDirectory. destruct target as [|s target].
    + eapply spec_bind; [apply spec_looks, lstat_looks; apply _|]. intros info.
      apply (spec_bind J _ _ _ _ (fun _ => I)); [apply spec_assert_for; naive_solver|].
      intros ?. by apply spec_ret_for.
    + apply (spec_bind J _ _ _ _ (fun _ => I)); [by apply spec_assert_for|]. intros ?.
      apply (spec_bind J _ _ _ _ (fun _ => I)).
      { by apply spec_observes_for; [apply _|apply observes_assertSafeStorageAncestors|..]. }
      intros ?. by apply spec_ret_for.
  - intros r. apply spec_pure. intros ->. destruct target as [|s target].
    + apply spec_ret_for. intros d Hd. split; [done|]. by apply wf_root, Hd.
    + eapply spec_conseq; [by apply (spec_durableSegments d0 (s :: target) [])| |done|done].
      intros d Hd. split; [done|]. by apply wf_root, Hd.
Qed.
End interleaved.

(** ** Undisturbed *)

Section undisturbed.
Context (L : World -> Prop) `{!Undisturbed L}.

Lemma finishes_looks (f : Call Node) (P : Disk -> Prop) n :
  (forall d, P d -> f d = Ok (n, d)) -> finishes L P (fs f) (fun m d => m = n /\ P d).
Proof. intros Hf. apply finishes_fs; [apply _|]. intros d Hd. exists n, d. by rewrite Hf. Qed.

Lemma finishes_sync (P : Disk -> Prop) p label :
  nodesOnly P -> (forall d, P d -> wellFormed d /\ nodeAt d p <> None) ->
  finishes L P (_ ← fs (openRead p); syncHandle p label) (fun _ => P).
Proof.
  intros HP Hn. apply (finishes_bind L _ _ _ _ (fun _ => P)).
  - apply finishes_fs; [apply _|]. intros d Hd. destruct (Hn d Hd) as [Hwf Hp].
    destruct (nodeAt d p) as [n|] eqn:E; [|done]. exists tt, d. split; [|done].
    unfold openRead. by rewrite (proj2 (lstat_ok _ Hwf _ _ _) (conj E eq_refl)).
  - intros _u. apply finishes_catch. apply finishes_fs; [apply _|]. intros d Hd.
    eexists _, _. split; [done|]. by apply (HP d).
Qed.

Lemma finishes_forEach {A} (xs : list A) (body : A -> Io unit) (P : Disk -> Prop) :
  (forall x, x ∈ xs -> finishes L P (body x) (fun _ => P)) ->
  finishes L P (forEach xs body) (fun _ => P).
Proof.
  induction xs as [|x xs IH]; intros Hx; cbn.
  - by apply finishes_ret_for.
  - eapply finishes_bind; [apply Hx, list_elem_of_here|]. intros ?. apply IH.
    intros y Hy. by apply Hx, list_elem_of_further.
Qed.

Lemma elem_of_parentsOf p ps : p ∈ parentsOf ps -> exists q, q ∈ ps /\ p = dirname q.
Proof.
  unfold parentsOf.
  assert (Hg : forall acc, (forall x, x ∈ acc -> exists q, q ∈ ps /\ x = dirname q) ->
    forall qs, (forall q, q ∈ qs -> q ∈ ps) ->
    p ∈ foldl (fun parents item =>
      if bool_decide (dirname item ∈ parents) then parents else parents ++ [dirname item]) acc qs ->
    exists q, q ∈ ps /\ p = dirname q).
  { intros acc Hacc qs. revert acc Hacc. induction qs as [|q qs IH]; intros acc Hacc Hqs; cbn.
    - apply Hacc.
    - apply IH; [|intros x Hx; by apply Hqs, list_elem_of_further].
      case_bool_decide; [done|]. intros x [Hx|Hx]%elem_of_app; [by apply Hacc|].
      apply list_elem_of_singleton in Hx as ->. exists q. split; [|done].
      apply Hqs, list_elem_of_here. }
  apply Hg; [|done]. intros x Hx. by apply elem_of_nil in Hx.
Qed.

Lemma finishes_syncParents (P : Disk -> Prop) ps :
  nodesOnly P -> (forall d p, P d -> p ∈ ps -> wellFormed d /\ nodeAt d (dirname p) <> None) ->
  finishes L P (syncParents ps) (fun _ => P).
Proof.
  intros HP Hn. apply finishes_forEach. intros p (q & Hq & ->)%elem_of_parentsOf.
  apply finishes_sync; [done|]. intros d Hd. by apply Hn.
Qed.

Context (lease : Io unit) (Hlease : forall P, finishes L P lease (fun _ => P)).

(** Nothing but directories is in the way to [p], [p] included. *)
Definition openPath (d : Disk) (p : path) : Prop :=
  forall q, q ⊑ p -> nodeAt d q = Some NDirectory \/ nodeAt d q = None.

Lemma openPath_grown p r d d' : grown r d d' -> openPath d p -> openPath d' p.
Proof. intros Hg Hs q Hq. destruct (Hg q) as [->|(_ & _ & ->)]; [by apply Hs|by left]. Qed.

Lemma openPath_safe d p : openPath d p -> safeAncestors d p.
Proof. intros Ho q Hq _. by apply Ho. Qed.

Lemma openPath_prefix d p q : openPath d p -> q ⊑ p -> openPath d q.
Proof. intros Ho Hq r Hr. apply Ho. by etrans. Qed.

Lemma finishes_ensureSegment d0 target current s :
  current ++ [s] ⊑ target -> openPath d0 target ->
  finishes L
    (fun d => (wellFormed d /\ grown target d0 d) /\ nodeAt d current = Some NDirectory)
    (ensureDurableDirectorySegment current (current ++ [s]) lease)
    (fun _ d => (wellFormed d /\ grown target d0 d) /\
                nodeAt d (current ++ [s]) = Some NDirectory).
Proof.
  intros Hnext Hopen. set (next := current ++ [s]) in *.
  set (I := fun d => (wellFormed d /\ grown target d0 d) /\ nodeAt d current = Some NDirectory).
  set (N := fun d => I d /\ nodeAt d next = Some NDirectory).
  assert (HN : nodesOnly N).
  { intros d d' E [[[Hwf Hg] Hc] Hn]. unfold N, I, nodeAt. rewrite <- E.
    split_and!; [by eapply wellFormed_nodes|by eapply grown_nodes|done|done]. }
  apply (finishes_conseq L _ I _ (fun _ => N)); [|done|by intros _ d [[? _] ?]].
  intros w HL Hw. pose proof Hw as [[Hwf Hg] Hc].
  assert (Ho : openPath (w_disk w) next) by (eapply openPath_prefix; [by eapply openPath_grown|done]).
  unfold ensureDurableDirectorySegment, mbind, Io_bind.
  destruct (observes_pathState next) as (Hp & _).
  rewrite Hp by by apply (undisturbed_calm w HL).
  destruct (Ho next) as [Hn|Hn]; [done| |].
  - rewrite (look_pathState_some _ _ NDirectory) by done. cbn.
    assert (Hf : finishes L N (info ← fs (lstat next); assertSafeDirectoryInfo info unsafeAncestor)
                   (fun _ => N)).
    { apply (finishes_bind L _ _ _ _ (fun info d => info = NDirectory /\ N d)).
      - apply finishes_looks. intros d [[[Hd _] _] Hnd]. by apply lstat_ok.
      - intros info. apply finishes_pure. intros ->. by apply finishes_assert. }
    by apply Hf.
  - rewrite look_pathState_none by (done || by apply openPath_safe). cbn.
    set (I0 := fun d => I d /\ nodeAt d next = None).
    assert (Hf : finishes L I0
      (_ ← lease;
       _ ← catchIo (fs (mkdir next))
             (fun error => match error with
              | ErrnoException EEXIST =>
                  info ← fs (lstat next); assertSafeDirectoryInfo info unsafeAncestor
              | _ => throwIo error end);
       _ ← syncDirectory next; syncDirectory current) (fun _ => N)); [|by apply Hf].
    eapply finishes_bind; [apply Hlease|]. intros _u.
    apply (finishes_bind L _ _ _ _ (fun _ => N)).
    { apply finishes_catch, finishes_fs; [apply _|]. intros d [[[Hd Hgd] Hcd] Hnd].
      assert (Hm : exists d', mkdir next d = Ok (tt, d')).
      { unfold mkdir. rewrite Hnd.
        assert (lookupError d next = None) as ->; [|by eexists].
        apply lookupError_None. intros q Hq Hne. apply prefix_dirname in Hq; [|done].
        unfold next in Hq. rewrite dirname_app in Hq.
        destruct (decide (q = current)) as [->|]; [done|].
        apply (wf_ancestor _ Hd current); [congruence|done..]. }
      destruct Hm as [d' Hm]. exists tt, d'. split; [done|].
      pose proof (fun q => mkdir_nodeAt next d tt d' q Hm) as Hq.
      split; [split; [split|]|].
      - by eapply mkdir_wf.
      - eapply grown_trans; [done|]. intros q. destruct (Hq q) as (_ & _ & Eq).
        destruct (decide (q = next)) as [->|]; [right; by split_and!|by left].
      - destruct (Hq current) as (_ & _ & ->). case_decide as Ec; [done|]. done.
      - destruct (Hq next) as (_ & _ & ->). by rewrite decide_True. }
    intros _u2. eapply finishes_bind; [|intros ?]; apply finishes_sync; try done.
    + intros d [[[Hd _] _] Hnd]. by rewrite Hnd.
    + intros d [[[Hd _] Hcd] _]. by rewrite Hcd.
Qed.

Lemma finishes_durableSegments d0 target current segments :
  current ++ segments ⊑ target -> openPath d0 target ->
  finishes L
    (fun d => (wellFormed d /\ grown target d0 d) /\ nodeAt d current = Some NDirectory)
    (durableMkdirSegments current segments lease)
    (fun _ d => (wellFormed d /\ grown target d0 d) /\
                nodeAt d (current ++ segments) = Some NDirectory).
Proof.
  intros Hle Hopen. revert current Hle. induction segments as [|s rest IH]; intros current Hle; cbn.
  - apply finishes_ret_for. intros d Hd. by rewrite app_nil_r.
  - assert (E : current ++ s :: rest = (current ++ [s]) ++ rest) by by rewrite <- app_assoc.
    rewrite E in *. eapply finishes_bind; [|intros ?; by apply IH].
    apply finishes_ensureSegment; [|done]. etrans; [|done]. by exists rest.
Qed.

Lemma finishes_durableMkdir d0 target :
  openPath d0 target -> (target = [] \/ exists p, keyPath p /\ target ⊑ p) ->
  finishes L (fun d => wellFormed d /\ grown target d0 d)
    (durableMkdirWithinRoot target lease)
    (fun _ d => wellFormed d /\ dk_nodes d = withDirectories target (dk_nodes d0)).
Proof.
  intros Hopen Hkey. set (I := fun d => wellFormed d /\ grown target d0 d).
  apply (finishes_conseq L _ I _
    (fun _ d => I d /\ nodeAt d target = Some NDirectory)); [|done|].
  2:{ intros _ d [[Hwf Hg] Ht]. split; [done|]. by apply grown_full. }
  unfold durableMkdirWithinRoot.
  apply (finishes_bind L _ _ _ _ (fun r d =>
    r = match target with [] => None | _ => Some target end /\ I d)).
  - unfold getRelativeStorageDirectory. destruct target as [|s target].
    + apply (finishes_bind L _ _ _ _ (fun info d => info = NDirectory /\ I d)).
      * apply finishes_looks. intros d [Hd _]. apply lstat_ok; [done|]. split; [|done].
        by apply wf_root.
      * intros info. apply finishes_pure. intros ->.
        eapply finishes_bind; [by apply finishes_assert|]. intros ?. by apply finishes_ret_for.
    + destruct Hkey as [?|(p & Hkp & Hle)]; [done|].
      destruct (keyPath_prefix p _ Hkp Hle) as [H1 H2]; [done|].
      eapply finishes_bind.
      { apply finishes_assert. intros _ _. by rewrite H1, H2. }
      intros ?. eapply finishes_bind.
      { apply finishes_observes with (a := tt); [apply _|apply observes_assertSafeStorageAncestors|].
        intros d [Hd Hg]. apply assertSafe_complete; [done| |].
        - destruct Hkp as (_ & Hf & _). split_and!; [done| |].
          + destruct Hle as [r ->]. by apply Forall_app in Hf as [Hf _].
          + unfold relativeEscapes. rewrite H1, H2.
            destruct (joinWith_prefix_first s target) as [t ->].
            rewrite bool_decide_eq_false_2; [done|]. intros E.
            destruct Hle as [r ->]. cbn [app] in Hf. apply Forall_cons in Hf as [(Hs & _) _].
            by destruct s.
        - apply openPath_safe. by eapply openPath_grown. }
      intros ?. apply finishes_ret_for. naive_solver.
  - intros r. apply finishes_pure. intros ->. destruct target as [|s target].
    + apply finishes_ret_for. intros d Hd. split; [done|]. by apply wf_root, Hd.
    + eapply finishes_conseq; [by apply (finishes_durableSegments d0 (s :: target) [])| |done].
      intros d Hd. split; [done|]. by apply wf_root, Hd.
Qed.
End undisturbed.
End step_facts.
