(* ===== verification/RenameFacts.v ===== *)
(** * Steps can be cut short and taken up again

    The states [applyRename] can leave the disk in, whatever happens to it, and
    that an undisturbed run takes any of them to the same end; and the same of a
    step that makes a directory. *)

From Stdlib Require Import Ascii.
From Stdlib Require String.
From S2P Require Import Prelude Database MutationMetadata MutationPrepare Journal Disk Io StoragePaths TreeManifest ExecutorSteps ManifestFacts StepFacts.

Open Scope Z_scope.

Section rename_facts.
Context `{Runtime}.

(** ** Fingerprints of moved nodes *)

Lemma look_assertIo b e d : look (assertIo b e) d = if b then Done tt else Failed e.
Proof. by destruct b. Qed.

Lemma look_ret {A} (a : A) d : look (mret a) d = Done a.
Proof. done. Qed.

(** Whether a node is the expected one depends on what lies below it only. *)
Lemma look_validate_same `{!RuntimeLaws} d d' p p' step :
  wellFormed d -> wellFormed d' -> sameBelow d p d' p' -> nodeAt d p <> None ->
  look (validateExpectedNode p step) d = look (validateExpectedNode p' step) d'.
Proof.
  intros Hwf Hwf' Hs Hp. destruct (nodeAt d p) as [n|] eqn:En; [|done].
  assert (En' : nodeAt d' p' = Some n).
  { specialize (Hs []). rewrite !app_nil_r in Hs. congruence. }
  unfold validateExpectedNode. rewrite !look_bind by eauto with observes.
  rewrite !(look_pathState_some _ _ n) by done.
  unfold assertExpectedNodeExists, assertExpectedNodeType, assertExpectedNodeSize.
  do 4 (rewrite ?look_bind by eauto with observes; rewrite ?look_assertIo;
        try match goal with |- context [if ?b then Done tt else _] => destruct b; [|done] end).
  assert (Ec : look (assertExpectedNodeChecksum p (stateOf n) step) d
             = look (assertExpectedNodeChecksum p' (stateOf n) step) d').
  { unfold assertExpectedNodeChecksum. case_match; [done|].
    destruct n as [content| | |]; rewrite !look_bind by eauto with observes; cbn;
      rewrite ?bool_decide_eq_true_2, ?bool_decide_eq_false_2 by done;
      rewrite ?look_bind by eauto with observes; rewrite ?look_ret, ?look_assertIo; try done.
    rewrite (look_computeFileSha256 d p content), (look_computeFileSha256 d' p' content) by done.
    by rewrite !look_ret, !look_assertIo. }
  rewrite Ec. destruct (look (assertExpectedNodeChecksum p' (stateOf n) step) d'); [|done..].
  unfold assertExpectedTreeManifest.
  destruct (in_treeManifestDigest (sp_input step)) as [[|ch digest]|]; try done.
  destruct n as [content| | |]; rewrite !look_bind by eauto with observes; cbn;
    rewrite ?bool_decide_eq_true_2, ?bool_decide_eq_false_2 by done;
    rewrite ?look_ret, ?look_assertIo; try done.
  unfold treeManifestMatches. rewrite !look_bind by eauto with observes.
  rewrite (look_manifest_same d d' p p') by done.
  destruct (look (readTreeManifestRecords p') d'); [|done..].
  by rewrite !look_ret, !look_assertIo.
Qed.

(** ** The paths of a rename *)

Definition renameKeys (step : Step) (s t : path) : Prop :=
  resolveMutationStoragePath (stepSource step) = Ok s /\
  resolveMutationStoragePath (stepTarget step) = Ok t.

Lemma observes_assertRenameStepIntent step : observes (assertRenameStepIntent step).
Proof. unfold assertRenameStepIntent, assertRenamePaths. eauto 10 with observes. Qed.

Lemma observes_resolveRenameState step : observes (resolveRenameState step).
Proof. unfold resolveRenameState. eauto 15 with observes. Qed.
#[local] Hint Resolve observes_assertRenameStepIntent observes_resolveRenameState : observes.

(** Exactly one of the paths exists. *)
Lemma resolveRenameState_sound step d paths :
  wellFormed d -> look (resolveRenameState step) d = Done paths ->
  let s := rn_source paths in let t := rn_target paths in
  renameKeys step s t /\ safeAncestors d s /\ safeAncestors d t /\
  ((rn_sourceState paths = missing /\ nodeAt d s = None /\ nodeAt d t <> None) \/
   (exists n, rn_sourceState paths = stateOf n /\ nodeAt d s = Some n /\ nodeAt d t = None)).
Proof.
  intros Hwf Hl. unfold resolveRenameState in Hl.
  rewrite look_bind in Hl by eauto with observes.
  destruct (resolveMutationStoragePath (stepSource step)) as [s|] eqn:Es; [|done]. cbn in Hl.
  rewrite look_bind in Hl by eauto with observes.
  destruct (resolveMutationStoragePath (stepTarget step)) as [t|] eqn:Et; [|done]. cbn in Hl.
  rewrite look_bind in Hl by eauto with observes.
  destruct (look (assertSafeStorageAncestors s) d) as [u1| |] eqn:Hs; [|done..].
  rewrite look_bind in Hl by eauto with observes.
  destruct (look (assertSafeStorageAncestors t) d) as [u2| |] eqn:Ht; [|done..].
  rewrite look_bind in Hl by eauto with observes.
  destruct (look (pathState s) d) as [ss| |] eqn:Hps; [|done..].
  rewrite look_bind in Hl by eauto with observes.
  destruct (look (pathState t) d) as [ts| |] eqn:Hpt; [|done..].
  apply look_pathState_inv in Hps, Hpt; [|done..].
  rewrite ?look_bind, ?look_assertIo in Hl by eauto with observes.
  destruct (exists' ss && exists' ts) eqn:E1; [done|]. cbn in Hl.
  rewrite ?look_bind, ?look_assertIo in Hl by eauto with observes.
  destruct (exists' ss || exists' ts) eqn:E2; [|done]. injection Hl as <-. cbn.
  split_and!; [done|by eapply assertSafe_sound..|].
  destruct Hps as [[-> Hns]|(n & -> & Hns)], Hpt as [[-> Hnt]|(m & -> & Hnt)];
    rewrite ?exists'_stateOf in *; try done.
  - left. split_and!; [done|done|congruence].
  - right. by exists n.
Qed.

(** ** Every state a rename can leave *)

Definition renamedNodes (s t : path) (m : gmap path Node) : gmap path Node :=
  moveNodes s t (withDirectories (dirname t) m).

(** From the nodes of [d0]: nothing happened; or directories on the way to a free
    target were made; or all of them were made and the source was moved there. *)
Definition renameReach (step : Step) (d0 d : Disk) : Prop :=
  wellFormed d /\
  (dk_nodes d = dk_nodes d0 \/
   exists s t, renameKeys step s t /\ nodeAt d0 t = None /\
     (grown (dirname t) d0 d \/
      (nodeAt d0 s <> None /\ ~ s ⊑ t /\ ~ t ⊑ s /\
       dk_nodes d = renamedNodes s t (dk_nodes d0)))).

(** What is true when it returns: the node was moved before or is moved now. *)
Definition renameDone (step : Step) (d0 d : Disk) : Prop :=
  wellFormed d /\
  exists s t, renameKeys step s t /\
    ((dk_nodes d = dk_nodes d0 /\ nodeAt d0 s = None) \/
     (nodeAt d0 t = None /\ nodeAt d0 s <> None /\ ~ s ⊑ t /\ ~ t ⊑ s /\
      dk_nodes d = renamedNodes s t (dk_nodes d0))).

Lemma renameDone_reach step d0 d : renameDone step d0 d -> renameReach step d0 d.
Proof.
  intros (Hwf & s & t & Hk & [[E _]|(Ht & Hs & Hst & Hts & E)]); (split; [done|]); [by left|right].
  exists s, t. split_and!; [done..|]. right. by split_and!.
Qed.

Lemma grown_of_nodes p d0 d : dk_nodes d = dk_nodes d0 -> grown p d0 d.
Proof. intros E q. left. unfold nodeAt. by rewrite E. Qed.

Lemma renameReach_nodes step d0 : nodesOnly (renameReach step d0).
Proof.
  intros d d' E [Hwf Hr]. split; [by eapply wellFormed_nodes|].
  destruct Hr as [Hr|(s & t & Hk & Ht & Hr)]; [left; congruence|right].
  exists s, t. split_and!; [done..|]. destruct Hr as [Hg|(? & ? & ? & Hm)]; [left|right].
  - by eapply grown_nodes.
  - split_and!; [done..|congruence].
Qed.

Lemma renameDone_nodes step d0 : nodesOnly (renameDone step d0).
Proof.
  intros d d' E (Hwf & s & t & Hk & Hd). split; [by eapply wellFormed_nodes|].
  exists s, t. split; [done|]. rewrite <- E. done.
Qed.

Lemma dirname_shorter t : t <> [] -> ~ t ⊑ dirname t.
Proof.
  intros Hne [r E%(f_equal length)]. unfold dirname in E.
  rewrite length_take, length_app in E. destruct t; [done|]. cbn in E. lia.
Qed.

Section interleaved.
Context (J : World -> Prop) `{!Stable J}.
Context (lease : Io unit) (Hlease : forall P, spec J P lease (fun _ => P) P).

Lemma spec_applyRename step d0 :
  wellFormed d0 ->
  spec J (fun d => wellFormed d /\ dk_nodes d = dk_nodes d0) (applyRename step lease)
    (fun _ => renameDone step d0) (renameReach step d0).
Proof.
  intros Hwf0. set (P0 := fun d => wellFormed d /\ dk_nodes d = dk_nodes d0).
  assert (HP0 : forall d, P0 d -> renameReach step d0 d) by (intros d [Hd E]; split; auto).
  unfold applyRename.
  apply (spec_bind J _ _ _ _ (fun _ => P0)).
  { apply spec_observes_for; [apply _|eauto with observes|done|done]. }
  intros _u.
  apply (spec_bind J _ _ _ _ (fun paths d =>
    (renameKeys step (rn_source paths) (rn_target paths) /\
     ((rn_sourceState paths = missing /\ nodeAt d0 (rn_source paths) = None) \/
      (rn_sourceState paths <> missing /\ nodeAt d0 (rn_source paths) <> None /\
       nodeAt d0 (rn_target paths) = None))) /\ P0 d)).
  { apply spec_observes_for; [apply _|eauto with observes|done|]. intros d paths [Hd E] Hl.
    apply resolveRenameState_sound in Hl as (Hk & _ & _ & Hst); [|done].
    unfold nodeAt in *. rewrite E in Hst. split; [|done]. split; [done|].
    destruct Hst as [(? & ? & _)|(n & En & Hs & Ht)]; [by left|right].
    split_and!; [rewrite En; by destruct n|congruence|done]. }
  intros [s t ss]. cbn [rn_source rn_target rn_sourceState].
  apply spec_pure. intros [Hk Hst].
  destruct (exists' ss) eqn:Ess; cbn [negb].
  2:{ destruct Hst as [[_ Hs]|(Hne & _)]; [|by destruct ss].
      apply spec_observes_for; [apply _|eauto with observes|exact HP0|].
      intros d u [Hd E] _. split; [done|]. exists s, t. auto. }
  destruct Hst as [[-> _]|(_ & Hs & Ht)]; [done|].
  assert (HP0n : nodesOnly P0).
  { intros d d' E [Hd E0]. split; [by eapply wellFormed_nodes|congruence]. }
  set (I := fun d => wellFormed d /\ grown (dirname t) d0 d).
  assert (HI : forall d, I d -> renameReach step d0 d).
  { intros d [Hd Hg]. split; [done|]. right. exists s, t. auto. }
  apply (spec_conseq J _ P0 _ (fun _ => renameDone step d0) _ (renameReach step d0)); [|done..].
  apply (spec_bind J _ _ _ _ (fun _ => P0)).
  { apply spec_observes_for; [apply _|eauto with observes|done|done]. }
  intros _u2. apply (spec_bind J _ _ _ _ (fun _ => P0)).
  { apply (spec_conseq J _ P0 _ (fun _ => P0) _ P0); [|done|done|exact HP0]. unfold syncRenameSource.
    destruct (isType type_file ss); [by apply spec_syncFile|].
    destruct (isType type_directory ss); [by apply spec_syncDirectory|]. by apply spec_ret_for. }
  intros _u3. apply (spec_bind J _ _ _ _ (fun _ => P0)).
  { eapply spec_conseq; [by apply spec_syncDirectory|done|done|exact HP0]. }
  intros _u4. apply (spec_bind J _ _ _ _ (fun _ d => I d /\ nodeAt d (dirname t) = Some NDirectory)).
  { eapply spec_conseq; [apply (spec_durableMkdir J lease Hlease d0)| |done|exact HI].
    intros d [Hd E]. split; [done|]. by apply grown_of_nodes. }
  intros _u5. set (N := fun d => I d /\ nodeAt d (dirname t) = Some NDirectory).
  apply (spec_bind J _ _ _ _ (fun _ => N)).
  { eapply spec_conseq; [apply Hlease|done|done|]. intros d [Hd _]. by apply HI. }
  intros _u6. apply (spec_bind J _ _ _ _ (fun _ => renameDone step d0)).
  - assert (Hr : forall d u d', N d -> rename s t d = Ok (u, d') -> renameDone step d0 d').
    { intros d u d' [[Hd Hg] Hdir] Hr. pose proof Hr as Hr'.
      apply rename_ok in Hr as [[Est _]|(Hst & Hts & _ & _ & _ & ->)]; [congruence| |done].
      split; [by eapply rename_wf|]. exists s, t. split; [done|]. right.
      split_and!; [done..|]. unfold renamedNodes. cbn. by rewrite <- (grown_full _ d0 d). }
    apply spec_fs; [apply _| |].
    + intros d [Hd _]. by apply HI.
    + intros d u d' Hd E. split; [by eapply Hr|]. by eapply renameDone_reach, Hr.
  - intros _u7. eapply spec_conseq;
      [by apply (spec_syncParents J (renameDone step d0)), renameDone_nodes|done|done|].
    intros d. apply renameDone_reach.
Qed.
End interleaved.

(** ** Undisturbed renames *)

Lemma resolveRenameState_complete step d s t ss ts :
  wellFormed d -> renameKeys step s t -> safeAncestors d s -> safeAncestors d t ->
  look (pathState s) d = Done ss -> look (pathState t) d = Done ts ->
  exists' ss <> exists' ts ->
  look (resolveRenameState step) d
  = Done {| rn_source := s; rn_target := t; rn_sourceState := ss |}.
Proof.
  intros Hwf [Ks Kt] Hs Ht Es Et Hne. unfold resolveRenameState. rewrite Ks, Kt. cbn [liftIo].
  rewrite look_bind, look_ret by eauto with observes.
  rewrite look_bind, look_ret by eauto with observes.
  rewrite look_bind, assertSafe_complete by eauto using resolve_keyPath with observes.
  rewrite look_bind, assertSafe_complete by eauto using resolve_keyPath with observes.
  rewrite look_bind, Es by eauto with observes. rewrite look_bind, Et by eauto with observes.
  rewrite ?look_bind, ?look_assertIo by eauto with observes.
  destruct (exists' ss), (exists' ts); try done; cbn;
    rewrite ?look_bind, ?look_assertIo by eauto with observes; done.
Qed.

(** What the step was planned against. *)
Record renameReady (step : Step) (d : Disk) (s t : path) (n : Node) : Prop := {
  rr_wf : wellFormed d;
  rr_keys : renameKeys step s t;
  rr_intent d' : look (assertRenameStepIntent step) d' = Done tt;
  rr_source : nodeAt d s = Some n;
  rr_target : nodeAt d t = None;
  rr_apart : ~ s ⊑ t;
  rr_open : openPath d (dirname t);
  rr_expected : look (validateExpectedNode s step) d = Done tt
}.

Section ready.
Context `{!RuntimeLaws} (step : Step) (d0 : Disk) (s t : path) (n : Node).
Context (Hready : renameReady step d0 s t n).

Lemma ready_apart : ~ t ⊑ s.
Proof.
  destruct Hready as [Hwf _ _ Hs Ht _ _ _]. intros Hts.
  apply (wf_below _ Hwf t s); [congruence|done|done].
Qed.

Lemma ready_target_not_root : t <> [].
Proof. intros E. apply ready_apart. rewrite E. apply prefix_nil. Qed.

(** Before the move. *)
Lemma ready_grown d :
  wellFormed d -> grown (dirname t) d0 d ->
  nodeAt d s = Some n /\ nodeAt d t = None /\ sameBelow d0 s d s /\
  safeAncestors d s /\ safeAncestors d t.
Proof.
  intros Hwfd Hg. destruct Hready as [Hwf _ _ Hs Ht Hst Hopen _].
  assert (Hs' : nodeAt d s = Some n) by by eapply grown_Some.
  assert (Ht' : nodeAt d t = None).
  { rewrite (grown_outside _ _ _ _ Hg); [done|]. apply dirname_shorter, ready_target_not_root. }
  split_and!; [done|done| | |].
  - intros r. symmetry. apply (grown_outside _ _ _ _ Hg). intros Hle. apply Hst.
    etrans; [by exists r|]. etrans; [done|]. apply dirname_prefix.
  - intros q Hq Hne. left. apply (wf_ancestor _ Hwfd s); [congruence|done..].
  - intros q Hq Hne. apply (openPath_grown _ _ _ _ Hg Hopen). by apply prefix_dirname.
Qed.

(** After it. *)
Lemma ready_renamed d :
  wellFormed d -> dk_nodes d = renamedNodes s t (dk_nodes d0) ->
  nodeAt d s = None /\ nodeAt d t = Some n /\ sameBelow d0 s d t /\
  safeAncestors d s /\ safeAncestors d t.
Proof.
  intros Hwfd E. pose proof Hready as [Hwf _ _ Hs Ht Hst Hopen _]. pose proof ready_apart as Hts.
  assert (Hsame : sameBelow d0 s d t).
  { intros r. unfold nodeAt. rewrite E. unfold renamedNodes.
    rewrite lookup_moveNodes_target, lookup_withDirectories by done.
    destruct (dk_nodes d0 !! (s ++ r)); [done|]. rewrite decide_False; [done|].
    intros Hle. apply Hst. etrans; [by exists r|]. etrans; [done|]. apply dirname_prefix. }
  assert (Ht' : nodeAt d t = Some n).
  { specialize (Hsame []). rewrite !app_nil_r in Hsame. congruence. }
  assert (Hs' : nodeAt d s = None).
  { pose proof (lookup_moveNodes_source s t Hst Hts (withDirectories (dirname t) (dk_nodes d0)) [])
      as E'. rewrite app_nil_r in E'. unfold nodeAt. by rewrite E. }
  split_and!; [done|done|done| |].
  - intros q Hq Hne. left. unfold nodeAt. rewrite E. unfold renamedNodes.
    rewrite lookup_moveNodes_other; [|done|done| |].
    + rewrite lookup_withDirectories. fold (nodeAt d0 q).
      rewrite (wf_ancestor _ Hwf s q); [done|congruence|done|done].
    + intros Hsq. apply Hne. by apply (anti_symm prefix).
    + intros Htq. apply Hts. by etrans.
  - intros q Hq Hne. left. apply (wf_ancestor _ Hwfd t); [congruence|done..].
Qed.

Section undisturbed.
Context (L : World -> Prop) `{!Undisturbed L}.
Context (lease : Io unit) (Hlease : forall P, finishes L P lease (fun _ => P)).

Lemma finishes_rename_before :
  finishes L (fun d => wellFormed d /\ grown (dirname t) d0 d) (applyRename step lease)
    (fun _ d => wellFormed d /\ dk_nodes d = renamedNodes s t (dk_nodes d0)).
Proof.
  set (I := fun d => wellFormed d /\ grown (dirname t) d0 d).
  assert (HIn : nodesOnly I).
  { intros d d' E [Hd Hg]. split; [by eapply wellFormed_nodes|by eapply grown_nodes]. }
  pose proof Hready as [Hwf Hkeys Hintent Hs Ht Hst Hopen Hexp].
  unfold applyRename.
  eapply (finishes_bind L _ _ _ _ (fun _ => I)).
  { eapply finishes_observes_for; [apply _|eauto with observes|done]. }
  intros _u. eapply (finishes_bind L _ _ _ _ (fun paths d =>
    paths = {| rn_source := s; rn_target := t; rn_sourceState := stateOf n |} /\ I d)).
  { eapply finishes_observes_for; [apply _|eauto with observes|]. intros d [Hd Hg].
    destruct (ready_grown d Hd Hg) as (Hs' & Ht' & _ & Hss & Hst').
    split; [|done]. apply (resolveRenameState_complete _ _ _ _ _ missing); try done.
    - by apply look_pathState_some.
    - by apply look_pathState_none.
    - by rewrite exists'_stateOf. }
  intros paths. apply finishes_pure. intros ->. cbn [rn_source rn_target rn_sourceState].
  rewrite exists'_stateOf. cbn [negb].
  eapply (finishes_bind L _ _ _ _ (fun _ => I)).
  { eapply finishes_observes_for; [apply _|eauto with observes|]. intros d [Hd Hg].
    destruct (ready_grown d Hd Hg) as (Hs' & _ & Hsame & _).
    split; [|done]. by rewrite <- (look_validate_same d0 d s s) by (done || congruence). }
  intros _u2. eapply (finishes_bind L _ _ _ _ (fun _ => I)).
  { unfold syncRenameSource, syncFile, syncDirectory.
    destruct (isType type_file (stateOf n)); [|destruct (isType type_directory (stateOf n));
      [|by apply finishes_ret_for]]; (apply finishes_sync; [apply _|done|]);
      intros d [Hd Hg]; destruct (ready_grown d Hd Hg) as (Hs' & _); by rewrite Hs'. }
  intros _u3. eapply (finishes_bind L _ _ _ _ (fun _ => I)).
  { apply finishes_sync; [apply _|done|]. intros d [Hd Hg].
    destruct (ready_grown d Hd Hg) as (Hs' & _). split; [done|].
    rewrite wf_dirname; [done|done|congruence]. }
  intros _u4. set (N := fun d => wellFormed d /\ dk_nodes d = withDirectories (dirname t) (dk_nodes d0)).
  eapply (finishes_bind L _ _ _ _ (fun _ => N)).
  { apply finishes_durableMkdir; [apply _|done|done|].
    destruct (decide (dirname t = [])) as [|]; [by left|right]. exists t.
    split; [|apply dirname_prefix]. eapply resolve_keyPath. apply Hkeys. }
  intros _u5. eapply (finishes_bind L _ _ _ _ (fun _ => N)); [apply Hlease|].
  intros _u6. set (M := fun d => wellFormed d /\ dk_nodes d = renamedNodes s t (dk_nodes d0)).
  eapply (finishes_bind L _ _ _ _ (fun _ => M)).
  - apply finishes_fs; [apply _|]. intros d [Hd E].
    assert (Hg : grown (dirname t) d0 d).
    { intros q. unfold nodeAt. rewrite E, lookup_withDirectories.
      destruct (dk_nodes d0 !! q) eqn:Eq; [by left|]. case_decide; [by right|by left]. }
    destruct (ready_grown d Hd Hg) as (Hs' & Ht' & _ & _ & _).
    assert (Hdir : nodeAt d (dirname t) = Some NDirectory).
    { unfold nodeAt. rewrite E, lookup_withDirectories. fold (nodeAt d0 (dirname t)).
      destruct (Hopen (dirname t)) as [->| ->]; [done|done|]. by rewrite decide_True. }
    assert (Hr : exists d', rename s t d = Ok (tt, d')).
    { unfold rename. rewrite (proj2 (lstat_ok _ Hd _ _ _) (conj Hs' eq_refl)).
      assert (lookupError d t = None) as ->.
      { apply lookupError_None. intros q Hq Hne. apply prefix_dirname in Hq; [|done].
        destruct (decide (q = dirname t)) as [->|]; [done|].
        apply (wf_ancestor _ Hd (dirname t)); [congruence|done..]. }
      rewrite decide_False by congruence. rewrite decide_False by done.
      unfold replaceError. rewrite Ht'. destruct n; by eexists. }
    destruct Hr as [d' Hr]. exists tt, d'. split; [done|]. split; [by eapply rename_wf|].
    apply rename_ok in Hr as [[Est _]|(_ & _ & _ & _ & _ & ->)]; [congruence| |done].
    cbn. by rewrite E.
  - intros _u7. apply finishes_syncParents; [apply _| |].
    + intros d d' E [Hd E']. split; [by eapply wellFormed_nodes|congruence].
    + intros d p [Hd E] Hp. split; [done|].
      destruct (ready_renamed d Hd E) as (Hs' & Ht' & _ & Hss & _).
      apply elem_of_cons in Hp as [->|Hp].
      * destruct (decide (s = [])) as [->|Hne].
        { unfold dirname. cbn. by rewrite (wf_root _ Hd). }
        destruct (Hss (dirname s)) as [->|Hno]; [apply dirname_prefix| |done|].
        { intros Eq. apply (dirname_shorter s Hne). by rewrite Eq. }
        exfalso. revert Hno. unfold nodeAt. rewrite E. unfold renamedNodes.
        rewrite lookup_moveNodes_other; [|done|apply ready_apart| |].
        -- rewrite lookup_withDirectories. fold (nodeAt d0 (dirname s)).
           rewrite wf_dirname; [done|done|congruence].
        -- by apply dirname_shorter.
        -- intros Hle. apply ready_apart. etrans; [done|]. apply dirname_prefix.
      * apply list_elem_of_singleton in Hp as ->. rewrite wf_dirname; [done|done|congruence].
Qed.

Lemma finishes_rename_after :
  finishes L (fun d => wellFormed d /\ dk_nodes d = renamedNodes s t (dk_nodes d0))
    (applyRename step lease)
    (fun _ d => wellFormed d /\ dk_nodes d = renamedNodes s t (dk_nodes d0)).
Proof.
  set (M := fun d => wellFormed d /\ dk_nodes d = renamedNodes s t (dk_nodes d0)).
  pose proof Hready as [Hwf Hkeys Hintent Hs Ht Hst Hopen Hexp].
  unfold applyRename.
  eapply (finishes_bind L _ _ _ _ (fun _ => M)).
  { eapply finishes_observes_for; [apply _|eauto with observes|done]. }
  intros _u. eapply (finishes_bind L _ _ _ _ (fun paths d =>
    paths = {| rn_source := s; rn_target := t; rn_sourceState := missing |} /\ M d)).
  { eapply finishes_observes_for; [apply _|eauto with observes|]. intros d [Hd E].
    destruct (ready_renamed d Hd E) as (Hs' & Ht' & _ & Hss & Hst').
    split; [|done]. apply (resolveRenameState_complete _ _ _ _ _ (stateOf n)); try done.
    - by apply look_pathState_none.
    - by apply look_pathState_some.
    - by rewrite exists'_stateOf. }
  intros paths. apply finishes_pure. intros ->. cbn [rn_source rn_target rn_sourceState].
  cbn [exists' negb]. eapply finishes_observes_for; [apply _|eauto with observes|]. intros d [Hd E].
  destruct (ready_renamed d Hd E) as (_ & _ & Hsame & _).
  split; [|done]. by rewrite <- (look_validate_same d0 d s t) by (done || congruence).
Qed.

(** Whatever an interrupted rename left, an undisturbed one ends it. *)
Lemma finishes_applyRename :
  finishes L (renameReach step d0) (applyRename step lease)
    (fun _ d => wellFormed d /\ dk_nodes d = renamedNodes s t (dk_nodes d0)).
Proof.
  intros w HL [Hwfd Hr]. pose proof Hready as [Hwf [Ks Kt] _ _ _ _ _ _].
  destruct Hr as [E|(s' & t' & [Ks' Kt'] & _ & Hr)].
  - apply finishes_rename_before; [done|]. split; [done|]. by apply grown_of_nodes.
  - rewrite Ks in Ks'. rewrite Kt in Kt'. injection Ks' as <-. injection Kt' as <-.
    destruct Hr as [Hg|(_ & _ & _ & E)].
    + by apply finishes_rename_before.
    + by apply finishes_rename_after.
Qed.
End undisturbed.
End ready.
End rename_facts.

Section forward_facts.
Context `{RuntimeLaws}.

(** ** A rename resumes *)

Lemma spec_rename_resumes J `{!Stable J} lease step d0 s t n :
  (forall P, spec J P lease (fun _ => P) P) -> renameReady step d0 s t n ->
  spec J (renameReach step d0) (applyRename step lease)
    (fun _ d => wellFormed d /\ dk_nodes d = renamedNodes s t (dk_nodes d0))
    (renameReach step d0).
Proof.
  intros Hlease Hready w HJ [Hwf Hr].
  destruct (spec_applyRename J lease Hlease step (w_disk w) Hwf w HJ (conj Hwf eq_refl))
    as [HJ' Hrun]. split; [done|].
  pose proof Hready as [Hwf0 [Ks Kt] _ Hs Ht Hst _ _].
  pose proof (ready_apart _ _ _ _ _ Hready) as Hts.
  assert (Hcase : grown (dirname t) d0 (w_disk w) \/
                  dk_nodes (w_disk w) = renamedNodes s t (dk_nodes d0)).
  { destruct Hr as [E|(s' & t' & [Ks' Kt'] & _ & Hr)]; [left; by apply grown_of_nodes|].
    rewrite Ks in Ks'. rewrite Kt in Kt'. injection Ks' as <-. injection Kt' as <-.
    destruct Hr as [|(_ & _ & _ & ?)]; auto. }
  assert (Hdone : forall d', renameDone step (w_disk w) d' ->
    wellFormed d' /\ dk_nodes d' = renamedNodes s t (dk_nodes d0)).
  { intros d' (Hwf' & s' & t' & [Ks' Kt'] & Hd). split; [done|].
    rewrite Ks in Ks'. rewrite Kt in Kt'. injection Ks' as <-. injection Kt' as <-.
    destruct Hcase as [Hg|E].
    - destruct (ready_grown _ _ _ _ _ Hready _ Hwf Hg) as (Hs' & _).
      destruct Hd as [[_ Hn]|(_ & _ & _ & _ & E)]; [congruence|].
      rewrite E. unfold renamedNodes. f_equal. by apply withDirectories_grown.
    - destruct (ready_renamed _ _ _ _ _ Hready _ Hwf E) as (Hs' & Ht' & _).
      destruct Hd as [[E' _]|(Hn & _)]; congruence. }
  assert (Hreach : forall d', renameReach step (w_disk w) d' -> renameReach step d0 d').
  { intros d' [Hwf' Hr']. split; [done|].
    destruct Hr' as [E'|(s' & t' & [Ks' Kt'] & Ht' & Hr')].
    - destruct Hr as [E|(s' & t' & Hk & Ht' & Hr)]; [left; congruence|right].
      exists s', t'. split_and!; [done..|]. destruct Hr as [Hg|(? & ? & ? & E)]; [left|right].
      + by eapply grown_nodes.
      + split_and!; [done..|congruence].
    - rewrite Ks in Ks'. rewrite Kt in Kt'. injection Ks' as <-. injection Kt' as <-.
      right. exists s, t. split_and!; [done|done|].
      destruct Hcase as [Hg|E].
      2:{ destruct (ready_renamed _ _ _ _ _ Hready _ Hwf E) as (_ & Ht2 & _). congruence. }
      destruct Hr' as [Hg'|(_ & _ & _ & E')].
      + left. by eapply grown_trans.
      + right. rewrite Hs. split_and!; [done..|]. rewrite E'.
        unfold renamedNodes. f_equal. by apply withDirectories_grown. }
  destruct (applyRename step lease w) as [[a|e|] w']; cbn in *; auto.
Qed.

(** ** Directory steps *)

Definition mkdirKey (step : Step) (t : path) : Prop :=
  resolveMutationStoragePath (stepTarget step) = Ok t.

(** Nothing, or missing directories on the way to the target and the target. *)
Definition mkdirReach (step : Step) (d0 d : Disk) : Prop :=
  wellFormed d /\
  (dk_nodes d = dk_nodes d0 \/ exists t, mkdirKey step t /\ grown t d0 d).

Lemma spec_applyMkdir J `{!Stable J} lease step d0 :
  (forall P, spec J P lease (fun _ => P) P) ->
  spec J (mkdirReach step d0) (applyMkdir step lease)
    (fun _ d => mkdirReach step d0 d /\
                exists t, mkdirKey step t /\ nodeAt d t = Some NDirectory)
    (mkdirReach step d0).
Proof.
  intros Hlease. set (R := mkdirReach step d0). unfold applyMkdir.
  apply (spec_bind J _ _ _ _ (fun _ => R)); [by apply spec_assert_for|]. intros _u.
  apply (spec_bind J _ _ _ _ (fun _ => R)); [by apply spec_assert_for|]. intros _u2.
  apply (spec_bind J _ _ _ _ (fun t d => mkdirKey step t /\ R d)).
  { apply spec_lift_for; [done|]. by intros t d E Hd. }
  intros t. apply spec_pure. intros Hk.
  apply (spec_bind J _ _ _ _ (fun _ => R)).
  { by apply spec_observes_for; [apply _|eauto with observes|..]. }
  intros _u3. apply (spec_bind J _ _ _ _ (fun state d =>
    (state = missing \/ (exists n, state = stateOf n /\ nodeAt d t = Some n)) /\ R d)).
  { apply spec_observes_for; [apply _|eauto with observes|done|]. intros d state [Hwf Hd] Hl.
    split; [|by split].
    apply look_pathState_inv in Hl as [[-> _]|?]; [by left|by right|done]. }
  intros state. apply (spec_bind J _ _ _ _ (fun _ d =>
    negb (exists' state) || isType type_directory state = true /\
    (state = missing \/ (exists n, state = stateOf n /\ nodeAt d t = Some n)) /\ R d)).
  { apply spec_assert_for; [by intros d [_ ?]|done]. }
  intros _u4. apply spec_pure. intros Et.
  set (N := fun d => R d /\ nodeAt d t = Some NDirectory).
  assert (HRn : nodesOnly R).
  { intros d d' E [Hwf Hr]. split; [by eapply wellFormed_nodes|].
    destruct Hr as [Hr|(t' & Hk' & Hr)]; [left; congruence|right]. exists t'. split; [done|].
    by eapply grown_nodes. }
  assert (HNn : nodesOnly N).
  { intros d d' E [Hr Hn]. split; [by eapply HRn|]. unfold nodeAt. by rewrite <- E. }
  apply (spec_bind J _ _ _ _ (fun _ => N)).
  - destruct (negb (exists' state)) eqn:Es.
    + set (I := fun d => wellFormed d /\ grown t d0 d).
      assert (HI : forall d, R d -> I d).
      { intros d [Hwf [E|(t' & Hk' & Hg)]]; (split; [done|]).
        - by apply grown_of_nodes.
        - unfold mkdirKey in *. rewrite Hk in Hk'. by injection Hk' as <-. }
      assert (HI' : forall d, I d -> R d).
      { intros d [Hwf Hg]. split; [done|]. right. by exists t. }
      eapply spec_conseq; [by apply (spec_durableMkdir J lease Hlease d0 t)| | |done].
      * intros d [_ Hd]. by apply HI.
      * intros u d [Hd Hn]. split; [by apply HI'|done].
    + cbn in Et. apply (spec_bind J _ _ _ _ (fun _ => N)).
      * apply spec_observes_for; [apply _|eauto with observes|by intros d [_ ?]|].
        intros d b [[->|(n & -> & Hn)] Hd] _; [done|]. split; [done|]. by destruct n.
      * intros b. apply spec_assert_for; [by intros d [? _]|done].
  - intros _u5. eapply spec_conseq; [by apply (spec_syncDirectory J N)|done| |].
    + intros u d [Hd Hn]. eauto.
    + by intros d [Hd _].
Qed.

(** What a directory step was planned against: its target is free, or already
    the empty directory. *)
Record mkdirReady (step : Step) (d : Disk) (t : path) : Prop := {
  mr_wf : wellFormed d;
  mr_given : given (in_targetKey (sp_input step)) = true;
  mr_digest : given (in_treeManifestDigest (sp_input step)) = true;
  mr_key : mkdirKey step t;
  mr_open : openPath d t;
  mr_empty r : r <> [] -> nodeAt d (t ++ r) = None;
  mr_expected : recordsMatch (default "" (in_treeManifestDigest (sp_input step))) [] = true
}.

Lemma look_manifest_empty d t :
  wellFormed d -> nodeAt d t = Some NDirectory -> (forall r, r <> [] -> nodeAt d (t ++ r) = None) ->
  look (readTreeManifestRecords t) d = Done [].
Proof.
  intros Hwf Ht Hempty. unfold readTreeManifestRecords.
  rewrite look_bind by apply (observes_disk (fun d => size (dk_nodes d))).
  change (look (memory _) d) with (Done (size (dk_nodes d))). cbv iota beta.
  pose proof (disk_depth d t Hwf []) as Hd. rewrite app_nil_r in Hd.
  specialize (Hd ltac:(congruence)).
  destruct (size (dk_nodes d)) as [|fuel]; [lia|]. cbn [visitDirectory].
  rewrite look_bind by eauto with observes. rewrite look_readdir by done.
  rewrite (proj2 (entries_nil d t)); [done|]. intros name. by apply Hempty.
Qed.

Lemma finishes_applyMkdir (L : World -> Prop) `{!Undisturbed L} lease step d0 t :
  (forall P, finishes L P lease (fun _ => P)) -> mkdirReady step d0 t ->
  finishes L (mkdirReach step d0) (applyMkdir step lease)
    (fun _ d => wellFormed d /\ dk_nodes d = withDirectories t (dk_nodes d0)).
Proof.
  intros Hlease [Hwf Hgiven Hdigest Hk Hopen Hempty Hexp].
  set (I := fun d => wellFormed d /\ grown t d0 d).
  apply (finishes_conseq L _ I _ (fun _ d => I d /\ nodeAt d t = Some NDirectory)).
  2:{ intros d [Hwfd [E|(t' & Hk' & Hg)]]; (split; [done|]); [by apply grown_of_nodes|].
      unfold mkdirKey in *. rewrite Hk in Hk'. by injection Hk' as <-. }
  2:{ intros u d [[Hd Hg] Ht]. split; [done|]. by apply grown_full. }
  assert (HN : nodesOnly (fun d => I d /\ nodeAt d t = Some NDirectory)).
  { intros d d' E [[Hd Hg] Ht]. unfold I, nodeAt. rewrite <- E.
    split_and!; [by eapply wellFormed_nodes|by eapply grown_nodes|done]. }
  assert (Hkp : keyPath t) by by eapply resolve_keyPath.
  unfold applyMkdir. rewrite Hgiven, Hdigest, Hk. cbn [liftIo].
  eapply (finishes_bind L _ _ _ _ (fun _ => I)); [by apply finishes_assert_for|]. intros _u.
  eapply (finishes_bind L _ _ _ _ (fun _ => I)); [by apply finishes_assert_for|]. intros _u2.
  eapply (finishes_bind L _ _ _ _ (fun t' d => t' = t /\ I d)); [by apply finishes_ret_for|].
  intros t'. apply finishes_pure. intros ->.
  eapply (finishes_bind L _ _ _ _ (fun _ => I)).
  { eapply finishes_observes_for; [apply _|eauto with observes|]. intros d [Hd Hg].
    split; [|done]. apply assertSafe_complete; [done..|]. by eapply openPath_safe, openPath_grown. }
  intros _u3 w HL Hw. pose proof Hw as [Hwfw Hg].
  unfold mbind at 1, Io_bind at 1. destruct (observes_pathState t) as (Hp & _).
  rewrite Hp by by apply (undisturbed_calm w HL).
  destruct (openPath_grown _ _ _ _ Hg Hopen t) as [Hn|Hn]; [done| |].
  - rewrite (look_pathState_some _ _ NDirectory) by done. cbn [stateOf exists' negb isType].
    rewrite bool_decide_eq_true_2 by done. cbn [orb].
    set (N := fun d => I d /\ nodeAt d t = Some NDirectory) in *.
    revert w HL Hw Hwfw Hg Hn.
    enough (Hf : finishes L N
      (_ ← assertIo true (StorageMutationAmbiguityError "Mkdir target has unexpected node type.");
       _ ← (matches ← treeManifestMatches t (default "" (in_treeManifestDigest (sp_input step)));
            assertIo matches (StorageMutationAmbiguityError
              "Existing mkdir target is not the captured empty directory."));
       syncDirectory t) (fun _ => N)).
    { intros w HL Hw _ _ Hn. by apply Hf. }
    eapply (finishes_bind L _ _ _ _ (fun _ => N)); [by apply finishes_assert_for|]. intros _u4.
    eapply (finishes_bind L _ _ _ _ (fun _ => N)).
    + eapply (finishes_bind L _ _ _ _ (fun b d => b = true /\ N d)).
      * eapply finishes_observes_for; [apply _|eauto with observes|]. intros d [[Hd Hgd] Ht].
        split; [|by split]. unfold treeManifestMatches. rewrite look_bind by eauto with observes.
        rewrite look_manifest_empty; [by rewrite look_ret, Hexp|done|done|].
        intros r Hr. rewrite (grown_outside _ _ _ _ Hgd); [by apply Hempty|].
        intros [r' E]. destruct r; [done|]. apply (f_equal length) in E.
        rewrite !length_app in E. cbn in E. lia.
      * intros b. apply finishes_assert_for. by intros d [-> ?].
    + intros _u5. apply finishes_sync; [apply _|done|]. intros d [[Hd _] Ht]. by rewrite Ht.
  - rewrite look_pathState_none; [|done|by eapply openPath_safe, openPath_grown].
    cbn [exists' negb orb]. revert w HL Hw Hwfw Hg Hn.
    enough (Hf : finishes L I
      (_ ← assertIo true (StorageMutationAmbiguityError "Mkdir target has unexpected node type.");
       _ ← durableMkdirWithinRoot t lease; syncDirectory t)
      (fun _ d => I d /\ nodeAt d t = Some NDirectory)).
    { intros w HL Hw _ _ _. by apply Hf. }
    eapply (finishes_bind L _ _ _ _ (fun _ => I)); [by apply finishes_assert_for|]. intros _u4.
    eapply (finishes_bind L _ _ _ _ (fun _ d => I d /\ nodeAt d t = Some NDirectory)).
    + eapply finishes_conseq; [apply (finishes_durableMkdir L lease Hlease d0 t)| |]; try done.
      * right. by exists t.
      * intros u d [Hd E].
        assert (Hgd : grown t d0 d).
        { intros q. unfold nodeAt. rewrite E, lookup_withDirectories.
          destruct (dk_nodes d0 !! q) eqn:Eq; [by left|]. case_decide; [by right|by left]. }
        split; [by split|]. unfold nodeAt. rewrite E, lookup_withDirectories.
        fold (nodeAt d0 t). destruct (Hopen t) as [->| ->]; [done|done|]. by rewrite decide_True.
    + intros _u5. apply finishes_sync; [apply _|done|]. intros d [[Hd _] Ht]. by rewrite Ht.
Qed.
End forward_facts.
