(* ===== verification/ExecutorWorld.v ===== *)
(** * What lasts while a mutation is executed

    Other workers change the database between the effects of an execution.
    [others] bounds what they do, and [during] is the condition on the database
    and the worker's memory that outlasts it. Under it, [spec] and the triples
    over whole worlds ([wspec]) follow an execution through every interleaving
    and fault. The journal's own steps are one such bound.

    A condition on disks that every step keeps is kept by every part of the
    executor, whatever interrupts it: by a phase, by the undoing of a phase, by
    what is recorded of a failure, and by the waits. *)

From Stdlib Require Import Ascii.
From Stdlib Require String.
From S2P Require Import Prelude Database MutationMetadata MutationPrepare StorageChanges Journal JournalSteps JournalSafety Disk Io StoragePaths TreeManifest ExecutorSteps Executor ManifestFacts StepFacts.

Open Scope Z_scope.

(** ** Bounds on the others *)

(** What other processes do before an effect is within [R]. *)
Definition others (R : DB -> DB -> Prop) (w : World) : Prop :=
  Forall (fun tick => forall db, R db (tk_others tick db)) (w_future w).

Definition during (R : DB -> DB -> Prop) (K : DB -> Prop) (I : list Step -> Prop) (w : World) :
    Prop :=
  K (w_db w) /\ I (w_steps w) /\ others R w.

(** [K] outlasts the others and the renewal of any lease. *)
Class Keeps (R : DB -> DB -> Prop) (K : DB -> Prop) : Prop := {
  keeps_others db db' : R db db' -> K db -> K db';
  keeps_renewal now id leaseOwner leaseToken db db' :
    renewStorageMutationLease now STORAGE_MUTATION_LEASE_MS id leaseOwner leaseToken db
      = Ok (tt, db') -> K db -> K db'
}.

Definition anySteps (steps : list Step) : Prop := True.

Lemma runTimer_keeps R K renewal w :
  Keeps R K -> K (w_db w) -> K (w_db (runTimer renewal w)).
Proof.
  intros HK Hw. unfold runTimer. destruct (w_timer w), renewal; try done.
  destruct (renewStorageMutationLease _ _ _ _ _ _) as [[[] db]|] eqn:E; [|done].
  by eapply keeps_renewal.
Qed.

#[export] Instance during_stable R K I : Keeps R K -> Stable (during R K I).
Proof.
  intros HK. split; [done|]. intros w (Hw & Hi & Ho). unfold during. rewrite nextTick_memory.
  unfold nextTick, others in *.
  destruct (w_future w) as [|tick rest] eqn:Ef; cbn; [by rewrite Ef|].
  apply Forall_cons in Ho as [Ht Ho]. rewrite runTimer_future. cbn.
  split_and!; [|done|done]. eapply runTimer_keeps; [done|]. cbn. by eapply keeps_others.
Qed.

Lemma during_now R K I w now : during R K I w -> during R K I (set_now now w).
Proof. done. Qed.

(** ** Transactions *)

(** A transaction that keeps [K]. *)
Definition txKeeps {A} (K : DB -> Prop) (tx : Locks -> Z -> Z -> Z -> Tx A) : Prop :=
  forall locks called now later db a db', tx locks called now later db = Ok (a, db') ->
    K db -> K db'.

(** A transaction that [K] forbids. *)
Definition txRefused {A} (K : DB -> Prop) (tx : Locks -> Z -> Z -> Z -> Tx A) : Prop :=
  forall locks called now later db a db', K db -> tx locks called now later db <> Ok (a, db').

Section transactions.
Context (R : DB -> DB -> Prop) (K : DB -> Prop) (I : list Step -> Prop) `{!Keeps R K}.

Lemma spec_tx {A} (tx : Locks -> Z -> Z -> Z -> Tx A) P :
  txKeeps K tx -> spec (during R K I) P (dbEffect tx) (fun _ => P) P.
Proof.
  intros Htx. apply spec_db; [apply _|done|].
  intros w locks called now later a db (Hw & Hi & Ho) E. split_and!; [|done|done].
  by eapply Htx.
Qed.

Lemma spec_tx_refused {A} (tx : Locks -> Z -> Z -> Z -> Tx A) P :
  txRefused K tx -> spec (during R K I) P (dbEffect tx) (fun _ _ => False) P.
Proof.
  intros Htx w HJ Hw. unfold dbEffect. pose proof (stable_tick w HJ) as HJ1.
  pose proof (nextTick_disk w) as Hd. destruct (nextTick w) as [tick w1]. cbn in HJ1, Hd.
  rewrite <- Hd in Hw. set (later := w_now w1 + Z.of_nat (tk_within tick)).
  destruct (tx (tk_locks tick) (w_now w) (w_now w1) later (w_db w1)) as [[a db]|e] eqn:E.
  - exfalso. by eapply Htx; [apply HJ1|].
  - destruct (tk_strike tick) as [s|]; [|done]. by destruct (faultOf s), (tk_done tick).
Qed.
End transactions.

(** ** Triples over worlds *)

Definition wspec {A} (P : World -> Prop) (m : Io A) (Q : A -> World -> Prop)
    (X : World -> Prop) : Prop :=
  forall w, P w -> match m w with (Done a, w') => Q a w' | (_, w') => X w' end.

Section wspec_rules.
Context {A B : Type}.
Implicit Types P X : World -> Prop.

Lemma wspec_ret (a : A) P (Q : A -> World -> Prop) X :
  (forall w, P w -> Q a w) -> wspec P (mret a) Q X.
Proof. intros HQ w Hw. by apply HQ. Qed.

Lemma wspec_throw (e : IoError) P (Q : A -> World -> Prop) X :
  (forall w, P w -> X w) -> wspec P (throwIo e) Q X.
Proof. intros HX w Hw. by apply HX. Qed.

Lemma wspec_bind (m : Io A) (f : A -> Io B) P Q S X :
  wspec P m S X -> (forall a, wspec (S a) (f a) Q X) -> wspec P (m ≫= f) Q X.
Proof.
  intros Hm Hf w Hw. unfold mbind, Io_bind. specialize (Hm w Hw).
  destruct (m w) as [[a|e|] w']; [|done|done]. by apply Hf.
Qed.

Lemma wspec_conseq (m : Io A) P P' (Q Q' : A -> World -> Prop) X X' :
  wspec P m Q X -> (forall w, P' w -> P w) -> (forall a w, Q a w -> Q' a w) ->
  (forall w, X w -> X' w) -> wspec P' m Q' X'.
Proof.
  intros Hm HP HQ HX w Hw. specialize (Hm w (HP _ Hw)). destruct (m w) as [[a|e|] w']; auto.
Qed.

Lemma wspec_catch (m : Io A) handler P Q X :
  wspec P m Q X -> (forall e, wspec X (handler e) Q X) -> wspec P (catchIo m handler) Q X.
Proof.
  intros Hm Hh w Hw. unfold catchIo. specialize (Hm w Hw).
  destruct (m w) as [[a|e|] w']; [done|by apply Hh|done].
Qed.

Lemma wspec_or (m : Io A) P P' Q X :
  wspec P m Q X -> wspec P' m Q X -> wspec (fun w => P w \/ P' w) m Q X.
Proof. intros H1 H2 w [Hw|Hw]; [by apply H1|by apply H2]. Qed.

Lemma wspec_memory (f : World -> A) P X :
  wspec P (memory f) (fun a w => a = f w /\ P w) X.
Proof. by intros w Hw. Qed.

Lemma wspec_remember (f : World -> World) P (Q : unit -> World -> Prop) X :
  (forall w, P w -> Q tt (f w)) -> wspec P (remember f) Q X.
Proof. intros HQ w Hw. by apply HQ. Qed.

(** A triple over disks, under a condition on the rest of the world. *)
Lemma wspec_spec J (P : Disk -> Prop) (m : Io A) Q (X : Disk -> Prop) :
  spec J P m Q X ->
  wspec (fun w => J w /\ P (w_disk w)) m (fun a w => J w /\ Q a (w_disk w))
    (fun w => J w /\ X (w_disk w)).
Proof.
  intros Hm w [HJ Hw]. destruct (Hm w HJ Hw) as [HJ' Hr].
  destruct (m w) as [[a|e|] w']; by split.
Qed.

Lemma spec_wspec J (P : Disk -> Prop) (m : Io A) Q (X : Disk -> Prop) :
  wspec (fun w => J w /\ P (w_disk w)) m (fun a w => J w /\ Q a (w_disk w))
    (fun w => J w /\ X (w_disk w)) ->
  spec J P m Q X.
Proof.
  intros Hm w HJ Hw. specialize (Hm w (conj HJ Hw)). destruct (m w) as [[a|e|] w']; naive_solver.
Qed.
End wspec_rules.

Lemma wspec_forEach {A} (xs : list A) (body : A -> Io unit) (V : World -> Prop) :
  (forall x, x ∈ xs -> wspec V (body x) (fun _ => V) V) ->
  wspec V (forEach xs body) (fun _ => V) V.
Proof.
  induction xs as [|x xs IH]; intros H; cbn; [by apply wspec_ret|].
  eapply wspec_bind; [apply H, list_elem_of_here|]. intros _u. apply IH.
  intros y Hy. by apply H, list_elem_of_further.
Qed.

(** The same when the condition follows the index. *)
Lemma wspec_forEach_imap {A} (xs : list A) (body : nat * A -> Io unit) (V : nat -> World -> Prop) X :
  (forall j x, xs !! j = Some x -> wspec (V j) (body (j, x)) (fun _ => V (S j)) X) ->
  wspec (V 0%nat) (forEach (imap pair xs) body) (fun _ => V (length xs)) X.
Proof.
  intros H. enough (Hgen : forall ys n, ys = drop n xs ->
    wspec (V n) (forEach (imap (fun i y => ((n + i)%nat, y)) ys) body) (fun _ => V (n + length ys)%nat) X)
    by exact (Hgen xs 0%nat eq_refl).
  induction ys as [|y ys IH]; intros n E; cbn; [by rewrite Nat.add_0_r; apply wspec_ret|].
  assert (Hy : xs !! n = Some y).
  { rewrite <- (Nat.add_0_r n), <- lookup_drop. by rewrite <- E. }
  eapply wspec_bind; [rewrite Nat.add_0_r; by apply H|]. intros _u.
  rewrite (imap_ext _ (fun i z => ((S n + i)%nat, z))) by (intros; cbn; f_equal; lia).
  rewrite <- Nat.add_succ_comm. apply IH. rewrite (drop_S _ _ _ Hy) in E. by injection E.
Qed.

(** What is true at an effect on the database: the others came first. *)
Lemma wspec_tx {A} (tx : Locks -> Z -> Z -> Z -> Tx A) P (Q : A -> World -> Prop)
    (V X : World -> Prop) :
  (forall w, P w -> V (nextTick w).2) ->
  (forall w now, V w -> X (set_now now w)) ->
  (forall w locks called now later a db, V w -> tx locks called now later (w_db w) = Ok (a, db) ->
     Q a (set_now later (set_db db w)) /\ X (set_now later (set_db db w))) ->
  wspec P (dbEffect tx) Q X.
Proof.
  intros HV HX HQ w Hw. unfold dbEffect. specialize (HV w Hw).
  destruct (nextTick w) as [tick w1]. cbn in HV.
  set (later := w_now w1 + Z.of_nat (tk_within tick)).
  destruct (tx (tk_locks tick) (w_now w) (w_now w1) later (w_db w1)) as [[a db]|e] eqn:E.
  - destruct (HQ w1 _ _ _ _ a db HV E) as [HQ' HX'].
    destruct (tk_strike tick) as [s|]; [|done].
    destruct (faultOf s), (tk_done tick); auto.
  - destruct (tk_strike tick) as [s|]; [|by apply HX].
    destruct (faultOf s), (tk_done tick); by apply HX.
Qed.

(** ** Others who keep to the journal *)

Definition byJournal : DB -> DB -> Prop := rtc journal_step.

(** A condition that the steps of the journal keep, on a journal in order. *)
Class Lasting (K : DB -> Prop) : Prop :=
  lasting_step db db' : journalOk db -> journal_step db db' -> K db -> K db'.

Definition inOrder (K : DB -> Prop) (db : DB) : Prop := journalOk db /\ K db.

#[export] Instance inOrder_keeps K : Lasting K -> Keeps byJournal (inOrder K).
Proof.
  intros HK. split.
  - intros db db' Hs. induction Hs as [|db db1 db2 H1 _ IH]; [done|].
    intros [Hok Hdb]. apply IH. split; [by eapply step_journalOk|by eapply HK].
  - intros now id owner token db db' E [Hok Hdb].
    assert (Hs : journal_step db db') by by eapply st_renew.
    split; [by eapply step_journalOk|by eapply HK].
Qed.

Definition anyJournal (db : DB) : Prop := True.
#[export] Instance anyJournal_lasting : Lasting anyJournal.
Proof. by intros ?. Qed.

(** A newer token was given out: the holder's lease is lost. *)
Definition overtaken (holder : Holder) (db : DB) : Prop :=
  exists m, db_mutations db !! hd_id holder = Some m /\ hd_leaseToken holder < ls_token (mu_lease m).
#[export] Instance overtaken_lasting holder : Lasting (overtaken holder).
Proof.
  intros db db' Hok Hs (m & Hm & Ht).
  destruct (token_grows db db' _ m Hok (rtc_once _ _ Hs) Hm) as (m' & Hm' & Hle).
  exists m'. split; [done|lia].
Qed.

Definition committed (id : string) (db : DB) : Prop :=
  exists m, db_mutations db !! id = Some m /\ mu_metadataCommittedAt m <> None.
#[export] Instance committed_lasting id : Lasting (committed id).
Proof.
  intros db db' Hok Hs (m & Hm & Ht). destruct (mu_metadataCommittedAt m) as [t|] eqn:E; [|done].
  destruct (committed_follow db db' id m t Hok (rtc_once _ _ Hs) Hm E) as (m' & Hm' & Hc & _).
  exists m'. split; [done|congruence].
Qed.

(** A transaction that is one step of the journal, or changes nothing. *)
Definition journalTx {A} (tx : Locks -> Z -> Z -> Z -> Tx A) : Prop :=
  forall locks called now later db a db', tx locks called now later db = Ok (a, db') ->
    db' = db \/ journal_step db db'.

Lemma journalTx_keeps {A} (tx : Locks -> Z -> Z -> Z -> Tx A) K `{!Lasting K} :
  journalTx tx -> txKeeps (inOrder K) tx.
Proof.
  intros Htx locks called now later db a db' E [Hok HK].
  destruct (Htx _ _ _ _ _ _ _ E) as [->|Hs]; [done|].
  split; [by eapply step_journalOk|by eapply lasting_step].
Qed.

Section calls.
Context `{Runtime} (R : DB -> DB -> Prop).

(** Whatever a journal call is made under, it keeps or is refused. *)
Lemma spec_journal {A} (tx : Locks -> Z -> Z -> Z -> Tx A) K I `{!Lasting K} P :
  journalTx tx ->
  spec (during byJournal (inOrder K) I) P (dbEffect tx) (fun _ => P) P.
Proof. intros Htx. apply spec_tx; [apply _|]. by apply journalTx_keeps. Qed.

Lemma renew_journal holder :
  journalTx (fun _ called _ _ => renewStorageMutationLease called STORAGE_MUTATION_LEASE_MS
    (hd_id holder) (hd_leaseOwner holder) (hd_leaseToken holder)).
Proof. intros ? ? ? ? ? [] ? E. right. by eapply st_renew. Qed.

Lemma markApplied_journal holder step :
  journalTx (fun locks _ now later => markStorageMutationStepApplied locks now later
    (hd_id holder) (sp_id step) (hd_leaseOwner holder) (hd_leaseToken holder)).
Proof. intros ? ? ? ? ? [] ? E. right. by eapply st_step_applied. Qed.

Lemma markFailed_journal holder step message :
  journalTx (fun locks _ now _ => markStorageMutationStepFailed locks now
    (hd_id holder) (sp_id step) (hd_leaseOwner holder) (hd_leaseToken holder) message).
Proof. intros ? ? ? ? ? [] ? E. right. by eapply st_step_failed. Qed.

Lemma find_journal id :
  journalTx (fun _ _ _ _ => read (fun db => db_mutations db !! id)).
Proof. intros ? ? ? ? ? ? ? E. left. unfold read in E. by injection E as _ <-. Qed.

Lemma commit_journal {T} (input : ExecuteInput T) deadline :
  keepsJournal (ei_commitMetadata input) ->
  journalTx (fun locks _ now later =>
    if deadline <=? now then throw StorageAdmissionBusyError
    else commitStorageMutationMetadata locks now later (ei_id input)
           (mu_ownerUserId (ei_mutation input)) (ei_leaseOwner input) (ei_leaseToken input)
           (ei_commitMetadata input) (ei_resultJson input)).
Proof.
  intros Hk ? ? ? ? ? x ? E. right. destruct (deadline <=? now); [done|]. by eapply st_commit.
Qed.

Lemma begin_journal holder :
  journalTx (fun locks called now _ => beginStorageMutationFinalization locks called now
    (hd_id holder) (hd_leaseOwner holder) (hd_leaseToken holder)).
Proof. intros ? ? ? ? ? [] ? E. right. by eapply st_begin_finalization. Qed.

Lemma complete_journal holder resultJson :
  journalTx (fun locks _ now later => completeStorageMutation locks now later
    (hd_id holder) (hd_leaseOwner holder) (hd_leaseToken holder) resultJson).
Proof. intros ? ? ? ? ? [] ? E. right. by eapply st_complete. Qed.

Lemma abort_journal holder rejection message :
  journalTx (fun locks _ now later => abortStorageMutation locks now later
    (hd_id holder) (hd_leaseOwner holder) (hd_leaseToken holder) rejection message).
Proof. intros ? ? ? ? ? [] ? E. right. by eapply st_abort. Qed.

Lemma recovery_journal holder message :
  journalTx (fun _ called _ _ => requireStorageMutationRecovery called (hd_id holder)
    (hd_leaseOwner holder) (hd_leaseToken holder) message).
Proof. intros ? ? ? ? ? [] ? E. right. by eapply st_recover. Qed.

Lemma retry_journal holder message :
  journalTx (fun _ called _ _ => retryStorageMutation called (hd_id holder)
    (hd_leaseOwner holder) (hd_leaseToken holder) message).
Proof. intros ? ? ? ? ? [] ? E. right. by eapply st_retry. Qed.

Lemma nothing_journal : journalTx (fun _ _ _ _ => mret tt).
Proof. intros ? ? ? ? ? [] ? E. left. by injection E as <-. Qed.
End calls.

Create HintDb journal.
#[export] Hint Resolve renew_journal markApplied_journal markFailed_journal find_journal
  commit_journal begin_journal complete_journal abort_journal recovery_journal retry_journal
  nothing_journal : journal.

(** A hook only interrupts: it returns, throws, or the process dies in it. *)
Definition onlyInterrupts (hook : StorageMutationExecutionBoundary -> option Step -> Io unit) :
    Prop :=
  forall boundary step w, (hook boundary step w).2 = w.

Definition keepsDisk {A} (J : World -> Prop) (P : Disk -> Prop) (m : Io A) : Prop :=
  spec J P m (fun _ => P) P.

Section keeps_rules.
Context (J : World -> Prop) `{!Stable J} (P : Disk -> Prop).

Lemma keepsDisk_ret {A} (a : A) : keepsDisk J P (mret a).
Proof. by apply spec_ret_for. Qed.

Lemma keepsDisk_throw {A} e : keepsDisk J P (throwIo e : Io A).
Proof. by apply spec_throw_for. Qed.

Lemma keepsDisk_bind {A B} (m : Io A) (f : A -> Io B) :
  keepsDisk J P m -> (forall a, keepsDisk J P (f a)) -> keepsDisk J P (m ≫= f).
Proof. intros Hm Hf. by eapply spec_bind. Qed.

Lemma keeps_catch {A} (m : Io A) handler :
  keepsDisk J P m -> (forall e, keepsDisk J P (handler e)) -> keepsDisk J P (catchIo m handler).
Proof. intros Hm Hh. by eapply spec_catch. Qed.

Lemma keeps_ignore m : keepsDisk J P m -> keepsDisk J P (ignoreErrors m).
Proof. intros Hm. apply keeps_catch; [done|]. intros e. apply keepsDisk_ret. Qed.

Lemma keeps_forEach {A} (xs : list A) body :
  (forall x, x ∈ xs -> keepsDisk J P (body x)) -> keepsDisk J P (forEach xs body).
Proof. apply spec_forEach. Qed.

Lemma keeps_observes {A} (m : Io A) : observes m -> keepsDisk J P m.
Proof. intros Hm. by apply spec_observes_for. Qed.

Lemma keeps_memory {A} (f : World -> A) : keepsDisk J P (memory f).
Proof. apply spec_memory. Qed.

Lemma keeps_memory_bind {A B} (g : World -> A) (f : A -> Io B) :
  (forall w, J w -> keepsDisk J P (f (g w))) -> keepsDisk J P (memory g ≫= f).
Proof. intros Hf w HJ Hw. by apply (Hf w). Qed.

(** What never returns need not be followed. *)
Lemma keeps_refused {A B} (m : Io A) (f : A -> Io B) :
  spec J P m (fun _ _ => False) P -> keepsDisk J P (m ≫= f).
Proof. intros Hm. eapply spec_bind; [done|]. by intros a w _ []. Qed.

Lemma spec_lift_bind {A B} (r : result IoError A) (f : A -> Io B) Q X :
  (forall d, P d -> X d) -> (forall a, r = Ok a -> spec J P (f a) Q X) ->
  spec J P (liftIo r ≫= f) Q X.
Proof.
  intros HX Hf. destruct r as [a|e].
  - intros w HJ Hw. by apply Hf.
  - intros w HJ Hw. split; [done|]. by apply HX.
Qed.

Context (HP : nodesOnly P).

Lemma keeps_syncDirectory `{Runtime} p : keepsDisk J P (syncDirectory p).
Proof. by apply spec_syncDirectory. Qed.

Lemma keeps_syncFile `{Runtime} p : keepsDisk J P (syncFile p).
Proof. by apply spec_syncFile. Qed.

Lemma keeps_syncParents `{Runtime} ps : keepsDisk J P (syncParents ps).
Proof. by apply spec_syncParents. Qed.
End keeps_rules.

Create HintDb keeps.
#[export] Hint Resolve keepsDisk_ret keepsDisk_throw keepsDisk_bind keeps_catch keeps_ignore keeps_memory
  keeps_observes keeps_syncDirectory keeps_syncFile keeps_syncParents : keeps.
#[export] Hint Extern 3 (keepsDisk _ _ (match ?x with _ => _ end)) => destruct x : keeps.

(** ** The parts of the executor *)

Section executor_keeps.
Context `{Runtime} (J : World -> Prop) `{!Stable J} (P : Disk -> Prop).

(** The removal of empty directories, when removing one keeps [P]. *)
Lemma keeps_removeArtifactDirectory p :
  nodesOnly P -> (forall d u d', P d -> rmdir p d = Ok (u, d') -> P d') ->
  keepsDisk J P (removeArtifactDirectory p).
Proof.
  intros HP Hrm. apply keeps_catch; [|intros e; eauto with keeps].
  apply keepsDisk_bind; [|intros ?; apply keepsDisk_bind; eauto with keeps].
  apply spec_fs; [done|done|]. intros d a d' Hd E. split; by eapply Hrm.
Qed.

Lemma keeps_removeArtifactsUp fuel root current :
  nodesOnly P ->
  (forall p d u d', root ⊑ p -> p ⊑ current -> P d -> rmdir p d = Ok (u, d') -> P d') ->
  keepsDisk J P (removeArtifactsUp fuel root current).
Proof.
  intros HP. revert current. induction fuel as [|fuel IH]; intros current Hrm; cbn;
    [eauto with keeps|].
  case_bool_decide as Hroot; [|eauto with keeps].
  apply keepsDisk_bind; [apply keeps_removeArtifactDirectory; eauto|].
  intros r. case_bool_decide; [eauto with keeps|]. apply IH. intros p d u d' Hr Hp.
  apply Hrm; [done|]. etrans; [done|]. apply dirname_prefix.
Qed.

Lemma keeps_removeEmptyArtifactAncestors key target :
  nodesOnly P ->
  (forall owned p d u d', getOwnedArtifactRoot key = Ok (Some owned) ->
     oa_artifactRoot owned ⊑ p -> p ⊑ dirname target -> P d -> rmdir p d = Ok (u, d') -> P d') ->
  keepsDisk J P (removeEmptyArtifactAncestors key target).
Proof.
  intros HP Hrm. unfold removeEmptyArtifactAncestors.
  apply spec_lift_bind; [done|]. intros owned Howned.
  destruct owned as [owned|]; [|by apply keepsDisk_ret].
  apply keepsDisk_bind; [|intros [|]; eauto with keeps].
  apply keeps_removeArtifactsUp; [done|]. intros p d u d' Hr Hp. by eapply Hrm.
Qed.

Lemma keeps_removeUndoneDirectory step :
  nodesOnly P ->
  (forall p d u d', resolveMutationStoragePath (stepTarget step) = Ok p ->
     P d -> rmdir p d = Ok (u, d') -> P d') ->
  keepsDisk J P (removeUndoneDirectory step).
Proof.
  intros HP Hrm. unfold removeUndoneDirectory. case_match; [eauto with keeps|].
  apply spec_lift_bind; [done|]. intros target Ht.
  apply keepsDisk_bind; [eauto with observes keeps|]. intros _u.
  apply keepsDisk_bind; [apply keeps_removeArtifactDirectory; eauto|].
  intros []; eauto with observes keeps.
Qed.

(** The undoing of a phase. *)
Lemma keeps_undoForwardSteps lease (ok : Step -> Prop) :
  (forall w, J w -> Forall ok (w_steps w)) ->
  (forall step, ok step -> keepsDisk J P (undoStep lease step)) ->
  keepsDisk J P (undoForwardSteps lease).
Proof.
  intros Hok Hundo. unfold undoForwardSteps. apply keeps_memory_bind. intros w HJ. apply keeps_forEach.
  intros step Hs. rewrite elem_of_reverse in Hs. apply Hundo. specialize (Hok w HJ).
  by eapply Forall_forall in Hok.
Qed.

(** The steps of a phase. *)
Lemma keeps_applySteps holder phase leaseFailure afterStep (ok : Step -> Prop) :
  (forall w, J w -> Forall ok (w_steps w)) ->
  (forall index w, J w -> J (set_memory (alter markedApplied index (w_steps w)) w)) ->
  keepsDisk J P (renewLease holder) -> (forall step, keepsDisk J P (afterStep step)) ->
  (forall step, keepsDisk J P (markApplied holder step)) ->
  (forall step e, keepsDisk J P (markFailed holder step e)) ->
  (forall step, ok step -> shouldApplyStorageStep step phase = true ->
     keepsDisk J P (applyFilesystemStep step (assertLease leaseFailure holder))) ->
  keepsDisk J P (applyStorageMutationSteps holder phase leaseFailure afterStep).
Proof.
  intros Hok Hmem Hrenew Hafter Happlied Hfailed Hstep.
  unfold applyStorageMutationSteps. apply keeps_memory_bind. intros w HJ. specialize (Hok w HJ). apply keeps_forEach.
  intros [index step] Hin. apply list_elem_of_lookup in Hin as [i Hi].
  rewrite list_lookup_imap in Hi. destruct (w_steps w !! i) as [s|] eqn:Es; [|done].
  injection Hi as <- <-. assert (Hs : ok s) by by eapply Forall_lookup_1.
  unfold applyOneStep. destruct (shouldApplyStorageStep s phase) eqn:Esh; cbn [negb];
    [|eauto with keeps].
  apply keepsDisk_bind; [ |intros _u].
  { unfold assertLease. apply keepsDisk_bind; [eauto with keeps|]. intros []; eauto with keeps. }
  apply keepsDisk_bind; [ |intros _u2].
  { apply keeps_catch; [auto|]. intros e. eauto with keeps. }
  apply keepsDisk_bind; [auto|intros _u3]. apply keepsDisk_bind; [auto|intros _u4].
  intros w1 HJ1 Hw1. split; [|done]. by apply Hmem.
Qed.

(** Waiting to be admitted. *)
Lemma keeps_pause ms : (forall w now, J w -> J (set_now now w)) -> keepsDisk J P (pause ms).
Proof.
  intros Hnow w HJ Hw. unfold pause. specialize (Hnow w (w_now w + ms) HJ).
  pose proof (stable_tick _ Hnow) as H1. pose proof (nextTick_disk (set_now (w_now w + ms) w)) as Hd.
  destruct (nextTick _) as [tick w1]. cbn in *.
  destruct (tk_strike tick) as [[]|]; cbn; (split; [done|by rewrite Hd]).
Qed.

Lemma keeps_retryAdmission {T} fuel attempt deadline (operation : Z -> Io T) :
  (forall w now, J w -> J (set_now now w)) -> (forall t, keepsDisk J P (operation t)) ->
  keepsDisk J P (retryStorageAdmission fuel attempt deadline operation).
Proof.
  intros Hnow Hop. revert attempt. induction fuel as [|fuel IH]; intros attempt; cbn;
    [eauto with keeps|].
  apply keeps_catch; [done|]. intros e. destruct (negb _); [eauto with keeps|].
  apply keepsDisk_bind; [eauto with keeps|]. intros now. case_match; [eauto with keeps|].
  apply keepsDisk_bind; [by apply keeps_pause|]. intros _u.
  apply keepsDisk_bind; [eauto with keeps|]. intros now'. case_match; eauto with keeps.
Qed.
End executor_keeps.
