(* ===== verification/DeleteFacts.v ===== *)
(** * Deletions, and where the entries of a disk went

    What [applyDelete] can have removed when it returns, throws or is killed:
    the node its step names, once the disk was found to hold there what the step
    captured, and directories of the mutation's own artifacts that are empty.

    [traced]: every file of one disk is found on another one, at its own place or
    at the place a rename took it to, and the other disk holds nothing else,
    except that what lay at a doomed place may be gone. *)

From Stdlib Require Import Ascii.
From Stdlib Require String.
From S2P Require Import Prelude Database MutationMetadata MutationPrepare Journal Disk Io StoragePaths TreeManifest ExecutorSteps Executor ManifestFacts StepFacts RenameFacts ExecutorWorld.

Open Scope Z_scope.

Section delete_facts.
Context `{Runtime}.

(** ** One removal *)

Lemma rmdir_ok p d u d' :
  wellFormed d -> rmdir p d = Ok (u, d') ->
  nodeAt d p = Some NDirectory /\ (forall r, r <> [] -> nodeAt d (p ++ r) = None) /\
  forall q, nodeAt d' q = if decide (q = p) then None else nodeAt d q.
Proof.
  intros Hwf E. pose proof (removal_ok _ _ _ _ Hwf (or_introl E)) as (Hp & _ & Ed).
  unfold rmdir in E. destruct (lstat p d) as [[n d1]|] eqn:El; [|done].
  apply lstat_ok in El as [Hn ->]; [|done]. destruct n; try done.
  destruct (entries d p) as [|] eqn:Ee; [|done].
  assert (Hbelow : forall r, r <> [] -> nodeAt d (p ++ r) = None).
  { intros [|name r] Hr; [done|]. destruct (nodeAt d (p ++ name :: r)) as [n|] eqn:Eq; [|done].
    exfalso. apply (wf_below _ Hwf (p ++ [name]) (p ++ name :: r)); [congruence| |].
    { exists r. by rewrite <- app_assoc. }
    by apply (proj1 (entries_nil d p)). }
  split_and!; [done|done|]. intros q. rewrite Ed, nodeAt_markUnsynced.
  destruct (decide (q = p)) as [->|Hq].
  - apply nodeAt_without_gone. exists p. by split; [constructor|].
  - destruct (decide (p ⊑ q)) as [[r ->]|Hpq].
    + rewrite nodeAt_without_gone, Hbelow; [done| |].
      * intros ->. by rewrite app_nil_r in Hq.
      * exists p. split; [constructor|by exists r].
    + apply nodeAt_without_kept. by intros (p' & ->%list_elem_of_singleton & ?).
Qed.

(** Removing a tree, in one piece or partly, removes what lies below it. *)
Lemma without_below ps p d q :
  Forall (fun p' => p ⊑ p') ps ->
  nodeAt (without ps d) q = nodeAt d q \/ (nodeAt (without ps d) q = None /\ p ⊑ q).
Proof.
  intros Hps. destruct (nodeAt (without ps d) q) as [n|] eqn:E.
  - left. by apply nodeAt_without_Some in E as [-> _].
  - destruct (decide (p ⊑ q)) as [Hq|Hq]; [by right|left].
    rewrite <- E. apply nodeAt_without_kept. intros (p' & Hp' & Hq').
    eapply Forall_forall in Hps; [|done]. apply Hq. by etrans.
Qed.

(** ** What a step captured *)

(** The node at the target is the one that the step was planned to delete. *)
Definition captured (step : Step) (ownedPartial : bool) (d : Disk) (t : path) : Prop :=
  match in_action (sp_input step) with
  | delete_file_step =>
      exists content, nodeAt d t = Some (NFile content) /\
        Some (sha256 content) = lowerCase <$> in_expectedChecksum (sp_input step)
  | delete_tree_step =>
      nodeAt d t = Some NDirectory /\
      (ownedPartial = true \/
       exists records, look (readTreeManifestRecords t) d = Done records /\
         recordsMatch (default "" (in_treeManifestDigest (sp_input step))) records = true)
  | _ => nodeAt d t = Some NDirectory /\ forall r, r <> [] -> nodeAt d (t ++ r) = None
  end.

Definition deleteTarget (step : Step) (t : path) : Prop :=
  resolveMutationStoragePath (default "" (deleteKey step)) = Ok t.

(** An empty directory the mutation made on the way to the target. *)
Definition ownArtifactDirectory (step : Step) (d : Disk) (t q : path) : Prop :=
  nodeAt d q = Some NDirectory /\ q ⊑ dirname t /\
  exists owned, getOwnedArtifactRoot (default "" (deleteKey step)) = Ok (Some owned) /\
    oa_artifactRoot owned ⊑ q.

Definition deleteReach (step : Step) (ownedPartial : bool) (d0 d : Disk) : Prop :=
  wellFormed d /\
  forall q, nodeAt d q = nodeAt d0 q \/
    (nodeAt d q = None /\ exists t, deleteTarget step t /\
       (ownArtifactDirectory step d0 t q \/ (t ⊑ q /\ captured step ownedPartial d0 t))).

Lemma deleteReach_nodes step ownedPartial d0 : nodesOnly (deleteReach step ownedPartial d0).
Proof.
  intros d d' E [Hwf Hr]. split; [by eapply wellFormed_nodes|]. intros q. unfold nodeAt in *.
  rewrite <- E. apply Hr.
Qed.

(** The checksum of a step is asserted of the file it is for. *)
Lemma validate_checksum d t step :
  wellFormed d -> given (in_expectedChecksum (sp_input step)) = true ->
  look (validateExpectedNode t step) d = Done tt ->
  exists content, nodeAt d t = Some (NFile content) /\
    Some (sha256 content) = lowerCase <$> in_expectedChecksum (sp_input step).
Proof.
  intros Hwf Hg Hv. unfold validateExpectedNode in Hv.
  rewrite look_bind in Hv by eauto with observes.
  destruct (look (pathState t) d) as [state| |] eqn:Es; [|done..].
  apply look_pathState_inv in Es; [|done].
  unfold assertExpectedNodeExists, assertExpectedNodeType, assertExpectedNodeSize in Hv.
  rewrite look_bind, look_assertIo in Hv by eauto with observes.
  destruct Es as [[-> _]|(n & -> & Hn)]; [done|]. rewrite exists'_stateOf in Hv.
  do 2 (rewrite look_bind, look_assertIo in Hv by eauto with observes;
        match type of Hv with context [if ?b then Done tt else _] => destruct b; [|done] end).
  rewrite look_bind in Hv by eauto with observes. unfold assertExpectedNodeChecksum in Hv.
  rewrite Hg in Hv. cbn [negb] in Hv.
  destruct n as [content| | |]; cbn [stateOf isType] in Hv.
  2-4: rewrite bool_decide_eq_false_2 in Hv by done;
    rewrite look_bind, look_ret in Hv by eauto with observes;
    rewrite look_assertIo in Hv; destruct (in_expectedChecksum _); done.
  exists content. split; [done|]. rewrite bool_decide_eq_true_2 in Hv by done.
  rewrite look_bind in Hv by eauto with observes.
  rewrite look_bind, (look_computeFileSha256 _ _ content), look_ret, look_assertIo in Hv
    by eauto with observes.
  by case_bool_decide.
Qed.

(** ** A deletion under interleavings and faults *)

Section interleaved.
Context (J : World -> Prop) `{!Stable J}.
Context (lease : Io unit) (Hlease : forall P, spec J P lease (fun _ => P) P).
Context (step : Step) (ownedPartial : bool) (d0 : Disk) (Hwf0 : wellFormed d0).

#[local] Notation Reach := (deleteReach step ownedPartial d0).
#[local] Notation Same := (fun d => d = d0).

Lemma same_reach d : d = d0 -> Reach d.
Proof. intros ->. split; [done|]. intros q. by left. Qed.
#[local] Hint Resolve same_reach : core.

(** Removing below the captured target. *)
Lemma removed_reach t ps marks :
  deleteTarget step t -> t <> [] -> Forall (fun p => t ⊑ p) ps -> captured step ownedPartial d0 t ->
  Reach (markUnsynced marks (without ps d0)).
Proof.
  intros Ht Hne Hps Hc. split.
  - apply markUnsynced_wf, without_wf; [|done]. intros Hin. eapply Forall_forall in Hps; [|done].
    by apply prefix_nil_inv in Hps.
  - intros q. rewrite nodeAt_markUnsynced.
    destruct (without_below ps t d0 q Hps) as [|[Hn Hq]]; [by left|right].
    split; [done|]. exists t. auto.
Qed.

Lemma spec_removal t (f : Call unit) :
  deleteTarget step t ->
  (forall u d', f d0 = Ok (u, d') -> rmdir t d0 = Ok (u, d') \/ rm t d0 = Ok (u, d') \/ rmTree t d0 = Ok (u, d')) ->
  (forall u d', f d0 = Ok (u, d') -> captured step ownedPartial d0 t) ->
  spec J Same (fs f) (fun _ d => Reach d) Reach.
Proof.
  intros Ht Hf Hc. apply spec_fs; [apply _|auto|]. intros d u d' -> E.
  enough (Reach d') by done. pose proof (Hc _ _ E). apply Hf in E.
  apply removal_ok in E as (Hne & _ & ->); [|done].
  apply (removed_reach t); [done..| |done]. by repeat constructor.
Qed.

Lemma spec_deleteFile t :
  deleteTarget step t -> in_action (sp_input step) = delete_file_step ->
  spec J Same (deleteMutationFile t step lease) (fun _ => Reach) Reach.
Proof.
  intros Ht Ha. unfold deleteMutationFile.
  apply (spec_bind J _ _ _ _ (fun _ d =>
    given (in_expectedChecksum (sp_input step)) = true /\ d = d0)).
  { apply spec_assert_for; auto. }
  intros _u. apply spec_pure. intros Hg.
  apply (spec_bind J _ _ _ _ (fun _ d =>
    look (validateExpectedNode t step) d0 = Done tt /\ d = d0)).
  { apply spec_observes_for; [apply _|eauto with observes|auto|]. by intros d [] -> E. }
  intros _u2. apply spec_pure. intros Hv.
  apply (spec_bind J _ _ _ _ (fun _ d => d = d0)).
  { eapply spec_conseq; [apply (Hlease Same)|done|done|auto]. }
  intros _u3. apply (spec_removal t); [done|auto|]. intros _ _ _.
  unfold captured. rewrite Ha. by apply validate_checksum.
Qed.

Lemma spec_deleteTree t state :
  deleteTarget step t -> t <> [] -> in_action (sp_input step) = delete_tree_step ->
  (exists n, state = stateOf n /\ nodeAt d0 t = Some n) ->
  spec J Same (deleteMutationTree t state step lease ownedPartial) (fun _ => Reach) Reach.
Proof.
  intros Ht Hne Ha (n & -> & Hn). unfold deleteMutationTree.
  apply (spec_bind J _ _ _ _ (fun _ d => isType type_directory (stateOf n) = true /\ d = d0)).
  { apply spec_assert_for; auto. }
  intros _u. apply spec_pure. intros Hdir.
  apply (spec_bind J _ _ _ _ (fun _ => Same)); [apply spec_assert_for; auto|]. intros _u2.
  apply (spec_bind J _ _ _ _ (fun matches d =>
    look (treeManifestMatches t (default "" (in_treeManifestDigest (sp_input step)))) d0
      = Done matches /\ d = d0)).
  { apply spec_observes_for; [apply _|eauto with observes|auto|]. by intros d b -> E. }
  intros matches. apply spec_pure. intros Hm.
  apply (spec_bind J _ _ _ _ (fun _ d => matches || ownedPartial = true /\ d = d0)).
  { apply spec_assert_for; auto. }
  intros _u3. apply spec_pure. intros Hor.
  apply (spec_bind J _ _ _ _ (fun _ => Same)).
  { eapply spec_conseq; [apply (Hlease Same)|done|done|auto]. }
  intros _u4.
  assert (Hc : captured step ownedPartial d0 t).
  { unfold captured. rewrite Ha. split; [by destruct n|].
    destruct ownedPartial; [by left|right]. rewrite orb_false_r in Hor. subst matches.
    unfold treeManifestMatches in Hm. rewrite look_bind in Hm by eauto with observes.
    destruct (look (readTreeManifestRecords t) d0) as [records| |]; [|done..].
    exists records. rewrite look_ret in Hm. by injection Hm as ->. }
  apply spec_diskEffect; [apply _|auto| |].
  - intros d u d' -> E. pose proof (removal_ok _ _ _ _ Hwf0 (or_intror (or_intror E))) as (_ & _ & ->).
    apply (removed_reach t); [done..| |done]. by repeat constructor.
  - intros tick d ->. destruct (tk_done tick).
    + destruct (rmTree t d0) as [[u d']|] eqn:E; [|auto].
      pose proof (removal_ok _ _ _ _ Hwf0 (or_intror (or_intror E))) as (_ & _ & ->).
      apply (removed_reach t); [done..| |done]. by repeat constructor.
    + apply (removed_reach t); [done..| |done]. apply Forall_forall.
      by intros p [? _]%list_elem_of_filter.
Qed.

Lemma spec_removeDirectory t state :
  deleteTarget step t ->
  in_action (sp_input step) <> delete_file_step -> in_action (sp_input step) <> delete_tree_step ->
  spec J Same (removeMutationDirectory t state lease) (fun _ => Reach) Reach.
Proof.
  intros Ht Hf Htree. unfold removeMutationDirectory.
  apply (spec_bind J _ _ _ _ (fun _ => Same)); [apply spec_assert_for; auto|]. intros _u.
  apply (spec_bind J _ _ _ _ (fun _ => Same)).
  { eapply spec_conseq; [apply (Hlease Same)|done|done|auto]. }
  intros _u2. apply (spec_catch J _ _ _ _ Reach).
  - apply (spec_removal t); [done|auto|]. intros u d' E.
    apply rmdir_ok in E as (Hd & Hb & _); [|done]. unfold captured.
    by destruct (in_action (sp_input step)).
  - intros e. assert (Hx : forall e', spec J Reach (throwIo e' : Io unit) (fun _ => Reach) Reach)
      by (intros; by apply spec_throw_for).
    by repeat case_match.
Qed.

(** An empty directory of the mutation's artifacts goes. *)
Lemma ancestor_reach t owned p d u d' :
  deleteTarget step t ->
  getOwnedArtifactRoot (default "" (deleteKey step)) = Ok (Some owned) ->
  oa_artifactRoot owned ⊑ p -> p ⊑ dirname t -> Reach d -> rmdir p d = Ok (u, d') -> Reach d'.
Proof.
  intros Ht Ho Hr Hp [Hwf Hd] E. pose proof (rmdir_ok _ _ _ _ Hwf E) as (Hdir & _ & Hq).
  split; [by eapply removal_wf; [|left]|]. intros q. rewrite Hq. case_decide as Eq; [|apply Hd].
  subst q. right. split; [done|]. exists t. split; [done|left].
  destruct (Hd p) as [E0|[E0 _]]; [|congruence]. split; [congruence|]. eauto.
Qed.

Lemma spec_applyDelete :
  spec J Same (applyDelete step lease ownedPartial) (fun _ => Reach) Reach.
Proof.
  assert (Hn : nodesOnly Reach) by apply deleteReach_nodes.
  unfold applyDelete. apply (spec_bind J _ _ _ _ (fun _ => Same)); [apply spec_assert_for; auto|].
  intros _u. apply spec_lift_bind; [auto|]. intros t Ht.
  assert (Hne : t <> []) by by apply resolve_keyPath in Ht as [].
  apply (spec_bind J _ _ _ _ (fun _ => Same)).
  { by apply spec_observes_for; [apply _|eauto with observes|auto|]. }
  intros _u2. apply (spec_bind J _ _ _ _ (fun state d =>
    (state = missing \/ exists n, state = stateOf n /\ nodeAt d0 t = Some n) /\ d = d0)).
  { apply spec_observes_for; [apply _|eauto with observes|auto|]. intros d state -> E.
    apply look_pathState_inv in E as [[-> _]|?]; auto. }
  intros state. apply spec_pure. intros Hst.
  assert (Hup : keepsDisk J Reach
    (removeEmptyArtifactAncestors (default "" (deleteKey step)) t)).
  { apply keeps_removeEmptyArtifactAncestors; [apply _|done|]. intros owned p d u d'.
    by apply ancestor_reach. }
  destruct (exists' state) eqn:Ex; cbn [negb].
  - destruct Hst as [->|Hst]; [done|].
    apply (spec_bind J _ _ _ _ (fun _ => Reach)).
    { unfold deleteExistingMutationNode. destruct (in_action (sp_input step)) eqn:Ea;
        [by apply spec_removeDirectory; rewrite ?Ea..|by apply spec_deleteFile
        |by apply spec_deleteTree|by apply spec_removeDirectory; rewrite ?Ea]. }
    intros _u3. apply (keepsDisk_bind J Reach); [eauto with keeps|]. intros _u4.
    apply (keepsDisk_bind J Reach); [done|]. intros b. eauto with keeps.
  - apply (spec_conseq J _ Reach _ (fun _ => Reach) _ Reach); [|auto..].
    apply (keepsDisk_bind J Reach); [done|]. intros [|]; eauto with keeps.
Qed.
End interleaved.
End delete_facts.

(** The lease's holder may delete what is left of a tree it moved to its own
    quarantine. *)
Definition ownedPartialOf `{Runtime} (steps : list Step) (step : Step) : bool :=
  match isOwnedQuarantineTreeDelete steps step with Ok b => b | Throw _ => false end.

Lemma spec_anyLease `{Runtime} leaseFailure holder P :
  spec anyWorld P (assertLease leaseFailure holder) (fun _ => P) P.
Proof.
  apply (keepsDisk_bind anyWorld P); [apply keeps_memory|]. intros [e|]; [apply keepsDisk_throw|].
  by apply spec_db; [apply _|..].
Qed.

(** C39: a deletion removes only what its step captured. Wherever a cleanup step
    is stopped, each path of the disk holds what it held, or holds nothing now;
    and it holds nothing only at or below the step's target, after the target was
    found to be the file of the recorded checksum, the tree of the recorded
    manifest (or what is left of a tree this mutation moved to its quarantine),
    or an empty directory, and in directories of the mutation's own artifact. *)
Theorem deletes_only_what_was_captured `{Runtime} step leaseFailure holder w :
  wellFormed (w_disk w) -> isCleanup (in_action (sp_input step)) = true ->
  let '(_, w') := applyFilesystemStep step (assertLease leaseFailure holder) w in
  wellFormed (w_disk w') /\
  forall q, nodeAt (w_disk w') q = nodeAt (w_disk w) q \/
    (nodeAt (w_disk w') q = None /\ exists t, deleteTarget step t /\
       (ownArtifactDirectory step (w_disk w) t q \/
        (t ⊑ q /\ captured step (ownedPartialOf (w_steps w) step) (w_disk w) t))).
Proof.
  intros Hwf Hc.
  assert (Ha : applyFilesystemStep step (assertLease leaseFailure holder) w
    = (allowed ← liftIo (isOwnedQuarantineTreeDelete (w_steps w) step);
       applyDelete step (assertLease leaseFailure holder) allowed) w).
  { unfold applyFilesystemStep. by destruct (in_action (sp_input step)). }
  rewrite Ha. unfold ownedPartialOf.
  destruct (isOwnedQuarantineTreeDelete (w_steps w) step) as [allowed|e].
  2:{ cbn. split; [done|]. intros q. by left. }
  change ((allowed' ← liftIo (Ok allowed); applyDelete step (assertLease leaseFailure holder) allowed') w)
    with (applyDelete step (assertLease leaseFailure holder) allowed w).
  pose proof (spec_applyDelete anyWorld (assertLease leaseFailure holder)
    (spec_anyLease leaseFailure holder) step allowed (w_disk w) Hwf w I eq_refl) as [_ Hr].
  destruct (applyDelete _ _ _ w) as [[a|e|] w']; exact Hr.
Qed.

(** Files and links; directories hold nothing of their own. *)
Definition entryAt (d : Disk) (p : path) (n : Node) : Prop :=
  nodeAt d p = Some n /\ n <> NDirectory.

Definition traced (named doomed : path -> Prop) (d0 d : Disk) : Prop :=
  exists f : path -> path,
    Inj (=) (=) f /\
    (forall p, ~ named p -> f p = p) /\
    (forall p n, entryAt d0 p n -> entryAt d (f p) n \/ doomed (f p)) /\
    (forall q n, entryAt d q n -> exists p, f p = q /\ entryAt d0 p n).

Definition nowhere (p : path) : Prop := False.

Lemma traced_refl named doomed d : traced named doomed d d.
Proof. exists id. split_and!; [apply _|done|by left|eauto]. Qed.

Lemma traced_doomed named doomed d0 d : traced named nowhere d0 d -> traced named doomed d0 d.
Proof.
  intros (f & Hinj & Hn & Hf & Hb). exists f. split_and!; [done|done| |done].
  intros p n Hp. destruct (Hf p n Hp) as [|[]]. by left.
Qed.

(** Directories come and go. *)
Lemma traced_same named doomed d0 d d' :
  traced named doomed d0 d -> (forall p n, entryAt d' p n <-> entryAt d p n) ->
  traced named doomed d0 d'.
Proof.
  intros (f & Hinj & Hn & Hf & Hb) He. exists f. split_and!; [done|done| |].
  - intros p n Hp. rewrite He. by apply Hf.
  - intros q n. rewrite He. apply Hb.
Qed.

Lemma traced_nodes named doomed d0 d d' :
  dk_nodes d = dk_nodes d' -> traced named doomed d0 d -> traced named doomed d0 d'.
Proof.
  intros E Ht. eapply traced_same; [done|]. intros p n. unfold entryAt, nodeAt. by rewrite E.
Qed.

Lemma grown_entries t d d' p n : grown t d d' -> entryAt d' p n <-> entryAt d p n.
Proof.
  intros Hg. unfold entryAt. destruct (Hg p) as [->|(-> & _ & ->)]; [done|].
  split; [by intros [[= <-] ?]|by intros []].
Qed.

Lemma traced_moved named s t d0 d d' :
  traced named nowhere d0 d -> wellFormed d -> nodeAt d t = None -> ~ s ⊑ t -> ~ t ⊑ s ->
  (forall p, s ⊑ p -> named p) -> (forall p, t ⊑ p -> named p) ->
  dk_nodes d' = renamedNodes s t (dk_nodes d) ->
  traced named nowhere d0 d'.
Proof.
  intros (f & Hinj & Hn & Hf & Hb) Hwf Ht Hst Hts Hs' Ht' E.
  pose proof (swapPath_inj s t Hst Hts) as Hswap.
  assert (Hd : forall p n, entryAt d' p n <-> ~ s ⊑ p /\ entryAt d (swapPath s t p) n).
  { intros p n. unfold entryAt, nodeAt. rewrite E. unfold renamedNodes.
    rewrite lookup_moveNodes by done. case_decide; [naive_solver|].
    rewrite lookup_withDirectories. destruct (dk_nodes d !! _) eqn:El; [naive_solver|].
    case_decide; naive_solver. }
  exists (fun p => swapPath s t (f p)). split_and!.
  - by apply (compose_inj (=) (=) (=) f (swapPath s t)).
  - intros p Hp. rewrite Hn by done. apply swapPath_other; auto.
  - intros p n Hp. destruct (Hf p n Hp) as [Hq|[]]. left. apply Hd.
    rewrite swapPath_involutive by done. split; [|done]. intros Hle.
    apply (wf_below d Hwf t (f p)); [destruct Hq; congruence| |done].
    rewrite <- (swapPath_involutive s t Hst Hts (f p)). destruct Hle as [r ->].
    rewrite swapPath_source. by exists r.
  - intros q n [_ Hq]%Hd. destruct (Hb _ _ Hq) as (p & Hp & Hp0). exists p.
    by rewrite Hp, swapPath_involutive.
Qed.

(** ** The places the steps of a mutation name *)

Section named.
Context `{Runtime} (steps : list Step).

(** At or below the source or the target of a rename. *)
Definition named (p : path) : Prop :=
  exists step k, step ∈ steps /\ in_action (sp_input step) = rename_step /\
    (resolveMutationStoragePath (stepSource step) = Ok k \/
     resolveMutationStoragePath (stepTarget step) = Ok k) /\ k ⊑ p.

(** At or below the target of a deletion. *)
Definition doomed (p : path) : Prop :=
  exists step t, step ∈ steps /\ isCleanup (in_action (sp_input step)) = true /\
    deleteTarget step t /\ t ⊑ p.

(** A step of the mutation, whatever its progress. *)
Definition ofMutation (step : Step) : Prop :=
  exists step0, step0 ∈ steps /\ sp_input step0 = sp_input step.

Definition memoryOf (memory : list Step) : Prop := sp_input <$> memory = sp_input <$> steps.

Lemma memoryOf_all memory : memoryOf memory -> Forall ofMutation memory.
Proof.
  intros E. apply Forall_forall. intros step Hs.
  assert (Hin : sp_input step ∈ sp_input <$> steps).
  { rewrite <- E. apply list_elem_of_fmap. eauto. }
  apply list_elem_of_fmap in Hin as (step0 & Es & H0). by exists step0.
Qed.

Lemma memoryOf_applied index memory :
  memoryOf memory -> memoryOf (alter markedApplied index memory).
Proof.
  unfold memoryOf. intros <-. apply list_eq. intros i. rewrite !list_lookup_fmap.
  destruct (decide (index = i)) as [<-|Hne].
  - rewrite list_lookup_alter_eq. by destruct (memory !! index).
  - by rewrite list_lookup_alter_ne.
Qed.

Lemma ofMutation_named step k p :
  ofMutation step -> in_action (sp_input step) = rename_step ->
  resolveMutationStoragePath (stepSource step) = Ok k \/
  resolveMutationStoragePath (stepTarget step) = Ok k -> k ⊑ p -> named p.
Proof.
  intros (step0 & Hs & E) Ha Hk Hp. exists step0, k. unfold stepSource, stepTarget in *.
  rewrite E. auto.
Qed.

Lemma ofMutation_doomed step t p :
  ofMutation step -> isCleanup (in_action (sp_input step)) = true -> deleteTarget step t ->
  t ⊑ p -> doomed p.
Proof.
  intros (step0 & Hs & E) Ha Hk Hp. exists step0, t.
  unfold deleteTarget, deleteKey in *. rewrite E. auto.
Qed.

(** ** What the steps do to the trace *)

(** Nothing is lost so far. *)
Definition kept (d0 d : Disk) : Prop := wellFormed d /\ traced named nowhere d0 d.
(** Nothing but what the deletions name is lost. *)
Definition pruned (d0 d : Disk) : Prop := wellFormed d /\ traced named doomed d0 d.

Lemma kept_pruned d0 d : kept d0 d -> pruned d0 d.
Proof. intros [Hwf Ht]. split; [done|]. by apply traced_doomed. Qed.

Lemma kept_nodes d0 : nodesOnly (kept d0).
Proof. intros d d' E [Hwf Ht]. split; [by eapply wellFormed_nodes|by eapply traced_nodes]. Qed.

Lemma pruned_nodes d0 : nodesOnly (pruned d0).
Proof. intros d d' E [Hwf Ht]. split; [by eapply wellFormed_nodes|by eapply traced_nodes]. Qed.

(** A rename, or one the other way. *)
Definition renameOf (step step' : Step) : Prop := step' = step \/ step' = reversedStep step.

Lemma kept_rename step step' d0 d d' :
  ofMutation step -> in_action (sp_input step) = rename_step -> renameOf step step' ->
  kept d0 d -> renameReach step' d d' -> kept d0 d'.
Proof.
  intros Hof Ha Hren [Hwf Ht] [Hwf' Hr]. split; [done|].
  destruct Hr as [E|(s & t & [Ks Kt] & Hnone & [Hg|(_ & Hst & Hts & E)])].
  - by eapply traced_nodes.
  - eapply traced_same; [done|]. intros p n. by eapply grown_entries.
  - eapply traced_moved; [done..| | |done]; intros p Hp;
      eapply (ofMutation_named step); try done; destruct Hren as [->| ->]; auto.
Qed.

Lemma kept_grown t d0 d d' : wellFormed d' -> grown t d d' -> kept d0 d -> kept d0 d'.
Proof.
  intros Hwf' Hg [Hwf Ht]. split; [done|]. eapply traced_same; [done|]. intros p n.
  by eapply grown_entries.
Qed.

Lemma rmdir_entries p d u d' q n :
  wellFormed d -> rmdir p d = Ok (u, d') -> entryAt d' q n <-> entryAt d q n.
Proof.
  intros Hwf E. apply rmdir_ok in E as (Hp & _ & Hq); [|done]. unfold entryAt. rewrite Hq.
  case_decide as Eq; [|done]. subst q. split; [by intros []|]. intros [E Hn]. congruence.
Qed.

Lemma kept_rmdir p d0 d u d' : kept d0 d -> rmdir p d = Ok (u, d') -> kept d0 d'.
Proof.
  intros [Hwf Ht] E. split; [by eapply removal_wf; [|left]|].
  eapply traced_same; [done|]. intros q n. by eapply rmdir_entries.
Qed.

Lemma pruned_delete step ownedPartial d0 d d' :
  ofMutation step -> isCleanup (in_action (sp_input step)) = true ->
  pruned d0 d -> deleteReach step ownedPartial d d' -> pruned d0 d'.
Proof.
  intros Hof Hc [Hwf (f & Hinj & Hn & Hf & Hb)] [Hwf' Hd]. split; [done|].
  exists f. split_and!; [done|done| |].
  - intros p n Hp. destruct (Hf p n Hp) as [[Hq Hne]|]; [|by right].
    destruct (Hd (f p)) as [E|(_ & t & Ht & [(Hdir & _)|[Hle _]])].
    + left. split; [congruence|done].
    + congruence.
    + right. by eapply ofMutation_doomed.
  - intros q n [Hq Hne]. apply Hb. split; [|done].
    destruct (Hd q) as [E|(E & _)]; congruence.
Qed.

(** ** The parts of the executor *)

Section interleaved.
Context (J : World -> Prop) `{!Stable J}.
Context (lease : Io unit) (Hlease : forall P, spec J P lease (fun _ => P) P) (d0 : Disk).

Lemma keeps_from {A} (P : Disk -> Prop) (m : Io A) :
  (forall d, P d -> spec J (fun d' => d' = d) m (fun _ => P) P) -> keepsDisk J P m.
Proof. intros Hm w HJ Hw. by apply (Hm (w_disk w)). Qed.

Lemma kept_applyRename step step' :
  ofMutation step -> in_action (sp_input step) = rename_step -> renameOf step step' ->
  keepsDisk J (kept d0) (applyRename step' lease).
Proof.
  intros Hof Ha Hren. apply keeps_from. intros d Hd.
  eapply spec_conseq; [apply (spec_applyRename J lease Hlease step' d); apply Hd| | |].
  - intros d' ->. split; [apply Hd|done].
  - intros _ d' Hr%renameDone_reach. by eapply kept_rename.
  - intros d' Hr. by eapply kept_rename.
Qed.

Lemma kept_applyMkdir step : keepsDisk J (kept d0) (applyMkdir step lease).
Proof.
  apply keeps_from. intros d Hd.
  assert (Hr : forall d', mkdirReach step d d' -> kept d0 d').
  { intros d' [Hwf [E|(t & _ & Hg)]]; [by eapply kept_nodes|by eapply kept_grown]. }
  eapply spec_conseq; [by apply (spec_applyMkdir J lease step d)| | |done].
  - intros d' ->. split; [apply Hd|by left].
  - intros _ d' [Hd' _]. by apply Hr.
Qed.

Lemma kept_forward step :
  ofMutation step -> shouldApplyStorageStep step forward = true ->
  keepsDisk J (kept d0) (applyFilesystemStep step lease).
Proof.
  intros Hof Hs. unfold applyFilesystemStep.
  destruct (in_action (sp_input step)) eqn:Ea; try by apply kept_applyMkdir.
  1: by apply (kept_applyRename step); [|done|left].
  all: apply andb_true_iff in Hs as [_ Hs]; by rewrite Ea in Hs.
Qed.

Lemma kept_undo step : ofMutation step -> keepsDisk J (kept d0) (undoStep lease step).
Proof.
  intros Hof. unfold undoStep. destruct (_ || _); [apply keepsDisk_ret|].
  destruct (in_action (sp_input step)) eqn:Ea; try by apply keepsDisk_ret.
  - apply keepsDisk_bind; [apply Hlease|]. intros _u.
    apply keeps_removeUndoneDirectory; [apply _|apply kept_nodes|].
    intros p d u d' _. apply kept_rmdir.
  - by apply (kept_applyRename step); [|done|right].
Qed.

Lemma pruned_cleanup step `{!RuntimeLaws} :
  ofMutation step -> shouldApplyStorageStep step cleanup = true ->
  keepsDisk J (pruned d0) (applyFilesystemStep step lease).
Proof.
  intros Hof Hs.
  assert (Hc : isCleanup (in_action (sp_input step)) = true).
  { unfold shouldApplyStorageStep in Hs. apply andb_true_iff in Hs as [_ Hs].
    by destruct (isCleanup _). }
  assert (Hd : keepsDisk J (pruned d0)
    (steps' ← memory w_steps; allowed ← liftIo (isOwnedQuarantineTreeDelete steps' step);
     applyDelete step lease allowed)).
  { apply keepsDisk_bind; [apply keeps_memory|]. intros steps'.
    apply keepsDisk_bind; [eauto with observes keeps|]. intros allowed.
    apply keeps_from. intros d Hd.
    assert (Hr : forall d', deleteReach step allowed d d' -> pruned d0 d').
    { intros d' Hr. by eapply pruned_delete. }
    eapply spec_conseq;
      [apply (spec_applyDelete J lease Hlease step allowed d); apply Hd|by intros d' ->
      |by intros _u d' ?; apply Hr|by intros d' ?; apply Hr]. }
  unfold applyFilesystemStep. by destruct (in_action (sp_input step)).
Qed.
End interleaved.
End named.
