(* ===== verification/ExecutorSafety.v ===== *)
(** * An execution loses nothing

    What is true of the disk at every moment of [executeClaimedStorageMutation],
    whatever other workers do, whatever fails and wherever the process dies.

    Once a newer token was given out, the execution that holds the old one
    changes no node of the disk and never returns. [holding]: nothing disturbs a
    run and the journal admits the holder, which stays so while it renews its
    lease and marks its steps. *)

From Stdlib Require Import Ascii.
From Stdlib Require String.
From S2P Require Import Prelude Database MutationMetadata MutationPrepare StorageChanges Journal JournalSteps JournalSafety Disk Io StoragePaths TreeManifest ExecutorSteps Executor ManifestFacts StepFacts RenameFacts ExecutorWorld DeleteFacts.

Open Scope Z_scope.

(** ** The parts that touch no disk *)

Section calls.
Context `{Runtime} (K : DB -> Prop) `{!Lasting K} (I : list Step -> Prop).
#[local] Notation J := (during byJournal (inOrder K) I).

Lemma spec_assertLease leaseFailure holder P :
  spec J P (assertLease leaseFailure holder) (fun _ => P) P.
Proof.
  apply (keepsDisk_bind J P); [apply keeps_memory|]. intros [e|]; [apply keepsDisk_throw|].
  apply spec_journal; [done|eauto with journal].
Qed.

Lemma keeps_hook hook boundary step P : onlyInterrupts hook -> keepsDisk J P (hook boundary step).
Proof.
  intros Hh w HJ Hw. rewrite (Hh boundary step w). split; [done|].
  by destruct (hook boundary step w).1.
Qed.

Lemma keeps_persist holder error P : keepsDisk J P (persistExecutionFailure holder error).
Proof.
  unfold persistExecutionFailure. destruct (needsOperator error); apply keeps_ignore;
    apply spec_journal; eauto with journal.
Qed.

Lemma keeps_phase {T} (input : ExecuteInput T) phase leaseFailure (ok : Step -> Prop) P :
  onlyInterrupts (ei_hook input) ->
  (forall memory, I memory -> Forall ok memory) ->
  (forall index memory, I memory -> I (alter markedApplied index memory)) ->
  (forall step, ok step -> shouldApplyStorageStep step phase = true ->
     keepsDisk J P (applyFilesystemStep step (assertLease leaseFailure (holderOf input)))) ->
  keepsDisk J P (applyStorageMutationSteps (holderOf input) phase leaseFailure
    (fun step => ei_hook input filesystem_step_applied (Some step))).
Proof.
  intros Hh Hok Hmem Hstep. apply (keeps_applySteps J P _ _ _ _ ok); try done.
  - intros w (_ & Hi & _). by apply Hok.
  - intros index w (Hk & Hi & Ho). split_and!; [done|by apply Hmem|done].
  - apply spec_journal; eauto with journal.
  - intros step. by apply keeps_hook.
  - intros step. apply spec_journal; eauto with journal.
  - intros step e. apply spec_journal; eauto with journal.
Qed.
End calls.

(** ** One execution *)

Section execution.
Context `{RuntimeLaws} {T : Type} (input : ExecuteInput T) (d0 : Disk).
Context (Hcommit : keepsJournal (ei_commitMetadata input)) (Hhook : onlyInterrupts (ei_hook input)).

#[local] Notation steps := (mu_steps (ei_mutation input)).
#[local] Notation Before := (during byJournal (inOrder anyJournal) (memoryOf steps)).
#[local] Notation After := (during byJournal (inOrder (committed (ei_id input))) (memoryOf steps)).

(** Before the metadata is committed nothing is lost; after, nothing but what
    the deletions name. *)
Definition unlost (w : World) : Prop := Before w /\ kept steps d0 (w_disk w).
Definition settled (w : World) : Prop := After w /\ pruned steps d0 (w_disk w).
Definition safe (w : World) : Prop := unlost w \/ settled w.

Lemma wspec_safe {A} (m : Io A) :
  keepsDisk Before (kept steps d0) m -> keepsDisk After (pruned steps d0) m ->
  wspec safe m (fun _ => safe) safe.
Proof.
  intros H1 H2. apply wspec_or; intros w Hw.
  - pose proof (wspec_spec _ _ _ _ _ H1 w Hw) as Hr. destruct (m w) as [[a|e|] w']; by left.
  - pose proof (wspec_spec _ _ _ _ _ H2 w Hw) as Hr. destruct (m w) as [[a|e|] w']; by right.
Qed.

Lemma wspec_before {A} (m : Io A) :
  keepsDisk Before (kept steps d0) m -> wspec unlost m (fun _ => unlost) safe.
Proof.
  intros H1 w Hw. pose proof (wspec_spec _ _ _ _ _ H1 w Hw) as Hr.
  destruct (m w) as [[a|e|] w']; [done|by left..].
Qed.

Lemma wspec_after {A} (m : Io A) :
  keepsDisk After (pruned steps d0) m -> wspec settled m (fun _ => settled) safe.
Proof.
  intros H1 w Hw. pose proof (wspec_spec _ _ _ _ _ H1 w Hw) as Hr.
  destruct (m w) as [[a|e|] w']; [done|by right..].
Qed.

Lemma keeps_both {A} (tx : Locks -> Z -> Z -> Z -> Tx A) :
  journalTx tx -> wspec safe (dbEffect tx) (fun _ => safe) safe.
Proof. intros Htx. apply wspec_safe; (apply spec_journal; [apply _|done]). Qed.

Lemma safe_tick w : safe w -> safe (nextTick w).2.
Proof.
  intros [[HJ Hd]|[HJ Hd]]; [left|right]; (split; [by apply stable_tick|]);
    by rewrite nextTick_disk.
Qed.

Lemma safe_now w now : safe w -> safe (set_now now w).
Proof. done. Qed.

Lemma wspec_commit deadline :
  wspec safe (commitMetadata input deadline) (fun _ => settled) safe.
Proof.
  apply (wspec_tx _ _ _ safe); [apply safe_tick|done|].
  intros w locks called now later a db Hw E.
  assert (Hs : settled (set_now later (set_db db w))); [|split; [done|by right]].
  assert (Hstep : journal_step (w_db w) db).
  { destruct (deadline <=? now); [done|]. by eapply st_commit. }
  assert (Hc : committed (ei_id input) db).
  { destruct (deadline <=? now); [done|].
    apply commit_ok in E as (m & m1 & _ & _ & _ & _ & Edb & _); [|done].
    eexists. rewrite Edb, lookup_insert_eq. by split. }
  assert (Hparts : journalOk (w_db w) /\ memoryOf steps (w_steps w) /\ others byJournal w /\
    pruned steps d0 (w_disk w)).
  { destruct Hw as [[([Hok _] & Hm & Ho) Hd]|[([Hok _] & Hm & Ho) Hd]];
      (split_and!; [done..|]); [by apply kept_pruned|done]. }
  destruct Hparts as (Hok & Hm & Ho & Hd). split; [|done]. split_and!; [|done..].
  split; [by eapply step_journalOk|done].
Qed.

Lemma wspec_retryAdmission fuel attempt deadline :
  wspec safe (retryStorageAdmission fuel attempt deadline (commitMetadata input))
    (fun _ => settled) safe.
Proof.
  revert attempt. induction fuel as [|fuel IH]; intros attempt; cbn; [by apply wspec_throw|].
  apply (wspec_catch _ _ _ _ safe); [apply wspec_commit|]. intros e.
  destruct (negb _); [by apply wspec_throw|].
  assert (Hmem : wspec safe (memory w_now) (fun _ => safe) safe).
  { eapply wspec_conseq; [apply wspec_memory|done|by intros ? ? []|done]. }
  eapply wspec_bind; [apply Hmem|]. intros now. case_match; [by apply wspec_throw|].
  eapply wspec_bind; [apply wspec_safe; (apply keeps_pause; [apply _|done])|]. intros _u.
  eapply wspec_bind; [apply Hmem|]. intros now'. case_match; [by apply wspec_throw|]. apply IH.
Qed.

Lemma wspec_wait :
  wspec safe (waitForStorageAdmission (commitMetadata input)) (fun _ => settled) safe.
Proof.
  unfold waitForStorageAdmission. eapply wspec_bind.
  - eapply (wspec_catch _ _ _ _ safe); [apply keeps_both; eauto with journal|].
    intros e. by apply wspec_throw.
  - intros _u. eapply (wspec_bind _ _ _ _ (fun _ => safe)); [|intros now; apply wspec_retryAdmission].
    eapply wspec_conseq; [apply wspec_memory|done|by intros ? ? []|done].
Qed.

Lemma wspec_forward leaseFailure :
  wspec unlost (applyStorageMutationSteps (holderOf input) forward leaseFailure
    (fun step => ei_hook input filesystem_step_applied (Some step))) (fun _ => unlost) safe.
Proof.
  apply wspec_before.
  apply (keeps_phase anyJournal _ _ _ _ (ofMutation steps)); [done|apply memoryOf_all|apply memoryOf_applied|].
  intros step Hof Hs. apply kept_forward; [apply _| |done..]. intros P. by apply (spec_assertLease anyJournal).
Qed.

Lemma wspec_cleanup leaseFailure :
  wspec settled (applyStorageMutationSteps (holderOf input) cleanup leaseFailure
    (fun step => ei_hook input filesystem_step_applied (Some step))) (fun _ => settled) safe.
Proof.
  apply wspec_after.
  apply (keeps_phase (committed (ei_id input)) _ _ _ _ (ofMutation steps)); [done|apply memoryOf_all|apply memoryOf_applied|].
  intros step Hof Hs. apply pruned_cleanup; [apply _| |apply _|done..]. intros P. by apply (spec_assertLease (committed (ei_id input))).
Qed.

Lemma wspec_hook boundary step (V : World -> Prop) :
  (forall w, V w -> safe w) -> wspec V (ei_hook input boundary step) (fun _ => V) safe.
Proof.
  intros HV w Hw. pose proof (Hhook boundary step w) as E.
  destruct (ei_hook input boundary step w) as [[a|e|] w']; cbn in E; subst w'; auto.
Qed.

Lemma wspec_phases leaseFailure :
  wspec unlost (executeStorageMutationPhases input leaseFailure) (fun _ => settled) safe.
Proof.
  unfold executeStorageMutationPhases.
  assert (Hu : forall w, unlost w -> safe w) by by left.
  assert (Hs : forall w, settled w -> safe w) by by right.
  eapply wspec_bind; [apply wspec_forward|]. intros _u1.
  eapply wspec_bind; [by apply wspec_hook|]. intros _u2.
  eapply wspec_bind; [eapply wspec_conseq; [apply wspec_wait|done|done|done]|]. intros result.
  eapply wspec_bind; [by apply wspec_hook|]. intros _u3.
  eapply wspec_bind; [apply wspec_after, spec_journal; eauto with journal; apply _|]. intros _u4.
  eapply wspec_bind; [by apply wspec_hook|]. intros _u5.
  eapply wspec_bind; [apply wspec_cleanup|]. intros _u6.
  eapply wspec_bind; [by apply wspec_hook|]. intros _u7.
  eapply wspec_bind; [apply wspec_after, spec_journal; eauto with journal; apply _|]. intros _u8.
  eapply wspec_bind; [by apply wspec_hook|]. intros _u9. by apply wspec_ret.
Qed.

(** Only an uncommitted mutation is rolled back. *)
Lemma wspec_rollBack rejection error :
  wspec safe (rollBackAndAbort (holderOf input) rejection error) (fun _ => safe) safe.
Proof.
  unfold rollBackAndAbort. apply (wspec_bind _ _ _ _ (fun row w =>
    unlost w \/ (settled w /\ forall m, row = Some m -> mu_metadataCommittedAt m <> None))).
  - apply (wspec_tx _ _ _ safe); [apply safe_tick|done|].
    intros w locks called now later row db Hw E. injection E as <- <-.
    split; [|done]. destruct Hw as [Hw|Hw]; [by left|right]. split; [done|].
    destruct Hw as [([_ (m & Hm & Hc)] & _) _]. cbn. intros m' E. congruence.
  - intros [m|]; cycle 1.
    { apply wspec_ret. intros w [?|[? _]]; [by left|by right]. }
    destruct (bool_decide (mu_metadataCommittedAt m <> None)) eqn:Ec; cbn [orb].
    { apply wspec_ret. intros w [?|[? _]]; [by left|by right]. }
    apply (wspec_conseq _ unlost _ (fun _ => safe) _ safe); [| |done|done].
    2:{ intros w [?|[_ Hc]]; [done|]. apply bool_decide_eq_false in Ec. by destruct Ec; apply Hc. }
    destruct (negb _); [apply wspec_ret; by left|].
    apply (wspec_bind _ _ _ _ (fun _ => safe)).
    + apply (wspec_conseq _ unlost _ (fun _ => unlost) _ safe); [|done|by intros ? ? ?; left|done].
      apply wspec_before.
      apply (keeps_undoForwardSteps _ _ _ (ofMutation steps)).
      { intros w (_ & Hm & _). by apply memoryOf_all. }
      intros step Hof. apply kept_undo; [apply _| |done].
      intros P. apply (spec_journal _ anyJournal); [apply _|eauto with journal].
    + intros _u. apply (wspec_bind _ _ _ _ (fun _ => safe)); [apply keeps_both; eauto with journal|].
      intros _u2. by apply wspec_ret.
Qed.

Lemma wspec_persist holder error :
  wspec safe (persistExecutionFailure holder error) (fun _ => safe) safe.
Proof. apply wspec_safe; (apply keeps_persist; apply _). Qed.

Lemma wspec_tryAbort error :
  wspec safe (tryAbortBeforeCommit input error) (fun _ => safe) safe.
Proof.
  unfold tryAbortBeforeCommit. case_match; [|by apply wspec_ret].
  apply (wspec_catch _ _ _ _ safe).
  - eapply wspec_bind; [apply wspec_rollBack|]. intros aborted. by apply wspec_ret.
  - intros e. eapply wspec_bind; [apply wspec_persist|]. intros _u. by apply wspec_throw.
Qed.

Lemma wspec_execute :
  wspec (fun w => (journalOk (w_db w) /\ others byJournal w) /\ wellFormed (w_disk w) /\ w_disk w = d0)
    (executeClaimedStorageMutation input) (fun _ => settled) safe.
Proof.
  unfold executeClaimedStorageMutation. apply (wspec_bind _ _ _ _ (fun _ => unlost)).
  - apply wspec_remember. intros w ([Hok Ho] & Hwf & E). split.
    + by split_and!.
    + split; [done|]. cbn. rewrite E. apply traced_refl.
  - intros _u w Hw. unfold clearInterval.
    enough (Hs : wspec unlost (catchIo (executeStorageMutationPhases input w_leaseFailure)
      (fun error => if isAbrupt error then throwIo error
        else rejection ← tryAbortBeforeCommit input error;
             match rejection with
             | Some code => throwIo (StorageException (StorageMutationRejectedError code))
             | None => _ ← persistExecutionFailure (holderOf input) error; throwIo error
             end)) (fun _ => settled) safe).
    { specialize (Hs w Hw). by destruct (catchIo _ _ w) as [[a|e|] w']. }
    apply (wspec_catch _ _ _ _ safe); [apply wspec_phases|]. intros e.
    destruct (isAbrupt e); [by apply wspec_throw|].
    eapply wspec_bind; [apply wspec_tryAbort|]. intros [code|]; [by apply wspec_throw|].
    eapply wspec_bind; [apply wspec_persist|]. intros _u2. by apply wspec_throw.
Qed.
End execution.

(** C1: an execution loses no file. Whatever other workers do with the journal,
    whatever call fails, in every order, and wherever the process dies: as long as
    the mutation's metadata is not committed every file is on the disk with its
    content, at its own place or where a rename of the mutation takes it, two
    never at one place, and nothing else has appeared. Once it is committed the
    same holds, except for what lies at or below a target of its deletions. An
    execution that returns has committed. *)
Theorem execution_loses_no_file `{RuntimeLaws} {T} (input : ExecuteInput T) w :
  journalOk (w_db w) -> others byJournal w -> wellFormed (w_disk w) ->
  keepsJournal (ei_commitMetadata input) -> onlyInterrupts (ei_hook input) ->
  let '(result, w') := executeClaimedStorageMutation input w in
  let steps := mu_steps (ei_mutation input) in
  wellFormed (w_disk w') /\
  (traced (named steps) nowhere (w_disk w) (w_disk w') \/
   (committed (ei_id input) (w_db w') /\
    traced (named steps) (doomed steps) (w_disk w) (w_disk w'))) /\
  (forall a, result = Done a -> committed (ei_id input) (w_db w')).
Proof.
  intros Hok Ho Hwf Hc Hh.
  pose proof (wspec_execute input (w_disk w) Hc Hh w) as Hrun.
  destruct (executeClaimedStorageMutation input w) as [result w'].
  assert (Hs : match result with Done _ => settled input (w_disk w) w' | _ => safe input (w_disk w) w' end).
  { by destruct result; apply Hrun. }
  assert (Hsafe : safe input (w_disk w) w') by (destruct result; [by right|done|done]).
  split_and!.
  - by destruct Hsafe as [[_ [? _]]|[_ [? _]]].
  - destruct Hsafe as [[_ [_ ?]]|[([_ ?] & _) [_ ?]]]; auto.
  - intros a ->. by destruct Hs as [([_ ?] & _) _].
Qed.

(** ** Programs that do not return *)

Definition refused {A} (J : World -> Prop) (P : Disk -> Prop) (m : Io A) : Prop :=
  spec J P m (fun _ _ => False) P.

Section refused_rules.
Context (J : World -> Prop) (P : Disk -> Prop) {A B : Type}.

Lemma refused_bind (m : Io A) (f : A -> Io B) : refused J P m -> refused J P (m ≫= f).
Proof. intros Hm. eapply spec_bind; [done|]. by intros a w _ []. Qed.

Lemma keeps_bind_refused (m : Io A) (f : A -> Io B) :
  keepsDisk J P m -> (forall a, refused J P (f a)) -> refused J P (m ≫= f).
Proof. intros Hm Hf. by eapply spec_bind. Qed.

Lemma refused_catch (m : Io A) handler :
  refused J P m -> (forall e, refused J P (handler e)) -> refused J P (catchIo m handler).
Proof. intros Hm Hh. by eapply spec_catch. Qed.

Lemma refused_throw (e : IoError) : refused J P (throwIo e : Io A).
Proof. by apply spec_throw_for. Qed.

Lemma refused_keeps (m : Io A) : refused J P m -> keepsDisk J P m.
Proof. intros Hm. by eapply spec_conseq. Qed.
End refused_rules.

(** ** Steps under a refused lease *)

Section refused_lease.
Context `{Runtime} (J : World -> Prop) `{!Stable J} (P : Disk -> Prop) (HP : nodesOnly P).
Context (lease : Io unit) (Hlease : refused J P lease).

Lemma keeps_durableMkdir_refused target : keepsDisk J P (durableMkdirWithinRoot target lease).
Proof.
  assert (Hseg : forall current segments, keepsDisk J P (durableMkdirSegments current segments lease)).
  { intros current segments. revert current. induction segments as [|s rest IH]; intros current;
      cbn; [apply keepsDisk_ret|].
    apply keepsDisk_bind; [|intros _u; apply IH]. unfold ensureDurableDirectorySegment.
    apply keepsDisk_bind; [eauto with observes keeps|]. intros state. destruct (exists' state).
    - apply keeps_observes; [done|]. unfold assertSafeDirectoryInfo. eauto with observes.
    - apply refused_keeps. by apply refused_bind. }
  unfold durableMkdirWithinRoot. apply keepsDisk_bind; [|intros [segments|]; [apply Hseg|apply keepsDisk_ret]].
  apply keeps_observes; [done|].
  unfold getRelativeStorageDirectory, assertSafeDirectoryInfo. destruct target; eauto 10 with observes.
Qed.

Lemma keeps_applyRename_refused step : keepsDisk J P (applyRename step lease).
Proof.
  assert (Ho := observes_resolveRenameState step).
  assert (Hi := observes_assertRenameStepIntent step).
  unfold applyRename. apply keepsDisk_bind; [by apply keeps_observes|]. intros _u.
  apply keepsDisk_bind; [by apply keeps_observes|]. intros paths.
  destruct (negb _); [eauto with observes keeps|].
  apply keepsDisk_bind; [eauto with observes keeps|]. intros _u2.
  apply keepsDisk_bind; [unfold syncRenameSource; repeat case_match; eauto with keeps|]. intros _u3.
  apply keepsDisk_bind; [eauto with keeps|]. intros _u4.
  apply keepsDisk_bind; [apply keeps_durableMkdir_refused|]. intros _u5.
  by apply refused_keeps, refused_bind.
Qed.

Lemma keeps_undo_refused step : keepsDisk J P (undoStep lease step).
Proof.
  unfold undoStep. destruct (_ || _); [apply keepsDisk_ret|].
  destruct (in_action (sp_input step)); try apply keepsDisk_ret.
  - by apply refused_keeps, refused_bind.
  - apply keeps_applyRename_refused.
Qed.

Lemma keeps_steps_refused holder phase leaseFailure afterStep :
  lease = assertLease leaseFailure holder ->
  keepsDisk J P (applyStorageMutationSteps holder phase leaseFailure afterStep).
Proof.
  intros E. unfold applyStorageMutationSteps. rewrite <- E.
  apply keeps_memory_bind. intros w _. apply keeps_forEach. intros [index step] _.
  unfold applyOneStep. destruct (negb _); [apply keepsDisk_ret|].
  by apply refused_keeps, refused_bind.
Qed.
End refused_lease.

(** ** The execution *)

Section overtaken.
Context `{Runtime} {T : Type} (input : ExecuteInput T) (d0 : Disk).
Context (Hhook : onlyInterrupts (ei_hook input)).

#[local] Notation holder := (holderOf input).
#[local] Notation J := (during byJournal (inOrder (overtaken holder)) anySteps).
#[local] Notation P := (fun d => dk_nodes d = dk_nodes d0).

Lemma same_nodesOnly : nodesOnly P.
Proof. intros d d' E Ed. congruence. Qed.
#[local] Hint Resolve same_nodesOnly : keeps.

Lemma overtaken_fencedOff db : overtaken holder db ->
  fencedOff db (ei_id input) (ei_leaseOwner input) (ei_leaseToken input).
Proof.
  intros (m & Hm & Ht). apply not_leased_fencedOff. intros m' Hm'. cbn in Hm, Ht.
  assert (m' = m) as -> by congruence.
  apply not_true_iff_false. intros Hl%leasedBy_token. lia.
Qed.

Lemma refused_tx {A} (tx : Locks -> Z -> Z -> Z -> Tx A) :
  (forall locks called now later db,
     fencedOff db (ei_id input) (ei_leaseOwner input) (ei_leaseToken input) ->
     exists e, tx locks called now later db = Throw e) ->
  refused J P (dbEffect tx).
Proof.
  intros Htx. apply spec_tx_refused; [apply _|]. intros locks called now later db a db' [_ Hk] E.
  destruct (Htx locks called now later db (overtaken_fencedOff _ Hk)) as [e E']. congruence.
Qed.

Lemma refused_renew : refused J P (renewLease holder).
Proof. apply refused_tx. intros ????? Hf. eexists. apply (fo_renew _ _ _ _ Hf). Qed.

Lemma refused_assertLease leaseFailure : refused J P (assertLease leaseFailure holder).
Proof.
  apply (keeps_bind_refused J P); [apply keeps_memory|]. intros [e|];
    [apply refused_throw|apply refused_renew].
Qed.

Lemma refused_wait : refused J P (waitForStorageAdmission (commitMetadata input)).
Proof.
  assert (Hc : forall deadline, refused J P (commitMetadata input deadline)).
  { intros deadline. apply refused_tx. intros ????? Hf. destruct (_ <=? _); [by eexists|].
    eexists. apply (fo_commit _ _ _ _ Hf). }
  assert (Hr : forall fuel attempt deadline,
    refused J P (retryStorageAdmission fuel attempt deadline (commitMetadata input))).
  { induction fuel as [|fuel IH]; intros attempt deadline; cbn; [apply refused_throw|].
    apply refused_catch; [done|]. intros e. destruct (negb _); [apply refused_throw|].
    apply (keeps_bind_refused J P); [apply keeps_memory|]. intros now.
    case_match; [apply refused_throw|].
    apply (keeps_bind_refused J P); [apply keeps_pause; [apply _|done]|]. intros _u.
    apply (keeps_bind_refused J P); [apply keeps_memory|]. intros now'.
    case_match; [apply refused_throw|apply IH]. }
  unfold waitForStorageAdmission. apply (keeps_bind_refused J P).
  - apply keeps_catch; [|intros e; apply keepsDisk_throw].
    apply (spec_journal _ (overtaken holder)); [apply _|eauto with journal].
  - intros _u. apply (keeps_bind_refused J P); [apply keeps_memory|]. intros now. apply Hr.
Qed.

Lemma refused_phases leaseFailure : refused J P (executeStorageMutationPhases input leaseFailure).
Proof.
  unfold executeStorageMutationPhases.
  apply (keeps_bind_refused J P).
  { by apply (keeps_steps_refused J P (assertLease leaseFailure holder) (refused_assertLease _)). }
  intros _u. apply (keeps_bind_refused J P); [by apply keeps_hook|]. intros _u2.
  apply refused_bind, refused_wait.
Qed.

Lemma keeps_tryAbort error : keepsDisk J P (tryAbortBeforeCommit input error).
Proof.
  unfold tryAbortBeforeCommit. case_match; [|apply keepsDisk_ret]. apply keeps_catch.
  - apply keepsDisk_bind; [|intros b; apply keepsDisk_ret]. unfold rollBackAndAbort.
    apply keepsDisk_bind; [apply (spec_journal _ (overtaken holder)); [apply _|eauto with journal]|].
    intros [m|]; [|apply keepsDisk_ret]. destruct (_ || _); [apply keepsDisk_ret|].
    apply keepsDisk_bind.
    + apply keeps_memory_bind. intros w _. apply keeps_forEach. intros step _.
      apply keeps_undo_refused; [apply _|apply same_nodesOnly|apply refused_renew].
    + intros _u. apply keepsDisk_bind; [|intros _u2; apply keepsDisk_ret].
      apply (spec_journal _ (overtaken holder)); [apply _|eauto with journal].
  - intros e. apply keepsDisk_bind; [by apply (keeps_persist (overtaken holder))|].
    intros _u. apply keepsDisk_throw.
Qed.

Lemma refused_execute : refused J P (executeClaimedStorageMutation input).
Proof.
  unfold executeClaimedStorageMutation. apply (keeps_bind_refused J P).
  { intros w (Hk & Hi & Ho) Hw. by split. }
  intros _u w HJ Hw. unfold clearInterval.
  enough (Hs : refused J P (catchIo (executeStorageMutationPhases input w_leaseFailure)
    (fun error => if isAbrupt error then throwIo error
      else rejection ← tryAbortBeforeCommit input error;
           match rejection with
           | Some code => throwIo (StorageException (StorageMutationRejectedError code))
           | None => _ ← persistExecutionFailure holder error; throwIo error
           end))).
  { specialize (Hs w HJ Hw). by destruct (catchIo _ _ w) as [[a|e|] w']. }
  apply refused_catch; [apply refused_phases|]. intros e.
  destruct (isAbrupt e); [apply refused_throw|].
  apply (keeps_bind_refused J P); [apply keeps_tryAbort|]. intros [code|]; [apply refused_throw|].
  apply (keeps_bind_refused J P); [by apply (keeps_persist (overtaken holder))|].
  intros _u2. apply refused_throw.
Qed.
End overtaken.

(** C27: a worker whose mutation was claimed again by another one touches
    nothing: with a token older than the row's, an execution leaves every node of
    the disk as it was, whatever happens meanwhile and wherever it is stopped,
    also while it tries to undo or abort, and it never returns a result. *)
Theorem lost_lease_touches_nothing `{Runtime} {T} (input : ExecuteInput T) w m :
  journalOk (w_db w) -> others byJournal w -> onlyInterrupts (ei_hook input) ->
  db_mutations (w_db w) !! ei_id input = Some m -> ei_leaseToken input < ls_token (mu_lease m) ->
  let '(result, w') := executeClaimedStorageMutation input w in
  dk_nodes (w_disk w') = dk_nodes (w_disk w) /\ forall a, result <> Done a.
Proof.
  intros Hok Ho Hh Hm Ht.
  destruct (refused_execute input (w_disk w) Hh w) as [_ Hr]; [|done|].
  { split_and!; [split; [done|by exists m]|done|done]. }
  destruct (executeClaimedStorageMutation input w) as [[a|e|] w']; done.
Qed.

Definition holding (holder : Holder) (ids : list string) (w : World) : Prop :=
  calm w /\ w_leaseFailure w = None /\
  exists m, db_mutations (w_db w) !! hd_id holder = Some m /\
    fenceHolds (hd_leaseOwner holder) (hd_leaseToken holder) (w_now w) m = true /\
    sp_id <$> mu_steps m = ids.

#[export] Instance holding_undisturbed holder ids : Undisturbed (holding holder ids).
Proof. by split; [intros w []|]. Qed.

Lemma dbEffect_calm {A} (tx : Locks -> Z -> Z -> Z -> Tx A) w :
  calm w ->
  dbEffect tx w = match tx ∅ (w_now w) (w_now w) (w_now w) (w_db w) with
                  | Ok (a, db) => (Done a, set_db db w)
                  | Throw e => (Failed (StorageException e), w)
                  end.
Proof.
  intros Hc. unfold dbEffect. rewrite nextTick_calm by done. cbn. rewrite Z.add_0_r.
  destruct (tx _ _ _ _ _) as [[a db]|e]; by destruct w.
Qed.

Lemma fenceHolds_lease owner token now expires m :
  fenceHolds owner token now m = true -> now < expires ->
  fenceHolds owner token now
    (set_lease {| ls_owner := ls_owner (mu_lease m); ls_token := ls_token (mu_lease m);
                  ls_expiresAt := Some expires |} m) = true.
Proof.
  unfold fenceHolds, leasedBy. intros [[Hl _]%andb_true_iff Hs]%andb_true_iff Hlt.
  apply andb_true_iff. split; [|done]. apply andb_true_iff. split; [done|].
  by apply bool_decide_eq_true_2.
Qed.

Section holding.
Context `{Runtime} (holder : Holder) (ids : list string).
#[local] Notation L := (holding holder ids).

(** The holder's transaction goes through and leaves it the holder. *)
Lemma finishes_tx {A} (tx : Locks -> Z -> Z -> Z -> Tx A) a P :
  (forall db now m, db_mutations db !! hd_id holder = Some m ->
     fenceHolds (hd_leaseOwner holder) (hd_leaseToken holder) now m = true ->
     sp_id <$> mu_steps m = ids ->
     exists db' m', tx ∅ now now now db = Ok (a, db') /\
       db_mutations db' !! hd_id holder = Some m' /\
       fenceHolds (hd_leaseOwner holder) (hd_leaseToken holder) now m' = true /\
       sp_id <$> mu_steps m' = ids) ->
  finishes L P (dbEffect tx) (fun _ => P).
Proof.
  intros Htx w (Hc & Hf & m & Hm & Hfence & Hids) Hw.
  destruct (Htx _ _ _ Hm Hfence Hids) as (db' & m' & E & Hm' & Hfence' & Hids').
  exists a, (set_db db' w). rewrite dbEffect_calm, E by done. split; [done|].
  split; [|done]. split_and!; [done|done|]. by exists m'.
Qed.

Lemma finishes_renew P : finishes L P (renewLease holder) (fun _ => P).
Proof.
  apply (finishes_tx _ tt). intros db now m Hm Hf Hids.
  eexists _, _. split.
  - apply updateFenced_ok. exists m. split_and!; [done|done|reflexivity].
  - cbn. rewrite lookup_insert_eq. split; [done|]. split; [|done].
    apply fenceHolds_lease; [done|]. unfold STORAGE_MUTATION_LEASE_MS. lia.
Qed.

Lemma finishes_assertLease leaseFailure P :
  (forall w, w_leaseFailure w = None -> leaseFailure w = None) ->
  finishes L P (assertLease leaseFailure holder) (fun _ => P).
Proof.
  intros Hlf w HL Hw. unfold assertLease, mbind, Io_bind, memory.
  rewrite Hlf by apply HL. by apply finishes_renew.
Qed.

Lemma assertFence_holds now db m :
  db_mutations db !! hd_id holder = Some m ->
  fenceHolds (hd_leaseOwner holder) (hd_leaseToken holder) now m = true ->
  assertFence ∅ now (hd_id holder) (hd_leaseOwner holder) (hd_leaseToken holder) db = Ok (tt, db).
Proof.
  intros Hm Hf. unfold assertFence, read, mbind, Tx_bind, mutationWhere. rewrite Hm, Hf.
  unfold ensure. rewrite bool_decide_eq_true_2 by done. cbn.
  by rewrite bool_decide_eq_false_2 by set_solver.
Qed.

Lemma finishes_markApplied step P :
  sp_id step ∈ ids -> finishes L P (markApplied holder step) (fun _ => P).
Proof.
  intros Hin. apply (finishes_tx _ tt). intros db now m Hm Hf Hids.
  unfold markStorageMutationStepApplied, runStorageTransaction.
  unfold mbind, Tx_bind. rewrite (assertFence_holds now db m) by done.
  unfold updateStep, read, mbind, Tx_bind. rewrite Hm.
  assert (Hex : existsb (fun s => bool_decide (sp_id s = sp_id step)) (mu_steps m) = true).
  { apply existsb_exists. rewrite <- Hids in Hin. apply list_elem_of_fmap in Hin as (s & E & Hs).
    exists s. split; [by apply list_elem_of_In|]. by apply bool_decide_eq_true_2. }
  rewrite Hex. cbn. eexists _, _. split; [reflexivity|]. cbn. rewrite lookup_alter_eq, Hm.
  split; [done|]. split; [done|]. cbn. rewrite <- list_fmap_compose. rewrite <- Hids.
  apply list_fmap_ext. intros i s Hs. cbn. by case_bool_decide.
Qed.
End holding.

(** A loop, when the condition follows the index. *)
Lemma finishes_forEach_imap {A} L (xs : list A) (body : nat * A -> Io unit) (V : nat -> Disk -> Prop) :
  (forall j x, xs !! j = Some x -> finishes L (V j) (body (j, x)) (fun _ => V (S j))) ->
  finishes L (V 0%nat) (forEach (imap pair xs) body) (fun _ => V (length xs)).
Proof.
  intros H. enough (Hgen : forall ys n, ys = drop n xs ->
    finishes L (V n) (forEach (imap (fun i y => ((n + i)%nat, y)) ys) body)
      (fun _ => V (n + length ys)%nat)) by exact (Hgen xs 0%nat eq_refl).
  induction ys as [|y ys IH]; intros n E; cbn.
  { rewrite Nat.add_0_r. by apply finishes_ret_for. }
  assert (Hy : xs !! n = Some y).
  { rewrite <- (Nat.add_0_r n), <- lookup_drop. by rewrite <- E. }
  eapply finishes_bind; [rewrite Nat.add_0_r; by apply H|]. intros _u.
  rewrite (imap_ext _ (fun i z => ((S n + i)%nat, z))) by (intros; cbn; f_equal; lia).
  rewrite <- Nat.add_succ_comm. apply IH. rewrite (drop_S _ _ _ Hy) in E. by injection E.
Qed.
