(* ===== verification/ForwardPhase.v ===== *)
(** * A forward phase survives its workers

    The recorded steps of a mutation and the disk after any number of
    interrupted attempts at its forward phase, and that one undisturbed attempt
    then ends it the way a first one would have. *)

From Stdlib Require Import Ascii.
From Stdlib Require String.
From S2P Require Import Prelude Database MutationMetadata MutationPrepare StorageChanges Journal JournalSteps Disk Io StoragePaths TreeManifest ManifestFacts ExecutorSteps StepFacts RenameFacts Executor ExecutorWorld DeleteFacts ExecutorSafety.

Open Scope Z_scope.

(** ** One forward step *)

Section forward_step.
Context `{RuntimeLaws}.

(** What the nodes become. *)
Definition forwardNodes (m : gmap path Node) (step : Step) : gmap path Node :=
  match in_action (sp_input step) with
  | rename_step =>
      match resolveMutationStoragePath (stepSource step), resolveMutationStoragePath (stepTarget step) with
      | Ok s, Ok t => renamedNodes s t m
      | _, _ => m
      end
  | mkdir_step =>
      match resolveMutationStoragePath (stepTarget step) with
      | Ok t => withDirectories t m
      | Throw _ => m
      end
  | _ => m
  end.

(** The disk is the one the step was planned for. *)
Definition stepReady (step : Step) (d : Disk) : Prop :=
  match in_action (sp_input step) with
  | rename_step => exists s t n, renameReady step d s t n
  | mkdir_step => exists t, mkdirReady step d t
  | _ => wellFormed d
  end.

(** The disk an interrupted attempt at the step can leave. *)
Definition stepReach (step : Step) (d0 d : Disk) : Prop :=
  match in_action (sp_input step) with
  | rename_step => renameReach step d0 d
  | mkdir_step => mkdirReach step d0 d
  | _ => wellFormed d /\ dk_nodes d = dk_nodes d0
  end.

Definition stepDone (step : Step) (d0 d : Disk) : Prop :=
  wellFormed d /\ dk_nodes d = forwardNodes (dk_nodes d0) step.

Lemma stepReach_start step d0 d : wellFormed d -> dk_nodes d = dk_nodes d0 -> stepReach step d0 d.
Proof.
  intros Hwf E. unfold stepReach, renameReach, mkdirReach.
  destruct (in_action (sp_input step)); auto.
Qed.

Lemma withDirectories_disk t d0 d :
  dk_nodes d = withDirectories t (dk_nodes d0) -> grown t d0 d.
Proof.
  intros E q. unfold nodeAt. rewrite E, lookup_withDirectories.
  destruct (dk_nodes d0 !! q) eqn:Eq; [by left|]. case_decide; [by right|by left].
Qed.

Lemma stepReach_done step d0 d : stepReady step d0 -> stepDone step d0 d -> stepReach step d0 d.
Proof.
  intros Hr [Hwf E]. unfold stepReady, stepReach, forwardNodes in *.
  destruct (in_action (sp_input step)); try done.
  - destruct Hr as [t Hr]. pose proof (mr_key _ _ _ Hr) as Hk. unfold mkdirKey in Hk.
    rewrite Hk in E. split; [done|]. right. exists t. split; [done|].
    by apply withDirectories_disk.
  - destruct Hr as (s & t & n & Hr). pose proof (ready_apart _ _ _ _ _ Hr) as Hts.
    destruct Hr as [_ [Ks Kt] _ Hs Ht Hst _ _]. rewrite Ks, Kt in E. split; [done|].
    right. exists s, t. split_and!; [done..|]. right. split_and!; [congruence|done..].
Qed.

Lemma spec_forward_resumes J `{!Stable J} lease step d0 :
  (forall P, spec J P lease (fun _ => P) P) -> isCleanup (in_action (sp_input step)) = false ->
  stepReady step d0 ->
  spec J (stepReach step d0) (applyFilesystemStep step lease)
    (fun _ => stepDone step d0) (stepReach step d0).
Proof.
  intros Hlease Hf Hr. unfold stepReady, stepReach, applyFilesystemStep, stepDone, forwardNodes in *.
  destruct (in_action (sp_input step)) eqn:Ea; try done.
  - destruct Hr as [t Hr]. pose proof (mr_key _ _ _ Hr) as Hk. unfold mkdirKey in Hk. rewrite Hk.
    eapply spec_conseq; [by apply (spec_applyMkdir J lease step d0)|done| |done].
    intros _u d [[Hwf Hd] (t' & Hk' & Ht)]. split; [done|]. unfold mkdirKey in Hk'.
    assert (t' = t) as -> by congruence.
    apply grown_full; [done| |done]. destruct Hd as [E|(t' & Hk2 & Hg)]; [by apply grown_of_nodes|].
    unfold mkdirKey in Hk2. by assert (t' = t) as -> by congruence.
  - destruct Hr as (s & t & n & Hr). destruct (rr_keys _ _ _ _ _ Hr) as [Ks Kt]. rewrite Ks, Kt.
    by apply (spec_rename_resumes J lease step d0 s t n).
Qed.

Lemma finishes_forward (L : World -> Prop) `{!Undisturbed L} lease step d0 :
  (forall P, finishes L P lease (fun _ => P)) -> isCleanup (in_action (sp_input step)) = false ->
  stepReady step d0 ->
  finishes L (stepReach step d0) (applyFilesystemStep step lease) (fun _ => stepDone step d0).
Proof.
  intros Hlease Hf Hr. unfold stepReady, stepReach, applyFilesystemStep, stepDone, forwardNodes in *.
  destruct (in_action (sp_input step)) eqn:Ea; try done.
  - destruct Hr as [t Hr]. pose proof (mr_key _ _ _ Hr) as Hk. unfold mkdirKey in Hk. rewrite Hk.
    by apply finishes_applyMkdir.
  - destruct Hr as (s & t & n & Hr). destruct (rr_keys _ _ _ _ _ Hr) as [Ks Kt]. rewrite Ks, Kt.
    by eapply finishes_applyRename.
Qed.

(** A step's work depends on its input, not on its progress. *)
Lemma applyFilesystemStep_input step step' lease :
  sp_input step = sp_input step' -> applyFilesystemStep step lease = applyFilesystemStep step' lease.
Proof. destruct step, step'. cbn. intros <-. reflexivity. Qed.
End forward_step.

(** ** A plan *)

Section plan.
Context `{RuntimeLaws} (id : string) (steps : list Step) (m0 : gmap path Node).

Definition diskOf (m : gmap path Node) : Disk := {| dk_nodes := m; dk_unsynced := ∅ |}.

(** The nodes when the first [k] steps are done. *)
Definition nodesAfter (k : nat) : gmap path Node := foldl forwardNodes m0 (take k steps).

(** Every step is planned for what the ones before it leave. *)
Record planReady : Prop := {
  pr_ready k step : steps !! k = Some step -> stepReady step (diskOf (nodesAfter k));
  pr_ids : NoDup (sp_id <$> steps);
  pr_new k step : steps !! k = Some step -> sp_status step <> step_applied
}.

(** The disk between two attempts when [k] steps are recorded as applied. *)
Definition phaseReach (k : nat) (d : Disk) : Prop :=
  match steps !! k with
  | Some step => stepReach step (diskOf (nodesAfter k)) d
  | None => wellFormed d /\ dk_nodes d = nodesAfter k
  end.

(** The first [k] forward steps are marked. *)
Definition marked (k : nat) (memory : list Step) : Prop :=
  length memory = length steps /\
  forall i step, steps !! i = Some step ->
    exists step', memory !! i = Some step' /\ sp_id step' = sp_id step /\
      sp_input step' = sp_input step /\
      (isCleanup (in_action (sp_input step)) = false -> sp_status step' = step_applied <-> (i < k)%nat).

Definition recorded (k : nat) (db : DB) : Prop :=
  exists m, db_mutations db !! id = Some m /\ marked k (mu_steps m).

(** Others leave the steps of the mutation alone. *)
Definition sameSteps (db db' : DB) : Prop :=
  mu_steps <$> db_mutations db' !! id = mu_steps <$> db_mutations db !! id.

#[export] Instance recorded_keeps k : Keeps sameSteps (recorded k).
Proof.
  split.
  - intros db db' E (m & Hm & Hk). unfold sameSteps in E. rewrite Hm in E. cbn in E.
    destruct (db_mutations db' !! id) as [m'|] eqn:Em'; [|done]. exists m'. split; [done|].
    cbn in E. by injection E as ->.
  - intros now id' owner token db db' E%updateFenced_ok (m & Hm & Hk).
    destruct E as (m' & Hm' & _ & ->). unfold recorded. cbn.
    destruct (decide (id' = id)) as [->|Hne].
    + rewrite lookup_insert_eq. eexists. split; [done|]. by simplify_eq.
    + rewrite lookup_insert_ne by done. eauto.
Qed.

Lemma nodesAfter_S k step : steps !! k = Some step -> nodesAfter (S k) = forwardNodes (nodesAfter k) step.
Proof. intros Hk. unfold nodesAfter. by rewrite (take_S_r _ _ _ Hk), foldl_app. Qed.

Lemma marked_skip k step memory :
  steps !! k = Some step -> isCleanup (in_action (sp_input step)) = true ->
  marked k memory -> marked (S k) memory.
Proof.
  intros Hk Hc [Hlen Hm]. split; [done|]. intros i s Hi.
  destruct (Hm i s Hi) as (s' & Hs' & Hid & Hin & Hst). exists s'. split_and!; [done..|].
  intros Hf. rewrite (Hst Hf). destruct (decide (i = k)) as [->|]; [congruence|lia].
Qed.

Lemma marked_ids k memory : marked k memory -> sp_id <$> memory = sp_id <$> steps.
Proof.
  intros [Hlen Hm]. apply list_eq. intros i. rewrite !list_lookup_fmap.
  destruct (steps !! i) as [step|] eqn:Ei.
  - destruct (Hm i step Ei) as (s' & -> & Eid & _). cbn. by rewrite Eid.
  - apply lookup_ge_None in Ei. by rewrite (proj2 (lookup_ge_None memory i)) by lia.
Qed.

(** Marking the next step, found by its id. *)
Lemma marked_mark k step memory f :
  planReady -> steps !! k = Some step -> isCleanup (in_action (sp_input step)) = false ->
  (forall s, sp_id (f s) = sp_id s /\ sp_input (f s) = sp_input s /\ sp_status (f s) = step_applied) ->
  marked k memory ->
  marked (S k) ((fun s => if bool_decide (sp_id s = sp_id step) then f s else s) <$> memory).
Proof.
  intros Hplan Hk Hf Hfs [Hlen Hm]. split; [by rewrite length_fmap|]. intros i s Hi.
  destruct (Hm i s Hi) as (s' & Hs' & Hid & Hin & Hst). rewrite list_lookup_fmap, Hs'. cbn.
  eexists. split; [done|]. case_bool_decide as Eid.
  - destruct (Hfs s') as (-> & -> & ->). split_and!; [done|done|]. intros Hfi.
    assert (i = k); [|by split; [lia|]].
    apply (NoDup_lookup _ _ _ (sp_id step) (pr_ids Hplan)).
    + rewrite list_lookup_fmap, Hi. cbn. congruence.
    + by rewrite list_lookup_fmap, Hk.
  - split_and!; [done|done|]. intros Hfi. rewrite (Hst Hfi).
    destruct (decide (i = k)) as [->|]; [simplify_eq; congruence|lia].
Qed.

(** From one step to the next. *)
Lemma phaseReach_done k step d :
  planReady -> steps !! k = Some step -> stepDone step (diskOf (nodesAfter k)) d ->
  phaseReach k d /\ phaseReach (S k) d.
Proof.
  intros Hplan Hk Hd. unfold phaseReach at 1. rewrite Hk.
  split; [by apply stepReach_done; [apply (pr_ready Hplan)|]|].
  destruct Hd as [Hwf E]. cbn in E. rewrite <- nodesAfter_S in E by done. unfold phaseReach.
  destruct (steps !! S k); [by apply stepReach_start|done].
Qed.

Lemma phaseReach_skip k step d :
  planReady -> steps !! k = Some step -> isCleanup (in_action (sp_input step)) = true ->
  phaseReach k d -> phaseReach (S k) d.
Proof.
  intros Hplan Hk Hc Hd. apply (phaseReach_done k step); [done|done|].
  unfold phaseReach in Hd. rewrite Hk in Hd. unfold stepReach in Hd.
  unfold stepDone, forwardNodes. by destruct (in_action (sp_input step)).
Qed.

(** ** An interrupted attempt *)

Section attempt.
Context (Hplan : planReady) (holder : Holder) (Hid : hd_id holder = id).
Context (leaseFailure : World -> option IoError)
  (hook : StorageMutationExecutionBoundary -> option Step -> Io unit)
  (Hhook : onlyInterrupts hook).

#[local] Notation J k := (during sameSteps (recorded k) anySteps).
#[local] Notation afterStep := (fun step => hook filesystem_step_applied (Some step)).

(** Between two steps, and wherever an attempt stops. *)
Definition between (k : nat) (w : World) : Prop := J k w /\ phaseReach k (w_disk w).
Definition stopped (w : World) : Prop := exists k, between k w.

Lemma renew_recorded k :
  txKeeps (recorded k) (fun _ called _ _ => renewStorageMutationLease called STORAGE_MUTATION_LEASE_MS
    (hd_id holder) (hd_leaseOwner holder) (hd_leaseToken holder)).
Proof. intros ????? [] db' E Hk. by eapply (keeps_renewal (R := sameSteps)). Qed.

Lemma spec_phaseLease k P :
  spec (J k) P (assertLease leaseFailure holder) (fun _ => P) P.
Proof.
  apply (keepsDisk_bind (J k) P); [apply keeps_memory|]. intros [e|]; [apply keepsDisk_throw|].
  apply spec_tx; [apply _|apply renew_recorded].
Qed.

(** Marking writes the steps of the row only. *)
Lemma updateStep_recorded k k' stepId f db u db' :
  (forall memory, marked k memory ->
     marked k' ((fun s => if bool_decide (sp_id s = stepId) then f s else s) <$> memory)) ->
  updateStep id stepId f db = Ok (u, db') -> recorded k db -> recorded k' db'.
Proof.
  intros Hf E (m & Hm & Hk). unfold updateStep in E. tx_inv E. rewrite Hm in E. tx_inv E.
  unfold updateMutation in E. tx_inv E. unfold recorded. cbn.
  rewrite lookup_alter_eq, Hm. eexists. split; [done|]. by apply Hf.
Qed.

Lemma markFailed_recorded k step message :
  txKeeps (recorded k) (fun locks _ now _ => markStorageMutationStepFailed locks now
    (hd_id holder) (sp_id step) (hd_leaseOwner holder) (hd_leaseToken holder) message).
Proof.
  intros locks called now later db [] db' E Hk. unfold markStorageMutationStepFailed in E. tx_inv E.
  apply assertFence_ok in Htx as [-> _]. rewrite Hid in E.
  eapply updateStep_recorded; [|done|done].
  intros memory [Hlen Hm]. split; [by rewrite length_fmap|]. intros i s Hi.
  destruct (Hm i s Hi) as (s' & Hs' & Hsid & Hin & Hst). rewrite list_lookup_fmap, Hs'. cbn.
  eexists. split; [done|]. by case_bool_decide.
Qed.

(** When the step is marked the next one is at work; when the marking is struck
    either may be. *)
Lemma wspec_markApplied k step step' :
  steps !! k = Some step -> isCleanup (in_action (sp_input step)) = false ->
  sp_id step' = sp_id step ->
  wspec (fun w => J k w /\ stepDone step (diskOf (nodesAfter k)) (w_disk w))
    (markApplied holder step') (fun _ => between (S k)) stopped.
Proof.
  intros Hk Hf Eid.
  apply (wspec_tx _ _ _ (fun w => J k w /\ stepDone step (diskOf (nodesAfter k)) (w_disk w))).
  - intros w [HJ Hd]. split; [by apply stable_tick|]. by rewrite nextTick_disk.
  - intros w now [HJ Hd]. exists k. split; [done|]. by apply (phaseReach_done k step).
  - intros w locks called now later [] db [(HK & _ & Ho) Hd] E.
    enough (between (S k) (set_now later (set_db db w))) by (split; [done|by exists (S k)]).
    split; [|by apply (phaseReach_done k step)]. split_and!; [|done|done].
    unfold markStorageMutationStepApplied in E. tx_inv E.
    apply assertFence_ok in Htx as [-> _]. rewrite Hid, Eid in E.
    eapply updateStep_recorded; [|done|done]. intros memory. by apply marked_mark.
Qed.

Lemma wspec_oneStep k j memory step' :
  marked k memory -> memory !! j = Some step' ->
  wspec (between (max j k))
    (applyOneStep holder forward (assertLease leaseFailure holder) afterStep (j, step'))
    (fun _ => between (max (S j) k)) stopped.
Proof.
  intros [Hlen Hm] Hj.
  destruct (lookup_lt_is_Some_2 steps j) as [step Hstep].
  { rewrite <- Hlen. by eapply lookup_lt_Some. }
  destruct (Hm j step Hstep) as (s & Hs & Eid & Ein & Hst). assert (s = step') as -> by congruence.
  unfold applyOneStep, shouldApplyStorageStep. rewrite Ein.
  destruct (isCleanup (in_action (sp_input step))) eqn:Hc.
  { (* a cleanup step waits *)
    rewrite (bool_decide_eq_false_2 (forward = cleanup)), andb_false_r by done. cbn [negb].
    apply wspec_ret. intros w [(HK & Hi & Ho) Hd].
    destruct (decide (j < k)%nat) as [Hlt|Hge].
    - by replace (max (S j) k) with (max j k) by lia.
    - replace (max j k) with j in HK, Hd by lia. replace (max (S j) k) with (S j) by lia.
      split; [|by eapply phaseReach_skip]. split_and!; [|done|done].
      destruct HK as (m & Hm' & Hmk). exists m. split; [done|]. by eapply marked_skip. }
  rewrite (bool_decide_eq_false_2 (forward = cleanup)) by done. cbn [eqb].
  destruct (decide (j < k)%nat) as [Hlt|Hge].
  { rewrite bool_decide_eq_true_2 by by apply Hst. cbn [negb andb].
    apply wspec_ret. by replace (max (S j) k) with (max j k) by lia. }
  rewrite bool_decide_eq_false_2 by (rewrite Hst by done; lia). cbn [negb andb].
  replace (max j k) with j by lia. replace (max (S j) k) with (S j) by lia.
  rewrite (applyFilesystemStep_input step' step) by done.
  assert (Hin : forall w, between j w <-> J j w /\ stepReach step (diskOf (nodesAfter j)) (w_disk w)).
  { intros w. unfold between, phaseReach. by rewrite Hstep. }
  assert (Hstop : forall w, J j w /\ stepReach step (diskOf (nodesAfter j)) (w_disk w) -> stopped w).
  { intros w Hw. exists j. by apply Hin. }
  set (R := stepReach step (diskOf (nodesAfter j))).
  set (F := stepDone step (diskOf (nodesAfter j))).
  set (P := fun w => J j w /\ R (w_disk w)). set (D := fun w => J j w /\ F (w_disk w)).
  assert (HD : forall w, D w -> P w).
  { intros w [HJ Hd]. split; [done|]. apply stepReach_done; [by apply (pr_ready Hplan)|done]. }
  apply (wspec_conseq _ P _ (fun _ => between (S j)) _ stopped); [|by intros w ?; apply Hin|done|done].
  apply (wspec_bind _ _ _ _ (fun _ => P)).
  { apply (wspec_conseq _ P _ (fun _ => P) _ P); [|done|done|exact Hstop].
    apply (wspec_spec (J j) R _ (fun _ => R) R), spec_phaseLease. }
  intros _u. apply (wspec_bind _ _ _ _ (fun _ => D)).
  { apply (wspec_conseq _ P _ (fun _ => D) _ P); [|done|done|exact Hstop].
    apply (wspec_catch _ _ _ _ P).
    - apply (wspec_spec (J j) R _ (fun _ => F) R). apply spec_forward_resumes; [apply _|intros Q; apply spec_phaseLease|done|].
      by apply (pr_ready Hplan).
    - intros e. apply (wspec_bind _ _ _ _ (fun _ => P)); [|intros _u2; by apply wspec_throw].
      apply (wspec_spec (J j) R _ (fun _ => R) R). apply spec_tx; [apply _|apply markFailed_recorded]. }
  intros _u2. apply (wspec_bind _ _ _ _ (fun _ => D)).
  { intros w Hw. pose proof (Hhook filesystem_step_applied (Some step') w) as E.
    destruct (hook filesystem_step_applied (Some step') w) as [[a|e|] w']; cbn in E; subst w';
      [done|by apply Hstop, HD..]. }
  intros _u3. apply (wspec_bind _ _ _ _ (fun _ => between (S j))).
  { by apply wspec_markApplied. }
  intros _u4. by apply wspec_remember.
Qed.

Lemma wspec_attempt k :
  wspec (fun w => between k w /\ marked k (w_steps w))
    (applyStorageMutationSteps holder forward leaseFailure afterStep)
    (fun _ => stopped) stopped.
Proof.
  unfold applyStorageMutationSteps.
  apply (wspec_bind _ _ _ _ (fun memory w => between k w /\ marked k memory)).
  { intros w [Hb Hm]. by split. }
  intros memory w [Hb Hm]. revert w Hb.
  apply (wspec_conseq _ (between (max 0 k)) _ (fun _ => between (max (length memory) k)) _ stopped);
    [|done|by intros _u w Hw; eexists|done].
  apply (wspec_forEach_imap memory _ (fun j => between (max j k))). intros j step' Hj.
  by eapply wspec_oneStep.
Qed.
End attempt.
End plan.

(** The recorded steps and the disk after any number of attempts, each stopped
    anywhere by anything. *)
Inductive attempted `{RuntimeLaws} (id : string) (steps0 : list Step) (d0 : Disk) :
    list Step -> Disk -> Prop :=
| attempted_none : attempted id steps0 d0 steps0 d0
| attempted_one steps d holder leaseFailure hook w o w' m m' :
    attempted id steps0 d0 steps d ->
    w_disk w = d -> w_steps w = steps ->
    db_mutations (w_db w) !! id = Some m -> mu_steps m = steps -> others (sameSteps id) w ->
    hd_id holder = id -> onlyInterrupts hook ->
    applyStorageMutationSteps holder forward leaseFailure
      (fun step => hook filesystem_step_applied (Some step)) w = (o, w') ->
    db_mutations (w_db w') !! id = Some m' ->
    attempted id steps0 d0 (mu_steps m') (w_disk w').

Section resumes.
Context `{RuntimeLaws} (id : string) (steps0 : list Step) (d0 : Disk).
#[local] Notation m0 := (dk_nodes d0).
Context (Hplan : planReady steps0 m0) (Hwf : wellFormed d0).

Lemma marked_start : marked steps0 0 steps0.
Proof.
  split; [done|]. intros i step Hi. exists step. split_and!; [done..|]. intros _.
  split; [|lia]. intros E. by apply (pr_new _ _ Hplan) in Hi.
Qed.

Lemma attempted_progress steps d :
  attempted id steps0 d0 steps d -> exists k, marked steps0 k steps /\ phaseReach steps0 m0 k d.
Proof.
  induction 1 as [|steps d holder lf hook w o w' m m' _ (k & Hk & Hd) Ed Es Hm Em Ho Hid Hh Hrun Hm'].
  - exists 0%nat. split; [apply marked_start|]. unfold phaseReach.
    destruct (steps0 !! 0%nat); [by apply stepReach_start|done].
  - pose proof (wspec_attempt id steps0 m0 Hplan holder Hid lf hook Hh k w) as Hr.
    rewrite Hrun in Hr.
    assert (Hw : between id steps0 m0 k w /\ marked steps0 k (w_steps w)).
    { split; [split; [split_and!; [|done|done]|]|].
      - exists m. by rewrite Em.
      - by rewrite Ed.
      - by rewrite Es. }
    assert (Hs : stopped id steps0 m0 w') by (by destruct o; apply Hr).
    destruct Hs as (k' & ((m1 & Hm1 & Hk1) & _) & Hd'). exists k'. simplify_eq. by split.
Qed.

(** ** An undisturbed attempt *)

Section undisturbed.
Context (holder : Holder).
Context (leaseFailure : World -> option IoError)
  (Hlf : forall w, w_leaseFailure w = None -> leaseFailure w = None).
Context (hook : StorageMutationExecutionBoundary -> option Step -> Io unit)
  (Hquiet : forall boundary step w, hook boundary step w = (Done tt, w)).

#[local] Notation L := (holding holder (sp_id <$> steps0)).
#[local] Notation afterStep := (fun step => hook filesystem_step_applied (Some step)).
#[local] Notation Reach k := (phaseReach steps0 m0 k).

Lemma finishes_oneStep k memory j step' :
  marked steps0 k memory -> memory !! j = Some step' ->
  finishes L (Reach (max j k))
    (applyOneStep holder forward (assertLease leaseFailure holder) afterStep (j, step'))
    (fun _ => Reach (max (S j) k)).
Proof.
  intros [Hlen Hm] Hj.
  destruct (lookup_lt_is_Some_2 steps0 j) as [step Hstep].
  { rewrite <- Hlen. by eapply lookup_lt_Some. }
  destruct (Hm j step Hstep) as (s & Hs & Eid & Ein & Hst). assert (s = step') as -> by congruence.
  unfold applyOneStep, shouldApplyStorageStep. rewrite Ein.
  destruct (isCleanup (in_action (sp_input step))) eqn:Hc.
  { rewrite (bool_decide_eq_false_2 (forward = cleanup)), andb_false_r by done. cbn [negb].
    apply finishes_ret_for. intros d Hd. destruct (decide (j < k)%nat) as [Hlt|Hge].
    - by replace (max (S j) k) with (max j k) by lia.
    - replace (max j k) with j in Hd by lia. replace (max (S j) k) with (S j) by lia.
      by eapply phaseReach_skip. }
  rewrite (bool_decide_eq_false_2 (forward = cleanup)) by done. cbn [eqb].
  destruct (decide (j < k)%nat) as [Hlt|Hge].
  { rewrite bool_decide_eq_true_2 by by apply Hst. cbn [negb andb].
    apply finishes_ret_for. intros d Hd. by replace (max (S j) k) with (max j k) by lia. }
  rewrite bool_decide_eq_false_2 by (rewrite Hst by done; lia). cbn [negb andb].
  replace (max j k) with j by lia. replace (max (S j) k) with (S j) by lia.
  rewrite (applyFilesystemStep_input step' step) by done.
  assert (Hlease : forall P, finishes L P (assertLease leaseFailure holder) (fun _ => P))
    by (intros P; by apply finishes_assertLease).
  set (F := stepDone step (diskOf (nodesAfter steps0 m0 j))).
  apply (finishes_bind L _ _ _ _ (fun _ => Reach j)); [apply Hlease|]. intros _u.
  apply (finishes_bind L _ _ _ _ (fun _ => F)).
  { apply finishes_catch. unfold phaseReach. rewrite Hstep.
    apply finishes_forward; [apply _|done|done|]. by apply (pr_ready _ _ Hplan). }
  intros _u2. apply (finishes_bind L _ _ _ _ (fun _ => F)).
  { intros w HL Hw. exists tt, w. by rewrite Hquiet. }
  intros _u3. apply (finishes_bind L _ _ _ _ (fun _ => F)).
  { apply finishes_markApplied. rewrite Eid. apply list_elem_of_fmap. exists step.
    split; [done|]. by eapply list_elem_of_lookup_2. }
  intros _u4 w HL Hw. exists tt. eexists. split; [done|]. split; [done|].
  by apply (phaseReach_done steps0 m0 j step).
Qed.

Lemma finishes_attempt k w :
  L w -> marked steps0 k (w_steps w) -> Reach k (w_disk w) ->
  exists w', applyStorageMutationSteps holder forward leaseFailure afterStep w = (Done tt, w') /\
    L w' /\ wellFormed (w_disk w') /\ dk_nodes (w_disk w') = foldl forwardNodes m0 steps0.
Proof.
  intros HL Hk Hd. pose proof (proj1 Hk) as Hlen.
  destruct (finishes_forEach_imap L (w_steps w)
    (applyOneStep holder forward (assertLease leaseFailure holder) afterStep)
    (fun j => Reach (max j k))) with (w := w) as ([] & w' & Erun & HL' & Hd'); [|done|done|].
  { intros j step' Hj. by eapply finishes_oneStep. }
  exists w'. split; [done|]. split; [done|].
  unfold phaseReach in Hd'.
  assert (Hnone : steps0 !! max (length (w_steps w)) k = None) by (apply lookup_ge_None; lia).
  rewrite Hnone in Hd'. destruct Hd' as [? E]. split; [done|]. rewrite E. unfold nodesAfter.
  by rewrite take_ge by lia.
Qed.
End undisturbed.
End resumes.

(** C18: an interrupted forward phase resumes. Take a plan whose steps fit the
    disk one after the other, and any number of attempts at its forward phase, by
    any workers, each cut short anywhere: by a failing call, a lost lease, or the
    death of the process between a move and its record. Then one undisturbed
    attempt that starts from the steps as recorded returns, and leaves the nodes
    that the steps one after the other make of the first disk: those a single
    attempt would have left. *)
Theorem interrupted_forward_phase_resumes `{RuntimeLaws} id steps0 d0 steps holder leaseFailure
    hook w m :
  wellFormed d0 -> planReady steps0 (dk_nodes d0) ->
  attempted id steps0 d0 steps (w_disk w) ->
  calm w -> w_leaseFailure w = None -> w_steps w = steps -> hd_id holder = id ->
  db_mutations (w_db w) !! id = Some m -> mu_steps m = steps ->
  fenceHolds (hd_leaseOwner holder) (hd_leaseToken holder) (w_now w) m = true ->
  (forall w', w_leaseFailure w' = None -> leaseFailure w' = None) ->
  (forall boundary step w', hook boundary step w' = (Done tt, w')) ->
  exists w', applyStorageMutationSteps holder forward leaseFailure
      (fun step => hook filesystem_step_applied (Some step)) w = (Done tt, w') /\
    wellFormed (w_disk w') /\
    dk_nodes (w_disk w') = foldl forwardNodes (dk_nodes d0) steps0.
Proof.
  intros Hwf Hplan Hatt Hcalm Hnf Hmem Hid Hm Hsteps Hfence Hlf Hq.
  destruct (attempted_progress id steps0 d0 Hplan Hwf _ _ Hatt) as (k & Hk & Hd).
  destruct (finishes_attempt steps0 d0 Hplan holder leaseFailure Hlf hook Hq k w)
    as (w' & Hrun & _ & Hres); [|by rewrite Hmem|done|by exists w'].
  split_and!; [done|done|]. exists m. rewrite Hid. split_and!; [done|done|].
  rewrite Hsteps. by eapply marked_ids.
Qed.
