(* ===== verification/UndoFacts.v ===== *)
(** * Rolling a forward phase back

    Undoing the applied steps, newest first, takes the disk back to the nodes it
    started from, up to the directories that were made on the way to a target. *)

From Stdlib Require Import Ascii.
From Stdlib Require String.
From S2P Require Import Prelude Database MutationMetadata MutationPrepare StorageChanges Journal JournalSteps Disk Io StoragePaths TreeManifest ManifestFacts ExecutorSteps StepFacts RenameFacts Executor ExecutorWorld DeleteFacts ExecutorSafety ForwardPhase.

Open Scope Z_scope.

(** ** What a rollback leaves *)

(** Every path holds what it held in [m], or was free there and is a directory
    among [P]. *)
Record leaving (P : path -> Prop) (m : gmap path Node) (d : Disk) : Prop := {
  lv_wf : wellFormed d;
  lv_nodes q : nodeAt d q = m !! q \/ (m !! q = None /\ nodeAt d q = Some NDirectory /\ P q)
}.

Lemma leaving_nodes P m : nodesOnly (leaving P m).
Proof.
  intros d d' E [Hwf Hd]. split; [by eapply wellFormed_nodes|].
  intros q. specialize (Hd q). unfold nodeAt in *. by rewrite <- E.
Qed.

Lemma leaving_present P m d q n : leaving P m d -> m !! q = Some n -> nodeAt d q = Some n.
Proof. intros [_ Hd] E. destruct (Hd q) as [->|[E' _]]; congruence. Qed.

Lemma leaving_clear P m d q : leaving P m d -> ~ P q -> nodeAt d q = m !! q.
Proof. intros [_ Hd] Hq. destruct (Hd q) as [|(_ & _ & ?)]; done. Qed.

Lemma leaving_weaken P P' m d : (forall q, P q -> P' q) -> leaving P m d -> leaving P' m d.
Proof. intros Hp [Hwf Hd]. split; [done|]. intros q. destruct (Hd q) as [|(? & ? & ?)]; auto. Qed.

(** Nothing of [P] is at or below [p]. *)
Definition clearOf (P : path -> Prop) (p : path) : Prop := forall q, P q -> ~ p ⊑ q.

(** The directories that are missing on the way to [t]. *)
Definition missingTo (t : path) (m : gmap path Node) (q : path) : Prop :=
  q ⊑ dirname t /\ m !! q = None.

Lemma withDirectories_present (p : path) (d : Disk) q :
  wellFormed d -> nodeAt d p = Some NDirectory ->
  withDirectories p (dk_nodes d) !! q = nodeAt d q.
Proof.
  intros Hwf Hp. rewrite lookup_withDirectories. unfold nodeAt at 1.
  destruct (dk_nodes d !! q) as [n|] eqn:E; [done|]. case_decide as Hq; [|done].
  exfalso. apply (wf_below _ Hwf q p); [congruence|done|done].
Qed.

Section undo.
Context `{RuntimeLaws}.

(** ** Moving back *)

Section back.
Context (P : path -> Prop) (step : Step) (m : gmap path Node) (s t : path) (n : Node) (d : Disk).
Context (Hr : renameReady step (diskOf m) s t n).
Context (Hs : clearOf P s) (Ht : clearOf P t) (Hd : leaving P (renamedNodes s t m) d).

Lemma back_target r : nodeAt d (t ++ r) = m !! (s ++ r).
Proof using All.
  rewrite (leaving_clear _ _ _ _ Hd) by (intros HP; apply (Ht _ HP); by eexists).
  pose proof (ready_apart _ _ _ _ _ Hr) as Hts. destruct Hr as [_ _ _ _ _ Hst _ _].
  unfold renamedNodes. rewrite lookup_moveNodes_target, lookup_withDirectories by done.
  destruct (m !! (s ++ r)); [done|]. rewrite decide_False; [done|].
  intros Hle. apply Hst. etrans; [by eexists|]. etrans; [done|]. apply dirname_prefix.
Qed.

Lemma back_source r : nodeAt d (s ++ r) = None.
Proof using All.
  rewrite (leaving_clear _ _ _ _ Hd) by (intros HP; apply (Hs _ HP); by eexists).
  pose proof (ready_apart _ _ _ _ _ Hr) as Hts. destruct Hr as [_ _ _ _ _ Hst _ _].
  by apply lookup_moveNodes_source.
Qed.

Lemma back_other q :
  ~ s ⊑ q -> ~ t ⊑ q ->
  nodeAt d q = m !! q \/ (m !! q = None /\ nodeAt d q = Some NDirectory /\ (P q \/ missingTo t m q)).
Proof using All.
  intros Hsq Htq. pose proof (ready_apart _ _ _ _ _ Hr) as Hts. destruct Hr as [_ _ _ _ _ Hst _ _].
  assert (E : renamedNodes s t m !! q = withDirectories (dirname t) m !! q) by by apply lookup_moveNodes_other.
  rewrite lookup_withDirectories in E. destruct (lv_nodes _ _ _ Hd q) as [Eq|(En & Eq & HP)].
  - rewrite E in Eq. destruct (m !! q) eqn:Em; [by left|].
    case_decide as Hle; [right|by left]. split_and!; [done..|]. by right; split.
  - rewrite E in En. destruct (m !! q) eqn:Em; [done|]. right. by split_and!; [..|left].
Qed.

Lemma back_way q : q ⊑ s -> q <> s -> nodeAt d q = Some NDirectory.
Proof using All.
  intros Hq Hne. pose proof (ready_apart _ _ _ _ _ Hr) as Hts. pose proof Hr as [Hwf _ _ Es _ _ _ _].
  assert (E : m !! q = Some NDirectory) by (apply (wf_ancestor _ Hwf s); [congruence|done..]).
  destruct (back_other q) as [->|(En & _)]; [| |done|congruence].
  - intros Hle. apply Hne. by apply (anti_symm prefix).
  - intros Hle. apply Hts. by etrans.
Qed.

(** The renamed disk is ready for the rename back, which ends where it began. *)
Lemma renameReady_back : renameReady (reversedStep step) d t s n.
Proof using All.
  pose proof (ready_apart _ _ _ _ _ Hr) as Hts. pose proof Hr as [Hwf [Ks Kt] Hint Es Et Hst _ Hexp].
  assert (Esd : nodeAt d t = Some n) by (rewrite <- (app_nil_r t), back_target, app_nil_r; done).
  split; [by eapply lv_wf|by split| |done| |done| |].
  - intros d'. specialize (Hint d'). unfold assertRenameStepIntent, assertRenamePaths in *.
    cbn [reversedStep sp_input in_sourceKey in_targetKey in_expectedNodeType in_expectedChecksum
         in_treeManifestDigest].
    rewrite (andb_comm (given (in_targetKey _))). exact Hint.
  - rewrite <- (app_nil_r s). apply back_source.
  - intros q Hq. left. apply back_way; [etrans; [done|apply dirname_prefix]|].
    intros ->. apply (dirname_shorter s); [|done]. intros ->. by apply Hst, prefix_nil.
  - etrans; [|exact Hexp]. symmetry. apply (look_validate_same (diskOf m) d s t step);
      [done|by eapply lv_wf| |congruence]. intros r. by rewrite back_target.
Qed.

Lemma renamed_back d' :
  wellFormed d' -> dk_nodes d' = renamedNodes t s (dk_nodes d) ->
  leaving (fun q => P q \/ missingTo t m q) m d'.
Proof using All.
  intros Hwf' E. split; [done|]. intros q.
  pose proof (ready_apart _ _ _ _ _ Hr) as Hts. pose proof Hr as [Hwf _ _ Es Et Hst _ _].
  assert (Hne : s <> []) by (intros ->; by apply Hst, prefix_nil).
  assert (Hway : forall q, withDirectories (dirname s) (dk_nodes d) !! q = nodeAt d q).
  { intros q'. apply withDirectories_present; [by eapply lv_wf|].
    apply back_way; [apply dirname_prefix|]. intros Ed. apply (dirname_shorter s Hne). by rewrite Ed. }
  assert (Hq : nodeAt d' q = moveNodes t s (withDirectories (dirname s) (dk_nodes d)) !! q)
    by (unfold nodeAt; by rewrite E).
  rewrite Hq. destruct (decide (s ⊑ q)) as [[r ->]|Hsq]; [|destruct (decide (t ⊑ q)) as [[r ->]|Htq]].
  - left. rewrite lookup_moveNodes_target, Hway by done. apply back_target.
  - left. rewrite lookup_moveNodes_source by done. symmetry.
    destruct (m !! (t ++ r)) eqn:Em; [|done]. exfalso.
    apply (wf_below _ Hwf t (t ++ r)); [unfold nodeAt, diskOf; cbn; congruence|by eexists|done].
  - rewrite lookup_moveNodes_other, Hway by done. by apply back_other.
Qed.
End back.

(** ** Undoing one step *)

Context (L : World -> Prop) `{!Undisturbed L} (lease : Io unit).
Context (Hlease : forall P, finishes L P lease (fun _ => P)).

(** Removing a directory that was made, with nothing left in it. *)
Lemma rmdir_made P (t : path) m d :
  wellFormed (diskOf m) -> m !! t = None -> clearOf P t -> leaving P (withDirectories t m) d ->
  exists d', rmdir t d = Ok (tt, d') /\ leaving (fun q => P q \/ missingTo t m q) m d'.
Proof.
  intros Hwf0 Ht Hclear Hd. pose proof (lv_wf _ _ _ Hd) as Hwf.
  assert (Hat : forall r, nodeAt d (t ++ r) = if decide (r = []) then Some NDirectory else None).
  { intros r. rewrite (leaving_clear _ _ _ _ Hd) by (intros HP; apply (Hclear _ HP); by eexists).
    rewrite lookup_withDirectories. destruct (m !! (t ++ r)) eqn:Em.
    { exfalso. apply (wf_below _ Hwf0 t (t ++ r)); [unfold nodeAt, diskOf; cbn; congruence|by eexists|done]. }
    case_decide as Hle; case_decide as Hr; try done.
    - exfalso. apply Hr. apply prefix_length in Hle. rewrite length_app in Hle.
      destruct r; [done|]. cbn in Hle. lia.
    - exfalso. apply Hle. by rewrite Hr, app_nil_r. }
  assert (Hne : t <> []) by (intros ->; pose proof (wf_root _ Hwf0) as Hroot; unfold nodeAt, diskOf in Hroot; cbn in Hroot; congruence).
  assert (Hdirt : nodeAt d t = Some NDirectory) by (rewrite <- (app_nil_r t), Hat; by rewrite decide_True).
  assert (Hempty : entries d t = []) by (apply entries_nil; intros name; by rewrite Hat).
  assert (Erm : rmdir t d = Ok (tt, markUnsynced {[dirname t]} (without [t] d))).
  { unfold rmdir. rewrite (proj2 (lstat_ok _ Hwf _ _ _) (conj Hdirt eq_refl)), Hempty.
    by rewrite decide_False. }
  eexists. split; [exact Erm|]. split; [by eapply removal_wf; [|left]|].
  intros q. pose proof (rmdir_ok _ _ _ _ Hwf Erm) as (_ & _ & ->). case_decide as Eq.
  { left. by subst q. }
  destruct (lv_nodes _ _ _ Hd q) as [E|(E & E' & HP)]; rewrite lookup_withDirectories in E;
    destruct (m !! q) eqn:Em; try done; [by left| |right; by split_and!; [..|left]].
  case_decide as Hle; [right|by left]. split_and!; [done..|right]. split; [by apply prefix_dirname|done].
Qed.

Lemma finishes_removeUndone P step m t :
  mkdirReady step (diskOf m) t -> m !! t = None -> clearOf P t ->
  finishes L (leaving P (withDirectories t m)) (removeUndoneDirectory step)
    (fun _ => leaving (fun q => P q \/ missingTo t m q) m).
Proof.
  intros Hr Ht Hclear. pose proof Hr as [Hwf0 Hgiven _ Hk Hopen _ _]. unfold mkdirKey in Hk.
  unfold removeUndoneDirectory. rewrite Hgiven, Hk. cbn [negb liftIo].
  set (M := leaving P (withDirectories t m)). set (M' := leaving _ m).
  apply (finishes_bind L _ _ _ _ (fun t' d => t' = t /\ M d)); [by apply finishes_ret_for|].
  intros t'. apply finishes_pure. intros ->.
  assert (Hkp : keyPath t) by by eapply resolve_keyPath.
  assert (Hway : forall q, q ⊑ t -> withDirectories t m !! q = Some NDirectory).
  { intros q Hq. rewrite lookup_withDirectories. destruct (Hopen q Hq) as [E|E];
      unfold nodeAt, diskOf in E; cbn in E; rewrite E; [done|by rewrite decide_True]. }
  apply (finishes_bind L _ _ _ _ (fun _ => M)).
  { eapply finishes_observes_for; [apply _|eauto with observes|]. intros d Hd.
    split; [|done]. apply assertSafe_complete; [by eapply lv_wf|done|]. apply openPath_safe.
    intros q Hq. left. eapply leaving_present; [exact Hd|]. by apply Hway. }
  intros _u. apply (finishes_bind L _ _ _ _ (fun r d => r = removal_removed /\ M' d)).
  - unfold removeArtifactDirectory. apply finishes_catch.
    apply (finishes_bind L _ _ _ _ (fun _ d => M' d /\ nodeAt d (dirname t) = Some NDirectory)).
    { apply finishes_fs; [apply _|]. intros d Hd.
      destruct (rmdir_made P t m d) as (d' & E & Hd'); [done..|]. exists tt, d'. split; [done|].
      split; [done|]. pose proof (rmdir_ok _ _ _ _ (lv_wf _ _ _ Hd) E) as (_ & _ & ->).
      rewrite decide_False.
      - eapply leaving_present; [exact Hd|]. apply Hway, dirname_prefix.
      - intros Ed. apply (dirname_shorter t); [|by rewrite Ed]. intros ->.
        pose proof (wf_root _ Hwf0) as Hroot. unfold nodeAt, diskOf in Hroot. cbn in Hroot. congruence. }
    intros _u2. apply (finishes_bind L _ _ _ _ (fun _ => M')).
    { set (M2 := fun d => M' d /\ nodeAt d (dirname t) = Some NDirectory).
      apply (finishes_conseq L _ M2 M2 (fun _ => M2) (fun _ => M')); [|done|by intros _ d [? _]].
      apply finishes_syncParents; [apply _| |].
      - intros d d' E [HM Hn]. split; [by eapply leaving_nodes|]. unfold nodeAt in *. by rewrite <- E.
      - intros d p [HM Hn] ->%list_elem_of_singleton. split; [by eapply lv_wf|congruence]. }
    intros _u3. by apply finishes_ret_for.
  - intros r. apply finishes_pure. intros ->. by apply finishes_ret_for.
Qed.

(** What a step puts in its place, and the places it is about. *)
Definition makes (step : Step) (t : path) : Prop :=
  (in_action (sp_input step) = rename_step \/ in_action (sp_input step) = mkdir_step) /\
  resolveMutationStoragePath (stepTarget step) = Ok t.
Definition isAbout (step : Step) (p : path) : Prop :=
  makes step p \/
  (in_action (sp_input step) = rename_step /\ resolveMutationStoragePath (stepSource step) = Ok p).

Lemma finishes_undoStep P step m :
  sp_status step = step_applied -> isCleanup (in_action (sp_input step)) = false ->
  stepReady step (diskOf m) ->
  (forall t, in_action (sp_input step) = mkdir_step -> makes step t -> m !! t = None) ->
  (forall p, isAbout step p -> clearOf P p) ->
  finishes L (leaving P (forwardNodes m step)) (undoStep lease step)
    (fun _ => leaving (fun q => P q \/ exists t, makes step t /\ missingTo t m q) m).
Proof.
  intros Hs Hc Hr Hnew Hclear. unfold undoStep. rewrite Hs, Hc, bool_decide_eq_true_2 by done.
  cbn [negb orb]. unfold stepReady in Hr. destruct (in_action (sp_input step)) eqn:Ea; try done.
  - destruct Hr as [t Hr]. pose proof (mr_key _ _ _ Hr) as Hk. unfold mkdirKey in Hk.
    assert (Hm : makes step t) by (split; [by right|done]).
    apply (finishes_bind L _ _ _ _ (fun _ => leaving P (forwardNodes m step))); [apply Hlease|].
    intros _u. unfold forwardNodes. rewrite Ea, Hk.
    eapply finishes_conseq; [apply (finishes_removeUndone P step m t); [done|by apply Hnew|]|done|].
    + by apply Hclear; left.
    + intros _u' d. apply leaving_weaken. intros q [|]; [by left|right; by exists t].
  - destruct Hr as (s & t & n & Hr). destruct (rr_keys _ _ _ _ _ Hr) as [Ks Kt].
    assert (Hm : makes step t) by (split; [by left|done]).
    assert (Cs : clearOf P s) by (apply Hclear; by right).
    assert (Ct : clearOf P t) by (apply Hclear; by left).
    intros w HL Hd. unfold forwardNodes in Hd. rewrite Ea, Ks, Kt in Hd.
    pose proof (renameReady_back P step m s t n (w_disk w) Hr Cs Ct Hd) as Hback.
    destruct (finishes_applyRename (reversedStep step) (w_disk w) t s n Hback L lease Hlease w)
      as (a & w' & Erun & HL' & Hwf' & E'); [done|split; [by eapply lv_wf|by left]|].
    exists a, w'. split_and!; [done..|].
    eapply leaving_weaken; [|by apply (renamed_back P step m s t n (w_disk w))].
    intros q [|]; [by left|right; by exists t].
Qed.
End undo.

(** ** Undoing a phase *)

Section undo_phase.
Context `{RuntimeLaws} (steps : list Step) (m0 : gmap path Node).

(** A directory that is made on the way to the target of step [k]. *)
Definition madeFor (k : nat) (q : path) : Prop :=
  exists step t, steps !! k = Some step /\ makes step t /\ missingTo t (nodesAfter steps m0 k) q.

(** Every step is planned for what the ones before it leave, a directory it makes
    was not there, and it makes none on its way at or below the source or the
    target of an earlier one. *)
Record planReversible : Prop := {
  pv_ready : planReady steps m0;
  pv_made k step t : steps !! k = Some step -> in_action (sp_input step) = mkdir_step ->
    makes step t -> nodesAfter steps m0 k !! t = None;
  pv_clear j k step p : (j < k)%nat -> steps !! j = Some step -> isAbout step p ->
    clearOf (madeFor k) p
}.

Context (Hplan : planReversible).
Context (L : World -> Prop) `{!Undisturbed L} (lease : Io unit).
Context (Hlease : forall P, finishes L P lease (fun _ => P)).

(** Undone down to step [k], from step [n] on. *)
Definition madeBetween (k n : nat) (q : path) : Prop := exists j, (k <= j < n)%nat /\ madeFor j q.
#[local] Notation At k n := (leaving (madeBetween k n) (nodesAfter steps m0 k)).

Lemma forwardNodes_input m step step' :
  sp_input step = sp_input step' -> forwardNodes m step = forwardNodes m step'.
Proof. destruct step, step'. cbn. by intros <-. Qed.

Lemma isAbout_input step step' p : sp_input step = sp_input step' -> isAbout step p -> isAbout step' p.
Proof. destruct step, step'. cbn. by intros <-. Qed.

Lemma makes_input step step' t : sp_input step = sp_input step' -> makes step t -> makes step' t.
Proof. destruct step, step'. cbn. by intros <-. Qed.

Lemma stepReady_input step step' d :
  sp_input step = sp_input step' -> stepReady step d -> stepReady step' d.
Proof.
  intros E Hr. destruct step as [? input], step' as [? input']. cbn in E. subst input'.
  unfold stepReady in *. cbn [sp_input] in *.
  destruct (in_action input); [| |done..].
  - destruct Hr as (t & [Hwf Hg Hd Hk Ho He Hx]). exists t.
    split; [exact Hwf|exact Hg|exact Hd|exact Hk|exact Ho|exact He|exact Hx].
  - destruct Hr as (s & t & n & [Hwf Hk Hi Hs Ht Hst Ho Hx]). exists s, t, n.
    split; [exact Hwf|exact Hk|exact Hi|exact Hs|exact Ht|exact Hst|exact Ho|exact Hx].
Qed.

Lemma finishes_undoDone k n step step' :
  steps !! k = Some step -> (k < n)%nat -> sp_input step' = sp_input step ->
  (isCleanup (in_action (sp_input step')) = false -> sp_status step' = step_applied) ->
  finishes L (At (S k) n) (undoStep lease step') (fun _ => At k n).
Proof using All.
  intros Hk Hkn Ein Hs. rewrite (nodesAfter_S _ _ _ _ Hk), (forwardNodes_input _ step step') by done.
  destruct (isCleanup (in_action (sp_input step'))) eqn:Hc.
  { unfold undoStep. rewrite Hc, orb_true_r. apply finishes_ret_for. intros d Hd.
    unfold forwardNodes in Hd. eapply leaving_weaken; [|by destruct (in_action (sp_input step'))].
    intros q (j & ? & ?). exists j. split; [lia|done]. }
  specialize (Hs eq_refl).
  set (P := madeBetween (S k) n). eapply finishes_conseq; [apply (finishes_undoStep L lease Hlease P); try done|done|].
  - eapply stepReady_input; [done|]. by apply (pr_ready _ _ (pv_ready Hplan)).
  - intros t Ha Hm. apply (pv_made Hplan k step); [done|by rewrite <- Ein|by eapply makes_input].
  - intros p Hp q (j & Hj & Hq). eapply (pv_clear Hplan k j step p); [lia|done| |done].
    by eapply isAbout_input.
  - intros _u d. apply leaving_weaken. intros q [(j & ? & ?)|(t & Hm & Hq)].
    + exists j. split; [lia|done].
    + exists k. split; [lia|]. exists step, t. split_and!; [done|by eapply makes_input|done].
Qed.

Lemma finishes_undoPrefix k memory j :
  marked steps k memory -> (j <= length memory)%nat ->
  finishes L (At (min j k) k) (forEach (reverse (take j memory)) (undoStep lease)) (fun _ => At 0%nat k).
Proof using All.
  intros [Hlen Hm]. induction j as [|j IH]; intros Hj.
  { rewrite take_0. by apply finishes_ret_for. }
  destruct (lookup_lt_is_Some_2 steps j) as [step Hstep]; [lia|].
  destruct (Hm j step Hstep) as (step' & Hs & _ & Ein & Hst).
  rewrite (take_S_r _ _ _ Hs), reverse_snoc. cbn [forEach].
  apply (finishes_bind L _ _ _ _ (fun _ => At (min j k) k)); [|intros _u; apply IH; lia].
  destruct (decide (j < k)%nat) as [Hlt|Hge].
  - replace (min (S j) k) with (S j) by lia. replace (min j k) with j by lia.
    eapply finishes_undoDone; [done..|]. rewrite Ein. intros Hc. by apply Hst.
  - replace (min (S j) k) with (min j k) by lia.
    unfold undoStep. destruct (isCleanup (in_action (sp_input step'))) eqn:Hc.
    { rewrite orb_true_r. by apply finishes_ret_for. }
    rewrite bool_decide_eq_false_2; [by apply finishes_ret_for|]. rewrite Hst by (by rewrite <- Ein). lia.
Qed.
End undo_phase.

(** C28: a rollback restores the disk. Let the first [k] steps of a mutation be
    done and recorded, where the directories that its mkdir steps make were not
    there, and no directory made on the way to a step's target lies at or below a
    place an earlier step is about. Then undoing them under a lease that holds
    returns. Every file, link and directory is back at its place, with its
    content; what a step put elsewhere is gone, and so is every directory a mkdir
    step made. What else there can be is a directory that was missing on the way to
    a target, such as those of the quarantine: a rollback leaves these. *)
Theorem rollback_restores_the_disk `{RuntimeLaws} steps m0 k holder w :
  planReversible steps m0 -> holding holder (sp_id <$> steps) w ->
  marked steps k (w_steps w) -> (k <= length steps)%nat ->
  wellFormed (w_disk w) -> dk_nodes (w_disk w) = nodesAfter steps m0 k ->
  exists w', undoForwardSteps (renewLease holder) w = (Done tt, w') /\
    wellFormed (w_disk w') /\
    forall q, nodeAt (w_disk w') q = m0 !! q \/
              (m0 !! q = None /\ nodeAt (w_disk w') q = Some NDirectory /\
               exists j, (j < k)%nat /\ madeFor steps m0 j q).
Proof.
  intros Hplan HL Hk Hle Hwf E.
  destruct (finishes_undoPrefix steps m0 Hplan (holding holder (sp_id <$> steps))
    (renewLease holder) (finishes_renew holder _) k (w_steps w) (length (w_steps w)) Hk)
    with (w := w) as ([] & w' & Hrun & _ & Hwf' & E'); [lia|done| |].
  { rewrite (proj1 Hk). replace (min _ _) with k by lia. split; [done|]. intros q. left.
    unfold nodeAt. by rewrite E. }
  exists w'. rewrite take_ge in Hrun by lia. split_and!; [done..|]. intros q.
  destruct (E' q) as [|(? & ? & j & ? & ?)]; [by left|right]. split_and!; [done..|].
  exists j. split; [lia|done].
Qed.
