(* ===== verification/ExecutorExamples.v ===== *)
(** * The executor on a concrete disk

    A mutation moves one file into its quarantine and then deletes it there. The
    lemmas check the hypotheses of the executor's properties on it, with a
    concrete platform, and apply them. *)

From Stdlib Require Import Ascii OrderedTypeEx.
From Stdlib Require String.
From S2P Require Import Prelude Database MutationMetadata MutationPrepare StorageChanges Journal JournalSteps JournalSafety Disk Io StoragePaths TreeManifest ManifestFacts ManifestCapture ExecutorSteps StepFacts RenameFacts Executor ExecutorWorld DeleteFacts ExecutorSafety ForwardPhase UndoFacts.

Open Scope Z_scope.

(** ** A platform *)

(** Any function serves as the digest: no property relies on its secrecy. *)
#[export] Instance exampleRuntime : Runtime := {|
  sha256 s := "#" +:+ s;
  stringLess s t := String.ltb s t;
  lowerCase s := s;
  entrySize _ := 4096;
  errnoText _ := "disk error";
  databaseText _ := "database error"
|}.

(** Strings by their characters are in an order. *)
Lemma ordered_laws (R : Runtime) :
  (forall s t, stringLess s t = String.ltb s t) -> RuntimeLaws.
Proof.
  intros Hless. assert (Hlt : forall s t, stringLess s t = true <-> String_as_OT.lt s t).
  { intros s t. rewrite Hless, <- String_as_OT.cmp_lt. unfold String_as_OT.cmp, String.ltb.
    by destruct (String.compare s t). }
  split.
  - intros s. apply not_true_iff_false. rewrite Hlt. intros E. by apply String_as_OT.lt_not_eq in E.
  - intros s t u. rewrite !Hlt. apply String_as_OT.lt_trans.
  - intros s t. rewrite !Hlt. destruct (String_as_OT.compare s t) as [|E|]; auto.
Qed.

#[export] Instance exampleRuntime_laws : RuntimeLaws.
Proof. by apply ordered_laws. Qed.

(** ** Checking concrete disks *)

Lemma wellFormed_check d :
  nodeAt d [] = Some NDirectory ->
  forallb (fun e : path * Node =>
    bool_decide (e.1 = [] \/ nodeAt d (dirname e.1) = Some NDirectory))
    (map_to_list (dk_nodes d)) = true -> wellFormed d.
Proof.
  intros Hroot Hall. split; [done|]. intros p name Hn.
  destruct (nodeAt d (p ++ [name])) as [n|] eqn:E; [|done].
  apply forallb_forall with (x := (p ++ [name], n)) in Hall;
    [|by apply list_elem_of_In, elem_of_map_to_list].
  apply bool_decide_eq_true_1 in Hall as [Hnil|Hd]; cbn in *; [by destruct p|].
  by rewrite dirname_app in Hd.
Qed.

Lemma openPath_check d p :
  forallb (fun q => bool_decide (nodeAt d q = Some NDirectory \/ nodeAt d q = None))
    (p :: ancestors p) = true -> openPath d p.
Proof.
  intros Hall q Hq. rewrite forallb_forall in Hall.
  assert (Hin : q ∈ p :: ancestors p).
  { destruct (decide (q = p)) as [->|]; [constructor|]. right. by apply elem_of_ancestors. }
  apply list_elem_of_In, Hall, bool_decide_eq_true_1 in Hin. done.
Qed.

Lemma renameReady_check `{R : Runtime} step d s t n :
  wellFormed d -> renameKeys step s t -> (forall d', look (assertRenameStepIntent step) d' = Done tt) ->
  nodeAt d s = Some n -> nodeAt d t = None -> bool_decide (s ⊑ t) = false ->
  forallb (fun q => bool_decide (nodeAt d q = Some NDirectory \/ nodeAt d q = None))
    (dirname t :: ancestors (dirname t)) = true ->
  look (validateExpectedNode s step) d = Done tt -> renameReady step d s t n.
Proof.
  intros Hwf Hk Hi Hs Ht Hst%bool_decide_eq_false Ho Hv. split; try done. by apply openPath_check.
Qed.

(** ** The mutation *)

Definition fileKey : string := "files/u1/a.txt".
Definition quarantineKey : string := "tmp/quarantine/m1/a.txt".

Definition quarantineStep (status : StepStatus) : Step :=
  {| sp_id := "s1";
     sp_input := {| in_action := rename_step; in_sourceKey := Some fileKey;
       in_targetKey := Some quarantineKey; in_expectedNodeType := Some file_node;
       in_expectedSizeBytes := Some 3; in_expectedChecksum := Some "#abc";
       in_treeManifestDigest := None |};
     sp_status := status; sp_attemptCount := 0; sp_appliedAt := None; sp_lastError := None |}.

Definition purgeStep : Step :=
  {| sp_id := "s2";
     sp_input := {| in_action := delete_file_step; in_sourceKey := None;
       in_targetKey := Some quarantineKey; in_expectedNodeType := Some file_node;
       in_expectedSizeBytes := Some 3; in_expectedChecksum := Some "#abc";
       in_treeManifestDigest := None |};
     sp_status := step_pending; sp_attemptCount := 0; sp_appliedAt := None;
     sp_lastError := None |}.

Definition purgeSteps : list Step := [quarantineStep step_pending; purgeStep].

(** The row as the worker of the given token claimed it. *)
Definition purgeMutation (token : Z) : Mutation :=
  {| mu_parentId := None; mu_kind := file_trash; mu_ownerUserId := "u1"; mu_requestHash := None;
     mu_originDeviceId := None; mu_idempotencyKey := None; mu_status := running;
     mu_intentJson := intent None None; mu_resultJson := None; mu_reservedBytes := None;
     mu_metadataCommittedAt := None; mu_completedAt := None; mu_recoveryRequiredAt := None;
     mu_lease := {| ls_owner := Some "w1"; ls_token := token; ls_expiresAt := Some 30000 |};
     mu_attempts := {| at_count := 1; at_lastAttemptAt := None; at_nextAttemptAt := None;
                       at_lastError := None |};
     mu_steps := purgeSteps; mu_entities := [] |}.

Definition purgeDB (token : Z) : DB :=
  {| db_rows := ∅; db_users := ∅; db_sessions := ∅; db_trash := ∅;
     db_mutations := {[ "m1" := purgeMutation token ]};
     db_resources := []; db_changes := []; db_nextSeq := 1 |}.

Definition purgeDisk : Disk :=
  {| dk_nodes := list_to_map
       [([], NDirectory); (["files"], NDirectory); (["files"; "u1"], NDirectory);
        (["files"; "u1"; "a.txt"], NFile "abc"); (["files"; "u1"; "b.txt"], NFile "xyz")];
     dk_unsynced := ∅ |}.

Definition worldOf (token : Z) (ticks : list Tick) : World :=
  {| w_disk := purgeDisk; w_db := purgeDB token; w_now := 1000; w_steps := purgeSteps;
     w_timer := None; w_leaseFailure := None; w_future := ticks |}.

Definition purgeInput (token : Z) : ExecuteInput unit :=
  {| ei_id := "m1"; ei_mutation := purgeMutation token; ei_leaseOwner := "w1";
     ei_leaseToken := token; ei_commitMetadata := mret tt; ei_resultJson := fun _ => None;
     ei_hook := noHook |}.

Lemma purgeDB_ok token : journalOk (purgeDB token).
Proof.
  intros id m Hm. cbn in Hm. apply lookup_singleton_Some in Hm as [_ <-].
  split; [done| |by repeat constructor]. cbn. intros Hs. by status_cases.
Qed.

Lemma purgeDisk_ok : wellFormed purgeDisk.
Proof. apply wellFormed_check; by vm_compute. Qed.

Lemma noHook_interrupts : onlyInterrupts noHook.
Proof. by intros boundary step w. Qed.

Lemma ret_keepsJournal : keepsJournal (mret tt).
Proof. intros db x db' E. by injection E as _ <-. Qed.

(** The process dies just after the [n]th effect from now. *)
Definition diesAfter (n : nat) : list Tick :=
  replicate n quietTick ++
  [{| tk_elapsed := 0; tk_within := 0; tk_others := id; tk_locks := ∅; tk_renewal := no_renewal;
      tk_strike := Some killed; tk_done := true; tk_deleted := [] |}].

Lemma others_diesAfter R n w : Reflexive R -> w_future w = diesAfter n -> others R w.
Proof.
  intros HR E. unfold others. rewrite E. apply Forall_app. split.
  - apply Forall_replicate. by intros db.
  - by repeat constructor.
Qed.

(** What an undisturbed execution makes of the disk. *)
Example purge_runs :
  let '(result, w') := executeClaimedStorageMutation (purgeInput 1) (worldOf 1 []) in
  result = Done tt /\ nodeAt (w_disk w') ["files"; "u1"; "a.txt"] = None /\
  nodeAt (w_disk w') ["files"; "u1"; "b.txt"] = Some (NFile "xyz") /\
  nodeAt (w_disk w') ["tmp"; "quarantine"; "m1"] = None /\
  (mu_status <$> db_mutations (w_db w') !! "m1") = Some succeeded.
Proof. vm_compute. by split_and!. Qed.

(** ** Properties of an execution *)

Definition killedWorld : World := worldOf 1 (diesAfter 44).

Lemma execution_loses_no_file_witness :
  let '(result, w') := executeClaimedStorageMutation (purgeInput 1) killedWorld in
  let steps := mu_steps (ei_mutation (purgeInput 1)) in
  wellFormed (w_disk w') /\
  (traced (named steps) nowhere (w_disk killedWorld) (w_disk w') \/
   (committed (ei_id (purgeInput 1)) (w_db w') /\
    traced (named steps) (doomed steps) (w_disk killedWorld) (w_disk w'))) /\
  (forall a, result = Done a -> committed (ei_id (purgeInput 1)) (w_db w')).
Proof.
  apply (execution_loses_no_file (purgeInput 1) killedWorld).
  - apply purgeDB_ok.
  - apply (others_diesAfter _ 44); [|reflexivity]. intros db. constructor.
  - apply purgeDisk_ok.
  - apply ret_keepsJournal.
  - apply noHook_interrupts.
Defined.

(** The process of [killedWorld] dies with the file moved. *)
Example killed_with_the_file_moved :
  let '(result, w') := executeClaimedStorageMutation (purgeInput 1) killedWorld in
  result = Killed /\ nodeAt (w_disk w') ["files"; "u1"; "a.txt"] = None /\
  nodeAt (w_disk w') ["tmp"; "quarantine"; "m1"; "a.txt"] = Some (NFile "abc") /\
  (sp_status <$> (mu_steps <$> db_mutations (w_db w') !! "m1") ≫= head) = Some step_pending.
Proof. vm_compute. by split_and!. Qed.

Lemma lost_lease_touches_nothing_witness :
  let '(result, w') := executeClaimedStorageMutation (purgeInput 1) (worldOf 2 []) in
  dk_nodes (w_disk w') = dk_nodes (w_disk (worldOf 2 [])) /\ forall a, result <> Done a.
Proof.
  apply (lost_lease_touches_nothing (purgeInput 1) (worldOf 2 []) (purgeMutation 2)).
  - apply purgeDB_ok.
  - constructor.
  - apply noHook_interrupts.
  - reflexivity.
  - reflexivity.
Defined.

(** ** The forward phase *)

Definition exampleHolder : Holder := {| hd_id := "m1"; hd_leaseOwner := "w1"; hd_leaseToken := 1 |}.

Definition forwardOf (w : World) : outcome unit * World :=
  applyStorageMutationSteps exampleHolder forward noLeaseFailure
    (fun step => noHook filesystem_step_applied (Some step)) w.

Definition rowOf (w : World) : Mutation := default (purgeMutation 1) (db_mutations (w_db w) !! "m1").

(** The first worker dies; another one takes the recorded steps up. *)
Definition cutShort : World := (forwardOf killedWorld).2.
Definition takenUp : World := set_future [] (set_memory (mu_steps (rowOf cutShort)) cutShort).

Lemma takenUp_disk : w_disk takenUp = w_disk cutShort.
Proof. unfold takenUp. generalize cutShort (mu_steps (rowOf cutShort)). by intros []. Qed.

Lemma purgePlan_ready : planReady purgeSteps (dk_nodes purgeDisk).
Proof.
  split.
  - intros [|[|k]] step Hk; cbn in Hk; [| |done]; injection Hk as <-; unfold stepReady; cbn [in_action sp_input quarantineStep purgeStep].
    + exists ["files"; "u1"; "a.txt"], ["tmp"; "quarantine"; "m1"; "a.txt"], (NFile "abc").
      split.
      * apply purgeDisk_ok.
      * split; by vm_compute.
      * done.
      * by vm_compute.
      * by vm_compute.
      * by intros [r E].
      * apply openPath_check. by vm_compute.
      * by vm_compute.
    + apply wellFormed_check; by vm_compute.
  - cbn. repeat constructor; set_solver.
  - intros [|[|k]] step Hk; cbn in Hk; [| |done]; by injection Hk as <-.
Qed.

Lemma cutShort_attempted :
  attempted "m1" purgeSteps purgeDisk (mu_steps (rowOf cutShort)) (w_disk cutShort).
Proof.
  apply (attempted_one "m1" purgeSteps purgeDisk purgeSteps purgeDisk exampleHolder noLeaseFailure
    noHook killedWorld (forwardOf killedWorld).1 cutShort (purgeMutation 1) (rowOf cutShort)).
  - constructor.
  - reflexivity.
  - reflexivity.
  - reflexivity.
  - reflexivity.
  - apply (others_diesAfter _ 44); [|reflexivity]. by intros db.
  - reflexivity.
  - apply noHook_interrupts.
  - apply surjective_pairing.
  - by vm_compute.
Qed.

Lemma interrupted_forward_phase_resumes_witness :
  exists w', applyStorageMutationSteps exampleHolder forward noLeaseFailure
      (fun step => noHook filesystem_step_applied (Some step)) takenUp = (Done tt, w') /\
    wellFormed (w_disk w') /\
    dk_nodes (w_disk w') = foldl forwardNodes (dk_nodes purgeDisk) purgeSteps.
Proof.
  apply (interrupted_forward_phase_resumes "m1" purgeSteps purgeDisk (mu_steps (rowOf cutShort))
    exampleHolder noLeaseFailure noHook takenUp (rowOf cutShort)).
  - apply purgeDisk_ok.
  - apply purgePlan_ready.
  - rewrite takenUp_disk. apply cutShort_attempted.
  - reflexivity.
  - by vm_compute.
  - reflexivity.
  - reflexivity.
  - by vm_compute.
  - reflexivity.
  - by vm_compute.
  - reflexivity.
  - reflexivity.
Defined.

(** ** Deletions *)

(** The cleanup step when the file is in quarantine. *)
Definition quarantined : World := (forwardOf (worldOf 1 [])).2.

Lemma deletes_only_what_was_captured_witness :
  isCleanup (in_action (sp_input purgeStep)) = true /\
  let '(_, w') := applyFilesystemStep purgeStep (assertLease noLeaseFailure exampleHolder) quarantined in
  wellFormed (w_disk w') /\
  forall q, nodeAt (w_disk w') q = nodeAt (w_disk quarantined) q \/
    (nodeAt (w_disk w') q = None /\ exists t, deleteTarget purgeStep t /\
       (ownArtifactDirectory purgeStep (w_disk quarantined) t q \/
        (t ⊑ q /\ captured purgeStep (ownedPartialOf (w_steps quarantined) purgeStep)
                    (w_disk quarantined) t))).
Proof.
  split; [reflexivity|].
  apply (deletes_only_what_was_captured purgeStep noLeaseFailure exampleHolder quarantined).
  - apply wellFormed_check; by vm_compute.
  - reflexivity.
Defined.

(** ** Manifests *)

Definition treeDisk : Disk :=
  {| dk_nodes := list_to_map
       [([], NDirectory); (["t"], NDirectory); (["t"; "d"], NDirectory);
        (["t"; "d"; "f"], NFile "abc"); (["t"; "a"], NFile "")];
     dk_unsynced := ∅ |}.

Definition treeCaptured : list CapturedEntry :=
  [captured_file "d/f" 3 "#abc"; captured_directory "d"; captured_file "a" 0 "#"].

Lemma treeDisk_lookup q n :
  nodeAt treeDisk q = Some n ->
  (q, n) ∈ [([], NDirectory); (["t"], NDirectory); (["t"; "d"], NDirectory);
            (["t"; "d"; "f"], NFile "abc"); (["t"; "a"], NFile "")].
Proof. unfold nodeAt, treeDisk. cbn [dk_nodes]. apply elem_of_list_to_map_2. Qed.

Lemma captured_digest_is_the_digest_of_the_tree_witness :
  look (calculateTreeManifestDigest ["t"]) treeDisk
  = Done (calculateCapturedTreeManifestDigest treeCaptured).
Proof.
  apply (captured_digest_is_the_digest_of_the_tree treeDisk ["t"] treeCaptured).
  - apply wellFormed_check; by vm_compute.
  - by vm_compute.
  - intros r n Hn%treeDisk_lookup. cbn in Hn.
    repeat (apply elem_of_cons in Hn as [E|Hn]; [injection E; intros; subst; repeat constructor; by vm_compute|]).
    by apply elem_of_nil in Hn.
  - split; [repeat constructor; set_solver|]. intros e. split.
    + intros He. repeat (apply elem_of_cons in He as [->|He]); [| | |by apply elem_of_nil in He].
      * exists "d", ["f"], (NFile "abc"). by vm_compute.
      * exists "d", [], NDirectory. by vm_compute.
      * exists "a", [], (NFile ""). by vm_compute.
    + intros (name & r & n & Hn%treeDisk_lookup & ->). cbn in Hn.
      repeat (apply elem_of_cons in Hn as [E|Hn]; [injection E; intros; subst; cbn; set_solver|]).
      by apply elem_of_nil in Hn.
Defined.

(** ** Two gaps *)

(** The process dies between the rename and the syncing of its directories. The
    next attempt finds the file moved and marks the step, but syncs nothing. *)
Definition diedUnsynced : World := (forwardOf (worldOf 1 (diesAfter 43))).2.
Definition resumedUnsynced : outcome unit * World :=
  forwardOf (set_future [] (set_memory (mu_steps (rowOf diedUnsynced)) diedUnsynced)).

Example resumed_rename_is_not_synced :
  let '(result, w') := resumedUnsynced in
  result = Done tt /\
  (sp_status <$> (mu_steps <$> db_mutations (w_db w') !! "m1") ≫= head) = Some step_applied /\
  bool_decide (["files"; "u1"] ∈ dk_unsynced (w_disk w')) = true /\
  bool_decide (["tmp"; "quarantine"; "m1"] ∈ dk_unsynced (w_disk w')) = true.
Proof. vm_compute. by split_and!. Qed.

(** At the last attempt the step is done on the disk and its marking fails: the
    mutation is rolled back without it, and aborted with the file moved. *)
Definition lastAttempt : Mutation :=
  mutate (purgeMutation 1) running (intent None None) None None None None None None
    (mu_lease (purgeMutation 1))
    {| at_count := 11; at_lastAttemptAt := None; at_nextAttemptAt := None; at_lastError := None |}.

Definition markingFails : list Tick :=
  replicate 48 quietTick ++
  [{| tk_elapsed := 0; tk_within := 0; tk_others := id; tk_locks := ∅; tk_renewal := no_renewal;
      tk_strike := Some (fails "reset"); tk_done := false; tk_deleted := [] |}].

Definition lastAttemptWorld : World :=
  set_db (set_mutations {[ "m1" := lastAttempt ]} (purgeDB 1)) (worldOf 1 markingFails).

Definition lastAttemptInput : ExecuteInput unit :=
  {| ei_id := "m1"; ei_mutation := lastAttempt; ei_leaseOwner := "w1"; ei_leaseToken := 1;
     ei_commitMetadata := mret tt; ei_resultJson := fun _ => None; ei_hook := noHook |}.

Example unmarked_step_is_not_undone :
  let '(result, w') := executeClaimedStorageMutation lastAttemptInput lastAttemptWorld in
  result = Failed (StorageException (StorageMutationRejectedError STORAGE_MUTATION_ABORTED)) /\
  (mu_status <$> db_mutations (w_db w') !! "m1") = Some aborted /\
  nodeAt (w_disk w') ["files"; "u1"; "a.txt"] = None /\
  nodeAt (w_disk w') ["tmp"; "quarantine"; "m1"; "a.txt"] = Some (NFile "abc").
Proof. vm_compute. by split_and!. Qed.

(** ** A rollback *)

(** A directory is made, a file is moved there, another one to the quarantine,
    whose directories are not there yet. *)
Definition tidyStep (id : string) (input : StorageMutationStepInput) : Step :=
  {| sp_id := id; sp_input := input; sp_status := step_pending; sp_attemptCount := 0;
     sp_appliedAt := None; sp_lastError := None |}.
Definition moveInput (source target checksum : string) : StorageMutationStepInput :=
  {| in_action := rename_step; in_sourceKey := Some source; in_targetKey := Some target;
     in_expectedNodeType := Some file_node; in_expectedSizeBytes := Some 3;
     in_expectedChecksum := Some checksum; in_treeManifestDigest := None |}.
Definition tidySteps : list Step :=
  [tidyStep "s1" {| in_action := mkdir_step; in_sourceKey := None;
     in_targetKey := Some "files/u1/docs"; in_expectedNodeType := Some directory_node;
     in_expectedSizeBytes := None; in_expectedChecksum := None;
     in_treeManifestDigest := Some EMPTY_TREE_MANIFEST_DIGEST |};
   tidyStep "s2" (moveInput fileKey "files/u1/docs/c.txt" "#abc");
   tidyStep "s3" (moveInput "files/u1/b.txt" "tmp/quarantine/m1/b.txt" "#xyz")].

Definition tidyDB : DB :=
  set_mutations {[ "m1" := set_steps tidySteps (purgeMutation 1) ]} (purgeDB 1).

(** Both steps are done and marked. *)
Definition tidied : World := (forwardOf (set_memory tidySteps (set_db tidyDB (worldOf 1 [])))).2.

Lemma diskOf_purge m : m = dk_nodes purgeDisk -> diskOf m = purgeDisk.
Proof. by intros ->. Qed.

Lemma purgeDisk_docs r : nodeAt purgeDisk (["files"; "u1"; "docs"] ++ r) = None.
Proof.
  destruct (nodeAt _ _) as [n|] eqn:E; [|done]. exfalso.
  unfold nodeAt, purgeDisk in E. cbn [dk_nodes] in E. apply elem_of_list_to_map_2 in E.
  repeat (apply elem_of_cons in E as [E|E]; [done|]). by apply elem_of_nil in E.
Qed.

(** No directory of the way to the step [k] is at or below what an earlier step is
    about. *)
Definition placesOf (step : Step) : list path :=
  match resolveMutationStoragePath (stepTarget step) with Ok t => [t] | Throw _ => [] end ++
  match resolveMutationStoragePath (stepSource step) with Ok s => [s] | Throw _ => [] end.

Lemma isAbout_places step p : isAbout step p -> p ∈ placesOf step.
Proof.
  unfold placesOf. intros [[_ ->]|[_ ->]]; [by left|]. apply elem_of_app. right. by left.
Qed.

Lemma clear_check steps m0 k step t p :
  steps !! k = Some step -> resolveMutationStoragePath (stepTarget step) = Ok t ->
  forallb (fun q => negb (bool_decide (p ⊑ q)) || bool_decide (nodesAfter steps m0 k !! q <> None))
    (dirname t :: ancestors (dirname t)) = true -> clearOf (madeFor steps m0 k) p.
Proof.
  intros Hk Ht Hall q (step' & t' & Hk' & [_ Ht'] & Hq & En) Hle.
  assert (step' = step) as -> by congruence. assert (t' = t) as -> by congruence.
  rewrite forallb_forall in Hall. specialize (Hall q).
  rewrite bool_decide_eq_true_2 in Hall by done. rewrite bool_decide_eq_false_2 in Hall by (intros Hn; by apply Hn).
  assert (Hf : false = true); [|done]. apply Hall, list_elem_of_In.
  destruct (decide (q = dirname t)) as [->|]; [left|right; by apply elem_of_ancestors].
Qed.

Lemma tidyPlan_ready : planReady tidySteps (dk_nodes purgeDisk).
Proof.
  split.
  - intros [|[|[|k]]] step Hk; cbn in Hk; [| | |done]; injection Hk as <-; unfold stepReady;
      cbn [in_action sp_input tidyStep moveInput].
    + exists ["files"; "u1"; "docs"]. split.
      * apply wellFormed_check; by vm_compute.
      * done.
      * by vm_compute.
      * by vm_compute.
      * apply openPath_check. by vm_compute.
      * intros r Hr. replace (diskOf _) with purgeDisk by (symmetry; by apply diskOf_purge).
        apply purgeDisk_docs.
      * by vm_compute.
    + exists ["files"; "u1"; "a.txt"], ["files"; "u1"; "docs"; "c.txt"], (NFile "abc").
      apply renameReady_check; [apply wellFormed_check; by vm_compute|split; by vm_compute|done|by vm_compute..].
    + exists ["files"; "u1"; "b.txt"], ["tmp"; "quarantine"; "m1"; "b.txt"], (NFile "xyz").
      apply renameReady_check; [apply wellFormed_check; by vm_compute|split; by vm_compute|done|by vm_compute..].
  - cbn. repeat constructor; set_solver.
  - intros [|[|[|k]]] step Hk; cbn in Hk; [| | |done]; by injection Hk as <-.
Qed.

Lemma tidyPlan_reversible : planReversible tidySteps (dk_nodes purgeDisk).
Proof.
  split; [apply tidyPlan_ready| |].
  - intros [|[|[|k]]] step t Hk Ha [_ Ht]; cbn in Hk; try done; injection Hk as <-; try done.
    vm_compute in Ht. injection Ht as <-. by vm_compute.
  - intros j k step p Hj Hstep Hp%isAbout_places.
    destruct k as [|[|[|k]]]; [lia| | |intros q (? & ? & Hk & _); by rewrite lookup_ge_None_2 in Hk by (cbn; lia)].
    all: destruct j as [|[|j]]; try lia; cbn in Hstep; injection Hstep as <-;
      match type of Hp with _ ∈ ?l => let l' := eval vm_compute in l in change (p ∈ l') in Hp end;
      rewrite ?elem_of_cons, elem_of_nil in Hp;
      (eapply clear_check; [reflexivity|by vm_compute|]);
      destruct_or! Hp; try done; subst p; by vm_compute.
Qed.

(** Undone, both files are back, and no file is new. *)
Lemma rollback_restores_the_disk_witness :
  exists w', undoForwardSteps (renewLease exampleHolder) tidied = (Done tt, w') /\
    nodeAt (w_disk w') ["files"; "u1"; "a.txt"] = Some (NFile "abc") /\
    nodeAt (w_disk w') ["files"; "u1"; "b.txt"] = Some (NFile "xyz") /\
    forall q content, nodeAt (w_disk w') q = Some (NFile content) ->
      dk_nodes purgeDisk !! q = Some (NFile content).
Proof.
  destruct (rollback_restores_the_disk tidySteps (dk_nodes purgeDisk) 3 exampleHolder tidied)
    as (w' & E & _ & Hq).
  - apply tidyPlan_reversible.
  - split; [by vm_compute|]. split; [by vm_compute|]. exists (rowOf tidied).
    split_and!; by vm_compute.
  - split; [by vm_compute|]. intros [|[|[|k]]] step Hk; cbn in Hk; [| | |done]; injection Hk as <-.
    all: eexists; split_and!; [by vm_compute|done|done|]; intros _; split; [lia|done].
  - cbn. lia.
  - apply wellFormed_check; by vm_compute.
  - apply (bool_decide_unpack _). by vm_compute.
  - exists w'. split_and!; [done| | |].
    + destruct (Hq ["files"; "u1"; "a.txt"]) as [->|[E' _]]; [by vm_compute|by vm_compute in E'].
    + destruct (Hq ["files"; "u1"; "b.txt"]) as [->|[E' _]]; [by vm_compute|by vm_compute in E'].
    + intros q content Ec. destruct (Hq q) as [Eq|(_ & Eq & _)]; congruence.
Defined.

(** What is left of it are the directories of the quarantine. *)
Example rollback_leaves_the_quarantine :
  let '(result, w') := undoForwardSteps (renewLease exampleHolder) tidied in
  result = Done tt /\ nodeAt (w_disk w') ["files"; "u1"; "docs"] = None /\
  nodeAt (w_disk w') ["tmp"; "quarantine"; "m1"; "b.txt"] = None /\
  nodeAt (w_disk w') ["tmp"; "quarantine"; "m1"] = Some NDirectory.
Proof. vm_compute. by split_and!. Qed.
