(* ===== verification/Async.v ===== *)
(** * Asynchronous programs

    The desktop engine's functions wait for the disk, the server and the clock,
    and several of them wait at once. An asynchronous function is a [Task]; the
    program it is run as is a tree of its effects, [Proc], in which every answer
    is still open. Between two effects a program runs on its own. A pool
    ([transfer.ts], [pool]) is the node where workers take turns.

    [step] lets any worker go on, whatever the answers are; [run] is one run of
    it, worker after worker, against a world that answers. [guarded] is what each
    thread of control may do after what it did before; [logged] is the program
    whose effects carry that log, so that a promise can speak of it. *)

From S2P Require Import Prelude.

Section Async.
Context {Eff Err : Type} {Ans : Eff -> Type}.

(** ** Programs *)

(** [stop thrown] is a function that returned, or threw. [await e k] waits for
    the effect [e]. In [pooled lanes fatal failure k] each lane has its running
    workers and the items no worker took yet; [failure] is the first error a
    worker threw, and [fatal] the effect of [onFatal]. *)
Inductive Proc :=
| stop (thrown : option Err)
| await (e : Eff) (k : Ans e -> Proc)
| pooled (lanes : list (list Proc * list Proc)) (fatal : Eff) (failure : option Err)
    (k : option Err -> Proc).

Definition Event : Type := { e : Eff & Ans e }.
Definition event (e : Eff) (a : Ans e) : Event := existT e a.

(** ** Asynchronous functions *)

(** A function is what it makes of the rest of the program. *)
Definition Task (A : Type) : Type := (result Err A -> Proc) -> Proc.

#[export] Instance task_ret : MRet Task := fun A a k => k (Ok a).
#[export] Instance task_bind : MBind Task :=
  fun A B f t k => t (fun r => match r with Ok a => f a k | Throw e => k (Throw e) end).

Definition throw {A} (e : Err) : Task A := fun k => k (Throw e).

(** [try { t } catch (error) { h(error) }]. *)
Definition catch {A} (t : Task A) (h : Err -> Task A) : Task A :=
  fun k => t (fun r => match r with Ok a => k (Ok a) | Throw e => h e k end).

(** [try { t } finally { f }]. *)
Definition finally {A} (t : Task A) (f : Task unit) : Task A :=
  fun k => t (fun r => f (fun r' => match r' with Ok _ => k r | Throw e => k (Throw e) end)).

(** An effect that answers, and one whose answer may be an error. *)
Definition ask (e : Eff) : Task (Ans e) := fun k => await e (fun a => k (Ok a)).
Definition settle {A} (t : Task (result Err A)) : Task A :=
  fun k => t (fun r => match r with Ok r' => k r' | Throw e => k (Throw e) end).

Fixpoint forEach {A} (l : list A) (f : A -> Task unit) : Task unit :=
  match l with
  | [] => mret tt
  | a :: l' => _ ← f a; forEach l' f
  end.

(** A worker's item, and a task as a program of its own. *)
Definition start (t : Task unit) : Proc :=
  t (fun r => match r with Ok _ => stop None | Throw e => stop (Some e) end).

Definition laneOf {A} (work : A -> Task unit) (lane : list A * nat) :
    list Proc * list Proc :=
  let procs := (fun item => start (work item)) <$> lane.1 in
  (take (lane.2) procs, drop (lane.2) procs).

(** [pool]: each lane has as many workers as its size, or its items, allow; each
    takes the next item when it is done with one; the first error stops the
    taking, calls [onFatal], and is thrown when the last worker has ended. *)
Definition pool {A} (lanes : list (list A * nat)) (work : A -> Task unit) (onFatal : Eff) :
    Task unit :=
  fun k => pooled (laneOf work <$> lanes) onFatal None
    (fun failure => match failure with None => k (Ok tt) | Some e => k (Throw e) end).

(** ** Interleavings *)

Section Steps.
Context {World : Type} (answers : World -> forall e : Eff, Ans e -> World -> Prop).

(** What a worker that ended becomes: [Some] of its next item, or nothing. *)
Inductive worker_ends (fatal : Eff) : option Err -> list Proc -> option Err ->
    list Proc -> list Proc -> option Err -> Prop :=
| worker_takes q queued :
    worker_ends fatal None (q :: queued) None [q] queued None
| worker_rests failure queued :
    queued = [] \/ failure <> None -> worker_ends fatal None queued failure [] queued failure
| worker_fails e queued :
    worker_ends fatal (Some e) queued None [await fatal (fun _ => stop None)] queued (Some e)
| worker_fails_too e queued failure :
    failure <> None -> worker_ends fatal (Some e) queued failure [] queued failure.

Inductive step : World -> Proc -> list Event -> World -> Proc -> Prop :=
| step_await w e k a w' :
    answers w e a w' -> step w (await e k) [event e a] w' (k a)
| step_worker w before running p running' queued after fatal failure k ev w' p' :
    step w p ev w' p' ->
    step w (pooled (before ++ (running ++ p :: running', queued) :: after) fatal failure k) ev
         w' (pooled (before ++ (running ++ p' :: running', queued) :: after) fatal failure k)
| step_ended w before running thrown running' queued after fatal failure k next queued' failure' :
    worker_ends fatal thrown queued failure next queued' failure' ->
    step w (pooled (before ++ (running ++ stop thrown :: running', queued) :: after) fatal
              failure k) []
         w (pooled (before ++ (running ++ next ++ running', queued') :: after) fatal failure' k)
| step_settled w lanes fatal failure k :
    Forall (fun lane => fst lane = []) lanes ->
    step w (pooled lanes fatal failure k) [] w (k failure).

(** Events are listed from the last one back. *)
Inductive steps : World -> Proc -> list Event -> World -> Proc -> Prop :=
| steps_none w p : steps w p [] w p
| steps_one w p trace w1 p1 ev w2 p2 :
    steps w p trace w1 p1 -> step w1 p1 ev w2 p2 -> steps w p (ev ++ trace) w2 p2.

Lemma steps_trans w p t1 w1 p1 t2 w2 p2 :
  steps w p t1 w1 p1 -> steps w1 p1 t2 w2 p2 -> steps w p (t2 ++ t1) w2 p2.
Proof.
  intros H1 H2. induction H2 as [|w1 p1 t w2 p2 ev w3 p3 H2 IH Hs]; [done|].
  rewrite <- app_assoc. econstructor; eauto.
Qed.

Lemma steps_single w p ev w' p' : step w p ev w' p' -> steps w p ev w' p'.
Proof. intros H. rewrite <- (app_nil_r ev). econstructor; [constructor|done]. Qed.
End Steps.

(** ** One run *)

Section Run.
Context {World : Type} (respond : World -> forall e : Eff, Ans e * World).

(** Events so far, the world, and the first failure. *)
Notation Progress := (list Event * World * option Err)%type.

Definition isSome {A} (o : option A) : bool := match o with Some _ => true | None => false end.

(** A worker is run to its end; the first that throws has [onFatal] called. *)
Definition worked (fatal : Eff) (s : Progress)
    (worker : World -> list Event * World * option Err) : Progress :=
  let '(trace1, w2, thrown) := worker s.1.2 in
  match thrown, s.2 with
  | Some e, None =>
      let '(a, w3) := respond w2 fatal in (event fatal a :: trace1 ++ s.1.1, w3, Some e)
  | _, failure => (trace1 ++ s.1.1, w2, failure)
  end.

Lemma foldl_failed {A} (f : Progress -> A -> Progress) s l :
  isSome s.2 = true -> foldl (fun s a => if isSome s.2 then s else f s a) s l = s.
Proof. intros Hs. induction l as [|a l IH]; [done|]. cbn [foldl]. by rewrite Hs. Qed.

(** Workers one after the other: the first of a lane takes all that waits. The
    result is the events, the world, and what the program threw. *)
Fixpoint run (w : World) (p : Proc) : list Event * World * option Err :=
  match p with
  | stop thrown => ([], w, thrown)
  | await e k =>
      let '(a, w1) := respond w e in
      let '(trace, w2, thrown) := run w1 (k a) in (trace ++ [event e a], w2, thrown)
  | pooled lanes fatal failure k =>
      let one := fun s worker => worked fatal s (fun w1 => run w1 worker) in
      let item := fun s queued => if isSome s.2 then s else one s queued in
      let lane := fun s (l : list Proc * list Proc) =>
        let '(running, queued) := l in
        match running with
        | [] => s
        | first :: others => foldl one (foldl item (one s first) queued) others
        end in
      let '(trace, w1, failure1) := foldl lane ([], w, failure) lanes in
      let '(trace1, w2, thrown) := run w1 (k failure1) in (trace1 ++ trace, w2, thrown)
  end.

(** *** It is one of the interleavings *)

Definition responds (w : World) (e : Eff) (a : Ans e) (w' : World) : Prop :=
  respond w e = (a, w').

Definition runs (p : Proc) : Prop :=
  forall w trace w' thrown, run w p = (trace, w', thrown) ->
    steps responds w p trace w' (stop thrown).

Section Pool.
Context (w0 : World) (p0 : Proc) (fatal : Eff) (k : option Err -> Proc).
Context (before after : list (list Proc * list Proc)).

Definition reaches (s : Progress) (running queued : list Proc) : Prop :=
  steps responds w0 p0 s.1.1 s.1.2
    (pooled (before ++ (running, queued) :: after) fatal s.2 k).

Definition noMore (s : Progress) (queued : list Proc) : Prop := queued = [] \/ s.2 <> None.

Lemma reaches_step trace w failure running queued ev w' failure' running' queued' :
  reaches (trace, w, failure) running queued ->
  step responds w (pooled (before ++ (running, queued) :: after) fatal failure k) ev
    w' (pooled (before ++ (running', queued') :: after) fatal failure' k) ->
  reaches (ev ++ trace, w', failure') running' queued'.
Proof. apply steps_one. Qed.

(** A worker runs to its end inside its pool. *)
Lemma reaches_worker p rest queued failure trace w trace1 w1 p1 :
  reaches (trace, w, failure) (p :: rest) queued ->
  steps responds w p trace1 w1 p1 -> reaches (trace1 ++ trace, w1, failure) (p1 :: rest) queued.
Proof.
  intros Hr Hs. induction Hs as [w p|w p t w1 p1 ev w2 p2 Hs IH Hst]; [done|].
  rewrite <- app_assoc. eapply reaches_step; [by apply IH|].
  by apply (step_worker _ w1 before [] p1 rest queued after fatal failure k ev w2 p2).
Qed.

Lemma reaches_ends s thrown rest queued next queued' failure' :
  reaches s (stop thrown :: rest) queued ->
  worker_ends fatal thrown queued s.2 next queued' failure' ->
  reaches (s.1, failure') (next ++ rest) queued'.
Proof.
  destruct s as [[trace w] failure]. intros Hr He.
  eapply (reaches_step trace w failure _ _ []); [done|].
  by apply (step_ended _ w before [] thrown rest queued after).
Qed.

Lemma worked_ends s p rest queued :
  runs p -> reaches s (p :: rest) queued ->
  let s1 := worked fatal s (fun w1 => run w1 p) in
  reaches s1 (stop None :: rest) queued \/ (s1.2 <> None /\ reaches s1 rest queued).
Proof.
  destruct s as [[trace w] failure]. intros Hp Hr. cbn. unfold worked. cbn [fst snd].
  destruct (run w p) as [[t w1] thrown] eqn:E. apply Hp in E.
  pose proof (reaches_worker _ _ _ _ _ _ _ _ _ Hr E) as Hr1.
  destruct thrown as [e|]; [|by left]. destruct failure as [e'|].
  - right. split; [done|]. apply (reaches_ends (t ++ trace, w1, Some e') (Some e) rest queued [] queued (Some e')); [done|].
    by apply worker_fails_too.
  - left. destruct (respond w1 fatal) as [a w3] eqn:Ef.
    pose proof (reaches_ends (t ++ trace, w1, None) (Some e) rest queued _ _ _ Hr1
      (worker_fails fatal e queued)) as Hr2. cbn [app fst] in Hr2. apply (reaches_step _ _ _ _ _ [event fatal a] _ _ _ _ Hr2).
    apply (step_worker _ w1 before [] _ rest queued after fatal (Some e) k [event fatal a] w3 (stop None)).
    apply (step_await responds w1 fatal (fun _ => stop None) a w3). exact Ef.
Qed.

Lemma worked_failed s p :
  s.2 <> None -> (worked fatal s (fun w1 => run w1 p)).2 <> None.
Proof.
  destruct s as [[trace w] [e|]]; [|done]. intros _. unfold worked. cbn [fst snd].
  destruct (run w p) as [[t w1] [e'|]]; done.
Qed.

(** A worker that finds nothing more to take. *)
Lemma worked_rests s p rest queued :
  runs p -> reaches s (p :: rest) queued -> noMore s queued ->
  let s1 := worked fatal s (fun w1 => run w1 p) in reaches s1 rest queued /\ noMore s1 queued.
Proof.
  intros Hp Hr Hn s1.
  assert (Hn1 : noMore s1 queued) by (destruct Hn; [by left|right; by apply worked_failed]).
  split; [|done]. destruct (worked_ends s p rest queued Hp Hr) as [Hr1|[_ Hr1]]; [|done].
  fold s1 in Hr1. destruct s1 as [[t w] f]. 
  apply (reaches_ends _ None rest queued [] queued f Hr1). by apply worker_rests.
Qed.

Lemma others_reach others rest queued s :
  Forall runs others -> reaches s (others ++ rest) queued -> noMore s queued ->
  let s1 := foldl (fun s worker => worked fatal s (fun w1 => run w1 worker)) s others in
  reaches s1 rest queued /\ noMore s1 queued.
Proof.
  intros Ho. revert s. induction Ho as [|p others Hp _ IH]; intros s Hr Hn; [done|].
  cbn [foldl]. destruct (worked_rests s p (others ++ rest) queued Hp Hr Hn). by apply IH.
Qed.

(** The first worker of a lane takes what waits, until an error. *)
Lemma items_reach queued rest p s :
  runs p -> Forall runs queued -> reaches s (p :: rest) queued ->
  let one := fun s worker => worked fatal s (fun w1 => run w1 worker) in
  let s1 := foldl (fun s q => if isSome s.2 then s else one s q) (one s p) queued in
  exists queued', reaches s1 rest queued' /\ noMore s1 queued'.
Proof.
  intros Hp Hq. revert s p Hp. induction Hq as [|q qs Hq1 _ IH]; intros s p Hp Hr one s1.
  { exists []. unfold s1. cbn [foldl]. apply worked_rests; [done|done|by left]. }
  unfold s1. cbn [foldl]. destruct (worked_ends s p rest (q :: qs) Hp Hr) as [Hr1|[Hf Hr1]].
  - fold (one s p) in Hr1. destruct (one s p) as [[t w] [e|]] eqn:Es; cbn [snd isSome].
    + exists (q :: qs). rewrite foldl_failed by done. split; [|by right].
      apply (reaches_ends _ None rest (q :: qs) [] (q :: qs) (Some e) Hr1). apply worker_rests. by right.
    + apply (IH (t, w, None) q Hq1).
      apply (reaches_ends _ None rest (q :: qs) [q] qs None Hr1). apply worker_takes.
  - fold (one s p) in Hr1, Hf. exists (q :: qs). destruct (one s p) as [[t w] [e|]]; [|done].
    cbn [snd isSome]. rewrite foldl_failed by done. split; [done|by right].
Qed.
End Pool.

Definition laneRun (fatal : Eff) (s : Progress) (l : list Proc * list Proc) : Progress :=
  let one := fun s worker => worked fatal s (fun w1 => run w1 worker) in
  let item := fun s queued => if isSome s.2 then s else one s queued in
  match l.1 with
  | [] => s
  | first :: others => foldl one (foldl item (one s first) l.2) others
  end.

Lemma lanes_reach w0 p0 fatal k lanes ended s :
  Forall (fun l => Forall runs l.1 /\ Forall runs l.2) lanes ->
  Forall (fun l => l.1 = []) ended ->
  steps responds w0 p0 s.1.1 s.1.2 (pooled (ended ++ lanes) fatal s.2 k) ->
  let s1 := foldl (laneRun fatal) s lanes in
  exists ended', Forall (fun l => l.1 = []) ended' /\
    steps responds w0 p0 s1.1.1 s1.1.2 (pooled ended' fatal s1.2 k).
Proof.
  intros Hl. revert ended s. induction Hl as [|[running queued] lanes [Hr Hq] _ IH];
    intros ended s He Hs; cbn [foldl].
  { rewrite app_nil_r in Hs. eauto. }
  enough (exists queued', steps responds w0 p0 (laneRun fatal s (running, queued)).1.1
    (laneRun fatal s (running, queued)).1.2
    (pooled (ended ++ ([], queued') :: lanes) fatal (laneRun fatal s (running, queued)).2 k))
    as [queued' Hs1].
  { apply (IH (ended ++ [([], queued')])); [by apply Forall_app_2; repeat constructor|].
    by rewrite <- app_assoc. }
  cbn [fst snd] in Hr, Hq. destruct Hr as [|first others Hfirst Hothers]; [by exists queued|].
  destruct (items_reach w0 p0 fatal k ended lanes queued others first s) as (q1 & Hr1 & Hn1);
    [done..|]. exists q1. unfold laneRun. cbn [fst snd].
  rewrite <- (app_nil_r others) in Hr1.
  by apply (others_reach w0 p0 fatal k ended lanes others [] q1 _ Hothers Hr1).
Qed.

Lemma foldl_same {A B} (f g : B -> A -> B) b l :
  (forall b a, f b a = g b a) -> foldl f b l = foldl g b l.
Proof. intros E. revert b. induction l as [|a l IH]; intros b; [done|]. cbn. by rewrite E. Qed.

Lemma run_pooled w lanes fatal failure k :
  run w (pooled lanes fatal failure k) =
  let '(trace, w1, failure1) := foldl (laneRun fatal) ([], w, failure) lanes in
  let '(trace1, w2, thrown) := run w1 (k failure1) in (trace1 ++ trace, w2, thrown).
Proof.
  cbn [run]. erewrite foldl_same; [done|]. by intros s [running queued].
Qed.

Lemma run_runs p : runs p.
Proof.
  revert p. fix IH 1. intros [thrown|e k|lanes fatal failure k] w trace w' th E.
  - injection E as <- <- <-. constructor.
  - cbn in E. destruct (respond w e) as [a w1] eqn:Er.
    destruct (run w1 (k a)) as [[t w2] th1] eqn:Ek. injection E as <- <- <-.
    eapply steps_trans; [|by apply IH]. apply steps_single. by constructor.
  - rewrite run_pooled in E.
    assert (Hl : Forall (fun l => Forall runs l.1 /\ Forall runs l.2) lanes).
    { clear E. induction lanes as [|[running queued] lanes IHl]; constructor; [|done]. split; cbn.
      - clear IHl. induction running; constructor; [apply IH|done].
      - clear IHl. induction queued; constructor; [apply IH|done]. }
    destruct (lanes_reach w (pooled lanes fatal failure k) fatal k lanes [] ([], w, failure) Hl)
      as (ended & He & Hs); [constructor|constructor|].
    destruct (foldl (laneRun fatal) ([], w, failure) lanes) as [[t w1] f1]. cbn [fst snd] in Hs.
    destruct (run w1 (k f1)) as [[t1 w2] th1] eqn:Ek. injection E as <- <- <-.
    apply IH in Ek. eapply steps_trans; [exact Hs|].
    rewrite <- (app_nil_r t1). eapply steps_trans; [|exact Ek].
    apply steps_single. by constructor.
Qed.
End Run.

(** ** Guards *)

Section Guards.
Context (G : list Event -> Eff -> Prop).

(** Whatever the answers, each effect of the program satisfies [G], given the
    events before it in its own thread of control, the last one first. A worker
    starts with the events before its pool; what comes after the pool knows
    those only. *)
Fixpoint guarded (H : list Event) (p : Proc) : Prop :=
  match p with
  | stop _ => True
  | await e k => G H e /\ forall a, guarded (event e a :: H) (k a)
  | pooled lanes fatal _ k =>
      foldr (fun (l : list Proc * list Proc) rest =>
        let '(running, queued) := l in
        foldr (fun q rest => guarded H q /\ rest) True running /\
        foldr (fun q rest => guarded H q /\ rest) True queued /\ rest) True lanes /\
      (forall H', G H' fatal) /\ forall failure, guarded H (k failure)
  end.

Definition workers (lanes : list (list Proc * list Proc)) : list Proc :=
  mjoin ((fun l => l.1 ++ l.2) <$> lanes).

Lemma foldr_and {A} (P : A -> Prop) l :
  foldr (fun a rest => P a /\ rest) True l <-> Forall P l.
Proof. induction l as [|a l IH]; cbn; [by split|]. rewrite IH. by rewrite Forall_cons. Qed.

Lemma guarded_pooled H lanes fatal failure k :
  guarded H (pooled lanes fatal failure k) <->
  Forall (guarded H) (workers lanes) /\ (forall H', G H' fatal) /\
  forall failure, guarded H (k failure).
Proof.
  assert (Hl : forall lanes : list (list Proc * list Proc),
    foldr (fun (l : list Proc * list Proc) rest =>
        let '(running, queued) := l in
        foldr (fun q rest => guarded H q /\ rest) True running /\
        foldr (fun q rest => guarded H q /\ rest) True queued /\ rest) True lanes
    <-> Forall (guarded H) (workers lanes)).
  { intros ls. induction ls as [|[running queued] ls IH]; [by split; [constructor|]|].
    cbn [foldr]. rewrite !foldr_and, IH. unfold workers. cbn [fmap list_fmap mjoin list_join fst snd].
    rewrite !Forall_app. naive_solver. }
  cbn [guarded]. by rewrite Hl.
Qed.

(** *** Rules for functions *)

(** When [P] holds of the events so far, the function's effects are guarded, and
    [Q] holds of its result and the events it ends with. *)
Definition ensures {A} (P : list Event -> Prop) (t : Task A)
    (Q : result Err A -> list Event -> Prop) : Prop :=
  forall H k, P H -> (forall r H', Q r H' -> guarded H' (k r)) -> guarded H (t k).

Lemma ensures_conseq {A} (P P' : list Event -> Prop) (t : Task A)
    (Q Q' : result Err A -> list Event -> Prop) :
  ensures P t Q -> (forall H, P' H -> P H) -> (forall r H, Q r H -> Q' r H) -> ensures P' t Q'.
Proof. intros Ht HP HQ H k Hp Hk. apply Ht; eauto. Qed.

Lemma ensures_from {A} P (t : Task A) (Q : result Err A -> list Event -> Prop) :
  (forall H, P H -> ensures (eq H) t Q) -> ensures P t Q.
Proof. intros Ht H k Hp Hk. by apply (Ht H). Qed.

Lemma ensures_ret {A} (a : A) (P : list Event -> Prop) (Q : result Err A -> list Event -> Prop) :
  (forall H, P H -> Q (Ok a) H) -> ensures P (mret a) Q.
Proof. intros HQ H k Hp Hk. apply Hk; auto. Qed.

Lemma ensures_throw {A} (e : Err) (P : list Event -> Prop)
    (Q : result Err A -> list Event -> Prop) :
  (forall H, P H -> Q (Throw e) H) -> ensures P (throw e) Q.
Proof. intros HQ H k Hp Hk. apply Hk; auto. Qed.

Lemma ensures_bind {A B} (t : Task A) (f : A -> Task B) P (R : A -> list Event -> Prop) Q :
  ensures P t (fun r H => match r with Ok a => R a H | Throw e => Q (Throw e) H end) ->
  (forall a, ensures (R a) (f a) Q) -> ensures P (a ← t; f a) Q.
Proof.
  intros Ht Hf H k Hp Hk. apply Ht; [done|]. intros [a|e] H' Hr; [|by apply Hk].
  by apply (Hf a).
Qed.

Lemma ensures_catch {A} (t : Task A) h P (R : Err -> list Event -> Prop) Q :
  ensures P t (fun r H => match r with Ok a => Q (Ok a) H | Throw e => R e H end) ->
  (forall e, ensures (R e) (h e) Q) -> ensures P (catch t h) Q.
Proof.
  intros Ht Hh H k Hp Hk. apply Ht; [done|]. intros [a|e] H' Hr; [by apply Hk|].
  by apply (Hh e).
Qed.

Lemma ensures_finally {A} (t : Task A) f P (R : result Err A -> list Event -> Prop) Q :
  ensures P t R ->
  (forall r, ensures (R r) f (fun r' H =>
     match r' with Ok _ => Q r H | Throw e => Q (Throw e) H end)) ->
  ensures P (finally t f) Q.
Proof.
  intros Ht Hf H k Hp Hk. apply Ht; [done|]. intros r H' Hr. apply (Hf r); [done|].
  intros [u|e] H'' HQ; by apply Hk.
Qed.

Lemma ensures_ask (e : Eff) (P : list Event -> Prop) (Q : result Err (Ans e) -> list Event -> Prop) :
  (forall H, P H -> G H e) ->
  (forall H a, P H -> Q (Ok a) (event e a :: H)) -> ensures P (ask e) Q.
Proof. intros HG HQ H k Hp Hk. split; [by apply HG|]. intros a. by apply Hk, HQ. Qed.

Lemma ensures_settle {A} (t : Task (result Err A)) P (Q : result Err A -> list Event -> Prop) :
  ensures P t (fun r H => match r with Ok r' => Q r' H | Throw e => Q (Throw e) H end) ->
  ensures P (settle t) Q.
Proof.
  intros Ht H k Hp Hk. apply Ht; [done|]. intros [r|e] H' Hr; by apply Hk.
Qed.

Lemma ensures_forEach {A} (l : list A) f (I : list Event -> Prop) (Q : Err -> list Event -> Prop) :
  (forall a, a ∈ l -> ensures I (f a) (fun r H => match r with Ok _ => I H | Throw e => Q e H end)) ->
  ensures I (forEach l f) (fun r H => match r with Ok _ => I H | Throw e => Q e H end).
Proof.
  induction l as [|a l IH]; intros Hf; cbn [forEach].
  - by apply ensures_ret.
  - apply (ensures_bind _ _ _ (fun _ => I)); [apply Hf; by left|]. intros _. apply IH.
    intros a' Ha. apply Hf. by right.
Qed.

Lemma ensures_pool {A} (lanes : list (list A * nat)) work onFatal (P : list Event -> Prop) :
  (forall lane item, lane ∈ lanes -> item ∈ lane.1 ->
     ensures P (work item) (fun _ _ => True)) ->
  (forall H, G H onFatal) -> ensures P (pool lanes work onFatal) (fun _ H => P H).
Proof.
  intros Hw Hf H k Hp Hk. unfold pool. apply guarded_pooled. split_and!; [|done|].
  - apply Forall_forall. unfold workers. intros p Hin.
    apply list_elem_of_join in Hin as (ps & Hin & Hps).
    apply list_elem_of_fmap in Hps as (lane & -> & Hlane).
    apply list_elem_of_fmap in Hlane as (lane0 & -> & Hlane0). unfold laneOf in Hin.
    cbn [fst snd] in Hin. rewrite take_drop in Hin.
    apply list_elem_of_fmap in Hin as (item & -> & Hitem).
    apply (Hw lane0 item Hlane0 Hitem H); [done|]. by intros [a|e] H' _.
  - intros [e|]; by apply Hk.
Qed.
End Guards.

(** *** What a guard means for a run *)

Section Soundness.
Context (G : list Event -> Eff -> Prop).
Context {World : Type} (answers : World -> forall e : Eff, Ans e -> World -> Prop).

(** A program under way, given all events so far: each thread knows some of
    them, in their order. *)
Inductive underway (T : list Event) : Proc -> Prop :=
| underway_thread H p : H `sublist_of` T -> guarded G H p -> underway T p
| underway_pool H lanes fatal failure k :
    Forall (underway T) (workers lanes) -> (forall H', G H' fatal) ->
    H `sublist_of` T -> (forall failure, guarded G H (k failure)) ->
    underway T (pooled lanes fatal failure k).

Lemma workers_app before lane after :
  workers (before ++ lane :: after) = workers before ++ (lane.1 ++ lane.2) ++ workers after.
Proof. unfold workers. by rewrite fmap_app, join_app. Qed.

Lemma underway_pooled T lanes fatal failure k :
  underway T (pooled lanes fatal failure k) ->
  Forall (underway T) (workers lanes) /\ (forall H', G H' fatal) /\
  exists H, H `sublist_of` T /\ forall failure, guarded G H (k failure).
Proof.
  inversion 1 as [H' p Hs Hg|]; subst; [|eauto 6].
  apply guarded_pooled in Hg as (Hw & Hf & Hk). split_and!; [|done|eauto].
  eapply Forall_impl; [exact Hw|]. intros p Hp. by apply (underway_thread _ H').
Qed.

Lemma underway_later T ev p : underway T p -> underway (ev ++ T) p.
Proof.
  revert p. fix IH 2. intros p Hu.
  destruct Hu as [H p Hs Hg|H lanes fatal failure k Hw Hf Hs Hk].
  - apply (underway_thread _ H); [by apply sublist_inserts_l|done].
  - apply (underway_pool _ H); [|done|by apply sublist_inserts_l|done].
    induction Hw as [|q qs Hq Hqs IHw]; constructor; [by apply IH|done].
Qed.

Lemma worker_ends_underway T fatal thrown queued failure next queued' failure' :
  worker_ends fatal thrown queued failure next queued' failure' ->
  (forall H', G H' fatal) -> Forall (underway T) queued ->
  Forall (underway T) (next ++ queued').
Proof.
  intros He Hf Hq. destruct He; [done|done| |done].
  constructor; [|done]. apply (underway_thread _ []); [apply sublist_nil_l|].
  by split.
Qed.

Lemma step_sound w p ev w' p' :
  step answers w p ev w' p' -> forall T, underway T p ->
  underway (ev ++ T) p' /\
  forall e a, event e a ∈ ev -> exists H, H `sublist_of` T /\ G H e.
Proof.
  induction 1 as [w e k a w' Ha|w before running p running' queued after fatal failure k ev w' p' Hs IH
    |w before running thrown running' queued after fatal failure k next queued' failure' He
    |w lanes fatal failure k Hall]; intros T Hu.
  - inversion Hu as [H p Hsub Hg|]; subst. cbn in Hg. destruct Hg as [HG Hk]. split.
    + apply (underway_thread _ (event e a :: H)); [by apply sublist_skip|apply Hk].
    + intros e' a' Hin. apply list_elem_of_singleton in Hin.
      assert (e' = e) as -> by (by apply (f_equal (@projT1 _ _)) in Hin). eauto.
  - apply underway_pooled in Hu as (Hw & Hf & H & Hsub & Hk).
    rewrite workers_app in Hw. cbn [fst snd] in Hw.
    rewrite !Forall_app, Forall_cons in Hw. destruct Hw as (Hb & ((Hr & Hp & Hr') & Hq) & Hafter).
    destruct (IH T Hp) as [Hp' Hev]. split; [|done].
    apply (underway_pool _ H); [|done|by apply sublist_inserts_l|done].
    rewrite workers_app. cbn [fst snd]. rewrite !Forall_app, Forall_cons.
    split_and!; try done; (eapply Forall_impl; [eassumption|]; intros; by apply underway_later).
  - apply underway_pooled in Hu as (Hw & Hf & H & Hsub & Hk). split; [|by intros ? ? ?%not_elem_of_nil].
    rewrite workers_app in Hw. cbn [fst snd] in Hw.
    rewrite !Forall_app, Forall_cons in Hw. destruct Hw as (Hb & ((Hr & Hp & Hr') & Hq) & Hafter).
    pose proof (worker_ends_underway T _ _ _ _ _ _ _ He Hf Hq) as Hn.
    apply Forall_app in Hn as [Hn Hq'].
    apply (underway_pool _ H); [|done..]. rewrite workers_app. cbn [fst snd].
    rewrite !Forall_app. by split_and!.
  - apply underway_pooled in Hu as (_ & _ & H & Hsub & Hk). split; [|by intros ? ? ?%not_elem_of_nil].
    by apply (underway_thread _ H).
Qed.

(** Every effect of every interleaving satisfies the guard, given some of the
    events before it: those of its own thread. *)
Lemma guarded_steps w p trace w' p' :
  guarded G [] p -> steps answers w p trace w' p' ->
  forall later e a earlier, trace = later ++ event e a :: earlier ->
  exists H, H `sublist_of` earlier /\ G H e.
Proof.
  intros Hg Hs. enough (Hu : underway trace p' /\
    forall later e a earlier, trace = later ++ event e a :: earlier ->
      exists H, H `sublist_of` earlier /\ G H e) by apply Hu.
  induction Hs as [w p|w p trace w1 p1 ev w2 p2 Hs IH Hst].
  - split; [by apply (underway_thread _ []); [apply sublist_nil_l|]|].
    intros later e a earlier E. by destruct later.
  - destruct (IH Hg) as [Hu Hev]. destruct (step_sound _ _ _ _ _ Hst _ Hu) as [Hu' Hev'].
    split; [done|]. intros later e a earlier E.
    assert (Hl : ev = [] \/ exists x, ev = [x]) by (clear -Hst; induction Hst; eauto).
    destruct Hl as [-> |[x ->]]; [by apply (Hev later e a earlier)|].
    destruct later as [|y later]; cbn in E; injection E as -> E.
    + subst earlier. eapply Hev'. by left.
    + by apply (Hev later e a earlier).
Qed.
End Soundness.
End Async.

Arguments Proc {Eff} Err Ans.
Arguments Event {Eff} Ans.
Arguments Task {Eff} Err Ans A.

(** ** Threads *)

(** The program in which every effect carries the events of its own thread
    before it. A worker starts with those before its pool, and what follows the
    pool has those only. *)
Section Threads.
Context {Eff Err : Type} {Ans : Eff -> Type}.

Definition Logged : Type := list (Event Ans) * Eff.
Definition LoggedAns (e : Logged) : Type := Ans e.2.

Fixpoint logged (own : list (Event Ans)) (p : Proc Err Ans) : Proc Err LoggedAns :=
  match p with
  | stop thrown => stop thrown
  | await e k => @await _ _ LoggedAns (own, e) (fun a => logged (event e a :: own) (k a))
  | pooled lanes fatal failure k =>
      @pooled _ _ LoggedAns
        (map (fun lane => (map (logged own) (fst lane), map (logged own) (snd lane))) lanes)
        ([], fatal) failure (fun thrown => logged own (k thrown))
  end.

(** An event without the log. *)
Definition plain (ev : Event LoggedAns) : Event Ans := event (projT1 ev).2 (projT2 ev).

Definition threadEvent (own : list (Event Ans)) (e : Eff) (a : Ans e) : Event LoggedAns :=
  @event _ LoggedAns (own, e) a.

(** *** A guard holds of each thread's own log *)

Section OwnLog.
Context (G : list (Event Ans) -> Eff -> Prop).

Definition ownGuard (T : list (Event LoggedAns)) (e : Logged) : Prop :=
  G e.1 e.2 /\ e.1 `sublist_of` (plain <$> T).

Lemma workers_logged own lanes :
  workers (map (fun lane => (map (logged own) (fst lane), map (logged own) (snd lane))) lanes)
  = map (logged own) (workers lanes).
Proof.
  induction lanes as [|[running queued] lanes IH]; [done|].
  change (workers ((running, queued) :: lanes)) with ((running ++ queued) ++ workers lanes).
  rewrite !map_app, <- IH. reflexivity.
Qed.

Lemma logged_guarded p own T :
  guarded G own p -> own `sublist_of` (plain <$> T) -> guarded ownGuard T (logged own p).
Proof.
  revert p own T. fix IH 1. intros [thrown|e k|lanes fatal failure k] own T Hg Hs.
  - exact I.
  - destruct Hg as [HG Hk]. cbn [logged guarded]. split; [by split|]. intros a.
    apply IH; [apply Hk|]. by apply sublist_skip.
  - apply guarded_pooled in Hg as (Hw & Hf & Hk). cbn [logged]. apply guarded_pooled.
    split_and!.
    + rewrite workers_logged. clear Hk. unfold workers in *.
      induction lanes as [|[running queued] lanes IHl]; [constructor|].
      cbn [fmap list_fmap mjoin list_join fst snd] in *.
      rewrite !Forall_app in Hw. destruct Hw as [[Hr Hq] Hw]. rewrite !map_app, !Forall_app.
      split_and!; [| |by apply IHl].
      * clear -IH Hr Hs. induction running as [|q qs IHq]; constructor; inversion Hr; subst; auto.
      * clear -IH Hq Hs. induction queued as [|q qs IHq]; constructor; inversion Hq; subst; auto.
    + intros T'. split; [apply Hf|apply sublist_nil_l].
    + intros failure'. apply IH; [apply Hk|done].
Qed.
End OwnLog.

Section LoggedRuns.
Context {World : Type} (answers : World -> forall e : Eff, Ans e -> World -> Prop).

Definition answersLogged (w : World) (e : Logged) (a : LoggedAns e) (w' : World) : Prop :=
  answers w e.2 a w'.

(** Each effect satisfies the guard, given exactly what its thread did before. *)
Lemma logged_steps G w p trace w' p' :
  guarded G [] p -> steps answersLogged w (logged [] p) trace w' p' ->
  forall later own e a earlier, trace = later ++ threadEvent own e a :: earlier ->
  G own e /\ own `sublist_of` (plain <$> earlier).
Proof.
  intros Hg Hs later own e a earlier E.
  destruct (guarded_steps (ownGuard G) answersLogged w (logged [] p) trace w' p'
    (logged_guarded G p [] [] Hg (sublist_nil_l _)) Hs later (own, e) a earlier E)
    as (T & HT & HG & Ho).
  split; [done|]. etrans; [exact Ho|]. clear -HT. induction HT; [constructor|by apply sublist_skip|by apply sublist_cons].
Qed.

(** *** Every run has its threads *)

Inductive tracks : Proc Err LoggedAns -> Proc Err Ans -> Prop :=
| tracks_log own p : tracks (logged own p) p
| tracks_pool own lanes' lanes fatal failure k :
    Forall2 (fun lane' lane => Forall2 tracks (fst lane') (fst lane) /\
                               Forall2 tracks (snd lane') (snd lane)) lanes' lanes ->
    tracks (@pooled _ _ LoggedAns lanes' ([], fatal) failure (fun thrown => logged own (k thrown)))
      (pooled lanes fatal failure k).

Lemma tracks_map own l : Forall2 tracks (map (logged own) l) l.
Proof. induction l; constructor; [constructor|done]. Qed.

Lemma tracks_pooled q lanes fatal failure k :
  tracks q (pooled lanes fatal failure k) -> exists own lanes',
    q = @pooled _ _ LoggedAns lanes' ([], fatal) failure (fun thrown => logged own (k thrown)) /\
    Forall2 (fun lane' lane => Forall2 tracks (fst lane') (fst lane) /\
                               Forall2 tracks (snd lane') (snd lane)) lanes' lanes.
Proof.
  inversion 1 as [own p|own lanes' lanes0 fatal0 failure0 k0 Hl]; subst; [|by exists own, lanes'].
  cbn [logged]. eexists own, _. split; [reflexivity|]. clear.
  induction lanes as [|[r q] lanes IH]; constructor; [|done]. split; apply tracks_map.
Qed.

Lemma tracks_ends fatal thrown queued failure next queued' failure' queuedL :
  worker_ends fatal thrown queued failure next queued' failure' ->
  Forall2 tracks queuedL queued ->
  exists nextL queuedL', @worker_ends _ _ LoggedAns ([], fatal) thrown queuedL failure nextL queuedL' failure' /\
    Forall2 tracks nextL next /\ Forall2 tracks queuedL' queued'.
Proof.
  intros He Hq. destruct He as [q queued|failure queued Hn|e queued|e queued failure Hf].
  - inversion Hq as [|ql ? qls ? Ht Hts]; subst. exists [ql], qls. split_and!; [constructor|by constructor|done].
  - exists [], queuedL. split_and!; [|constructor|done]. apply worker_rests.
    destruct Hn as [-> |Hn]; [left; by inversion Hq|by right].
  - eexists [_], queuedL. split_and!; [apply worker_fails| |done].
    constructor; [|constructor]. apply (tracks_log [] (await fatal (fun _ => stop None))).
  - exists [], queuedL. split_and!; [by apply worker_fails_too|constructor|done].
Qed.

Lemma tracks_step w p ev w2 p2 :
  step answers w p ev w2 p2 -> forall q, tracks q p ->
  exists evL q2, step answersLogged w q evL w2 q2 /\ tracks q2 p2 /\ plain <$> evL = ev.
Proof.
  induction 1 as [w e k a w' Ha|w before running p running' queued after fatal failure k ev w' p' Hs IH
    |w before running thrown running' queued after fatal failure k next queued' failure' He
    |w lanes fatal failure k Hall]; intros q Hq.
  - inversion Hq as [own p|]; subst. eexists [_], _. split_and!.
    + by apply (step_await answersLogged w (own, e)).
    + apply tracks_log.
    + reflexivity.
  - apply tracks_pooled in Hq as (own & lanesL & -> & Hl).
    apply Forall2_app_inv_r in Hl as (beforeL & rest & Hb & Hl & ->).
    apply Forall2_cons_inv_r in Hl as ([runningL queuedL] & afterL & [Hr Hqs] & Ha & ->).
    cbn [fst snd] in Hr, Hqs.
    apply Forall2_app_inv_r in Hr as (r1 & rest & Hr1 & Hr & ->).
    apply Forall2_cons_inv_r in Hr as (pL & r2 & Hp & Hr2 & ->).
    destruct (IH pL Hp) as (evL & pL' & Hst & Ht & E).
    eexists evL, _. split_and!; [by apply step_worker| |done].
    apply tracks_pool. apply Forall2_app; [done|]. constructor; [|done]. split; [|done].
    apply Forall2_app; [done|]. by constructor.
  - apply tracks_pooled in Hq as (own & lanesL & -> & Hl).
    apply Forall2_app_inv_r in Hl as (beforeL & rest & Hb & Hl & ->).
    apply Forall2_cons_inv_r in Hl as ([runningL queuedL] & afterL & [Hr Hqs] & Ha & ->).
    cbn [fst snd] in Hr, Hqs.
    apply Forall2_app_inv_r in Hr as (r1 & rest & Hr1 & Hr & ->).
    apply Forall2_cons_inv_r in Hr as (pL & r2 & Hp & Hr2 & ->).
    destruct (tracks_ends _ _ _ _ _ _ _ _ He Hqs) as (nextL & queuedL' & HeL & Hn & Hq').
    inversion Hp as [own' p Ep|]; subst.
    eexists [], _. split_and!; [by apply step_ended| |done].
    apply tracks_pool. apply Forall2_app; [done|]. constructor; [|done]. split; [|done].
    apply Forall2_app; [done|]. by apply Forall2_app.
  - apply tracks_pooled in Hq as (own & lanesL & -> & Hl). eexists [], _. split_and!; [| |done].
    + apply step_settled. clear -Hl Hall. induction Hl as [|[r q] [r' q'] lanesL lanes [Hr _] _ IH];
        [constructor|]. inversion Hall as [|? ? E Hall']; subst. cbn [fst snd] in *. subst.
      constructor; [by inversion Hr|by apply IH].
    + apply tracks_log.
Qed.

Lemma run_has_threads w p trace w' p' :
  steps answers w p trace w' p' -> exists traceL q,
    steps answersLogged w (logged [] p) traceL w' q /\ tracks q p' /\ plain <$> traceL = trace.
Proof.
  induction 1 as [w p|w p trace w1 p1 ev w2 p2 _ (traceL & q & Hs & Ht & E) Hst].
  - exists [], (logged [] p). split_and!; [constructor|constructor|done].
  - destruct (tracks_step _ _ _ _ _ Hst q Ht) as (evL & q2 & HsL & Ht2 & E2).
    exists (evL ++ traceL), q2. split_and!; [by econstructor|done|]. by rewrite fmap_app, E, E2.
Qed.
End LoggedRuns.
End Threads.
