(* ===== verification/EngineIo.v ===== *)
(** * What the desktop engine waits for

    The effects of [apps/desktop/src/engine]: the pair's folder on the disk, the
    calls of [api.ts], the clock and the signals of [PairContext], and the
    memory the transfers of a pass share: the server tree with the store, the
    hashes, and the variables of [syncPair] its handlers write.

    A path on the disk is the relative path the source makes it of with
    [localPath]; the bytes of a file are a string. What answers is open: the
    disk may be changed by anyone, and every call may fail. *)

From S2P Require Import Prelude SyncTypes Plan SyncStore RemoteTree Async.

Open Scope Z_scope.

(** ** Errors *)

(** The [details] of a [REVISION_MISMATCH]. *)
Record RevisionDetails := {
  rd_id : string; rd_storageRevision : Z; rd_contentChecksum : option string
}.

(** A [NodeJS.ErrnoException] with a [syscall], an [ApiError], and anything else:
    an aborted signal, a connection, a [SignedOutError]. *)
Inductive EngineError :=
| SystemError (code : option string)
| ApiError (status : Z) (code : option string) (message : string)
    (details : option RevisionDetails)
| OtherError (message : string).

(** ** Answers *)

(** What [lstat] and [stat] answer, the time in nanoseconds. *)
Inductive FileKind := regularFile | directory | symbolicLink | specialFile.
#[export] Instance FileKind_eq_dec : EqDecision FileKind.
Proof. solve_decision. Defined.

Record Stats := { sa_kind : FileKind; sa_size : Z; sa_mtimeNs : Z; sa_ino : Z }.

Record UploadedFile := {
  uf_id : string; uf_folderId : option string; uf_name : string; uf_sizeBytes : Z;
  uf_storageRevision : option Z; uf_clientModifiedAt : option string
}.

Record FolderAnswer := {
  fa_id : string; fa_parentId : option string; fa_name : string;
  fa_storageRevision : option Z
}.

(** An upload session; of a completed chunk the engine reads its start. *)
Record UploadSession := {
  us_id : string; us_chunkSizeBytes : option Z; us_completedChunks : list Z;
  us_receivedBytes : Z
}.

(** The body of a download: its chunks, and the error it ended with. *)
Record DownloadBody := { db_chunks : list string; db_error : option EngineError }.

(** What an upload says about the file. *)
Record UploadFields := {
  up_folderId : string; up_name : string; up_size : Z; up_checksum : string;
  up_modifiedAt : Z; up_replace : option Replace
}.

(** ** The calls of [createApi] *)

Inductive ApiCall :=
| createFolder (parentId name : string)
| moveFile (fileId : string) (ifRevision : Z) (destinationFolderId : string)
| renameFile (fileId : string) (ifRevision : Z) (name : string)
| trashFile (fileId : string) (ifRevision : Z)
| moveFolder (folderId : string) (ifRevision : Z) (destinationFolderId : string)
| renameFolder (folderId : string) (ifRevision : Z) (name : string)
| trashFolder (folderId : string) (ifRevision : Z)
| keepMine (fileId : string) (ifRevision : Z) (conflictCopyId : string)
| startUpload (input : UploadFields)
| uploadStatus (id : string)
| cancelUpload (id : string)
| uploadChunk (id : string) (start : Z) (body : string) (total : Z)
| uploadSmall (input : UploadFields) (body : string)
| completeUpload (id checksum : string) (replace : option Replace)
| downloadFile (fileId : string).

Definition apiAnswer (call : ApiCall) : Type :=
  match call with
  | createFolder _ _ | moveFolder _ _ _ | renameFolder _ _ _ => FolderAnswer
  | moveFile _ _ _ | renameFile _ _ _ | keepMine _ _ _ => UploadedFile
  | uploadSmall _ _ | completeUpload _ _ _ => UploadedFile
  | startUpload _ | uploadStatus _ => UploadSession
  | downloadFile _ => DownloadBody
  | _ => unit
  end.

(** ** The calls on the pair's folder *)

Inductive DiskCall :=
| statRoot
| readdir (rel : string)
| lstat (rel : string)
| statfs (rel : string)
| readFile (rel : string)
| openFile (rel : string)
| readAt (rel : string) (start length : Z)
| closeFile (rel : string)
| makeFolder (rel : string)
| renamePath (from to : string)
| removePath (rel : string)
| createFile (rel : string)
| appendFile (rel content : string)
| setTimes (rel : string) (when_ : Z)
| trashPath (rel : string).

Definition diskAnswer (call : DiskCall) : Type :=
  match call with
  | statRoot | lstat _ => Stats
  | readdir _ => list string
  | statfs _ => Z
  | readFile _ | readAt _ _ _ => string
  | _ => unit
  end.

(** ** Memory *)

Inductive Direction := up | down.
Inductive ActivityState := active_transfer | done_transfer | failed_transfer.
Record Activity := {
  ac_pairId : string; ac_rel : string; ac_direction : Direction; ac_state : ActivityState;
  ac_bytes : Z; ac_doneBytes : Z; ac_at : Z
}.

Record Waiting := { wt_files : nat; wt_bytes : Z; wt_uploadBytes : Z }.

(** [ctx.full]; a size of [None] is [Infinity]. *)
Record Full := { fu_size : option Z; fu_message : option string }.

(** The variables of [syncPair] that its handlers share. *)
Record Pass := {
  pa_issues : list Issue;
  pa_pullAgain : bool;
  pa_retrySoon : bool;
  pa_folderIds : gmap string string;
  pa_open : list Activity;
  pa_queued : list Action
}.

Definition emptyPass : Pass :=
  {| pa_issues := []; pa_pullAgain := false; pa_retrySoon := false; pa_folderIds := ∅;
     pa_open := []; pa_queued := [] |}.

Definition set_issues (issues : list Issue) (p : Pass) : Pass :=
  {| pa_issues := issues; pa_pullAgain := pa_pullAgain p; pa_retrySoon := pa_retrySoon p;
     pa_folderIds := pa_folderIds p; pa_open := pa_open p; pa_queued := pa_queued p |}.
Definition set_pullAgain (p : Pass) : Pass :=
  {| pa_issues := pa_issues p; pa_pullAgain := true; pa_retrySoon := pa_retrySoon p;
     pa_folderIds := pa_folderIds p; pa_open := pa_open p; pa_queued := pa_queued p |}.
Definition set_retrySoon (p : Pass) : Pass :=
  {| pa_issues := pa_issues p; pa_pullAgain := pa_pullAgain p; pa_retrySoon := true;
     pa_folderIds := pa_folderIds p; pa_open := pa_open p; pa_queued := pa_queued p |}.
Definition set_folderIds (folderIds : gmap string string) (p : Pass) : Pass :=
  {| pa_issues := pa_issues p; pa_pullAgain := pa_pullAgain p; pa_retrySoon := pa_retrySoon p;
     pa_folderIds := folderIds; pa_open := pa_open p; pa_queued := pa_queued p |}.
Definition set_open (open : list Activity) (p : Pass) : Pass :=
  {| pa_issues := pa_issues p; pa_pullAgain := pa_pullAgain p; pa_retrySoon := pa_retrySoon p;
     pa_folderIds := pa_folderIds p; pa_open := open; pa_queued := pa_queued p |}.
Definition set_queued (queued : list Action) (p : Pass) : Pass :=
  {| pa_issues := pa_issues p; pa_pullAgain := pa_pullAgain p; pa_retrySoon := pa_retrySoon p;
     pa_folderIds := pa_folderIds p; pa_open := pa_open p; pa_queued := queued |}.

(** [hashes] is keyed by pair and path. *)
Record Memory := {
  me_tree : RemoteTree;
  me_hashes : gmap (string * string) (LocalEntry * string);
  me_full : Full;
  me_pass : Pass
}.

Definition me_store (m : Memory) : Store := rt_store (me_tree m).

(** What a handler writes into the tree and the store, and into the rest. *)
Inductive Write :=
| treeSet (item : RemoteItem)
| treeRemoveSubtree (id : string)
| storePutBase (row : BaseEntry)
| storeMoveBaseTree (pairId from to : string)
| storeDeleteBase (pairId rel : string)
| storeDeleteBaseTree (pairId rel : string)
| storeAddConflict (pairId rel copyRel : string)
| storePutUpload (row : PendingUpload)
| storeDeleteUpload (pairId rel : string)
| storeSetMeta (key : string) (value : option string)
| rememberHash (pairId rel : string) (entry : LocalEntry) (checksum : string)
| setFull (full : Full)
| setPass (f : Pass -> Pass).

Definition onTree (f : RemoteTree -> RemoteTree) (m : Memory) : Memory :=
  {| me_tree := f (me_tree m); me_hashes := me_hashes m; me_full := me_full m;
     me_pass := me_pass m |}.

Definition onStore (f : Store -> Store) : Memory -> Memory :=
  onTree (fun t => {| rt_items := rt_items t; rt_children := rt_children t;
                      rt_store := f (rt_store t); rt_roots := rt_roots t |}).

Definition written (write : Write) (m : Memory) : Memory :=
  match write with
  | treeSet item => onTree (setItem item) m
  | treeRemoveSubtree id => onTree (removeSubtree id) m
  | storePutBase row => onStore (putBase row) m
  | storeMoveBaseTree pairId from to => onStore (moveBaseTree pairId from to) m
  | storeDeleteBase pairId rel => onStore (deleteBase pairId rel) m
  | storeDeleteBaseTree pairId rel => onStore (deleteBaseTree pairId rel) m
  | storeAddConflict pairId rel copyRel => onStore (addConflict pairId rel copyRel) m
  | storePutUpload row => onStore (putUpload row) m
  | storeDeleteUpload pairId rel => onStore (deleteUpload pairId rel) m
  | storeSetMeta key value => onStore (setMeta key value) m
  | rememberHash pairId rel entry checksum =>
      {| me_tree := me_tree m; me_hashes := <[(pairId, rel) := (entry, checksum)]> (me_hashes m);
         me_full := me_full m; me_pass := me_pass m |}
  | setFull full =>
      {| me_tree := me_tree m; me_hashes := me_hashes m; me_full := full;
         me_pass := me_pass m |}
  | setPass f =>
      {| me_tree := me_tree m; me_hashes := me_hashes m; me_full := me_full m;
         me_pass := f (me_pass m) |}
  end.

(** ** Effects *)

(** [LocalScan]. *)
Record LeftAlone := {
  la_rel : string; la_ino : option string; la_reason : option string; la_unreadable : bool
}.
Record LocalScan := { ls_entries : list LocalEntry; ls_excluded : list LeftAlone }.

(** What [PairContext] is told. *)
Inductive Message :=
| scanned (scan : option LocalScan)
| activity (a : Activity)
| waiting (w : Waiting)
| resolvedPath (rel : string)
| notify (title body : string).

Inductive Effect :=
| recall
| write (w : Write)
| tell (m : Message)
| current
| dateNow
| newDate
| randomUUID
| isAborted
| abort
| throttle (bytes : Z) (received : bool)
| disk (call : DiskCall)
| api (call : ApiCall).

Definition Answer (e : Effect) : Type :=
  match e with
  | recall => Memory
  | write _ | tell _ | abort => unit
  | current | isAborted => bool
  | dateNow => Z
  | newDate => LocalDate
  | randomUUID => string
  | throttle _ _ => result EngineError unit
  | disk call => result EngineError (diskAnswer call)
  | api call => result EngineError (apiAnswer call)
  end.

Notation Program := (Task EngineError Answer).

(** [await] of a call that may throw. *)
Definition fs (call : DiskCall) : Program (diskAnswer call) := settle (ask (disk call)).
Definition http (call : ApiCall) : Program (apiAnswer call) := settle (ask (api call)).
Definition save (w : Write) : Program unit := ask (write w).
Definition say (m : Message) : Program unit := ask (tell m).
Definition reading {A} (f : Memory -> A) : Program A := m ← ask recall; mret (f m).

(** [settled e]: [promise.then(value, error)]. *)
Definition attempt {A} (t : Program A) : Program (result EngineError A) :=
  catch (a ← t; mret (Ok a)) (fun e => mret (Throw e)).
