(* ===== verification/LocalScan.v ===== *)
(** * Reading the pair's folder

    [apps/desktop/src/engine/local.ts]: [scanLocal], [statLocal], [hashFile]. A
    scan leaves nothing out: a folder of the scan was listed, and every name the
    list gave is an entry of the scan or among what the scan leaves alone; an
    entry is what [lstat] said of it. The list and the answers are those of this
    scan, and anything else may happen to the disk in between. *)

From S2P Require Import Prelude SyncTypes Plan SyncStore RemoteTree Async EngineIo.

Open Scope Z_scope.

(** [mtimeMsOf] is double arithmetic on the nanoseconds of a time: its value, in
    the unit in which times are held; [millisecond] is how many of these units
    there are to one. [sha256] is the hexadecimal digest of some bytes. *)
Class EngineRuntime := {
  mtimeMsOf : Z -> Z;
  millisecond : Z;
  sha256 : string -> string
}.

Section LocalScan.
Context `{ER : EngineRuntime}.

Definition toEntry (rel : string) (stats : Stats) : LocalEntry :=
  let isFolder := bool_decide (sa_kind stats = directory) in
  {| le_rel := rel;
     le_type := if isFolder then folder else file;
     le_size := if isFolder then 0 else sa_size stats;
     le_mtimeMs := mtimeMsOf (sa_mtimeNs stats);
     le_ino := numberString (sa_ino stats) |}.

(** [code(error)]. *)
Definition codeOf (thrown : EngineError) : option string :=
  match thrown with
  | SystemError code => code
  | ApiError _ code _ _ => code
  | OtherError _ => None
  end.

(** ** The walk *)

Notation Found := (list LocalEntry * list LeftAlone)%type.

Definition unreadable (rel : string) (thrown : EngineError) : LeftAlone :=
  {| la_rel := rel; la_ino := None; la_unreadable := true;
     la_reason :=
       if opt_is (codeOf thrown) "ENOENT" then None
       else Some ("This can't be read (" +:+ default "error" (codeOf thrown)
                  +:+ "), so it is not synced.") |}.

Section Walk.
Context (ignore : string -> bool) (leftOut : string -> bool).

(** [lstat] of each entry of a folder, errors included. *)
Fixpoint lstatAll (rel : string) (names : list string) :
    Program (list (string * result EngineError Stats)) :=
  match names with
  | [] => mret []
  | name :: names' =>
      r ← attempt (fs (lstat (joinRel rel name)));
      rest ← lstatAll rel names';
      mret ((name, r) :: rest)
  end.

(** One entry of a folder; [walkInto] reads the folder it may be. *)
Definition visitEntry (walkInto : string -> Found -> Program Found) (rel : string)
    (found : Found) (entry : string * result EngineError Stats) : Program Found :=
  let '(entries, excluded) := found in
  let '(name, r) := entry in
  let childRel := joinRel rel name in
  match r with
  | Throw thrown => mret (entries, excluded ++ [unreadable childRel thrown])
  | Ok stats =>
      let isLink := bool_decide (sa_kind stats = symbolicLink) in
      if ignore name || leftOut childRel || isLink
      then mret (entries, excluded ++
             [{| la_rel := childRel; la_ino := Some (numberString (sa_ino stats));
                 la_reason := if isLink then Some "Links are not synced." else None;
                 la_unreadable := false |}])
      else if negb (bool_decide (sa_kind stats = directory)) &&
              negb (bool_decide (sa_kind stats = regularFile))
      then mret (entries, excluded ++
             [{| la_rel := childRel; la_ino := None; la_reason := None;
                 la_unreadable := false |}])
      else
        let found := (entries ++ [toEntry childRel stats], excluded) in
        if bool_decide (sa_kind stats = directory) then walkInto childRel found else mret found
  end.

Fixpoint visitAll (walkInto : string -> Found -> Program Found) (rel : string)
    (found : Found) (all : list (string * result EngineError Stats)) : Program Found :=
  match all with
  | [] => mret found
  | entry :: all' =>
      found ← visitEntry walkInto rel found entry; visitAll walkInto rel found all'
  end.

(** [walk], to a depth of folders; no disk nests deeper than its longest path. *)
Fixpoint walkLocal (depth : nat) (rel : string) (found : Found) : Program Found :=
  match depth with
  | O => throw (OtherError "The folders nest too deep.")
  | S depth' =>
      dirents ← attempt (fs (readdir rel));
      match dirents with
      | Throw thrown =>
          if bool_decide (rel = "") then throw thrown
          else mret (removelast found.1, found.2 ++ [unreadable rel thrown])
      | Ok names =>
          all ← lstatAll rel names;
          visitAll (walkLocal depth') rel found all
      end
  end.

Definition scanLocal (depth : nat) : Program LocalScan :=
  found ← walkLocal depth "" ([], []);
  mret {| ls_entries := found.1; ls_excluded := found.2 |}.
End Walk.

(** ** One path *)

Definition statLocal (rel : string) : Program (option LocalEntry) :=
  r ← attempt (fs (lstat rel));
  match r with
  | Ok stats =>
      mret (if bool_decide (sa_kind stats = symbolicLink) then None
            else Some (toEntry rel stats))
  | Throw thrown => if opt_is (codeOf thrown) "ENOENT" then mret None else throw thrown
  end.

Definition hashFile (rel : string) : Program string :=
  content ← fs (readFile rel); mret (sha256 content).
End LocalScan.

Section ScanFacts.
Context `{ER : EngineRuntime} (G : list (Event Answer) -> Effect -> Prop).
Context (Hreaddir : forall H rel, G H (disk (readdir rel))).
Context (Hlstat : forall H rel, G H (disk (lstat rel))).

Notation History := (list (Event Answer)).
Notation Found := (list LocalEntry * list LeftAlone)%type.

(** ** Reading events *)

Definition isReading (ev : Event Answer) : Prop :=
  match projT1 ev with disk (readdir _) | disk (lstat _) => True | _ => False end.

(** [H] is [H0] and some reading after it, in which [ev] happened. *)
Definition since (H0 H : History) : Prop := exists new, H = new ++ H0 /\ Forall isReading new.
Definition saw (H0 H : History) (ev : Event Answer) : Prop :=
  exists new, H = new ++ H0 /\ Forall isReading new /\ ev ∈ new.

Lemma isReading_lstat rel a : isReading (event (disk (lstat rel)) a).
Proof. exact I. Qed.
Lemma isReading_readdir rel a : isReading (event (disk (readdir rel)) a).
Proof. exact I. Qed.
#[local] Hint Resolve isReading_lstat isReading_readdir : core.

Lemma since_refl H0 : since H0 H0.
Proof. by exists []. Qed.

Lemma since_trans H0 H1 H2 : since H0 H1 -> since H1 H2 -> since H0 H2.
Proof.
  intros (n1 & -> & F1) (n2 & -> & F2). exists (n2 ++ n1). rewrite app_assoc. split; [done|].
  by apply Forall_app.
Qed.

Lemma since_cons H0 H ev : isReading ev -> since H0 H -> since H0 (ev :: H).
Proof. intros Hr (new & -> & F). exists (ev :: new). split; [done|by constructor]. Qed.

Lemma saw_here H0 H ev : isReading ev -> since H0 H -> saw H0 (ev :: H) ev.
Proof.
  intros Hr (new & -> & F). exists (ev :: new). split_and!; [done|by constructor|by left].
Qed.

Lemma saw_later H0 H1 H2 ev : saw H0 H1 ev -> since H1 H2 -> saw H0 H2 ev.
Proof.
  intros (n1 & -> & F1 & Hin) (n2 & -> & F2). exists (n2 ++ n1). rewrite app_assoc.
  split_and!; [done|by apply Forall_app|]. apply elem_of_app. by right.
Qed.

Lemma saw_earlier H0 H1 H2 ev : since H0 H1 -> saw H1 H2 ev -> saw H0 H2 ev.
Proof.
  intros (n1 & -> & F1) (n2 & -> & F2 & Hin). exists (n2 ++ n1). rewrite app_assoc.
  split_and!; [done|by apply Forall_app|]. apply elem_of_app. by left.
Qed.

(** ** What a scan promises *)

Definition rels (entries : list LocalEntry) (excluded : list LeftAlone) : list string :=
  (le_rel <$> entries) ++ (la_rel <$> excluded).

Definition listed (H0 H : History) (rel : string) entries excluded : Prop :=
  exists names, saw H0 H (event (disk (readdir rel)) (Ok names)) /\
    forall name, name ∈ names -> joinRel rel name ∈ rels entries excluded.

Definition statted (H0 H : History) (e : LocalEntry) : Prop :=
  exists stats, saw H0 H (event (disk (lstat (le_rel e))) (Ok stats)) /\
    e = toEntry (le_rel e) stats /\
    (sa_kind stats = directory \/ sa_kind stats = regularFile).

(** The entries [nE] and exclusions [nX] a walk adds. *)
Definition complete (H0 H : History) (nE : list LocalEntry) (nX : list LeftAlone) : Prop :=
  forall e, e ∈ nE -> statted H0 H e /\ (le_type e = folder -> listed H0 H (le_rel e) nE nX).

Lemma rels_app E1 X1 E2 X2 rel :
  rel ∈ rels (E1 ++ E2) (X1 ++ X2) <-> rel ∈ rels E1 X1 \/ rel ∈ rels E2 X2.
Proof. unfold rels. rewrite !fmap_app. set_solver. Qed.

Lemma listed_later H0 H1 H2 rel E X E' X' :
  listed H0 H1 rel E X -> since H1 H2 -> (forall r, r ∈ rels E X -> r ∈ rels E' X') ->
  listed H0 H2 rel E' X'.
Proof.
  intros (names & Hs & Hn) Hsince Hsub. exists names. split; [by eapply saw_later|].
  intros name Hname. by apply Hsub, Hn.
Qed.

Lemma statted_later H0 H1 H2 e : statted H0 H1 e -> since H1 H2 -> statted H0 H2 e.
Proof. intros (stats & Hs & He) Hsince. exists stats. split; [by eapply saw_later|done]. Qed.

Lemma complete_nil H0 H : complete H0 H [] [].
Proof. by intros e ?%not_elem_of_nil. Qed.

Lemma complete_app H0 H1 H2 E1 X1 E2 X2 :
  complete H0 H1 E1 X1 -> complete H0 H2 E2 X2 -> since H1 H2 ->
  complete H0 H2 (E1 ++ E2) (X1 ++ X2).
Proof.
  intros Hc1 Hc2 Hs e [He|He]%elem_of_app.
  - destruct (Hc1 e He) as [Hst Hl]. split; [by eapply statted_later|].
    intros Hf. eapply listed_later; [by apply Hl|done|]. intros r Hr. apply rels_app. by left.
  - destruct (Hc2 e He) as [Hst Hl]. split; [done|]. intros Hf.
    eapply listed_later; [by apply Hl|apply since_refl|]. intros r Hr. apply rels_app. by right.
Qed.

Lemma complete_excluded H0 H x : complete H0 H [] [x].
Proof. by intros e ?%not_elem_of_nil. Qed.

(** ** Single reads *)

Lemma ensures_read {A} (call : DiskCall) (k : result EngineError (diskAnswer call) -> Program A)
    (H1 : History) (Q : result EngineError A -> History -> Prop) :
  G H1 (disk call) ->
  (forall r, ensures G (eq (event (disk call) r :: H1)) (k r) Q) ->
  ensures G (eq H1) (r ← attempt (fs call); k r) Q.
Proof.
  intros Hg Hk H kk <- HQ. cbn. split; [done|]. intros r.
  unfold attempt, catch, fs, settle, ask. 
  specialize (Hk r (event (disk call) r :: H1) kk eq_refl HQ).
  destruct r; exact Hk.
Qed.

(** [lstatAll] asks about every name. *)
Definition allStatted (H0 H : History) (rel : string) (all : list (string * result EngineError Stats)) :=
  forall name r, (name, r) ∈ all -> saw H0 H (event (disk (lstat (joinRel rel name))) r).

Lemma ensures_lstatAll H0 rel names H1 (Q : result EngineError _ -> History -> Prop) :
  since H0 H1 ->
  (forall all H2, since H1 H2 -> all.*1 = names -> allStatted H0 H2 rel all -> Q (Ok all) H2) ->
  ensures G (eq H1) (lstatAll rel names) Q.
Proof.
  revert H1 Q. induction names as [|name names IH]; intros H1 Q Hs HQ; cbn [lstatAll].
  { apply ensures_ret. intros H <-. apply HQ; [apply since_refl|done|].
    by intros ? ? ?%not_elem_of_nil. }
  apply ensures_read; [apply Hlstat|]. intros r.
  set (H2 := event _ r :: H1).
  assert (Hs2 : since H0 H2) by by apply since_cons.
  apply (ensures_bind _ _ _ _ (fun rest H3 => since H2 H3 /\ rest.*1 = names /\
    allStatted H0 H3 rel rest)).
  { apply IH; [done|]. intros all H3 Hs3 Hn Ha. done. }
  intros rest. apply ensures_ret. intros H3 (Hs3 & Hn & Ha).
  assert (Hs13 : since H1 H3).
  { eapply since_trans; [|exact Hs3]. apply since_cons; [done|apply since_refl]. }
  apply HQ; [done|cbn; by rewrite Hn|]. intros n' r' [E|Hin]%elem_of_cons; [|by apply Ha].
  injection E as En Er. subst n'. cbn in r'. subst r'. apply (saw_later H0 H2); [|done].
  by apply saw_here.
Qed.

(** ** The walk *)

Lemma complete_earlier H0 H1 H2 E X : since H0 H1 -> complete H1 H2 E X -> complete H0 H2 E X.
Proof.
  intros Hs Hc e He. destruct (Hc e He) as [(stats & Hst & Hk) Hl]. split.
  - exists stats. split; [by eapply saw_earlier|done].
  - intros Hf. destruct (Hl Hf) as (names & Hn & Hin). exists names.
    split; [by eapply saw_earlier|done].
Qed.

Definition walked (H0 H : History) (rel : string) (f f' : Found) : Prop :=
  (exists nE nX, f' = (f.1 ++ nE, f.2 ++ nX) /\ complete H0 H nE nX /\ listed H0 H rel nE nX) \/
  (rel <> "" /\ exists x, la_rel x = rel /\ f' = (removelast f.1, f.2 ++ [x])).

Definition visited (H0 H : History) (names : list string) (rel : string) (f f' : Found) : Prop :=
  exists nE nX, f' = (f.1 ++ nE, f.2 ++ nX) /\ complete H0 H nE nX /\
    forall name, name ∈ names -> joinRel rel name ∈ rels nE nX.

Definition walkSpec (walkInto : string -> Found -> Program Found) : Prop :=
  forall rel f H1, ensures G (eq H1) (walkInto rel f)
    (fun r H => since H1 H /\ match r with Throw _ => True | Ok f' => walked H1 H rel f f' end).

Section Visit.
Context (ignore leftOut : string -> bool) (walkInto : string -> Found -> Program Found).
Context (Hwalk : walkSpec walkInto).

(** A path that is only left alone. *)
Lemma visited_excluded H0 H rel name x (f : Found) :
  la_rel x = joinRel rel name -> visited H0 H [name] rel f (f.1, f.2 ++ [x]).
Proof.
  intros Hx. exists [], [x]. rewrite app_nil_r. split_and!; [done|apply complete_excluded|].
  intros n ->%list_elem_of_singleton. unfold rels. cbn. rewrite Hx. by left.
Qed.

Lemma entry_statted H0 H rel name stats :
  saw H0 H (event (disk (lstat (joinRel rel name))) (Ok stats)) ->
  sa_kind stats = directory \/ sa_kind stats = regularFile ->
  statted H0 H (toEntry (joinRel rel name) stats).
Proof. intros Hs Hk. by exists stats. Qed.

(** An entry that the scan takes, and what a walk of it added. *)
Lemma visited_entry H0 H1 H rel name stats (f f' : Found) :
  since H0 H1 -> since H1 H -> saw H0 H1 (event (disk (lstat (joinRel rel name))) (Ok stats)) ->
  sa_kind stats = directory ->
  walked H1 H (joinRel rel name) (f.1 ++ [toEntry (joinRel rel name) stats], f.2) f' ->
  visited H0 H [name] rel f f'.
Proof.
  intros Hs01 Hs1 Hst Hk [(nE & nX & -> & Hc & Hl)|(_ & x & Hx & ->)].
  - exists (toEntry (joinRel rel name) stats :: nE), nX. cbn [fst snd].
    split_and!; [by rewrite <- app_assoc| |].
    + change (_ :: nE) with ([toEntry (joinRel rel name) stats] ++ nE).
      apply (complete_earlier H0 H1) in Hc; [|done].
      intros e [->%list_elem_of_singleton|He]%elem_of_app.
      * split; [apply entry_statted; [by eapply saw_later|by left]|]. intros _.
        destruct Hl as (names & Hn & Hin). exists names. split; [by eapply saw_earlier|].
        intros n Hn'. rewrite <- (app_nil_l nX). apply rels_app. right. by apply Hin.
      * destruct (Hc e He) as [Hst' Hl']. split; [done|]. intros Hf.
        eapply listed_later; [by apply Hl'|apply since_refl|]. intros r Hr.
        rewrite <- (app_nil_l nX). apply rels_app. by right.
    + intros n ->%list_elem_of_singleton. unfold rels. cbn. by left.
  - cbn [fst snd]. rewrite removelast_last. by apply visited_excluded.
Qed.

Lemma visited_file H0 H rel name stats (f : Found) :
  saw H0 H (event (disk (lstat (joinRel rel name))) (Ok stats)) -> sa_kind stats = regularFile ->
  visited H0 H [name] rel f (f.1 ++ [toEntry (joinRel rel name) stats], f.2).
Proof.
  intros Hst Hk. exists [toEntry (joinRel rel name) stats], []. rewrite app_nil_r.
  split_and!; [done| |intros n ->%list_elem_of_singleton; by left].
  intros e ->%list_elem_of_singleton. split; [apply entry_statted; by auto|].
  unfold toEntry. by rewrite Hk.
Qed.

Lemma ensures_visitEntry H0 H1 rel f name r :
  since H0 H1 -> saw H0 H1 (event (disk (lstat (joinRel rel name))) r) ->
  ensures G (eq H1) (visitEntry ignore leftOut walkInto rel f (name, r))
    (fun r H => since H1 H /\ match r with Throw _ => True | Ok f' => visited H0 H [name] rel f f' end).
Proof.
  intros Hs Hr. unfold visitEntry. destruct f as [E X]. destruct r as [stats|thrown].
  2:{ apply ensures_ret. intros H <-. split; [apply since_refl|].
      by apply (visited_excluded H0 H1 rel name _ (E, X)). }
  destruct (ignore name || leftOut (joinRel rel name) || _).
  { apply ensures_ret. intros H <-. split; [apply since_refl|].
    by apply (visited_excluded H0 H1 rel name _ (E, X)). }
  destruct (negb (bool_decide (sa_kind stats = directory)) && _) eqn:Ek.
  { apply ensures_ret. intros H <-. split; [apply since_refl|].
    by apply (visited_excluded H0 H1 rel name _ (E, X)). }
  case_bool_decide as Hd.
  - eapply ensures_conseq; [apply Hwalk|done|]. intros [f'|e] H [Hs1 Hw]; split; try done.
    by apply (visited_entry H0 H1 H rel name stats (E, X) f').
  - apply ensures_ret. intros H <-. split; [apply since_refl|].
    apply (visited_file H0 H1 rel name stats (E, X)); [done|].
    cbn [negb andb] in Ek. apply negb_false_iff in Ek. by apply bool_decide_eq_true_1 in Ek.
Qed.

Lemma visited_app H0 H1 H names names' rel f f1 f2 :
  visited H0 H1 names rel f f1 -> visited H0 H names' rel f1 f2 -> since H1 H ->
  visited H0 H (names ++ names') rel f f2.
Proof.
  intros (E1 & X1 & -> & Hc1 & Hn1) (E2 & X2 & -> & Hc2 & Hn2) Hs.
  exists (E1 ++ E2), (X1 ++ X2). cbn [fst snd]. rewrite <- !app_assoc.
  split_and!; [done|by eapply complete_app|].
  intros n [Hn|Hn]%elem_of_app; apply rels_app; auto.
Qed.

Lemma ensures_visitAll H0 rel all f H1 :
  since H0 H1 -> allStatted H0 H1 rel all ->
  ensures G (eq H1) (visitAll ignore leftOut walkInto rel f all)
    (fun r H => since H1 H /\ match r with Throw _ => True | Ok f' => visited H0 H all.*1 rel f f' end).
Proof.
  revert f H1. induction all as [|[name r] all IH]; intros f H1 Hs Ha; cbn [visitAll].
  - apply ensures_ret. intros H <-. split; [apply since_refl|]. exists [], [].
    rewrite !app_nil_r. split_and!; [by destruct f|apply complete_nil|by intros ? ?%not_elem_of_nil].
  - apply (ensures_bind _ _ _ _ (fun f1 H => since H1 H /\ visited H0 H [name] rel f f1)).
    + eapply ensures_conseq; [apply (ensures_visitEntry H0 H1 rel f name r Hs)|done|].
      * apply Ha. by left.
      * by intros [f'|e] H Hq.
    + intros f1. apply ensures_from. intros H2 [Hs2 Hv].
      eapply ensures_conseq; [apply IH|done|].
      * by eapply since_trans.
      * intros n r' Hin. eapply saw_later; [apply Ha; by right|done].
      * intros [f2|e] H [Hs3 Hq]; (split; [by eapply since_trans|]); [|done].
        rewrite fmap_cons. by apply (visited_app H0 H2 H [name] all.*1 rel f f1 f2).
Qed.
End Visit.

Lemma ensures_walkLocal ignore leftOut depth : walkSpec (walkLocal ignore leftOut depth).
Proof.
  induction depth as [|depth IH]; intros rel f H1; cbn [walkLocal].
  { apply ensures_throw. intros H <-. split; [apply since_refl|done]. }
  apply ensures_read; [apply Hreaddir|]. intros r. set (H2 := event _ r :: H1).
  assert (Hs : since H1 H2) by by apply since_cons, since_refl.
  assert (Hsaw : saw H1 H2 (event (disk (readdir rel)) r)) by by apply saw_here, since_refl.
  destruct r as [names|thrown].
  - apply (ensures_bind _ _ _ _ (fun all H => since H2 H /\ all.*1 = names /\
      allStatted H1 H rel all)).
    { apply (ensures_lstatAll H1); [done|]. intros all H3 Hs3 Hn Ha. done. }
    intros all. apply ensures_from. intros H3 (Hs3 & Hn & Ha).
    assert (Hs13 : since H1 H3) by by eapply since_trans.
    eapply ensures_conseq; [by apply (ensures_visitAll ignore leftOut _ IH H1)|done|].
    intros [f'|e] H [Hs4 Hv]; (split; [by eapply since_trans|]); [|done].
    destruct Hv as (nE & nX & -> & Hc & Hin). left. exists nE, nX. split_and!; [done|done|].
    exists names. split; [eapply saw_later; [exact Hsaw|by eapply since_trans]|].
    by rewrite Hn in Hin.
  - case_bool_decide as Hr.
    + apply ensures_throw. by intros H <-.
    + apply ensures_ret. intros H <-. split; [done|]. right. split; [done|].
      by exists (unreadable rel thrown).
Qed.

(** [scanLocal]: every entry is what [lstat] said of it during the scan, and of
    the folder itself and of every folder among the entries all listed names
    are there. *)
Definition scanned_all (H0 H : History) (s : LocalScan) : Prop :=
  complete H0 H (ls_entries s) (ls_excluded s) /\
  listed H0 H "" (ls_entries s) (ls_excluded s).

Lemma ensures_scanLocal ignore leftOut depth H1 :
  ensures G (eq H1) (scanLocal ignore leftOut depth)
    (fun r H => since H1 H /\ match r with
       | Throw _ => True
       | Ok s => scanned_all H1 H s
       end).
Proof.
  unfold scanLocal. apply (ensures_bind _ _ _ _ (fun f H => since H1 H /\ walked H1 H "" ([], []) f)).
  - eapply ensures_conseq; [apply ensures_walkLocal|done|]. by intros [f|e] H Hq.
  - intros f. apply ensures_ret. intros H [Hs [(nE & nX & -> & Hc & Hl)|[? _]]]; by split.
Qed.
End ScanFacts.
