(* ===== verification/Transfer.v ===== *)
(** * Transfers

    [apps/desktop/src/engine/transfer.ts]: a download goes to a temporary file
    beside its target and is checked before anything is replaced; a small file
    is sent in one request, a big one in the chunks of a session that survives
    restarts. [pool] is in [Async]. The speed limit is the effect [throttle];
    the meters that only show progress are not modelled. The chunks [sendFile]
    sends are those the server waits for ([chunk-protocol.ts]). *)

From Stdlib Require Import Ascii.
From Stdlib Require String.
From S2P Require Import Prelude SyncTypes Plan ChunkProtocol SyncStore RemoteTree Async EngineIo LocalScan.

Open Scope Z_scope.

Definition TEMP_PREFIX : string := ".staaash-part-".
Definition SMALL_UPLOAD_BYTES : Z := 10 * 1024 * 1024.
Definition CHUNKS_AT_ONCE : nat := 3.

Definition byteLength (content : string) : Z := Z.of_nat (String.length content).

Section Transfer.
Context `{ER : EngineRuntime}.

(** [path.dirname(localPath(root, rel))] holds [tempBeside rel uuid]. *)
Definition tempBeside (rel uuid : string) : string :=
  joinRel (parentRel rel) (TEMP_PREFIX +:+ uuid).

Definition plainApiError (message : string) : EngineError := ApiError 0 None message None.

(** ** Downloads *)

Record DownloadInput := {
  di_fileId : string; di_target : string; di_checksum : option string;
  di_size : option Z; di_modifiedAt : option Z
}.

(** [input.checksum ? digest !== input.checksum : received !== input.size]. *)
Definition mismatch (input : DownloadInput) (digest : string) (received : Z) : bool :=
  match di_checksum input with
  | Some checksum =>
      if bool_decide (checksum = "") then negb (bool_decide (di_size input = Some received))
      else negb (bool_decide (digest = checksum))
  | None => negb (bool_decide (di_size input = Some received))
  end.

Definition receiveChunks (temp : string) (onBytes : Z -> Program unit) (chunks : list string) :
    Program unit :=
  forEach chunks (fun chunk =>
    _ ← onBytes (byteLength chunk);
    _ ← settle (ask (throttle (byteLength chunk) true));
    fs (appendFile temp chunk)).

(** The temporary file and its checksum. *)
Definition downloadToTemp (input : DownloadInput) (onBytes : Z -> Program unit) :
    Program (string * string) :=
  uuid ← ask randomUUID;
  let temp := tempBeside (di_target input) uuid in
  catch
    (body ← http (downloadFile (di_fileId input));
     _ ← fs (createFile temp);
     _ ← receiveChunks temp onBytes (db_chunks body);
     _ ← match db_error body with Some e => throw e | None => mret tt end;
     let content := String.concat "" (db_chunks body) in
     let digest := sha256 content in
     _ ← (if mismatch input digest (byteLength content)
          then throw (plainApiError "The download did not match the server's copy.")
          else mret tt);
     _ ← match di_modifiedAt input with
         | Some when_ => fs (setTimes temp when_)
         | None => mret tt
         end;
     mret (temp, digest))
    (fun e => _ ← fs (removePath temp); throw e).

Definition moveIntoPlace (temp target : string) : Program unit :=
  catch (fs (renamePath temp target)) (fun e => _ ← fs (removePath temp); throw e).

(** ** Uploads *)

Record UploadInput := {
  ui_pairId : string; ui_rel : string; ui_folderId : string; ui_name : string;
  ui_checksum : string; ui_size : Z; ui_mtimeMs : Z; ui_replace : option Replace
}.

Definition uploadFields (input : UploadInput) : UploadFields :=
  {| up_folderId := ui_folderId input; up_name := ui_name input; up_size := ui_size input;
     up_checksum := ui_checksum input; up_modifiedAt := ui_mtimeMs input;
     up_replace := ui_replace input |}.

(** [JSON.stringify] of a string: quotes, backslashes and control characters are
    escaped. *)
Definition jsonHexDigit (n : nat) : ascii :=
  ascii_of_nat (if bool_decide (n < 10)%nat then 48 + n else 87 + n).
Definition quoteChar : ascii := ascii_of_nat 34.
Definition backslash : ascii := ascii_of_nat 92.

Definition jsonChar (a : ascii) : string :=
  let n := nat_of_ascii a in
  let short := fun c => String backslash (String c EmptyString) in
  if bool_decide (a = quoteChar \/ a = backslash) then short a
  else if bool_decide (n = 8)%nat then short "b"%char
  else if bool_decide (n = 9)%nat then short "t"%char
  else if bool_decide (n = 10)%nat then short "n"%char
  else if bool_decide (n = 12)%nat then short "f"%char
  else if bool_decide (n = 13)%nat then short "r"%char
  else if bool_decide (n < 32)%nat
  then String backslash ("u00" +:+ String (jsonHexDigit (n / 16)) (String (jsonHexDigit (n mod 16)) ""))
  else String a EmptyString.

Fixpoint jsonChars (s : string) : string :=
  match s with
  | EmptyString => EmptyString
  | String a s' => jsonChar a +:+ jsonChars s'
  end.

Definition jsonString (s : string) : string :=
  String quoteChar (jsonChars s) +:+ String quoteChar EmptyString.

(** What a session commits to: [JSON.stringify([folderId, name, replace !== null])]. *)
Definition sessionTarget (input : UploadInput) : string :=
  "[" +:+ jsonString (ui_folderId input) +:+ "," +:+ jsonString (ui_name input) +:+ ","
  +:+ (if bool_decide (ui_replace input = None) then "false" else "true") +:+ "]".

(** The staged bytes of another version, place or choice are useless. *)
Definition pendingStale (input : UploadInput) (pending : PendingUpload) : bool :=
  negb (bool_decide (pu_checksum pending = ui_checksum input))
  || negb (bool_decide (pu_size pending = ui_size input))
  || negb (bool_decide (pu_mtimeMs pending = ui_mtimeMs input))
  || negb (bool_decide (pu_target pending = sessionTarget input)).

Definition pendingOf (input : UploadInput) : Program (option PendingUpload) :=
  reading (fun m => pendingUpload (ui_pairId input) (ui_rel input) (me_store m)).

Definition forgetPending (input : UploadInput) (pending : PendingUpload) : Program unit :=
  _ ← catch (http (cancelUpload (pu_sessionId pending))) (fun _ => mret tt);
  save (storeDeleteUpload (ui_pairId input) (ui_rel input)).

(** The session to send to: the one the store remembers, or a new one. *)
Definition openSession (input : UploadInput) : Program UploadSession :=
  pending ← pendingOf input;
  pending ← match pending with
            | Some p => if pendingStale input p then _ ← forgetPending input p; mret None
                        else mret (Some p)
            | None => mret None
            end;
  session ← match pending with
            | Some p =>
                catch (s ← http (uploadStatus (pu_sessionId p)); mret (Some s))
                  (fun e => match e with
                            | ApiError 404 _ _ _ =>
                                _ ← save (storeDeleteUpload (ui_pairId input) (ui_rel input));
                                mret None
                            | _ => throw e
                            end)
            | None => mret None
            end;
  match session with
  | Some s => mret s
  | None =>
      s ← http (startUpload (uploadFields input));
      _ ← save (storePutUpload
             {| pu_pairId := ui_pairId input; pu_rel := ui_rel input; pu_sessionId := us_id s;
                pu_checksum := ui_checksum input; pu_size := ui_size input;
                pu_mtimeMs := ui_mtimeMs input; pu_target := sessionTarget input |});
      mret s
  end.

(** [for (start = 0; start < size; start += chunkSize) if (!done.has(start))]; the
    loop has a turn per chunk. *)
Fixpoint startsFrom (fuel : nat) (size chunkSize : Z) (done : list Z) (start : Z) : list Z :=
  match fuel with
  | O => []
  | S fuel' =>
      if bool_decide (start < size) then
        (if bool_decide (start ∈ done) then [] else [start])
        ++ startsFrom fuel' size chunkSize done (start + chunkSize)
      else []
  end.

Definition missingStarts (size chunkSize : Z) (done : list Z) : list Z :=
  startsFrom (S (Z.to_nat (size / chunkSize))) size chunkSize done 0.

Definition chunkLength (size chunkSize start : Z) : Z := Z.min chunkSize (size - start).

Definition sendChunk (input : UploadInput) (session : UploadSession) (chunkSize : Z)
    (onBytes : Z -> Program unit) (start : Z) : Program unit :=
  aborted ← ask isAborted;
  _ ← (if aborted : bool then throw (OtherError "This operation was aborted") else mret tt);
  let length := chunkLength (ui_size input) chunkSize start in
  buffer ← fs (readAt (ui_rel input) start length);
  _ ← (if bool_decide (byteLength buffer = length) then mret tt
       else throw (plainApiError "The file changed while it was uploading."));
  _ ← settle (ask (throttle length false));
  _ ← http (uploadChunk (us_id session) start buffer (ui_size input));
  onBytes length.

Definition sendFile (input : UploadInput) (onBytes : Z -> Program unit) : Program UploadedFile :=
  session ← openSession input;
  let chunkSize := default (ui_size input) (us_chunkSizeBytes session) in
  _ ← onBytes (us_receivedBytes session);
  let starts := missingStarts (ui_size input) chunkSize (us_completedChunks session) in
  _ ← fs (openFile (ui_rel input));
  _ ← finally (pool [(starts, CHUNKS_AT_ONCE)] (sendChunk input session chunkSize onBytes) abort)
        (fs (closeFile (ui_rel input)));
  file ← http (completeUpload (us_id session) (ui_checksum input) (ui_replace input));
  _ ← save (storeDeleteUpload (ui_pairId input) (ui_rel input));
  mret file.

Definition sendSmall (input : UploadInput) (onBytes : Z -> Program unit) : Program UploadedFile :=
  pending ← pendingOf input;
  _ ← match pending with Some p => forgetPending input p | None => mret tt end;
  body ← fs (readFile (ui_rel input));
  _ ← (if bool_decide (byteLength body = ui_size input) then mret tt
       else throw (plainApiError "The file changed while it was uploading."));
  aborted ← ask isAborted;
  _ ← (if aborted : bool then throw (OtherError "This operation was aborted") else mret tt);
  _ ← settle (ask (throttle (byteLength body) false));
  file ← http (uploadSmall (uploadFields input) body);
  _ ← (if bool_decide (0 < byteLength body) then onBytes (byteLength body) else mret tt);
  mret file.

Definition uploadFile (input : UploadInput) (onBytes : Z -> Program unit) : Program UploadedFile :=
  if bool_decide (ui_size input <= SMALL_UPLOAD_BYTES) then sendSmall input onBytes
  else sendFile input onBytes.
End Transfer.

Lemma startsFrom_spec fuel size chunkSize sent start s :
  0 < chunkSize ->
  s ∈ startsFrom fuel size chunkSize sent start <->
  s ∉ sent /\ s < size /\ exists k, 0 <= k < Z.of_nat fuel /\ s = start + k * chunkSize.
Proof.
  intros Hc. revert start. induction fuel as [|fuel IH]; intros start; cbn [startsFrom].
  { split; [by intros ?%not_elem_of_nil|]. intros (_ & _ & k & Hk & _). lia. }
  case_bool_decide as Hlt.
  2:{ split; [by intros ?%not_elem_of_nil|]. intros (_ & Hs & k & Hk & ->). nia. }
  rewrite elem_of_app, IH. split.
  - intros [Hin|(Hn & Hs & k & Hk & ->)].
    + case_bool_decide; [by apply not_elem_of_nil in Hin|]. apply list_elem_of_singleton in Hin as ->.
      split_and!; [done|done|]. exists 0. lia.
    + split_and!; [done|done|]. exists (k + 1). lia.
  - intros (Hn & Hs & k & Hk & ->). destruct (decide (k = 0)) as [->|Hk0].
    + left. rewrite Z.mul_0_l, Z.add_0_r in *. rewrite bool_decide_eq_false_2 by done. by left.
    + right. split_and!; [done|done|]. exists (k - 1). lia.
Qed.

Lemma startsFrom_NoDup fuel size chunkSize sent start :
  0 < chunkSize -> NoDup (startsFrom fuel size chunkSize sent start).
Proof.
  intros Hc. revert start. induction fuel as [|fuel IH]; intros start; cbn [startsFrom]; [constructor|].
  case_bool_decide; [|constructor]. case_bool_decide; [apply IH|]. cbn. constructor; [|apply IH].
  rewrite startsFrom_spec by done. intros (_ & _ & k & Hk & E). nia.
Qed.

Lemma missingStarts_spec size chunkSize sent s :
  0 < chunkSize -> 0 <= size ->
  s ∈ missingStarts size chunkSize sent <->
  s ∉ sent /\ exists i, 0 <= i < getExpectedUploadChunkCount size chunkSize /\ s = i * chunkSize.
Proof.
  intros Hc Hs. unfold missingStarts. rewrite startsFrom_spec by done.
  pose proof (Z.div_mod size chunkSize ltac:(lia)) as Hd.
  pose proof (Z.mod_pos_bound size chunkSize Hc) as Hm.
  assert (Hq : 0 <= size / chunkSize) by (apply Z.div_pos; lia).
  split.
  - intros (Hn & Hlt & k & Hk & ->). split; [done|]. exists k. split; [|lia].
    apply chunk_in_range; [done|]. lia.
  - intros (Hn & i & Hi & ->). apply chunk_in_range in Hi as [Hi Hlt]; [|done].
    split_and!; [done|done|]. exists i. split; [|lia]. split; [done|]. nia.
Qed.

(** A resumed upload completes the file: of a session that already has the
    chunks starting at [sent], the engine sends each chunk of the file that is
    missing, once, and nothing else; each has the bytes the server expects of
    it, is taken under its own index, and with those sent before the chunks are
    all the chunks of the file. *)
Theorem engine_sends_exactly_the_missing_chunks size chunkSize sent :
  0 < chunkSize -> 0 <= size <= 2 ^ 53 - 1 ->
  NoDup (missingStarts size chunkSize sent) /\
  (forall start, start ∈ missingStarts size chunkSize sent -> exists index,
     start ∉ sent /\ start = uc_startByte (chunkAt size chunkSize index) /\
     chunkLength size chunkSize start = uc_sizeBytes (chunkAt size chunkSize index) /\
     getUploadChunkIndex
       {| ub_start := start; ub_end := start + chunkLength size chunkSize start - 1 |}
       size chunkSize = Some index) /\
  (forall chunk, chunk ∈ chunkAt size chunkSize <$> seqZ 0 (getExpectedUploadChunkCount size chunkSize) ->
     uc_startByte chunk ∈ sent \/ uc_startByte chunk ∈ missingStarts size chunkSize sent).
Proof.
  intros Hc Hs. split_and!.
  - by apply startsFrom_NoDup.
  - intros start Hin. apply missingStarts_spec in Hin as (Hn & i & Hi & ->); [|done|lia].
    exists i. cbn [chunkAt uc_startByte uc_sizeBytes]. unfold chunkLength.
    split_and!; [done|done|lia|].
    apply chunk_index_names_exactly_the_chunks; [done|done|]. split; [done|]. cbn. lia.
  - intros chunk (i & -> & Hi%elem_of_seqZ)%list_elem_of_fmap.
    destruct (decide (i * chunkSize ∈ sent)) as [|Hn]; [by left|right].
    apply missingStarts_spec; [done|lia|]. split; [done|]. exists i. split; [lia|done].
Qed.

Lemma engine_sends_exactly_the_missing_chunks_witness :
  NoDup (missingStarts 25 10 [10]) /\ missingStarts 25 10 [10] = [0; 20].
Proof.
  split; [|by vm_compute].
  by destruct (engine_sends_exactly_the_missing_chunks 25 10 [10]); [lia|lia|].
Defined.
