(* ===== verification/PairSync.v ===== *)
(** * One pass over a pair

    [apps/desktop/src/engine/pair-sync.ts]: [syncPair] scans the folder, plans,
    and carries the plan out, a handler per kind of action, planning again until
    nothing is left to do. Every handler looks again before it touches a file;
    transfers run in the lanes of a pool, the rest one after the other.

    [syncPair]'s shared variables are the [Pass] of the memory. An [Activity]
    that a handler adds to while it runs is the one of its path in [pa_open]. *)

From S2P Require Import Prelude SyncTypes Plan SyncStore RemoteTree JsValues Async EngineIo LocalScan Transfer.

Open Scope Z_scope.

#[export] Instance IssueSource_eq_dec : EqDecision IssueSource.
Proof. solve_decision. Defined.
#[export] Instance IssueKind_eq_dec : EqDecision IssueKind.
Proof. solve_decision. Defined.

(** [SyncPair], and what of [PairContext] does not change during a pass. *)
Record SyncPair := {
  pr_id : string; pr_localPath : string; pr_remoteFolderId : string;
  pr_remoteLabel : string; pr_mode : SyncMode;
  pr_skipFolders : option (list SkipFolder); pr_skipPaths : option (list string)
}.

Record PairContext := {
  cx_pair : SyncPair; cx_deviceName : string; cx_ignore : string -> bool;
  cx_minFreeBytes : Z; cx_platform : NodePlatform; cx_depth : nat
}.

Record PairResult := {
  rs_issues : list Issue; rs_hold : option Hold; rs_pullAgain : bool; rs_retrySoon : bool
}.

Definition MAX_ROUNDS : nat := 20.
Definition SETTLE_MS : Z := 2000.

Definition serverFull (code : option string) : option string :=
  if opt_is code "USER_STORAGE_QUOTA_EXCEEDED"
  then Some "Your storage on the server is full. Uploads wait until there is space."
  else if opt_is code "UPLOAD_STORAGE_CAPACITY_EXCEEDED"
  then Some "The server is out of space. Uploads wait until there is room."
  else None.

Definition uploadSize (action : Action) : option Z :=
  match action with
  | upload _ local _ | keep_mine _ local _ => Some (le_size (lf_entry local))
  | _ => None
  end.

Definition transferSize (action : Action) : option Z :=
  match action with
  | download _ remote _ => Some (default 0 (ri_size remote))
  | _ => uploadSize action
  end.

(** ** Lanes *)

Inductive Lane := downloads | bigUploads | smallUploads.
#[export] Instance Lane_eq_dec : EqDecision Lane.
Proof. solve_decision. Defined.

Definition LANES : list (Lane * nat) :=
  [(downloads, 4%nat); (bigUploads, 4%nat); (smallUploads, 16%nat)].

Definition laneOfAction (action : Action) : Lane :=
  match uploadSize action with
  | None => downloads
  | Some size => if bool_decide (size <= SMALL_UPLOAD_BYTES) then smallUploads else bigUploads
  end.

Definition transferLanes (actions : list Action) : list (list Action * nat) :=
  (fun lane : Lane * nat =>
     (filter (fun action => laneOfAction action = lane.1) actions, lane.2)) <$> LANES.

(** ** The server's answers as items *)

Definition diskMessage (code : option string) : string :=
  if opt_is code "ENOSPC" then "This computer is out of space."
  else if opt_is code "EBUSY" || opt_is code "EPERM"
  then "Another app is using this file. Sync tries again soon."
  else if opt_is code "EACCES" then "Staaash isn't allowed to read or write this."
  else "Couldn't use this file (" +:+ default "disk error" code +:+ ").".

Definition remoteFromUpload (answer : UploadedFile) (checksum : option string) : RemoteItem :=
  {| ri_id := uf_id answer; ri_type := file; ri_parentId := uf_folderId answer;
     ri_name := uf_name answer; ri_size := Some (uf_sizeBytes answer);
     ri_checksum := checksum; ri_rev := default 0 (uf_storageRevision answer);
     ri_modifiedAt := toMs (uf_clientModifiedAt answer) |}.

Definition remoteFromFolder (answer : FolderAnswer) : RemoteItem :=
  {| ri_id := fa_id answer; ri_type := folder; ri_parentId := fa_parentId answer;
     ri_name := fa_name answer; ri_size := None; ri_checksum := None;
     ri_rev := default 0 (fa_storageRevision answer); ri_modifiedAt := None |}.

(** [order]. *)
Definition orderOf (action : Action) : Z :=
  match action with
  | move_local _ _ _ | move_remote _ _ _ _ => 0
  | mkdir _ _ | create_remote_folder _ _ => 1
  | link _ _ _ | forget _ => 2
  | conflict_copy _ _ _ _ => 3
  | download _ _ _ | upload _ _ _ | keep_mine _ _ _ => 4
  | trash_local _ _ | trash_remote _ _ => 5
  end.

Definition actionKind (action : Action) : string :=
  match action with
  | move_local _ _ _ => "move-local" | move_remote _ _ _ _ => "move-remote"
  | mkdir _ _ => "mkdir" | create_remote_folder _ _ => "create-remote-folder"
  | link _ _ _ => "link" | forget _ => "forget" | conflict_copy _ _ _ _ => "conflict-copy"
  | download _ _ _ => "download" | upload _ _ _ => "upload" | keep_mine _ _ _ => "keep-mine"
  | trash_local _ _ => "trash-local" | trash_remote _ _ => "trash-remote"
  end.

(** ["rel" in action ? action.rel : action.from]. *)
Definition relOf (action : Action) : string :=
  match action with
  | move_local from _ _ | move_remote from _ _ _ => from
  | mkdir rel _ | create_remote_folder rel _ | download rel _ _ | upload rel _ _
  | keep_mine rel _ _ | conflict_copy rel _ _ _ | trash_local rel _ | trash_remote rel _
  | link rel _ _ | forget rel => rel
  end.

(** [sort((a, b) => order[a.kind] - order[b.kind] || size(a) - size(b))], stable. *)
Definition actionBefore (a b : Action) : bool :=
  bool_decide (orderOf a < orderOf b)
  || bool_decide (orderOf a = orderOf b)
     && bool_decide (default 0 (uploadSize a) <= default 0 (uploadSize b)).

Fixpoint insertAction (action : Action) (actions : list Action) : list Action :=
  match actions with
  | [] => [action]
  | each :: actions' =>
      if actionBefore action each then action :: each :: actions'
      else each :: insertAction action actions'
  end.

Definition sortActions (actions : list Action) : list Action := foldr insertAction [] actions.

Section PairSync.
Context `{ER : EngineRuntime} `{PF : Platform} (ctx : PairContext).
#[local] Notation pair := (cx_pair ctx).
#[local] Notation pairId := (pr_id (cx_pair ctx)).

(** ** Issues *)

Definition isOperationAt (rel : string) (each : Issue) : bool :=
  bool_decide (is_source each = operation) && bool_decide (pathKey (is_rel each) = pathKey rel).

Definition clearOperation (rel : string) (issues : list Issue) : list Issue :=
  filter (fun each => isOperationAt rel each = false) issues.

Definition addIssue (rel : string) (kind : IssueKind) (message : string) (source : IssueSource)
    (issues : list Issue) : list Issue :=
  let issues := if bool_decide (source = operation) then clearOperation rel issues else issues in
  let seen := existsb (fun each =>
    bool_decide (is_rel each = rel) && bool_decide (is_source each = source)
    && bool_decide (is_kind each = kind) && bool_decide (is_message each = message)) issues in
  if seen then issues
  else issues ++ [{| is_pairId := pairId; is_rel := rel; is_source := source; is_kind := kind;
                     is_message := message; is_remoteId := None |}].

Definition updatePass (f : Pass -> Pass) : Program unit := save (setPass f).

Definition issue (rel : string) (kind : IssueKind) (message : string) (source : IssueSource) :
    Program unit :=
  updatePass (fun p => set_issues (addIssue rel kind message source (pa_issues p)) p).

Definition resolved (rel : string) : Program unit :=
  _ ← updatePass (fun p => set_issues (clearOperation rel (pa_issues p)) p);
  say (resolvedPath rel).

(** One "server full" issue per folder, with the latest reason. *)
Definition serverFullIssue (message : string) : Program unit :=
  _ ← updatePass (fun p => set_issues
    (filter (fun each => negb (bool_decide (is_rel each = "")) || negb (bool_decide (is_kind each = quota)) = true)
       (pa_issues p)) p);
  issue "" quota message scan.

Definition waitsFor (full : Full) (action : Action) : bool :=
  match uploadSize action, fu_size full with
  | Some size, Some limit => bool_decide (limit <= size)
  | _, _ => false
  end.

(** ** Helpers of the handlers *)

Definition remoteIdAt (rel : string) : Program (option string) :=
  if bool_decide (rel = "") then mret (Some (pr_remoteFolderId pair))
  else reading (fun m => pa_folderIds (me_pass m) !! pathKey rel).

Definition setFolderId (rel id : string) : Program unit :=
  updatePass (fun p => set_folderIds (<[pathKey rel := id]> (pa_folderIds p)) p).

Definition baseRow (rel : string) (local : LocalEntry) (remote : RemoteItem)
    (checksum : option string) : BaseEntry :=
  {| be_pairId := pairId; be_rel := rel; be_type := ri_type remote; be_remoteId := ri_id remote;
     be_rev := ri_rev remote; be_checksum := checksum; be_size := le_size local;
     be_mtimeMs := le_mtimeMs local; be_ino := le_ino local |}.

Definition savePutBase (rel : string) (local : LocalEntry) (remote : RemoteItem)
    (checksum : option string) : Program unit :=
  save (storePutBase (baseRow rel local remote checksum)).

Definition withRev (rev : Z) (item : RemoteItem) : RemoteItem :=
  {| ri_id := ri_id item; ri_type := ri_type item; ri_parentId := ri_parentId item;
     ri_name := ri_name item; ri_size := ri_size item; ri_checksum := ri_checksum item;
     ri_rev := rev; ri_modifiedAt := ri_modifiedAt item |}.

(** [tolerate]. *)
Definition tolerate (thrown : EngineError) (rel : string) (size : option Z) : Program unit :=
  match thrown with
  | SystemError code => issue rel error (diskMessage code) operation
  | OtherError _ => throw thrown
  | ApiError status code message details =>
      if opt_is code "REVISION_MISMATCH" then
        m ← ask recall;
        _ ← match details with
            | Some d =>
                match rt_items (me_tree m) !! rd_id d with
                | Some known =>
                    if bool_decide (rd_contentChecksum d = ri_checksum known)
                    then save (treeSet (withRev (rd_storageRevision d) known)) else mret tt
                | None => mret tt
                end
            | None => mret tt
            end;
        updatePass set_pullAgain
      else if bool_decide (status = 429) then updatePass set_retrySoon
      else
        match serverFull code with
        | Some full =>
            m ← ask recall;
            let size' := match size, fu_size (me_full m) with
                         | Some s, Some old => Some (Z.min old s)
                         | Some s, None => Some s
                         | None, old => old
                         end in
            _ ← save (setFull {| fu_size := size'; fu_message := Some full |});
            serverFullIssue full
        | None =>
            if bool_decide (status = 404) || bool_decide (status = 409)
            then updatePass set_pullAgain
            else issue rel error message operation
        end
  end.

(** [checksumOf]: from the cache when the file still is what was hashed. *)
Definition cachedChecksum (m : Memory) (entry : LocalEntry) : option string :=
  match me_hashes m !! (pairId, le_rel entry) with
  | Some (cached, checksum) =>
      if sameStat (localStat cached) (localStat entry) then Some checksum else None
  | None => None
  end.

Definition checksumFor (entry : LocalEntry) : Program string :=
  cached ← reading (fun m => cachedChecksum m entry);
  match cached with
  | Some checksum => mret checksum
  | None =>
      checksum ← hashFile (le_rel entry);
      _ ← save (rememberHash pairId (le_rel entry) entry checksum);
      mret checksum
  end.

(** ** Activities *)

Definition activityOf (rel : string) (direction : Direction) (bytes at_ : Z) : Activity :=
  {| ac_pairId := pairId; ac_rel := rel; ac_direction := direction; ac_state := active_transfer;
     ac_bytes := bytes; ac_doneBytes := 0; ac_at := at_ |}.

Definition inState (state : ActivityState) (at_ : Z) (a : Activity) : Activity :=
  {| ac_pairId := ac_pairId a; ac_rel := ac_rel a; ac_direction := ac_direction a;
     ac_state := state; ac_bytes := ac_bytes a; ac_doneBytes := ac_doneBytes a; ac_at := at_ |}.

Definition moreBytes (bytes : Z) (a : Activity) : Activity :=
  {| ac_pairId := ac_pairId a; ac_rel := ac_rel a; ac_direction := ac_direction a;
     ac_state := ac_state a; ac_bytes := ac_bytes a; ac_doneBytes := ac_doneBytes a + bytes;
     ac_at := ac_at a |}.

Definition openAt (rel : string) (p : Pass) : list Activity :=
  filter (fun each => ac_rel each = rel) (pa_open p).
Definition closeAt (rel : string) (p : Pass) : Pass :=
  set_open (filter (fun each => ac_rel each <> rel) (pa_open p)) p.

(** [track]. *)
Definition track (rel : string) (direction : Direction) (bytes : Z) : Program unit :=
  at_ ← ask dateNow;
  let a := activityOf rel direction bytes at_ in
  _ ← updatePass (fun p => set_open (pa_open p ++ [a]) p);
  say (activity a).

(** [onBytes] of a tracked transfer. *)
Definition countBytes (rel : string) (bytes : Z) : Program unit :=
  _ ← updatePass (fun p => set_open
        ((fun each => if bool_decide (ac_rel each = rel) then moreBytes bytes each else each)
           <$> pa_open p) p);
  open ← reading (fun m => openAt rel (me_pass m));
  forEach open (fun each => say (activity each)).

(** The call that [track] returns. *)
Definition finish (rel : string) : Program unit :=
  open ← reading (fun m => openAt rel (me_pass m));
  _ ← updatePass (closeAt rel);
  _ ← resolved rel;
  at_ ← ask dateNow;
  forEach open (fun each => say (activity (inState done_transfer at_ each))).

(** ** Handlers: [true] when the path is settled *)

Definition moveLocal (from to : string) (remote : RemoteItem) : Program bool :=
  there ← statLocal to;
  match there with
  | Some _ => mret false
  | None =>
      _ ← fs (renamePath from to);
      _ ← save (storeMoveBaseTree pairId from to);
      arrived ← statLocal to;
      previous ← reading (fun m => find (fun e => bool_decide (be_rel e = to))
                                     (baseEntries pairId (me_store m)));
      match arrived, previous with
      | Some now, Some row =>
          _ ← savePutBase to now remote (be_checksum row); mret true
      | _, _ => mret false
      end
  end.

(** The two calls of a move on the server, as a file or as a folder. *)
Definition moveItem (item : RemoteItem) (parentId : string) : Program RemoteItem :=
  if bool_decide (ri_type item = file)
  then r ← http (moveFile (ri_id item) (ri_rev item) parentId);
       mret (remoteFromUpload r (ri_checksum item))
  else r ← http (moveFolder (ri_id item) (ri_rev item) parentId); mret (remoteFromFolder r).

Definition renameItem (isFile : bool) (item : RemoteItem) (name : string) : Program RemoteItem :=
  if isFile
  then r ← http (renameFile (ri_id item) (ri_rev item) name);
       mret (remoteFromUpload r (ri_checksum item))
  else r ← http (renameFolder (ri_id item) (ri_rev item) name); mret (remoteFromFolder r).

Definition moveRemote (from to : string) (base : BaseEntry) (local : LocalEntry) : Program bool :=
  known ← reading (fun m => rt_items (me_tree m) !! be_remoteId base);
  match known with
  | None => mret false
  | Some known =>
      parentId ← remoteIdAt (parentRel to);
      match parentId with
      | None => mret false
      | Some parentId =>
          let isFile := bool_decide (ri_type known = file) in
          item ← (if bool_decide (ri_parentId known = Some parentId) then mret known
                  else item ← moveItem known parentId; _ ← save (treeSet item); mret item);
          item ← (if bool_decide (ri_name known = baseName to) then mret item
                  else renamed ← renameItem isFile item (baseName to);
                       _ ← save (treeSet renamed); mret renamed);
          _ ← save (storeMoveBaseTree pairId from to);
          _ ← savePutBase to local item (be_checksum base);
          mret true
      end
  end.

Definition mkdirLocal (rel : string) (remote : RemoteItem) : Program bool :=
  _ ← fs (makeFolder rel);
  made ← statLocal rel;
  _ ← setFolderId rel (ri_id remote);
  match made with
  | Some made => _ ← savePutBase rel made remote None; mret true
  | None => mret false
  end.

Definition createRemoteFolder (rel : string) (local : LocalEntry) : Program bool :=
  parentId ← remoteIdAt (parentRel rel);
  match parentId with
  | None => mret false
  | Some parentId =>
      answer ← http (createFolder parentId (baseName rel));
      let item := remoteFromFolder answer in
      _ ← save (treeSet item);
      _ ← setFolderId rel (ri_id item);
      _ ← savePutBase rel local item None;
      mret true
  end.

(** The name a version that gives way gets, free on the disk as it is now. *)
Definition copyRelFor (rel : string) : Program string :=
  scan ← scanLocal (fun _ => false) (fun _ => false) (cx_depth ctx);
  let taken := (pathKey <$> (le_rel <$> ls_entries scan))
               ++ (pathKey <$> (la_rel <$> ls_excluded scan)) in
  date ← ask newDate;
  match conflictCopyName (S (length taken)) rel (cx_deviceName ctx) date
          (fun candidate => bool_decide (pathKey candidate ∈ taken)) with
  | Some copyRel => mret copyRel
  | None => throw (OtherError "unreachable")
  end.

Definition conflictCopy (rel : string) (local : LocalEntry) (localOnly : bool)
    (unverified : option Unverified) : Program bool :=
  now ← statLocal rel;
  match now with
  | None => mret false
  | Some now =>
      if negb (sameStat (localStat now) (localStat local)) then mret false
      else
        same ← match unverified with
               | None => mret false
               | Some u =>
                   let remote := uv_remote u in
                   d ← downloadToTemp
                         {| di_fileId := ri_id remote; di_target := rel; di_checksum := None;
                            di_size := ri_size remote; di_modifiedAt := None |} (fun _ => mret tt);
                   _ ← fs (removePath d.1);
                   if bool_decide (uv_checksum u = Some d.2)
                   then _ ← savePutBase rel now remote (Some d.2); mret true
                   else mret false
               end;
        if same : bool then mret true
        else
          copyRel ← copyRelFor rel;
          _ ← fs (renamePath rel copyRel);
          _ ← (if localOnly then
                 say (notify "Your version was kept"
                   (baseName rel +:+ " here doesn't match the server, and this folder only downloads. Your version is now "
                    +:+ baseName copyRel +:+ ", on this computer only."))
               else if bool_decide (le_type local = file) then
                 _ ← save (storeAddConflict pairId rel copyRel);
                 say (notify "Sync conflict"
                   (baseName rel +:+ " changed here and on the server. Both versions were kept."))
               else mret tt);
          mret true
  end.

Definition almostFull : string :=
  "This computer is almost out of space, so downloads are paused.".

(** The local file must still be what the plan saw, or nothing. *)
Definition asExpected (expect : option LocalFile) (now : option LocalEntry) : bool :=
  match expect, now with
  | Some e, Some n => sameStat (localStat n) (lf_stat e)
  | None, None => true
  | _, _ => false
  end.

Definition downloadFileTo (rel : string) (remote : RemoteItem) (expect : option LocalFile) :
    Program bool :=
  free ← attempt (fs (statfs (parentRel rel)));
  let short := match free with
               | Ok free => bool_decide (free - default 0 (ri_size remote) < cx_minFreeBytes ctx)
               | Throw _ => false
               end in
  if short then _ ← issue rel disk_full almostFull operation; mret false
  else
    _ ← fs (makeFolder (parentRel rel));
    _ ← track rel down (default 0 (ri_size remote));
    d ← downloadToTemp
          {| di_fileId := ri_id remote; di_target := rel; di_checksum := ri_checksum remote;
             di_size := ri_size remote; di_modifiedAt := ri_modifiedAt remote |} (countBytes rel);
    let '(temp, checksum) := d in
    now ← statLocal rel;
    if negb (asExpected expect now) then _ ← fs (removePath temp); mret false
    else
      _ ← moveIntoPlace temp rel;
      written ← statLocal rel;
      match written with
      | None => mret false
      | Some w => _ ← savePutBase rel w remote (Some checksum); _ ← finish rel; mret false
      end.

Definition unsettled (local : LocalEntry) : Program bool :=
  now ← ask dateNow;
  mret (bool_decide (now * millisecond - le_mtimeMs local < SETTLE_MS * millisecond)).

Definition uploadInput (rel : string) (local : LocalEntry) (folderId name checksum : string)
    (replace : option Replace) : UploadInput :=
  {| ui_pairId := pairId; ui_rel := rel; ui_folderId := folderId; ui_name := name;
     ui_checksum := checksum; ui_size := le_size local; ui_mtimeMs := le_mtimeMs local;
     ui_replace := replace |}.

Definition uploadLocal (rel : string) (local : LocalEntry) (replace : option Replace) :
    Program bool :=
  wait ← unsettled local;
  if wait : bool then mret false
  else
    parentId ← remoteIdAt (parentRel rel);
    match parentId with
    | None => mret false
    | Some parentId =>
        checksum ← checksumFor local;
        now ← statLocal rel;
        if negb (match now with
                 | Some n => sameStat (localStat n) (localStat local) | None => false end)
        then mret false
        else
          _ ← track rel up (le_size local);
          answer ← uploadFile (uploadInput rel local parentId (baseName rel) checksum replace)
                     (countBytes rel);
          let item := remoteFromUpload answer (Some checksum) in
          _ ← save (treeSet item);
          _ ← savePutBase rel local item (Some checksum);
          _ ← finish rel;
          mret false
    end.

(** [remote.parentId ?? remoteIdAt(parentRel(rel))]. *)
Definition parentOf (remote : RemoteItem) (rel : string) : Program (option string) :=
  match ri_parentId remote with
  | Some id => mret (Some id)
  | None => remoteIdAt (parentRel rel)
  end.

Definition keepMineLocal (rel : string) (local : LocalEntry) (remote : RemoteItem) : Program bool :=
  wait ← unsettled local;
  if wait : bool then mret false
  else
    checksum ← checksumFor local;
    parentId ← parentOf remote rel;
    match parentId with
    | None => mret false
    | Some parentId =>
        date ← ask newDate;
        let copyName := from_option baseName ""
          (conflictCopyName 1 rel (cx_deviceName ctx) date (fun _ => false)) in
        copy ← uploadFile (uploadInput rel local parentId copyName checksum None)
                 (fun _ => mret tt);
        answer ← http (keepMine (ri_id remote) (ri_rev remote) (uf_id copy));
        _ ← save (treeRemoveSubtree (uf_id copy));
        let item := remoteFromUpload answer (Some checksum) in
        _ ← save (treeSet item);
        _ ← savePutBase rel local item (Some checksum);
        mret true
    end.

Definition trashLocal (rel : string) (local : LocalEntry) : Program bool :=
  now ← statLocal rel;
  match now with
  | None => _ ← save (storeDeleteBaseTree pairId rel); mret true
  | Some now =>
      if bool_decide (le_type now = file) && negb (sameStat (localStat now) (localStat local))
      then mret false
      else
        _ ← fs (trashPath rel);
        _ ← save (storeDeleteBaseTree pairId rel);
        mret true
  end.

Definition trashRemote (rel : string) (remote : RemoteItem) : Program bool :=
  there ← statLocal rel;
  match there with
  | Some _ => mret false
  | None =>
      _ ← (if bool_decide (ri_type remote = file)
           then http (trashFile (ri_id remote) (ri_rev remote))
           else http (trashFolder (ri_id remote) (ri_rev remote)));
      _ ← save (treeRemoveSubtree (ri_id remote));
      _ ← save (storeDeleteBaseTree pairId rel);
      mret true
  end.

Definition handle (action : Action) : Program bool :=
  match action with
  | move_local from to remote => moveLocal from to remote
  | move_remote from to base local => moveRemote from to base (lf_entry local)
  | mkdir rel remote => mkdirLocal rel remote
  | create_remote_folder rel local => createRemoteFolder rel (lf_entry local)
  | link rel local remote =>
      _ ← savePutBase rel (lf_entry local) remote (ri_checksum remote); mret true
  | forget rel => _ ← save (storeDeleteBase pairId rel); mret true
  | conflict_copy rel local localOnly unverified =>
      conflictCopy rel (lf_entry local) localOnly unverified
  | download rel remote expect => downloadFileTo rel remote expect
  | upload rel local replace => uploadLocal rel (lf_entry local) replace
  | keep_mine rel local remote => keepMineLocal rel (lf_entry local) remote
  | trash_local rel local => trashLocal rel (lf_entry local)
  | trash_remote rel remote => trashRemote rel remote
  end.

(** ** Running one action *)

Definition reportWaiting : Program unit :=
  queued ← reading (fun m => pa_queued (me_pass m));
  say (waiting
    {| wt_files := length queued;
       wt_bytes := foldr (fun each sum => default 0 (transferSize each) + sum) 0 queued;
       wt_uploadBytes := foldr (fun each sum => default 0 (uploadSize each) + sum) 0 queued |}).

(** [queued.delete(action)]. *)
Definition dequeue (action : Action) : Program unit :=
  queued ← reading (fun m => pa_queued (me_pass m));
  if bool_decide (action ∈ queued) then
    _ ← updatePass (fun p => set_queued (filter (fun each => each <> action) (pa_queued p)) p);
    reportWaiting
  else mret tt.

(** A transfer that is still open has failed. *)
Definition closeFailed (rel : string) : Program unit :=
  open ← reading (fun m => openAt rel (me_pass m));
  _ ← forEach open (fun each =>
        at_ ← ask dateNow; say (activity (inState failed_transfer at_ each)));
  updatePass (closeAt rel).

Definition runAction (action : Action) : Program unit :=
  _ ← dequeue action;
  let rel := relOf action in
  go ← ask current;
  full ← reading me_full;
  if negb go || waitsFor full action then mret tt
  else
    finally
      (catch
         (settled ← handle action; if settled : bool then resolved rel else mret tt)
         (fun e => tolerate e rel (uploadSize action)))
      (closeFailed rel).

Definition runStage (sorted : list Action) (stage : Z) : Program unit :=
  let batch := filter (fun action => orderOf action = stage) sorted in
  if bool_decide (stage = 4) then pool (transferLanes batch) runAction abort
  else forEach batch runAction.

(** ** The rounds *)

Definition withChecksum (m : Memory) (entry : LocalEntry) : LocalFile :=
  {| lf_entry := entry; lf_checksum := cachedChecksum m entry |}.

Definition excludedHere (each : LeftAlone) : Excluded :=
  {| ex_side := local_side; ex_rel := la_rel each; ex_ino := la_ino each; ex_remoteId := None |}.
Definition excludedThere (each : ScopedItem) : Excluded :=
  {| ex_side := remote_side; ex_rel := si_rel each; ex_ino := None;
     ex_remoteId := Some (ri_id (si_item each)) |}.

(** What a round plans from: the scan, the server's items and the saved base. *)
Definition roundInput (m : Memory) (scan : LocalScan) (there : Scope) (unhashable : list Excluded)
    (allowEmptied : bool) : PlanInput :=
  {| in_pairId := pairId; in_mode := pr_mode pair;
     in_local := withChecksum m <$> ls_entries scan;
     in_remote := sp_items there; in_skipped := sp_skipped there;
     in_excluded := (excludedHere <$> ls_excluded scan) ++ (excludedThere <$> sp_ignored there)
                    ++ unhashable;
     in_base := baseEntries pairId (me_store m); in_allowEmptied := allowEmptied |}.

Definition folderIdsOf (items : list ScopedItem) : gmap string string :=
  foldl (fun ids each => if bool_decide (ri_type (si_item each) = folder)
                         then <[pathKey (si_rel each) := ri_id (si_item each)]> ids else ids)
    ∅ items.

Definition scopeFor (m : Memory) : Scope :=
  scope (cx_platform ctx) (cx_ignore ctx)
    (leftOut_remote (leftOutOf (pr_skipFolders pair) (pr_skipPaths pair)))
    (me_tree m) (pr_remoteFolderId pair).

Definition signatureOf (actions : list Action) : list (string * string) :=
  (fun action => (actionKind action, relOf action)) <$> actions.

(** Hashing what the plan asks for; a file that cannot be read sits out. *)
Fixpoint hashAll (entries : list LocalEntry) : Program (list Excluded) :=
  match entries with
  | [] => mret []
  | entry :: entries' =>
      failed ← catch (_ ← checksumFor entry; mret [])
        (fun e =>
           _ ← tolerate e (le_rel entry) None;
           _ ← updatePass set_retrySoon;
           mret [{| ex_side := local_side; ex_rel := le_rel entry; ex_ino := None;
                    ex_remoteId := None |}]);
      rest ← hashAll entries';
      mret (failed ++ rest)
  end.

Definition resultNow (hold : option Hold) : Program PairResult :=
  reading (fun m => let p := me_pass m in
    {| rs_issues := pa_issues p; rs_hold := hold; rs_pullAgain := pa_pullAgain p;
       rs_retrySoon := pa_retrySoon p |}).

(** What the first round tells about what the scan leaves alone. *)
Definition scanIssues (planned : Plan) (excluded : list LeftAlone) : Program unit :=
  _ ← updatePass (fun p => set_issues (pa_issues p ++ pl_issues planned) p);
  forEach excluded (fun each =>
    match la_reason each with
    | Some reason => if bool_decide (reason = "") then mret tt
                     else issue (la_rel each) error reason scan
    | None => mret tt
    end).

(** [scanLocal] of a round; [None] when the folder cannot be read. *)
Definition scanRound : Program (option LocalScan) :=
  catch
    (scan ← scanLocal (cx_ignore ctx)
              (leftOut_local (leftOutOf (pr_skipFolders pair) (pr_skipPaths pair)))
              (cx_depth ctx);
     mret (Some scan))
    (fun e =>
       _ ← say (scanned None);
       match e with
       | SystemError code => _ ← issue "" error (diskMessage code) SyncTypes.scan; mret None
       | _ => throw e
       end).

(** How a round ends: the loop goes on, stops, or the pass returns. *)
Inductive RoundEnd :=
| goOn (previousPlan : list (string * string)) (unhashable : list Excluded)
| stopHere
| returns_ (result : PairResult).

(** From the scan to the actions a round runs. *)
Definition planRound (first allowEmptied : bool) (unhashable : list Excluded) (s : LocalScan) :
    Program Plan :=
  m ← ask recall;
  let there := scopeFor m in
  _ ← say (scanned (Some s));
  _ ← updatePass (set_folderIds (folderIdsOf (sp_items there)));
  let planned := plan (roundInput m s there unhashable allowEmptied) in
  _ ← (if first then scanIssues planned (ls_excluded s) else mret tt);
  mret planned.

Definition runPlan (previousPlan : list (string * string)) (unhashable : list Excluded)
    (planned : Plan) : Program RoundEnd :=
  failed ← hashAll (lf_entry <$> pl_needsHash planned);
  let unhashable := unhashable ++ failed in
  full ← reading me_full;
  let actions := filter (fun action => waitsFor full action = false) (pl_actions planned) in
  _ ← match fu_message full with
      | Some message =>
          if bool_decide (length actions < length (pl_actions planned))%nat
             && negb (bool_decide (message = ""))
          then serverFullIssue message else mret tt
      | None => mret tt
      end;
  if bool_decide (actions = []) then
    mret (if bool_decide (pl_needsHash planned = []) then stopHere
          else goOn previousPlan unhashable)
  else if bool_decide (signatureOf actions = previousPlan) then
    _ ← updatePass set_retrySoon; mret stopHere
  else
    let sorted := sortActions actions in
    _ ← updatePass (set_queued (filter (fun action => transferSize action <> None) sorted));
    _ ← reportWaiting;
    _ ← forEach [0; 1; 2; 3; 4; 5] (runStage sorted);
    again ← reading (fun m => pa_pullAgain (me_pass m));
    mret (if again : bool then stopHere else goOn (signatureOf actions) unhashable).

Definition round (first allowEmptied : bool) (previousPlan : list (string * string))
    (unhashable : list Excluded) : Program RoundEnd :=
  found ← scanRound;
  match found with
  | None =>
      m ← ask recall;
      mret (returns_ {| rs_issues := pa_issues (me_pass m); rs_hold := None;
                        rs_pullAgain := pa_pullAgain (me_pass m); rs_retrySoon := true |})
  | Some s =>
      planned ← planRound first allowEmptied unhashable s;
      match pl_hold planned with
      | Some hold => result ← resultNow (Some hold); mret (returns_ result)
      | None => runPlan previousPlan unhashable planned
      end
  end.

(** [for (round = 0; round < MAX_ROUNDS && ctx.current(); round += 1)]; [None] when
    the loop was left, and a result when the pass returned. *)
Fixpoint rounds (left : nat) (first allowEmptied : bool) (previousPlan : list (string * string))
    (unhashable : list Excluded) : Program (option PairResult) :=
  match left with
  | O => mret None
  | S left' =>
      go ← ask current;
      if negb go then mret None
      else
        ended ← round first allowEmptied previousPlan unhashable;
        match ended with
        | goOn previousPlan' unhashable' => rounds left' false allowEmptied previousPlan' unhashable'
        | stopHere => mret None
        | returns_ result => mret (Some result)
        end
  end.

(** ** The pass *)

Definition folderMissing : string :=
  pr_localPath pair +:+ " is missing. Reconnect the drive, or remove this folder in Settings.".
Definition serverFolderGone : string :=
  pr_remoteLabel pair +:+ " was removed from the server. Restore it there, or remove this folder in Settings.".

Definition isFolder (stats : result EngineError Stats) : bool :=
  match stats with Ok s => bool_decide (sa_kind s = directory) | Throw _ => false end.

Definition syncPair : Program PairResult :=
  _ ← updatePass (fun _ => emptyPass);
  rootStats ← attempt (fs statRoot);
  if negb (isFolder rootStats) then
    _ ← say (scanned None);
    _ ← issue "" folder_missing folderMissing scan;
    resultNow None
  else
    gone ← reading (fun m => getMeta ("gone:" +:+ pairId) (me_store m));
    if bool_decide (nullish gone "" <> "") then
      _ ← issue "" server_folder_gone serverFolderGone scan;
      resultNow None
    else
      allow ← reading (fun m => getMeta ("allow-emptied:" +:+ pairId) (me_store m));
      let allowEmptied := opt_is allow "1" in
      returned ← rounds MAX_ROUNDS true allowEmptied [] [];
      match returned with
      | Some result => mret result
      | None =>
          _ ← (if allowEmptied
               then save (storeSetMeta ("allow-emptied:" +:+ pairId) None) else mret tt);
          resultNow None
      end.
End PairSync.
