(* ===== verification/PassGuard.v ===== *)
(** * What a pass may do, given what it has seen

    [permitted] says of every effect of [syncPair] what its own thread of
    control has seen before it: the plan it carries out, made from what this
    pass read, and the look at the path that just preceded. Nothing is assumed
    of the answers: the disk, the server and the memory may change at will.

    The rules prove it function by function. [keeps P K t I]: started when [P]
    holds of the thread's events, [t] does only what is [permitted]; [K] holds
    when it returns or throws, and [I] of what it returns. Facts that more events
    leave true are [Lasts]. A lemma per function of [pair-sync.ts] and
    [transfer.ts] follows; the sum is [keeps_syncPair]. *)

From S2P Require Import Prelude SyncTypes Plan SyncStore RemoteTree Async EngineIo LocalScan Transfer PairSync.

Open Scope Z_scope.

Notation History := (list (Event Answer)).

(** [happened H e a]: the effect [e] was answered [a]. *)
Definition happened (H : History) (e : Effect) (a : Answer e) : Prop := event e a ∈ H.

Section Permitted.
Context `{ER : EngineRuntime} `{PF : Platform} (ctx : PairContext).
#[local] Notation pair := (cx_pair ctx).
#[local] Notation pairId := (pr_id (cx_pair ctx)).

(** ** Plans *)

(** The input was read in this pass: the mode is the pair's, base and server
    items and remembered checksums are those of one moment, and every local entry is what [lstat] said. *)
Record planSeen (H : History) (input : PlanInput) : Prop := {
  ps_mode : in_mode input = pr_mode pair;
  ps_memory : exists m, happened H recall m /\
    in_base input = baseEntries pairId (me_store m) /\
    in_remote input = sp_items (scopeFor ctx m) /\
    forall f, f ∈ in_local input -> lf_checksum f = cachedChecksum ctx m (lf_entry f);
  ps_local f : f ∈ in_local input -> exists stats,
    happened H (disk (lstat (lf_rel f))) (Ok stats) /\ lf_entry f = toEntry (lf_rel f) stats
}.

Definition planned (H : History) (action : Action) : Prop :=
  exists input, planSeen H input /\ action ∈ pl_actions (plan input).

(** ** The last look *)

(** The last thing the thread did was to look at [rel]. *)
Definition justSaw (H : History) (rel : string) (now : option LocalEntry) : Prop :=
  exists r H', H = event (disk (lstat rel)) r :: H' /\
    match r with
    | Ok stats => now = if bool_decide (sa_kind stats = symbolicLink) then None
                        else Some (toEntry rel stats)
    | Throw e => codeOf e = Some "ENOENT" /\ now = None
    end.

(** At some point of the pass [rel] was so. *)
Definition onceSaw (H : History) (rel : string) (now : LocalEntry) : Prop :=
  exists stats, happened H (disk (lstat rel)) (Ok stats) /\ now = toEntry rel stats.

Definition isTemp (rel : string) : Prop := exists target uuid, rel = tempBeside target uuid.

(** ** Checksums and uploads *)

(** The checksum of the bytes read from [rel] in this pass, or one remembered
    for a file of the same size, time and identity. *)
Definition hashed (H : History) (local : LocalEntry) (checksum : string) : Prop :=
  (exists content, happened H (disk (readFile (le_rel local))) (Ok content) /\
     checksum = sha256 content) \/
  (exists m, happened H recall m /\ cachedChecksum ctx m local = Some checksum).

(** The server took the upload. *)
Definition uploaded (H : History) (input : UploadInput) (answer : UploadedFile) : Prop :=
  (exists body, happened H (api (uploadSmall (uploadFields input) body)) (Ok answer) /\
     byteLength body = ui_size input) \/
  (exists session, happened H (api (completeUpload session (ui_checksum input) (ui_replace input)))
     (Ok answer)).

(** The bytes of a file were fetched, and are what [digest] says. *)
Definition fetched (H : History) (id digest : string) : Prop :=
  exists body, happened H (api (downloadFile id)) (Ok body) /\ db_error body = None /\
    digest = sha256 (String.concat "" (db_chunks body)).

(** The server's folder for [rel], as the pass knows it. *)
Definition folderKnown (H : History) (rel id : string) : Prop :=
  (rel = "" /\ id = pr_remoteFolderId pair) \/
  exists m, happened H recall m /\ pa_folderIds (me_pass m) !! pathKey rel = Some id.

(** An item is in the folder, or the server answered that it moved it there. *)
Definition putInto (H : History) (item : RemoteItem) (parentId : string) (moved : RemoteItem) : Prop :=
  (ri_parentId item = Some parentId /\ moved = item) \/
  (exists answer, happened H (api (moveFile (ri_id item) (ri_rev item) parentId)) (Ok answer) /\
     moved = remoteFromUpload answer (ri_checksum item)) \/
  (exists answer, happened H (api (moveFolder (ri_id item) (ri_rev item) parentId)) (Ok answer) /\
     moved = remoteFromFolder answer).

(** An item had the name, or the server answered that it gave it. *)
Definition named (H : History) (had : string) (item : RemoteItem) (name : string)
    (renamed : RemoteItem) : Prop :=
  (had = name /\ renamed = item) \/
  (exists answer, happened H (api (renameFile (ri_id item) (ri_rev item) name)) (Ok answer) /\
     renamed = remoteFromUpload answer (ri_checksum item)) \/
  (exists answer, happened H (api (renameFolder (ri_id item) (ri_rev item) name)) (Ok answer) /\
     renamed = remoteFromFolder answer).

(** [item] is the server's item of the row [base], brought to [to]. *)
Definition broughtTo (H : History) (base : BaseEntry) (to : string) (item : RemoteItem) : Prop :=
  exists m known parentId moved, happened H recall m /\
    rt_items (me_tree m) !! be_remoteId base = Some known /\
    folderKnown H (parentRel to) parentId /\ putInto H known parentId moved /\
    named H (ri_name known) moved (baseName to) item.

(** ** Rows of the base *)

(** Why a row may say that both sides agree. *)
Inductive witnessed (H : History) : BaseEntry -> Prop :=
| by_moving_here from to remote now previous :
    planned H (move_local from to remote) -> happened H (disk (renamePath from to)) (Ok tt) ->
    onceSaw H to now -> 
    (exists m, happened H recall m /\ previous ∈ baseEntries pairId (me_store m)) ->
    be_rel previous = to ->
    witnessed H (baseRow ctx to now remote (be_checksum previous))
| by_moving_there from to base local item :
    planned H (move_remote from to base local) ->
    broughtTo H base to item ->
    witnessed H (baseRow ctx to (lf_entry local) item (be_checksum base))
| by_making_here rel remote made :
    planned H (mkdir rel remote) -> happened H (disk (makeFolder rel)) (Ok tt) ->
    onceSaw H rel made -> witnessed H (baseRow ctx rel made remote None)
| by_making_there rel local parentId answer :
    planned H (create_remote_folder rel local) ->
    happened H (api (createFolder parentId (baseName rel))) (Ok answer) ->
    witnessed H (baseRow ctx rel (lf_entry local) (remoteFromFolder answer) None)
| by_linking rel local remote :
    planned H (link rel local remote) ->
    witnessed H (baseRow ctx rel (lf_entry local) remote (ri_checksum remote))
| by_comparing rel local localOnly unverified now digest :
    planned H (conflict_copy rel local localOnly (Some unverified)) ->
    onceSaw H rel now -> localStat now = lf_stat local ->
    fetched H (ri_id (uv_remote unverified)) digest ->
    uv_checksum unverified = Some digest ->
    witnessed H (baseRow ctx rel now (uv_remote unverified) (Some digest))
| by_downloading rel remote expect temp written digest :
    planned H (download rel remote expect) -> fetched H (ri_id remote) digest ->
    (forall c, ri_checksum remote = Some c -> c <> "" -> digest = c) ->
    happened H (disk (renamePath temp rel)) (Ok tt) ->
    onceSaw H rel written -> witnessed H (baseRow ctx rel written remote (Some digest))
| by_uploading rel local replace parentId checksum answer :
    planned H (upload rel local replace) -> hashed H (lf_entry local) checksum ->
    (exists now, onceSaw H rel now /\ localStat now = lf_stat local) ->
    uploaded H (uploadInput ctx rel (lf_entry local) parentId (baseName rel) checksum replace)
      answer ->
    witnessed H (baseRow ctx rel (lf_entry local) (remoteFromUpload answer (Some checksum))
                   (Some checksum))
| by_keeping_mine rel local remote parentId name checksum copy answer :
    planned H (keep_mine rel local remote) -> hashed H (lf_entry local) checksum ->
    uploaded H (uploadInput ctx rel (lf_entry local) parentId name checksum None) copy ->
    happened H (api (keepMine (ri_id remote) (ri_rev remote) (uf_id copy))) (Ok answer) ->
    witnessed H (baseRow ctx rel (lf_entry local) (remoteFromUpload answer (Some checksum))
                   (Some checksum)).

(** Why the rows below [from] may be moved to [to]. *)
Inductive treeMoved (H : History) (from to : string) : Prop :=
| moved_here remote :
    planned H (move_local from to remote) -> happened H (disk (renamePath from to)) (Ok tt) ->
    treeMoved H from to
| moved_there base local item :
    planned H (move_remote from to base local) -> broughtTo H base to item ->
    treeMoved H from to.

(** ** Effects *)

(** The thread looked at [from], then scanned the pair's folder, and has done
    nothing since but read the clock; the scan found nothing of the key of [to]. *)
Definition freshName (H : History) (from : string) (now : LocalEntry) (to : string) : Prop :=
  exists date s H0 H1, H = event newDate date :: H1 /\ scanned_all H0 H1 s /\
    onceSaw H0 from now /\ pathKey to ∉ pathKey <$> rels (ls_entries s) (ls_excluded s).

(** A rename moves a path as planned onto a free one, puts a checked download
    where the file still is what the plan saw, or gives a version that has not
    changed since the plan a name of its own. *)
Inductive renameAllowed (H : History) (from to : string) : Prop :=
| rename_moves remote :
    planned H (move_local from to remote) -> justSaw H to None -> renameAllowed H from to
| rename_replaces remote expect digest now :
    planned H (download to remote expect) -> isTemp from -> fetched H (ri_id remote) digest ->
    (forall c, ri_checksum remote = Some c -> c <> "" -> digest = c) ->
    justSaw H to now -> asExpected expect now = true -> renameAllowed H from to
| rename_keeps local localOnly unverified now :
    planned H (conflict_copy from local localOnly unverified) ->
    localStat now = lf_stat local -> freshName H from now to -> renameAllowed H from to.

Definition uploading (H : History) (replace : option Replace) : Prop :=
  (exists rel local, planned H (upload rel local replace)) \/
  (replace = None /\ exists rel local remote, planned H (keep_mine rel local remote)).

Definition downloading (H : History) : Prop :=
  (exists rel remote expect, planned H (download rel remote expect)) \/
  (exists rel local localOnly u, planned H (conflict_copy rel local localOnly (Some u))).

Definition permitted (H : History) (e : Effect) : Prop :=
  match e with
  | disk (renamePath from to) => renameAllowed H from to
  | disk (trashPath rel) => exists local now,
      planned H (trash_local rel local) /\ justSaw H rel (Some now) /\
      (le_type now = file -> localStat now = lf_stat local)
  | disk (makeFolder rel) =>
      (exists remote, planned H (mkdir rel remote)) \/
      (exists rel' remote expect, planned H (download rel' remote expect) /\ rel = parentRel rel')
  | disk (createFile rel | appendFile rel _ | setTimes rel _ | removePath rel) =>
      isTemp rel /\ downloading H
  | api (createFolder _ name) => exists rel local,
      planned H (create_remote_folder rel local) /\ name = baseName rel
  | api (moveFile _ _ _ | moveFolder _ _ _ | renameFile _ _ _ | renameFolder _ _ _) =>
      exists from to base local, planned H (move_remote from to base local)
  | api (trashFile id rev) => exists rel remote,
      planned H (trash_remote rel remote) /\ justSaw H rel None /\
      ri_type remote = file /\ id = ri_id remote /\ rev = ri_rev remote
  | api (trashFolder id rev) => exists rel remote,
      planned H (trash_remote rel remote) /\ justSaw H rel None /\
      ri_type remote <> file /\ id = ri_id remote /\ rev = ri_rev remote
  | api (keepMine id rev _) => exists rel local remote,
      planned H (keep_mine rel local remote) /\ id = ri_id remote /\ rev = ri_rev remote
  | api (startUpload input | uploadSmall input _) => uploading H (up_replace input)
  | api (completeUpload _ _ replace) => uploading H replace
  | api (uploadStatus _ | cancelUpload _ | uploadChunk _ _ _ _) => exists replace, uploading H replace
  | write (storePutBase row) => witnessed H row
  | write (storeMoveBaseTree id from to) => id = pairId /\ treeMoved H from to
  | tell (scanned (Some s)) => exists H0 H1 m, H = event recall m :: H1 /\ scanned_all H0 H1 s
  | _ => True
  end.
End Permitted.

(** ** Facts that last *)

Class Lasts (K : History -> Prop) : Prop := lasts H ev : K H -> K (ev :: H).

#[export] Instance lasts_const (A : Prop) : Lasts (fun _ => A).
Proof. by intros H ev. Qed.
#[export] Instance lasts_and K J : Lasts K -> Lasts J -> Lasts (fun H => K H /\ J H).
Proof. intros HK HJ H ev [? ?]. split; by apply lasts. Qed.
#[export] Instance lasts_or K J : Lasts K -> Lasts J -> Lasts (fun H => K H \/ J H).
Proof. intros HK HJ H ev [?|?]; [left|right]; by apply lasts. Qed.
#[export] Instance lasts_exists {A} (K : A -> History -> Prop) :
  (forall a, Lasts (K a)) -> Lasts (fun H => exists a, K a H).
Proof. intros HK H ev [a Ha]. exists a. by apply (HK a). Qed.
#[export] Instance lasts_forall {A} (K : A -> History -> Prop) :
  (forall a, Lasts (K a)) -> Lasts (fun H => forall a, K a H).
Proof. intros HK H ev Ha a. by apply (HK a). Qed.
#[export] Instance lasts_impl (A : Prop) K : Lasts K -> Lasts (fun H => A -> K H).
Proof. intros HK H ev Ha HA. by apply lasts, Ha. Qed.
#[export] Instance lasts_happened e a : Lasts (fun H => happened H e a).
Proof. intros H ev Hh. by right. Qed.
#[export] Hint Extern 1 (Lasts (fun H => happened H ?e _)) =>
  apply (lasts_happened e) : typeclass_instances.
#[export] Instance lasts_sublist (H1 : History) : Lasts (sublist H1).
Proof. intros H ev Hs. by constructor. Qed.

Section Rules.
Context `{ER : EngineRuntime} `{PF : Platform} (ctx : PairContext).
#[local] Notation pairId := (pr_id (cx_pair ctx)).

#[export] Instance lasts_planSeen input : Lasts (fun H => planSeen ctx H input).
Proof.
  intros H ev [Hm (m & Hr & Hmem) Hl]. split; [done| |].
  - exists m. split; [by right|exact Hmem].
  - intros f Hf. destruct (Hl f Hf) as (stats & Hs & E). exists stats. split; [by right|done].
Qed.

#[export] Instance lasts_planned action : Lasts (fun H => planned ctx H action).
Proof. unfold planned. apply _. Qed.
#[export] Instance lasts_onceSaw rel now : Lasts (fun H => onceSaw H rel now).
Proof. unfold onceSaw. apply _. Qed.
#[export] Instance lasts_hashed local checksum : Lasts (fun H => hashed ctx H local checksum).
Proof. unfold hashed. apply _. Qed.
#[export] Instance lasts_uploaded input answer : Lasts (fun H => uploaded H input answer).
Proof. unfold uploaded. apply _. Qed.
#[export] Instance lasts_fetched id digest : Lasts (fun H => fetched H id digest).
Proof. unfold fetched. apply _. Qed.
#[export] Instance lasts_uploading replace : Lasts (fun H => uploading ctx H replace).
Proof. unfold uploading. apply _. Qed.

#[export] Instance lasts_downloading : Lasts (fun H => downloading ctx H).
Proof. unfold downloading. apply _. Qed.
#[export] Instance lasts_folderKnown rel id : Lasts (fun H => folderKnown ctx H rel id).
Proof. unfold folderKnown. apply _. Qed.
#[export] Instance lasts_putInto item parentId moved : Lasts (fun H => putInto H item parentId moved).
Proof. unfold putInto. apply _. Qed.
#[export] Instance lasts_named had item name renamed : Lasts (fun H => named H had item name renamed).
Proof. unfold named. apply _. Qed.
#[export] Instance lasts_broughtTo base to item : Lasts (fun H => broughtTo ctx H base to item).
Proof. unfold broughtTo. apply _. Qed.

Lemma lasts_app K (new H : History) `{!Lasts K} : K H -> K (new ++ H).
Proof. intros Hk. induction new as [|ev new IH]; [done|]. by apply lasts. Qed.

(** ** Rules *)

Definition keeps {A} (P K : History -> Prop) (t : Program A) (I : A -> History -> Prop) : Prop :=
  ensures (permitted ctx) P t
    (fun r H => K H /\ match r with Ok a => I a H | Throw _ => True end).

Definition nothing_more {A} : A -> History -> Prop := fun _ _ => True.

Lemma keeps_conseq {A} (P P' K K' : History -> Prop) (t : Program A) (I I' : A -> History -> Prop) :
  keeps P' K' t I' -> (forall H, P H -> P' H) -> (forall H, K' H -> K H) ->
  (forall a H, K' H -> I' a H -> I a H) -> keeps P K t I.
Proof.
  intros Ht HP HK HI. eapply ensures_conseq; [exact Ht|done|].
  intros [a|e] H [Hk Hi]; split; eauto.
Qed.

Lemma keeps_pre {A} (P P' K : History -> Prop) (t : Program A) I :
  keeps P' K t I -> (forall H, P H -> P' H) -> keeps P K t I.
Proof. intros Ht HP. by eapply keeps_conseq. Qed.

Lemma keeps_weak {A} (P K : History -> Prop) (t : Program A) I :
  keeps P P t I -> (forall H, P H -> K H) -> keeps P K t nothing_more.
Proof. intros Ht HK. by eapply keeps_conseq. Qed.

Lemma keeps_weak_from {A} (P K K' : History -> Prop) (t : Program A) I :
  keeps P K' t I -> (forall H, K' H -> K H) -> keeps P K t nothing_more.
Proof. intros Ht HK. by eapply keeps_conseq. Qed.

Lemma pass_ret {A} (P K : History -> Prop) (a : A) (I : A -> History -> Prop) :
  (forall H, P H -> K H /\ I a H) -> keeps P K (mret a) I.
Proof. intros HI. by apply ensures_ret. Qed.

Lemma pass_throw {A} (P K : History -> Prop) e (I : A -> History -> Prop) :
  (forall H, P H -> K H) -> keeps P K (throw e) I.
Proof. intros HK. apply ensures_throw. auto. Qed.

(** What [t] returns adds to what is known. *)
Lemma pass_bind {A B} (P K : History -> Prop) (t : Program A) (f : A -> Program B) J I :
  keeps P P t J -> (forall H, P H -> K H) ->
  (forall a, keeps (fun H => P H /\ J a H) K (f a) I) -> keeps P K (a ← t; f a) I.
Proof.
  intros Ht HK Hf. apply (ensures_bind _ _ _ _ (fun a H => P H /\ J a H)).
  - eapply ensures_conseq; [exact Ht|done|]. intros [a|e] H [Hp HJ]; [done|].
    split; [by apply HK|done].
  - exact Hf.
Qed.

Lemma pass_catch {A} (P K : History -> Prop) (t : Program A) h (I J : A -> History -> Prop) :
  keeps P P t J -> (forall a H, P H -> J a H -> K H /\ I a H) ->
  (forall e, keeps P K (h e) I) -> keeps P K (catch t h) I.
Proof.
  intros Ht HI Hh. apply (ensures_catch _ _ _ _ (fun _ H => P H)).
  - eapply ensures_conseq; [exact Ht|done|]. intros [a|e] H [Hp HJ]; auto.
  - exact Hh.
Qed.

Lemma keeps_finally {A} (K : History -> Prop) (t : Program A) f :
  keeps K K t nothing_more -> keeps K K f nothing_more -> keeps K K (finally t f) nothing_more.
Proof.
  intros Ht Hf. apply (ensures_finally _ _ _ _ (fun _ H => K H)).
  - eapply ensures_conseq; [exact Ht|done|]. by intros [a|e] H [Hk _].
  - intros r. eapply ensures_conseq; [exact Hf|done|]. intros [u|e] H [Hk _]; [|done].
    by destruct r.
Qed.

Lemma keeps_attempt {A} (P : History -> Prop) (t : Program A) I :
  keeps P P t I ->
  keeps P P (attempt t) (fun r H => match r with Ok a => I a H | Throw _ => True end).
Proof.
  intros Ht. unfold attempt.
  eapply (pass_catch P P _ _ _ (fun r H => match r with Ok a => I a H | Throw _ => True end));
    [|done|intros e; by apply pass_ret].
  eapply pass_bind; [exact Ht|done|]. intros a. apply pass_ret. by intros H [? ?].
Qed.

Lemma pass_forEach {A} (K : History -> Prop) (l : list A) f :
  (forall a, a ∈ l -> keeps K K (f a) nothing_more) -> keeps K K (forEach l f) nothing_more.
Proof.
  intros Hf. eapply ensures_conseq;
    [apply (ensures_forEach _ l f K (fun _ H => K H))|done|by intros [a|e] H Hk].
  intros a Ha. eapply ensures_conseq; [by apply Hf|done|]. by intros [u|e] H [Hk _].
Qed.

Lemma keeps_pool {A} (K : History -> Prop) (lanes : list (list A * nat)) work :
  (forall lane item, lane ∈ lanes -> item ∈ lane.1 -> keeps K K (work item) nothing_more) ->
  keeps K K (pool lanes work abort) nothing_more.
Proof.
  intros Hw. eapply ensures_conseq; [apply (ensures_pool _ lanes work abort K)|done|].
  - intros lane item Hl Hi. eapply ensures_conseq; [by apply (Hw lane item)|done|done].
  - by intros H.
  - by intros [u|e] H Hk.
Qed.

(** *** Effects *)

(** An effect that what is known permits; afterwards [P1] is what remains. *)
Lemma keeps_ask_from (P P1 : History -> Prop) e `{!Lasts P1} :
  (forall H, P H -> permitted ctx H e) -> (forall H, P H -> P1 H) ->
  keeps P P1 (ask e) (fun a H => happened H e a).
Proof.
  intros HG HP. apply ensures_ask; [done|]. intros H a Hp.
  split; [by apply lasts, HP|by left].
Qed.

Lemma keeps_settle {A} (P K : History -> Prop) (t : Program (result EngineError A)) J I :
  keeps P K t J -> (forall a H, K H -> J (Ok a) H -> I a H) -> keeps P K (settle t) I.
Proof.
  intros Ht HI. apply ensures_settle. eapply ensures_conseq; [exact Ht|done|].
  intros [[a|e]|e] H [Hk HJ]; split; auto.
Qed.

Lemma keeps_fs_from (P P1 : History -> Prop) call `{!Lasts P1} :
  (forall H, P H -> permitted ctx H (disk call)) -> (forall H, P H -> P1 H) ->
  keeps P P1 (fs call) (fun a H => happened H (disk call) (Ok a)).
Proof.
  intros HG HP.
  eapply (keeps_settle P P1 _ (fun a H => happened H (disk call) a)); [|by intros a H _ Hh].
  by apply (keeps_ask_from P P1 (disk call)).
Qed.

(** A last statement that answers nothing of interest. *)
Lemma keeps_fs_last (P P1 K : History -> Prop) call `{!Lasts P1} :
  (forall H, P H -> permitted ctx H (disk call)) -> (forall H, P H -> P1 H) ->
  (forall H, P1 H -> K H) -> keeps P K (fs call) nothing_more.
Proof. intros HG HP HK. eapply keeps_conseq; [by apply (keeps_fs_from P P1)|done..]. Qed.

Lemma keeps_http_from (P P1 : History -> Prop) call `{!Lasts P1} :
  (forall H, P H -> permitted ctx H (api call)) -> (forall H, P H -> P1 H) ->
  keeps P P1 (http call) (fun a H => happened H (api call) (Ok a)).
Proof.
  intros HG HP.
  eapply (keeps_settle P P1 _ (fun a H => happened H (api call) a)); [|by intros a H _ Hh].
  by apply (keeps_ask_from P P1 (api call)).
Qed.

Lemma keeps_bind_from {A B} (P P1 K : History -> Prop) (t : Program A) (f : A -> Program B) J I :
  keeps P P1 t J -> (forall H, P1 H -> K H) ->
  (forall a, keeps (fun H => P1 H /\ J a H) K (f a) I) -> keeps P K (a ← t; f a) I.
Proof.
  intros Ht HK Hf. apply (ensures_bind _ _ _ _ (fun a H => P1 H /\ J a H)).
  - eapply ensures_conseq; [exact Ht|done|]. intros [a|e] H [Hp HJ]; [done|].
    split; [by apply HK|done].
  - exact Hf.
Qed.

(** Effects that are always permitted. *)
Definition harmless (e : Effect) : Prop := forall H, permitted ctx H e.

Lemma keeps_ask (P : History -> Prop) e `{!Lasts P} :
  harmless e -> keeps P P (ask e) (fun a H => happened H e a).
Proof. intros Hh. by apply keeps_ask_from. Qed.

Lemma keeps_fs (P : History -> Prop) call `{!Lasts P} :
  harmless (disk call) -> keeps P P (fs call) (fun a H => happened H (disk call) (Ok a)).
Proof. intros Hh. by apply keeps_fs_from. Qed.

Lemma keeps_save (P : History -> Prop) w `{!Lasts P} :
  (forall H, P H -> permitted ctx H (write w)) -> keeps P P (save w) nothing_more.
Proof. intros HG. eapply (keeps_conseq P P P P _ (fun _ _ => True)); [|done..].
  eapply keeps_conseq; [by apply (keeps_ask_from P P (write w))|done..]. Qed.

Lemma keeps_say (P : History -> Prop) m `{!Lasts P} :
  (forall H, P H -> permitted ctx H (tell m)) -> keeps P P (say m) nothing_more.
Proof. intros HG. eapply (keeps_conseq P P P P _ (fun _ _ => True)); [|done..].
  eapply keeps_conseq; [by apply (keeps_ask_from P P (tell m))|done..]. Qed.

Lemma keeps_reading {A} (P : History -> Prop) (f : Memory -> A) `{!Lasts P} :
  keeps P P (reading f) (fun a H => exists m, happened H recall m /\ a = f m).
Proof.
  unfold reading. eapply pass_bind; [by apply (keeps_ask P recall)|done|]. intros m. apply pass_ret.
  intros H [Hp Hm]. eauto.
Qed.

(** *** Looking at a path *)

Lemma justSaw_once H rel now : justSaw H rel (Some now) -> onceSaw H rel now.
Proof.
  intros (r & H' & -> & Hr). destruct r as [stats|e]; [|by destruct Hr].
  exists stats. split; [by left|]. case_bool_decide; [done|]. by injection Hr.
Qed.

Lemma keeps_statLocal (P : History -> Prop) rel `{!Lasts P} :
  keeps P P (statLocal rel) (fun now H => justSaw H rel now).
Proof.
  intros H k Hp Hk. split; [exact I|]. intros r.
  assert (HP : P (event (disk (lstat rel)) r :: H)) by by apply lasts.
  destruct r as [stats|e].
  - apply Hk. split; [done|]. by exists (Ok stats), H.
  - destruct (opt_is (codeOf e) "ENOENT") eqn:E.
    + pose proof (Hk (Ok None) (event (disk (lstat rel)) (Throw e) :: H)) as Hk'.
      cbn. unfold attempt, catch, fs, settle, ask. cbn. rewrite E. cbn. apply Hk'. split; [done|].
      exists (Throw e), H. split; [done|]. split; [|done].
      unfold opt_is in E. destruct (codeOf e); [|done]. by apply bool_decide_eq_true_1 in E as ->.
    + cbn. rewrite E. apply Hk. by split.
Qed.

(** A scan, and what was known when it began. *)
Lemma keeps_scanLocal (P : History -> Prop) ignore leftOut depth `{!Lasts P} :
  keeps P P (scanLocal ignore leftOut depth) (fun s H => exists H0, P H0 /\ scanned_all H0 H s).
Proof.
  apply ensures_from. intros H0 Hp.
  eapply ensures_conseq; [apply ensures_scanLocal; by intros|done|].
  intros r H [(new & -> & _) Hr]. split; [by apply lasts_app|]. destruct r; [by exists H0|done].
Qed.
End Rules.

Create HintDb pass.
#[export] Hint Extern 0 (Lasts _) => exact _ : pass.

(** Follows a function statement by statement: what a statement returns is known
    in the next, functions with a lemma are looked up, tests are cases. *)
Ltac weaken := solve [intros; cbv beta in *; tauto].
Ltac fs_last :=
  lazymatch goal with |- keeps ?c ?P ?K (fs ?call) _ =>
    apply (keeps_fs_last c P P K call); try exact _; try done; try weaken end.
Ltac http_from :=
  lazymatch goal with |- keeps ?c ?P _ (http ?call) _ =>
    apply (keeps_http_from c P P call); try exact _; try done end.
Ltac leaf :=
  lazymatch goal with
  | |- keeps ?c ?P ?K (save ?w) _ => apply (keeps_save c P w); try exact _; intros; exact I
  | |- keeps ?c ?P ?K (fs ?call) _ => apply (keeps_fs c P call); try exact _; intros ?; exact I
  | |- _ => eauto 2 with pass
  end.
Ltac keep :=
  lazymatch goal with
  | |- keeps _ _ _ (mbind _ (match _ with _ => _ end)) _ =>
      eapply (pass_bind _ _ _ _ _ nothing_more); [keep|weaken|intros ?; keep]
  | |- keeps _ _ _ (mbind _ _) _ =>
      eapply pass_bind; [keep|weaken|intros ?; keep]
  | |- keeps _ _ _ (mret _) _ => apply pass_ret; try (intros; split; [tauto|exact I])
  | |- keeps _ _ _ (throw _) _ => apply pass_throw; weaken
  | |- keeps _ _ _ (match ?x with _ => _ end) _ => destruct x; keep
  | |- _ =>
      first [ solve [leaf]
            | lazymatch goal with |- keeps ?c ?P ?K _ _ =>
                solve [eapply (keeps_conseq c P P K P);
                         [leaf|weaken|weaken|intros; first [exact I|assumption]]] end
            | idtac ]
  end.

Section Facts.
Context `{ER : EngineRuntime} `{PF : Platform} (ctx : PairContext).
#[local] Notation pair := (cx_pair ctx).
#[local] Notation pairId := (pr_id (cx_pair ctx)).

(** ** Bookkeeping *)

Lemma keeps_updatePass P f `{!Lasts P} : keeps ctx P P (updatePass f) nothing_more.
Proof. by apply keeps_save. Qed.
Hint Resolve keeps_updatePass : pass.

Lemma keeps_issue P rel kind message source `{!Lasts P} :
  keeps ctx P P (issue ctx rel kind message source) nothing_more.
Proof. by apply keeps_updatePass. Qed.
Hint Resolve keeps_issue : pass.

Lemma keeps_say_resolved P rel `{!Lasts P} : keeps ctx P P (say (resolvedPath rel)) nothing_more.
Proof. by apply keeps_say. Qed.
Lemma keeps_say_activity P a `{!Lasts P} : keeps ctx P P (say (activity a)) nothing_more.
Proof. by apply keeps_say. Qed.
Lemma keeps_say_notify P title body `{!Lasts P} : keeps ctx P P (say (notify title body)) nothing_more.
Proof. by apply keeps_say. Qed.
Lemma keeps_say_waiting P w `{!Lasts P} : keeps ctx P P (say (waiting w)) nothing_more.
Proof. by apply keeps_say. Qed.
Lemma keeps_say_none P `{!Lasts P} : keeps ctx P P (say (scanned None)) nothing_more.
Proof. by apply keeps_say. Qed.
Hint Resolve keeps_say_resolved keeps_say_activity keeps_say_notify keeps_say_waiting keeps_say_none : pass.
Hint Resolve keeps_reading : pass.

Lemma keeps_dateNow P `{!Lasts P} : keeps ctx P P (ask dateNow) nothing_more.
Proof. eapply keeps_conseq; [by apply (keeps_ask ctx P dateNow)|done..]. Qed.
Lemma keeps_newDate P `{!Lasts P} : keeps ctx P P (ask newDate) nothing_more.
Proof. eapply keeps_conseq; [by apply (keeps_ask ctx P newDate)|done..]. Qed.
Lemma keeps_current P `{!Lasts P} : keeps ctx P P (ask current) nothing_more.
Proof. eapply keeps_conseq; [by apply (keeps_ask ctx P current)|done..]. Qed.
Lemma keeps_isAborted P `{!Lasts P} : keeps ctx P P (ask isAborted) nothing_more.
Proof. eapply keeps_conseq; [by apply (keeps_ask ctx P isAborted)|done..]. Qed.
Lemma keeps_randomUUID P `{!Lasts P} : keeps ctx P P (ask randomUUID) nothing_more.
Proof. eapply keeps_conseq; [by apply (keeps_ask ctx P randomUUID)|done..]. Qed.
Lemma keeps_recall P `{!Lasts P} : keeps ctx P P (ask recall) (fun m H => happened H recall m).
Proof. by apply (keeps_ask ctx P recall). Qed.
Lemma keeps_throttle P bytes received `{!Lasts P} :
  keeps ctx P P (settle (ask (throttle bytes received))) nothing_more.
Proof. eapply keeps_settle; [by apply (keeps_ask ctx P (throttle bytes received))|done]. Qed.
Hint Resolve keeps_dateNow keeps_newDate keeps_current keeps_isAborted keeps_randomUUID keeps_recall keeps_throttle : pass.

Lemma keeps_resolved P rel `{!Lasts P} : keeps ctx P P (resolved rel) nothing_more.
Proof. unfold resolved. keep. Qed.
Hint Resolve keeps_resolved : pass.

Lemma keeps_serverFullIssue P message `{!Lasts P} :
  keeps ctx P P (serverFullIssue ctx message) nothing_more.
Proof. unfold serverFullIssue. keep. Qed.
Hint Resolve keeps_serverFullIssue : pass.

Lemma keeps_remoteIdAt P rel `{!Lasts P} : keeps ctx P P (remoteIdAt ctx rel) nothing_more.
Proof. unfold remoteIdAt. keep. Qed.
Lemma keeps_setFolderId P rel id `{!Lasts P} : keeps ctx P P (setFolderId rel id) nothing_more.
Proof. by apply keeps_updatePass. Qed.
Hint Resolve keeps_remoteIdAt keeps_setFolderId : pass.

Lemma keeps_tolerate P thrown rel size `{!Lasts P} :
  keeps ctx P P (tolerate ctx thrown rel size) nothing_more.
Proof. unfold tolerate. keep. Qed.
Hint Resolve keeps_tolerate : pass.

Lemma keeps_hashFile P rel `{!Lasts P} :
  keeps ctx P P (hashFile rel) (fun checksum H => exists content,
    happened H (disk (readFile rel)) (Ok content) /\ checksum = sha256 content).
Proof.
  unfold hashFile. eapply pass_bind; [by apply (keeps_fs ctx P (readFile rel))|done|]. intros content.
  apply pass_ret. intros H [Hp Hh]. eauto.
Qed.

Lemma keeps_checksumFor P entry `{!Lasts P} :
  keeps ctx P P (checksumFor ctx entry) (fun checksum H => hashed ctx H entry checksum).
Proof.
  unfold checksumFor. eapply pass_bind; [by apply keeps_reading|done|]. intros [checksum|].
  - apply pass_ret. intros H (Hp & m & Hm & E). split; [done|]. right. eauto.
  - eapply pass_bind; [apply keeps_hashFile, _|weaken|]. intros checksum.
    eapply (pass_bind _ _ _ _ _ nothing_more); [keep|weaken|]. intros u.
    apply pass_ret. intros H ((Hp & c & Hc & E) & _). split; [tauto|]. left. eauto.
Qed.
Hint Resolve keeps_checksumFor : pass.

(** ** Activities *)

Lemma keeps_sayAll P (l : list Activity) (f : Activity -> Activity) `{!Lasts P} :
  keeps ctx P P (forEach l (fun each => say (activity (f each)))) nothing_more.
Proof. apply pass_forEach. intros a _. by apply keeps_say. Qed.

Lemma keeps_track P rel direction bytes `{!Lasts P} :
  keeps ctx P P (track ctx rel direction bytes) nothing_more.
Proof. unfold track. keep. Qed.

Lemma keeps_countBytes P rel bytes `{!Lasts P} :
  keeps ctx P P (countBytes rel bytes) nothing_more.
Proof. unfold countBytes. keep. eapply keeps_weak; [apply (keeps_sayAll _ _ id)|weaken]. Qed.

Lemma keeps_finish P rel `{!Lasts P} : keeps ctx P P (finish rel) nothing_more.
Proof.
  unfold finish. keep. 
  eapply keeps_weak; [apply (keeps_sayAll _ _ (inState done_transfer _))|weaken].
Qed.
Hint Resolve keeps_track keeps_countBytes keeps_finish : pass.

(** ** Transfers *)

Lemma isTemp_beside target uuid : isTemp (tempBeside target uuid).
Proof. by exists target, uuid. Qed.
Hint Resolve isTemp_beside : core.

(** What is known lets a download write its temporary file. *)
Definition mayDownload (P : History -> Prop) : Prop := forall H, P H -> downloading ctx H.

Lemma mayDownload_and P (J : History -> Prop) : mayDownload P -> mayDownload (fun H => P H /\ J H).
Proof. intros Hd H [Hp _]. by apply Hd. Qed.
Hint Resolve mayDownload_and : pass.

(** A callback that only counts. *)
Definition counts (onBytes : Z -> Program unit) : Prop :=
  forall P n, Lasts P -> keeps ctx P P (onBytes n) nothing_more.

Lemma counts_nothing : counts (fun _ => mret tt).
Proof. intros P n HP. by apply pass_ret. Qed.
Lemma counts_countBytes rel : counts (countBytes rel).
Proof. intros P n HP. by apply keeps_countBytes. Qed.

Lemma keeps_removePath P temp `{!Lasts P} :
  mayDownload P -> isTemp temp -> keeps ctx P P (fs (removePath temp)) nothing_more.
Proof.
  intros Hd Ht. fs_last. intros H Hp. split; [done|by apply Hd].
Qed.

Lemma keeps_receiveChunks P temp onBytes chunks `{!Lasts P} :
  mayDownload P -> isTemp temp -> counts onBytes ->
  keeps ctx P P (receiveChunks temp onBytes chunks) nothing_more.
Proof.
  intros Hd Ht Ho. apply pass_forEach. intros chunk _.
  eapply (keeps_bind_from _ _ P); [by apply Ho|done|]. intros u. keep.
  apply (keeps_fs_last ctx _ P); [done|intros H Hp; split; [done|apply Hd; tauto]|weaken|done].
Qed.

Lemma mismatch_false input digest received c :
  mismatch input digest received = false -> di_checksum input = Some c -> c <> "" -> digest = c.
Proof.
  unfold mismatch. intros Hm E. rewrite E in Hm. case_bool_decide; [done|]. intros _.
  apply negb_false_iff in Hm. by apply bool_decide_eq_true_1 in Hm.
Qed.

Lemma keeps_downloadToTemp P input onBytes `{!Lasts P} :
  mayDownload P -> counts onBytes ->
  keeps ctx P P (downloadToTemp input onBytes) (fun d H =>
    isTemp d.1 /\ fetched H (di_fileId input) d.2 /\
    forall c, di_checksum input = Some c -> c <> "" -> d.2 = c).
Proof.
  intros Hd Ho. unfold downloadToTemp.
  eapply keeps_bind_from; [by apply keeps_randomUUID|done|]. intros uuid.
  set (temp := tempBeside (di_target input) uuid).
  eapply (keeps_pre ctx _ P); [|weaken].
  eapply pass_catch; [|intros a H Hp HI; split; [exact Hp|exact HI]|].
  2:{ intros e. eapply pass_bind; [apply keeps_removePath; [done|done|]|done|].
      - apply isTemp_beside.
      - intros u. apply pass_throw. weaken. }
  eapply pass_bind; [http_from|done|]. intros body.
  eapply (pass_bind _ _ _ _ _ nothing_more); [|weaken|intros u].
  { fs_last. intros H Hp. split; [apply isTemp_beside|apply Hd; tauto]. }
  eapply (pass_bind _ _ _ _ _ nothing_more); [|weaken|intros u'].
  { apply keeps_receiveChunks; [exact _|by repeat apply mayDownload_and|apply isTemp_beside|done]. }
  destruct (db_error body) eqn:Ee.
  { eapply (pass_bind _ _ _ _ _ (fun _ _ => False)); [by apply pass_throw|weaken|].
    intros ?. intros H k [_ []]. }
  eapply (pass_bind _ _ _ _ _ nothing_more); [by apply pass_ret|weaken|intros u''].
  destruct (mismatch input _ _) eqn:Em.
  { eapply (pass_bind _ _ _ _ _ (fun _ _ => False)); [by apply pass_throw|weaken|].
    intros ?. intros H k [_ []]. }
  eapply (pass_bind _ _ _ _ _ nothing_more); [by apply pass_ret|weaken|intros u3].
  eapply (pass_bind _ _ _ _ _ nothing_more); [|weaken|intros u4].
  { destruct (di_modifiedAt input); [|by apply pass_ret].
    fs_last. intros H Hp. split; [apply isTemp_beside|apply Hd; tauto]. }
  apply pass_ret. intros H Hp. split; [tauto|]. cbn [fst snd]. split; [apply isTemp_beside|].
  split; [exists body; tauto|]. intros c Hc. by apply (mismatch_false input _ _ c Em).
Qed.

Lemma keeps_moveIntoPlace P K temp target `{!Lasts K} :
  mayDownload K -> isTemp temp -> (forall H, P H -> renameAllowed ctx H temp target) -> (forall H, P H -> K H) ->
  keeps ctx P K (moveIntoPlace temp target)
    (fun _ H => happened H (disk (renamePath temp target)) (Ok tt)).
Proof.
  intros Hd Ht HG HK. unfold moveIntoPlace.
  apply (ensures_catch _ _ _ _ (fun _ H => K H)).
  - eapply ensures_conseq; [by apply (keeps_fs_from ctx P K (renamePath temp target))|done|].
    by intros [[]|e] H [Hk Hh].
  - intros e. eapply pass_bind; [by apply keeps_removePath|done|]. intros u.
    apply pass_throw. weaken.
Qed.

(** *** Uploads *)

Definition mayUpload (P : History -> Prop) (input : UploadInput) : Prop :=
  forall H, P H -> uploading ctx H (ui_replace input).

Lemma mayUpload_and P (J : History -> Prop) input :
  mayUpload P input -> mayUpload (fun H => P H /\ J H) input.
Proof. intros Hu H [Hp _]. by apply Hu. Qed.

Lemma keeps_http_last P call `{!Lasts P} :
  (forall H, P H -> permitted ctx H (api call)) -> keeps ctx P P (http call) nothing_more.
Proof. intros HG. eapply keeps_conseq; [by apply (keeps_http_from ctx P P call)|done..]. Qed.

Ltac http_last :=
  lazymatch goal with |- keeps _ ?P _ (http ?call) _ =>
    apply (keeps_http_last P call); try exact _ end.

Lemma keeps_forgetPending P input pending `{!Lasts P} :
  mayUpload P input -> keeps ctx P P (forgetPending input pending) nothing_more.
Proof.
  intros Hu. unfold forgetPending.
  eapply (pass_bind _ _ _ _ _ nothing_more); [|done|intros u; keep].
  eapply pass_catch; [http_last|done|intros e; by apply pass_ret].
  intros H Hp. exists (ui_replace input). by apply Hu.
Qed.

Lemma keeps_pendingOf P input `{!Lasts P} : keeps ctx P P (pendingOf input) nothing_more.
Proof. unfold pendingOf. keep. Qed.
Hint Resolve keeps_pendingOf : pass.

Lemma keeps_status P input id `{!Lasts P} :
  mayUpload P input -> keeps ctx P P (http (uploadStatus id)) nothing_more.
Proof.
  intros Hu. http_last. intros H Hp. exists (ui_replace input). by apply Hu.
Qed.

(** The session the store remembers, if the server still has it. *)
Lemma keeps_remembered P input id `{!Lasts P} :
  mayUpload P input ->
  keeps ctx P P
    (catch (s ← http (uploadStatus id); mret (Some s))
       (fun e => match e with
                 | ApiError 404 _ _ _ =>
                     _ ← save (storeDeleteUpload (ui_pairId input) (ui_rel input)); mret None
                 | _ => throw e
                 end)) nothing_more.
Proof.
  intros Hu. eapply (pass_catch _ _ _ _ _ _ nothing_more); [|done|].
  - eapply (pass_bind _ _ _ _ _ nothing_more); [by apply (keeps_status _ input)|done|].
    intros s. apply pass_ret. by intros H [].
  - intros e. keep.
Qed.

Lemma keeps_openSession P input `{!Lasts P} :
  mayUpload P input -> keeps ctx P P (openSession input) nothing_more.
Proof.
  intros Hu. unfold openSession. eapply pass_bind; [by apply keeps_pendingOf|done|]. intros pending.
  eapply (pass_bind _ _ _ _ _ nothing_more); [|weaken|intros pending'].
  { destruct pending as [p|]; [|by apply pass_ret]. destruct (pendingStale input p); [|by apply pass_ret].
    eapply (pass_bind _ _ _ _ _ nothing_more); [|done|intros u; apply pass_ret; by intros H []].
    apply keeps_forgetPending; [exact _|]. by apply mayUpload_and. }
  eapply (pass_bind _ _ _ _ _ nothing_more); [|weaken|intros session].
  { destruct pending' as [p|]; [|by apply pass_ret].
    apply keeps_remembered; [exact _|]. by repeat apply mayUpload_and. }
  destruct session as [s|]; [apply pass_ret; intros H Hp; split; [tauto|done]|].
  eapply (pass_bind _ _ _ _ _ nothing_more); [|weaken|intros s; keep].
  http_last. intros H Hp. cbn. apply Hu. tauto.
Qed.

Lemma keeps_sendChunk P input session chunkSize onBytes start `{!Lasts P} :
  mayUpload P input -> counts onBytes ->
  keeps ctx P P (sendChunk input session chunkSize onBytes start) nothing_more.
Proof.
  intros Hu Ho. unfold sendChunk. cbv zeta. eapply pass_bind; [by apply keeps_isAborted|done|]. intros [].
  { eapply (pass_bind _ _ _ _ _ (fun _ _ => False)); [by apply pass_throw|weaken|].
    intros ?. intros H k [_ []]. }
  eapply (pass_bind _ _ _ _ _ nothing_more); [by apply pass_ret|weaken|intros u].
  eapply pass_bind; [keep|weaken|intros buffer].
  eapply (pass_bind _ _ _ _ _ nothing_more); [keep|weaken|intros u2].
  eapply (pass_bind _ _ _ _ _ nothing_more); [keep|weaken|intros u3].
  eapply (pass_bind _ _ _ _ _ nothing_more); [|weaken|intros u4].
  { http_last. intros H Hp. exists (ui_replace input). apply Hu. tauto. }
  eapply keeps_weak; [apply Ho; exact _|weaken].
Qed.

Lemma keeps_sendFile P input onBytes `{!Lasts P} :
  mayUpload P input -> counts onBytes ->
  keeps ctx P P (sendFile input onBytes) (fun answer H => uploaded H input answer).
Proof.
  intros Hu Ho. unfold sendFile. cbv zeta.
  eapply pass_bind; [by apply keeps_openSession|done|]. intros session.
  eapply (pass_bind _ _ _ _ _ nothing_more); [apply Ho; exact _|weaken|intros u].
  eapply (pass_bind _ _ _ (fs (openFile (ui_rel input))) _ nothing_more); [keep|weaken|intros u2].
  eapply (pass_bind _ _ _ _ _ nothing_more); [|weaken|intros u3].
  { apply keeps_finally; [|keep]. apply keeps_pool. intros lane item _ _.
    apply keeps_sendChunk; [exact _|by repeat apply mayUpload_and|done]. }
  eapply pass_bind; [http_from; intros H Hp; cbn; apply Hu; tauto|weaken|]. intros answer.
  eapply (pass_bind _ _ _ _ _ nothing_more); [keep|weaken|intros u4].
  apply pass_ret. intros H Hp. split; [tauto|]. right. exists (us_id session). tauto.
Qed.

Lemma keeps_sendSmall P input onBytes `{!Lasts P} :
  mayUpload P input -> counts onBytes ->
  keeps ctx P P (sendSmall input onBytes) (fun answer H => uploaded H input answer).
Proof.
  intros Hu Ho. unfold sendSmall. eapply pass_bind; [by apply keeps_pendingOf|done|]. intros pending.
  eapply (pass_bind _ _ _ _ _ nothing_more); [|weaken|intros u].
  { destruct pending; [|by apply pass_ret]. apply keeps_forgetPending; [exact _|].
    by apply mayUpload_and. }
  eapply pass_bind; [keep|weaken|intros body].
  destruct (bool_decide (byteLength body = ui_size input)) eqn:Hlen; [apply bool_decide_eq_true_1 in Hlen|].
  2:{ eapply (pass_bind _ _ _ _ _ (fun _ _ => False)); [by apply pass_throw|weaken|].
      intros ?. intros H k [_ []]. }
  eapply (pass_bind _ _ _ _ _ nothing_more); [by apply pass_ret|weaken|intros u2].
  eapply pass_bind; [keep|weaken|intros []].
  { eapply (pass_bind _ _ _ _ _ (fun _ _ => False)); [by apply pass_throw|weaken|].
    intros ?. intros H k [_ []]. }
  eapply (pass_bind _ _ _ _ _ nothing_more); [by apply pass_ret|weaken|intros u3].
  eapply (pass_bind _ _ _ _ _ nothing_more); [keep|weaken|intros u4].
  eapply pass_bind; [http_from; intros H Hp; cbn; apply Hu; tauto|weaken|]. intros answer.
  eapply (pass_bind _ _ _ _ _ nothing_more); [|weaken|intros u5].
  { case_bool_decide; [apply Ho; exact _|by apply pass_ret]. }
  apply pass_ret. intros H Hp. split; [tauto|]. left. exists body. tauto.
Qed.

Lemma keeps_uploadFile P input onBytes `{!Lasts P} :
  mayUpload P input -> counts onBytes ->
  keeps ctx P P (uploadFile input onBytes) (fun answer H => uploaded H input answer).
Proof.
  intros Hu Ho. unfold uploadFile. case_bool_decide; [by apply keeps_sendSmall|by apply keeps_sendFile].
Qed.
End Facts.
