(* ===== verification/PassPromises.v ===== *)
(** * What a pass may do, and what it promises

    A lemma per handler of [pair-sync.ts]: carrying out a planned action is
    permitted, whatever the answers.

    The rounds of [syncPair] carry out plans made from what the round read, so
    every effect of every interleaving of a pass is [permitted]. From that and
    the safety of plans follow the promises of a pass. In any run, whatever the
    disk and the server answer and however the transfers interleave: one-way
    pairs leave the other side alone, nothing is overwritten or deleted but what
    was agreed on and last seen unchanged, the saved base records only what
    happened, and a scan misses nothing. *)

From S2P Require Import Prelude SyncTypes Plan PlanFacts PlanSafety SyncStore RemoteTree Async EngineIo LocalScan Transfer PairSync PassGuard.

Open Scope Z_scope.

Section Handlers.
Context `{ER : EngineRuntime} `{PF : Platform} (ctx : PairContext).
#[local] Notation pair := (cx_pair ctx).
#[local] Notation pairId := (pr_id (cx_pair ctx)).

#[local] Hint Resolve keeps_updatePass keeps_issue keeps_say_resolved keeps_say_activity
  keeps_say_notify keeps_say_waiting keeps_say_none keeps_reading keeps_dateNow keeps_newDate
  keeps_current keeps_isAborted keeps_randomUUID keeps_recall keeps_throttle keeps_resolved
  keeps_serverFullIssue keeps_remoteIdAt keeps_setFolderId keeps_tolerate keeps_checksumFor
  keeps_track keeps_finish counts_nothing counts_countBytes : pass.

(** What was seen of a path, without the moment. *)
Lemma keeps_statOnce P rel `{!Lasts P} :
  keeps ctx P P (statLocal rel) (fun now H => forall n, now = Some n -> onceSaw H rel n).
Proof.
  eapply keeps_conseq; [by apply keeps_statLocal|done..|].
  intros now H Hp Hj n ->. by apply justSaw_once in Hj.
Qed.
Hint Resolve keeps_statOnce : pass.

Lemma keeps_putBase P K rel local remote checksum `{!Lasts P} :
  (forall H, P H -> witnessed ctx H (baseRow ctx rel local remote checksum)) ->
  (forall H, P H -> K H) -> keeps ctx P K (savePutBase ctx rel local remote checksum) nothing_more.
Proof.
  intros Hw HK. eapply (keeps_conseq ctx P P K P); [|done|done|done].
  by apply (keeps_save ctx P (storePutBase (baseRow ctx rel local remote checksum))).
Qed.

Lemma keeps_true P K `{!Lasts P} : (forall H, P H -> K H) ->
  keeps ctx P K (mret true) nothing_more.
Proof. intros HK. apply pass_ret. intros H Hp. split; [by apply HK|done]. Qed.

(** A statement that saves a row, and the answer after it. *)
Ltac put_base :=
  eapply (pass_bind _ _ _ _ _ nothing_more);
    [eapply keeps_putBase; [exact _| |weaken]|weaken|intros ?].

(** A call that what was just seen permits; [P1] is what lasts of it. *)
Ltac do_fs P1 :=
  lazymatch goal with |- keeps ?c ?P ?K (mbind ?f (fs ?call)) _ =>
    eapply (keeps_bind_from c P P1 K (fs call) f (fun a H => happened H (disk call) (Ok a)));
      [apply (keeps_fs_from c P P1 call); try exact _; try weaken|try weaken|] end.
Ltac do_http P1 :=
  lazymatch goal with |- keeps ?c ?P ?K (mbind ?f (http ?call)) _ =>
    eapply (keeps_bind_from c P P1 K (http call) f (fun a H => happened H (api call) (Ok a)));
      [apply (keeps_http_from c P P1 call); try exact _; try weaken|try weaken|] end.

Definition handles (action : Action) : Prop :=
  forall K, Lasts K -> (forall H, K H -> planned ctx H action) ->
    keeps ctx K K (handle ctx action) nothing_more.

Lemma handles_link rel local remote : handles (link rel local remote).
Proof.
  intros K HK Hp. cbn [handle]. put_base; [|keep]. intros H Hk. by apply by_linking, Hp.
Qed.

Lemma handles_forget rel : handles (forget rel).
Proof. intros K HK Hp. cbn [handle]. keep. Qed.

Lemma handles_moveLocal from to remote : handles (move_local from to remote).
Proof.
  intros K HK Hp. cbn [handle]. unfold moveLocal.
  eapply pass_bind; [by apply keeps_statLocal|done|]. intros [now|]; [keep|].
  do_fs K.
  { intros H [Hk Hj]. apply (rename_moves _ _ _ _ remote); [by apply Hp|done]. }
  intros []. eapply (pass_bind _ _ _ _ _ nothing_more); [|weaken|intros u].
  { apply keeps_save; [exact _|]. intros H [Hk Hh]. split; [done|].
    by apply (moved_here ctx H from to remote); [apply Hp|]. }
  eapply pass_bind; [keep|weaken|intros arrived].
  eapply pass_bind; [keep|weaken|intros previous].
  destruct arrived as [now|]; [|keep]. destruct previous as [row|]; [|keep].
  put_base; [|keep]. intros H ((((Hk & Hh) & _) & Hs) & m & Hm & E). symmetry in E.
  apply find_some in E as [Hin Hrel]. apply bool_decide_eq_true_1 in Hrel.
  apply (by_moving_here ctx H from to remote now row); [by apply Hp|done|by apply Hs| |done].
  exists m. split; [done|]. by apply list_elem_of_In.
Qed.

Lemma handles_mkdir rel remote : handles (mkdir rel remote).
Proof.
  intros K HK Hp. cbn [handle]. unfold mkdirLocal.
  do_fs K.
  { intros H Hk. left. exists remote. by apply Hp. }
  intros []. eapply pass_bind; [keep|weaken|intros made].
  eapply (pass_bind _ _ _ _ _ nothing_more); [keep|weaken|intros u].
  destruct made as [made|]; [|keep]. put_base; [|keep].
  intros H (((Hk & Hh) & Hs) & _). apply by_making_here; [by apply Hp|done|by apply Hs].
Qed.

Lemma handles_createRemoteFolder rel local : handles (create_remote_folder rel local).
Proof.
  intros K HK Hp. cbn [handle]. unfold createRemoteFolder.
  eapply pass_bind; [by apply keeps_remoteIdAt|done|]. intros [parentId|]; [|keep].
  do_http K.
  { intros H [Hk _]. exists rel, local. split; [by apply Hp|done]. }
  intros answer. eapply (pass_bind _ _ _ _ _ nothing_more); [keep|weaken|intros u].
  eapply (pass_bind _ _ _ _ _ nothing_more); [keep|weaken|intros u2].
  put_base; [|keep]. intros H (((Hk & Hh) & _) & _).
  by apply (by_making_there ctx H rel local parentId); [apply Hp|].
Qed.

Lemma handles_trashLocal rel local : handles (trash_local rel local).
Proof.
  intros K HK Hp. cbn [handle]. unfold trashLocal.
  eapply pass_bind; [by apply keeps_statLocal|done|]. intros [now|].
  2:{ eapply (keeps_pre ctx _ K); [|weaken]. keep. }
  destruct (bool_decide _ && _) eqn:Eb; [keep|].
  do_fs K.
  { intros H [Hk Hj]. exists local, now. split; [by apply Hp|]. split; [done|]. intros Hf.
    rewrite bool_decide_eq_true_2 in Eb by done. cbn in Eb. apply negb_false_iff in Eb.
    by apply sameStat_eq in Eb. }
  intros u. keep.
Qed.

Lemma handles_trashRemote rel remote : handles (trash_remote rel remote).
Proof.
  intros K HK Hp. cbn [handle]. unfold trashRemote.
  eapply pass_bind; [by apply keeps_statLocal|done|]. intros [now|]; [keep|].
  eapply (keeps_bind_from ctx _ K _ _ _ nothing_more); [|done|intros u; keep].
  case_bool_decide as Ht.
  - eapply keeps_weak_from; [apply (keeps_http_from ctx _ K (trashFile (ri_id remote) (ri_rev remote)));
      try exact _; try weaken|done].
    intros H [Hk Hj]. exists rel, remote. split; [by apply Hp|done].
  - eapply keeps_weak_from; [apply (keeps_http_from ctx _ K (trashFolder (ri_id remote) (ri_rev remote)));
      try exact _; try weaken|done].
    intros H [Hk Hj]. exists rel, remote. split; [by apply Hp|done].
Qed.

(** ** Moves on the server *)

Definition mayMove (P : History -> Prop) : Prop := forall H, P H ->
  exists from to base local, planned ctx H (move_remote from to base local).

Lemma keeps_folderKnown P rel `{!Lasts P} :
  keeps ctx P P (remoteIdAt ctx rel) (fun id H => forall parentId, id = Some parentId ->
    folderKnown ctx H rel parentId).
Proof.
  unfold remoteIdAt. case_bool_decide as Hr.
  - apply pass_ret. intros H Hp. split; [done|]. intros id [= <-]. by left.
  - eapply keeps_conseq; [by apply keeps_reading|done|done|].
    intros id H _ (m & Hm & E) parentId Hi. right. exists m. by rewrite <- E.
Qed.

Lemma keeps_moveItem P item parentId `{!Lasts P} :
  mayMove P -> keeps ctx P P (moveItem item parentId) (fun moved H => putInto H item parentId moved).
Proof.
  intros Hm. unfold moveItem. case_bool_decide as Hf; (do_http P; [exact Hm|]);
    intros answer; apply pass_ret; intros H [Hp Hh]; split; [done| |done|];
    right; [left|right]; by exists answer.
Qed.

Lemma keeps_renameItem P isFile had item name `{!Lasts P} :
  mayMove P -> keeps ctx P P (renameItem isFile item name) (fun renamed H => named H had item name renamed).
Proof.
  intros Hm. unfold renameItem. destruct isFile; (do_http P; [exact Hm|]);
    intros answer; apply pass_ret; intros H [Hp Hh]; split; [done| |done|];
    right; [left|right]; by exists answer.
Qed.

(** A call on the server's item, and its answer in the tree. *)
Lemma keeps_treeSet P (t : Program RemoteItem) I `{!Lasts P} :
  (forall item, Lasts (I item)) -> keeps ctx P P t I ->
  keeps ctx P P (item ← t; _ ← save (treeSet item); mret item) I.
Proof.
  intros HI Ht. eapply pass_bind; [exact Ht|done|]. intros moved.
  eapply (pass_bind _ _ _ _ _ nothing_more); [|by intros H []|intros u].
  { apply keeps_save; [exact _|done]. }
  apply pass_ret. by intros H [[]].
Qed.

Lemma handles_moveRemote from to base local : handles (move_remote from to base local).
Proof.
  intros K HK Hp. cbn [handle]. unfold moveRemote.
  assert (Hmay : forall P : History -> Prop, (forall H, P H -> K H) -> mayMove P)
    by (intros P HP H Hh; do 4 eexists; by apply Hp, HP).
  eapply pass_bind; [keep|done|]. intros [known|]; [|keep].
  eapply pass_bind; [apply keeps_folderKnown, _|weaken|]. intros [parentId|]; [|keep].
  cbv zeta.
  eapply (pass_bind _ _ _ _ _ (fun moved H => putInto H known parentId moved)); [|weaken|intros moved].
  { case_bool_decide as Hc; [apply pass_ret; intros H Hh; split; [exact Hh|by left]|].
    apply keeps_treeSet; [exact _|exact _|]. apply keeps_moveItem; [exact _|apply Hmay; weaken]. }
  eapply (pass_bind _ _ _ _ _ (fun item H => named H (ri_name known) moved (baseName to) item));
    [|weaken|intros item].
  { case_bool_decide as Hc; [apply pass_ret; intros H Hh; split; [exact Hh|by left]|].
    apply keeps_treeSet; [exact _|exact _|]. apply keeps_renameItem; [exact _|apply Hmay; weaken]. }
  eapply (keeps_pre ctx _ (fun H => K H /\ broughtTo ctx H base to item)).
  2:{ intros H ((((Hk & m & Hm & E) & Hf) & Hput) & Hn). split; [done|].
      exists m, known, parentId, moved. split_and!; try done. by apply Hf. }
  eapply (pass_bind _ _ _ _ _ nothing_more); [|by intros H []|intros u].
  { apply keeps_save; [exact _|]. intros H [Hk Hb]. split; [done|].
    by apply (moved_there ctx H from to base local item); [apply Hp|]. }
  eapply (pass_bind _ _ _ _ _ nothing_more); [eapply keeps_putBase; [exact _| |weaken]|weaken|intros u2].
  - intros H [[Hk Hb] _]. by apply (by_moving_there ctx H from to base local item); [apply Hp|].
  - apply pass_ret. by intros H [[[]]].
Qed.

(** ** Copies *)

Lemma conflictCopyName_free fuel rel device date taken copyRel :
  conflictCopyName fuel rel device date taken = Some copyRel -> taken copyRel = false.
Proof.
  unfold conflictCopyName. generalize 1%nat. induction fuel as [|fuel IH]; intros n; [done|].
  cbn. destruct (taken (conflictCandidate rel device date n)) eqn:E; [apply IH|]. by intros [= <-].
Qed.

Lemma keeps_bind_ask {A} (P K : History -> Prop) e (f : Answer e -> Program A) I :
  harmless ctx e -> (forall a, keeps ctx (fun H => exists H1, H = event e a :: H1 /\ P H1) K (f a) I) ->
  keeps ctx P K (a ← ask e; f a) I.
Proof.
  intros Hh Hf H k Hp Hk. split; [apply Hh|]. intros a. apply (Hf a); [by exists H|done].
Qed.

Lemma keeps_copyRelFor P rel now `{!Lasts P} :
  (forall H, P H -> onceSaw H rel now) ->
  keeps ctx P P (copyRelFor ctx rel) (fun copyRel H => freshName H rel now copyRel).
Proof.
  intros Hs. unfold copyRelFor. cbv zeta.
  eapply pass_bind; [by apply keeps_scanLocal|done|]. intros s.
  apply keeps_bind_ask; [by intros H|]. intros date.
  destruct (conflictCopyName _ _ _ _ _) as [copyRel|] eqn:E.
  2:{ apply pass_throw. intros H (H1 & -> & Hp & _). by apply lasts. }
  apply conflictCopyName_free in E. apply bool_decide_eq_false_1 in E.
  apply pass_ret. intros H (H1 & -> & Hp & H0 & Hp0 & Hsc). split; [by apply lasts|].
  exists date, s, H0, H1. split_and!; [done|done|by apply Hs|]. unfold rels. by rewrite fmap_app.
Qed.

(** The server's version is fetched and compared. *)
Lemma keeps_compare K rel local localOnly unverified now `{!Lasts K} :
  (forall H, K H -> planned ctx H (conflict_copy rel local localOnly unverified)) ->
  (forall H, K H -> onceSaw H rel now) -> localStat now = lf_stat local ->
  keeps ctx K K
    match unverified with
    | None => mret false
    | Some u =>
        d ← downloadToTemp
              {| di_fileId := ri_id (uv_remote u); di_target := rel; di_checksum := None;
                 di_size := ri_size (uv_remote u); di_modifiedAt := None |} (fun _ => mret tt);
        _ ← fs (removePath d.1);
        if bool_decide (uv_checksum u = Some d.2)
        then _ ← savePutBase ctx rel now (uv_remote u) (Some d.2); mret true
        else mret false
    end nothing_more.
Proof.
  intros Hp Hs Hst. destruct unverified as [u|]; [|keep].
  eapply pass_bind; [apply keeps_downloadToTemp; [exact _| |by apply counts_nothing]|done|].
  { intros H Hk. right. exists rel, local, localOnly, u. by apply Hp. }
  intros [temp digest]. cbn [fst snd di_fileId di_checksum].
  eapply (keeps_bind_from ctx _ (fun H => K H /\ fetched H (ri_id (uv_remote u)) digest) _ _ _ nothing_more);
    [|weaken|intros v].
  { eapply keeps_weak_from; [apply (keeps_fs_from ctx _
      (fun H => K H /\ fetched H (ri_id (uv_remote u)) digest) (removePath temp)); try exact _|done].
    - intros H (Hk & Ht & _). split; [done|]. right. exists rel, local, localOnly, u. by apply Hp.
    - intros H (Hk & _ & Hf & _). by split. }
  case_bool_decide as Hd; [|keep]. put_base; [|keep].
  intros H ((Hk & Hf) & _). apply (by_comparing ctx H rel local localOnly u now digest); eauto.
Qed.

Lemma handles_conflictCopy rel local localOnly unverified :
  handles (conflict_copy rel local localOnly unverified).
Proof.
  intros K HK Hp. cbn [handle]. unfold conflictCopy.
  eapply pass_bind; [keep|done|]. intros [now|]; [|keep].
  destruct (negb _) eqn:Eb; [keep|]. apply negb_false_iff, sameStat_eq in Eb.
  set (P1 := fun H => K H /\ onceSaw H rel now).
  eapply (keeps_pre ctx _ P1); [|intros H [Hk Hs]; split; [done|by apply Hs]].
  assert (HP1 : Lasts P1) by (unfold P1; apply _).
  assert (HK1 : forall H, P1 H -> K H) by by intros H [].
  eapply (pass_bind _ _ _ _ _ nothing_more);
    [apply (keeps_compare P1 rel local localOnly unverified now)|done|].
  { intros H [Hk _]. by apply Hp. }
  { by intros H []. }
  { exact Eb. }
  intros []; [apply pass_ret; intros H [[] _]; done|].
  eapply pass_bind; [apply (keeps_copyRelFor _ _ now); by intros H [[]]|by intros H [[]]|].
  intros copyRel. do_fs K.
  { intros H (([Hk Hs] & _) & Hf).
    by apply (rename_keeps _ _ _ _ local localOnly unverified now); [apply Hp|..]. }
  { by intros H [[[]]]. }
  intros u. eapply (pass_bind _ _ _ _ _ nothing_more); [|weaken|intros u2; keep].
  destruct localOnly; [keep|]. case_bool_decide as Hf; [|keep]. keep.
Qed.

(** ** Transfers *)

Lemma asExpected_seen H rel expect now P :
  P H /\ justSaw H rel now -> asExpected expect now = true -> justSaw H rel now.
Proof. by intros []. Qed.

Lemma handles_download rel remote expect : handles (download rel remote expect).
Proof.
  intros K HK Hp. cbn [handle]. unfold downloadFileTo. cbv zeta.
  eapply (pass_bind _ _ _ _ _ nothing_more); [|done|intros free].
  { eapply keeps_weak_from; [apply keeps_attempt; by apply (keeps_fs ctx K (statfs (parentRel rel)))|done]. }
  eapply (keeps_pre ctx _ K); [|weaken].
  destruct (match free with Ok _ => _ | Throw _ => _ end); [keep|].
  do_fs K. { intros H Hk. right. exists rel, remote, expect. split; [by apply Hp|done]. }
  intros []. eapply (keeps_pre ctx _ K); [|weaken].
  eapply (pass_bind _ _ _ _ _ nothing_more); [keep|done|intros u].
  eapply (keeps_pre ctx _ K); [|weaken].
  eapply pass_bind; [apply keeps_downloadToTemp; [exact _| |by apply counts_countBytes]|done|].
  { intros H Hk. left. exists rel, remote, expect. by apply Hp. }
  intros [temp digest]. cbn [fst snd di_fileId di_checksum].
  set (P1 := fun H => K H /\ isTemp temp /\ fetched H (ri_id remote) digest /\
    (forall c, ri_checksum remote = Some c -> c <> "" -> digest = c)).
  assert (HP1 : Lasts P1) by (unfold P1; apply _).
  assert (HK1 : forall H, P1 H -> K H) by by intros H [].
  change (fun H => K H /\ isTemp temp /\ _) with P1.
  eapply pass_bind; [by apply keeps_statLocal|done|]. intros now.
  destruct (negb (asExpected expect now)) eqn:Ee.
  { eapply (keeps_bind_from ctx _ K _ _ _ nothing_more); [|done|intros u2; keep].
    eapply keeps_weak_from; [apply (keeps_fs_from ctx _ K (removePath temp)); try exact _|done].
    - intros H [(Hk & Ht & _) _]. split; [done|]. left. exists rel, remote, expect. by apply Hp.
    - by intros H [[Hk _] _]. }
  apply negb_false_iff in Ee.
  eapply (keeps_bind_from ctx _ P1 _ _ _ (fun _ H => happened H (disk (renamePath temp rel)) (Ok tt)));
    [|done|intros u2].
  { apply ensures_from. intros H0 [Hp1 Hj]. pose proof Hp1 as (Hk & Ht & Hf & Hc).
    apply (keeps_pre ctx _ (fun H => P1 H /\ justSaw H rel now)); [|by intros H <-].
    apply keeps_moveIntoPlace; [exact _| |done| |by intros H []].
    { intros H [Hk' _]. left. exists rel, remote, expect. by apply Hp. }
    intros H [(Hk' & _ & Hf' & _) Hj']. apply (rename_replaces _ _ _ _ remote expect digest now); try done.
    by apply Hp. }
  eapply pass_bind; [keep|by intros H [[]]|intros [w|]].
  2:{ apply pass_ret. by intros H [[[]]]. }
  eapply (pass_bind _ _ _ _ _ nothing_more);
    [eapply keeps_putBase; [exact _| |weaken]|by intros H [[[]]]|intros u3].
  { intros H (((Hk & Ht & Hf & Hc) & Hh) & Hs).
    apply (by_downloading ctx H rel remote expect temp); try done; [by apply Hp|by apply Hs]. }
  eapply (keeps_pre ctx _ K); [|by intros H [[[[]]]]]. keep.
Qed.

Lemma keeps_unsettled P local `{!Lasts P} : keeps ctx P P (unsettled local) nothing_more.
Proof. unfold unsettled. keep. Qed.
Hint Resolve keeps_unsettled : pass.

Lemma handles_upload rel local replace : handles (upload rel local replace).
Proof.
  intros K HK Hp. cbn [handle]. unfold uploadLocal.
  eapply pass_bind; [keep|done|]. intros []; [keep|].
  eapply (keeps_pre ctx _ K); [|weaken].
  eapply pass_bind; [keep|done|]. intros [parentId|]; [|keep].
  eapply (keeps_pre ctx _ K); [|weaken].
  eapply pass_bind; [keep|done|]. intros checksum.
  eapply pass_bind; [keep|weaken|]. intros now.
  destruct (negb _) eqn:Eb; [keep|].
  destruct now as [now|]; [|done]. apply negb_false_iff, sameStat_eq in Eb.
  set (P1 := fun H => K H /\ hashed ctx H (lf_entry local) checksum /\ onceSaw H rel now).
  eapply (keeps_pre ctx _ P1); [|intros H [[Hk Hh] Hs]; split_and!; [done|done|by apply Hs]].
  assert (HP1 : Lasts P1) by (unfold P1; apply _).
  assert (HK1 : forall H, P1 H -> K H) by by intros H [].
  eapply (pass_bind _ _ _ _ _ nothing_more); [keep|done|intros u].
  eapply (keeps_pre ctx _ P1); [|by intros H []].
  eapply pass_bind; [apply keeps_uploadFile; [exact _| |by apply counts_countBytes]|done|].
  { intros H [Hk _]. left. exists rel, local. by apply Hp. }
  intros answer. cbv zeta.
  eapply (pass_bind _ _ _ _ _ nothing_more); [keep|by intros H [[]]|intros u2].
  eapply (pass_bind _ _ _ _ _ nothing_more);
    [eapply keeps_putBase; [exact _| |weaken]|by intros H [[[]]]|intros u3].
  { intros H (((Hk & Hh & Hs) & Hu) & _).
    apply (by_uploading ctx H rel local replace parentId checksum answer); [by apply Hp|done| |done].
    by exists now. }
  eapply (keeps_pre ctx _ K); [|by intros H [[[[]]]]]. keep.
Qed.

Lemma keeps_parentOf P remote rel `{!Lasts P} : keeps ctx P P (parentOf ctx remote rel) nothing_more.
Proof. unfold parentOf. keep. Qed.
Hint Resolve keeps_parentOf : pass.

Lemma handles_keepMine rel local remote : handles (keep_mine rel local remote).
Proof.
  intros K HK Hp. cbn [handle]. unfold keepMineLocal.
  eapply pass_bind; [keep|done|]. intros []; [keep|].
  eapply (keeps_pre ctx _ K); [|weaken].
  eapply pass_bind; [keep|done|]. intros checksum.
  set (P1 := fun H => K H /\ hashed ctx H (lf_entry local) checksum).
  change (fun H => K H /\ hashed ctx H (lf_entry local) checksum) with P1.
  assert (HP1 : Lasts P1) by (unfold P1; apply _).
  assert (HK1 : forall H, P1 H -> K H) by by intros H [].
  eapply pass_bind; [keep|done|]. intros [parentId|]; [|apply pass_ret; by intros H [[]]].
  eapply (keeps_pre ctx _ P1); [|by intros H []].
  eapply pass_bind; [keep|done|]. intros date. cbv zeta.
  eapply (keeps_pre ctx _ P1); [|by intros H []].
  eapply pass_bind; [apply keeps_uploadFile; [exact _| |by apply counts_nothing]|done|].
  { intros H [Hk _]. right. split; [done|]. exists rel, local, remote. by apply Hp. }
  intros copy. do_http (fun H => P1 H /\ uploaded H (uploadInput ctx rel (lf_entry local) parentId
     (from_option baseName "" (conflictCopyName 1 rel (cx_deviceName ctx) date (fun _ => false)))
     checksum None) copy).
  { intros H [[Hk _] _]. exists rel, local, remote. split; [by apply Hp|done]. }
  { by intros H [[]]. }
  intros answer. eapply (pass_bind _ _ _ _ _ nothing_more); [keep|by intros H [[[]]]|intros u].
  eapply (pass_bind _ _ _ _ _ nothing_more); [keep|by intros H [[[[]]]]|intros u2].
  eapply (pass_bind _ _ _ _ _ nothing_more);
    [eapply keeps_putBase; [exact _| |weaken]|by intros H [[[[[]]]]]|intros u3].
  { intros H (((((Hk & Hh) & Hu) & Ha) & _) & _). eapply by_keeping_mine; eauto. }
  apply pass_ret. by intros H [[[[[[]]]]]].
Qed.

(** ** All of them *)

Lemma handles_all action : handles action.
Proof.
  destruct action; [apply handles_moveLocal|apply handles_moveRemote|apply handles_mkdir
    |apply handles_createRemoteFolder|apply handles_download|apply handles_upload
    |apply handles_keepMine|apply handles_conflictCopy|apply handles_trashLocal
    |apply handles_trashRemote|apply handles_link|apply handles_forget].
Qed.
End Handlers.

Section Pass.
Context `{ER : EngineRuntime} `{PF : Platform} (ctx : PairContext).
#[local] Notation pair := (cx_pair ctx).
#[local] Notation pairId := (pr_id (cx_pair ctx)).

#[local] Hint Resolve keeps_updatePass keeps_issue keeps_say_resolved keeps_say_activity
  keeps_say_notify keeps_say_waiting keeps_say_none keeps_reading keeps_dateNow keeps_newDate
  keeps_current keeps_isAborted keeps_randomUUID keeps_recall keeps_throttle keeps_resolved
  keeps_serverFullIssue keeps_remoteIdAt keeps_setFolderId keeps_tolerate keeps_checksumFor : pass.

(** ** One action *)

Lemma keeps_reportWaiting P `{!Lasts P} : keeps ctx P P reportWaiting nothing_more.
Proof. unfold reportWaiting. keep. Qed.
Hint Resolve keeps_reportWaiting : pass.

Lemma keeps_dequeue P action `{!Lasts P} : keeps ctx P P (dequeue action) nothing_more.
Proof. unfold dequeue. keep. Qed.
Hint Resolve keeps_dequeue : pass.

Lemma keeps_closeFailed P rel `{!Lasts P} : keeps ctx P P (closeFailed rel) nothing_more.
Proof.
  unfold closeFailed. eapply pass_bind; [keep|done|]. intros open.
  eapply (pass_bind _ _ _ _ _ nothing_more); [|weaken|intros u; keep].
  apply pass_forEach. intros a _. keep.
Qed.
Hint Resolve keeps_closeFailed : pass.

Lemma keeps_runAction K action `{!Lasts K} :
  (forall H, K H -> planned ctx H action) -> keeps ctx K K (runAction ctx action) nothing_more.
Proof.
  intros Hp. unfold runAction. cbv zeta.
  eapply (pass_bind _ _ _ _ _ nothing_more); [keep|done|intros u].
  eapply (pass_bind _ _ _ _ _ nothing_more); [keep|weaken|intros go].
  eapply pass_bind; [keep|weaken|intros full].
  destruct (negb go || _); [keep|]. eapply (keeps_pre ctx _ K); [|weaken].
  apply keeps_finally; [|keep].
  apply (pass_catch ctx K K _ _ _ nothing_more); [|done|intros e; keep].
  eapply pass_bind; [by apply handles_all|done|]. intros []; keep.
Qed.

Lemma keeps_runStage K sorted stage `{!Lasts K} :
  (forall action, action ∈ sorted -> forall H, K H -> planned ctx H action) ->
  keeps ctx K K (runStage ctx sorted stage) nothing_more.
Proof.
  intros Hp. unfold runStage. cbv zeta. case_bool_decide as Hs.
  - apply keeps_pool. intros lane item Hl Hi.
    apply list_elem_of_fmap in Hl as ([name size] & -> & _). cbn [fst snd] in Hi.
    apply list_elem_of_filter in Hi as [_ Hi]. apply list_elem_of_filter in Hi as [_ Hi].
    apply keeps_runAction; [done|]. by apply Hp.
  - apply pass_forEach. intros action Ha. apply list_elem_of_filter in Ha as [_ Ha].
    apply keeps_runAction; [done|]. by apply Hp.
Qed.

(** ** One round *)

Lemma keeps_hashAll P entries `{!Lasts P} : keeps ctx P P (hashAll ctx entries) nothing_more.
Proof.
  revert P Lasts0. induction entries as [|entry entries IH]; intros P HP; cbn [hashAll]; [keep|].
  eapply (pass_bind _ _ _ _ _ nothing_more); [|done|intros failed].
  - apply (pass_catch ctx P P _ _ _ nothing_more); [keep|done|intros e; keep].
  - eapply (pass_bind _ _ _ _ _ nothing_more); [by apply IH, _|weaken|intros rest; keep].
Qed.
Hint Resolve keeps_hashAll : pass.

Lemma sortActions_elem action actions : action ∈ sortActions actions <-> action ∈ actions.
Proof.
  induction actions as [|a actions IH]; [done|]. cbn.
  assert (Hi : forall l, action ∈ insertAction a l <-> action = a \/ action ∈ l).
  { intros l. induction l as [|b l IHl]; cbn; [set_solver|]. destruct (actionBefore a b); set_solver. }
  rewrite Hi, IH. set_solver.
Qed.

(** The plan was made from what the pass read. *)
Definition planMade (H : History) (p : Plan) : Prop :=
  exists input, planSeen ctx H input /\ p = plan input.

#[local] Instance lasts_planMade p : Lasts (fun H => planMade H p).
Proof. unfold planMade. apply _. Qed.

Lemma keeps_runPlan K previousPlan unhashable p `{!Lasts K} :
  (forall H, K H -> planMade H p) ->
  keeps ctx K K (runPlan ctx previousPlan unhashable p) nothing_more.
Proof.
  intros Hp. unfold runPlan. cbv zeta.
  eapply (pass_bind _ _ _ _ _ nothing_more); [keep|done|intros failed].
  eapply pass_bind; [keep|weaken|intros full].
  eapply (pass_bind _ _ _ _ _ nothing_more); [keep|weaken|intros u].
  case_bool_decide; [keep|]. case_bool_decide; [keep|].
  eapply (pass_bind _ _ _ _ _ nothing_more); [keep|weaken|intros u2].
  eapply (pass_bind _ _ _ _ _ nothing_more); [keep|weaken|intros u3].
  eapply (keeps_pre ctx _ K); [|weaken].
  eapply (pass_bind _ _ _ _ _ nothing_more); [|done|intros u4; keep].
  apply pass_forEach. intros stage _. apply keeps_runStage; [done|].
  intros action Ha H' Hk. rewrite sortActions_elem in Ha. apply list_elem_of_filter in Ha as [_ Ha].
  destruct (Hp H' Hk) as (input & Hs & ->). by exists input.
Qed.

Lemma keeps_scanRound P `{!Lasts P} :
  keeps ctx P P (scanRound ctx) (fun found H => forall s, found = Some s -> exists H0, scanned_all H0 H s).
Proof.
  unfold scanRound. eapply pass_catch; [|intros a H Hp HI; split; [exact Hp|exact HI]|].
  - apply (keeps_bind_from ctx _ P _ _ _ (fun s H => exists H0, scanned_all H0 H s));
      [|done|].
    { eapply keeps_conseq; [by apply keeps_scanLocal|done|done|]. intros s H _ (H0 & _ & Hs). by exists H0. }
    intros s. apply pass_ret. intros H [Hp Hs].
    split; [done|]. by intros s' [= <-].
  - intros e. eapply (pass_bind _ _ _ _ _ nothing_more); [keep|done|intros u].
    destruct e; [|apply pass_throw; weaken..].
    eapply (pass_bind _ _ _ _ _ nothing_more); [keep|weaken|intros u2].
    apply pass_ret. intros H Hp. split; [tauto|done].
Qed.

Lemma keeps_bind_recall {A} (P K : History -> Prop) (f : Memory -> Program A) I :
  (forall m, keeps ctx (fun H => exists H1, H = event recall m :: H1 /\ P H1) K (f m) I) ->
  keeps ctx P K (m ← ask recall; f m) I.
Proof.
  intros Hf H k Hp Hk. split; [exact Logic.I|]. intros m. apply (Hf m); [by exists H|done].
Qed.

Lemma scanned_planSeen H0 H1 m s there unhashable allowEmptied :
  there = scopeFor ctx m -> scanned_all H0 H1 s ->
  planSeen ctx (event recall m :: H1) (roundInput ctx m s there unhashable allowEmptied).
Proof.
  intros -> [Hc _]. split; [done| |].
  - exists m. split_and!; [by left|done|done|]. cbn [in_local roundInput].
    by intros f (e & -> & _)%list_elem_of_fmap.
  - intros f Hf. cbn [in_local roundInput] in Hf. apply list_elem_of_fmap in Hf as (e & -> & He).
    destruct (Hc e He) as [(stats & (new & -> & _ & Hin) & E & _) _]. exists stats.
    split; [|exact E]. right. apply elem_of_app. by left.
Qed.

Lemma keeps_planRound K first allowEmptied unhashable s `{!Lasts K} :
  keeps ctx (fun H => K H /\ exists H0, scanned_all H0 H s) K
    (planRound ctx first allowEmptied unhashable s) (fun p H => planMade H p).
Proof.
  unfold planRound. cbv zeta. apply keeps_bind_recall. intros m.
  set (p := plan _). set (K1 := fun H => K H /\ planMade H p).
  assert (HK1 : Lasts K1) by (unfold K1; apply _).
  eapply (keeps_bind_from ctx _ K1 _ _ _ nothing_more); [|by intros H []|intros u].
  { eapply keeps_weak_from; [apply (keeps_ask_from ctx _ K1 (tell (scanned (Some s))))|done].
    - intros H (H1 & -> & Hk & H0 & Hs). by exists H0, H1, m.
    - intros H (H1 & -> & Hk & H0 & Hs). split; [by apply lasts|].
      eexists. split; [by eapply scanned_planSeen|done]. }
  eapply (pass_bind _ _ _ _ _ nothing_more); [keep|by intros H [[]]|intros u2].
  eapply (pass_bind _ _ _ _ _ nothing_more); [|by intros H [[[]]]|intros u3].
  { destruct first; [|keep]. unfold scanIssues.
    eapply (pass_bind _ _ _ _ _ nothing_more); [keep|weaken|intros u3].
    eapply keeps_weak; [apply pass_forEach; intros each _|weaken]. keep. }
  apply pass_ret. by intros H [[[[]]]].
Qed.

Lemma keeps_round K first allowEmptied previousPlan unhashable `{!Lasts K} :
  keeps ctx K K (round ctx first allowEmptied previousPlan unhashable) nothing_more.
Proof.
  unfold round. eapply (keeps_bind_from ctx _ K); [by apply keeps_scanRound|done|].
  intros [s|].
  2:{ eapply (keeps_pre ctx _ K); [|weaken]. keep. }
  eapply (keeps_pre ctx _ (fun H => K H /\ exists H0, scanned_all H0 H s)).
  2:{ intros H [Hk Hs]. split; [done|by apply Hs]. }
  eapply keeps_bind_from; [by apply keeps_planRound|done|]. intros p.
  destruct (pl_hold p).
  - unfold resultNow. keep.
  - eapply keeps_weak; [apply keeps_runPlan; [exact _|by intros H []]|by intros H []].
Qed.

Lemma keeps_rounds K left first allowEmptied previousPlan unhashable `{!Lasts K} :
  keeps ctx K K (rounds ctx left first allowEmptied previousPlan unhashable) nothing_more.
Proof.
  revert first previousPlan unhashable. induction left as [|left IH]; intros; cbn [rounds]; [keep|].
  eapply (pass_bind _ _ _ _ _ nothing_more); [keep|done|intros go]. destruct (negb go); [keep|].
  eapply (keeps_pre ctx _ K); [|weaken].
  eapply (pass_bind _ _ _ _ _ nothing_more); [by apply keeps_round|done|intros ended].
  destruct ended; [|keep|keep]. eapply (keeps_pre ctx _ K); [|weaken]. apply IH.
Qed.

(** ** The pass *)

Lemma keeps_syncPair : keeps ctx (fun _ => True) (fun _ => True) (syncPair ctx) nothing_more.
Proof.
  unfold syncPair, resultNow.
  eapply (pass_bind _ _ _ _ _ nothing_more); [keep|done|intros u].
  eapply (pass_bind _ _ _ _ _ nothing_more); [|weaken|intros rootStats].
  { eapply keeps_weak_from; [apply keeps_attempt; by apply (keeps_fs ctx _ statRoot)|done]. }
  destruct (negb _); [keep|].
  eapply pass_bind; [keep|weaken|intros gone]. case_bool_decide; [keep|].
  eapply pass_bind; [keep|weaken|intros allow]. cbv zeta.
  eapply (pass_bind _ _ _ _ _ nothing_more); [by apply keeps_rounds, _|weaken|intros returned].
  destruct returned; keep.
Qed.

(** A pass as a program. *)
Definition passProgram : Proc EngineError Answer := start (_ ← syncPair ctx; mret tt).

Lemma passProgram_guarded : guarded (permitted ctx) [] passProgram.
Proof.
  apply (pass_bind ctx (fun _ => True) (fun _ => True) _ _ _ (fun _ _ => True) keeps_syncPair);
    [done| |done|].
  - intros r. by apply pass_ret.
  - by intros [[]|e] H _.
Qed.

(** Every effect of every interleaving is permitted by what came before. *)
Lemma pass_permitted {World} (answers : World -> forall e, Answer e -> World -> Prop) w trace w' p' :
  steps answers w passProgram trace w' p' ->
  forall later e a earlier, trace = later ++ event e a :: earlier ->
  exists H, H `sublist_of` earlier /\ permitted ctx H e.
Proof. intros Hs. apply (guarded_steps _ answers w passProgram trace w' p'); [apply passProgram_guarded|done]. Qed.
End Pass.

Section Promises.
Context `{ER : EngineRuntime} `{PF : Platform} (ctx : PairContext).
Context {World : Type} (answers : World -> forall e, Answer e -> World -> Prop).
#[local] Notation pairId := (pr_id (cx_pair ctx)).

(** A run of the pass, from its start. *)
Definition passRun (w : World) (trace : History) : Prop :=
  exists w' p', steps answers w (passProgram ctx) trace w' p'.

Lemma run_permitted w later e a earlier :
  passRun w (later ++ event e a :: earlier) ->
  exists H, H `sublist_of` earlier /\ permitted ctx H e.
Proof. intros (w' & p' & Hs). by eapply pass_permitted. Qed.

Lemma run_permitted_in w trace e a :
  passRun w trace -> event e a ∈ trace -> exists H, permitted ctx H e.
Proof.
  intros Hr (later & earlier & ->)%list_elem_of_split.
  destruct (run_permitted _ _ _ _ _ Hr) as (H & _ & Hp). eauto.
Qed.

(** ** One-way pairs *)

Lemma planned_mode H action :
  planned ctx H action -> exists input, in_mode input = pr_mode (cx_pair ctx) /\
    action ∈ pl_actions (plan input).
Proof. intros (input & [Hm _ _] & Ha). eauto. Qed.

Lemma planned_download_mode H action :
  pr_mode (cx_pair ctx) = Download -> planned ctx H action -> downloadModeAction action.
Proof.
  intros Hd (input & Hm & Ha)%planned_mode.
  by eapply download_only_plan_keeps_server; [rewrite Hm|].
Qed.

Lemma planned_upload_mode H action :
  pr_mode (cx_pair ctx) = Upload -> planned ctx H action -> uploadModeAction action.
Proof.
  intros Hd (input & Hm & Ha)%planned_mode.
  by eapply upload_only_plan_keeps_computer_and_server; [rewrite Hm|].
Qed.

(** Looks for the planned action that a mode rules out. *)
Ltac wrong_mode lemma Hd :=
  repeat match goal with
  | H : _ \/ _ |- _ => destruct H
  | H : exists _, _ |- _ => destruct H
  | H : _ /\ _ |- _ => destruct H
  end;
  match goal with H : planned _ _ _ |- _ => by apply (lemma _ _ Hd) in H end.

Lemma uploading_not_download H replace :
  pr_mode (cx_pair ctx) = Download -> uploading ctx H replace -> False.
Proof. intros Hd Hu. unfold uploading in Hu. wrong_mode planned_download_mode Hd. Qed.

(** C17: a download-only pair never writes to the server: in any run of a pass the
    only calls are downloads, whatever the answers and the interleaving. *)
Theorem download_only_pass_only_downloads w trace call a :
  pr_mode (cx_pair ctx) = Download -> passRun w trace -> event (api call) a ∈ trace ->
  exists id, call = downloadFile id.
Proof.
  intros Hd Hr Hin. destruct (run_permitted_in _ _ _ _ Hr Hin) as (H & Hp).
  destruct call; cbn in Hp; try by eauto;
    try (exfalso; wrong_mode planned_download_mode Hd).
  all: exfalso; repeat match goal with H : exists _, _ |- _ => destruct H end;
    by eapply uploading_not_download.
Qed.

(** Reading the disk. *)
Definition diskReads (call : DiskCall) : Prop :=
  match call with
  | makeFolder _ | renamePath _ _ | removePath _ | createFile _ | appendFile _ _
  | setTimes _ _ | trashPath _ => False
  | _ => True
  end.

Definition deletesOnServer (call : ApiCall) : Prop :=
  match call with trashFile _ _ | trashFolder _ _ => True | _ => False end.

(** an upload-only pair is a backup: in any run of a pass the computer is only
    read, and nothing on the server is trashed. *)
Theorem upload_only_pass_only_reads_here w trace :
  pr_mode (cx_pair ctx) = Upload -> passRun w trace ->
  (forall call a, event (disk call) a ∈ trace -> diskReads call) /\
  (forall call a, event (api call) a ∈ trace -> ~ deletesOnServer call).
Proof.
  intros Hu Hr. split; intros call a Hin; destruct (run_permitted_in _ _ _ _ Hr Hin) as (H & Hp).
  - destruct call; try exact I; cbn in Hp;
      destruct Hp; try unfold downloading in *; wrong_mode planned_upload_mode Hu.
  - destruct call; cbn in Hp; first [solve [intros []] | intros _; wrong_mode planned_upload_mode Hu].
Qed.

(** ** Overwriting and deleting here *)

(** What stood at [rel] when the thread last looked, just before, is what both
    sides had agreed on: the entry the plan saw, with the agreed checksum. *)
Definition agreedAndUnchanged (H : History) (rel : string) : Prop :=
  exists input here previous now, planSeen ctx H input /\
    here ∈ in_local input /\ previous ∈ in_base input /\
    pathKey (be_rel previous) = pathKey (lf_rel here) /\
    checksumOf here (Some previous) = Some (be_checksum previous) /\
    justSaw H rel (Some now) /\ localStat now = lf_stat here.

(** A run in which every effect carries what its own thread did before it. *)
Definition passThreads (w : World) (trace : list (Event LoggedAns)) : Prop :=
  exists w' q, steps (answersLogged answers) w (logged [] (passProgram ctx)) trace w' q.

(** Every run of the pass is one of those, without the logs. *)
Lemma passRun_threads w trace :
  passRun w trace -> exists traceL, passThreads w traceL /\ plain <$> traceL = trace.
Proof.
  intros (w' & p' & Hs). destruct (run_has_threads _ _ _ _ _ _ Hs) as (traceL & q & HsL & _ & E).
  exists traceL. split; [|done]. by exists w', q.
Qed.

Lemma thread_permitted w later own e a earlier :
  passThreads w (later ++ threadEvent own e a :: earlier) ->
  permitted ctx own e /\ own `sublist_of` (plain <$> earlier).
Proof.
  intros (w' & q & Hs). exact (logged_steps _ _ _ _ _ _ _ (passProgram_guarded ctx) Hs _ _ _ _ _ eq_refl).
Qed.

(** C10: a pass overwrites no work: whenever a thread of it renames something to a
    path, then in the thread's own log, whose last events come straight before
    the rename: it looked at that path with its very last effect, and found
    nothing, or only a symbolic link; or it found what the plan saw, unchanged,
    and that is what both sides had agreed on; or, after it had looked at what it
    renames, it scanned the whole folder of the pair, found no such name, and did
    nothing since but read the clock. *)
Theorem pass_overwrites_only_agreed_files w later own from to a earlier :
  passThreads w (later ++ threadEvent own (disk (renamePath from to)) a :: earlier) ->
  own `sublist_of` (plain <$> earlier) /\
  (justSaw own to None \/ agreedAndUnchanged own to \/ exists now, freshName own from now to).
Proof.
  intros Hr. destruct (thread_permitted _ _ _ _ _ _ Hr) as [Hp Ho]. split; [done|].
  destruct Hp as [remote Hp Hj|remote expect digest now Hp _ _ _ Hj He|local lo u now Hp _ Hf];
    [by left| |right; right; by exists now].
  destruct expect as [here|], now as [now|]; try done; [|by left].
  right. left. apply sameStat_eq in He. destruct Hp as (input & Hi & Ha).
  apply plan_overwrites_only_seen in Ha. destruct Ha as (Hin & previous & Hb & Hk & Hc).
  by exists input, here, previous, now.
Qed.

(** C11: a pass trashes only unchanged work: a file put in the computer's trash was,
    when its thread looked just before, of the same size, time and identity as
    the entry the plan saw; and that entry was agreed on by both sides, has not
    changed since, and its server item is gone wherever the pass could see. *)
Theorem pass_trashes_only_unchanged_files w later rel a earlier :
  passRun w (later ++ event (disk (trashPath rel)) a :: earlier) ->
  exists H input here now, H `sublist_of` earlier /\ planSeen ctx H input /\
    trash_local rel here ∈ pl_actions (plan input) /\ justSaw H rel (Some now) /\
    (le_type now = file -> localStat now = lf_stat here) /\
    (lf_type here = file ->
       here ∈ in_local input /\
       exists previous, previous ∈ in_base input /\
         pathKey (be_rel previous) = pathKey (lf_rel here) /\ unchangedHere previous here /\
         (forall each, each ∈ in_remote input ->
            pathKey (si_rel each) <> pathKey (lf_rel here) /\
            ri_id (si_item each) <> be_remoteId previous) /\
         be_remoteId previous ∉ hd_ids (v_hidden (view input))).
Proof.
  intros Hr. destruct (run_permitted _ _ _ _ _ Hr) as (H & Hsub & here & now & Hp & Hj & Hst).
  destruct Hp as (input & Hs & Ha). exists H, input, here, now. split_and!; try done.
  intros Hf. by apply trash_local_file_is_deleted_on_server in Ha as (_ & ? & ?).
Qed.

(** C13: a file is trashed on the server only by a two-way pair and only when it is
    gone here: the thread looked just before and found nothing at its path; both
    sides had agreed on it, the server's copy has not changed since, and the
    call names the revision that was planned against. *)
Theorem pass_trashes_on_server_what_is_gone_here w later id rev a earlier :
  passRun w (later ++ event (api (trashFile id rev)) a :: earlier) ->
  pr_mode (cx_pair ctx) = TwoWay /\
  exists H rel input item previous, H `sublist_of` earlier /\ planSeen ctx H input /\
    trash_remote rel item ∈ pl_actions (plan input) /\ justSaw H rel None /\
    id = ri_id item /\ rev = ri_rev item /\ previous ∈ in_base input /\
    unchangedThere previous item /\
    (forall here, here ∈ in_local input -> pathKey (lf_rel here) <> pathKey (be_rel previous)).
Proof.
  intros Hr. destruct (run_permitted _ _ _ _ _ Hr) as (H & Hsub & rel & item & Hp & Hj & Ht & -> & ->).
  destruct Hp as (input & Hs & Ha).
  pose proof (trash_remote_file_is_deleted_here input rel item Ha Ht)
    as (Hm & previous & key & Hb & Hk & Hu & Hl & _).
  split; [by rewrite <- (ps_mode ctx _ _ Hs)|].
  exists H, rel, input, item, previous. subst key. by split_and!.
Qed.

(** ** The base and the scan *)

(** The size, time and identity in a row are what [lstat] said of its path. *)
Definition rowHere (H : History) (row : BaseEntry) : Prop :=
  exists stats, happened H (disk (lstat (be_rel row))) (Ok stats) /\
    baseStat row = localStat (toEntry (be_rel row) stats).

(** The memory listed the item at that path. *)
Definition listedAt (H : History) (rel : string) (item : RemoteItem) : Prop :=
  exists m each, happened H recall m /\ each ∈ sp_items (scopeFor ctx m) /\
    pathKey (si_rel each) = pathKey rel /\ si_item each = item.

Definition savedRow (H : History) (row : BaseEntry) : Prop :=
  exists m, happened H recall m /\ row ∈ baseEntries pairId (me_store m).

(** How the pass knows an item of the server at [rel]: it is listed there, or it
    is what the server answered when it was brought, made or sent there. *)
Inductive knownThere (H : History) (rel : string) : RemoteItem -> Prop :=
| known_listed item : listedAt H rel item -> knownThere H rel item
| known_brought base item : savedRow H base -> broughtTo ctx H base rel item -> knownThere H rel item
| known_made parentId answer :
    happened H (api (createFolder parentId (baseName rel))) (Ok answer) ->
    knownThere H rel (remoteFromFolder answer)
| known_sent local parentId checksum replace answer :
    uploaded H (uploadInput ctx rel local parentId (baseName rel) checksum replace) answer ->
    knownThere H rel (remoteFromUpload answer (Some checksum))
| known_kept local parentId name checksum copy item answer :
    listedAt H rel item -> uploaded H (uploadInput ctx rel local parentId name checksum None) copy ->
    happened H (api (keepMine (ri_id item) (ri_rev item) (uf_id copy))) (Ok answer) ->
    knownThere H rel (remoteFromUpload answer (Some checksum)).

Definition rowThere (H : History) (row : BaseEntry) : Prop :=
  exists item, knownThere H (be_rel row) item /\
    be_type row = ri_type item /\ be_remoteId row = ri_id item /\ be_rev row = ri_rev item.

(** The local file of the row was known to have the checksum: it is remembered
    for a file of that size, time and identity, or the saved row of the path,
    with the same, has it. *)
Definition knownHere (H : History) (row : BaseEntry) (checksum : string) : Prop :=
  exists m, happened H recall m /\
    ((exists entry, le_rel entry = be_rel row /\ localStat entry = baseStat row /\
        cachedChecksum ctx m entry = Some checksum) \/
     (exists previous, previous ∈ baseEntries pairId (me_store m) /\
        pathKey (be_rel previous) = pathKey (be_rel row) /\ baseStat previous = baseStat row /\
        be_checksum previous = Some checksum)).

(** Why both sides have the bytes a row names. A moved file keeps the checksum of
    its row. *)
Inductive sameBytes (H : History) (row : BaseEntry) (checksum : string) : Prop :=
| bytes_taken temp :
    fetched H (be_remoteId row) checksum ->
    happened H (disk (renamePath temp (be_rel row))) (Ok tt) -> sameBytes H row checksum
| bytes_compared :
    fetched H (be_remoteId row) checksum -> knownHere H row checksum -> sameBytes H row checksum
| bytes_sent local parentId name replace answer :
    le_rel local = be_rel row -> localStat local = baseStat row -> hashed ctx H local checksum ->
    uploaded H (uploadInput ctx (be_rel row) local parentId name checksum replace) answer ->
    sameBytes H row checksum
| bytes_equal item :
    listedAt H (be_rel row) item -> ri_id item = be_remoteId row ->
    ri_checksum item = Some checksum -> knownHere H row checksum -> sameBytes H row checksum
| bytes_moved previous :
    savedRow H previous -> be_checksum previous = Some checksum ->
    be_rel previous = be_rel row \/
    (be_ino previous = be_ino row /\ (be_type previous = file -> baseStat previous = baseStat row)) ->
    sameBytes H row checksum.

Definition rowStands (H : History) (row : BaseEntry) : Prop :=
  be_pairId row = pairId /\ rowHere H row /\ rowThere H row /\
  forall checksum, be_type row = file -> be_checksum row = Some checksum ->
    sameBytes H row checksum.

(** The file or folder is at [to] now on both sides. *)
Definition treeStands (H : History) (from to : string) : Prop :=
  (exists item, happened H (disk (renamePath from to)) (Ok tt) /\ listedAt H to item) \/
  (exists base item stats, savedRow H base /\ be_rel base = from /\ broughtTo ctx H base to item /\
     happened H (disk (lstat to)) (Ok stats) /\ le_ino (toEntry to stats) = be_ino base).

(** *** What a plan's sides were *)

Lemma planned_here H input rel local :
  planSeen ctx H input -> hereAt input rel local ->
  le_rel (lf_entry local) = rel /\ exists stats, happened H (disk (lstat rel)) (Ok stats) /\
    lf_entry local = toEntry rel stats.
Proof.
  intros Hs [Hin <-]. split; [done|]. by apply (ps_local ctx _ _ Hs).
Qed.

Lemma planned_there H input rel item :
  planSeen ctx H input -> thereAt input rel item -> listedAt H rel item.
Proof.
  intros Hs (each & Hin & Hk & E). destruct (ps_memory ctx _ _ Hs) as (m & Hm & _ & Er & _).
  exists m, each. rewrite <- Er. by split_and!.
Qed.

Lemma planned_saved H input row : planSeen ctx H input -> row ∈ in_base input -> savedRow H row.
Proof.
  intros Hs Hin. destruct (ps_memory ctx _ _ Hs) as (m & Hm & Eb & _). exists m. by rewrite <- Eb.
Qed.

Lemma planned_known H input local row checksum :
  planSeen ctx H input -> hereAt input (be_rel row) local -> lf_stat local = baseStat row ->
  knownAs input local (Some checksum) -> knownHere H row checksum.
Proof.
  intros Hs [Hin Hrel] Hst (previous & Hprev & Hc).
  destruct (ps_memory ctx _ _ Hs) as (m & Hm & Eb & _ & Hcs). exists m. split; [done|].
  assert (Hown : Some <$> lf_checksum local = Some (Some checksum) -> exists entry,
    le_rel entry = be_rel row /\ localStat entry = baseStat row /\ cachedChecksum ctx m entry = Some checksum).
  { intros E. exists (lf_entry local). split_and!; [done|done|]. rewrite <- Hcs by done.
    destruct (lf_checksum local); [|done]. by injection E as ->. }
  unfold checksumOf in Hc. destruct previous as [p|]; [|left; by apply Hown].
  destruct (sameStat (lf_stat local) (baseStat p)) eqn:Es; [|left; by apply Hown].
  right. apply sameStat_eq in Es. destruct (Hprev p eq_refl) as [Hp Hk]. exists p.
  rewrite <- Eb, <- Hrel, <- Hst. split_and!; [done|done|done|]. by injection Hc.
Qed.

Lemma baseStat_row rel local item checksum :
  baseStat (baseRow ctx rel local item checksum) = localStat local.
Proof. done. Qed.

Lemma onceSaw_here H rel now item checksum :
  onceSaw H rel now -> rowHere H (baseRow ctx rel now item checksum).
Proof. intros (stats & Hs & ->). by exists stats. Qed.

Lemma planned_rowHere H input rel local item checksum :
  planSeen ctx H input -> hereAt input rel local ->
  rowHere H (baseRow ctx rel (lf_entry local) item checksum).
Proof.
  intros Hs Hh. destruct (planned_here _ _ _ _ Hs Hh) as (_ & stats & Hst & E). exists stats.
  split; [done|]. by rewrite baseStat_row, E.
Qed.

Lemma witnessed_stands H row : witnessed ctx H row -> rowStands H row.
Proof.
  assert (Hrow : forall rel local item checksum, rowHere H (baseRow ctx rel local item checksum) ->
    knownThere H rel item ->
    (forall c, ri_type item = file -> checksum = Some c ->
       sameBytes H (baseRow ctx rel local item checksum) c) ->
    rowStands H (baseRow ctx rel local item checksum)).
  { intros rel local item checksum Hh Ht Hc. split_and!; [done|done|by exists item|exact Hc]. }
  intros [from to remote now previous (input & Hs & Ha%plan_sides) Hr Hn (m & Hm & Hp) E
    |from to base local item (input & Hs & Ha%plan_sides) Hb
    |rel remote made (input & Hs & Ha%plan_sides) Hr Hn
    |rel local parentId answer (input & Hs & Ha%plan_sides) Hr
    |rel local remote (input & Hs & Ha%plan_sides)
    |rel local lo u now digest (input & Hs & Ha%plan_sides) Hn Hst Hf Hu
    |rel remote expect temp written digest (input & Hs & Ha%plan_sides) Hf _ Hr Hn
    |rel local replace parentId checksum answer (input & Hs & Ha%plan_sides) Hh _ Hu
    |rel local remote parentId name checksum copy answer (input & Hs & Ha%plan_sides) Hh Hu Hk];
    cbn [sidesOf] in Ha; apply Hrow; clear Hrow;
    try (by apply onceSaw_here); try (by eapply planned_rowHere; [|apply Ha]);
    try (by eapply planned_rowHere);
    try (by eapply known_listed, planned_there; [|apply Ha]);
    try (by eapply known_listed, planned_there);
    try (intros c _ [= <-]).
  - intros c _ Hc. eapply bytes_moved; [by exists m|done|by left].
  - apply (known_brought _ _ base); [|done]. by eapply planned_saved; [|apply Ha].
  - intros c Hf Hc. destruct Ha as (Hin & _ & _ & Hi & _ & Hst).
    eapply bytes_moved; [by eapply planned_saved|done|right].
    split; [done|]. intros Hb'. by rewrite baseStat_row, <- Hst.
  - by apply (known_made _ _ parentId).
  - intros c Hf Hc. destruct Ha as (Hh & Ht & Hty & Hk). apply (bytes_equal _ _ _ remote);
      [by eapply planned_there|done|done|].
    rewrite Hc in Hk. eapply planned_known; [done|done|done|]. apply Hk. congruence.
  - destruct Ha as [Hh Hun]. destruct (Hun u eq_refl) as [_ Hk]. rewrite Hu in Hk.
    apply bytes_compared; [done|]. by eapply planned_known.
  - by apply (bytes_taken _ _ _ temp).
  - by apply (known_sent _ _ (lf_entry local) parentId _ replace).
  - eapply (bytes_sent _ _ _ (lf_entry local)); [|done|done|done].
    by eapply planned_here.
  - eapply known_kept; [|done|done]. by eapply planned_there; [|apply Ha].
  - eapply (bytes_sent _ _ _ (lf_entry local)); [|done|done|done].
    by eapply planned_here; [|apply Ha].
Qed.

Lemma treeMoved_stands H from to : treeMoved ctx H from to -> treeStands H from to.
Proof.
  intros [remote (input & Hs & Ha%plan_sides) Hr|base local item (input & Hs & Ha%plan_sides) Hb];
    cbn [sidesOf] in Ha.
  - left. exists remote. split; [done|]. by eapply planned_there; [|apply Ha].
  - destruct Ha as (Hin & Hrel & Hh & Hi & _). right.
    destruct (planned_here _ _ _ _ Hs Hh) as (_ & stats & Hst & E).
    exists base, item, stats. split_and!; [by eapply planned_saved|done|done|done|].
    rewrite <- E. exact Hi.
Qed.

(** C14: the saved base records only what happened. A thread that writes a row,
    which says that both sides agree on a path, has looked at the path: the row
    has the size, time and identity of an [lstat] of it. It knows the item of
    the row: the server listed it at that path, or answered so when it was
    brought, made or sent there. And when the item is a file and the row names a
    checksum, both sides have those bytes: they were fetched and put in place, or
    fetched and compared with what is known of the file here; they were read here
    and the server took them; the server's checksum is the one known of the file
    here; or the file only moved, and the saved row it had names it. Rows are
    moved from one path to another only when the rename was answered, here to
    where the server lists the item, or the server answered that the item is
    there (or had it there), where the file of that identity was seen. *)
Theorem base_records_only_what_happened w later own change a earlier :
  passThreads w (later ++ threadEvent own (write change) a :: earlier) ->
  own `sublist_of` (plain <$> earlier) /\
  match change with
  | storePutBase row => rowStands own row
  | storeMoveBaseTree id from to => id = pairId /\ treeStands own from to
  | _ => True
  end.
Proof.
  intros Hr. destruct (thread_permitted _ _ _ _ _ _ Hr) as [Hp Ho]. split; [done|].
  destruct change; try exact I; [by apply witnessed_stands|]. destruct Hp as [-> Hp].
  split; [done|by apply treeMoved_stands].
Qed.

(** C16: a scan a pass plans from leaves nothing out: in the reads it was made of,
    the pair's folder and every folder among its entries were listed, every name
    listed is an entry or among what the scan leaves alone, and every entry is
    what [lstat] said of it. *)
Theorem scan_leaves_nothing_out w later s a earlier :
  passRun w (later ++ event (tell (scanned (Some s))) a :: earlier) ->
  exists reads H0, reads ++ H0 `sublist_of` earlier /\ Forall isReading reads /\
    (forall e, e ∈ ls_entries s -> exists stats,
       event (disk (lstat (le_rel e))) (Ok stats) ∈ reads /\ e = toEntry (le_rel e) stats) /\
    (forall rel, rel = "" \/ (exists e, e ∈ ls_entries s /\ le_rel e = rel /\ le_type e = folder) ->
       exists names, event (disk (readdir rel)) (Ok names) ∈ reads /\
         forall name, name ∈ names -> joinRel rel name ∈ rels (ls_entries s) (ls_excluded s)).
Proof.
  intros Hr. destruct (run_permitted _ _ _ _ _ Hr) as (H & Hsub & H0 & H1 & m & -> & Hc & Hl).
  destruct Hl as (names & (reads & -> & Hread & Hn) & Hin).
  assert (Hsaw : forall ev, saw H0 (reads ++ H0) ev -> ev ∈ reads).
  { intros ev (reads' & E & _ & He). by apply app_inv_tail in E as ->. }
  exists reads, H0. split_and!; [|done| |].
  - etrans; [|exact Hsub]. by apply sublist_cons.
  - intros e He. destruct (Hc e He) as [(stats & Hst & E & _) _]. exists stats.
    split; [by apply Hsaw|done].
  - intros rel [->|(e & He & <- & Hf)]; [by exists names|].
    destruct (Hc e He) as [_ Hl]. destruct (Hl Hf) as (names' & Hn' & Hin').
    exists names'. split; [by apply Hsaw|done].
Qed.
End Promises.
