(* ===== verification/PassExamples.v ===== *)
(** * A pass on a concrete pair

    A disk, a server and a memory that answer, and the run of [syncPair] on
    them: a file changed on the server, one deleted there, one deleted here and
    one that is new here. Each promise is checked on the events of a run. *)

From S2P Require Import Prelude SyncTypes Plan PlanFacts PlanSafety SyncStore RemoteTree Async EngineIo LocalScan Transfer PairSync PassGuard PassPromises.

Open Scope Z_scope.
#[local] Existing Instance asciiPlatform.

#[local] Instance exampleRuntime : EngineRuntime :=
  {| mtimeMsOf := fun ns => ns / 1000000; millisecond := 1; sha256 := fun s => "#" +:+ s |}.

(** ** A world that answers *)

Record DiskEntry := { de_kind : FileKind; de_mtimeNs : Z; de_ino : Z; de_content : string }.

Record PassWorld := {
  pw_memory : Memory; pw_disk : gmap string DiskEntry; pw_server : gmap string string; pw_ino : Z
}.

Definition set_pw_memory (m : Memory) (w : PassWorld) : PassWorld :=
  {| pw_memory := m; pw_disk := pw_disk w; pw_server := pw_server w; pw_ino := pw_ino w |}.
Definition set_pw_disk (d : gmap string DiskEntry) (w : PassWorld) : PassWorld :=
  {| pw_memory := pw_memory w; pw_disk := d; pw_server := pw_server w; pw_ino := pw_ino w + 1 |}.
Definition set_pw_server (s : gmap string string) (w : PassWorld) : PassWorld :=
  {| pw_memory := pw_memory w; pw_disk := pw_disk w; pw_server := s; pw_ino := pw_ino w |}.

Definition noEntry {A} : result EngineError A := Throw (SystemError (Some "ENOENT")).
Definition notFound {A} : result EngineError A := Throw (ApiError 404 None "Not found." None).

Definition statsOf (e : DiskEntry) : Stats :=
  {| sa_kind := de_kind e; sa_size := byteLength (de_content e); sa_mtimeNs := de_mtimeNs e;
     sa_ino := de_ino e |}.
Definition found {A} (o : option DiskEntry) (f : DiskEntry -> A) : result EngineError A :=
  match o with Some e => Ok (f e) | None => noEntry end.
Definition entryWith (kind : FileKind) (ino : Z) (content : string) : DiskEntry :=
  {| de_kind := kind; de_mtimeNs := 2000000000; de_ino := ino; de_content := content |}.

Definition respondDisk (w : PassWorld) (call : DiskCall) :
    result EngineError (diskAnswer call) * PassWorld :=
  let d := pw_disk w in
  match call with
  | statRoot => (Ok (statsOf (entryWith directory 1 "")), w)
  | readdir rel =>
      (Ok (baseName <$> filter (fun key => parentRel key = rel) (map_to_list d).*1), w)
  | lstat rel => (found (d !! rel) statsOf, w)
  | statfs _ => (Ok 1000000000, w)
  | readFile rel => (found (d !! rel) de_content, w)
  | readAt rel start len =>
      (found (d !! rel) (fun e => String.substring (Z.to_nat start) (Z.to_nat len) (de_content e)), w)
  | openFile _ | closeFile _ => (Ok tt, w)
  | makeFolder rel =>
      (Ok tt, if bool_decide (rel = "") then w
              else set_pw_disk (<[rel := entryWith directory (pw_ino w) ""]> d) w)
  | renamePath from to =>
      match d !! from with
      | Some e => (Ok tt, set_pw_disk (<[to := e]> (delete from d)) w)
      | None => (noEntry, w)
      end
  | removePath rel => (Ok tt, set_pw_disk (delete rel d) w)
  | trashPath rel =>
      (Ok tt, set_pw_disk (filter (fun e => e.1 <> rel /\ startsWith (rel +:+ "/") e.1 = false) d) w)
  | createFile rel =>
      (Ok tt, set_pw_disk (<[rel := entryWith regularFile (pw_ino w) ""]> d) w)
  | appendFile rel content =>
      (Ok tt, set_pw_disk (alter (fun e => entryWith (de_kind e) (de_ino e)
                                             (de_content e +:+ content)) rel d) w)
  | setTimes _ _ => (Ok tt, w)
  end.

Definition respondApi (w : PassWorld) (call : ApiCall) :
    result EngineError (apiAnswer call) * PassWorld :=
  match call with
  | downloadFile id =>
      (match pw_server w !! id with
       | Some content => Ok {| db_chunks := [content]; db_error := None |}
       | None => notFound
       end, w)
  | trashFile id _ => (Ok tt, set_pw_server (delete id (pw_server w)) w)
  | uploadSmall input body =>
      (Ok {| uf_id := "up-" +:+ up_name input; uf_folderId := Some (up_folderId input);
             uf_name := up_name input; uf_sizeBytes := byteLength body;
             uf_storageRevision := Some 1; uf_clientModifiedAt := None |},
       set_pw_server (<["up-" +:+ up_name input := body]> (pw_server w)) w)
  | _ => (notFound, w)
  end.

Definition respond (w : PassWorld) (e : Effect) : Answer e * PassWorld :=
  match e with
  | recall => (pw_memory w, w)
  | write x => (tt, set_pw_memory (written x (pw_memory w)) w)
  | tell _ | abort => (tt, w)
  | current => (true, w)
  | isAborted => (false, w)
  | dateNow => (1000000, w)
  | newDate => ({| getFullYear := 2026; getMonth := 0; getDate := 1; getHours := 0;
                   getMinutes := 0 |}, w)
  | randomUUID => ("u", w)
  | throttle _ _ => (Ok tt, w)
  | disk call => respondDisk w call
  | api call => respondApi w call
  end.

(** ** The pair *)

Definition examplePair (mode : SyncMode) : PairContext :=
  {| cx_pair := {| pr_id := "p"; pr_localPath := "/home/u/Docs"; pr_remoteFolderId := "root";
                   pr_remoteLabel := "Docs"; pr_mode := mode; pr_skipFolders := None;
                   pr_skipPaths := None |};
     cx_deviceName := "laptop"; cx_ignore := fun _ => false; cx_minFreeBytes := 0;
     cx_platform := linux; cx_depth := 10 |}.

Definition agreedRow (rel id ino checksum : string) : BaseEntry :=
  {| be_pairId := "p"; be_rel := rel; be_type := file; be_remoteId := id; be_rev := 1;
     be_checksum := Some checksum; be_size := 3; be_mtimeMs := 1000; be_ino := ino |}.

Definition onServer (id name checksum : string) (rev : Z) : RemoteItem :=
  {| ri_id := id; ri_type := file; ri_parentId := Some "root"; ri_name := name;
     ri_size := Some 3; ri_checksum := Some checksum; ri_rev := rev; ri_modifiedAt := None |}.

Definition passStore : Store :=
  foldl (fun s row => putBase row s)
    {| st_meta := ∅; st_remote := ∅; st_base := ∅; st_upload := ∅; st_conflict := [];
       st_nextConflict := 1 |}
    [agreedRow "a.txt" "a" "11" "#old"; agreedRow "b.txt" "b" "12" "#bbb";
     agreedRow "c.txt" "c" "13" "#ccc"].

Definition passMemory : Memory :=
  {| me_tree := addUnder [onServer "a" "a.txt" "#new" 2; onServer "c" "c.txt" "#ccc" 1]
                  (newRemoteTree passStore {["root"]});
     me_hashes := ∅; me_full := {| fu_size := None; fu_message := None |};
     me_pass := emptyPass |}.

Definition localFile (ino : Z) (content : string) : DiskEntry :=
  {| de_kind := regularFile; de_mtimeNs := 1000000000; de_ino := ino; de_content := content |}.

Definition passWorld : PassWorld :=
  {| pw_memory := passMemory;
     pw_disk := list_to_map [("a.txt", localFile 11 "old"); ("b.txt", localFile 12 "bbb");
                             ("d.txt", localFile 14 "ddd")];
     pw_server := list_to_map [("a", "new"); ("c", "ccc")]; pw_ino := 100 |}.

Definition passTrace (mode : SyncMode) : History * PassWorld * option EngineError :=
  run respond passWorld (passProgram (examplePair mode)).

Notation traceOf mode := (passTrace mode).1.1.

Lemma examplePass_runs mode :
  passRun (examplePair mode) (responds respond) passWorld (traceOf mode).
Proof.
  exists (passTrace mode).1.2, (stop (passTrace mode).2). apply run_runs. unfold passTrace.
  by destruct (run respond passWorld (passProgram (examplePair mode))) as [[t w] th].
Qed.

(** The run up to one of its events. *)
Lemma examplePass_at mode n ev :
  traceOf mode !! n = Some ev ->
  passRun (examplePair mode) (responds respond) passWorld
    (take n (traceOf mode) ++ ev :: drop (S n) (traceOf mode)).
Proof. intros E. rewrite take_drop_middle by done. apply examplePass_runs. Qed.

(** Everything is settled in one pass. *)
Example examplePass_settles :
  (passTrace TwoWay).2 = None /\
  (de_content <$> pw_disk (passTrace TwoWay).1.2) = {[ "a.txt" := "new"; "d.txt" := "ddd" ]} /\
  pw_server (passTrace TwoWay).1.2 = {[ "a" := "new"; "up-d.txt" := "ddd" ]}.
Proof. by vm_compute. Qed.

(** ** Gaps *)

(** After the scan, [b.txt] is replaced by a folder of that name with new work in
    it. The handler compares size and time of a file only, so the folder goes to
    the trash with all it holds. *)
Definition respondLater (w : PassWorld) (e : Effect) : Answer e * PassWorld :=
  match e with
  | disk (statfs rel) =>
      respond (set_pw_disk (<["b.txt/new.txt" := localFile 16 "new work"]>
                 (<["b.txt" := entryWith directory 15 ""]> (pw_disk w))) w) (disk (statfs rel))
  | e => respond w e
  end.

Example file_turned_folder_is_trashed :
  let '(_, w, thrown) := run respondLater passWorld (passProgram (examplePair TwoWay)) in
  thrown = None /\ pw_disk w !! "b.txt/new.txt" = None /\ pw_disk w !! "b.txt" = None.
Proof. by vm_compute. Qed.

(** The server renamed [a.txt]; the file is edited here after the scan, just before
    the pass repeats the rename. The row of the new path gets the size and time
    of the edit with the checksum of what was there, so the edit is taken for
    agreed: neither the rest of the pass nor the next one sends it. *)
Definition renamedStore : Store := putBase (agreedRow "a.txt" "a" "11" "#old")
  {| st_meta := ∅; st_remote := ∅; st_base := ∅; st_upload := ∅; st_conflict := [];
     st_nextConflict := 1 |}.
Definition renamedWorld : PassWorld :=
  {| pw_memory := {| me_tree := addUnder [onServer "a" "z.txt" "#old" 2]
                                  (newRemoteTree renamedStore {["root"]});
                     me_hashes := ∅; me_full := {| fu_size := None; fu_message := None |};
                     me_pass := emptyPass |};
     pw_disk := {["a.txt" := localFile 11 "old"]}; pw_server := {["a" := "old"]}; pw_ino := 100 |}.

Definition respondEdited (w : PassWorld) (e : Effect) : Answer e * PassWorld :=
  match e with
  | disk (lstat "z.txt") =>
      respond (if bool_decide (is_Some (pw_disk w !! "a.txt"))
               then set_pw_disk (<["a.txt" := entryWith regularFile 11 "edited here"]> (pw_disk w)) w
               else w) (disk (lstat "z.txt"))
  | e => respond w e
  end.

Example edit_before_a_move_is_taken_for_agreed :
  let '(_, w, thrown) := run respondEdited renamedWorld (passProgram (examplePair TwoWay)) in
  let '(trace, w2, thrown2) := run respond w (passProgram (examplePair TwoWay)) in
  thrown = None /\ thrown2 = None /\
  (de_content <$> pw_disk w2) = {["z.txt" := "edited here"]} /\ pw_server w2 = {["a" := "old"]} /\
  (be_checksum <$> baseEntries "p" (rt_store (me_tree (pw_memory w2)))) = [Some "#old"].
Proof. by vm_compute. Qed.

(** ** Witnesses *)

Lemma download_only_pass_only_downloads_witness :
  event (api (downloadFile "a")) (Ok {| db_chunks := ["new"]; db_error := None |})
    ∈ traceOf Download /\ exists id, downloadFile "a" = downloadFile id.
Proof.
  assert (Hin : event (api (downloadFile "a")) (Ok {| db_chunks := ["new"]; db_error := None |})
    ∈ traceOf Download) by (apply (list_elem_of_lookup_2 _ 70%nat); by vm_compute).
  split; [exact Hin|].
  by apply (download_only_pass_only_downloads (examplePair Download) (responds respond)
    passWorld (traceOf Download) (downloadFile "a") (Ok {| db_chunks := ["new"]; db_error := None |})
    eq_refl (examplePass_runs Download)).
Defined.

Lemma upload_only_pass_only_reads_here_witness :
  (forall call a, event (disk call) a ∈ traceOf Upload -> diskReads call) /\
  (forall call a, event (api call) a ∈ traceOf Upload -> ~ deletesOnServer call).
Proof.
  exact (upload_only_pass_only_reads_here (examplePair Upload) (responds respond)
    passWorld (traceOf Upload) eq_refl (examplePass_runs Upload)).
Defined.

(** The same run, each effect with its thread's log. *)
Definition respondLogged (w : PassWorld) (e : Logged (Ans := Answer)) : LoggedAns e * PassWorld :=
  respond w e.2.
Definition threadTrace : list (Event (LoggedAns (Ans := Answer))) :=
  (run respondLogged passWorld (logged [] (passProgram (examplePair TwoWay)))).1.1.

Lemma exampleThreads_run :
  passThreads (examplePair TwoWay) (responds respond) passWorld threadTrace.
Proof.
  unfold threadTrace, passThreads.
  destruct (run respondLogged passWorld (logged [] (passProgram (examplePair TwoWay))))
    as [[t w] th] eqn:E. exists w, (stop th). by apply (run_runs respondLogged).
Qed.

(** What the thread that renames onto [a.txt] did before. *)
Definition ownOfRename : History :=
  match threadTrace !! 73%nat with Some ev => (projT1 ev).1 | None => [] end.

Lemma pass_overwrites_only_agreed_files_witness :
  ownOfRename `sublist_of` (plain <$> drop 74 threadTrace) /\
  (justSaw ownOfRename "a.txt" None \/ agreedAndUnchanged (examplePair TwoWay) ownOfRename "a.txt" \/
   exists now, freshName ownOfRename ".staaash-part-u" now "a.txt").
Proof.
  apply (pass_overwrites_only_agreed_files (examplePair TwoWay) (responds respond)
    passWorld (take 73 threadTrace) ownOfRename ".staaash-part-u" "a.txt" (Ok tt) (drop 74 threadTrace)).
  rewrite take_drop_middle; [exact exampleThreads_run|by vm_compute].
Defined.

Lemma pass_trashes_only_unchanged_files_witness :
  exists H input here now, H `sublist_of` drop 27 (traceOf TwoWay) /\
    planSeen (examplePair TwoWay) H input /\
    trash_local "b.txt" here ∈ pl_actions (plan input) /\ justSaw H "b.txt" (Some now) /\
    (le_type now = file -> localStat now = lf_stat here) /\
    (lf_type here = file ->
       here ∈ in_local input /\
       exists previous, previous ∈ in_base input /\
         pathKey (be_rel previous) = pathKey (lf_rel here) /\ unchangedHere previous here /\
         (forall each, each ∈ in_remote input ->
            pathKey (si_rel each) <> pathKey (lf_rel here) /\
            ri_id (si_item each) <> be_remoteId previous) /\
         be_remoteId previous ∉ hd_ids (v_hidden (view input))).
Proof.
  apply (pass_trashes_only_unchanged_files (examplePair TwoWay) (responds respond)
    passWorld (take 26 (traceOf TwoWay)) "b.txt" (Ok tt) (drop 27 (traceOf TwoWay))).
  apply examplePass_at. by vm_compute.
Defined.

Lemma pass_trashes_on_server_what_is_gone_here_witness :
  pr_mode (cx_pair (examplePair TwoWay)) = TwoWay /\
  exists H rel input item previous, H `sublist_of` drop 17 (traceOf TwoWay) /\
    planSeen (examplePair TwoWay) H input /\
    trash_remote rel item ∈ pl_actions (plan input) /\ justSaw H rel None /\
    "c" = ri_id item /\ 1 = ri_rev item /\ previous ∈ in_base input /\
    unchangedThere previous item /\
    (forall here, here ∈ in_local input -> pathKey (lf_rel here) <> pathKey (be_rel previous)).
Proof.
  apply (pass_trashes_on_server_what_is_gone_here (examplePair TwoWay) (responds respond)
    passWorld (take 16 (traceOf TwoWay)) "c" 1 (Ok tt) (drop 17 (traceOf TwoWay))).
  apply examplePass_at. by vm_compute.
Defined.

Definition downloadedRow : BaseEntry :=
  {| be_pairId := "p"; be_rel := "a.txt"; be_type := file; be_remoteId := "a"; be_rev := 2;
     be_checksum := Some "#new"; be_size := 3; be_mtimeMs := 2000; be_ino := "100" |}.

(** What the thread that saves that row did before. *)
Definition ownOfRow : History :=
  match threadTrace !! 71%nat with Some ev => (projT1 ev).1 | None => [] end.

Lemma base_records_only_what_happened_witness :
  ownOfRow `sublist_of` (plain <$> drop 72 threadTrace) /\
  rowStands (examplePair TwoWay) ownOfRow downloadedRow.
Proof.
  apply (base_records_only_what_happened (examplePair TwoWay) (responds respond)
    passWorld (take 71 threadTrace) ownOfRow (storePutBase downloadedRow) tt (drop 72 threadTrace)).
  rewrite take_drop_middle; [exact exampleThreads_run|by vm_compute].
Defined.

Definition seenFile (rel ino : string) : LocalEntry :=
  {| le_rel := rel; le_type := file; le_size := 3; le_mtimeMs := 1000; le_ino := ino |}.
Definition firstScan : LocalScan :=
  {| ls_entries := [seenFile "a.txt" "11"; seenFile "b.txt" "12"; seenFile "d.txt" "14"];
     ls_excluded := [] |}.

Lemma scan_leaves_nothing_out_witness :
  exists reads H0, reads ++ H0 `sublist_of` drop 101 (traceOf TwoWay) /\ Forall isReading reads /\
    (forall e, e ∈ ls_entries firstScan -> exists stats,
       event (disk (lstat (le_rel e))) (Ok stats) ∈ reads /\ e = toEntry (le_rel e) stats) /\
    (forall rel, rel = "" \/ (exists e, e ∈ ls_entries firstScan /\ le_rel e = rel /\ le_type e = folder) ->
       exists names, event (disk (readdir rel)) (Ok names) ∈ reads /\
         forall name, name ∈ names -> joinRel rel name ∈ rels (ls_entries firstScan) (ls_excluded firstScan)).
Proof.
  apply (scan_leaves_nothing_out (examplePair TwoWay) (responds respond)
    passWorld (take 100 (traceOf TwoWay)) firstScan tt (drop 101 (traceOf TwoWay))).
  apply examplePass_at. by vm_compute.
Defined.
