(* ===== verification/Requests.v ===== *)
(** * Requests served at the same time

    A server runs a program per request. [system_step] lets any of them perform
    its next effect, lets new ones start and others end, at any point, as when
    their process dies, and lets the rest of the installation work in between.

    The rules are those of rely and guarantee. An effect is [Allowed] in a world
    when performing it keeps the invariant and does to the other programs only
    what [Guarantee] says. What a program knows between two effects must be
    stable: nothing the others may do makes it false. [serves t A task Q]: from
    a world in which [A] holds, the program [t] performs only allowed effects in
    [task], and [Q] holds of its outcome. *)

From S2P Require Import Prelude Async.

Section Requests.
Context {Eff Err : Type} {Ans : Eff -> Type} {World : Type}.
#[local] Notation Proc := (@Proc Eff Err Ans).
#[local] Notation Task := (@Task Eff Err Ans).

(** What an effect of a program does, what the rest of the installation does, and
    what the end of a program leaves. *)
Context (performs : nat -> World -> forall e : Eff, Ans e -> World -> Prop).
Context (elsewhere : World -> World -> Prop) (ended : nat -> World -> World).
Context (program : Proc -> Prop).

Record System := { sy_world : World; sy_programs : gmap nat Proc }.

Inductive system_step : System -> System -> Prop :=
| sys_goes w ps t e k a w' :
    ps !! t = Some (await e k) -> performs t w e a w' ->
    system_step {| sy_world := w; sy_programs := ps |}
                {| sy_world := w'; sy_programs := <[t := k a]> ps |}
| sys_starts w ps t p :
    ps !! t = None -> program p ->
    system_step {| sy_world := w; sy_programs := ps |}
                {| sy_world := w; sy_programs := <[t := p]> ps |}
| sys_ends w ps t p :
    ps !! t = Some p ->
    system_step {| sy_world := w; sy_programs := ps |}
                {| sy_world := ended t w; sy_programs := delete t ps |}
| sys_elsewhere w ps w' :
    elsewhere w w' ->
    system_step {| sy_world := w; sy_programs := ps |}
                {| sy_world := w'; sy_programs := ps |}.

(** ** Rely and guarantee *)

Context (Inv : World -> Prop) (Allowed : nat -> World -> Eff -> Prop).
Context (Guarantee : nat -> World -> World -> Prop) (Fresh : nat -> World -> Prop).

Definition Assertion : Type := World -> Prop.

(** What may happen while [t] waits. *)
Definition Rely (t : nat) (w w' : World) : Prop :=
  (exists t', t' <> t /\ Guarantee t' w w') \/ elsewhere w w'.

Class Stable (t : nat) (A : Assertion) : Prop :=
  stable w w' : Inv w -> Inv w' -> Rely t w w' -> A w -> A w'.

Fixpoint follows (t : nat) (A : Assertion) (p : Proc) : Prop :=
  match p with
  | stop _ => True
  | await e k =>
      (forall w, Inv w -> A w -> Allowed t w e) /\
      forall a, exists B, Stable t B /\
        (forall w w', Inv w -> Inv w' -> A w -> performs t w e a w' -> B w') /\
        follows t B (k a)
  | pooled _ _ _ _ => forall w, Inv w -> ~ A w
  end.

Lemma follows_weak t (A B : Assertion) p :
  (forall w, Inv w -> B w -> A w) -> follows t A p -> follows t B p.
Proof.
  destruct p as [| e k|]; cbn; intros HAB H; [done| |by intros w Hi Hb; apply (H w Hi), HAB].
  destruct H as [Ha Hk]. split; [auto|]. intros a. destruct (Hk a) as (C & HC & HAC & Hf).
  exists C. split_and!; [done| |done]. intros w w' Hi Hi' Hb Hp. eauto.
Qed.

(** All that is enough for a program, together. *)
Definition enough (t : nat) (p : Proc) : Assertion := fun w => exists A, follows t A p /\ A w.

Lemma follows_enough t p : follows t (enough t p) p.
Proof.
  induction p as [|e k IH|]; cbn; [done| |by intros w Hi (A & Hn & Hw); eapply Hn].
  split.
  - intros w Hi (A & [Ha _] & Hw). eauto.
  - intros a. exists (fun w => exists B, Stable t B /\ follows t B (k a) /\ B w). split_and!.
    + intros w w' Hi Hi' Hr (B & HB & Hf & Hw). exists B. eauto.
    + intros w w' Hi Hi' (A & [_ Hk] & Hw) Hp. destruct (Hk a) as (B & HB & HAB & Hf). eauto.
    + eapply follows_weak; [|apply IH]. intros w _ (B & _ & Hf & Hw). by exists B.
Qed.

(** ** Rules, one per way to make a task *)

Definition serves {X} (t : nat) (A : Assertion) (task : Task X)
    (Q : result Err X -> Assertion) : Prop :=
  forall k, (forall r, follows t (Q r) (k r)) -> follows t A (task k).

Lemma serves_weak {X} t (A B : Assertion) (task : Task X) (Q R : result Err X -> Assertion) :
  serves t A task Q -> (forall w, Inv w -> B w -> A w) ->
  (forall r w, Inv w -> Q r w -> R r w) -> serves t B task R.
Proof.
  intros Hs HB HQ k Hk. eapply follows_weak; [exact HB|]. apply Hs. intros r.
  eapply follows_weak; [apply HQ|apply Hk].
Qed.

Lemma serves_pre {X} t (A B : Assertion) (task : Task X) Q :
  serves t A task Q -> (forall w, Inv w -> B w -> A w) -> serves t B task Q.
Proof. intros Hs HB. eapply serves_weak; eauto. Qed.

Lemma serves_post {X} t A (task : Task X) (Q R : result Err X -> Assertion) :
  serves t A task Q -> (forall r w, Inv w -> Q r w -> R r w) -> serves t A task R.
Proof. intros Hs HQ. eapply serves_weak; eauto. Qed.

Lemma serves_ret {X} t (A : Assertion) (x : X) (Q : result Err X -> Assertion) :
  (forall w, Inv w -> A w -> Q (Ok x) w) -> serves t A (mret x) Q.
Proof. intros HA k Hk. eapply follows_weak; [exact HA|apply Hk]. Qed.

Lemma serves_throw {X} t (A : Assertion) e (Q : result Err X -> Assertion) :
  (forall w, Inv w -> A w -> Q (Throw e) w) -> serves t A (throw e) Q.
Proof. intros HA k Hk. eapply follows_weak; [exact HA|apply Hk]. Qed.

Lemma serves_bind {X Y} t A (m : Task X) (f : X -> Task Y) (M : X -> Assertion) Q :
  serves t A m (fun r => match r with Ok x => M x | Throw e => Q (Throw e) end) ->
  (forall x, serves t (M x) (f x) Q) -> serves t A (m ≫= f) Q.
Proof.
  intros Hm Hf k Hk. unfold mbind, task_bind. apply Hm. intros [x|e]; [by apply Hf|apply Hk].
Qed.

Lemma serves_catch {X} t A (m : Task X) (h : Err -> Task X) (E : Err -> Assertion) Q :
  serves t A m (fun r => match r with Ok x => Q (Ok x) | Throw e => E e end) ->
  (forall e, serves t (E e) (h e) Q) -> serves t A (catch m h) Q.
Proof.
  intros Hm Hh k Hk. unfold catch. apply Hm. intros [x|e]; [apply Hk|by apply Hh].
Qed.

Lemma serves_ask t (A : Assertion) e (Q : result Err (Ans e) -> Assertion) :
  (forall w, Inv w -> A w -> Allowed t w e) -> (forall a, Stable t (Q (Ok a))) ->
  (forall a w w', Inv w -> Inv w' -> A w -> performs t w e a w' -> Q (Ok a) w') ->
  serves t A (ask e) Q.
Proof.
  intros Ha HQ Hp k Hk. unfold ask. cbn. split; [done|]. intros a. exists (Q (Ok a)).
  split_and!; [done|by apply Hp|apply Hk].
Qed.

Lemma serves_settle {X} t A (m : Task (result Err X)) (Q : result Err X -> Assertion) :
  serves t A m (fun r => match r with Ok r' => Q r' | Throw e => Q (Throw e) end) ->
  serves t A (settle m) Q.
Proof. intros Hm k Hk. unfold settle. apply Hm. intros [r|e]; apply Hk. Qed.

(** What does not depend on the world may be assumed. *)
Lemma serves_assume {X} t (P : Prop) (A : Assertion) (task : Task X) Q :
  (P -> serves t A task Q) -> serves t (fun w => P /\ A w) task Q.
Proof.
  intros Hs k Hk. eapply follows_weak; [|apply follows_enough]. intros w _ [HP Hw].
  exists A. split; [|done]. by apply Hs.
Qed.

Lemma serves_any {X Y} t (A : Y -> Assertion) (task : Task X) Q :
  (forall y, serves t (A y) task Q) -> serves t (fun w => exists y, A y w) task Q.
Proof.
  intros Hs k Hk. eapply follows_weak; [|apply follows_enough]. intros w _ [y Hw].
  exists (A y). split; [|done]. by apply Hs.
Qed.

Lemma serves_forEach {X} t (A : Assertion) (l : list X) (f : X -> Task unit) Q :
  (forall x, x ∈ l -> serves t A (f x)
     (fun r => match r with Ok _ => A | Throw e => Q (Throw e) end)) ->
  (forall w, Inv w -> A w -> Q (Ok tt) w) -> serves t A (forEach l f) Q.
Proof.
  intros Hf HQ. induction l as [|x l IH]; cbn; [by apply serves_ret|].
  eapply (serves_bind _ _ _ _ (fun _ => A)).
  - eapply serves_post; [apply Hf; left|]. by intros [[]|e].
  - intros []. apply IH. intros y Hy. apply Hf. by right.
Qed.

(** ** What holds in every system that can be reached *)

Context (allowed_keeps : forall t w e a w',
  Inv w -> Allowed t w e -> performs t w e a w' -> Inv w' /\ Guarantee t w w').
Context (ended_keeps : forall t w, Inv w ->
  Inv (ended t w) /\ Guarantee t w (ended t w) /\ Fresh t (ended t w)).
Context (elsewhere_keeps : forall w w', Inv w -> elsewhere w w' -> Inv w').
Context (fresh_stable : forall t, Stable t (Fresh t)).
Context (program_follows : forall p t, program p -> follows t (Fresh t) p).

(** Every program stands where it knows something that makes the rest of it
    allowed, and who is not running has nothing. *)
Definition sound (s : System) : Prop :=
  Inv (sy_world s) /\
  (forall t p, sy_programs s !! t = Some p ->
     exists A, Stable t A /\ A (sy_world s) /\ follows t A p) /\
  (forall t, sy_programs s !! t = None -> Fresh t (sy_world s)).

Lemma sound_rely s w' ps' t0 :
  sound s -> Inv w' -> (forall t, t <> t0 -> Rely t (sy_world s) w') ->
  (forall t, t <> t0 -> ps' !! t = sy_programs s !! t) ->
  (forall p, ps' !! t0 = Some p -> exists A, Stable t0 A /\ A w' /\ follows t0 A p) ->
  (ps' !! t0 = None -> Fresh t0 w') ->
  sound {| sy_world := w'; sy_programs := ps' |}.
Proof.
  intros (Hi & Hps & Hfr) Hi' Hr Heq H0 H0'. split_and!; cbn; [done| |].
  - intros t p Hp. destruct (decide (t = t0)) as [->|Hn]; [by apply H0|].
    rewrite Heq in Hp by done. destruct (Hps t p Hp) as (A & HA & Hw & Hf).
    exists A. split_and!; [done| |done]. exact (HA _ _ Hi Hi' (Hr t Hn) Hw).
  - intros t Hp. destruct (decide (t = t0)) as [->|Hn]; [by apply H0'|].
    rewrite Heq in Hp by done. exact (fresh_stable t _ _ Hi Hi' (Hr t Hn) (Hfr t Hp)).
Qed.

Lemma sound_step s s' : sound s -> system_step s s' -> sound s'.
Proof.
  intros Hs Hstep. pose proof Hs as (Hi & Hps & Hfr).
  destruct Hstep as [w ps t e k a w' Hp Hperf|w ps t p Hp Hprog|w ps t p Hp|w ps w' He];
    cbn in Hi, Hps, Hfr.
  - destruct (Hps t _ Hp) as (A & HA & Hw & Ha & Hk).
    destruct (allowed_keeps _ _ _ _ _ Hi (Ha _ Hi Hw) Hperf) as [Hi' Hg].
    destruct (Hk a) as (B & HB & HAB & Hf).
    apply (sound_rely _ _ _ t Hs Hi'); cbn.
    + intros t' Hn. left. exists t. by split; [intros ->|].
    + intros t' Hn. by rewrite lookup_insert_ne.
    + intros p. rewrite lookup_insert_eq. intros [= <-]. exists B. split_and!; [done|eauto|done].
    + by rewrite lookup_insert_eq.
  - split_and!; cbn; [done| |].
    + intros t' p' Hp'. destruct (decide (t' = t)) as [->|Hn].
      * rewrite lookup_insert_eq in Hp'. injection Hp' as <-.
        exists (Fresh t). split_and!; [apply fresh_stable|by apply Hfr|by apply program_follows].
      * rewrite lookup_insert_ne in Hp' by done. eauto.
    + intros t' Hp'. destruct (decide (t' = t)) as [->|Hn]; [by rewrite lookup_insert_eq in Hp'|].
      rewrite lookup_insert_ne in Hp' by done. eauto.
  - destruct (ended_keeps t _ Hi) as (Hi' & Hg & Hf). apply (sound_rely _ _ _ t Hs Hi'); cbn.
    + intros t' Hn. left. exists t. by split; [intros ->|].
    + intros t' Hn. by rewrite lookup_delete_ne.
    + by rewrite lookup_delete_eq.
    + done.
  - pose proof (elsewhere_keeps _ _ Hi He) as Hi'. split_and!; cbn; [done| |].
    + intros t p Hp. destruct (Hps t p Hp) as (A & HA & Hw & Hf). exists A.
      split_and!; [done| |done]. apply (HA _ _ Hi Hi'); [by right|done].
    + intros t Hp. apply (fresh_stable t _ _ Hi Hi'); [by right|by apply Hfr].
Qed.

Lemma sound_steps s s' : sound s -> rtc system_step s s' -> sound s'.
Proof. intros Hs Hr. induction Hr; eauto using sound_step. Qed.

(** The next effect of every program is allowed. *)
Lemma sound_allowed s t e k :
  sound s -> sy_programs s !! t = Some (await e k) -> Allowed t (sy_world s) e.
Proof. intros (Hi & Hps & _) Hp. destruct (Hps _ _ Hp) as (A & _ & Hw & Ha & _). eauto. Qed.
End Requests.

Arguments System : clear implicits.
