(* ===== verification/UploadAdmission.v ===== *)
(** * Admission of uploads

    [apps/web/server/uploads/admission.ts], with the statuses and limits of
    [packages/db/src/upload-sessions.ts]: the locks an admission takes, what it
    counts, the limits it asserts, and the reservation it makes. *)

From S2P Require Import Prelude ChunkProtocol Database MutationMetadata.

Open Scope Z_scope.

(** ** Statuses and limits *)

Definition isTerminalUploadSessionStatus (status : SessionStatus) : bool :=
  match status with
  | ss_completed | ss_failed | ss_cancelled | ss_expired => true
  | _ => false
  end.

(** [ACTIVE_UPLOAD_SESSION_STATUSES], [RECEIVABLE_UPLOAD_SESSION_STATUSES]. *)
Definition isActiveStatus (status : SessionStatus) : bool :=
  match status with ss_allocating | ss_created | ss_receiving => true | _ => false end.
Definition isReceivableStatus (status : SessionStatus) : bool :=
  match status with ss_created | ss_receiving => true | _ => false end.

Definition UPLOAD_SESSION_TTL_MS : Z := 24 * 60 * 60 * 1000.
Definition UPLOAD_ALLOCATION_LEASE_MS : Z := 10 * 60 * 1000.
Definition UPLOAD_TERMINAL_RETENTION_MS : Z := 24 * 60 * 60 * 1000.
Definition STAGING_CLEANUP_INTERVAL_MS : Z := 15 * 60 * 1000.
Definition CLEANUP_WINDOWS_PER_RETENTION : Z :=
  UPLOAD_TERMINAL_RETENTION_MS / STAGING_CLEANUP_INTERVAL_MS.

Record SessionLimits := { sl_perUser : Z; sl_instance : Z }.
Definition OPEN_SESSION_LIMITS : SessionLimits := {| sl_perUser := 32; sl_instance := 128 |}.
Definition TERMINAL_BACKLOG_LIMITS : SessionLimits :=
  {| sl_perUser := sl_perUser OPEN_SESSION_LIMITS * CLEANUP_WINDOWS_PER_RETENTION;
     sl_instance := sl_instance OPEN_SESSION_LIMITS * CLEANUP_WINDOWS_PER_RETENTION |}.

(** The HTTP status of a refusal. *)
Definition admissionErrorStatus (code : UploadAdmissionErrorCode) : Z :=
  match code with
  | UPLOAD_SIZE_LIMIT_EXCEEDED | UPLOAD_QUOTA_EXCEEDED => 413
  | RESUMABLE_USER_SESSION_LIMIT_EXCEEDED | RESUMABLE_INSTANCE_SESSION_LIMIT_EXCEEDED
  | RESUMABLE_USER_RESERVED_BYTES_LIMIT_EXCEEDED
  | RESUMABLE_INSTANCE_RESERVED_BYTES_LIMIT_EXCEEDED => 429
  | UPLOAD_USER_SESSION_BACKLOG_LIMIT_EXCEEDED | UPLOAD_INSTANCE_SESSION_BACKLOG_LIMIT_EXCEEDED
  | UPLOAD_STORAGE_CAPACITY_UNAVAILABLE | UPLOAD_ADMISSION_BUSY => 503
  | UPLOAD_STORAGE_CAPACITY_EXCEEDED => 507
  end.

(** ** What a transaction finds *)

Record LockedSettings := {
  lo_maxUploadBytes : Z;
  lo_resumableMaxReservedBytesPerUser : Z;
  lo_resumableMaxReservedBytesInstance : Z
}.

(** What [statfs] answers about the storage root. *)
Record Space := { sp_bavail : Z; sp_bsize : Z; sp_blocks : Z }.

(** The rows other transactions hold, [CURRENT_TIMESTAMP], the settings row, and
    the free space, unless it cannot be read. *)
Record Conditions := {
  cn_locks : Locks; cn_now : Z; cn_settings : option LockedSettings; cn_space : option Space
}.

Definition settingsRowLock : string := "row:SystemSettings".

(** [FOR UPDATE NOWAIT] of the user's row. *)
Definition lockUserQuotaRow (cn : Conditions) (ownerUserId : string) : Tx User :=
  user ← read (fun db => db_users db !! ownerUserId);
  match user with
  | None => throw (UploadAdmissionError UPLOAD_ADMISSION_BUSY)
  | Some user =>
      _ ← ensure (negb (bool_decide (userRowLock ownerUserId ∈ cn_locks cn))) LockNotAvailable;
      _ ← ensure (us_usageKnown user) (UploadAdmissionError UPLOAD_STORAGE_CAPACITY_UNAVAILABLE);
      mret user
  end.

Definition lockUploadCapacityRows (cn : Conditions) (ownerUserId : string) :
    Tx (LockedSettings * User) :=
  match cn_settings cn with
  | None => throw (UploadAdmissionError UPLOAD_ADMISSION_BUSY)
  | Some settings =>
      _ ← ensure (negb (bool_decide (settingsRowLock ∈ cn_locks cn))) LockNotAvailable;
      user ← lockUserQuotaRow cn ownerUserId; mret (settings, user)
  end.

(** ** What is counted *)

Record AdmissionStats := {
  as_userActiveCount : Z; as_instanceActiveCount : Z;
  as_userActiveReservedBytes : Z;
  as_userStagingLiabilityBytes : Z; as_instanceStagingLiabilityBytes : Z;
  as_instanceOutstandingGrowthBytes : Z;
  as_userTerminalCount : Z; as_instanceTerminalCount : Z;
  as_userCommittedBytes : Z
}.

Definition sumZ (l : list Z) : Z := foldr Z.add 0 l.

(** The sessions [p] holds of, their number and their sizes. *)
Definition sessionsThat (p : UploadSession -> bool) (db : DB) : list UploadSession :=
  filter (fun s => p s = true) (map_to_list (db_sessions db)).*2.
Definition countThat (p : UploadSession -> bool) (db : DB) : Z :=
  Z.of_nat (length (sessionsThat p db)).
Definition bytesOf (p : UploadSession -> bool) (db : DB) : Z :=
  sumZ (se_totalSizeBytes <$> sessionsThat p db).

Definition ownedBy (ownerUserId : string) (s : UploadSession) : bool :=
  bool_decide (se_ownerUserId s = ownerUserId).

(** The views [active], [unreleased] and [terminal] of the query; [active] is
    [sessionReserves]. *)
Definition unreleased (s : UploadSession) : bool := bool_decide (se_stagingReleasedAt s = None).
Definition finishedLongAgo (now : Z) (s : UploadSession) : bool :=
  isTerminalUploadSessionStatus (se_status s)
  && match se_terminalAt s with
     | None => true
     | Some at_ => bool_decide (at_ <= now - UPLOAD_TERMINAL_RETENTION_MS)
     end.
Definition lapsed (now : Z) (s : UploadSession) : bool :=
  negb (isTerminalUploadSessionStatus (se_status s)) && bool_decide (se_expiresAt s <= now).

Definition outstandingGrowth (s : UploadSession) : Z :=
  Z.max (se_totalSizeBytes s - ud_receivedBytes (se_upload s)) 0.

(** The reservations of the owner's mutations. *)
Definition reservedByMutations (ownerUserId : string) (db : DB) : Z :=
  sumZ (omap (fun e : string * Mutation =>
    if bool_decide (mu_ownerUserId e.2 = ownerUserId) then mu_reservedBytes e.2 else None)
    (map_to_list (db_mutations db))).

Definition readAdmissionStats (now : Z) (ownerUserId : string) (db : DB) : AdmissionStats :=
  let active := sessionReserves now in
  let own := ownedBy ownerUserId in
  {| as_userActiveCount := countThat (fun s => active s && own s) db;
     as_instanceActiveCount := countThat active db;
     as_userActiveReservedBytes :=
       bytesOf (fun s => active s && own s) db + reservedByMutations ownerUserId db;
     as_userStagingLiabilityBytes := bytesOf (fun s => unreleased s && own s) db;
     as_instanceStagingLiabilityBytes := bytesOf unreleased db;
     as_instanceOutstandingGrowthBytes :=
       sumZ (outstandingGrowth <$> sessionsThat (fun s => active s && unreleased s) db);
     as_userTerminalCount :=
       countThat (fun s => finishedLongAgo now s && own s) db
       + countThat (fun s => lapsed now s && own s) db;
     as_instanceTerminalCount := countThat (finishedLongAgo now) db + countThat (lapsed now) db;
     as_userCommittedBytes := committedStorageBytes db ownerUserId |}.

(** ** What is asserted *)

(** [if (refused) throw new UploadAdmissionError(code)]. *)
Definition refuseIf (refused : bool) (code : UploadAdmissionErrorCode) : Tx unit :=
  ensure (negb refused) (UploadAdmissionError code).

Definition assertPhysicalHeadroom (space : option Space) (outstandingGrowthBytes requestedBytes : Z) :
    Tx unit :=
  match space with
  | None => throw (UploadAdmissionError UPLOAD_STORAGE_CAPACITY_UNAVAILABLE)
  | Some disk =>
      let availableBytes := sp_bavail disk * sp_bsize disk in
      let totalBytes := sp_blocks disk * sp_bsize disk in
      let safetyFloorBytes := Z.quot totalBytes 10 in
      refuseIf (bool_decide (availableBytes - outstandingGrowthBytes - requestedBytes
                             < safetyFloorBytes))
        UPLOAD_STORAGE_CAPACITY_EXCEEDED
  end.

Definition assertUploadSizeAllowed (settings : LockedSettings) (requestedBytes : Z) : Tx unit :=
  refuseIf (bool_decide (lo_maxUploadBytes settings < requestedBytes)) UPLOAD_SIZE_LIMIT_EXCEEDED.

Definition assertActiveSessionCapacity (stats : AdmissionStats) : Tx unit :=
  _ ← refuseIf (bool_decide (sl_perUser OPEN_SESSION_LIMITS <= as_userActiveCount stats))
        RESUMABLE_USER_SESSION_LIMIT_EXCEEDED;
  refuseIf (bool_decide (sl_instance OPEN_SESSION_LIMITS <= as_instanceActiveCount stats))
    RESUMABLE_INSTANCE_SESSION_LIMIT_EXCEEDED.

Definition assertTerminalBacklogCapacity (stats : AdmissionStats) : Tx unit :=
  _ ← refuseIf (bool_decide (sl_perUser TERMINAL_BACKLOG_LIMITS <= as_userTerminalCount stats))
        UPLOAD_USER_SESSION_BACKLOG_LIMIT_EXCEEDED;
  refuseIf (bool_decide (sl_instance TERMINAL_BACKLOG_LIMITS <= as_instanceTerminalCount stats))
    UPLOAD_INSTANCE_SESSION_BACKLOG_LIMIT_EXCEEDED.

Definition assertStagingCapacity (settings : LockedSettings) (stats : AdmissionStats)
    (requestedBytes : Z) : Tx unit :=
  _ ← refuseIf (bool_decide (lo_resumableMaxReservedBytesPerUser settings
                             < as_userStagingLiabilityBytes stats + requestedBytes))
        RESUMABLE_USER_RESERVED_BYTES_LIMIT_EXCEEDED;
  refuseIf (bool_decide (lo_resumableMaxReservedBytesInstance settings
                         < as_instanceStagingLiabilityBytes stats + requestedBytes))
    RESUMABLE_INSTANCE_RESERVED_BYTES_LIMIT_EXCEEDED.

Definition assertUserQuotaCapacity (user : User) (stats : AdmissionStats)
    (requestedBytes : Z) : Tx unit :=
  match us_storageLimitBytes user with
  | Some limit =>
      refuseIf (bool_decide (0 < limit) &&
                bool_decide (limit < as_userCommittedBytes stats
                             + as_userActiveReservedBytes stats + requestedBytes))
        UPLOAD_QUOTA_EXCEEDED
  | None => mret tt
  end.

Definition assertAdmissionAllowed (space : option Space) (settings : LockedSettings) (user : User)
    (stats : AdmissionStats) (requestedBytes : Z) : Tx unit :=
  _ ← assertUploadSizeAllowed settings requestedBytes;
  _ ← assertActiveSessionCapacity stats;
  _ ← assertTerminalBacklogCapacity stats;
  _ ← assertStagingCapacity settings stats requestedBytes;
  _ ← assertUserQuotaCapacity user stats requestedBytes;
  assertPhysicalHeadroom space (as_instanceOutstandingGrowthBytes stats) requestedBytes.

(** ** Reserving *)

Record NewSession := {
  ns_id : string; ns_ownerUserId : string; ns_folderId : option string;
  ns_originalName : string; ns_mimeType : string; ns_totalSizeBytes : Z;
  ns_expectedChecksum : option string; ns_protocolVersion : Z; ns_chunkSizeBytes : option Z;
  ns_tmpPath : string; ns_conflictStrategy : string; ns_clientModifiedAt : option Z;
  ns_expiresAt : Z
}.

Definition newSession (input : NewSession) : UploadSession :=
  {| se_ownerUserId := ns_ownerUserId input; se_totalSizeBytes := ns_totalSizeBytes input;
     se_status := ss_allocating; se_expiresAt := ns_expiresAt input; se_terminalAt := None;
     se_stagingReleasedAt := None; se_committedFileId := None; se_cleanupLastError := None;
     se_storageMutationId := None; se_chunks := [];
     se_upload :=
       {| ud_folderId := ns_folderId input; ud_originalName := ns_originalName input;
          ud_mimeType := ns_mimeType input; ud_receivedBytes := 0;
          ud_expectedChecksum := ns_expectedChecksum input;
          ud_protocolVersion := ns_protocolVersion input;
          ud_chunkSizeBytes := ns_chunkSizeBytes input; ud_tmpPath := ns_tmpPath input;
          ud_conflictStrategy := ns_conflictStrategy input;
          ud_clientModifiedAt := ns_clientModifiedAt input; ud_cleanupAttemptCount := 0;
          ud_cleanupLastAttemptAt := None |} |}.

(** Ids and staging paths are unique. *)
Definition sessionTaken (input : NewSession) (db : DB) : bool :=
  bool_decide (db_sessions db !! ns_id input <> None)
  || existsb (fun s => bool_decide (ud_tmpPath (se_upload s) = ns_tmpPath input))
       (map_to_list (db_sessions db)).*2.

Definition reserveResumableSession (input : NewSession) (cn : Conditions) : Tx unit :=
  '(settings, user) ← lockUploadCapacityRows cn (ns_ownerUserId input);
  stats ← read (readAdmissionStats (cn_now cn) (ns_ownerUserId input));
  _ ← assertAdmissionAllowed (cn_space cn) settings user stats (ns_totalSizeBytes input);
  taken ← read (sessionTaken input);
  _ ← ensure (negb taken) UniqueViolation;
  modify (fun db => set_sessions (<[ns_id input := newSession input]> (db_sessions db)) db).

(** The quota's two sides, for a caller that holds the user's row. *)
Definition getQuotaUsageInTransaction (ownerUserId : string) (cn : Conditions) : Tx (Z * Z) :=
  user ← read (fun db => db_users db !! ownerUserId);
  _ ← ensure (match user with Some user => us_usageKnown user | None => false end)
        (UploadAdmissionError UPLOAD_STORAGE_CAPACITY_UNAVAILABLE);
  read (fun db =>
    (committedStorageBytes db ownerUserId,
     bytesOf (fun s => sessionReserves (cn_now cn) s && ownedBy ownerUserId s) db
     + reservedByMutations ownerUserId db)).
