(* ===== verification/UploadIo.v ===== *)
(** * What the upload service waits for

    First the types and paths of uploads: [resolveUploadMimeType] of
    [packages/config/src/media-types.ts], [getTmpUploadPath] of
    [apps/web/server/storage.ts] and [stagingPathIsSafe] of
    [uploads/session-service.ts].

    Then the effects of [apps/web/server/uploads] and of the worker's clean-up: the
    database, the advisory locks of a connection, the staging files, the body
    of a request, and the file service that commits an upload.

    A program's number is its connection. A call may fail and leave the world
    alone; a statement may have been carried out although its answer was lost; a
    connection may break at any call of a chunk's writer, and then its locks are
    gone and the writing stops. Staging paths are relative to the storage root.
    A file's content is a string of bytes. *)

From Stdlib Require Import Ascii.
From Stdlib Require String.
From S2P Require Import Prelude ChunkProtocol Database MutationMetadata MutationPrepare Journal Disk Io StoragePaths StorageLayout Async UploadAdmission.

(** ** Types *)

Definition normalizeMimeType (mimeType : string) : string :=
  toLowerCase (trim (nth 0 (splitOn ";" mimeType) "")).

Definition EXTENSION_MIME_TYPES : list (string * string) :=
  [("heic", "image/heic"); ("heif", "image/heif"); ("avif", "image/avif"); ("bmp", "image/bmp");
   ("gif", "image/gif"); ("jpeg", "image/jpeg"); ("jpg", "image/jpeg"); ("png", "image/png");
   ("webp", "image/webp"); ("avi", "video/x-msvideo"); ("m4v", "video/mp4");
   ("mkv", "video/x-matroska"); ("mov", "video/quicktime"); ("mp4", "video/mp4");
   ("ogv", "video/ogg"); ("webm", "video/webm"); ("aac", "audio/aac"); ("flac", "audio/flac");
   ("m4a", "audio/mp4"); ("mp3", "audio/mpeg"); ("oga", "audio/ogg"); ("ogg", "audio/ogg");
   ("opus", "audio/ogg"); ("wav", "audio/wav"); ("pdf", "application/pdf"); ("csv", "text/csv");
   ("log", "text/plain"); ("md", "text/markdown"); ("txt", "text/plain")].

Definition resolveUploadMimeType (mimeType fileName : string) : string :=
  let normalized := normalizeMimeType mimeType in
  let named := negb (bool_decide (normalized = "")) in
  if named && negb (bool_decide (normalized = "application/octet-stream")) then mimeType
  else
    let extension := match lastIndexOf "." fileName with
                     | None => ""
                     | Some dot => toLowerCase (sliceFrom (dot + 1) fileName)
                     end in
    match mapGet extension EXTENSION_MIME_TYPES with
    | Some known => known
    | None => if named then mimeType else "application/octet-stream"
    end.

(** ** Staging paths *)

Definition getTmpUploadPath (uploadId : string) : string := "tmp/" +:+ uploadId +:+ ".upload".

Definition stagingPath (id : string) : string := getTmpUploadPath ("rs-" +:+ id).

(** The path relative to [tmp] stays inside it. *)
Definition stagingPathIsSafe (targetPath : string) : bool :=
  match resolveSegments (splitOn slash targetPath) with
  | "tmp" :: below => negb (relativeEscapes below)
  | _ => false
  end.

Lemma stagingPath_inj id id' : stagingPath id = stagingPath id' -> id = id'.
Proof.
  unfold stagingPath, getTmpUploadPath. intros H%string_app_inj_l%string_app_inj_r.
  by apply string_app_inj_l in H.
Qed.

Example heic_by_name :
  resolveUploadMimeType "application/octet-stream" "IMG_1.HEIC" = "image/heic".
Proof. reflexivity. Qed.
Example reserved_name : normalizeFileName "nul.txt" = Throw "FILE_NAME_RESERVED".
Proof. reflexivity. Qed.
Example staging_is_safe : stagingPathIsSafe (stagingPath "3f0c-1") = true.
Proof. reflexivity. Qed.
Example staging_outside : stagingPathIsSafe "tmp/../files/a" = false.
Proof. reflexivity. Qed.

Open Scope Z_scope.

(** ** Errors *)

(** [FilesError] and [UploadError] carry the status of their code. *)
Inductive UploadFailure :=
| StoreError (error : StorageError)
| DiskError (code : option string)
| FilesError (code : string) (status : Z)
| UploadError (code : string) (status : Z)
| RevisionConflict
| ResumableCompletionError (retryable : bool)
| ConnectionError
| RequestAborted
| ProtocolNotReady.

(** [new Error(message)]. *)
Definition plain (message : string) : UploadFailure := StoreError (PlainError message).

(** ** Answers of the file service *)

(** What [commitResumableUpload] is asked for. *)
Record CommitRequest := {
  cr_sessionId : string; cr_actorUserId : string; cr_tmpPath : string;
  cr_folderId : option string; cr_originalName : string; cr_mimeType : string;
  cr_totalSizeBytes : Z; cr_contentChecksum : option string; cr_conflictStrategy : string;
  cr_clientModifiedAt : option Z; cr_ifRevision : option Z; cr_ifFileId : option string
}.

(** ** Effects *)

Inductive UploadEffect :=
| dateNow
| randomUUID
| pause (atLeast : Z)
| protocolReady
| uploadPolicy
| waitingPlace
| prisma {A : Set} (tx : Conditions -> Tx A)
| exclusively {A : Set} (sessionId : string) (tx : Conditions -> Tx A)
| connectClient
| lockSession (sessionId : string)
| lockChunk (sessionId : string) (chunkIndex : Z)
| onClient {A : Set} (tx : Conditions -> Tx A)
| unlockClient
| releaseClient (destroy : bool)
| nextPiece
| wholeBody
| createStaging (path : string)
| writeStaging (path : string) (position : Z) (bytes : string)
| openStaging (path : string) (truncateTo : Z)
| rewriteStaging (path : string) (position : Z) (bytes : string)
| readStaging (path : string)
| accessStaging (path : string)
| removeStaging (path : string)
| commitUpload (request : CommitRequest).

Definition Answered (A : Type) : Type := result UploadFailure A.

Definition Answer (e : UploadEffect) : Type :=
  match e with
  | dateNow => Z
  | randomUUID => string
  | pause _ => unit
  | waitingPlace => bool
  | uploadPolicy => Answered Z
  | @prisma A _ | @exclusively A _ _ | @onClient A _ => Answered A
  | nextPiece => Answered (option string)
  | wholeBody | readStaging _ => Answered string
  | commitUpload _ => Answered Json
  | _ => Answered unit
  end.

Notation Program := (@Task UploadEffect UploadFailure Answer).

(** [await] of a call that may throw. *)
Definition onPrisma {A : Set} (tx : Conditions -> Tx A) : Program A := settle (ask (prisma tx)).
Definition underLock {A : Set} (sessionId : string) (tx : Conditions -> Tx A) : Program A :=
  settle (ask (exclusively sessionId tx)).
Definition query {A : Set} (tx : Conditions -> Tx A) : Program A := settle (ask (onClient tx)).

(** [.catch(() => undefined)]. *)
Definition ignoring (t : Program unit) : Program unit := catch t (fun _ => mret tt).

(** ** The world *)

(** [uw_taken] are the staging files the journal has moved to where they go.
    [uw_drawn] says which program drew an id, [uw_seen] which ids were ever a
    session's, [uw_committer] which program last began to commit a session. *)
Record UploadWorld := {
  uw_db : DB;
  uw_files : gmap string string;
  uw_taken : gmap string string;
  uw_sessionLocks : gset (string * nat);
  uw_chunkLocks : gmap (string * Z) nat;
  uw_drawn : gmap string nat;
  uw_seen : gset string;
  uw_committer : gmap string nat
}.

Definition set_db (db : DB) (w : UploadWorld) : UploadWorld :=
  {| uw_db := db; uw_files := uw_files w; uw_taken := uw_taken w;
     uw_sessionLocks := uw_sessionLocks w; uw_chunkLocks := uw_chunkLocks w;
     uw_drawn := uw_drawn w; uw_seen := uw_seen w ∪ dom (db_sessions db);
     uw_committer := uw_committer w |}.
Definition set_staging (files taken : gmap string string) (w : UploadWorld) : UploadWorld :=
  {| uw_db := uw_db w; uw_files := files; uw_taken := taken;
     uw_sessionLocks := uw_sessionLocks w; uw_chunkLocks := uw_chunkLocks w;
     uw_drawn := uw_drawn w; uw_seen := uw_seen w; uw_committer := uw_committer w |}.
Definition set_files (files : gmap string string) (w : UploadWorld) : UploadWorld :=
  set_staging files (uw_taken w) w.
Definition set_locks (sessions : gset (string * nat)) (chunks : gmap (string * Z) nat)
    (w : UploadWorld) : UploadWorld :=
  {| uw_db := uw_db w; uw_files := uw_files w; uw_taken := uw_taken w;
     uw_sessionLocks := sessions; uw_chunkLocks := chunks;
     uw_drawn := uw_drawn w; uw_seen := uw_seen w; uw_committer := uw_committer w |}.
Definition set_drawn (drawn : gmap string nat) (w : UploadWorld) : UploadWorld :=
  {| uw_db := uw_db w; uw_files := uw_files w; uw_taken := uw_taken w;
     uw_sessionLocks := uw_sessionLocks w; uw_chunkLocks := uw_chunkLocks w;
     uw_drawn := drawn; uw_seen := uw_seen w; uw_committer := uw_committer w |}.
Definition set_committer (committer : gmap string nat) (w : UploadWorld) : UploadWorld :=
  {| uw_db := uw_db w; uw_files := uw_files w; uw_taken := uw_taken w;
     uw_sessionLocks := uw_sessionLocks w; uw_chunkLocks := uw_chunkLocks w;
     uw_drawn := uw_drawn w; uw_seen := uw_seen w; uw_committer := committer |}.

Definition sessionOf (w : UploadWorld) (id : string) : option UploadSession :=
  db_sessions (uw_db w) !! id.

(** A session's bytes, wherever the journal has put them. *)
Definition stagedAt (w : UploadWorld) (path : string) : option string :=
  match uw_files w !! path with Some content => Some content | None => uw_taken w !! path end.

(** The locks of a connection that is closed are freed. *)
Definition freeLocks (t : nat) (w : UploadWorld) : UploadWorld :=
  set_locks (filter (fun e : string * nat => e.2 <> t) (uw_sessionLocks w))
    (filter (fun e : (string * Z) * nat => e.2 <> t) (uw_chunkLocks w)) w.

(** A program that ended, or died: its connection is closed. *)
Definition programEnded (t : nat) (w : UploadWorld) : UploadWorld :=
  set_committer (filter (fun e : string * nat => e.2 <> t) (uw_committer w)) (freeLocks t w).

(** Bytes written at a position; a gap before it reads as zeros. *)
Definition zeros (n : nat) : string := String.string_of_list_ascii (replicate n Ascii.zero).
Definition writeBytes (content : string) (position : Z) (bytes : string) : string :=
  let at_ := Z.to_nat position in
  sliceTo at_ content +:+ zeros (at_ - String.length content) +:+ bytes
  +:+ sliceFrom (at_ + String.length bytes) content.

(** [truncate], which pads a shorter file; 0 is also the flag ["w"]. *)
Definition truncated (size : Z) (content : string) : string :=
  sliceTo (Z.to_nat size) content +:+ zeros (Z.to_nat size - String.length content).

(** A transaction that begins a commit notes who did. *)
Definition isCommitting (o : option UploadSession) : bool :=
  match o with Some s => bool_decide (se_status s = ss_committing) | None => false end.
Definition afterExclusive (t : nat) (sessionId : string) (db' : DB) (w : UploadWorld) :
    UploadWorld :=
  let w' := set_db db' w in
  if negb (isCommitting (sessionOf w sessionId)) && isCommitting (sessionOf w' sessionId)
  then set_committer (<[sessionId := t]> (uw_committer w)) w' else w'.

Section Performs.
Context (settings : option LockedSettings).

(** A statement: carried out and answered, refused, failed, or carried out with
    its answer lost. [commit] is the world after a database. *)
Inductive statement_runs {A : Set} (tx : Conditions -> Tx A) (commit : DB -> UploadWorld)
    (w : UploadWorld) : Answered A -> UploadWorld -> Prop :=
| st_answered cn a db' :
    cn_settings cn = settings -> tx cn (uw_db w) = Ok (a, db') ->
    statement_runs tx commit w (Ok a) (commit db')
| st_refused cn e :
    cn_settings cn = settings -> tx cn (uw_db w) = Throw e ->
    statement_runs tx commit w (Throw (StoreError e)) w
| st_failed : statement_runs tx commit w (Throw ConnectionError) w
| st_lost cn a db' :
    cn_settings cn = settings -> tx cn (uw_db w) = Ok (a, db') ->
    statement_runs tx commit w (Throw ConnectionError) (commit db').

(** A call on the connection a program holds: it may break the connection. *)
Inductive client_runs (t : nat) (w : UploadWorld) (done : UploadWorld -> Prop) :
    Answered unit -> UploadWorld -> Prop :=
| cl_done w' : done w' -> client_runs t w done (Ok tt) w'
| cl_failed e : client_runs t w done (Throw e) w
| cl_broken : client_runs t w done (Throw ConnectionError) (freeLocks t w).

(** What a call that wrote at a position may have left: the whole, a part, or
    nothing. *)
Inductive writes (path : string) (position : Z) (bytes : string) (w : UploadWorld) :
    UploadWorld -> Prop :=
| wr_none : writes path position bytes w w
| wr_some content n :
    uw_files w !! path = Some content ->
    writes path position bytes w
      (set_files (<[path := writeBytes content position (sliceTo n bytes)]> (uw_files w)) w).

Definition wroteAll (path : string) (position : Z) (bytes : string) (w w' : UploadWorld) : Prop :=
  exists content, uw_files w !! path = Some content /\
    w' = set_files (<[path := writeBytes content position bytes]> (uw_files w)) w.

Inductive performs (t : nat) (w : UploadWorld) : forall e : UploadEffect, Answer e ->
    UploadWorld -> Prop :=
| pf_dateNow ms : performs t w dateNow ms w
| pf_randomUUID (id : string) :
    uw_drawn w !! id = None -> id ∉ uw_seen w ->
    performs t w randomUUID id (set_drawn (<[id := t]> (uw_drawn w)) w)
| pf_pause ms : performs t w (pause ms) tt w
| pf_protocolReady a : performs t w protocolReady a w
| pf_uploadPolicy a : performs t w uploadPolicy a w
| pf_waitingPlace b : performs t w waitingPlace b w
| pf_prisma (A : Set) (tx : Conditions -> Tx A) a w' :
    statement_runs tx (fun db => set_db db w) w a w' -> performs t w (prisma tx) a w'
| pf_exclusively (A : Set) sid (tx : Conditions -> Tx A) a w' :
    (forall holder, (sid, holder) ∉ uw_sessionLocks w) ->
    statement_runs tx (fun db => afterExclusive t sid db w) w a w' ->
    performs t w (exclusively sid tx) a w'
| pf_exclusively_held (A : Set) sid (tx : Conditions -> Tx A) e :
    e = StoreError LockNotAvailable \/ e = ConnectionError ->
    performs t w (exclusively sid tx) (Throw e) w
| pf_connectClient a : performs t w connectClient a w
| pf_lockSession sid a w' :
    client_runs t w
      (eq (set_locks ({[(sid, t)]} ∪ uw_sessionLocks w) (uw_chunkLocks w) w)) a w' ->
    performs t w (lockSession sid) a w'
| pf_lockChunk sid index a w' :
    client_runs t w
      (fun w' => uw_chunkLocks w !! (sid, index) = None /\
         w' = set_locks (uw_sessionLocks w) (<[(sid, index) := t]> (uw_chunkLocks w)) w) a w' ->
    performs t w (lockChunk sid index) a w'
| pf_onClient (A : Set) (tx : Conditions -> Tx A) a w' :
    statement_runs tx (fun db => set_db db w) w a w' -> performs t w (onClient tx) a w'
| pf_onClient_broken (A : Set) (tx : Conditions -> Tx A) a w' :
    statement_runs tx (fun db => set_db db w) w a w' ->
    performs t w (onClient tx) (Throw ConnectionError) (freeLocks t w')
| pf_unlockClient a w' :
    client_runs t w (eq (freeLocks t w)) a w' -> performs t w unlockClient a w'
| pf_releaseClient destroy a :
    performs t w (releaseClient destroy) a (if destroy then freeLocks t w else w)
| pf_nextPiece a : performs t w nextPiece a w
| pf_nextPiece_broken : performs t w nextPiece (Throw ConnectionError) (freeLocks t w)
| pf_wholeBody a : performs t w wholeBody a w
| pf_createStaging path a :
    uw_files w !! path = None ->
    performs t w (createStaging path) a (set_files (<[path := ""]> (uw_files w)) w)
| pf_createStaging_failed path e : performs t w (createStaging path) (Throw e) w
| pf_writeStaging path position bytes w' :
    wroteAll path position bytes w w' -> performs t w (writeStaging path position bytes) (Ok tt) w'
| pf_writeStaging_failed path position bytes e w' :
    writes path position bytes w w' ->
    performs t w (writeStaging path position bytes) (Throw e) w'
| pf_writeStaging_broken path position bytes w' :
    writes path position bytes w w' ->
    performs t w (writeStaging path position bytes) (Throw ConnectionError) (freeLocks t w')
| pf_openStaging path truncateTo a :
    truncateTo = 0 \/ uw_files w !! path <> None ->
    performs t w (openStaging path truncateTo) a
      (set_files (<[path := truncated truncateTo (default "" (uw_files w !! path))]>
         (uw_files w)) w)
| pf_openStaging_failed path truncateTo e : performs t w (openStaging path truncateTo) (Throw e) w
| pf_rewriteStaging path position bytes w' :
    wroteAll path position bytes w w' ->
    performs t w (rewriteStaging path position bytes) (Ok tt) w'
| pf_rewriteStaging_failed path position bytes e w' :
    writes path position bytes w w' ->
    performs t w (rewriteStaging path position bytes) (Throw e) w'
| pf_readStaging path content :
    uw_files w !! path = Some content -> performs t w (readStaging path) (Ok content) w
| pf_readStaging_failed path e : performs t w (readStaging path) (Throw e) w
| pf_accessStaging path :
    uw_files w !! path <> None -> performs t w (accessStaging path) (Ok tt) w
| pf_accessStaging_absent path :
    uw_files w !! path = None ->
    performs t w (accessStaging path) (Throw (DiskError (Some "ENOENT"))) w
| pf_accessStaging_failed path e :
    e <> DiskError (Some "ENOENT") -> performs t w (accessStaging path) (Throw e) w
| pf_removeStaging path a :
    performs t w (removeStaging path) a (set_files (delete path (uw_files w)) w)
| pf_removeStaging_failed path e : performs t w (removeStaging path) (Throw e) w
| pf_commitUpload request a : performs t w (commitUpload request) a w.

(** ** The rest of the installation *)

(** The journal links a committing session, completes it, or fails it with the
    mutation it aborts; it moves a linked session's staging file to where it
    goes, and back; files are deleted for good; everything else changes. *)
Inductive elsewhere (w : UploadWorld) : UploadWorld -> Prop :=
| ew_other db' :
    db_sessions db' = db_sessions (uw_db w) -> elsewhere w (set_db db' w)
| ew_linked input mutationId u db' :
    linkPreparedUploadSession input mutationId (uw_db w) = Ok (u, db') ->
    elsewhere w (set_db db' w)
| ew_completed entityId owner committedFileId completedAt mutationId u db' :
    complete_upload_session entityId owner committedFileId completedAt mutationId (uw_db w)
      = Ok (u, db') ->
    elsewhere w (set_db db' w)
| ew_aborted mutationId abortedAt u db' :
    (forall id s, sessionOf w id = Some s -> se_storageMutationId s = Some mutationId ->
       se_status s <> ss_completed) ->
    failLinkedSessions mutationId abortedAt (uw_db w) = Ok (u, db') ->
    elsewhere w (set_db db' w)
| ew_deleted type gone : elsewhere w (set_db (removeRows type gone (uw_db w)) w)
| ew_taken path content :
    uw_files w !! path = Some content ->
    elsewhere w (set_staging (delete path (uw_files w)) (<[path := content]> (uw_taken w)) w)
| ew_putBack path content :
    uw_taken w !! path = Some content -> uw_files w !! path = None ->
    elsewhere w (set_staging (<[path := content]> (uw_files w)) (delete path (uw_taken w)) w)
| ew_kept path :
    (forall id s, sessionOf w id = Some s -> ud_tmpPath (se_upload s) = path ->
       se_status s <> ss_committing) ->
    elsewhere w (set_staging (uw_files w) (delete path (uw_taken w)) w).
End Performs.
