(* ===== verification/UploadSessions.v ===== *)
(** * The upload session service

    [apps/web/server/uploads/session-service.ts], with [runUploadTransaction] of
    [admission.ts] and the parts of [packages/db/src/storage-transactions.ts] it
    waits with. Each transaction is one definition on the database, each function
    a program over the effects of [UploadIo]. Dates that default to now are read
    when the function starts. *)

From Stdlib Require String.
From S2P Require Import Prelude ChunkProtocol Database MutationMetadata UploadAdmission Async StorageLayout UploadIo.

Open Scope Z_scope.

Definition CURRENT_UPLOAD_PROTOCOL_VERSION : Z := 2.
Definition DEFAULT_RESUMABLE_CHUNK_SIZE : Z := 10 * 1024 * 1024.

(** ** Waiting for admission *)

Definition ADMISSION_MS : Z := 5000.

Definition isBusy (e : UploadFailure) : bool :=
  match e with StoreError StorageAdmissionBusyError => true | _ => false end.

(** [runStorageTransaction] with a deadline; a lock another transaction holds is
    [StorageAdmissionBusyError]. *)
Definition classifyFailure (e : UploadFailure) : UploadFailure :=
  match e with
  | StoreError e => StoreError (classifyStorageTransactionError e)
  | _ => e
  end.

Definition beforeDeadline (deadline : Z) : Program unit :=
  now ← ask dateNow;
  if bool_decide (deadline <= now) then throw (StoreError StorageAdmissionBusyError) else mret tt.

Definition runByDeadline {A} (deadline : Z) (operation : Program A) : Program A :=
  _ ← beforeDeadline deadline;
  catch (_ ← beforeDeadline deadline; operation) (fun e => throw (classifyFailure e)).

(** [t] whose error is a value. *)
Definition outcome {A} (t : Program A) : Program (result UploadFailure A) :=
  fun k => t (fun r => k (Ok r)).

(** A pause is at least 50 ms long, so that 100 of them pass the deadline. *)
Definition admissionTurns : nat := 101.

Definition admissionPause (attempt remaining : Z) : Z :=
  Z.min remaining (50 * 2 ^ Z.min attempt 3).

Fixpoint retryStorageAdmission {A} (turns : nat) (attempt deadline : Z) (waiting : bool)
    (operation : Program A) : Program A :=
  r ← outcome (runByDeadline deadline operation);
  match r with
  | Ok a => mret a
  | Throw e =>
      if negb (isBusy e) then throw e
      else
        now ← ask dateNow;
        let remaining := deadline - now in
        if bool_decide (remaining <= 0) then throw e
        else
          placed ← (if waiting then mret true else ask waitingPlace);
          if negb placed then throw (StoreError StorageAdmissionBusyError)
          else
            _ ← ask (pause (admissionPause attempt remaining));
            now ← ask dateNow;
            if bool_decide (deadline <= now) then throw e
            else
              match turns with
              | O => throw e
              | S turns => retryStorageAdmission turns (attempt + 1) deadline true operation
              end
  end.

Definition waitForStorageAdmission {A} (operation : Program A) : Program A :=
  now ← ask dateNow;
  retryStorageAdmission admissionTurns 0 (now + ADMISSION_MS) false operation.

Definition runUploadTransaction {A} (operation : Program A) : Program A :=
  catch (waitForStorageAdmission operation)
    (fun e => if isBusy e then throw (StoreError (UploadAdmissionError UPLOAD_ADMISSION_BUSY))
              else throw e).

(** ** Rows *)

Definition changeSession (s : UploadSession) (status : SessionStatus) (expiresAt : Z)
    (terminalAt stagingReleasedAt : option Z) (cleanupLastError : option string)
    (chunks : list UploadChunk) (upload : UploadDetails) : UploadSession :=
  {| se_ownerUserId := se_ownerUserId s; se_totalSizeBytes := se_totalSizeBytes s;
     se_status := status; se_expiresAt := expiresAt; se_terminalAt := terminalAt;
     se_stagingReleasedAt := stagingReleasedAt; se_committedFileId := se_committedFileId s;
     se_cleanupLastError := cleanupLastError; se_storageMutationId := se_storageMutationId s;
     se_chunks := chunks; se_upload := upload |}.

Definition changeUpload (u : UploadDetails) (receivedBytes : Z) (expectedChecksum : option string)
    (attemptCount : Z) (lastAttemptAt : option Z) : UploadDetails :=
  {| ud_folderId := ud_folderId u; ud_originalName := ud_originalName u;
     ud_mimeType := ud_mimeType u; ud_receivedBytes := receivedBytes;
     ud_expectedChecksum := expectedChecksum; ud_protocolVersion := ud_protocolVersion u;
     ud_chunkSizeBytes := ud_chunkSizeBytes u; ud_tmpPath := ud_tmpPath u;
     ud_conflictStrategy := ud_conflictStrategy u; ud_clientModifiedAt := ud_clientModifiedAt u;
     ud_cleanupAttemptCount := attemptCount; ud_cleanupLastAttemptAt := lastAttemptAt |}.

(** [{ status, expiresAt }]. *)
Definition withStatus (status : SessionStatus) (expiresAt : Z) (s : UploadSession) : UploadSession :=
  changeSession s status expiresAt (se_terminalAt s) (se_stagingReleasedAt s)
    (se_cleanupLastError s) (se_chunks s) (se_upload s).

(** [{ cleanupAttemptCount: { increment: 1 }, cleanupLastAttemptAt, cleanupLastError }]. *)
Definition withAttempt (now : Z) (lastError : option string) (s : UploadSession) : UploadSession :=
  changeSession s (se_status s) (se_expiresAt s) (se_terminalAt s) (se_stagingReleasedAt s)
    lastError (se_chunks s)
    (changeUpload (se_upload s) (ud_receivedBytes (se_upload s))
       (ud_expectedChecksum (se_upload s)) (ud_cleanupAttemptCount (se_upload s) + 1) (Some now)).

(** [{ status, terminalAt }], and the chunks deleted. *)
Definition finishedAs (status : SessionStatus) (now : Z) (s : UploadSession) : UploadSession :=
  changeSession s status (se_expiresAt s) (Some now) (se_stagingReleasedAt s)
    (se_cleanupLastError s) [] (se_upload s).

Definition putSession (id : string) (s : UploadSession) : Tx unit :=
  modify (fun db => set_sessions (<[id := s]> (db_sessions db)) db).

(** [updateMany] of one id: how many rows it changed. *)
Definition updateSession (id : string) (p : UploadSession -> bool)
    (f : UploadSession -> UploadSession) : Tx Z :=
  row ← read (fun db => db_sessions db !! id);
  match row with
  | Some s => if p s then _ ← putSession id (f s); mret 1 else mret 0
  | None => mret 0
  end.

(** ** Sessions as the service hands them out *)

Record ResumableSession := {
  rs_id : string; rs_ownerUserId : string; rs_folderId : option string;
  rs_originalName : string; rs_mimeType : string; rs_totalSizeBytes : Z; rs_receivedBytes : Z;
  rs_expectedChecksum : option string; rs_protocolVersion : Z; rs_chunkSizeBytes : option Z;
  rs_tmpPath : string; rs_conflictStrategy : string; rs_clientModifiedAt : option Z;
  rs_status : SessionStatus; rs_expiresAt : Z; rs_completedChunks : list UploadChunk
}.

(** Sizes are safe integers, which [Number] keeps. *)
Definition toSession (id : string) (row : UploadSession) (chunks : list UploadChunk) :
    ResumableSession :=
  let u := se_upload row in
  {| rs_id := id; rs_ownerUserId := se_ownerUserId row; rs_folderId := ud_folderId u;
     rs_originalName := ud_originalName u; rs_mimeType := ud_mimeType u;
     rs_totalSizeBytes := se_totalSizeBytes row; rs_receivedBytes := ud_receivedBytes u;
     rs_expectedChecksum := ud_expectedChecksum u; rs_protocolVersion := ud_protocolVersion u;
     rs_chunkSizeBytes := ud_chunkSizeBytes u; rs_tmpPath := ud_tmpPath u;
     rs_conflictStrategy := ud_conflictStrategy u; rs_clientModifiedAt := ud_clientModifiedAt u;
     rs_status := se_status row; rs_expiresAt := se_expiresAt row; rs_completedChunks := chunks |}.

(** [orderBy: { chunkIndex: "asc" }]. *)
Definition indexOrder (a b : UploadChunk) : Prop := uc_chunkIndex a <= uc_chunkIndex b.
#[export] Instance indexOrder_dec a b : Decision (indexOrder a b).
Proof. unfold indexOrder. apply _. Defined.
Definition byIndex (chunks : list UploadChunk) : list UploadChunk := merge_sort indexOrder chunks.

Definition findActiveRow (id ownerUserId : string) (includeCompletedChunks : bool) (now : Z) :
    Tx (option ResumableSession) :=
  read (fun db =>
    match db_sessions db !! id with
    | Some s =>
        if ownedBy ownerUserId s && isReceivableStatus (se_status s)
           && bool_decide (now < se_expiresAt s)
        then Some (toSession id s (if includeCompletedChunks then byIndex (se_chunks s) else []))
        else None
    | None => None
    end).

Definition findActiveResumableSession (id ownerUserId : string) (includeCompletedChunks : bool) :
    Program (option ResumableSession) :=
  now ← ask dateNow;
  onPrisma (fun _ => findActiveRow id ownerUserId includeCompletedChunks now).

Definition findCompletedRow (id ownerUserId : string) : Tx (option ResumableSession) :=
  read (fun db =>
    match db_sessions db !! id with
    | Some s =>
        if ownedBy ownerUserId s && bool_decide (se_status s = ss_completed)
           && negb (bool_decide (se_committedFileId s = None))
        then Some (toSession id s []) else None
    | None => None
    end).

Definition findCompletedResumableSession (id ownerUserId : string) :
    Program (option ResumableSession) :=
  onPrisma (fun _ => findCompletedRow id ownerUserId).

Definition findStatusRow (id ownerUserId : string) : Tx (option SessionStatus) :=
  read (fun db =>
    match db_sessions db !! id with
    | Some s => if ownedBy ownerUserId s then Some (se_status s) else None
    | None => None
    end).

Definition findResumableSessionStatus (id ownerUserId : string) : Program (option SessionStatus) :=
  onPrisma (fun _ => findStatusRow id ownerUserId).

(** ** Finishing sessions *)

Definition sessionRowLock (id : string) : string := "row:UploadSession:" +:+ id.

(** [FOR UPDATE NOWAIT] of a session's row. *)
Definition sessionForUpdate (cn : Conditions) (id : string) (p : UploadSession -> bool) :
    Tx (option UploadSession) :=
  row ← read (fun db => db_sessions db !! id);
  match row with
  | Some s =>
      if p s
      then _ ← ensure (negb (bool_decide (sessionRowLock id ∈ cn_locks cn))) LockNotAvailable;
           mret (Some s)
      else mret None
  | None => mret None
  end.

(** [transitionResumableSessionToTerminal]'s transaction. Its callers name neither
    a committed file nor a release date. *)
Definition transitionTx (id ownerUserId : string) (status : SessionStatus) (now : Z)
    (cn : Conditions) : Tx bool :=
  _ ← lockUploadCapacityRows cn ownerUserId;
  row ← sessionForUpdate cn id (ownedBy ownerUserId);
  match row with
  | None => mret false
  | Some s =>
      if isTerminalUploadSessionStatus (se_status s) then mret true
      else _ ← putSession id (finishedAs status now s); mret true
  end.

Definition transitionResumableSessionToTerminal (id ownerUserId : string)
    (status : SessionStatus) : Program bool :=
  now ← ask dateNow;
  runUploadTransaction (underLock id (transitionTx id ownerUserId status now)).

Section Messages.
(** The messages of the platform's and the database's errors. *)
Context (platformText : UploadFailure -> string).

Definition messageOf (e : UploadFailure) : string :=
  match e with StoreError (PlainError message) => message | _ => platformText e end.
Definition shortMessage (e : UploadFailure) : string := sliceTo 2000 (messageOf e).

Definition recordCleanupFailure (id : string) (e : UploadFailure) : Program unit :=
  ignoring (
    now ← ask dateNow;
    _ ← onPrisma (fun _ => updateSession id unreleased (withAttempt now (Some (shortMessage e))));
    mret tt).

Definition pathIsAbsent (targetPath : string) : Program bool :=
  catch (_ ← settle (ask (accessStaging targetPath)); mret false)
    (fun e => match e with DiskError (Some "ENOENT") => mret true | _ => mret false end).

Definition releasedAt (now : Z) (s : UploadSession) : UploadSession :=
  changeSession s (se_status s) (se_expiresAt s) (se_terminalAt s) (Some now) None (se_chunks s)
    (changeUpload (se_upload s) (ud_receivedBytes (se_upload s))
       (ud_expectedChecksum (se_upload s)) (ud_cleanupAttemptCount (se_upload s)) (Some now)).

Definition markResumableStagingReleased (id : string) : Program unit :=
  now ← ask dateNow;
  _ ← onPrisma (fun _ => updateSession id unreleased (releasedAt now));
  mret tt.

Definition cleanupResumableSessionStaging (id tmpPath : string) : Program bool :=
  catch (
    _ ← (if stagingPathIsSafe tmpPath then mret tt
         else throw (plain "Session staging path is outside the temporary root."));
    _ ← settle (ask (removeStaging tmpPath));
    absent ← pathIsAbsent tmpPath;
    _ ← (if absent : bool then mret tt
         else throw (plain "Staging path still exists after deletion."));
    _ ← markResumableStagingReleased id;
    mret true)
    (fun e => _ ← recordCleanupFailure id e; mret false).

Definition failAndCleanupResumableSession (id ownerUserId tmpPath : string) : Program bool :=
  _ ← transitionResumableSessionToTerminal id ownerUserId ss_failed;
  cleanupResumableSessionStaging id tmpPath.

Definition cancelAndCleanupResumableSession (id ownerUserId tmpPath : string) : Program bool :=
  _ ← transitionResumableSessionToTerminal id ownerUserId ss_cancelled;
  cleanupResumableSessionStaging id tmpPath.

(** ** Starting sessions *)

Definition allocateEmptyStagingFile (tmpPath : string) : Program unit :=
  settle (ask (createStaging tmpPath)).

Definition activateTx (id ownerUserId : string) (expiresAt : Z) : Tx Z :=
  updateSession id
    (fun s => ownedBy ownerUserId s && bool_decide (se_status s = ss_allocating))
    (withStatus ss_created expiresAt).

Definition findUniqueOrThrow (id : string) : Tx ResumableSession :=
  row ← read (fun db => db_sessions db !! id);
  match row with
  | Some s => mret (toSession id s [])
  | None => Database.throw RecordNotFound
  end.

Definition activateResumableSession (id ownerUserId : string) (now : Z) :
    Program ResumableSession :=
  count ← onPrisma (fun _ => activateTx id ownerUserId (now + UPLOAD_SESSION_TTL_MS));
  _ ← (if bool_decide (count = 1) then mret tt
       else throw (plain "Upload reservation is no longer allocatable."));
  onPrisma (fun _ => findUniqueOrThrow id).

Definition recoverFailedResumableAllocation (id ownerUserId tmpPath : string) : Program unit :=
  ignoring (
    _ ← transitionResumableSessionToTerminal id ownerUserId ss_failed;
    _ ← cleanupResumableSessionStaging id tmpPath;
    mret tt).

Definition toStagingAllocationError (e : UploadFailure) : UploadFailure :=
  StoreError (UploadAdmissionError
    match e with
    | DiskError (Some "EDQUOT") | DiskError (Some "ENOSPC") => UPLOAD_STORAGE_CAPACITY_EXCEEDED
    | _ => UPLOAD_STORAGE_CAPACITY_UNAVAILABLE
    end).

Record CreateInput := {
  ci_ownerUserId : string; ci_folderId : option string; ci_originalName : string;
  ci_mimeType : string; ci_totalSizeBytes : Z; ci_expectedChecksum : option string;
  ci_conflictStrategy : string; ci_clientModifiedAt : option Z; ci_protocolVersion : Z;
  ci_chunkSizeBytes : option Z
}.

Definition reservation (id : string) (now : Z) (input : CreateInput) : NewSession :=
  {| ns_id := id; ns_ownerUserId := ci_ownerUserId input; ns_folderId := ci_folderId input;
     ns_originalName := ci_originalName input;
     ns_mimeType := resolveUploadMimeType (ci_mimeType input) (ci_originalName input);
     ns_totalSizeBytes := ci_totalSizeBytes input;
     ns_expectedChecksum := ci_expectedChecksum input;
     ns_protocolVersion := ci_protocolVersion input;
     ns_chunkSizeBytes := ci_chunkSizeBytes input; ns_tmpPath := stagingPath id;
     ns_conflictStrategy := ci_conflictStrategy input;
     ns_clientModifiedAt := ci_clientModifiedAt input;
     ns_expiresAt := now + UPLOAD_ALLOCATION_LEASE_MS |}.

Definition createResumableSession (input : CreateInput) : Program ResumableSession :=
  now ← ask dateNow;
  _ ← match normalizeFileName (ci_originalName input) with
      | Ok _ => mret tt
      | Throw code => throw (FilesError code 400)
      end;
  id ← ask randomUUID;
  let tmpPath := stagingPath id in
  _ ← runUploadTransaction (onPrisma (reserveResumableSession (reservation id now input)));
  allocated ← outcome (allocateEmptyStagingFile tmpPath);
  match allocated with
  | Throw e =>
      _ ← recoverFailedResumableAllocation id (ci_ownerUserId input) tmpPath;
      throw (toStagingAllocationError e)
  | Ok _ =>
      catch (activateResumableSession id (ci_ownerUserId input) now)
        (fun e =>
           _ ← recoverFailedResumableAllocation id (ci_ownerUserId input) tmpPath;
           throw e)
  end.

(** ** Committing sessions *)

Definition beginCommitTx (id ownerUserId : string) (expectedChecksum : option string) (now : Z)
    (cn : Conditions) : Tx unit :=
  _ ← lockUploadCapacityRows cn ownerUserId;
  row ← sessionForUpdate cn id (fun s =>
          ownedBy ownerUserId s && isReceivableStatus (se_status s)
          && bool_decide (now < se_expiresAt s));
  match row with
  | None => Database.throw (PlainError "UPLOAD_SESSION_NOT_RECEIVABLE")
  | Some s =>
      let u := se_upload s in
      putSession id
        (changeSession s ss_committing (now + UPLOAD_SESSION_TTL_MS) (se_terminalAt s)
           (se_stagingReleasedAt s) (se_cleanupLastError s) (se_chunks s)
           (changeUpload u (ud_receivedBytes u) expectedChecksum (ud_cleanupAttemptCount u)
              (ud_cleanupLastAttemptAt u)))
  end.

Definition beginSessionCommit (id ownerUserId : string) (expectedChecksum : option string) :
    Program unit :=
  now ← ask dateNow;
  runUploadTransaction (underLock id (beginCommitTx id ownerUserId expectedChecksum now)).

Definition lockCommittingSession (id ownerUserId : string) (requireUnreleasedReservation : bool)
    (cn : Conditions) : Tx UploadSession :=
  _ ← lockUploadCapacityRows cn ownerUserId;
  row ← sessionForUpdate cn id (fun s =>
          ownedBy ownerUserId s && bool_decide (se_status s = ss_committing)
          && (negb requireUnreleasedReservation
              || unreleased s && bool_decide (se_committedFileId s = None)));
  match row with
  | None => Database.throw (PlainError "UPLOAD_SESSION_NOT_COMMITTING")
  | Some s => mret s
  end.

(** [callback] runs inside the transaction that completes the session. *)
Definition completeWithFileTx {T : Set} (id ownerUserId committedFileId : string)
    (callback : Conditions -> Tx T) (now : Z) (cn : Conditions) : Tx T :=
  _ ← lockCommittingSession id ownerUserId false cn;
  result ← callback cn;
  row ← read (fun db => db_sessions db !! id);
  match row with
  | None => Database.throw RecordNotFound
  | Some s =>
      _ ← putSession id
            {| se_ownerUserId := se_ownerUserId s; se_totalSizeBytes := se_totalSizeBytes s;
               se_status := ss_completed; se_expiresAt := se_expiresAt s;
               se_terminalAt := Some now; se_stagingReleasedAt := Some now;
               se_committedFileId := Some committedFileId; se_cleanupLastError := None;
               se_storageMutationId := se_storageMutationId s; se_chunks := [];
               se_upload := se_upload s |};
      mret result
  end.

Definition completeResumableSessionWithFile {T : Set} (id ownerUserId committedFileId : string)
    (callback : Conditions -> Tx T) : Program T :=
  now ← ask dateNow;
  runUploadTransaction (onPrisma (completeWithFileTx id ownerUserId committedFileId callback now)).

Definition resumableRecoveryErrorMessage (e : UploadFailure) : string := trim (shortMessage e).

Definition recordRecoveryErrorTx (id ownerUserId : string) (e : UploadFailure) (now : Z) : Tx Z :=
  updateSession id
    (fun s => ownedBy ownerUserId s && bool_decide (se_status s = ss_committing) && unreleased s)
    (withAttempt now (Some (resumableRecoveryErrorMessage e))).

Definition recordResumableCommitRecoveryError (id ownerUserId : string) (e : UploadFailure) :
    Program unit :=
  now ← ask dateNow;
  _ ← onPrisma (fun _ => recordRecoveryErrorTx id ownerUserId e now);
  mret tt.

Definition restoreTx (id ownerUserId : string) (e : UploadFailure) (now : Z) (cn : Conditions) :
    Tx unit :=
  s ← lockCommittingSession id ownerUserId true cn;
  putSession id
    (withAttempt now (Some (resumableRecoveryErrorMessage e))
       (withStatus ss_receiving (now + UPLOAD_SESSION_TTL_MS) s)).

Definition restoreResumableSessionAfterCommitRollback (id ownerUserId : string)
    (e : UploadFailure) : Program unit :=
  now ← ask dateNow;
  runUploadTransaction (onPrisma (restoreTx id ownerUserId e now)).
End Messages.

(** ** Writing chunks *)

Record ChunkInput := {
  wi_sessionId : string; wi_ownerUserId : string; wi_chunk : UploadChunk
}.

Definition receivable (input : ChunkInput) (now : Z) (s : UploadSession) : bool :=
  ownedBy (wi_ownerUserId input) s && isReceivableStatus (se_status s)
  && bool_decide (now < se_expiresAt s).

(** The row's [receivedBytes]. *)
Definition findReceivableChunkSession (input : ChunkInput) (now : Z) : Tx Z :=
  row ← read (fun db => db_sessions db !! wi_sessionId input);
  match row with
  | Some s =>
      if receivable input now s then mret (ud_receivedBytes (se_upload s))
      else Database.throw (PlainError "UPLOAD_SESSION_NOT_RECEIVABLE")
  | None => Database.throw (PlainError "UPLOAD_SESSION_NOT_RECEIVABLE")
  end.

Definition recordedAt (index : Z) (chunks : list UploadChunk) : option UploadChunk :=
  List.find (fun c => bool_decide (uc_chunkIndex c = index)) chunks.

Definition findRecordedUploadChunk (input : ChunkInput) : Tx (option UploadChunk) :=
  read (fun db =>
    match db_sessions db !! wi_sessionId input with
    | Some s => recordedAt (uc_chunkIndex (wi_chunk input)) (se_chunks s)
    | None => None
    end).

Definition chunkRangeMatches (existing input : UploadChunk) : bool :=
  bool_decide (uc_startByte existing = uc_startByte input)
  && bool_decide (uc_endByte existing = uc_endByte input)
  && bool_decide (uc_sizeBytes existing = uc_sizeBytes input).

Definition translateUploadChunkLockError (e : UploadFailure) : UploadFailure :=
  match e with
  | StoreError LockNotAvailable => plain "UPLOAD_CHUNK_LOCK_TIMEOUT"
  | _ => e
  end.

Definition acquireUploadChunkLocks (input : ChunkInput) : Program unit :=
  _ ← settle (ask (lockSession (wi_sessionId input)));
  settle (ask (lockChunk (wi_sessionId input) (uc_chunkIndex (wi_chunk input)))).

Definition withChunk (chunk : UploadChunk) (s : UploadSession) : UploadSession :=
  let u := se_upload s in
  changeSession s ss_receiving (se_expiresAt s) (se_terminalAt s) (se_stagingReleasedAt s)
    (se_cleanupLastError s) (se_chunks s ++ [chunk])
    (changeUpload u (ud_receivedBytes u + uc_sizeBytes chunk) (ud_expectedChecksum u)
       (ud_cleanupAttemptCount u) (ud_cleanupLastAttemptAt u)).

(** From [BEGIN] to [COMMIT]; a chunk's index is unique in its session. *)
Definition recordTx (input : ChunkInput) (now : Z) : Tx Z :=
  _ ← findReceivableChunkSession input now;
  existing ← findRecordedUploadChunk input;
  _ ← ensure (bool_decide (existing = None)) UniqueViolation;
  count ← updateSession (wi_sessionId input) (receivable input now) (withChunk (wi_chunk input));
  _ ← ensure (bool_decide (count = 1)) (PlainError "UPLOAD_SESSION_NOT_RECEIVABLE");
  findReceivableChunkSession input now.

(** A broken connection is destroyed; the others give their locks back. *)
Definition connectionLost (r : result UploadFailure Z) : bool :=
  match r with Throw ConnectionError => true | _ => false end.

Definition writeAndRecordUploadChunk (input : ChunkInput) (writeBytes : Program Z) : Program Z :=
  now ← ask dateNow;
  _ ← settle (ask connectClient);
  r ← outcome (
    _ ← acquireUploadChunkLocks input;
    receivedBytes ← query (fun _ => findReceivableChunkSession input now);
    existing ← query (fun _ => findRecordedUploadChunk input);
    match existing with
    | Some existing =>
        if chunkRangeMatches existing (wi_chunk input) then mret receivedBytes
        else throw (plain "CHUNK_RANGE_CONFLICT")
    | None =>
        writtenLength ← writeBytes;
        _ ← (if bool_decide (writtenLength = uc_sizeBytes (wi_chunk input)) then mret tt
             else throw (plain "CHUNK_LENGTH_MISMATCH"));
        query (fun _ => recordTx input now)
    end);
  destroyClient ←
    (if connectionLost r then mret true
     else catch (_ ← settle (ask unlockClient); mret false) (fun _ => mret true));
  _ ← settle (ask (releaseClient destroyClient));
  match r with
  | Ok receivedBytes => mret receivedBytes
  | Throw e => throw (translateUploadChunkLockError e)
  end.

(** [updateSessionProgress], of protocol 1. *)
Definition progressTx (id : string) (receivedBytes now : Z) : Tx Z :=
  updateSession id
    (fun s => isReceivableStatus (se_status s) && bool_decide (now < se_expiresAt s))
    (fun s =>
       let u := se_upload s in
       changeSession s ss_receiving (se_expiresAt s) (se_terminalAt s) (se_stagingReleasedAt s)
         (se_cleanupLastError s) (se_chunks s)
         (changeUpload u receivedBytes (ud_expectedChecksum u) (ud_cleanupAttemptCount u)
            (ud_cleanupLastAttemptAt u))).

Definition updateSessionProgress (id : string) (receivedBytes : Z) : Program unit :=
  now ← ask dateNow;
  count ← onPrisma (fun _ => progressTx id receivedBytes now);
  if bool_decide (count = 1) then mret tt
  else throw (plain "UPLOAD_SESSION_NOT_RECEIVABLE").
