(* ===== verification/UploadRoutes.v ===== *)
(** * The routes of resumable uploads

    [apps/web/server/http/routes/uploads.ts], [uploads/chunk-upload.ts] and
    [uploads/complete.ts]: the programs that serve a session's creation, its
    chunks, its completion and its cancellation. A thrown error is answered by
    the error handler, and stays an error here. *)

From Stdlib Require Import Ascii.
From Stdlib Require String.
From S2P Require Import Prelude JsValues Database ChunkProtocol MutationPrepare UploadAdmission RangeResponse Async StorageLayout UploadIo UploadSessions.

Open Scope Z_scope.

(** ** Answers *)

Inductive Body :=
| fields (body : list (string * Json))
| value (body : Json)
| failed_with (e : UploadFailure)
| noBody.

Record Reply := {
  re_status : Z; re_body : Body; re_retryAfter : bool; re_mutationId : option string
}.

Definition json (status : Z) (body : list (string * Json)) : Reply :=
  {| re_status := status; re_body := fields body; re_retryAfter := false; re_mutationId := None |}.
Definition retryAfter (r : Reply) : Reply :=
  {| re_status := re_status r; re_body := re_body r; re_retryAfter := true;
     re_mutationId := re_mutationId r |}.
Definition jsonOf (status : Z) (e : UploadFailure) : Reply :=
  {| re_status := status; re_body := failed_with e; re_retryAfter := false;
     re_mutationId := None |}.
Definition failure (status : Z) (message : string) : Reply := json status [("error", JString message)].
Definition coded (status : Z) (message code : string) : Reply :=
  json status [("error", JString message); ("code", JString code)].

(** [httpError] of [http/core.ts]. *)
Definition notFound : UploadFailure := UploadError "UPLOAD_SESSION_NOT_FOUND" 404.

Definition setStorageMutationHeader (r : Reply) (mutationId : string) : Reply :=
  {| re_status := re_status r; re_body := re_body r; re_retryAfter := re_retryAfter r;
     re_mutationId := Some mutationId |}.

(** [findStorageMutationId], [attachStorageMutationHeader] without an error. *)
Definition findMutationTx (idempotencyKey ownerUserId : string) : Tx (option string) :=
  read (fun db =>
    match findByIdempotencyKey db idempotencyKey with
    | Some (id, m) => if bool_decide (mu_ownerUserId m = ownerUserId) then Some id else None
    | None => None
    end).
Definition attachResumableMutationHeader (r : Reply) (uploadSessionId ownerUserId : string) :
    Program Reply :=
  mutationId ← catch
    (onPrisma (fun _ => findMutationTx ("resumable:" +:+ uploadSessionId +:+ ":complete") ownerUserId))
    (fun _ => mret None);
  mret (match mutationId with Some id => setStorageMutationHeader r id | None => r end).

(** ** Chunks *)

(** A request for a chunk: its headers and the pieces its body arrives in. A
    Content-Length that is not a run of digits never gets past the HTTP parser. *)
Record ChunkRequest := {
  cq_contentRange : option string; cq_contentLength : option string; cq_body : list string
}.

Definition requireStorageProtocol : Program (option Reply) :=
  catch (_ ← settle (ask protocolReady); mret None)
    (fun e => match e with
              | ProtocolNotReady => mret (Some (jsonOf 503 ProtocolNotReady))
              | _ => throw e
              end).

Definition someDigits (s : string) : bool := negb (bool_decide (s = "")) && allDigits s.

(** [/^bytes (\d+)-(\d+)\/(\d+)$/]. A size below [2^53] compares with a number of
    the header as with the double it becomes. *)
Definition parseContentRange (header : string) (totalSizeBytes : Z) : option UploadByteRange :=
  if negb (startsWith "bytes " header) then None
  else
    match splitOn slash (sliceFrom (String.length "bytes ") header) with
    | [range; total] =>
        match splitOn dash range with
        | [start; end_] =>
            if someDigits start && someDigits end_ && someDigits total then
              let start := numberOf start in
              let end_ := numberOf end_ in
              let total := numberOf total in
              if negb (bool_decide (total = totalSizeBytes)) then None
              else if bool_decide (end_ < start) || bool_decide (total <= end_) then None
              else Some {| ub_start := start; ub_end := end_ |}
            else None
        | _ => None
        end
    | _ => None
    end.

Definition lengthMismatch (expectedLength : Z) : Reply :=
  failure 400 ("Chunk length mismatch. Expected " +:+ numberString expectedLength +:+ " bytes.").

Definition validateContentLength (request : ChunkRequest) (expectedLength : Z) : option Reply :=
  match cq_contentLength request with
  | None => None
  | Some header =>
      let contentLength := numberOf header in
      if negb (isFinite contentLength) || bool_decide (contentLength = expectedLength) then None
      else Some (lengthMismatch expectedLength)
  end.

Definition sizeOf (bytes : string) : Z := Z.of_nat (String.length bytes).

(** [exactLengthStream] in the pipeline from the body to the file: a piece that
    would be too much is not written, and the end must not come early. *)
Fixpoint pipeline (path : string) (start expectedLength receivedLength : Z)
    (body : list string) : Program Z :=
  match body with
  | [] =>
      _ ← settle (ask nextPiece);
      if bool_decide (receivedLength = expectedLength) then mret receivedLength
      else throw (plain "CHUNK_LENGTH_MISMATCH")
  | chunk :: body =>
      _ ← settle (ask nextPiece);
      if bool_decide (expectedLength < receivedLength + sizeOf chunk)
      then throw (plain "CHUNK_LENGTH_MISMATCH")
      else
        _ ← settle (ask (writeStaging path (start + receivedLength) chunk));
        pipeline path start expectedLength (receivedLength + sizeOf chunk) body
  end.

Definition writeParallelUploadChunk (request : ChunkRequest) (session : ResumableSession)
    (ownerUserId : string) (range : UploadByteRange) (chunkIndex expectedLength : Z) : Program Z :=
  writeAndRecordUploadChunk
    {| wi_sessionId := rs_id session; wi_ownerUserId := ownerUserId;
       wi_chunk := {| uc_chunkIndex := chunkIndex; uc_startByte := ub_start range;
                      uc_endByte := ub_end range; uc_sizeBytes := expectedLength |} |}
    (pipeline (rs_tmpPath session) (ub_start range) expectedLength 0 (cq_body request)).

Definition chunkConflictResponse (e : UploadFailure) (expectedLength : Z) : option Reply :=
  match e with
  | StoreError (PlainError "CHUNK_RANGE_CONFLICT") =>
      Some (failure 400 "Chunk index conflicts with an existing completed range.")
  | StoreError (PlainError "CHUNK_LENGTH_MISMATCH") => Some (lengthMismatch expectedLength)
  | StoreError (PlainError "UPLOAD_CHUNK_LOCK_TIMEOUT") =>
      Some (retryAfter (failure 503 "This upload chunk is busy. Retry shortly."))
  | _ => None
  end.

Definition rangeLength (range : UploadByteRange) : Z := ub_end range - ub_start range + 1.

Definition handleParallelChunkUpload (request : ChunkRequest) (session : ResumableSession)
    (chunkSizeBytes : Z) (ownerUserId : string) (range : UploadByteRange) : Program Reply :=
  match getUploadChunkIndex range (rs_totalSizeBytes session) chunkSizeBytes with
  | None => mret (failure 400 "Chunk range is not aligned to the negotiated chunk size.")
  | Some chunkIndex =>
      match validateContentLength request (rangeLength range) with
      | Some r => mret r
      | None =>
          catch (
            receivedBytes ← writeParallelUploadChunk request session ownerUserId range chunkIndex
                              (rangeLength range);
            mret (json 200 [("receivedBytes", JNumber receivedBytes);
                            ("chunkIndex", JNumber chunkIndex)]))
            (fun e => match chunkConflictResponse e (rangeLength range) with
                      | Some r => mret r
                      | None => throw e
                      end)
      end
  end.

Definition handleLegacyChunkUpload (request : ChunkRequest) (session : ResumableSession)
    (range : UploadByteRange) : Program Reply :=
  if negb (bool_decide (ub_start range = rs_receivedBytes session))
  then mret (json 400 [("error", JString "Out-of-sequence chunk. Upload from receivedBytes.");
                       ("receivedBytes", JNumber (rs_receivedBytes session))])
  else
    _ ← settle (ask wholeBody);
    let buffer := joinWith "" (cq_body request) in
    if negb (bool_decide (sizeOf buffer = rangeLength range))
    then mret (lengthMismatch (rangeLength range))
    else
      _ ← settle (ask (openStaging (rs_tmpPath session) (ub_start range)));
      _ ← settle (ask (rewriteStaging (rs_tmpPath session) (ub_start range) buffer));
      let newReceivedBytes := ub_end range + 1 in
      _ ← updateSessionProgress (rs_id session) newReceivedBytes;
      mret (json 200 [("receivedBytes", JNumber newReceivedBytes)]).

Definition writeUploadChunk (request : ChunkRequest) (session : ResumableSession)
    (ownerUserId : string) : Program Reply :=
  match cq_contentRange request with
  | None | Some EmptyString => mret (failure 400 "Content-Range header is required.")
  | Some rangeHeader =>
      match parseContentRange rangeHeader (rs_totalSizeBytes session) with
      | None => mret (failure 400 "Invalid Content-Range header.")
      | Some range =>
          match rs_chunkSizeBytes session with
          | Some chunkSizeBytes =>
              if bool_decide (2 <= rs_protocolVersion session)
              then handleParallelChunkUpload request session chunkSizeBytes ownerUserId range
              else handleLegacyChunkUpload request session range
          | None => handleLegacyChunkUpload request session range
          end
      end
  end.

(** ** Completion *)

Section Completion.
Context (platformText : UploadFailure -> string) (sha256 : string -> string).

(** A session without negotiated chunks is complete when its bytes arrived. *)
Definition uploadIsComplete (session : ResumableSession) : bool :=
  bool_decide (rs_receivedBytes session = rs_totalSizeBytes session)
  && match rs_chunkSizeBytes session with
     | Some chunkSizeBytes =>
         bool_decide (rs_protocolVersion session < 2)
         || hasCompleteUploadChunkSet (rs_completedChunks session) (rs_totalSizeBytes session)
              chunkSizeBytes
     | None => true
     end.

Definition jsonField (name : string) (body : Json) : option Json :=
  match body with JObject entries => mapGet name entries | _ => None end.

(** [/^[a-f0-9]{64}$/i]. *)
Definition isHexLetter (c : ascii) : bool :=
  let n := nat_of_ascii c in
  ((48 <=? n) && (n <=? 57) || (97 <=? n) && (n <=? 102) || (65 <=? n) && (n <=? 70))%nat.
Definition isChecksum (s : string) : bool :=
  bool_decide (String.length s = 64%nat) && forallb isHexLetter (String.list_ascii_of_string s).

Definition completeSchema (body : Json) : option string :=
  match jsonField "expectedChecksum" body with
  | Some (JString s) => if isChecksum (trim s) then Some (trim s) else None
  | _ => None
  end.

Record ReplaceExpectation := { ex_ifRevision : option Z; ex_ifFileId : option string }.
Definition noExpectation : ReplaceExpectation := {| ex_ifRevision := None; ex_ifFileId := None |}.

(** [expectSchema.safeParse(body).data ?? {}]. *)
Definition parsedExpectation (body : Json) : ReplaceExpectation :=
  match body with
  | JObject _ =>
      match match jsonField "ifRevision" body with
            | None => Some None
            | Some (JNumber n) => if bool_decide (0 <= n) && isSafeInteger n then Some (Some n) else None
            | Some _ => None
            end,
            match jsonField "ifFileId" body with
            | None => Some None
            | Some (JString s) => if bool_decide (s = "") then None else Some (Some s)
            | Some _ => None
            end with
      | Some ifRevision, Some ifFileId => {| ex_ifRevision := ifRevision; ex_ifFileId := ifFileId |}
      | _, _ => noExpectation
      end
  | _ => noExpectation
  end.

Definition resolveExpectedChecksum (body : Json) (session : ResumableSession) :
    result Reply (option string) :=
  if bool_decide (rs_protocolVersion session < 2) then Ok (rs_expectedChecksum session)
  else match completeSchema body with
       | None => Throw (failure 400 "A valid expectedChecksum is required.")
       | Some checksum => Ok (Some (toLowerCase checksum))
       end.

Definition ambiguous : Reply :=
  coded 500 "Upload completion requires storage reconciliation." "RESUMABLE_COMMIT_AMBIGUOUS".

Definition computeFileSha256 (path : string) : Program string :=
  content ← settle (ask (readStaging path));
  mret (sha256 content).

(** [!expectedChecksum]. *)
Definition toVerify (expectedChecksum : option string) : option string :=
  match expectedChecksum with
  | None | Some EmptyString => None
  | Some checksum => Some checksum
  end.

Definition stagingUnreadable (session : ResumableSession) : Program Reply :=
  restored ← outcome (restoreResumableSessionAfterCommitRollback platformText (rs_id session)
    (rs_ownerUserId session) (plain "Could not read staging for checksum verification."));
  match restored with
  | Ok _ =>
      mret (retryAfter (coded 503 "Could not read uploaded file. Retry completion."
                          "UPLOAD_STAGING_READ_FAILED"))
  | Throw restoreError =>
      _ ← ignoring (recordResumableCommitRecoveryError platformText (rs_id session)
            (rs_ownerUserId session) restoreError);
      mret ambiguous
  end.

Definition verifyUploadedFile (session : ResumableSession) (expectedChecksum : option string) :
    Program (option Reply) :=
  match toVerify expectedChecksum with
  | None => mret None
  | Some checksum =>
      actual ← outcome (computeFileSha256 (rs_tmpPath session));
      match actual with
      | Throw _ => r ← stagingUnreadable session; mret (Some r)
      | Ok actualChecksum =>
          if bool_decide (actualChecksum = checksum) then mret None
          else
            _ ← failAndCleanupResumableSession platformText (rs_id session)
                  (rs_ownerUserId session) (rs_tmpPath session);
            mret (Some (coded 400 "Checksum mismatch." "CHECKSUM_MISMATCH"))
      end
  end.

Definition ambiguousCommitResponse (session : ResumableSession) (e : UploadFailure) :
    Program Reply :=
  _ ← ignoring (recordResumableCommitRecoveryError platformText (rs_id session)
        (rs_ownerUserId session) e);
  mret ambiguous.

(** An error's own [status]. *)
Definition errorStatus (e : UploadFailure) : Z :=
  match e with
  | StoreError (StorageMutationConflictError code _) => conflictStatus code
  | StoreError (UploadAdmissionError code) => admissionErrorStatus code
  | StoreError StorageAdmissionBusyError | ProtocolNotReady => 503
  | FilesError _ status | UploadError _ status => status
  | RevisionConflict => 409
  | ResumableCompletionError retryable => if retryable then 503 else 500
  | _ => 500
  end.

Definition retryLaterResponse (session : ResumableSession) (e : UploadFailure) : Program Reply :=
  restored ← outcome (restoreResumableSessionAfterCommitRollback platformText (rs_id session)
    (rs_ownerUserId session) e);
  match restored with
  | Throw restoreError => ambiguousCommitResponse session restoreError
  | Ok _ => mret (retryAfter (jsonOf (errorStatus e) e))
  end.

Definition commitRequest (session : ResumableSession) (actorUserId : string)
    (expectedChecksum : option string) (expected : ReplaceExpectation) : CommitRequest :=
  {| cr_sessionId := rs_id session; cr_actorUserId := actorUserId;
     cr_tmpPath := rs_tmpPath session; cr_folderId := rs_folderId session;
     cr_originalName := rs_originalName session; cr_mimeType := rs_mimeType session;
     cr_totalSizeBytes := rs_totalSizeBytes session; cr_contentChecksum := expectedChecksum;
     cr_conflictStrategy := rs_conflictStrategy session;
     cr_clientModifiedAt := rs_clientModifiedAt session;
     cr_ifRevision := ex_ifRevision expected; cr_ifFileId := ex_ifFileId expected |}.

Definition commitResumableUpload (session : ResumableSession) (actorUserId : string)
    (expectedChecksum : option string) (expected : ReplaceExpectation) : Program Json :=
  settle (ask (commitUpload (commitRequest session actorUserId expectedChecksum expected))).

Definition created (file : Json) : Reply :=
  {| re_status := 201; re_body := value file; re_retryAfter := false; re_mutationId := None |}.

Definition commitErrorResponse (session : ResumableSession) (e : UploadFailure) : Program Reply :=
  match e with
  | ResumableCompletionError true => mret (retryAfter (jsonOf 503 e))
  | ResumableCompletionError false => mret (jsonOf 500 e)
  | FilesError _ _ | RevisionConflict =>
      _ ← failAndCleanupResumableSession platformText (rs_id session) (rs_ownerUserId session)
            (rs_tmpPath session);
      mret (jsonOf (errorStatus e) e)
  | StoreError (StorageMutationConflictError code _) =>
      if bool_decide (code = STORAGE_MUTATION_IN_PROGRESS) then retryLaterResponse session e
      else mret (jsonOf (conflictStatus code) e)
  | StoreError StorageAdmissionBusyError => retryLaterResponse session e
  | _ => ambiguousCommitResponse session e
  end.

Definition commitUploadedFile (session : ResumableSession) (actorUserId : string)
    (expectedChecksum : option string) (expected : ReplaceExpectation) : Program Reply :=
  catch (file ← commitResumableUpload session actorUserId expectedChecksum expected;
         mret (created file))
    (commitErrorResponse session).

Definition replayCompletedUpload (body : Json) (actorUserId id : string) : Program Reply :=
  completed ← findCompletedResumableSession id actorUserId;
  match completed with
  | None =>
      current ← findResumableSessionStatus id actorUserId;
      if bool_decide (current = Some ss_committing)
      then attachResumableMutationHeader
             (retryAfter (coded 503 "Upload completion is still recovering. Retry shortly."
                            "RESUMABLE_COMMIT_RETRYABLE")) id actorUserId
      else mret (failure 404 "Upload session not found.")
  | Some completed =>
      match resolveExpectedChecksum body completed with
      | Throw r => mret r
      | Ok expectedChecksum =>
          if negb (bool_decide (expectedChecksum = rs_expectedChecksum completed))
          then mret (coded 400 "Checksum mismatch." "CHECKSUM_MISMATCH")
          else
            file ← commitResumableUpload completed actorUserId expectedChecksum noExpectation;
            attachResumableMutationHeader (created file) id actorUserId
      end
  end.

(** What a session that cannot begin to commit is answered with. *)
Definition beginRefused (e : UploadFailure) : Reply :=
  match e with
  | StoreError (PlainError "UPLOAD_SESSION_NOT_RECEIVABLE") =>
      failure 409 "Upload session is no longer available."
  | _ => retryAfter (coded 503 "Upload completion is temporarily unavailable."
                       "RESUMABLE_COMMIT_RETRYABLE")
  end.

Definition commitVerified (body : Json) (actorUserId : string) (session : ResumableSession)
    (expectedChecksum : option string) : Program Reply :=
  verificationError ← verifyUploadedFile session expectedChecksum;
  match verificationError with
  | Some r => mret r
  | None =>
      r ← commitUploadedFile session actorUserId expectedChecksum (parsedExpectation body);
      attachResumableMutationHeader r (rs_id session) actorUserId
  end.

Definition completeResumableUpload (body : Json) (actorUserId id : string) : Program Reply :=
  found ← findActiveResumableSession id actorUserId true;
  match found with
  | None => replayCompletedUpload body actorUserId id
  | Some session =>
      if negb (uploadIsComplete session)
      then mret (json 400 [("error", JString "Upload is incomplete.");
                           ("receivedBytes", JNumber (rs_receivedBytes session));
                           ("totalSizeBytes", JNumber (rs_totalSizeBytes session))])
      else
        match resolveExpectedChecksum body session with
        | Throw r => mret r
        | Ok expectedChecksum =>
            begun ← outcome (beginSessionCommit (rs_id session) actorUserId expectedChecksum);
            match begun with
            | Throw e => attachResumableMutationHeader (beginRefused e) (rs_id session) actorUserId
            | Ok _ => commitVerified body actorUserId session expectedChecksum
            end
        end
  end.

(** ** The routes *)

(** The validated body of a request; its strings are trimmed. *)
Record CreateBody := {
  bo_folderId : option string; bo_originalName : string; bo_mimeType : string;
  bo_totalSizeBytes : Z; bo_conflictStrategy : string; bo_expectedChecksum : option string;
  bo_clientModifiedAt : option Z
}.

Definition createInput (ownerUserId : string) (body : CreateBody) : CreateInput :=
  {| ci_ownerUserId := ownerUserId; ci_folderId := bo_folderId body;
     ci_originalName := bo_originalName body; ci_mimeType := bo_mimeType body;
     ci_totalSizeBytes := bo_totalSizeBytes body; ci_expectedChecksum := bo_expectedChecksum body;
     ci_conflictStrategy := bo_conflictStrategy body;
     ci_clientModifiedAt := bo_clientModifiedAt body;
     ci_protocolVersion := CURRENT_UPLOAD_PROTOCOL_VERSION;
     ci_chunkSizeBytes := Some DEFAULT_RESUMABLE_CHUNK_SIZE |}.

Definition optionNumber (n : option Z) : Json := match n with Some n => JNumber n | None => JNull end.

Definition chunkJson (c : UploadChunk) : Json :=
  JObject [("chunkIndex", JNumber (uc_chunkIndex c)); ("startByte", JNumber (uc_startByte c));
           ("endByte", JNumber (uc_endByte c)); ("sizeBytes", JNumber (uc_sizeBytes c))].

Definition sessionFields (session : ResumableSession) : list (string * Json) :=
  [("id", JString (rs_id session)); ("receivedBytes", JNumber (rs_receivedBytes session));
   ("protocolVersion", JNumber (rs_protocolVersion session));
   ("chunkSizeBytes", optionNumber (rs_chunkSizeBytes session));
   ("completedChunks", JArray (chunkJson <$> rs_completedChunks session));
   ("expiresAt", JNumber (rs_expiresAt session))].

Definition statusName (status : SessionStatus) : string :=
  match status with
  | ss_allocating => "allocating" | ss_created => "created" | ss_receiving => "receiving"
  | ss_committing => "committing" | ss_completed => "completed" | ss_failed => "failed"
  | ss_cancelled => "cancelled" | ss_expired => "expired"
  end.

Definition createSession (actorUserId : string) (body : CreateBody) : Program Reply :=
  _ ← settle (ask protocolReady);
  _ ← match normalizeFileName (bo_originalName body) with
      | Ok _ => mret tt
      | Throw code => throw (FilesError code 400)
      end;
  maxUploadBytes ← settle (ask uploadPolicy);
  _ ← (if bool_decide (bo_totalSizeBytes body <= maxUploadBytes) then mret tt
       else throw (UploadError "UPLOAD_SIZE_LIMIT_EXCEEDED" 413));
  session ← createResumableSession platformText (createInput actorUserId body);
  mret (json 201 (sessionFields session)).

Definition readSession (actorUserId id : string) : Program Reply :=
  found ← findActiveResumableSession id actorUserId true;
  match found with
  | None => throw notFound
  | Some session =>
      mret (json 200 (sessionFields session
                      ++ [("totalSizeBytes", JNumber (rs_totalSizeBytes session));
                          ("status", JString (statusName (rs_status session)))]))
  end.

Definition writeChunk (actorUserId id : string) (request : ChunkRequest) : Program Reply :=
  protocolResponse ← requireStorageProtocol;
  found ← findActiveResumableSession id actorUserId false;
  match protocolResponse, found with
  | Some r, _ => mret r
  | None, None => throw notFound
  | None, Some session => writeUploadChunk request session actorUserId
  end.

Definition cancelSession (actorUserId id : string) : Program Reply :=
  _ ← settle (ask protocolReady);
  found ← findActiveResumableSession id actorUserId false;
  match found with
  | None => throw notFound
  | Some session =>
      _ ← cancelAndCleanupResumableSession platformText id actorUserId (rs_tmpPath session);
      mret {| re_status := 204; re_body := noBody; re_retryAfter := false; re_mutationId := None |}
  end.

Definition completeSession (actorUserId id : string) (body : Json) : Program Reply :=
  _ ← settle (ask protocolReady);
  completeResumableUpload body actorUserId id.
End Completion.
