(* ===== verification/StagingCleanup.v ===== *)
(** * The clean-up of upload sessions

    The session part of [apps/worker/src/handlers/staging-cleanup.ts]: stale
    commits are put back, lapsed sessions expire, the chunks and then the staging
    files of finished sessions go, and last their rows. The rest of that file,
    which looks for files no row owns, is not here. A query without an order
    lists rows by id. *)

From Stdlib Require String.
From S2P Require Import Prelude ChunkProtocol Database UploadAdmission Async StorageLayout UploadIo UploadSessions.

Open Scope Z_scope.

Definition CLEANUP_BATCH_SIZE : nat := 500.

Definition sessionRows (p : UploadSession -> bool) (db : DB) : list (string * UploadSession) :=
  filter (fun e => p e.2 = true) (map_to_list (db_sessions db)).

(** [findMany] with a limit, of ids and staging paths. *)
Definition idsAndPaths (rows : list (string * UploadSession)) : list (string * string) :=
  (fun e => (e.1, ud_tmpPath (se_upload e.2))) <$> rows.

Definition findMany (p : UploadSession -> bool) : Tx (list (string * string)) :=
  read (fun db => idsAndPaths (take CLEANUP_BATCH_SIZE (sessionRows p db))).

(** [orderBy] in which rows without a date come last. *)
Definition dateOrder (a b : option Z) : bool :=
  match a, b with
  | Some x, Some y => bool_decide (x < y)
  | Some _, None => true
  | None, _ => false
  end.
Definition cleanupOrder (a b : string * UploadSession) : Prop :=
  let attempt := fun e : string * UploadSession => ud_cleanupLastAttemptAt (se_upload e.2) in
  let terminal := fun e : string * UploadSession => se_terminalAt e.2 in
  dateOrder (attempt b) (attempt a) = false
  /\ (dateOrder (attempt a) (attempt b) = false -> dateOrder (terminal b) (terminal a) = false).
#[export] Instance cleanupOrder_dec a b : Decision (cleanupOrder a b).
Proof. unfold cleanupOrder. apply _. Defined.
Definition terminalOrder (a b : string * UploadSession) : Prop :=
  dateOrder (se_terminalAt b.2) (se_terminalAt a.2) = false.
#[export] Instance terminalOrder_dec a b : Decision (terminalOrder a b).
Proof. unfold terminalOrder. apply _. Defined.

(** [updateMany] and [deleteMany] over ids. *)
Definition updateAll (ids : list string) (f : UploadSession -> UploadSession) : Tx unit :=
  modify (fun db =>
    set_sessions (map_imap (fun id s => Some (if bool_decide (id ∈ ids) then f s else s))
                    (db_sessions db)) db).
Definition deleteTerminalRows (ids : list string) : Tx unit :=
  modify (fun db =>
    set_sessions (filter (fun e : string * UploadSession => e.1 ∉ ids) (db_sessions db)) db).

Section Cleanup.
Context (platformText : UploadFailure -> string).
#[local] Notation errorMessage := (shortMessage platformText).

Definition warningOf (id : string) (message : string) : string := id +:+ ": " +:+ message.

Definition recordSessionCleanupFailure (sessionId : string) (e : UploadFailure) (now : Z) :
    Program unit :=
  _ ← onPrisma (fun _ => updateSession sessionId (fun _ => true)
                           (withAttempt now (Some (errorMessage e))));
  mret tt.

(** Each row's work, and the warnings it ends with. *)
Fixpoint forSessions {X : Type} (sessions : list X) (work : X -> Program (list string)) :
    Program (list string) :=
  match sessions with
  | [] => mret []
  | session :: rest =>
      warnings ← work session;
      more ← forSessions rest work;
      mret (warnings ++ more)
  end.

(** ** Lapsed sessions *)

Definition expirable (now : Z) (s : UploadSession) : bool :=
  isActiveStatus (se_status s) && bool_decide (se_expiresAt s <= now).

Definition expireTx (id : string) (now : Z) : Tx unit :=
  _ ← updateSession id (expirable now) (finishedAs ss_expired now);
  mret tt.

Definition expireStaleSessions (now : Z) : Program unit :=
  sessions ← onPrisma (fun _ => findMany (expirable now));
  forEach sessions (fun session => underLock session.1 (fun _ => expireTx session.1 now)).

(** ** Commits that were cut off *)

Definition staleCommit (now : Z) (s : UploadSession) : bool :=
  bool_decide (se_status s = ss_committing) && bool_decide (se_expiresAt s <= now)
  && unreleased s && bool_decide (se_committedFileId s = None)
  && bool_decide (se_storageMutationId s = None).

(** The rows with their conflict strategy. *)
Definition findStaleCommits (now : Z) : Tx (list (string * string * string)) :=
  read (fun db =>
    (fun e : string * UploadSession =>
       (e.1, ud_tmpPath (se_upload e.2), ud_conflictStrategy (se_upload e.2)))
    <$> take CLEANUP_BATCH_SIZE (sessionRows (staleCommit now) db)).

Definition recoveredMessage : string :=
  "Recovered stale committing session: original staging file is present.".

Definition recoverTx (id : string) (now : Z) : Tx Z :=
  updateSession id (staleCommit now)
    (fun s => withAttempt now (Some recoveredMessage)
                (withStatus ss_receiving (now + UPLOAD_SESSION_TTL_MS) s)).

(** [getPathPresence]: whether it is there, unless that cannot be told. *)
Definition pathIsPresent (targetPath : string) : Program bool :=
  catch (_ ← settle (ask (accessStaging targetPath)); mret true)
    (fun e => match e with DiskError (Some "ENOENT") => mret false | _ => throw e end).

Definition recoverStaleCommit (now : Z) (session : string * string * string) :
    Program (list string) :=
  let '(id, tmpPath, conflictStrategy) := session in
  catch (
    _ ← (if bool_decide (conflictStrategy = "replace")
         then throw (plain "Commit outcome ambiguous: replacement storage state requires reconciliation.")
         else mret tt);
    _ ← (if stagingPathIsSafe tmpPath then mret tt
         else throw (plain "Session staging path is outside the temporary root."));
    present ← pathIsPresent tmpPath;
    _ ← (if present : bool then mret tt
         else throw (plain "Commit outcome ambiguous: original staging path is missing."));
    count ← onPrisma (fun _ => recoverTx id now);
    mret (if bool_decide (0 < count) then [warningOf id recoveredMessage] else []))
    (fun e =>
       _ ← ignoring (recordSessionCleanupFailure id e now);
       mret [warningOf id (errorMessage e)]).

Definition recoverStaleCommittingSessions (now : Z) : Program (list string) :=
  sessions ← onPrisma (fun _ => findStaleCommits now);
  forSessions sessions (recoverStaleCommit now).

(** ** Finished sessions *)

Definition terminal (s : UploadSession) : bool := isTerminalUploadSessionStatus (se_status s).

Definition withoutChunks (s : UploadSession) : UploadSession :=
  changeSession s (se_status s) (se_expiresAt s) (se_terminalAt s) (se_stagingReleasedAt s)
    (se_cleanupLastError s) [] (se_upload s).

Definition deleteTerminalChunksTx : Tx unit :=
  modify (fun db =>
    set_sessions ((fun s => if terminal s then withoutChunks s else s) <$> db_sessions db) db).

Definition deleteTerminalChunks : Program unit := onPrisma (fun _ => deleteTerminalChunksTx).

Definition findUnreleased : Tx (list (string * string)) :=
  read (fun db => idsAndPaths (take CLEANUP_BATCH_SIZE
    (merge_sort cleanupOrder (sessionRows (fun s => terminal s && unreleased s) db)))).

Definition released (now : Z) (s : UploadSession) : UploadSession :=
  changeSession s (se_status s) (se_expiresAt s) (se_terminalAt s) (Some now) None (se_chunks s)
    (changeUpload (se_upload s) (ud_receivedBytes (se_upload s))
       (ud_expectedChecksum (se_upload s)) (ud_cleanupAttemptCount (se_upload s) + 1) (Some now)).

Definition releaseSession (now : Z) (session : string * string) : Program (list string) :=
  let '(id, tmpPath) := session in
  catch (
    _ ← (if stagingPathIsSafe tmpPath then mret tt
         else throw (plain "Session staging path is outside the temporary root."));
    _ ← settle (ask (removeStaging tmpPath));
    absent ← pathIsAbsent tmpPath;
    _ ← (if absent : bool then mret tt
         else throw (plain "Staging path still exists after deletion."));
    _ ← onPrisma (fun _ => updateSession id unreleased (released now));
    mret [])
    (fun e =>
       _ ← ignoring (recordSessionCleanupFailure id e now);
       mret [warningOf id (errorMessage e)]).

Definition releaseTerminalStaging (now : Z) : Program (list string) :=
  sessions ← onPrisma (fun _ => findUnreleased);
  forSessions sessions (releaseSession now).

Definition retained (cutoff : Z) (s : UploadSession) : bool :=
  terminal s && negb (unreleased s)
  && match se_terminalAt s with Some at_ => bool_decide (at_ <= cutoff) | None => false end.

Definition findRetained (cutoff : Z) : Tx (list (string * string)) :=
  read (fun db => idsAndPaths (take CLEANUP_BATCH_SIZE
    (merge_sort terminalOrder (sessionRows (retained cutoff) db)))).

Definition deleteRetainedTerminalSessions (now : Z) : Program (list string) :=
  sessions ← onPrisma (fun _ => findRetained (now - UPLOAD_TERMINAL_RETENTION_MS));
  match sessions with
  | [] => mret []
  | _ =>
      let ids := sessions.*1 in
      catch (_ ← onPrisma (fun _ => deleteTerminalRows ids); mret [])
        (fun e =>
           let message := errorMessage e in
           _ ← ignoring (onPrisma (fun _ => updateAll ids (withAttempt now (Some message))));
           mret ["terminal rows: " +:+ message])
  end.

(** [cleanupUploadSessionLifecycle], up to its look at files that no row owns. *)
Definition cleanupUploadSessionLifecycle (now : Z) : Program (list string) :=
  stale ← recoverStaleCommittingSessions now;
  _ ← expireStaleSessions now;
  chunks ← catch (_ ← deleteTerminalChunks; mret [])
             (fun e => mret ["terminal chunks: " +:+ errorMessage e]);
  staging ← releaseTerminalStaging now;
  rows ← deleteRetainedTerminalSessions now;
  mret (stale ++ chunks ++ staging ++ rows).
End Cleanup.
