(* ===== verification/UploadInvariant.v ===== *)
(** * What upload sessions keep to

    A row's well-formedness, the limits on staged bytes, and what a step may
    change: which rows it may add, move and remove, when a session begins to
    commit, and whose staged bytes may differ. [changes by_ w w'] is what a
    program [Some t], or the rest of the installation [None], may do to the
    others; what a program knows between two effects is stable under it.

    A row's plain change neither adds a row nor begins a commit. Statements that
    change rows plainly, and the steps of the journal, keep the invariant and
    change for the others only what they may. *)

From S2P Require Import Prelude JsValues ChunkProtocol Database MutationMetadata MutationPrepare Journal MetadataFacts StorageLayout Async UploadAdmission UploadIo UploadSessions StagingCleanup.

Open Scope Z_scope.

(** ** Rows *)

(** The chunk size of a session whose chunks are recorded. *)
Definition chunkedBy (s : UploadSession) : option Z :=
  if bool_decide (2 <= ud_protocolVersion (se_upload s)) then ud_chunkSizeBytes (se_upload s)
  else None.

Definition isChunkOf (total chunk : Z) (c : UploadChunk) : Prop :=
  exists index, 0 <= index < getExpectedUploadChunkCount total chunk /\ c = chunkAt total chunk index.

Definition chunkBytes (chunks : list UploadChunk) : Z := sumZ (uc_sizeBytes <$> chunks).

Definition chunksOk (s : UploadSession) : Prop :=
  match chunkedBy s with
  | Some chunk =>
      0 < chunk /\ Forall (isChunkOf (se_totalSizeBytes s) chunk) (se_chunks s) /\
      NoDup (uc_chunkIndex <$> se_chunks s) /\
      (terminal s = false -> ud_receivedBytes (se_upload s) = chunkBytes (se_chunks s))
  | None => se_chunks s = []
  end.

Record rowOk (id : string) (s : UploadSession) : Prop := {
  ro_path : ud_tmpPath (se_upload s) = stagingPath id;
  ro_total : 0 <= se_totalSizeBytes s <= 2 ^ 53 - 1;
  ro_received : 0 <= ud_receivedBytes (se_upload s) <= se_totalSizeBytes s;
  ro_terminalAt : terminal s = true <-> se_terminalAt s <> None;
  ro_released : se_stagingReleasedAt s <> None -> terminal s = true;
  ro_committed : se_committedFileId s <> None -> se_status s = ss_completed;
  ro_chunks : chunksOk s
}.

Definition rowsOk (db : DB) : Prop := forall id s, db_sessions db !! id = Some s -> rowOk id s.

(** The bytes of sessions whose staging is not released, in all and per user. *)
Definition withinLimits (settings : LockedSettings) (db : DB) : Prop :=
  bytesOf unreleased db <= lo_resumableMaxReservedBytesInstance settings /\
  forall owner, bytesOf (fun s => unreleased s && ownedBy owner s) db
                <= lo_resumableMaxReservedBytesPerUser settings.

(** *** Recorded bytes never pass the size of the file *)

Lemma sumZ_submseteq l l' : l ⊆+ l' -> Forall (Z.le 0) l' -> sumZ l <= sumZ l'.
Proof.
  unfold sumZ. induction 1 as [|x l l' _ IH|x y l|x l l' _ IH|l1 l2 l3 H1 IH1 H2 IH2]; cbn.
  - done.
  - intros [_ H]%Forall_cons. specialize (IH H). lia.
  - lia.
  - intros [Hx H]%Forall_cons. specialize (IH H). lia.
  - intros H. etrans; [|by apply IH2]. apply IH1. rewrite Forall_forall in *. intros x Hx.
    apply H. by eapply elem_of_submseteq.
Qed.

Lemma chunk_size_pos total chunk c : 0 < chunk -> isChunkOf total chunk c -> 0 < uc_sizeBytes c.
Proof.
  intros Hc (i & Hi & ->). apply chunk_in_range in Hi as [H1 H2]; [|done]. cbn. nia.
Qed.

Lemma chunk_bytes_bound total chunk chunks :
  0 < chunk -> 0 <= total -> Forall (isChunkOf total chunk) chunks ->
  NoDup (uc_chunkIndex <$> chunks) -> 0 <= chunkBytes chunks <= total.
Proof.
  intros Hc Ht Hall Hnd. unfold chunkBytes.
  pose proof (proj1 (expectedCount_spec total chunk _ Hc) eq_refl) as Hn.
  set (n := getExpectedUploadChunkCount total chunk) in *. split.
  - clear Hnd. induction Hall as [|c l H _ IH]; [done|]. apply chunk_size_pos in H; [|done].
    cbn. unfold sumZ in IH. lia.
  - assert (Hsub : chunks ⊆+ (chunkAt total chunk <$> seqZ 0 n)).
    { apply NoDup_submseteq; [by eapply NoDup_fmap_1|]. intros c Hin.
      rewrite Forall_forall in Hall. destruct (Hall c Hin) as (i & Hi & ->).
      apply list_elem_of_fmap_2, elem_of_seqZ. lia. }
    etrans; [apply sumZ_submseteq; [by apply fmap_submseteq|]|].
    + rewrite !Forall_fmap, Forall_forall. intros i Hi%elem_of_seqZ. cbn.
      pose proof (chunk_size_pos total chunk (chunkAt total chunk i) Hc) as Hp.
      apply Z.lt_le_incl, Hp. exists i. by split; [lia|].
    + rewrite <- (Z2Nat.id n) by nia. unfold sumZ. rewrite chunk_sizes_sum; [lia|done|done|].
      fold n. lia.
Qed.

(** ** Liabilities *)

Definition weight (p : UploadSession -> bool) (e : string * UploadSession) : Z :=
  if p e.2 then se_totalSizeBytes e.2 else 0.
Definition weightOf (p : UploadSession -> bool) (o : option UploadSession) : Z :=
  match o with Some s => if p s then se_totalSizeBytes s else 0 | None => 0 end.

Lemma bytesOf_sum p db : bytesOf p db = sumOf (weight p) (map_to_list (db_sessions db)).
Proof.
  unfold bytesOf, sessionsThat, sumZ, sumOf, weight.
  induction (map_to_list (db_sessions db)) as [|[id s] l IH]; [done|].
  rewrite !fmap_cons. cbn [snd foldr]. rewrite filter_cons.
  destruct (decide (p s = true)) as [E|E].
  - rewrite E. cbn [fmap list_fmap foldr]. by rewrite IH.
  - apply not_true_is_false in E. by rewrite E, IH.
Qed.

Lemma weights_delete p (m : gmap string UploadSession) id :
  sumOf (weight p) (map_to_list m) = weightOf p (m !! id) + sumOf (weight p) (map_to_list (delete id m)).
Proof.
  destruct (m !! id) as [s|] eqn:E; cbn.
  - rewrite <- (insert_delete_id m id s E) at 1. rewrite sumOf_insert; [done|apply lookup_delete_eq].
  - by rewrite delete_id.
Qed.

(** Bytes that are only less, row by row, are less. *)
Lemma weights_mono p (m m' : gmap string UploadSession) :
  (forall id, weightOf p (m' !! id) <= weightOf p (m !! id)) ->
  sumOf (weight p) (map_to_list m') <= sumOf (weight p) (map_to_list m).
Proof.
  revert m. induction m' as [|id s m' Hid IH] using map_ind; intros m Hle.
  - rewrite map_to_list_empty. assert (Hp : forall id, 0 <= weightOf p (m !! id)).
    { intros id. specialize (Hle id). by rewrite lookup_empty in Hle. }
    clear Hle. induction m as [|id s m Hid IH] using map_ind; [done|].
    rewrite sumOf_insert by done. pose proof (Hp id) as H. rewrite lookup_insert_eq in H.
    enough (0 <= sumOf (weight p) (map_to_list m)) by (cbn in *; unfold weight, sumOf in *; cbn in *; lia).
    apply IH. intros j. destruct (decide (j = id)) as [->|Hn]; [by rewrite Hid|].
    specialize (Hp j). by rewrite lookup_insert_ne in Hp.
  - rewrite (weights_delete p _ id), (weights_delete p m id).
    pose proof (Hle id) as H. apply Z.add_le_mono; [done|].
    rewrite delete_insert_id by done. apply IH. intros j.
    destruct (decide (j = id)) as [->|Hn]; [by rewrite Hid, lookup_delete_eq|].
    rewrite lookup_delete_ne by done. specialize (Hle j). by rewrite lookup_insert_ne in Hle.
Qed.

Lemma bytesOf_mono p db db' :
  (forall id, weightOf p (db_sessions db' !! id) <= weightOf p (db_sessions db !! id)) ->
  bytesOf p db' <= bytesOf p db.
Proof. rewrite !bytesOf_sum. apply weights_mono. Qed.

Lemma bytesOf_insert p db id s :
  db_sessions db !! id = None ->
  bytesOf p (set_sessions (<[id := s]> (db_sessions db)) db) = bytesOf p db + weightOf p (Some s).
Proof.
  intros Hid. rewrite !bytesOf_sum. cbn [db_sessions set_sessions].
  rewrite sumOf_insert by done. cbn. unfold weight. cbn. lia.
Qed.

(** ** What a step may change *)

(** A row that stays. *)
Record moves (s s' : UploadSession) : Prop := {
  mv_owner : se_ownerUserId s' = se_ownerUserId s;
  mv_total : se_totalSizeBytes s' = se_totalSizeBytes s;
  mv_chunked : chunkedBy s' = chunkedBy s;
  mv_terminal : terminal s = true -> terminal s' = true;
  mv_completed : se_status s = ss_completed -> se_status s' = ss_completed;
  mv_released : se_stagingReleasedAt s <> None -> se_stagingReleasedAt s' <> None;
  mv_chunks : terminal s' = false -> se_chunks s ⊆ se_chunks s';
  mv_allocating : se_status s' = ss_allocating -> se_status s = ss_allocating
}.

Definition drawnBy (w : UploadWorld) (id : string) (by_ : option nat) : Prop :=
  exists t, by_ = Some t /\ uw_drawn w !! id = Some t.

(** The bytes at a path are nobody's who is committing recorded chunks. *)
Definition writable (w : UploadWorld) (path : string) : Prop :=
  forall id s, sessionOf w id = Some s -> path = stagingPath id ->
    se_status s <> ss_committing \/ chunkedBy s = None.

Record changes (by_ : option nat) (w w' : UploadWorld) : Prop := {
  ch_new : forall id s', sessionOf w id = None -> sessionOf w' id = Some s' ->
    drawnBy w id by_ /\ id ∉ uw_seen w /\ se_status s' = ss_allocating;
  ch_gone : forall id s, sessionOf w id = Some s -> sessionOf w' id = None -> terminal s = true;
  ch_moves : forall id s s', sessionOf w id = Some s -> sessionOf w' id = Some s' -> moves s s';
  ch_begun : forall id s s', sessionOf w id = Some s -> sessionOf w' id = Some s' ->
    se_status s <> ss_committing -> se_status s' = ss_committing ->
    isReceivableStatus (se_status s) = true /\ (forall u, (id, u) ∉ uw_sessionLocks w) /\
    exists t, by_ = Some t /\ uw_committer w' !! id = Some t;
  ch_activated : forall id s s', sessionOf w id = Some s -> sessionOf w' id = Some s' ->
    se_status s = ss_allocating -> se_status s' <> ss_allocating -> terminal s' = false ->
    drawnBy w id by_;
  ch_seen : uw_seen w ⊆ uw_seen w';
  ch_seen_new : forall id, id ∈ uw_seen w' -> id ∈ uw_seen w \/ drawnBy w id by_;
  ch_drawn : forall id u, uw_drawn w !! id = Some u -> uw_drawn w' !! id = Some u;
  ch_committer : forall id u, by_ <> Some u -> uw_committer w' !! id = Some u ->
    uw_committer w !! id = Some u;
  ch_locks : forall id u, by_ <> Some u ->
    (id, u) ∈ uw_sessionLocks w' <-> (id, u) ∈ uw_sessionLocks w;
  ch_staged : forall path, stagedAt w' path = stagedAt w path \/ writable w path
}.

Definition uploadInv (settings : LockedSettings) (w : UploadWorld) : Prop :=
  rowsOk (uw_db w) /\ withinLimits settings (uw_db w) /\ dom (db_sessions (uw_db w)) ⊆ uw_seen w.

(** ** What stays known *)

Definition holdsFor (by_ : nat) (A : UploadWorld -> Prop) : Prop :=
  forall b w w', b <> Some by_ -> changes b w w' -> A w -> A w'.

(** What holds of a session that was there once, while it is there. *)
Definition known (P : UploadSession -> Prop) (id : string) (w : UploadWorld) : Prop :=
  id ∈ uw_seen w /\ forall s, sessionOf w id = Some s -> P s.

Lemma known_holds t P id :
  (forall s s', moves s s' -> P s -> P s') -> holdsFor t (known P id).
Proof.
  intros HP b w w' _ Hc [Hseen H]. split; [by apply (ch_seen _ _ _ Hc)|]. intros s' Hs'.
  destruct (sessionOf w id) as [s|] eqn:Es.
  - eapply HP; [by eapply ch_moves|by apply H].
  - by destruct (ch_new _ _ _ Hc id s' Es Hs') as (_ & Hn & _).
Qed.

Lemma known_and P Q id w : known P id w -> known Q id w -> known (fun s => P s /\ Q s) id w.
Proof. intros [H1 H2] [_ H3]. split; [done|]. naive_solver. Qed.

Lemma known_weak (P Q : UploadSession -> Prop) id w :
  (forall s, P s -> Q s) -> known P id w -> known Q id w.
Proof. intros HPQ [H1 H2]. split; [done|]. naive_solver. Qed.

(** The session's lock is held and the session is not committing. *)
Definition held (t : nat) (id : string) (w : UploadWorld) : Prop :=
  (id, t) ∈ uw_sessionLocks w /\ forall s, sessionOf w id = Some s -> se_status s <> ss_committing.

Lemma held_holds t id : holdsFor t (held t id).
Proof.
  intros b w w' Hb Hc [Hl H]. split; [by apply (ch_locks _ _ _ Hc)|]. intros s' Hs' Hst.
  destruct (sessionOf w id) as [s|] eqn:Es.
  - destruct (ch_begun _ _ _ Hc id s s' Es Hs' (H s eq_refl) Hst) as (_ & Hn & _). by apply (Hn t).
  - destruct (ch_new _ _ _ Hc id s' Es Hs') as (_ & _ & E). by rewrite E in Hst.
Qed.

(** The lock alone. *)
Definition locked (t : nat) (id : string) (w : UploadWorld) : Prop := (id, t) ∈ uw_sessionLocks w.
Lemma locked_holds t id : holdsFor t (locked t id).
Proof. intros b w w' Hb Hc Hl. by apply (ch_locks _ _ _ Hc). Qed.

(** An id that this program drew and that is no session's yet. *)
Definition drew (t : nat) (id : string) (w : UploadWorld) : Prop :=
  uw_drawn w !! id = Some t /\ id ∉ uw_seen w.
Lemma drew_holds t id : holdsFor t (drew t id).
Proof.
  intros b w w' Hb Hc [Hd Hs]. split; [by apply (ch_drawn _ _ _ Hc)|].
  intros Hin. destruct (ch_seen_new _ _ _ Hc id Hin) as [|(u & -> & Hu)]; [done|].
  rewrite Hd in Hu. by injection Hu as ->.
Qed.

(** A session this program is allocating, unless it was given up. *)
Definition allocates (t : nat) (id : string) (w : UploadWorld) : Prop :=
  uw_drawn w !! id = Some t /\
  known (fun s => se_status s = ss_allocating \/ terminal s = true) id w.
Lemma allocates_holds t id : holdsFor t (allocates t id).
Proof.
  intros b w w' Hb Hc [Hd [Hseen H]]. split; [by apply (ch_drawn _ _ _ Hc)|].
  split; [by apply (ch_seen _ _ _ Hc)|]. intros s' Hs'.
  destruct (sessionOf w id) as [s|] eqn:Es.
  - pose proof (ch_moves _ _ _ Hc id s s' Es Hs') as Hm. destruct (H s eq_refl) as [Ha|Ht].
    + destruct (decide (se_status s' = ss_allocating)) as [|Hn]; [by left|].
      destruct (terminal s') eqn:Et; [by right|].
      destruct (ch_activated _ _ _ Hc id s s' Es Hs' Ha Hn Et) as (u & -> & Hu).
      rewrite Hd in Hu. by injection Hu as ->.
    + right. by apply (mv_terminal _ _ Hm).
  - by destruct (ch_new _ _ _ Hc id s' Es Hs') as (_ & Hn & _).
Qed.

(** While the commit this program began lasts, the staged bytes are these. *)
Definition verified (t : nat) (id : string) (C : string -> Prop) (w : UploadWorld) : Prop :=
  forall s, sessionOf w id = Some s -> se_status s = ss_committing -> chunkedBy s <> None ->
    uw_committer w !! id = Some t ->
    exists content, stagedAt w (stagingPath id) = Some content /\ C content.
Lemma verified_holds t id C : holdsFor t (verified t id C).
Proof.
  intros b w w' Hb Hc H s' Hs' Hst Hch Hco.
  pose proof (ch_committer _ _ _ Hc id t Hb Hco) as Hco0.
  destruct (sessionOf w id) as [s|] eqn:Es.
  - pose proof (ch_moves _ _ _ Hc id s s' Es Hs') as Hm.
    destruct (decide (se_status s = ss_committing)) as [E|Hn].
    + rewrite (mv_chunked _ _ Hm) in Hch.
      destruct (H s Es E Hch Hco0) as (content & Hs & HC). exists content. split; [|done].
      destruct (ch_staged _ _ _ Hc (stagingPath id)) as [->|Hw]; [done|].
      by destruct (Hw id s Es eq_refl).
    + destruct (ch_begun _ _ _ Hc id s s' Es Hs' Hn Hst) as (_ & _ & u & -> & Hu).
      rewrite Hco in Hu. by injection Hu as ->.
  - destruct (ch_new _ _ _ Hc id s' Es Hs') as (_ & _ & E). by rewrite E in Hst.
Qed.

(** Who has just started has no lock and no commit. *)
Definition fresh (t : nat) (w : UploadWorld) : Prop :=
  (forall id, (id, t) ∉ uw_sessionLocks w) /\ forall id, uw_committer w !! id <> Some t.
Lemma fresh_holds t : holdsFor t (fresh t).
Proof.
  intros b w w' Hb Hc [H1 H2]. split.
  - intros id Hin. apply (H1 id). by apply (ch_locks _ _ _ Hc).
  - intros id Hco. apply (H2 id). by apply (ch_committer _ _ _ Hc).
Qed.

Lemma holds_true t : holdsFor t (fun _ => True).
Proof. by intros b w w'. Qed.
Lemma holds_pure t (P : Prop) : holdsFor t (fun _ => P).
Proof. by intros b w w'. Qed.
Lemma holds_and t A B : holdsFor t A -> holdsFor t B -> holdsFor t (fun w => A w /\ B w).
Proof. intros HA HB b w w' Hb Hc [Ha Hb']. split; eauto. Qed.
Lemma holds_exists t {X} (A : X -> UploadWorld -> Prop) :
  (forall x, holdsFor t (A x)) -> holdsFor t (fun w => exists x, A x w).
Proof. intros HA b w w' Hb Hc [x Hx]. exists x. eapply HA; eauto. Qed.
Lemma holds_all t {X} (A : X -> UploadWorld -> Prop) :
  (forall x, holdsFor t (A x)) -> holdsFor t (fun w => forall x, A x w).
Proof. intros HA b w w' Hb Hc Hx x. eapply HA; eauto. Qed.
Lemma holds_impl t (P : Prop) A : holdsFor t A -> holdsFor t (fun w => P -> A w).
Proof. intros HA b w w' Hb Hc Hx HP. eapply HA; eauto. Qed.

Create HintDb holds discriminated.
#[export] Hint Resolve held_holds locked_holds drew_holds allocates_holds verified_holds fresh_holds
  holds_true holds_pure holds_and holds_exists holds_all holds_impl : holds.

(** ** Plain changes *)

Record plainSession (id : string) (s s' : UploadSession) : Prop := {
  ps_moves : moves s s';
  ps_committing : se_status s' = ss_committing -> se_status s = ss_committing;
  ps_allocating : se_status s = ss_allocating ->
    se_status s' = ss_allocating \/ terminal s' = true;
  ps_ok : rowOk id s -> rowOk id s'
}.

Definition plainRow (id : string) (o o' : option UploadSession) : Prop :=
  match o, o' with
  | None, None => True
  | Some s, None => terminal s = true
  | Some s, Some s' => plainSession id s s'
  | None, Some _ => False
  end.

Definition plainTo (db db' : DB) : Prop :=
  forall id, plainRow id (db_sessions db !! id) (db_sessions db' !! id).

Lemma row_moves_refl s : moves s s.
Proof. by constructor. Qed.
Lemma row_moves_trans s1 s2 s3 : moves s1 s2 -> moves s2 s3 -> moves s1 s3.
Proof.
  intros [H1 H2 H3 H4 H5 H6 H7 H8] [G1 G2 G3 G4 G5 G6 G7 G8].
  constructor; [congruence..|auto|auto|auto| |auto].
  intros Ht c Hc. apply (G7 Ht), H7; [|done].
  destruct (terminal s2) eqn:E; [|done]. by rewrite (G4 eq_refl) in Ht.
Qed.
Lemma plainSession_refl id s : plainSession id s s.
Proof. constructor; auto using row_moves_refl. Qed.
Lemma plainRow_refl id o : plainRow id o o.
Proof. destruct o; [apply plainSession_refl|done]. Qed.
Lemma plainTo_same db db' : db_sessions db' = db_sessions db -> plainTo db db'.
Proof. intros E id. rewrite E. apply plainRow_refl. Qed.

Lemma plainTo_put db id s s' :
  db_sessions db !! id = Some s -> plainSession id s s' ->
  plainTo db (set_sessions (<[id := s']> (db_sessions db)) db).
Proof.
  intros Hs Hp j. cbn. destruct (decide (j = id)) as [->|Hn].
  - by rewrite Hs, lookup_insert_eq.
  - rewrite lookup_insert_ne by done. apply plainRow_refl.
Qed.

Lemma plainTo_map db (f : UploadSession -> UploadSession) :
  (forall id s, db_sessions db !! id = Some s -> plainSession id s (f s)) ->
  plainTo db (set_sessions (f <$> db_sessions db) db).
Proof.
  intros Hf id. cbn. rewrite lookup_fmap. destruct (db_sessions db !! id) eqn:E; cbn; eauto.
Qed.

(** *** Rows that move *)

(** Plain or not: no row is added, and well-formed rows stay so. *)
Definition movedRow (id : string) (o o' : option UploadSession) : Prop :=
  match o, o' with
  | None, None => True
  | Some s, None => terminal s = true
  | Some s, Some s' => moves s s' /\ (rowOk id s -> rowOk id s')
  | None, Some _ => False
  end.
Definition movedTo (db db' : DB) : Prop :=
  forall id, movedRow id (db_sessions db !! id) (db_sessions db' !! id).

Lemma plain_moved db db' : plainTo db db' -> movedTo db db'.
Proof.
  intros Hp id. specialize (Hp id). destruct (db_sessions db !! id), (db_sessions db' !! id); try done.
  by destruct Hp.
Qed.

Lemma movedTo_put db id s s' :
  db_sessions db !! id = Some s -> moves s s' -> (rowOk id s -> rowOk id s') ->
  movedTo db (set_sessions (<[id := s']> (db_sessions db)) db).
Proof.
  intros Hs Hm Hok j. cbn. destruct (decide (j = id)) as [->|Hn].
  - by rewrite Hs, lookup_insert_eq.
  - rewrite lookup_insert_ne by done. destruct (db_sessions db !! j); cbn; auto using row_moves_refl.
Qed.

Lemma moved_rows db db' : movedTo db db' -> rowsOk db -> rowsOk db'.
Proof.
  intros Hp Hok id s' Hs'. specialize (Hp id). rewrite Hs' in Hp.
  destruct (db_sessions db !! id) as [s|] eqn:E; [|done]. by apply Hp, Hok.
Qed.

Lemma moved_weights p db db' :
  movedTo db db' -> rowsOk db ->
  (forall s s', moves s s' -> p s' = true -> p s = true) ->
  bytesOf p db' <= bytesOf p db.
Proof.
  intros Hp Hok Hpp. apply bytesOf_mono. intros id. specialize (Hp id).
  destruct (db_sessions db !! id) as [s|] eqn:E, (db_sessions db' !! id) as [s'|]; cbn in *; try done.
  - destruct Hp as [Hm _]. rewrite (mv_total _ _ Hm).
    destruct (p s') eqn:E'; [by rewrite (Hpp _ _ Hm E')|].
    destruct (p s); [|done]. pose proof (ro_total _ _ (Hok id s E)). lia.
  - destruct (p s); [|done]. pose proof (ro_total _ _ (Hok id s E)). lia.
Qed.

Lemma moves_unreleased s s' : moves s s' -> unreleased s' = true -> unreleased s = true.
Proof.
  intros Hm. unfold unreleased. rewrite !bool_decide_eq_true. intros E.
  destruct (se_stagingReleasedAt s) eqn:E'; [|done].
  destruct (mv_released _ _ Hm); [by rewrite E'|done].
Qed.

Lemma moved_limits settings db db' :
  movedTo db db' -> rowsOk db -> withinLimits settings db -> withinLimits settings db'.
Proof.
  intros Hp Hok [H1 H2]. split.
  - etrans; [|exact H1]. apply moved_weights; [done..|apply moves_unreleased].
  - intros owner. etrans; [|apply (H2 owner)]. apply moved_weights; [done..|].
    intros s s' Hm. rewrite !andb_true_iff. intros [Hu Ho]. split; [by eapply moves_unreleased|].
    unfold ownedBy in *. by rewrite <- (mv_owner _ _ Hm).
Qed.

Lemma moved_inv settings w db' committer :
  movedTo (uw_db w) db' -> uploadInv settings w ->
  uploadInv settings (set_committer committer (set_db db' w)).
Proof.
  intros Hp (Hok & Hlim & Hdom). split; [by eapply moved_rows|]. split; [by eapply moved_limits|].
  cbn. set_solver.
Qed.

(** A move keeps to what [by_] may when its commits and activations do. *)
Lemma moved_changes by_ settings w db' committer :
  movedTo (uw_db w) db' -> uploadInv settings w ->
  (forall id u, by_ <> Some u -> committer !! id = Some u -> uw_committer w !! id = Some u) ->
  (forall id s s', sessionOf w id = Some s -> db_sessions db' !! id = Some s' ->
     se_status s <> ss_committing -> se_status s' = ss_committing ->
     isReceivableStatus (se_status s) = true /\ (forall u, (id, u) ∉ uw_sessionLocks w) /\
     exists t, by_ = Some t /\ committer !! id = Some t) ->
  (forall id s s', sessionOf w id = Some s -> db_sessions db' !! id = Some s' ->
     se_status s = ss_allocating -> se_status s' <> ss_allocating -> terminal s' = false ->
     drawnBy w id by_) ->
  changes by_ w (set_committer committer (set_db db' w)).
Proof.
  intros Hp (Hok & _ & Hdom) Hc Hb Ha.
  assert (Hrow : forall id, movedRow id (sessionOf w id) (db_sessions db' !! id)) by exact Hp.
  constructor; try done; cbn.
  - intros id s' Hn Hs'. specialize (Hrow id). rewrite Hn in Hrow.
    change (db_sessions db' !! id = Some s') in Hs'. by rewrite Hs' in Hrow.
  - intros id s Hs Hn. specialize (Hrow id). rewrite Hs in Hrow.
    change (db_sessions db' !! id = None) in Hn. by rewrite Hn in Hrow.
  - intros id s s' Hs Hs'. specialize (Hrow id). rewrite Hs in Hrow.
    change (db_sessions db' !! id = Some s') in Hs'. rewrite Hs' in Hrow. apply Hrow.
  - set_solver.
  - intros id [Hin|Hin]%elem_of_union; [by left|]. left. apply Hdom.
    apply elem_of_dom in Hin as [s' Hs']. specialize (Hp id). rewrite Hs' in Hp.
    destruct (db_sessions (uw_db w) !! id) as [s|] eqn:E; [|done]. apply elem_of_dom. eauto.
  - intros path. by left.
Qed.

Lemma plain_inv settings w db' :
  plainTo (uw_db w) db' -> uploadInv settings w -> uploadInv settings (set_db db' w).
Proof. intros Hp. apply (moved_inv settings w db' (uw_committer w)), plain_moved, Hp. Qed.

Lemma plain_changes by_ settings w db' :
  plainTo (uw_db w) db' -> uploadInv settings w -> changes by_ w (set_db db' w).
Proof.
  intros Hp Hi. apply (moved_changes by_ settings w db' (uw_committer w)); [by apply plain_moved|done|done| |].
  all: intros id s s' Hs Hs'; specialize (Hp id); unfold sessionOf in Hs; rewrite Hs, Hs' in Hp.
  - intros Hn Hst. by destruct Hn; apply (ps_committing _ _ _ Hp).
  - intros Ha Hn Ht. destruct (ps_allocating _ _ _ Hp Ha) as [|Ht']; [done|by rewrite Ht' in Ht].
Qed.

Lemma plain_exclusive t sid w db' :
  plainTo (uw_db w) db' -> afterExclusive t sid db' w = set_db db' w.
Proof.
  intros Hp. unfold afterExclusive. specialize (Hp sid). unfold sessionOf. cbn.
  destruct (db_sessions (uw_db w) !! sid) as [s|], (db_sessions db' !! sid) as [s'|]; cbn in *;
    rewrite ?andb_false_r; try done.
  case_bool_decide as E; [done|]. case_bool_decide as E'; [|done].
  by destruct E; apply (ps_committing _ _ _ Hp).
Qed.

(** ** The other parts of the world *)

Lemma changes_free t w w' : changes (Some t) w w' -> changes (Some t) w (freeLocks t w').
Proof.
  intros [H1 H2 H3 H4 H5 H6 H7 H8 H9 H10 H11]. constructor; try done.
  intros id u Hu. cbn. rewrite elem_of_filter. cbn. rewrite (H10 id u Hu). naive_solver.
Qed.

Lemma changes_refl by_ settings w : uploadInv settings w -> changes by_ w w.
Proof.
  intros Hi. pose proof (plain_changes by_ settings w (uw_db w) (plainTo_same _ _ eq_refl) Hi) as H.
  assert (E : set_db (uw_db w) w = w); [|by rewrite E in H].
  destruct Hi as (_ & _ & Hdom). destruct w. unfold set_db. cbn in *. f_equal. set_solver.
Qed.

(** A step that leaves the database alone. *)
Lemma changes_beside by_ settings w w' :
  uploadInv settings w -> uw_db w' = uw_db w -> uw_seen w' = uw_seen w ->
  (forall id u, uw_drawn w !! id = Some u -> uw_drawn w' !! id = Some u) ->
  (forall id u, by_ <> Some u -> uw_committer w' !! id = Some u -> uw_committer w !! id = Some u) ->
  (forall id u, by_ <> Some u ->
     (id, u) ∈ uw_sessionLocks w' <-> (id, u) ∈ uw_sessionLocks w) ->
  (forall path, stagedAt w' path = stagedAt w path \/ writable w path) ->
  changes by_ w w' /\ uploadInv settings w'.
Proof.
  intros Hi Edb Es Hd Hc Hl Hst. split.
  - pose proof (changes_refl by_ settings w Hi) as [H1 H2 H3 H4 H5 H6 H7 H8 H9 H10 H11].
    constructor; unfold sessionOf; rewrite ?Edb, ?Es; try done.
    intros id s s' Hs Hs' Hn Hst'. rewrite Hs in Hs'. injection Hs' as ->. done.
  - unfold uploadInv. by rewrite Edb, Es.
Qed.

(** ** The journal's own steps *)

Ltac plain_row :=
  constructor; cbn; unfold terminal, chunkedBy in *; cbn in *; try done.

Lemma linked_plain input mutationId db u db' :
  linkPreparedUploadSession input mutationId db = Ok (u, db') -> plainTo db db'.
Proof.
  unfold linkPreparedUploadSession. intros H.
  destruct (pi_uploadSessionId input) as [[|a sid]|]; tx_inv H; [by apply plainTo_same| |by apply plainTo_same].
  destruct (db_sessions db !! String a sid) as [s|] eqn:Es; tx_inv H.
  eapply plainTo_put; [exact Es|]. plain_row.
  - intros Ha. by left.
  - intros [H1 H2 H3 H4 H5 H6 H7]. by constructor.
Qed.

Lemma completed_plain entityId owner fileId at_ mutationId db u db' :
  complete_upload_session entityId owner fileId at_ mutationId db = Ok (u, db') -> plainTo db db'.
Proof.
  unfold complete_upload_session. intros H. destruct (dateOf at_) as [ms|]; [|done].
  tx_inv H. destruct (db_sessions db !! entityId) as [s|] eqn:Es; tx_inv H.
  rewrite !andb_true_iff, !bool_decide_eq_true in Htx. destruct Htx as [[[_ Hst] _] _].
  eapply plainTo_put; [exact Es|]. plain_row.
  - intros _. by right.
  - intros [H1 H2 H3 H4 H5 H6 H7]. constructor; try done.
    unfold chunksOk, chunkedBy in *. cbn. destruct (if bool_decide _ then _ else _); [|done].
    split_and!; [apply H7|constructor..|done].
Qed.

Lemma aborted_plain mutationId at_ db u db' :
  rowsOk db ->
  (forall id s, db_sessions db !! id = Some s -> se_storageMutationId s = Some mutationId ->
     se_status s <> ss_completed) ->
  failLinkedSessions mutationId at_ db = Ok (u, db') -> plainTo db db'.
Proof.
  intros Hok Hn H. unfold failLinkedSessions in H. tx_inv H.
  apply plainTo_map. intros id s Hs. case_bool_decide as E; [|apply plainSession_refl].
  specialize (Hn id s Hs E). plain_row.
  - intros _. by right.
  - intros [H1 H2 H3 H4 H5 H6 H7]. constructor; try done.
    + cbn. intros Hc. by destruct Hn; apply H6.
    + unfold chunksOk, chunkedBy in *. cbn in *. destruct (if bool_decide _ then _ else _); [|done].
      destruct H7 as (? & ? & ? & _). by split_and!.
Qed.

Lemma deleted_plain type gone db : plainTo db (removeRows type gone db).
Proof.
  unfold removeRows. case_bool_decide; [|by apply plainTo_same].
  set (g := fun session => _). change (plainTo db (set_sessions (g <$> db_sessions db) 
    (set_rows (afterDelete type gone (filter (fun e : (EntityType * string) * Row =>
                        ~ (e.1.1 = type /\ e.1.2 ∈ gone)) (db_rows db))) db))).
  enough (plainTo db (set_sessions (g <$> db_sessions db) db)) by done.
  apply plainTo_map. intros id s _. unfold g.
  destruct (se_committedFileId s) as [fid|] eqn:Ef; [|apply plainSession_refl].
  case_bool_decide; [|apply plainSession_refl]. plain_row.
  - intros Ha. by left.
  - intros [H1 H2 H3 H4 H5 H6 H7]. by constructor.
Qed.

Lemma taken_staged w path content other :
  uw_files w !! path = Some content ->
  stagedAt (set_staging (delete path (uw_files w)) (<[path := content]> (uw_taken w)) w) other
  = stagedAt w other.
Proof.
  intros Hp. unfold stagedAt. cbn. destruct (decide (other = path)) as [->|Hn].
  - by rewrite lookup_delete_eq, lookup_insert_eq, Hp.
  - by rewrite lookup_delete_ne, lookup_insert_ne by done.
Qed.

Lemma putBack_staged w path content other :
  uw_taken w !! path = Some content -> uw_files w !! path = None ->
  stagedAt (set_staging (<[path := content]> (uw_files w)) (delete path (uw_taken w)) w) other
  = stagedAt w other.
Proof.
  intros Hp Hf. unfold stagedAt. cbn. destruct (decide (other = path)) as [->|Hn].
  - by rewrite lookup_insert_eq, Hf, Hp.
  - by rewrite lookup_delete_ne, lookup_insert_ne by done.
Qed.

Lemma elsewhere_changes settings w w' :
  uploadInv settings w -> elsewhere w w' -> changes None w w' /\ uploadInv settings w'.
Proof.
  intros Hi He. pose proof Hi as (Hok & _ & _).
  assert (Hplain : forall db', plainTo (uw_db w) db' ->
    changes None w (set_db db' w) /\ uploadInv settings (set_db db' w)).
  { intros db' Hp. split; [by eapply plain_changes|by apply plain_inv]. }
  destruct He as [db' E|input mid u db' H|eid owner fid at_ mid u db' H|mid at_ u db' Hn H|type gone
    |path content Hp|path content Hp Hf|path Hn].
  - by apply Hplain, plainTo_same.
  - eapply Hplain, linked_plain, H.
  - eapply Hplain, completed_plain, H.
  - by eapply Hplain, aborted_plain.
  - apply Hplain, deleted_plain.
  - apply changes_beside; try done. intros other. left. by apply taken_staged.
  - apply changes_beside; try done. intros other. left. by apply putBack_staged.
  - apply changes_beside; try done. intros other. unfold stagedAt. cbn.
    destruct (uw_files w !! other); [by left|]. destruct (decide (other = path)) as [->|Hn'].
    + right. intros id s Hs ->. left. apply (Hn id s Hs). apply (ro_path _ _ (Hok id s Hs)).
    + left. by rewrite lookup_delete_ne.
Qed.
