(* ===== verification/UploadRules.v ===== *)
(** * What upload programs may do, and the rules for it

    [Allowed] says of every effect when a program may perform it. Allowed effects
    keep the invariant and change for the others only what they may; the rules of
    [Requests] follow for the effects of [UploadIo].

    [keeps t A task Q] is [serves] with the invariant and the rules of uploads.
    What is known of sessions survives the program's own statements when they are
    plain, its locks and its files; the rules carry it along. *)

From S2P Require Import Prelude ChunkProtocol Database Async Requests UploadAdmission StorageLayout UploadIo UploadSessions StagingCleanup UploadInvariant.

Open Scope Z_scope.

Section Rules.
Context (settings : LockedSettings) (sha256 : string -> string).
#[local] Notation Inv := (uploadInv settings).
#[local] Notation Performs := (performs (Some settings)).

(** A transaction that keeps to the rules whenever it succeeds. *)
Definition txAllowed {A : Set} (t : nat) (w : UploadWorld) (tx : Conditions -> Tx A)
    (commit : DB -> UploadWorld) : Prop :=
  forall cn a db', cn_settings cn = Some settings -> tx cn (uw_db w) = Ok (a, db') ->
    changes (Some t) w (commit db') /\ Inv (commit db').

Definition unchunked (s : UploadSession) : Prop := chunkedBy s = None.
Definition isTerminal (s : UploadSession) : Prop := terminal s = true.

(** A commit the program still has takes all chunks, and bytes of the checksum it
    asks for. *)
Definition commitAllowed (t : nat) (w : UploadWorld) (request : CommitRequest) : Prop :=
  forall s chunk, sessionOf w (cr_sessionId request) = Some s ->
    se_status s = ss_committing -> uw_committer w !! cr_sessionId request = Some t ->
    chunkedBy s = Some chunk ->
    cr_tmpPath request = stagingPath (cr_sessionId request) /\
    cr_totalSizeBytes request = se_totalSizeBytes s /\
    (forall index, 0 <= index < getExpectedUploadChunkCount (se_totalSizeBytes s) chunk ->
       chunkAt (se_totalSizeBytes s) chunk index ∈ se_chunks s) /\
    exists content, stagedAt w (cr_tmpPath request) = Some content /\
      cr_contentChecksum request = Some (sha256 content).

Definition Allowed (t : nat) (w : UploadWorld) (e : UploadEffect) : Prop :=
  match e with
  | prisma tx | onClient tx => txAllowed t w tx (fun db => set_db db w)
  | exclusively sid tx =>
      (forall u, (sid, u) ∉ uw_sessionLocks w) ->
      txAllowed t w tx (fun db => afterExclusive t sid db w)
  | createStaging path => exists id, path = stagingPath id /\ allocates t id w
  | writeStaging path _ _ => exists id, path = stagingPath id /\ held t id w
  | openStaging path _ | rewriteStaging path _ _ =>
      exists id, path = stagingPath id /\ known unchunked id w
  | removeStaging path => exists id, path = stagingPath id /\ known isTerminal id w
  | commitUpload request => commitAllowed t w request
  | _ => True
  end.

(** ** Allowed effects keep to what they may *)

Lemma writable_one w path id (P : UploadSession -> Prop) :
  path = stagingPath id -> (forall s, sessionOf w id = Some s -> P s) ->
  (forall s, P s -> se_status s <> ss_committing \/ chunkedBy s = None) -> writable w path.
Proof. intros -> H1 H2 id' s Hs E%stagingPath_inj. subst. eauto. Qed.

Lemma terminal_not_committing s : isTerminal s -> se_status s <> ss_committing.
Proof. unfold isTerminal, terminal. by destruct (se_status s). Qed.

Lemma staging_changes by_ w path files :
  Inv w -> writable w path ->
  (forall other, other <> path -> files !! other = uw_files w !! other) ->
  changes by_ w (set_files files w) /\ Inv (set_files files w).
Proof.
  intros Hi Hw Hf. apply changes_beside; try done. intros other.
  destruct (decide (other = path)) as [->|Hn]; [by right|]. left. unfold stagedAt. cbn.
  by rewrite Hf.
Qed.

Lemma same_changes by_ w : Inv w -> changes by_ w w /\ Inv w.
Proof. intros Hi. by split; [eapply changes_refl|]. Qed.

Lemma free_changes t w w' :
  changes (Some t) w w' /\ Inv w' ->
  changes (Some t) w (freeLocks t w') /\ Inv (freeLocks t w').
Proof. intros [H1 H2]. by split; [apply changes_free|]. Qed.

Lemma client_changes t w done_ a w' :
  Inv w -> client_runs t w done_ a w' ->
  (forall w', done_ w' -> changes (Some t) w w' /\ Inv w') -> changes (Some t) w w' /\ Inv w'.
Proof.
  intros Hi [w1 Hd|e|] Hdone; [by apply Hdone|by apply same_changes|].
  by apply free_changes, same_changes.
Qed.

Lemma statement_changes {A : Set} t w (tx : Conditions -> Tx A) commit a w' :
  Inv w -> txAllowed t w tx commit -> statement_runs (Some settings) tx commit w a w' ->
  changes (Some t) w w' /\ Inv w'.
Proof.
  intros Hi Htx [cn x db' Hcn H|cn e Hcn H| |cn x db' Hcn H]; eauto; by apply same_changes.
Qed.

Lemma writes_changes t w path position bytes w' :
  Inv w -> writable w path -> writes path position bytes w w' -> changes (Some t) w w' /\ Inv w'.
Proof.
  intros Hi Hw [|content n Hp]; [by apply same_changes|].
  apply (staging_changes _ w path); [done..|]. intros other Hn. by rewrite lookup_insert_ne.
Qed.

Lemma wroteAll_writes path position bytes w w' :
  wroteAll path position bytes w w' -> writes path position bytes w w'.
Proof.
  intros (content & Hp & ->). rewrite <- (sliceTo_app bytes "") at 2. rewrite string_app_nil_r.
  by constructor.
Qed.

Lemma held_writable t w path : (exists id, path = stagingPath id /\ held t id w) -> writable w path.
Proof. intros (id & E & _ & H). eapply writable_one; [exact E|exact H|]. auto. Qed.
Lemma unchunked_writable w path :
  (exists id, path = stagingPath id /\ known unchunked id w) -> writable w path.
Proof. intros (id & E & _ & H). eapply writable_one; [exact E|exact H|]. auto. Qed.
Lemma terminal_writable w path :
  (exists id, path = stagingPath id /\ known isTerminal id w) -> writable w path.
Proof.
  intros (id & E & _ & H). eapply writable_one; [exact E|exact H|].
  auto using terminal_not_committing.
Qed.
Lemma allocates_writable t w path :
  (exists id, path = stagingPath id /\ allocates t id w) -> writable w path.
Proof.
  intros (id & E & _ & _ & H). eapply writable_one; [exact E|exact H|]. cbn.
  intros s [->|Ht]; left; [done|by apply terminal_not_committing].
Qed.

Lemma locks_changes t w sessions chunks :
  Inv w ->
  (forall id u, u <> t -> (id, u) ∈ sessions <-> (id, u) ∈ uw_sessionLocks w) ->
  changes (Some t) w (set_locks sessions chunks w) /\ Inv (set_locks sessions chunks w).
Proof.
  intros Hi Hl. apply changes_beside; try done.
  - intros id u Hu. apply Hl. naive_solver.
  - intros path. by left.
Qed.

Lemma freeLocks_changes t w : Inv w -> changes (Some t) w (freeLocks t w) /\ Inv (freeLocks t w).
Proof. intros Hi. by apply free_changes, same_changes. Qed.

Lemma allowed_changes t w e a w' :
  Inv w -> Allowed t w e -> Performs t w e a w' -> changes (Some t) w w' /\ Inv w'.
Proof.
  intros Hi Ha Hp. destruct Hp; cbn [Allowed] in Ha; try by apply same_changes.
  - apply changes_beside; try done; cbn; intros; [|by left].
    rewrite lookup_insert_ne; [done|]. intros ->. simplify_eq.
  - by eapply statement_changes.
  - by eapply statement_changes; [done|apply Ha|].
  - eapply client_changes; [done..|]. intros w1 <-. apply locks_changes; [done|]. set_solver.
  - eapply client_changes; [done..|]. intros w1 [_ ->]. by apply locks_changes.
  - by eapply statement_changes.
  - apply free_changes. by eapply statement_changes.
  - eapply client_changes; [done..|]. intros w1 <-. by apply freeLocks_changes.
  - destruct destroy; [by apply freeLocks_changes|by apply same_changes].
  - by apply freeLocks_changes.
  - apply (staging_changes _ w path); [done|by eapply allocates_writable|].
    intros other Hn. by rewrite lookup_insert_ne.
  - eapply writes_changes; [done|by eapply held_writable|by apply wroteAll_writes].
  - by eapply writes_changes; [done|eapply held_writable|].
  - apply free_changes. by eapply writes_changes; [done|eapply held_writable|].
  - apply (staging_changes _ w path); [done|by apply unchunked_writable|].
    intros other Hn. by rewrite lookup_insert_ne.
  - eapply writes_changes; [done|by apply unchunked_writable|by apply wroteAll_writes].
  - by eapply writes_changes; [done|apply unchunked_writable|].
  - apply (staging_changes _ w path); [done|by apply terminal_writable|].
    intros other Hn. by rewrite lookup_delete_ne.
Qed.

Lemma ended_changes t w :
  Inv w -> changes (Some t) w (programEnded t w) /\ Inv (programEnded t w) /\
           fresh t (programEnded t w).
Proof.
  intros Hi. split; [|split; [by apply freeLocks_changes|]].
  - destruct (freeLocks_changes t w Hi) as [[H1 H2 H3 H4 H5 H6 H7 H8 H9 H10 H11] _].
    constructor; try done.
    + intros id s s' Hs Hs' Hn Hst. unfold sessionOf in *. cbn in Hs'. by simplify_eq.
    + intros id u Hu Hc. cbn in Hc. by apply map_lookup_filter_Some in Hc as [Hc _].
  - split; intros id; cbn.
    + rewrite elem_of_filter. cbn. naive_solver.
    + intros Hc. by apply map_lookup_filter_Some in Hc as [_ Hc].
Qed.
End Rules.

Notation Known := (UploadWorld -> Prop).

(** What neither locks nor staging files matter to. *)
Definition ofRows (A : Known) : Prop :=
  (forall w sessions chunks, A w -> A (set_locks sessions chunks w)) /\
  (forall w files, A w -> A (set_files files w)).

Lemma ofRows_known P id : ofRows (known P id).
Proof. by split. Qed.
Lemma ofRows_true : ofRows (fun _ => True).
Proof. by split. Qed.
Lemma ofRows_and A B : ofRows A -> ofRows B -> ofRows (fun w => A w /\ B w).
Proof. intros [H1 H2] [H3 H4]. split; naive_solver. Qed.
#[export] Hint Resolve ofRows_known ofRows_true ofRows_and : holds.

Section Serve.
Context (settings : LockedSettings) (sha256 : string -> string).
#[local] Notation Inv := (uploadInv settings).
#[local] Notation Performs := (performs (Some settings)).

Definition keeps {X} (t : nat) (A : Known) (task : Program X)
    (Q : result UploadFailure X -> Known) : Prop :=
  serves Performs elsewhere Inv (Allowed settings sha256) (fun t => changes (Some t)) t A task Q.

Lemma holds_stable t A : holdsFor t A -> Stable elsewhere Inv (fun t => changes (Some t)) t A.
Proof.
  intros HA w w' Hi _ [(t' & Hn & Hc)|He]; eapply HA; [|exact Hc| |].
  - congruence.
  - by instantiate (1 := None).
  - by eapply elsewhere_changes.
Qed.

(** *** The rules of [Requests] *)

Lemma serve_ret {X} t (A : Known) (x : X) (Q : result UploadFailure X -> Known) :
  (forall w, A w -> Q (Ok x) w) -> keeps t A (mret x) Q.
Proof. intros H. apply serves_ret. auto. Qed.
Lemma serve_throw {X} t (A : Known) e (Q : result UploadFailure X -> Known) :
  (forall w, A w -> Q (Throw e) w) -> keeps t A (throw e) Q.
Proof. intros H. apply serves_throw. auto. Qed.
Lemma serve_bind {X Y} t A (m : Program X) (f : X -> Program Y) (M : X -> Known) Q :
  keeps t A m (fun r => match r with Ok x => M x | Throw e => Q (Throw e) end) ->
  (forall x, keeps t (M x) (f x) Q) -> keeps t A (m ≫= f) Q.
Proof. apply serves_bind. Qed.
Lemma serve_catch {X} t A (m : Program X) (h : UploadFailure -> Program X) (E : UploadFailure -> Known) Q :
  keeps t A m (fun r => match r with Ok x => Q (Ok x) | Throw e => E e end) ->
  (forall e, keeps t (E e) (h e) Q) -> keeps t A (catch m h) Q.
Proof. apply serves_catch. Qed.
Lemma keeps_assume {X} t (P : Prop) (A : Known) (m : Program X) Q :
  (P -> keeps t A m Q) -> keeps t (fun w => P /\ A w) m Q.
Proof. apply serves_assume. Qed.
Lemma serve_pre {X} t (A B : Known) (m : Program X) Q :
  keeps t A m Q -> (forall w, B w -> A w) -> keeps t B m Q.
Proof. intros H HB. eapply serves_pre; eauto. Qed.
Lemma keeps_post {X} t A (m : Program X) (Q R : result UploadFailure X -> Known) :
  keeps t A m Q -> (forall r w, Q r w -> R r w) -> keeps t A m R.
Proof. intros H HR. eapply serves_post; eauto. Qed.
Lemma keeps_outcome {X} t A (m : Program X) (Q : result UploadFailure (result UploadFailure X) -> Known) :
  keeps t A m (fun r => Q (Ok r)) -> keeps t A (outcome m) Q.
Proof. intros H k Hk. unfold outcome. apply H. intros r. apply Hk. Qed.

Lemma serve_settle {X} t A (m : Program (result UploadFailure X))
    (Q : result UploadFailure X -> Known) :
  keeps t A m (fun r => match r with Ok r' => Q r' | Throw e => Q (Throw e) end) ->
  keeps t A (settle m) Q.
Proof. apply serves_settle. Qed.

(** *** What an effect leaves *)

Definition outcomes (t : nat) (w : UploadWorld) (e : UploadEffect) :
    Answer e -> UploadWorld -> Prop :=
  match e with
  | @prisma A tx => fun a w' => statement_runs (Some settings) tx (fun db => set_db db w) w a w'
  | @exclusively A sid tx => fun a w' =>
      (forall u, (sid, u) ∉ uw_sessionLocks w) /\
        statement_runs (Some settings) tx (fun db => afterExclusive t sid db w) w a w'
      \/ exists e, a = Throw e /\ w' = w
  | @onClient A tx => fun a w' => exists a1 w1,
      statement_runs (Some settings) tx (fun db => set_db db w) w a1 w1 /\
      (a = a1 /\ w' = w1 \/ a = Throw ConnectionError /\ w' = freeLocks t w1)
  | lockSession sid => client_runs t w
      (eq (set_locks ({[(sid, t)]} ∪ uw_sessionLocks w) (uw_chunkLocks w) w))
  | lockChunk sid index => client_runs t w
      (fun w' => exists chunks, w' = set_locks (uw_sessionLocks w) chunks w)
  | unlockClient | releaseClient _ => fun _ w' => w' = w \/ w' = freeLocks t w
  | nextPiece => fun a w' => w' = w \/ (exists e, a = Throw e) /\ w' = freeLocks t w
  | writeStaging _ _ _ => fun a w' => exists files,
      w' = set_files files w \/ (exists e, a = Throw e) /\ w' = freeLocks t (set_files files w)
  | createStaging _ | openStaging _ _ | rewriteStaging _ _ _ | removeStaging _ =>
      fun _ w' => exists files, w' = set_files files w
  | readStaging path => fun a w' => w' = w /\ forall c, a = Ok c -> uw_files w !! path = Some c
  | randomUUID => fun id w' => id ∉ uw_seen w /\ w' = set_drawn (<[id := t]> (uw_drawn w)) w
  | _ => fun _ w' => w' = w
  end.

Lemma set_files_id w : w = set_files (uw_files w) w.
Proof. by destruct w. Qed.

Lemma writes_files path position bytes w w' :
  writes path position bytes w w' -> exists files, w' = set_files files w.
Proof. intros [|]; eauto using set_files_id. Qed.

Lemma performs_outcomes t w e a w' : Performs t w e a w' -> outcomes t w e a w'.
Proof.
  destruct 1; cbn; eauto using set_files_id.
  - match goal with H : client_runs _ _ _ _ _ |- _ => destruct H as [w1 [_ ->]| |] end;
      econstructor; eauto.
  - eexists _, _. eauto.
  - eexists _, _. eauto.
  - match goal with H : client_runs _ _ _ _ _ |- _ => destruct H as [w1 <-| |] end; eauto.
  - destruct destroy; eauto.
  - match goal with H : wroteAll _ _ _ _ _ |- _ => destruct H as (c & _ & ->) end; eauto.
  - match goal with H : writes _ _ _ _ _ |- _ => destruct (writes_files _ _ _ _ _ H) as [f ->] end.
    eauto.
  - match goal with H : writes _ _ _ _ _ |- _ => destruct (writes_files _ _ _ _ _ H) as [f ->] end.
    exists f. right. eauto.
  - match goal with H : wroteAll _ _ _ _ _ |- _ => destruct H as (c & _ & ->) end; eauto.
  - match goal with H : writes _ _ _ _ _ |- _ => destruct (writes_files _ _ _ _ _ H) as [f ->] end.
    eauto.
  - split; [done|]. intros c [= ->]. done.
  - split; [done|]. by intros c [=].
Qed.

Lemma serve_ask t A e (Q : result UploadFailure (Answer e) -> Known) :
  (forall w, Inv w -> A w -> Allowed settings sha256 t w e) ->
  (forall a, holdsFor t (Q (Ok a))) ->
  (forall a w w', Inv w -> Inv w' -> A w -> outcomes t w e a w' -> Q (Ok a) w') ->
  keeps t A (ask e) Q.
Proof.
  intros Ha Hs Hp. apply serves_ask; [done|by intros; apply holds_stable|].
  intros a w w' Hi Hi' Hw He%performs_outcomes. eauto.
Qed.

(** Effects that leave the world alone. *)
Definition quiet (e : UploadEffect) : bool :=
  match e with
  | dateNow | pause _ | protocolReady | uploadPolicy | waitingPlace | connectClient | wholeBody
  | readStaging _ | accessStaging _ => true
  | _ => false
  end.

Lemma keeps_quiet t A e (F : UploadFailure -> Known) :
  quiet e = true -> holdsFor t A ->
  keeps t A (ask e) (fun r => match r with Ok _ => A | Throw e => F e end).
Proof.
  intros Hq HA. apply serve_ask; [by destruct e|done|].
  intros a w w' _ _ Hw Ho. destruct e; try done; cbn in Ho; try by subst.
  by destruct Ho as [-> _].
Qed.

(** *** Sequences *)

Definition learns {X} (A : Known) (B : X -> Known) (r : result UploadFailure X) : Known :=
  match r with Ok a => fun w => A w /\ B a w | Throw _ => A end.

Lemma keeps_quietly {Y} t A e (f : Answer e -> Program Y) Q :
  quiet e = true -> holdsFor t A -> (forall x, keeps t A (f x) Q) -> keeps t A (ask e ≫= f) Q.
Proof. intros Hq HA. by eapply (serve_bind _ _ _ _ (fun _ => A)), keeps_quiet. Qed.

Lemma keeps_called {X} t A (m : Program (result UploadFailure X)) :
  (forall F : UploadFailure -> Known,
     keeps t A m (fun r => match r with Ok _ => A | Throw e => F e end)) ->
  keeps t A (settle m) (fun _ => A).
Proof.
  intros H. apply serve_settle. eapply keeps_post; [apply (H (fun _ => A))|].
  by intros [[x|e]|e] w.
Qed.

Lemma keeps_settled {X} t A (m : Program (result UploadFailure X)) :
  keeps t A m (fun _ => A) -> keeps t A (settle m) (fun _ => A).
Proof. intros H. apply serve_settle. eapply keeps_post; [exact H|]. by intros [[x|e]|e] w. Qed.

Lemma keeps_then {X Y} t A B (m : Program X) (f : X -> Program Y) (Q : result UploadFailure Y -> Known) :
  keeps t A m (learns A B) -> (forall e w, A w -> Q (Throw e) w) ->
  (forall x, keeps t (fun w => A w /\ B x w) (f x) Q) -> keeps t A (m ≫= f) Q.
Proof.
  intros Hm He Hf. eapply serve_bind; [|exact Hf]. eapply keeps_post; [exact Hm|].
  intros [x|e] w; cbn; auto.
Qed.

Lemma keeps_seq {X Y} t A (m : Program X) (f : X -> Program Y) (Q : result UploadFailure Y -> Known) :
  keeps t A m (fun _ => A) -> (forall e w, A w -> Q (Throw e) w) ->
  (forall x, keeps t A (f x) Q) -> keeps t A (m ≫= f) Q.
Proof.
  intros Hm He Hf. apply (serve_bind _ _ _ _ (fun _ => A)); [|exact Hf].
  eapply keeps_post; [exact Hm|]. intros [x|e] w; auto.
Qed.

Lemma keeps_if {X} t A (b : bool) (m n : Program X) Q :
  keeps t A m Q -> keeps t A n Q -> keeps t A (if b then m else n) Q.
Proof. by destruct b. Qed.

(** [if (b) throw e], as a statement. *)
Lemma keeps_unless t (A : Known) (b : bool) e : keeps t A (if b then mret tt else throw e) (fun _ => A).
Proof. destruct b; [by apply serve_ret|by apply serve_throw]. Qed.

Lemma keeps_ignoring t A (m : Program unit) : keeps t A m (fun _ => A) -> keeps t A (ignoring m) (fun _ => A).
Proof.
  intros H. apply (serve_catch t A m _ (fun _ => A)).
  - eapply keeps_post; [exact H|]. by intros [x|e] w.
  - intros e. by apply serve_ret.
Qed.

(** *** Statements *)

Definition plainTx {X : Set} (A : Known) (tx : Conditions -> Tx X) (B : X -> Known) : Prop :=
  forall w cn a db', Inv w -> A w -> tx cn (uw_db w) = Ok (a, db') ->
    plainTo (uw_db w) db' /\ B a (set_db db' w).

(** What is known stays so: a plain statement is one the others may make. *)
Lemma plain_own t A w db' :
  holdsFor t A -> Inv w -> plainTo (uw_db w) db' -> A w -> A (set_db db' w).
Proof. intros HA Hi Hp. eapply (HA None); [done|]. by eapply plain_changes. Qed.

Lemma plain_allowed {X : Set} t A (tx : Conditions -> Tx X) B w :
  plainTx A tx B -> Inv w -> A w ->
  txAllowed settings t w tx (fun db => set_db db w) /\
  forall sid, txAllowed settings t w tx (fun db => afterExclusive t sid db w).
Proof.
  intros Htx Hi Hw. split.
  - intros cn a db' _ H. destruct (Htx w cn a db' Hi Hw H) as [Hp _].
    by split; [eapply plain_changes|apply plain_inv].
  - intros sid cn a db' _ H. destruct (Htx w cn a db' Hi Hw H) as [Hp _].
    rewrite plain_exclusive by done. by split; [eapply plain_changes|apply plain_inv].
Qed.

Lemma statement_learns {X : Set} t A (tx : Conditions -> Tx X) B w a w' :
  holdsFor t A -> plainTx A tx B -> Inv w -> A w ->
  statement_runs (Some settings) tx (fun db => set_db db w) w a w' -> learns A B a w'.
Proof.
  intros HA Htx Hi Hw [cn x db' Hcn H|cn e Hcn H| |cn x db' Hcn H]; cbn; try done.
  - destruct (Htx w cn x db' Hi Hw H). by split; [eapply plain_own|].
  - destruct (Htx w cn x db' Hi Hw H). by eapply plain_own.
Qed.

Lemma learns_holds {X} t A (B : X -> Known) r :
  holdsFor t A -> (forall x, holdsFor t (B x)) -> holdsFor t (learns A B r).
Proof. intros HA HB. destruct r; cbn; auto with holds. Qed.

Lemma keeps_onPrisma {X : Set} t A (tx : Conditions -> Tx X) B :
  holdsFor t A -> (forall x, holdsFor t (B x)) -> plainTx A tx B ->
  keeps t A (onPrisma tx) (learns A B).
Proof.
  intros HA HB Htx. apply serve_settle.
  apply (serve_ask t A (prisma tx)); [|by intros; apply learns_holds|].
  - intros w Hi Hw. by eapply plain_allowed.
  - intros a w w' Hi _ Hw Ho. by eapply statement_learns.
Qed.

Lemma keeps_underLock {X : Set} t A sid (tx : Conditions -> Tx X) B :
  holdsFor t A -> (forall x, holdsFor t (B x)) -> plainTx A tx B ->
  keeps t A (underLock sid tx) (learns A B).
Proof.
  intros HA HB Htx. apply serve_settle.
  apply (serve_ask t A (exclusively sid tx)); [|by intros; apply learns_holds|].
  - intros w Hi Hw _. by eapply plain_allowed.
  - intros a w w' Hi _ Hw [[_ Ho]|(e & -> & ->)]; [|done].
    destruct Ho as [cn x db' Hcn H|cn e Hcn H| |cn x db' Hcn H]; cbn; try done;
      destruct (Htx w cn x db' Hi Hw H) as [Hp HB']; rewrite plain_exclusive by done.
    + by split; [eapply plain_own|].
    + by eapply plain_own.
Qed.

(** On the connection that may break: what is known of rows stays. *)
Definition onConnection {X} (A L : Known) (B : X -> Known) (r : result UploadFailure X) : Known :=
  match r with Ok a => fun w => (A w /\ L w) /\ B a w | Throw _ => A end.

Lemma keeps_query {X : Set} t A L (tx : Conditions -> Tx X) B :
  holdsFor t A -> ofRows A -> holdsFor t L -> (forall x, holdsFor t (B x)) ->
  plainTx (fun w => A w /\ L w) tx B ->
  keeps t (fun w => A w /\ L w) (query tx) (onConnection A L B).
Proof.
  intros HA [Hr _] HL HB Htx. apply serve_settle.
  apply (serve_ask t _ (onClient tx)).
  - intros w Hi Hw. by eapply plain_allowed.
  - intros [x|e]; cbn; auto with holds.
  - intros a w w' Hi _ Hw (a1 & w1 & Hst & Ho).
    pose proof (statement_learns t _ tx B w a1 w1 (holds_and t A L HA HL) Htx Hi Hw Hst) as Hl.
    destruct Ho as [[-> ->]|[-> ->]].
    + destruct a1; [done|]. by destruct Hl.
    + apply Hr. destruct a1; cbn in Hl; naive_solver.
Qed.

(** *** Locks *)

Lemma keeps_lockSession t A sid :
  holdsFor t A -> ofRows A ->
  keeps t A (settle (ask (lockSession sid))) (learns A (fun _ => locked t sid)).
Proof.
  intros HA [Hr _]. apply serve_settle. apply (serve_ask t A (lockSession sid)); [done| |].
  - intros a. apply learns_holds; auto with holds.
  - intros a w w' _ _ Hw [w1 <-|e|]; cbn; try done; [|by apply Hr].
    split; [by apply Hr|]. unfold locked. set_solver.
Qed.

Lemma keeps_lockChunk t A sid index :
  holdsFor t A -> ofRows A ->
  keeps t (fun w => A w /\ locked t sid w) (settle (ask (lockChunk sid index)))
    (onConnection A (locked t sid) (fun _ _ => True)).
Proof.
  intros HA [Hr _]. apply serve_settle. apply (serve_ask t _ (lockChunk sid index)); [done| |].
  - intros [x|e]; cbn; auto with holds.
  - intros a w w' _ _ [Hw Hl] [w1 [chunks ->]|e|]; cbn; try done; [|by apply Hr].
    split; [|done]. by split; [apply Hr|].
Qed.

Lemma keeps_unlock t A e :
  match e with unlockClient | releaseClient _ => True | _ => False end ->
  holdsFor t A -> ofRows A -> keeps t A (ask e) (fun _ => A).
Proof.
  intros He HA [Hr _]. apply serve_ask; [by destruct e|done|].
  intros a w w' _ _ Hw Ho. by destruct e; try done; destruct Ho as [->| ->]; [|apply Hr| |apply Hr].
Qed.

(** *** Staging files *)

Lemma keeps_piece t A id :
  holdsFor t A -> ofRows A ->
  keeps t (fun w => A w /\ held t id w) (settle (ask nextPiece))
    (onConnection A (held t id) (fun _ _ => True)).
Proof.
  intros HA [Hr _]. apply serve_settle. apply (serve_ask t _ nextPiece); [done| |].
  - intros [x|e]; cbn; auto with holds.
  - intros a w w' _ _ [Hw Hh] [->|[[e ->] ->]]; [destruct a; cbn; [|done]|by apply Hr].
    by split.
Qed.

Lemma keeps_write t A id position bytes :
  holdsFor t A -> ofRows A ->
  keeps t (fun w => A w /\ held t id w) (settle (ask (writeStaging (stagingPath id) position bytes)))
    (onConnection A (held t id) (fun _ _ => True)).
Proof.
  intros HA [Hr Hf]. apply serve_settle.
  apply (serve_ask t _ (writeStaging (stagingPath id) position bytes)).
  - intros w _ [_ Hh]. exists id. by split.
  - intros [x|e]; cbn; auto with holds.
  - intros a w w' _ _ [Hw Hh] (files & [->|[[e ->] ->]]).
    + destruct a; cbn; [|by apply Hf]. split; [|done]. by split; [apply Hf|].
    + by apply Hr, Hf.
Qed.

Lemma keeps_files t A e :
  (match e with createStaging _ | openStaging _ _ | rewriteStaging _ _ _ | removeStaging _ => True
   | _ => False end) ->
  (forall w, Inv w -> A w -> Allowed settings sha256 t w e) ->
  holdsFor t A -> ofRows A -> keeps t A (ask e) (fun _ => A).
Proof.
  intros He Ha HA [_ Hf]. apply serve_ask; [done|done|].
  intros a w w' _ _ Hw Ho. by destruct e; try done; destruct Ho as [files ->]; apply Hf.
Qed.
End Serve.
