(* ===== verification/UploadFollows.v ===== *)
(** * The session service keeps to the rules

    The transactions of upload sessions, one by one: which of them change rows
    plainly, and what their answers say. Then the functions of [UploadSessions],
    from what each must know when it is called to what is known when it returns
    or throws. *)

From S2P Require Import Prelude ChunkProtocol Database MutationMetadata Async Requests UploadAdmission StorageLayout UploadIo UploadSessions StagingCleanup UploadInvariant UploadRules.

Open Scope Z_scope.

(** ** Their parts *)

Lemma lockUserQuotaRow_ok cn owner db r db' :
  lockUserQuotaRow cn owner db = Ok (r, db') -> db' = db.
Proof.
  unfold lockUserQuotaRow. intros H. tx_inv H. destruct (db_users db !! owner); by tx_inv H.
Qed.

Lemma lockUploadCapacityRows_ok cn owner db r db' :
  lockUploadCapacityRows cn owner db = Ok (r, db') -> db' = db /\ cn_settings cn = Some r.1.
Proof.
  unfold lockUploadCapacityRows. intros H. destruct (cn_settings cn); [|done]. tx_inv H.
  by apply lockUserQuotaRow_ok in Htx0.
Qed.

Lemma sessionForUpdate_ok cn id p db row db' :
  sessionForUpdate cn id p db = Ok (row, db') ->
  db' = db /\
  match row with
  | Some s => db_sessions db !! id = Some s /\ p s = true
  | None => forall s, db_sessions db !! id = Some s -> p s = false
  end.
Proof.
  unfold sessionForUpdate. intros H. tx_inv H.
  destruct (db_sessions db !! id) as [s|] eqn:E; [|by tx_inv H].
  destruct (p s) eqn:Ep; tx_inv H; split; try done; intros s' [= <-]; done.
Qed.

Lemma putSession_ok id s db u db' :
  putSession id s db = Ok (u, db') -> db' = set_sessions (<[id := s]> (db_sessions db)) db.
Proof. by intros H%modify_ok. Qed.

Lemma updateSession_ok id p f db n db' :
  updateSession id p f db = Ok (n, db') ->
  db' = db /\ n = 0 \/
  n = 1 /\ exists s, db_sessions db !! id = Some s /\ p s = true /\
    db' = set_sessions (<[id := f s]> (db_sessions db)) db.
Proof.
  unfold updateSession. intros H. tx_inv H.
  destruct (db_sessions db !! id) as [s|] eqn:E; [|by tx_inv H; left].
  destruct (p s) eqn:Ep; tx_inv H; [|by left]. apply putSession_ok in Htx as ->. right. eauto.
Qed.

(** ** Plain changes of a row *)

Ltac plain_session :=
  constructor; cbn; unfold terminal, chunkedBy in *; cbn in *; try done.

Lemma plain_attempt id now message s : plainSession id s (withAttempt now message s).
Proof.
  plain_session.
  - by left.
  - intros [H1 H2 H3 H4 H5 H6 H7]. by constructor.
Qed.

Lemma plain_released id now s attempts :
  terminal s = true ->
  plainSession id s
    (changeSession s (se_status s) (se_expiresAt s) (se_terminalAt s) (Some now) None (se_chunks s)
       (changeUpload (se_upload s) (ud_receivedBytes (se_upload s))
          (ud_expectedChecksum (se_upload s)) attempts (Some now))).
Proof.
  intros Ht. plain_session.
  - by left.
  - intros [H1 H2 H3 H4 H5 H6 H7]. by constructor.
Qed.

Lemma plain_finished id status now s :
  isTerminalUploadSessionStatus status = true -> terminal s = false ->
  plainSession id s (finishedAs status now s).
Proof.
  intros Hst Ht. plain_session.
  - constructor; cbn; try done; unfold terminal; cbn.
    + intros E. by rewrite E in Ht.
    + by rewrite Hst.
    + intros ->. done.
  - by intros ->.
  - by right.
  - intros [H1 H2 H3 H4 H5 H6 H7]. constructor; try done; cbn.
    + intros Hc. by rewrite (H6 Hc) in Ht.
    + unfold chunksOk, chunkedBy in *. cbn. destruct (if bool_decide _ then _ else _); [|done].
      split_and!; [apply H7|constructor..|]. unfold terminal. cbn. by rewrite Hst.
Qed.

(** Back to receiving, or on to created. *)
Lemma plain_receiving id expiresAt s :
  se_status s = ss_committing -> plainSession id s (withStatus ss_receiving expiresAt s).
Proof.
  intros Hst. constructor; cbn.
  - constructor; cbn; unfold terminal; cbn; rewrite ?Hst; done.
  - done.
  - by rewrite Hst.
  - intros [H1 H2 H3 H4 H5 H6 H7]. unfold terminal in *. rewrite Hst in *.
    constructor; try done; cbn; [by intros Hc%H6|].
    unfold chunksOk, chunkedBy, terminal in *. cbn. rewrite Hst in H7.
    destruct (if bool_decide _ then _ else _); done.
Qed.

Lemma plain_trans id s1 s2 s3 :
  plainSession id s1 s2 -> plainSession id s2 s3 -> plainSession id s1 s3.
Proof.
  intros [[] ? Ha1 ?] [[] ? Ha2 ?]. constructor; [|auto..|auto].
  - constructor; try congruence; auto.
    intros Ht. transitivity (se_chunks s2); [apply mv_chunks|auto].
    destruct (terminal s2) eqn:E; [|done]. by rewrite mv_terminal0 in Ht.
  - intros Ha. destruct (Ha1 Ha) as [H|H]; [by apply Ha2|right; auto].
Qed.

(** ** Plain transactions *)

Section Plain.
Context (settings : LockedSettings).
#[local] Notation plainTx := (plainTx settings).

Lemma plain_read {X : Set} A (f : DB -> X) :
  plainTx A (fun _ => read f) (fun a w => a = f (uw_db w)).
Proof.
  intros w cn a db' _ _ H. apply read_ok in H as [-> ->].
  split; [by apply plainTo_same|done].
Qed.

Lemma plain_update A id p f :
  (forall w s, A w -> sessionOf w id = Some s -> rowOk id s -> p s = true ->
     plainSession id s (f s)) ->
  plainTx A (fun _ => updateSession id p f) (fun _ _ => True).
Proof.
  intros Hf w cn n db' (Hok & _) Hw H. split; [|done].
  apply updateSession_ok in H as [[-> _]|(_ & s & Hs & Hp & ->)]; [by apply plainTo_same|].
  apply (plainTo_put _ id s); [done|]. eapply Hf; [done|done|by apply Hok|done].
Qed.

Lemma plain_weakTx {X : Set} (A A' : Known) (tx : Conditions -> Tx X) (B B' : X -> Known) :
  plainTx A tx B -> (forall w, A' w -> A w) -> (forall x w, B x w -> B' x w) -> plainTx A' tx B'.
Proof. intros H HA HB w cn a db' Hi Hw Ht. destruct (H w cn a db'); auto. Qed.

(** [runStorageTransaction]'s rows: an owner's session ends finished, or is gone. *)
Definition owned (owner : string) (s : UploadSession) : Prop := se_ownerUserId s = owner.

Lemma plain_transition id owner status now :
  isTerminalUploadSessionStatus status = true ->
  plainTx (known (owned owner) id) (transitionTx id owner status now)
    (fun _ => known isTerminal id).
Proof.
  intros Hst w cn a db' (Hok & _) [Hseen Ho] H. unfold transitionTx in H. tx_inv H.
  apply lockUploadCapacityRows_ok in Htx as [-> _].
  apply sessionForUpdate_ok in Htx0 as [-> Hrow].
  assert (Hk : forall db2, db_sessions db2 !! id = None \/
      (exists s, db_sessions db2 !! id = Some s /\ isTerminal s) ->
    known isTerminal id (set_db db2 w)).
  { intros db2 Hs. split; [cbn; set_solver|]. intros s' Hs'. unfold sessionOf in Hs'. cbn in Hs'.
    destruct Hs as [Hs|(s & Hs & Ht)]; rewrite Hs in Hs'; [done|by injection Hs' as <-]. }
  destruct a1 as [s|].
  - destruct Hrow as [Hs _]. destruct (isTerminalUploadSessionStatus (se_status s)) eqn:Et.
    + tx_inv H. split; [by apply plainTo_same|]. apply Hk. right. eauto.
    + tx_inv H. apply putSession_ok in Htx as ->. split.
      * apply (plainTo_put _ id s); [done|]. by apply plain_finished.
      * apply Hk. right. eexists. cbn. rewrite lookup_insert_eq. by split.
  - tx_inv H. split; [by apply plainTo_same|]. apply Hk. left.
    destruct (db_sessions (uw_db w) !! id) as [s|] eqn:E; [|done].
    specialize (Hrow s eq_refl). unfold ownedBy in Hrow. apply bool_decide_eq_false_1 in Hrow.
    destruct Hrow. by apply Ho.
Qed.

Lemma lockCommitting_ok id owner b cn db s db' :
  lockCommittingSession id owner b cn db = Ok (s, db') ->
  db' = db /\ db_sessions db !! id = Some s /\ se_status s = ss_committing.
Proof.
  unfold lockCommittingSession. intros H. tx_inv H.
  apply lockUploadCapacityRows_ok in Htx as [-> _].
  apply sessionForUpdate_ok in Htx0 as [-> Hrow]. destruct a0 as [s0|]; [|done]. tx_inv H.
  destruct Hrow as [Hs Hp]. split_and!; [done..|].
  apply andb_true_iff in Hp as [Hp _]. apply andb_true_iff in Hp as [_ Hp].
  by apply bool_decide_eq_true in Hp.
Qed.

Lemma plain_restore platformText A id owner e now :
  plainTx A (restoreTx platformText id owner e now) (fun _ _ => True).
Proof.
  intros w cn u db' (Hok & _) _ H. split; [|done]. unfold restoreTx in H. tx_inv H.
  apply lockCommitting_ok in Htx as (-> & Hs & Hst). apply putSession_ok in H as ->.
  apply (plainTo_put _ id a); [done|]. eapply plain_trans; [by apply plain_receiving|].
  apply plain_attempt.
Qed.

(** The first rows of a query, each known to be what the query asked for. *)
Lemma known_rows p (P : UploadSession -> Prop) w rows :
  uploadInv settings w -> rows ⊆ sessionRows p (uw_db w) -> (forall s, p s = true -> P s) ->
  Forall (fun e => known P e.1 w /\ ud_tmpPath (se_upload e.2) = stagingPath e.1) rows.
Proof.
  intros (Hok & _ & Hdom) Hsub HP. apply Forall_forall. intros [id s] Hin%Hsub. cbn.
  unfold sessionRows in Hin. apply list_elem_of_filter in Hin as [Hp Hin%elem_of_map_to_list].
  split; [|by apply (ro_path _ _ (Hok id s Hin))]. split.
  - apply Hdom, elem_of_dom. eauto.
  - intros s' Hs'. unfold sessionOf in Hs'. rewrite Hin in Hs'. injection Hs' as <-. auto.
Qed.
End Plain.

(** A quiet effect, alone or as a call. *)
Ltac quietly := apply keeps_quietly; [reflexivity|eauto with holds|intros ?].
Ltac called e :=
  apply keeps_called; intros ?F; refine (keeps_quiet _ _ _ _ e F _ _);
  [reflexivity|eauto with holds].

Section Follows.
Context (settings : LockedSettings) (sha256 : string -> string).
Context (platformText : UploadFailure -> string).
#[local] Notation keeps := (keeps settings sha256).

(** ** Admission *)

Lemma keeps_beforeDeadline t A deadline :
  holdsFor t A -> keeps t A (beforeDeadline deadline) (fun _ => A).
Proof.
  intros HA. unfold beforeDeadline. quietly. destruct (bool_decide _).
  - by apply serve_throw.
  - by apply serve_ret.
Qed.

(** Only a busy answer is tried again, and it left everything as it was. *)
Definition admitted {X} (A E : Known) (B : X -> Known) (r : result UploadFailure X) : Known :=
  match r with Ok x => B x | Throw e => if isBusy e then A else E end.
Definition attempted {X} (A E : Known) (B : X -> Known) (r : result UploadFailure X) : Known :=
  match r with Ok x => B x | Throw e => if isBusy (classifyFailure e) then A else E end.
Definition ended {X} (E : Known) (B : X -> Known) (r : result UploadFailure X) : Known :=
  match r with Ok x => B x | Throw _ => E end.

Lemma keeps_runByDeadline {X} t A E B deadline (operation : Program X) :
  holdsFor t A -> keeps t A operation (attempted A E B) ->
  keeps t A (runByDeadline deadline operation) (admitted A E B).
Proof.
  intros HA Ho. unfold runByDeadline.
  assert (Hd : forall (Q : result UploadFailure X -> Known) (f : unit -> Program X),
    (forall w, A w -> Q (Throw (StoreError StorageAdmissionBusyError)) w) ->
    (forall x, keeps t A (f x) Q) -> keeps t A (beforeDeadline deadline ≫= f) Q).
  { intros Q f HQ Hf. unfold beforeDeadline.
    apply (serve_bind _ _ t A _ _ (fun _ => A)); [|exact Hf]. quietly.
    destruct (bool_decide _); [by apply serve_throw|by apply serve_ret]. }
  apply Hd; [by cbn|]. intros _.
  apply (serve_catch _ _ t _ _ _ (fun e => if isBusy (classifyFailure e) then A else E)).
  - apply Hd; [by cbn|]. intros _. eapply keeps_post; [exact Ho|]. by intros [x|e] w.
  - intros e. apply serve_throw. by cbn.
Qed.

Lemma keeps_retry {X} t (A E : Known) B turns (operation : Program X) :
  holdsFor t A -> (forall w, A w -> E w) -> keeps t A operation (attempted A E B) ->
  forall attempt deadline waiting,
  keeps t A (retryStorageAdmission turns attempt deadline waiting operation) (admitted A E B).
Proof.
  intros HA HE Ho. induction turns as [|turns IH]; intros attempt deadline waiting;
    cbn [retryStorageAdmission].
  all: eapply serve_bind; [apply keeps_outcome; by apply (keeps_runByDeadline t A E B)|].
  all: intros [x|e]; [by apply serve_ret|]; cbn [admitted].
  all: destruct (isBusy e) eqn:Eb; cbn [negb]; [|apply serve_throw; cbn; by rewrite Eb].
  all: assert (Hthrow : keeps t A (throw e) (admitted A E B))
    by (apply serve_throw; cbn; by rewrite Eb).
  all: quietly; destruct (bool_decide _); [exact Hthrow|].
  all: apply (serve_bind _ _ t A _ _ (fun _ => A));
    [destruct waiting; [by apply serve_ret|
      by refine (keeps_quiet _ _ t A waitingPlace (fun e => admitted A E B (Throw e)) _ _)]|].
  all: intros placed; destruct placed; cbn [negb]; [|by apply serve_throw].
  all: quietly; quietly; destruct (bool_decide _); [exact Hthrow|].
  - exact Hthrow.
  - apply IH.
Qed.

Lemma keeps_admission {X} t (A E : Known) B (operation : Program X) :
  holdsFor t A -> (forall w, A w -> E w) -> keeps t A operation (attempted A E B) ->
  keeps t A (runUploadTransaction operation) (ended E B).
Proof.
  intros HA HE Ho. unfold runUploadTransaction.
  apply (serve_catch _ _ t _ _ _ (fun e => if isBusy e then A else E)).
  - unfold waitForStorageAdmission. quietly. eapply keeps_post; [by apply (keeps_retry t A E B)|].
    by intros [y|e] w.
  - intros e. destruct (isBusy e); apply serve_throw; cbn; auto.
Qed.

(** A plain transaction that only adds to what is known. *)
Lemma keeps_admitted {X} t A B (operation : Program X) :
  holdsFor t A -> keeps t A operation (learns A B) ->
  keeps t A (runUploadTransaction operation) (learns A B).
Proof.
  intros HA Ho. eapply keeps_post;
    [apply (keeps_admission t A A (fun x w => A w /\ B x w)); [done|done|]|by intros [x|e] w].
  eapply keeps_post; [exact Ho|]. intros [x|e] w; cbn; [done|]. by destruct (isBusy _).
Qed.

(** ** Finishing *)

Lemma moves_terminal s s' : moves s s' -> isTerminal s -> isTerminal s'.
Proof. intros Hm. apply (mv_terminal _ _ Hm). Qed.
Lemma moves_owned owner s s' : moves s s' -> owned owner s -> owned owner s'.
Proof. intros Hm. unfold owned. by rewrite (mv_owner _ _ Hm). Qed.
Lemma known_terminal_holds t id : holdsFor t (known isTerminal id).
Proof. apply known_holds, moves_terminal. Qed.
Lemma known_owned_holds t owner id : holdsFor t (known (owned owner) id).
Proof. apply known_holds, moves_owned. Qed.
#[local] Hint Resolve known_terminal_holds known_owned_holds : holds.

Lemma keeps_transition t id owner status :
  isTerminalUploadSessionStatus status = true ->
  keeps t (known (owned owner) id) (transitionResumableSessionToTerminal id owner status)
    (learns (known (owned owner) id) (fun _ => known isTerminal id)).
Proof.
  intros Hst. unfold transitionResumableSessionToTerminal. quietly.
  apply keeps_admitted; [eauto with holds|]. apply keeps_underLock; [eauto with holds..|].
  by apply plain_transition.
Qed.

Lemma keeps_update t A id p f :
  holdsFor t A ->
  (forall w s, A w -> sessionOf w id = Some s -> rowOk id s -> p s = true ->
     plainSession id s (f s)) ->
  keeps t A (onPrisma (fun _ => updateSession id p f)) (fun _ => A).
Proof.
  intros HA Hf. eapply keeps_post.
  - apply (keeps_onPrisma settings sha256 t A _ (fun _ _ => True)); [done|eauto with holds|].
    by apply plain_update.
  - by intros [x|e] w; [intros [? _]|].
Qed.

Lemma keeps_recordCleanupFailure t A id e :
  holdsFor t A -> keeps t A (recordCleanupFailure platformText id e) (fun _ => A).
Proof.
  intros HA. apply keeps_ignoring. quietly.
  apply keeps_seq; [|done|intros ?; by apply serve_ret].
  apply keeps_update; [done|]. intros. apply plain_attempt.
Qed.

Lemma keeps_pathIsAbsent t A path : holdsFor t A -> keeps t A (pathIsAbsent path) (fun _ => A).
Proof.
  intros HA. apply (serve_catch _ _ t _ _ _ (fun _ => A)).
  - apply keeps_seq; [called (accessStaging path)|done|]. intros ?. by apply serve_ret.
  - intros e. destruct e as [| [c|] | | | | | | |]; try by apply serve_ret.
    repeat match goal with |- keeps _ _ (match ?x with _ => _ end) _ => destruct x end;
      by apply serve_ret.
Qed.

Lemma keeps_remove t id :
  keeps t (known isTerminal id) (settle (ask (removeStaging (stagingPath id))))
    (fun _ => known isTerminal id).
Proof.
  apply keeps_settled.
  refine (keeps_files _ _ t _ (removeStaging (stagingPath id)) I _ _ _); [|eauto with holds..].
  intros w _ H. exists id. by split.
Qed.

Lemma keeps_cleanup t id :
  keeps t (known isTerminal id) (cleanupResumableSessionStaging platformText id (stagingPath id))
    (fun _ => known isTerminal id).
Proof.
  apply (serve_catch _ _ t _ _ _ (fun _ => known isTerminal id)).
  - apply keeps_seq; [apply keeps_unless|done|]. intros _.
    apply keeps_seq; [apply keeps_remove|done|]. intros _.
    apply keeps_seq; [apply keeps_pathIsAbsent; eauto with holds|done|]. intros absent.
    apply keeps_seq; [apply keeps_unless|done|]. intros _.
    apply keeps_seq; [|done|intros ?; by apply serve_ret]. unfold markResumableStagingReleased.
    quietly. apply keeps_seq; [|done|intros ?; by apply serve_ret].
    apply keeps_update; [eauto with holds|]. intros w s [_ Ht] Hs _ _.
    apply plain_released, (Ht s Hs).
  - intros e. apply keeps_seq; [apply keeps_recordCleanupFailure; eauto with holds|done|].
    intros _. by apply serve_ret.
Qed.

Lemma serve_finish t id owner status :
  isTerminalUploadSessionStatus status = true ->
  keeps t (known (owned owner) id)
    (_ ← transitionResumableSessionToTerminal id owner status;
     cleanupResumableSessionStaging platformText id (stagingPath id))
    (fun _ _ => True).
Proof.
  intros Hst. eapply keeps_then; [by apply keeps_transition|done|]. intros x.
  eapply keeps_post; [eapply serve_pre; [apply keeps_cleanup|]|done]. by intros w [_ H].
Qed.
End Follows.
