(* ===== verification/UploadWrites.v ===== *)
(** * Finding, reserving and recording

    What a found row says, and the statements that are not plain: a reservation
    adds a row, an allocated session is activated, a commit begins. Then the
    functions that activate a session, write its chunks and begin its commit. *)

From S2P Require Import Prelude ChunkProtocol Database MutationMetadata Async Requests UploadAdmission StorageLayout UploadIo UploadSessions UploadRoutes StagingCleanup UploadInvariant UploadRules UploadFollows.

Open Scope Z_scope.

(** ** Found sessions *)

Definition sessionChunk (session : ResumableSession) : option Z :=
  if bool_decide (2 <= rs_protocolVersion session) then rs_chunkSizeBytes session else None.

(** What a row will always have in common with the session it was found as. *)
Record matchesRow (session : ResumableSession) (s : UploadSession) : Prop := {
  mr_owner : se_ownerUserId s = rs_ownerUserId session;
  mr_total : se_totalSizeBytes s = rs_totalSizeBytes session;
  mr_chunked : chunkedBy s = sessionChunk session;
  mr_chunks : terminal s = false -> rs_completedChunks session ⊆ se_chunks s
}.

Record foundAs (id owner : string) (session : ResumableSession) : Prop := {
  fa_id : rs_id session = id;
  fa_path : rs_tmpPath session = stagingPath id;
  fa_owner : rs_ownerUserId session = owner;
  fa_total : 0 <= rs_totalSizeBytes session <= 2 ^ 53 - 1;
  fa_received : 0 <= rs_receivedBytes session;
  fa_chunk : forall chunk, sessionChunk session = Some chunk -> 0 < chunk
}.

Definition found (id owner : string) (session : ResumableSession) (w : UploadWorld) : Prop :=
  foundAs id owner session /\ known (matchesRow session) id w.

Lemma moves_matches session s s' : moves s s' -> matchesRow session s -> matchesRow session s'.
Proof.
  intros Hm [H1 H2 H3 H4]. constructor.
  - by rewrite (mv_owner _ _ Hm).
  - by rewrite (mv_total _ _ Hm).
  - by rewrite (mv_chunked _ _ Hm).
  - intros Ht. etrans; [|by apply (mv_chunks _ _ Hm)]. apply H4.
    destruct (terminal s) eqn:E; [|done]. by rewrite (mv_terminal _ _ Hm E) in Ht.
Qed.

Lemma found_holds t id owner session : holdsFor t (found id owner session).
Proof. apply holds_and; [apply holds_pure|]. apply known_holds, moves_matches. Qed.

Lemma byIndex_sub chunks : byIndex chunks ⊆ chunks.
Proof. intros c Hc. unfold byIndex in Hc. by rewrite merge_sort_Permutation in Hc. Qed.

Lemma found_row settings id owner s chunks w :
  uploadInv settings w -> sessionOf w id = Some s -> se_ownerUserId s = owner ->
  chunks ⊆ se_chunks s -> found id owner (toSession id s chunks) w.
Proof.
  intros (Hok & _ & Hdom) Hs Ho Hsub. pose proof (Hok id s Hs) as H. split.
  - constructor; cbn; [done|apply (ro_path _ _ H)|done|apply (ro_total _ _ H)|apply (ro_received _ _ H)|].
    intros chunk Hc. pose proof (ro_chunks _ _ H) as Hck. unfold chunksOk, chunkedBy in Hck.
    unfold sessionChunk in Hc. cbn in Hc. rewrite Hc in Hck. apply Hck.
  - split; [apply Hdom, elem_of_dom; eauto|]. intros s' Hs'. rewrite Hs in Hs'.
    injection Hs' as <-. by constructor.
Qed.

Section Rows.
Context (settings : LockedSettings) (sha256 : string -> string).
#[local] Notation keeps := (keeps settings sha256).
#[local] Notation plainTx := (plainTx settings).

Lemma known_any P id b w w' :
  (forall s s', moves s s' -> P s -> P s') -> changes b w w' -> known P id w -> known P id w'.
Proof.
  intros HP Hc [Hseen H]. split; [by apply (ch_seen _ _ _ Hc)|]. intros s' Hs'.
  destruct (sessionOf w id) as [s|] eqn:Es.
  - eapply HP; [by eapply ch_moves|by apply H].
  - by destruct (ch_new _ _ _ Hc id s' Es Hs') as (_ & Hn & _).
Qed.

Definition foundOne (id owner : string) (P : UploadSession -> Prop)
    (o : option ResumableSession) (w : UploadWorld) : Prop :=
  match o with Some session => found id owner session w /\ known P id w | None => True end.

Lemma foundOne_holds t id owner P o :
  (forall s s', moves s s' -> P s -> P s') -> holdsFor t (foundOne id owner P o).
Proof.
  intros HP. destruct o; [|apply holds_true]. apply holds_and; [apply found_holds|by apply known_holds].
Qed.

Lemma plain_findActive A id owner b now :
  plainTx A (fun _ => findActiveRow id owner b now) (foundOne id owner (fun _ => True)).
Proof.
  intros w cn a db' Hi _ H. apply read_ok in H as [-> ->]. split; [by apply plainTo_same|].
  set (w' := set_db (uw_db w) w). assert (Hi' : uploadInv settings w').
  { by apply plain_inv; [apply plainTo_same|]. }
  unfold foundOne. destruct (db_sessions (uw_db w) !! id) as [s|] eqn:E; [|done].
  destruct (ownedBy owner s && _ && _) eqn:Eb; [|done].
  apply andb_true_iff in Eb as [Eb _]. apply andb_true_iff in Eb as [Ho _].
  unfold ownedBy in Ho. apply bool_decide_eq_true in Ho.
  assert (Hf : found id owner (toSession id s (if b then byIndex (se_chunks s) else [])) w').
  { eapply found_row; [exact Hi'|done|done|]. destruct b; [apply byIndex_sub|set_solver]. }
  split; [done|]. destruct Hf as [_ [? _]]. by split.
Qed.

Lemma plain_findCompleted A id owner :
  plainTx A (fun _ => findCompletedRow id owner)
    (foundOne id owner (fun s => se_status s = ss_completed)).
Proof.
  intros w cn a db' Hi _ H. apply read_ok in H as [-> ->]. split; [by apply plainTo_same|].
  set (w' := set_db (uw_db w) w). assert (Hi' : uploadInv settings w').
  { by apply plain_inv; [apply plainTo_same|]. }
  unfold foundOne. destruct (db_sessions (uw_db w) !! id) as [s|] eqn:E; [|done].
  destruct (ownedBy owner s && _ && _) eqn:Eb; [|done].
  rewrite !andb_true_iff in Eb. destruct Eb as [[Ho Hst] _].
  unfold ownedBy in Ho. apply bool_decide_eq_true in Ho. apply bool_decide_eq_true in Hst.
  assert (Hf : found id owner (toSession id s []) w').
  { eapply found_row; [exact Hi'|done|done|set_solver]. }
  split; [done|]. destruct Hf as [_ [? _]]. split; [done|]. intros s' Hs'.
  unfold sessionOf, w' in Hs'. cbn in Hs'. rewrite E in Hs'. by injection Hs' as <-.
Qed.

Lemma keeps_findActive t A id owner b :
  holdsFor t A ->
  keeps t A (findActiveResumableSession id owner b) (learns A (foundOne id owner (fun _ => True))).
Proof.
  intros HA. unfold findActiveResumableSession. quietly.
  apply keeps_onPrisma; [done| |apply plain_findActive]. intros o. by apply foundOne_holds.
Qed.

Lemma keeps_findCompleted t A id owner :
  holdsFor t A ->
  keeps t A (findCompletedResumableSession id owner)
    (learns A (foundOne id owner (fun s => se_status s = ss_completed))).
Proof.
  intros HA. apply keeps_onPrisma; [done| |apply plain_findCompleted]. intros o.
  apply foundOne_holds. intros s s' Hm. apply (mv_completed _ _ Hm).
Qed.

(** ** Reserving *)

Lemma ensure_refuse b code db u db' :
  refuseIf b code db = Ok (u, db') -> b = false /\ db' = db.
Proof. unfold refuseIf. intros [H ->]%ensure_ok. split; [|done]. by apply negb_true_iff. Qed.

(** Every assertion holds; those about staged bytes are what is used. *)
Lemma assertAdmissionAllowed_ok space st user stats bytes db u db' :
  assertAdmissionAllowed space st user stats bytes db = Ok (u, db') ->
  db' = db /\
  as_userStagingLiabilityBytes stats + bytes <= lo_resumableMaxReservedBytesPerUser st /\
  as_instanceStagingLiabilityBytes stats + bytes <= lo_resumableMaxReservedBytesInstance st.
Proof.
  intros H. unfold assertAdmissionAllowed in H. tx_inv H.
  apply ensure_refuse in Htx as [_ ->].
  unfold assertActiveSessionCapacity in Htx0. tx_inv Htx0.
  apply ensure_refuse in Htx as [_ ->]. apply ensure_refuse in Htx0 as [_ ->].
  unfold assertTerminalBacklogCapacity in Htx1. tx_inv Htx1.
  apply ensure_refuse in Htx as [_ ->]. apply ensure_refuse in Htx1 as [_ ->].
  unfold assertStagingCapacity in Htx2. tx_inv Htx2.
  apply ensure_refuse in Htx as [E1 ->]. apply ensure_refuse in Htx2 as [E2 ->].
  apply bool_decide_eq_false_1 in E1. apply bool_decide_eq_false_1 in E2.
  assert (E3 : db4 = db).
  { unfold assertUserQuotaCapacity in Htx3. destruct (us_storageLimitBytes user).
    - by apply ensure_refuse in Htx3 as [_ ->].
    - by tx_inv Htx3. }
  subst db4. assert (E4 : db' = db); [|split_and!; [done|lia|lia]].
  unfold assertPhysicalHeadroom in H. destruct space; [|done]. by apply ensure_refuse in H as [_ ->].
Qed.

Lemma reserve_ok input cn db u db' st :
  cn_settings cn = Some st -> reserveResumableSession input cn db = Ok (u, db') ->
  db' = set_sessions (<[ns_id input := newSession input]> (db_sessions db)) db /\
  db_sessions db !! ns_id input = None /\
  bytesOf unreleased db + ns_totalSizeBytes input <= lo_resumableMaxReservedBytesInstance st /\
  bytesOf (fun s => unreleased s && ownedBy (ns_ownerUserId input) s) db + ns_totalSizeBytes input
    <= lo_resumableMaxReservedBytesPerUser st.
Proof.
  intros Hst H. unfold reserveResumableSession in H. apply bind_ok in H as ([st' user] & db1 & H1 & H).
  apply lockUploadCapacityRows_ok in H1 as [-> E]. rewrite Hst in E. injection E as <-.
  apply bind_ok in H as (stats & db2 & H1 & H). apply read_ok in H1 as [-> ->].
  apply bind_ok in H as (u1 & db3 & H1 & H).
  apply assertAdmissionAllowed_ok in H1 as (-> & E1 & E2). cbn in E1, E2. tx_inv H.
  unfold sessionTaken in Htx. rewrite negb_orb, andb_true_iff, negb_true_iff in Htx.
  destruct Htx as [Hn _]. apply bool_decide_eq_false_1 in Hn. split_and!; [done| |lia|lia].
  by destruct (db_sessions db !! ns_id input); [destruct Hn|].
Qed.

(** A reservation of this program, for an id it drew. *)
Lemma reserve_allowed t w cn input u db' :
  uploadInv settings w -> drew t (ns_id input) w ->
  ns_tmpPath input = stagingPath (ns_id input) -> 0 <= ns_totalSizeBytes input <= 2 ^ 53 - 1 ->
  (forall chunk, chunkedBy (newSession input) = Some chunk -> 0 < chunk) ->
  cn_settings cn = Some settings -> reserveResumableSession input cn (uw_db w) = Ok (u, db') ->
  (changes (Some t) w (set_db db' w) /\ uploadInv settings (set_db db' w)) /\
  (forall s, sessionOf (set_db db' w) (ns_id input) = Some s -> s = newSession input) /\
  ns_id input ∈ uw_seen (set_db db' w).
Proof.
  intros (Hok & [Hl1 Hl2] & Hdom) [Hd Hns] Hpath Htot Hch Hcn H.
  apply (reserve_ok _ _ _ _ _ _ Hcn) in H as (-> & Hnone & E1 & E2).
  set (id := ns_id input) in *. set (s0 := newSession input) in *.
  assert (Hlook : forall j, sessionOf (set_db (set_sessions (<[id := s0]> (db_sessions (uw_db w))) (uw_db w)) w) j
    = if decide (j = id) then Some s0 else sessionOf w j).
  { intros j. unfold sessionOf. cbn. case_decide as E; [subst; by rewrite lookup_insert_eq|].
    by rewrite lookup_insert_ne. }
  assert (Hold : sessionOf w id = None) by exact Hnone.
  split_and!.
  - constructor; try done; cbn.
    + intros j s' Hj Hs'. rewrite Hlook in Hs'. case_decide as E; [|by rewrite Hj in Hs'].
      injection Hs' as <-. subst j. split_and!; [by exists t|done|done].
    + intros j s Hj Hs'. rewrite Hlook in Hs'. by case_decide; [|rewrite Hj in Hs'].
    + intros j s s' Hj Hs'. rewrite Hlook in Hs'. case_decide; [subst; by rewrite Hold in Hj|].
      rewrite Hj in Hs'. injection Hs' as <-. apply row_moves_refl.
    + intros j s s' Hj Hs' Hn Hst. rewrite Hlook in Hs'. case_decide; [subst; by rewrite Hold in Hj|].
      rewrite Hj in Hs'. by injection Hs' as <-.
    + intros j s s' Hj Hs' Ha Hn. rewrite Hlook in Hs'. case_decide; [subst; by rewrite Hold in Hj|].
      rewrite Hj in Hs'. by injection Hs' as <-.
    + set_solver.
    + intros j. rewrite dom_insert. intros [|[->%elem_of_singleton|Hj]%elem_of_union]%elem_of_union.
      * by left.
      * right. by exists t.
      * left. by apply Hdom.
    + intros path. by left.
  - split; [|split].
    + intros j s Hs. change (sessionOf (set_db (set_sessions (<[id := s0]> (db_sessions (uw_db w))) (uw_db w)) w) j = Some s) in Hs.
      rewrite Hlook in Hs. case_decide; [|by apply Hok]. injection Hs as <-. subst j.
      constructor; cbn; try done; [lia|].
      unfold chunksOk. destruct (chunkedBy s0) eqn:E; [|done].
      split_and!; [by apply Hch|constructor|constructor|done].
    + split.
      * cbn. rewrite bytesOf_insert by done. cbn. lia.
      * intros owner. cbn. rewrite bytesOf_insert by done. cbn.
        unfold ownedBy at 2. cbn. case_bool_decide as E; [subst owner; lia|].
        specialize (Hl2 owner). lia.
    + cbn. set_solver.
  - intros s Hs. rewrite Hlook in Hs. rewrite decide_True in Hs by done. by injection Hs.
  - cbn. rewrite dom_insert. set_solver.
Qed.

Definition reserved (t : nat) (input : NewSession) (w : UploadWorld) : Prop :=
  allocates t (ns_id input) w /\ known (owned (ns_ownerUserId input)) (ns_id input) w.
Lemma reserved_holds t input : holdsFor t (reserved t input).
Proof. apply holds_and; [apply allocates_holds|apply known_owned_holds]. Qed.

Lemma keeps_reserve t input :
  ns_tmpPath input = stagingPath (ns_id input) -> 0 <= ns_totalSizeBytes input <= 2 ^ 53 - 1 ->
  (forall chunk, chunkedBy (newSession input) = Some chunk -> 0 < chunk) ->
  keeps t (drew t (ns_id input)) (runUploadTransaction (onPrisma (reserveResumableSession input)))
    (ended (fun _ => True) (fun _ => reserved t input)).
Proof.
  intros Hpath Htot Hch. apply (keeps_admission _ _ t (drew t (ns_id input)) (fun _ => True)
    (fun _ => reserved t input)); [eauto with holds|done|]. apply serve_settle.
  apply (serve_ask settings sha256 t _ (prisma (reserveResumableSession input))).
  - intros w Hi Hw cn u db' Hcn H. by eapply reserve_allowed.
  - intros [u|e]; cbn; [apply reserved_holds|]. destruct (isBusy _); eauto with holds.
  - intros a w w' Hi _ Hw [cn u db' Hcn H|cn e Hcn H| |cn u db' Hcn H]; cbn; try done.
    + destruct (reserve_allowed t w cn input u db') as ((Hc & _) & Hs & Hin); try done.
      split; [split|]; [apply (ch_drawn _ _ _ Hc), Hw|split; [done|]|split; [done|]];
        intros s Hss; rewrite (Hs s Hss); [by left|done].
    + match goal with |- (if ?b then _ else _) _ => by destruct b end.
Qed.
End Rows.

Section Writes.
Context (settings : LockedSettings) (sha256 : string -> string).
Context (platformText : UploadFailure -> string).
#[local] Notation keeps := (keeps settings sha256).
#[local] Notation plainTx := (plainTx settings).
#[local] Hint Resolve known_terminal_holds known_owned_holds found_holds reserved_holds : holds.

(** ** Activation *)

Lemma moves_status s status expiresAt :
  terminal s = false -> isTerminalUploadSessionStatus status = false -> status <> ss_allocating ->
  moves s (withStatus status expiresAt s) /\
  forall id, rowOk id s -> rowOk id (withStatus status expiresAt s).
Proof.
  intros Ht Hst Hna. split.
  - constructor; cbn; try done; unfold terminal in *; cbn; [by rewrite Ht|].
    intros E. by rewrite E in Ht.
  - intros id [H1 H2 H3 H4 H5 H6 H7]. constructor; try done; cbn; unfold terminal in *; cbn.
    + rewrite Hst, <- H4, Ht. done.
    + intros Hr. by rewrite (H5 Hr) in Ht.
    + intros Hc. by rewrite (H6 Hc) in Ht.
    + unfold chunksOk, chunkedBy in *. cbn. destruct (if bool_decide _ then _ else _); [|done].
      destruct H7 as (? & ? & ? & Hr). split_and!; [done..|]. intros _. by apply Hr.
Qed.

Lemma activate_allowed t w id owner expiresAt n db' :
  uploadInv settings w -> allocates t id w ->
  activateTx id owner expiresAt (uw_db w) = Ok (n, db') ->
  changes (Some t) w (set_db db' w) /\ uploadInv settings (set_db db' w).
Proof.
  intros Hi [Hd [Hseen Hk]] H.
  apply updateSession_ok in H as [[-> _]|(_ & s & Hs & Hp & ->)].
  { split; [eapply plain_changes|apply plain_inv]; try done; by apply plainTo_same. }
  apply andb_true_iff in Hp as [_ Hst]. apply bool_decide_eq_true in Hst.
  destruct (moves_status s ss_created expiresAt) as [Hm Hok]; [|done..|].
  { unfold terminal. by rewrite Hst. }
  assert (Hmv : movedTo (uw_db w) (set_sessions
    (<[id := withStatus ss_created expiresAt s]> (db_sessions (uw_db w))) (uw_db w))).
  { apply (movedTo_put _ id s); [done|done|apply Hok]. }
  split; [|by apply (moved_inv settings w _ (uw_committer w))].
  apply (moved_changes (Some t) settings w _ (uw_committer w)); try done; cbn.
  - intros j s1 s' Hj Hs' Hn Hst'. destruct (decide (j = id)) as [->|Hne].
    + rewrite lookup_insert_eq in Hs'. by injection Hs' as <-.
    + rewrite lookup_insert_ne in Hs' by done. unfold sessionOf in Hj. by simplify_eq.
  - intros j s1 s' Hj Hs' Ha Hn _. destruct (decide (j = id)) as [->|Hne]; [by exists t|].
    rewrite lookup_insert_ne in Hs' by done. unfold sessionOf in Hj. by simplify_eq.
Qed.

Lemma keeps_activate t id owner now :
  keeps t (fun w => allocates t id w /\ known (owned owner) id w)
    (activateResumableSession id owner now) (fun _ => known (owned owner) id).
Proof.
  unfold activateResumableSession.
  apply (serve_bind _ _ t _ _ _ (fun _ => known (owned owner) id)).
  - apply serve_settle.
    apply (serve_ask settings sha256 t _ (prisma (fun _ => activateTx id owner (now + UPLOAD_SESSION_TTL_MS)))).
    + intros w Hi [Ha _] cn n db' _ H. by eapply activate_allowed.
    + intros [n|e]; eauto with holds.
    + intros a w w' Hi _ [Ha Ho] [cn n db' _ H|cn e _ H| |cn n db' _ H]; try done;
        destruct (activate_allowed _ _ _ _ _ _ _ Hi Ha H) as [Hc _];
        (eapply known_any; [apply moves_owned|exact Hc|done]).
  - intros count. apply keeps_seq; [apply keeps_unless|done|]. intros _.
    eapply keeps_post; [apply (keeps_onPrisma settings sha256 t _ _ (fun _ _ => True))|].
    + eauto with holds.
    + eauto with holds.
    + intros w cn r db' _ _ H. split; [|done]. unfold findUniqueOrThrow in H. tx_inv H.
      destruct (db_sessions (uw_db w) !! id); tx_inv H. by apply plainTo_same.
    + by intros [r|e] w; [intros [? _]|].
Qed.

Lemma keeps_recoverFailed t id owner :
  keeps t (known (owned owner) id)
    (recoverFailedResumableAllocation platformText id owner (stagingPath id)) (fun _ _ => True).
Proof.
  unfold recoverFailedResumableAllocation, ignoring.
  apply (serve_catch _ _ t _ _ _ (fun _ _ => True)).
  - eapply keeps_then; [by apply keeps_transition|done|]. intros x.
    apply (serve_pre _ _ t (known isTerminal id)); [|by intros w [_ H]].
    eapply keeps_seq; [apply keeps_cleanup|done|]. intros ?. by apply serve_ret.
  - intros e. by apply serve_ret.
Qed.

(** What a reservation's input must be for its row to be well-formed. *)
Definition inputOk (input : CreateInput) : Prop :=
  0 <= ci_totalSizeBytes input <= 2 ^ 53 - 1 /\
  forall chunk, ci_chunkSizeBytes input = Some chunk -> 0 < chunk.

Lemma keeps_create t input :
  inputOk input ->
  keeps t (fun _ => True) (createResumableSession platformText input) (fun _ _ => True).
Proof.
  intros [Htot Hch]. unfold createResumableSession. quietly.
  apply keeps_seq; [|done|intros _].
  { destruct (normalizeFileName _); [by apply serve_ret|by apply serve_throw]. }
  apply (serve_bind _ _ t _ _ _ (fun id => drew t id)).
  { eapply (serve_ask settings sha256 t _ randomUUID).
    - done.
    - intros id. apply drew_holds.
    - intros id w w' _ _ _ [Hn ->]. split; cbn; [by rewrite lookup_insert_eq|done]. }
  intros id. set (r := reservation id _ input).
  eapply serve_bind; [apply (keeps_reserve settings sha256 t r); [done|done|]|].
  { intros chunk Hc. apply Hch. unfold chunkedBy, r in Hc. cbn in Hc. by case_bool_decide. }
  intros u. cbn [ended]. eapply (serve_bind _ _ t _ _ _ (fun _ => reserved t r)).
  { apply keeps_outcome. apply keeps_settled.
    refine (keeps_files _ _ t _ (createStaging (stagingPath id)) I _ _ _).
    - intros w _ [Ha _]. exists id. by split.
    - apply reserved_holds.
    - by split. }
  intros [a|e].
  - apply (serve_catch _ _ t _ _ _ (fun _ => known (owned (ci_ownerUserId input)) id)).
    + eapply keeps_post; [apply keeps_activate|by intros [s|e] w H].
    + intros e. apply (serve_bind _ _ t _ _ _ (fun _ _ => True)); [|intros ?; by apply serve_throw].
      eapply keeps_post; [apply keeps_recoverFailed|by intros [y|err] w].
  - apply (serve_bind _ _ t _ _ _ (fun _ _ => True)); [|intros ?; by apply serve_throw].
    apply (serve_pre _ _ t (known (owned (ci_ownerUserId input)) id)); [|by intros w [_ H]].
    eapply keeps_post; [apply keeps_recoverFailed|by intros [y|err] w].
Qed.

(** ** Recording a chunk *)

Lemma recordedAt_none index chunks :
  recordedAt index chunks = None -> index ∉ (uc_chunkIndex <$> chunks).
Proof.
  unfold recordedAt. intros H (c & -> & Hc)%list_elem_of_fmap.
  apply list_elem_of_In in Hc. apply (find_none _ _ H) in Hc. by apply bool_decide_eq_false in Hc.
Qed.

Lemma chunkBytes_app l l' : chunkBytes (l ++ l') = chunkBytes l + chunkBytes l'.
Proof.
  unfold chunkBytes, sumZ. rewrite fmap_app, foldr_app.
  generalize (foldr Z.add 0 (uc_sizeBytes <$> l')). intros z.
  induction l as [|c l IH]; cbn; [done|]. rewrite IH. lia.
Qed.

Lemma plain_chunk id s chunk c :
  isReceivableStatus (se_status s) = true -> chunkedBy s = Some chunk ->
  isChunkOf (se_totalSizeBytes s) chunk c -> recordedAt (uc_chunkIndex c) (se_chunks s) = None ->
  plainSession id s (withChunk c s).
Proof.
  intros Hst Hch Hc Hnone. assert (Ht : terminal s = false) by (unfold terminal; by destruct (se_status s)).
  assert (Hs' : chunkedBy (withChunk c s) = chunkedBy s) by done. constructor.
  - constructor; cbn; try done; [by rewrite Ht|by intros E; rewrite E in Hst|].
    intros _ x Hx. apply elem_of_app. by left.
  - done.
  - intros E. by rewrite E in Hst.
  - intros [H1 H2 H3 H4 H5 H6 H7]. unfold chunksOk in H7. rewrite Hch in H7.
    destruct H7 as (Hpos & Hall & Hnd & Hrec). specialize (Hrec Ht).
    assert (Hall' : Forall (isChunkOf (se_totalSizeBytes s) chunk) (se_chunks s ++ [c])).
    { apply Forall_app_2; [done|]. by constructor. }
    assert (Hnd' : NoDup (uc_chunkIndex <$> (se_chunks s ++ [c]))).
    { rewrite fmap_app. apply NoDup_app. split_and!; [done| |apply NoDup_singleton].
      intros i Hi. cbn. intros ->%list_elem_of_singleton.
      by apply (recordedAt_none _ _ Hnone). }
    assert (Hsum : chunkBytes (se_chunks s ++ [c]) = chunkBytes (se_chunks s) + uc_sizeBytes c).
    { rewrite chunkBytes_app. unfold chunkBytes at 2, sumZ. cbn. lia. }
    constructor; cbn; try done.
    + pose proof (chunk_bytes_bound _ _ _ Hpos (proj1 H2) Hall' Hnd'). lia.
    + rewrite <- H4, Ht. done.
    + intros Hr. by rewrite (H5 Hr) in Ht.
    + intros Hc'. apply H6 in Hc'. by rewrite Hc' in Hst.
    + unfold chunksOk. rewrite Hs', Hch. split_and!; [done..|]. intros _.
      change (ud_receivedBytes (se_upload s) + uc_sizeBytes c = chunkBytes (se_chunks s ++ [c])). lia.
Qed.

Lemma findReceivable_ok input now db n db' :
  findReceivableChunkSession input now db = Ok (n, db') ->
  db' = db /\ exists s, db_sessions db !! wi_sessionId input = Some s /\ receivable input now s = true.
Proof.
  unfold findReceivableChunkSession. intros H. tx_inv H.
  destruct (db_sessions db !! wi_sessionId input) as [s|] eqn:E; [|done].
  destruct (receivable input now s) eqn:Er; tx_inv H. eauto.
Qed.

Lemma receivable_status input now s : receivable input now s = true -> isReceivableStatus (se_status s) = true.
Proof. unfold receivable. rewrite !andb_true_iff. naive_solver. Qed.

Lemma plain_record A input now id owner session chunk :
  wi_sessionId input = id -> sessionChunk session = Some chunk ->
  isChunkOf (rs_totalSizeBytes session) chunk (wi_chunk input) ->
  (forall w, A w -> found id owner session w) ->
  plainTx A (fun _ => recordTx input now) (fun _ _ => True).
Proof.
  intros Hid Hch Hc HA w cn n db' Hi Hw H. split; [|done]. unfold recordTx in H. tx_inv H.
  apply findReceivable_ok in Htx as (-> & _).
  unfold findRecordedUploadChunk in Htx0. apply read_ok in Htx0 as [-> ->].
  apply bool_decide_eq_true in Htx1. apply findReceivable_ok in H as (-> & _).
  apply updateSession_ok in Htx2 as [[-> _]|(_ & s & Hs & Hp & ->)]; [by apply plainTo_same|].
  rewrite Hid in *. rewrite Hs in Htx1. apply (plainTo_put _ id s); [done|].
  destruct (HA w Hw) as [_ [_ Hk]]. destruct (Hk s Hs) as [_ Etot Ech _].
  apply (plain_chunk id s chunk); [by eapply receivable_status|by rewrite Ech|by rewrite Etot|done].
Qed.

(** ** Writing *)

Definition writing (t : nat) (id : string) (A : Known) (w : UploadWorld) : Prop := A w /\ held t id w.

Lemma keeps_pipeline t A id start expected received body :
  holdsFor t A -> ofRows A ->
  keeps t (fun w => A w /\ held t id w) (pipeline (stagingPath id) start expected received body)
    (onConnection A (held t id) (fun _ _ => True)).
Proof.
  intros HA HR. revert received. induction body as [|bytes body IH]; intros received; cbn [pipeline].
  all: apply (serve_bind _ _ t _ _ _ (fun _ w => A w /\ held t id w));
    [eapply keeps_post; [by apply keeps_piece|intros [y|e] w; cbn; [by intros [? ?]|done]]|intros _].
  - destruct (bool_decide _); [by apply serve_ret|apply serve_throw; by intros w [? _]].
  - destruct (bool_decide _); [apply serve_throw; by intros w [? _]|].
    apply (serve_bind _ _ t _ _ _ (fun _ w => A w /\ held t id w)); [|intros _; apply IH].
    eapply keeps_post; [by apply keeps_write|intros [y|e] w; cbn; [by intros [? ?]|done]].
Qed.

Lemma keeps_query_same {X : Set} t A L (tx : Conditions -> Tx X) :
  holdsFor t A -> ofRows A -> holdsFor t L -> plainTx (fun w => A w /\ L w) tx (fun _ _ => True) ->
  keeps t (fun w => A w /\ L w) (query tx)
    (fun r => match r with Ok _ => fun w => A w /\ L w | Throw _ => A end).
Proof.
  intros HA HR HL Htx. eapply keeps_post; [apply (keeps_query settings sha256 t A L tx (fun _ _ => True))|].
  all: eauto with holds. by intros [x|e] w; [intros [? _]|].
Qed.

Lemma plain_receivable t A input now :
  plainTx (fun w => A w /\ locked t (wi_sessionId input) w)
    (fun _ => findReceivableChunkSession input now) (fun _ => held t (wi_sessionId input)).
Proof.
  intros w cn n db' Hi [_ Hl] H. apply findReceivable_ok in H as (-> & s & Hs & Hr).
  split; [by apply plainTo_same|]. split; [done|]. intros s' Hs'.
  change (db_sessions (uw_db w) !! wi_sessionId input = Some s') in Hs'.
  rewrite Hs in Hs'. injection Hs' as <-. apply receivable_status in Hr. by destruct (se_status s).
Qed.

(** A chunk's writer: its lock is taken, the session is found to be receiving
    under it, and what was written is recorded under it. *)
Lemma keeps_writeChunk t owner session chunk input body :
  sessionChunk session = Some chunk ->
  isChunkOf (rs_totalSizeBytes session) chunk (wi_chunk input) ->
  let id := wi_sessionId input in
  keeps t (found id owner session)
    (writeAndRecordUploadChunk input
       (pipeline (stagingPath id) (uc_startByte (wi_chunk input)) (uc_sizeBytes (wi_chunk input)) 0 body))
    (fun _ => found id owner session).
Proof.
  intros Hch Hc id. set (A := found id owner session).
  assert (HA : holdsFor t A) by apply found_holds.
  assert (HR : ofRows A) by by split.
  unfold writeAndRecordUploadChunk. quietly. rename x into now.
  apply keeps_seq; [called connectClient|done|]. intros _.
  apply (serve_bind _ _ t _ _ _ (fun _ => A)).
  - apply keeps_outcome.
    apply (serve_bind _ _ t _ _ _ (fun _ w => A w /\ locked t id w)).
    { unfold acquireUploadChunkLocks.
      eapply keeps_then; [by apply keeps_lockSession|done|]. intros ?.
      eapply keeps_post; [by apply keeps_lockChunk|intros [y|e] w; cbn; [by intros [? ?]|done]]. }
    intros _. apply (serve_bind _ _ t _ _ _ (fun _ w => A w /\ held t id w)).
    { eapply keeps_post;
        [apply (keeps_query settings sha256 t A (locked t id) _ (fun _ => held t id));
           [done|done|eauto with holds..|apply plain_receivable]|].
      intros [n|e] w; cbn; [by intros [[? _] ?]|done]. }
    intros receivedBytes. apply (serve_bind _ _ t _ _ _ (fun _ w => A w /\ held t id w)).
    { apply (keeps_query_same t A (held t id)); [done|done|eauto with holds|].
      intros w cn r db' _ _ H. apply read_ok in H as [_ ->]. by split; [apply plainTo_same|]. }
    intros [existing|].
    { destruct (chunkRangeMatches _ _); [apply serve_ret|apply serve_throw]; by intros w [? _]. }
    apply (serve_bind _ _ t _ _ _ (fun _ w => A w /\ held t id w)).
    { eapply keeps_post; [by apply keeps_pipeline|intros [y|e] w; cbn; [by intros [? ?]|done]]. }
    intros written. apply (serve_bind _ _ t _ _ _ (fun _ w => A w /\ held t id w)).
    { destruct (bool_decide _); [by apply serve_ret|apply serve_throw; by intros w [? _]]. }
    intros _. eapply keeps_post; [apply (keeps_query_same t A (held t id)); [done|done|eauto with holds|]|].
    { eapply plain_record; [done|exact Hch|exact Hc|]. by intros w [? _]. }
    intros [n|e] w; cbn; [by intros [? ?]|done].
  - intros r. apply (serve_bind _ _ t _ _ _ (fun _ => A)).
    + destruct (connectionLost r); [by apply serve_ret|].
      apply (serve_catch _ _ t _ _ _ (fun _ => A)); [|intros e; by apply serve_ret].
      apply keeps_seq; [apply keeps_settled|done|intros _; by apply serve_ret].
      by refine (keeps_unlock _ _ t A unlockClient I _ _).
    + intros destroy. apply keeps_seq; [apply keeps_settled|done|].
      { by refine (keeps_unlock _ _ t A (releaseClient destroy) I _ _). }
      intros _. destruct r; [by apply serve_ret|by apply serve_throw].
Qed.
End Writes.
