(* ===== verification/UploadServing.v ===== *)
(** * The routes keep to the rules

    From nothing known, every request of [UploadRoutes] and the clean-up of
    [StagingCleanup] perform allowed effects only. *)

From Stdlib Require String.
From S2P Require Import Prelude ChunkProtocol Database MutationMetadata MutationPrepare UploadAdmission Async Requests StorageLayout UploadIo UploadSessions UploadRoutes StagingCleanup UploadInvariant UploadRules UploadFollows UploadWrites.

Open Scope Z_scope.

Section Serving.
Context (settings : LockedSettings) (sha256 : string -> string).
Context (platformText : UploadFailure -> string).
#[local] Notation keeps := (keeps settings sha256).
#[local] Notation plainTx := (plainTx settings).
#[local] Hint Resolve known_terminal_holds known_owned_holds found_holds reserved_holds : holds.

Lemma found_owned id owner session w :
  found id owner session w -> known (owned owner) id w.
Proof.
  intros [Hf Hk]. eapply known_weak; [|exact Hk]. intros s [Ho _ _ _]. unfold owned.
  by rewrite Ho, (fa_owner _ _ _ Hf).
Qed.

Lemma keeps_attach t A r id owner :
  holdsFor t A -> keeps t A (attachResumableMutationHeader r id owner) (fun _ => A).
Proof.
  intros HA. unfold attachResumableMutationHeader.
  apply keeps_seq; [|done|intros ?; by apply serve_ret].
  apply (serve_catch _ _ t _ _ _ (fun _ => A)); [|intros ?; by apply serve_ret].
  eapply keeps_post; [apply (keeps_onPrisma settings sha256 t A _ (fun _ _ => True))|].
  - done.
  - eauto with holds.
  - intros w cn o db' _ _ H. apply read_ok in H as [_ ->]. by split; [apply plainTo_same|].
  - intros [x|e] w; cbn; [by intros [? ?]|done].
Qed.

(** ** Chunks *)

(** What was found does not change: its fixed part may be assumed. *)
Lemma keeps_found {X} t id owner session (m : Program X) Q :
  (foundAs id owner session -> keeps t (found id owner session) m Q) ->
  keeps t (found id owner session) m Q.
Proof.
  intros H. eapply serve_pre;
    [apply (keeps_assume _ _ t (foundAs id owner session) (found id owner session)); exact H|].
  intros w Hw. split; [apply Hw|done].
Qed.

Lemma keeps_parallel t id owner request session chunk range :
  sessionChunk session = Some chunk ->
  keeps t (found id owner session)
    (handleParallelChunkUpload request session chunk owner range) (fun _ => found id owner session).
Proof.
  intros Hch. apply keeps_found. intros Hf. unfold handleParallelChunkUpload.
  destruct (getUploadChunkIndex _ _ _) as [index|] eqn:Ei; [|by apply serve_ret].
  destruct (validateContentLength _ _); [by apply serve_ret|].
  apply (serve_catch _ _ t _ _ _ (fun _ => found id owner session)).
  2:{ intros e. destruct (chunkConflictResponse _ _); [by apply serve_ret|by apply serve_throw]. }
  apply keeps_seq; [|done|intros ?; by apply serve_ret].
  unfold writeParallelUploadChunk. rewrite (fa_path _ _ _ Hf), (fa_id _ _ _ Hf).
  set (c := {| uc_chunkIndex := index; uc_startByte := ub_start range; uc_endByte := ub_end range;
               uc_sizeBytes := rangeLength range |}).
  apply (keeps_writeChunk settings sha256 t owner session chunk
    {| wi_sessionId := id; wi_ownerUserId := owner; wi_chunk := c |} (cq_body request) Hch).
  apply chunk_index_names_exactly_the_chunks in Ei as (Hi & Hs & He);
    [|by apply (fa_chunk _ _ _ Hf)|apply (fa_total _ _ _ Hf)].
  exists index. split; [done|]. cbn. unfold chunkAt, rangeLength. cbn in Hs, He. unfold c, rangeLength. f_equal; lia.
Qed.

Lemma plain_progress id owner session bytes now :
  sessionChunk session = None -> 0 <= bytes <= rs_totalSizeBytes session ->
  plainTx (found id owner session) (fun _ => progressTx id bytes now) (fun _ _ => True).
Proof.
  intros Hch Hb. apply plain_update. intros w s [_ [_ Hk]] Hs _ Hp.
  destruct (Hk s Hs) as [_ Etot Ech _]. rewrite Hch in Ech.
  apply andb_true_iff in Hp as [Hp _].
  assert (Ht : terminal s = false) by (unfold terminal; by destruct (se_status s)).
  set (s' := changeSession _ _ _ _ _ _ _ _). assert (Ech' : chunkedBy s' = None) by exact Ech.
  constructor.
  - constructor; cbn; try done; [by rewrite Ht|by intros E; rewrite E in Hp].
  - done.
  - intros E. by rewrite E in Hp.
  - intros [H1 H2 H3 H4 H5 H6 H7]. constructor; try done; cbn.
    + by rewrite Etot.
    + rewrite <- H4, Ht. done.
    + intros Hr. by rewrite (H5 Hr) in Ht.
    + intros Hc. apply H6 in Hc. by rewrite Hc in Hp.
    + unfold chunksOk in *. by rewrite Ech in H7; rewrite Ech'.
Qed.

Lemma found_unchunked id owner session w :
  sessionChunk session = None -> found id owner session w -> known unchunked id w.
Proof.
  intros Hch [_ Hk]. eapply known_weak; [|exact Hk]. intros s [_ _ E _]. unfold unchunked.
  by rewrite E.
Qed.

Lemma parseContentRange_ok header total range :
  parseContentRange header total = Some range ->
  ub_start range <= ub_end range < total.
Proof.
  unfold parseContentRange. destruct (negb _); [done|].
  destruct (splitOn _ _) as [|r [|tot [|]]]; try done.
  destruct (splitOn _ r) as [|st [|en [|]]]; try done. destruct (_ && _ && _); [|done].
  destruct (negb _) eqn:E; [done|]. apply negb_false_iff, bool_decide_eq_true in E.
  destruct (bool_decide _ || bool_decide _) eqn:E'; [done|]. intros [= <-]. cbn.
  apply orb_false_iff in E' as [E1 E2].
  apply bool_decide_eq_false in E1. apply bool_decide_eq_false in E2. lia.
Qed.

Lemma keeps_rewrite t A id e :
  match e with
  | openStaging path _ | rewriteStaging path _ _ => path = stagingPath id
  | _ => False
  end ->
  holdsFor t A -> ofRows A -> (forall w, A w -> known unchunked id w) ->
  keeps t A (ask e) (fun _ => A).
Proof.
  intros He HA HR HU. apply keeps_files; [by destruct e| |done|done].
  intros w _ Hw. destruct e; try done; exists id; auto.
Qed.

Lemma keeps_legacy t id owner request session range :
  sessionChunk session = None -> ub_start range <= ub_end range < rs_totalSizeBytes session ->
  keeps t (found id owner session)
    (handleLegacyChunkUpload request session range) (fun _ => found id owner session).
Proof.
  intros Hch Hr. apply keeps_found. intros Hf. unfold handleLegacyChunkUpload.
  destruct (negb _) eqn:Es; [by apply serve_ret|].
  apply negb_false_iff, bool_decide_eq_true in Es.
  assert (HR : ofRows (found id owner session)) by by split.
  assert (HU : forall w, found id owner session w -> known unchunked id w).
  { intros w. by apply found_unchunked. }
  apply keeps_seq; [called wholeBody|done|intros _].
  destruct (negb _); [by apply serve_ret|]. rewrite (fa_path _ _ _ Hf).
  apply keeps_seq; [apply keeps_settled|done|intros _].
  { by refine (keeps_rewrite t _ id (openStaging _ _) _ _ _ _); [|apply found_holds|..]. }
  apply keeps_seq; [apply keeps_settled|done|intros _].
  { by refine (keeps_rewrite t _ id (rewriteStaging _ _ _) _ _ _ _); [|apply found_holds|..]. }
  apply keeps_seq; [|done|intros _; by apply serve_ret].
  rewrite (fa_id _ _ _ Hf). unfold updateSessionProgress. quietly. rename x into now.
  apply keeps_seq; [|done|intros n; destruct (bool_decide _); [by apply serve_ret|by apply serve_throw]].
  eapply keeps_post; [apply (keeps_onPrisma settings sha256 t _ _ (fun _ _ => True))|].
  - apply found_holds.
  - eauto with holds.
  - apply plain_progress; [done|]. pose proof (fa_received _ _ _ Hf). lia.
  - intros [x|e] w; cbn; [by intros [? ?]|done].
Qed.

Lemma keeps_writeUploadChunk t id owner request session :
  keeps t (found id owner session) (writeUploadChunk request session owner)
    (fun _ => found id owner session).
Proof.
  unfold writeUploadChunk. destruct (cq_contentRange request) as [[|c header]|];
    [by apply serve_ret| |by apply serve_ret].
  destruct (parseContentRange _ _) as [range|] eqn:Er; [|by apply serve_ret].
  apply parseContentRange_ok in Er. destruct (rs_chunkSizeBytes session) as [chunk|] eqn:Ec.
  - case_bool_decide as Hp.
    + apply keeps_parallel. unfold sessionChunk. by rewrite bool_decide_eq_true_2.
    + apply keeps_legacy; [|done]. unfold sessionChunk. by rewrite bool_decide_eq_false_2.
  - apply keeps_legacy; [|done]. unfold sessionChunk. rewrite Ec. by destruct (bool_decide _).
Qed.

Lemma keeps_writeRoute t owner id request :
  keeps t (fun _ => True) (writeChunk owner id request) (fun _ _ => True).
Proof.
  unfold writeChunk. apply keeps_seq; [|done|intros protocolResponse].
  { unfold requireStorageProtocol. apply (serve_catch _ _ t _ _ _ (fun _ _ => True)).
    - apply keeps_seq; [called protocolReady|done|intros ?; by apply serve_ret].
    - intros e. destruct e; try (by apply serve_throw); by apply serve_ret. }
  eapply keeps_then; [apply keeps_findActive; eauto with holds|done|]. intros [session|]; cbn.
  2:{ destruct protocolResponse; [by apply serve_ret|by apply serve_throw]. }
  destruct protocolResponse; [by apply serve_ret|].
  apply (serve_pre _ _ t (found id owner session)); [|by intros w [_ [H _]]].
  eapply keeps_post; [apply keeps_writeUploadChunk|done].
Qed.

(** ** The small routes *)

Lemma keeps_createRoute t owner body :
  0 <= bo_totalSizeBytes body <= 2 ^ 53 - 1 ->
  keeps t (fun _ => True) (createSession platformText owner body) (fun _ _ => True).
Proof.
  intros Htot. unfold createSession. apply keeps_seq; [called protocolReady|done|intros _].
  apply keeps_seq; [|done|intros _].
  { destruct (normalizeFileName _); [by apply serve_ret|by apply serve_throw]. }
  apply keeps_seq; [called uploadPolicy|done|intros maxUploadBytes].
  apply keeps_seq; [apply keeps_unless|done|intros _].
  apply keeps_seq; [|done|intros ?; by apply serve_ret].
  apply keeps_create. split; [done|]. by intros chunk [= <-].
Qed.

Lemma keeps_readRoute t owner id :
  keeps t (fun _ => True) (readSession owner id) (fun _ _ => True).
Proof.
  unfold readSession. eapply keeps_then; [apply keeps_findActive; eauto with holds|done|].
  intros [session|]; [by apply serve_ret|by apply serve_throw].
Qed.

Lemma keeps_cancelRoute t owner id :
  keeps t (fun _ => True) (cancelSession platformText owner id) (fun _ _ => True).
Proof.
  unfold cancelSession. apply keeps_seq; [called protocolReady|done|intros _].
  eapply keeps_then; [apply keeps_findActive; eauto with holds|done|].
  intros [session|]; cbn; [|by apply serve_throw].
  apply (serve_pre _ _ t (found id owner session)); [|by intros w [_ [H _]]].
  apply keeps_found. intros Hf. rewrite (fa_path _ _ _ Hf).
  apply (serve_bind _ _ t _ _ _ (fun _ _ => True)); [|intros ?; by apply serve_ret].
  apply (serve_pre _ _ t (known (owned owner) id)); [|apply found_owned].
  eapply keeps_post;
    [exact (serve_finish settings sha256 platformText t id owner ss_cancelled eq_refl)|].
  by intros [y|e] w.
Qed.

(** ** Completion *)

Lemma begin_allowed t w id owner checksum now cn u db' :
  uploadInv settings w -> (forall u, (id, u) ∉ uw_sessionLocks w) ->
  beginCommitTx id owner checksum now cn (uw_db w) = Ok (u, db') ->
  changes (Some t) w (afterExclusive t id db' w) /\ uploadInv settings (afterExclusive t id db' w).
Proof.
  intros Hi Hnl H. unfold beginCommitTx in H. tx_inv H.
  apply lockUploadCapacityRows_ok in Htx as [-> _].
  apply sessionForUpdate_ok in Htx0 as [-> Hrow]. destruct a0 as [s|]; [|done].
  destruct Hrow as [Hs Hp]. apply putSession_ok in H as ->.
  apply andb_true_iff in Hp as [Hp _]. apply andb_true_iff in Hp as [_ Hst].
  set (s' := changeSession _ _ _ _ _ _ _ _).
  assert (Ht : terminal s = false) by (unfold terminal; by destruct (se_status s)).
  assert (Ht' : terminal s' = false) by done.
  assert (Hch : chunkedBy s' = chunkedBy s) by done.
  assert (Hmv : movedTo (uw_db w) (set_sessions (<[id := s']> (db_sessions (uw_db w))) (uw_db w))).
  { apply (movedTo_put _ id s); [done| |].
    - constructor; try done; [by rewrite Ht|by intros E; rewrite E in Hst].
    - intros [H1 H2 H3 H4 H5 H6 H7]. constructor; try done.
      + by rewrite Ht', <- Ht.
      + intros Hr. by rewrite (H5 Hr) in Ht.
      + intros Hc. apply H6 in Hc. by rewrite Hc in Hst.
      + unfold chunksOk in *. rewrite Hch. destruct (chunkedBy s); [|done].
        destruct H7 as (? & ? & ? & Hr). split_and!; [done..|]. intros _. by apply Hr. }
  assert (Eaft : afterExclusive t id (set_sessions (<[id := s']> (db_sessions (uw_db w))) (uw_db w)) w
    = set_committer (<[id := t]> (uw_committer w))
        (set_db (set_sessions (<[id := s']> (db_sessions (uw_db w))) (uw_db w)) w)).
  { unfold afterExclusive, sessionOf. cbn. rewrite Hs, lookup_insert_eq. cbn.
    by case_bool_decide as E; [rewrite E in Hst|]. }
  rewrite Eaft. split; [|by apply moved_inv].
  apply (moved_changes (Some t) settings); [done|done| | |]; cbn.
  - intros j u' Hu Hc. destruct (decide (j = id)) as [->|Hn].
    + rewrite lookup_insert_eq in Hc. by injection Hc as ->.
    + by rewrite lookup_insert_ne in Hc.
  - intros j s1 s2 Hj Hs2 Hn Hc. destruct (decide (j = id)) as [->|Hne].
    + unfold sessionOf in Hj. rewrite Hs in Hj. injection Hj as <-. split_and!; [done|done|].
      exists t. by rewrite lookup_insert_eq.
    + rewrite lookup_insert_ne in Hs2 by done. unfold sessionOf in Hj. by simplify_eq.
  - intros j s1 s2 Hj Hs2 Ha Hn _. destruct (decide (j = id)) as [->|Hne].
    + unfold sessionOf in Hj. rewrite Hs in Hj. injection Hj as <-. by rewrite Ha in Hst.
    + rewrite lookup_insert_ne in Hs2 by done. unfold sessionOf in Hj. by simplify_eq.
Qed.

Lemma found_any id owner session b w w' :
  changes b w w' -> found id owner session w -> found id owner session w'.
Proof.
  intros Hc [Hf Hk]. split; [done|]. eapply known_any; [apply moves_matches|exact Hc|done].
Qed.

Lemma keeps_begin t id owner session checksum :
  keeps t (found id owner session) (beginSessionCommit id owner checksum)
    (fun _ => found id owner session).
Proof.
  unfold beginSessionCommit. quietly. rename x into now.
  eapply keeps_post; [apply (keeps_admission _ _ t (found id owner session)
    (found id owner session) (fun _ => found id owner session)); [apply found_holds|done|]|by intros [y|e] w].
  eapply keeps_post.
  - apply keeps_settled. apply (serve_ask settings sha256 t _
      (exclusively id (beginCommitTx id owner checksum now)) (fun _ => found id owner session)).
    + intros w Hi _ Hnl cn u db' _ H. by eapply begin_allowed.
    + intros a. apply found_holds.
    + intros a w w' Hi _ Hf [[Hnl Ho]|(e & -> & ->)]; [|done].
      destruct Ho as [cn u db' _ H|cn e _ H| |cn u db' _ H]; try done;
        destruct (begin_allowed t _ _ _ _ _ _ _ _ Hi Hnl H) as [Hc _]; by eapply found_any.
  - intros [y|e] w H; [done|]. cbn. by destruct (isBusy _).
Qed.

Lemma keeps_restore t A id owner e :
  holdsFor t A ->
  keeps t A (restoreResumableSessionAfterCommitRollback platformText id owner e) (fun _ => A).
Proof.
  intros HA. unfold restoreResumableSessionAfterCommitRollback. quietly. rename x into now.
  eapply keeps_post; [apply (keeps_admitted _ _ t A (fun _ _ => True)); [done|]|].
  - apply keeps_onPrisma; [done|eauto with holds|apply plain_restore].
  - intros [y|err] w; cbn; [by intros [? ?]|done].
Qed.

Lemma keeps_recordError t A id owner e :
  holdsFor t A ->
  keeps t A (recordResumableCommitRecoveryError platformText id owner e) (fun _ => A).
Proof.
  intros HA. unfold recordResumableCommitRecoveryError. quietly. rename x into now.
  apply keeps_seq; [|done|intros ?; by apply serve_ret].
  apply keeps_update; [done|]. intros. apply plain_attempt.
Qed.

Lemma keeps_ambiguous t A session e :
  holdsFor t A -> keeps t A (ambiguousCommitResponse platformText session e) (fun _ => A).
Proof.
  intros HA. unfold ambiguousCommitResponse.
  apply keeps_seq; [apply keeps_ignoring; by apply keeps_recordError|done|].
  intros ?. by apply serve_ret.
Qed.

Lemma keeps_unreadable t A session :
  holdsFor t A -> keeps t A (stagingUnreadable platformText session) (fun _ => A).
Proof.
  intros HA. unfold stagingUnreadable.
  apply keeps_seq; [apply keeps_outcome; by apply keeps_restore|done|].
  intros [y|e]; [by apply serve_ret|].
  apply keeps_seq; [apply keeps_ignoring; by apply keeps_recordError|done|].
  intros ?. by apply serve_ret.
Qed.

Lemma keeps_retryLater t A session e :
  holdsFor t A -> keeps t A (retryLaterResponse platformText session e) (fun _ => A).
Proof.
  intros HA. unfold retryLaterResponse.
  apply keeps_seq; [apply keeps_outcome; by apply keeps_restore|done|].
  intros [y|restoreError]; [by apply serve_ret|by apply keeps_ambiguous].
Qed.

(** Failing a session that was found. *)
Lemma keeps_fail t id owner session :
  keeps t (found id owner session)
    (failAndCleanupResumableSession platformText (rs_id session) (rs_ownerUserId session)
       (rs_tmpPath session)) (fun _ _ => True).
Proof.
  apply keeps_found. intros Hf.
  rewrite (fa_id _ _ _ Hf), (fa_owner _ _ _ Hf), (fa_path _ _ _ Hf).
  apply (serve_pre _ _ t (known (owned owner) id)); [|apply found_owned].
  exact (serve_finish settings sha256 platformText t id owner ss_failed eq_refl).
Qed.

(** *** Verified bytes *)

Definition hasChecksum (checksum : string) (content : string) : Prop := sha256 content = checksum.

(** What is known when the bytes are handed over. *)
Definition ready (t : nat) (id owner : string) (session : ResumableSession)
    (checksum : option string) (w : UploadWorld) : Prop :=
  found id owner session w /\
  (sessionChunk session <> None ->
   exists c, checksum = Some c /\ verified t id (hasChecksum c) w).
Lemma ready_holds t id owner session checksum : holdsFor t (ready t id owner session checksum).
Proof.
  apply holds_and; [apply found_holds|]. apply holds_impl, holds_exists. intros c.
  apply holds_and; [apply holds_pure|apply verified_holds].
Qed.

Lemma keeps_compute t id owner session :
  keeps t (found id owner session) (computeFileSha256 sha256 (stagingPath id))
    (learns (found id owner session) (fun c => verified t id (hasChecksum c))).
Proof.
  unfold computeFileSha256.
  apply (serve_bind _ _ t _ _ _ (fun content w => found id owner session w /\
    verified t id (hasChecksum (sha256 content)) w)).
  - apply serve_settle. eapply keeps_post.
    + apply (serve_ask settings sha256 t _ (readStaging (stagingPath id))
        (fun r => match r with
                  | Ok (Ok content) => fun w => found id owner session w /\
                      verified t id (hasChecksum (sha256 content)) w
                  | _ => found id owner session
                  end)).
      * done.
      * intros [content|e]; [|apply found_holds].
        apply holds_and; [apply found_holds|apply verified_holds].
      * intros [content|e] w w' _ _ Hw [-> Hc]; [|done]. split; [done|].
        intros s _ _ _ _. exists content. split; [|done]. unfold stagedAt.
        by rewrite (Hc content eq_refl).
    + by intros [[content|e]|e] w.
  - intros content. by apply serve_ret.
Qed.

(** The checksum a session with recorded chunks is verified against. *)
Definition checksumFor (session : ResumableSession) (checksum : option string) : Prop :=
  sessionChunk session <> None -> exists c, checksum = Some c /\ c <> "".

Lemma toLowerCase_length s : String.length (toLowerCase s) = String.length s.
Proof.
  unfold toLowerCase, mapLetters. induction s as [|c s IH]; [done|]. cbn. by rewrite <- IH.
Qed.

Lemma resolve_checksum body session checksum :
  resolveExpectedChecksum body session = Ok checksum -> checksumFor session checksum.
Proof.
  unfold resolveExpectedChecksum, checksumFor, sessionChunk. case_bool_decide as Hp.
  { intros _ Hc. by rewrite bool_decide_eq_false_2 in Hc by lia. }
  destruct (completeSchema body) as [c|] eqn:E; [|done]. intros [= <-] _.
  eexists. split; [done|]. intros Hn. pose proof (toLowerCase_length c) as Hl. rewrite Hn in Hl.
  unfold completeSchema in E. destruct (jsonField _ _) as [[]|]; try done.
  destruct (isChecksum _) eqn:Ec; [|done]. injection E as <-. unfold isChecksum in Ec.
  apply andb_true_iff in Ec as [Ec _]. apply bool_decide_eq_true in Ec. by rewrite Ec in Hl.
Qed.

Lemma keeps_verify t id owner session checksum :
  checksumFor session checksum ->
  keeps t (found id owner session) (verifyUploadedFile platformText sha256 session checksum)
    (fun r => match r with
              | Ok None => ready t id owner session checksum
              | _ => fun _ => True
              end).
Proof.
  intros Hcs. unfold verifyUploadedFile. destruct (toVerify checksum) as [c|] eqn:Ev.
  2:{ apply serve_ret. intros w Hw. split; [done|]. intros Hc. destruct (Hcs Hc) as (c & -> & Hn).
      exfalso. cbn in Ev. by destruct c. }
  assert (Ec : checksum = Some c) by (destruct checksum as [[|]|]; cbn in Ev; congruence).
  apply keeps_found. intros Hf. rewrite (fa_path _ _ _ Hf).
  apply (serve_bind _ _ t _ _ _ (learns (found id owner session) (fun c => verified t id (hasChecksum c)))).
  { apply keeps_outcome. apply keeps_compute. }
  intros [actual|e]; cbn [learns].
  - case_bool_decide as Ea.
    + apply serve_ret. intros w [Hw Hv]. split; [done|]. intros _. subst actual. eauto.
    + apply (serve_bind _ _ t _ _ _ (fun _ _ => True)); [|intros ?; by apply serve_ret].
      apply (serve_pre _ _ t (found id owner session)); [|by intros w [H _]].
      eapply keeps_post; [rewrite <- (fa_path _ _ _ Hf); apply keeps_fail|by intros [y|e] w].
  - apply (serve_bind _ _ t _ _ _ (fun _ => found id owner session)); [|intros ?; by apply serve_ret].
    eapply keeps_post; [apply keeps_unreadable; apply found_holds|by intros [y|err] w].
Qed.

(** *** Handing the file over *)

Lemma complete_has_all session chunk index :
  uploadIsComplete session = true -> sessionChunk session = Some chunk -> 0 < chunk ->
  0 <= rs_totalSizeBytes session ->
  0 <= index < getExpectedUploadChunkCount (rs_totalSizeBytes session) chunk ->
  chunkAt (rs_totalSizeBytes session) chunk index ∈ rs_completedChunks session.
Proof.
  unfold uploadIsComplete, sessionChunk. intros Hc Hs Hpos Htot Hi.
  case_bool_decide as Hp; [|done]. rewrite Hs, (bool_decide_eq_false_2 (_ < 2)) in Hc by lia.
  apply andb_true_iff in Hc as [_ Hc]. cbn in Hc. apply complete_iff in Hc as ->; [|done|done].
  apply list_elem_of_fmap_2, elem_of_seqZ. lia.
Qed.

Lemma commit_allowed t id owner actor session checksum expected w :
  uploadIsComplete session = true -> ready t id owner session checksum w ->
  commitAllowed sha256 t w (commitRequest session actor checksum expected).
Proof.
  intros Hcomp [[Hf [_ Hk]] Hv] s chunk Hs Hst Hco Hch. cbn in *.
  rewrite (fa_id _ _ _ Hf) in *. destruct (Hk s Hs) as [_ Etot Ech Hsub].
  rewrite Hch in Ech. assert (Ht : terminal s = false) by (unfold terminal; by rewrite Hst).
  split_and!; [apply (fa_path _ _ _ Hf)|done| |].
  - intros index Hi. apply Hsub; [done|]. rewrite Etot in *.
    apply complete_has_all; [done|done|by apply (fa_chunk _ _ _ Hf)|apply (fa_total _ _ _ Hf)|done].
  - destruct Hv as (c & -> & Hv); [by rewrite <- Ech|].
    destruct (Hv s Hs Hst) as (content & Hcont & Hsum); [by rewrite Hch|done|].
    exists content. rewrite (fa_path _ _ _ Hf). by rewrite <- Hsum.
Qed.

Lemma keeps_commitCall t (A B : Known) session actor checksum expected :
  (forall w, A w -> B w) -> holdsFor t B ->
  (forall w, A w -> commitAllowed sha256 t w (commitRequest session actor checksum expected)) ->
  keeps t A (commitResumableUpload session actor checksum expected) (fun _ => B).
Proof.
  intros HAB HB Ha. unfold commitResumableUpload. apply serve_settle.
  eapply keeps_post.
  - apply (serve_ask settings sha256 t A
      (commitUpload (commitRequest session actor checksum expected)) (fun _ => B));
      [by intros w _ Hw; apply Ha|done|].
    intros a w w' _ _ Hw Ho. cbn in Ho. subst. auto.
  - by intros [[file|e]|e] w.
Qed.

Lemma keeps_commitError t id owner session e :
  keeps t (found id owner session) (commitErrorResponse platformText session e) (fun _ _ => True).
Proof.
  assert (Hamb : keeps t (found id owner session) (ambiguousCommitResponse platformText session e)
    (fun _ _ => True)).
  { eapply keeps_post; [apply keeps_ambiguous; apply found_holds|done]. }
  assert (Hret : forall r : Reply, keeps t (found id owner session) (mret r) (fun _ _ => True)).
  { intros r. by apply serve_ret. }
  assert (Hlater : forall e, keeps t (found id owner session) (retryLaterResponse platformText session e)
    (fun _ _ => True)).
  { intros e'. eapply keeps_post; [apply keeps_retryLater; apply found_holds|done]. }
  assert (Hfail : forall r : Reply, keeps t (found id owner session)
    (_ ← failAndCleanupResumableSession platformText (rs_id session) (rs_ownerUserId session)
           (rs_tmpPath session); mret r) (fun _ _ => True)).
  { intros r. apply (serve_bind _ _ t _ _ _ (fun _ _ => True)); [|intros ?; by apply serve_ret].
    eapply keeps_post; [apply keeps_fail|by intros [y|err] w]. }
  destruct e as [[]| | | | |[]| | |]; cbn [commitErrorResponse]; auto. by destruct (bool_decide _).
Qed.

Lemma keeps_commitFile t id owner actor session checksum expected :
  uploadIsComplete session = true ->
  keeps t (ready t id owner session checksum)
    (commitUploadedFile platformText session actor checksum expected) (fun _ _ => True).
Proof.
  intros Hcomp. apply (serve_catch _ _ t _ _ _ (fun _ => found id owner session)).
  - apply (serve_bind _ _ t _ _ _ (fun _ => found id owner session)); [|intros ?; by apply serve_ret].
    eapply keeps_post; [apply (keeps_commitCall t _ (found id owner session))|by intros [y|err] w].
    + by intros w [H _].
    + apply found_holds.
    + intros w Hw. by eapply commit_allowed.
  - intros e. apply keeps_commitError.
Qed.

Lemma keeps_replay t owner id body :
  keeps t (fun _ => True) (replayCompletedUpload body owner id) (fun _ _ => True).
Proof.
  unfold replayCompletedUpload.
  eapply keeps_then; [apply keeps_findCompleted; eauto with holds|done|].
  intros [session|]; cbn [foundOne].
  - destruct (resolveExpectedChecksum _ _) as [checksum|r]; [|by apply serve_ret].
    destruct (negb _); [by apply serve_ret|].
    apply (serve_bind _ _ t _ _ _ (fun _ _ => True)).
    2:{ intros file. eapply keeps_post; [apply keeps_attach; eauto with holds|done]. }
    eapply keeps_post; [apply (keeps_commitCall t _ (fun _ => True))|by intros [y|err] w];
      [done|eauto with holds|].
    intros w [_ [[Hf _] [_ Hk]]] s chunk Hs Hst. cbn in Hs.
    rewrite (fa_id _ _ _ Hf) in Hs. by rewrite (Hk s Hs) in Hst.
  - apply (serve_bind _ _ t _ _ _ (fun _ _ => True)).
    + apply (serve_pre _ _ t (fun _ => True)); [|done].
      eapply keeps_post; [apply (keeps_onPrisma settings sha256 t _ _ (fun _ _ => True));
        [eauto with holds..|]|by intros [y|e] w].
      intros w cn o db' _ _ H. apply read_ok in H as [_ ->]. by split; [apply plainTo_same|].
    + intros current. case_bool_decide; [|by apply serve_ret].
      eapply keeps_post; [apply keeps_attach; eauto with holds|done].
Qed.

Lemma keeps_completeUpload t owner id body :
  keeps t (fun _ => True) (completeResumableUpload platformText sha256 body owner id)
    (fun _ _ => True).
Proof.
  unfold completeResumableUpload.
  eapply keeps_then; [apply keeps_findActive; eauto with holds|done|].
  intros [session|]; cbn [foundOne].
  2:{ eapply serve_pre; [apply keeps_replay|done]. }
  destruct (negb (uploadIsComplete session)) eqn:Hcomp; [by apply serve_ret|].
  apply negb_false_iff in Hcomp.
  destruct (resolveExpectedChecksum body session) as [checksum|r] eqn:Ec; [|by apply serve_ret].
  apply resolve_checksum in Ec.
  apply (serve_pre _ _ t (found id owner session)); [|by intros w [_ [H _]]].
  apply keeps_found. intros Hf. rewrite (fa_id _ _ _ Hf).
  apply (serve_bind _ _ t _ _ _ (fun _ => found id owner session)).
  { apply keeps_outcome. apply keeps_begin. }
  intros [u|e].
  2:{ apply (serve_pre _ _ t (fun _ => True)); [|done]. apply keeps_attach. eauto with holds. }
  unfold commitVerified.
  apply (serve_bind _ _ t _ _ _ (fun r => match r with
    | None => ready t id owner session checksum | Some _ => fun _ => True end)).
  { eapply keeps_post; [by apply keeps_verify|by intros [[r|]|e] w]. }
  intros [r|]; [by apply serve_ret|].
  apply (serve_bind _ _ t _ _ _ (fun _ _ => True)).
  { eapply keeps_post; [by apply keeps_commitFile|by intros [y|e] w]. }
  intros r. eapply keeps_post; [apply keeps_attach; eauto with holds|done].
Qed.

Lemma keeps_completeRoute t owner id body :
  keeps t (fun _ => True) (completeSession platformText sha256 owner id body) (fun _ _ => True).
Proof.
  unfold completeSession. apply keeps_seq; [called protocolReady|done|intros _].
  apply keeps_completeUpload.
Qed.

(** ** The clean-up *)

Lemma keeps_plainTx {X : Set} t A (tx : Conditions -> Tx X) :
  holdsFor t A -> plainTx A tx (fun _ _ => True) -> keeps t A (onPrisma tx) (fun _ => A).
Proof.
  intros HA Htx. eapply keeps_post;
    [apply (keeps_onPrisma settings sha256 t A tx (fun _ _ => True)); [done|eauto with holds|done]|].
  intros [y|e] w; cbn; [by intros [? ?]|done].
Qed.

Lemma keeps_forSessions {X} t (A : Known) (l : list X) work :
  (forall x, x ∈ l -> keeps t A (work x) (fun _ => A)) ->
  keeps t A (forSessions l work) (fun _ => A).
Proof.
  induction l as [|x l IH]; intros Hw; cbn [forSessions]; [by apply serve_ret|].
  apply keeps_seq; [apply Hw; left|done|]. intros warnings.
  apply keeps_seq; [apply IH; intros y Hy; apply Hw; by right|done|]. intros more. by apply serve_ret.
Qed.

Lemma keeps_cleanupFailure t A id e now :
  holdsFor t A -> keeps t A (recordSessionCleanupFailure platformText id e now) (fun _ => A).
Proof.
  intros HA. unfold recordSessionCleanupFailure.
  apply keeps_seq; [|done|intros ?; by apply serve_ret].
  apply keeps_update; [done|]. intros. apply plain_attempt.
Qed.

(** Listed sessions are, for good, what they were listed for, and their paths are
    their own. *)
Definition listed (P : UploadSession -> Prop) (rows : list (string * string)) (w : UploadWorld) : Prop :=
  Forall (fun e => e.2 = stagingPath e.1) rows /\ forall e, e ∈ rows -> known P e.1 w.

Lemma listed_holds t P rows :
  (forall s s', moves s s' -> P s -> P s') -> holdsFor t (listed P rows).
Proof.
  intros HP. apply holds_and; [apply holds_pure|]. apply holds_all. intros e. apply holds_impl.
  by apply known_holds.
Qed.

Lemma plain_listed A p P (f : list (string * UploadSession) -> list (string * UploadSession)) :
  (forall s, p s = true -> P s) -> (forall l, f l ⊆ l) ->
  plainTx A (fun _ => read (fun db => idsAndPaths (f (sessionRows p db)))) (listed P).
Proof.
  intros HP Hf w cn rows db' Hi _ H. apply read_ok in H as [-> ->].
  split; [by apply plainTo_same|].
  assert (Hi' : uploadInv settings (set_db (uw_db w) w)) by (apply plain_inv; [by apply plainTo_same|done]).
  pose proof (known_rows settings p P _ (f (sessionRows p (uw_db w))) Hi' (Hf _) HP) as Hk.
  rewrite Forall_forall in Hk. split.
  - apply Forall_fmap, Forall_forall. intros e He. by apply Hk.
  - intros e (e' & -> & He)%list_elem_of_fmap. by apply Hk.
Qed.

Lemma take_sub {X} n (l : list X) : take n l ⊆ l.
Proof. intros x Hx. rewrite <- (take_drop n l). apply elem_of_app. by left. Qed.
Lemma sorted_sub {X} (R : X -> X -> Prop) `{forall x y, Decision (R x y)} n (l : list X) :
  take n (merge_sort R l) ⊆ l.
Proof. intros x Hx%take_sub. by rewrite merge_sort_Permutation in Hx. Qed.

Lemma keeps_expire t now :
  keeps t (fun _ => True) (expireStaleSessions now) (fun _ _ => True).
Proof.
  unfold expireStaleSessions.
  apply keeps_seq; [apply keeps_plainTx; [eauto with holds|]|done|].
  { intros w cn o db' _ _ H. apply read_ok in H as [_ ->]. by split; [apply plainTo_same|]. }
  intros sessions. apply serves_forEach; [|done]. intros [id path] _. cbn.
  eapply keeps_post; [apply (keeps_underLock settings sha256 t (fun _ => True) id _ (fun _ _ => True))|].
  - eauto with holds.
  - eauto with holds.
  - intros w cn u db' (Hok & _) _ H. split; [|done]. unfold expireTx in H. tx_inv H.
    apply updateSession_ok in Htx as [[-> _]|(_ & s & Hs & Hp & ->)]; [by apply plainTo_same|].
    apply (plainTo_put _ id s); [done|]. apply plain_finished; [done|].
    apply andb_true_iff in Hp as [Hp _]. unfold terminal. by destruct (se_status s).
  - by intros [y|e] w.
Qed.

Lemma keeps_recoverStale t now :
  keeps t (fun _ => True) (recoverStaleCommittingSessions platformText now) (fun _ _ => True).
Proof.
  unfold recoverStaleCommittingSessions.
  apply keeps_seq; [apply keeps_plainTx; [eauto with holds|]|done|].
  { intros w cn o db' _ _ H. apply read_ok in H as [_ ->]. by split; [apply plainTo_same|]. }
  intros sessions. apply keeps_forSessions. intros [[id path] strategy] _. unfold recoverStaleCommit.
  apply (serve_catch _ _ t _ _ _ (fun _ _ => True)).
  2:{ intros e. apply keeps_seq; [|done|intros ?; by apply serve_ret].
      apply keeps_ignoring, keeps_cleanupFailure. eauto with holds. }
  apply keeps_seq; [destruct (bool_decide _); [by apply serve_throw|by apply serve_ret]|done|intros _].
  apply keeps_seq; [apply keeps_unless|done|intros _].
  apply keeps_seq; [|done|intros present].
  { apply (serve_catch _ _ t _ _ _ (fun _ _ => True)).
    - apply keeps_seq; [called (accessStaging path)|done|intros ?; by apply serve_ret].
    - intros e. destruct e as [| [c|] | | | | | | |]; try by apply serve_throw.
      repeat match goal with |- keeps _ _ (match ?x with _ => _ end) _ => destruct x end;
        (by apply serve_ret) || by apply serve_throw. }
  apply keeps_seq; [apply keeps_unless|done|intros _].
  apply keeps_seq; [|done|intros ?; by apply serve_ret].
  apply keeps_update; [eauto with holds|]. intros w s _ _ _ Hp.
  eapply plain_trans; [apply plain_receiving|apply plain_attempt].
  unfold staleCommit in Hp. rewrite !andb_true_iff in Hp. destruct Hp as [[[[Hp _] _] _] _].
  by apply bool_decide_eq_true in Hp.
Qed.

Lemma keeps_deleteChunks t : keeps t (fun _ => True) deleteTerminalChunks (fun _ _ => True).
Proof.
  apply keeps_plainTx; [eauto with holds|]. intros w cn u db' _ _ H. split; [|done].
  unfold deleteTerminalChunksTx in H. tx_inv H. apply plainTo_map. intros id s _.
  destruct (terminal s) eqn:Et; [|apply plainSession_refl].
  assert (Et' : terminal (withoutChunks s) = true) by exact Et.
  constructor; try done.
  - constructor; try done. by rewrite Et'.
  - intros Ha. by left.
  - intros [H1 H2 H3 H4 H5 H6 H7]. constructor; try done.
    unfold chunksOk in *. change (chunkedBy (withoutChunks s)) with (chunkedBy s).
    destruct (chunkedBy s); [|done]. split_and!; [apply H7|constructor..|by rewrite Et'].
Qed.

Lemma keeps_releaseStaging t now :
  keeps t (fun _ => True) (releaseTerminalStaging platformText now) (fun _ _ => True).
Proof.
  unfold releaseTerminalStaging.
  eapply keeps_then; [apply (keeps_onPrisma settings sha256 t (fun _ => True) _ (listed isTerminal))|done|].
  - eauto with holds.
  - intros rows. apply listed_holds, moves_terminal.
  - apply (plain_listed _ (fun s => terminal s && unreleased s) isTerminal
      (fun l => take CLEANUP_BATCH_SIZE (merge_sort cleanupOrder l))).
    + intros s Hs. by apply andb_true_iff in Hs as [Hs _].
    + intros l. apply sorted_sub.
  - intros rows. eapply keeps_post; [eapply serve_pre; [|intros w [_ H]; exact H]|done].
    eapply serve_pre; [apply (keeps_assume _ _ t (Forall (fun e => e.2 = stagingPath e.1) rows)
      (listed isTerminal rows))|intros w H; split; [apply H|exact H]].
    intros Hpaths. apply keeps_forSessions. intros [id path] Hin.
    rewrite Forall_forall in Hpaths. specialize (Hpaths _ Hin). cbn in Hpaths. subst path.
    assert (HL : holdsFor t (listed isTerminal rows)) by apply listed_holds, moves_terminal.
    unfold releaseSession. apply (serve_catch _ _ t _ _ _ (fun _ => listed isTerminal rows)).
    2:{ intros e. apply keeps_seq; [|done|intros ?; by apply serve_ret].
        by apply keeps_ignoring, keeps_cleanupFailure. }
    apply keeps_seq; [apply keeps_unless|done|intros _].
    apply keeps_seq; [apply keeps_settled|done|intros _].
    { refine (keeps_files _ _ t _ (removeStaging (stagingPath id)) I _ _ _); [|done|by split].
      intros w _ [_ H]. exists id. split; [done|]. by apply (H (id, stagingPath id)). }
    apply keeps_seq; [by apply keeps_pathIsAbsent|done|intros absent].
    apply keeps_seq; [apply keeps_unless|done|intros _].
    apply keeps_seq; [|done|intros ?; by apply serve_ret].
    apply keeps_update; [done|]. intros w s [_ H] Hs _ _. apply plain_released.
    destruct (H (id, stagingPath id) Hin) as [_ Ht]. exact (Ht s Hs).
Qed.

Lemma keeps_deleteRetained t now :
  keeps t (fun _ => True) (deleteRetainedTerminalSessions platformText now) (fun _ _ => True).
Proof.
  unfold deleteRetainedTerminalSessions.
  eapply keeps_then; [apply (keeps_onPrisma settings sha256 t (fun _ => True) _ (listed isTerminal))|done|].
  - eauto with holds.
  - intros rows. apply listed_holds, moves_terminal.
  - apply (plain_listed _ (retained (now - UPLOAD_TERMINAL_RETENTION_MS)) isTerminal
      (fun l => take CLEANUP_BATCH_SIZE (merge_sort terminalOrder l))).
    + intros s Hs. unfold retained in Hs. rewrite !andb_true_iff in Hs. apply Hs.
    + intros l. apply sorted_sub.
  - intros rows. destruct rows as [|row rows]; [by apply serve_ret|]. set (l := row :: rows).
    assert (HL : holdsFor t (listed isTerminal l)) by apply listed_holds, moves_terminal.
    apply (serve_pre _ _ t (listed isTerminal l)); [|by intros w [_ H]].
    apply (keeps_post _ _ t _ _ (fun _ => listed isTerminal l)); [|done].
    apply (serve_catch _ _ t _ _ _ (fun _ => listed isTerminal l)).
    + apply keeps_seq; [|done|intros ?; by apply serve_ret]. apply keeps_plainTx; [done|].
      intros w cn u db' _ [_ Hl] H. split; [|done]. unfold deleteTerminalRows in H. tx_inv H.
      intros id. cbn. destruct (db_sessions (uw_db w) !! id) as [s|] eqn:E.
      * destruct (decide (id ∈ l.*1)) as [Hin|Hn].
        { rewrite map_lookup_filter_None_2; [|right; intros s' _; cbn; tauto].
          apply list_elem_of_fmap in Hin as (e & -> & He). destruct (Hl e He) as [_ Ht].
          exact (Ht s E). }
        rewrite (map_lookup_filter_Some_2 _ _ id s); [apply plainSession_refl|done|done].
      * rewrite map_lookup_filter_None_2; [done|by left].
    + intros e. apply keeps_seq; [apply keeps_ignoring|done|intros ?; by apply serve_ret].
      apply keeps_plainTx; [done|]. intros w cn u db' _ _ H. split; [|done].
      unfold updateAll in H. tx_inv H. intros id. cbn. rewrite map_lookup_imap.
      destruct (db_sessions (uw_db w) !! id) as [s|] eqn:E; cbn; [|done].
      case_bool_decide; [apply plain_attempt|apply plainSession_refl].
Qed.

Lemma keeps_lifecycle t now :
  keeps t (fun _ => True) (cleanupUploadSessionLifecycle platformText now) (fun _ _ => True).
Proof.
  unfold cleanupUploadSessionLifecycle.
  apply keeps_seq; [apply keeps_recoverStale|done|intros stale].
  apply keeps_seq; [apply keeps_expire|done|intros _].
  apply keeps_seq; [|done|intros chunks].
  { apply (serve_catch _ _ t _ _ _ (fun _ _ => True)); [|intros ?; by apply serve_ret].
    apply keeps_seq; [apply keeps_deleteChunks|done|intros ?; by apply serve_ret]. }
  apply keeps_seq; [apply keeps_releaseStaging|done|intros staging].
  apply keeps_seq; [apply keeps_deleteRetained|done|intros rows]. by apply serve_ret.
Qed.
End Serving.
