(* ===== verification/UploadPromises.v ===== *)
(** * What a server of uploads promises

    Any number of requests and clean-ups run at once, each at any of its effects;
    any of them may die, and the journal works in between. The theorems hold of
    every system that can be reached so. *)

From S2P Require Import Prelude ChunkProtocol Database MutationMetadata UploadAdmission Async Requests StorageLayout UploadIo UploadSessions UploadRoutes StagingCleanup UploadInvariant UploadRules UploadFollows UploadWrites UploadServing.

Open Scope Z_scope.

(** ** The server *)

Inductive UploadRequest :=
| toCreate (owner : string) (body : CreateBody)
| toRead (owner id : string)
| toWrite (owner id : string) (request : ChunkRequest)
| toCancel (owner id : string)
| toComplete (owner id : string) (body : Json)
| toCleanUp (now : Z).

(** A validated size is a natural number that is safe. *)
Definition requestOk (r : UploadRequest) : Prop :=
  match r with toCreate _ body => 0 <= bo_totalSizeBytes body <= 2 ^ 53 - 1 | _ => True end.

Section Promises.
Context (settings : LockedSettings) (sha256 : string -> string).
Context (platformText : UploadFailure -> string).
#[local] Notation keeps := (keeps settings sha256).

Definition handle (r : UploadRequest) : Program unit :=
  match r with
  | toCreate owner body => _ ← createSession platformText owner body; mret tt
  | toRead owner id => _ ← readSession owner id; mret tt
  | toWrite owner id request => _ ← writeChunk owner id request; mret tt
  | toCancel owner id => _ ← cancelSession platformText owner id; mret tt
  | toComplete owner id body => _ ← completeSession platformText sha256 owner id body; mret tt
  | toCleanUp now => _ ← cleanupUploadSessionLifecycle platformText now; mret tt
  end.

Definition ofRequest (p : Proc UploadFailure Answer) : Prop :=
  exists r, requestOk r /\ p = start (handle r).

Definition UploadSystem : Type := System UploadEffect UploadFailure Answer UploadWorld.

Definition serves_on (s s' : UploadSystem) : Prop :=
  system_step (performs (Some settings)) elsewhere programEnded ofRequest s s'.

(** A server that starts: well-formed rows within the limits, no request, no lock. *)
Definition starting (s : UploadSystem) : Prop :=
  sy_programs s = ∅ /\ uploadInv settings (sy_world s) /\
  uw_sessionLocks (sy_world s) = ∅ /\ uw_committer (sy_world s) = ∅.

Lemma keeps_handle t r : requestOk r -> keeps t (fun _ => True) (handle r) (fun _ _ => True).
Proof.
  intros Hr.
  assert (Hthen : forall X (m : Program X), keeps t (fun _ => True) m (fun _ _ => True) ->
    keeps t (fun _ => True) (_ ← m; mret tt) (fun _ _ => True)).
  { intros X m Hm. apply keeps_seq; [exact Hm|done|]. intros ?. by apply serve_ret. }
  destruct r; cbn [handle]; apply Hthen.
  - by apply keeps_createRoute.
  - apply keeps_readRoute.
  - apply keeps_writeRoute.
  - apply keeps_cancelRoute.
  - apply keeps_completeRoute.
  - apply keeps_lifecycle.
Qed.

#[local] Notation Sound := (sound (performs (Some settings)) elsewhere (uploadInv settings)
  (Allowed settings sha256) (fun t => changes (Some t)) fresh).

Lemma server_sound s s' : starting s -> rtc serves_on s s' -> Sound s'.
Proof.
  intros (Hps & Hi & Hl & Hc) Hr. revert Hr. unfold serves_on. apply sound_steps.
  - intros t w e a w' Hi' Ha Hp. destruct (allowed_changes settings sha256 _ _ _ _ _ Hi' Ha Hp). by split.
  - intros t w Hi'. destruct (ended_changes settings sha256 t w Hi') as (? & ? & ?). by split_and!.
  - intros w w' Hi' He. by apply (elsewhere_changes settings w w').
  - intros t. eapply holds_stable, fresh_holds.
  - intros p t (r & Hr & ->). apply (serve_pre settings sha256 t (fun _ => True) (fresh t) (handle r)
      (fun _ _ => True)); [by apply keeps_handle|done|]. by intros [[]|e].
  - split_and!; [done| |].
    + intros t p Hp. by rewrite Hps, lookup_empty in Hp.
    + intros t _. split; intros id; [rewrite Hl; set_solver|by rewrite Hc, lookup_empty].
Qed.

(** What one step of a reachable server changes. *)
Lemma server_changes s s' s'' :
  starting s -> rtc serves_on s s' -> serves_on s' s'' ->
  exists b, changes b (sy_world s') (sy_world s'').
Proof.
  intros Hs Hr Hstep. pose proof (server_sound s s' Hs Hr) as Hsound.
  pose proof Hsound as (Hi & _ & _).
  destruct Hstep as [w ps t e k a w' Hp Hperf|w ps t p Hp Hprog|w ps t p Hp|w ps w' He]; cbn in *.
  - exists (Some t). apply (allowed_changes settings sha256 t w e a w' Hi); [|done].
    by apply (sound_allowed _ _ _ _ _ _ _ _ _ _ Hsound Hp).
  - exists None. by eapply changes_refl.
  - exists (Some t). by apply (ended_changes settings sha256 t w Hi).
  - exists None. by apply (elsewhere_changes settings w w' Hi).
Qed.

(** What a row becomes, as long as it is there. *)
Lemma server_moved s s' s'' id session :
  starting s -> rtc serves_on s s' -> rtc serves_on s' s'' ->
  sessionOf (sy_world s') id = Some session ->
  known (moves session) id (sy_world s'').
Proof.
  intros Hs Hr Hr' Hrow.
  assert (H : known (moves session) id (sy_world s')).
  { split; [|intros x Hx; by simplify_eq].
    destruct (server_sound s s' Hs Hr) as ((_ & _ & Hseen) & _). apply Hseen.
    by apply (elem_of_dom_2 _ _ _ Hrow). }
  clear Hrow. induction Hr' as [|s1 s2 s3 Hstep Hr' IH]; [done|].
  destruct (server_changes s s1 s2 Hs Hr Hstep) as [b Hc].
  apply IH; [by eapply rtc_r|]. revert H.
  assert (Hb : exists u, b <> Some u) by (destruct b as [u|]; [exists (S u); intros [=]; lia|by exists 0%nat]).
  destruct Hb as [u Hb].
  refine (known_holds u (moves session) id _ b _ _ Hb Hc).
  intros x x' Hx Hm. by eapply row_moves_trans.
Qed.

(** ** Promises *)

(** C21: rows stay well-formed, whatever is served at once. A session's
    staging path is its own, and the bytes it says it received never pass its
    size. A session of the chunked protocol records only whole chunks of its
    file, none twice, and until it is finished their sizes are the bytes it says
    it received; a session of the older protocol has no chunks recorded. A session
    has a date of its end exactly when it is finished, its staging is released
    only then, and it has a file only when it is completed. *)
Theorem sessions_stay_well_formed s s' :
  starting s -> rtc serves_on s s' -> rowsOk (uw_db (sy_world s')).
Proof. intros Hs Hr. by destruct (server_sound s s' Hs Hr) as ((Hok & _) & _). Qed.

(** C20: the sizes of all sessions whose staging is not released add up to
    no more than the limit of the instance, and those of any user to no more than
    the limit per user, however many reservations are made at once. *)
Theorem staging_never_exceeds_its_limits s s' :
  starting s -> rtc serves_on s s' ->
  bytesOf unreleased (uw_db (sy_world s')) <= lo_resumableMaxReservedBytesInstance settings /\
  forall owner, bytesOf (fun session => unreleased session && ownedBy owner session)
                  (uw_db (sy_world s')) <= lo_resumableMaxReservedBytesPerUser settings.
Proof. intros Hs Hr. by destruct (server_sound s s' Hs Hr) as ((_ & [H1 H2] & _) & _). Qed.

(** C2: when a request hands a session's file over to be committed, and
    the session's commit is still the one this request began, then every chunk of
    the file was recorded, and the staged bytes, at that moment, have the
    checksum the request hands over. *)
Theorem commit_takes_verified_bytes s s' t request k session chunk :
  starting s -> rtc serves_on s s' ->
  sy_programs s' !! t = Some (await (commitUpload request) k) ->
  sessionOf (sy_world s') (cr_sessionId request) = Some session ->
  se_status session = ss_committing ->
  uw_committer (sy_world s') !! cr_sessionId request = Some t ->
  chunkedBy session = Some chunk ->
  (forall index, 0 <= index < getExpectedUploadChunkCount (se_totalSizeBytes session) chunk ->
     chunkAt (se_totalSizeBytes session) chunk index ∈ se_chunks session) /\
  cr_totalSizeBytes request = se_totalSizeBytes session /\
  exists content, stagedAt (sy_world s') (stagingPath (cr_sessionId request)) = Some content /\
    cr_tmpPath request = stagingPath (cr_sessionId request) /\
    cr_contentChecksum request = Some (sha256 content).
Proof.
  intros Hs Hr Hp Hrow Hst Hco Hch.
  pose proof (sound_allowed _ _ _ _ _ _ _ _ _ _ (server_sound s s' Hs Hr) Hp) as Ha.
  destruct (Ha session chunk Hrow Hst Hco Hch) as (Epath & Etot & Hall & content & Hc & Hsum).
  split_and!; [done|done|]. exists content. by rewrite <- Epath.
Qed.

(** C3: nothing changes the staged bytes of a session that is committing
    chunks: no late chunk, no clean-up, no other request, no step of the journal,
    and no dying server. *)
Theorem committing_bytes_are_frozen s s' s'' id session chunk :
  starting s -> rtc serves_on s s' -> serves_on s' s'' ->
  sessionOf (sy_world s') id = Some session -> se_status session = ss_committing ->
  chunkedBy session = Some chunk ->
  stagedAt (sy_world s'') (stagingPath id) = stagedAt (sy_world s') (stagingPath id).
Proof.
  intros Hs Hr Hstep Hrow Hst Hch. destruct (server_changes s s' s'' Hs Hr Hstep) as [b Hc].
  destruct (ch_staged _ _ _ Hc (stagingPath id)) as [E|Hw]; [done|].
  destruct (Hw id session Hrow eq_refl) as [Hn|Hn]; [done|by rewrite Hch in Hn].
Qed.

(** C22: a staging file is removed only when its session is finished or its
    row is gone. *)
Theorem staging_is_removed_only_when_finished s s' t path k id session :
  starting s -> rtc serves_on s s' ->
  sy_programs s' !! t = Some (await (removeStaging path) k) ->
  sessionOf (sy_world s') id = Some session -> ud_tmpPath (se_upload session) = path ->
  terminal session = true.
Proof.
  intros Hs Hr Hp Hrow Hpath. pose proof (server_sound s s' Hs Hr) as Hsound.
  destruct (sound_allowed _ _ _ _ _ _ _ _ _ _ Hsound Hp) as (id' & E & _ & Hk).
  destruct Hsound as ((Hok & _) & _). rewrite (ro_path _ _ (Hok id session Hrow)) in Hpath.
  rewrite <- Hpath in E. apply stagingPath_inj in E as <-. by apply Hk.
Qed.

(** C23: a session that is finished stays finished, and completed when it
    was completed, whatever is served afterwards. It keeps its owner, its size and
    its chunking, released staging stays released, and its id is never given to
    another session. *)
Theorem finished_sessions_never_reopen s s' s'' id session session' :
  starting s -> rtc serves_on s s' -> rtc serves_on s' s'' ->
  sessionOf (sy_world s') id = Some session -> terminal session = true ->
  sessionOf (sy_world s'') id = Some session' ->
  terminal session' = true /\
  (se_status session = ss_completed -> se_status session' = ss_completed) /\
  (se_stagingReleasedAt session <> None -> se_stagingReleasedAt session' <> None) /\
  se_ownerUserId session' = se_ownerUserId session /\
  se_totalSizeBytes session' = se_totalSizeBytes session /\
  chunkedBy session' = chunkedBy session.
Proof.
  intros Hs Hr Hr' Hrow Ht Hrow'.
  destruct (server_moved s s' s'' id session Hs Hr Hr' Hrow) as [_ Hm].
  destruct (Hm session' Hrow'). auto 10.
Qed.
End Promises.
