(* ===== verification/UploadExamples.v ===== *)
(** * An upload on a concrete server

    A server that answers, and the upload of a file of three bytes: it is
    created, written, and completed up to the call that commits it; another is
    cancelled. Each promise is checked at a system of these runs. *)

From S2P Require Import Prelude JsValues ChunkProtocol Database MutationMetadata MutationPrepare UploadAdmission Async Requests StorageLayout UploadIo UploadSessions UploadRoutes StagingCleanup UploadInvariant UploadPromises.

Open Scope Z_scope.

(** ** A server that answers *)

Definition exampleLimits : LockedSettings :=
  {| lo_maxUploadBytes := 1000; lo_resumableMaxReservedBytesPerUser := 5;
     lo_resumableMaxReservedBytesInstance := 8 |}.

Definition quiet : Conditions :=
  {| cn_locks := ∅; cn_now := 1000; cn_settings := Some exampleLimits;
     cn_space := Some {| sp_bavail := 900; sp_bsize := 4096; sp_blocks := 1000 |} |}.

Definition abcSum : string := "ba7816bf8f01cfea414140de5dae2223b00361a396177a9cb410ff61f20015ad".
Definition exampleSha256 (content : string) : string :=
  if bool_decide (content = "abc") then abcSum else "".
Definition noText (e : UploadFailure) : string := "failed".

Definition statement {A : Set} (tx : Conditions -> Tx A) (commit : DB -> UploadWorld)
    (w : UploadWorld) : Answered A * UploadWorld :=
  match tx quiet (uw_db w) with
  | Ok (a, db') => (Ok a, commit db')
  | Throw e => (Throw (StoreError e), w)
  end.

(** The ids the server draws. *)
Definition nextId (w : UploadWorld) : option string :=
  List.find (fun id => bool_decide (uw_drawn w !! id = None) && bool_decide (id ∉ uw_seen w))
    ["first"; "second"].

Definition wrote (path : string) (position : Z) (bytes : string) (w : UploadWorld) :
    Answered unit * UploadWorld :=
  match uw_files w !! path with
  | Some content =>
      (Ok tt, set_files (<[path := writeBytes content position bytes]> (uw_files w)) w)
  | None => (Throw (DiskError (Some "ENOENT")), w)
  end.

Definition respond (t : nat) (w : UploadWorld) (e : UploadEffect) :
    option (Answer e * UploadWorld) :=
  match e with
  | dateNow => Some (1000, w)
  | randomUUID => match nextId w with
                  | Some id => Some (id, set_drawn (<[id := t]> (uw_drawn w)) w)
                  | None => None
                  end
  | pause _ => Some (tt, w)
  | waitingPlace => Some (true, w)
  | uploadPolicy => Some (Ok 1000, w)
  | prisma tx | onClient tx => Some (statement tx (fun db => set_db db w) w)
  | exclusively sid tx =>
      if bool_decide (uw_sessionLocks w = ∅)
      then Some (statement tx (fun db => afterExclusive t sid db w) w) else None
  | lockSession sid =>
      Some (Ok tt, set_locks ({[(sid, t)]} ∪ uw_sessionLocks w) (uw_chunkLocks w) w)
  | lockChunk sid index =>
      if bool_decide (uw_chunkLocks w !! (sid, index) = None)
      then Some (Ok tt, set_locks (uw_sessionLocks w) (<[(sid, index) := t]> (uw_chunkLocks w)) w)
      else None
  | unlockClient => Some (Ok tt, freeLocks t w)
  | releaseClient destroy => Some (Ok tt, if destroy then freeLocks t w else w)
  | nextPiece => Some (Ok None, w)
  | wholeBody => Some (Throw RequestAborted, w)
  | createStaging path =>
      if bool_decide (uw_files w !! path = None)
      then Some (Ok tt, set_files (<[path := ""]> (uw_files w)) w)
      else Some (Throw (DiskError (Some "EEXIST")), w)
  | writeStaging path position bytes | rewriteStaging path position bytes =>
      Some (wrote path position bytes w)
  | openStaging _ _ => Some (Throw (DiskError (Some "EACCES")), w)
  | readStaging path =>
      Some (match uw_files w !! path with
            | Some content => Ok content
            | None => Throw (DiskError (Some "ENOENT"))
            end, w)
  | accessStaging path =>
      Some (if bool_decide (uw_files w !! path = None)
            then Throw (DiskError (Some "ENOENT")) else Ok tt, w)
  | removeStaging path => Some (Ok tt, set_files (delete path (uw_files w)) w)
  | commitUpload _ => Some (Ok JNull, w)
  | _ => Some (Ok tt, w)
  end.

Lemma statement_runs_here {A : Set} (tx : Conditions -> Tx A) commit w a w' :
  statement tx commit w = (a, w') -> statement_runs (Some exampleLimits) tx commit w a w'.
Proof.
  unfold statement. destruct (tx quiet (uw_db w)) as [[x db']|e] eqn:E; intros [= <- <-].
  - by apply (st_answered _ _ _ _ quiet).
  - by apply (st_refused _ _ _ _ quiet).
Qed.

Lemma nextId_new w id : nextId w = Some id -> uw_drawn w !! id = None /\ id ∉ uw_seen w.
Proof.
  intros [_ H]%List.find_some. apply andb_true_iff in H as [?%bool_decide_eq_true ?%bool_decide_eq_true].
  done.
Qed.

Lemma wrote_performs path position bytes w a w' :
  wrote path position bytes w = (a, w') ->
  (a = Ok tt /\ wroteAll path position bytes w w') \/ ((exists e, a = Throw e) /\ w' = w).
Proof.
  unfold wrote. destruct (uw_files w !! path) as [content|] eqn:E; intros [= <- <-].
  - left. split; [done|]. by exists content.
  - right. eauto.
Qed.

#[local] Arguments nextId : simpl never.
#[local] Arguments statement : simpl never.
#[local] Arguments wrote : simpl never.

Lemma respond_performs t w e a w' :
  respond t w e = Some (a, w') -> performs (Some exampleLimits) t w e a w'.
Proof.
  destruct e; cbn; intros H; repeat case_match; simplify_eq;
    repeat match goal with H : bool_decide _ = _ |- _ =>
      first [apply bool_decide_eq_true in H | apply bool_decide_eq_false in H] end;
    try (constructor; done).
  - match goal with H : nextId _ = Some _ |- _ => apply nextId_new in H as [??] end.
    by constructor.
  - by apply pf_prisma, statement_runs_here.
  - apply pf_exclusively; [intros u; set_solver|]. by apply statement_runs_here.
  - by apply pf_lockSession, cl_done.
  - by apply pf_lockChunk, cl_done.
  - by apply pf_onClient, statement_runs_here.
  - by apply pf_unlockClient, cl_done.
  - apply wrote_performs in H as [[-> H]|[[e ->] ->]]; [by constructor|].
    apply pf_writeStaging_failed. constructor.
  - apply wrote_performs in H as [[-> H]|[[e ->] ->]]; [by constructor|].
    apply pf_rewriteStaging_failed. constructor.
Qed.

(** ** Runs *)

(** The program [t] goes on until it ends or comes to an effect [last] holds of. *)
Fixpoint goes (fuel : nat) (last : UploadEffect -> bool) (t : nat) (w : UploadWorld)
    (p : Proc UploadFailure Answer) : UploadWorld * Proc UploadFailure Answer :=
  match fuel, p with
  | S fuel, await e k =>
      if last e then (w, p)
      else match respond t w e with
           | Some (a, w') => goes fuel last t w' (k a)
           | None => (w, p)
           end
  | _, _ => (w, p)
  end.

#[local] Notation system w ps := {| sy_world := w; sy_programs := ps |}.
#[local] Notation steps_on := (rtc (serves_on exampleLimits exampleSha256 noText)).
#[local] Notation handled := (handle exampleSha256 noText).

Lemma goes_serves fuel last t w p w' p' ps :
  goes fuel last t w p = (w', p') -> steps_on (system w (<[t := p]> ps)) (system w' (<[t := p']> ps)).
Proof.
  revert w p. induction fuel as [|fuel IH]; intros w p; cbn; [by intros [= -> ->]|].
  destruct p as [|e k|]; try by intros [= -> ->].
  destruct (last e); [by intros [= -> ->]|].
  destruct (respond t w e) as [[a w1]|] eqn:E; [|by intros [= -> ->]].
  intros H%IH. eapply rtc_l; [|exact H].
  rewrite <- (insert_insert_eq ps t (k a) (await e k)).
  eapply sys_goes; [apply lookup_insert_eq|by apply respond_performs].
Qed.

Definition fuel : nat := 200.
Definition until (last : UploadEffect -> bool) (r : UploadRequest) (w : UploadWorld) :=
  goes fuel last 1%nat w (start (handled r)).
Definition served (r : UploadRequest) (w : UploadWorld) : UploadWorld :=
  programEnded 1 (until (fun _ => false) r w).1.

Lemma until_reached last r w :
  requestOk r -> steps_on (system w ∅) (system (until last r w).1 {[1%nat := (until last r w).2]}).
Proof.
  intros Hr. unfold until. destruct (goes _ _ _ _ _) as [w' p'] eqn:E. cbn.
  eapply rtc_l; [eapply (sys_starts _ _ _ _ w ∅ 1%nat); [by rewrite lookup_empty|by exists r]|].
  by apply goes_serves with (ps := ∅) in E.
Qed.

Lemma served_reached r w : requestOk r -> steps_on (system w ∅) (system (served r w) ∅).
Proof.
  intros Hr. eapply rtc_r; [by apply until_reached|].
  rewrite <- (delete_singleton_eq 1%nat (until (fun _ => false) r w).2).
  unfold served. eapply sys_ends, lookup_singleton_eq.
Qed.

(** ** The upload of three bytes *)

Definition emptyWorld : UploadWorld :=
  {| uw_db := {| db_rows := ∅;
                 db_users := {["ann" := {| us_storageLimitBytes := None; us_usageKnown := true |}]};
                 db_sessions := ∅; db_trash := ∅; db_mutations := ∅; db_resources := [];
                 db_changes := []; db_nextSeq := 1 |};
     uw_files := ∅; uw_taken := ∅; uw_sessionLocks := ∅; uw_chunkLocks := ∅;
     uw_drawn := ∅; uw_seen := ∅; uw_committer := ∅ |}.

Definition aFile : CreateBody :=
  {| bo_folderId := None; bo_originalName := "a.txt"; bo_mimeType := "text/plain";
     bo_totalSizeBytes := 3; bo_conflictStrategy := "fail"; bo_expectedChecksum := None;
     bo_clientModifiedAt := None |}.
Definition itsChunk : ChunkRequest :=
  {| cq_contentRange := Some "bytes 0-2/3"; cq_contentLength := Some "3"; cq_body := ["ab"; "c"] |}.

Definition written : UploadWorld :=
  served (toWrite "ann" "first" itsChunk) (served (toCreate "ann" aFile) emptyWorld).

Definition isCommit (e : UploadEffect) : bool := match e with commitUpload _ => true | _ => false end.
Definition isRemoval (e : UploadEffect) : bool := match e with removeStaging _ => true | _ => false end.

Definition completion : UploadRequest :=
  toComplete "ann" "first" (JObject [("expectedChecksum", JString abcSum)]).
Definition committing := until isCommit completion written.
Definition cancelling := until isRemoval (toCancel "ann" "first") written.

Example written_bytes : uw_files written !! stagingPath "first" = Some "abc".
Proof. vm_compute. reflexivity. Qed.
Example committing_status :
  se_status <$> sessionOf committing.1 "first" = Some ss_committing.
Proof. vm_compute. reflexivity. Qed.

Lemma emptyWorld_starts : starting exampleLimits (system emptyWorld ∅).
Proof.
  split_and!; [done| |done|done]. split; [|split]; cbn [sy_world].
  - intros id s Hs. cbn in Hs. by rewrite lookup_empty in Hs.
  - split; [by vm_compute|]. intros owner. rewrite bytesOf_sum. cbn [emptyWorld uw_db db_sessions].
    rewrite map_to_list_empty. by vm_compute.
  - cbn. set_solver.
Qed.

Lemma written_reached : steps_on (system emptyWorld ∅) (system written ∅).
Proof.
  etrans; [apply (served_reached (toCreate "ann" aFile)); cbn; lia|].
  by apply served_reached.
Qed.

Lemma committing_reached :
  steps_on (system emptyWorld ∅) (system committing.1 {[1%nat := committing.2]}).
Proof. etrans; [apply written_reached|by apply until_reached]. Qed.

Lemma cancelling_reached :
  steps_on (system emptyWorld ∅) (system cancelling.1 {[1%nat := cancelling.2]}).
Proof. etrans; [apply written_reached|by apply until_reached]. Qed.

#[local] Opaque written committing cancelling.

(** The effect a program stands at. *)
Definition awaits (p : Proc UploadFailure Answer) : option UploadEffect :=
  match p with await e _ => Some e | _ => None end.
Lemma awaits_at p e : awaits p = Some e -> exists k, p = await e k.
Proof. destruct p as [|e' k|]; cbn; intros [= <-]. by exists k. Qed.

(** *** The promises of these runs *)

Lemma sessions_stay_well_formed_witness :
  se_status <$> sessionOf committing.1 "first" = Some ss_committing /\ rowsOk (uw_db committing.1).
Proof.
  split; [vm_compute; reflexivity|].
  exact (sessions_stay_well_formed exampleLimits exampleSha256 noText _ _
           emptyWorld_starts committing_reached).
Defined.

Lemma staging_never_exceeds_its_limits_witness :
  bytesOf unreleased (uw_db committing.1) = 3 /\
  bytesOf unreleased (uw_db committing.1) <= lo_resumableMaxReservedBytesInstance exampleLimits /\
  forall owner, bytesOf (fun session => unreleased session && ownedBy owner session)
                  (uw_db committing.1) <= lo_resumableMaxReservedBytesPerUser exampleLimits.
Proof.
  split; [vm_compute; reflexivity|].
  exact (staging_never_exceeds_its_limits exampleLimits exampleSha256 noText _ _
           emptyWorld_starts committing_reached).
Defined.

(** The session a run comes to, and the call its program stands at. *)
Definition rowThen (run : UploadWorld * Proc UploadFailure Answer) : UploadSession :=
  default (newSession {| ns_id := ""; ns_ownerUserId := ""; ns_folderId := None;
    ns_originalName := ""; ns_mimeType := ""; ns_totalSizeBytes := 0; ns_expectedChecksum := None;
    ns_protocolVersion := 0; ns_chunkSizeBytes := None; ns_tmpPath := "";
    ns_conflictStrategy := ""; ns_clientModifiedAt := None; ns_expiresAt := 0 |})
    (sessionOf run.1 "first").
Definition itsCommit : CommitRequest :=
  {| cr_sessionId := "first"; cr_actorUserId := "ann"; cr_tmpPath := stagingPath "first";
     cr_folderId := None; cr_originalName := "a.txt"; cr_mimeType := "text/plain";
     cr_totalSizeBytes := 3; cr_contentChecksum := Some abcSum; cr_conflictStrategy := "fail";
     cr_clientModifiedAt := None; cr_ifRevision := None; cr_ifFileId := None |}.

Lemma commit_takes_verified_bytes_witness :
  awaits committing.2 = Some (commitUpload itsCommit) /\
  exists content, stagedAt committing.1 (stagingPath "first") = Some content /\
    cr_contentChecksum itsCommit = Some (exampleSha256 content).
Proof.
  assert (H : awaits committing.2 = Some (commitUpload itsCommit)) by (vm_compute; reflexivity).
  split; [exact H|]. destruct (awaits_at _ _ H) as [k Hk].
  pose proof (commit_takes_verified_bytes exampleLimits exampleSha256 noText _ _ 1%nat itsCommit k
    (rowThen committing) DEFAULT_RESUMABLE_CHUNK_SIZE emptyWorld_starts committing_reached) as Hc.
  cbn [sy_programs sy_world] in Hc. rewrite lookup_singleton_eq, Hk in Hc.
  destruct Hc as (_ & _ & content & Hc & _ & Hs); [reflexivity|vm_compute; reflexivity..|].
  exists content. split; [exact Hc|exact Hs].
Defined.

(** The journal takes the file to where it goes. *)
Definition taken : UploadWorld :=
  set_staging (delete (stagingPath "first") (uw_files committing.1))
    (<[stagingPath "first" := "abc"]> (uw_taken committing.1)) committing.1.

Lemma committing_bytes_are_frozen_witness :
  uw_files taken !! stagingPath "first" = None /\
  stagedAt taken (stagingPath "first") = stagedAt committing.1 (stagingPath "first").
Proof.
  split; [vm_compute; reflexivity|].
  apply (committing_bytes_are_frozen exampleLimits exampleSha256 noText _ _
           (system taken {[1%nat := committing.2]}) "first" (rowThen committing)
           DEFAULT_RESUMABLE_CHUNK_SIZE emptyWorld_starts committing_reached);
    [|vm_compute; reflexivity..].
  apply sys_elsewhere. apply ew_taken. vm_compute. reflexivity.
Defined.

Lemma staging_is_removed_only_when_finished_witness :
  awaits cancelling.2 = Some (removeStaging (stagingPath "first")) /\
  terminal (rowThen cancelling) = true.
Proof.
  assert (H : awaits cancelling.2 = Some (removeStaging (stagingPath "first")))
    by (vm_compute; reflexivity).
  split; [exact H|]. destruct (awaits_at _ _ H) as [k Hk].
  apply (staging_is_removed_only_when_finished exampleLimits exampleSha256 noText _ _ 1%nat
           (stagingPath "first") k "first" _ emptyWorld_starts cancelling_reached);
    [|vm_compute; reflexivity..].
  cbn [sy_programs]. rewrite lookup_singleton_eq, Hk. reflexivity.
Defined.

(** A cancelled session, and a clean-up after it. *)
Definition cancelled : UploadWorld := served (toCancel "ann" "first") written.
Definition tidied : UploadWorld := served (toCleanUp 2000) cancelled.

Lemma cancelled_reached : steps_on (system emptyWorld ∅) (system cancelled ∅).
Proof. etrans; [apply written_reached|by apply served_reached]. Qed.

Lemma finished_sessions_never_reopen_witness :
  se_status <$> sessionOf cancelled "first" = Some ss_cancelled /\
  exists session', sessionOf tidied "first" = Some session' /\ terminal session' = true.
Proof.
  split; [vm_compute; reflexivity|]. exists (rowThen (tidied, stop None)).
  split; [vm_compute; reflexivity|].
  refine (proj1 (finished_sessions_never_reopen exampleLimits exampleSha256 noText _ _ _ "first"
           (rowThen (cancelled, stop None)) _ emptyWorld_starts cancelled_reached
           (served_reached (toCleanUp 2000) cancelled I) _ _ _)); vm_compute; reflexivity.
Defined.

(** *** A session put back while its mutation is still prepared *)

(** The journal linked the session, and what runs the mutation answered that it is
    in progress: the session receives bytes again, the mutation stays linked, and
    completing the session with it fails from then on. *)
Definition linkedDB : DB :=
  set_sessions (<["first" := linkSession (rowThen committing) (Some "m1") ss_committing None]>
    (db_sessions (uw_db committing.1))) (uw_db committing.1).
Definition restored : Answered unit * UploadWorld :=
  statement (restoreTx noText "first" "ann"
      (StoreError (StorageMutationConflictError STORAGE_MUTATION_IN_PROGRESS (Some "m1"))) 1000)
    (fun db => set_db db (set_db linkedDB committing.1)) (set_db linkedDB committing.1).

Example restored_session_keeps_its_mutation :
  (fun s => (se_status s, se_storageMutationId s)) <$> sessionOf restored.2 "first"
    = Some (ss_receiving, Some "m1").
Proof. vm_compute. reflexivity. Qed.

Example restored_session_cannot_be_completed :
  complete_upload_session "first" "ann" "f1" "2026-01-01T00:00:00.000Z" "m1" (uw_db restored.2)
    = Throw (StorageMutationIntentError "Upload session is not committing.").
Proof. vm_compute. reflexivity. Qed.
