(* ===== verification/Jobs.v ===== *)
(** * The queue of background jobs

    [packages/db/src/jobs.ts]: the rows of [BackgroundJob] with their events, the
    worker instances, and a definition per statement or transaction of each
    call. A transaction's first look at a row is a statement of its own; its
    writes are another, for the first of them locks the row until the commit.
    [createdAt], [updatedAt] and [timeoutAt], which is only ever cleared, are
    left out, as are the notifications. *)

From Stdlib Require String.
From Stdlib Require Import QArith Qround.
From S2P Require Import Prelude Database MutationPrepare.

Open Scope Z_scope.

(** ** Constants *)

Definition STAGING_CLEANUP_JOB_KIND : string := "staging.cleanup".
Definition TRASH_RETENTION_JOB_KIND : string := "trash.retention".
Definition UPDATE_CHECK_JOB_KIND : string := "update.check".
Definition RESTORE_RECONCILE_JOB_KIND : string := "restore.reconcile".
Definition MEDIA_DERIVATIVE_GENERATE_JOB_KIND : string := "media.derivative.generate".
Definition MEDIA_DERIVATIVE_CLEANUP_JOB_KIND : string := "media.derivative.cleanup".
Definition ZIP_ARCHIVE_GENERATE_JOB_KIND : string := "zip.archive.generate".
Definition ZIP_ARCHIVE_CLEANUP_JOB_KIND : string := "zip.archive.cleanup".

Definition ALL_SUPPORTED_JOB_KINDS : list string :=
  [STAGING_CLEANUP_JOB_KIND; TRASH_RETENTION_JOB_KIND; UPDATE_CHECK_JOB_KIND;
   RESTORE_RECONCILE_JOB_KIND; MEDIA_DERIVATIVE_GENERATE_JOB_KIND;
   MEDIA_DERIVATIVE_CLEANUP_JOB_KIND; ZIP_ARCHIVE_GENERATE_JOB_KIND;
   ZIP_ARCHIVE_CLEANUP_JOB_KIND].

Definition DEFAULT_BACKGROUND_JOB_QUEUE : string := "default".
Definition SMALL_ARCHIVE_PRIORITY : Z := 1.
Definition STAGING_CLEANUP_SCHEDULE_WINDOW_MS : Z := 15 * 60 * 1000.
Definition BACKGROUND_JOB_LEASE_MS : Z := 60000.
Definition BACKGROUND_JOB_RETRY_DELAY_MS : Z := 30000.
Definition BACKGROUND_JOB_RETRY_DELAY_MAX_MS : Z := 15 * 60 * 1000.
Definition BACKGROUND_JOB_SCHEDULE_RETRY_WINDOW_MS : Z := 5000.
Definition MAX_STORED_ERROR_LENGTH : nat := 2000.

Inductive BackgroundJobLane := general_lane | small_archive_lane | small_media_lane.

(** ** Rows *)

Inductive BackgroundJobStatus :=
| job_queued | job_running | job_succeeded | job_failed | job_dead | job_cancelled.
#[export] Instance BackgroundJobStatus_eq_dec : EqDecision BackgroundJobStatus.
Proof. solve_decision. Defined.

(** What a job is created with. *)
Record JobSpec := {
  js_kind : string; js_queueName : string; js_priority : Z; js_payloadJson : Json;
  js_dedupeKey : option string; js_maxAttempts : Z
}.

Record JobLease := {
  jl_lockedAt : option Z; jl_lockedBy : option string; jl_leaseExpiresAt : option Z
}.
Definition noLease : JobLease :=
  {| jl_lockedAt := None; jl_lockedBy := None; jl_leaseExpiresAt := None |}.

Record BackgroundJobRecord := {
  jb_spec : JobSpec; jb_status : BackgroundJobStatus; jb_progressJson : Json; jb_runAt : Z;
  jb_lease : JobLease; jb_startedAt : option Z; jb_completedAt : option Z;
  jb_cancelledAt : option Z; jb_cancelledByUserId : option string; jb_attemptCount : Z;
  jb_lastError : option string; jb_errorCode : option string
}.

Record BackgroundJobEvent := {
  je_jobId : string; je_type : string; je_message : option string; je_workerId : option string;
  je_metadataJson : list (string * Json)
}.

Record WorkerInstance := {
  wi_status : string; wi_currentJobId : option string; wi_startedAt : Z;
  wi_lastHeartbeatAt : Z; wi_stoppedAt : option Z
}.

(** The columns of archives and derivatives that a cancellation writes. *)
Record ArchiveRow := { za_status : string; za_error : option string }.
Record DerivativeRow := {
  dv_generationJobId : option string; dv_status : string; dv_storageKey : option string;
  dv_sizeBytes : option Z
}.

Record JobsDB := {
  jd_jobs : gmap string BackgroundJobRecord; jd_events : list BackgroundJobEvent;
  jd_workers : gmap string WorkerInstance;
  jd_archives : gmap string ArchiveRow; jd_derivatives : gmap string DerivativeRow
}.

Definition set_jobs (jobs : gmap string BackgroundJobRecord) (db : JobsDB) : JobsDB :=
  {| jd_jobs := jobs; jd_events := jd_events db; jd_workers := jd_workers db;
     jd_archives := jd_archives db; jd_derivatives := jd_derivatives db |}.
Definition addEvent (e : BackgroundJobEvent) (db : JobsDB) : JobsDB :=
  {| jd_jobs := jd_jobs db; jd_events := jd_events db ++ [e]; jd_workers := jd_workers db;
     jd_archives := jd_archives db; jd_derivatives := jd_derivatives db |}.
Definition set_workers (workers : gmap string WorkerInstance) (db : JobsDB) : JobsDB :=
  {| jd_jobs := jd_jobs db; jd_events := jd_events db; jd_workers := workers;
     jd_archives := jd_archives db; jd_derivatives := jd_derivatives db |}.
Definition set_archives (archives : gmap string ArchiveRow) (db : JobsDB) : JobsDB :=
  {| jd_jobs := jd_jobs db; jd_events := jd_events db; jd_workers := jd_workers db;
     jd_archives := archives; jd_derivatives := jd_derivatives db |}.
Definition set_derivatives (derivatives : gmap string DerivativeRow) (db : JobsDB) : JobsDB :=
  {| jd_jobs := jd_jobs db; jd_events := jd_events db; jd_workers := jd_workers db;
     jd_archives := jd_archives db; jd_derivatives := derivatives |}.
Definition putJob (id : string) (j : BackgroundJobRecord) (db : JobsDB) : JobsDB :=
  set_jobs (<[id := j]> (jd_jobs db)) db.

(** ** What is thrown *)

(** [JobsError] is an [Error] with a message; an [AbortError] is also what a
    cancelled admission throws. *)
Inductive Thrown :=
| JobsError (message : string)
| TerminalJobError (message code : string)
| AbortError (message : string)
| TransactionWriteConflict
| RowNotFound
| DatabaseUnreachable.

(** Lengths are in bytes. *)
Definition truncateJobError (value : string) : string :=
  if bool_decide (MAX_STORED_ERROR_LENGTH < String.length value)%nat
  then sliceTo MAX_STORED_ERROR_LENGTH value +:+ "…" else value.

Definition jobMessage (jobId rest : string) : string := "Background job " +:+ jobId +:+ rest.

(** ** Times *)

(** [Math.round] of an exact product; [jitterRatio] is below a fifth either way. *)
Definition retryDelayMs (attemptCount : Z) (jitterRatio : Q) : Z :=
  let exponent := Z.max 0 (attemptCount - 1) in
  let baseDelay :=
    Z.min (BACKGROUND_JOB_RETRY_DELAY_MS * 2 ^ exponent) BACKGROUND_JOB_RETRY_DELAY_MAX_MS in
  Z.max 1000 (Qfloor (inject_Z baseDelay * (1 + jitterRatio) + (1 # 2))).

Definition isBefore (a : option Z) (b : Z) : bool :=
  match a with Some a => bool_decide (a <= b) | None => false end.

(** ** Three-valued logic *)

(** [None] is SQL's NULL. *)
Definition SqlBool : Type := option bool.
Definition sqlNot (a : SqlBool) : SqlBool := negb <$> a.
Definition sqlAnd (a b : SqlBool) : SqlBool :=
  match a, b with
  | Some false, _ | _, Some false => Some false
  | Some true, Some true => Some true
  | _, _ => None
  end.
Definition sqlOr (a b : SqlBool) : SqlBool := sqlNot (sqlAnd (sqlNot a) (sqlNot b)).
Definition satisfied (a : SqlBool) : bool := match a with Some true => true | _ => false end.

(** ["payloadJson" #> '{kind}']. *)
Definition payloadKind (payload : Json) : option Json :=
  match payload with JObject entries => mapGet "kind" entries | _ => None end.
Definition payloadKindIs (kind : string) (payload : Json) : SqlBool :=
  match payloadKind payload with
  | None => None
  | Some (JString s) => Some (bool_decide (s = kind))
  | Some _ => Some false
  end.
(** [Prisma.AnyNull]. *)
Definition payloadKindIsNull (payload : Json) : SqlBool :=
  match payloadKind payload with
  | None | Some JNull => Some true
  | Some _ => Some false
  end.

(** ** Claiming *)

Definition smallArchive (spec : JobSpec) : SqlBool :=
  sqlAnd (Some (bool_decide (js_kind spec = ZIP_ARCHIVE_GENERATE_JOB_KIND)))
         (Some (bool_decide (js_priority spec = SMALL_ARCHIVE_PRIORITY))).
Definition smallMedia (spec : JobSpec) : SqlBool :=
  sqlAnd (Some (bool_decide (js_kind spec = MEDIA_DERIVATIVE_GENERATE_JOB_KIND)))
         (sqlOr (payloadKindIs "thumbnail" (js_payloadJson spec))
                (payloadKindIs "poster" (js_payloadJson spec))).

Definition inLane (lane : BackgroundJobLane) (spec : JobSpec) : SqlBool :=
  match lane with
  | small_archive_lane => smallArchive spec
  | small_media_lane => smallMedia spec
  | general_lane =>
      sqlAnd (Some (bool_decide (js_kind spec ∈ ALL_SUPPORTED_JOB_KINDS)))
        (sqlAnd (sqlNot (smallArchive spec))
           (sqlOr (sqlNot (smallMedia spec)) (payloadKindIsNull (js_payloadJson spec))))
  end.

(** Due, or running under a lease that ran out. *)
Definition claimable (now : Z) (j : BackgroundJobRecord) : bool :=
  match jb_status j with
  | job_queued => bool_decide (jb_runAt j <= now)
  | job_running =>
      match jl_leaseExpiresAt (jb_lease j) with
      | Some at_ => bool_decide (at_ <= now)
      | None => isBefore (jl_lockedAt (jb_lease j)) (now - BACKGROUND_JOB_LEASE_MS)
      end
  | _ => false
  end.

(** [orderBy]: the priority from the highest, then [runAt], then [id]. *)
Definition queueOrder (a b : string * BackgroundJobRecord) : Prop :=
  js_priority (jb_spec b.2) < js_priority (jb_spec a.2) \/
  (js_priority (jb_spec b.2) = js_priority (jb_spec a.2) /\
   (jb_runAt a.2 < jb_runAt b.2 \/
    (jb_runAt a.2 = jb_runAt b.2 /\ String.leb a.1 b.1 = true))).
#[export] Instance queueOrder_dec a b : Decision (queueOrder a b).
Proof. unfold queueOrder. apply _. Defined.

(** The rows a query finds, in that order. *)
Definition jobsThat (p : BackgroundJobRecord -> bool) (db : JobsDB) :
    list (string * BackgroundJobRecord) :=
  filter (fun e => p e.2 = true) (map_to_list (jd_jobs db)).
Definition firstOf (p : BackgroundJobRecord -> bool) (db : JobsDB) :
    option (string * BackgroundJobRecord) :=
  head (merge_sort queueOrder (jobsThat p db)).

Definition offered (queueName : string) (lane : BackgroundJobLane) (now : Z)
    (j : BackgroundJobRecord) : bool :=
  satisfied (inLane lane (jb_spec j)) && bool_decide (js_queueName (jb_spec j) = queueName)
  && claimable now j.

Definition findDueJob (queueName : string) (lane : BackgroundJobLane) (now : Z) (db : JobsDB) :
    option (string * BackgroundJobRecord) :=
  firstOf (offered queueName lane now) db.

Definition Write (A : Type) : Type := JobsDB -> result Thrown (A * JobsDB).

Definition jobEvent (jobId type : string) (message workerId : option string)
    (metadata : list (string * Json)) : BackgroundJobEvent :=
  {| je_jobId := jobId; je_type := type; je_message := message; je_workerId := workerId;
     je_metadataJson := metadata |}.

Definition withWorker (id : string) (f : WorkerInstance -> WorkerInstance) (db : JobsDB) : JobsDB :=
  set_workers (alter f id (jd_workers db)) db.
(** The worker's own row says what it does; stopped workers stay marked so. *)
Definition workerAt (status : string) (currentJobId : option string) (now : Z)
    (w : WorkerInstance) : WorkerInstance :=
  {| wi_status := status; wi_currentJobId := currentJobId; wi_startedAt := wi_startedAt w;
     wi_lastHeartbeatAt := now; wi_stoppedAt := wi_stoppedAt w |}.

Definition changeJob (j : BackgroundJobRecord) (status : BackgroundJobStatus) (runAt : Z)
    (lease : JobLease) (completedAt : option Z) (lastError errorCode : option string) :
    BackgroundJobRecord :=
  {| jb_spec := jb_spec j; jb_status := status; jb_progressJson := jb_progressJson j;
     jb_runAt := runAt; jb_lease := lease; jb_startedAt := jb_startedAt j;
     jb_completedAt := completedAt; jb_cancelledAt := jb_cancelledAt j;
     jb_cancelledByUserId := jb_cancelledByUserId j; jb_attemptCount := jb_attemptCount j;
     jb_lastError := lastError; jb_errorCode := errorCode |}.

(** [updateMany] in [claimDueBackgroundJob]; [seen] is the row it had found. *)
Definition claimedBy (workerId : string) (now leaseMs : Z) (seen j : BackgroundJobRecord) :
    BackgroundJobRecord :=
  {| jb_spec := jb_spec j; jb_status := job_running; jb_progressJson := jb_progressJson j;
     jb_runAt := jb_runAt j;
     jb_lease := {| jl_lockedAt := Some now; jl_lockedBy := Some workerId;
                    jl_leaseExpiresAt := Some (now + leaseMs) |};
     jb_startedAt := Some (default now (jb_startedAt seen)); jb_completedAt := None;
     jb_cancelledAt := jb_cancelledAt j; jb_cancelledByUserId := jb_cancelledByUserId j;
     jb_attemptCount := jb_attemptCount j + 1; jb_lastError := jb_lastError j;
     jb_errorCode := jb_errorCode j |}.

Definition claimRow (id : string) (seen : BackgroundJobRecord) (workerId : string)
    (now leaseMs : Z) : Write (option (string * BackgroundJobRecord)) := fun db =>
  match jd_jobs db !! id with
  | Some j =>
      if claimable now j then
        let j' := claimedBy workerId now leaseMs seen j in
        Ok (Some (id, j'),
            addEvent (jobEvent id "claimed" (Some "Job claimed by worker.") (Some workerId)
                        [("leaseExpiresAt", JNumber (now + leaseMs))])
              (withWorker workerId (workerAt "running" (Some id) now) (putJob id j' db)))
      else Ok (None, db)
  | None => Ok (None, db)
  end.

(** ** Holding a claim *)

(** [status: "running", lockedBy: workerId]. *)
Definition claimedAs (workerId : string) (j : BackgroundJobRecord) : bool :=
  bool_decide (jb_status j = job_running)
  && bool_decide (jl_lockedBy (jb_lease j) = Some workerId).

(** The [where] of a worker's update, which names the worker unless the caller
    named none; an empty name is none. *)
Definition heldBy (workerId : option string) (j : BackgroundJobRecord) : bool :=
  match workerId with
  | None | Some EmptyString => true
  | Some w => claimedAs w j
  end.

(** [updateMany] of one id: how many rows it changed. *)
Definition updateJob (id : string) (p : BackgroundJobRecord -> bool)
    (f : BackgroundJobRecord -> BackgroundJobRecord) : Write Z := fun db =>
  match jd_jobs db !! id with
  | Some j => if p j then Ok (1, putJob id (f j) db) else Ok (0, db)
  | None => Ok (0, db)
  end.

Definition renewed (now leaseMs : Z) (progress : option Json) (j : BackgroundJobRecord) :
    BackgroundJobRecord :=
  {| jb_spec := jb_spec j; jb_status := jb_status j;
     jb_progressJson := default (jb_progressJson j) progress; jb_runAt := jb_runAt j;
     jb_lease := {| jl_lockedAt := Some now; jl_lockedBy := jl_lockedBy (jb_lease j);
                    jl_leaseExpiresAt := Some (now + leaseMs) |};
     jb_startedAt := jb_startedAt j; jb_completedAt := jb_completedAt j;
     jb_cancelledAt := jb_cancelledAt j; jb_cancelledByUserId := jb_cancelledByUserId j;
     jb_attemptCount := jb_attemptCount j; jb_lastError := jb_lastError j;
     jb_errorCode := jb_errorCode j |}.
Definition renewRow (id workerId : string) (now leaseMs : Z) (progress : option Json) : Write Z :=
  updateJob id (claimedAs workerId) (renewed now leaseMs progress).

Definition succeededAt (now : Z) (j : BackgroundJobRecord) : BackgroundJobRecord :=
  changeJob j job_succeeded (jb_runAt j) noLease (Some now) None None.
Definition succeedRow (id : string) (workerId : option string) (now : Z) : Write Z :=
  updateJob id (heldBy workerId) (succeededAt now).

Definition failedAt (now : Z) (errorMessage : string) (errorCode : option string)
    (j : BackgroundJobRecord) : BackgroundJobRecord :=
  changeJob j job_failed (jb_runAt j) noLease (Some now) (Some (truncateJobError errorMessage))
    errorCode.
Definition failRow (id : string) (workerId : option string) (now : Z) (errorMessage : string)
    (errorCode : option string) : Write Z :=
  updateJob id (heldBy workerId) (failedAt now errorMessage errorCode).

(** ** Failing *)

(** The writes of [markBackgroundJobFailed] that can be retried; [seen] is the row
    it had read. *)
Definition shouldDeadLetter (seen : BackgroundJobRecord) : bool :=
  bool_decide (js_maxAttempts (jb_spec seen) <= jb_attemptCount seen).
Definition putBack (now : Z) (delay : Z) (errorMessage : string) (errorCode : option string)
    (seen j : BackgroundJobRecord) : BackgroundJobRecord :=
  if shouldDeadLetter seen
  then changeJob j job_dead (jb_runAt seen) noLease (Some now)
         (Some (truncateJobError errorMessage)) errorCode
  else changeJob j job_queued (now + delay) noLease None
         (Some (truncateJobError errorMessage)) errorCode.

Definition optionString (s : option string) : Json :=
  match s with Some s => JString s | None => JNull end.
Definition putBackRow (id : string) (seen : BackgroundJobRecord) (workerId : option string)
    (now delay : Z) (errorMessage : string) (errorCode : option string) :
    Write BackgroundJobRecord := fun db =>
  match jd_jobs db !! id with
  | None => Throw RowNotFound
  | Some j =>
      let j' := putBack now delay errorMessage errorCode seen j in
      let dead := shouldDeadLetter seen in
      Ok (j', addEvent
                (jobEvent id (if dead then "dead" else "retry_scheduled")
                   (Some (truncateJobError errorMessage)) workerId
                   [("errorCode", optionString errorCode);
                    ("nextRunAt", if dead then JNull else JNumber (now + delay));
                    ("attemptCount", JNumber (jb_attemptCount seen));
                    ("maxAttempts", JNumber (js_maxAttempts (jb_spec seen)))])
                (putJob id j' db))
  end.

(** [markBackgroundJobTerminal] inside that transaction. *)
Definition failInTransaction (id : string) (workerId : option string) (now : Z)
    (errorMessage : string) (errorCode : option string) :
    Write (option BackgroundJobRecord) := fun db =>
  match failRow id workerId now errorMessage errorCode db with
  | Ok (count, db') =>
      if bool_decide (count = 1)
      then Ok (jd_jobs db' !! id,
               addEvent (jobEvent id "failed" (Some (truncateJobError errorMessage)) workerId
                           [("errorCode", optionString errorCode); ("terminal", JBool true)]) db')
      else Throw (JobsError (jobMessage id " could not be marked failed."))
  | Throw e => Throw e
  end.

(** ** What an administrator does *)

Inductive AdminAction := cancel_action | retry_action | dismiss_action.

Definition actionFrom (action : AdminAction) : list BackgroundJobStatus :=
  match action with
  | cancel_action => [job_queued; job_running]
  | retry_action => [job_failed; job_dead; job_cancelled]
  | dismiss_action => [job_failed; job_dead]
  end.
Definition actionRefusal (action : AdminAction) : string :=
  match action with
  | cancel_action => "Only queued or running jobs can be cancelled."
  | retry_action => "Only failed, dead, or cancelled jobs can be retried."
  | dismiss_action => "Only failed or dead jobs can be dismissed."
  end.
Definition actionData (action : AdminAction) (now : Z) (actorUserId : string)
    (j : BackgroundJobRecord) : BackgroundJobRecord :=
  match action with
  | cancel_action =>
      {| jb_spec := jb_spec j; jb_status := job_cancelled; jb_progressJson := jb_progressJson j;
         jb_runAt := jb_runAt j; jb_lease := noLease; jb_startedAt := jb_startedAt j;
         jb_completedAt := Some now; jb_cancelledAt := Some now;
         jb_cancelledByUserId := Some actorUserId; jb_attemptCount := jb_attemptCount j;
         jb_lastError := Some "Cancelled by admin."; jb_errorCode := Some "cancelled" |}
  | retry_action =>
      {| jb_spec := jb_spec j; jb_status := job_queued; jb_progressJson := JObject [];
         jb_runAt := now; jb_lease := noLease; jb_startedAt := jb_startedAt j;
         jb_completedAt := None; jb_cancelledAt := None; jb_cancelledByUserId := None;
         jb_attemptCount := jb_attemptCount j; jb_lastError := None; jb_errorCode := None |}
  | dismiss_action =>
      {| jb_spec := jb_spec j; jb_status := job_cancelled; jb_progressJson := jb_progressJson j;
         jb_runAt := jb_runAt j; jb_lease := jb_lease j; jb_startedAt := jb_startedAt j;
         jb_completedAt := jb_completedAt j; jb_cancelledAt := Some now;
         jb_cancelledByUserId := Some actorUserId; jb_attemptCount := jb_attemptCount j;
         jb_lastError := jb_lastError j; jb_errorCode := jb_errorCode j |}
  end.
Definition actionEvent (action : AdminAction) : string * string :=
  match action with
  | cancel_action => ("cancelled", "Cancelled by admin.")
  | retry_action => ("retry_requested", "Retry requested by admin.")
  | dismiss_action => ("dismissed", "Dismissed by admin.")
  end.

Definition payloadString (name : string) (payload : Json) : option string :=
  match payload with
  | JObject entries => match mapGet name entries with Some (JString s) => Some s | _ => None end
  | _ => None
  end.

Definition unfinished (status : string) : bool :=
  bool_decide (status ∈ ["queued"; "processing"]).

Definition staleDerivatives (jobId : string) (rows : gmap string DerivativeRow) :
    gmap string DerivativeRow :=
  (fun d => if bool_decide (dv_generationJobId d = Some jobId) && unfinished (dv_status d)
            then {| dv_generationJobId := dv_generationJobId d; dv_status := "stale";
                    dv_storageKey := None; dv_sizeBytes := None |} else d) <$> rows.

(** [after]: what the cancelled job was making is given up. *)
Definition afterCancel (jobId : string) (seen : BackgroundJobRecord) (db : JobsDB) : JobsDB :=
  let isKind kind := bool_decide (js_kind (jb_spec seen) = kind) in
  match isKind ZIP_ARCHIVE_GENERATE_JOB_KIND, payloadString "archiveId" (js_payloadJson (jb_spec seen)) with
  | true, Some archiveId =>
      set_archives (alter (fun a => if unfinished (za_status a)
        then {| za_status := "failed"; za_error := Some "Cancelled by admin." |} else a) archiveId
        (jd_archives db)) db
  | _, _ =>
      if isKind MEDIA_DERIVATIVE_GENERATE_JOB_KIND
      then set_derivatives (staleDerivatives jobId (jd_derivatives db)) db else db
  end.

(** The writes of [runAdminJobAction]; [seen] is the row it had read. *)
Definition adminRow (action : AdminAction) (id : string) (seen : BackgroundJobRecord)
    (actorUserId : string) (now : Z) : Write BackgroundJobRecord := fun db =>
  match jd_jobs db !! id with
  | None => Throw RowNotFound
  | Some j =>
      let j' := actionData action now actorUserId j in
      let written := putJob id j' db in
      let after := match action with cancel_action => afterCancel id seen written | _ => written end in
      Ok (j', addEvent (jobEvent id (actionEvent action).1 (Some (actionEvent action).2) None
                          [("actorUserId", JString actorUserId)]) after)
  end.

(** ** Scheduling *)

Record ScheduleInput := {
  si_spec : JobSpec; si_runAt : Z; si_windowEnd : Z; si_now : Z
}.

(** [buildActiveStatusFilter]. *)
Definition isActive (now : Z) (j : BackgroundJobRecord) : bool :=
  match jb_status j with
  | job_queued => true
  | job_running =>
      match jl_leaseExpiresAt (jb_lease j) with
      | Some at_ => bool_decide (now <= at_)
      | None => match jl_lockedAt (jb_lease j) with
                | Some at_ => bool_decide (now - BACKGROUND_JOB_LEASE_MS <= at_)
                | None => false
                end
      end
  | _ => false
  end.

(** [dedupeFilter]; an empty key is no key. *)
Definition sameWork (input : ScheduleInput) (j : BackgroundJobRecord) : bool :=
  let spec := si_spec input in
  bool_decide (js_kind (jb_spec j) = js_kind spec) && isActive (si_now input) j
  && match js_dedupeKey spec with
     | None | Some EmptyString =>
         bool_decide (js_queueName (jb_spec j) = js_queueName spec)
         && bool_decide (jb_runAt j <= si_windowEnd input)
     | Some key => bool_decide (js_dedupeKey (jb_spec j) = Some key)
     end.

(** [orderBy]: [runAt], then [id]. *)
Definition dueOrder (a b : string * BackgroundJobRecord) : Prop :=
  jb_runAt a.2 < jb_runAt b.2 \/
  (jb_runAt a.2 = jb_runAt b.2 /\ String.leb a.1 b.1 = true).
#[export] Instance dueOrder_dec a b : Decision (dueOrder a b).
Proof. unfold dueOrder. apply _. Defined.

Definition newJob (input : ScheduleInput) : BackgroundJobRecord :=
  {| jb_spec := si_spec input; jb_status := job_queued; jb_progressJson := JObject [];
     jb_runAt := si_runAt input; jb_lease := noLease; jb_startedAt := None;
     jb_completedAt := None; jb_cancelledAt := None; jb_cancelledByUserId := None;
     jb_attemptCount := 0; jb_lastError := None; jb_errorCode := None |}.

(** [enqueue]: whether it made a job, and the job. [id] is the one it draws. *)
Definition enqueue (input : ScheduleInput) (id : string) :
    Write (bool * (string * BackgroundJobRecord)) := fun db =>
  match head (merge_sort dueOrder (jobsThat (sameWork input) db)) with
  | Some existing => Ok ((false, existing), db)
  | None =>
      match jd_jobs db !! id with
      | Some _ => Throw (JobsError "Unique constraint failed.")
      | None =>
          Ok ((true, (id, newJob input)),
              addEvent (jobEvent id "queued" (Some "Job queued.") None
                          [("source", JString "scheduler")]) (putJob id (newJob input) db))
      end
  end.

(** ** Workers *)

Definition registerWorker (id : string) (now : Z) : Write unit := fun db =>
  Ok (tt, set_workers (<[id :=
    {| wi_status := "starting"; wi_currentJobId := None; wi_startedAt := now;
       wi_lastHeartbeatAt := now; wi_stoppedAt := None |}]> (jd_workers db)) db).

(** [workerInstance.update], which throws when there is no such worker. *)
Definition updateWorker (id : string) (f : WorkerInstance -> WorkerInstance) : Write unit := fun db =>
  match jd_workers db !! id with
  | Some _ => Ok (tt, withWorker id f db)
  | None => Throw RowNotFound
  end.
Definition heartbeat (id status : string) (currentJobId : option string) (now : Z) : Write unit :=
  updateWorker id (workerAt status currentJobId now).
Definition stopWorker (id : string) (now : Z) : Write unit :=
  updateWorker id (fun w =>
    {| wi_status := "stopped"; wi_currentJobId := None; wi_startedAt := wi_startedAt w;
       wi_lastHeartbeatAt := now; wi_stoppedAt := Some now |}).
