(* ===== verification/JobWorker.v ===== *)
(** * Workers and what they run

    [apps/worker/src/runner.ts], [job-registry.ts] and [scheduling.ts], with the
    calls of [packages/db/src/jobs.ts] as programs over their statements. What a
    handler does is open: it returns or throws. The timers that renew a lease
    while a handler runs are requests of their own. The zone of a civil time is
    a parameter. *)

From Stdlib Require String.
From Stdlib Require Import Ascii QArith Qround.
From S2P Require Import Prelude Database MutationPrepare RangeResponse Async Jobs.

Open Scope Z_scope.

(** ** Effects *)

Inductive Statement :=
| st_findDue (queueName : string) (lane : BackgroundJobLane) (now : Z)
| st_claim (id : string) (seen : BackgroundJobRecord) (workerId : string) (now leaseMs : Z)
| st_renew (id workerId : string) (now leaseMs : Z) (progress : option Json)
| st_succeed (id : string) (workerId : option string) (now : Z)
| st_fail (id : string) (workerId : option string) (now : Z) (errorMessage : string)
    (errorCode : option string)
| st_putBack (id : string) (seen : BackgroundJobRecord) (workerId : option string)
    (now delay : Z) (errorMessage : string) (errorCode : option string)
| st_failWithin (id : string) (workerId : option string) (now : Z) (errorMessage : string)
    (errorCode : option string)
| st_admin (action : AdminAction) (id : string) (seen : BackgroundJobRecord)
    (actorUserId : string) (now : Z)
| st_enqueue (input : ScheduleInput) (id : string)
| st_find (id : string)
| st_event (e : BackgroundJobEvent)
| st_register (id : string) (now : Z)
| st_heartbeat (id status : string) (currentJobId : option string) (now : Z)
| st_stop (id : string) (now : Z).

Definition resultOf (s : Statement) : Set :=
  match s with
  | st_findDue _ _ _ | st_claim _ _ _ _ _ => option (string * BackgroundJobRecord)
  | st_renew _ _ _ _ _ | st_succeed _ _ _ | st_fail _ _ _ _ _ => Z
  | st_putBack _ _ _ _ _ _ _ | st_admin _ _ _ _ _ => BackgroundJobRecord
  | st_failWithin _ _ _ _ _ | st_find _ => option BackgroundJobRecord
  | st_enqueue _ _ => bool * (string * BackgroundJobRecord)
  | _ => unit
  end.

Definition runs (s : Statement) : Write (resultOf s) :=
  match s return Write (resultOf s) with
  | st_findDue queueName lane now => fun db => Ok (findDueJob queueName lane now db, db)
  | st_claim id seen workerId now leaseMs => claimRow id seen workerId now leaseMs
  | st_renew id workerId now leaseMs progress => renewRow id workerId now leaseMs progress
  | st_succeed id workerId now => succeedRow id workerId now
  | st_fail id workerId now errorMessage errorCode => failRow id workerId now errorMessage errorCode
  | st_putBack id seen workerId now delay errorMessage errorCode =>
      putBackRow id seen workerId now delay errorMessage errorCode
  | st_failWithin id workerId now errorMessage errorCode =>
      failInTransaction id workerId now errorMessage errorCode
  | st_admin action id seen actorUserId now => adminRow action id seen actorUserId now
  | st_enqueue input id => enqueue input id
  | st_find id => fun db => Ok (jd_jobs db !! id, db)
  | st_event e => fun db => Ok (tt, addEvent e db)
  | st_register id now => registerWorker id now
  | st_heartbeat id status currentJobId now => heartbeat id status currentJobId now
  | st_stop id now => stopWorker id now
  end.

(** The settings and the instance row a schedule reads. *)
Record SchedulingSettings := { ss_timeZone : string; ss_maintenanceRunTime : string }.
Record InstanceTimes := { it_createdAt : Z; it_lastUpdateCheckAt : option Z }.

Inductive JobEffect :=
| jobClock
| mathRandom
| drawId
| wait (ms : Z)
| isStopping
| isAborted
| sql (s : Statement)
| runHandler (id : string) (job : BackgroundJobRecord)
| readSettings
| readInstance
| reconciliationRun (failed : bool) (jobId errorMessage : string)
| outOfTurns.

Definition JobAnswer (e : JobEffect) : Type :=
  match e with
  | jobClock => Z
  | mathRandom => Q
  | drawId => string
  | isStopping | isAborted => bool
  | sql s => result Thrown (resultOf s)
  | runHandler _ _ | reconciliationRun _ _ _ => result Thrown unit
  | readSettings => option SchedulingSettings
  | readInstance => option InstanceTimes
  | _ => unit
  end.

Notation JobProgram := (@Task JobEffect Thrown JobAnswer).

Definition execute (s : Statement) : JobProgram (resultOf s) := settle (ask (sql s)).

Definition ignored {A} (t : JobProgram A) : JobProgram unit :=
  catch (_ ← t; mret tt) (fun _ => mret tt).

(** [if (count !== 1) throw new Error(...)]. *)
Definition exactlyOne (count : Z) (message : string) : JobProgram unit :=
  if bool_decide (count = 1) then mret tt else throw (JobsError message).

(** ** Calls of the queue *)

Definition claimDueBackgroundJob (workerId queueName : string) (lane : BackgroundJobLane)
    (leaseMs : Z) : JobProgram (option (string * BackgroundJobRecord)) :=
  now ← ask jobClock;
  found ← execute (st_findDue queueName lane now);
  match found with
  | None => mret None
  | Some (id, seen) => execute (st_claim id seen workerId now leaseMs)
  end.

Definition renewBackgroundJobLease (jobId workerId : string) (leaseMs : Z)
    (progress : option Json) : JobProgram Z :=
  now ← ask jobClock;
  count ← execute (st_renew jobId workerId now leaseMs progress);
  _ ← exactlyOne count (jobMessage jobId " lease could not be renewed.");
  _ ← ignored (execute (st_heartbeat workerId "running" (Some jobId) now));
  mret (now + leaseMs).

Definition markBackgroundJobSucceeded (jobId : string) (workerId : option string) :
    JobProgram (option BackgroundJobRecord) :=
  now ← ask jobClock;
  count ← execute (st_succeed jobId workerId now);
  _ ← exactlyOne count (jobMessage jobId " could not be marked succeeded.");
  _ ← execute (st_event (jobEvent jobId "succeeded" (Some "Job completed successfully.")
                           workerId []));
  execute (st_find jobId).

Definition markBackgroundJobTerminal (jobId errorMessage : string) (errorCode workerId : option string) :
    JobProgram (option BackgroundJobRecord) :=
  now ← ask jobClock;
  count ← execute (st_fail jobId workerId now errorMessage errorCode);
  _ ← exactlyOne count (jobMessage jobId " could not be marked failed.");
  _ ← execute (st_event (jobEvent jobId "failed" (Some (truncateJobError errorMessage)) workerId
                           [("errorCode", optionString errorCode); ("terminal", JBool true)]));
  execute (st_find jobId).

(** [Math.random() * 0.4 - 0.2]. *)
Definition jitterOf (random : Q) : Q := random * (4 # 10) - (2 # 10).

(** [if (workerId && job.lockedBy !== workerId)]. *)
Definition lockedByAnother (workerId : option string) (job : BackgroundJobRecord) : bool :=
  match workerId with
  | None | Some EmptyString => false
  | Some _ => negb (bool_decide (jl_lockedBy (jb_lease job) = workerId))
  end.

Definition markBackgroundJobFailed (jobId errorMessage : string) (errorCode workerId : option string)
    (retryable : bool) : JobProgram (option BackgroundJobRecord) :=
  now ← ask jobClock;
  found ← execute (st_find jobId);
  match found with
  | None => throw (JobsError (jobMessage jobId " not found."))
  | Some job =>
      if lockedByAnother workerId job
      then throw (JobsError (jobMessage jobId " is locked by another worker."))
      else if negb retryable
           then execute (st_failWithin jobId workerId now errorMessage errorCode)
           else
             random ← ask mathRandom;
             let delay := retryDelayMs (jb_attemptCount job) (jitterOf random) in
             updated ← execute (st_putBack jobId job workerId now delay errorMessage errorCode);
             mret (Some updated)
  end.

Definition runAdminJobAction (action : AdminAction) (jobId actorUserId : string) :
    JobProgram BackgroundJobRecord :=
  now ← ask jobClock;
  found ← execute (st_find jobId);
  match found with
  | None => throw (JobsError (jobMessage jobId " not found."))
  | Some job =>
      if negb (bool_decide (jb_status job ∈ actionFrom action))
      then throw (JobsError (actionRefusal action))
      else execute (st_admin action jobId job actorUserId now)
  end.

Definition cancelBackgroundJob := runAdminJobAction cancel_action.
Definition retryBackgroundJob := runAdminJobAction retry_action.
Definition dismissBackgroundJob := runAdminJobAction dismiss_action.

(** *** Scheduling, again and again while others write *)

(** [(25 + Math.random() * 25) * 2 ** Math.min(attempt, 3)], to the millisecond. *)
Definition conflictPauseMs (attempt : Z) (random : Q) : Z :=
  Qfloor ((25 + random * 25) * inject_Z (2 ^ Z.min attempt 3)).

(** A pause that is not the last is 25 ms or longer, so that 200 of them pass the
    deadline. *)
Definition scheduleTurns : nat := 201.

Fixpoint scheduleBefore (turns : nat) (attempt deadline : Z) (input : ScheduleInput) :
    JobProgram (bool * (string * BackgroundJobRecord)) :=
  match turns with
  | O => _ ← ask outOfTurns; throw TransactionWriteConflict
  | S turns =>
      id ← ask drawId;
      catch (execute (st_enqueue input id)) (fun e =>
        now ← ask jobClock;
        let remaining := deadline - now in
        match e with
        | TransactionWriteConflict =>
            if bool_decide (remaining <= 0) then throw e
            else
              random ← ask mathRandom;
              _ ← ask (wait (Z.min remaining (conflictPauseMs attempt random)));
              now ← ask jobClock;
              if bool_decide (deadline <= now) then throw e
              else scheduleBefore turns (attempt + 1) deadline input
        | _ => throw e
        end)
  end.

Definition ensureBackgroundJobScheduled (input : ScheduleInput) :
    JobProgram (bool * (string * BackgroundJobRecord)) :=
  start ← ask jobClock;
  scheduleBefore scheduleTurns 0 (start + BACKGROUND_JOB_SCHEDULE_RETRY_WINDOW_MS) input.

Definition archiveSpec (archiveId : string) (sourceSizeBytes : option Z) (fileCount folderCount : Z) :
    JobSpec :=
  {| js_kind := ZIP_ARCHIVE_GENERATE_JOB_KIND; js_queueName := DEFAULT_BACKGROUND_JOB_QUEUE;
     js_priority :=
       match sourceSizeBytes with
       | Some size =>
           if bool_decide (folderCount = 0) && bool_decide (0 <= size)
              && bool_decide (size <= 8 * 1024 * 1024) && bool_decide (0 < fileCount)
              && bool_decide (fileCount <= 32)
           then SMALL_ARCHIVE_PRIORITY else 0
       | None => 0
       end;
     js_payloadJson := JObject [("archiveId", JString archiveId)];
     js_dedupeKey := Some (ZIP_ARCHIVE_GENERATE_JOB_KIND +:+ ":" +:+ archiveId);
     js_maxAttempts := 5 |}.
Definition scheduleZipArchiveGenerate (archiveId : string) (sourceSizeBytes : option Z)
    (fileCount folderCount : Z) : JobProgram (bool * (string * BackgroundJobRecord)) :=
  now ← ask jobClock;
  ensureBackgroundJobScheduled
    {| si_spec := archiveSpec archiveId sourceSizeBytes fileCount folderCount; si_runAt := now;
       si_windowEnd := now + STAGING_CLEANUP_SCHEDULE_WINDOW_MS; si_now := now |}.

(** ** The registry *)

Inductive Schedule :=
| unscheduled
| every (intervalMs windowMs : Z)
| daily
| hourly.

Record JobRegistryEntry := {
  jr_kind : string; jr_maxAttempts : Z; jr_timeoutMs : Z; jr_cancellable : bool;
  jr_schedule : Schedule; jr_parsePayload : Json -> bool
}.

Definition HOUR_MS : Z := 60 * 60 * 1000.
Definition UPDATE_CHECK_RECENT_MS : Z := 60 * 1000.

Definition fieldOf (name : string) (payload : Json) : option Json :=
  match payload with JObject entries => mapGet name entries | _ => None end.
Definition isObject (payload : Json) : bool :=
  match payload with JObject _ => true | _ => false end.
Definition someString (name : string) (payload : Json) : bool :=
  match fieldOf name payload with Some (JString s) => negb (bool_decide (s = "")) | _ => false end.

(** [payloadJson ?? {}], and whether the schema takes it. *)
Definition parseWith (schema : Json -> bool) (payload : Json) : bool :=
  schema (match payload with JNull => JObject [] | _ => payload end).
Definition emptyPayloadSchema : Json -> bool := isObject.
Definition restorePayloadSchema (payload : Json) : bool :=
  isObject payload
  && match fieldOf "triggeredByUserId" payload with None | Some (JString _) => true | _ => false end.
Definition derivativePayloadSchema (payload : Json) : bool :=
  someString "fileId" payload
  && match fieldOf "kind" payload with
     | Some (JString kind) => bool_decide (kind ∈ ["thumbnail"; "poster"; "preview"])
     | _ => false
     end
  && someString "profile" payload && someString "reason" payload.
Definition zipArchivePayloadSchema (payload : Json) : bool := someString "archiveId" payload.

Definition entry (kind : string) (maxAttempts timeoutMs : Z) (cancellable : bool)
    (schedule : Schedule) (schema : Json -> bool) : JobRegistryEntry :=
  {| jr_kind := kind; jr_maxAttempts := maxAttempts; jr_timeoutMs := timeoutMs;
     jr_cancellable := cancellable; jr_schedule := schedule; jr_parsePayload := parseWith schema |}.

Definition JOB_REGISTRY : list JobRegistryEntry :=
  [entry STAGING_CLEANUP_JOB_KIND 5 (10 * 60 * 1000) false
     (every STAGING_CLEANUP_SCHEDULE_WINDOW_MS STAGING_CLEANUP_SCHEDULE_WINDOW_MS) emptyPayloadSchema;
   entry TRASH_RETENTION_JOB_KIND 5 HOUR_MS false daily emptyPayloadSchema;
   entry UPDATE_CHECK_JOB_KIND 3 (5 * 60 * 1000) false hourly emptyPayloadSchema;
   entry RESTORE_RECONCILE_JOB_KIND 3 (2 * HOUR_MS) false unscheduled restorePayloadSchema;
   entry MEDIA_DERIVATIVE_GENERATE_JOB_KIND 3 (6 * HOUR_MS) true unscheduled derivativePayloadSchema;
   entry MEDIA_DERIVATIVE_CLEANUP_JOB_KIND 5 HOUR_MS false daily emptyPayloadSchema;
   entry ZIP_ARCHIVE_GENERATE_JOB_KIND 3 (2 * HOUR_MS) false unscheduled zipArchivePayloadSchema;
   entry ZIP_ARCHIVE_CLEANUP_JOB_KIND 5 HOUR_MS false daily emptyPayloadSchema].

Definition getJobRegistryEntry (kind : string) : option JobRegistryEntry :=
  List.find (fun e => bool_decide (jr_kind e = kind)) JOB_REGISTRY.

(** ** When periodic jobs run *)

Definition DEFAULT_TIME_ZONE : string := "UTC".
Definition DEFAULT_MAINTENANCE_RUN_TIME : string := "02:00".

(** [/^([01]\d|2[0-3]):([0-5]\d)$/]. *)
Definition timeOfDay (value : string) : option (Z * Z) :=
  match splitOn ":"%char value with
  | [hour; minute] =>
      if bool_decide (String.length hour = 2%nat) && bool_decide (String.length minute = 2%nat)
         && allDigits hour && allDigits minute
         && bool_decide (numberOf hour < 24) && bool_decide (numberOf minute < 60)
      then Some (numberOf hour, numberOf minute) else None
  | _ => None
  end.
Definition normalizeMaintenanceRunTime (value : string) : string :=
  match timeOfDay (trim value) with Some _ => trim value | None => DEFAULT_MAINTENANCE_RUN_TIME end.
Definition parseMaintenanceRunTime (value : string) : Z * Z :=
  default (0, 0) (timeOfDay (normalizeMaintenanceRunTime value)).

Section Zones.
(** Whether a zone is known, the day an instant falls on there, the instant of a
    day's time of day, and the same time of day a day later. *)
Context (isValidTimeZone : string -> bool) (dayOf : string -> Z -> Z).
Context (instantOf : string -> Z -> Z * Z -> Z) (addDay : string -> Z -> Z).

Definition normalizeTimeZone (timeZone : string) : string :=
  let value := trim timeZone in
  if negb (bool_decide (value = "")) && isValidTimeZone value then value else DEFAULT_TIME_ZONE.

Definition nextDailyRunAtUtc (settings : SchedulingSettings) (now : Z) : Z :=
  let zone := normalizeTimeZone (ss_timeZone settings) in
  let time := parseMaintenanceRunTime (ss_maintenanceRunTime settings) in
  let candidate := instantOf zone (dayOf zone now) time in
  if bool_decide (candidate <= now) then addDay zone candidate else candidate.

Definition nextDailyWindowEndUtc (settings : SchedulingSettings) (runAt : Z) : Z :=
  let zone := normalizeTimeZone (ss_timeZone settings) in
  let time := parseMaintenanceRunTime (ss_maintenanceRunTime settings) in
  addDay zone (instantOf zone (dayOf zone runAt) time).

(** [((x % 3600_000) + 3600_000) % 3600_000], of JavaScript's remainder. *)
Definition hourOffset (createdAt : option Z) : Z :=
  Z.rem (Z.rem (default 0 createdAt) HOUR_MS + HOUR_MS) HOUR_MS.
Definition nextUpdateCheckAt (instance : option InstanceTimes) (now : Z) : Z :=
  let hourStart := now / HOUR_MS * HOUR_MS in
  let candidate := hourStart + hourOffset (it_createdAt <$> instance) in
  if bool_decide (now < candidate) then candidate else candidate + HOUR_MS.
Definition shouldCheckOnStart (instance : option InstanceTimes) (now : Z) : bool :=
  match instance ≫= it_lastUpdateCheckAt with
  | None => true
  | Some last => bool_decide (UPDATE_CHECK_RECENT_MS < now - last)
  end.

Definition getSchedulingSettings : JobProgram SchedulingSettings :=
  settings ← ask readSettings;
  mret (default {| ss_timeZone := DEFAULT_TIME_ZONE;
                   ss_maintenanceRunTime := DEFAULT_MAINTENANCE_RUN_TIME |} settings).

(** When the job runs next, and the end of the window in which another would do. *)
Definition resolveSchedule (e : JobRegistryEntry) (now : Z) (runMissingImmediately : bool) :
    JobProgram (option (Z * Z)) :=
  match jr_schedule e with
  | daily =>
      settings ← getSchedulingSettings;
      let runAt := if runMissingImmediately then now else nextDailyRunAtUtc settings now in
      mret (Some (runAt, nextDailyWindowEndUtc settings runAt))
  | hourly =>
      atStart ← (if runMissingImmediately
                 then instance ← ask readInstance; mret (shouldCheckOnStart instance now)
                 else mret false);
      if atStart : bool then mret (Some (now, now))
      else
        instance ← ask readInstance;
        let runAt := nextUpdateCheckAt instance now in
        mret (Some (runAt, runAt))
  | every intervalMs windowMs =>
      let runAt := if runMissingImmediately then now else now + intervalMs in
      mret (Some (runAt, runAt + windowMs))
  | unscheduled => mret None
  end.

Definition periodicInput (e : JobRegistryEntry) (now : Z) (schedule : Z * Z) : ScheduleInput :=
  {| si_spec := {| js_kind := jr_kind e; js_queueName := DEFAULT_BACKGROUND_JOB_QUEUE;
                   js_priority := 0; js_payloadJson := JObject []; js_dedupeKey := None;
                   js_maxAttempts := jr_maxAttempts e |};
     si_runAt := schedule.1; si_windowEnd := schedule.2; si_now := now |}.

Definition scheduleEntry (e : JobRegistryEntry) (now : Z) (runMissingImmediately : bool) :
    JobProgram unit :=
  schedule ← resolveSchedule e now runMissingImmediately;
  match schedule with
  | None => mret tt
  | Some schedule => _ ← ensureBackgroundJobScheduled (periodicInput e now schedule); mret tt
  end.

Definition schedulePeriodicJobs (runMissingImmediately : bool) : JobProgram unit :=
  now ← ask jobClock;
  forEach JOB_REGISTRY (fun e => scheduleEntry e now runMissingImmediately).

(** A kind that is not registered never gets here. *)
Definition scheduleNextPeriodicRun (kind : string) : JobProgram unit :=
  now ← ask jobClock;
  match getJobRegistryEntry kind with
  | Some e => scheduleEntry e now false
  | None => throw (JobsError "Cannot read properties of undefined")
  end.

(** ** The runner *)

Fixpoint includes (needle s : string) : bool :=
  startsWith needle s || match s with EmptyString => false | String _ s' => includes needle s' end.

Section Runner.
(** The messages of the platform's and the database's own errors. *)
Context (platformText : Thrown -> string).

Definition getErrorMessage (e : Thrown) : string :=
  match e with
  | JobsError message | TerminalJobError message _ | AbortError message => message
  | _ => platformText e
  end.

Definition isAbortError (e : Thrown) : bool :=
  match e with AbortError _ => true | _ => includes "aborted" (getErrorMessage e) end.

Definition cancelAck (job workerId message : string) : JobProgram unit :=
  execute (st_event (jobEvent job "cancel_ack" (Some message) (Some workerId) [])).

Definition isCancelled (job : option BackgroundJobRecord) : bool :=
  match job with Some job => bool_decide (jb_status job = job_cancelled) | None => false end.

Definition finishJob (id workerId : string) (job : BackgroundJobRecord) : JobProgram unit :=
  current ← execute (st_find id);
  if isCancelled current
  then cancelAck id workerId "Worker observed cancellation."
  else
    stopping ← ask isStopping;
    if stopping : bool then mret tt
    else
      aborted ← ask isAborted;
      if aborted : bool then throw (AbortError "This operation was aborted")
      else
        _ ← markBackgroundJobSucceeded id (Some workerId);
        scheduleNextPeriodicRun (js_kind (jb_spec job)).

(** A restore run follows its job. *)
Definition recordReconciliation (id errorMessage : string) (job : BackgroundJobRecord)
    (updated : option BackgroundJobRecord) : JobProgram unit :=
  if negb (bool_decide (js_kind (jb_spec job) = RESTORE_RECONCILE_JOB_KIND)) then mret tt
  else match jb_status <$> updated with
       | Some job_queued => settle (ask (reconciliationRun false id errorMessage))
       | Some job_dead | Some job_failed => settle (ask (reconciliationRun true id errorMessage))
       | _ => mret tt
       end.

Definition reportFailure (id workerId : string) (job : BackgroundJobRecord) (e : Thrown) :
    JobProgram unit :=
  let errorMessage := getErrorMessage e in
  updated ←
    match e with
    | TerminalJobError _ code =>
        markBackgroundJobTerminal id errorMessage (Some code) (Some workerId)
    | _ =>
        if isAbortError e
        then markBackgroundJobTerminal id errorMessage (Some "timeout") (Some workerId)
        else markBackgroundJobFailed id errorMessage None (Some workerId) true
    end;
  _ ← recordReconciliation id errorMessage job updated;
  match jb_status <$> updated with
  | Some job_dead | Some job_failed =>
      ignored (scheduleNextPeriodicRun (js_kind (jb_spec job)))
  | _ => mret tt
  end.

Definition handleJobError (id workerId : string) (job : BackgroundJobRecord) (e : Thrown) :
    JobProgram unit :=
  current ← catch (execute (st_find id)) (fun _ => mret None);
  if isCancelled current
  then cancelAck id workerId "Worker stopped after cancellation."
  else reportFailure id workerId job e.

Definition runEntry (id workerId : string) (job : BackgroundJobRecord) (e : JobRegistryEntry) :
    JobProgram unit :=
  catch (
    _ ← (if jr_parsePayload e (js_payloadJson (jb_spec job)) then mret tt
         else throw (TerminalJobError "Invalid background job payload." "payload"));
    _ ← execute (st_event (jobEvent id "started" (Some "Job handler started.") (Some workerId) []));
    _ ← settle (ask (runHandler id job));
    finishJob id workerId job)
    (fun thrown =>
       stopping ← ask isStopping;
       if stopping : bool then mret tt else handleJobError id workerId job thrown).

Definition runClaimedJob (id workerId : string) (job : BackgroundJobRecord) : JobProgram unit :=
  match getJobRegistryEntry (js_kind (jb_spec job)) with
  | None =>
      _ ← markBackgroundJobTerminal id ("Unsupported job kind: " +:+ js_kind (jb_spec job))
            (Some "unsupported_kind") (Some workerId);
      mret tt
  | Some e => runEntry id workerId job e
  end.

(** Whether there was a job. *)
Definition processNextJob (workerId : string) (lane : BackgroundJobLane) (leaseMs : Z) :
    JobProgram bool :=
  claimed ← claimDueBackgroundJob workerId DEFAULT_BACKGROUND_JOB_QUEUE lane leaseMs;
  match claimed with
  | None => mret false
  | Some (id, job) =>
      stopping ← ask isStopping;
      if stopping : bool then mret false
      else
        _ ← finally (runClaimedJob id workerId job)
              (now ← ask jobClock;
               ignored (execute (st_heartbeat workerId "idle" None now)));
        mret true
  end.

(** [drainDueJobs], as long as there are [jobs] left to take. *)
Fixpoint drainDueJobs (jobs : nat) (workerId : string) (lane : BackgroundJobLane) (leaseMs : Z)
    (processed : bool) : JobProgram bool :=
  match jobs with
  | O => mret processed
  | S jobs =>
      stopping ← ask isStopping;
      if stopping : bool then mret processed
      else
        didProcess ← processNextJob workerId lane leaseMs;
        if didProcess : bool then drainDueJobs jobs workerId lane leaseMs true
        else mret processed
  end.
End Runner.
End Zones.

(** What a handler's context gives it. *)
Definition emitEvent (id workerId type : string) (message : option string)
    (metadata : list (string * Json)) : JobProgram unit :=
  execute (st_event (jobEvent id type message (Some workerId) metadata)).
Definition updateProgress (id workerId : string) (leaseMs : Z) (progress : Json) : JobProgram unit :=
  _ ← renewBackgroundJobLease id workerId leaseMs (Some progress); mret tt.

(** What a worker says of itself. *)
Definition registerWorkerInstance (id : string) : JobProgram unit :=
  now ← ask jobClock; execute (st_register id now).
Definition heartbeatWorkerInstance (id : string) : JobProgram unit :=
  now ← ask jobClock; execute (st_heartbeat id "idle" None now).
Definition markWorkerInstanceStopped (id : string) : JobProgram unit :=
  now ← ask jobClock; execute (st_stop id now).

(** ** The world *)

Record JobWorld := { jw_db : JobsDB; jw_clock : Z }.
Definition set_jobsDb (db : JobsDB) (w : JobWorld) : JobWorld :=
  {| jw_db := db; jw_clock := jw_clock w |}.

(** A statement: carried out and answered, refused, failed, given up for a conflict,
    or carried out with its answer lost. *)
Inductive statement_done (s : Statement) (w : JobWorld) : result Thrown (resultOf s) -> JobWorld -> Prop :=
| sd_answered a db' : runs s (jw_db w) = Ok (a, db') -> statement_done s w (Ok a) (set_jobsDb db' w)
| sd_refused e : runs s (jw_db w) = Throw e -> statement_done s w (Throw e) w
| sd_failed : statement_done s w (Throw DatabaseUnreachable) w
| sd_conflict : statement_done s w (Throw TransactionWriteConflict) w
| sd_lost a db' :
    runs s (jw_db w) = Ok (a, db') ->
    statement_done s w (Throw DatabaseUnreachable) (set_jobsDb db' w).

(** The program's number plays no part. *)
Inductive job_performs (t : nat) (w : JobWorld) : forall e : JobEffect, JobAnswer e -> JobWorld -> Prop :=
| jp_clock : job_performs t w jobClock (jw_clock w) w
| jp_random q : (0 <= q < 1)%Q -> job_performs t w mathRandom q w
| jp_drawId id : job_performs t w drawId id w
| jp_wait ms clock :
    jw_clock w + ms <= clock ->
    job_performs t w (wait ms) tt {| jw_db := jw_db w; jw_clock := clock |}
| jp_stopping b : job_performs t w isStopping b w
| jp_aborted b : job_performs t w isAborted b w
| jp_sql s a w' : statement_done s w a w' -> job_performs t w (sql s) a w'
| jp_handler id job a : job_performs t w (runHandler id job) a w
| jp_settings a : job_performs t w readSettings a w
| jp_instance a : job_performs t w readInstance a w
| jp_reconciliation failed id errorMessage a : job_performs t w (reconciliationRun failed id errorMessage) a w
| jp_outOfTurns : job_performs t w outOfTurns tt w.

(** Time passes, and handlers write the archives and derivatives they make. *)
Inductive job_elsewhere (w : JobWorld) : JobWorld -> Prop :=
| je_time clock :
    jw_clock w <= clock -> job_elsewhere w {| jw_db := jw_db w; jw_clock := clock |}
| je_made archives derivatives :
    job_elsewhere w (set_jobsDb (set_archives archives (set_derivatives derivatives (jw_db w))) w).
