(* ===== verification/JobFacts.v ===== *)
(** * Facts of the queue

    The lanes and the order of the queue, the delays, what a statement writes to
    the rows, when rows are well-formed, and [life_step], the life a job is meant
    to have. *)

From Stdlib Require String.
From Stdlib Require Import QArith Qround Lqa.
From S2P Require Import Prelude Database MutationPrepare Jobs JobWorker.

Open Scope Z_scope.

(** ** Lanes *)

(** Every job of a kind that is supported is in one lane and no other. *)
Definition laneOfJob (spec : JobSpec) : BackgroundJobLane :=
  if satisfied (smallArchive spec) then small_archive_lane
  else if satisfied (smallMedia spec) then small_media_lane else general_lane.

Lemma in_lane spec lane :
  js_kind spec ∈ ALL_SUPPORTED_JOB_KINDS ->
  satisfied (inLane lane spec) = true <-> lane = laneOfJob spec.
Proof.
  intros Hk. unfold laneOfJob, inLane, smallArchive, smallMedia. rewrite (bool_decide_eq_true_2 _ Hk).
  assert (Hne : ZIP_ARCHIVE_GENERATE_JOB_KIND <> MEDIA_DERIVATIVE_GENERATE_JOB_KIND) by done.
  unfold payloadKindIs, payloadKindIsNull.
  destruct (decide (js_kind spec = ZIP_ARCHIVE_GENERATE_JOB_KIND)) as [E|Hz];
    [rewrite E, (bool_decide_eq_true_2 (_ = ZIP_ARCHIVE_GENERATE_JOB_KIND)) by done;
     rewrite (bool_decide_eq_false_2 (_ = MEDIA_DERIVATIVE_GENERATE_JOB_KIND)) by done
    |rewrite (bool_decide_eq_false_2 (_ = ZIP_ARCHIVE_GENERATE_JOB_KIND)) by done];
    destruct (bool_decide (js_priority spec = _)); try destruct (bool_decide (js_kind spec = _));
    destruct (payloadKind (js_payloadJson spec)) as [[]|]; cbn;
    repeat match goal with |- context [bool_decide ?p] => destruct (bool_decide p) end;
    destruct lane; cbn; split; done.
Qed.

(** ** The order of the queue *)

#[export] Instance queueOrder_total : Total queueOrder.
Proof.
  intros a b. unfold queueOrder.
  destruct (String.leb_total a.1 b.1) as [E|E];
    destruct (Z.lt_trichotomy (js_priority (jb_spec a.2)) (js_priority (jb_spec b.2))) as [?|[?|?]];
    destruct (Z.lt_trichotomy (jb_runAt a.2) (jb_runAt b.2)) as [?|[?|?]];
    try (left; lia); try (right; lia);
    [left|right]; right; split; try lia; right; split; try lia; exact E.
Qed.

Lemma leb_trans s1 s2 s3 :
  String.leb s1 s2 = true -> String.leb s2 s3 = true -> String.leb s1 s3 = true.
Proof.
  intros H1 H2. apply Is_true_eq_true.
  exact (transitivity (R := String.le) (Is_true_eq_left _ H1) (Is_true_eq_left _ H2)).
Qed.

#[export] Instance queueOrder_trans : Transitive queueOrder.
Proof.
  intros a b c. unfold queueOrder.
  intros [?|(? & [?|[? H1]])] [?|(? & [?|[? H2]])]; try (left; lia); right; (split; [lia|]);
    try (left; lia); right. split; [lia|]. eauto using leb_trans.
Qed.

#[export] Instance dueOrder_total : Total dueOrder.
Proof.
  intros a b. unfold dueOrder. destruct (String.leb_total a.1 b.1);
    destruct (Z.lt_trichotomy (jb_runAt a.2) (jb_runAt b.2)) as [?|[?|?]]; auto with lia.
Qed.
#[export] Instance dueOrder_trans : Transitive dueOrder.
Proof.
  intros a b c. unfold dueOrder. intros [?|[? H1]] [?|[? H2]]; try (left; lia).
  right. split; [lia|]. eauto using leb_trans.
Qed.

(** The head of a sorted list is its least element. *)
Lemma head_of_sorted {A} (R : A -> A -> Prop) `{forall x y, Decision (R x y)}
  `{!Total R} `{!Transitive R} l :
  match head (merge_sort R l) with
  | Some x => x ∈ l /\ forall y, y ∈ l -> R x y
  | None => l = []
  end.
Proof.
  assert (Hrefl : forall x : A, R x x) by (intros x; by destruct (total R x x)).
  pose proof (StronglySorted_merge_sort R l) as Hs. pose proof (merge_sort_Permutation R l) as Hp.
  destruct (merge_sort R l) as [|x l'] eqn:E; cbn; [by apply Permutation_nil_l in Hp|].
  split; [by rewrite <- Hp; left|]. intros y. rewrite <- Hp. intros [->|Hy]%elem_of_cons; [done|].
  apply StronglySorted_inv in Hs as [_ Hs]. rewrite Forall_forall in Hs. by apply Hs.
Qed.

Lemma jobs_that p db id j : (id, j) ∈ jobsThat p db <-> jd_jobs db !! id = Some j /\ p j = true.
Proof.
  unfold jobsThat. rewrite list_elem_of_filter, elem_of_map_to_list. cbn. naive_solver.
Qed.

Lemma firstOf_first p db :
  match firstOf p db with
  | Some (id, j) =>
      jd_jobs db !! id = Some j /\ p j = true /\
      forall id' j', jd_jobs db !! id' = Some j' -> p j' = true -> queueOrder (id, j) (id', j')
  | None => forall id j, jd_jobs db !! id = Some j -> p j = false
  end.
Proof.
  unfold firstOf. pose proof (head_of_sorted queueOrder (jobsThat p db)) as H.
  destruct (head _) as [[id j]|].
  - destruct H as [[H1 H2]%jobs_that H]. split_and!; [done..|]. intros id' j' H3 H4.
    apply H, jobs_that. by split.
  - intros id j Hj. apply not_true_is_false. intros Hp.
    assert (Hin : (id, j) ∈ jobsThat p db) by by apply jobs_that. rewrite H in Hin.
    by apply elem_of_nil in Hin.
Qed.

(** C32: Every due job of a supported kind is offered by exactly one lane of its
    queue, and that lane takes a job due there before which none comes. *)
Theorem each_due_job_has_one_lane db now id j :
  jd_jobs db !! id = Some j -> js_kind (jb_spec j) ∈ ALL_SUPPORTED_JOB_KINDS ->
  claimable now j = true ->
  exists lane,
    (forall lane', offered (js_queueName (jb_spec j)) lane' now j = true <-> lane' = lane) /\
    exists first firstJob,
      findDueJob (js_queueName (jb_spec j)) lane now db = Some (first, firstJob) /\
      jd_jobs db !! first = Some firstJob /\
      offered (js_queueName (jb_spec j)) lane now firstJob = true /\
      forall id' j', jd_jobs db !! id' = Some j' ->
        offered (js_queueName (jb_spec j)) lane now j' = true ->
        queueOrder (first, firstJob) (id', j').
Proof.
  intros Hj Hk Hc. set (queue := js_queueName (jb_spec j)).
  assert (Hoff : forall lane', offered queue lane' now j = true <-> lane' = laneOfJob (jb_spec j)).
  { intros lane'. unfold offered. rewrite Hc, bool_decide_eq_true_2, !andb_true_r by done.
    by apply in_lane. }
  exists (laneOfJob (jb_spec j)). split; [exact Hoff|]. unfold findDueJob.
  pose proof (firstOf_first (offered queue (laneOfJob (jb_spec j)) now) db) as H.
  destruct (firstOf _ _) as [[first firstJob]|]; [naive_solver|].
  specialize (H id j Hj). by rewrite (proj2 (Hoff _) eq_refl) in H.
Qed.

(** ** Delays *)

Lemma Qfloor_between (q : Q) (lo hi : Z) :
  (inject_Z lo <= q)%Q -> (q < inject_Z (hi + 1))%Q -> lo <= Qfloor q <= hi.
Proof.
  intros Hl Hh. split.
  - rewrite <- (Qfloor_Z lo). by apply Qfloor_resp_le.
  - pose proof (Qfloor_le q). assert (inject_Z (Qfloor q) < inject_Z (hi + 1))%Q as Hq.
    { by eapply Qle_lt_trans. }
    rewrite <- Zlt_Qlt in Hq. lia.
Qed.

Definition baseDelayMs (attemptCount : Z) : Z :=
  Z.min (BACKGROUND_JOB_RETRY_DELAY_MS * 2 ^ Z.max 0 (attemptCount - 1))
    BACKGROUND_JOB_RETRY_DELAY_MAX_MS.

Lemma baseDelay_bounds n : exists k, baseDelayMs n = 5 * k /\ 6000 <= k <= 180000.
Proof.
  unfold baseDelayMs, BACKGROUND_JOB_RETRY_DELAY_MS, BACKGROUND_JOB_RETRY_DELAY_MAX_MS.
  pose proof (Z.pow_pos_nonneg 2 (Z.max 0 (n - 1))) as Hp. destruct (Z.min_spec (30000 * 2 ^ Z.max 0 (n - 1)) (15 * 60 * 1000)) as [[? ->]|[? ->]].
  - exists (6000 * 2 ^ Z.max 0 (n - 1)). lia.
  - exists 180000. lia.
Qed.

(** A fifth either way of what the attempt calls for. *)
Lemma retry_delay_near (n : Z) (random : Q) :
  (0 <= random)%Q -> (random < 1)%Q ->
  4 * baseDelayMs n <= 5 * retryDelayMs n (jitterOf random) <= 6 * baseDelayMs n.
Proof.
  intros Hl Hh. destruct (baseDelay_bounds n) as (k & Hb & Hk).
  assert (Hd : 4 * k <= Qfloor (inject_Z (5 * k) * (1 + jitterOf random) + (1 # 2)) <= 6 * k).
  { assert (H0 : (0 < inject_Z k)%Q) by (change 0%Q with (inject_Z 0); rewrite <- Zlt_Qlt; lia).
    apply Qfloor_between; unfold jitterOf; rewrite ?inject_Z_plus, !inject_Z_mult;
      change (inject_Z 4) with 4%Q; change (inject_Z 5) with 5%Q; change (inject_Z 6) with 6%Q;
      change (inject_Z 1) with 1%Q; nra. }
  unfold retryDelayMs. fold (baseDelayMs n). rewrite Hb. lia.
Qed.

(** A pause after a conflict is no shorter than 25 ms. *)
Lemma conflict_pause attempt (random : Q) :
  0 <= attempt -> (0 <= random)%Q -> 25 <= conflictPauseMs attempt random.
Proof.
  intros Ha Hr.
  assert (Hp : (1 <= inject_Z (2 ^ Z.min attempt 3))%Q).
  { change 1%Q with (inject_Z 1). rewrite <- Zle_Qle.
    pose proof (Z.pow_pos_nonneg 2 (Z.min attempt 3)). lia. }
  clear Ha. unfold conflictPauseMs. revert Hp.
  generalize (inject_Z (2 ^ Z.min attempt 3)) as p. intros p Hp.
  assert (Hrp : (0 <= random * p)%Q) by (apply Qmult_le_0_compat; lra).
  assert (H : (inject_Z 25 <= (25 + random * 25) * p)%Q) by (change (inject_Z 25) with 25%Q; lra).
  apply Qfloor_resp_le in H. by rewrite Qfloor_Z in H.
Qed.

(** ** What a statement writes *)

Inductive writes : Statement -> string -> BackgroundJobRecord -> BackgroundJobRecord -> Prop :=
| wr_claim id seen w now leaseMs j :
    claimable now j = true ->
    writes (st_claim id seen w now leaseMs) id j (claimedBy w now leaseMs seen j)
| wr_renew id w now leaseMs progress j :
    claimedAs w j = true ->
    writes (st_renew id w now leaseMs progress) id j (renewed now leaseMs progress j)
| wr_succeed id w now j :
    heldBy w j = true -> writes (st_succeed id w now) id j (succeededAt now j)
| wr_fail id w now message code j :
    heldBy w j = true -> writes (st_fail id w now message code) id j (failedAt now message code j)
| wr_putBack id seen w now delay message code j :
    writes (st_putBack id seen w now delay message code) id j (putBack now delay message code seen j)
| wr_failWithin id w now message code j :
    heldBy w j = true ->
    writes (st_failWithin id w now message code) id j (failedAt now message code j)
| wr_admin action id seen actor now j :
    writes (st_admin action id seen actor now) id j (actionData action now actor j).

(** What became of the rows: nothing, a write to one, or a new one. *)
Inductive changed (s : Statement) (jobs : gmap string BackgroundJobRecord) :
    gmap string BackgroundJobRecord -> Prop :=
| ch_nothing : changed s jobs jobs
| ch_write id j j' : jobs !! id = Some j -> writes s id j j' -> changed s jobs (<[id := j']> jobs)
| ch_new input id :
    s = st_enqueue input id -> jobs !! id = None -> changed s jobs (<[id := newJob input]> jobs).

Lemma update_changed s id p f db count db' :
  updateJob id p f db = Ok (count, db') ->
  (forall j, p j = true -> writes s id j (f j)) -> changed s (jd_jobs db) (jd_jobs db').
Proof.
  unfold updateJob. intros H Hw. destruct (jd_jobs db !! id) as [j|] eqn:E; [|by simplify_eq; apply ch_nothing].
  destruct (p j) eqn:Ep; simplify_eq; [|by apply ch_nothing]. eapply ch_write; eauto.
Qed.

Lemma afterCancel_jobs id seen db : jd_jobs (afterCancel id seen db) = jd_jobs db.
Proof. unfold afterCancel. repeat case_match; done. Qed.

Lemma runs_changed s db a db' : runs s db = Ok (a, db') -> changed s (jd_jobs db) (jd_jobs db').
Proof.
  destruct s; cbn [runs]; intros H;
    try (unfold registerWorker, heartbeat, stopWorker, updateWorker in H;
         repeat case_match; simplify_eq; by apply ch_nothing);
    try (eapply update_changed; [exact H|]; intros j Hj; by constructor).
  - unfold claimRow in H. destruct (jd_jobs db !! id) as [j|] eqn:E; [|by simplify_eq; apply ch_nothing].
    destruct (claimable now j) eqn:Ec; simplify_eq; [|by apply ch_nothing].
    eapply ch_write; [exact E|by constructor].
  - unfold putBackRow in H. destruct (jd_jobs db !! id) as [j|] eqn:E; simplify_eq.
    eapply ch_write; [exact E|constructor].
  - unfold failInTransaction in H. destruct (failRow _ _ _ _ _ db) as [[count db1]|] eqn:E; [|done].
    case_match; simplify_eq. apply (update_changed _ _ _ _ _ _ _ E). intros j Hj. by constructor.
  - unfold adminRow in H. destruct (jd_jobs db !! id) as [j|] eqn:E; simplify_eq.
    match goal with |- changed _ _ ?jobs =>
      replace jobs with (<[id := actionData action now actorUserId j]> (jd_jobs db)) end.
    + eapply ch_write; [exact E|constructor].
    + destruct action; cbn; by rewrite ?afterCancel_jobs.
  - unfold enqueue in H. destruct (head _) as [existing|]; [by simplify_eq; apply ch_nothing|].
    destruct (jd_jobs db !! id) eqn:E; simplify_eq. by eapply ch_new.
Qed.

(** ** Well-formed jobs *)

(** A worker has the job, until some time. *)
Definition leased (j : BackgroundJobRecord) : Prop :=
  exists lockedAt lockedBy leaseExpiresAt,
    jb_lease j = {| jl_lockedAt := Some lockedAt; jl_lockedBy := Some lockedBy;
                    jl_leaseExpiresAt := Some leaseExpiresAt |}.

(** A running job has a holder and a lease, was started and was claimed at least
    once; one that waits, succeeded, failed or is dead has neither holder nor
    lease, and is completed unless it waits. A dead job has used all its
    attempts. A cancelled job says when and by whom; it has no lease, or that of
    the worker that was running it when a dismissal came too late. *)
Definition statusOk (j : BackgroundJobRecord) : Prop :=
  match jb_status j with
  | job_queued => jb_lease j = noLease /\ jb_completedAt j = None
  | job_running =>
      leased j /\ jb_startedAt j <> None /\ jb_completedAt j = None /\ 1 <= jb_attemptCount j
  | job_succeeded | job_failed => jb_lease j = noLease /\ jb_completedAt j <> None
  | job_dead =>
      jb_lease j = noLease /\ jb_completedAt j <> None /\
      js_maxAttempts (jb_spec j) <= jb_attemptCount j
  | job_cancelled =>
      jb_cancelledAt j <> None /\ jb_cancelledByUserId j <> None /\
      (jb_lease j = noLease \/
       (leased j /\ jb_startedAt j <> None /\ jb_completedAt j = None /\ 1 <= jb_attemptCount j))
  end.
Definition jobOk (j : BackgroundJobRecord) : Prop := 0 <= jb_attemptCount j /\ statusOk j.

Definition jobsOk (jobs : gmap string BackgroundJobRecord) : Prop :=
  map_Forall (fun _ j => jobOk j) jobs.

(** A later row of the same job. *)
Definition laterRow (j j' : BackgroundJobRecord) : Prop :=
  jb_spec j' = jb_spec j /\ jb_attemptCount j <= jb_attemptCount j'.
Definition grows (jobs jobs' : gmap string BackgroundJobRecord) : Prop :=
  forall id j, jobs !! id = Some j -> exists j', jobs' !! id = Some j' /\ laterRow j j'.

#[export] Instance laterRow_preorder : PreOrder laterRow.
Proof. split; [by split|]. intros a b c [H1 H2] [H3 H4]. split; [congruence|lia]. Qed.

#[export] Instance grows_preorder : PreOrder grows.
Proof.
  split; [intros jobs id j Hj; by exists j|]. intros a b c Hab Hbc id j Hj.
  destruct (Hab id j Hj) as (j' & Hj' & H1). destruct (Hbc id j' Hj') as (j'' & Hj'' & H2).
  exists j''. split; [done|]. by transitivity j'.
Qed.

(** When a caller may run a statement: a claim's time has come, a worker gives its
    name, and what was read of the row was the row. *)
Definition named (workerId : option string) : Prop :=
  exists w, workerId = Some w /\ w <> "".
Definition statementOk (clock : Z) (jobs : gmap string BackgroundJobRecord) (s : Statement) : Prop :=
  match s with
  | st_claim _ _ _ now _ => now <= clock
  | st_succeed _ w _ | st_fail _ w _ _ _ | st_failWithin _ w _ _ _ => named w
  | st_putBack id seen w _ _ _ _ =>
      named w /\ exists j, jobs !! id = Some j /\ laterRow seen j
  | _ => True
  end.

Lemma heldBy_claimedAs w j : named w -> heldBy w j = true -> exists name, w = Some name /\ claimedAs name j = true.
Proof. intros (name & -> & Hn) H. exists name. split; [done|]. by destruct name. Qed.

Lemma claimedAs_running w j :
  claimedAs w j = true -> jb_status j = job_running /\ jl_lockedBy (jb_lease j) = Some w.
Proof. unfold claimedAs. intros [?%bool_decide_eq_true ?%bool_decide_eq_true]%andb_true_iff. done. Qed.

(** A claim can take only what its time allows. *)
Lemma claimable_when now j :
  jobOk j -> claimable now j = true ->
  (jb_status j = job_queued /\ jb_runAt j <= now) \/
  (jb_status j = job_running /\
   exists until, jl_leaseExpiresAt (jb_lease j) = Some until /\ until <= now).
Proof.
  intros [_ Hs] Hc. unfold claimable, statusOk in *. destruct (jb_status j); try done.
  - left. by apply bool_decide_eq_true in Hc.
  - right. destruct Hs as [(la & lb & until & E) _]. rewrite E in *. split; [done|]. exists until.
    by apply bool_decide_eq_true in Hc.
Qed.

Lemma writes_later s id j j' : writes s id j j' -> laterRow j j'.
Proof.
  destruct 1 as [| | | | id seen| |action]; try (split; [done|cbn; lia]).
  - unfold putBack. destruct (shouldDeadLetter seen); by split.
  - by destruct action.
Qed.

Lemma writes_ok clock jobs s id j j' :
  statementOk clock jobs s -> jobs !! id = Some j -> jobOk j -> writes s id j j' -> jobOk j'.
Proof.
  intros Hok Hj [Ha Hs] Hw.
  destruct Hw as [id seen w now leaseMs j Hc|id w now leaseMs progress j Hc| | |id seen w now delay message code j| |action id seen actor now j];
    try (by split_and!).
  - split; cbn; [lia|]. unfold statusOk. cbn. split_and!; [by eexists _, _, _|done|done|lia].
  - apply claimedAs_running in Hc as [Hst Hby]. split; [done|]. unfold statusOk in *. cbn in *.
    rewrite Hst in *. destruct Hs as [_ H]. split; [|exact H]. unfold leased. cbn. rewrite Hby. by eexists _, _, _.
  - destruct Hok as [_ (j0 & Hj0 & Hsp & Hat)]. rewrite Hj in Hj0. injection Hj0 as <-.
    unfold putBack, shouldDeadLetter. destruct (bool_decide_reflect (js_maxAttempts (jb_spec seen) <= jb_attemptCount seen));
      (split; [done|]); cbn; [|done]. unfold statusOk. cbn. rewrite Hsp. split_and!; [done|done|lia].
  - destruct action; (split; [done|]); cbn; try by split_and!; auto.
    split_and!; [done|done|]. unfold statusOk in Hs. destruct (jb_status j); tauto.
Qed.

(** ** The life of a job *)

(** It waits until it is due, is held by a worker until the lease runs out, and
    ends; each claim is an attempt. *)
Inductive JobLife :=
| Waiting (due attempts : Z)
| Held (worker : string) (until attempts : Z)
| Ended (status : BackgroundJobStatus) (attempts : Z).

Definition lifeOf (j : BackgroundJobRecord) : JobLife :=
  match jb_status j with
  | job_queued => Waiting (jb_runAt j) (jb_attemptCount j)
  | job_running =>
      Held (default "" (jl_lockedBy (jb_lease j))) (default 0 (jl_leaseExpiresAt (jb_lease j)))
        (jb_attemptCount j)
  | status => Ended status (jb_attemptCount j)
  end.

Inductive Actor := byWorker (name : string) | byAdmin (action : AdminAction).

(** [most] is how many attempts a job has, [clock] the time. *)
Inductive life_step (most clock : Z) : Actor -> JobLife -> JobLife -> Prop :=
| ls_claims w due until n :
    due <= clock -> life_step most clock (byWorker w) (Waiting due n) (Held w until (n + 1))
| ls_takes_over w v ran_out until n :
    ran_out <= clock -> life_step most clock (byWorker w) (Held v ran_out n) (Held w until (n + 1))
| ls_renews w before until n :
    life_step most clock (byWorker w) (Held w before n) (Held w until n)
| ls_succeeds w until n :
    life_step most clock (byWorker w) (Held w until n) (Ended job_succeeded n)
| ls_fails w until n :
    life_step most clock (byWorker w) (Held w until n) (Ended job_failed n)
| ls_tries_again w until due n :
    n < most -> life_step most clock (byWorker w) (Held w until n) (Waiting due n)
| ls_dies w until n :
    most <= n -> life_step most clock (byWorker w) (Held w until n) (Ended job_dead n)
| ls_is_cancelled life n :
    (exists due, life = Waiting due n) \/ (exists w until, life = Held w until n) ->
    life_step most clock (byAdmin cancel_action) life (Ended job_cancelled n)
| ls_is_dismissed status n :
    status ∈ [job_failed; job_dead] ->
    life_step most clock (byAdmin dismiss_action) (Ended status n) (Ended job_cancelled n)
| ls_is_retried status due n :
    status ∈ [job_failed; job_dead; job_cancelled] ->
    life_step most clock (byAdmin retry_action) (Ended status n) (Waiting due n).

Definition actorOf (s : Statement) : option Actor :=
  match s with
  | st_claim _ _ w _ _ | st_renew _ w _ _ _ => Some (byWorker w)
  | st_succeed _ w _ | st_fail _ w _ _ _ | st_putBack _ _ w _ _ _ _ | st_failWithin _ w _ _ _ =>
      byWorker <$> w
  | st_admin action _ _ _ _ => Some (byAdmin action)
  | _ => None
  end.

(** An update by the id alone that comes too late: the worker that reports a
    failure no longer holds the job in the attempt it read, or the status no
    longer permits the action. *)
Definition tooLate (s : Statement) (id : string) (j : BackgroundJobRecord) : Prop :=
  match s with
  | st_putBack id' seen w _ _ _ _ =>
      id' = id /\ ~ (heldBy w j = true /\ jb_attemptCount j = jb_attemptCount seen)
  | st_admin action id' _ _ _ => id' = id /\ jb_status j ∉ actionFrom action
  | _ => False
  end.
#[export] Instance tooLate_dec s id j : Decision (tooLate s id j).
Proof. destruct s; cbn; apply _. Defined.

Lemma claimed_is_held w j :
  jobOk j -> claimedAs w j = true -> exists until, lifeOf j = Held w until (jb_attemptCount j).
Proof. intros _ [E Hby]%claimedAs_running. unfold lifeOf. rewrite E, Hby. cbn. eauto. Qed.

Lemma held_life w j :
  jobOk j -> named w -> heldBy w j = true ->
  exists name until, w = Some name /\ lifeOf j = Held name until (jb_attemptCount j).
Proof.
  intros Hok Hn H. destruct (heldBy_claimedAs _ _ Hn H) as (name & -> & Hc).
  destruct (claimed_is_held _ _ Hok Hc) as [until E]. eauto.
Qed.

(** A write that does not come too late is a step of the job's life. *)
Lemma writes_live clock jobs s id j j' :
  statementOk clock jobs s -> jobs !! id = Some j -> jobOk j -> writes s id j j' ->
  ~ tooLate s id j ->
  exists actor, actorOf s = Some actor /\
    life_step (js_maxAttempts (jb_spec j)) clock actor (lifeOf j) (lifeOf j').
Proof.
  intros Hok Hj Hjob Hw Hl.
  destruct Hw as [id seen w now leaseMs j Hc|id w now leaseMs progress j Hc|id w now j Hh|id w now message code j Hh|id seen w now delay message code j|id w now message code j Hh|action id seen actor now j];
    cbn [statementOk actorOf tooLate] in *.
  - exists (byWorker w). split; [done|].
    destruct (claimable_when _ _ Hjob Hc) as [[E Hd]|[E (until & El & Hu)]];
      unfold lifeOf at 1; rewrite E, ?El; constructor; cbn; lia.
  - exists (byWorker w). split; [done|]. destruct (claimed_is_held _ _ Hjob Hc) as [until ->].
    apply claimedAs_running in Hc as [E Hby]. unfold lifeOf. cbn. rewrite E, Hby. constructor.
  - destruct (held_life _ _ Hjob Hok Hh) as (name & until & -> & ->). exists (byWorker name).
    split; [done|constructor].
  - destruct (held_life _ _ Hjob Hok Hh) as (name & until & -> & ->). exists (byWorker name).
    split; [done|constructor].
  - destruct Hok as [Hn (j0 & Hj0 & Hsp & _)]. rewrite Hj in Hj0. injection Hj0 as <-.
    destruct (decide (heldBy w j = true /\ jb_attemptCount j = jb_attemptCount seen))
      as [[Hh Hat]|]; [|tauto].
    destruct (held_life _ _ Hjob Hn Hh) as (name & until & -> & ->). exists (byWorker name).
    split; [done|]. unfold putBack, shouldDeadLetter.
    destruct (bool_decide_reflect (js_maxAttempts (jb_spec seen) <= jb_attemptCount seen));
      unfold lifeOf; cbn; constructor; rewrite Hsp; lia.
  - destruct (held_life _ _ Hjob Hok Hh) as (name & until & -> & ->). exists (byWorker name).
    split; [done|constructor].
  - exists (byAdmin action). split; [done|].
    destruct (decide (jb_status j ∈ actionFrom action)) as [Hin|]; [|tauto].
    unfold lifeOf. destruct action; cbn in Hin |- *; destruct (jb_status j) eqn:E;
      try (by rewrite !elem_of_cons, elem_of_nil in Hin; naive_solver);
      constructor; first [by eauto|done|set_solver].
Qed.

(** ** Scheduling *)

(** A job that is still to be run: it waits, or a worker's lease on it has not run
    out. A row without the end of its lease has a minute from when it was locked. *)
Definition stillToRun (now : Z) (j : BackgroundJobRecord) : Prop :=
  jb_status j = job_queued \/
  (jb_status j = job_running /\ exists until, now <= until /\
     (jl_leaseExpiresAt (jb_lease j) = Some until \/
      (jl_leaseExpiresAt (jb_lease j) = None /\
       jl_lockedAt (jb_lease j) = Some (until - 60000)))).

(** What is asked for has a key. *)
Definition keyed (spec : JobSpec) (key : string) : Prop :=
  key <> "" /\ js_dedupeKey spec = Some key.
Definition keyless (spec : JobSpec) : Prop :=
  js_dedupeKey spec = None \/ js_dedupeKey spec = Some "".

(** A job that does what is asked for: of its kind and with its key; without a key,
    of its kind and queue and due before the window ends. *)
Definition doesTheWork (input : ScheduleInput) (j : BackgroundJobRecord) : Prop :=
  js_kind (jb_spec j) = js_kind (si_spec input) /\ stillToRun (si_now input) j /\
  ((exists key, keyed (si_spec input) key /\ js_dedupeKey (jb_spec j) = Some key) \/
   (keyless (si_spec input) /\ js_queueName (jb_spec j) = js_queueName (si_spec input) /\
    jb_runAt j <= si_windowEnd input)).

Lemma isActive_spec now j : isActive now j = true <-> stillToRun now j.
Proof.
  unfold isActive, stillToRun, BACKGROUND_JOB_LEASE_MS.
  destruct (jb_status j); try (split; [done|by intros [?|[? _]]]); [by split; [left|]|].
  destruct (jl_leaseExpiresAt (jb_lease j)) as [until|].
  - rewrite bool_decide_eq_true. naive_solver.
  - destruct (jl_lockedAt (jb_lease j)) as [at_|]; [|naive_solver].
    rewrite bool_decide_eq_true. split.
    + intros Hle. right. split; [done|]. exists (at_ + 60000). split; [lia|]. right.
      split; [done|]. f_equal. lia.
    + intros [?|(_ & until & Hle & [?|[_ [= ->]]])]; [done..|lia].
Qed.

Lemma key_cases spec : keyless spec \/ exists key, keyed spec key.
Proof.
  unfold keyless, keyed. destruct (js_dedupeKey spec) as [[|c s]|]; [by left; right| |by left; left].
  right. by exists (String c s).
Qed.

Lemma sameWork_spec input j : sameWork input j = true <-> doesTheWork input j.
Proof.
  assert (Hk : (match js_dedupeKey (si_spec input) with
     | None | Some EmptyString =>
         bool_decide (js_queueName (jb_spec j) = js_queueName (si_spec input))
         && bool_decide (jb_runAt j <= si_windowEnd input)
     | Some key => bool_decide (js_dedupeKey (jb_spec j) = Some key)
     end = true) <->
    ((exists key, keyed (si_spec input) key /\ js_dedupeKey (jb_spec j) = Some key) \/
     (keyless (si_spec input) /\ js_queueName (jb_spec j) = js_queueName (si_spec input) /\
      jb_runAt j <= si_windowEnd input))).
  { unfold keyed, keyless. destruct (js_dedupeKey (si_spec input)) as [[|c s]|];
      rewrite ?andb_true_iff, !bool_decide_eq_true.
    - split; [intros [? ?]; right; split_and!; auto|]. intros [(key & [? [= <-]] & _)|(_ & ? & ?)]; done.
    - split; [intros E; left; by exists (String c s)|].
      by intros [(key & [_ [= <-]] & E)|([?|?] & _)].
    - split; [intros [? ?]; right; split_and!; auto|]. by intros [(key & [_ ?] & _)|(_ & ? & ?)]. }
  unfold sameWork, doesTheWork. rewrite !andb_true_iff, bool_decide_eq_true, isActive_spec, Hk. tauto.
Qed.

(** A job comes before those that are due later, and of two due at once the one with
    the smaller id. *)
Definition comesFirst (id : string) (j : BackgroundJobRecord) (other : string)
    (k : BackgroundJobRecord) : Prop :=
  jb_runAt j < jb_runAt k \/ (jb_runAt j = jb_runAt k /\ String.leb id other = true).

(** Nothing else of the database changes. *)
Definition onlyJobMade (id : string) (j : BackgroundJobRecord) (db db' : JobsDB) : Prop :=
  jd_jobs db' = <[id := j]> (jd_jobs db) /\
  (exists e, jd_events db' = jd_events db ++ [e] /\ je_jobId e = id /\ je_type e = "queued") /\
  jd_workers db' = jd_workers db /\ jd_archives db' = jd_archives db /\
  jd_derivatives db' = jd_derivatives db.

Definition freshJob (input : ScheduleInput) (j : BackgroundJobRecord) : Prop :=
  jb_spec j = si_spec input /\ jb_status j = job_queued /\ jb_runAt j = si_runAt input /\
  jb_lease j = noLease /\ jb_attemptCount j = 0 /\ jb_completedAt j = None.

Lemma freshJob_works input j :
  freshJob input j -> (exists key, keyed (si_spec input) key) \/ si_runAt input <= si_windowEnd input ->
  doesTheWork input j.
Proof.
  intros (Es & Est & Er & _) Hk. unfold doesTheWork, stillToRun. rewrite Es, Est, Er.
  split_and!; [done|by left|]. destruct (key_cases (si_spec input)) as [Hn|[key Hy]].
  - right. split_and!; [done|done|]. destruct Hk as [[key [Hne E]]|]; [|done].
    unfold keyless in Hn. rewrite E in Hn. naive_solver.
  - left. exists key. split; [done|]. apply Hy.
Qed.

(** The first of those that do the work, or none does. *)
Lemma enqueue_finds input id db :
  match head (merge_sort dueOrder (jobsThat (sameWork input) db)) with
  | Some (found, j) => enqueue input id db = Ok (false, (found, j), db) /\
      jd_jobs db !! found = Some j /\ doesTheWork input j /\
      forall other k, jd_jobs db !! other = Some k -> doesTheWork input k -> comesFirst found j other k
  | None => forall other k, jd_jobs db !! other = Some k -> ~ doesTheWork input k
  end.
Proof.
  pose proof (head_of_sorted dueOrder (jobsThat (sameWork input) db)) as H. unfold enqueue.
  destruct (head _) as [[found j]|].
  - destruct H as [[Hj Hw%sameWork_spec]%jobs_that H]. split_and!; [done..|].
    intros other k Hk Hs%sameWork_spec. apply (H (other, k)), jobs_that. by split.
  - intros other k Hk Hs%sameWork_spec.
    assert (Hin : (other, k) ∈ jobsThat (sameWork input) db) by by apply jobs_that.
    rewrite H in Hin. by apply elem_of_nil in Hin.
Qed.

(** A later call for the same work. *)
Definition asksAgain (input later : ScheduleInput) : Prop :=
  si_spec later = si_spec input /\ si_now input <= si_now later /\
  si_windowEnd input <= si_windowEnd later.

(** What did not do the work then and does it for the later call is due after the
    window of the first. *)
Lemma later_work input later k :
  asksAgain input later -> doesTheWork later k ->
  doesTheWork input k \/ (keyless (si_spec input) /\ si_windowEnd input < jb_runAt k).
Proof.
  intros (Es & Hn & He). unfold doesTheWork. rewrite Es. intros (Hk & Hr & Hw).
  assert (Hr' : stillToRun (si_now input) k).
  { destruct Hr as [Hq|(Hst & until & Hle & Hl)]; [by left|]. right. split; [done|].
    exists until. split; [lia|done]. }
  destruct Hw as [Hkey|(Hnk & Hq & Hat)]; [by left; split_and!; [..|left]|].
  destruct (Z.le_gt_cases (jb_runAt k) (si_windowEnd input)); [|right; split; [done|lia]].
  left. split_and!; [done|done|by right].
Qed.

Lemma made_is_found_again input id j db db' later id2 :
  (forall other k, jd_jobs db !! other = Some k -> ~ doesTheWork input k) ->
  freshJob input j -> jd_jobs db' = <[id := j]> (jd_jobs db) ->
  (exists key, keyed (si_spec input) key) \/ si_runAt input <= si_windowEnd input ->
  asksAgain input later -> enqueue later id2 db' = Ok (false, (id, j), db').
Proof.
  intros Hno Hfresh Hdb Hk Hlater. pose proof Hlater as (Es & _ & Hend).
  assert (Hj : doesTheWork later j).
  { destruct (freshJob_works input j Hfresh Hk) as (H1 & [Hst|[Hst _]] & H3).
    - unfold doesTheWork. rewrite Es. split_and!; [done|by left|].
      destruct H3 as [?|(?&?&?)]; [by left|right; split_and!; [done|done|lia]].
    - destruct Hfresh as (_ & E & _). congruence. }
  assert (Hin : jd_jobs db' !! id = Some j) by (by rewrite Hdb, lookup_insert_eq).
  pose proof (enqueue_finds later id2 db') as Hf.
  destruct (head _) as [[found f]|]; [|by destruct (Hf id j Hin)].
  destruct Hf as (-> & Hfound & Hw & Hfirst). rewrite Hdb in Hfound.
  destruct (decide (found = id)) as [->|Hne].
  { rewrite lookup_insert_eq in Hfound. by injection Hfound as ->. }
  rewrite lookup_insert_ne in Hfound by done. exfalso.
  destruct (later_work input later f Hlater Hw) as [Hold|[Hkl Hat]]; [by apply (Hno found f)|].
  destruct Hk as [[key [Hne' E]]|Hrun].
  { unfold keyless in Hkl. rewrite E in Hkl. naive_solver. }
  destruct Hfresh as (_ & _ & Er & _).
  destruct (Hfirst id j Hin Hj) as [?|[? _]]; lia.
Qed.

(** C33: Scheduling makes only the work that is missing. When jobs are still to be
    run that do what is asked for, it answers the one that is due first and
    writes nothing; when there is none, it makes one, waiting and due as asked,
    with its event, and nothing else of the database changes. It fails only when
    the id drawn for the new job is taken. Asked again for the same at any later
    time, it answers the job it made and makes no second one, provided that what
    is asked for has a key or is due before the window ends. *)
Theorem enqueue_makes_only_missing_work input id db :
  match enqueue input id db with
  | Ok (false, (found, j), db') =>
      db' = db /\ jd_jobs db !! found = Some j /\ doesTheWork input j /\
      forall other k, jd_jobs db !! other = Some k -> doesTheWork input k -> comesFirst found j other k
  | Ok (true, (made, j), db') =>
      (forall other k, jd_jobs db !! other = Some k -> ~ doesTheWork input k) /\
      made = id /\ jd_jobs db !! id = None /\ freshJob input j /\ onlyJobMade id j db db' /\
      ((exists key, keyed (si_spec input) key) \/ si_runAt input <= si_windowEnd input ->
       forall later id2, asksAgain input later -> enqueue later id2 db' = Ok (false, (id, j), db'))
  | Throw _ =>
      (forall other k, jd_jobs db !! other = Some k -> ~ doesTheWork input k) /\
      jd_jobs db !! id <> None
  end.
Proof.
  pose proof (enqueue_finds input id db) as Hf.
  unfold enqueue at 1. destruct (head _) as [[found j]|]; [by destruct Hf as (_ & Hf)|].
  destruct (jd_jobs db !! id) eqn:E; [by split|].
  assert (Hfresh : freshJob input (newJob input)) by by split_and!.
  split_and!; try done.
  - split_and!; try done. eexists. by split_and!.
  - intros Hk later id2 Hlater. by eapply (made_is_found_again input id _ db).
Qed.

(** ** The next hour *)

Lemma hourOffset_bounds createdAt : 0 <= hourOffset createdAt < HOUR_MS.
Proof.
  unfold hourOffset, HOUR_MS. set (x := default 0 createdAt).
  pose proof (Z.rem_bound_abs x (60 * 60 * 1000)) as H. apply Z.rem_bound_pos; lia.
Qed.

(** The next update check is within the hour, at the installation's own point of
    it. *)
Lemma update_check_within_the_hour instance now :
  now < nextUpdateCheckAt instance now <= now + HOUR_MS /\
  nextUpdateCheckAt instance now mod HOUR_MS = hourOffset (it_createdAt <$> instance).
Proof.
  pose proof (hourOffset_bounds (it_createdAt <$> instance)) as Ho.
  unfold nextUpdateCheckAt. unfold HOUR_MS in *.
  set (offset := hourOffset _) in *. pose proof (Z.mod_pos_bound now (60 * 60 * 1000)) as Hm.
  pose proof (Z.div_mod now (60 * 60 * 1000)) as Hd.
  case_bool_decide; split; try lia.
  - rewrite Z.add_comm, Z.mod_add by lia. by apply Z.mod_small.
  - rewrite (Z.add_comm (_ * _)), <- Z.add_assoc, <- (Z.mul_succ_l (now / _)), Z.mod_add by lia.
    by apply Z.mod_small.
Qed.

(** The next daily run comes after now, when the days of a zone follow each other. *)
Lemma daily_run_is_later isValidTimeZone dayOf instantOf addDay settings now :
  (forall zone day time, dayOf zone (instantOf zone day time) = day) ->
  (forall zone at_, dayOf zone (addDay zone at_) = dayOf zone at_ + 1) ->
  (forall zone a b, a <= b -> dayOf zone a <= dayOf zone b) ->
  now < nextDailyRunAtUtc isValidTimeZone dayOf instantOf addDay settings now.
Proof.
  intros Hon Hadd Hmono. unfold nextDailyRunAtUtc. set (zone := normalizeTimeZone _ _).
  set (candidate := instantOf _ _ _). case_bool_decide; [|lia].
  destruct (Z.lt_ge_cases now (addDay zone candidate)) as [|Hge]; [done|].
  pose proof (Hmono zone _ _ Hge) as Hday. rewrite Hadd in Hday. unfold candidate in Hday.
  rewrite Hon in Hday. lia.
Qed.
