(* ===== verification/JobServing.v ===== *)
(** * What the queue promises

    Workers, administrators and schedulers run at once, each at any of its
    effects, and any of them may die. Every step of every reachable system
    follows the life of each job, unless it is an update by the id alone that
    comes too late. *)

From Stdlib Require String.
From Stdlib Require Import QArith.
From S2P Require Import Prelude Database MutationPrepare Async Requests Jobs JobWorker JobFacts.

Open Scope Z_scope.

(** ** Rely and guarantee *)

Notation jobsIn w := (jd_jobs (jw_db w)).

Definition jobInv (w : JobWorld) : Prop := jobsOk (jobsIn w).

(** Time goes forward, and rows become later rows. *)
Definition worldGrows (w w' : JobWorld) : Prop :=
  jw_clock w <= jw_clock w' /\ grows (jobsIn w) (jobsIn w').

#[export] Instance worldGrows_preorder : PreOrder worldGrows.
Proof. split; [by split|]. intros a b c [H1 H2] [H3 H4]. split; [lia|by etransitivity]. Qed.

Definition jobAllowed (t : nat) (w : JobWorld) (e : JobEffect) : Prop :=
  match e with
  | sql s => statementOk (jw_clock w) (jobsIn w) s
  | wait ms => 0 <= ms
  | outOfTurns => False
  | _ => True
  end.

Lemma changed_keeps clock s jobs jobs' :
  jobsOk jobs -> statementOk clock jobs s -> changed s jobs jobs' ->
  jobsOk jobs' /\ grows jobs jobs'.
Proof.
  intros Hi Hok [|id j j' Hj Hw|input id _ Hn]; [done|..].
  - pose proof (writes_ok _ _ _ _ _ _ Hok Hj (Hi id j Hj) Hw) as Hj'.
    split; [by apply map_Forall_insert_2|].
    intros id' k Hk. destruct (decide (id' = id)) as [->|]; simplify_map_eq; [|by exists k].
    exists j'. split; [done|]. by eapply writes_later.
  - split; [by apply map_Forall_insert_2|]. intros id' k Hk. exists k.
    rewrite lookup_insert_ne; [done|]. by intros ->; simplify_eq.
Qed.

Lemma statement_keeps s w a w' :
  jobInv w -> statementOk (jw_clock w) (jobsIn w) s -> statement_done s w a w' ->
  jobInv w' /\ worldGrows w w'.
Proof.
  intros Hi Hok [x db' H| | | |x db' H]; try (by split);
    destruct (changed_keeps _ _ _ _ Hi Hok (runs_changed _ _ _ _ H)) as [H1 H2]; by split.
Qed.

Lemma performs_keeps t w e a w' :
  jobInv w -> jobAllowed t w e -> job_performs t w e a w' -> jobInv w' /\ worldGrows w w'.
Proof.
  intros Hi Ha Hp. destruct Hp; try (by split).
  - split; [done|]. split; [cbn in *; lia|done].
  - by eapply statement_keeps.
Qed.

Lemma elsewhere_grows w w' : job_elsewhere w w' -> jobsIn w' = jobsIn w /\ jw_clock w <= jw_clock w'.
Proof. by destruct 1. Qed.

(** What others can only confirm. *)
Definition steady (A : JobWorld -> Prop) : Prop := forall w w', worldGrows w w' -> A w -> A w'.

Lemma rely_grows t w w' : Rely job_elsewhere (fun _ => worldGrows) t w w' -> worldGrows w w'.
Proof.
  intros [(t' & _ & H)|H%elsewhere_grows]; [done|]. destruct H as [E Hc]. split; [done|]. by rewrite E.
Qed.

Notation keeps t A m Q :=
  (serves job_performs job_elsewhere jobInv jobAllowed (fun _ => worldGrows) t A m Q).

Lemma steady_stable t A :
  steady A -> Stable job_elsewhere jobInv (fun _ => worldGrows) t A.
Proof. intros HA w w' _ _ Hr. apply HA. by eapply rely_grows. Qed.

Lemma steady_and A B : steady A -> steady B -> steady (fun w => A w /\ B w).
Proof. intros HA HB w w' Hg [? ?]. eauto. Qed.
Lemma steady_const (P : Prop) : steady (fun _ => P).
Proof. by intros w w' _ H. Qed.
Lemma steady_clock n : steady (fun w => n <= jw_clock w).
Proof. intros w w' [H _] ?. lia. Qed.

Definition knownRow (id : string) (seen : BackgroundJobRecord) (w : JobWorld) : Prop :=
  exists j, jobsIn w !! id = Some j /\ laterRow seen j.
Lemma steady_row id seen : steady (knownRow id seen).
Proof.
  intros w w' [_ Hg] (j & Hj & Hl). destruct (Hg id j Hj) as (j' & Hj' & Hl').
  exists j'. split; [done|]. by transitivity j.
Qed.

Create HintDb steady.
#[export] Hint Resolve steady_and steady_const steady_clock steady_row : steady.

(** [fine t B m C]: where [B] holds [m] performs only allowed effects, all that is
    steady outlives it, and [C] holds of what it returns. *)
Definition fine {X} (t : nat) (B : JobWorld -> Prop) (m : JobProgram X)
    (C : X -> JobWorld -> Prop) : Prop :=
  forall A, steady A ->
    keeps t (fun w => A w /\ B w) m
      (fun r w => A w /\ match r with Ok x => C x w | Throw _ => True end).

(** What the effects that tell something tell. *)
Definition performed (w : JobWorld) (e : JobEffect) : JobAnswer e -> JobWorld -> Prop :=
  match e with
  | sql s => fun a w' => statement_done s w a w'
  | jobClock => fun now w' => now = jw_clock w /\ w' = w
  | wait ms => fun _ w' => jw_clock w + ms <= jw_clock w' /\ jw_db w' = jw_db w
  | mathRandom => fun q w' => (0 <= q < 1)%Q /\ w' = w
  | _ => fun _ w' => w' = w
  end.
Lemma performs_performed t w e a w' : job_performs t w e a w' -> performed w e a w'.
Proof. by destruct 1. Qed.

Section Fine.
Context (t : nat).

Lemma fine_ret {X} B (x : X) C : (forall w, B w -> C x w) -> fine t B (mret x) C.
Proof. intros H A HA. apply serves_ret. naive_solver. Qed.

Lemma fine_throw {X} B e (C : X -> _) : fine t B (throw e) C.
Proof. intros A HA. apply serves_throw. naive_solver. Qed.

Lemma fine_weak {X} B B' m (C C' : X -> JobWorld -> Prop) :
  fine t B m C -> (forall w, B' w -> B w) -> (forall x w, C x w -> C' x w) -> fine t B' m C'.
Proof.
  intros Hm HB HC A HA. eapply serves_weak; [by apply Hm|naive_solver|].
  intros [x|e] w _; naive_solver.
Qed.

Lemma fine_seq {X Y} B m (M : X -> _) f (C : Y -> _) :
  fine t B m M -> steady B -> (forall x, fine t (fun w => B w /\ M x w) (f x) C) ->
  fine t B (m ≫= f) C.
Proof.
  intros Hm HB Hf A HA.
  eapply (serves_bind _ _ _ _ _ t _ m f (fun x w => A w /\ B w /\ M x w)).
  - eapply serves_weak; [apply (Hm (fun w => A w /\ B w)); auto with steady|naive_solver|].
    intros [x|e] w _; naive_solver.
  - intros x. by apply Hf.
Qed.

Lemma fine_catch {X} B m h (C : X -> _) :
  fine t B m C -> steady B -> (forall e, fine t B (h e) C) -> fine t B (catch m h) C.
Proof.
  intros Hm HB Hh A HA.
  eapply (serves_catch _ _ _ _ _ t _ m h (fun _ w => A w /\ B w)).
  - eapply serves_weak; [apply (Hm (fun w => A w /\ B w)); auto with steady|naive_solver|].
    intros [x|e] w _; naive_solver.
  - intros e. by apply Hh.
Qed.

Lemma fine_finally {X} B (m : JobProgram X) f C :
  fine t B m C -> steady B -> (forall x, steady (C x)) -> fine t B f (fun _ _ => True) ->
  fine t B (finally m f) C.
Proof.
  intros Hm HB HC Hf A HA k Hk. unfold finally.
  pose proof (Hm (fun w => A w /\ B w) (steady_and _ _ HA HB)) as H.
  eapply follows_weak; [|apply H]; [naive_solver|]. intros r.
  set (R w := match r with Ok x => C x w | Throw _ => True end).
  assert (HR : steady (fun w => (A w /\ B w) /\ R w)).
  { apply steady_and; [by apply steady_and|]. destruct r; cbn; [apply HC|apply steady_const]. }
  eapply follows_weak; [|apply (Hf _ HR)]; [unfold R; naive_solver|].
  intros [[]|e]; (eapply follows_weak; [|apply Hk]); intros w _; unfold R; naive_solver.
Qed.

Lemma fine_forEach {X} B (l : list X) f :
  steady B -> (forall x, x ∈ l -> fine t B (f x) (fun _ _ => True)) ->
  fine t B (forEach l f) (fun _ _ => True).
Proof.
  intros HB Hf. induction l as [|x l IH]; cbn; [by apply fine_ret|].
  apply (fine_seq _ _ (fun _ _ => True)); [apply Hf; left|done|]. intros ?.
  eapply fine_weak; [apply IH; intros y Hy; apply Hf; by right|naive_solver|done].
Qed.

Lemma fine_ask B e (C : JobAnswer e -> _) :
  (forall w, jobInv w -> B w -> jobAllowed t w e) -> (forall a, steady (C a)) ->
  (forall a w w', B w -> job_performs t w e a w' -> C a w') -> fine t B (ask e) C.
Proof.
  intros Ha HC Hp A HA. apply serves_ask.
  - intros w Hi [_ HB]. auto.
  - intros a. apply steady_stable, steady_and; auto.
  - intros a w w' Hi _ [Hw HB] Hperf. split; [|eauto].
    destruct (performs_keeps _ _ _ _ _ Hi (Ha w Hi HB) Hperf) as [_ Hg]. eauto.
Qed.

Lemma fine_settle {X} B (m : JobProgram (result Thrown X)) (C : X -> _) :
  fine t B m (fun r w => match r with Ok x => C x w | Throw _ => True end) ->
  fine t B (settle m) C.
Proof.
  intros Hm A HA. apply serves_settle. eapply serves_post; [by apply Hm|].
  intros [[x|e]|e] w _; naive_solver.
Qed.

(** A statement, and what its success shows of the rows. *)
Lemma fine_execute B s (C : resultOf s -> _) :
  (forall w, jobInv w -> B w -> statementOk (jw_clock w) (jobsIn w) s) ->
  (forall a, steady (C a)) ->
  (forall a w db', B w -> runs s (jw_db w) = Ok (a, db') -> C a (set_jobsDb db' w)) ->
  fine t B (execute s) C.
Proof.
  intros Hs HC Hr. apply fine_settle, (fine_ask _ (sql s)); [done|intros [a|e]; auto with steady|].
  intros a w w' HB Hp%performs_performed. cbn in Hp. destruct Hp; eauto.
Qed.

(** One that shows nothing. *)
Lemma fine_plain B s :
  (forall w, jobInv w -> B w -> statementOk (jw_clock w) (jobsIn w) s) ->
  fine t B (execute s) (fun _ _ => True).
Proof. intros Hs. apply fine_execute; [done|auto with steady|done]. Qed.

Lemma fine_plainAsk B e :
  (forall w, jobInv w -> B w -> jobAllowed t w e) -> fine t B (ask e) (fun _ _ => True).
Proof. intros Ha. apply fine_ask; [done|auto with steady|done]. Qed.

Lemma fine_clock B (C : Z -> _) :
  (forall now w, B w -> now = jw_clock w -> C now w) -> (forall now, steady (C now)) ->
  fine t B (ask jobClock) C.
Proof.
  intros H HC. apply (fine_ask _ jobClock); [done|done|].
  intros a w w' HB [Ha Hw]%performs_performed. subst w'. by apply H.
Qed.

Lemma fine_assume {X} (P : Prop) B B' (m : JobProgram X) C :
  (P -> fine t B m C) -> (forall w, B' w -> P /\ B w) -> fine t B' m C.
Proof.
  intros Hm HB A HA.
  apply (serves_pre _ _ _ _ _ t (fun w => P /\ (A w /\ B w))); [|naive_solver].
  apply serves_assume. intros HP. by apply Hm.
Qed.

(** A part whose answer is not looked into. *)
Lemma fine_then {X Y} B (m : JobProgram X) f (C : Y -> _) :
  fine t B m (fun _ _ => True) -> steady B -> (forall x, fine t B (f x) C) ->
  fine t B (m ≫= f) C.
Proof.
  intros Hm HB Hf. eapply fine_seq; [exact Hm|done|]. intros x.
  eapply fine_weak; [apply Hf|naive_solver|done].
Qed.

Lemma fine_ignored {X} B (m : JobProgram X) :
  fine t B m (fun _ _ => True) -> steady B -> fine t B (ignored m) (fun _ _ => True).
Proof.
  intros Hm HB. apply fine_catch; [|done|intros e; by apply fine_ret].
  apply fine_then; [done..|]. intros x. by apply fine_ret.
Qed.
End Fine.

(** Steps of programs of which nothing needs to be known. *)
Ltac fine_step :=
  lazymatch goal with
  | |- fine _ _ (mret _) _ => apply fine_ret; done
  | |- fine _ _ (throw _) _ => apply fine_throw
  | |- fine _ _ (_ ≫= _) _ => apply fine_then; [|by auto with steady|intros ?]
  | |- fine _ _ (catch _ _) _ => apply fine_catch; [|by auto with steady|intros ?]
  | |- fine _ _ (finally _ _) _ => apply fine_finally; [|by auto with steady|by auto with steady|]
  | |- fine _ _ (ignored _) _ => apply fine_ignored; [|by auto with steady]
  | |- fine ?t ?B (execute ?s) _ => apply (fine_plain t B s); intros ? ? ?; cbn; auto
  | |- fine ?t ?B (ask ?e) _ => apply (fine_plainAsk t B e); intros ? ? ?; cbn; auto
  | |- fine ?t ?B (settle (ask ?e)) _ =>
      apply (fine_settle t B (ask e)); eapply fine_weak;
      [apply (fine_plainAsk t B e); intros ? ? ?; cbn; auto|done|by intros []]
  | |- fine _ _ (match _ with _ => _ end) _ => case_match
  end.
Ltac fine_plain_steps := repeat fine_step.

#[local] Notation holds := (fun _ => True).
#[local] Notation allDone := (fun _ _ => True).

(** ** Scheduling ends *)

Lemma fine_scheduleBefore t input turns now attempt deadline :
  now < deadline -> deadline - 25 * Z.of_nat turns <= now -> 0 <= attempt ->
  fine t (fun w => now <= jw_clock w) (scheduleBefore turns attempt deadline input) allDone.
Proof.
  revert now attempt. induction turns as [|turns IH]; intros now attempt Hn Hd Ha; [lia|].
  cbn [scheduleBefore]. apply fine_then; [fine_plain_steps|auto with steady|intros id].
  apply fine_catch; [fine_plain_steps|auto with steady|intros e].
  eapply (fine_seq _ _ _ (fun now1 w => now <= now1 /\ now1 <= jw_clock w));
    [apply fine_clock; [intros ? ? ? ->; lia|auto with steady]|auto with steady|].
  intros now1. destruct e; try apply fine_throw.
  case_bool_decide as Hr; [apply fine_throw|].
  apply (fine_assume _ (now <= now1) (fun w => now1 <= jw_clock w)); [intros Hnow|naive_solver].
  apply (fine_seq _ _ (ask mathRandom) (fun (random : Q) w => (0 <= random)%Q /\ now1 <= jw_clock w));
    [|auto with steady|].
  { apply (fine_ask _ _ mathRandom); [done|auto with steady|].
    intros random w w' Hw [[H0 _] ->]%performs_performed. done. }
  intros random. apply (fine_assume _ (0 <= random)%Q (fun w => now1 <= jw_clock w)); [intros Hrandom|naive_solver].
  pose proof (conflict_pause attempt random Ha Hrandom) as Hp25. set (pause := Z.min _ _).
  apply (fine_seq _ _ _ (fun _ w => now1 + pause <= jw_clock w)); [|auto with steady|intros []].
  { apply (fine_ask _ _ (wait pause)); [intros ? _ _; cbn; unfold pause; lia|auto with steady|].
    intros [] w w' Hw [Hp _]%performs_performed. lia. }
  eapply (fine_seq _ _ _ (fun now2 w => now1 + pause <= now2 /\ now2 <= jw_clock w));
    [apply fine_clock; [intros ? ? ? ->; lia|auto with steady]|auto with steady|].
  intros now2. case_bool_decide as Hd2; [apply fine_throw|].
  apply (fine_assume _ (now1 + pause <= now2) (fun w => now2 <= jw_clock w)); [intros Hnow2|naive_solver].
  apply IH; unfold pause in *; lia.
Qed.

Section Calls.
Context (t : nat).

Lemma fine_ensure input : fine t holds (ensureBackgroundJobScheduled input) allDone.
Proof.
  unfold ensureBackgroundJobScheduled.
  eapply (fine_seq _ _ _ (fun start w => start <= jw_clock w)); [|auto with steady|intros start].
  { apply fine_clock; [intros ? ? _ ->; lia|auto with steady]. }
  eapply fine_weak; [apply (fine_scheduleBefore _ _ _ start)|naive_solver|done];
    unfold BACKGROUND_JOB_SCHEDULE_RETRY_WINDOW_MS, scheduleTurns; lia.
Qed.

Lemma fine_claim w q lane leaseMs : fine t holds (claimDueBackgroundJob w q lane leaseMs) allDone.
Proof.
  unfold claimDueBackgroundJob.
  eapply (fine_seq _ _ _ (fun now w => now <= jw_clock w)); [|auto with steady|intros now].
  { apply fine_clock; [intros ? ? _ ->; lia|auto with steady]. }
  apply fine_then; [fine_plain_steps|auto with steady|intros [[id seen]|]]; [|by apply fine_ret].
  apply (fine_plain t _ (st_claim _ _ _ _ _)). intros ? _ [_ H]. exact H.
Qed.

Lemma fine_renew id w leaseMs progress :
  fine t holds (renewBackgroundJobLease id w leaseMs progress) allDone.
Proof. unfold renewBackgroundJobLease, exactlyOne. fine_plain_steps. Qed.

Lemma fine_succeeded id w : named w -> fine t holds (markBackgroundJobSucceeded id w) allDone.
Proof. intros Hn. unfold markBackgroundJobSucceeded, exactlyOne. fine_plain_steps. Qed.

Lemma fine_terminal id message code w :
  named w -> fine t holds (markBackgroundJobTerminal id message code w) allDone.
Proof. intros Hn. unfold markBackgroundJobTerminal, exactlyOne. fine_plain_steps. Qed.

Lemma fine_failed id message code w retryable :
  named w -> fine t holds (markBackgroundJobFailed id message code w retryable) allDone.
Proof.
  intros Hn. unfold markBackgroundJobFailed.
  apply fine_then; [fine_plain_steps|auto with steady|intros now].
  apply (fine_seq _ _ _ (fun found w =>
    match found with Some job => knownRow id job w | None => True end));
    [|auto with steady|intros [job|]; [|fine_plain_steps]].
  - apply (fine_execute t holds (st_find id)); [done|intros [job|]; auto with steady|].
    intros [job|] w' db' _ H; cbn in H; simplify_eq; [|done]. by exists job.
  - case_match; [apply fine_throw|]. destruct retryable; cbn [negb]; [|fine_plain_steps].
    apply fine_then; [fine_plain_steps|auto with steady|intros random].
    apply fine_then; [|auto with steady|intros ?; fine_plain_steps].
    apply (fine_plain t _ (st_putBack _ _ _ _ _ _ _)). intros w' _ [_ Hrow]. by split.
Qed.

Lemma fine_admin action id actor : fine t holds (runAdminJobAction action id actor) allDone.
Proof. unfold runAdminJobAction. fine_plain_steps. Qed.

(** ** Periodic runs *)

Section Zones.
Context (isValidTimeZone : string -> bool) (dayOf : string -> Z -> Z).
Context (instantOf : string -> Z -> Z * Z -> Z) (addDay : string -> Z -> Z).
Context (platformText : Thrown -> string).

Lemma fine_resolve e now missing :
  fine t holds (resolveSchedule isValidTimeZone dayOf instantOf addDay e now missing) allDone.
Proof. unfold resolveSchedule, getSchedulingSettings. fine_plain_steps. Qed.

Lemma fine_entry e now missing :
  fine t holds (scheduleEntry isValidTimeZone dayOf instantOf addDay e now missing) allDone.
Proof.
  unfold scheduleEntry. apply fine_then; [apply fine_resolve|auto with steady|intros [schedule|]];
    [|by apply fine_ret].
  apply fine_then; [apply fine_ensure|auto with steady|intros ?; by apply fine_ret].
Qed.

Lemma fine_periodic missing :
  fine t holds (schedulePeriodicJobs isValidTimeZone dayOf instantOf addDay missing) allDone.
Proof.
  unfold schedulePeriodicJobs. fine_plain_steps.
  apply fine_forEach; [auto with steady|]. intros e _. apply fine_entry.
Qed.

Lemma fine_nextRun kind :
  fine t holds (scheduleNextPeriodicRun isValidTimeZone dayOf instantOf addDay kind) allDone.
Proof.
  unfold scheduleNextPeriodicRun. apply fine_then; [fine_plain_steps|auto with steady|intros now].
  case_match; [apply fine_entry|apply fine_throw].
Qed.

(** ** The runner *)

#[local] Hint Resolve fine_nextRun fine_succeeded fine_terminal fine_failed : fine.

Lemma fine_finish id w job :
  w <> "" -> fine t holds (finishJob isValidTimeZone dayOf instantOf addDay id w job) allDone.
Proof.
  intros Hw. assert (named (Some w)) by (by exists w).
  unfold finishJob, cancelAck. fine_plain_steps; auto with fine.
Qed.

Lemma fine_report id w job e :
  w <> "" ->
  fine t holds (reportFailure isValidTimeZone dayOf instantOf addDay platformText id w job e) allDone.
Proof.
  intros Hw. assert (named (Some w)) by (by exists w).
  unfold reportFailure, recordReconciliation. fine_plain_steps; auto with fine.
Qed.

Lemma fine_claimedJob id w job :
  w <> "" ->
  fine t holds (runClaimedJob isValidTimeZone dayOf instantOf addDay platformText id w job) allDone.
Proof.
  intros Hw. assert (named (Some w)) by (by exists w).
  unfold runClaimedJob, runEntry, handleJobError, cancelAck. fine_plain_steps;
    auto using fine_finish, fine_report with fine.
Qed.

Lemma fine_process w lane leaseMs :
  w <> "" ->
  fine t holds (processNextJob isValidTimeZone dayOf instantOf addDay platformText w lane leaseMs)
    allDone.
Proof.
  intros Hw. unfold processNextJob.
  apply fine_then; [apply fine_claim|auto with steady|intros [[id job]|]]; fine_plain_steps.
  by apply fine_claimedJob.
Qed.

Lemma fine_drain jobs w lane leaseMs processed :
  w <> "" ->
  fine t holds
    (drainDueJobs isValidTimeZone dayOf instantOf addDay platformText jobs w lane leaseMs processed)
    allDone.
Proof.
  intros Hw. revert processed. induction jobs as [|jobs IH]; intros processed; cbn [drainDueJobs];
    fine_plain_steps; auto using fine_process.
Qed.
End Zones.
End Calls.

(** ** The system *)

Inductive JobCall :=
| toDrain (jobs : nat) (workerId : string) (lane : BackgroundJobLane) (leaseMs : Z)
| toRenew (jobId workerId : string) (leaseMs : Z) (progress : option Json)
| toEmit (jobId workerId type : string) (message : option string) (metadata : list (string * Json))
| toAct (action : AdminAction) (jobId actorUserId : string)
| toSchedule (input : ScheduleInput)
| toScheduleArchive (archiveId : string) (sourceSizeBytes : option Z) (fileCount folderCount : Z)
| toSchedulePeriodic (runMissingImmediately : bool)
| toRegister (workerId : string)
| toHeartbeat (workerId : string)
| toStop (workerId : string).

(** Workers have names. *)
Definition callOk (c : JobCall) : Prop :=
  match c with toDrain _ w _ _ => w <> "" | _ => True end.

Section System.
Context (isValidTimeZone : string -> bool) (dayOf : string -> Z -> Z).
Context (instantOf : string -> Z -> Z * Z -> Z) (addDay : string -> Z -> Z).
Context (platformText : Thrown -> string).

Definition call (c : JobCall) : JobProgram unit :=
  match c with
  | toDrain jobs w lane leaseMs =>
      _ ← drainDueJobs isValidTimeZone dayOf instantOf addDay platformText jobs w lane leaseMs false;
      mret tt
  | toRenew id w leaseMs progress => _ ← renewBackgroundJobLease id w leaseMs progress; mret tt
  | toEmit id w type message metadata => emitEvent id w type message metadata
  | toAct action id actor => _ ← runAdminJobAction action id actor; mret tt
  | toSchedule input => _ ← ensureBackgroundJobScheduled input; mret tt
  | toScheduleArchive id size files folders =>
      _ ← scheduleZipArchiveGenerate id size files folders; mret tt
  | toSchedulePeriodic missing => schedulePeriodicJobs isValidTimeZone dayOf instantOf addDay missing
  | toRegister w => registerWorkerInstance w
  | toHeartbeat w => heartbeatWorkerInstance w
  | toStop w => markWorkerInstanceStopped w
  end.

Definition ofCall (p : @Proc JobEffect Thrown JobAnswer) : Prop :=
  exists c, callOk c /\ p = start (call c).

Definition JobSystem : Type := System JobEffect Thrown JobAnswer JobWorld.

(** A program ends without a word: its claims stay. *)
Definition works_on (s s' : JobSystem) : Prop :=
  system_step job_performs job_elsewhere (fun _ w => w) ofCall s s'.

(** Nothing runs, and the rows are well-formed. *)
Definition idle (s : JobSystem) : Prop :=
  sy_programs s = ∅ /\ jobsOk (jobsIn (sy_world s)).

Lemma fine_call t c : callOk c -> fine t holds (call c) allDone.
Proof.
  intros Hc. destruct c; cbn [call];
    unfold emitEvent, scheduleZipArchiveGenerate, registerWorkerInstance, heartbeatWorkerInstance,
      markWorkerInstanceStopped; fine_plain_steps.
  - by apply fine_drain.
  - apply fine_renew.
  - apply fine_admin.
  - apply fine_ensure.
  - apply fine_ensure.
  - apply fine_periodic.
Qed.

#[local] Notation Sound :=
  (sound job_performs job_elsewhere jobInv jobAllowed (fun _ => worldGrows) (fun _ _ => True)).

Lemma works_sound_one s s' : Sound s -> works_on s s' -> Sound s'.
Proof.
  unfold works_on. apply sound_step.
  - intros t w e a w'. apply performs_keeps.
  - intros t w Hw. by split_and!.
  - intros w w' Hw [E _]%elsewhere_grows. unfold jobInv. by rewrite E.
  - intros t. apply steady_stable, steady_const.
  - intros p t (c & Hc & ->). pose proof (fine_call t c Hc (fun _ => True) (steady_const True)) as H.
    eapply follows_weak; [|apply H]; [done|]. by intros [[]|e].
Qed.

Lemma works_sound s s' : idle s -> rtc works_on s s' -> Sound s'.
Proof.
  intros [Hps Hi] Hr. assert (Hs : Sound s).
  { split_and!; [exact Hi| |done]. intros t p. by rewrite Hps, lookup_empty. }
  clear Hps Hi. induction Hr; eauto using works_sound_one.
Qed.

(** ** What happens to a job *)

(** The write of a program's statement. *)
Definition statement_step (s : Statement) (w w' : JobWorld) (ps ps' : gmap nat (@Proc JobEffect Thrown JobAnswer)) : Prop :=
  exists t k a, ps !! t = Some (await (sql s) k) /\ statement_done s w a w' /\ ps' = <[t := k a]> ps.

Lemma step_rows s s' :
  Sound s -> works_on s s' ->
  jobsIn (sy_world s') = jobsIn (sy_world s) \/
  exists st, statement_step st (sy_world s) (sy_world s') (sy_programs s) (sy_programs s') /\
    statementOk (jw_clock (sy_world s)) (jobsIn (sy_world s)) st /\
    changed st (jobsIn (sy_world s)) (jobsIn (sy_world s')).
Proof.
  intros Hs Hstep. destruct Hstep as [w ps t e k a w' Hp Hperf|w ps t p Hp Hprog|w ps t p Hp|w ps w' He];
    cbn; try (by left).
  2: by apply elsewhere_grows in He as [E _]; left.
  pose proof (sound_allowed _ _ _ _ _ _ _ _ _ _ Hs Hp) as Ha. cbn in Ha.
  destruct Hperf; try (by left). right. exists s. cbn in Ha. split_and!; [|done|].
  - by exists t, k, a.
  - destruct H as [a db' H| | | |a db' H]; try apply ch_nothing; by apply runs_changed in H.
Qed.

Lemma works_grows s s' : Sound s -> rtc works_on s s' -> grows (jobsIn (sy_world s)) (jobsIn (sy_world s')).
Proof.
  intros Hs Hr. induction Hr as [|s s1 s2 Hstep _ IH]; [done|].
  transitivity (jobsIn (sy_world s1)); [|by apply IH; eapply works_sound_one].
  destruct (step_rows _ _ Hs Hstep) as [->|(st & _ & Hok & Hc)]; [done|].
  eapply changed_keeps; [apply Hs|done|done].
Qed.

(** C24: Whatever workers, administrators and schedulers do at once, each step
    leaves the life of a job as it was or moves it on as the life of a job goes,
    by whoever may do that; or it is an update by the id alone that comes too
    late. *)
Theorem jobs_live_their_life s0 s s' id :
  idle s0 -> rtc works_on s0 s -> works_on s s' ->
  forall j, jobsIn (sy_world s) !! id = Some j ->
  exists j', jobsIn (sy_world s') !! id = Some j' /\
    (j' = j \/
     exists st, statement_step st (sy_world s) (sy_world s') (sy_programs s) (sy_programs s') /\
       ((exists actor, actorOf st = Some actor /\
           life_step (js_maxAttempts (jb_spec j)) (jw_clock (sy_world s)) actor (lifeOf j) (lifeOf j'))
        \/ tooLate st id j)).
Proof.
  intros H0 Hr Hstep j Hj. pose proof (works_sound _ _ H0 Hr) as Hs.
  destruct (step_rows _ _ Hs Hstep) as [E|(st & Hst & Hok & Hc)].
  { exists j. rewrite E. auto. }
  destruct Hc as [|id' k k' Hk Hw|input id' _ Hn]; [by exists j; auto| |].
  2:{ exists j. rewrite lookup_insert_ne; [by auto|]. by intros ->; simplify_eq. }
  destruct (decide (id' = id)) as [->|Hne]; [|by exists j; rewrite lookup_insert_ne; auto].
  simplify_eq. exists k'. rewrite lookup_insert_eq. split; [done|]. right. exists st. split; [done|].
  destruct (decide (tooLate st id j)) as [|Hl]; [by right|]. left. destruct Hs as (Hi & _).
  by apply (writes_live _ (jobsIn (sy_world s)) _ id); [..|apply (Hi id)| |].
Qed.

(** C25: In every system that can be reached a running job has a holder, a lease
    and a start; one that waits, succeeded, failed or is dead has no lease; a dead
    one has used all its attempts; a cancelled one says when and by whom, and has
    no lease, or the one of the worker that was running it when a dismissal came
    too late. A job keeps what it was created with, and its attempts never go
    back. *)
Theorem jobs_stay_well_formed s0 s s' id j :
  idle s0 -> rtc works_on s0 s -> rtc works_on s s' ->
  jobsIn (sy_world s) !! id = Some j ->
  jobOk j /\ exists j', jobsIn (sy_world s') !! id = Some j' /\ jobOk j' /\ laterRow j j'.
Proof.
  intros H0 Hr Hr' Hj. pose proof (works_sound _ _ H0 Hr) as Hs.
  split; [apply (proj1 Hs id j Hj)|].
  destruct (works_grows _ _ Hs Hr' id j Hj) as (j' & Hj' & Hl). exists j'. split_and!; [done| |done].
  apply (proj1 (works_sound _ _ H0 (transitivity Hr Hr')) id j' Hj').
Qed.

(** Scheduling ends: whatever conflicts it meets, its window of five seconds
    is over before its turns are. *)
Theorem scheduling_ends_in_its_window s0 s t e k :
  idle s0 -> rtc works_on s0 s -> sy_programs s !! t = Some (await e k) -> e <> outOfTurns.
Proof.
  intros H0 Hr Hp ->. exact (sound_allowed _ _ _ _ _ _ _ _ _ _ (works_sound _ _ H0 Hr) Hp).
Qed.
End System.

(** ** A worker on its own *)

(** Between two effects of the worker others may do anything, the handler's own
    calls included, as long as nobody takes the claim or, once the job was left,
    puts it to work again. A step is excused when the worker is told to stop, or
    when a look at the row or the report of a failure that could be carried out
    is not answered so. Everything else may fail. *)
Section Alone.
Context (id worker : string).

Definition heldHere (w : JobWorld) : Prop :=
  exists j, jobsIn w !! id = Some j /\ claimedAs worker j = true.
Definition leftHere (w : JobWorld) : Prop :=
  exists j, jobsIn w !! id = Some j /\ jb_status j <> job_running.
Definition atWork (w : JobWorld) : Prop := heldHere w \/ leftHere w.

Definition undisturbed (w w0 : JobWorld) : Prop :=
  (atWork w -> atWork w0) /\ (leftHere w -> leftHere w0).

Definition reports (s : Statement) : bool :=
  match s with
  | st_find _ | st_fail _ _ _ _ _ | st_putBack _ _ _ _ _ _ _ => true
  | _ => false
  end.

Definition excused (w : JobWorld) (e : JobEffect) : JobAnswer e -> Prop :=
  match e with
  | sql s => fun a =>
      reports s = true /\ exists x db', runs s (jw_db w) = Ok (x, db') /\ a <> Ok x
  | isStopping => fun stopping => stopping = true
  | _ => fun _ => False
  end.

(** A step of the worker, after what others did. *)
Definition alone (w : JobWorld) (e : JobEffect) (a : JobAnswer e) (w' : JobWorld) : Prop :=
  exists w0, undisturbed w w0 /\ performed w0 e a w' /\ ~ excused w0 e a.

(** Every run of such steps ends, and [Q] holds then. *)
Fixpoint ends (Q : JobWorld -> Prop) (p : @Proc JobEffect Thrown JobAnswer) (w : JobWorld) : Prop :=
  match p with
  | stop _ => Q w
  | await e k => forall a w', alone w e a w' -> ends Q (k a) w'
  | pooled _ _ _ _ => False
  end.

Definition yields {X} (P : JobWorld -> Prop) (m : JobProgram X)
    (R : result Thrown X -> JobWorld -> Prop) : Prop :=
  forall Q k w, P w -> (forall r w', R r w' -> ends Q (k r) w') -> ends Q (m k) w.

Lemma yields_ret {X} P (x : X) (R : result Thrown X -> _) :
  (forall w, P w -> R (Ok x) w) -> yields P (mret x) R.
Proof. intros H Q k w Hw Hk. apply Hk; auto. Qed.

Lemma yields_throw {X} P e (R : result Thrown X -> _) :
  (forall w, P w -> R (Throw e) w) -> yields P (throw e) R.
Proof. intros H Q k w Hw Hk. apply Hk; auto. Qed.

Lemma yields_bind {X Y} P (m : JobProgram X) (f : X -> JobProgram Y) M R :
  yields P m (fun r w => match r with Ok x => M x w | Throw e => R (Throw e) w end) ->
  (forall x, yields (M x) (f x) R) -> yields P (m ≫= f) R.
Proof.
  intros Hm Hf Q k w Hw Hk. apply (Hm Q _ w Hw). intros [x|e] w' Hr; [|auto].
  by apply (Hf x).
Qed.

Lemma yields_catch {X} P (m : JobProgram X) h E R :
  yields P m (fun r w => match r with Ok x => R (Ok x) w | Throw e => E e w end) ->
  (forall e, yields (E e) (h e) R) -> yields P (catch m h) R.
Proof.
  intros Hm Hh Q k w Hw Hk. apply (Hm Q _ w Hw). intros [x|e] w' Hr; [auto|].
  by apply (Hh e).
Qed.

Lemma yields_settle {X} P (m : JobProgram (result Thrown X)) (R : result Thrown X -> _) :
  yields P m (fun r w => match r with Ok r' => R r' w | Throw e => R (Throw e) w end) ->
  yields P (settle m) R.
Proof. intros Hm Q k w Hw Hk. apply (Hm Q _ w Hw). intros [[x|e]|e] w' Hr; auto. Qed.

(** What others cannot take back without disturbing the worker. *)
Definition stable (P : JobWorld -> Prop) : Prop := forall w w0, undisturbed w w0 -> P w -> P w0.

Lemma yields_ask P e (R : result Thrown (JobAnswer e) -> _) :
  stable P -> (forall w a w', P w -> performed w e a w' -> ~ excused w e a -> R (Ok a) w') ->
  yields P (ask e) R.
Proof. intros HP H Q k w Hw Hk a w' (w0 & Hu & Hp & He). apply Hk. eauto. Qed.

(** A report that could be carried out was. *)
Lemma report_answered s w a w' :
  statement_done s w a w' -> ~ excused w (sql s) a ->
  reports s = true -> forall x db', runs s (jw_db w) = Ok (x, db') -> a = Ok x.
Proof.
  intros Hd He Hr x db' H.
  destruct Hd as [x1 db1 H1| | | |]; [congruence|congruence|..];
    destruct He; (split; [exact Hr|]); by exists x, db'.
Qed.

Lemma yields_execute P s (R : result Thrown (resultOf s) -> _) :
  stable P ->
  (forall w a w', P w -> statement_done s w a w' ->
     (reports s = true -> forall x db', runs s (jw_db w) = Ok (x, db') -> a = Ok x) -> R a w') ->
  yields P (execute s) R.
Proof.
  intros HP H. apply yields_settle, (yields_ask _ (sql s)); [done|]. intros w a w' Hw Hd He.
  apply (H w); [done|done|]. by apply (report_answered s w a w').
Qed.

Lemma yields_weak {X} P P' (m : JobProgram X) (R R' : result Thrown X -> _) :
  yields P m R -> (forall w, P' w -> P w) -> (forall r w, R r w -> R' r w) -> yields P' m R'.
Proof. intros Hm HP HR Q k w Hw Hk. apply (Hm Q k w); auto. Qed.

(** *** What every statement but a claim leaves as it is *)

Definition isClaim (s : Statement) : bool :=
  match s with st_claim _ _ _ _ _ => true | _ => false end.

Lemma writes_after s j j' :
  isClaim s = false -> writes s id j j' ->
  (jb_status j <> job_running -> jb_status j' <> job_running) /\
  (claimedAs worker j = true -> claimedAs worker j' = true \/ jb_status j' <> job_running).
Proof.
  intros Hc Hw. destruct Hw as [| | | |? seen| |action]; try done; try (split; [done|by right]).
  - split; [done|]. intros Hh. by left.
  - unfold putBack. destruct (shouldDeadLetter seen); (split; [done|by right]).
  - destruct action; (split; [done|by right]).
Qed.

Lemma statement_after s w a w' :
  isClaim s = false -> statement_done s w a w' ->
  (leftHere w -> leftHere w') /\ (atWork w -> atWork w').
Proof.
  intros Hc Hd.
  assert (Hch : jobsIn w' = jobsIn w \/ changed s (jobsIn w) (jobsIn w')).
  { destruct Hd as [x db' H| | | |x db' H]; try (by left); right; by apply runs_changed in H. }
  unfold atWork, heldHere, leftHere.
  destruct Hch as [->|[|id' j j' Hj Hw|input id' _ Hn]]; [done|done| |].
  - destruct (decide (id' = id)) as [->|Hne]; [|by rewrite lookup_insert_ne].
    rewrite lookup_insert_eq. destruct (writes_after _ _ _ Hc Hw) as [H1 H2]. naive_solver.
  - destruct (decide (id' = id)) as [->|Hne]; [|by rewrite lookup_insert_ne].
    rewrite Hn. naive_solver.
Qed.

Lemma statement_answered s w x w' :
  statement_done s w (Ok x) w' -> exists db', runs s (jw_db w) = Ok (x, db') /\ w' = set_jobsDb db' w.
Proof. intros H. remember (Ok x) as a. destruct H; simplify_eq. eauto. Qed.

(** What a part of the runner never takes back, and others neither. *)
Definition calm (P : JobWorld -> Prop) : Prop :=
  stable P /\ (forall w w', jw_db w' = jw_db w -> P w -> P w') /\
  (forall s w a w', isClaim s = false -> statement_done s w a w' -> P w -> P w').

Lemma calm_left : calm leftHere.
Proof.
  split_and!; [by intros w w0 []|unfold leftHere; by intros w w' ->|].
  intros s w a w' Hc Hd. by apply (statement_after s w a w').
Qed.
Lemma calm_atWork : calm atWork.
Proof.
  split_and!; [by intros w w0 []|unfold atWork, heldHere, leftHere; by intros w w' ->|].
  intros s w a w' Hc Hd. by apply (statement_after s w a w').
Qed.

Lemma yields_calmExecute P s :
  calm P -> isClaim s = false -> yields P (execute s) (fun _ => P).
Proof. intros (Hst & _ & HP) Hc. apply yields_execute; [done|]. intros w a w' Hw Hd _. eauto. Qed.

Definition isSilent (e : JobEffect) : bool :=
  match e with sql _ => false | _ => true end.
Lemma silent_db w e a w' : isSilent e = true -> performed w e a w' -> jw_db w' = jw_db w.
Proof. intros Hs Ha. destruct e; cbn in Ha; try done; by destruct Ha as [? ->] || by subst. Qed.

Lemma yields_calmAsk P e :
  calm P -> isSilent e = true -> yields P (ask e) (fun _ => P).
Proof.
  intros (Hst & HP & _) Hs. apply yields_ask; [done|]. intros w a w' Hw Ha _.
  apply (HP w); [|done]. by eapply silent_db.
Qed.

Lemma yields_calmBind {X Y} P (m : JobProgram X) (f : X -> JobProgram Y) :
  yields P m (fun _ => P) -> (forall x, yields P (f x) (fun _ => P)) ->
  yields P (m ≫= f) (fun _ => P).
Proof.
  intros Hm Hf. apply (yields_bind _ _ _ (fun _ => P)); [|done].
  eapply yields_weak; [exact Hm|done|by intros [x|e]].
Qed.

(** An effect that says nothing of the job, before anything else. *)
Lemma yields_askThen {Y} P e (f : JobAnswer e -> JobProgram Y) R :
  calm P -> isSilent e = true -> (forall x, yields P (f x) R) -> yields P (ask e ≫= f) R.
Proof.
  intros (Hst & HP & _) Hs Hf Q k w Hw Hk a w' (w0 & Hu & Ha & _). apply (Hf a); [|exact Hk].
  apply (HP w0); [by eapply silent_db|by eapply Hst].
Qed.

(** Nothing stops the worker. *)
Lemma yields_goesOn {Y} P (f : bool -> JobProgram Y) R :
  stable P -> yields P (f false) R -> yields P (ask isStopping ≫= f) R.
Proof.
  intros Hst Hf Q k w Hw Hk a w' (w0 & Hu & -> & He). destruct a; [by destruct He|].
  apply (Hf Q); [by eapply Hst|done].
Qed.

Lemma yields_calmCatch {X} P (m : JobProgram X) h :
  yields P m (fun _ => P) -> (forall e, yields P (h e) (fun _ => P)) ->
  yields P (catch m h) (fun _ => P).
Proof.
  intros Hm Hh. apply (yields_catch _ _ _ (fun _ => P)); [|done].
  eapply yields_weak; [exact Hm|done|by intros [x|e]].
Qed.

Lemma yields_calmSettle {X} P (m : JobProgram (result Thrown X)) :
  yields P m (fun _ => P) -> yields P (settle m) (fun _ => P).
Proof.
  intros Hm. apply yields_settle. eapply yields_weak; [exact Hm|done|by intros [x|e]].
Qed.
End Alone.

Ltac calm_step :=
  lazymatch goal with
  | |- yields _ _ _ (mret _) _ => apply yields_ret; done
  | |- yields _ _ _ (throw _) _ => apply yields_throw; done
  | |- yields _ _ _ (_ ≫= _) _ => apply yields_calmBind; [|intros ?]
  | |- yields _ _ _ (catch _ _) _ => apply yields_calmCatch; [|intros ?]
  | |- yields _ _ _ (ignored _) _ => unfold ignored
  | |- yields ?id ?worker ?P (execute ?s) _ =>
      apply (yields_calmExecute id worker P s); [assumption|reflexivity]
  | |- yields ?id ?worker ?P (ask ?e) _ =>
      apply (yields_calmAsk id worker P e); [assumption|reflexivity]
  | |- yields _ _ _ (settle _) _ => apply yields_calmSettle
  | |- yields _ _ _ (match _ with _ => _ end) _ => case_match
  end.
Ltac calm_steps := repeat calm_step.

Section Runner.
Context (isValidTimeZone : string -> bool) (dayOf : string -> Z -> Z).
Context (instantOf : string -> Z -> Z * Z -> Z) (addDay : string -> Z -> Z).
Context (platformText : Thrown -> string).
Context (id worker : string) (worker_named : worker <> "").
#[local] Notation yields := (yields id worker).
#[local] Notation calm := (calm id worker).
#[local] Notation left := (leftHere id).
#[local] Notation atWork := (atWork id worker).

Lemma calm_schedule P input turns attempt deadline :
  calm P -> yields P (scheduleBefore turns attempt deadline input) (fun _ => P).
Proof.
  intros HP. revert attempt. induction turns as [|turns IH]; intros attempt; cbn [scheduleBefore];
    calm_steps; apply IH.
Qed.

Lemma calm_nextRun P kind :
  calm P ->
  yields P (scheduleNextPeriodicRun isValidTimeZone dayOf instantOf addDay kind) (fun _ => P).
Proof.
  intros HP. unfold scheduleNextPeriodicRun, scheduleEntry, resolveSchedule, getSchedulingSettings,
    ensureBackgroundJobScheduled. calm_steps; by apply calm_schedule.
Qed.

Lemma calm_ack P message : calm P -> yields P (cancelAck id worker message) (fun _ => P).
Proof. intros HP. unfold cancelAck. calm_steps. Qed.

(** The row as it is found. *)
Lemma yields_find :
  yields atWork (execute (st_find id))
    (fun r w => atWork w /\ exists j, r = Ok (Some j) /\ jobsIn w !! id = Some j).
Proof.
  apply yields_execute; [apply calm_atWork|]. intros w a w' Hw Hd Ha.
  assert (Hj : exists j, jobsIn w !! id = Some j) by by destruct Hw as [(j & Hj & _)|(j & Hj & _)]; exists j.
  destruct Hj as [j Hj]. specialize (Ha eq_refl _ _ eq_refl).
  pose proof (statement_after id worker (st_find id) _ _ _ eq_refl Hd) as [_ Haf]. split; [by apply Haf|].
  exists j. cbn in Ha. rewrite Hj in Ha. split; [exact Ha|].
  by destruct Hd; cbn in *; simplify_eq.
Qed.

Lemma cancelled_left j w : jobsIn w !! id = Some j -> isCancelled (Some j) = true -> left w.
Proof. intros Hj Hc. exists j. split; [done|]. apply bool_decide_eq_true in Hc. by rewrite Hc. Qed.

Lemma yields_succeeded :
  yields atWork (markBackgroundJobSucceeded id (Some worker))
    (fun r w => match r with Ok _ => left w | Throw _ => atWork w end).
Proof.
  pose proof (calm_left id worker) as Hleft. pose proof (calm_atWork id worker) as Hat.
  unfold markBackgroundJobSucceeded.
  apply (yields_askThen id worker atWork jobClock); [done..|intros now].
  apply (yields_bind _ _ _ _ _ (fun count w => atWork w /\ (count = 1 -> left w))).
  - apply (yields_execute _ _ _ (st_succeed _ _ _)); [apply Hat|]. intros w a w' Hw Hd _.
    destruct (statement_after id worker (st_succeed id (Some worker) now) _ _ _ eq_refl Hd) as [Hl Haf]. destruct a as [count|e]; [|auto].
    split; [auto|]. intros ->. apply statement_answered in Hd as (db' & H & ->). cbn in H.
    unfold succeedRow, updateJob in H. destruct (jobsIn w !! id) as [j|]; [|done].
    destruct (heldBy _ j); simplify_eq. exists (succeededAt now j). cbn.
    by rewrite lookup_insert_eq.
  - intros count. apply (yields_bind _ _ _ _ _ (fun _ => left)).
    + unfold exactlyOne. case_bool_decide; [apply yields_ret|apply yields_throw]; naive_solver.
    + intros _. apply (yields_weak _ _ left _ _ (fun _ => left)); [calm_steps|done|].
      intros [] w Hw; [done|by right].
Qed.

Lemma yields_finish job :
  yields atWork (finishJob isValidTimeZone dayOf instantOf addDay id worker job)
    (fun r w => match r with Ok _ => left w | Throw _ => atWork w end).
Proof.
  pose proof (calm_left id worker) as Hleft. pose proof (calm_atWork id worker) as Hat.
  assert (Hweak : forall (m : JobProgram unit), yields left m (fun _ => left) ->
    yields left m (fun r w => match r with Ok _ => left w | Throw _ => atWork w end)).
  { intros m Hm. eapply yields_weak; [exact Hm|done|]. intros [] w Hw; [done|by right]. }
  unfold finishJob. apply (yields_bind _ _ _ _ _ (fun current w =>
    atWork w /\ (isCancelled current = true -> left w))).
  { eapply yields_weak; [apply yields_find|done|]. intros r w [Hw (j & -> & Hj)].
    split; [done|]. by apply cancelled_left. }
  intros current. case_match eqn:Hc.
  { eapply yields_weak; [apply Hweak, calm_ack; exact Hleft|naive_solver|done]. }
  apply (yields_weak _ _ atWork _ _ (fun r w => match r with Ok _ => left w | Throw _ => atWork w end));
    [|naive_solver|done].
  apply yields_goesOn; [apply Hat|]. apply (yields_askThen id worker atWork isAborted); [done..|intros aborted].
  case_match; [by apply yields_throw|].
  apply (yields_bind _ _ _ _ _ (fun _ => left)); [exact yields_succeeded|intros _].
  by apply Hweak, calm_nextRun.
Qed.

(** *** Reports *)

Lemma yields_terminal message code :
  yields atWork (markBackgroundJobTerminal id message code (Some worker)) (fun _ => left).
Proof.
  pose proof (calm_left id worker) as Hleft. pose proof (calm_atWork id worker) as Hat.
  unfold markBackgroundJobTerminal.
  apply (yields_askThen id worker atWork jobClock); [done..|intros now].
  apply (yields_bind _ _ _ _ _ (fun _ => left)).
  - apply (yields_execute _ _ _ (st_fail _ _ _ _ _)); [apply Hat|]. intros w a w' Hw Hd Ha.
    set (st := st_fail _ _ _ _ _) in *. destruct (runs st (jw_db w)) as [[x db']|e] eqn:E.
    + rewrite (Ha eq_refl x db' eq_refl) in Hd |- *.
      apply statement_answered in Hd as (db1 & H & ->). simplify_eq. cbn in H.
      unfold failRow, updateJob in H. destruct Hw as [(j & Hj & Hc)|(j & Hj & Hs)]; rewrite Hj in H.
      * assert (Hh : heldBy (Some worker) j = true) by (by destruct worker).
        rewrite Hh in H. simplify_eq. exists (failedAt now message code j). cbn.
        by rewrite lookup_insert_eq.
      * case_match; simplify_eq; [|by exists j]. exists (failedAt now message code j). cbn.
        by rewrite lookup_insert_eq.
    + unfold st in E. cbn in E. unfold failRow, updateJob in E. repeat case_match; simplify_eq.
  - intros count. unfold exactlyOne. calm_steps.
Qed.

Lemma yields_failed message code :
  yields atWork (markBackgroundJobFailed id message code (Some worker) true) (fun _ => left).
Proof.
  pose proof (calm_left id worker) as Hleft. pose proof (calm_atWork id worker) as Hat.
  unfold markBackgroundJobFailed.
  apply (yields_askThen id worker atWork jobClock); [done..|intros now].
  apply (yields_bind _ _ _ _ _ (fun found w =>
    atWork w /\ exists j, found = Some j /\ jobsIn w !! id = Some j)).
  { eapply yields_weak; [apply yields_find|done|]. intros r w [Hw (j & -> & Hj)]. eauto. }
  intros [job|]; [|apply yields_throw; naive_solver].
  destruct (lockedByAnother _ _) eqn:Hl.
  { apply yields_throw. intros w [[(j & Hj & Hc)|Hw] (j' & [= <-] & Hj')]; [|done]. simplify_eq.
    apply claimedAs_running in Hc as [_ Hby]. unfold lockedByAnother in Hl. rewrite Hby in Hl.
    destruct worker; [done|]. by rewrite bool_decide_eq_true_2 in Hl. }
  cbn [negb]. apply (yields_weak _ _ atWork _ _ (fun _ => left)); [|naive_solver|done].
  apply (yields_askThen id worker atWork mathRandom); [done..|intros random].
  set (retryDelay := retryDelayMs _ _).
  enough (H : yields atWork (execute (st_putBack id job (Some worker) now retryDelay message code))
      (fun _ => left)).
  { refine (yields_bind id worker atWork _ _ (fun _ => left) (fun _ => left) _ _).
    - eapply yields_weak; [exact H|done|by intros []].
    - intros x. by apply yields_ret. }
  apply (yields_execute _ _ _ (st_putBack _ _ _ _ _ _ _)); [apply Hat|]. intros w a w' Hw Hd Ha.
  assert (Hj : exists j, jobsIn w !! id = Some j)
    by (by destruct Hw as [(j & Hj & _)|(j & Hj & _)]; exists j).
  destruct Hj as [j Hj]. set (st := st_putBack _ _ _ _ _ _ _) in *.
  destruct (runs st (jw_db w)) as [[x db']|e] eqn:E;
    unfold st in E; cbn in E; unfold putBackRow in E; rewrite Hj in E; [|done].
  rewrite (Ha eq_refl x db' eq_refl) in Hd. apply statement_answered in Hd as (db1 & H & ->).
  unfold st in H. cbn in H. unfold putBackRow in H. rewrite Hj in H. simplify_eq.
  exists (putBack now retryDelay message code job j).
  cbn. rewrite lookup_insert_eq. split; [done|]. unfold putBack. by destruct (shouldDeadLetter job).
Qed.

Lemma yields_report job e :
  yields atWork (reportFailure isValidTimeZone dayOf instantOf addDay platformText id worker job e)
    (fun _ => left).
Proof.
  pose proof (calm_left id worker) as Hleft. unfold reportFailure.
  apply (yields_bind _ _ _ _ _ (fun _ => left)).
  - assert (Hsame : forall m : JobProgram (option BackgroundJobRecord), yields atWork m (fun _ => left) ->
      yields atWork m (fun r w => match r with Ok _ => left w | Throw _ => left w end)).
    { intros m Hm. eapply yields_weak; [exact Hm|done|by intros []]. }
    destruct e; repeat case_match; apply Hsame; auto using yields_terminal, yields_failed.
  - intros updated. unfold recordReconciliation. calm_steps; by apply calm_nextRun.
Qed.

Lemma yields_handle job e :
  yields atWork (handleJobError isValidTimeZone dayOf instantOf addDay platformText id worker job e)
    (fun _ => left).
Proof.
  pose proof (calm_left id worker) as Hleft. unfold handleJobError.
  apply (yields_bind _ _ _ _ _ (fun current w =>
    atWork w /\ (isCancelled current = true -> left w))).
  - apply (yields_catch _ _ _ _ _ (fun _ _ => False)); [|intros e' Q k w []].
    eapply yields_weak; [apply yields_find|done|]. intros r w [Hw (j & -> & Hj)].
    split; [done|]. by apply cancelled_left.
  - intros current. case_match.
    + eapply yields_weak; [apply calm_ack; exact Hleft|naive_solver|done].
    + eapply yields_weak; [apply yields_report|naive_solver|done].
Qed.

Lemma yields_claimedJob job :
  yields atWork (runClaimedJob isValidTimeZone dayOf instantOf addDay platformText id worker job)
    (fun _ => left).
Proof.
  pose proof (calm_left id worker) as Hleft. pose proof (calm_atWork id worker) as Hat.
  unfold runClaimedJob. destruct (getJobRegistryEntry _) as [entry|].
  - unfold runEntry. apply (yields_catch _ _ _ _ _ (fun _ => atWork));
      [|intros e; apply yields_goesOn; [apply Hat|apply yields_handle]].
    set (R (r : result Thrown unit) w := match r with Ok _ => left w | Throw _ => atWork w end).
    assert (Hthen : forall X (m : JobProgram X) f, yields atWork m (fun _ => atWork) ->
      (forall x, yields atWork (f x) R) -> yields atWork (m ≫= f) R).
    { intros X m f Hm Hf. apply (yields_bind _ _ _ _ _ (fun _ => atWork)); [|done].
      eapply yields_weak; [exact Hm|done|by intros []]. }
    apply Hthen; [calm_steps|intros _]. apply Hthen; [calm_steps|intros _].
    apply Hthen; [|intros _; apply yields_finish].
    calm_steps.
  - apply (yields_bind _ _ _ _ _ (fun _ => left)); [|intros x; by apply yields_ret].
    eapply yields_weak; [apply yields_terminal|done|by intros []].
Qed.

(** C26: A worker that keeps its claim does not leave the job running. However the
    handler ends, and whatever others do to the job between the worker's effects
    short of taking the claim or putting it to work again, when the worker is
    done with the job it has succeeded, failed, died, been cancelled or waits for
    its next attempt; unless the worker was told to stop, or its look at the row
    or its report of a failure was not carried out, or its answer was lost. *)
Theorem a_finished_job_is_not_left_running job w :
  heldHere id worker w ->
  ends id worker left
    (start (runClaimedJob isValidTimeZone dayOf instantOf addDay platformText id worker job)) w.
Proof. intros Hw. apply yields_claimedJob; [by left|]. by intros [[]|e] w' Hw'. Qed.
End Runner.
