(* ===== verification/JobExamples.v ===== *)
(** * A queue with two workers

    A concrete queue: a job is made, claimed, fails and waits again; the promises
    are checked on these runs. More runs show what the promises leave out: a late
    report takes a job from the worker that holds it, a late dismissal cancels a
    job that runs, and a job whose worker dies each time is claimed again and
    again. *)

From Stdlib Require String.
From Stdlib Require Import QArith.
From S2P Require Import Prelude Database MutationPrepare Async Requests Jobs JobWorker JobFacts JobServing.

Open Scope Z_scope.

(** ** A world that answers *)

Definition DAY_MS : Z := 24 * 60 * 60 * 1000.
Definition onlyUTC (zone : string) : bool := bool_decide (zone = "UTC").
Definition utcDay (zone : string) (at_ : Z) : Z := at_ / DAY_MS.
Definition utcInstant (zone : string) (day : Z) (time : Z * Z) : Z :=
  day * DAY_MS + time.1 * HOUR_MS + time.2 * (60 * 1000).
Definition utcNextDay (zone : string) (at_ : Z) : Z := at_ + DAY_MS.
Definition noText (e : Thrown) : string := "failed".

Definition answerTo (w : JobWorld) (e : JobEffect) : JobAnswer e * JobWorld :=
  match e with
  | jobClock => (jw_clock w, w)
  | mathRandom => ((1 # 2)%Q, w)
  | drawId => ("new", w)
  | wait ms => (tt, {| jw_db := jw_db w; jw_clock := jw_clock w + ms |})
  | isStopping | isAborted => (false, w)
  | sql s =>
      match runs s (jw_db w) with
      | Ok (x, db') => (Ok x, set_jobsDb db' w)
      | Throw e => (Throw e, w)
      end
  | runHandler _ _ => (Throw (JobsError "The disk is full."), w)
  | readSettings => (None, w)
  | readInstance => (None, w)
  | reconciliationRun _ _ _ => (Ok tt, w)
  | outOfTurns => (tt, w)
  end.

Lemma answerTo_performs t w e : job_performs t w e (answerTo w e).1 (answerTo w e).2.
Proof.
  destruct e as [| | | | | |s| | | | |]; cbn; try by constructor.
  apply jp_sql. destruct (runs s (jw_db w)) as [[x db']|e] eqn:E; cbn.
  - by apply sd_answered.
  - by apply sd_refused.
Qed.

(** The program goes on until it ends or comes to an effect [last] holds of. *)
Fixpoint goes (fuel : nat) (last : JobEffect -> bool) (w : JobWorld)
    (p : @Proc JobEffect Thrown JobAnswer) : JobWorld * @Proc JobEffect Thrown JobAnswer :=
  match fuel, p with
  | S fuel, await e k =>
      if last e then (w, p) else goes fuel last (answerTo w e).2 (k (answerTo w e).1)
  | _, _ => (w, p)
  end.
(** One effect more. *)
Definition goesOn (w : JobWorld) (p : @Proc JobEffect Thrown JobAnswer) :
    JobWorld * @Proc JobEffect Thrown JobAnswer := goes 1 (fun _ => false) w p.

#[local] Notation system w ps := {| sy_world := w; sy_programs := ps |}.
#[local] Notation works := (works_on onlyUTC utcDay utcInstant utcNextDay noText).
#[local] Notation called c := (start (call onlyUTC utcDay utcInstant utcNextDay noText c)).

Lemma goes_works fuel last t w p ps :
  rtc works (system w (<[t := p]> ps))
    (system (goes fuel last w p).1 (<[t := (goes fuel last w p).2]> ps)).
Proof.
  revert w p. induction fuel as [|fuel IH]; intros w p; cbn; [done|].
  destruct p as [|e k|]; [done| |done]. destruct (last e); [done|].
  eapply rtc_l; [|apply IH]. rewrite <- (insert_insert_eq ps t (k _) (await e k)).
  eapply sys_goes; [apply lookup_insert_eq|apply answerTo_performs].
Qed.

(** The statement a program stands at. *)
Definition standsAt (p : @Proc JobEffect Thrown JobAnswer) : option Statement :=
  match p with await (sql s) _ => Some s | _ => None end.
Lemma standsAt_await p s : standsAt p = Some s -> exists k, p = await (sql s) k.
Proof. destruct p as [|[] k|]; cbn; intros [= <-]. by exists k. Qed.

Definition stands (p : @Proc JobEffect Thrown JobAnswer) : bool :=
  match standsAt p with Some _ => true | None => false end.
Lemma stands_at p : stands p = true -> exists s, standsAt p = Some s.
Proof. unfold stands. destruct (standsAt p); [eauto|done]. Qed.

Lemma goesOn_works t w p ps s :
  standsAt p = Some s ->
  works (system w (<[t := p]> ps)) (system (goesOn w p).1 (<[t := (goesOn w p).2]> ps)).
Proof.
  intros (k & ->)%standsAt_await. unfold goesOn. cbn [goes fst snd].
  rewrite <- (insert_insert_eq ps t (k _) (await (sql s) k)).
  eapply sys_goes; [apply lookup_insert_eq|apply answerTo_performs].
Qed.

Definition fuel : nat := 100.
Definition until (last : JobEffect -> bool) (c : JobCall) (w : JobWorld) :=
  goes fuel last w (called c).

Lemma till_reached last c t w ps :
  callOk c -> ps !! t = None ->
  rtc works (system w ps) (system (until last c w).1 (<[t := (until last c w).2]> ps)).
Proof.
  intros Hc Hp. eapply rtc_l; [eapply sys_starts; [exact Hp|by exists c]|]. apply goes_works.
Qed.

(** ** A job *)

Definition cleaning : JobSpec :=
  {| js_kind := STAGING_CLEANUP_JOB_KIND; js_queueName := "default"; js_priority := 0;
     js_payloadJson := JObject []; js_dedupeKey := None; js_maxAttempts := 2 |}.
Definition asked : ScheduleInput :=
  {| si_spec := cleaning; si_runAt := 500; si_windowEnd := 900500; si_now := 0 |}.
Definition newWorker : WorkerInstance :=
  {| wi_status := "idle"; wi_currentJobId := None; wi_startedAt := 0; wi_lastHeartbeatAt := 0;
     wi_stoppedAt := None |}.
Definition queue : JobsDB :=
  {| jd_jobs := {["job" := newJob asked]}; jd_events := [];
     jd_workers := {["A" := newWorker; "B" := newWorker]};
     jd_archives := ∅; jd_derivatives := ∅ |}.
Definition world : JobWorld := {| jw_db := queue; jw_clock := 1000 |}.
Definition jobIn (w : JobWorld) : BackgroundJobRecord :=
  default (newJob asked) (jd_jobs (jw_db w) !! "job").

Lemma world_idle : idle (system world ∅).
Proof.
  split; [done|]. cbn. apply map_Forall_singleton. by split_and!.
Qed.

Definition isClaimOf (e : JobEffect) : bool :=
  match e with sql (st_claim _ _ _ _ _) => true | _ => false end.
Definition isReportOf (e : JobEffect) : bool :=
  match e with sql (st_putBack _ _ _ _ _ _ _) => true | _ => false end.
Definition draining (worker : string) : JobCall := toDrain 1 worker general_lane 60000.

(** Worker A about to claim the job, with it, and about to report that it failed. *)
Definition claiming := until isClaimOf (draining "A") world.
Definition claimed := goesOn claiming.1 claiming.2.
Definition reporting := until isReportOf (draining "A") world.
Definition reported := goesOn reporting.1 reporting.2.

Example claimed_life : lifeOf (jobIn claimed.1) = Held "A" 61000 1.
Proof. vm_compute. reflexivity. Qed.
Example reported_life : lifeOf (jobIn reported.1) = Waiting 31000 1.
Proof. vm_compute. reflexivity. Qed.

Lemma claiming_reached : rtc works (system world ∅) (system claiming.1 {[1%nat := claiming.2]}).
Proof. by apply till_reached. Qed.
Lemma reporting_reached : rtc works (system world ∅) (system reporting.1 {[1%nat := reporting.2]}).
Proof. by apply till_reached. Qed.

#[local] Opaque claiming claimed reporting reported.

Lemma claiming_goes_on :
  works (system claiming.1 {[1%nat := claiming.2]}) (system claimed.1 {[1%nat := claimed.2]}).
Proof.
  assert (H : standsAt claiming.2 = Some (st_claim "job" (newJob asked) "A" 1000 60000))
    by (vm_compute; reflexivity).
  exact (goesOn_works 1%nat claiming.1 claiming.2 ∅ _ H).
Qed.

(** ** The promises of these runs *)

Lemma each_due_job_has_one_lane_witness :
  claimable 1000 (newJob asked) = true /\
  exists lane,
    (forall lane', offered "default" lane' 1000 (newJob asked) = true <-> lane' = lane) /\
    exists first firstJob, findDueJob "default" lane 1000 queue = Some (first, firstJob) /\
      jd_jobs queue !! first = Some firstJob /\ offered "default" lane 1000 firstJob = true /\
      forall id' j', jd_jobs queue !! id' = Some j' -> offered "default" lane 1000 j' = true ->
        queueOrder (first, firstJob) (id', j').
Proof.
  split; [vm_compute; reflexivity|].
  apply (each_due_job_has_one_lane queue 1000 "job" (newJob asked));
    [vm_compute; reflexivity| |vm_compute; reflexivity].
  by left.
Defined.

Definition noJobs : JobsDB := set_jobs ∅ queue.
Definition askedLater : ScheduleInput :=
  {| si_spec := cleaning; si_runAt := 7000; si_windowEnd := 907000; si_now := 6000 |}.

Lemma enqueue_makes_only_missing_work_witness :
  doesTheWork asked (newJob asked) /\
  exists db', enqueue asked "new" noJobs = Ok (true, ("new", newJob asked), db') /\
    enqueue askedLater "again" db' = Ok (false, ("new", newJob asked), db').
Proof.
  split.
  - pose proof (enqueue_makes_only_missing_work asked "again" queue) as H.
    assert (E : enqueue asked "again" queue = Ok (false, ("job", newJob asked), queue))
      by (vm_compute; reflexivity).
    rewrite E in H. exact (proj1 (proj2 (proj2 H))).
  - pose proof (enqueue_makes_only_missing_work asked "new" noJobs) as H.
    assert (E : exists db', enqueue asked "new" noJobs = Ok (true, ("new", newJob asked), db'))
      by (eexists; vm_compute; reflexivity).
    destruct E as [db' E]. exists db'. split; [exact E|]. rewrite E in H.
    destruct H as (_ & _ & _ & _ & _ & H). apply H; [by right|].
    split; [reflexivity|split; cbn; lia].
Defined.

Lemma jobs_live_their_life_witness :
  (lifeOf (jobIn claiming.1), lifeOf (jobIn claimed.1)) = (Waiting 500 0, Held "A" 61000 1) /\
  exists j', jobsIn claimed.1 !! "job" = Some j' /\
    (j' = newJob asked \/
     exists st, statement_step st claiming.1 claimed.1 {[1%nat := claiming.2]} {[1%nat := claimed.2]} /\
       ((exists actor, actorOf st = Some actor /\
          life_step 2 (jw_clock claiming.1) actor (lifeOf (newJob asked)) (lifeOf j')) \/
        tooLate st "job" (newJob asked))).
Proof.
  split; [vm_compute; reflexivity|].
  apply (jobs_live_their_life onlyUTC utcDay utcInstant utcNextDay noText _ _ _ "job" world_idle
           claiming_reached claiming_goes_on).
  vm_compute. reflexivity.
Defined.

Lemma jobs_stay_well_formed_witness :
  lifeOf (jobIn claimed.1) = Held "A" 61000 1 /\ jobOk (newJob asked) /\
  exists j', jobsIn claimed.1 !! "job" = Some j' /\ jobOk j' /\ laterRow (newJob asked) j'.
Proof.
  split; [vm_compute; reflexivity|].
  apply (jobs_stay_well_formed onlyUTC utcDay utcInstant utcNextDay noText _ _
           (system claimed.1 {[1%nat := claimed.2]}) "job" (newJob asked) world_idle claiming_reached);
    [|vm_compute; reflexivity].
  apply rtc_once, claiming_goes_on.
Defined.

Lemma scheduling_ends_in_its_window_witness :
  standsAt claiming.2 = Some (st_claim "job" (newJob asked) "A" 1000 60000) /\
  sql (st_claim "job" (newJob asked) "A" 1000 60000) <> outOfTurns.
Proof.
  assert (H : standsAt claiming.2 = Some (st_claim "job" (newJob asked) "A" 1000 60000))
    by (vm_compute; reflexivity).
  split; [exact H|]. destruct (standsAt_await _ _ H) as [k Hk].
  apply (scheduling_ends_in_its_window onlyUTC utcDay utcInstant utcNextDay noText _ _ 1%nat _ k
           world_idle claiming_reached).
  cbn [sy_programs]. rewrite Hk. apply lookup_singleton_eq.
Defined.

Lemma a_finished_job_is_not_left_running_witness :
  lifeOf (jobIn claimed.1) = Held "A" 61000 1 /\
  ends "job" "A" (leftHere "job")
    (start (runClaimedJob onlyUTC utcDay utcInstant utcNextDay noText "job" "A" (jobIn claimed.1)))
    claimed.1.
Proof.
  split; [vm_compute; reflexivity|]. apply a_finished_job_is_not_left_running; [done|].
  exists (jobIn claimed.1). split; vm_compute; reflexivity.
Defined.

(** ** What the promises leave out *)

Definition later (clock : Z) (w : JobWorld) : JobWorld := {| jw_db := jw_db w; jw_clock := clock |}.
Definition isHandlerOf (e : JobEffect) : bool :=
  match e with runHandler _ _ => true | _ => false end.
Definition isEnd (_ : JobEffect) : bool := false.

(** Worker A stands at its report, with the row it read, while its lease runs out
    and worker B claims the job and works on it. *)
Definition taken := until isHandlerOf (draining "B") (later 100000 reporting.1).
Definition overwritten := goesOn taken.1 reporting.2.

Lemma taken_reached :
  rtc works (system world ∅) (system taken.1 (<[2%nat := taken.2]> {[1%nat := reporting.2]})).
Proof.
  etrans; [apply reporting_reached|]. eapply rtc_l; [apply sys_elsewhere, (je_time _ 100000)|].
  - vm_compute. discriminate.
  - by apply till_reached.
Qed.

#[local] Opaque taken.

(** The report of worker A ends the live claim of worker B: [markBackgroundJobFailed]
    reads the row and then updates it by its id alone. *)
Lemma late_report_takes_a_live_claim :
  exists s s', rtc works (system world ∅) s /\ works s s' /\
    lifeOf (jobIn (sy_world s)) = Held "B" 160000 2 /\ jw_clock (sy_world s) = 100000 /\
    lifeOf (jobIn (sy_world s')) = Waiting 31000 2.
Proof.
  exists (system taken.1 (<[1%nat := reporting.2]> (<[2%nat := taken.2]> ∅))).
  exists (system overwritten.1 (<[1%nat := overwritten.2]> (<[2%nat := taken.2]> ∅))). split_and!.
  - rewrite insert_insert_ne by done. exact taken_reached.
  - assert (H : stands reporting.2 = true) by (vm_compute; reflexivity).
    apply stands_at in H as [st H]. exact (goesOn_works 1%nat taken.1 reporting.2 _ st H).
  - vm_compute. reflexivity.
  - vm_compute. reflexivity.
  - vm_compute. reflexivity.
Qed.

(** It also puts a job that was cancelled in between back in the queue. *)
Definition cancelled := until isEnd (toAct cancel_action "job" "admin") reporting.1.
Example cancelled_job_is_queued_again :
  (lifeOf (jobIn cancelled.1), lifeOf (jobIn (goesOn cancelled.1 reporting.2).1)) =
  (Ended job_cancelled 1, Waiting 31000 1).
Proof. vm_compute. reflexivity. Qed.

(** A dismissal that read the job as dead, and writes it after it was retried and
    claimed again: the job is cancelled while worker B runs it, with B's lease. *)
Definition isActionOf (e : JobEffect) : bool :=
  match e with sql (st_admin _ _ _ _ _) => true | _ => false end.
Definition dead : JobWorld :=
  (until isEnd (draining "A") (later 100000 (until isEnd (draining "A") world).1)).1.
Definition dismissing := until isActionOf (toAct dismiss_action "job" "admin") dead.
Definition retried := until isEnd (toAct retry_action "job" "admin") dismissing.1.
Definition runAgain := until isHandlerOf (draining "B") retried.1.
Definition dismissed := goesOn runAgain.1 dismissing.2.
Example late_dismissal_keeps_the_lease :
  (lifeOf (jobIn dead), lifeOf (jobIn runAgain.1), lifeOf (jobIn dismissed.1)) =
  (Ended job_dead 2, Held "B" 160000 3, Ended job_cancelled 3) /\
  jb_lease (jobIn dismissed.1) = jb_lease (jobIn runAgain.1) /\
  jl_lockedBy (jb_lease (jobIn dismissed.1)) = Some "B".
Proof. vm_compute. split_and!; reflexivity. Qed.

(** A worker that dies with a job each time is given it each time: a claim does
    not look at the attempts that are left. *)
Fixpoint dying (times : nat) (w : JobWorld) : JobWorld :=
  match times with
  | O => w
  | S times =>
      let died := (until isHandlerOf (draining "A") w).1 in
      dying times (later (jw_clock died + 100000) died)
  end.
Lemma dying_reached times w : rtc works (system w ∅) (system (dying times w) ∅).
Proof.
  revert w. induction times as [|times IH]; intros w; cbn [dying]; [done|].
  etrans; [by apply (till_reached isHandlerOf (draining "A") 1%nat)|].
  eapply rtc_l; [eapply sys_ends, lookup_insert_eq|]. rewrite delete_insert_eq, delete_empty.
  eapply rtc_l; [apply sys_elsewhere, je_time|apply IH]. cbn. lia.
Qed.
Example dying_job_is_claimed_again :
  (js_maxAttempts (jb_spec (jobIn (dying 3 world))), lifeOf (jobIn (dying 3 world))) =
  (2, Held "A" 261000 3).
Proof. vm_compute. reflexivity. Qed.
