(* ===== verification/EngineLoop.v ===== *)
(** * The engine's loop

    [apps/desktop/src/engine/engine.ts]: what the engine keeps, the settings it is
    given, the work it does one piece at a time (a pass, forgetting removed pairs,
    a choice about an emptied folder or a conflict, shutdown), reading the change
    feed, and when the next pass starts.

    Code between two awaits is one effect, [here f]; the calls of the server, the
    pass over one pair and the clock are effects of their own. A loop with no bound
    in the source has [turns] of them and then waits for ever ([endless]). The
    sizes shown per folder, the status messages and the watchers are left out. *)

From S2P Require Import Prelude SyncTypes JsValues Plan SyncStore RemoteTree Async EngineIo PairSync.

Open Scope Z_scope.

Definition POLL_MS : Z := 60000.
Definition FULL_PASS_MS : Z := 10 * 60000.
Definition DEBOUNCE_MS : Z := 1500.
Definition RETRY_SOON_MS : Z := 5000.

(** ** Data *)

Record EngineConfig := {
  cg_serverUrl : string; cg_token : string; cg_deviceName : string;
  cg_pairs : list SyncPair; cg_ignore : list string; cg_minFreeBytes : Z;
  cg_uploadLimitKBps : option Z; cg_downloadLimitKBps : option Z; cg_paused : bool
}.

#[export] Instance SyncMode_eq_dec : EqDecision SyncMode.
Proof. solve_decision. Defined.
#[export] Instance SkipFolder_eq_dec : EqDecision SkipFolder.
Proof. solve_decision. Defined.
#[export] Instance SyncPair_eq_dec : EqDecision SyncPair.
Proof. solve_decision. Defined.
#[export] Instance ActivityState_eq_dec : EqDecision ActivityState.
Proof. solve_decision. Defined.

(** A token that stopped working, and everything else that is thrown. *)
Inductive LoopError := SignedOutError | failed (error : EngineError).

Definition hasStatus (status : Z) (error : LoopError) : bool :=
  match error with failed (ApiError s _ _ _) => bool_decide (s = status) | _ => false end.

Inductive Failure := offline | problem.
#[export] Instance Failure_eq_dec : EqDecision Failure.
Proof. solve_decision. Defined.

(** What the window shows, and the notices it was sent. *)
Record Shown := {
  sh_running : bool; sh_waiting : Waiting; sh_unchecked : nat; sh_movedBytes : Z;
  sh_issues : list Issue; sh_activity : list Activity; sh_failure : option Failure;
  sh_lastSyncAt : option Z; sh_notified : list (string * string * IssueKind);
  sh_notices : list (string * string)
}.

(** [SyncEngine]. Settings are compared as objects: [en_configured] counts them.
    [en_timer] is the delay of the timer that runs the next pass. *)
Record Engine := {
  en_config : option EngineConfig; en_configured : nat; en_tree : RemoteTree;
  en_stopped : bool; en_signedOut : bool; en_liveConnected : bool;
  en_refusedPasses : nat; en_timer : option Z; en_shown : Shown
}.

Definition en_store (e : Engine) : Store := rt_store (en_tree e).

Definition set_config (config : EngineConfig) (e : Engine) : Engine :=
  {| en_config := Some config; en_configured := S (en_configured e); en_tree := en_tree e;
     en_stopped := en_stopped e; en_signedOut := en_signedOut e;
     en_liveConnected := en_liveConnected e; en_refusedPasses := en_refusedPasses e;
     en_timer := en_timer e; en_shown := en_shown e |}.
Definition set_tree (f : RemoteTree -> RemoteTree) (e : Engine) : Engine :=
  {| en_config := en_config e; en_configured := en_configured e; en_tree := f (en_tree e);
     en_stopped := en_stopped e; en_signedOut := en_signedOut e;
     en_liveConnected := en_liveConnected e; en_refusedPasses := en_refusedPasses e;
     en_timer := en_timer e; en_shown := en_shown e |}.
Definition set_flags (stopped signedOut liveConnected : bool) (e : Engine) : Engine :=
  {| en_config := en_config e; en_configured := en_configured e; en_tree := en_tree e;
     en_stopped := stopped; en_signedOut := signedOut;
     en_liveConnected := liveConnected; en_refusedPasses := en_refusedPasses e;
     en_timer := en_timer e; en_shown := en_shown e |}.
Definition set_refused (refused : nat) (e : Engine) : Engine :=
  {| en_config := en_config e; en_configured := en_configured e; en_tree := en_tree e;
     en_stopped := en_stopped e; en_signedOut := en_signedOut e;
     en_liveConnected := en_liveConnected e; en_refusedPasses := refused;
     en_timer := en_timer e; en_shown := en_shown e |}.
Definition set_timer (timer : option Z) (e : Engine) : Engine :=
  {| en_config := en_config e; en_configured := en_configured e; en_tree := en_tree e;
     en_stopped := en_stopped e; en_signedOut := en_signedOut e;
     en_liveConnected := en_liveConnected e; en_refusedPasses := en_refusedPasses e;
     en_timer := timer; en_shown := en_shown e |}.
Definition set_shown (f : Shown -> Shown) (e : Engine) : Engine :=
  {| en_config := en_config e; en_configured := en_configured e; en_tree := en_tree e;
     en_stopped := en_stopped e; en_signedOut := en_signedOut e;
     en_liveConnected := en_liveConnected e; en_refusedPasses := en_refusedPasses e;
     en_timer := en_timer e; en_shown := f (en_shown e) |}.

Definition set_progress (running : bool) (unchecked : nat) (movedBytes : Z) (s : Shown) : Shown :=
  {| sh_running := running; sh_waiting := sh_waiting s; sh_unchecked := unchecked;
     sh_movedBytes := movedBytes; sh_issues := sh_issues s; sh_activity := sh_activity s;
     sh_failure := sh_failure s; sh_lastSyncAt := sh_lastSyncAt s;
     sh_notified := sh_notified s; sh_notices := sh_notices s |}.
Definition set_waiting (waiting : Waiting) (s : Shown) : Shown :=
  {| sh_running := sh_running s; sh_waiting := waiting; sh_unchecked := sh_unchecked s;
     sh_movedBytes := sh_movedBytes s; sh_issues := sh_issues s; sh_activity := sh_activity s;
     sh_failure := sh_failure s; sh_lastSyncAt := sh_lastSyncAt s;
     sh_notified := sh_notified s; sh_notices := sh_notices s |}.
Definition set_shownIssues (issues : list Issue) (s : Shown) : Shown :=
  {| sh_running := sh_running s; sh_waiting := sh_waiting s; sh_unchecked := sh_unchecked s;
     sh_movedBytes := sh_movedBytes s; sh_issues := issues; sh_activity := sh_activity s;
     sh_failure := sh_failure s; sh_lastSyncAt := sh_lastSyncAt s;
     sh_notified := sh_notified s; sh_notices := sh_notices s |}.
Definition set_activity (activity : list Activity) (movedBytes : Z) (s : Shown) : Shown :=
  {| sh_running := sh_running s; sh_waiting := sh_waiting s; sh_unchecked := sh_unchecked s;
     sh_movedBytes := movedBytes; sh_issues := sh_issues s; sh_activity := activity;
     sh_failure := sh_failure s; sh_lastSyncAt := sh_lastSyncAt s;
     sh_notified := sh_notified s; sh_notices := sh_notices s |}.
Definition set_outcome (failure : option Failure) (lastSyncAt : option Z) (s : Shown) : Shown :=
  {| sh_running := sh_running s; sh_waiting := sh_waiting s; sh_unchecked := sh_unchecked s;
     sh_movedBytes := sh_movedBytes s; sh_issues := sh_issues s; sh_activity := sh_activity s;
     sh_failure := failure; sh_lastSyncAt := lastSyncAt;
     sh_notified := sh_notified s; sh_notices := sh_notices s |}.
Definition set_notices (notified : list (string * string * IssueKind))
    (notices : list (string * string)) (s : Shown) : Shown :=
  {| sh_running := sh_running s; sh_waiting := sh_waiting s; sh_unchecked := sh_unchecked s;
     sh_movedBytes := sh_movedBytes s; sh_issues := sh_issues s; sh_activity := sh_activity s;
     sh_failure := sh_failure s; sh_lastSyncAt := sh_lastSyncAt s;
     sh_notified := notified; sh_notices := notices |}.

(** ** Effects *)

Record SnapshotPage := {
  np_items : list SnapshotItem; np_next : option string; np_changeCursor : string
}.
Record ChangesPage := {
  cp_changes : list StorageChange; cp_hasMore : bool; cp_cursor : string
}.

Inductive LoopEffect : Type :=
| askSnapshot (folderId : string) (cursor : option string)
| askChanges (after : string)
| askKeepMine (fileId : string) (ifRevision : Z) (conflictCopyId : string)
| askCancelUpload (sessionId : string)
| askVersion (serverUrl : string)
| runPair (pair : SyncPair) (config : EngineConfig) (configured : nat) (full : Full)
| askExists (folder rel : string)
| askTrash (folder rel : string)
| askNow
| here {X : Type} (f : Engine -> X * Engine)
| endless.

Definition LoopAnswer (e : LoopEffect) : Type :=
  match e with
  | askSnapshot _ _ => result LoopError SnapshotPage
  | askChanges _ => result LoopError ChangesPage
  | askKeepMine _ _ _ | askCancelUpload _ | askVersion _ | askTrash _ _ => result LoopError unit
  | runPair _ _ _ _ => result LoopError PairResult * Full
  | askExists _ _ => bool
  | askNow => Z
  | @here X _ => X
  | endless => Empty_set
  end.

Notation Loop := (@Task LoopEffect LoopError LoopAnswer).

Definition see {X} (f : Engine -> X) : Loop X := ask (here (fun e => (f e, e))).
Definition change (f : Engine -> Engine) : Loop unit := ask (here (fun e => (tt, f e))).
Definition waitForEver {X} : Loop X :=
  never ← ask endless; match (never : Empty_set) with end.
(** [try { t } catch] with what was thrown as a value. *)
Definition tried {X} (t : Loop X) : Loop (result LoopError X) :=
  catch (x ← t; mret (Ok x)) (fun e => mret (Throw e)).

Definition onTreeStore (f : Store -> Store) (t : RemoteTree) : RemoteTree :=
  {| rt_items := rt_items t; rt_children := rt_children t; rt_store := f (rt_store t);
     rt_roots := rt_roots t |}.
Definition saveMeta (key : string) (value : option string) (e : Engine) : Engine :=
  set_tree (onTreeStore (setMeta key value)) e.
Definition metaOf (key : string) (e : Engine) : option string := getMeta key (en_store e).

(** A text that is there and not empty. *)
Definition truthy (text : option string) : bool := negb (bool_decide (nullish text "" = "")).

(** ** Requests *)

(** [request]: a timer that is set replaces the one before. *)
Definition request (delay : Z) (e : Engine) : Engine :=
  if en_stopped e then e else set_timer (Some delay) e.

Definition signOut (e : Engine) : Engine :=
  if en_signedOut e then e else set_flags (en_stopped e) true (en_liveConnected e) e.

(** What [configure] does at once; [forgetRemoved] is the rest. *)
Definition configure (config : EngineConfig) (e : Engine) : Engine :=
  let changed :=
    match en_config e with
    | Some previous => negb (bool_decide (cg_serverUrl previous = cg_serverUrl config))
                       || negb (bool_decide (cg_token previous = cg_token config))
    | None => true
    end in
  let e := set_config config e in
  let e := set_tree (setRoots (list_to_set (pr_remoteFolderId <$> cg_pairs config))) e in
  if changed then set_flags (en_stopped e) false (en_liveConnected e) e else e.

Definition forgetRemoved (configured : nat) (config : EngineConfig) : Loop unit :=
  change (fun e =>
    if bool_decide (en_configured e = configured)
    then set_tree (onTreeStore (forgetPairsExcept (pr_id <$> cg_pairs config))) e else e).

Inductive PairChoice := download_again | apply_choice.
#[export] Instance PairChoice_eq_dec : EqDecision PairChoice.
Proof. solve_decision. Defined.

Definition resolvePair (pairId : string) (choice : PairChoice) : Loop unit :=
  change (fun e =>
    request 0 (if bool_decide (choice = apply_choice)
               then saveMeta ("allow-emptied:" +:+ pairId) (Some "1") e
               else set_tree (onTreeStore (clearPair pairId)) e)).

(** What [shutDown] does at once: no request, no timer, and no work that waits. *)
Definition stopNow (e : Engine) : Engine :=
  set_timer None (set_flags true (en_signedOut e) (en_liveConnected e) e).

(** The unfinished uploads that a sign-out cancels, with calls of their own. *)
Definition cancelPending : Loop unit :=
  uploads ← see (fun e => pendingUploads (en_store e));
  forEach uploads (fun upload =>
    _ ← tried (settle (ask (askCancelUpload (pu_sessionId upload)))); mret tt).

(** What it does once the work in flight is done; then the store is closed. *)
Definition shutDown (cancelUploads : bool) : Loop unit :=
  config ← see en_config;
  match config with
  | Some _ => if cancelUploads then cancelPending else mret tt
  | None => mret tt
  end.

(** ** Choices about conflicts *)

Section Loop.
Context `{Platform} (platform : NodePlatform).

Inductive ConflictChoice := keep_server | keep_mine.

Definition notReady (e : Engine) : Engine :=
  set_shown (fun s => set_notices (sh_notified s)
    (sh_notices s ++ [("Not ready yet",
       "Your version is still uploading. Try again in a moment.")]) s) e.

Definition forgetConflict (id : Z) (e : Engine) : Engine :=
  request 0 (set_tree (onTreeStore (deleteConflict id)) e).

(** The conflict's row and its pair, as the choice finds them. *)
Definition conflictAt (id : Z) (e : Engine) : option (ConflictRow * SyncPair) :=
  config ← en_config e;
  conflict ← head (filter (fun each => cr_id each = id) (conflicts (en_store e)));
  pair ← head (filter (fun each => pr_id each = cr_pairId conflict) (cg_pairs config));
  Some (conflict, pair).

(** The base of the copy and the item of the original. *)
Definition bothVersions (conflict : ConflictRow) (pair : SyncPair) (e : Engine) :
    option (BaseEntry * RemoteItem) :=
  copy ← head (filter (fun entry => be_rel entry = cr_copyRel conflict)
                 (baseEntries (pr_id pair) (en_store e)));
  original ← head (filter (fun each => si_rel each = cr_rel conflict)
    (sp_items (scope platform (fun _ => false) (fun _ _ => false) (en_tree e)
                 (pr_remoteFolderId pair))));
  Some (copy, si_item original).

Definition applyConflictChoice (id : Z) (choice : ConflictChoice) : Loop unit :=
  found ← see (conflictAt id);
  match found with
  | None => mret tt
  | Some (conflict, its) =>
      match choice with
      | keep_server =>
          there ← ask (askExists (pr_localPath its) (cr_copyRel conflict));
          _ ← (if there : bool
               then settle (ask (askTrash (pr_localPath its) (cr_copyRel conflict)))
               else mret tt);
          change (forgetConflict id)
      | keep_mine =>
          versions ← see (bothVersions conflict its);
          match versions with
          | None => change notReady
          | Some (copy, original) =>
              _ ← settle (ask (askKeepMine (ri_id original) (ri_rev original) (be_remoteId copy)));
              change (forgetConflict id)
          end
      end
  end.

(** ** Reading the change feed *)

Section Pull.
Context (turns : nat).

(** The loop of [snapshot], with the pages so far. *)
Fixpoint snapshotFrom (left : nat) (folderId : string) (cursor changeCursor : option string)
    (items : list RemoteItem) : Loop (list RemoteItem * string) :=
  match left with
  | O => waitForEver
  | S left' =>
      page ← settle (ask (askSnapshot folderId cursor));
      let changeCursor := nullish changeCursor (np_changeCursor page) in
      let items := items ++ (fromSnapshot <$> np_items page) in
      if truthy (np_next page)
      then snapshotFrom left' folderId (np_next page) (Some changeCursor) items
      else mret (items, changeCursor)
  end.

Definition snapshot (folderId : string) : Loop (list RemoteItem * string) :=
  snapshotFrom turns folderId None None [].

(** [BigInt] throws a [SyntaxError]. *)
Definition lowerCursor (value : string) (e : Engine) : result LoopError unit * Engine :=
  match metaOf "cursor" e with
  | None => (Ok tt, saveMeta "cursor" (Some value) e)
  | Some saved =>
      match bigIntOf value, bigIntOf saved with
      | Some v, Some c =>
          (Ok tt, if bool_decide (v < c) then saveMeta "cursor" (Some value) e else e)
      | _, _ => (Throw (failed (OtherError "SyntaxError")), e)
      end
  end.

Definition takeSnapshot (pairId folderId : string) (items : list RemoteItem) (cursor : string)
    (e : Engine) : result LoopError unit * Engine :=
  let e := set_tree (replaceUnder folderId items) e in
  match lowerCursor cursor e with
  | (Ok _, e) =>
      (Ok tt, saveMeta ("gone:" +:+ pairId) None (saveMeta ("ready:" +:+ pairId) (Some "1") e))
  | failure => failure
  end.

Definition snapshotPair (pair : SyncPair) : Loop unit :=
  catch
    (r ← snapshot (pr_remoteFolderId pair);
     settle (ask (here (takeSnapshot (pr_id pair) (pr_remoteFolderId pair) r.1 r.2))))
    (fun error =>
       if hasStatus 404 error then change (saveMeta ("gone:" +:+ pr_id pair) (Some "1"))
       else throw error).

(** A snapshot for every pair that has none. *)
Definition snapshotNew (pairs : list SyncPair) : Loop unit :=
  forEach pairs (fun pair =>
    ready ← see (metaOf ("ready:" +:+ pr_id pair));
    if truthy ready then mret tt else snapshotPair pair).

(** [roots.get(id)]: the last pair of a folder counts. *)
Definition pairOfFolder (pairs : list SyncPair) (id : string) : option string :=
  pr_id <$> last (filter (fun pair => pr_remoteFolderId pair = id) pairs).

Definition noteChange (pairs : list SyncPair) (each : StorageChange) (e : Engine) : Engine :=
  match pairOfFolder pairs (ch_itemId each) with
  | Some pairId =>
      if bool_decide (pairId = "") then e
      else if bool_decide (ch_kind each ∈ [trashed; deleted])
      then saveMeta ("gone:" +:+ pairId) (Some "1") e
      else if bool_decide (ch_kind each = restored)
      then saveMeta ("ready:" +:+ pairId) None e
      else e
  | None => e
  end.

(** One change of a page, and the folders to reveal so far. *)
Definition applyOne (pairs : list SyncPair) (acc : list string * Engine) (each : StorageChange) :
    list string * Engine :=
  let e := noteChange pairs each acc.2 in
  let '(tree, shown) := apply each (en_tree e) in
  (acc.1 ++ match shown with
            | Some id => if bool_decide (id = "") then [] else [id] | None => [] end,
   set_tree (fun _ => tree) e).

(** The transaction over a page. *)
Definition applyPage (pairs : list SyncPair) (changes : list StorageChange) (e : Engine) :
    list string * Engine :=
  foldl (applyOne pairs) ([], e) changes.

(** The contents of a folder that came into view; gone again since is no error. *)
Definition reveal (folderId : string) : Loop unit :=
  catch (r ← snapshot folderId; change (set_tree (addUnder r.1)))
    (fun error => if hasStatus 404 error then mret tt else throw error).

(** Too old a cursor, or a server restored to an earlier point: start over. *)
Definition startOver (e : Engine) : Engine := set_tree clear (saveMeta "cursor" None e).

Fixpoint pullFrom (left : nat) (pairs : list SyncPair) : Loop unit :=
  match left with
  | O => waitForEver
  | S left' =>
      after ← see (fun e => nullish (metaOf "cursor" e) "0");
      answer ← tried (settle (ask (askChanges after)));
      match answer with
      | Throw thrown =>
          if hasStatus 410 thrown then
            _ ← change startOver;
            _ ← forEach pairs snapshotPair;
            pullFrom left' pairs
          else throw thrown
      | Ok page =>
          folders ← ask (here (applyPage pairs (cp_changes page)));
          _ ← forEach folders reveal;
          _ ← snapshotNew pairs;
          _ ← change (saveMeta "cursor" (Some (cp_cursor page)));
          if cp_hasMore page then pullFrom left' pairs else mret tt
      end
  end.

Definition pull : Loop unit :=
  config ← see en_config;
  match config with
  | None => mret tt
  | Some config =>
      _ ← snapshotNew (cg_pairs config);
      pullFrom turns (cg_pairs config)
  end.
End Pull.

(** ** Telling *)

(** [track]: an update of a transfer under way keeps its place; anything else
    moves to the front. *)
Definition sameActivity (a b : Activity) : bool :=
  bool_decide (ac_pairId a = ac_pairId b) && bool_decide (ac_rel a = ac_rel b).
Definition isActive (a : Activity) : bool := bool_decide (ac_state a = active_transfer).

Definition indexOf {A} (f : A -> bool) (l : list A) : option nat :=
  fst <$> list_find (fun a => f a = true) l.

(** The oldest entry that is not under way leaves when there are more than 30. *)
Definition trimActivity (activity : list Activity) : list Activity :=
  if bool_decide (length activity <= 30)%nat then activity
  else match indexOf (fun each => negb (isActive each)) (reverse activity) with
       | Some oldestRecent => delete (length activity - 1 - oldestRecent)%nat activity
       | None => activity
       end.

Definition track (update : Activity) (s : Shown) : Shown :=
  let activity := sh_activity s in
  let index := indexOf (sameActivity update) activity in
  let before := i ← index; activity !! i in
  let wasActive := match before with Some each => isActive each | None => false end in
  match index with
  | Some i =>
      if isActive update && wasActive then
        set_activity (<[i := update]> activity) (sh_movedBytes s) s
      else
        set_activity (trimActivity (update :: delete i activity))
          (sh_movedBytes s
           + if negb (isActive update) && wasActive
             then (if bool_decide (ac_state update = done_transfer) then ac_bytes update
                   else ac_doneBytes update) else 0) s
  | None => set_activity (trimActivity (update :: activity)) (sh_movedBytes s) s
  end.

(** [current]: the pair and the ignore rules are as when the pass started. *)
Definition isCurrent (pair : SyncPair) (ignore : list string) (e : Engine) : bool :=
  match en_config e with
  | None => false
  | Some config =>
      negb (en_stopped e) && negb (en_signedOut e) && negb (cg_paused config)
      && bool_decide (head (filter (fun each => pr_id each = pr_id pair) (cg_pairs config))
                      = Some pair)
      && bool_decide (cg_ignore config = ignore)
  end.

(** The callbacks [syncPair] is given; the sizes [scanned] shows are left out. *)
Definition told (pair : SyncPair) (config : EngineConfig) (configured : nat) (message : Message)
    (e : Engine) : Engine :=
  let same := bool_decide (en_configured e = configured) in
  match message with
  | scanned _ => e
  | activity a => set_shown (track a) e
  | waiting w => if same then set_shown (set_waiting w) e else e
  | resolvedPath rel =>
      if same && isCurrent pair (cg_ignore config) e then
        set_shown (fun s => set_shownIssues (filter (fun each =>
          ~ (is_pairId each = pr_id pair /\ is_source each = operation
             /\ pathKey (is_rel each) = pathKey rel)) (sh_issues s)) s) e
      else e
  | notify title body =>
      set_shown (fun s => set_notices (sh_notified s) (sh_notices s ++ [(title, body)]) s) e
  end.

(** [notifyIssues]: an issue is announced once. The key of the source joins the
    three parts with NUL characters. *)
Definition notifyOne (s : Shown) (issue : Issue) : Shown :=
  let key := (is_pairId issue, is_rel issue, is_kind issue) in
  if bool_decide (is_kind issue = error) || bool_decide (key ∈ sh_notified s) then s
  else set_notices (key :: sh_notified s)
         (sh_notices s ++
          [(if bool_decide (is_kind issue = invalid_name) then "Can't sync here"
            else "Sync needs you",
            if bool_decide (is_rel issue = "") then is_message issue
            else is_rel issue +:+ ": " +:+ is_message issue)]) s.
Definition notifyIssues (s : Shown) : Shown := foldl notifyOne s (sh_issues s).

(** ** A pass *)

(** Whether anything answers as the server: 502, 503 and 504 stand in for it. *)
Definition standsIn (error : LoopError) : bool :=
  match error with
  | failed (ApiError status _ _ _) => bool_decide (status ∈ [502; 503; 504])
  | _ => true
  end.

Definition recordFailure : Loop unit :=
  config ← see en_config;
  answers ← match config with
            | None => mret false
            | Some config =>
                answer ← tried (settle (ask (askVersion (cg_serverUrl config))));
                mret match answer with Ok _ => true | Throw thrown => negb (standsIn thrown) end
            end;
  change (set_shown (fun s =>
    set_outcome (Some (if answers : bool then problem else offline)) (sh_lastSyncAt s) s)).

(** The variables of the pairs' loop, and what ended it. *)
Record PassSoFar := {
  ps_issues : list Issue; ps_full : Full; ps_pullAgain : bool; ps_retrySoon : bool;
  ps_thrown : option LoopError
}.

Definition holdIssue (pair : SyncPair) (hold : Hold) : Issue :=
  {| is_pairId := pr_id pair; is_rel := ""; is_source := scan; is_kind := folder_emptied;
     is_remoteId := None;
     is_message := match hold with
       | hold_local => "Every file in " +:+ pr_localPath pair
                       +:+ " is gone. Delete them on the server too?"
       | hold_server => "Every file in " +:+ pr_remoteLabel pair
                        +:+ " is gone from the server. Delete them on this computer too?"
       end |}.

Definition brokenPair (pair : SyncPair) : Issue :=
  {| is_pairId := pr_id pair; is_rel := ""; is_source := scan; is_kind := error;
     is_remoteId := None; is_message := "This folder couldn't sync." |}.

Definition nothingWaiting : Waiting := {| wt_files := 0; wt_bytes := 0; wt_uploadBytes := 0 |}.

Fixpoint passPairs (config : EngineConfig) (configured : nat) (pairs : list SyncPair)
    (so : PassSoFar) : Loop PassSoFar :=
  match pairs with
  | [] => mret so
  | p :: rest =>
      same ← see (fun e => bool_decide (en_configured e = configured));
      if negb same then mret so
      else
        _ ← change (set_shown (fun s => set_progress (sh_running s) (length rest) (sh_movedBytes s) s));
        answer ← ask (runPair p config configured (ps_full so));
        let '(outcome, full) := (answer : result LoopError PairResult * Full) in
        let noWaiting := change (set_shown (set_waiting nothingWaiting)) in
        match outcome with
        | Throw thrown =>
            stopped ← see en_stopped;
            if stopped || match thrown with SignedOutError => true | _ => false end then
              _ ← noWaiting;
              mret {| ps_issues := ps_issues so; ps_full := full; ps_pullAgain := ps_pullAgain so;
                      ps_retrySoon := ps_retrySoon so; ps_thrown := Some thrown |}
            else
              _ ← recordFailure;
              failure ← see (fun e => sh_failure (en_shown e));
              _ ← noWaiting;
              let so := {| ps_issues := ps_issues so; ps_full := full;
                           ps_pullAgain := ps_pullAgain so; ps_retrySoon := ps_retrySoon so;
                           ps_thrown := None |} in
              if bool_decide (failure = Some offline) then mret so
              else passPairs config configured rest
                     {| ps_issues := ps_issues so ++ [brokenPair p]; ps_full := full;
                        ps_pullAgain := ps_pullAgain so; ps_retrySoon := ps_retrySoon so;
                        ps_thrown := None |}
        | Ok r =>
            _ ← noWaiting;
            passPairs config configured rest
              {| ps_issues := ps_issues so ++ rs_issues r
                   ++ match rs_hold r with Some hold => [holdIssue p hold] | None => [] end;
                 ps_full := full; ps_pullAgain := ps_pullAgain so || rs_pullAgain r;
                 ps_retrySoon := ps_retrySoon so || rs_retrySoon r; ps_thrown := None |}
        end
  end.

(** The delay of the request that ends a pass. *)
Definition nextDelay (pullAgain retrySoon : bool) (e : Engine) : Z :=
  if pullAgain then
    if bool_decide (en_refusedPasses e <= 2)%nat then 0
    else Z.min POLL_MS (1000 * 2 ^ (Z.of_nat (en_refusedPasses e) - 2))
  else if bool_decide (is_Some (sh_failure (en_shown e))) || negb (en_liveConnected e) then POLL_MS
  else if retrySoon then RETRY_SOON_MS
  else FULL_PASS_MS.

Definition askAgain (pullAgain retrySoon : bool) (e : Engine) : Engine :=
  let e := set_shown notifyIssues e in
  let e := set_refused (if pullAgain then S (en_refusedPasses e) else 0%nat) e in
  request (nextDelay pullAgain retrySoon e) e.

Definition noFull : Full := {| fu_size := None; fu_message := None |}.
Definition nothingYet : PassSoFar :=
  {| ps_issues := []; ps_full := noFull; ps_pullAgain := false; ps_retrySoon := false;
     ps_thrown := None |}.

Definition withThrown (thrown : option LoopError) (so : PassSoFar) : PassSoFar :=
  {| ps_issues := ps_issues so; ps_full := ps_full so; ps_pullAgain := ps_pullAgain so;
     ps_retrySoon := ps_retrySoon so; ps_thrown := thrown |}.

(** What follows the pull in the [try]: [None] when settings changed meanwhile. *)
Definition syncAll (config : EngineConfig) (configured : nat) : Loop (option PassSoFar) :=
  same ← see (fun e => bool_decide (en_configured e = configured));
  if negb same then mret None
  else
    _ ← change (set_shown (fun s => set_outcome None (sh_lastSyncAt s) s));
    so ← passPairs config configured (cg_pairs config) nothingYet;
    match ps_thrown so with
    | Some _ => mret (Some so)
    | None =>
        _ ← change (fun e =>
          if bool_decide (en_configured e = configured) && negb (en_stopped e)
             && negb (en_signedOut e)
             && negb (bool_decide (sh_failure (en_shown e) = Some offline))
          then set_shown (set_shownIssues (ps_issues so)) e else e);
        now ← ask askNow;
        _ ← change (set_shown (fun s =>
          match sh_failure s with
          | None => set_outcome None (Some now) s | Some _ => s end));
        mret (Some so)
    end.

Definition passBody (turns : nat) (config : EngineConfig) (configured : nat) :
    Loop (option PassSoFar) :=
  pulled ← tried (pull turns);
  match pulled with
  | Throw thrown => mret (Some (withThrown (Some thrown) nothingYet))
  | Ok _ => syncAll config configured
  end.

Definition pass (turns : nat) : Loop unit :=
  state ← see (fun e => (en_config e, en_configured e, en_signedOut e || en_stopped e));
  let '(config, configured, off) := (state : option EngineConfig * nat * bool) in
  match config with
  | None => mret tt
  | Some config =>
      if off || cg_paused config then mret tt
      else
        _ ← change (set_shown (fun s => set_progress true (sh_unchecked s) (sh_movedBytes s) s));
        body ← passBody turns config configured;
        _ ← match body with
            | Some so =>
                match ps_thrown so with
                | Some SignedOutError => change signOut
                | Some _ =>
                    stopped ← see en_stopped;
                    if stopped : bool then mret tt else recordFailure
                | None => mret tt
                end
            | None => mret tt
            end;
        _ ← change (set_shown (set_progress false 0 0));
        match body with
        | Some so => change (askAgain (ps_pullAgain so) (ps_retrySoon so))
        | None => mret tt
        end
  end.

(** ** One piece of work at a time *)

Inductive Work :=
| passWork
| forgetWork (configured : nat) (config : EngineConfig)
| resolvePairWork (pairId : string) (choice : PairChoice)
| resolveConflictWork (id : Z) (choice : ConflictChoice).

(** [exclusive]: what waits when the engine stops is refused. *)
Definition exclusive (turns : nat) (work : Work) : Loop unit :=
  stopped ← see en_stopped;
  if stopped : bool then throw (failed (OtherError "The sync engine stopped."))
  else
    match work with
    | passWork => pass turns
    | forgetWork configured config => forgetRemoved configured config
    | resolvePairWork pairId choice => resolvePair pairId choice
    | resolveConflictWork id choice => applyConflictChoice id choice
    end.
End Loop.
