(* ===== verification/EngineFresh.v ===== *)
(** * The tree is never older than the cursor

    The engine against a server whose feed grows and is pruned while it works:
    the answers of [server/http/routes/sync.ts], made by [readStorageChanges] and
    [readStorageSnapshotPage] from the server's rows; the engine's work, one piece
    at a time; settings that change at any await; calls that fail; a process that
    dies at any await and starts again from the store.

    Every change of an item up to the saved cursor has reached the tree: what the
    tree holds of the item is at least as new as the change, and newer if the
    change removed it. So nothing the feed said before the cursor was lost. *)

From Stdlib Require String.
From S2P Require Import Prelude SyncTypes JsValues Database StorageChanges Plan SyncStore RemoteTree Async EngineIo PairSync Requests EngineLoop.

Open Scope Z_scope.

#[local] Notation Entry := Database.StorageChange (only parsing).

(** ** The routes *)

Definition jsonType (type : EntityType) : ItemType :=
  match type with et_folder => folder | _ => file end.

Definition jsonKind (kind : StorageChangeKind) : ChangeKind :=
  match kind with
  | created_change => created | updated_change => updated | moved_change => moved
  | trashed_change => trashed | restored_change => restored | deleted_change => deleted
  end.

Definition jsonChange (c : Entry) : RemoteTree.StorageChange :=
  {| ch_kind := jsonKind (sc_kind c); ch_itemType := jsonType (sc_itemType c);
     ch_itemId := sc_itemId c; ch_parentId := sc_parentId c; ch_name := sc_name c;
     ch_sizeBytes := sc_sizeBytes c; ch_contentChecksum := sc_contentChecksum c;
     ch_storageRevision := sc_storageRevision c;
     ch_clientModifiedAt := toISOString <$> sc_clientModifiedAt c |}.

Definition jsonItem (item : StorageSnapshotItem) : SnapshotItem :=
  {| sn_type := jsonType (ss_type item); sn_id := ss_id item; sn_parentId := ss_parentId item;
     sn_name := ss_name item; sn_sizeBytes := ss_sizeBytes item;
     sn_contentChecksum := ss_contentChecksum item;
     sn_storageRevision := ss_storageRevision item;
     sn_clientModifiedAt := toISOString <$> ss_clientModifiedAt item |}.

Definition httpError (status : Z) (code message : string) : LoopError :=
  failed (ApiError status (Some code) message None).

(** [GET /api/sync/changes]. *)
Definition changesRoute (ownerUserId : string) (after : Z) (limit : nat) (db : DB) :
    result LoopError ChangesPage :=
  match readStorageChanges ownerUserId after limit db with
  | Ok page => Ok {| cp_changes := jsonChange <$> pg_changes page;
                     cp_hasMore := pg_hasMore page; cp_cursor := numberString (pg_cursor page) |}
  | Throw StorageChangesExpiredError =>
      Throw (httpError 410 "CHANGES_EXPIRED" "The cursor is outside the current change log.")
  | Throw ReadTypeError => Throw (httpError 500 "INTERNAL" "Internal error.")
  end.

(** The place a [cursor] names: [folder:] or [file:] and an id. *)
Definition placeOfCursor (cursor : string) : EntityType * string :=
  if String.prefix "folder:" cursor then (et_folder, sliceFrom 7 cursor)
  else (et_file, sliceFrom 5 cursor).

(** [GET /api/sync/snapshot]. *)
Definition snapshotRoute (ownerUserId folderId : string) (cursor : option string) (limit : nat)
    (db : DB) : result LoopError SnapshotPage :=
  match readStorageSnapshotPage ownerUserId
          (if bool_decide (folderId = "") then None else Some folderId)
          (if truthy cursor then placeOfCursor <$> cursor else None) limit db with
  | None => Throw (httpError 404 "FOLDER_NOT_FOUND" "Folder not found.")
  | Some (items, hasMore) =>
      Ok {| np_items := jsonItem <$> items;
            np_next := if hasMore : bool
                       then (fun item => keyOf (ss_type item) (ss_id item)) <$> last items
                       else None;
            np_changeCursor := numberString (currentStorageChangeCursor db) |}
  end.

(** ** The world

    [ew_past] is every entry the feed ever had; the server keeps a part of it. *)
Record EngineWorld := { ew_engine : Engine; ew_db : DB; ew_past : list Entry }.

Definition with_engine (e : Engine) (w : EngineWorld) : EngineWorld :=
  {| ew_engine := e; ew_db := ew_db w; ew_past := ew_past w |}.

Notation cursorOf w := (metaOf "cursor" (ew_engine w)).
Notation treeOf w := (en_tree (ew_engine w)).

Section Fresh.
Context `{Platform} (platform : NodePlatform) (turns : nat).
(** The account, and every folder that was ever chosen as a pair's. *)
Context (owner : string) (chosen : gset string).

Definition isRemoval (kind : StorageChangeKind) : bool :=
  bool_decide (kind ∈ [trashed_change; deleted_change]).

(** A revision that shows the change. *)
Definition asNew (c : Entry) (rev : Z) : Prop :=
  if isRemoval (sc_kind c) then sc_storageRevision c < rev else sc_storageRevision c <= rev.

Definition about (id : string) (c : Entry) : Prop := sc_ownerUserId c = owner /\ sc_itemId c = id.

(** What the journal sees to: the revisions of an item grow along the feed, and
    what comes back after a removal is newer. *)
Definition revisionsGrow (past : list Entry) : Prop :=
  forall c c', c ∈ past -> c' ∈ past -> about (sc_itemId c) c -> about (sc_itemId c) c' ->
    sc_seq c <= sc_seq c' ->
    if isRemoval (sc_kind c') then sc_storageRevision c <= sc_storageRevision c'
    else asNew c (sc_storageRevision c').

(** And that a live row shows every change of its item. *)
Definition rowsShow (db : DB) (past : list Entry) : Prop :=
  forall type id row c, db_rows db !! (type, id) = Some row -> isLive row = true ->
    (type = et_file \/ type = et_folder) -> c ∈ past -> about id c ->
    asNew c (rw_storageRevision row).

(** Settings change, the connection comes and goes, timers run, the engine is
    stopped; the server takes changes in, stamped in the order of the feed, and
    forgets old entries. *)
Inductive elsewhere : EngineWorld -> EngineWorld -> Prop :=
| else_configured w config :
    (list_to_set (pr_remoteFolderId <$> cg_pairs config) : gset string) ⊆ chosen ->
    elsewhere w (with_engine (configure config (ew_engine w)) w)
| else_engine w e :
    en_tree e = treeOf w -> en_config e = en_config (ew_engine w) ->
    elsewhere w (with_engine e w)
| else_changed e db past added db' :
    db_changes db' = db_changes db ++ added -> feedOk db' -> stampedInOrder db' ->
    Forall (fun c => currentStorageChangeCursor db < sc_seq c) added ->
    revisionsGrow (past ++ added) -> rowsShow db' (past ++ added) ->
    elsewhere {| ew_engine := e; ew_db := db; ew_past := past |}
              {| ew_engine := e; ew_db := db'; ew_past := past ++ added |}
| else_pruned e db past now :
    elsewhere {| ew_engine := e; ew_db := db; ew_past := past |}
              {| ew_engine := e; ew_db := (pruneStorageChanges now db).1; ew_past := past |}.

(** ** A pass over a pair

    Of [syncPair] only what it does to the tree and the store matters here; what
    it sets is an answer of the server to a request of this pass. *)
Definition upTo (past : list Entry) (n : Z) (id : string) (rev : Z) : Prop :=
  forall c, c ∈ past -> about id c -> sc_seq c <= n -> asNew c rev.

Definition answered (w : EngineWorld) (item : RemoteItem) : Prop :=
  forall cursor n, cursorOf w = Some cursor -> bigIntOf cursor = Some n ->
    upTo (ew_past w) n (ri_id item) (ri_rev item).

Definition wroteTree (write : Write) (t : RemoteTree) : RemoteTree :=
  me_tree (written write {| me_tree := t; me_hashes := ∅; me_full := noFull; me_pass := emptyPass |}).

Definition writeOf (w : EngineWorld) (write : Write) : Prop :=
  match write with
  | treeSet item => answered w item
  | storeSetMeta key _ => exists pairId, key = "allow-emptied:" +:+ pairId
  | _ => True
  end.

Inductive pairWorks : EngineWorld -> EngineWorld -> Prop :=
| pair_writes w write :
    writeOf w write ->
    pairWorks w (with_engine (set_tree (wroteTree write) (ew_engine w)) w)
| pair_tells w pair config configured message :
    pairWorks w (with_engine (told pair config configured message (ew_engine w)) w)
| pair_meanwhile w w' : elsewhere w w' -> pairWorks w w'.

(** ** Effects

    Any call may fail. *)
Definition performs (_ : nat) (w : EngineWorld) (e : LoopEffect) :
    LoopAnswer e -> EngineWorld -> Prop :=
  match e with
  | askSnapshot folderId cursor => fun a w' =>
      w' = w /\ (a = snapshotRoute owner folderId cursor 5000 (ew_db w)
                 \/ exists thrown, a = Throw thrown)
  | askChanges after => fun a w' =>
      w' = w /\ ((exists n, bigIntOf after = Some n /\
                   a = changesRoute owner n 1000 (ew_db w))
                 \/ exists thrown, a = Throw thrown)
  | runPair _ _ _ _ => fun _ w' => rtc pairWorks w w'
  | @here X f => fun a w' =>
      a = (f (ew_engine w)).1 /\ w' = with_engine (f (ew_engine w)).2 w
  | endless => fun _ _ => False
  | _ => fun _ w' => w' = w
  end.

(** ** The system *)

Notation LoopProc := (@Proc LoopEffect LoopError LoopAnswer).

Record EngineSystem := { es_world : EngineWorld; es_running : option LoopProc }.

(** A process that starts has the store, and no settings yet. *)
Definition restarted (w : EngineWorld) (e : Engine) : EngineWorld :=
  with_engine (set_tree (fun _ => newRemoteTree (en_store (ew_engine w)) ∅) e) w.

Definition waitsForPair (p : option LoopProc) : Prop :=
  match p with Some (await (runPair _ _ _ _) _) => True | _ => False end.

(** The work that is asked for, and the end of it when the engine stops. *)
Definition engineProgram (p : LoopProc) : Prop :=
  (exists work, p = start (exclusive platform turns work)) \/ exists cancelUploads, p = start (shutDown cancelUploads).

(** A step with what the running work was answered in it. *)
Inductive engine_step : option (Event LoopAnswer) -> EngineSystem -> EngineSystem -> Prop :=
| engine_goes w e k a w' :
    performs 0 w e a w' ->
    engine_step (Some (event e a)) {| es_world := w; es_running := Some (await e k) |}
                {| es_world := w'; es_running := Some (k a) |}
| engine_starts w p :
    engineProgram p ->
    engine_step None {| es_world := w; es_running := None |}
                {| es_world := w; es_running := Some p |}
| engine_ends w thrown :
    engine_step None {| es_world := w; es_running := Some (stop thrown) |}
                {| es_world := w; es_running := None |}
| engine_dies w p w1 e :
    (w1 = w \/ (waitsForPair p /\ rtc pairWorks w w1)) ->
    engine_step None {| es_world := w; es_running := p |}
                {| es_world := restarted w1 e; es_running := None |}
| engine_elsewhere w p w' :
    elsewhere w w' ->
    engine_step None {| es_world := w; es_running := p |} {| es_world := w'; es_running := p |}.

(** A page of the feed. *)
Definition pageAnswered (e : LoopEffect) : LoopAnswer e -> Prop :=
  match e with
  | askChanges _ => fun a => exists page, a = Ok page
  | _ => fun _ => False
  end.

(** The server answers a page of the feed to an engine that has no cursor saved.
    A snapshot saves a cursor, so that this takes pairs without a folder on the
    server, or a 410 after which the snapshots failed; and the server must still
    have the first entry of its feed. *)
Definition readsFromStart (answer : option (Event LoopAnswer)) (s : EngineSystem) : Prop :=
  cursorOf (es_world s) = None /\
  match answer with Some (existT e a) => pageAnswered e a | None => False end.

(** The effects of the other steps. *)
Definition performsSaved (t : nat) (w : EngineWorld) (e : LoopEffect) :
    LoopAnswer e -> EngineWorld -> Prop :=
  match e with
  | askChanges after => fun a w' =>
      w' = w /\ ((exists n, bigIntOf after = Some n /\ cursorOf w <> None /\
                   a = changesRoute owner n 1000 (ew_db w))
                 \/ exists thrown, a = Throw thrown)
  | e => performs t w e
  end.

Lemma performs_saved w e k a w' :
  performs 0 w e a w' ->
  ~ readsFromStart (Some (event e a)) {| es_world := w; es_running := Some (await e k) |} ->
  performsSaved 0 w e a w'.
Proof.
  intros Hp Hn. destruct e; try exact Hp. destruct Hp as [-> [(n & Hb & ->)|Ht]]; [|by split; [|right]].
  split; [done|]. destruct (changesRoute owner n 1000 (ew_db w)) as [page|thrown] eqn:Er; [|right; eauto].
  left. exists n. split; [done|]. split; [|done]. intros Hc. apply Hn. split; [done|]. by exists page.
Qed.

(** ** The invariant *)

Definition mirror (t : RemoteTree) : Prop :=
  (forall id item, rt_items t !! id = Some item -> ri_id item = id) /\
  st_remote (rt_store t) = rt_items t.

Definition head_ (w : EngineWorld) : Z := currentStorageChangeCursor (ew_db w).

(** The tree shows every change up to [n]. *)
Definition freshTo (past : list Entry) (n : Z) (t : RemoteTree) : Prop :=
  forall id item, rt_items t !! id = Some item -> id ∉ chosen -> upTo past n id (ri_rev item).

(** Entries the server does not keep are older than all it keeps. *)
Definition keptFrom (db : DB) (past : list Entry) : Prop :=
  (forall c, c ∈ db_changes db -> c ∈ past) /\
  forall c, c ∈ past -> c ∈ db_changes db
    \/ exists oldest, oldestSeq db = Some oldest /\ sc_seq c < oldest.

Record serverOk (w : EngineWorld) : Prop := {
  so_feed : feedOk (ew_db w);
  so_stamped : stampedInOrder (ew_db w);
  so_kept : keptFrom (ew_db w) (ew_past w);
  so_revs : revisionsGrow (ew_past w);
  so_rows : rowsShow (ew_db w) (ew_past w);
  so_head c : c ∈ ew_past w -> sc_seq c <= head_ w
}.

Definition cursorFresh (w : EngineWorld) : Prop :=
  match cursorOf w with
  | None => rt_items (treeOf w) = ∅
  | Some cursor => exists n, bigIntOf cursor = Some n /\ n <= head_ w /\
                             freshTo (ew_past w) n (treeOf w)
  end.

Definition engineInv (w : EngineWorld) : Prop :=
  serverOk w /\ mirror (treeOf w) /\ rt_roots (treeOf w) ⊆ chosen /\ cursorFresh w.

(** ** How operations change the tree

    [drawn P t t']: what [t'] has and [t] had not satisfies [P]. *)
Record drawn (P : RemoteItem -> Prop) (t t' : RemoteTree) : Prop := {
  dr_items id item : rt_items t' !! id = Some item ->
    rt_items t !! id = Some item \/ (P item /\ ri_id item = id);
  dr_mirror : mirror t -> mirror t';
  dr_roots : rt_roots t' = rt_roots t;
  dr_meta : getMeta "cursor" (rt_store t') = getMeta "cursor" (rt_store t)
}.

Lemma drawn_refl P t : drawn P t t.
Proof. constructor; auto. Qed.

Lemma drawn_trans P t t' t'' : drawn P t t' -> drawn P t' t'' -> drawn P t t''.
Proof.
  intros [a b c d] [a' b' c' d']. constructor; [|auto|congruence|congruence].
  intros id item [H'|H']%a'; [by apply a|by right].
Qed.

Lemma drawn_weak (P Q : RemoteItem -> Prop) t t' :
  (forall item, P item -> Q item) -> drawn P t t' -> drawn Q t t'.
Proof. intros HPQ [a b c d]. constructor; try done. intros id item [?|[? ?]]%a; auto. Qed.

Lemma drawn_foldl {A} (P : RemoteItem -> Prop) (f : RemoteTree -> A -> RemoteTree) l t :
  (forall t x, x ∈ l -> drawn P t (f t x)) -> drawn P t (foldl f t l).
Proof.
  revert t. induction l as [|x l IH]; intros t Hf; cbn [foldl]; [apply drawn_refl|].
  eapply drawn_trans; [apply Hf; by left|]. apply IH. intros; apply Hf; by right.
Qed.

Lemma drawn_put (P : RemoteItem -> Prop) item t : P item -> drawn P t (put item t).
Proof.
  intros HP. constructor; [| |done|done].
  - intros id it. cbn. intros [[<- <-]|[_ ?]]%lookup_insert_Some; auto.
  - intros [Hid Hs]. split; cbn; [|by rewrite Hs].
    intros id it [[<- <-]|[_ ?]]%lookup_insert_Some; auto.
Qed.

Lemma removeOnes_items ids t :
  rt_items (foldl removeOne t ids) = foldl (fun m id => delete id m) (rt_items t) ids
  /\ rt_store (foldl removeOne t ids) = rt_store t /\ rt_roots (foldl removeOne t ids) = rt_roots t.
Proof. revert t. induction ids as [|id ids IH]; intros t; cbn [foldl]; [done|].
  by destruct (IH (removeOne t id)) as (-> & -> & ->).
Qed.

Lemma removeSubtree_items id t id' :
  rt_items (removeSubtree id t) !! id'
  = if bool_decide (id' ∈ filter (fun each => is_Some (rt_items t !! each)) (subtree t id))
    then None else rt_items t !! id'.
Proof.
  unfold removeSubtree. cbn [rt_items]. rewrite (proj1 (removeOnes_items _ t)). apply foldl_delete_lookup.
Qed.

Lemma drawn_removeSubtree P id t : drawn P t (removeSubtree id t).
Proof.
  constructor.
  - intros id' item. rewrite removeSubtree_items. case_bool_decide; [done|by left].
  - intros [Hid Hs]. split.
    + intros id' item. rewrite removeSubtree_items. case_bool_decide; [done|apply Hid].
    + unfold removeSubtree. cbn [rt_items rt_store st_remote deleteRemote set_remote].
      destruct (removeOnes_items (filter (fun each => is_Some (rt_items t !! each)) (subtree t id)) t)
        as (-> & -> & _). by rewrite Hs.
  - unfold removeSubtree. cbn. apply removeOnes_items.
  - unfold removeSubtree. cbn. by rewrite (proj1 (proj2 (removeOnes_items _ t))).
Qed.

Lemma removeSubtree_gone id t : rt_items (removeSubtree id t) !! id = None.
Proof.
  rewrite removeSubtree_items. destruct (rt_items t !! id) eqn:E; [|by case_bool_decide].
  rewrite bool_decide_eq_true_2; [done|]. apply list_elem_of_filter. split; [by rewrite E|]. left.
Qed.

Lemma drawn_replaceUnder rootId items t :
  drawn (fun item => item ∈ items) t (replaceUnder rootId items t).
Proof.
  unfold replaceUnder. eapply drawn_trans.
  - apply (drawn_foldl (A := string)). intros t' x _. apply drawn_removeSubtree.
  - apply (drawn_foldl (A := RemoteItem)). intros t' x Hx. by apply drawn_put.
Qed.

Lemma drawn_addUnder items t : drawn (fun item => item ∈ items) t (addUnder items t).
Proof.
  apply drawn_foldl. intros t' x Hx. destruct (_ !! _); [case_bool_decide|];
    auto using drawn_put, drawn_refl.
Qed.

Lemma drawn_setItem item t : drawn (fun it => it = item) t (setItem item t).
Proof.
  unfold setItem. destruct (inScope _ _); [by apply drawn_put|].
  case_bool_decide; [apply drawn_removeSubtree|apply drawn_refl].
Qed.

Lemma mirror_new store roots :
  (forall id item, st_remote store !! id = Some item -> ri_id item = id) ->
  mirror (newRemoteTree store roots) /\ rt_items (newRemoteTree store roots) = st_remote store
  /\ rt_roots (newRemoteTree store roots) = roots /\ rt_store (newRemoteTree store roots) = store.
Proof.
  intros Hid. pose proof (newRemoteTree_treeOk store roots Hid) as Hok.
  assert (Hs : forall l t, rt_store (foldl (fun t item => RemoteTree.index item t) t l) = rt_store t
    /\ rt_roots (foldl (fun t item => RemoteTree.index item t) t l) = rt_roots t).
  { induction l as [|x l IH]; intros t; cbn [foldl]; [done|].
    by destruct (IH (RemoteTree.index x t)) as [-> ->]. }
  destruct (Hs (remoteItems store) {| rt_items := ∅; rt_children := ∅; rt_store := store; rt_roots := roots |})
    as [Es Er]. fold (newRemoteTree store roots) in Es, Er. cbn in Es, Er.
  pose proof (to_store _ Hok) as E. rewrite Es in E.
  split; [|by rewrite <- E]. split; [apply (to_items _ Hok)|by rewrite Es].
Qed.

(** Writes of the store that leave the items and the cursor alone. *)
Definition calmStore (f : Store -> Store) : Prop :=
  forall s, st_remote (f s) = st_remote s /\ getMeta "cursor" (f s) = getMeta "cursor" s.

Lemma drawn_store P f t : calmStore f -> drawn P t (onTreeStore f t).
Proof.
  intros Hf. destruct (Hf (rt_store t)) as [Hr Hc]. constructor; [by left| |done|exact Hc].
  intros [Hi Hs]. split; [done|]. cbn. by rewrite Hr.
Qed.

Lemma calm_setMeta key value : key <> "cursor" -> calmStore (setMeta key value).
Proof.
  intros Hk s. unfold getMeta. destruct value; cbn; split; try done;
    [by rewrite lookup_insert_ne|by rewrite lookup_delete_ne].
Qed.

Lemma deleteBaseTree_calm pairId rel s :
  st_remote (deleteBaseTree pairId rel s) = st_remote s /\
  getMeta "cursor" (deleteBaseTree pairId rel s) = getMeta "cursor" s.
Proof. done. Qed.

Lemma calm_clearPair pairId : calmStore (clearPair pairId).
Proof. by intros s. Qed.

Lemma calm_forget pairIds : calmStore (forgetPairsExcept pairIds).
Proof.
  unfold forgetPairsExcept. intros s. generalize (knownPairs s). intros known. revert s.
  assert (Hone : forall pairId, calmStore (forgetPair pairId)).
  { intros pairId s. unfold forgetPair.
    assert (Hkeys : forall keys s0, Forall (fun key : string => key +:+ ":" +:+ pairId <> "cursor") keys ->
      st_remote (foldl (fun s key => setMeta (key +:+ ":" +:+ pairId) None s) s0 keys) = st_remote s0 /\
      getMeta "cursor" (foldl (fun s key => setMeta (key +:+ ":" +:+ pairId) None s) s0 keys)
        = getMeta "cursor" s0).
    { induction keys as [|key keys IH]; intros s0; cbn [foldl]; [done|].
      intros [Hk Hks]%Forall_cons. destruct (IH (setMeta (key +:+ ":" +:+ pairId) None s0) Hks) as [-> ->].
      by apply calm_setMeta. }
    destruct (Hkeys pairKeys (clearPair pairId s)) as [-> ->]; [|by apply calm_clearPair].
    repeat constructor; discriminate. }
  induction known as [|x known IH]; intros s; cbn [foldl]; [done|].
  destruct (IH (if bool_decide (x ∈ pairIds) then s else forgetPair x s)) as [-> ->].
  case_bool_decide; [done|]. by apply Hone.
Qed.

(** *** Freshness along these *)

Lemma freshTo_drawn past n (P : RemoteItem -> Prop) t t' :
  drawn P t t' -> freshTo past n t ->
  (forall item, P item -> ri_id item ∉ chosen -> upTo past n (ri_id item) (ri_rev item)) ->
  freshTo past n t'.
Proof.
  intros Hd Hf HP id item [Hi|[Hi <-]]%(dr_items _ _ _ Hd) Hn; [by apply Hf|by apply HP].
Qed.

Lemma upTo_less past n m id rev : n <= m -> upTo past m id rev -> upTo past n id rev.
Proof. intros Hle Hu c Hc Ha Hs. apply Hu; [done..|lia]. Qed.

Lemma freshTo_less past n m t : n <= m -> freshTo past m t -> freshTo past n t.
Proof. intros Hle Hf id item Hi Hc. eapply upTo_less; eauto. Qed.

(** Entries that come later do not count. *)
Lemma upTo_added past added n id rev :
  Forall (fun c => n < sc_seq c) added -> upTo past n id rev -> upTo (past ++ added) n id rev.
Proof.
  intros Hl Hu c [Hc|Hc]%elem_of_app Ha Hs; [by apply Hu|].
  rewrite Forall_forall in Hl. specialize (Hl c Hc). lia.
Qed.

(** ** What the routes answer *)

Lemma head_nonneg db : feedOk db -> 0 <= currentStorageChangeCursor db.
Proof.
  intros (_ & Hf & _). unfold currentStorageChangeCursor, newestSeq.
  destruct (last (db_changes db)) as [c|] eqn:El; cbn; [|lia].
  rewrite Forall_forall in Hf. apply last_Some_elem_of, Hf in El. lia.
Qed.

(** A page has every entry of the account between two cursors, in order. *)
Record pageOf (past : list Entry) (n p : Z) (cs : list Entry) : Prop := {
  po_order : StronglySorted (fun c c' => sc_seq c < sc_seq c') cs;
  po_past c : c ∈ cs -> c ∈ past /\ sc_ownerUserId c = owner /\ n < sc_seq c <= p;
  po_all c : c ∈ past -> sc_ownerUserId c = owner -> n < sc_seq c <= p -> c ∈ cs
}.

Lemma page_of db past n limit pg :
  feedOk db -> keptFrom db past ->
  readStorageChanges owner n limit db = Ok pg ->
  n <= pg_cursor pg <= currentStorageChangeCursor db /\ 0 <= pg_cursor pg /\
  pageOf past n (pg_cursor pg) (pg_changes pg).
Proof.
  intros Hf Hk Hr. pose proof (head_nonneg db Hf) as H0. revert Hr. unfold readStorageChanges.
  set (head := currentStorageChangeCursor db) in *. set (rows := changesAfter owner n head db).
  case_bool_decide as Hh; cbn [orb]; [done|].
  destruct (match oldestSeq db with Some _ => _ | None => _ end) eqn:Eo; [done|].
  assert (Hrow : forall c, c ∈ past -> sc_ownerUserId c = owner -> n < sc_seq c <= head -> c ∈ rows).
  { intros c Hc Ho Hs. apply list_elem_of_filter. split; [naive_solver lia|].
    destruct (proj2 Hk c Hc) as [?|(oldest & E & Hlt)]; [done|].
    rewrite E in Eo. apply bool_decide_eq_false_1 in Eo. lia. }
  assert (Hin : forall c, c ∈ rows -> c ∈ past /\ sc_ownerUserId c = owner /\ n < sc_seq c <= head).
  { intros c [Hp Hc]%list_elem_of_filter. split; [by apply Hk|naive_solver]. }
  assert (Hsort : StronglySorted (fun c c' => sc_seq c < sc_seq c') rows)
    by apply StronglySorted_filter, Hf.
  rewrite take_take, Nat.min_l, length_take by lia. case_bool_decide as Hmore.
  - destruct (last (take limit rows)) as [c|] eqn:El; [|done]. intros [= <-]. cbn [pg_cursor pg_changes].
    pose proof El as Hc. apply last_Some_elem_of, elem_of_take in Hc as (i & Hc%list_elem_of_lookup_2 & _).
    apply Hin in Hc as (_ & _ & Hc). split; [lia|]. split.
    { pose proof El as Hc'. apply last_Some_elem_of, elem_of_take in Hc' as (j & Hc'%list_elem_of_lookup_2 & _).
      apply list_elem_of_filter in Hc' as [_ Hc']. destruct Hf as (_ & Hf & _).
      rewrite Forall_forall in Hf. specialize (Hf c Hc'). lia. }
    pose proof (changesAfter_cursor owner db Hf n head limit c El) as Hd. fold rows in Hd.
    constructor.
    + rewrite <- (take_drop limit rows) in Hsort. by apply StronglySorted_app_1_l in Hsort.
    + intros c' Hc'. assert (Hc'' : c' ∈ rows) by (apply elem_of_take in Hc' as (j & Hj & _); by eapply list_elem_of_lookup_2).
      destruct (Hin c' Hc'') as (? & ? & [? _]). split; [done|]. split; [done|]. split; [done|].
      apply last_Some in El as [l El]. rewrite El in Hc'.
      apply elem_of_app in Hc' as [Hc'| ->%list_elem_of_singleton]; [|lia].
      assert (Hs : StronglySorted (fun c c' => sc_seq c < sc_seq c') (l ++ [c])).
      { rewrite <- El. rewrite <- (take_drop limit rows) in Hsort. by apply StronglySorted_app_1_l in Hsort. }
      apply StronglySorted_app in Hs as [Hs _]. specialize (Hs c' c Hc' ltac:(left)). cbn in Hs. lia.
    + intros c' Hc' Ho Hs. specialize (Hrow c' Hc' Ho ltac:(lia)).
      rewrite <- (take_drop limit rows) in Hrow. apply elem_of_app in Hrow as [?|Hx]; [done|].
      rewrite <- Hd in Hx. apply list_elem_of_filter in Hx. naive_solver lia.
  - intros [= <-]. cbn [pg_cursor pg_changes].
    assert (Ep : (if bool_decide (n < head) then head else n) = head) by (case_bool_decide; lia).
    rewrite Ep, take_ge by lia. split; [lia|]. split; [done|]. constructor; [done| |].
    + intros c Hc%Hin. naive_solver lia.
    + intros c Hc Ho Hs. by apply Hrow.
Qed.

Lemma foldersBelow_live depth rows level tree :
  tree ∈ foldersBelow depth owner rows level ->
  exists row, rows !! (et_folder, tree.1) = Some row /\ isLive row = true.
Proof.
  revert level. induction depth as [|depth IH]; intros level; cbn [foldersBelow]; [by intros ?%elem_of_nil|].
  destruct (level ≫= foldersIn owner rows) as [|x l] eqn:E; [by intros ?%elem_of_nil|].
  intros [Hin|Hin]%elem_of_app; [|by eapply IH]. rewrite <- E in Hin.
  apply list_elem_of_bind in Hin as (up & Hin & _). apply list_elem_of_omap in Hin as ([[type id] row] & Hr & Hin).
  apply elem_of_map_to_list in Hr. case_bool_decide as Et; [|done]. subst type.
  destruct (opt_is _ _); [|done]. destruct (isLive row) eqn:El; [|done].
  destruct (opt_is _ _); [|done]. injection Hin as <-. by exists row.
Qed.

(** What a snapshot lists is live, with its revision. *)
Lemma liveItems_live root db item :
  item ∈ liveItems owner root db ->
  (ss_type item = et_file \/ ss_type item = et_folder) /\
  exists row, db_rows db !! (ss_type item, ss_id item) = Some row /\ isLive row = true /\
    ss_storageRevision item = rw_storageRevision row.
Proof.
  unfold liveItems. intros [Hin|Hin]%elem_of_app.
  - apply list_elem_of_omap in Hin as (tree & Ht & Hin).
    destruct (foldersBelow_live _ _ _ _ Ht) as (row & Hr & Hl). unfold folderItem in Hin.
    rewrite Hr in Hin. injection Hin as <-. split; [by right|]. by exists row.
  - apply list_elem_of_bind in Hin as (tree & Hin & _).
    apply list_elem_of_omap in Hin as ([[type id] row] & Hr%elem_of_map_to_list & Hin).
    case_bool_decide as Et; [|done]. subst type. destruct (opt_is _ _); [|done].
    destruct (isLive row) eqn:El; [|done]. injection Hin as <-. split; [by left|]. by exists row.
Qed.

(** A snapshot's items show every change so far. *)
Lemma snapshot_shows db past folderId cursor limit page item :
  rowsShow db past -> snapshotRoute owner folderId cursor limit db = Ok page ->
  item ∈ fromSnapshot <$> np_items page ->
  forall c, c ∈ past -> about (ri_id item) c -> asNew c (ri_rev item).
Proof.
  unfold snapshotRoute. intros Hrows Hr Hin c Hc Ha.
  destruct (readStorageSnapshotPage _ _ _ _ _) as [[items more]|] eqn:E; [|done].
  injection Hr as <-. cbn [np_items] in Hin.
  apply list_elem_of_fmap in Hin as (sn & -> & Hin). apply list_elem_of_fmap in Hin as (it & -> & Hin).
  unfold readStorageSnapshotPage in E.
  apply bind_Some in E as (root & _ & [= <- _]).
  apply elem_of_take in Hin as (i & Hin%list_elem_of_lookup_2 & _).
  assert (Hl : it ∈ liveItems owner root db).
  { rewrite <- (merge_sort_Permutation notAfter).
    destruct (if truthy cursor then _ else _) as [[type id]|]; [|done].
    by apply list_elem_of_filter in Hin as [_ ?]. }
  apply liveItems_live in Hl as (Ht & row & Hr & Hl & Erev).
  cbn [fromSnapshot jsonItem sn_storageRevision sn_id ri_rev ri_id] in *. rewrite Erev.
  by apply (Hrows (ss_type it) (ss_id it) row).
Qed.

Lemma snapshot_cursor db folderId cursor limit page :
  feedOk db -> snapshotRoute owner folderId cursor limit db = Ok page ->
  bigIntOf (np_changeCursor page) = Some (currentStorageChangeCursor db).
Proof.
  unfold snapshotRoute. intros Hf Hr. destruct (readStorageSnapshotPage _ _ _ _ _) as [[items more]|]; [|done].
  injection Hr as <-. apply bigIntOf_numberString. by apply head_nonneg.
Qed.

(** ** A page reaches the tree *)

(** The tree shows the entries that satisfy [S]. *)
Definition shows (past : list Entry) (S : Entry -> Prop) (t : RemoteTree) : Prop :=
  forall id item, rt_items t !! id = Some item -> id ∉ chosen ->
  forall c, c ∈ past -> about id c -> S c -> asNew c (ri_rev item).

Lemma shows_weak past (S S' : Entry -> Prop) t :
  (forall c, c ∈ past -> sc_ownerUserId c = owner -> S' c -> S c) -> shows past S t -> shows past S' t.
Proof. intros HS Hs id item Hi Hn c Hc Ha Hx. eapply Hs; eauto. apply HS; [done|apply Ha|done]. Qed.

Lemma isRemoval_json kind :
  isRemoval kind = bool_decide (jsonKind kind ∈ [trashed; deleted]).
Proof. by destruct kind. Qed.

(** Without the item the change says nothing. *)
Lemma shows_without past (S : Entry -> Prop) c t t' :
  (forall id item, rt_items t' !! id = Some item -> rt_items t !! id = Some item) ->
  rt_items t' !! sc_itemId c = None -> shows past S t -> shows past (fun c' => S c' \/ c' = c) t'.
Proof.
  intros Hsub Hno Hs id item Hi Hn c' Hc' Ha [Hx| ->]; [by eapply Hs; eauto|].
  destruct Ha as [_ <-]. congruence.
Qed.

Lemma shows_removed past S c t :
  shows past S t ->
  shows past (fun c' => S c' \/ c' = c)
    (match rt_items t !! sc_itemId c with
     | Some _ => removeSubtree (sc_itemId c) t | None => t end).
Proof.
  intros Hs. destruct (rt_items t !! sc_itemId c) eqn:E; apply (shows_without past S c t); try done.
  - intros id item. rewrite removeSubtree_items. by case_bool_decide.
  - apply removeSubtree_gone.
Qed.

Lemma apply_shows past (S : Entry -> Prop) c t :
  revisionsGrow past -> c ∈ past -> sc_ownerUserId c = owner ->
  (forall c', c' ∈ past -> S c' -> sc_seq c' <= sc_seq c) ->
  rt_roots t ⊆ chosen -> shows past S t ->
  shows past (fun c' => S c' \/ c' = c) (apply (jsonChange c) t).1.
Proof.
  intros Hg Hc Ho Hle Hr Hs. unfold apply. cbn [jsonChange ch_itemId ch_kind ch_storageRevision ch_parentId ch_itemType].
  case_bool_decide as Hroot.
  { intros id item Hi Hn c' Hc' Ha [Hx| ->]; [by eapply Hs; eauto|].
    destruct Ha as [_ <-]. by apply Hr in Hroot. }
  destruct (match rt_items t !! sc_itemId c with Some _ => _ | None => _ end) eqn:Eold.
  { intros id item Hi Hn c' Hc' Ha [Hx| ->]; [by eapply Hs; eauto|].
    destruct Ha as [_ <-]. cbn [fst] in Hi. rewrite Hi in Eold. apply bool_decide_eq_true_1 in Eold.
    unfold asNew. destruct (isRemoval _); lia. }
  rewrite <- isRemoval_json. destruct (isRemoval (sc_kind c)) eqn:Ek; [by apply shows_removed|].
  destruct (inScope _ _); cbn [negb]; [|by apply shows_removed]. cbn [fst].
  intros id item. cbn. intros [[<- <-]|[Hne Hi]]%lookup_insert_Some Hn c' Hc' Ha Hx; cbn in *.
  - assert (Hseq : sc_seq c' <= sc_seq c) by (destruct Hx as [Hx| ->]; [by apply Hle|lia]).
    assert (Ha' : about (sc_itemId c') c) by (destruct Ha as [? ->]; done).
    pose proof (Hg c' c Hc' Hc ltac:(by destruct Ha) Ha' Hseq) as H'. by rewrite Ek in H'.
  - destruct Hx as [Hx| ->]; [by eapply Hs; eauto|]. by destruct Ha as [_ <-].
Qed.

Lemma drawn_apply change t : drawn (fun _ => True) t (apply change t).1.
Proof.
  destruct (apply_cases change t) as [->|[(item & _ & -> & _)|(_ & _ & _ & ->)]];
    [apply drawn_refl|apply drawn_removeSubtree|by apply drawn_put].
Qed.

(** What a change of other settings leaves. *)
Definition sameCursor (e e' : Engine) : Prop := metaOf "cursor" e' = metaOf "cursor" e.

Lemma saveMeta_tree key value e :
  rt_items (en_tree (saveMeta key value e)) = rt_items (en_tree e) /\
  rt_roots (en_tree (saveMeta key value e)) = rt_roots (en_tree e) /\
  (mirror (en_tree e) -> mirror (en_tree (saveMeta key value e))) /\
  (key <> "cursor" -> sameCursor e (saveMeta key value e)).
Proof.
  split; [done|]. split; [done|]. split.
  - intros [Hi Hs]. split; [done|]. cbn. by destruct value.
  - intros Hk. unfold sameCursor, metaOf, getMeta. cbn.
    destruct value; cbn; [by rewrite lookup_insert_ne|by rewrite lookup_delete_ne].
Qed.

Lemma noteChange_tree pairs each e :
  rt_items (en_tree (noteChange pairs each e)) = rt_items (en_tree e) /\
  rt_roots (en_tree (noteChange pairs each e)) = rt_roots (en_tree e) /\
  (mirror (en_tree e) -> mirror (en_tree (noteChange pairs each e))) /\
  sameCursor e (noteChange pairs each e).
Proof.
  unfold noteChange. repeat case_match; try done;
    (split_and!; [apply saveMeta_tree|apply saveMeta_tree|apply saveMeta_tree|by apply saveMeta_tree]).
Qed.

Lemma shows_items past S t t' :
  rt_items t' = rt_items t -> shows past S t -> shows past S t'.
Proof. intros E Hs id item. rewrite E. apply Hs. Qed.

(** One entry of a page. *)
Lemma applyOne_shows past S c pairs acc :
  revisionsGrow past -> c ∈ past -> sc_ownerUserId c = owner ->
  (forall c', c' ∈ past -> S c' -> sc_seq c' <= sc_seq c) ->
  rt_roots (en_tree acc.2) ⊆ chosen -> mirror (en_tree acc.2) -> shows past S (en_tree acc.2) ->
  let e' := (applyOne pairs acc (jsonChange c)).2 in
  shows past (fun c' => S c' \/ c' = c) (en_tree e') /\ mirror (en_tree e') /\
  rt_roots (en_tree e') = rt_roots (en_tree acc.2) /\ sameCursor acc.2 e'.
Proof.
  intros Hg Hc Ho Hle Hr Hm Hs. unfold applyOne.
  destruct (noteChange_tree pairs (jsonChange c) acc.2) as (Ei & Er & Hm' & Hcur).
  set (e1 := noteChange _ _ _) in *.
  pose proof (drawn_apply (jsonChange c) (en_tree e1)) as Hd.
  pose proof (apply_shows past S c (en_tree e1) Hg Hc Ho Hle ltac:(by rewrite Er)
    (shows_items _ _ _ _ Ei Hs)) as Hsh.
  destruct (apply (jsonChange c) (en_tree e1)) as [t' shown]. cbn [fst] in *. cbn [snd set_tree en_tree].
  split; [done|]. split; [apply Hd; auto|]. split; [by rewrite (dr_roots _ _ _ Hd)|].
  unfold sameCursor, metaOf, en_store in *. cbn [set_tree en_tree]. rewrite (dr_meta _ _ _ Hd). exact Hcur.
Qed.

Lemma applyPage_shows past n p cs pairs e :
  revisionsGrow past -> pageOf past n p cs ->
  rt_roots (en_tree e) ⊆ chosen -> mirror (en_tree e) -> freshTo past n (en_tree e) ->
  let e' := (applyPage pairs (jsonChange <$> cs) e).2 in
  freshTo past p (en_tree e') /\ mirror (en_tree e') /\
  rt_roots (en_tree e') = rt_roots (en_tree e) /\ sameCursor e e'.
Proof.
  intros Hg [Hord Hpast Hall] Hr Hm Hf. cbv zeta. unfold applyPage.
  assert (Hgo : forall done_ rest acc, cs = done_ ++ rest ->
    shows past (fun c => sc_seq c <= n \/ c ∈ done_) (en_tree acc.2) -> mirror (en_tree acc.2) ->
    rt_roots (en_tree acc.2) ⊆ chosen ->
    let e' := (foldl (applyOne pairs) acc (jsonChange <$> rest)).2 in
    shows past (fun c => sc_seq c <= n \/ c ∈ cs) (en_tree e') /\ mirror (en_tree e') /\
    rt_roots (en_tree e') = rt_roots (en_tree acc.2) /\ sameCursor acc.2 e').
  { intros done_ rest. revert done_. induction rest as [|c rest IH]; intros done_ acc E Hs Hm' Hr'; cbn.
    - rewrite app_nil_r in E. by subst.
    - assert (Hin : c ∈ cs) by (rewrite E; apply elem_of_app; right; left).
      destruct (Hpast c Hin) as (Hc & Ho & _).
      destruct (applyOne_shows past (fun c => sc_seq c <= n \/ c ∈ done_) c pairs acc) as (H1 & H2 & H3 & H4); try done.
      + intros c' _ [Hn|Hd]; [destruct (Hpast c Hin) as (_ & _ & ?); lia|].
        rewrite E in Hord. apply StronglySorted_app in Hord as [Hord _].
        specialize (Hord c' c Hd ltac:(left)). cbn in Hord. lia.
      + destruct (IH (done_ ++ [c]) (applyOne pairs acc (jsonChange c))) as (K1 & K2 & K3 & K4).
        * by rewrite <- app_assoc.
        * eapply shows_weak; [|exact H1]. intros c' _ _. rewrite elem_of_app, list_elem_of_singleton. tauto.
        * done.
        * by rewrite H3.
        * split; [done|]. split; [done|]. split; [by rewrite K3|]. unfold sameCursor in *. congruence. }
  destruct (Hgo [] cs ([], e) eq_refl) as (H1 & H2 & H3 & H4); [|done..|].
  { eapply shows_weak; [|intros id item Hi Hn c Hc Ha Hx; by apply (Hf id item Hi Hn c Hc Ha Hx)].
    intros c _ _ [?|?%elem_of_nil]; done. }
  split; [|done]. intros id item Hi Hn c Hc Ha Hx. apply (H1 id item Hi Hn c Hc Ha).
  destruct (decide (sc_seq c <= n)); [by left|right]. apply Hall; [done|apply Ha|lia].
Qed.
(** ** What keeps the invariant *)

Notation isFine w := (engineInv w).

Lemma kept_changed db past added db' :
  db_changes db' = db_changes db ++ added -> keptFrom db past -> keptFrom db' (past ++ added).
Proof.
  intros E [Hsub Hk]. split.
  - intros c. rewrite E, !elem_of_app. naive_solver.
  - intros c [Hc|Hc]%elem_of_app.
    + destruct (Hk c Hc) as [?|(o & Ho & Hlt)]; [left; rewrite E; apply elem_of_app; by left|right].
      exists o. split; [|done]. unfold oldestSeq in *. rewrite E.
      by destruct (db_changes db).
    + left. rewrite E. apply elem_of_app. by right.
Qed.

Lemma head_last db c : feedOk db -> c ∈ db_changes db -> sc_seq c <= currentStorageChangeCursor db.
Proof.
  intros (Hs & _) Hc. unfold currentStorageChangeCursor, newestSeq.
  destruct (last (db_changes db)) as [top|] eqn:El.
  - apply last_Some in El as [l El]. rewrite El in Hc, Hs. cbn.
    apply elem_of_app in Hc as [Hc| ->%list_elem_of_singleton]; [|done].
    apply StronglySorted_app in Hs as [Hs _]. specialize (Hs c top Hc ltac:(left)). cbn in Hs. lia.
  - apply last_None in El. rewrite El in Hc. by apply elem_of_nil in Hc.
Qed.

Lemma head_changed db added db' :
  db_changes db' = db_changes db ++ added -> feedOk db' ->
  currentStorageChangeCursor db <= currentStorageChangeCursor db'.
Proof.
  intros E Hf. pose proof (head_nonneg db' Hf) as H0.
  unfold currentStorageChangeCursor at 1, newestSeq.
  destruct (last (db_changes db)) as [top|] eqn:El; [|done]. cbn. apply head_last; [done|].
  rewrite E. apply elem_of_app. left. by apply last_Some_elem_of.
Qed.

Lemma pruned_feed now db :
  feedOk db -> stampedInOrder db ->
  let db' := (pruneStorageChanges now db).1 in
  feedOk db' /\ stampedInOrder db' /\ currentStorageChangeCursor db' = currentStorageChangeCursor db /\
  db_rows db' = db_rows db /\ forall past, keptFrom db past -> keptFrom db' past.
Proof.
  intros Hf Hst. unfold pruneStorageChanges.
  destruct (newestSeq db) as [newest|] eqn:En; [|done]. cbn [fst].
  unfold newestSeq in En. destruct (last (db_changes db)) as [top|] eqn:Et; [|done].
  injection En as <-. set (cut := now - _) in *.
  set (keeps c := ~ (sc_seq c < sc_seq top /\ sc_createdAt c < cut)).
  assert (Hkeep : last (filter keeps (db_changes db)) = Some top)
    by (apply last_filter; [done|unfold keeps; lia]).
  destruct Hf as (Hs & Hb & Hn). split; [split_and!; cbn; [by apply StronglySorted_filter| |done]|].
  { apply Forall_forall. intros c [_ Hc]%list_elem_of_filter. rewrite Forall_forall in Hb. by apply Hb. }
  split; [intros c c' [_ Hc]%list_elem_of_filter [_ Hc']%list_elem_of_filter; by apply Hst|].
  split; [unfold currentStorageChangeCursor, newestSeq; cbn; by rewrite Hkeep, Et|].
  split; [done|]. intros past [Hsub Hk]. split; cbn.
  { intros c [_ Hc]%list_elem_of_filter. by apply Hsub. }
  intros c Hc.
  destruct (filter keeps (db_changes db)) as [|first rest] eqn:Ef; [done|].
  assert (Hin : first ∈ filter keeps (db_changes db)) by (rewrite Ef; left).
  apply list_elem_of_filter in Hin as [Hkf Hin].
  assert (Hold : forall c', c' ∈ db_changes db -> ~ keeps c' -> sc_seq c' < sc_seq first).
  { intros c' Hc' Hnk. destruct (decide (sc_seq c' < sc_seq first)) as [?|Hge]; [done|].
    exfalso. specialize (Hst first c' Hin Hc'). unfold keeps in *. lia. }
  destruct (Hk c Hc) as [Hd|(o & Ho & Hlt)].
  - destruct (decide (keeps c)) as [Hkc|Hkc].
    + left. rewrite <- Ef. by apply list_elem_of_filter.
    + right. exists (sc_seq first). split; [done|by apply Hold].
  - right. exists (sc_seq first). split; [done|].
    unfold oldestSeq in Ho. destruct (db_changes db) as [|x l] eqn:Ex; [done|]. injection Ho as <-.
    apply StronglySorted_inv in Hs as [_ Hx]. rewrite Forall_forall in Hx.
    apply elem_of_cons in Hin as [->|Hin]; [done|]. specialize (Hx _ Hin). cbn in Hx. lia.
Qed.
(** What the rest of the world leaves as it is. *)
Record leaves (w w' : EngineWorld) : Prop := {
  lv_cursor : cursorOf w' = cursorOf w;
  lv_items : rt_items (treeOf w') = rt_items (treeOf w);
  lv_config : en_config (ew_engine w) <> None -> en_config (ew_engine w') <> None;
  lv_head : head_ w <= head_ w';
  lv_past : exists added, ew_past w' = ew_past w ++ added /\
                          Forall (fun c => head_ w < sc_seq c) added
}.

Lemma leaves_same w w' :
  cursorOf w' = cursorOf w -> rt_items (treeOf w') = rt_items (treeOf w) ->
  (en_config (ew_engine w) <> None -> en_config (ew_engine w') <> None) ->
  head_ w' = head_ w -> ew_past w' = ew_past w -> leaves w w'.
Proof. intros ? ? ? Hh ?. constructor; try done; [lia|]. exists []. by rewrite app_nil_r. Qed.

Lemma elsewhere_leaves w w' : isFine w -> elsewhere w w' -> leaves w w'.
Proof.
  intros [Hs _] He. destruct He as [w config _|w e E Ec|e db past added db' E Hf _ Hn _ _|e db past now].
  - apply leaves_same; try done; unfold configure, metaOf, en_store; by destruct (match en_config _ with Some _ => _ | None => _ end).
  - apply leaves_same; try done; unfold metaOf, en_store; cbn; by rewrite ?E, ?Ec.
  - constructor; try done; [by eapply head_changed|by exists added].
  - apply leaves_same; try done. apply (pruned_feed now db (so_feed _ Hs) (so_stamped _ Hs)).
Qed.

Lemma upTo_leaves w w' n id rev :
  leaves w w' -> n <= head_ w -> upTo (ew_past w) n id rev -> upTo (ew_past w') n id rev.
Proof.
  intros [_ _ _ _ (added & -> & Hn)] Hle. apply upTo_added. eapply Forall_impl; [exact Hn|].
  cbn. intros; lia.
Qed.

Lemma freshTo_leaves w w' n :
  leaves w w' -> n <= head_ w -> freshTo (ew_past w) n (treeOf w) -> freshTo (ew_past w') n (treeOf w').
Proof.
  intros Hl Hle Hf id item. rewrite (lv_items _ _ Hl). intros Hi Hc. eapply upTo_leaves; eauto.
Qed.

Lemma cursorFresh_leaves w w' : leaves w w' -> cursorFresh w -> cursorFresh w'.
Proof.
  intros Hl. unfold cursorFresh. rewrite (lv_cursor _ _ Hl), (lv_items _ _ Hl).
  destruct (cursorOf w); [|done]. intros (n & ? & ? & ?). exists n.
  split; [done|]. split; [etransitivity; [done|apply Hl]|by eapply freshTo_leaves].
Qed.

Lemma elsewhere_keeps w w' : isFine w -> elsewhere w w' -> isFine w'.
Proof.
  intros Hi He. pose proof (elsewhere_leaves _ _ Hi He) as Hl.
  pose proof Hi as (Hs & Hm & Hr & Hc). apply (cursorFresh_leaves _ _ Hl) in Hc.
  split; [|split; [|split; [|exact Hc]]]; clear Hc Hl Hi.
  - destruct He as [w config _|w e E _|e db past added db' E Hf Hst Hn Hg Hrow|e db past now].
    + by destruct Hs.
    + by destruct Hs.
    + destruct Hs as [Hfe _ Hk _ _ Hh]. cbn in *. constructor; cbn; try done.
      * by eapply kept_changed.
      * intros c [Hc|Hc]%elem_of_app; unfold head_ in *; cbn in *.
        -- etransitivity; [by apply Hh|]. by eapply head_changed.
        -- apply head_last; [done|]. rewrite E. apply elem_of_app. by right.
    + destruct Hs as [Hfe Hst Hk Hg Hrow Hh]. unfold head_ in *. cbn in *.
      destruct (pruned_feed now db Hfe Hst) as (H1 & Hst' & H2 & H3 & H4).
      constructor; cbn; try done; [by apply H4| |unfold head_; cbn; by rewrite H2].
      unfold rowsShow. by rewrite H3.
  - destruct He as [w config _|w e E _| |]; [| |done..].
    + unfold configure. by destruct (match en_config _ with Some _ => _ | None => _ end).
    + cbn. by rewrite E.
  - destruct He as [w config Hch|w e E _| |]; [| |done..].
    + unfold configure. by destruct (match en_config _ with Some _ => _ | None => _ end).
    + cbn. by rewrite E.
Qed.

(** A step of the engine itself that draws items from answers. *)
Lemma isFine_draws w e (P : RemoteItem -> Prop) :
  isFine w -> drawn P (treeOf w) (en_tree e) ->
  (cursorOf w = None -> forall item, ~ P item) ->
  (forall item cursor n, P item -> ri_id item ∉ chosen -> cursorOf w = Some cursor ->
     bigIntOf cursor = Some n -> upTo (ew_past w) n (ri_id item) (ri_rev item)) ->
  isFine (with_engine e w).
Proof.
  intros (Hs & Hm & Hr & Hc) Hd Hnone HP. split; [by destruct Hs|].
  split; [by apply (dr_mirror _ _ _ Hd)|]. split; [cbn; by rewrite (dr_roots _ _ _ Hd)|].
  assert (Ecur : cursorOf (with_engine e w) = cursorOf w) by apply (dr_meta _ _ _ Hd).
  unfold cursorFresh in *. rewrite Ecur. destruct (cursorOf w) as [cursor|] eqn:E.
  - destruct Hc as (n & Hn & Hle & Hf). exists n. split; [done|]. split; [done|].
    eapply freshTo_drawn; [done..|]. intros item Hp Hin. by eapply HP.
  - apply map_eq. intros id. rewrite lookup_empty. destruct (_ !! id) as [item|] eqn:Ei; [|done].
    exfalso. apply (dr_items _ _ _ Hd) in Ei as [Ei|[Hp _]].
    + rewrite Hc in Ei. by rewrite lookup_empty in Ei.
    + by apply (Hnone eq_refl item).
Qed.

Lemma isFine_same w e : isFine w -> drawn (fun _ => False) (treeOf w) (en_tree e) -> isFine (with_engine e w).
Proof. intros Hi Hd. eapply isFine_draws; [done..|auto|done]. Qed.

(** *** A pass over a pair *)
Lemma told_tree pair config configured message e :
  en_tree (told pair config configured message e) = en_tree e.
Proof. unfold told. by repeat case_match. Qed.

Lemma wroteTree_drawn w write : writeOf w write ->
  drawn (fun item => write = treeSet item) (treeOf w) (wroteTree write (treeOf w)).
Proof.
  destruct write; intros Hw; cbn [wroteTree written onTree onStore me_tree];
    try apply drawn_refl; try (by apply drawn_store).
  - eapply drawn_weak; [|apply drawn_setItem]. by intros ? ->.
  - apply drawn_removeSubtree.
  - apply (drawn_store _ (moveBaseTree pairId from to)). intros s. unfold moveBaseTree.
    set (rows := filter _ _). generalize (deleteBaseTree_calm pairId from s).
    generalize (deleteBaseTree pairId from s). induction rows as [|row rows IH]; intros s0 Hs0; cbn [foldl]; [done|].
    by apply IH.
  - apply (drawn_store _ (setMeta key value)), calm_setMeta. destruct Hw as [pairId ->]. discriminate.
Qed.

Lemma pairWorks_keeps w w' :
  isFine w -> cursorOf w <> None -> pairWorks w w' -> isFine w' /\ cursorOf w' = cursorOf w.
Proof.
  intros Hi Hn Hp. destruct Hp as [w1 write Hw|w1 pair config configured message|w1 w2 He].
  - pose proof (wroteTree_drawn w1 write Hw) as Hd. split; [|apply (dr_meta _ _ _ Hd)].
    eapply isFine_draws; [done|exact Hd|by intros ?|].
    intros item cursor n -> _ Hc Hb. by apply (Hw cursor n).
  - split; [apply isFine_same; [done|rewrite told_tree; apply drawn_refl]|].
    unfold metaOf, en_store. cbn [with_engine ew_engine]. by rewrite told_tree.
  - split; [by eapply elsewhere_keeps|by eapply lv_cursor, elsewhere_leaves].
Qed.

Lemma pairWorks_all w w' :
  rtc pairWorks w w' -> isFine w -> cursorOf w <> None -> isFine w' /\ cursorOf w' = cursorOf w.
Proof.
  induction 1 as [|w w1 w2 Hs _ IH]; intros Hi Hn; [done|].
  destruct (pairWorks_keeps _ _ Hi Hn Hs) as [Hi1 E]. rewrite <- E in *. by apply IH.
Qed.

(** A process that starts again. *)
Lemma restarted_keeps w e : isFine w -> isFine (restarted w e).
Proof.
  intros (Hs & [Hid Hst] & _ & Hc).
  destruct (mirror_new (en_store (ew_engine w)) ∅) as (Hm & Ei & Er & Es).
  { unfold en_store. by rewrite Hst. }
  assert (Ecur : cursorOf (restarted w e) = cursorOf w).
  { unfold metaOf, en_store at 1. cbn. by rewrite Es. }
  assert (Eit : rt_items (treeOf (restarted w e)) = rt_items (treeOf w)).
  { cbn. by rewrite Ei. }
  split; [by destruct Hs|]. split; [done|]. split; [cbn; rewrite Er; set_solver|].
  revert Hc. unfold cursorFresh, freshTo. by rewrite Ecur, Eit.
Qed.
End Fresh.
