(* ===== verification/EnginePromises.v ===== *)
(** * What the engine's loop promises

    The rules of [Requests] for the one piece of work the engine does at a time,
    with the system of [EngineFresh]: every stretch of code keeps the invariant,
    wherever the others' steps fall between two of them. *)

From Stdlib Require OrdersEx.
From S2P Require Import Prelude SyncTypes JsValues Database StorageChanges Plan SyncStore RemoteTree Async EngineIo PairSync Requests EngineLoop EngineFresh.

Open Scope Z_scope.

Lemma with_engine_same w : with_engine (ew_engine w) w = w.
Proof. by destruct w. Qed.

Section Promises.
Context `{Platform} (platform : NodePlatform) (turns : nat).
Context (owner : string) (chosen : gset string).

#[local] Notation isFine := (engineInv owner chosen).
#[local] Notation performs := (performsSaved owner chosen).
#[local] Notation elsewhere := (elsewhere owner chosen).

(** What may be done: a stretch of code keeps the invariant; a pair is synced
    once the feed was read. *)
Definition allowed (_ : nat) (w : EngineWorld) (e : LoopEffect) : Prop :=
  match e with
  | runPair _ _ _ _ => cursorOf w <> None
  | @here X f => isFine (with_engine (f (ew_engine w)).2 w)
  | _ => True
  end.

Definition nobody (_ : nat) (_ _ : EngineWorld) : Prop := False.

Notation loops A m Q := (serves performs elsewhere isFine allowed nobody 0 A m Q).
Notation lasting A := (Stable elsewhere isFine nobody 0 A).

(** Facts that no step elsewhere makes false. *)
Definition steadfast (A : EngineWorld -> Prop) : Prop :=
  forall w w', isFine w -> leaves w w' -> A w -> A w'.

Lemma steadfast_lasting A : steadfast A -> lasting A.
Proof.
  intros HA w w' Hi _ [(t' & _ & [])|He] Hw. eapply HA; [exact Hi| |exact Hw].
  by eapply elsewhere_leaves.
Qed.

Lemma steadfast_const (P : Prop) : steadfast (fun _ => P).
Proof. by intros w w' _ _ ?. Qed.
Lemma steadfast_and A B : steadfast A -> steadfast B -> steadfast (fun w => A w /\ B w).
Proof. intros HA HB w w' Hi Hl [? ?]. eauto. Qed.
Lemma steadfast_any {X} (A : X -> EngineWorld -> Prop) :
  (forall x, steadfast (A x)) -> steadfast (fun w => exists x, A x w).
Proof. intros HA w w' Hi Hl [x Hx]. exists x. by eapply HA. Qed.
Lemma steadfast_cursor (P : option string -> Prop) : steadfast (fun w => P (cursorOf w)).
Proof. intros w w' _ Hl. by rewrite (lv_cursor _ _ Hl). Qed.
Lemma steadfast_head n : steadfast (fun w => n <= head_ w).
Proof. intros w w' _ Hl ?. etransitivity; [done|apply Hl]. Qed.

Create HintDb steadfast.
Hint Resolve steadfast_const steadfast_and steadfast_any steadfast_head : steadfast.

(** The feed is read up to a saved cursor. *)
Definition saved (w : EngineWorld) : Prop := cursorOf w <> None.
Lemma steadfast_saved : steadfast saved.
Proof. apply (steadfast_cursor (fun cursor => cursor <> None)). Qed.

(** The tree shows everything up to [p], and the cursor is no further. *)
Definition showsUpTo (p : Z) (w : EngineWorld) : Prop :=
  (exists cursor n, cursorOf w = Some cursor /\ bigIntOf cursor = Some n /\ n <= p) /\
  p <= head_ w /\ freshTo owner chosen (ew_past w) p (treeOf w).
Lemma steadfast_showsUpTo p : steadfast (showsUpTo p).
Proof.
  intros w w' Hi Hl (Hs & Hp & Hf). split; [by rewrite (lv_cursor _ _ Hl)|].
  split; [by eapply steadfast_head|by eapply freshTo_leaves].
Qed.

(** Items that show everything up to [v]. *)
Definition gathered (v : Z) (items : list RemoteItem) (w : EngineWorld) : Prop :=
  v <= head_ w /\ forall item, item ∈ items -> upTo owner (ew_past w) v (ri_id item) (ri_rev item).
Lemma steadfast_gathered v items : steadfast (gathered v items).
Proof.
  intros w w' Hi Hl [Hv Hf]. split; [by eapply steadfast_head|].
  intros item Hin. eapply upTo_leaves; eauto.
Qed.

(** A page of the feed that starts at what the tree shows. *)
Definition pageRead (page : ChangesPage) (p : Z) (w : EngineWorld) : Prop :=
  exists n cs, showsUpTo n w /\ n <= p /\ p <= head_ w /\ pageOf owner (ew_past w) n p cs /\
    cp_changes page = jsonChange <$> cs /\ bigIntOf (cp_cursor page) = Some p.
Lemma steadfast_pageRead page p : steadfast (pageRead page p).
Proof.
  intros w w' Hi Hl (n & cs & Hs & Hn & Hp & [Ho Hc Ha] & Hpc & Hcur). exists n, cs.
  split; [by eapply steadfast_showsUpTo|]. split; [done|]. split; [by eapply steadfast_head|].
  split; [|done]. destruct (lv_past _ _ Hl) as (added & -> & Hnew). constructor; [done| |].
  - intros c Hin. destruct (Hc c Hin) as (? & ? & ?). split; [apply elem_of_app; by left|done].
  - intros c [Hin|Hin]%elem_of_app Hown Hle; [by apply Ha|].
    rewrite Forall_forall in Hnew. specialize (Hnew c Hin). lia.
Qed.
Hint Resolve steadfast_saved steadfast_showsUpTo steadfast_gathered steadfast_pageRead : steadfast.

(** ** Rules *)

Lemma loops_here {X} (f : Engine -> X * Engine) A (Q : result LoopError X -> EngineWorld -> Prop) :
  (forall w, isFine w -> A w -> isFine (with_engine (f (ew_engine w)).2 w) /\
     Q (Ok (f (ew_engine w)).1) (with_engine (f (ew_engine w)).2 w)) ->
  (forall x, steadfast (Q (Ok x))) -> loops A (ask (here f)) Q.
Proof.
  intros Hf HQ. apply (serves_ask performs elsewhere isFine allowed nobody 0 A (here f)).
  - intros w Hi Hw. by apply Hf.
  - intros x. apply steadfast_lasting, HQ.
  - intros x w w' Hi _ Hw [-> ->]. by apply Hf.
Qed.

(** Looking changes nothing. *)
Lemma loops_see {X} (f : Engine -> X) A (Q : result LoopError X -> EngineWorld -> Prop) :
  (forall w, isFine w -> A w -> Q (Ok (f (ew_engine w))) w) ->
  (forall x, steadfast (Q (Ok x))) -> loops A (see f) Q.
Proof.
  intros HQ Hs. apply loops_here; [|done]. intros w Hi Hw. cbn [fst snd].
  rewrite with_engine_same. split; [done|by apply HQ].
Qed.

(** An effect whose answer is not looked into. *)
Lemma loops_plain e A :
  (forall w, isFine w -> A w -> allowed 0 w e) -> steadfast A ->
  (forall w a w', isFine w -> A w -> performs 0 w e a w' -> A w') ->
  loops A (ask e : Loop (LoopAnswer e)) (fun _ => A).
Proof.
  intros Ha HA Hp. apply (serves_ask performs elsewhere isFine allowed nobody 0 A e); [done| |].
  - intros _. by apply steadfast_lasting.
  - intros a w w' Hi _ Hw Hperf. by eapply Hp.
Qed.

Lemma loops_tried {X} A (m : Loop X) (M : result LoopError X -> EngineWorld -> Prop) Q :
  loops A m M -> (forall r w, isFine w -> M r w -> Q (Ok r) w) -> loops A (tried m) Q.
Proof.
  intros Hm HQ. unfold tried.
  apply (serves_catch performs elsewhere isFine allowed nobody 0 A _ _ (fun e => M (Throw e)) Q).
  - apply (serves_bind performs elsewhere isFine allowed nobody 0 A m _ (fun x => M (Ok x))).
    + eapply serves_post; [exact Hm|]. by intros [x|e].
    + intros x. apply serves_ret. intros w Hi Hx. by apply HQ.
  - intros e. apply serves_ret. intros w Hi Hx. by apply HQ.
Qed.

Lemma loops_waitForEver {X} A (Q : result LoopError X -> EngineWorld -> Prop) :
  loops A waitForEver Q.
Proof.
  unfold waitForEver.
  apply (serves_bind performs elsewhere isFine allowed nobody 0 A _ _ (fun _ _ => False)).
  - apply (serves_ask performs elsewhere isFine allowed nobody 0 A endless); [done|intros []|intros []].
  - intros [].
Qed.

(** A condition that is kept throughout, whatever is thrown. *)
Definition keepsTo {X} (F : EngineWorld -> Prop) (m : Loop X) (M : X -> EngineWorld -> Prop) : Prop :=
  loops F m (fun r w => F w /\ match r with Ok x => M x w | Throw _ => True end).

Lemma keepsTo_bind {X Y} F (m : Loop X) (f : X -> Loop Y) M (N : Y -> EngineWorld -> Prop) :
  keepsTo F m M ->
  (forall x, loops (fun w => F w /\ M x w) (f x)
     (fun r w => F w /\ match r with Ok y => N y w | Throw _ => True end)) ->
  keepsTo F (m ≫= f) N.
Proof.
  intros Hm Hf.
  apply (serves_bind performs elsewhere isFine allowed nobody 0 F m f (fun x w => F w /\ M x w)); [|done].
  eapply serves_post; [exact Hm|]. intros [x|e] w _ [? ?]; auto.
Qed.

Lemma keepsTo_forEach {X} F (l : list X) (f : X -> Loop unit) :
  (forall x, keepsTo F (f x) (fun _ _ => True)) -> keepsTo F (forEach l f) (fun _ _ => True).
Proof.
  intros Hf. apply serves_forEach; [|by intros w _ ?]. intros x _.
  eapply serves_post; [apply Hf|]. by intros [[]|e] w _ [? ?].
Qed.

(** ** Snapshots *)

Definition soFar (p : Z) (changeCursor : option string) (items : list RemoteItem)
    (w : EngineWorld) : Prop :=
  match changeCursor with
  | None => items = [] /\ p <= head_ w
  | Some cursor => exists v, bigIntOf cursor = Some v /\ (p <= v /\ gathered v items w)
  end.
Definition taken (p : Z) (r : list RemoteItem * string) (w : EngineWorld) : Prop :=
  exists v, bigIntOf r.2 = Some v /\ (p <= v /\ gathered v r.1 w).

Lemma steadfast_soFar p changeCursor items : steadfast (soFar p changeCursor items).
Proof. destruct changeCursor; unfold soFar; auto 8 with steadfast. Qed.
Lemma steadfast_taken p r : steadfast (taken p r).
Proof. unfold taken. auto 8 with steadfast. Qed.
Hint Resolve steadfast_soFar steadfast_taken : steadfast.

(** A page more. *)
Lemma soFar_page p changeCursor items w folderId cursor page :
  isFine w -> soFar p changeCursor items w ->
  snapshotRoute owner folderId cursor 5000 (ew_db w) = Ok page ->
  soFar p (Some (nullish changeCursor (np_changeCursor page)))
    (items ++ (fromSnapshot <$> np_items page)) w.
Proof.
  intros [Hs _] Hso Hr.
  pose proof (snapshot_cursor _ _ _ _ _ _ (so_feed _ _ Hs) Hr) as Hcur.
  assert (Hpage : forall v item, item ∈ fromSnapshot <$> np_items page ->
    upTo owner (ew_past w) v (ri_id item) (ri_rev item)).
  { intros v item Hin c Hc Ha _.
    by apply (snapshot_shows _ _ _ _ _ _ _ _ (so_rows _ _ Hs) Hr Hin). }
  destruct changeCursor as [old|]; cbn in *.
  - destruct Hso as (v & Hv & Hp & Hh & Hg). exists v. split; [done|]. split; [done|]. split; [done|].
    intros item [Hin|Hin]%elem_of_app; auto.
  - destruct Hso as [-> Hp]. exists (head_ w). split; [done|]. split; [done|]. split; [done|].
    intros item Hin. by apply Hpage.
Qed.

Lemma loops_snapshotFrom F p left folderId cursor changeCursor items :
  steadfast F ->
  loops (fun w => F w /\ soFar p changeCursor items w)
    (snapshotFrom left folderId cursor changeCursor items)
    (fun r w => F w /\ match r with Ok x => taken p x w | Throw _ => True end).
Proof.
  intros HF. revert cursor changeCursor items.
  induction left as [|left IH]; intros cursor changeCursor items; cbn [snapshotFrom];
    [apply loops_waitForEver|].
  apply (serves_bind performs elsewhere isFine allowed nobody 0 _ _ _ (fun page w => F w /\
    soFar p (Some (nullish changeCursor (np_changeCursor page)))
      (items ++ (fromSnapshot <$> np_items page)) w)).
  - apply serves_settle.
    apply (serves_ask performs elsewhere isFine allowed nobody 0 _ (askSnapshot folderId cursor)); [done| |].
    + intros [page|e]; apply steadfast_lasting; auto with steadfast.
    + intros a w w' Hi _ [HFw Hso] [-> [->|[e ->]]]; [|done].
      destruct (snapshotRoute _ _ _ _ _) as [page|e] eqn:Er; [|done].
      split; [done|]. by eapply soFar_page.
  - intros page. destruct (truthy _); [apply IH|].
    apply serves_ret. intros w Hi [HFw Hso]. split; [done|exact Hso].
Qed.

Lemma loops_snapshot F p folderId :
  steadfast F -> (forall w, isFine w -> F w -> p <= head_ w) ->
  keepsTo F (snapshot turns folderId) (taken p).
Proof.
  intros HF Hp. eapply serves_pre; [apply (loops_snapshotFrom F p); done|].
  intros w Hi HFw. split; [done|]. split; [done|by apply Hp].
Qed.

(** A tree that shows everything up to the cursor it comes with. *)
Lemma isFine_cursor w e cursor n :
  isFine w -> mirror (en_tree e) -> rt_roots (en_tree e) ⊆ chosen ->
  metaOf "cursor" e = Some cursor -> bigIntOf cursor = Some n -> n <= head_ w ->
  freshTo owner chosen (ew_past w) n (en_tree e) -> isFine (with_engine e w).
Proof.
  intros (Hs & _) Hm Hr Hc Hn Hle Hf. split; [by destruct Hs|]. split; [done|]. split; [done|].
  unfold cursorFresh. cbn [with_engine ew_engine]. rewrite Hc. by exists n.
Qed.

(** Writing the cursor, and other keys. *)
Lemma saveMeta_cursor value e : metaOf "cursor" (saveMeta "cursor" (Some value) e) = Some value.
Proof. unfold metaOf, getMeta. cbn. by rewrite lookup_insert_eq. Qed.

Lemma drawn_saveMeta P key value e :
  key <> "cursor" -> drawn P (en_tree e) (en_tree (saveMeta key value e)).
Proof. intros Hk. by apply drawn_store, calm_setMeta. Qed.

Lemma showsUpTo_drawn p w e (P : RemoteItem -> Prop) :
  drawn P (treeOf w) (en_tree e) ->
  (forall item, P item -> upTo owner (ew_past w) p (ri_id item) (ri_rev item)) ->
  showsUpTo p w -> showsUpTo p (with_engine e w).
Proof.
  intros Hd HP (Hs & Hp & Hf). split; [|split; [done|]].
  - cbn [with_engine ew_engine].
    assert (E : metaOf "cursor" e = cursorOf w) by apply (dr_meta _ _ _ Hd). by rewrite E.
  - eapply freshTo_drawn; [exact Hd|done|]. intros item Hi _. by apply HP.
Qed.

(** What a snapshot does to a tree that shows everything up to [p]. *)
Lemma takeSnapshot_fine pairId folderId items cursor v w :
  isFine w -> bigIntOf cursor = Some v -> gathered v items w ->
  let e' := (takeSnapshot pairId folderId items cursor (ew_engine w)).2 in
  isFine (with_engine e' w) /\
  forall p, p <= v -> showsUpTo p w -> showsUpTo p (with_engine e' w).
Proof.
  intros Hi Hv [Hh Hg]. pose proof Hi as (_ & Hm & Hr & Hc). unfold takeSnapshot.
  set (e1 := set_tree (replaceUnder folderId items) (ew_engine w)).
  assert (Hd : drawn (fun item => item ∈ items) (treeOf w) (en_tree e1)) by apply drawn_replaceUnder.
  assert (Ecur : metaOf "cursor" e1 = cursorOf w) by apply (dr_meta _ _ _ Hd).
  assert (Hfresh : forall n, n <= v -> freshTo owner chosen (ew_past w) n (treeOf w) ->
    freshTo owner chosen (ew_past w) n (en_tree e1)).
  { intros n Hn Hf. eapply freshTo_drawn; [exact Hd|done|]. intros item Hin _.
    eapply upTo_less; [exact Hn|by apply Hg]. }
  assert (Hm1 : mirror (en_tree e1)) by by apply (dr_mirror _ _ _ Hd).
  assert (Hr1 : rt_roots (en_tree e1) ⊆ chosen) by by rewrite (dr_roots _ _ _ Hd).
  set (rest e2 := saveMeta ("gone:" +:+ pairId) None (saveMeta ("ready:" +:+ pairId) (Some "1") e2)).
  assert (Hrest : forall e2, drawn (fun _ => False) (en_tree e2) (en_tree (rest e2))).
  { intros e2. eapply drawn_trans; [|by apply drawn_saveMeta]. by apply drawn_saveMeta. }
  assert (Hdone : forall e2, isFine (with_engine e2 w) ->
    (forall p, p <= v -> showsUpTo p w -> showsUpTo p (with_engine e2 w)) ->
    isFine (with_engine (rest e2) w) /\
    forall p, p <= v -> showsUpTo p w -> showsUpTo p (with_engine (rest e2) w)).
  { intros e2 H2 Hs2. split.
    - apply (isFine_same _ _ (with_engine e2 w)); [done|apply Hrest].
    - intros p Hp Hs. apply (showsUpTo_drawn p (with_engine e2 w) _ (fun _ => False)); [apply Hrest|done|auto]. }
  clearbody e1. unfold lowerCursor. rewrite Ecur.
  unfold cursorFresh in Hc. destruct (cursorOf w) as [old|] eqn:Eold.
  - destruct Hc as (n & Hn & Hle & Hf). rewrite Hv, Hn. apply Hdone; case_bool_decide as Hlt.
    + apply (isFine_cursor w _ cursor v); try done; [apply saveMeta_cursor|].
      apply Hfresh; [lia|]. eapply freshTo_less; [|exact Hf]. lia.
    + apply (isFine_cursor w _ old n); try done. apply Hfresh; [lia|done].
    + intros p Hp ((c & m & Ec & Em & Hmp) & _). rewrite Eold in Ec. simplify_eq. lia.
    + intros p Hp ((c & m & Ec & Em & Hmp) & Hph & Hpf). split; [|split; [done|by apply Hfresh]].
      exists c, m. cbn [with_engine ew_engine]. by rewrite Ecur, <- Eold.
  - apply Hdone.
    + apply (isFine_cursor w _ cursor v); try done; [apply saveMeta_cursor|].
      intros id item [Hin|[Hin <-]]%(dr_items _ _ _ Hd) _; [|by apply Hg].
      rewrite Hc in Hin. by rewrite lookup_empty in Hin.
    + intros p _ ((c & m & Ec & _) & _). congruence.
Qed.

(** ** Reading the feed *)

(** [F] is nothing, or that the tree shows everything up to some entry. *)
Definition frame (F : EngineWorld -> Prop) (p : Z) : Prop :=
  steadfast F /\ (forall w, isFine w -> F w -> p <= head_ w) /\
  forall w e, isFine w -> F w ->
    (forall q, q <= p -> showsUpTo q w -> showsUpTo q (with_engine e w)) -> F (with_engine e w).

Lemma frame_none : frame (fun _ => True) 0.
Proof. split; [apply steadfast_const|]. split; [|done]. intros w [Hs _] _. apply head_nonneg, Hs. Qed.

Lemma frame_shows p : frame (showsUpTo p) p.
Proof.
  split; [apply steadfast_showsUpTo|]. split; [by intros w _ (_ & ? & _)|].
  intros w e _ Hs Hq. by apply Hq.
Qed.

(** A mark of the store keeps both. *)
Lemma marks_keep F p key value w :
  frame F p -> key <> "cursor" -> isFine w -> F w ->
  isFine (with_engine (saveMeta key value (ew_engine w)) w) /\
  F (with_engine (saveMeta key value (ew_engine w)) w).
Proof.
  intros (_ & _ & HF) Hk Hi Hw.
  assert (Hd : drawn (fun _ => False) (treeOf w) (en_tree (saveMeta key value (ew_engine w))))
    by by apply drawn_saveMeta.
  split; [by apply isFine_same|]. apply HF; [done..|]. intros q _. by apply (showsUpTo_drawn q w _ _ Hd).
Qed.

Lemma keepsTo_mark F p key value :
  frame F p -> key <> "cursor" -> keepsTo F (change (saveMeta key value)) (fun _ _ => True).
Proof.
  intros HF Hk. apply loops_here; [|intros []; apply steadfast_and; [apply HF|apply steadfast_const]].
  intros w Hi Hw. cbn [fst snd]. destruct (marks_keep F p key value w HF Hk Hi Hw). auto.
Qed.

Lemma keepsTo_snapshotPair F p pair :
  frame F p -> keepsTo F (snapshotPair turns pair) (fun _ _ => True).
Proof.
  intros HF. unfold snapshotPair.
  apply (serves_catch performs elsewhere isFine allowed nobody 0 F _ _ (fun _ => F)).
  - apply (serves_bind performs elsewhere isFine allowed nobody 0 F _ _ (fun r w => F w /\ taken p r w)).
    + eapply serves_post; [apply (loops_snapshot F p); [apply HF|apply HF]|].
      intros [r|e] w _ [? ?]; auto.
    + intros r. apply serves_settle, loops_here.
      * intros w Hi [Hw (v & Hv & Hp & Hg)].
        destruct (takeSnapshot_fine (pr_id pair) (pr_remoteFolderId pair) r.1 r.2 v w Hi Hv Hg) as [H1 H2].
        split; [done|].
        assert (HF' : F (with_engine (takeSnapshot (pr_id pair) (pr_remoteFolderId pair) r.1 r.2
          (ew_engine w)).2 w)).
        { apply HF; [done..|]. intros q Hq. apply H2. lia. }
        destruct (takeSnapshot _ _ _ _ _) as [[[]|e] e']; cbn [fst snd] in *; auto.
      * intros [[]|e]; [apply steadfast_and; [apply HF|apply steadfast_const]|apply HF].
  - intros e. destruct (hasStatus 404 e).
    + by apply (keepsTo_mark F p).
    + apply serves_throw. auto.
Qed.

Lemma keepsTo_snapshotNew F p pairs :
  frame F p -> keepsTo F (snapshotNew turns pairs) (fun _ _ => True).
Proof.
  intros HF. apply keepsTo_forEach. intros pair.
  eapply (keepsTo_bind F _ _ (fun _ _ => True)).
  - apply loops_see; [auto|]. intros x. apply steadfast_and; [apply HF|apply steadfast_const].
  - intros ready. eapply serves_pre; [|by intros w _ [Hw _]; exact Hw].
    destruct (truthy ready); [apply serves_ret; auto|by apply (keepsTo_snapshotPair F p)].
Qed.

(** Contents that come into view. *)
Lemma keepsTo_reveal p folderId :
  keepsTo (showsUpTo p) (reveal turns folderId) (fun _ _ => True).
Proof.
  unfold reveal.
  apply (serves_catch performs elsewhere isFine allowed nobody 0 _ _ _ (fun _ => showsUpTo p)).
  - apply (serves_bind performs elsewhere isFine allowed nobody 0 _ _ _
      (fun r w => showsUpTo p w /\ taken p r w)).
    + eapply serves_post; [apply (loops_snapshot (showsUpTo p) p); [auto with steadfast|apply frame_shows]|].
      intros [r|e] w _ [? ?]; auto.
    + intros r. apply loops_here; [|intros []; auto with steadfast].
      intros w Hi [Hs (v & Hv & Hp & Hh & Hg)]. cbn [fst snd].
      assert (Hd : drawn (fun item => item ∈ r.1) (treeOf w)
        (en_tree (set_tree (addUnder r.1) (ew_engine w)))) by apply drawn_addUnder.
      assert (Hup : forall q item, q <= v -> item ∈ r.1 ->
        upTo owner (ew_past w) q (ri_id item) (ri_rev item)).
      { intros q item Hq Hin. eapply upTo_less; [exact Hq|by apply Hg]. }
      pose proof Hs as ((c & n & Ec & En & Hnp) & _).
      split; [|split; [|done]].
      * apply (isFine_draws _ _ _ _ (fun item => item ∈ r.1)); [done|exact Hd|by rewrite Ec|].
        intros item c' n' Hin _ Ec' En'. rewrite Ec in Ec'. simplify_eq. apply Hup; [lia|done].
      * apply (showsUpTo_drawn p w _ _ Hd); [|done]. intros item Hin. by apply Hup.
  - intros e. destruct (hasStatus 404 e); [apply serves_ret|apply serves_throw]; auto.
Qed.

(** The start of a read: the page goes on from the saved cursor. *)
Lemma loops_askChanges after :
  loops (fun w => nullish (cursorOf w) "0" = after) (settle (ask (askChanges after)))
    (fun r w => match r with Ok page => exists p, pageRead page p w | Throw _ => True end).
Proof.
  apply serves_settle.
  apply (serves_ask performs elsewhere isFine allowed nobody 0 _ (askChanges after)); [done| |].
  - intros [page|e]; apply steadfast_lasting; auto with steadfast.
  - intros a w w' Hi _ Hcur [-> [(n & Hn & Hsome & ->)|[e ->]]]; [|done].
    pose proof Hi as (Hs & _ & _ & Hc). unfold cursorFresh in Hc.
    destruct (cursorOf w) as [cursor|] eqn:Ec; [|done]. cbn in Hcur. subst after.
    destruct Hc as (n' & Hn' & Hle & Hf). assert (n' = n) as -> by congruence.
    unfold changesRoute. destruct (readStorageChanges owner n 1000 (ew_db w)) as [pg|[]] eqn:Er; [|done..].
    destruct (page_of _ _ _ _ _ _ (so_feed _ _ Hs) (so_kept _ _ Hs) Er) as (Hp & H0 & Hpage).
    exists (pg_cursor pg), n, (pg_changes pg). split; [split; [by exists cursor, n|done]|].
    split; [lia|]. split; [unfold head_; lia|]. split; [done|]. split; [done|].
    by apply bigIntOf_numberString.
Qed.

(** A page is applied, in one transaction. *)
Lemma loops_applyPage pairs page p :
  loops (pageRead page p) (ask (here (applyPage pairs (cp_changes page))) : Loop (list string))
    (fun r => match r with Ok _ => showsUpTo p | Throw _ => fun _ => True end).
Proof.
  apply loops_here; [|auto with steadfast].
  intros w Hi (n & cs & (Hcur & Hn & Hf) & Hnp & Hp & Hpage & -> & _).
  pose proof Hi as (Hs & Hm & Hr & _).
  destruct (applyPage_shows owner chosen (ew_past w) n p cs pairs (ew_engine w)
    (so_revs _ _ Hs) Hpage Hr Hm Hf) as (H1 & H2 & H3 & H4).
  destruct Hcur as (cursor & m & Ec & Em & Hmn). unfold sameCursor in H4. rewrite Ec in H4.
  split.
  - apply (isFine_cursor w _ cursor m); try done; [by rewrite H3|lia|].
    eapply freshTo_less; [|exact H1]. lia.
  - split; [exists cursor, m; split_and!; [exact H4|done|lia]|done].
Qed.

(** The new cursor. *)
Lemma loops_saveCursor page p :
  bigIntOf (cp_cursor page) = Some p ->
  loops (showsUpTo p) (change (saveMeta "cursor" (Some (cp_cursor page))))
    (fun r => match r with Ok _ => saved | Throw _ => fun _ => True end).
Proof.
  intros Hcur. apply loops_here; [|auto with steadfast]. intros w Hi (_ & Hp & Hf).
  pose proof Hi as (_ & Hm & Hr & _). cbn [fst snd]. split.
  - apply (isFine_cursor w _ (cp_cursor page) p); try done. apply saveMeta_cursor.
  - unfold saved. cbn [with_engine ew_engine]. by rewrite saveMeta_cursor.
Qed.

Lemma loops_startOver :
  loops (fun _ => True) (change startOver) (fun _ _ => True).
Proof.
  apply loops_here; [|auto with steadfast]. intros w (Hs & Hm & Hr & _) _. split; [|done].
  split; [by destruct Hs|]. split; [done|]. split; [done|].
  unfold cursorFresh, metaOf, getMeta. cbn. by rewrite lookup_delete_eq.
Qed.

Lemma loops_pullFrom left pairs :
  loops (fun _ => True) (pullFrom turns left pairs)
    (fun r => match r with Ok _ => saved | Throw _ => fun _ => True end).
Proof.
  induction left as [|left IH]; cbn [pullFrom]; [apply loops_waitForEver|].
  apply (serves_bind performs elsewhere isFine allowed nobody 0 _ _ _
    (fun after w => nullish (cursorOf w) "0" = after)).
  { apply loops_see; [done|]. intros x. apply (steadfast_cursor (fun c => nullish c "0" = x)). }
  intros after.
  apply (serves_bind performs elsewhere isFine allowed nobody 0 _ _ _
    (fun answer w => match answer with Ok page => exists p, pageRead page p w | Throw _ => True end)).
  { eapply loops_tried; [apply loops_askChanges|]. done. }
  intros [page|e].
  - apply serves_any. intros p.
    eapply (serves_bind performs elsewhere isFine allowed nobody 0 _ _ _ (fun _ w =>
      bigIntOf (cp_cursor page) = Some p /\ showsUpTo p w)).
    { apply (serves_pre performs elsewhere isFine allowed nobody 0
        (fun w => bigIntOf (cp_cursor page) = Some p /\ pageRead page p w)).
      - apply serves_assume. intros Hcur. eapply serves_post; [apply loops_applyPage|].
        by intros [folders|e] w _ Hw.
      - intros w _ Hw. split; [|done]. by destruct Hw as (n & cs & _ & _ & _ & _ & _ & ?). }
    intros folders. apply serves_assume. intros Hcur.
    apply (serves_bind performs elsewhere isFine allowed nobody 0 _ _ _ (fun _ => showsUpTo p)).
    { eapply serves_post; [apply keepsTo_forEach, keepsTo_reveal|]. by intros [x|e] w _ [? ?]. }
    intros _.
    apply (serves_bind performs elsewhere isFine allowed nobody 0 _ _ _ (fun _ => showsUpTo p)).
    { eapply serves_post; [apply (keepsTo_snapshotNew _ p), frame_shows|]. by intros [x|e] w _ [? ?]. }
    intros _.
    apply (serves_bind performs elsewhere isFine allowed nobody 0 _ _ _ (fun _ => saved)).
    { eapply serves_post; [by apply loops_saveCursor|]. by intros [x|e]. }
    intros _. destruct (cp_hasMore page); [eapply serves_pre; [apply IH|done]|by apply serves_ret].
  - destruct (hasStatus 410 e); [|by apply serves_throw].
    apply (serves_bind performs elsewhere isFine allowed nobody 0 _ _ _ (fun _ _ => True)).
    { eapply serves_post; [apply loops_startOver|]. by intros [x|e']. }
    intros _.
    apply (serves_bind performs elsewhere isFine allowed nobody 0 _ _ _ (fun _ _ => True)).
    { eapply serves_post; [apply (keepsTo_forEach (fun _ => True))|by intros [x|e']].
      intros pair. apply (keepsTo_snapshotPair _ 0), frame_none. }
    intros _. exact IH.
Qed.

(** A pull that ends has saved a cursor. *)
Definition hasConfig (w : EngineWorld) : Prop := en_config (ew_engine w) <> None.
Lemma steadfast_hasConfig : steadfast hasConfig.
Proof. intros w w' _ Hl. apply Hl. Qed.
Hint Resolve steadfast_hasConfig : steadfast.

Lemma loops_pull :
  loops hasConfig (pull turns) (fun r => match r with Ok _ => saved | Throw _ => fun _ => True end).
Proof.
  apply (serves_bind performs elsewhere isFine allowed nobody 0 _ _ _ (fun config _ => config <> None)).
  { apply loops_see; [auto|]. intros x. apply steadfast_const. }
  intros [config|]; [|apply serves_ret; by intros w _ ?].
  apply (serves_bind performs elsewhere isFine allowed nobody 0 _ _ _ (fun _ _ => True)).
  - eapply serves_weak; [apply (keepsTo_snapshotNew (fun _ => True) 0), frame_none|done|by intros [x|e]].
  - intros _. apply loops_pullFrom.
Qed.

(** ** The rest of the work

    [quiet F m]: [m] keeps [F], and leaves the server's items alone. *)
Definition calm (F : EngineWorld -> Prop) : Prop :=
  steadfast F /\ forall w e, metaOf "cursor" e = cursorOf w -> F w -> F (with_engine e w).

Lemma calm_true : calm (fun _ => True).
Proof. split; [apply steadfast_const|done]. Qed.
Lemma calm_saved : calm saved.
Proof. split; [apply steadfast_saved|]. unfold saved. intros w e E. cbn [with_engine ew_engine]. by rewrite E. Qed.

Section Quiet.
Context (F : EngineWorld -> Prop) (HF : calm F).

Definition quiet {X} (m : Loop X) : Prop := loops F m (fun _ => F).

Lemma quiet_ret {X} (x : X) : quiet (mret x).
Proof. by apply serves_ret. Qed.
Lemma quiet_throw {X} e : quiet (throw e : Loop X).
Proof. by apply serves_throw. Qed.
Lemma quiet_bind {X Y} (m : Loop X) (f : X -> Loop Y) :
  quiet m -> (forall x, quiet (f x)) -> quiet (m ≫= f).
Proof.
  intros Hm Hf. apply (serves_bind performs elsewhere isFine allowed nobody 0 _ _ _ (fun _ => F)); [|done].
  eapply serves_post; [exact Hm|]. by intros [x|e].
Qed.
Lemma quiet_tried {X} (m : Loop X) : quiet m -> quiet (tried m).
Proof. intros Hm. eapply loops_tried; [exact Hm|]. done. Qed.
Lemma quiet_forEach {X} (l : list X) f : (forall x, quiet (f x)) -> quiet (forEach l f).
Proof.
  intros Hf. apply serves_forEach; [|by intros w _ ?]. intros x _.
  eapply serves_post; [apply Hf|]. by intros [[]|e].
Qed.
Lemma quiet_settle {X} (m : Loop (result LoopError X)) : quiet m -> quiet (settle m).
Proof. intros Hm. apply serves_settle. eapply serves_post; [exact Hm|]. by intros [[x|e]|e]. Qed.
Lemma quiet_see {X} (f : Engine -> X) : quiet (see f).
Proof. apply loops_see; [auto|]. intros _. apply HF. Qed.

Lemma quiet_change f :
  (forall e, drawn (fun _ => False) (en_tree e) (en_tree (f e))) -> quiet (change f).
Proof.
  intros Hd. apply loops_here; [|intros _; apply HF]. intros w Hi Hw. cbn [fst snd].
  split; [by apply isFine_same|]. apply HF; [|done]. apply (dr_meta _ _ _ (Hd (ew_engine w))).
Qed.

(** Calls that leave the world as it is. *)
Lemma quiet_call e :
  (forall w a w', performs 0 w e a w' -> w' = w) -> (forall w, isFine w -> allowed 0 w e) ->
  quiet (ask e : Loop (LoopAnswer e)).
Proof.
  intros Hp Ha. apply loops_plain; [auto|apply HF|]. intros w a w' _ Hw Hperf. by apply Hp in Hperf as ->.
Qed.
End Quiet.

Lemma quiet_runPair pair config configured full :
  quiet saved (ask (runPair pair config configured full) : Loop (result LoopError PairResult * Full)).
Proof.
  apply (loops_plain (runPair pair config configured full)); [done|apply steadfast_saved|].
  intros w a w' Hi Hw Hp. destruct (pairWorks_all _ _ _ _ Hp Hi Hw) as [_ E]. unfold saved. by rewrite E.
Qed.

(** Changes of what is shown, of flags and timers. *)
Lemma drawn_shown P f e : drawn P (en_tree e) (en_tree (set_shown f e)).
Proof. apply drawn_refl. Qed.
Lemma drawn_request P delay e : drawn P (en_tree e) (en_tree (request delay e)).
Proof. unfold request. case_match; apply drawn_refl. Qed.
Lemma drawn_inStore P f e : calmStore f -> drawn P (en_tree e) (en_tree (set_tree (onTreeStore f) e)).
Proof. apply drawn_store. Qed.
End Promises.

Ltac quiet_tree :=
  intros ?; cbv beta;
  repeat first
    [ apply drawn_refl | apply drawn_shown | apply drawn_request
    | case_match
    | eapply drawn_trans; [|apply drawn_request]
    | apply drawn_inStore; (by apply calm_clearPair || by apply calm_forget || by apply calm_setMeta || done) ].

Ltac quiet_step :=
  lazymatch goal with
  | |- quiet _ _ _ (mret _) => apply quiet_ret
  | |- quiet _ _ _ (throw _) => apply quiet_throw
  | |- quiet _ _ _ (_ ≫= _) => apply quiet_bind; [|intros ?]
  | |- quiet _ _ _ (tried _) => apply quiet_tried
  | |- quiet _ _ _ (settle _) => apply quiet_settle
  | |- quiet _ _ _ (forEach _ _) => apply quiet_forEach; intros ?
  | |- quiet _ _ _ (see _) => apply quiet_see
  | |- quiet _ _ _ (match _ with _ => _ end) => case_match
  end.

Section Engine.
Context `{Platform} (platform : NodePlatform) (turns : nat).
Context (owner : string) (chosen : gset string).

#[local] Notation isFine := (engineInv owner chosen).
#[local] Notation performs := (performsSaved owner chosen).
#[local] Notation elsewhere := (elsewhere owner chosen).
#[local] Notation allowed := (allowed owner chosen).
#[local] Notation quiet F m := (quiet owner chosen F m).
#[local] Notation loops A m Q := (serves performs elsewhere isFine allowed nobody 0 A m Q).

Lemma quiet_recordFailure F : calm owner chosen F -> quiet F recordFailure.
Proof.
  intros HF. unfold recordFailure. repeat quiet_step; try done.
  - apply (quiet_call _ _ _ HF (askVersion _)); [by intros w a w'|done].
  - apply quiet_change; [done|quiet_tree].
Qed.

Lemma quiet_passPairs config configured pairs so :
  quiet saved (passPairs config configured pairs so).
Proof.
  pose proof (calm_saved owner chosen) as HF.
  revert so. induction pairs as [|pair pairs IH]; intros so; cbn [passPairs]; [apply quiet_ret|].
  repeat first [apply quiet_runPair | by apply quiet_recordFailure | apply IH
    | apply quiet_change; [done|by quiet_tree] | quiet_step | done].
Qed.

Lemma quiet_syncAll config configured : quiet saved (syncAll config configured).
Proof.
  pose proof (calm_saved owner chosen) as HF. unfold syncAll.
  repeat first [apply quiet_passPairs | apply quiet_change; [done|by quiet_tree]
    | apply (quiet_call _ _ _ HF askNow); [by intros w a w'|done] | quiet_step | done].
Qed.

Lemma loops_passBody config configured :
  loops hasConfig (passBody turns config configured) (fun _ _ => True).
Proof.
  apply (serves_bind performs elsewhere isFine allowed nobody 0 _ _ _
    (fun pulled w => match pulled with Ok _ => saved w | Throw _ => True end)).
  { eapply loops_tried; [apply loops_pull|]. by intros [x|e]. }
  intros [_|e]; [|by apply serves_ret].
  eapply serves_post; [apply quiet_syncAll|done].
Qed.

Lemma drawn_signOut P e : drawn P (en_tree e) (en_tree (signOut e)).
Proof. unfold signOut. case_match; apply drawn_refl. Qed.
Lemma drawn_askAgain P a b e : drawn P (en_tree e) (en_tree (askAgain a b e)).
Proof. unfold askAgain, request. case_match; apply drawn_refl. Qed.

Lemma loops_pass : loops (fun _ => True) (pass turns) (fun _ _ => True).
Proof.
  pose proof (calm_true owner chosen) as HF.
  apply (serves_bind performs elsewhere isFine allowed nobody 0 _ _ _
    (fun state w => state.1.1 <> None -> hasConfig w)).
  { apply loops_see; [by intros w _ _ ?|]. intros [[config configured] off].
    intros w w' Hi Hl Hw Hn. by apply (steadfast_hasConfig owner chosen w w'), Hw. }
  intros [[[config|] configured] off]; [|by apply serves_ret].
  destruct (off || cg_paused config); [by apply serves_ret|].
  apply (serves_bind performs elsewhere isFine allowed nobody 0 _ _ _ (fun _ => hasConfig)).
  { apply loops_here; [|intros ?; apply steadfast_hasConfig]. intros w Hi Hw. split.
    - apply isFine_same; [done|apply drawn_refl].
    - by apply Hw. }
  intros _.
  apply (serves_bind performs elsewhere isFine allowed nobody 0 _ _ _ (fun _ _ => True)).
  { eapply serves_post; [apply loops_passBody|]. by intros [x|e]. }
  intros body.
  repeat first [by apply (quiet_recordFailure (fun _ => True))
    | apply (quiet_change _ _ (fun _ => True)); [done|intros ?; first [apply drawn_signOut|apply drawn_askAgain|apply drawn_refl]]
    | apply (quiet_bind _ _ (fun _ => True)); [|intros ?] | apply (quiet_see _ _ (fun _ => True))
    | apply (quiet_ret _ _ (fun _ => True)) | case_match | done].
Qed.

(** Everything the engine may do. *)
Lemma loops_exclusive work :
  loops (fun _ => True) (exclusive platform turns work) (fun _ _ => True).
Proof.
  pose proof (calm_true owner chosen) as HF.
  apply (quiet_bind _ _ (fun _ => True)); [by apply quiet_see|]. intros stopped.
  destruct stopped; [apply quiet_throw|]. destruct work as [|configured config|pairId choice|id choice].
  - apply loops_pass.
  - apply (quiet_change _ _ (fun _ => True)); [done|quiet_tree].
  - apply (quiet_change _ _ (fun _ => True)); [done|]. quiet_tree.
  - change (quiet (fun _ => True) (applyConflictChoice platform id choice)). unfold applyConflictChoice.
    repeat first [apply quiet_change; [done|quiet_tree]
      | apply (quiet_call _ _ _ HF (askExists _ _)); [by intros w a w'|done]
      | apply (quiet_call _ _ _ HF (askTrash _ _)); [by intros w a w'|done]
      | apply (quiet_call _ _ _ HF (askKeepMine _ _ _)); [by intros w a w'|done] | quiet_step | done].
Qed.

Lemma loops_shutDown cancelUploads :
  loops (fun _ => True) (shutDown cancelUploads) (fun _ _ => True).
Proof.
  pose proof (calm_true owner chosen) as HF.
  change (quiet (fun _ => True) (shutDown cancelUploads)). unfold shutDown, cancelPending.
  repeat first [apply (quiet_call _ _ _ HF (askCancelUpload _)); [by intros w a w'|done]
    | quiet_step | done].
Qed.

(** ** The system *)

#[local] Notation follows A p := (follows performs elsewhere isFine allowed nobody 0 A p).

Lemma program_follows p : engineProgram platform turns p -> follows (fun _ => True) p.
Proof.
  intros [[work ->]|[cancelUploads ->]]; unfold start; [apply loops_exclusive|apply loops_shutDown];
    by intros [[]|e].
Qed.

Lemma effect_keeps w e a w' :
  isFine w -> allowed 0 w e -> performs 0 w e a w' -> isFine w'.
Proof.
  intros Hi Ha Hp. destruct e; cbn in *;
    first [by subst | by destruct Hp as [-> _] | by destruct Hp as [_ ->]
      | by apply (pairWorks_all _ _ _ _ Hp Hi Ha) | done].
Qed.

Definition soundEngine (s : EngineSystem) : Prop :=
  isFine (es_world s) /\
  match es_running s with
  | None => True
  | Some p => exists A, Stable elsewhere isFine nobody 0 A /\ A (es_world s) /\ follows A p
  end.

Lemma lasting_true : Stable elsewhere isFine nobody 0 (fun _ : EngineWorld => True).
Proof. by intros w w' _ _ _ _. Qed.

(** The steps but those that read the feed without a saved cursor. *)
Definition savedStep (s s' : EngineSystem) : Prop :=
  exists answer, engine_step platform turns owner chosen answer s s' /\ ~ readsFromStart answer s.

Lemma soundEngine_step s s' :
  soundEngine s -> savedStep s s' -> soundEngine s'.
Proof.
  intros [Hi Hp] (answer & Hstep & Hread). destruct Hstep as [w e k a w' Hperf|w p Hprog|w thrown|w p w1 e Hw|w p w' He];
    cbn in *.
  - eapply performs_saved in Hperf; [|exact Hread].
    destruct Hp as (A & HA & Hw & Ha & Hk).
    pose proof (effect_keeps _ _ _ _ Hi (Ha _ Hi Hw) Hperf) as Hi'.
    split; [done|]. destruct (Hk a) as (B & HB & HAB & Hf). exists B. eauto.
  - split; [done|]. exists (fun _ => True). split; [apply lasting_true|].
    split; [done|by apply program_follows].
  - done.
  - split; [|done]. apply restarted_keeps. destruct Hw as [->|[Hwait Hr]]; [done|].
    destruct p as [[| [] k|]|]; try done. destruct Hp as (A & _ & HAw & Ha & _).
    by apply (pairWorks_all _ _ _ _ Hr Hi), (Ha _ Hi HAw).
  - pose proof (elsewhere_keeps _ _ _ _ Hi He) as Hi'. split; [done|].
    destruct p as [p|]; [|done]. destruct Hp as (A & HA & Hw & Hf). exists A.
    split; [done|]. split; [|done]. apply (HA w w'); [done..|by right|done].
Qed.

Lemma soundEngine_steps s s' :
  soundEngine s -> rtc savedStep s s' -> soundEngine s'.
Proof. intros Hs Hr. induction Hr; eauto using soundEngine_step. Qed.

(** The engine as it is installed: nothing is saved yet. *)
Record firstStart (s : EngineSystem) : Prop := {
  fs_running : es_running s = None;
  fs_server : serverOk owner (es_world s);
  fs_tree : treeOf (es_world s) = newRemoteTree (en_store (ew_engine (es_world s))) ∅;
  fs_store : st_remote (en_store (ew_engine (es_world s))) = ∅;
  fs_cursor : cursorOf (es_world s) = None
}.

Lemma firstStart_sound s : firstStart s -> soundEngine s.
Proof.
  intros [Hr Hs Ht Hst Hc]. split; [|by rewrite Hr].
  destruct (mirror_new (en_store (ew_engine (es_world s))) ∅) as (Hm & Hi & Hro & _); [by rewrite Hst|].
  rewrite <- Ht in Hm, Hi, Hro. split; [done|]. split; [done|]. split; [by rewrite Hro|].
  unfold cursorFresh. by rewrite Hc, Hi, Hst.
Qed.

(** C15: as long as no feed is read without a saved cursor, whatever the server takes
    in (stamped in the order of its feed) and prunes, whichever calls fail, however
    settings change and whenever the process dies and starts again, the saved
    cursor is a place the feed has reached, the saved rows are the tree's items,
    and every item the tree holds that is not a folder ever chosen for a pair is at
    least as new as each change of it up to that cursor, and newer than a change
    that removed it. *)
Theorem tree_is_never_older_than_the_cursor s0 s cursor :
  firstStart s0 -> rtc savedStep s0 s ->
  cursorOf (es_world s) = Some cursor ->
  exists n, bigIntOf cursor = Some n /\ n <= currentStorageChangeCursor (ew_db (es_world s)) /\
    st_remote (en_store (ew_engine (es_world s))) = rt_items (treeOf (es_world s)) /\
    forall id item c,
      rt_items (treeOf (es_world s)) !! id = Some item -> id ∉ chosen ->
      c ∈ ew_past (es_world s) -> sc_ownerUserId c = owner -> sc_itemId c = id -> sc_seq c <= n ->
      if bool_decide (sc_kind c ∈ [trashed_change; deleted_change])
      then sc_storageRevision c < ri_rev item else sc_storageRevision c <= ri_rev item.
Proof.
  intros H0 Hr Hcur. apply firstStart_sound in H0.
  destruct (soundEngine_steps _ _ H0 Hr) as ((Hs & [_ Hm] & _ & Hc) & _).
  unfold cursorFresh in Hc. rewrite Hcur in Hc. destruct Hc as (n & Hn & Hle & Hf).
  exists n. split; [done|]. split; [done|]. split; [exact Hm|].
  intros id item c Hi Hch Hc Ho Hid Hseq. by apply (Hf id item Hi Hch c Hc (conj Ho Hid) Hseq).
Qed.
End Engine.

(** ** A pull catches up

    On a server that answers every call and whose rows stay as they are, a pull
    ends, with the cursor at the head of the feed. *)

Section CatchesUp.
Context (owner : string) (db : DB) (Hfeed : feedOk db).

#[local] Notation LoopProc := (@Proc LoopEffect LoopError LoopAnswer).

Definition replies (e : Engine) (effect : LoopEffect) : LoopAnswer effect -> Engine -> Prop :=
  match effect with
  | askSnapshot folderId cursor => fun a e' => e' = e /\ a = snapshotRoute owner folderId cursor 5000 db
  | askChanges after => fun a e' =>
      e' = e /\ exists n, bigIntOf after = Some n /\ a = changesRoute owner n 1000 db
  | @here X f => fun a e' => a = (f e).1 /\ e' = (f e).2
  | _ => fun _ _ => False
  end.

Inductive quiet_step : Engine * LoopProc -> Engine * LoopProc -> Prop :=
| quiet_goes e effect k a e' : replies e effect a e' -> quiet_step (e, await effect k) (e', k a).

(** Run in [e], [m] ends with [r] and leaves [e']. *)
Definition gives {X} (e : Engine) (m : Loop X) (r : result LoopError X) (e' : Engine) : Prop :=
  forall k, rtc quiet_step (e, m k) (e', k r).

Lemma gives_ret {X} e (x : X) : gives e (mret x) (Ok x) e.
Proof. by intros k. Qed.
Lemma gives_bind {X Y} e (m : Loop X) (f : X -> Loop Y) x e1 r e2 :
  gives e m (Ok x) e1 -> gives e1 (f x) r e2 -> gives e (m ≫= f) r e2.
Proof. intros Hm Hf k. etransitivity; [apply Hm|apply Hf]. Qed.
Lemma gives_throws {X Y} e (m : Loop X) (f : X -> Loop Y) thrown e1 :
  gives e m (Throw thrown) e1 -> gives e (m ≫= f) (Throw thrown) e1.
Proof. intros Hm k. apply Hm. Qed.
Lemma gives_caught {X} e (m : Loop X) h thrown e1 r e2 :
  gives e m (Throw thrown) e1 -> gives e1 (h thrown) r e2 -> gives e (catch m h) r e2.
Proof. intros Hm Hh k. etransitivity; [apply Hm|apply Hh]. Qed.
Lemma gives_uncaught {X} e (m : Loop X) h x e1 :
  gives e m (Ok x) e1 -> gives e (catch m h) (Ok x) e1.
Proof.
  intros Hm k.
  exact (Hm (fun r => match r with Ok a => k (Ok a) | Throw thrown => h thrown k end)).
Qed.
Lemma gives_ask e effect a e' :
  replies e effect a e' -> gives e (ask effect : Loop (LoopAnswer effect)) (Ok a) e'.
Proof. intros Hr k. apply rtc_once. exact (quiet_goes e effect (fun a => k (Ok a)) a e' Hr). Qed.
Lemma gives_settle {X} e (m : Loop (result LoopError X)) r e' :
  gives e m (Ok r) e' -> gives e (settle m) r e'.
Proof. intros Hm k. apply Hm. Qed.
Lemma gives_see {X} e (f : Engine -> X) : gives e (see f) (Ok (f e)) e.
Proof. by apply (gives_ask e (here _)). Qed.
Lemma gives_change e (f : Engine -> Engine) : gives e (change f) (Ok tt) (f e).
Proof. by apply (gives_ask e (here _)). Qed.
Lemma gives_tried {X} e (m : Loop X) r e' : gives e m r e' -> gives e (tried m) (Ok r) e'.
Proof.
  intros Hm. destruct r as [x|thrown].
  - apply gives_uncaught. eapply gives_bind; [exact Hm|apply gives_ret].
  - eapply gives_caught; [by apply gives_throws|apply gives_ret].
Qed.
Lemma gives_forEach {X} (I : Engine -> Prop) (l : list X) f e :
  I e -> (forall x e, I e -> exists e', I e' /\ gives e (f x) (Ok tt) e') ->
  exists e', I e' /\ gives e (forEach l f) (Ok tt) e'.
Proof.
  intros He Hf. revert e He. induction l as [|x l IH]; intros e He; cbn.
  - exists e. split; [done|apply gives_ret].
  - destruct (Hf x e He) as (e1 & He1 & H1). destruct (IH e1 He1) as (e2 & He2 & H2).
    exists e2. split; [done|]. by eapply gives_bind.
Qed.

(** *** Snapshots end *)

Lemma placeBefore_irrefl a : placeBefore a a = false.
Proof.
  unfold placeBefore. pose proof (String.compare_antisym a.2 a.2) as E.
  by destruct (String.compare a.2 a.2), a.1.
Qed.

(** The listed items after a place. *)
Definition itemsAfter (root : string) (after : option (EntityType * string)) :
    list StorageSnapshotItem :=
  let items := merge_sort notAfter (liveItems owner root db) in
  match after with
  | Some (type, id) => filter (fun item => placeBefore (placeOf type id) (placed item) = true) items
  | None => items
  end.

Lemma elem_sum_list x l : x ∈ l -> (x <= sum_list l)%nat.
Proof. induction 1; cbn; unfold id in *; lia. Qed.

Definition enoughTurns : nat :=
  S (S (length (db_changes db)
        + sum_list ((fun e : (EntityType * string) * Row => length (liveItems owner e.1.2 db))
                      <$> map_to_list (db_rows db)))).

Lemma snapshotRoot_row folderId root :
  snapshotRoot owner folderId db = Some root ->
  exists type row, db_rows db !! (type, root) = Some row.
Proof.
  unfold snapshotRoot. destruct folderId as [id|]; intros Hr.
  - apply bind_Some in Hr as (row & Hrow & Hr). destruct (_ && _); [|done]. injection Hr as <-. eauto.
  - apply head_Some_elem_of, list_elem_of_omap in Hr as ([[type id] row] & Hin & Hr).
    destruct (_ && _); [|done]. injection Hr as <-. apply elem_of_map_to_list in Hin. eauto.
Qed.

Lemma liveItems_bound folderId root :
  snapshotRoot owner folderId db = Some root -> (length (liveItems owner root db) < enoughTurns)%nat.
Proof.
  intros (type & row & Hrow)%snapshotRoot_row. unfold enoughTurns.
  apply elem_of_map_to_list in Hrow. apply (list_elem_of_fmap_2
    (fun e : (EntityType * string) * Row => length (liveItems owner e.1.2 db))) in Hrow.
  apply elem_sum_list in Hrow. cbn [fst snd] in Hrow. lia.
Qed.

Lemma placeBefore_trans a b c :
  placeBefore a b = true -> placeBefore b c = true -> placeBefore a c = true.
Proof.
  unfold placeBefore. destruct a as [[] a], b as [[] b], c as [[] c]; cbn; try done;
    intros Hab%bool_decide_eq_true Hbc%bool_decide_eq_true; apply bool_decide_eq_true_2;
    exact (OrdersEx.String_as_OT.lt_strorder.(StrictOrder_Transitive) a b c Hab Hbc).
Qed.

(** Going on after an item leaves it and what came before. *)
Lemma itemsAfter_shrinks root after item :
  item ∈ itemsAfter root after ->
  (length (itemsAfter root (Some (ss_type item, ss_id item))) < length (itemsAfter root after))%nat.
Proof.
  intros Hin. set (items := merge_sort notAfter (liveItems owner root db)).
  assert (E : itemsAfter root (Some (ss_type item, ss_id item))
    = filter (fun it => placeBefore (placed item) (placed it) = true) (itemsAfter root after)).
  { unfold itemsAfter. fold items. destruct after as [[type id]|]; [|done].
    rewrite list_filter_filter. apply list_filter_iff. intros it.
    split; [|by intros [? _]]. intros Hi. split; [done|].
    apply list_elem_of_filter in Hin as [Ha _]. by eapply placeBefore_trans. }
  rewrite E. apply (length_filter_lt _ _ item); [done|]. by rewrite placeBefore_irrefl.
Qed.

Lemma placeOf_keyOf item :
  ss_type item = et_file \/ ss_type item = et_folder ->
  truthy (Some (keyOf (ss_type item) (ss_id item))) = true /\
  placeOfCursor (keyOf (ss_type item) (ss_id item)) = (ss_type item, ss_id item).
Proof.
  intros [-> | ->]; unfold truthy, keyOf; cbn; (split; [by rewrite bool_decide_eq_false_2|]).
  - exact (f_equal (Datatypes.pair et_file) (sliceFrom_app "file:" (ss_id item))).
  - unfold placeOfCursor.
    assert (E : String.prefix "folder:" ("folder" +:+ ":" +:+ ss_id item) = true)
      by (cbn; by destruct (ss_id item)).
    rewrite E. exact (f_equal (Datatypes.pair et_folder) (sliceFrom_app "folder:" (ss_id item))).
Qed.

Lemma elem_of_itemsAfter root after item :
  item ∈ itemsAfter root after -> item ∈ liveItems owner root db.
Proof.
  rewrite <- (merge_sort_Permutation notAfter (liveItems owner root db)). unfold itemsAfter.
  destruct after as [[type id]|]; [|done]. by intros [_ ?]%list_elem_of_filter.
Qed.

Definition headCursor : string := numberString (currentStorageChangeCursor db).

(** The pages of a live folder from any place on. *)
Lemma gives_pages e folderId root cursor changeCursor items left :
  snapshotRoot owner (if bool_decide (folderId = "") then None else Some folderId) db = Some root ->
  let after := if truthy cursor then placeOfCursor <$> cursor else None in
  (length (itemsAfter root after) < left)%nat ->
  exists taken, gives e (snapshotFrom left folderId cursor changeCursor items)
    (Ok (taken, nullish changeCursor headCursor)) e.
Proof.
  intros Hroot. cbv zeta. revert cursor changeCursor items.
  induction left as [|left IH]; intros cursor changeCursor items Hlen; [lia|]. cbn [snapshotFrom].
  set (after := if truthy cursor then _ else _) in *.
  set (rows := itemsAfter root after) in *.
  assert (Er : snapshotRoute owner folderId cursor 5000 db = Ok
    {| np_items := jsonItem <$> take 5000 rows;
       np_next := if bool_decide (5000 < length rows)%nat
                  then (fun item => keyOf (ss_type item) (ss_id item)) <$> last (take 5000 rows)
                  else None;
       np_changeCursor := headCursor |}).
  { unfold snapshotRoute, readStorageSnapshotPage. rewrite Hroot. cbn [mbind option_bind].
    fold after. unfold rows, itemsAfter. by destruct after as [[type id]|]. }
  assert (Hask : gives e (settle (ask (askSnapshot folderId cursor))) (Ok
    {| np_items := jsonItem <$> take 5000 rows;
       np_next := if bool_decide (5000 < length rows)%nat
                  then (fun item => keyOf (ss_type item) (ss_id item)) <$> last (take 5000 rows)
                  else None;
       np_changeCursor := headCursor |}) e).
  { apply gives_settle, (gives_ask e (askSnapshot folderId cursor)). by split. }
  case_bool_decide as Hmore.
  - destruct (last (take 5000 rows)) as [item|] eqn:El.
    + assert (Hin : item ∈ rows).
      { apply last_Some_elem_of, elem_of_take in El as (i & El & _). by eapply list_elem_of_lookup_2. }
      destruct (placeOf_keyOf item) as [Ht Hp].
      { by apply (liveItems_live owner root db), (elem_of_itemsAfter root after). }
      destruct (IH (Some (keyOf (ss_type item) (ss_id item)))
        (Some (nullish changeCursor headCursor)) (items ++ (fromSnapshot <$> (jsonItem <$> take 5000 rows))))
        as [taken Hgo].
      { rewrite Ht. cbn [fmap option_fmap option_map]. rewrite Hp.
        pose proof (itemsAfter_shrinks root after item Hin) as Hless.
        change (itemsAfter root after) with rows in Hless. lia. }
      exists taken. eapply gives_bind; [exact Hask|]. cbn [np_next np_changeCursor np_items fmap option_fmap option_map].
      rewrite Ht. exact Hgo.
    + exfalso. apply last_None, (f_equal length) in El. rewrite length_take in El. cbn [length] in El. lia.
  - eexists. eapply gives_bind; [exact Hask|]. apply gives_ret.
Qed.

Context (turns : nat) (Hturns : (enoughTurns <= turns)%nat).

Lemma gives_found e folderId root :
  snapshotRoot owner (if bool_decide (folderId = "") then None else Some folderId) db = Some root ->
  exists taken, gives e (snapshot turns folderId) (Ok (taken, headCursor)) e.
Proof.
  intros Er. apply (gives_pages e folderId root None None []); [done|].
  change (length (merge_sort notAfter (liveItems owner root db)) < turns)%nat.
  rewrite (Permutation_length (merge_sort_Permutation notAfter (liveItems owner root db))).
  pose proof (liveItems_bound _ _ Er). lia.
Qed.

Lemma gives_missing e folderId :
  snapshotRoot owner (if bool_decide (folderId = "") then None else Some folderId) db = None ->
  exists thrown, hasStatus 404 thrown = true /\ gives e (snapshot turns folderId) (Throw thrown) e.
Proof.
  intros Er. exists (httpError 404 "FOLDER_NOT_FOUND" "Folder not found."). split; [done|].
  unfold snapshot. pose proof Hturns as Ht. unfold enoughTurns in Ht. destruct turns as [|left]; [lia|].
  cbn [snapshotFrom]. apply gives_throws, gives_settle, (gives_ask e (askSnapshot folderId None)).
  split; [done|]. unfold snapshotRoute, readStorageSnapshotPage. by rewrite Er.
Qed.

Lemma gives_snapshot e folderId :
  (exists taken, gives e (snapshot turns folderId) (Ok (taken, headCursor)) e) \/
  (exists thrown, hasStatus 404 thrown = true /\ gives e (snapshot turns folderId) (Throw thrown) e).
Proof.
  destruct (snapshotRoot owner (if bool_decide (folderId = "") then None else Some folderId) db)
    as [root|] eqn:Er; [left; by eapply gives_found|right; by apply gives_missing].
Qed.

(** *** The pull ends *)

Lemma headCursor_value : bigIntOf headCursor = Some (currentStorageChangeCursor db).
Proof. apply bigIntOf_numberString. by apply head_nonneg. Qed.

(** Where the next page is read from; and that the server still takes it. *)
Definition readsFrom (n : Z) (e : Engine) : Prop :=
  bigIntOf (nullish (metaOf "cursor" e) "0") = Some n.
Definition parses (e : Engine) : Prop := exists n, readsFrom n e.
Definition live (e : Engine) : Prop := exists n, readsFrom n e /\ cursorOk db n.

Lemma head_ok : cursorOk db (currentStorageChangeCursor db).
Proof.
  split; [done|]. intros oldest Ho. unfold oldestSeq in Ho.
  destruct (db_changes db) as [|c l] eqn:E; [done|]. injection Ho as <-.
  assert (Hin : c ∈ db_changes db) by (rewrite E; left).
  pose proof (head_last db c Hfeed Hin). lia.
Qed.

Lemma readsFrom_head e : metaOf "cursor" e = Some headCursor -> readsFrom (currentStorageChangeCursor db) e.
Proof. unfold readsFrom. intros ->. exact headCursor_value. Qed.

(** What only depends on the cursor, and what a snapshot leaves true. *)
Record kept (I : Engine -> Prop) : Prop := {
  kp_cursor e e' : metaOf "cursor" e' = metaOf "cursor" e -> I e -> I e';
  kp_parses e : I e -> parses e;
  kp_head e : metaOf "cursor" e = Some headCursor -> I e
}.

Lemma kept_parses : kept parses.
Proof.
  constructor; [|done|intros e He; eexists; by apply readsFrom_head].
  unfold parses, readsFrom. by intros e e' ->.
Qed.
Lemma kept_live : kept live.
Proof.
  constructor; [unfold live, readsFrom; by intros e e' ->|by intros e (n & Hn & _); exists n|].
  intros e He. eexists. split; [by apply readsFrom_head|exact head_ok].
Qed.

Lemma kept_drawn I P e e' : kept I -> drawn P (en_tree e) (en_tree e') -> I e -> I e'.
Proof. intros HI Hd. apply (kp_cursor I HI). apply (dr_meta _ _ _ Hd). Qed.

(** A snapshot saves the head as the cursor, or keeps the cursor there was. *)
Lemma takeSnapshot_cursor pairId folderId items e :
  parses e ->
  let r := takeSnapshot pairId folderId items headCursor e in
  r.1 = Ok tt /\
  (metaOf "cursor" r.2 = Some headCursor \/
   (metaOf "cursor" e <> None /\ metaOf "cursor" r.2 = metaOf "cursor" e)).
Proof.
  intros [n Hn]. unfold takeSnapshot, lowerCursor.
  set (e1 := set_tree (replaceUnder folderId items) e).
  assert (E1 : metaOf "cursor" e1 = metaOf "cursor" e)
    by apply (dr_meta _ _ _ (drawn_replaceUnder folderId items (en_tree e))).
  assert (Hrest : forall e2, metaOf "cursor"
    (saveMeta ("gone:" +:+ pairId) None (saveMeta ("ready:" +:+ pairId) (Some "1") e2)) = metaOf "cursor" e2).
  { intros e2. apply (dr_meta (fun _ => False) _ _). eapply drawn_trans; [|by apply drawn_saveMeta].
    by apply drawn_saveMeta. }
  unfold readsFrom in Hn. rewrite <- E1 in *. destruct (metaOf "cursor" e1) as [c|] eqn:Ec.
  - cbn in Hn. rewrite headCursor_value, Hn. cbv zeta. cbn [fst snd]. split; [done|]. rewrite Hrest.
    case_bool_decide; [left; apply saveMeta_cursor|by right].
  - cbv zeta. cbn [fst snd]. split; [done|]. left. rewrite Hrest. apply saveMeta_cursor.
Qed.

Lemma takeSnapshot_kept I pairId folderId items e :
  kept I -> I e ->
  let r := takeSnapshot pairId folderId items headCursor e in r.1 = Ok tt /\ I r.2.
Proof.
  intros HI He. destruct (takeSnapshot_cursor pairId folderId items e) as [Hok [Hc|[_ Hc]]];
    [by apply (kp_parses I HI)|split; [done|]..]; [by apply (kp_head I HI)|by apply (kp_cursor I HI e)].
Qed.

Lemma gives_snapshotPair I pair e :
  kept I -> I e -> exists e', I e' /\ gives e (snapshotPair turns pair) (Ok tt) e'.
Proof.
  intros HI He. unfold snapshotPair.
  destruct (gives_snapshot e (pr_remoteFolderId pair)) as [[items Hs]|(thrown & H404 & Hs)].
  - destruct (takeSnapshot_kept I (pr_id pair) (pr_remoteFolderId pair) items e HI He) as [Hok Hl].
    eexists. split; [exact Hl|]. apply gives_uncaught. eapply gives_bind; [exact Hs|].
    apply gives_settle. rewrite <- Hok. by apply (gives_ask e (here _)).
  - eexists. split; [|eapply gives_caught; [by apply gives_throws|rewrite H404; apply gives_change]].
    eapply (kept_drawn I (fun _ => False)); [done|by apply drawn_saveMeta|done].
Qed.

Lemma gives_snapshotNew I pairs e :
  kept I -> I e -> exists e', I e' /\ gives e (snapshotNew turns pairs) (Ok tt) e'.
Proof.
  intros HI He. apply (gives_forEach I); [done|]. intros pair e1 H1.
  destruct (truthy (metaOf ("ready:" +:+ pr_id pair) e1)) eqn:Et.
  - exists e1. split; [done|]. eapply gives_bind; [apply gives_see|]. rewrite Et. apply gives_ret.
  - destruct (gives_snapshotPair I pair e1 HI H1) as (e2 & H2 & Hg). exists e2. split; [done|].
    eapply gives_bind; [apply gives_see|]. by rewrite Et.
Qed.

Lemma gives_reveal I folderId e :
  kept I -> I e -> exists e', I e' /\ gives e (reveal turns folderId) (Ok tt) e'.
Proof.
  intros HI He. unfold reveal.
  destruct (gives_snapshot e folderId) as [[items Hs]|(thrown & H404 & Hs)].
  - eexists. split; [|apply gives_uncaught; eapply gives_bind; [exact Hs|apply gives_change]].
    eapply (kept_drawn I (fun item => item ∈ items)); [done|apply drawn_addUnder|done].
  - exists e. split; [done|]. eapply gives_caught; [by apply gives_throws|]. rewrite H404. apply gives_ret.
Qed.

(** *** After a 410 *)

(** The server still has the folder. *)
Definition folderThere (folderId : string) : Prop :=
  snapshotRoot owner (if bool_decide (folderId = "") then None else Some folderId) db <> None.

Definition noneOrHead (e : Engine) : Prop :=
  metaOf "cursor" e = None \/ metaOf "cursor" e = Some headCursor.

Lemma noneOrHead_parses e : noneOrHead e -> parses e.
Proof.
  intros [E|E]; [exists 0; unfold readsFrom; by rewrite E|eexists; by apply readsFrom_head].
Qed.

(** A snapshot of a folder that is there saves the head. *)
Lemma gives_snapshotHead pair e :
  noneOrHead e -> exists e', noneOrHead e' /\
    (metaOf "cursor" e = Some headCursor \/ folderThere (pr_remoteFolderId pair) ->
     metaOf "cursor" e' = Some headCursor) /\
    gives e (snapshotPair turns pair) (Ok tt) e'.
Proof.
  intros He. unfold snapshotPair.
  destruct (snapshotRoot owner (if bool_decide (pr_remoteFolderId pair = "") then None
    else Some (pr_remoteFolderId pair)) db) as [root|] eqn:Er.
  - destruct (gives_found e (pr_remoteFolderId pair) root Er) as [items Hs].
    destruct (takeSnapshot_cursor (pr_id pair) (pr_remoteFolderId pair) items e) as [Hok Hc];
      [by apply noneOrHead_parses|].
    assert (Hhead : metaOf "cursor" (takeSnapshot (pr_id pair) (pr_remoteFolderId pair) items headCursor e).2
      = Some headCursor) by (destruct He, Hc as [?|[? ?]]; congruence).
    eexists. split; [by right|]. split; [intros _; exact Hhead|]. apply gives_uncaught.
    eapply gives_bind; [exact Hs|]. apply gives_settle. rewrite <- Hok. by apply (gives_ask e (here _)).
  - destruct (gives_missing e (pr_remoteFolderId pair) Er) as (thrown & H404 & Hs).
    assert (E : metaOf "cursor" (saveMeta ("gone:" +:+ pr_id pair) (Some "1") e) = metaOf "cursor" e)
      by (apply (dr_meta (fun _ => False) _ _); by apply drawn_saveMeta).
    eexists. split; [|split; [|eapply gives_caught; [by apply gives_throws|rewrite H404; apply gives_change]]].
    + unfold noneOrHead. by rewrite E.
    + intros [Hh|Hf]; [by rewrite E|by destruct Hf].
Qed.

Lemma gives_snapshotAll pairs e :
  noneOrHead e ->
  metaOf "cursor" e = Some headCursor \/ (exists pair, pair ∈ pairs /\ folderThere (pr_remoteFolderId pair)) ->
  exists e', metaOf "cursor" e' = Some headCursor /\ gives e (forEach pairs (snapshotPair turns)) (Ok tt) e'.
Proof.
  revert e. induction pairs as [|pair pairs IH]; intros e He Hor; cbn [forEach].
  - destruct Hor as [Hh|(pair & Hin & _)]; [|by apply elem_of_nil in Hin].
    exists e. split; [done|apply gives_ret].
  - destruct (gives_snapshotHead pair e He) as (e1 & He1 & Hhead & G1).
    destruct (IH e1 He1) as (e2 & E2 & G2).
    { destruct Hor as [Hh|(p & [->|Hin]%elem_of_cons & Hf)]; [by left; apply Hhead; left|by left; apply Hhead; right|].
      right. by exists p. }
    exists e2. split; [done|]. by eapply gives_bind.
Qed.

Lemma applyPage_drawn pairs changes e :
  drawn (fun _ => True) (en_tree e) (en_tree (applyPage pairs changes e).2).
Proof.
  unfold applyPage.
  assert (Hgo : forall acc, drawn (fun _ => True) (en_tree acc.2)
    (en_tree (foldl (applyOne pairs) acc changes).2)); [|apply (Hgo ([], e))].
  induction changes as [|each changes IH]; intros acc; cbn [foldl]; [apply drawn_refl|].
  eapply drawn_trans; [|apply IH]. unfold applyOne.
  pose proof (drawn_apply each (en_tree (noteChange pairs each acc.2))) as Hd.
  destruct (apply each _) as [tree shown]. cbn [snd set_tree en_tree fst] in *.
  eapply drawn_trans; [|exact Hd]. unfold noteChange.
  repeat case_match; try apply drawn_refl; by apply drawn_saveMeta.
Qed.

(** A page is shorter than what is left, or the last. *)
Lemma page_goes n :
  cursorOk db n ->
  exists pg, readStorageChanges owner n 1000 db = Ok pg /\ 0 <= pg_cursor pg /\
    if pg_hasMore pg
    then cursorOk db (pg_cursor pg) /\
         (length (changesAfter owner (pg_cursor pg) (currentStorageChangeCursor db) db)
          < length (changesAfter owner n (currentStorageChangeCursor db) db))%nat
    else pg_cursor pg = currentStorageChangeCursor db.
Proof.
  intros [Hhead Hold]. pose proof (head_nonneg db Hfeed) as H0. unfold readStorageChanges.
  set (head := currentStorageChangeCursor db) in *. set (rows := changesAfter owner n head db).
  rewrite (bool_decide_eq_false_2 (head < n)) by lia.
  assert (E : match oldestSeq db with
              | Some oldest => bool_decide (n < oldest - 1) | None => false end = false).
  { destruct (oldestSeq db); [|done]. apply bool_decide_eq_false_2. specialize (Hold _ eq_refl). lia. }
  rewrite E. cbn [orb]. rewrite take_take, Nat.min_l, length_take by lia. case_bool_decide as Hmore.
  - destruct (last (take 1000 rows)) as [c|] eqn:El.
    + eexists. split; [done|]. cbn [pg_cursor pg_hasMore].
      pose proof (changesAfter_cursor owner db Hfeed n head 1000 c El) as Hd. fold rows in Hd.
      apply last_Some_elem_of, elem_of_take in El as (i & El%list_elem_of_lookup_2 & _).
      apply list_elem_of_filter in El as [(_ & Hlt & Hle) Hin].
      destruct Hfeed as (_ & Hb & _). rewrite Forall_forall in Hb. specialize (Hb c Hin).
      split; [lia|]. split; [split; [done|]; intros o Ho; specialize (Hold o Ho); lia|].
      rewrite Hd, length_drop. lia.
    + exfalso. apply last_None, (f_equal length) in El. rewrite length_take in El. cbn [length] in El. lia.
  - eexists. split; [done|]. cbn [pg_cursor pg_hasMore]. case_bool_decide; lia.
Qed.

(** A cursor the server does not take is answered 410. *)
Lemma page_expired n :
  ~ cursorOk db n -> readStorageChanges owner n 1000 db = Throw StorageChangesExpiredError.
Proof.
  intros Hn. unfold readStorageChanges.
  destruct (bool_decide (currentStorageChangeCursor db < n)) eqn:E1; [done|].
  apply bool_decide_eq_false_1 in E1.
  destruct (match oldestSeq db with Some _ => _ | None => _ end) eqn:Eo; [done|]. exfalso. apply Hn.
  split; [lia|]. intros oldest Ho. rewrite Ho in Eo. apply bool_decide_eq_false_1 in Eo. lia.
Qed.

Lemma cursorOk_dec n : cursorOk db n \/ ~ cursorOk db n.
Proof.
  unfold cursorOk. destruct (Z.le_gt_cases n (currentStorageChangeCursor db)); [|right; intros []; lia].
  destruct (oldestSeq db) as [o|]; [|by left].
  destruct (Z.le_gt_cases (o - 1) n) as [|Hgt]; [left; by split; [|intros ? [= <-]]|].
  right. intros [_ Ho]. specialize (Ho o eq_refl). lia.
Qed.

Lemma gives_pullFrom n left pairs e :
  readsFrom n e -> cursorOk db n ->
  (length (changesAfter owner n (currentStorageChangeCursor db) db) < left)%nat ->
  exists e', gives e (pullFrom turns left pairs) (Ok tt) e' /\ metaOf "cursor" e' = Some headCursor.
Proof.
  revert n e. induction left as [|left IH]; intros n e Hn Hk Hlen; [lia|]. cbn [pullFrom].
  destruct (page_goes n Hk) as (pg & Er & H0 & Hpg).
  set (page := {| cp_changes := jsonChange <$> pg_changes pg; cp_hasMore := pg_hasMore pg;
                  cp_cursor := numberString (pg_cursor pg) |}).
  set (from := nullish (metaOf "cursor" e) "0").
  assert (Hask : gives e (tried (settle (ask (askChanges from)))) (Ok (Ok page)) e).
  { apply gives_tried, gives_settle, (gives_ask e (askChanges from)). split; [done|].
    exists n. split; [done|]. unfold changesRoute. by rewrite Er. }
  set (after := applyPage pairs (cp_changes page) e).
  assert (H1 : live after.2).
  { eapply (kept_drawn live); [exact kept_live|apply applyPage_drawn|by exists n]. }
  destruct (gives_forEach live after.1 (reveal turns) after.2 H1) as (e2 & H2 & G2).
  { intros folderId e0 He0. apply gives_reveal; [exact kept_live|done]. }
  destruct (gives_snapshotNew live pairs e2 kept_live H2) as (e3 & H3 & G3).
  set (e4 := saveMeta "cursor" (Some (cp_cursor page)) e3).
  assert (Hcur : metaOf "cursor" e4 = Some (cp_cursor page)) by apply saveMeta_cursor.
  assert (Hrest : forall r e', gives e4 (if cp_hasMore page then pullFrom turns left pairs else mret tt) r e' ->
    gives e (pullFrom turns (S left) pairs) r e').
  { intros r e' G. cbn [pullFrom]. eapply gives_bind; [apply gives_see|]. fold from.
    eapply gives_bind; [exact Hask|]. cbv beta iota.
    eapply gives_bind; [by apply (gives_ask e (here (applyPage pairs (cp_changes page))))|].
    eapply gives_bind; [exact G2|]. eapply gives_bind; [exact G3|].
    eapply gives_bind; [apply gives_change|]. exact G. }
  cbn [pullFrom] in Hrest. cbn [page cp_hasMore] in Hrest. destruct (pg_hasMore pg).
  - destruct Hpg as [Hk' Hless].
    destruct (IH (pg_cursor pg) e4) as (e' & G & E); [|done|lia|].
    { unfold readsFrom. rewrite Hcur. by apply bigIntOf_numberString. }
    exists e'. split; [by apply Hrest|done].
  - exists e4. split; [apply Hrest, gives_ret|]. rewrite Hcur. cbn [page cp_cursor]. by rewrite Hpg.
Qed.

(** A pull of a cursor the server does not take starts over from the snapshots. *)
Lemma gives_pullOver n left pairs e :
  readsFrom n e -> ~ cursorOk db n ->
  (exists pair, pair ∈ pairs /\ folderThere (pr_remoteFolderId pair)) -> (2 <= left)%nat ->
  exists e', gives e (pullFrom turns left pairs) (Ok tt) e' /\ metaOf "cursor" e' = Some headCursor.
Proof.
  intros Hn Hk Hpair Hleft. destruct left as [|left]; [lia|].
  set (from := nullish (metaOf "cursor" e) "0").
  set (expired := httpError 410 "CHANGES_EXPIRED" "The cursor is outside the current change log.").
  assert (Hask : gives e (tried (settle (ask (askChanges from)))) (Ok (Throw expired)) e).
  { apply gives_tried, gives_settle, (gives_ask e (askChanges from)). split; [done|].
    exists n. split; [done|]. unfold changesRoute. by rewrite page_expired. }
  assert (E1 : metaOf "cursor" (startOver e) = None).
  { unfold startOver, metaOf, getMeta. cbn. by rewrite lookup_delete_eq. }
  destruct (gives_snapshotAll pairs (startOver e)) as (e2 & E2 & G2); [by left|by right|].
  destruct (gives_pullFrom (currentStorageChangeCursor db) left pairs e2) as (e3 & G3 & E3);
    [by apply readsFrom_head|exact head_ok| |].
  { enough (changesAfter owner (currentStorageChangeCursor db) (currentStorageChangeCursor db) db = [])
      as -> by (cbn; lia).
    destruct (changesAfter _ _ _ _) as [|c l] eqn:E; [done|]. exfalso.
    assert (Hc : c ∈ c :: l) by left. rewrite <- E in Hc.
    apply list_elem_of_filter in Hc as [(_ & ? & ?) _]. lia. }
  exists e3. split; [|done]. cbn [pullFrom]. eapply gives_bind; [apply gives_see|]. fold from.
  eapply gives_bind; [exact Hask|]. cbv beta iota. change (hasStatus 410 expired) with true. cbv iota.
  eapply gives_bind; [apply gives_change|]. eapply gives_bind; [exact G2|]. exact G3.
Qed.
End CatchesUp.

(** C19: on a server that answers every call and whose rows stay as they are, a pull
    ends, with the cursor at the head of the feed, whether a cursor is saved (a
    number) or not and whatever pairs have a snapshot. When the server does not take the
    place the feed is read from, because it is pruned or past the head, this needs
    a pair whose folder the server still has. *)
Theorem pull_catches_up owner db turns config n (e : Engine) :
  feedOk db -> (enoughTurns owner db <= turns)%nat -> en_config e = Some config ->
  bigIntOf (nullish (metaOf "cursor" e) "0") = Some n ->
  cursorOk db n \/
    (exists pair, pair ∈ cg_pairs config /\
       snapshotRoot owner (if bool_decide (pr_remoteFolderId pair = "") then None
                           else Some (pr_remoteFolderId pair)) db <> None) ->
  exists e',
    rtc (quiet_step owner db) (e, start (pull turns)) (e', stop None) /\
    metaOf "cursor" e' = Some (numberString (currentStorageChangeCursor db)).
Proof.
  intros Hf Ht Hconf Hn Hor.
  assert (Hlen : forall m, (length (changesAfter owner m (currentStorageChangeCursor db) db) < turns)%nat).
  { intros m. unfold enoughTurns in Ht. unfold changesAfter.
    pose proof (length_filter (fun c => sc_ownerUserId c = owner /\ m < sc_seq c
      /\ sc_seq c <= currentStorageChangeCursor db) (db_changes db)). lia. }
  assert (Hgo : forall e1, gives owner db e (snapshotNew turns (cg_pairs config)) (Ok tt) e1 ->
    (exists e2, gives owner db e1 (pullFrom turns turns (cg_pairs config)) (Ok tt) e2 /\
       metaOf "cursor" e2 = Some (headCursor db)) ->
    exists e', rtc (quiet_step owner db) (e, start (pull turns)) (e', stop None) /\
      metaOf "cursor" e' = Some (numberString (currentStorageChangeCursor db))).
  { intros e1 G1 (e2 & G2 & E2). exists e2. split; [|exact E2].
    assert (G : gives owner db e (pull turns) (Ok tt) e2).
    { eapply gives_bind; [apply gives_see|]. rewrite Hconf. eapply gives_bind; [exact G1|exact G2]. }
    exact (G _). }
  destruct Hor as [Hk|Hpair].
  - destruct (gives_snapshotNew owner db Hf turns Ht (live db) (cg_pairs config) e)
      as (e1 & (m & Hm & Hmk) & G1); [exact (kept_live owner db Hf turns Ht)|by exists n|].
    apply (Hgo e1 G1). by apply (gives_pullFrom owner db Hf turns Ht m).
  - destruct (gives_snapshotNew owner db Hf turns Ht (parses) (cg_pairs config) e)
      as (e1 & [m Hm] & G1); [exact (kept_parses db Hf)|by exists n|].
    apply (Hgo e1 G1). destruct (cursorOk_dec owner db turns Ht m) as [Hmk|Hmk].
    + by apply (gives_pullFrom owner db Hf turns Ht m).
    + apply (gives_pullOver owner db Hf turns Ht m); [done..|]. unfold enoughTurns in Ht. lia.
Qed.
