(* ===== verification/EngineExamples.v ===== *)
(** * The engine's loop on concrete servers

    A server with two pair folders, one file in each, whose feed was pruned. The
    witness of the freshness property, and two runs that show what the loop does
    not promise: after a 410, a pair whose snapshot failed is taken as empty; and
    with no pair at all a pull of a pruned feed never ends. *)

From S2P Require Import Prelude SyncTypes JsValues Database StorageChanges Plan SyncStore RemoteTree Async EngineIo PairSync Requests EngineLoop EngineFresh EnginePromises.

Open Scope Z_scope.

#[local] Instance plainPlatform : Platform :=
  {| caseInsensitive := false; normalizeNFC := fun s => s; toLowerCase := fun s => s |}.

#[local] Notation LoopProc := (@Proc LoopEffect LoopError LoopAnswer).

(** ** A server and a run *)

(** The routes of a server, on which the snapshots of some folders fail. *)
Record Answering := { an_db : DB; an_failing : list string }.

Definition noAnswer : LoopError := failed (OtherError "fetch failed").

Definition snapshotOf (server : Answering) (folderId : string) (cursor : option string) :
    result LoopError SnapshotPage :=
  if bool_decide (folderId ∈ an_failing server) then Throw noAnswer
  else snapshotRoute "me" folderId cursor 5000 (an_db server).

(** A feed is answered to an engine with a saved cursor only. *)
Definition changesOf (server : Answering) (e : Engine) (after : string) :
    result LoopError ChangesPage :=
  match bigIntOf after with
  | Some n =>
      match changesRoute "me" n 1000 (an_db server), metaOf "cursor" e with
      | Ok _, None => Throw noAnswer
      | answer, _ => answer
      end
  | None => Throw noAnswer
  end.

Definition quietPass : PairResult :=
  {| rs_issues := []; rs_hold := None; rs_pullAgain := false; rs_retrySoon := false |}.

(** A run until [last], for at most [fuel] effects. *)
Fixpoint goes (fuel : nat) (last : LoopEffect -> bool) (server : Answering) (e : Engine)
    (p : LoopProc) : Engine * LoopProc :=
  match fuel, p with
  | S fuel', await effect k =>
      if last effect then (e, p)
      else
        match effect return (LoopAnswer effect -> LoopProc) -> Engine * LoopProc with
        | askSnapshot folderId cursor => fun k =>
            goes fuel' last server e (k (snapshotOf server folderId cursor))
        | askChanges after => fun k => goes fuel' last server e (k (changesOf server e after))
        | askKeepMine _ _ _ | askCancelUpload _ | askVersion _ | askTrash _ _ => fun k =>
            goes fuel' last server e (k (Ok tt))
        | runPair _ _ _ full => fun k => goes fuel' last server e (k (Ok quietPass, full))
        | askExists _ _ => fun k => goes fuel' last server e (k false)
        | askNow => fun k => goes fuel' last server e (k 0)
        | @here X f => fun k => goes fuel' last server (f e).2 (k (f e).1)
        | endless => fun k => (e, await endless k)
        end k
  | _, _ => (e, p)
  end.

Section Runs.
Context (platform : NodePlatform) (turns : nat) (chosen : gset string).
#[local] Notation step := (savedStep platform turns "me" chosen).
#[local] Notation at_ e db past p :=
  {| es_world := {| ew_engine := e; ew_db := db; ew_past := past |}; es_running := p |}.

Lemma goes_steps fuel last server past e p :
  rtc step (at_ e (an_db server) past (Some p))
           (at_ (goes fuel last server e p).1 (an_db server) past
                (Some (goes fuel last server e p).2)).
Proof.
  revert e p. induction fuel as [|fuel IH]; intros e p; [done|].
  destruct p as [|effect k|]; [done| |done]. cbn [goes].
  destruct (last effect); [done|].
  destruct effect; try done; (eapply rtc_l; [|apply IH]); eexists;
    (split; [constructor; cbn; try done|try by intros []]).
  - split; [done|]. unfold snapshotOf. case_bool_decide; [right; by eexists|by left].
  - split; [done|]. unfold changesOf.
    destruct (bigIntOf after) as [n|] eqn:En; [|right; by eexists].
    destruct (changesRoute _ _ _ _) as [page|thrown] eqn:Er; [|right; by eexists]. cbn.
    destruct (metaOf "cursor" e) eqn:Ec; [left; exists n; by rewrite Er|right; by eexists].
  - intros [Hc [page E]]. cbn in Hc, E. unfold changesOf in E. rewrite Hc in E. by repeat case_match.
Qed.

(** A step in which nothing was answered. *)
Lemma silent_step s s' : engine_step platform turns "me" chosen None s s' -> step s s'.
Proof. intros Hs. exists None. split; [exact Hs|by intros []]. Qed.

Lemma start_steps fuel last server past e work :
  let r := goes fuel last server e (start (exclusive platform turns work)) in
  rtc step (at_ e (an_db server) past None) (at_ r.1 (an_db server) past (Some r.2)).
Proof.
  eapply rtc_l; [|apply goes_steps]. apply silent_step. constructor. left. by exists work.
Qed.
End Runs.

(** ** The example *)

Definition folderRow (name : string) (parent : option string) (isRoot : bool) : Row :=
  {| rw_storageRevision := 1;
     rw_columns := list_to_map
       ([("name", CText name); ("ownerUserId", CText "me"); ("isFilesRoot", CBool isRoot)]
        ++ match parent with Some id => [("parentId", CText id)] | None => [] end) |}.
Definition fileRow (name folder : string) (rev : Z) : Row :=
  {| rw_storageRevision := rev;
     rw_columns := list_to_map
       [("originalName", CText name); ("folderId", CText folder); ("ownerUserId", CText "me");
        ("sizeBytes", CBigInt 3); ("contentChecksum", CText "c")] |}.

Definition rowsAt (rev : Z) : gmap (EntityType * string) Row :=
  list_to_map [((et_folder, "root"), folderRow "Files" None true);
               ((et_folder, "fa"), folderRow "A" (Some "root") false);
               ((et_folder, "fb"), folderRow "B" (Some "root") false);
               ((et_file, "a1"), fileRow "a.txt" "fa" rev);
               ((et_file, "b1"), fileRow "b.txt" "fb" 1)].

Definition updatedA (seq rev at_ : Z) : Database.StorageChange :=
  {| sc_seq := seq; sc_ownerUserId := "me"; sc_mutationId := "m"; sc_kind := updated_change;
     sc_itemType := et_file; sc_itemId := "a1"; sc_parentId := Some "fa";
     sc_previousParentId := None; sc_path := "A/a.txt"; sc_previousPath := None;
     sc_name := "a.txt"; sc_sizeBytes := Some 3; sc_contentChecksum := Some "c";
     sc_storageRevision := rev; sc_clientModifiedAt := None; sc_originDeviceId := None;
     sc_createdAt := at_ |}.

Definition dbWith (rows : gmap (EntityType * string) Row) (changes : list Database.StorageChange)
    (next : Z) : DB :=
  {| db_rows := rows; db_users := ∅; db_sessions := ∅; db_trash := ∅; db_mutations := ∅;
     db_resources := []; db_changes := changes; db_nextSeq := next |}.

Definition day : Z := 86400000.
Definition before : Database.StorageChange := updatedA 500 1 0.
Definition later : Database.StorageChange := updatedA 600 2 (100 * day).
Definition dbThen : DB := dbWith (rowsAt 1) [before] 501.
Definition dbGrown : DB := dbWith (rowsAt 2) [before; later] 601.
Definition dbNow : DB := (pruneStorageChanges (101 * day) dbGrown).1.

Definition emptyStore : Store :=
  {| st_meta := ∅; st_remote := ∅; st_base := ∅; st_upload := ∅; st_conflict := [];
     st_nextConflict := 1 |}.
Definition nothingShown : Shown :=
  {| sh_running := false; sh_waiting := nothingWaiting; sh_unchecked := 0; sh_movedBytes := 0;
     sh_issues := []; sh_activity := []; sh_failure := None; sh_lastSyncAt := None;
     sh_notified := []; sh_notices := [] |}.
Definition newEngine : Engine :=
  {| en_config := None; en_configured := 0; en_tree := newRemoteTree emptyStore ∅;
     en_stopped := false; en_signedOut := false; en_liveConnected := false;
     en_refusedPasses := 0; en_timer := None; en_shown := nothingShown |}.

Definition pairOf (id folder : string) : SyncPair :=
  {| pr_id := id; pr_localPath := "/" +:+ id; pr_remoteFolderId := folder; pr_remoteLabel := id;
     pr_mode := TwoWay; pr_skipFolders := None; pr_skipPaths := None |}.
Definition configOf (pairs : list SyncPair) : EngineConfig :=
  {| cg_serverUrl := "https://example.org"; cg_token := "t"; cg_deviceName := "laptop";
     cg_pairs := pairs; cg_ignore := []; cg_minFreeBytes := 0; cg_uploadLimitKBps := None;
     cg_downloadLimitKBps := None; cg_paused := false |}.
Definition bothPairs : EngineConfig := configOf [pairOf "A" "fa"; pairOf "B" "fb"].

Definition folders : gset string := {["fa"; "fb"]}.

Definition turnsHere : nat := 5.
Definition passRun (last : LoopEffect -> bool) (server : Answering) (e : Engine) :
    Engine * LoopProc :=
  goes 400 last server e (start (exclusive linux turnsHere passWork)).
Definition never (_ : LoopEffect) : bool := false.
Definition atPair (folderId : string) (effect : LoopEffect) : bool :=
  match effect with
  | runPair p _ _ _ => bool_decide (pr_remoteFolderId p = folderId) | _ => false end.

Definition configured : Engine := configure bothPairs newEngine.
Definition synced := passRun never {| an_db := dbThen; an_failing := [] |} configured.
Definition interrupted := passRun never {| an_db := dbNow; an_failing := ["fb"] |} synced.1.
Definition resumed := passRun (atPair "fb") {| an_db := dbNow; an_failing := [] |} interrupted.1.

(** ** The way there *)

#[local] Notation chosenStep := (savedStep linux turnsHere "me" folders).
#[local] Notation system e db past p :=
  {| es_world := {| ew_engine := e; ew_db := db; ew_past := past |}; es_running := p |}.

Definition installed : EngineSystem := system newEngine dbThen [before] None.

Lemma rows_entry rev type id row :
  rowsAt rev !! (type, id) = Some row ->
  id = "a1" -> rw_storageRevision row = rev.
Proof.
  intros Hr ->. unfold rowsAt in Hr. cbn [list_to_map foldr fst snd] in Hr.
  repeat (apply lookup_insert_Some in Hr as [[E <-]|[_ Hr]]; [by simplify_eq|]).
  by rewrite lookup_empty in Hr.
Qed.

Lemma past_grows l : l = [before] \/ l = [before; later] -> revisionsGrow "me" l.
Proof.
  intros [->| ->] c c' Hc Hc' _ _; rewrite ?elem_of_cons, ?elem_of_nil in Hc, Hc';
    repeat destruct Hc as [->|Hc]; repeat destruct Hc' as [->|Hc']; cbn; unfold asNew; cbn; try done; lia.
Qed.

Lemma installed_first : firstStart "me" installed.
Proof.
  constructor; try done. constructor; cbn.
  - split_and!; [repeat constructor|repeat constructor; cbn; lia|done].
  - intros c c' Hc Hc' _. apply list_elem_of_singleton in Hc as ->, Hc' as ->. done.
  - split; [done|]. intros c Hc. by left.
  - apply past_grows. by left.
  - intros type id row c Hr _ _ Hc [_ Hid].
    apply list_elem_of_singleton in Hc as ->. cbn in Hid. unfold asNew. cbn.
    rewrite (rows_entry 1 type id row Hr); [done|by rewrite <- Hid].
  - intros c Hc. apply list_elem_of_singleton in Hc as ->. by vm_compute.
Qed.

Lemma passRun_steps last server past e :
  rtc chosenStep (system e (an_db server) past None)
    (system (passRun last server e).1 (an_db server) past (Some (passRun last server e).2)).
Proof. apply start_steps. Qed.

#[local] Opaque passRun.

(** A pass that ends. *)
Lemma passRun_ends last server past e :
  (passRun last server e).2 = stop None ->
  rtc chosenStep (system e (an_db server) past None)
    (system (passRun last server e).1 (an_db server) past None).
Proof.
  intros E. etransitivity; [apply passRun_steps|]. rewrite E. apply rtc_once, silent_step. constructor.
Qed.

Lemma synced_reached :
  rtc chosenStep installed (system synced.1 dbThen [before] None).
Proof.
  eapply rtc_l.
  { apply silent_step, engine_elsewhere, (else_configured "me" folders _ bothPairs).
    apply (bool_decide_eq_true_1 _). by vm_compute. }
  apply (passRun_ends never {| an_db := dbThen; an_failing := [] |} [before] configured).
  vm_compute. reflexivity.
Qed.

Lemma grown_stamped : stampedInOrder dbGrown.
Proof.
  intros c c' Hc Hc' Hle. cbn in Hc, Hc'. rewrite !elem_of_cons, elem_of_nil in Hc, Hc'.
  destruct Hc as [->|[->|[]]], Hc' as [->|[->|[]]]; cbn in *; unfold day; lia.
Qed.

Lemma interrupted_reached :
  rtc chosenStep installed (system interrupted.1 dbNow [before; later] None).
Proof.
  etransitivity; [apply synced_reached|].
  eapply rtc_l.
  { apply silent_step, engine_elsewhere, (else_changed "me" folders synced.1 dbThen [before] [later] dbGrown); cbn.
    - done.
    - split_and!; [repeat constructor; cbn; lia|repeat constructor; cbn; lia|done].
    - exact grown_stamped.
    - by repeat constructor.
    - apply past_grows. by right.
    - intros type id row c Hr _ _ Hc [_ Hid].
      assert (id = "a1") as ->.
      { rewrite !elem_of_cons, elem_of_nil in Hc. by destruct Hc as [->|[->|[]]]. }
      unfold asNew. rewrite (rows_entry 2 type _ row Hr) by done.
      rewrite !elem_of_cons, elem_of_nil in Hc. by destruct Hc as [->|[->|[]]]. }
  eapply rtc_l.
  { apply silent_step, engine_elsewhere, (else_pruned "me" folders synced.1 dbGrown [before; later] (101 * day)). }
  apply (passRun_ends never {| an_db := dbNow; an_failing := ["fb"] |} [before; later] synced.1).
  vm_compute. reflexivity.
Qed.

Lemma resumed_reached :
  rtc chosenStep installed (system resumed.1 dbNow [before; later] (Some resumed.2)).
Proof.
  etransitivity; [apply interrupted_reached|].
  apply (passRun_steps (atPair "fb") {| an_db := dbNow; an_failing := [] |}).
Qed.

(** ** Witnesses *)

(** After the second change the tree holds the file at its revision. *)
Lemma tree_is_never_older_witness :
  exists item, rt_items (en_tree resumed.1) !! "a1" = Some item /\ 2 <= ri_rev item.
Proof.
  destruct (tree_is_never_older_than_the_cursor linux turnsHere "me" folders installed
    (system resumed.1 dbNow [before; later] (Some resumed.2)) "600" installed_first resumed_reached)
    as (n & Hn & _ & _ & Hf); [by vm_compute|].
  destruct (rt_items (en_tree resumed.1) !! "a1") as [item|] eqn:E; [|by vm_compute in E].
  exists item. split; [done|].
  apply (Hf "a1" item later E); [by vm_compute|by right; left|done|done|].
  vm_compute in Hn. injection Hn as <-. done.
Defined.

(** A pull that goes on from there ends at the head. *)
Lemma pull_catches_up_witness :
  exists e',
    rtc (quiet_step "me" dbNow) (interrupted.1, start (pull 9)) (e', stop None) /\
    metaOf "cursor" e' = Some "600".
Proof.
  apply (pull_catches_up "me" dbNow 9 bothPairs 600 interrupted.1).
  - split_and!; [by repeat constructor| |done]. repeat constructor; cbn; lia.
  - apply (bool_decide_eq_true_1 _). by vm_compute.
  - by vm_compute.
  - by vm_compute.
  - left. split; [by vm_compute|]. intros oldest E. vm_compute in E. injection E as <-. lia.
Defined.

(** ** What the loop does not promise *)

(** The file of pair B as both sides last agreed on it, unchanged on the disk. *)
Definition fileHere : LocalFile :=
  {| lf_entry := {| le_rel := "b.txt"; le_type := file; le_size := 3; le_mtimeMs := 1000;
                    le_ino := "21" |};
     lf_checksum := Some "c" |}.
Definition fileBase : BaseEntry :=
  {| be_pairId := "B"; be_rel := "b.txt"; be_type := file; be_remoteId := "b1"; be_rev := 1;
     be_checksum := Some "c"; be_size := 3; be_mtimeMs := 1000; be_ino := "21" |}.
Definition inputOf (e : Engine) : PlanInput :=
  {| in_pairId := "B"; in_mode := TwoWay; in_local := [fileHere];
     in_remote := sp_items (scope linux (fun _ => false) (fun _ _ => false) (en_tree e) "fb");
     in_skipped := []; in_excluded := []; in_base := [fileBase]; in_allowEmptied := false |}.

(** The feed was pruned past the cursor, and the snapshot of the second pair
    failed. The next pass takes that pair as ready and empty, although the server
    still has its file, and plans to trash the file here. *)
Theorem failed_snapshot_empties_a_ready_pair :
  exists e p,
    rtc chosenStep installed (system e dbNow [before; later] (Some p)) /\
    waitsForPair (Some p) /\
    metaOf "ready:B" e = Some "1" /\ metaOf "gone:B" e = None /\
    (exists page, snapshotRoute "me" "fb" None 5000 dbNow = Ok page /\
                  ri_name <$> (fromSnapshot <$> np_items page) = ["b.txt"]) /\
    pl_actions (plan (inputOf e)) = [trash_local "b.txt" fileHere].
Proof.
  exists resumed.1, resumed.2. split; [apply resumed_reached|].
  split; [by vm_compute|]. split; [by vm_compute|]. split; [by vm_compute|].
  split; [|by vm_compute]. eexists. split; [vm_compute; reflexivity|by vm_compute].
Qed.

(** With no pair, on a server whose feed does not start at its first entry any
    more, reading the feed ends in no number of turns. *)
Lemma pullFrom_never_ends turns left server e k :
  metaOf "cursor" e = None ->
  readStorageChanges "me" 0 1000 (an_db server) = Throw StorageChangesExpiredError ->
  exists fuel e' k', goes fuel never server e (pullFrom turns left [] k) = (e', await endless k').
Proof.
  intros Hc Hr. revert e Hc. induction left as [|left IH]; intros e Hc.
  - exists 1%nat, e. eexists. done.
  - destruct (IH (startOver e)) as (fuel & e' & k' & E).
    { unfold startOver, metaOf, getMeta. cbn. by rewrite lookup_delete_eq. }
    exists (S (S (S fuel))), e', k'. rewrite <- E.
    cbn [pullFrom]. unfold see, change, tried, settle, ask, catch, mbind, task_bind, mret, task_ret.
    assert (E0 : changesOf server e "0"
      = Throw (httpError 410 "CHANGES_EXPIRED" "The cursor is outside the current change log.")).
    { unfold changesOf. change (bigIntOf "0") with (Some 0). unfold changesRoute. by rewrite Hr. }
    cbn [goes never]. rewrite Hc. cbn [nullish default fst snd]. rewrite E0. done.
Qed.

Theorem pull_without_pairs_never_ends turns server config e :
  en_config e = Some config -> cg_pairs config = [] -> metaOf "cursor" e = None ->
  readStorageChanges "me" 0 1000 (an_db server) = Throw StorageChangesExpiredError ->
  exists fuel e' k', goes fuel never server e (start (pull turns)) = (e', await endless k').
Proof.
  intros Hconf Hpairs Hc Hr.
  destruct (pullFrom_never_ends turns turns server e
    (fun r => match r with Ok _ => stop None | Throw thrown => stop (Some thrown) end) Hc Hr)
    as (fuel & e' & k' & E).
  exists (S fuel), e', k'. rewrite <- E. unfold start, pull, see, ask, mbind, task_bind.
  cbn [goes never fst snd]. rewrite Hconf. cbn [fst snd]. by rewrite Hpairs.
Qed.

(** The example's server is one. *)
Example pruned_server_never_ends :
  readStorageChanges "me" 0 1000 dbNow = Throw StorageChangesExpiredError.
Proof. by vm_compute. Qed.
