(* ===== verification/FileRows.v ===== *)
(** * What the file service reads

    The reads of [apps/web/server/files/repository.ts] and of
    [packages/db/src/folder-tree.ts] on the rows of folders and files, the paths
    [storage-layout.ts] makes of them, and the guard of [storage-read-guard.ts],
    which refuses an item that a mutation is at work on.

    Each read is a function of the database, so that a request that reads twice
    may read two databases. Colours, icons, and the times a row was made and last
    written, which only the window shows, are left out. *)

From Stdlib Require String.
From S2P Require Import Prelude Database MutationMetadata MutationPrepare StorageLayout.

Open Scope Z_scope.

(** ** Rows *)

(** Of the server: a user's storage id, which is never changed, and the place of
    the storage root. *)
Class Installation := {
  storageIdOf : string -> string;
  storageRoot : string;
  storageProtocolVersion : option Z
}.

Record FolderSummary := {
  fo_id : string; fo_ownerUserId : string; fo_ownerStorageId : string;
  fo_parentId : option string; fo_name : string; fo_isFilesRoot : bool;
  fo_deletedAt : option Z; fo_storageRevision : Z; fo_trashEntryId : option string
}.

Record StoredFile := {
  fi_id : string; fi_ownerUserId : string; fi_ownerStorageId : string;
  fi_folderId : option string; fi_name : string; fi_mimeType : string; fi_sizeBytes : Z;
  fi_storageRevision : Z; fi_trashEntryId : option string; fi_clientModifiedAt : option Z;
  fi_deletedAt : option Z; fi_storageKey : string; fi_storageStatus : string;
  fi_contentChecksum : option string
}.

(** A map of folders by their ids. *)
Notation FolderMap := (gmap string FolderSummary).

Section Rows.
Context `{Installation}.

Definition toFolderSummary (id : string) (row : Row) : FolderSummary :=
  let owner := default "" (textColumn row "ownerUserId") in
  {| fo_id := id; fo_ownerUserId := owner; fo_ownerStorageId := storageIdOf owner;
     fo_parentId := textColumn row "parentId"; fo_name := default "" (textColumn row "name");
     fo_isFilesRoot := bool_decide (column row "isFilesRoot" = CBool true);
     fo_deletedAt := dateColumn row "deletedAt"; fo_storageRevision := rw_storageRevision row;
     fo_trashEntryId := textColumn row "trashEntryId" |}.

Definition toStoredFile (id : string) (row : Row) : StoredFile :=
  let owner := default "" (textColumn row "ownerUserId") in
  {| fi_id := id; fi_ownerUserId := owner; fi_ownerStorageId := storageIdOf owner;
     fi_folderId := textColumn row "folderId";
     fi_name := default "" (textColumn row "originalName");
     fi_mimeType := default "" (textColumn row "mimeType");
     fi_sizeBytes := default 0 (bigIntColumn row "sizeBytes");
     fi_storageRevision := rw_storageRevision row;
     fi_trashEntryId := textColumn row "trashEntryId";
     fi_clientModifiedAt := dateColumn row "clientModifiedAt";
     fi_deletedAt := dateColumn row "deletedAt";
     fi_storageKey := default "" (textColumn row "storageKey");
     fi_storageStatus := default "" (textColumn row "storageStatus");
     fi_contentChecksum := textColumn row "contentChecksum" |}.

Definition folders (db : DB) : list FolderSummary :=
  (fun e => toFolderSummary e.1 e.2) <$> typedRows et_folder db.
Definition files (db : DB) : list StoredFile :=
  (fun e => toStoredFile e.1 e.2) <$> typedRows et_file db.

Definition isLiveFolder (folder : FolderSummary) : bool := bool_decide (fo_deletedAt folder = None).
Definition isLiveFile (file : StoredFile) : bool := bool_decide (fi_deletedAt file = None).

(** ** One item *)

Definition findFolderById (id : string) (db : DB) : option FolderSummary :=
  toFolderSummary id <$> db_rows db !! (et_folder, id).

Definition findFileById (id : string) (includeMissing : bool) (db : DB) : option StoredFile :=
  row ← db_rows db !! (et_file, id);
  let file := toStoredFile id row in
  if includeMissing || bool_decide (fi_storageStatus file = "available") then Some file else None.

(** The roots of an owner; more than one is an error. *)
Definition filesRoots (ownerUserId : string) (db : DB) : list FolderSummary :=
  filter (fun folder => fo_ownerUserId folder = ownerUserId /\ fo_isFilesRoot folder = true)
    (folders db).

(** A live folder or file of the owner with the name, another than the ones left
    out. An empty id leaves nothing out. *)
Definition leavesOut (excluded : option string) (id : string) : bool :=
  match excluded with
  | None | Some EmptyString => false
  | Some other => bool_decide (other = id)
  end.

Definition findActiveNameConflict (ownerUserId parentId name : string)
    (excludeFolderId excludeFileId : option string) (db : DB) : bool :=
  existsb (fun folder =>
    bool_decide (fo_ownerUserId folder = ownerUserId)
    && bool_decide (fo_parentId folder = Some parentId) && bool_decide (fo_name folder = name)
    && isLiveFolder folder && negb (leavesOut excludeFolderId (fo_id folder))) (folders db)
  || existsb (fun file =>
    bool_decide (fi_ownerUserId file = ownerUserId)
    && bool_decide (fi_folderId file = Some parentId) && bool_decide (fi_name file = name)
    && isLiveFile file && bool_decide (fi_storageStatus file = "available")
    && negb (leavesOut excludeFileId (fi_id file))) (files db).

(** ** Recursive queries

    [UNION] keeps each row once, so that a query ends after as many rounds as
    there are rows. *)

Fixpoint rounds (count : nat) (more : gset string -> gset string) (found : gset string) :
    gset string :=
  match count with O => found | S count' => rounds count' more (found ∪ more found) end.

Definition ownFolders (ownerUserId : string) (db : DB) : list FolderSummary :=
  filter (fun folder => fo_ownerUserId folder = ownerUserId) (folders db).

Definition idsWhere (P : FolderSummary -> bool) (l : list FolderSummary) : gset string :=
  list_to_set (fo_id <$> filter (fun folder => P folder = true) l).

(** The folders that are the parent of a found one. *)
Definition parentFolders (l : list FolderSummary) (found : gset string) : gset string :=
  idsWhere (fun folder => existsb (fun child =>
    bool_decide (fo_id child ∈ found) && bool_decide (fo_parentId child = Some (fo_id folder))) l) l.

Definition readFolderAncestorIds (ownerUserId : string) (folderIds : list string) (db : DB) :
    gset string :=
  let own := ownFolders ownerUserId db in
  rounds (length own) (parentFolders own)
    (idsWhere (fun folder => bool_decide (fo_id folder ∈ folderIds)) own).

(** The folders whose parent is a found one. *)
Definition childFolders (l : list FolderSummary) (found : gset string) : gset string :=
  idsWhere (fun folder => match fo_parentId folder with
                          | Some parent => bool_decide (parent ∈ found) | None => false end) l.

Definition readFolderSubtreeIds (ownerUserId folderId : string) (includeDeleted : bool) (db : DB) :
    gset string :=
  let own := filter (fun folder => includeDeleted = true \/ isLiveFolder folder = true)
               (ownFolders ownerUserId db) in
  rounds (length own) (childFolders own)
    (idsWhere (fun folder => bool_decide (fo_id folder = folderId)) own).

(** [ORDER BY "isFilesRoot" DESC, "parentId" ASC, name ASC]; no parent comes last. *)
Definition folderOrder (a b : FolderSummary) : Prop :=
  (if bool_decide (fo_isFilesRoot a = fo_isFilesRoot b) then
     match fo_parentId a, fo_parentId b with
     | Some p, Some q =>
         String.ltb p q || (bool_decide (p = q) && String.leb (fo_name a) (fo_name b))
     | Some _, None => true
     | None, Some _ => false
     | None, None => String.leb (fo_name a) (fo_name b)
     end
   else fo_isFilesRoot a) = true.
#[export] Instance folderOrder_dec : RelDecision folderOrder.
Proof. intros a b. unfold folderOrder. apply _. Defined.

Definition findFoldersByIds (ownerUserId : string) (ids : gset string) (db : DB) :
    list FolderSummary :=
  merge_sort folderOrder (filter (fun folder => fo_id folder ∈ ids) (ownFolders ownerUserId db)).

Definition listFolderAncestors (ownerUserId : string) (folderIds : list string) (db : DB) :
    list FolderSummary :=
  findFoldersByIds ownerUserId (readFolderAncestorIds ownerUserId folderIds db) db.

Definition listFolderSubtree (ownerUserId folderId : string) (includeDeleted : bool) (db : DB) :
    list FolderSummary :=
  findFoldersByIds ownerUserId (readFolderSubtreeIds ownerUserId folderId includeDeleted db) db.

(** In the order of the folder's id and the name. *)
Definition fileOrder (a b : StoredFile) : Prop :=
  match fi_folderId a, fi_folderId b with
  | Some p, Some q => String.ltb p q || (bool_decide (p = q) && String.leb (fi_name a) (fi_name b))
  | _, _ => true
  end = true.
#[export] Instance fileOrder_dec : RelDecision fileOrder.
Proof. intros a b. unfold fileOrder. apply _. Defined.

Definition inFolders (folderIds : list string) (file : StoredFile) : bool :=
  match fi_folderId file with Some id => bool_decide (id ∈ folderIds) | None => false end.

Definition listFilesInFolders (ownerUserId : string) (folderIds : list string)
    (includeDeleted : bool) (db : DB) : list StoredFile :=
  merge_sort fileOrder (filter (fun file =>
    fi_ownerUserId file = ownerUserId /\ inFolders folderIds file = true
    /\ (includeDeleted = true \/ isLiveFile file = true)) (files db)).

(** ** The folders below one *)

(** The loop of [collectDescendants]: each folder of the queue brings its children
    that were not seen. *)
Fixpoint descendantsFrom (fuel : nat) (l : list FolderSummary) (parentIds : list string)
    (visited : gset string) : list FolderSummary :=
  match fuel, parentIds with
  | S fuel', parentId :: rest =>
      let children := filter (fun child =>
        fo_parentId child = Some parentId /\ fo_id child ∉ visited) l in
      children ++ descendantsFrom fuel' l (rest ++ (fo_id <$> children))
                    (list_to_set (fo_id <$> children) ∪ visited)
  | _, _ => []
  end.

Definition collectDescendants (ownerUserId folderId : string) (includeDeleted : bool) (db : DB) :
    list FolderSummary :=
  let l := listFolderSubtree ownerUserId folderId includeDeleted db in
  descendantsFrom (S (length l)) l [folderId] {[folderId]}.

(** ** Paths *)

Definition buildFolderMap (l : list FolderSummary) : FolderMap :=
  foldl (fun m folder => <[fo_id folder := folder]> m) ∅ l.

Definition readFolderMap (ownerUserId : string) (folderIds : list (option string))
    (descendants : list FolderSummary) (db : DB) : FolderMap :=
  buildFolderMap (listFolderAncestors ownerUserId (omap id folderIds) db ++ descendants).

(** The names from the root down, climbing until the root, the end, or a folder
    that was passed already. *)
Fixpoint segmentsFrom (fuel : nat) (current : option FolderSummary) (folderMap : FolderMap)
    (filesRoot : FolderSummary) (visited : gset string) (segments : list string) : list string :=
  match fuel, current with
  | S fuel', Some folder =>
      if bool_decide (fo_id folder ∈ visited) || bool_decide (fo_id folder = fo_id filesRoot)
      then segments
      else segmentsFrom fuel' (match fo_parentId folder with
                               | None | Some EmptyString => None
                               | Some parent => folderMap !! parent
                               end) folderMap filesRoot
             ({[fo_id folder]} ∪ visited) (fo_name folder :: segments)
  | _, _ => segments
  end.

Definition buildFolderPathSegments (folder : FolderSummary) (folderMap : FolderMap)
    (filesRoot : FolderSummary) : list string :=
  segmentsFrom (S (S (size folderMap))) (Some folder) folderMap filesRoot ∅ [].

Definition buildFolderStorageKey (folder : FolderSummary) (folderMap : FolderMap)
    (filesRoot : FolderSummary) : string :=
  getActiveFolderStorageKey (fo_ownerStorageId folder)
    (buildFolderPathSegments folder folderMap filesRoot).

Definition buildFileStorageKey (ownerStorageId : string) (folderId : option string) (name : string)
    (folderMap : FolderMap) (filesRoot : FolderSummary) : string :=
  let parentFolder := match folderId with
                      | None | Some EmptyString => filesRoot
                      | Some id => default filesRoot (folderMap !! id)
                      end in
  getActiveCommittedStorageKey ownerStorageId
    (buildFolderPathSegments parentFolder folderMap filesRoot) name.

(** ** Items a mutation is at work on *)

Definition blockingStatuses : list StorageMutationStatus :=
  [prepared; running; retrying; metadata_committed; finalizing; recovery_required].

Definition mutationHasEntity (type : EntityType) (id : string) (m : Mutation) : bool :=
  existsb (fun entity => bool_decide (en_entityType entity = type)
                         && bool_decide (en_entityId entity = id)) (mu_entities m).

Definition holdsGlobalRecovery (mutationId : string) (db : DB) : bool :=
  existsb (fun r => bool_decide (rs_mutationId r = mutationId)
                    && bool_decide (rs_resourceKey r = globalRecovery)) (liveResources db).

(** The mutation that blocks a file or folder: one that names it, or a recovery of
    its owner's or of all storage that waits for an operator. *)
Definition findBlockingStorageMutationForEntity (type : EntityType) (id : string) (db : DB) :
    option (string * Mutation) :=
  match head (filter (fun e : string * Mutation =>
      mutationHasEntity type id e.2 = true /\ mu_status e.2 ∈ blockingStatuses)
      (mutationList db)) with
  | Some direct => Some direct
  | None =>
      row ← db_rows db !! (type, id);
      owner ← textColumn row "ownerUserId";
      head (filter (fun e : string * Mutation =>
        mu_kind e.2 = legacy_recovery /\ mu_status e.2 = recovery_required
        /\ (mu_ownerUserId e.2 = owner \/ holdsGlobalRecovery e.1 db = true)) (mutationList db))
  end.

End Rows.
