(* ===== verification/DurableMutation.v ===== *)
(** * Running a durable mutation for a request

    [apps/web/server/durable-storage-mutation.ts]: a request's mutation is
    prepared once, carried out by this process, or found as it was left by an
    earlier attempt of the same request; every other outcome is an error that
    says whether to try again.

    Everything is a program of [Io]: other work on the database goes on between
    any two calls, and any call may fail. A request that the client gave up is a
    killed program. The errors of the journal are those of [Io]; the service's own
    ([ServiceError]) are a value of [Service]. *)

From Stdlib Require Import Ascii.
From Stdlib Require String.
From S2P Require Import Prelude JsValues Database MutationMetadata MutationPrepare Journal Disk Io StoragePaths Executor FileRows.

Open Scope Z_scope.

(** ** [JSON.stringify] *)

Definition jsonEscape (c : ascii) : string :=
  let n := nat_of_ascii c in
  let hex d := String.get d "0123456789abcdef" in
  if bool_decide (n = 34)%nat then String backslash (String c "")
  else if bool_decide (c = backslash) then String backslash (String c "")
  else if bool_decide (n = 8)%nat then String backslash "b"
  else if bool_decide (n = 9)%nat then String backslash "t"
  else if bool_decide (n = 10)%nat then String backslash "n"
  else if bool_decide (n = 12)%nat then String backslash "f"
  else if bool_decide (n = 13)%nat then String backslash "r"
  else if bool_decide (n < 32)%nat then
    match hex (n / 16)%nat, hex (n mod 16)%nat with
    | Some high, Some low => String backslash ("u00" +:+ String high (String low ""))
    | _, _ => String c ""
    end
  else String c "".

Fixpoint jsonEscapes (s : string) : string :=
  match s with EmptyString => "" | String c rest => jsonEscape c +:+ jsonEscapes rest end.

Definition doubleQuote : string := String (ascii_of_nat 34) "".
Definition jsonQuote (s : string) : string := doubleQuote +:+ jsonEscapes s +:+ doubleQuote.

Fixpoint jsonStringify (value : Json) : string :=
  match value with
  | JNull => "null"
  | JBool b => if b then "true" else "false"
  | JNumber n => numberString n
  | JString s => jsonQuote s
  | JArray items => "[" +:+ joinWith "," (jsonStringify <$> items) +:+ "]"
  | JObject fields =>
      "{" +:+ joinWith "," ((fun field : string * Json =>
                jsonQuote field.1 +:+ ":" +:+ jsonStringify field.2) <$> fields) +:+ "}"
  end.

(** ** Errors *)

Inductive ServiceError :=
| FilesError (code : string)
| RevisionConflictError (id : string)
| StorageEntityUnavailableError (code : ConflictCode) (mutationId : string)
| StorageProtocolNotReadyError
| PlainError (message : string).

Definition Service (A : Type) : Type := Io (result ServiceError A).

#[export] Instance Service_ret : MRet Service := fun A a w => (Done (Ok a), w).
#[export] Instance Service_bind : MBind Service := fun A B f m w =>
  match m w with
  | (Done (Ok a), w') => f a w'
  | (Done (Throw e), w') => (Done (Throw e), w')
  | (Failed e, w') => (Failed e, w')
  | (Killed, w') => (Killed, w')
  end.

Definition doing {A} (m : Io A) : Service A := fun w =>
  match m w with
  | (Done a, w') => (Done (Ok a), w')
  | (Failed e, w') => (Failed e, w')
  | (Killed, w') => (Killed, w')
  end.
Definition refuse {A} (e : ServiceError) : Service A := fun w => (Done (Throw e), w).
Definition lifted {A} (r : result ServiceError A) : Service A := fun w => (Done r, w).
(** [if (!b) throw e]. *)
Definition check (b : bool) (e : ServiceError) : Service unit := if b then mret tt else refuse e.

(** One statement that reads. *)
Definition query {A} (f : DB -> A) : Service A := doing (dbEffect (fun _ _ _ _ => read f)).
Definition conflict {A} (code : ConflictCode) (id : option string) : Service A :=
  doing (throwIo (StorageException (StorageMutationConflictError code id))).

Section Durable.
Context `{Runtime, Installation}.

Definition hashDurableStorageRequest (value : Json) : string := sha256 (jsonStringify value).

(** ** Keys that fit *)

(** [path.resolve] with the root first. *)
Definition pathResolve (root key : string) : string :=
  "/" +:+ joinWith "/" (reverse (normalizeSegments false []
    (splitOn slash (if startsWith "/" key then key else root +:+ "/" +:+ key)))).

Definition getStoragePath (storageKey : string) : result ServiceError string :=
  let root := pathResolve storageRoot "" in
  let resolved := pathResolve root storageKey in
  if bool_decide (resolved = root) || startsWith (root +:+ "/") resolved then Ok resolved
  else Throw (PlainError "Resolved path escaped the configured file root.").

Definition maxFilesystemPathBytes : nat := 4095.

Fixpoint assertStorageKeysFit (storageKeys : list string) : result ServiceError unit :=
  match storageKeys with
  | [] => Ok tt
  | storageKey :: rest =>
      path ← getStoragePath storageKey;
      if bool_decide (maxFilesystemPathBytes < String.length path)%nat
      then Throw (FilesError "STORAGE_PATH_TOO_LONG")
      else assertStorageKeysFit rest
  end.

(** ** The request *)

(** The last field is the context's [requestDeviceId()] when it is prepared. *)
Record DurableStorageMutationInput := {
  di_kind : StorageMutationKind;
  di_ownerUserId : string;
  di_idempotencyKey : option string;
  di_metadataOperations : list StorageMetadataOperation;
  di_steps : list StorageMutationStepInput;
  di_entities : list StorageMutationEntityInput;
  di_resourceKeys : option (list string);
  di_uploadSessionId : option string;
  di_mutationId : option string;
  di_requestHashPayload : Json;
  di_resultJson : option Json;
  di_parentId : option string;
  di_reservedBytes : option Z;
  di_originDeviceId : option string
}.

Definition STORAGE_PROTOCOL_VERSION : Z := 2.

Definition assertStorageProtocolReady : Service unit :=
  version ← query (fun _ => storageProtocolVersion);
  check (bool_decide (version = Some STORAGE_PROTOCOL_VERSION)) StorageProtocolNotReadyError.

(** Why a mutation of the same request is no answer. *)
Definition mutationStateConflict (found : string * Mutation) : StorageError :=
  if bool_decide (mu_status found.2 = aborted)
  then StorageMutationRejectedError (storageMutationRejectionFromResult (mu_resultJson found.2))
  else StorageMutationConflictError
    (if bool_decide (mu_status found.2 = recovery_required) then STORAGE_RECOVERY_REQUIRED
     else if bool_decide (mu_status found.2 ∈ [running; retrying; metadata_committed; finalizing])
     then STORAGE_MUTATION_RECOVERING
     else STORAGE_MUTATION_IN_PROGRESS) (Some found.1).

Definition findById (id : string) (db : DB) : option (string * Mutation) :=
  m ← db_mutations db !! id; Some (id, m).

Definition requestHashOf (input : DurableStorageMutationInput) : string :=
  hashDurableStorageRequest (di_requestHashPayload input).

Definition buildDurableMutationPlan (input : DurableStorageMutationInput) : IntentJson :=
  intent (Some 1) (Some (di_metadataOperations input)).

(** A key that is not empty. *)
Definition givenKey (key : option string) : option string :=
  match key with None | Some EmptyString => None | Some key => Some key end.

(** ** Preparing *)

Definition prepareInput (id : string) (input : DurableStorageMutationInput) :
    PrepareStorageMutationInput :=
  {| pi_id := Some id; pi_reservedBytes := di_reservedBytes input;
     pi_parentId := di_parentId input; pi_kind := di_kind input;
     pi_ownerUserId := di_ownerUserId input; pi_idempotencyKey := di_idempotencyKey input;
     pi_requestHash := Some (requestHashOf input);
     pi_intentJson := buildDurableMutationPlan input;
     pi_initialResultJson := di_resultJson input;
     pi_resourceKeys := match di_resourceKeys input with
                        | Some keys => Some keys
                        | None => match givenKey (di_parentId input) with
                                  | Some _ => Some [] | None => None end
                        end;
     pi_steps := di_steps input; pi_entities := di_entities input;
     pi_uploadSessionId := di_uploadSessionId input; pi_originDeviceId := di_originDeviceId input |}.

Definition keysOf (input : PrepareStorageMutationInput) : list string :=
  uniqueSorted (match pi_resourceKeys input with
                | Some keys => keys | None => deriveStorageMutationResourceKeys input end).

(** A read that may refuse with an error of the journal. *)
Definition journalRead {A} (f : DB -> result StorageError A) : Io A :=
  dbEffect (fun _ _ _ _ db => match f db with Ok a => Ok (a, db) | Throw e => Throw e end).

(** [prepareStorageMutation]: what [MutationPrepare] makes of three databases, as
    the calls that read and write them. *)
Definition prepareMutation (id : string) (input : PrepareStorageMutationInput) :
    Io PrepareStorageMutationResult :=
  replay ← journalRead (fun db => findPreparedMutationReplay db input);
  match replay with
  | Some replay => mret replay
  | None =>
      catchIo
        (mutation ← dbEffect (fun locks _ now _ => runStorageTransaction
           (prepareStorageMutationTransaction locks now input id (keysOf input)));
         mret {| pr_id := id; pr_mutation := mutation; pr_replayed := false |})
        (fun error => match error with
           | StorageException e =>
               journalRead (fun db => resolvePreparationConflict db e input (keysOf input))
           | _ => throwIo error
           end)
  end.

Definition findConflictingMutation (durableMutationId : string) (idempotencyKey : option string) :
    Io (option (string * Mutation)) :=
  catchIo (dbEffect (fun _ _ _ _ => read (fun db =>
             match givenKey idempotencyKey with
             | Some key => findByIdempotencyKey db key
             | None => findById durableMutationId db
             end)))
    (fun _ => throwIo (StorageException
       (StorageMutationConflictError STORAGE_MUTATION_RECOVERING (Some durableMutationId)))).

Definition matchesRequest (input : DurableStorageMutationInput) (m : Mutation) : bool :=
  bool_decide (mu_kind m = di_kind input) && bool_decide (mu_ownerUserId m = di_ownerUserId input)
  && bool_decide (mu_requestHash m = Some (requestHashOf input)).

(** What preparing once can end with: a mutation, or a preparation of which it is
    known that nothing was committed, or an error that is thrown. *)
Inductive Prepared :=
| found_mutation (id : string) (m : Mutation) (replayed : bool)
| uncommitted.

Definition isUnavailable (error : IoError) : bool := bool_decide (error = StorageTransactionUnavailableError).

Definition resolveDurablePreparationFailure (error : IoError) (input : DurableStorageMutationInput)
    (durableMutationId : string) : Io Prepared :=
  existing ← findConflictingMutation durableMutationId (di_idempotencyKey input);
  match existing with
  | Some found =>
      if matchesRequest input found.2 then
        if bool_decide (mu_status found.2 ∈ [succeeded; prepared])
        then mret (found_mutation found.1 found.2 true)
        else throwIo (StorageException (mutationStateConflict found))
      else if bool_decide (givenKey (di_idempotencyKey input) <> None)
      then throwIo (StorageException
             (StorageMutationConflictError STORAGE_IDEMPOTENCY_KEY_REUSED None))
      else throwIo error
  | None =>
      match error with
      | StorageException (StorageMutationConflictError STORAGE_MUTATION_IN_PROGRESS _) =>
          throwIo (StorageException StorageAdmissionBusyError)
      | _ => if isUnavailable error then mret uncommitted else throwIo error
      end
  end.

Definition prepareDurableStorageMutation (input : DurableStorageMutationInput) (id : string) :
    Io Prepared :=
  catchIo
    (r ← prepareMutation id (prepareInput id input);
     mret (found_mutation (pr_id r) (pr_mutation r) (pr_replayed r)))
    (fun error => resolveDurablePreparationFailure error input id).

(** What one admission attempt makes: the flag says that an uncommitted preparation
    was tried again already, in this attempt or before. *)
Definition prepareOnce (input : DurableStorageMutationInput) (id : string) (retried : bool) :
    Io (bool * result IoError (string * Mutation * bool)) :=
  let attempt (retried : bool) : Io (bool * result IoError (option (string * Mutation * bool))) :=
    catchIo
      (p ← prepareDurableStorageMutation input id;
       mret (retried, Ok (match p with
                          | found_mutation id m replayed => Some (id, m, replayed)
                          | uncommitted => None
                          end)))
      (fun error => mret (retried, Throw error)) in
  let unavailable := (true, Throw StorageTransactionUnavailableError) in
  first ← attempt retried;
  match first.2 with
  | Ok (Some found) => mret (retried, Ok found)
  | Throw error => mret (retried, Throw error)
  | Ok None =>
      if retried then mret unavailable
      else
        again ← attempt true;
        mret match again.2 with
             | Ok (Some found) => (true, Ok found)
             | Throw error => (true, Throw error)
             | Ok None => unavailable
             end
  end.

(** The turn in the owner's queue comes or does not. *)
Definition ownerTurn : Io unit :=
  catchIo (dbEffect (fun _ _ _ _ => mret tt))
    (fun _ => throwIo (StorageException StorageAdmissionBusyError)).

(** [waitForStorageAdmission] around it: a busy storage is tried again until the
    deadline, and the flag is kept from one attempt to the next. *)
Fixpoint prepareAdmitted (fuel : nat) (attempt deadline : Z) (input : DurableStorageMutationInput)
    (id : string) (retried : bool) : Io (string * Mutation * bool) :=
  match fuel with
  | O => throwIo (StorageException StorageAdmissionBusyError)
  | S fuel =>
      outcome ← prepareOnce input id retried;
      let '(retried, outcome) := (outcome : bool * result IoError (string * Mutation * bool)) in
      match outcome with
      | Ok found => mret found
      | Throw error =>
          if negb (bool_decide (error = StorageException StorageAdmissionBusyError))
          then throwIo error
          else
            now ← memory w_now;
            if deadline - now <=? 0 then throwIo error
            else
              _ ← pause (admissionPause attempt (deadline - now));
              now ← memory w_now;
              if deadline <=? now then throwIo error
              else prepareAdmitted fuel (attempt + 1) deadline input id retried
      end
  end.

(** ** Carrying it out *)

Definition resolveInterruptedExecution (mutationId : string) : Io (string * Mutation) :=
  current ← catchIo (findStorageMutation mutationId) (fun _ => mret None);
  match current with
  | Some current =>
      if bool_decide (mu_status current = succeeded) then mret (mutationId, current)
      else throwIo (StorageException (mutationStateConflict (mutationId, current)))
  | None => throwIo (StorageException
      (StorageMutationConflictError STORAGE_MUTATION_RECOVERING (Some mutationId)))
  end.

Definition noBoundary (_ : StorageMutationExecutionBoundary) (_ : option Step) : Io unit := mret tt.

Definition executePreparedMutation (leaseOwner : string) (mutation : string * Mutation)
    (resultJson : option Json) : Io (string * Mutation) :=
  now ← memory w_now;
  let run := claimAndExecuteStorageMutation mutation.1 leaseOwner
    (applyStorageMutationIntentMetadata ∅ now (mu_intentJson mutation.2))
    (fun _ => resultJson) noBoundary in
  executed ← catchIo (_ ← run; mret None)
    (fun error => match error with
       | StorageException (StorageMutationRejectedError _) => throwIo error
       | _ => found ← resolveInterruptedExecution mutation.1; mret (Some found)
       end);
  match executed with
  | Some found => mret found
  | None =>
      current ← findStorageMutation mutation.1;
      mret (mutation.1, default mutation.2 current)
  end.

(** ** A replay *)

Definition findDurableStorageMutationReplay (idempotencyKey : string)
    (input : DurableStorageMutationInput) (allowInProgress : bool) :
    Io (option (string * Mutation)) :=
  existing ← dbEffect (fun _ _ _ _ => read (fun db => findByIdempotencyKey db idempotencyKey));
  match existing with
  | None => mret None
  | Some found =>
      if negb (matchesRequest input found.2) then
        throwIo (StorageException
          (StorageMutationConflictError STORAGE_IDEMPOTENCY_KEY_REUSED None))
      else if negb (bool_decide (mu_status found.2 = succeeded)) && negb allowInProgress
      then throwIo (StorageException (mutationStateConflict found))
      else mret (Some found)
  end.

Definition replayExistingIdempotentMutation (input : DurableStorageMutationInput) :
    Io (option (string * Mutation)) :=
  match givenKey (di_idempotencyKey input) with
  | None => mret None
  | Some key => findDurableStorageMutationReplay key input false
  end.

(** The paths a mutation will make. *)
Definition plannedStorageKeys (input : DurableStorageMutationInput) : list string :=
  omap (fun step => givenKey (in_targetKey step)) (di_steps input)
  ++ omap (fun operation =>
       match operation with
       | op_create_file data => Some (cf_storageKey data)
       | op_update update =>
           match mapGet "storageKey" (up_data update) with
           | Some (JsString key) => Some key | _ => None end
       | _ => None
       end) (di_metadataOperations input).

(** ** The whole

    Of [assertStorageMutationMayStart] only the version of the protocol is asked:
    the probe of the filesystem, which writes and removes a file of its own below
    [tmp] and is remembered by the process, is left out. *)

Definition runDurableStorageMutation (freshId leaseOwner : string)
    (input : DurableStorageMutationInput) : Service (string * Mutation) :=
  replay ← doing (replayExistingIdempotentMutation input);
  match (replay : option (string * Mutation)) with
  | Some found => mret found
  | None =>
      _ ← lifted (assertStorageKeysFit (plannedStorageKeys input));
      _ ← assertStorageProtocolReady;
      _ ← doing ownerTurn;
      now ← doing (memory w_now);
      let id := default freshId (di_mutationId input) in
      prepared ← doing (prepareAdmitted admissionTurns 0 (now + ADMISSION_MS) input id false);
      let '(id, mutation, replayed) := (prepared : string * Mutation * bool) in
      if negb replayed then
        doing (executePreparedMutation leaseOwner (id, mutation) (di_resultJson input))
      else if bool_decide (mu_status mutation = Database.prepared) then
        doing (executePreparedMutation leaseOwner (id, mutation) (mu_resultJson mutation))
      else if bool_decide (mu_status mutation = succeeded) then mret (id, mutation)
      else doing (throwIo (StorageException (mutationStateConflict (id, mutation))))
  end.

End Durable.
