(* ===== verification/FileService.v ===== *)
(** * The file service

    [apps/web/server/files/service.ts]: creating, renaming, moving, trashing and
    restoring files and folders, and keeping the device's version of a conflict.
    Each request reads what it needs, plans one durable mutation, and runs it; the
    mutation guards the revisions the plan was made from.

    The branches with an injected repository, which only tests take, are left out.
    A request brings the two random ids it may need. *)

From Stdlib Require Import Ascii.
From Stdlib Require String.
From S2P Require Import Prelude JsValues Database MutationMetadata MutationPrepare Journal Disk Io StoragePaths StorageLayout TreeManifest FileRows DurableMutation.

Open Scope Z_scope.

(** ** Who asks, and for what *)

Inductive UserRole := role_owner | role_admin | role_member.
#[export] Instance UserRole_eq_dec : EqDecision UserRole.
Proof. solve_decision. Defined.

Definition canOwnerBrowseMemberPrivateContent : bool := false.

Definition canAccessPrivateNamespace (actorRole : UserRole) (actorUserId namespaceOwnerUserId : string) :
    bool :=
  bool_decide (actorUserId = namespaceOwnerUserId)
  || bool_decide (actorRole = role_owner) && canOwnerBrowseMemberPrivateContent.

(** Who asks, with the random ids the request would draw and the device session
    it came from, if one sent it ([requestDeviceId]). *)
Record Request := {
  rq_actorUserId : string; rq_actorRole : UserRole;
  rq_idempotencyKey : option string; rq_ifRevision : option Z;
  rq_storageMutationParentId : option string;
  rq_mutationId : string; rq_itemId : string; rq_leaseOwner : string; rq_deviceId : option string
}.

Record FolderRestoreLocation := {
  rl_originalParent : bool; rl_folderId : string; rl_folderName : string
}.

Record FolderMutationResult := {
  fm_folder : FolderSummary; fm_restoredTo : option FolderRestoreLocation
}.
Record FileMutationResult := {
  fu_file : option StoredFile; fu_deletedFileId : option string;
  fu_restoredTo : option FolderRestoreLocation
}.

Section Service.
Context `{Runtime, Installation}.

Definition accessible (request : Request) (ownerUserId : string) : bool :=
  canAccessPrivateNamespace (rq_actorRole request) (rq_actorUserId request) ownerUserId.

Definition assertFolderAccess (request : Request) (folder : option FolderSummary) :
    result ServiceError FolderSummary :=
  match folder with
  | Some folder => if accessible request (fo_ownerUserId folder) then Ok folder
                   else Throw (FilesError "FOLDER_NOT_FOUND")
  | None => Throw (FilesError "FOLDER_NOT_FOUND")
  end.
Definition assertFileAccess (request : Request) (file : option StoredFile) :
    result ServiceError StoredFile :=
  match file with
  | Some file => if accessible request (fi_ownerUserId file) then Ok file
                 else Throw (FilesError "FILE_NOT_FOUND")
  | None => Throw (FilesError "FILE_NOT_FOUND")
  end.

(** [assertStorageEntityReadable]. *)
Definition unavailableCode (status : StorageMutationStatus) : ConflictCode :=
  if bool_decide (status = recovery_required) then STORAGE_RECOVERY_REQUIRED
  else if bool_decide (status ∈ [prepared; running; retrying; metadata_committed; finalizing])
  then STORAGE_MUTATION_RECOVERING
  else STORAGE_MUTATION_IN_PROGRESS.

Definition assertStorageEntityReadable (type : EntityType) (id : string) : Service unit :=
  blocking ← query (findBlockingStorageMutationForEntity type id);
  match (blocking : option (string * Mutation)) with
  | Some (mutationId, m) => refuse (StorageEntityUnavailableError (unavailableCode (mu_status m)) mutationId)
  | None => mret tt
  end.

Definition getOwnedFolder (request : Request) (folderId : string) : Service FolderSummary :=
  found ← query (findFolderById folderId);
  folder ← lifted (assertFolderAccess request found);
  _ ← assertStorageEntityReadable et_folder (fo_id folder);
  mret folder.
Definition getOwnedFile (request : Request) (fileId : string) (includeMissing : bool) :
    Service StoredFile :=
  found ← query (findFileById fileId includeMissing);
  file ← lifted (assertFileAccess request found);
  _ ← assertStorageEntityReadable et_file (fi_id file);
  mret file.

Definition getActiveOwnedFolder (request : Request) (folderId : string) : Service FolderSummary :=
  folder ← getOwnedFolder request folderId;
  _ ← check (isLiveFolder folder) (FilesError "FOLDER_NOT_FOUND");
  mret folder.
Definition getActiveOwnedFile (request : Request) (fileId : string) : Service StoredFile :=
  file ← getOwnedFile request fileId false;
  _ ← check (isLiveFile file) (FilesError "FILE_NOT_FOUND");
  mret file.

Definition ensureFilesRoot (ownerUserId : string) : Service FolderSummary :=
  _ ← assertStorageProtocolReady;
  roots ← query (filesRoots ownerUserId);
  match (roots : list FolderSummary) with
  | [] => conflict STORAGE_RECOVERY_REQUIRED None
  | [root] => mret root
  | _ => refuse (PlainError "Multiple files roots require storage recovery.")
  end.

Definition assertMutableFolder (folder : FolderSummary) : Service unit :=
  check (negb (fo_isFilesRoot folder)) (FilesError "FOLDER_ROOT_IMMUTABLE").

Definition assertRevision (id : string) (storageRevision : Z) (ifRevision : option Z) : Service unit :=
  check (match ifRevision with None => true | Some r => bool_decide (storageRevision = r) end)
    (RevisionConflictError id).

Definition assertNoFolderNameConflict (ownerUserId parentId name : string)
    (excludeFolderId : option string) : Service unit :=
  taken ← query (findActiveNameConflict ownerUserId parentId name excludeFolderId None);
  check (negb taken) (FilesError "FOLDER_NAME_CONFLICT").
Definition assertNoFileNameConflict (ownerUserId parentId name : string)
    (excludeFileId : option string) : Service unit :=
  taken ← query (findActiveNameConflict ownerUserId parentId name None excludeFileId);
  check (negb taken) (FilesError "FILE_NAME_CONFLICT").

(** A name or the [FilesError] of its code. *)
Definition checkedName (name : result string string) : Service string :=
  match name with Ok value => mret value | Throw code => refuse (FilesError code) end.

Definition deterministicUuid (value : string) : string :=
  let hex := String.substring 0 32 (sha256 value) in
  String.substring 0 8 hex +:+ "-" +:+ String.substring 8 4 hex +:+ "-5"
  +:+ String.substring 13 3 hex +:+ "-a" +:+ String.substring 17 3 hex +:+ "-"
  +:+ String.substring 20 12 hex.

(** An id that a retry makes again, or a random one. *)
Definition idFor (request : Request) (what : string) : string :=
  match givenKey (rq_idempotencyKey request) with
  | Some key => deterministicUuid (what +:+ ":" +:+ key)
  | None => rq_itemId request
  end.

(** ** Answers kept with a mutation *)

Definition jsonOr (s : option string) : Json := match s with Some s => JString s | None => JNull end.
Definition jsonDate (ms : option Z) : Json := jsonOr (toISOString <$> ms).

Definition jsonLocation (location : option FolderRestoreLocation) : Json :=
  match location with
  | None => JNull
  | Some l => JObject
      [("kind", JString (if rl_originalParent l then "original-parent" else "files-root"));
       ("folderId", JString (rl_folderId l)); ("folderName", JString (rl_folderName l))]
  end.

Definition serializeFolderMutationResult (folder : FolderSummary)
    (restoredTo : option FolderRestoreLocation) : Json :=
  JObject [("response", JObject
    [("folder", JObject
       [("id", JString (fo_id folder)); ("ownerUserId", JString (fo_ownerUserId folder));
        ("ownerStorageId", JString (fo_ownerStorageId folder));
        ("parentId", jsonOr (fo_parentId folder)); ("name", JString (fo_name folder));
        ("isFilesRoot", JBool (fo_isFilesRoot folder));
        ("deletedAt", jsonDate (fo_deletedAt folder));
        ("storageRevision", JNumber (fo_storageRevision folder));
        ("trashEntryId", jsonOr (fo_trashEntryId folder)); ("storageMutation", JNull)]);
     ("restoredTo", jsonLocation restoredTo)])].

Definition serializeFileMutationResult (file : StoredFile)
    (restoredTo : option FolderRestoreLocation) : Json :=
  JObject [("response", JObject
    [("file", JObject
       [("id", JString (fi_id file)); ("ownerUserId", JString (fi_ownerUserId file));
        ("ownerStorageId", JString (fi_ownerStorageId file));
        ("folderId", jsonOr (fi_folderId file)); ("name", JString (fi_name file));
        ("mimeType", JString (fi_mimeType file)); ("sizeBytes", JNumber (fi_sizeBytes file));
        ("storageRevision", JNumber (fi_storageRevision file));
        ("trashEntryId", jsonOr (fi_trashEntryId file));
        ("clientModifiedAt", jsonDate (fi_clientModifiedAt file));
        ("deletedAt", jsonDate (fi_deletedAt file)); ("storageMutation", JNull)]);
     ("deletedFileId", JNull); ("restoredTo", jsonLocation restoredTo)])].

Definition jsonField (key : string) (value : Json) : option Json :=
  match value with JObject fields => mapGet key fields | _ => None end.
Definition jsonString (value : option Json) : option string :=
  match value with Some (JString s) => Some s | _ => None end.

(** [replayRestoreLocation] of the [response] that was kept. *)
Definition replayRestoreLocation (resultJson : option Json) : option FolderRestoreLocation :=
  stored ← resultJson; response ← jsonField "response" stored;
  location ← jsonField "restoredTo" response;
  folderId ← jsonString (jsonField "folderId" location);
  folderName ← jsonString (jsonField "folderName" location);
  kind ← jsonString (jsonField "kind" location);
  Some {| rl_originalParent := bool_decide (kind = "original-parent");
          rl_folderId := folderId; rl_folderName := folderName |}.

(** [parse*MutationReplay(...)?.restoredTo]: nothing when the item's part is not
    there. *)
Definition keptLocation (item : string) (resultJson : option Json) : option FolderRestoreLocation :=
  stored ← resultJson; response ← jsonField "response" stored;
  value ← jsonField item response;
  match value with JObject _ => replayRestoreLocation resultJson | _ => None end.

Definition storeResult (json : Json) (key : string) (m : Mutation) : Mutation :=
  if bool_decide (mu_idempotencyKey m = Some key) && bool_decide (mu_status m = succeeded)
  then mutate m (mu_status m) (mu_intentJson m) (Some json) (mu_idempotencyKey m)
         (mu_reservedBytes m) (mu_metadataCommittedAt m) (mu_completedAt m)
         (mu_recoveryRequiredAt m) (mu_lease m) (mu_attempts m)
  else m.

Definition persistDirectMutationReplay (request : Request) (json : Json) : Service unit :=
  match givenKey (rq_idempotencyKey request) with
  | None => mret tt
  | Some key => doing (dbEffect (fun _ _ _ _ =>
      modify (fun db => set_mutations (storeResult json key <$> db_mutations db) db)))
  end.

Definition findDirectMutationReplay (request : Request) (kind : StorageMutationKind)
    (type : EntityType) (entityId : string) (requestHashPayload : Json) :
    Service (option Mutation) :=
  match givenKey (rq_idempotencyKey request) with
  | None => mret None
  | Some key =>
      found ← query (fun db => findByIdempotencyKey db key);
      match (found : option (string * Mutation)) with
      | None => mret None
      | Some (_, prior) =>
          if negb (bool_decide (mu_kind prior = kind))
             || negb (bool_decide (mu_requestHash prior
                                   = Some (hashDurableStorageRequest requestHashPayload)))
             || negb (mutationHasEntity type entityId prior)
             || negb (accessible request (mu_ownerUserId prior))
          then conflict STORAGE_IDEMPOTENCY_KEY_REUSED None
          else if bool_decide (mu_status prior = recovery_required)
          then conflict STORAGE_RECOVERY_REQUIRED None
          else if negb (bool_decide (mu_status prior = succeeded))
          then conflict STORAGE_MUTATION_RECOVERING None
          else mret (Some prior)
      end
  end.

Definition replayFolderMutation (replay : Mutation) (folderId : string) :
    Service FolderMutationResult :=
  folder ← query (findFolderById folderId);
  match (folder : option FolderSummary) with
  | None => conflict STORAGE_RECOVERY_REQUIRED None
  | Some folder => mret {| fm_folder := folder;
                           fm_restoredTo := keptLocation "folder" (mu_resultJson replay) |}
  end.
Definition replayFileMutation (replay : Mutation) (fileId : string) : Service FileMutationResult :=
  file ← query (findFileById fileId true);
  match (file : option StoredFile) with
  | None => mret {| fu_file := None; fu_deletedFileId := Some fileId; fu_restoredTo := None |}
  | Some file => mret {| fu_file := Some file; fu_deletedFileId := None;
                         fu_restoredTo := keptLocation "file" (mu_resultJson replay) |}
  end.

Definition replayFolderSummary (value : Json) : option FolderSummary :=
  id ← jsonString (jsonField "id" value);
  Some {| fo_id := id;
          fo_ownerUserId := default "" (jsonString (jsonField "ownerUserId" value));
          fo_ownerStorageId := default "" (jsonString (jsonField "ownerStorageId" value));
          fo_parentId := jsonString (jsonField "parentId" value);
          fo_name := default "" (jsonString (jsonField "name" value));
          fo_isFilesRoot := match jsonField "isFilesRoot" value with
                            | Some (JBool b) => b | _ => false end;
          fo_deletedAt := jsonString (jsonField "deletedAt" value) ≫= dateOf;
          fo_storageRevision := match jsonField "storageRevision" value with
                                | Some (JNumber n) => n | _ => 0 end;
          fo_trashEntryId := jsonString (jsonField "trashEntryId" value) |}.

Definition parseFolderMutationReplay (resultJson : option Json) : option FolderMutationResult :=
  stored ← resultJson; response ← jsonField "response" stored;
  value ← jsonField "folder" response; folder ← replayFolderSummary value;
  Some {| fm_folder := folder; fm_restoredTo := replayRestoreLocation resultJson |}.

(** ** What the disk holds now *)

(** [catch (error) { if (error instanceof StorageMutationAmbiguityError) ... }]. *)
Definition unlessAmbiguous {A} (m : Io A) (otherwise : A) : Io A :=
  catchIo m (fun error => match error with
                          | StorageMutationAmbiguityError _ => mret otherwise
                          | _ => throwIo error
                          end).

Definition fingerprintFileIfDeterminable (storageKey : string) : Io (option string) :=
  unlessAmbiguous (checksum ← calculateStorageFileChecksum storageKey; mret (Some checksum)) None.

Definition fingerprintTreeIfDeterminable (storageKey : string) : Io (option string) :=
  let absolutePath := pathOfKey storageKey in
  found ← catchIo (node ← fs (lstat absolutePath); mret (Some node))
    (fun error => match error with ErrnoException ENOENT => mret None | _ => throwIo error end);
  match (found : option Node) with
  | None => mret None
  | Some NDirectory =>
      unlessAmbiguous (digest ← calculateTreeManifestDigest absolutePath; mret (Some digest))
        (Some "invalid-tree-manifest")
  | Some _ => mret (Some "invalid-tree-node")
  end.

Definition resolveDurableFileFingerprint (file : StoredFile) : Io (option string) :=
  match fi_contentChecksum file with
  | Some checksum => mret (Some checksum)
  | None => fingerprintFileIfDeterminable (fi_storageKey file)
  end.

(** [path.posix.relative] of two keys below the root. *)
Fixpoint dropCommon (from to : list string) : list string * list string :=
  match from, to with
  | a :: from', b :: to' => if bool_decide (a = b) then dropCommon from' to' else (from, to)
  | _, _ => (from, to)
  end.
Definition posixRelative (from to : string) : string :=
  let '(up, down) := dropCommon (pathOfKey from) (pathOfKey to) in
  joinWith "/" (((fun _ => "..") <$> up) ++ down).

Definition relativeIsOutside (relative : string) : bool :=
  bool_decide (relative = "") || bool_decide (relative = "..") || startsWith "../" relative.

Definition relativeStorageKeyWithin (rootKey storageKey : string) : result ServiceError string :=
  let relative := posixRelative rootKey storageKey in
  if relativeIsOutside relative
  then Throw (PlainError "Storage metadata is outside mutation tree.") else Ok relative.

Definition capturedKey (rootStorageKey storageKey : string) : Io string :=
  let relative := posixRelative rootStorageKey storageKey in
  if relativeIsOutside relative
  then throwIo (StorageMutationAmbiguityError "Folder member storage path escapes captured tree.")
  else mret relative.

Fixpoint captureFolders (rootStorageKey : string) (keys : list string) : Io (list CapturedEntry) :=
  match keys with
  | [] => mret []
  | key :: rest =>
      relative ← capturedKey rootStorageKey key;
      others ← captureFolders rootStorageKey rest;
      mret (captured_directory relative :: others)
  end.

(** The entries of the files, and the checksum of each. *)
Fixpoint captureFiles (rootStorageKey : string) (members : list StoredFile) :
    Io (list CapturedEntry * list (string * string)) :=
  match members with
  | [] => mret ([], [])
  | file :: rest =>
      checksum ← match fi_contentChecksum file with
                 | Some checksum => mret checksum
                 | None => calculateStorageFileChecksum (fi_storageKey file)
                 end;
      relative ← capturedKey rootStorageKey (fi_storageKey file);
      others ← captureFiles rootStorageKey rest;
      mret (captured_file relative (fi_sizeBytes file) checksum :: others.1,
            (fi_id file, checksum) :: others.2)
  end.

Definition captureFolderTreeManifest (rootStorageKey : string) (folderStorageKeys : list string)
    (members : list StoredFile) : Io (string * list (string * string)) :=
  directories ← captureFolders rootStorageKey folderStorageKeys;
  captured ← captureFiles rootStorageKey members;
  mret (calculateCapturedTreeManifestDigest (directories ++ captured.1), captured.2).

(** ** Plans for one file *)

Record TrashEntryPlan := {
  tp_id : string; tp_deletedAt : Z; tp_storageRootKey : string;
  tp_treeManifestDigest : option string
}.

Definition scalarOr (s : option string) : JsonScalar :=
  match s with Some s => JsString s | None => JsNull end.

(** The object of a list of fields, for the journal's record of an entity. *)
Definition scalarJson (value : JsonScalar) : Json :=
  match value with JsNull => JNull | JsString s => JString s | JsNumber n => JNumber n
  | JsBool b => JBool b end.
Definition dataJson (data : list (string * JsonScalar)) : Json :=
  JObject ((fun field => (field.1, scalarJson field.2)) <$> data).

Definition isolatedTrashEntry (rootKind : RootKind) (ownerUserId rootEntityId : string)
    (entry : TrashEntryPlan) : StorageMetadataOperation :=
  op_create_trash_entry
    {| ct_id := tp_id entry; ct_ownerUserId := ownerUserId; ct_rootKind := rootKind;
       ct_rootEntityId := rootEntityId; ct_deletedAt := toISOString (tp_deletedAt entry);
       ct_storageRootKey := Some (tp_storageRootKey entry);
       ct_treeManifestDigest := tp_treeManifestDigest entry;
       ct_layoutVersion := isolated_layout |}.

Definition updateOf (type : EntityType) (id : string) (preRevision : Z)
    (data : list (string * JsonScalar)) : StorageMetadataOperation :=
  op_update {| up_entityType := type; up_entityId := id; up_preRevision := preRevision;
               up_data := data |}.

Definition deleteEntry (deleteTrashEntryId : option string) : list StorageMetadataOperation :=
  match givenKey deleteTrashEntryId with Some id => [op_delete_trash_entry id] | None => [] end.

Definition buildDurableFileOperations (file : StoredFile) (effectiveData : list (string * JsonScalar))
    (trashEntry : option TrashEntryPlan) (deleteTrashEntryId : option string) :
    list StorageMetadataOperation :=
  match trashEntry with
  | Some entry => [isolatedTrashEntry root_file (fi_ownerUserId file) (fi_id file) entry]
  | None => []
  end
  ++ [updateOf et_file (fi_id file) (fi_storageRevision file) effectiveData]
  ++ deleteEntry deleteTrashEntryId.

Definition renameFileStep (sourceKey targetKey : string) (sizeBytes : Z)
    (expectedChecksum : option string) : StorageMutationStepInput :=
  {| in_action := rename_step; in_sourceKey := Some sourceKey; in_targetKey := Some targetKey;
     in_expectedNodeType := Some file_node; in_expectedSizeBytes := Some sizeBytes;
     in_expectedChecksum := expectedChecksum; in_treeManifestDigest := None |}.

Definition buildDurableFileSteps (file : StoredFile) (toStorageKey : string)
    (expectedChecksum : option string) : list StorageMutationStepInput :=
  if bool_decide (fi_storageKey file = toStorageKey) then []
  else [renameFileStep (fi_storageKey file) toStorageKey (fi_sizeBytes file) expectedChecksum].

(** The entity of an item that is changed: its row counts up by one. *)
Definition changedEntity (type : EntityType) (id : string) (revision : Z) (before after : Json) :
    StorageMutationEntityInput :=
  {| en_entityType := type; en_entityId := id; en_preRevision := revision;
     en_postRevision := revision + 1; en_beforeJson := Some before; en_afterJson := Some after |}.

(** A guard: the row must be as it was read, and is not changed. *)
Definition guardFolder (folder : FolderSummary) : StorageMutationEntityInput :=
  {| en_entityType := et_folder; en_entityId := fo_id folder;
     en_preRevision := fo_storageRevision folder; en_postRevision := fo_storageRevision folder;
     en_beforeJson := None; en_afterJson := None |}.

Definition buildDurableFileEntity (file : StoredFile) (effectiveData : list (string * JsonScalar))
    (toStorageKey : string) : StorageMutationEntityInput :=
  changedEntity et_file (fi_id file) (fi_storageRevision file)
    (JObject [("storageKey", JString (fi_storageKey file)); ("name", JString (fi_name file));
              ("folderId", jsonOr (fi_folderId file)); ("deletedAt", jsonDate (fi_deletedAt file));
              ("trashEntryId", jsonOr (fi_trashEntryId file))])
    (dataJson (effectiveData ++ [("storageKey", JsString toStorageKey)])).

Definition includeCapturedChecksum (file : StoredFile) (data : list (string * JsonScalar))
    (expectedChecksum : option string) : list (string * JsonScalar) :=
  match givenKey (fi_contentChecksum file), givenKey expectedChecksum with
  | None, Some checksum => data ++ [("contentChecksum", JsString checksum)]
  | _, _ => data
  end.

(** What a change of one file is given, besides the file. *)
Record FileChange := {
  fc_kind : StorageMutationKind; fc_toStorageKey : string;
  fc_data : list (string * JsonScalar); fc_trashEntry : option TrashEntryPlan;
  fc_deleteTrashEntryId : option string; fc_parentId : option string;
  fc_requestHashPayload : Json; fc_resultJson : Json;
  fc_guardEntities : list StorageMutationEntityInput
}.

Definition durableFileInput (request : Request) (file : StoredFile)
    (expectedChecksum : option string) (change : FileChange) : DurableStorageMutationInput :=
  let effectiveData := includeCapturedChecksum file (fc_data change) expectedChecksum in
  {| di_kind := fc_kind change; di_ownerUserId := fi_ownerUserId file;
     di_idempotencyKey := rq_idempotencyKey request;
     di_metadataOperations := buildDurableFileOperations file effectiveData
       (fc_trashEntry change) (fc_deleteTrashEntryId change);
     di_steps := buildDurableFileSteps file (fc_toStorageKey change) expectedChecksum;
     di_entities := buildDurableFileEntity file effectiveData (fc_toStorageKey change)
                    :: fc_guardEntities change;
     di_resourceKeys := None; di_uploadSessionId := None; di_mutationId := None;
     di_requestHashPayload := fc_requestHashPayload change;
     di_resultJson := Some (fc_resultJson change); di_parentId := fc_parentId change;
     di_reservedBytes := None; di_originDeviceId := rq_deviceId request |}.

Definition runFor (request : Request) (input : DurableStorageMutationInput) : Service unit :=
  _ ← runDurableStorageMutation (rq_mutationId request) (rq_leaseOwner request) input;
  mret tt.

(** The row after the change. Were it gone by then, the source would go on to the
    move without a journal; here that is an error. *)
Definition durablyUpdateFile (request : Request) (file : StoredFile) (change : FileChange) :
    Service StoredFile :=
  expectedChecksum ← doing (resolveDurableFileFingerprint file);
  _ ← runFor request (durableFileInput request file expectedChecksum change);
  updated ← query (findFileById (fi_id file) true);
  match (updated : option StoredFile) with
  | Some updated => mret updated
  | None => refuse (PlainError "The source storage path no longer exists.")
  end.

(** ** Plans for a folder and what is below it *)

Record FolderTreeUpdate := { tu_folder : FolderSummary; tu_data : list (string * JsonScalar) }.
Record FolderTreeFileUpdate := { tf_file : StoredFile; tf_data : list (string * JsonScalar) }.

Definition buildDurableFolderOperations (rootFolder : FolderSummary)
    (folderUpdates : list FolderTreeUpdate) (fileUpdates : list FolderTreeFileUpdate)
    (trashEntry : option TrashEntryPlan) (deleteTrashEntryId : option string) :
    list StorageMetadataOperation :=
  match trashEntry with
  | Some entry =>
      [isolatedTrashEntry root_folder (fo_ownerUserId rootFolder) (fo_id rootFolder) entry]
  | None => []
  end
  ++ ((fun update => updateOf et_folder (fo_id (tu_folder update))
                       (fo_storageRevision (tu_folder update)) (tu_data update)) <$> folderUpdates)
  ++ ((fun update => updateOf et_file (fi_id (tf_file update))
                       (fi_storageRevision (tf_file update)) (tf_data update)) <$> fileUpdates)
  ++ deleteEntry deleteTrashEntryId.

Definition renameFolderStep (sourceKey targetKey : string) (treeManifestDigest : option string) :
    StorageMutationStepInput :=
  {| in_action := rename_step; in_sourceKey := Some sourceKey; in_targetKey := Some targetKey;
     in_expectedNodeType := Some directory_node; in_expectedSizeBytes := None;
     in_expectedChecksum := None; in_treeManifestDigest := treeManifestDigest |}.
Definition mkdirStep (targetKey : string) : StorageMutationStepInput :=
  {| in_action := mkdir_step; in_sourceKey := None; in_targetKey := Some targetKey;
     in_expectedNodeType := Some directory_node; in_expectedSizeBytes := None;
     in_expectedChecksum := None; in_treeManifestDigest := Some EMPTY_TREE_MANIFEST_DIGEST |}.

Definition durableFolderEntity (update : FolderTreeUpdate) : StorageMutationEntityInput :=
  let folder := tu_folder update in
  changedEntity et_folder (fo_id folder) (fo_storageRevision folder)
    (JObject [("name", JString (fo_name folder)); ("parentId", jsonOr (fo_parentId folder));
              ("deletedAt", jsonDate (fo_deletedAt folder));
              ("trashEntryId", jsonOr (fo_trashEntryId folder))])
    (dataJson (tu_data update)).
Definition durableTreeFileEntity (update : FolderTreeFileUpdate) : StorageMutationEntityInput :=
  let file := tf_file update in
  changedEntity et_file (fi_id file) (fi_storageRevision file)
    (JObject [("storageKey", JString (fi_storageKey file));
              ("deletedAt", jsonDate (fi_deletedAt file));
              ("trashEntryId", jsonOr (fi_trashEntryId file))])
    (dataJson (tf_data update)).

Record FolderChange := {
  dc_kind : StorageMutationKind; dc_fromStorageKey : string; dc_toStorageKey : string;
  dc_folderUpdates : list FolderTreeUpdate; dc_fileUpdates : list FolderTreeFileUpdate;
  dc_trashEntry : option TrashEntryPlan; dc_expectedTreeManifestDigest : option string;
  dc_deleteTrashEntryId : option string; dc_stepsOverride : option (list StorageMutationStepInput);
  dc_parentId : option string; dc_requestHashPayload : Json; dc_resultJson : Json;
  dc_guardEntities : list StorageMutationEntityInput
}.

Definition resolveDurableTreeDigest (change : FolderChange) : Io (option string) :=
  let known := match dc_trashEntry change ≫= tp_treeManifestDigest with
               | Some digest => Some digest
               | None => dc_expectedTreeManifestDigest change
               end in
  if bool_decide (givenKey known <> None)
     || bool_decide (is_Some (dc_stepsOverride change))
     || bool_decide (dc_fromStorageKey change = dc_toStorageKey change)
  then mret known
  else fingerprintTreeIfDeterminable (dc_fromStorageKey change).

Definition buildDurableFolderSteps (change : FolderChange) (treeManifestDigest : option string) :
    list StorageMutationStepInput :=
  match dc_stepsOverride change with
  | Some steps => steps
  | None =>
      if bool_decide (dc_fromStorageKey change = dc_toStorageKey change) then []
      else [renameFolderStep (dc_fromStorageKey change) (dc_toStorageKey change) treeManifestDigest]
  end.

Definition durableFolderInput (request : Request) (rootFolder : FolderSummary)
    (treeManifestDigest : option string) (change : FolderChange) : DurableStorageMutationInput :=
  {| di_kind := dc_kind change; di_ownerUserId := fo_ownerUserId rootFolder;
     di_idempotencyKey := rq_idempotencyKey request;
     di_metadataOperations := buildDurableFolderOperations rootFolder (dc_folderUpdates change)
       (dc_fileUpdates change) (dc_trashEntry change) (dc_deleteTrashEntryId change);
     di_steps := buildDurableFolderSteps change treeManifestDigest;
     di_entities := (durableFolderEntity <$> dc_folderUpdates change)
       ++ (durableTreeFileEntity <$> dc_fileUpdates change) ++ dc_guardEntities change;
     di_resourceKeys := None; di_uploadSessionId := None; di_mutationId := None;
     di_requestHashPayload := dc_requestHashPayload change;
     di_resultJson := Some (dc_resultJson change); di_parentId := dc_parentId change;
     di_reservedBytes := None; di_originDeviceId := rq_deviceId request |}.

Definition durablyUpdateFolderTree (request : Request) (rootFolder : FolderSummary)
    (change : FolderChange) (failed : string) : Service FolderSummary :=
  treeManifestDigest ← doing (resolveDurableTreeDigest change);
  _ ← runFor request (durableFolderInput request rootFolder treeManifestDigest change);
  updated ← query (findFolderById (fo_id rootFolder));
  match (updated : option FolderSummary) with
  | Some updated => mret updated
  | None => refuse (PlainError failed)
  end.
End Service.
