(* ===== verification/FileOperations.v ===== *)
(** * Operations on files and folders

    [renameFile], [moveFile], [trashFile], [restoreFile] and [keepMine], and
    [createFolder], [renameFolder], [moveFolder], [trashFolder] and [restoreFolder],
    of [apps/web/server/files/service.ts]. A change of a folder is one directory
    rename on disk, and one update of every live folder and file below it: a file
    takes the key that the new place of its folders gives it.

    Each operation looks for an earlier attempt of the same request, reads the item
    and what is around it and plans ([renameFolderPlan] and its like), and then runs
    the one durable mutation of the plan: what other requests do in between is seen
    by the revisions the plan was made from, or not at all.

    Reads that the source starts together run in the order they are written. A
    field that the source leaves out of a kept answer is null here. *)

From Stdlib Require String.
From S2P Require Import Prelude JsValues Database MutationMetadata MutationPrepare Journal Disk Io StorageLayout TreeManifest FileRows DurableMutation FileService.

Open Scope Z_scope.

(** ** Items after a change *)

Definition fileNamed (name : string) (file : StoredFile) : StoredFile :=
  {| fi_id := fi_id file; fi_ownerUserId := fi_ownerUserId file;
     fi_ownerStorageId := fi_ownerStorageId file; fi_folderId := fi_folderId file;
     fi_name := name; fi_mimeType := fi_mimeType file; fi_sizeBytes := fi_sizeBytes file;
     fi_storageRevision := fi_storageRevision file; fi_trashEntryId := fi_trashEntryId file;
     fi_clientModifiedAt := fi_clientModifiedAt file; fi_deletedAt := fi_deletedAt file;
     fi_storageKey := fi_storageKey file; fi_storageStatus := fi_storageStatus file;
     fi_contentChecksum := fi_contentChecksum file |}.
Definition fileIn (folderId : option string) (deletedAt : option Z) (file : StoredFile) : StoredFile :=
  {| fi_id := fi_id file; fi_ownerUserId := fi_ownerUserId file;
     fi_ownerStorageId := fi_ownerStorageId file; fi_folderId := folderId;
     fi_name := fi_name file; fi_mimeType := fi_mimeType file; fi_sizeBytes := fi_sizeBytes file;
     fi_storageRevision := fi_storageRevision file; fi_trashEntryId := fi_trashEntryId file;
     fi_clientModifiedAt := fi_clientModifiedAt file; fi_deletedAt := deletedAt;
     fi_storageKey := fi_storageKey file; fi_storageStatus := fi_storageStatus file;
     fi_contentChecksum := fi_contentChecksum file |}.

Section FileOperations.
Context `{Runtime, Installation}.

(** ** Around an operation *)

Definition unlessReplayed {A} (replay : Service (option Mutation)) (again : Mutation -> Service A)
    (go : Service A) : Service A :=
  found ← replay;
  match (found : option Mutation) with Some prior => again prior | None => go end.

(** The durable change, and the answer of the request, which is kept. *)
Definition answerFile (request : Request) (updated : StoredFile)
    (restoredTo : option FolderRestoreLocation) : Service FileMutationResult :=
  _ ← persistDirectMutationReplay request (serializeFileMutationResult updated restoredTo);
  mret {| fu_file := Some updated; fu_deletedFileId := None; fu_restoredTo := restoredTo |}.

Definition changeFile (request : Request) (file : StoredFile) (change : FileChange)
    (restoredTo : option FolderRestoreLocation) : Service FileMutationResult :=
  updated ← durablyUpdateFile request file change;
  answerFile request updated restoredTo.

(** A name in the trash, or the [SyntaxError] of an id that is no number. *)
Definition trashKey (ownerStorageId : string) (kind : SegmentKind) (name : string) (deletedAt : Z)
    (trashEntryId : string) : Service string :=
  match buildIsolatedTrashStorageKey ownerStorageId kind name deletedAt trashEntryId with
  | Some key => mret key
  | None => refuse (PlainError "Cannot convert to a BigInt")
  end.

Definition destinationOf (request : Request) (destinationFolderId : option string) :
    Service FolderSummary :=
  match givenKey destinationFolderId with
  | Some id => getActiveOwnedFolder request id
  | None => ensureFilesRoot (rq_actorUserId request)
  end.

Definition getRestoreLocation (parentId : option string) (ownerUserId : string)
    (filesRoot : FolderSummary) : Service FolderRestoreLocation :=
  parent ← match givenKey parentId with
           | Some id => query (findFolderById id)
           | None => mret None
           end;
  mret match (parent : option FolderSummary) with
       | Some folder =>
           if bool_decide (fo_ownerUserId folder = ownerUserId) && isLiveFolder folder
           then {| rl_originalParent := true; rl_folderId := fo_id folder;
                   rl_folderName := fo_name folder |}
           else {| rl_originalParent := false; rl_folderId := fo_id filesRoot;
                   rl_folderName := fo_name filesRoot |}
       | None => {| rl_originalParent := false; rl_folderId := fo_id filesRoot;
                    rl_folderName := fo_name filesRoot |}
       end.

(** [buildStorageMutationChildRequestHashPayload] of a move in a batch. *)
Definition moveHashPayload (request : Request) (kind idKey id : string)
    (destinationFolderId : option string) : result ServiceError Json :=
  match givenKey (rq_storageMutationParentId request), givenKey destinationFolderId with
  | Some _, None => Throw (PlainError "Batch-move child lacks destination folder.")
  | _, _ => Ok (JObject [("kind", JString kind); (idKey, JString id);
                         ("destinationFolderId", jsonOr destinationFolderId)])
  end.

(** ** Rename *)

Definition renameFileChange (request : Request) (file : StoredFile) (name key : string)
    (payload : Json) : FileChange :=
  {| fc_kind := file_rename; fc_toStorageKey := key;
     fc_data := [("originalName", JsString name); ("storageKey", JsString key)];
     fc_trashEntry := None; fc_deleteTrashEntryId := None;
     fc_parentId := rq_storageMutationParentId request; fc_requestHashPayload := payload;
     fc_resultJson := serializeFileMutationResult (fileNamed name file) None;
     fc_guardEntities := [] |}.

Definition renameFilePlan (request : Request) (fileId normalizedName : string) (payload : Json) :
    Service (StoredFile * FileChange) :=
  file ← getActiveOwnedFile request fileId;
  _ ← assertRevision (fi_id file) (fi_storageRevision file) (rq_ifRevision request);
  filesRoot ← ensureFilesRoot (fi_ownerUserId file);
  let parentId := default (fo_id filesRoot) (fi_folderId file) in
  _ ← assertNoFileNameConflict (fi_ownerUserId file) parentId normalizedName (Some (fi_id file));
  folderMap ← query (readFolderMap (fi_ownerUserId file) [Some parentId] []);
  let key := buildFileStorageKey (fi_ownerStorageId file) (fi_folderId file) normalizedName
               folderMap filesRoot in
  mret (file, renameFileChange request file normalizedName key payload).

Definition renameFile (request : Request) (fileId name : string) : Service FileMutationResult :=
  _ ← assertStorageProtocolReady;
  normalizedName ← checkedName (normalizeFileName name);
  let payload := JObject [("kind", JString "file_rename"); ("fileId", JString fileId);
                          ("name", JString normalizedName)] in
  unlessReplayed (findDirectMutationReplay request file_rename et_file fileId payload)
    (fun replay => replayFileMutation replay fileId)
    (plan ← renameFilePlan request fileId normalizedName payload;
     changeFile request plan.1 plan.2 None).

(** ** Move *)

Definition moveFileChange (request : Request) (file : StoredFile) (destination : FolderSummary)
    (key : string) (payload : Json) : FileChange :=
  {| fc_kind := file_move; fc_toStorageKey := key;
     fc_data := [("folderId", JsString (fo_id destination)); ("storageKey", JsString key)];
     fc_trashEntry := None; fc_deleteTrashEntryId := None;
     fc_parentId := rq_storageMutationParentId request; fc_requestHashPayload := payload;
     fc_resultJson := serializeFileMutationResult
       (fileIn (Some (fo_id destination)) (fi_deletedAt file) file) None;
     fc_guardEntities := [guardFolder destination] |}.

Definition moveFilePlan (request : Request) (fileId : string)
    (destinationFolderId : option string) (payload : Json) : Service (StoredFile * FileChange) :=
  file ← getActiveOwnedFile request fileId;
  _ ← assertRevision (fi_id file) (fi_storageRevision file) (rq_ifRevision request);
  destination ← destinationOf request destinationFolderId;
  _ ← check (negb (bool_decide (Some (fo_id destination) = fi_folderId file)))
        (FilesError "FILE_MOVE_NOOP");
  _ ← assertNoFileNameConflict (fi_ownerUserId file) (fo_id destination) (fi_name file)
        (Some (fi_id file));
  filesRoot ← ensureFilesRoot (fi_ownerUserId file);
  folderMap ← query (readFolderMap (fi_ownerUserId file) [Some (fo_id destination)] []);
  let key := buildFileStorageKey (fi_ownerStorageId file) (Some (fo_id destination))
               (fi_name file) folderMap filesRoot in
  mret (file, moveFileChange request file destination key payload).

Definition moveFile (request : Request) (fileId : string) (destinationFolderId : option string) :
    Service FileMutationResult :=
  _ ← assertStorageProtocolReady;
  payload ← lifted (moveHashPayload request "file_move" "fileId" fileId destinationFolderId);
  unlessReplayed (findDirectMutationReplay request file_move et_file fileId payload)
    (fun replay => replayFileMutation replay fileId)
    (plan ← moveFilePlan request fileId destinationFolderId payload;
     changeFile request plan.1 plan.2 None).

(** ** Trash *)

Definition trashFileChange (file : StoredFile) (deletedAt : Z) (trashEntryId key : string)
    (payload : Json) : FileChange :=
  {| fc_kind := file_trash; fc_toStorageKey := key;
     fc_data := [("deletedAt", JsString (toISOString deletedAt)); ("storageKey", JsString key);
                 ("trashEntryId", JsString trashEntryId)];
     fc_trashEntry := Some {| tp_id := trashEntryId; tp_deletedAt := deletedAt;
                              tp_storageRootKey := key; tp_treeManifestDigest := None |};
     fc_deleteTrashEntryId := None; fc_parentId := None; fc_requestHashPayload := payload;
     fc_resultJson := serializeFileMutationResult
       (fileIn (fi_folderId file) (Some deletedAt) file) None;
     fc_guardEntities := [] |}.

Definition trashFilePlan (request : Request) (fileId : string) (payload : Json) :
    Service (StoredFile * FileChange) :=
  file ← getActiveOwnedFile request fileId;
  _ ← assertRevision (fi_id file) (fi_storageRevision file) (rq_ifRevision request);
  _ ← ensureFilesRoot (fi_ownerUserId file);
  _ ← query (readFolderMap (fi_ownerUserId file) [fi_folderId file] []);
  deletedAt ← doing (memory w_now);
  let trashEntryId := idFor request ("file-trash:" +:+ fi_id file) in
  key ← trashKey (fi_ownerStorageId file) file_segment (fi_name file) deletedAt trashEntryId;
  mret (file, trashFileChange file deletedAt trashEntryId key payload).

Definition trashFile (request : Request) (fileId : string) : Service FileMutationResult :=
  _ ← assertStorageProtocolReady;
  let payload := JObject [("kind", JString "file_trash"); ("fileId", JString fileId)] in
  unlessReplayed (findDirectMutationReplay request file_trash et_file fileId payload)
    (fun replay => replayFileMutation replay fileId)
    (plan ← trashFilePlan request fileId payload;
     changeFile request plan.1 plan.2 None).

(** ** Restore *)

Definition restoreFileChange (file : StoredFile) (location : FolderRestoreLocation) (key : string)
    (payload : Json) : FileChange :=
  {| fc_kind := file_restore; fc_toStorageKey := key;
     fc_data := [("deletedAt", JsNull); ("folderId", JsString (rl_folderId location));
                 ("storageKey", JsString key); ("trashEntryId", JsNull)];
     fc_trashEntry := None; fc_deleteTrashEntryId := fi_trashEntryId file; fc_parentId := None;
     fc_requestHashPayload := payload;
     fc_resultJson := serializeFileMutationResult
       (fileIn (Some (rl_folderId location)) None file) (Some location);
     fc_guardEntities := [] |}.

Definition restoreFilePlan (request : Request) (fileId : string) (payload : Json) :
    Service (StoredFile * FileChange * FolderRestoreLocation) :=
  file ← getOwnedFile request fileId true;
  _ ← check (negb (isLiveFile file)) (FilesError "FILE_ALREADY_ACTIVE");
  _ ← check (negb (bool_decide (fi_storageStatus file = "missing")))
        (FilesError "FILE_CONTENT_MISSING");
  filesRoot ← ensureFilesRoot (fi_ownerUserId file);
  location ← getRestoreLocation (fi_folderId file) (fi_ownerUserId file) filesRoot;
  _ ← assertNoFileNameConflict (fi_ownerUserId file) (rl_folderId location) (fi_name file)
        (Some (fi_id file));
  folderMap ← query (readFolderMap (fi_ownerUserId file) [Some (rl_folderId location)] []);
  let key := buildFileStorageKey (fi_ownerStorageId file) (Some (rl_folderId location))
               (fi_name file) folderMap filesRoot in
  mret (file, restoreFileChange file location key payload, location).

Definition restoreFile (request : Request) (fileId : string) : Service FileMutationResult :=
  _ ← assertStorageProtocolReady;
  let payload := JObject [("kind", JString "file_restore"); ("fileId", JString fileId)] in
  unlessReplayed (findDirectMutationReplay request file_restore et_file fileId payload)
    (fun replay => replayFileMutation replay fileId)
    (plan ← restoreFilePlan request fileId payload;
     changeFile request plan.1.1 plan.1.2 (Some plan.2)).

(** ** Keeping the device's version *)

Record DerivativeInvalidation := {
  dv_operations : list StorageMetadataOperation;
  dv_steps : list StorageMutationStepInput;
  dv_entities : list StorageMutationEntityInput
}.

(** The derivatives of a file that have a place. *)
Definition placedDerivatives (fileId : string) (db : DB) : list (string * string * Row) :=
  omap (fun e : string * Row =>
    if bool_decide (textColumn e.2 "fileId" = Some fileId)
    then key ← givenKey (textColumn e.2 "storageKey"); Some (e.1, key, e.2) else None)
    (typedRows et_derivative db).

Definition derivativeOperation (id : string) (row : Row) : StorageMetadataOperation :=
  updateOf et_derivative id (rw_storageRevision row)
    [("status", JsString "stale"); ("storageKey", JsNull); ("sizeBytes", JsNull)].
Definition deleteFileStep (key : string) (sizeBytes : option Z) (expectedChecksum : option string) :
    StorageMutationStepInput :=
  {| in_action := delete_file_step; in_sourceKey := None; in_targetKey := Some key;
     in_expectedNodeType := Some file_node; in_expectedSizeBytes := sizeBytes;
     in_expectedChecksum := expectedChecksum; in_treeManifestDigest := None |}.
Definition derivativeEntity (id key : string) (row : Row) : StorageMutationEntityInput :=
  changedEntity et_derivative id (rw_storageRevision row)
    (JObject [("storageKey", JString key)])
    (JObject [("status", JString "stale"); ("storageKey", JNull)]).

Fixpoint invalidate (derivatives : list (string * string * Row)) : Io DerivativeInvalidation :=
  match derivatives with
  | [] => mret {| dv_operations := []; dv_steps := []; dv_entities := [] |}
  | (id, key, row) :: rest =>
      checksum ← fingerprintFileIfDeterminable key;
      others ← invalidate rest;
      mret {| dv_operations := derivativeOperation id row :: dv_operations others;
              dv_steps := deleteFileStep key (bigIntColumn row "sizeBytes") checksum
                          :: dv_steps others;
              dv_entities := derivativeEntity id key row :: dv_entities others |}
  end.

Definition buildDerivativeInvalidation (fileId : string) : Service DerivativeInvalidation :=
  derivatives ← query (placedDerivatives fileId);
  doing (invalidate derivatives).

Definition originalData (copy : StoredFile) (copyChecksum : option string) :
    list (string * JsonScalar) :=
  [("mimeType", JsString (fi_mimeType copy));
   ("sizeBytes", JsString (numberString (fi_sizeBytes copy)));
   ("contentChecksum", scalarOr copyChecksum);
   ("clientModifiedAt", scalarOr (toISOString <$> fi_clientModifiedAt copy))].

Definition copyData (original : StoredFile) (originalChecksum : option string) (trashKey : string)
    (deletedAt : Z) (trashEntryId : string) : list (string * JsonScalar) :=
  [("originalName", JsString (fi_name original)); ("folderId", scalarOr (fi_folderId original));
   ("mimeType", JsString (fi_mimeType original));
   ("sizeBytes", JsString (numberString (fi_sizeBytes original)));
   ("contentChecksum", scalarOr originalChecksum);
   ("clientModifiedAt", scalarOr (toISOString <$> fi_clientModifiedAt original));
   ("storageKey", JsString trashKey); ("deletedAt", JsString (toISOString deletedAt));
   ("trashEntryId", JsString trashEntryId)].

Definition keepMineEntity (file : StoredFile) (after : list (string * JsonScalar)) :
    StorageMutationEntityInput :=
  changedEntity et_file (fi_id file) (fi_storageRevision file)
    (JObject [("storageKey", JString (fi_storageKey file));
              ("sizeBytes", JNumber (fi_sizeBytes file));
              ("contentChecksum", jsonOr (fi_contentChecksum file))])
    (dataJson after).

(** The old bytes leave before the new ones take their place. *)
Definition keepMineInput (request : Request) (original copy : StoredFile)
    (originalChecksum copyChecksum : option string) (derivatives : DerivativeInvalidation)
    (deletedAt : Z) (trashEntryId trashKey : string) (payload : Json) :
    DurableStorageMutationInput :=
  let toOriginal := originalData copy copyChecksum in
  let toCopy := copyData original originalChecksum trashKey deletedAt trashEntryId in
  {| di_kind := file_keep_mine; di_ownerUserId := fi_ownerUserId original;
     di_idempotencyKey := rq_idempotencyKey request;
     di_metadataOperations :=
       [isolatedTrashEntry root_file (fi_ownerUserId original) (fi_id copy)
          {| tp_id := trashEntryId; tp_deletedAt := deletedAt; tp_storageRootKey := trashKey;
             tp_treeManifestDigest := None |};
        updateOf et_file (fi_id copy) (fi_storageRevision copy) toCopy;
        updateOf et_file (fi_id original) (fi_storageRevision original) toOriginal]
       ++ dv_operations derivatives;
     di_steps := dv_steps derivatives
       ++ [renameFileStep (fi_storageKey original) trashKey (fi_sizeBytes original) originalChecksum;
           renameFileStep (fi_storageKey copy) (fi_storageKey original) (fi_sizeBytes copy)
             copyChecksum];
     di_entities :=
       [keepMineEntity original (toOriginal ++ [("storageKey", JsString (fi_storageKey original))]);
        keepMineEntity copy toCopy] ++ dv_entities derivatives;
     di_resourceKeys := None; di_uploadSessionId := None; di_mutationId := None;
     di_requestHashPayload := payload; di_resultJson := None; di_parentId := None;
     di_reservedBytes := None;
     di_originDeviceId := rq_deviceId request |}.

Definition bothInvalidations (a b : DerivativeInvalidation) : DerivativeInvalidation :=
  {| dv_operations := dv_operations a ++ dv_operations b; dv_steps := dv_steps a ++ dv_steps b;
     dv_entities := dv_entities a ++ dv_entities b |}.

(** What is read before the mutation: the original, the copy, and the mutation. *)
Definition keepMinePlan (request : Request) (fileId conflictCopyId : string) (ifRevision : Z)
    (payload : Json) : Service (StoredFile * StoredFile * DurableStorageMutationInput) :=
  original ← getActiveOwnedFile request fileId;
  copy ← getActiveOwnedFile request conflictCopyId;
  _ ← assertRevision (fi_id original) (fi_storageRevision original) (Some ifRevision);
  _ ← check (negb (bool_decide (fi_id copy = fi_id original))
             && bool_decide (fi_ownerUserId copy = fi_ownerUserId original))
        (FilesError "FILE_NOT_FOUND");
  deletedAt ← doing (memory w_now);
  let trashEntryId := idFor request ("file-keep-mine:" +:+ fi_id copy) in
  key ← trashKey (fi_ownerStorageId original) file_segment (fi_name original) deletedAt
          trashEntryId;
  originalChecksum ← doing (resolveDurableFileFingerprint original);
  copyChecksum ← doing (resolveDurableFileFingerprint copy);
  originalDerivatives ← buildDerivativeInvalidation (fi_id original);
  copyDerivatives ← buildDerivativeInvalidation (fi_id copy);
  mret (original, copy,
    keepMineInput request original copy originalChecksum copyChecksum
      (bothInvalidations originalDerivatives copyDerivatives) deletedAt trashEntryId key payload).

Definition keepMine (request : Request) (fileId conflictCopyId : string) (ifRevision : Z) :
    Service FileMutationResult :=
  _ ← assertStorageProtocolReady;
  let payload := JObject [("kind", JString "file_keep_mine"); ("fileId", JString fileId);
                          ("conflictCopyId", JString conflictCopyId);
                          ("ifRevision", JNumber ifRevision)] in
  unlessReplayed (findDirectMutationReplay request file_keep_mine et_file fileId payload)
    (fun replay => replayFileMutation replay fileId)
    (plan ← keepMinePlan request fileId conflictCopyId ifRevision payload;
     _ ← runFor request plan.2;
     updated ← query (findFileById (fi_id plan.1.1) false);
     match (updated : option StoredFile) with
     | None => refuse (PlainError "Keep mine lost the original file.")
     | Some updated => answerFile request updated None
     end).

End FileOperations.

Definition folderIn (name : string) (parentId : option string) (deletedAt : option Z)
    (trashEntryId : option string) (storageRevision : Z) (folder : FolderSummary) : FolderSummary :=
  {| fo_id := fo_id folder; fo_ownerUserId := fo_ownerUserId folder;
     fo_ownerStorageId := fo_ownerStorageId folder; fo_parentId := parentId; fo_name := name;
     fo_isFilesRoot := fo_isFilesRoot folder; fo_deletedAt := deletedAt;
     fo_storageRevision := storageRevision; fo_trashEntryId := trashEntryId |}.

Definition renamedFolder (name : string) (folder : FolderSummary) : FolderSummary :=
  folderIn name (fo_parentId folder) (fo_deletedAt folder) (fo_trashEntryId folder)
    (fo_storageRevision folder) folder.
Definition movedFolder (parentId : string) (folder : FolderSummary) : FolderSummary :=
  folderIn (fo_name folder) (Some parentId) (fo_deletedAt folder) (fo_trashEntryId folder)
    (fo_storageRevision folder) folder.
Definition restoredFolder (parentId : string) (folder : FolderSummary) : FolderSummary :=
  folderIn (fo_name folder) (Some parentId) None (fo_trashEntryId folder)
    (fo_storageRevision folder) folder.

(** The folder of an answer, one revision on. *)
Definition nextRevision (folder : FolderSummary) : FolderSummary :=
  folderIn (fo_name folder) (fo_parentId folder) (fo_deletedAt folder) (fo_trashEntryId folder)
    (fo_storageRevision folder + 1) folder.

Definition buildUpdatedFolderMap (folderMap : FolderMap) (updatedFolders : list FolderSummary) :
    FolderMap :=
  foldl (fun m folder => <[fo_id folder := folder]> m) folderMap updatedFolders.

Section FolderOperations.
Context `{Runtime, Installation}.

(** ** Around an operation *)

Definition answerFolder (request : Request) (folder : FolderSummary)
    (restoredTo : option FolderRestoreLocation) : Service FolderMutationResult :=
  _ ← persistDirectMutationReplay request (serializeFolderMutationResult folder restoredTo);
  mret {| fm_folder := folder; fm_restoredTo := restoredTo |}.

Definition changeFolder (request : Request) (folder : FolderSummary) (change : FolderChange)
    (restoredTo : option FolderRestoreLocation) (failed : string) : Service FolderMutationResult :=
  updated ← durablyUpdateFolderTree request folder change failed;
  answerFolder request updated restoredTo.

Definition folderKeys (members : list FolderSummary) (folderMap : FolderMap)
    (filesRoot : FolderSummary) : list string :=
  (fun member => buildFolderStorageKey member folderMap filesRoot) <$> members.

Definition liveFolders : list FolderSummary -> list FolderSummary :=
  filter (fun folder => isLiveFolder folder = true).
Definition liveFiles : list StoredFile -> list StoredFile :=
  filter (fun file => isLiveFile file = true).

(** The members of a tree that only their key's place changes. *)
Definition unchangedFolder (folder : FolderSummary) : FolderTreeUpdate :=
  {| tu_folder := folder; tu_data := [] |}.

(** The checksum of a file that had none. *)
Definition capturedData (checksums : list (string * string)) (file : StoredFile) :
    list (string * JsonScalar) :=
  match givenKey (fi_contentChecksum file) with
  | Some _ => []
  | None => match mapGet (fi_id file) checksums with
            | Some checksum => [("contentChecksum", JsString checksum)] | None => [] end
  end.

Definition keyIn (folderMap : FolderMap) (filesRoot : FolderSummary) (file : StoredFile) : string :=
  buildFileStorageKey (fi_ownerStorageId file) (fi_folderId file) (fi_name file) folderMap filesRoot.

Definition movedFileUpdate (checksums : list (string * string)) (folderMap : FolderMap)
    (filesRoot : FolderSummary) (file : StoredFile) : FolderTreeFileUpdate :=
  {| tf_file := file;
     tf_data := capturedData checksums file
                ++ [("storageKey", JsString (keyIn folderMap filesRoot file))] |}.

(** ** Create *)

Definition createFolderInput (request : Request) (folder : FolderSummary) (key : string)
    (payload : Json) : DurableStorageMutationInput :=
  {| di_kind := folder_create; di_ownerUserId := fo_ownerUserId folder;
     di_idempotencyKey := rq_idempotencyKey request;
     di_metadataOperations :=
       [op_create_folder {| cd_id := fo_id folder; cd_ownerUserId := fo_ownerUserId folder;
                            cd_parentId := fo_parentId folder; cd_name := fo_name folder |}];
     di_steps := [mkdirStep key];
     di_entities :=
       [{| en_entityType := et_folder; en_entityId := fo_id folder; en_preRevision := -1;
           en_postRevision := 0; en_beforeJson := None;
           en_afterJson := Some (JObject [("parentId", jsonOr (fo_parentId folder));
                                          ("name", JString (fo_name folder))]) |}];
     di_resourceKeys := None; di_uploadSessionId := None; di_mutationId := None;
     di_requestHashPayload := payload;
     di_resultJson := Some (serializeFolderMutationResult folder None);
     di_parentId := None; di_reservedBytes := None;
     di_originDeviceId := rq_deviceId request |}.

(** What is read before the mutation: the new folder and its key. *)
Definition createFolderPlan (request : Request) (parentId : option string) (normalizedName : string) :
    Service (FolderSummary * string) :=
  parent ← destinationOf request parentId;
  _ ← assertNoFolderNameConflict (fo_ownerUserId parent) (fo_id parent) normalizedName None;
  folderMap ← query (readFolderMap (fo_ownerUserId parent) [Some (fo_id parent)] []);
  let folder :=
    {| fo_id := idFor request ("folder-create:" +:+ fo_ownerUserId parent);
       fo_ownerUserId := fo_ownerUserId parent; fo_ownerStorageId := fo_ownerStorageId parent;
       fo_parentId := Some (fo_id parent); fo_name := normalizedName; fo_isFilesRoot := false;
       fo_deletedAt := None; fo_storageRevision := 0; fo_trashEntryId := None |} in
  filesRoot ← ensureFilesRoot (fo_ownerUserId parent);
  mret (folder, buildFolderStorageKey folder (<[fo_id folder := folder]> folderMap) filesRoot).

Definition runCreateFolder (request : Request) (payload : Json) (folder : FolderSummary)
    (key : string) : Service FolderMutationResult :=
  _ ← runFor request (createFolderInput request folder key payload);
  created ← query (findFolderById (fo_id folder));
  match (created : option FolderSummary) with
  | None => refuse (PlainError "Durable folder create committed without metadata.")
  | Some created => answerFolder request created None
  end.

(** The replay of a creation, which knows no id of its folder. *)
Definition createFolderReplay (request : Request) (payload : Json) :
    Service (option FolderMutationResult) :=
  match givenKey (rq_idempotencyKey request) with
  | None => mret None
  | Some key =>
      found ← query (fun db => findByIdempotencyKey db key);
      match (found : option (string * Mutation)) with
      | None => mret None
      | Some (_, prior) =>
          if negb (bool_decide (mu_kind prior = folder_create))
             || negb (bool_decide (mu_requestHash prior = Some (hashDurableStorageRequest payload)))
             || negb (accessible request (mu_ownerUserId prior))
          then conflict STORAGE_IDEMPOTENCY_KEY_REUSED None
          else if bool_decide (mu_status prior = recovery_required)
          then conflict STORAGE_RECOVERY_REQUIRED None
          else if negb (bool_decide (mu_status prior = succeeded))
          then conflict STORAGE_MUTATION_RECOVERING None
          else match parseFolderMutationReplay (mu_resultJson prior) with
               | Some response => mret (Some response)
               | None => conflict STORAGE_RECOVERY_REQUIRED None
               end
      end
  end.

Definition createFolderPayload (parentId : option string) (normalizedName : string) : Json :=
  JObject [("kind", JString "folder_create"); ("parentId", jsonOr parentId);
           ("name", JString normalizedName)].

Definition createFolder (request : Request) (parentId : option string) (name : string) :
    Service FolderMutationResult :=
  _ ← assertStorageProtocolReady;
  normalizedName ← checkedName (normalizeFolderName name);
  let payload := createFolderPayload parentId normalizedName in
  replay ← createFolderReplay request payload;
  match (replay : option FolderMutationResult) with
  | Some response => mret response
  | None =>
      plan ← createFolderPlan request parentId normalizedName;
      runCreateFolder request payload plan.1 plan.2
  end.

(** ** Rename *)

Definition treeRename (kind : StorageMutationKind) (fromStorageKey toStorageKey : string)
    (rootUpdate : FolderTreeUpdate) (members : list FolderSummary) (moved : list StoredFile)
    (nextFolderMap : FolderMap) (filesRoot : FolderSummary)
    (captured : string * list (string * string)) (parentId : option string)
    (payload result : Json) (guards : list StorageMutationEntityInput) : FolderChange :=
  {| dc_kind := kind; dc_fromStorageKey := fromStorageKey; dc_toStorageKey := toStorageKey;
     dc_folderUpdates := rootUpdate :: (unchangedFolder <$> members);
     dc_fileUpdates := movedFileUpdate captured.2 nextFolderMap filesRoot <$> moved;
     dc_trashEntry := None; dc_expectedTreeManifestDigest := Some captured.1;
     dc_deleteTrashEntryId := None; dc_stepsOverride := None; dc_parentId := parentId;
     dc_requestHashPayload := payload; dc_resultJson := result; dc_guardEntities := guards |}.

Definition renameFolderPlan (request : Request) (folderId normalizedName : string)
    (payload : Json) : Service (FolderSummary * FolderChange) :=
  folder ← getActiveOwnedFolder request folderId;
  _ ← assertRevision (fo_id folder) (fo_storageRevision folder) (rq_ifRevision request);
  _ ← assertMutableFolder folder;
  filesRoot ← ensureFilesRoot (fo_ownerUserId folder);
  _ ← assertNoFolderNameConflict (fo_ownerUserId folder)
        (default (fo_id filesRoot) (fo_parentId folder)) normalizedName (Some (fo_id folder));
  descendants ← query (collectDescendants (fo_ownerUserId folder) (fo_id folder) true);
  descendantFiles ← query (listFilesInFolders (fo_ownerUserId folder)
    (fo_id folder :: (fo_id <$> descendants)) true);
  currentFolderMap ← query (readFolderMap (fo_ownerUserId folder) [Some (fo_id folder)]
    descendants);
  let nextFolder := renamedFolder normalizedName folder in
  let nextFolderMap := buildUpdatedFolderMap currentFolderMap [nextFolder] in
  let fromKey := buildFolderStorageKey folder currentFolderMap filesRoot in
  let toKey := buildFolderStorageKey nextFolder nextFolderMap filesRoot in
  captured ← doing (captureFolderTreeManifest fromKey
    (folderKeys (liveFolders descendants) currentFolderMap filesRoot)
    (liveFiles descendantFiles));
  _ ← lifted (assertStorageKeysFit
        (folderKeys (liveFolders descendants) nextFolderMap filesRoot));
  mret (folder,
    treeRename folder_rename fromKey toKey
       {| tu_folder := folder; tu_data := [("name", JsString normalizedName)] |}
       (liveFolders descendants) (liveFiles descendantFiles) nextFolderMap filesRoot captured
       None payload (serializeFolderMutationResult (nextRevision nextFolder) None) []).

Definition renameFolder (request : Request) (folderId name : string) :
    Service FolderMutationResult :=
  _ ← assertStorageProtocolReady;
  normalizedName ← checkedName (normalizeFolderName name);
  let payload := JObject [("kind", JString "folder_rename"); ("folderId", JString folderId);
                          ("name", JString normalizedName)] in
  unlessReplayed (findDirectMutationReplay request folder_rename et_folder folderId payload)
    (fun replay => replayFolderMutation replay folderId)
    (plan ← renameFolderPlan request folderId normalizedName payload;
     changeFolder request plan.1 plan.2 None "Durable folder rename failed.").

(** ** Move *)

Definition moveFolderPlan (request : Request) (folderId : string)
    (destinationFolderId : option string) (payload : Json) :
    Service (FolderSummary * FolderChange) :=
  folder ← getActiveOwnedFolder request folderId;
  _ ← assertRevision (fo_id folder) (fo_storageRevision folder) (rq_ifRevision request);
  _ ← assertMutableFolder folder;
  destination ← destinationOf request destinationFolderId;
  _ ← check (negb (bool_decide (fo_id destination = fo_id folder)))
        (FilesError "FOLDER_MOVE_CYCLE");
  _ ← check (negb (bool_decide (Some (fo_id destination) = fo_parentId folder)))
        (FilesError "FOLDER_MOVE_NOOP");
  descendants ← query (collectDescendants (fo_ownerUserId folder) (fo_id folder) false);
  _ ← check (negb (bool_decide (fo_id destination ∈ fo_id <$> descendants)))
        (FilesError "FOLDER_MOVE_CYCLE");
  _ ← assertNoFolderNameConflict (fo_ownerUserId folder) (fo_id destination) (fo_name folder)
        (Some (fo_id folder));
  filesRoot ← ensureFilesRoot (fo_ownerUserId folder);
  descendantFiles ← query (listFilesInFolders (fo_ownerUserId folder)
    (fo_id folder :: (fo_id <$> descendants)) true);
  currentFolderMap ← query (readFolderMap (fo_ownerUserId folder)
    [Some (fo_id folder); Some (fo_id destination)] descendants);
  let nextFolder := movedFolder (fo_id destination) folder in
  let nextFolderMap := buildUpdatedFolderMap currentFolderMap [nextFolder] in
  let fromKey := buildFolderStorageKey folder currentFolderMap filesRoot in
  let toKey := buildFolderStorageKey nextFolder nextFolderMap filesRoot in
  captured ← doing (captureFolderTreeManifest fromKey
    (folderKeys descendants currentFolderMap filesRoot) (liveFiles descendantFiles));
  _ ← lifted (assertStorageKeysFit
        (folderKeys (liveFolders descendants) nextFolderMap filesRoot));
  mret (folder,
    treeRename folder_move fromKey toKey
       {| tu_folder := folder; tu_data := [("parentId", JsString (fo_id destination))] |}
       descendants (liveFiles descendantFiles) nextFolderMap filesRoot captured
       (rq_storageMutationParentId request) payload
       (serializeFolderMutationResult (nextRevision nextFolder) None) [guardFolder destination]).

Definition moveFolder (request : Request) (folderId : string)
    (destinationFolderId : option string) : Service FolderMutationResult :=
  _ ← assertStorageProtocolReady;
  payload ← lifted (moveHashPayload request "folder_move" "folderId" folderId destinationFolderId);
  unlessReplayed (findDirectMutationReplay request folder_move et_folder folderId payload)
    (fun replay => replayFolderMutation replay folderId)
    (plan ← moveFolderPlan request folderId destinationFolderId payload;
     changeFolder request plan.1 plan.2 None "Durable folder move failed.").

(** ** Trash *)

Definition trashData (deletedAt : Z) (trashEntryId : string) : list (string * JsonScalar) :=
  [("deletedAt", JsString (toISOString deletedAt)); ("trashEntryId", JsString trashEntryId)].

Fixpoint trashedFileUpdates (fromStorageKey toStorageKey : string) (deletedAt : Z)
    (trashEntryId : string) (checksums : list (string * string)) (members : list StoredFile) :
    result ServiceError (list FolderTreeFileUpdate) :=
  match members with
  | [] => Ok []
  | file :: rest =>
      relative ← relativeStorageKeyWithin fromStorageKey (fi_storageKey file);
      others ← trashedFileUpdates fromStorageKey toStorageKey deletedAt trashEntryId checksums rest;
      Ok ({| tf_file := file;
             tf_data := capturedData checksums file ++ trashData deletedAt trashEntryId
                        ++ [("storageKey", JsString (posixJoin [toStorageKey; relative]))] |}
          :: others)
  end.

Definition trashFolderChange (folder : FolderSummary) (descendants : list FolderSummary)
    (fileUpdates : list FolderTreeFileUpdate) (fromStorageKey toStorageKey : string)
    (deletedAt : Z) (trashEntryId treeManifestDigest : string) (payload : Json) : FolderChange :=
  {| dc_kind := folder_trash; dc_fromStorageKey := fromStorageKey; dc_toStorageKey := toStorageKey;
     dc_folderUpdates := (fun member => {| tu_folder := member;
                                           tu_data := trashData deletedAt trashEntryId |})
                         <$> (folder :: descendants);
     dc_fileUpdates := fileUpdates;
     dc_trashEntry := Some {| tp_id := trashEntryId; tp_deletedAt := deletedAt;
                              tp_storageRootKey := toStorageKey;
                              tp_treeManifestDigest := Some treeManifestDigest |};
     dc_expectedTreeManifestDigest := None; dc_deleteTrashEntryId := None;
     dc_stepsOverride := None; dc_parentId := None; dc_requestHashPayload := payload;
     dc_resultJson := serializeFolderMutationResult
       (folderIn (fo_name folder) (fo_parentId folder) (Some deletedAt) (Some trashEntryId)
          (fo_storageRevision folder + 1) folder) None;
     dc_guardEntities := [] |}.

Definition trashFolderPlan (request : Request) (folderId : string) (payload : Json) :
    Service (FolderSummary * FolderChange) :=
  folder ← getActiveOwnedFolder request folderId;
  _ ← assertRevision (fo_id folder) (fo_storageRevision folder) (rq_ifRevision request);
  _ ← assertMutableFolder folder;
  deletedAt ← doing (memory w_now);
  descendants ← query (collectDescendants (fo_ownerUserId folder) (fo_id folder) false);
  descendantFiles ← query (listFilesInFolders (fo_ownerUserId folder)
    (fo_id folder :: (fo_id <$> descendants)) false);
  filesRoot ← ensureFilesRoot (fo_ownerUserId folder);
  folderMap ← query (readFolderMap (fo_ownerUserId folder) [Some (fo_id folder)] descendants);
  let fromKey := buildFolderStorageKey folder folderMap filesRoot in
  let trashEntryId := idFor request ("folder-trash:" +:+ fo_id folder) in
  toKey ← trashKey (fo_ownerStorageId folder) folder_segment (fo_name folder) deletedAt
            trashEntryId;
  captured ← doing (captureFolderTreeManifest fromKey
    (folderKeys descendants folderMap filesRoot) descendantFiles);
  fileUpdates ← lifted (trashedFileUpdates fromKey toKey deletedAt trashEntryId
    (captured : string * list (string * string)).2 descendantFiles);
  mret (folder,
    trashFolderChange folder descendants fileUpdates fromKey toKey deletedAt trashEntryId
       captured.1 payload).

Definition trashFolder (request : Request) (folderId : string) : Service FolderMutationResult :=
  _ ← assertStorageProtocolReady;
  let payload := JObject [("kind", JString "folder_trash"); ("folderId", JString folderId)] in
  unlessReplayed (findDirectMutationReplay request folder_trash et_folder folderId payload)
    (fun replay => replayFolderMutation replay folderId)
    (plan ← trashFolderPlan request folderId payload;
     changeFolder request plan.1 plan.2 None "Durable folder trash failed.").

(** ** Restore *)

(** What a legacy trash entry restores: every directory is made, and every file
    moved on its own. *)
Fixpoint legacyFiles (updates : list FolderTreeFileUpdate) :
    Io (list StorageMutationStepInput * list FolderTreeFileUpdate) :=
  match updates with
  | [] => mret ([], [])
  | update :: rest =>
      let file := tf_file update in
      checksum ← resolveDurableFileFingerprint file;
      others ← legacyFiles rest;
      let data := match givenKey (fi_contentChecksum file), givenKey checksum with
                  | None, Some found => tf_data update ++ [("contentChecksum", JsString found)]
                  | _, _ => tf_data update
                  end in
      mret (renameFileStep (fi_storageKey file)
              (match mapGet "storageKey" data with Some value => jsString value
               | None => "undefined" end) (fi_sizeBytes file) checksum :: others.1,
            {| tf_file := file; tf_data := data |} :: others.2)
  end.

Definition restoredFileUpdate (folderMap : FolderMap) (filesRoot : FolderSummary)
    (file : StoredFile) : FolderTreeFileUpdate :=
  {| tf_file := file;
     tf_data := [("deletedAt", JsNull); ("trashEntryId", JsNull);
                 ("storageKey", JsString (keyIn folderMap filesRoot file))] |}.

Definition restoredFolderUpdate (folder : FolderSummary) (parentId : string)
    (member : FolderSummary) : FolderTreeUpdate :=
  {| tu_folder := member;
     tu_data := (if bool_decide (fo_id member = fo_id folder)
                 then [("parentId", JsString parentId)] else [])
                ++ [("deletedAt", JsNull); ("trashEntryId", JsNull)] |}.

Definition restoreFolderChange (folder nextFolder : FolderSummary) (members : list FolderSummary)
    (fileUpdates : list FolderTreeFileUpdate) (location : FolderRestoreLocation)
    (fromStorageKey toStorageKey : string) (entry : TrashEntry)
    (legacySteps : option (list StorageMutationStepInput)) (payload : Json) : FolderChange :=
  {| dc_kind := folder_restore; dc_fromStorageKey := fromStorageKey;
     dc_toStorageKey := toStorageKey;
     dc_folderUpdates := restoredFolderUpdate folder (rl_folderId location) <$> (folder :: members);
     dc_fileUpdates := fileUpdates; dc_trashEntry := None;
     dc_expectedTreeManifestDigest :=
       match te_layoutVersion entry with
       | isolated_layout => Some (default "missing-captured-tree-manifest"
                                    (te_treeManifestDigest entry))
       | legacy_layout => None
       end;
     dc_deleteTrashEntryId := fo_trashEntryId folder; dc_stepsOverride := legacySteps;
     dc_parentId := None; dc_requestHashPayload := payload;
     dc_resultJson := serializeFolderMutationResult
       (folderIn (fo_name folder) (Some (rl_folderId location)) None None
          (fo_storageRevision folder + 1) folder) (Some location);
     dc_guardEntities := [] |}.

(** [findUnique] of the entry of a trashed folder. *)
Definition findTrashEntry (trashEntryId : option string) (db : DB) : option TrashEntry :=
  id ← givenKey trashEntryId; db_trash db !! id.

Definition restoreFolderPlan (request : Request) (folderId : string) (payload : Json) :
    Service (FolderSummary * FolderChange * FolderRestoreLocation) :=
  folder ← getOwnedFolder request folderId;
  _ ← assertMutableFolder folder;
  _ ← check (negb (isLiveFolder folder)) (FilesError "FOLDER_ALREADY_ACTIVE");
  filesRoot ← ensureFilesRoot (fo_ownerUserId folder);
  location ← getRestoreLocation (fo_parentId folder) (fo_ownerUserId folder) filesRoot;
  descendants ← query (collectDescendants (fo_ownerUserId folder) (fo_id folder) true);
  let members := filter (fun member => fo_trashEntryId member = fo_trashEntryId folder)
                   descendants in
  collected ← query (listFilesInFolders (fo_ownerUserId folder)
    (fo_id folder :: (fo_id <$> members)) true);
  let memberFiles := filter (fun file => fi_trashEntryId file = fo_trashEntryId folder)
                       collected in
  currentFolderMap ← query (readFolderMap (fo_ownerUserId folder)
    [Some (fo_id folder); Some (rl_folderId location)] descendants);
  let nextFolder := restoredFolder (rl_folderId location) folder in
  let nextFolderMap := buildUpdatedFolderMap currentFolderMap [nextFolder] in
  found ← query (findTrashEntry (fo_trashEntryId folder));
  match (entry ← (found : option TrashEntry); key ← givenKey (te_storageRootKey entry);
         Some (entry, key)) with
  | None => refuse (PlainError "Folder trash identity requires recovery.")
  | Some (entry, fromKey) =>
      let toKey := buildFolderStorageKey nextFolder nextFolderMap filesRoot in
      _ ← lifted (assertStorageKeysFit (folderKeys members nextFolderMap filesRoot));
      let fileUpdates := restoredFileUpdate nextFolderMap filesRoot <$> memberFiles in
      legacy ← match te_layoutVersion entry with
               | legacy_layout =>
                   files ← doing (legacyFiles fileUpdates);
                   mret (Some (((mkdirStep <$> folderKeys (nextFolder :: members) nextFolderMap
                                                 filesRoot) ++ files.1), files.2))
               | isolated_layout => mret None
               end;
      mret (folder,
        restoreFolderChange folder nextFolder members
          (match legacy with Some l => l.2 | None => fileUpdates end) location fromKey toKey
          entry (match legacy with Some l => Some l.1 | None => None end) payload, location)
  end.

Definition restoreFolder (request : Request) (folderId : string) : Service FolderMutationResult :=
  _ ← assertStorageProtocolReady;
  let payload := JObject [("kind", JString "folder_restore"); ("folderId", JString folderId)] in
  unlessReplayed (findDirectMutationReplay request folder_restore et_folder folderId payload)
    (fun replay => replayFolderMutation replay folderId)
    (plan ← restoreFolderPlan request folderId payload;
     changeFolder request plan.1.1 plan.1.2 (Some plan.2) "Durable folder restore failed.").

End FolderOperations.
