(* ===== verification/FilePromises.v ===== *)
(** * What every request promises

    What a request reads while nothing disturbs it: each read leaves the world as
    it is ([steady]), so that a plan is made from one state of the rows. A request
    that was made before is not run again, and an item of another user answers as
    one that does not exist. *)

From Stdlib Require String.
From S2P Require Import Prelude JsValues Database MutationMetadata MutationPrepare Journal Disk Io StoragePaths StorageLayout TreeManifest ManifestFacts FileRows DurableMutation FileService FileOperations.

Open Scope Z_scope.

(** ** Programs that change nothing *)

Definition steady {A} (m : Service A) : Prop := forall w, calm w -> (m w).2 = w.

Lemma steady_ret {A} (a : A) : steady (mret a).
Proof. done. Qed.
Lemma steady_refuse {A} (e : ServiceError) : steady (refuse e : Service A).
Proof. done. Qed.
Lemma steady_lifted {A} (r : result ServiceError A) : steady (lifted r).
Proof. done. Qed.
Lemma steady_check b e : steady (check b e).
Proof. by destruct b. Qed.
Lemma steady_throw {A} (e : IoError) : steady (doing (throwIo e) : Service A).
Proof. done. Qed.
Lemma steady_memory {A} (f : World -> A) : steady (doing (memory f)).
Proof. done. Qed.
Lemma steady_conflict {A} code id : steady (conflict code id : Service A).
Proof. done. Qed.
Lemma steady_checkedName r : steady (checkedName r).
Proof. by destruct r. Qed.
Lemma steady_trashKey owner kind name at' id : steady (trashKey owner kind name at' id).
Proof. intros w _. unfold trashKey. by destruct (buildIsolatedTrashStorageKey _ _ _ _ _). Qed.

Lemma calm_read {A} (f : DB -> A) w :
  calm w -> dbEffect (fun _ _ _ _ => read f) w = (Done (f (w_db w)), w).
Proof.
  intros Hc. unfold dbEffect. rewrite nextTick_calm by done. cbn. rewrite Z.add_0_r. by destruct w.
Qed.

Lemma query_calm {A} (f : DB -> A) w : calm w -> query f w = (Done (Ok (f (w_db w))), w).
Proof. intros Hc. unfold query, doing. by rewrite calm_read. Qed.

Lemma steady_query {A} (f : DB -> A) : steady (query f).
Proof. intros w Hc. by rewrite query_calm. Qed.

Lemma steady_observes {A} (m : Io A) : observes m -> steady (doing m).
Proof.
  intros (Hm & _) w Hc. unfold doing. rewrite Hm by done. by destruct (look m (w_disk w)).
Qed.

Lemma steady_bind {A B} (m : Service A) (f : A -> Service B) :
  steady m -> (forall a, steady (f a)) -> steady (m ≫= f).
Proof.
  intros Hm Hf w Hc. specialize (Hm w Hc). unfold mbind, Service_bind.
  destruct (m w) as [[[a|e]|e|] w']; cbn in Hm; subst w'; [by apply Hf|done..].
Qed.

(** A bind that answered, taken apart. *)
Lemma answered_bind {A B} (m : Service A) (f : A -> Service B) w b w' :
  steady m -> calm w -> (m ≫= f) w = (Done (Ok b), w') ->
  exists a, m w = (Done (Ok a), w) /\ f a w = (Done (Ok b), w').
Proof.
  intros Hm Hc. specialize (Hm w Hc). unfold mbind, Service_bind.
  destruct (m w) as [[[a|e]|e|] w1]; cbn in Hm; subst w1; [|done..]. intros H. by exists a.
Qed.

Lemma answered_query {A} (f : DB -> A) w a w' :
  calm w -> query f w = (Done (Ok a), w') -> a = f (w_db w).
Proof. intros Hc. rewrite query_calm by done. by intros [= <- _]. Qed.

Lemma answered_check b e w u w' : check b e w = (Done (Ok u), w') -> b = true.
Proof. by destruct b. Qed.

Lemma answered_ret {A} (a b : A) w w' : (mret a : Service A) w = (Done (Ok b), w') -> b = a.
Proof. by intros [= <- _]. Qed.

Create HintDb steady.
#[export] Hint Resolve steady_ret steady_refuse steady_lifted steady_check steady_throw
  steady_memory steady_conflict steady_checkedName steady_trashKey steady_query steady_bind
  : steady.
#[export] Hint Extern 3 (steady (match ?x with _ => _ end)) => destruct x : steady.
#[export] Hint Extern 4 (steady (if ?x then _ else _)) => destruct x : steady.

Section Reads.
Context `{Runtime, Installation}.

Lemma steady_ready : steady assertStorageProtocolReady.
Proof. unfold assertStorageProtocolReady. eauto with steady. Qed.
Lemma steady_readable type id : steady (assertStorageEntityReadable type id).
Proof.
  unfold assertStorageEntityReadable. apply steady_bind; [eauto with steady|].
  intros [[mutationId m]|]; eauto with steady.
Qed.
Hint Resolve steady_ready steady_readable : steady.

Lemma steady_getOwnedFolder request id : steady (getOwnedFolder request id).
Proof. unfold getOwnedFolder. eauto 10 with steady. Qed.
Lemma steady_getOwnedFile request id missing : steady (getOwnedFile request id missing).
Proof. unfold getOwnedFile. eauto 10 with steady. Qed.
Hint Resolve steady_getOwnedFolder steady_getOwnedFile : steady.
Lemma steady_getActiveOwnedFolder request id : steady (getActiveOwnedFolder request id).
Proof. unfold getActiveOwnedFolder. eauto 10 with steady. Qed.
Lemma steady_getActiveOwnedFile request id : steady (getActiveOwnedFile request id).
Proof. unfold getActiveOwnedFile. eauto 10 with steady. Qed.

Lemma steady_ensureFilesRoot owner : steady (ensureFilesRoot owner).
Proof.
  unfold ensureFilesRoot. apply steady_bind; [eauto with steady|]. intros _u.
  apply steady_bind; [eauto with steady|]. intros [|root [|]]; eauto with steady.
Qed.
Hint Resolve steady_getActiveOwnedFolder steady_getActiveOwnedFile steady_ensureFilesRoot : steady.

Lemma steady_mutable folder : steady (assertMutableFolder folder).
Proof. apply steady_check. Qed.
Lemma steady_revision id revision ifRevision : steady (assertRevision id revision ifRevision).
Proof. apply steady_check. Qed.
Lemma steady_folderNameFree owner parentId name excluded :
  steady (assertNoFolderNameConflict owner parentId name excluded).
Proof. unfold assertNoFolderNameConflict. eauto with steady. Qed.
Lemma steady_fileNameFree owner parentId name excluded :
  steady (assertNoFileNameConflict owner parentId name excluded).
Proof. unfold assertNoFileNameConflict. eauto with steady. Qed.
Lemma steady_destination request id : steady (destinationOf request id).
Proof. unfold destinationOf. eauto with steady. Qed.
Lemma steady_location parentId owner filesRoot : steady (getRestoreLocation parentId owner filesRoot).
Proof. unfold getRestoreLocation. eauto with steady. Qed.

Lemma steady_replay request kind type id payload :
  steady (findDirectMutationReplay request kind type id payload).
Proof.
  unfold findDirectMutationReplay. destruct (givenKey _); [|eauto with steady].
  apply steady_bind; [eauto with steady|]. intros [[id' prior]|]; [|eauto with steady].
  repeat case_match; eauto with steady.
Qed.
Lemma steady_replayFolder replay id : steady (replayFolderMutation replay id).
Proof. unfold replayFolderMutation. apply steady_bind; eauto with steady. Qed.
Lemma steady_replayFile replay id : steady (replayFileMutation replay id).
Proof. unfold replayFileMutation. apply steady_bind; eauto with steady. Qed.
Lemma steady_createReplay request payload : steady (createFolderReplay request payload).
Proof.
  unfold createFolderReplay. destruct (givenKey _); [|eauto with steady].
  apply steady_bind; [eauto with steady|]. intros [[id' prior]|]; [|eauto with steady].
  repeat case_match; eauto with steady.
Qed.

(** ** What the disk holds *)

(** The same of a program of [Io]; one that catches its errors may still do
    different things when calls fail. *)
Definition still {A} (m : Io A) : Prop := forall w, calm w -> (m w).2 = w.

Lemma steady_still {A} (m : Io A) : still m -> steady (doing m).
Proof. intros Hm w Hc. specialize (Hm w Hc). unfold doing. by destruct (m w) as [[]]. Qed.
Lemma still_observes {A} (m : Io A) : observes m -> still m.
Proof. intros (Hm & _) w Hc. by rewrite Hm. Qed.
Lemma still_bind {A B} (m : Io A) (f : A -> Io B) :
  still m -> (forall a, still (f a)) -> still (m ≫= f).
Proof.
  intros Hm Hf w Hc. specialize (Hm w Hc). unfold mbind, Io_bind.
  destruct (m w) as [[a|e|] w']; cbn in Hm; subst w'; [by apply Hf|done..].
Qed.
Lemma still_catch {A} (m : Io A) (handler : IoError -> Io A) :
  still m -> (forall e, still (handler e)) -> still (catchIo m handler).
Proof.
  intros Hm Hh w Hc. specialize (Hm w Hc). unfold catchIo.
  destruct (m w) as [[a|e|] w']; cbn in Hm; subst w'; [done|by apply Hh|done].
Qed.

Lemma observes_fileChecksum key : observes (calculateStorageFileChecksum key).
Proof.
  unfold calculateStorageFileChecksum, requireStorageRegularFile.
  eauto 15 using observes_assertSafeStorageAncestors, observes_pathState, observes_computeFileSha256
    with observes.
Qed.

Lemma observes_captureFolders rootKey keys : observes (captureFolders rootKey keys).
Proof.
  induction keys as [|key keys IH]; cbn; [eauto with observes|].
  unfold capturedKey. apply observes_bind; [eauto with observes|]. eauto with observes.
Qed.

Lemma observes_captureFiles rootKey members : observes (captureFiles rootKey members).
Proof.
  induction members as [|file members IH]; cbn; [eauto with observes|]. unfold capturedKey.
  apply observes_bind; [destruct (fi_contentChecksum file); eauto using observes_fileChecksum with observes|].
  intros checksum. apply observes_bind; eauto with observes.
Qed.

Lemma steady_capture rootKey keys members :
  steady (doing (captureFolderTreeManifest rootKey keys members)).
Proof.
  apply steady_observes. unfold captureFolderTreeManifest.
  eauto 10 using observes_captureFolders, observes_captureFiles with observes.
Qed.

Lemma still_fingerprint key : still (fingerprintFileIfDeterminable key).
Proof.
  apply still_catch; [|intros e; destruct e; by apply still_observes; eauto with observes].
  apply still_observes. eauto using observes_fileChecksum with observes.
Qed.

Lemma still_fileFingerprint file : still (resolveDurableFileFingerprint file).
Proof.
  unfold resolveDurableFileFingerprint. destruct (fi_contentChecksum file);
    [by apply still_observes; eauto with observes|apply still_fingerprint].
Qed.

Lemma still_treeFingerprint key : still (fingerprintTreeIfDeterminable key).
Proof.
  unfold fingerprintTreeIfDeterminable. apply still_bind.
  - apply still_catch; [apply still_observes; eauto with observes|].
    intros e. apply still_observes. repeat case_match; eauto with observes.
  - intros [[]|]; try (by apply still_observes; eauto with observes).
    apply still_catch; [|intros e; destruct e; by apply still_observes; eauto with observes].
    apply still_observes. unfold calculateTreeManifestDigest.
    eauto using observes_readTreeManifestRecords with observes.
Qed.

Lemma still_treeDigest change : still (resolveDurableTreeDigest change).
Proof.
  unfold resolveDurableTreeDigest. case_match; [by apply still_observes; eauto with observes|].
  apply still_treeFingerprint.
Qed.

(** ** What was read *)

Lemma findFolderById_id id db folder : findFolderById id db = Some folder -> fo_id folder = id.
Proof. unfold findFolderById. destruct (_ !! _); [|done]. by intros [= <-]. Qed.
Lemma findFileById_id id missing db file : findFileById id missing db = Some file -> fi_id file = id.
Proof.
  unfold findFileById. destruct (_ !! _); [|done]. cbn. case_match; [|done]. by intros [= <-].
Qed.

Lemma accessible_own request owner : accessible request owner = true <-> owner = rq_actorUserId request.
Proof.
  unfold accessible, canAccessPrivateNamespace. rewrite andb_false_r, orb_false_r, bool_decide_eq_true.
  naive_solver.
Qed.

Lemma answered_getOwnedFolder request id w folder w' :
  calm w -> getOwnedFolder request id w = (Done (Ok folder), w') ->
  findFolderById id (w_db w) = Some folder /\ fo_ownerUserId folder = rq_actorUserId request.
Proof.
  intros Hc E. apply answered_bind in E as (found & Hq & E); [|eauto with steady|done].
  apply answered_query in Hq as ->; [|done].
  apply answered_bind in E as (f & Hf & E); [|eauto with steady|done].
  unfold lifted, assertFolderAccess in Hf.
  destruct (findFolderById id (w_db w)) as [g|] eqn:Eg; [|done].
  destruct (accessible request _) eqn:Ea; [|done]. injection Hf as <-.
  apply answered_bind in E as (u & _ & E); [|eauto with steady|done].
  apply answered_ret in E as ->. split; [done|]. by apply accessible_own.
Qed.

Lemma answered_getActiveOwnedFolder request id w folder w' :
  calm w -> getActiveOwnedFolder request id w = (Done (Ok folder), w') ->
  findFolderById id (w_db w) = Some folder /\ fo_ownerUserId folder = rq_actorUserId request /\
  isLiveFolder folder = true.
Proof.
  intros Hc E. apply answered_bind in E as (f & Hf & E); [|eauto with steady|done].
  apply answered_getOwnedFolder in Hf as [? ?]; [|done].
  apply answered_bind in E as (u & Hu & E); [|eauto with steady|done].
  apply answered_check in Hu. by apply answered_ret in E as ->.
Qed.

Lemma answered_ensureFilesRoot owner w root w' :
  calm w -> ensureFilesRoot owner w = (Done (Ok root), w') -> filesRoots owner (w_db w) = [root].
Proof.
  intros Hc E. apply answered_bind in E as (u & _ & E); [|eauto with steady|done].
  apply answered_bind in E as (roots & Hr & E); [|eauto with steady|done].
  apply answered_query in Hr as ->; [|done].
  destruct (filesRoots owner (w_db w)) as [|r [|]]; [done| |done]. by apply answered_ret in E as ->.
Qed.

Lemma filesRoots_row owner db root :
  filesRoots owner db = [root] ->
  findFolderById (fo_id root) db = Some root /\ fo_ownerUserId root = owner /\
  fo_isFilesRoot root = true.
Proof.
  intros E. assert (Hin : root ∈ filesRoots owner db) by (rewrite E; by left).
  apply list_elem_of_filter in Hin as [[Ho Hr] Hin]. split_and!; [|done|done].
  unfold folders, typedRows in Hin.
  apply list_elem_of_fmap in Hin as ([id row] & -> & Hin).
  apply list_elem_of_omap in Hin as ([[type id'] row'] & Hm & E').
  case_bool_decide; [|done]. injection E' as <- <-. cbn in *. subst type.
  apply elem_of_map_to_list in Hm. unfold findFolderById. cbn. by rewrite Hm.
Qed.
End Reads.

#[export] Hint Resolve steady_capture steady_ready steady_readable steady_getOwnedFolder steady_getOwnedFile
  steady_getActiveOwnedFolder steady_getActiveOwnedFile steady_ensureFilesRoot steady_mutable
  steady_revision steady_folderNameFree steady_fileNameFree steady_destination steady_location
  steady_replay steady_replayFolder steady_replayFile steady_createReplay : steady.

(** ** The requests *)

Inductive Operation :=
| create_folder (parentId : option string) (name : string)
| rename_folder (folderId name : string)
| move_folder (folderId : string) (destinationFolderId : option string)
| trash_folder (folderId : string)
| restore_folder (folderId : string)
| rename_file (fileId name : string)
| move_file (fileId : string) (destinationFolderId : option string)
| trash_file (fileId : string)
| restore_file (fileId : string)
| keep_mine (fileId conflictCopyId : string) (ifRevision : Z).

Inductive Answer :=
| folder_answer (result : FolderMutationResult)
| file_answer (result : FileMutationResult).

Section Promises.
Context `{Runtime, Installation}.

Definition answering {A} (answer : A -> Answer) (m : Service A) : Service Answer :=
  a ← m; mret (answer a).

Definition perform (request : Request) (operation : Operation) : Service Answer :=
  match operation with
  | create_folder parentId name => answering folder_answer (createFolder request parentId name)
  | rename_folder id name => answering folder_answer (renameFolder request id name)
  | move_folder id destination => answering folder_answer (moveFolder request id destination)
  | trash_folder id => answering folder_answer (trashFolder request id)
  | restore_folder id => answering folder_answer (restoreFolder request id)
  | rename_file id name => answering file_answer (renameFile request id name)
  | move_file id destination => answering file_answer (moveFile request id destination)
  | trash_file id => answering file_answer (trashFile request id)
  | restore_file id => answering file_answer (restoreFile request id)
  | keep_mine id copyId revision => answering file_answer (keepMine request id copyId revision)
  end.

(** ** A key that is known *)

(** A program that changes nothing, and what holds of what it answers when it
    answers. *)
Definition settles {A} (P : A -> Prop) (m : Service A) (w : World) : Prop :=
  exists o, m w = (o, w) /\ o <> Killed /\ forall a, o = Done (Ok a) -> P a.

Lemma settles_ret {A} (P : A -> Prop) a w : P a -> settles P (mret a) w.
Proof. intros Ha. eexists. split_and!; [done|done|]. by intros b [= <-]. Qed.
Lemma settles_refuse {A} (P : A -> Prop) e w : settles P (refuse e) w.
Proof. by eexists. Qed.
Lemma settles_conflict {A} (P : A -> Prop) code id w : settles P (conflict code id) w.
Proof. by eexists. Qed.
Lemma settles_lifted {A} (P : A -> Prop) (r : result ServiceError A) w :
  (forall a, r = Ok a -> P a) -> settles P (lifted r) w.
Proof. intros Hr. eexists. split_and!; [done|done|]. intros a [= ->]. by apply Hr. Qed.
Lemma settles_check b e w : settles (fun _ => b = true) (check b e) w.
Proof. destruct b; [by apply settles_ret|apply settles_refuse]. Qed.

Lemma settles_query {A} (P : A -> Prop) (f : DB -> A) w :
  calm w -> P (f (w_db w)) -> settles P (query f) w.
Proof.
  intros Hc Hp. eexists. rewrite query_calm by done. split_and!; [done|done|]. by intros a [= <-].
Qed.

Lemma settles_bind {A B} (P : A -> Prop) (Q : B -> Prop) (m : Service A) (f : A -> Service B) w :
  settles P m w -> (forall a, P a -> settles Q (f a) w) -> settles Q (m ≫= f) w.
Proof.
  intros ([[a|e]|e|] & E & Hk & Ha) Hf; unfold settles, mbind, Service_bind; rewrite E;
    [by apply Hf, Ha|by eexists..|done].
Qed.

Lemma settles_weaken {A} (P Q : A -> Prop) (m : Service A) w :
  (forall a, P a -> Q a) -> settles P m w -> settles Q m w.
Proof. intros Hpq (o & E & Hk & Ha). exists o. eauto. Qed.

Lemma settles_ready w : calm w -> settles (fun _ => True) assertStorageProtocolReady w.
Proof.
  intros Hc. eapply settles_bind; [by apply (settles_query (fun _ => True))|]. intros v _.
  by eapply settles_weaken; [|apply settles_check].
Qed.

(** Of which request the mutation is the first attempt. *)
Definition sameRequest (request : Request) (kind : StorageMutationKind) (payload : Json)
    (prior : Mutation) : Prop :=
  mu_status prior = succeeded /\ mu_kind prior = kind /\
  mu_requestHash prior = Some (hashDurableStorageRequest payload) /\
  mu_ownerUserId prior = rq_actorUserId request.

Section known.
Context (request : Request) (w : World) (Hcalm : calm w).
Context (key id : string) (prior : Mutation) (Hkey : givenKey (rq_idempotencyKey request) = Some key)
  (Hprior : findByIdempotencyKey (w_db w) key = Some (id, prior)).

Lemma settles_replay kind type entityId payload :
  settles (fun found => found = Some prior /\ sameRequest request kind payload prior)
    (findDirectMutationReplay request kind type entityId payload) w.
Proof.
  unfold findDirectMutationReplay. rewrite Hkey.
  eapply settles_bind; [by apply (settles_query (fun found => found = Some (id, prior)))|].
  intros found ->. repeat (case_match; [apply settles_conflict|]). apply settles_ret. split; [done|].
  repeat match goal with E : _ || _ = false |- _ => apply orb_false_iff in E as [? ?] end.
  repeat match goal with E : negb _ = false |- _ => apply negb_false_iff in E end.
  unfold sameRequest. rewrite <- (accessible_own request). repeat case_bool_decide; try done.
Qed.

Lemma settles_createReplay payload :
  settles (fun found => exists answer, found = Some answer /\ sameRequest request folder_create payload prior)
    (createFolderReplay request payload) w.
Proof.
  unfold createFolderReplay. rewrite Hkey.
  eapply settles_bind; [by apply (settles_query (fun found => found = Some (id, prior)))|].
  intros found ->. repeat (case_match; try apply settles_conflict). apply settles_ret.
  eexists. split; [done|].
  repeat match goal with E : _ || _ = false |- _ => apply orb_false_iff in E as [? ?] end.
  repeat match goal with E : negb _ = false |- _ => apply negb_false_iff in E end.
  unfold sameRequest. rewrite <- (accessible_own request). repeat case_bool_decide; try done.
Qed.

Lemma settles_replayFolder replay folderId : settles (fun _ => True) (replayFolderMutation replay folderId) w.
Proof.
  eapply settles_bind; [by apply (settles_query (fun _ => True))|].
  intros [folder|] _; [by apply settles_ret|apply settles_conflict].
Qed.
Lemma settles_replayFile replay fileId : settles (fun _ => True) (replayFileMutation replay fileId) w.
Proof.
  eapply settles_bind; [by apply (settles_query (fun _ => True))|].
  intros [file|] _; by apply settles_ret.
Qed.

Lemma settles_unlessReplayed {A} kind type entityId payload (again : Mutation -> Service A) go :
  (forall replay, settles (fun _ => True) (again replay) w) ->
  settles (fun _ => sameRequest request kind payload prior)
    (unlessReplayed (findDirectMutationReplay request kind type entityId payload) again go) w.
Proof.
  intros Ha. eapply settles_bind; [apply settles_replay|]. intros found [-> Hs].
  by eapply settles_weaken; [|apply Ha].
Qed.
End known.

(** What the key of a request stands for: the kind and the payload that is hashed. *)
Definition requestPayload (request : Request) (operation : Operation) :
    result ServiceError (StorageMutationKind * Json) :=
  let named (normalize : string -> result string string) name (payload : string -> Json) kind :=
    match normalize name with
    | Ok name => Ok (kind, payload name)
    | Throw code => Throw (FilesError code)
    end in
  let simple kind text idKey id :=
    Ok (kind, JObject [("kind", JString text); (idKey, JString id)]) in
  let moving kind text idKey id destination :=
    payload ← moveHashPayload request text idKey id destination; Ok (kind, payload) in
  match operation with
  | create_folder parentId name =>
      named normalizeFolderName name (createFolderPayload parentId) folder_create
  | rename_folder id name =>
      named normalizeFolderName name
        (fun name => JObject [("kind", JString "folder_rename"); ("folderId", JString id);
                              ("name", JString name)]) folder_rename
  | move_folder id destination => moving folder_move "folder_move" "folderId" id destination
  | trash_folder id => simple folder_trash "folder_trash" "folderId" id
  | restore_folder id => simple folder_restore "folder_restore" "folderId" id
  | rename_file id name =>
      named normalizeFileName name
        (fun name => JObject [("kind", JString "file_rename"); ("fileId", JString id);
                              ("name", JString name)]) file_rename
  | move_file id destination => moving file_move "file_move" "fileId" id destination
  | trash_file id => simple file_trash "file_trash" "fileId" id
  | restore_file id => simple file_restore "file_restore" "fileId" id
  | keep_mine id copyId revision =>
      Ok (file_keep_mine, JObject [("kind", JString "file_keep_mine"); ("fileId", JString id);
                                   ("conflictCopyId", JString copyId);
                                   ("ifRevision", JNumber revision)])
  end.

Lemma settles_answering {A} (P : Prop) (answer : A -> Answer) (m : Service A) w :
  settles (fun _ => P) m w -> settles (fun _ => P) (answering answer m) w.
Proof. intros Hm. eapply settles_bind; [exact Hm|]. intros a Ha. by apply settles_ret. Qed.

(** After a check that the storage is ready. *)
Lemma settles_when_ready {A} (P : A -> Prop) (m : Service A) w :
  calm w -> settles P m w -> settles P (assertStorageProtocolReady ≫= fun _ => m) w.
Proof. intros Hc Hm. by eapply settles_bind; [apply settles_ready|]. Qed.

Lemma settles_named {A} (P : A -> Prop) name (f : string -> Service A) w :
  (forall n, name = Ok n -> settles P (f n) w) -> settles P (checkedName name ≫= f) w.
Proof.
  intros Hf. destruct name as [n|code]; [by apply Hf|apply settles_refuse].
Qed.

(** C8: A request whose key is known runs nothing: the disk, the rows and the journal
    are as they were, whatever the request asks for; and it is answered, if it is not
    refused, only when the mutation of that key is one of the same user, of the same
    kind, for the same payload, and succeeded. *)
Theorem a_known_key_runs_nothing request operation w key id prior :
  calm w -> givenKey (rq_idempotencyKey request) = Some key ->
  findByIdempotencyKey (w_db w) key = Some (id, prior) ->
  exists o, perform request operation w = (o, w) /\ o <> Killed /\
    forall answer, o = Done (Ok answer) ->
      exists kind payload, requestPayload request operation = Ok (kind, payload) /\
        sameRequest request kind payload prior.
Proof.
  intros Hc Hk Hp.
  change (settles (fun _ => exists kind payload, requestPayload request operation = Ok (kind, payload) /\
    sameRequest request kind payload prior) (perform request operation) w).
  pose proof (fun kind type entityId payload A (again : Mutation -> Service A) go =>
    settles_unlessReplayed request w Hc key id prior Hk Hp kind type entityId payload again go) as Hr.
  pose proof (settles_replayFolder w Hc) as Hfolder. pose proof (settles_replayFile w Hc) as Hfile.
  destruct operation; cbn [perform requestPayload]; apply settles_answering;
    apply settles_when_ready; try done.
  - apply settles_named. intros n ->.
    eapply settles_bind; [by apply (settles_createReplay request w Hc key id prior)|].
    intros found (response & -> & Hs). apply settles_ret. eauto.
  - apply settles_named. intros n ->. eapply settles_weaken; [|apply Hr; auto]. eauto.
  - eapply (settles_bind (fun payload => moveHashPayload _ _ _ _ _ = Ok payload));
      [by apply settles_lifted|]. intros payload E. eapply settles_weaken; [|apply Hr; auto].
    rewrite E. eauto.
  - eapply settles_weaken; [|apply Hr; auto]. eauto.
  - eapply settles_weaken; [|apply Hr; auto]. eauto.
  - apply settles_named. intros n ->. eapply settles_weaken; [|apply Hr; auto]. eauto.
  - eapply (settles_bind (fun payload => moveHashPayload _ _ _ _ _ = Ok payload));
      [by apply settles_lifted|]. intros payload E. eapply settles_weaken; [|apply Hr; auto].
    rewrite E. eauto.
  - eapply settles_weaken; [|apply Hr; auto]. eauto.
  - eapply settles_weaken; [|apply Hr; auto]. eauto.
  - eapply settles_weaken; [|apply Hr; auto]. eauto.
Qed.

(** ** The items of others *)

(** The item that a request is about. *)
Definition target (operation : Operation) : option (EntityType * string) :=
  match operation with
  | create_folder parentId _ => id ← givenKey parentId; Some (et_folder, id)
  | rename_folder id _ | move_folder id _ | trash_folder id | restore_folder id =>
      Some (et_folder, id)
  | rename_file id _ | move_file id _ | trash_file id | restore_file id | keep_mine id _ _ =>
      Some (et_file, id)
  end.

Definition notFound (type : EntityType) : ServiceError :=
  FilesError (if bool_decide (type = et_folder) then "FOLDER_NOT_FOUND" else "FILE_NOT_FOUND").

(** The item is missing, or another user's. *)
Definition notOwned (user : string) (type : EntityType) (id : string) (db : DB) : Prop :=
  if bool_decide (type = et_folder)
  then forall folder, findFolderById id db = Some folder -> fo_ownerUserId folder <> user
  else forall file, findFileById id true db = Some file -> fi_ownerUserId file <> user.

Definition refuses {A} (e : ServiceError) (m : Service A) (w : World) : Prop :=
  m w = (Done (Throw e), w).

Lemma refuses_here {A B} e (m : Service A) (f : A -> Service B) w :
  refuses e m w -> refuses e (m ≫= f) w.
Proof. unfold refuses, mbind, Service_bind. by intros ->. Qed.

Lemma refuses_later {A B} e (m : Service A) (f : A -> Service B) w a :
  m w = (Done (Ok a), w) -> refuses e (f a) w -> refuses e (m ≫= f) w.
Proof. unfold refuses, mbind, Service_bind. by intros ->. Qed.

Section unowned.
Context (request : Request) (w : World) (Hcalm : calm w).

Lemma getOwnedFolder_unowned id :
  notOwned (rq_actorUserId request) et_folder id (w_db w) ->
  refuses (notFound et_folder) (getOwnedFolder request id) w.
Proof.
  intros Hn. eapply refuses_later; [by apply query_calm|]. apply refuses_here.
  unfold refuses, lifted, assertFolderAccess.
  destruct (findFolderById id (w_db w)) as [folder|] eqn:E; [|done].
  destruct (accessible request (fo_ownerUserId folder)) eqn:Ea; [|done].
  apply accessible_own in Ea. by destruct (Hn folder E).
Qed.

Lemma getOwnedFile_unowned id missing :
  notOwned (rq_actorUserId request) et_file id (w_db w) ->
  refuses (notFound et_file) (getOwnedFile request id missing) w.
Proof.
  intros Hn. eapply refuses_later; [by apply query_calm|]. apply refuses_here.
  unfold refuses, lifted, assertFileAccess.
  destruct (findFileById id missing (w_db w)) as [file|] eqn:E; [|done].
  destruct (accessible request (fi_ownerUserId file)) eqn:Ea; [|done].
  apply accessible_own in Ea. destruct (Hn file); [|done].
  revert E. unfold findFileById. destruct (_ !! _); [|done]. cbn. by case_match.
Qed.

Lemma activeFolder_unowned id :
  notOwned (rq_actorUserId request) et_folder id (w_db w) ->
  refuses (notFound et_folder) (getActiveOwnedFolder request id) w.
Proof. intros Hn. by apply refuses_here, getOwnedFolder_unowned. Qed.
Lemma activeFile_unowned id :
  notOwned (rq_actorUserId request) et_file id (w_db w) ->
  refuses (notFound et_file) (getActiveOwnedFile request id) w.
Proof. intros Hn. by apply refuses_here, getOwnedFile_unowned. Qed.

Context (Hready : storageProtocolVersion = Some STORAGE_PROTOCOL_VERSION).
Context (Hfresh : forall key, givenKey (rq_idempotencyKey request) = Some key ->
  findByIdempotencyKey (w_db w) key = None).

Lemma ready_goes : assertStorageProtocolReady w = (Done (Ok tt), w).
Proof.
  unfold assertStorageProtocolReady, mbind, Service_bind. rewrite query_calm by done.
  by rewrite Hready.
Qed.

Lemma unreplayed {A} e kind type id payload (again : Mutation -> Service A) go :
  refuses e go w ->
  refuses e (unlessReplayed (findDirectMutationReplay request kind type id payload) again go) w.
Proof.
  intros Hg. apply (refuses_later _ _ _ _ None); [|done]. unfold findDirectMutationReplay.
  destruct (givenKey (rq_idempotencyKey request)) as [key|] eqn:Ek; [|done].
  unfold mbind, Service_bind. rewrite query_calm by done. by rewrite (Hfresh key eq_refl).
Qed.

Lemma uncreated payload : createFolderReplay request payload w = (Done (Ok None), w).
Proof.
  unfold createFolderReplay.
  destruct (givenKey (rq_idempotencyKey request)) as [key|] eqn:Ek; [|done].
  unfold mbind, Service_bind. rewrite query_calm by done. by rewrite (Hfresh key eq_refl).
Qed.
End unowned.

(** C9: A request about an item of another user is refused as one about an item that
    does not exist, and changes nothing: the answer does not tell which it is. *)
Theorem items_of_others_are_not_found request operation w type id payload :
  calm w -> storageProtocolVersion = Some STORAGE_PROTOCOL_VERSION ->
  requestPayload request operation = Ok payload ->
  (forall key, givenKey (rq_idempotencyKey request) = Some key ->
     findByIdempotencyKey (w_db w) key = None) ->
  target operation = Some (type, id) -> notOwned (rq_actorUserId request) type id (w_db w) ->
  perform request operation w = (Done (Throw (notFound type)), w).
Proof.
  intros Hc Hready Hp Hfresh Ht Hn. change (refuses (notFound type) (perform request operation) w).
  destruct operation; cbn [perform target requestPayload] in *; apply refuses_here;
    (eapply refuses_later; [by apply ready_goes|]).
  { destruct (givenKey parentId) as [parent|] eqn:Eg; [|done]. injection Ht as <- <-.
    destruct (normalizeFolderName name) as [n|]; [|done].
    eapply refuses_later; [done|]. eapply refuses_later; [by apply uncreated|].
    do 2 apply refuses_here. unfold destinationOf. rewrite Eg. by apply activeFolder_unowned. }
  all: injection Ht as <- <-.
  all: try (destruct (normalizeFolderName name) as [n|]; [|done]; eapply refuses_later; [done|]).
  all: try (destruct (normalizeFileName name) as [n|]; [|done]; eapply refuses_later; [done|]).
  all: try (destruct (moveHashPayload _ _ _ _ _) as [n|] eqn:Em; [|by cbn in Hp];
            eapply refuses_later; [done|]).
  all: apply unreplayed; [done..|].
  all: do 2 apply refuses_here.
  all: by first [apply activeFolder_unowned|apply activeFile_unowned|
                 apply getOwnedFolder_unowned|apply getOwnedFile_unowned].
Qed.
End Promises.
