(* ===== verification/FolderTree.v ===== *)
(** * Folders above and below one another

    A folder hangs below another when its parents lead there ([climbs]). The
    recursive queries of [repository.ts] and the loop of [collectDescendants] find
    exactly the folders above and below one, and the path of a folder is the names
    of the folders it climbs through. *)

From Stdlib Require String.
From S2P Require Import Prelude Database MutationMetadata StorageLayout FileRows DurableMutation.

(** ** Climbing *)

Definition parentOf (folder : FolderSummary) : option string := givenKey (fo_parentId folder).

(** From a folder up to [top], which is left out: the folders passed. *)
Inductive climbs (look : string -> option FolderSummary) (top : FolderSummary) :
    FolderSummary -> list FolderSummary -> Prop :=
| climbs_top : climbs look top top []
| climbs_up f g up :
    fo_id f <> fo_id top -> parentOf f = Some (fo_id g) -> look (fo_id g) = Some g ->
    climbs look top g up -> climbs look top f (f :: up).

Lemma parentOf_given folder id : parentOf folder = Some id -> fo_parentId folder = Some id.
Proof.
  unfold parentOf, givenKey. destruct (fo_parentId folder) as [[|c s]|]; [done| |done].
  by intros [= <-].
Qed.

Section climbing.
Context (look : string -> option FolderSummary) (top : FolderSummary).
#[local] Notation climbs := (climbs look top).

Lemma climbs_fun f up up' : climbs f up -> climbs f up' -> up = up'.
Proof.
  intros H. revert up'. induction H as [|f g up Hne Hp Hg H IH]; intros up' H'.
  - by inversion H'.
  - inversion H' as [|f' g' up2 _ Hp' Hg' H2]; subst; [done|]. f_equal.
    assert (g = g') as <- by congruence. by apply IH.
Qed.

Lemma climbs_look f up : climbs f up -> look (fo_id f) = Some f ->
  forall x, x ∈ up -> look (fo_id x) = Some x.
Proof.
  induction 1 as [|f g up Hne Hp Hg H IH]; intros Hf x Hx; [set_solver|].
  apply elem_of_cons in Hx as [->|Hx]; [done|auto].
Qed.

Lemma climbs_below f up : climbs f up -> forall x, x ∈ up -> fo_id x <> fo_id top.
Proof. induction 1; set_solver. Qed.

Lemma climbs_from f up x : climbs f up -> x ∈ up -> exists up1 up2, up = up1 ++ up2 /\ climbs x up2.
Proof.
  induction 1 as [|f g up Hne Hp Hg H IH]; intros Hx; [set_solver|].
  apply elem_of_cons in Hx as [->|Hx]; [exists [], (f :: up); split; [done|by econstructor]|].
  destruct (IH Hx) as (up1 & up2 & -> & H2). by exists (f :: up1), up2.
Qed.

Lemma climbs_rest up1 : forall f x up2, climbs f (up1 ++ x :: up2) -> climbs x (x :: up2).
Proof.
  induction up1 as [|y up1 IH]; intros f x up2 Hw; cbn in Hw; inversion Hw; subst; [done|by eapply IH].
Qed.

Lemma climbs_inj f g up : climbs f up -> climbs g up -> f = g.
Proof. inversion 1; inversion 1; subst; congruence. Qed.

(** No folder is passed twice. *)
Lemma climbs_NoDup f up : climbs f up -> look (fo_id f) = Some f -> NoDup (fo_id <$> up).
Proof.
  induction 1 as [|f g up Hne Hp Hg H IH]; intros Hf; [constructor|]. cbn. constructor; [|auto].
  intros (x & Hid & Hx)%list_elem_of_fmap.
  assert (x = f) as ->. { pose proof (climbs_look _ _ H Hg x Hx) as Hl. rewrite <- Hid in Hl. congruence. }
  destruct (climbs_from _ _ _ H Hx) as (up1 & up2 & -> & H2).
  assert (E : up2 = f :: up1 ++ up2) by (eapply climbs_fun; [done|by econstructor]).
  apply (f_equal length) in E. cbn in E. rewrite length_app in E. lia.
Qed.

Lemma climbs_ne f up : climbs f up -> f <> top -> exists rest, up = f :: rest.
Proof. intros H Hne. inversion H; subst; [done|eauto]. Qed.
End climbing.

Lemma climbs_mono look look' top f up :
  climbs look top f up ->
  (forall x, x ∈ top :: up -> look (fo_id x) = Some x -> look' (fo_id x) = Some x) ->
  climbs look' top f up.
Proof.
  induction 1 as [|f g up Hne Hp Hg H IH]; intros Hl; [constructor|].
  econstructor; [done|done| |].
  - apply Hl; [|done]. inversion H; subst; set_solver.
  - apply IH. intros x Hx. apply Hl. set_solver.
Qed.

(** A way that passes [f] is a way to [f] and a way on from there. *)
Lemma climbs_split look top d up f :
  climbs look top d up -> look (fo_id d) = Some d -> f ∈ up ->
  exists up1 up2, up = up1 ++ up2 /\ climbs look f d up1 /\ climbs look top f up2.
Proof.
  induction 1 as [|d g up Hne Hp Hg H IH]; intros Hd Hf; [set_solver|].
  apply elem_of_cons in Hf as [->|Hf].
  - exists [], (d :: up). split_and!; [done|constructor|by econstructor].
  - destruct (IH Hg Hf) as (up1 & up2 & -> & H1 & H2).
    exists (d :: up1), up2. split_and!; [done| |done]. econstructor; [|done..].
    intros E. assert (Hn : NoDup (fo_id <$> d :: up1 ++ up2)).
    { eapply climbs_NoDup; [|done]. by econstructor. }
    cbn in Hn. apply NoDup_cons in Hn as [Hn _]. apply Hn. rewrite E.
    by apply list_elem_of_fmap_2.
Qed.

Lemma climbs_join look top f d up1 up2 :
  climbs look f d up1 -> climbs look top f up2 ->
  (forall x, x ∈ up1 -> fo_id x <> fo_id top) -> climbs look top d (up1 ++ up2).
Proof.
  induction 1 as [|d g up Hne Hp Hg H IH]; intros H2 Hx; [done|]. cbn. econstructor; [|done|done|].
  - apply Hx. by left.
  - apply IH; [done|]. set_solver.
Qed.

(** Folders that are replaced one by one, and keep their ids and parents: a way is
    a way still. *)
Lemma climbs_change look look' (change : FolderSummary -> FolderSummary) top f up :
  climbs look top f up -> fo_id (change top) = fo_id top ->
  (forall x, x ∈ up -> fo_id (change x) = fo_id x /\ parentOf (change x) = parentOf x) ->
  (forall x, x ∈ top :: up -> look (fo_id x) = Some x -> look' (fo_id x) = Some (change x)) ->
  climbs look' (change top) (change f) (change <$> up).
Proof.
  intros Hw Ht. induction Hw as [|f g up Hne Hp Hg Hw IH]; intros Hc Hl; [constructor|].
  destruct (Hc f) as [Hid Hpar]; [by left|]. rewrite fmap_cons.
  assert (Hgid : fo_id (change g) = fo_id g).
  { inversion Hw; subst; [done|]. apply Hc. by right; left. }
  apply climbs_up with (change g); [by rewrite Hid, Ht|by rewrite Hpar, Hgid| |].
  - rewrite Hgid. apply Hl; [|done]. inversion Hw; subst; set_solver.
  - apply IH; intros x Hx; [apply Hc; by right|apply Hl; set_solver].
Qed.

(** ** The path of a folder *)

Definition namesDown (up : list FolderSummary) : list string := reverse (fo_name <$> up).

Lemma namesDown_app up1 up2 : namesDown (up1 ++ up2) = namesDown up2 ++ namesDown up1.
Proof. unfold namesDown. by rewrite fmap_app, reverse_app. Qed.

Lemma namesDown_change (change : FolderSummary -> FolderSummary) up :
  (forall x, x ∈ up -> fo_name (change x) = fo_name x) ->
  namesDown (change <$> up) = namesDown up.
Proof.
  intros Hn. unfold namesDown. f_equal. rewrite <- list_fmap_compose.
  apply list_fmap_ext. intros i x Hx. apply Hn. by eapply list_elem_of_lookup_2.
Qed.

Lemma segmentsFrom_climbs (m : FolderMap) root f up : climbs (fun id => m !! id) root f up ->
  NoDup (fo_id <$> up) ->
  forall fuel visited segments, (length up < fuel)%nat ->
    (forall x, x ∈ up -> fo_id x ∉ visited) ->
    segmentsFrom fuel (Some f) m root visited segments = namesDown up ++ segments.
Proof.
  induction 1 as [|f g up Hne Hp Hg H IH]; intros Hn fuel visited segments Hf Hv;
    (destruct fuel as [|fuel]; [cbn in Hf; lia|]); cbn [segmentsFrom].
  - rewrite (bool_decide_eq_true_2 (fo_id root = fo_id root)) by done. by rewrite orb_true_r.
  - rewrite bool_decide_eq_false_2 by (apply Hv; by left).
    rewrite bool_decide_eq_false_2 by done. cbn [orb].
    cbn in Hn. apply NoDup_cons in Hn as [Hfresh Hn].
    assert (Hpar : match fo_parentId f with
      | None | Some EmptyString => None | Some parent => m !! parent end = Some g).
    { unfold parentOf, givenKey in Hp. destruct (fo_parentId f) as [[|c s]|]; [done| |done].
      injection Hp as ->. done. }
    rewrite Hpar, IH; [|done|cbn in Hf; lia|].
    + unfold namesDown. rewrite fmap_cons, reverse_cons, <- app_assoc. done.
    + intros x Hx [Hin%elem_of_singleton|Hin]%elem_of_union.
      * apply Hfresh. rewrite <- Hin. by apply list_elem_of_fmap_2.
      * apply (Hv x); [set_solver|done].
Qed.

Lemma buildFolderPathSegments_climbs (m : FolderMap) root f up :
  climbs (fun id => m !! id) root f up -> (m !! fo_id f = Some f) ->
  buildFolderPathSegments f m root = namesDown up.
Proof.
  intros H Hf. unfold buildFolderPathSegments.
  assert (Hn : NoDup (fo_id <$> up)) by (by eapply climbs_NoDup).
  rewrite (segmentsFrom_climbs m root f up H Hn); [by rewrite app_nil_r| |set_solver].
  
  assert (Hs : (length up <= size (dom m : gset string))%nat); [|rewrite size_dom in Hs; lia].
  rewrite <- (length_fmap fo_id), <- (size_list_to_set (C := gset string)) by done.
  apply subseteq_size. intros id (x & -> & Hx)%elem_of_list_to_set%list_elem_of_fmap.
  apply elem_of_dom. exists x. eapply (climbs_look _ _ _ _ H); [done|done].
Qed.

(** ** The rows *)

Section rows.
Context `{Installation}.

Lemma elem_of_folders db folder :
  folder ∈ folders db <-> findFolderById (fo_id folder) db = Some folder.
Proof.
  unfold folders, findFolderById, typedRows. rewrite list_elem_of_fmap. split.
  - intros ([id row] & -> & ([[type id'] row'] & Hin & E)%list_elem_of_omap).
    case_bool_decide; [|done]. injection E as <- <-. cbn in *. subst type.
    apply elem_of_map_to_list in Hin. by rewrite Hin.
  - destruct (db_rows db !! (et_folder, fo_id folder)) as [row|] eqn:E; [|done].
    intros [= Ef]. exists (fo_id folder, row). split; [done|].
    apply list_elem_of_omap. exists ((et_folder, fo_id folder), row).
    split; [by apply elem_of_map_to_list|]. by rewrite bool_decide_eq_true_2.
Qed.

Lemma elem_of_files db file :
  file ∈ files db <-> findFileById (fi_id file) true db = Some file.
Proof.
  unfold files, findFileById, typedRows. rewrite list_elem_of_fmap. split.
  - intros ([id row] & -> & ([[type id'] row'] & Hin & E)%list_elem_of_omap).
    case_bool_decide; [|done]. injection E as <- <-. cbn in *. subst type.
    apply elem_of_map_to_list in Hin. by rewrite Hin.
  - destruct (db_rows db !! (et_file, fi_id file)) as [row|] eqn:E; [|done].
    intros [= Ef]. exists (fi_id file, row). split; [done|].
    apply list_elem_of_omap. exists ((et_file, fi_id file), row).
    split; [by apply elem_of_map_to_list|]. by rewrite bool_decide_eq_true_2.
Qed.

Lemma buildFolderMap_lookup l db folder :
  (forall x, x ∈ l -> findFolderById (fo_id x) db = Some x) ->
  buildFolderMap l !! fo_id folder = Some folder <-> folder ∈ l.
Proof.
  unfold buildFolderMap. intros Hl.
  assert (E : forall m : gmap string FolderSummary,
    foldl (fun m folder => <[fo_id folder := folder]> m) m l !! fo_id folder = Some folder <->
    folder ∈ l \/ ((forall x, x ∈ l -> fo_id x <> fo_id folder) /\ m !! fo_id folder = Some folder)).
  { revert Hl. induction l as [|x l IH]; intros Hl m; cbn [foldl]; [set_solver|].
    rewrite IH by (intros y Hy; apply Hl; by right).
    destruct (decide (fo_id x = fo_id folder)) as [E|E].
    - rewrite E, lookup_insert_eq. split.
      + intros [H'|[_ [= ->]]]; left; [by right|by left].
      + intros [[->|H']%elem_of_cons|[H' _]].
        * destruct (decide (fo_id x ∈ fo_id <$> l)) as [(y & Ey & Hy)%list_elem_of_fmap|Hn].
          -- left. assert (Hyd : findFolderById (fo_id y) db = Some y) by (apply Hl; by right).
             assert (Hxd : findFolderById (fo_id x) db = Some x) by (apply Hl; by left).
             rewrite <- Ey in Hyd. by assert (x = y) as -> by congruence.
          -- right. split; [|done]. intros y Hy Ey. apply Hn. rewrite <- Ey.
             by apply list_elem_of_fmap_2.
        * by left.
        * exfalso. apply (H' x); [by left|done].
    - rewrite lookup_insert_ne by done. split.
      + intros [H'|[H' Hm]]; [left; by right|right]. split; [|done].
        intros y [->|Hy]%elem_of_cons; [done|auto].
      + intros [[->|H']%elem_of_cons|[H' Hm]]; [done|by left|right].
        split; [|done]. intros y Hy. apply H'. by right. }
  rewrite E. split; [|by left]. intros [?|[_ Hm]]; [done|]. by rewrite lookup_empty in Hm.
Qed.

Lemma folder_by_id (l : list FolderSummary) db x y :
  (forall f, f ∈ l -> f ∈ folders db) -> x ∈ l -> y ∈ l -> fo_id x = fo_id y -> x = y.
Proof.
  intros Hl Hx%Hl%elem_of_folders Hy%Hl%elem_of_folders E. rewrite E in Hx. congruence.
Qed.

Lemma NoDup_typedRows type db : NoDup (typedRows type db).*1.
Proof.
  unfold typedRows. assert (E : forall l : list ((EntityType * string) * Row), NoDup l.*1 ->
    NoDup (omap (fun e : EntityType * string * Row =>
      if bool_decide (e.1.1 = type) then Some (e.1.2, e.2) else None) l).*1);
    [|apply E, NoDup_fst_map_to_list].
  induction l as [|[[type' id] row] l IH]; cbn; intros Hn; [constructor|].
  apply NoDup_cons in Hn as [Hf Hn]. case_bool_decide; [|auto]. cbn. constructor; [|auto].
  intros ([id' row'] & Hid & ([[type2 id2] row2] & Hin & E)%list_elem_of_omap)%list_elem_of_fmap.
  case_bool_decide; [|done]. injection E as <- <-. cbn in *. subst.
  apply Hf, list_elem_of_fmap. eexists. by split; [|exact Hin].
Qed.

Lemma NoDup_folders db : NoDup (fo_id <$> folders db).
Proof. unfold folders. rewrite <- list_fmap_compose. apply NoDup_typedRows. Qed.
Lemma NoDup_files db : NoDup (fi_id <$> files db).
Proof. unfold files. rewrite <- list_fmap_compose. apply NoDup_typedRows. Qed.

Definition ownFolder (owner : string) (db : DB) (folder : FolderSummary) : Prop :=
  findFolderById (fo_id folder) db = Some folder /\ fo_ownerUserId folder = owner.

Lemma elem_of_ownFolders owner db folder :
  folder ∈ ownFolders owner db <-> ownFolder owner db folder.
Proof. unfold ownFolders, ownFolder. rewrite list_elem_of_filter, elem_of_folders. tauto. Qed.

Lemma NoDup_filter_on {A} (f : A -> string) (P : A -> Prop) `{forall x, Decision (P x)} l :
  NoDup (f <$> l) -> NoDup (f <$> filter P l).
Proof.
  induction l as [|x l IH]; intros Hn; [constructor|]. cbn in Hn. apply NoDup_cons in Hn as [Hx Hn].
  rewrite filter_cons. case_decide; [|auto]. cbn. constructor; [|auto].
  intros (y & E & [_ Hy]%list_elem_of_filter)%list_elem_of_fmap. apply Hx. rewrite E.
  by apply list_elem_of_fmap_2.
Qed.

Lemma NoDup_filter_ids (P : FolderSummary -> Prop) `{forall x, Decision (P x)} l :
  NoDup (fo_id <$> l) -> NoDup (fo_id <$> filter P l).
Proof. apply NoDup_filter_on. Qed.

(** ** Rounds of a recursive query *)

Lemma rounds_grow count more found : found ⊆ rounds count more found.
Proof.
  revert found. induction count as [|count IH]; intros found; cbn; [done|].
  specialize (IH (found ∪ more found)). set_solver.
Qed.

Lemma rounds_last count more found :
  rounds (S count) more found = rounds count more found ∪ more (rounds count more found).
Proof.
  revert found. induction count as [|count IH]; intros found; [done|]. cbn [rounds] in *. apply IH.
Qed.

Lemma elem_of_idsWhere P l id :
  id ∈ idsWhere P l <-> exists folder, folder ∈ l /\ fo_id folder = id /\ P folder = true.
Proof.
  unfold idsWhere. rewrite elem_of_list_to_set, list_elem_of_fmap.
  setoid_rewrite list_elem_of_filter. naive_solver.
Qed.

(** The folder of a list with an id. *)
Definition lookIn (l : list FolderSummary) (id : string) : option FolderSummary :=
  head (filter (fun folder => fo_id folder = id) l).

Lemma lookIn_in l id folder : lookIn l id = Some folder -> folder ∈ l /\ fo_id folder = id.
Proof.
  unfold lookIn. intros Hh%head_Some_elem_of. by apply list_elem_of_filter in Hh as [? ?].
Qed.

Lemma lookIn_of l folder : NoDup (fo_id <$> l) -> folder ∈ l -> lookIn l (fo_id folder) = Some folder.
Proof.
  unfold lookIn. induction l as [|x l IH]; intros Hn Hf; [set_solver|].
  cbn in Hn. apply NoDup_cons in Hn as [Hx Hn]. rewrite filter_cons.
  apply elem_of_cons in Hf as [->|Hf]; [by rewrite decide_True|].
  rewrite decide_False; [auto|]. intros E. apply Hx. rewrite E. by apply list_elem_of_fmap_2.
Qed.

Section lists.
Context (l : list FolderSummary) (Hl : NoDup (fo_id <$> l)).

Lemma climbs_in top f up : climbs (lookIn l) top f up -> f ∈ l -> forall x, x ∈ top :: up -> x ∈ l.
Proof.
  induction 1 as [|f g up Hne Hp Hg Hw IH]; intros Hf x Hx; [by apply list_elem_of_singleton in Hx as ->|].
  apply lookIn_in in Hg as [Hg _]. specialize (IH Hg). set_solver.
Qed.

Lemma climbs_length top f up :
  climbs (lookIn l) top f up -> f ∈ l -> (length up <= length l)%nat.
Proof.
  intros Hw Hf. rewrite <- !(length_fmap fo_id). apply submseteq_length, NoDup_submseteq.
  - eapply climbs_NoDup; [done|]. by apply lookIn_of.
  - intros id (x & -> & Hx)%list_elem_of_fmap. apply list_elem_of_fmap_2.
    eapply climbs_in; [done|done|by right].
Qed.

Lemma ancestors_found top f up count found :
  climbs (lookIn l) top f up -> f ∈ l -> fo_id f ∈ found -> (length up <= count)%nat ->
  forall x, x ∈ top :: up -> fo_id x ∈ rounds count (parentFolders l) found.
Proof.
  intros Hw. revert count found.
  induction Hw as [|f g up Hne Hp Hg Hw IH]; intros count found Hf Hid Hn x Hx.
  - apply list_elem_of_singleton in Hx as ->. by apply rounds_grow.
  - destruct count as [|count]; [cbn in Hn; lia|].
    destruct (lookIn_in _ _ _ Hg) as [Hin _].
    assert (Hcase : x = f \/ x ∈ top :: up) by set_solver.
    destruct Hcase as [->|Hx']; [by apply rounds_grow|]. cbn [rounds].
    apply IH; [done| |cbn in Hn; lia|done].
    apply elem_of_union_r, elem_of_idsWhere. exists g. split_and!; [done|done|].
    apply existsb_exists. exists f. split; [by apply list_elem_of_In|].
    apply andb_true_iff. split; [by apply bool_decide_eq_true|].
    by apply bool_decide_eq_true, parentOf_given.
Qed.

Lemma descendant_found top d up count found :
  climbs (lookIn l) top d up -> d ∈ l -> fo_id top ∈ found -> (length up <= count)%nat ->
  fo_id d ∈ rounds count (childFolders l) found.
Proof.
  intros Hw. revert count. induction Hw as [|d g up Hne Hp Hg Hw IH]; intros count Hd Hid Hn.
  - by apply rounds_grow.
  - destruct count as [|count]; [cbn in Hn; lia|]. rewrite rounds_last.
    destruct (lookIn_in _ _ _ Hg) as [Hin _].
    apply elem_of_union_r, elem_of_idsWhere. exists d. split_and!; [done|done|].
    rewrite (parentOf_given _ _ Hp). apply bool_decide_eq_true.
    apply IH; [done|done|cbn in Hn; lia].
Qed.

(** ** The loop of [collectDescendants] *)

Definition unseen (visited : gset string) : list FolderSummary :=
  filter (fun folder => fo_id folder ∉ visited) l.

Definition childrenOf (parentId : string) (visited : gset string) : list FolderSummary :=
  filter (fun child => fo_parentId child = Some parentId /\ fo_id child ∉ visited) l.

Lemma unseen_step parentId visited :
  (length (childrenOf parentId visited)
   + length (unseen (list_to_set (fo_id <$> childrenOf parentId visited) ∪ visited))
   <= length (unseen visited))%nat.
Proof.
  rewrite <- length_app. rewrite <- !(length_fmap fo_id (_ ++ _)), <- (length_fmap fo_id (unseen visited)).
  apply submseteq_length, NoDup_submseteq.
  - rewrite fmap_app. apply NoDup_app. split_and!; [by apply NoDup_filter_ids| |by apply NoDup_filter_ids].
    intros id Hid (x & -> & [Hx _]%list_elem_of_filter)%list_elem_of_fmap. set_solver.
  - intros id (x & -> & Hx)%list_elem_of_fmap. apply list_elem_of_fmap_2, list_elem_of_filter.
    apply elem_of_app in Hx as [[[_ Hx] ?]%list_elem_of_filter|[Hx ?]%list_elem_of_filter];
      [done|set_solver].
Qed.

(** Every child of a folder that was found is found. *)
Lemma descendantsFrom_closed fuel : forall queue visited,
  (length queue + length (unseen visited) <= fuel)%nat ->
  forall d p, d ∈ l -> fo_id d ∉ visited -> fo_parentId d = Some p ->
    p ∈ queue ++ (fo_id <$> descendantsFrom fuel l queue visited) ->
    d ∈ descendantsFrom fuel l queue visited.
Proof.
  induction fuel as [|fuel IH]; intros [|parentId queue] visited Hf d p Hd Hv Hp Hin;
    cbn [length] in Hf; [set_solver|lia|set_solver|].
  cbn [descendantsFrom] in *. fold (childrenOf parentId visited) in *.
  set (children := childrenOf parentId visited) in *.
  set (visited' := list_to_set (fo_id <$> children) ∪ visited) in *.
  pose proof (unseen_step parentId visited) as Hs.
  destruct (decide (fo_id d ∈ fo_id <$> children)) as [Hc|Hc].
  - apply elem_of_app. left. apply list_elem_of_fmap in Hc as (x & E & Hx).
    assert (Hxl : x ∈ l) by (by apply list_elem_of_filter in Hx as [_ ?]).
    assert (d = x) as ->; [|done].
    pose proof (lookIn_of l d Hl Hd) as H1. pose proof (lookIn_of l x Hl Hxl) as H2. congruence.
  - apply elem_of_app. right. apply IH with p; [|done| |done|].
    + rewrite length_app, length_fmap. unfold visited', children in *. lia.
    + set_solver.
    + apply elem_of_app. apply elem_of_app in Hin as [[->|Hq]%elem_of_cons|Hin].
      * exfalso. apply Hc, list_elem_of_fmap_2, list_elem_of_filter. done.
      * left. set_solver.
      * rewrite fmap_app in Hin. set_solver.
Qed.

(** What is found climbs to where the search began. *)
Lemma descendantsFrom_sound top fuel : forall queue visited,
  (forall x, x ∈ l -> fo_id x <> "") -> fo_id top ∈ visited ->
  (forall id, id ∈ queue ->
     exists x up, fo_id x = id /\ x ∈ l /\ climbs (lookIn l) top x up) ->
  forall d, d ∈ descendantsFrom fuel l queue visited ->
    d ∈ l /\ fo_id d ∉ visited /\ exists up, climbs (lookIn l) top d up.
Proof.
  induction fuel as [|fuel IH]; intros [|parentId queue] visited Hids Ht Hq d Hd; [set_solver..|].
  cbn [descendantsFrom] in Hd. fold (childrenOf parentId visited) in *.
  assert (Hc : forall c, c ∈ childrenOf parentId visited ->
    c ∈ l /\ fo_id c ∉ visited /\ exists up, climbs (lookIn l) top c up).
  { intros c [[Hp Hv] Hc]%list_elem_of_filter. split_and!; [done|done|].
    destruct (Hq parentId) as (x & up & <- & Hx & Hup); [by left|].
    exists (c :: up). apply climbs_up with x; [by intros E; rewrite E in Hv| |by apply lookIn_of|done].
    unfold parentOf, givenKey. rewrite Hp. specialize (Hids x Hx). by destruct (fo_id x). }
  apply elem_of_app in Hd as [Hd|Hd]; [by apply Hc|].
  apply IH in Hd as (H1 & H2 & H3); [|done|set_solver|].
  - split_and!; [done|set_solver|done].
  - intros id [Hid|(c & -> & Hin)%list_elem_of_fmap]%elem_of_app; [apply Hq; by right|].
    destruct (Hc c Hin) as (? & _ & up & ?). by exists c, up.
Qed.

Lemma descendantsFrom_NoDup fuel : forall queue visited,
  NoDup (fo_id <$> descendantsFrom fuel l queue visited) /\
  forall d, d ∈ descendantsFrom fuel l queue visited -> fo_id d ∉ visited.
Proof.
  induction fuel as [|fuel IH]; intros [|parentId queue] visited;
    [split; [constructor|by intros ? ?%elem_of_nil]..|].
  cbn [descendantsFrom]. fold (childrenOf parentId visited).
  destruct (IH (queue ++ (fo_id <$> childrenOf parentId visited))
    (list_to_set (fo_id <$> childrenOf parentId visited) ∪ visited)) as [Hn Hv]. split.
  - rewrite fmap_app. apply NoDup_app. split_and!; [by apply NoDup_filter_ids| |done].
    intros id Hid (d & -> & Hd%Hv)%list_elem_of_fmap. apply Hd, elem_of_union_l.
    by apply elem_of_list_to_set.
  - intros d [[[_ ?] _]%list_elem_of_filter|Hd%Hv]%elem_of_app; [done|].
    intros ?. by apply Hd, elem_of_union_r.
Qed.
End lists.

(** ** The queries *)

Definition ownLive (includeDeleted : bool) (owner : string) (db : DB) : list FolderSummary :=
  filter (fun folder => includeDeleted = true \/ isLiveFolder folder = true) (ownFolders owner db).

Lemma NoDup_ownLive includeDeleted owner db : NoDup (fo_id <$> ownLive includeDeleted owner db).
Proof. apply NoDup_filter_ids, NoDup_filter_ids, NoDup_folders. Qed.

Lemma elem_of_ownLive includeDeleted owner db folder :
  folder ∈ ownLive includeDeleted owner db <->
  (includeDeleted = true \/ isLiveFolder folder = true) /\ ownFolder owner db folder.
Proof. unfold ownLive. by rewrite list_elem_of_filter, elem_of_ownFolders. Qed.

Lemma elem_of_findFoldersByIds owner ids db folder :
  folder ∈ findFoldersByIds owner ids db <-> fo_id folder ∈ ids /\ ownFolder owner db folder.
Proof.
  unfold findFoldersByIds. rewrite (merge_sort_Permutation folderOrder).
  by rewrite list_elem_of_filter, elem_of_ownFolders.
Qed.

Lemma NoDup_findFoldersByIds owner ids db : NoDup (fo_id <$> findFoldersByIds owner ids db).
Proof.
  unfold findFoldersByIds. rewrite (merge_sort_Permutation folderOrder).
  apply NoDup_filter_ids, NoDup_filter_ids, NoDup_folders.
Qed.

Lemma listFolderAncestors_found owner ids db top f up :
  climbs (lookIn (ownFolders owner db)) top f up -> ownFolder owner db f -> fo_id f ∈ ids ->
  forall x, x ∈ top :: up -> x ∈ listFolderAncestors owner ids db.
Proof.
  intros Hw Hf Hid x Hx. assert (Hn : NoDup (fo_id <$> ownFolders owner db)).
  { apply NoDup_filter_ids, NoDup_folders. }
  rewrite <- elem_of_ownFolders in Hf. apply elem_of_findFoldersByIds. split.
  - apply (ancestors_found _ Hn top f up); [done|done| |by eapply climbs_length|done].
    apply elem_of_idsWhere. exists f. by rewrite bool_decide_eq_true.
  - apply elem_of_ownFolders. by eapply (climbs_in _ Hn top f up).
Qed.

Lemma elem_of_listFolderAncestors owner ids db x :
  x ∈ listFolderAncestors owner ids db -> ownFolder owner db x.
Proof. by intros [_ ?]%elem_of_findFoldersByIds. Qed.

Lemma NoDup_collectDescendants owner folderId includeDeleted db :
  NoDup (folderId :: (fo_id <$> collectDescendants owner folderId includeDeleted db)).
Proof.
  unfold collectDescendants.
  destruct (descendantsFrom_NoDup (listFolderSubtree owner folderId includeDeleted db)
    (NoDup_findFoldersByIds _ _ _) (S (length (listFolderSubtree owner folderId includeDeleted db)))
    [folderId] {[folderId]}) as [Hn Hv].
  constructor; [|done]. intros (d & E & Hd%Hv)%list_elem_of_fmap. rewrite E in Hd. set_solver.
Qed.

Lemma elem_of_listFilesInFolders owner ids includeDeleted db file :
  file ∈ listFilesInFolders owner ids includeDeleted db <->
  (fi_ownerUserId file = owner /\ inFolders ids file = true
   /\ (includeDeleted = true \/ isLiveFile file = true)) /\ file ∈ files db.
Proof.
  unfold listFilesInFolders. rewrite (merge_sort_Permutation fileOrder). by rewrite list_elem_of_filter.
Qed.

Lemma NoDup_listFilesInFolders owner ids includeDeleted db :
  NoDup (fi_id <$> listFilesInFolders owner ids includeDeleted db).
Proof.
  unfold listFilesInFolders. rewrite (merge_sort_Permutation fileOrder).
  apply (NoDup_filter_on fi_id), NoDup_files.
Qed.

(** [collectDescendants] finds exactly what hangs below a folder. *)
Lemma collectDescendants_spec owner includeDeleted db top d :
  (forall x, x ∈ ownLive includeDeleted owner db -> fo_id x <> "") ->
  top ∈ ownLive includeDeleted owner db ->
  d ∈ collectDescendants owner (fo_id top) includeDeleted db <->
  d ∈ ownLive includeDeleted owner db /\ fo_id d <> fo_id top /\
  exists up, climbs (lookIn (ownLive includeDeleted owner db)) top d up.
Proof.
  intros Hids Htop. set (own := ownLive includeDeleted owner db) in *.
  assert (Hn : NoDup (fo_id <$> own)) by apply NoDup_ownLive.
  unfold collectDescendants. set (l := listFolderSubtree owner (fo_id top) includeDeleted db).
  assert (Hnl : NoDup (fo_id <$> l)) by apply NoDup_findFoldersByIds.
  assert (Hsub : forall x, x ∈ l -> x ∈ own).
  { intros x [Hx Ho]%elem_of_findFoldersByIds. apply elem_of_ownLive. split; [|done].
    assert (Hid : fo_id x ∈ fo_id <$> own).
    { revert Hx. unfold readFolderSubtreeIds. fold own.
      assert (Hr : forall count found, (forall id, id ∈ found -> id ∈ fo_id <$> own) ->
        forall id, id ∈ rounds count (childFolders own) found -> id ∈ fo_id <$> own).
      { induction count as [|count IH]; intros found Hf id Hi; [by apply Hf|]. cbn in Hi.
        eapply IH; [|done]. intros id' [?|(y & Hy & <- & _)%elem_of_idsWhere]%elem_of_union;
          [by apply Hf|by apply list_elem_of_fmap_2]. }
      apply Hr. intros id (y & Hy & <- & _)%elem_of_idsWhere. by apply list_elem_of_fmap_2. }
    apply list_elem_of_fmap in Hid as (y & E & [Hy Hoy]%elem_of_ownLive).
    destruct Ho as [Ho _], Hoy as [Hoy _]. rewrite E in Ho. by assert (x = y) as -> by congruence. }
  assert (Hall : forall x up, x ∈ own -> climbs (lookIn own) top x up -> x ∈ l).
  { intros x up Hx Hw. apply elem_of_findFoldersByIds.
    split; [|by apply elem_of_ownLive in Hx as [_ ?]].
    apply (descendant_found _ top x up); [done|done| |by eapply climbs_length].
    apply elem_of_idsWhere. exists top. by rewrite bool_decide_eq_true. }
  assert (Htl : top ∈ l) by (eapply Hall; [done|constructor]).
  assert (Hmono : forall x up, x ∈ own -> climbs (lookIn own) top x up -> climbs (lookIn l) top x up).
  { intros x up Hx Hw. apply (climbs_mono (lookIn own)); [done|]. intros y Hy _. apply lookIn_of; [done|].
    assert (Hyo : y ∈ own) by (by eapply climbs_in).
    apply elem_of_cons in Hy as [->|Hy]; [done|].
    destruct (climbs_from _ _ _ _ _ Hw Hy) as (? & up2 & _ & ?). by eapply Hall. }
  split.
  - intros Hd. apply (descendantsFrom_sound l Hnl top) in Hd as (Hd & Hv & up & Hw); [|auto|set_solver|].
    + split_and!; [auto|set_solver|]. exists up. apply (climbs_mono (lookIn l)); [done|].
      intros y Hy _. apply lookIn_of; [done|]. apply Hsub. by eapply climbs_in.
    + intros id ->%list_elem_of_singleton. exists top, []. split_and!; [done|done|constructor].
  - intros (Hd & Hne & up & Hw). pose proof (Hall d up Hd Hw) as Hdl.
    apply Hmono in Hw; [|done]. clear Hd. revert Hdl Hne.
    induction Hw as [|d g up Hne' Hp Hg Hw IH]; intros Hdl Hne; [done|].
    apply (descendantsFrom_closed l Hnl _ _ _) with (fo_id g); [|done|set_solver|by apply parentOf_given|].
    + cbn. assert (length (unseen l {[fo_id top]}) <= length l)%nat; [|lia].
      unfold unseen. apply length_filter.
    + destruct (lookIn_in _ _ _ Hg) as [Hgl _].
      destruct (decide (fo_id g = fo_id top)) as [->|Hgt]; [by left|].
      right. apply list_elem_of_fmap_2. by apply IH.
Qed.
End rows.
