(* ===== verification/FolderMoves.v ===== *)
(** * A tree of folders that stays in order

    The rows of an owner are in order ([orderly]) when every live folder climbs to
    the one root and every live file has the key that the names of its folders and
    its own name make. A folder that takes another name or another parent, with
    the new keys of the files below it, leaves the rows in order.

    The updates that [renameFolder] and [moveFolder] plan, applied to the rows they
    were planned from, do just that: the folder is in its new place, and every live
    file below it has the key of its new path. *)

From Stdlib Require String.
From S2P Require Import Prelude JsValues Database MutationMetadata Journal MetadataFacts Disk Io StoragePaths StorageLayout FileRows DurableMutation FileService FileOperations FilePromises FolderTree.

Open Scope Z_scope.

Section orderly.
Context `{Installation}.

Definition liveTree (owner : string) (db : DB) : string -> option FolderSummary :=
  lookIn (ownLive false owner db).

(** The path of a file below the folders that were climbed. *)
Definition filePath (owner : string) (up : list FolderSummary) (name : string) : path :=
  "files" :: storageIdOf owner :: namesDown up ++ [name].

Definition ownFile (owner : string) (db : DB) (file : StoredFile) : Prop :=
  findFileById (fi_id file) true db = Some file /\ fi_ownerUserId file = owner.

Record orderly (owner : string) (root : FolderSummary) (db : DB) : Prop := {
  or_root : filesRoots owner db = [root];
  or_rootLive : isLiveFolder root = true;
  or_rootTop : parentOf root = None;
  or_storage : isEntryName (storageIdOf owner);
  or_ids folder : ownFolder owner db folder -> fo_id folder <> "";
  or_names folder : folder ∈ ownLive false owner db -> fo_id folder <> fo_id root ->
    isEntryName (fo_name folder);
  or_tree folder : folder ∈ ownLive false owner db ->
    exists up, climbs (liveTree owner db) root folder up;
  or_files file : ownFile owner db file -> isLiveFile file = true ->
    exists folder up, folder ∈ ownLive false owner db /\ fi_folderId file = Some (fo_id folder) /\
      climbs (liveTree owner db) root folder up /\ isEntryName (fi_name file) /\
      fi_storageKey file = keyOf (filePath owner up (fi_name file));
  or_trash file : ownFile owner db file -> isLiveFile file = false ->
    exists rest, pathOfKey (fi_storageKey file) = ".trash" :: rest
}.

Lemma liveTree_of owner db folder :
  folder ∈ ownLive false owner db -> liveTree owner db (fo_id folder) = Some folder.
Proof. apply lookIn_of, NoDup_ownLive. Qed.

Lemma liveTree_in owner db id folder :
  liveTree owner db id = Some folder -> folder ∈ ownLive false owner db /\ fo_id folder = id.
Proof. apply lookIn_in. Qed.

Lemma elem_of_liveFolders owner db folder :
  folder ∈ ownLive false owner db <-> isLiveFolder folder = true /\ ownFolder owner db folder.
Proof. rewrite elem_of_ownLive. naive_solver. Qed.

Section facts.
Context (owner : string) (root : FolderSummary) (db : DB) (Ho : orderly owner root db).
#[local] Notation L := (ownLive false owner db).
#[local] Notation look := (liveTree owner db).

Lemma root_live : root ∈ L.
Proof.
  apply elem_of_liveFolders. split; [by apply (or_rootLive _ _ _ Ho)|].
  by destruct (filesRoots_row _ _ _ (or_root _ _ _ Ho)) as (? & ? & _).
Qed.

Lemma way_in top folder up x :
  climbs look top folder up -> folder ∈ L -> x ∈ up -> x ∈ L.
Proof. intros Hw Hf Hx. eapply (climbs_in _ (NoDup_ownLive _ _ _)); [done|done|by right]. Qed.

Lemma way_names top folder up :
  climbs look top folder up -> folder ∈ L -> (forall x, x ∈ up -> fo_id x <> fo_id root) ->
  Forall isEntryName (namesDown up).
Proof.
  intros Hw Hf Hx. unfold namesDown. apply Forall_reverse, Forall_fmap, Forall_forall.
  intros x Hin. apply (or_names _ _ _ Ho); [by eapply way_in|by apply Hx].
Qed.

Lemma root_stays top up : climbs look top root up -> top = root.
Proof.
  inversion 1 as [|? ? ? ? Hp]; subst; [done|]. by rewrite (or_rootTop _ _ _ Ho) in Hp.
Qed.

Lemma ids_agree x y : x ∈ L -> y ∈ L -> fo_id x = fo_id y -> x = y.
Proof. intros Hx%liveTree_of Hy%liveTree_of E. rewrite E in Hx. congruence. Qed.

(** The way to a folder is the first part of the way to the root. *)
Lemma way_to_root f upf d up :
  f ∈ L -> climbs look root f upf -> f <> root -> d ∈ L -> climbs look f d up ->
  climbs look root d (up ++ upf).
Proof.
  intros Hf Hwf Hne Hd Hw. eapply climbs_join; [done|done|]. intros x Hx E.
  assert (x = root) as ->.
  { apply ids_agree; [by eapply way_in|apply root_live|done]. }
  destruct (climbs_from _ _ _ _ _ Hw Hx) as (? & ? & _ & Hr). by apply root_stays in Hr.
Qed.

(** ** Paths tell folders apart *)

(** What the unique index on names promises. *)
Definition distinctNames : Prop :=
  forall x y, x ∈ L -> y ∈ L -> parentOf x = parentOf y -> fo_name x = fo_name y ->
    fo_id x <> fo_id root -> fo_id y <> fo_id root -> x = y.

Lemma path_prefix (Hd : distinctNames) f upf : forall g upg,
  climbs look root f upf -> f ∈ L -> climbs look root g upg -> g ∈ L ->
  namesDown upf `prefix_of` namesDown upg -> exists up, upg = up ++ upf.
Proof.
  intros g upg Hf HfL Hg HgL. induction Hf as [|a p upp Hne Hp Hlp Hf IH]; intros Hpre.
  { exists upg. by rewrite app_nil_r. }
  unfold namesDown in Hpre. rewrite fmap_cons, reverse_cons in Hpre. fold (namesDown upp) in Hpre.
  destruct (liveTree_in _ _ _ _ Hlp) as [HpL _].
  destruct IH as [u1 ->]; [done|by etrans; [apply prefix_app_r|]|].
  fold (namesDown (u1 ++ upp)) in Hpre. rewrite namesDown_app in Hpre.
  apply prefix_app_inv in Hpre as [rest Hpre].
  destruct (exists_last (l := u1)) as (u & b & ->); [by intros ->|].
  unfold namesDown in Hpre. rewrite fmap_app, reverse_app in Hpre. cbn in Hpre.
  injection Hpre as Hname _. rewrite <- app_assoc in *. cbn [app] in *.
  pose proof (climbs_rest _ _ _ _ _ _ Hg) as Hb.
  assert (HbL : b ∈ L) by (eapply way_in; [exact Hg|done|set_solver]).
  inversion Hb as [|b' p' up' Hbne Hbp Hbl Hb']; subst.
  assert (p' = p) as -> by by eapply climbs_inj.
  assert (a = b) as -> by (apply Hd; [done|done|congruence|done|done|done]).
  by exists u.
Qed.
End facts.

(** ** One folder takes another place *)

(** What a change of a folder's row leaves as it was. *)
Definition sameRow (x y : FolderSummary) : Prop :=
  fo_id y = fo_id x /\ fo_ownerUserId y = fo_ownerUserId x /\
  fo_isFilesRoot y = fo_isFilesRoot x /\ fo_deletedAt y = fo_deletedAt x.
Definition sameFileRow (x y : StoredFile) : Prop :=
  fi_id y = fi_id x /\ fi_ownerUserId y = fi_ownerUserId x /\ fi_folderId y = fi_folderId x /\
  fi_name y = fi_name x /\ fi_deletedAt y = fi_deletedAt x.

(** The folder [f] becomes [f'], in the live folder [p], which is not below it. *)
Record newPlace (owner : string) (root : FolderSummary) (db : DB) (f f' p : FolderSummary)
    (upp : list FolderSummary) : Prop := {
  np_live : f ∈ ownLive false owner db; np_notRoot : fo_id f <> fo_id root;
  np_id : fo_id f' = fo_id f; np_name : isEntryName (fo_name f');
  np_parent : parentOf f' = Some (fo_id p); np_parentLive : p ∈ ownLive false owner db;
  np_way : climbs (liveTree owner db) root p upp; np_apart : f ∉ upp
}.

(** The rows before and after: folders by [φ], files by [ψ]. *)
Record replaced (owner : string) (root : FolderSummary) (db db' : DB) (f f' : FolderSummary)
    (upp : list FolderSummary) (φ : FolderSummary -> FolderSummary) (ψ : StoredFile -> StoredFile) :
    Prop := {
  re_folders id : findFolderById id db' = φ <$> findFolderById id db;
  re_same x : findFolderById (fo_id x) db = Some x -> sameRow x (φ x);
  re_others x : findFolderById (fo_id x) db = Some x -> fo_id x <> fo_id f ->
    fo_name (φ x) = fo_name x /\ fo_parentId (φ x) = fo_parentId x;
  re_self : fo_name (φ f) = fo_name f' /\ fo_parentId (φ f) = fo_parentId f';
  re_files id : findFileById id true db' = ψ <$> findFileById id true db;
  re_sameFile x : findFileById (fi_id x) true db = Some x -> sameFileRow x (ψ x);
  re_below file folder up : ownFile owner db file -> isLiveFile file = true ->
    folder ∈ ownLive false owner db -> fi_folderId file = Some (fo_id folder) ->
    climbs (liveTree owner db) f folder up -> isEntryName (fi_name file) ->
    fi_storageKey (ψ file) = keyOf (filePath owner (up ++ f' :: upp) (fi_name file));
  re_elsewhere file : ownFile owner db file ->
    (isLiveFile file = true -> forall folder up, folder ∈ ownLive false owner db ->
       fi_folderId file = Some (fo_id folder) -> climbs (liveTree owner db) root folder up ->
       f ∉ up) ->
    fi_storageKey (ψ file) = fi_storageKey file
}.

Section replaced.
Context (owner : string) (root : FolderSummary) (db : DB) (Ho : orderly owner root db).
Context (f f' p : FolderSummary) (upp : list FolderSummary) (Hplace : newPlace owner root db f f' p upp).
Context (db' : DB) (φ : FolderSummary -> FolderSummary) (ψ : StoredFile -> StoredFile).
Context (Hre : replaced owner root db db' f f' upp φ ψ).
#[local] Notation L := (ownLive false owner db).
#[local] Notation look := (liveTree owner db).
#[local] Notation look' := (liveTree owner db').

Lemma row_of x : x ∈ L -> findFolderById (fo_id x) db = Some x.
Proof. by intros [_ [? _]]%elem_of_liveFolders. Qed.

Lemma live_after g : g ∈ ownLive false owner db' <-> exists x, x ∈ L /\ g = φ x.
Proof.
  rewrite elem_of_liveFolders. unfold ownFolder. split.
  - intros (Hl & Hg & Hown). rewrite (re_folders _ _ _ _ _ _ _ _ _ Hre) in Hg.
    destruct (findFolderById (fo_id g) db) as [x|] eqn:Ex; [|done]. injection Hg as <-.
    pose proof (findFolderById_id _ _ _ Ex) as Hid. rewrite <- Hid in Ex.
    destruct (re_same _ _ _ _ _ _ _ _ _ Hre x Ex) as (_ & E1 & _ & E2).
    exists x. split; [|done]. apply elem_of_liveFolders. unfold isLiveFolder, ownFolder in *.
    by rewrite <- E1, <- E2.
  - intros (x & Hx & ->). pose proof (row_of x Hx) as Ex.
    destruct (re_same _ _ _ _ _ _ _ _ _ Hre x Ex) as (E0 & E1 & _ & E2).
    apply elem_of_liveFolders in Hx as [Hl [_ Hown]]. unfold isLiveFolder in *.
    rewrite E0, E1, E2, (re_folders _ _ _ _ _ _ _ _ _ Hre), Ex. done.
Qed.

Lemma id_after x : x ∈ L -> fo_id (φ x) = fo_id x.
Proof. intros Hx%row_of. by destruct (re_same _ _ _ _ _ _ _ _ _ Hre x Hx). Qed.

Lemma look_after x : x ∈ L -> look' (fo_id x) = Some (φ x).
Proof. intros Hx. rewrite <- id_after by done. apply liveTree_of, live_after. by exists x. Qed.

Lemma parent_after x : x ∈ L -> x <> f -> parentOf (φ x) = parentOf x.
Proof.
  intros Hx Hne. unfold parentOf. destruct (re_others _ _ _ _ _ _ _ _ _ Hre x) as [_ ->];
    [by apply row_of| |done]. intros E. apply Hne. by eapply ids_agree; [..|apply (np_live _ _ _ _ _ _ _ Hplace)|].
Qed.

Lemma name_after x : x ∈ L -> x <> f -> fo_name (φ x) = fo_name x.
Proof.
  intros Hx Hne. destruct (re_others _ _ _ _ _ _ _ _ _ Hre x) as [-> _];
    [by apply row_of| |done]. intros E. apply Hne. by eapply ids_agree; [..|apply (np_live _ _ _ _ _ _ _ Hplace)|].
Qed.

(** A way that does not pass the folder is a way still. *)
Lemma way_after top x up :
  climbs look top x up -> top ∈ L -> x ∈ L -> f ∉ up -> climbs look' (φ top) (φ x) (φ <$> up).
Proof.
  intros Hw Ht Hx Hf. apply (climbs_change look); [done|by apply id_after| |].
  - intros y Hy. assert (y ∈ L) by by eapply way_in.
    split; [by apply id_after|]. apply parent_after; [done|]. by intros ->.
  - intros y Hy Hl. apply look_after. by apply liveTree_in in Hl as [? _].
Qed.

Lemma names_after top x up :
  climbs look top x up -> x ∈ L -> f ∉ up -> namesDown (φ <$> up) = namesDown up.
Proof.
  intros Hw Hx Hf. apply namesDown_change. intros y Hy.
  apply name_after; [by eapply way_in|]. by intros ->.
Qed.

Lemma place_after : climbs look' (φ root) (φ f) (φ <$> f :: upp).
Proof.
  destruct Hplace as [Hf Hne Hid _ Hp HpL Hw Ha]. rewrite fmap_cons.
  pose proof (root_live _ _ _ Ho) as Hr. apply climbs_up with (φ p).
  - by rewrite !id_after.
  - rewrite id_after by done. unfold parentOf. by destruct (re_self _ _ _ _ _ _ _ _ _ Hre) as [_ ->].
  - rewrite id_after by done. by apply look_after.
  - by apply way_after.
Qed.

Lemma names_place : namesDown (φ <$> f :: upp) = namesDown (f' :: upp).
Proof.
  destruct Hplace as [Hf Hne Hid _ Hp HpL Hw Ha]. rewrite fmap_cons.
  change (φ f :: (φ <$> upp)) with ([φ f] ++ (φ <$> upp)). change (f' :: upp) with ([f'] ++ upp).
  rewrite !namesDown_app, (names_after root p) by done. f_equal.
  unfold namesDown. cbn. by destruct (re_self _ _ _ _ _ _ _ _ _ Hre) as [-> _].
Qed.

Lemma not_root : f <> root.
Proof. intros ->. by apply (np_notRoot _ _ _ _ _ _ _ Hplace). Qed.

(** The way of a folder that hangs below. *)
Lemma below_after x up :
  climbs look f x up -> x ∈ L ->
  climbs look' (φ root) (φ x) (φ <$> up ++ f :: upp) /\
  namesDown (φ <$> up ++ f :: upp) = namesDown (up ++ f' :: upp).
Proof.
  intros Hw Hx. pose proof (np_live _ _ _ _ _ _ _ Hplace) as Hf.
  assert (Hn : f ∉ up) by (intros Hin; by apply (climbs_below _ _ _ _ Hw _ Hin)).
  split.
  - rewrite fmap_app. eapply climbs_join; [by apply way_after|apply place_after|].
    intros y (z & -> & Hz)%list_elem_of_fmap E.
    assert (HzL : z ∈ L) by by eapply way_in.
    rewrite !id_after in E; [|apply (root_live _ _ _ Ho)|done].
    assert (z = root) as -> by (by eapply ids_agree; [..|apply (root_live _ _ _ Ho)|]).
    destruct (climbs_from _ _ _ _ _ Hw Hz) as (? & ? & _ & Hr).
    apply (root_stays _ _ _ Ho) in Hr. by apply not_root.
  - rewrite fmap_app, !namesDown_app, names_place, (names_after f x) by done. done.
Qed.

(** Where every folder is afterwards. *)
Lemma ways_after x up :
  climbs look root x up -> x ∈ L ->
  exists up', climbs look' (φ root) (φ x) up' /\
    ((f ∉ up /\ namesDown up' = namesDown up) \/
     (exists up1, climbs look f x up1 /\ namesDown up' = namesDown (up1 ++ f' :: upp))).
Proof.
  intros Hw Hx. destruct (decide (fo_id f ∈ fo_id <$> up)) as [(y & E & Hy)%list_elem_of_fmap|Hn].
  - assert (y = f) as ->.
    { eapply ids_agree; [by eapply way_in|apply (np_live _ _ _ _ _ _ _ Hplace)|done]. }
    destruct (climbs_split _ _ _ _ _ Hw (liveTree_of _ _ _ Hx) Hy) as (up1 & up2 & -> & H1 & _).
    destruct (below_after x up1 H1 Hx) as [? ?]. eexists. split; [done|]. right. by exists up1.
  - assert (Hf : f ∉ up) by (intros Hin; by apply Hn, list_elem_of_fmap_2).
    exists (φ <$> up). split; [by apply way_after; [..|apply (root_live _ _ _ Ho)| |]|]. left.
    split; [done|]. by eapply names_after.
Qed.

Lemma file_after file' :
  ownFile owner db' file' -> exists file, ownFile owner db file /\ file' = ψ file /\
    sameFileRow file file'.
Proof.
  intros [Hf Hown]. rewrite (re_files _ _ _ _ _ _ _ _ _ Hre) in Hf.
  destruct (findFileById (fi_id file') true db) as [file|] eqn:E; [|done]. injection Hf as <-.
  pose proof (findFileById_id _ _ _ _ E) as Hid. rewrite <- Hid in E.
  pose proof (re_sameFile _ _ _ _ _ _ _ _ _ Hre file E) as Hs. exists file.
  destruct Hs as (? & E1 & ?). split_and!; [by rewrite <- Hown, E1|done|done].
Qed.

Lemma fileKey_after file folder up :
  ownFile owner db file -> isLiveFile file = true -> folder ∈ L ->
  fi_folderId file = Some (fo_id folder) -> climbs look root folder up ->
  isEntryName (fi_name file) -> fi_storageKey file = keyOf (filePath owner up (fi_name file)) ->
  exists up', climbs look' (φ root) (φ folder) up' /\
    fi_storageKey (ψ file) = keyOf (filePath owner up' (fi_name file)).
Proof.
  intros Hown Hl Hf Hid Hw Hn Hk.
  destruct (ways_after folder up Hw Hf) as (up' & Hw' & [[Hnot E]|(up1 & H1 & E)]);
    exists up'; (split; [done|]).
  - unfold filePath in *. rewrite E, <- Hk. apply (re_elsewhere _ _ _ _ _ _ _ _ _ Hre); [done|].
    intros _ folder2 up2 Hf2 Hid2 Hw2. rewrite Hid in Hid2. injection Hid2 as E2.
    apply (ids_agree owner db) in E2 as ->; [|done..]. by rewrite <- (climbs_fun _ _ _ _ _ Hw Hw2).
  - unfold filePath. rewrite E. by eapply (re_below _ _ _ _ _ _ _ _ _ Hre).
Qed.

Lemma orderly_after : orderly owner (φ root) db'.
Proof.
  pose proof (root_live _ _ _ Ho) as Hr.
  pose proof (re_same _ _ _ _ _ _ _ _ _ Hre) as Hsame.
  destruct (filesRoots_row _ _ _ (or_root _ _ _ Ho)) as (Hrow & Hrown & Hisroot).
  destruct (Hsame root Hrow) as (Eid & Eown & Eroot & Edel).
  split.
  - assert (Hn : NoDup (filesRoots owner db')).
    { apply (NoDup_fmap_1 fo_id), NoDup_filter_ids, NoDup_folders. }
    assert (Hin : forall x, x ∈ filesRoots owner db' <-> x = φ root).
    { intros x. unfold filesRoots. rewrite list_elem_of_filter, elem_of_folders,
        (re_folders _ _ _ _ _ _ _ _ _ Hre). split.
      - intros [[Hxo Hxr] Hx]. destruct (findFolderById (fo_id x) db) as [y|] eqn:Ey; [|done].
        injection Hx as <-. pose proof (findFolderById_id _ _ _ Ey) as Hid. rewrite <- Hid in Ey.
        destruct (Hsame y Ey) as (_ & E1 & E2 & _). rewrite E1 in Hxo. rewrite E2 in Hxr.
        assert (Hy : y ∈ filesRoots owner db) by (by apply list_elem_of_filter; rewrite elem_of_folders).
        rewrite (or_root _ _ _ Ho) in Hy. by apply list_elem_of_singleton in Hy as ->.
      - intros ->. by rewrite Eid, Eown, Eroot, Hrow. }
    destruct (filesRoots owner db') as [|a [|b l]] eqn:E.
    + exfalso. by apply (not_elem_of_nil (φ root)), Hin.
    + f_equal. apply Hin. by left.
    + exfalso. assert (a = φ root) by (apply Hin; by left).
      assert (b = φ root) by (apply Hin; right; by left). subst.
      apply NoDup_cons in Hn as [Hn _]. apply Hn. by left.
  - unfold isLiveFolder. rewrite Edel. apply (or_rootLive _ _ _ Ho).
  - rewrite parent_after; [apply (or_rootTop _ _ _ Ho)|done|]. intros E. by apply not_root.
  - apply (or_storage _ _ _ Ho).
  - intros x [Hx Hxo]. rewrite (re_folders _ _ _ _ _ _ _ _ _ Hre) in Hx.
    destruct (findFolderById (fo_id x) db) as [y|] eqn:Ey; [|done]. injection Hx as <-.
    pose proof (findFolderById_id _ _ _ Ey) as Hid. rewrite <- Hid in Ey.
    destruct (Hsame y Ey) as (E0 & E1 & _). rewrite E0. apply (or_ids _ _ _ Ho).
    split; [done|]. by rewrite <- E1.
  - intros x (y & Hy & ->)%live_after Hne. rewrite !id_after in Hne by done.
    destruct (decide (fo_id y = fo_id f)) as [E|E].
    + apply (ids_agree owner db) in E as ->; [|done|apply (np_live _ _ _ _ _ _ _ Hplace)].
      destruct (re_self _ _ _ _ _ _ _ _ _ Hre) as [-> _]. apply (np_name _ _ _ _ _ _ _ Hplace).
    + rewrite name_after; [by apply (or_names _ _ _ Ho)|done|]. by intros ->.
  - intros x (y & Hy & ->)%live_after. destruct (or_tree _ _ _ Ho y Hy) as [up Hw].
    destruct (ways_after y up Hw Hy) as (up' & ? & _). by exists up'.
  - intros file' (file & Hown & -> & Hs)%file_after Hl.
    destruct Hs as (_ & _ & Ef & En & Ed).
    assert (Hl' : isLiveFile file = true) by (unfold isLiveFile in *; by rewrite <- Ed).
    destruct (or_files _ _ _ Ho file Hown Hl') as (folder & up & Hf & Hid & Hw & Hn & Hk).
    destruct (fileKey_after file folder up) as (up' & Hw' & Hk'); [done..|].
    exists (φ folder), up'. rewrite Ef, En, id_after by done.
    split_and!; [apply live_after; by exists folder|done..].
  - intros file' (file & Hown & -> & Hs)%file_after Hl.
    destruct Hs as (_ & _ & _ & _ & Ed). unfold isLiveFile in Hl. rewrite Ed in Hl.
    rewrite (re_elsewhere _ _ _ _ _ _ _ _ _ Hre); [by apply (or_trash _ _ _ Ho)|done|].
    unfold isLiveFile. by rewrite Hl.
Qed.
End replaced.
End orderly.

(** ** Rows with new columns *)

Lemma column_setColumn key value row name :
  column (setColumns [(key, value)] row) name
  = if bool_decide (name = key) then value else column row name.
Proof.
  unfold column, setColumns. cbn. case_bool_decide as E.
  - subst. by rewrite lookup_insert_eq.
  - by rewrite lookup_insert_ne.
Qed.

Lemma column_setColumns key value columns row name :
  column (setColumns (columns ++ [(key, value)]) row) name
  = if bool_decide (name = key) then value else column (setColumns columns row) name.
Proof.
  unfold column, setColumns. cbn. rewrite foldl_app. cbn. case_bool_decide as E.
  - subst. by rewrite lookup_insert_eq.
  - by rewrite lookup_insert_ne.
Qed.

Section changes.
Context `{Runtime, Installation}.

Lemma storageId_of_file id missing db file :
  findFileById id missing db = Some file -> fi_ownerStorageId file = storageIdOf (fi_ownerUserId file).
Proof.
  unfold findFileById. destruct (_ !! _); [|done]. cbn. case_match; [|done]. by intros [= <-].
Qed.
Lemma storageId_of_folder id db folder :
  findFolderById id db = Some folder -> fo_ownerStorageId folder = storageIdOf (fo_ownerUserId folder).
Proof. unfold findFolderById. destruct (_ !! _); [|done]. by intros [= <-]. Qed.

(** ** The updates of a tree *)

Definition folderUpdate (update : FolderTreeUpdate) : UpdateOperation :=
  {| up_entityType := et_folder; up_entityId := fo_id (tu_folder update);
     up_preRevision := fo_storageRevision (tu_folder update); up_data := tu_data update |}.
Definition fileUpdate (update : FolderTreeFileUpdate) : UpdateOperation :=
  {| up_entityType := et_file; up_entityId := fi_id (tf_file update);
     up_preRevision := fi_storageRevision (tf_file update); up_data := tf_data update |}.

Definition treeUpdates (folderUpdates : list FolderTreeUpdate)
    (fileUpdates : list FolderTreeFileUpdate) : list UpdateOperation :=
  (folderUpdate <$> folderUpdates) ++ (fileUpdate <$> fileUpdates).

Lemma operations_are_updates folder folderUpdates fileUpdates :
  buildDurableFolderOperations folder folderUpdates fileUpdates None None
  = op_update <$> treeUpdates folderUpdates fileUpdates.
Proof.
  unfold buildDurableFolderOperations, treeUpdates. cbn.
  rewrite app_nil_r, fmap_app, <- !list_fmap_compose. done.
Qed.

(** A new name or a new parent. *)
Inductive placeData (f f' : FolderSummary) : list (string * JsonScalar) -> Prop :=
| by_name name : fo_name f' = name -> fo_parentId f' = fo_parentId f ->
    placeData f f' [("name", JsString name)]
| by_parent parentId : fo_name f' = fo_name f -> fo_parentId f' = Some parentId ->
    placeData f f' [("parentId", JsString parentId)].

Section tree.
Context (owner : string) (root : FolderSummary) (db db0 db' : DB) (Ho : orderly owner root db).
Context (Hdb : db_rows db0 = db_rows db).
Context (f f' p : FolderSummary) (upp : list FolderSummary) (Hplace : newPlace owner root db f f' p upp).
Context (data : list (string * JsonScalar)) (Hdata : placeData f f' data).
Context (members below : list FolderSummary) (moved : list StoredFile) (m : FolderMap)
  (checksums : list (string * string)).
#[local] Notation L := (ownLive false owner db).
#[local] Notation look := (liveTree owner db).
#[local] Notation next := (buildUpdatedFolderMap m [f']).

(** What hangs below the folder, and the files that it holds. *)
Context (Hmembers : forall x, x ∈ members <-> x ∈ L /\ x <> f /\ exists up, climbs look f x up).
Context (Hbelow : forall x, x ∈ L -> fo_id x ∈ fo_id <$> below <->
  x <> f /\ exists up, climbs look f x up).
Context (HmembersN : NoDup (fo_id f :: (fo_id <$> members))).
Context (Hmoved : forall file, file ∈ moved <->
  ownFile owner db file /\ isLiveFile file = true /\ inFolders (fo_id f :: (fo_id <$> below)) file = true).
Context (HmovedN : NoDup (fi_id <$> moved)).
(** The folders on the ways are in the map. *)
Context (Hmap : forall x, x ∈ root :: f :: upp ++ members -> m !! fo_id x = Some x).

Definition updates : list UpdateOperation :=
  treeUpdates ({| tu_folder := f; tu_data := data |} :: (unchangedFolder <$> members))
    (movedFileUpdate checksums next root <$> moved).

Context (Hup : rowsUpdated updates db0 db').

Lemma NoDup_updates : NoDup (rowKey <$> updates).
Proof.
  unfold updates, treeUpdates. rewrite fmap_app. apply NoDup_app. split_and!.
  - rewrite <- list_fmap_compose. apply (NoDup_fmap_1 snd). rewrite <- list_fmap_compose.
    rewrite fmap_cons, <- list_fmap_compose. exact HmembersN.
  - intros key (o & -> & (u & -> & _)%list_elem_of_fmap)%list_elem_of_fmap
      (o' & E & (u' & -> & _)%list_elem_of_fmap)%list_elem_of_fmap. done.
  - rewrite <- list_fmap_compose. apply (NoDup_fmap_1 snd). rewrite <- !list_fmap_compose.
    exact HmovedN.
Qed.

(** ** Keys in the map of the plan *)

Lemma next_lookup id : next !! id = if decide (id = fo_id f) then Some f' else m !! id.
Proof.
  unfold buildUpdatedFolderMap. cbn. rewrite (np_id _ _ _ _ _ _ _ Hplace).
  case_decide as E; [subst; by rewrite lookup_insert_eq|by rewrite lookup_insert_ne].
Qed.

Definition inNext (x : FolderSummary) : FolderSummary :=
  if decide (fo_id x = fo_id f) then f' else x.

Lemma inNext_self : inNext f = f'.
Proof. unfold inNext. by rewrite decide_True. Qed.
Lemma inNext_other x : fo_id x <> fo_id f -> inNext x = x.
Proof. intros Hx. unfold inNext. by rewrite decide_False. Qed.

Lemma inNext_all (l : list FolderSummary) : (forall y, y ∈ l -> fo_id y <> fo_id f) -> inNext <$> l = l.
Proof.
  induction l as [|y l IH]; intros Hl; [done|]. rewrite fmap_cons.
  rewrite inNext_other, IH; [done|intros z Hz; apply Hl; by right|apply Hl; by left].
Qed.

Lemma next_way x up :
  climbs look f x up -> x ∈ L ->
  climbs (fun id => next !! id) root (inNext x) (up ++ f' :: upp) /\
  next !! fo_id x = Some (inNext x).
Proof using Ho Hplace Hmembers Hmap.
  clear -Ho Hplace Hmembers Hmap.
  intros Hw Hx. destruct Hplace as [Hf Hne Hid Hname Hp HpL Hwp Ha].
  assert (Hids : forall y, y ∈ L -> y <> f -> fo_id y <> fo_id f).
  { intros y Hy Hyf E. apply Hyf. by eapply ids_agree. }
  assert (Hat : forall y, y ∈ root :: f :: upp ++ members -> y ∈ L ->
    next !! fo_id y = Some (inNext y)).
  { intros y Hy HyL. rewrite next_lookup. unfold inNext. case_decide; [done|]. by apply Hmap. }
  assert (Hroot : inNext root = root) by (apply inNext_other; congruence).
  assert (Hpl : climbs (fun id => next !! id) root p upp).
  { rewrite <- (inNext_all upp).
    2:{ intros y Hy. apply Hids; [by eapply way_in|]. by intros ->. }
    rewrite <- Hroot, <- (inNext_other p).
    2:{ apply Hids; [done|]. intros ->. destruct (climbs_ne _ _ _ _ Hwp) as [rest ->];
          [intros ->; done|]. apply Ha. by left. }
    apply (climbs_change look); [done|by rewrite Hroot| |].
    - intros y Hy. rewrite inNext_other; [done|]. apply Hids; [by eapply way_in|]. by intros ->.
    - intros y Hy Hl. apply liveTree_in in Hl as [HyL _]. apply Hat; [set_solver|done]. }
  assert (Hfw : climbs (fun id => next !! id) root f' (f' :: upp)).
  { apply climbs_up with p; [congruence|done| |done]. rewrite Hat; [|inversion Hwp; subst; set_solver|done].
    f_equal. apply inNext_other, Hids; [done|]. intros ->.
    destruct (climbs_ne _ _ _ _ Hwp) as [rest ->]; [intros ->; done|]. apply Ha. by left. }
  assert (Hupm : forall y, y ∈ up -> y ∈ members).
  { intros y Hy. apply Hmembers. split_and!; [by eapply way_in; [exact Hw|..]| |].
    - intros ->. by apply (climbs_below _ _ _ _ Hw _ Hy).
    - destruct (climbs_from _ _ _ _ _ Hw Hy) as (? & ? & _ & ?). by eexists. }
  split.
  - apply (climbs_join _ _ f').
    + rewrite <- (inNext_all up) by apply (climbs_below _ _ _ _ Hw).
      pose proof (climbs_change look (fun id => next !! id) inNext f x up Hw) as Hc.
      rewrite inNext_self in Hc. apply Hc; [done| |].
      * intros y Hy. by rewrite inNext_other by by apply (climbs_below _ _ _ _ Hw).
      * intros y Hy Hl. apply liveTree_in in Hl as [HyL _]. apply Hat; [|done].
        apply elem_of_cons in Hy as [->|Hy]; [set_solver|]. apply Hupm in Hy. set_solver.
    + done.
    + intros y Hy E. assert (HyL : y ∈ L) by (by eapply way_in; [exact Hw|..]).
      assert (y = root) as -> by (by eapply ids_agree; [..|by eapply root_live|]).
      destruct (climbs_from _ _ _ _ _ Hw Hy) as (? & ? & _ & Hr).
      apply (root_stays _ _ _ Ho) in Hr. congruence.
  - apply Hat; [|done]. inversion Hw; subst; [set_solver|].
    assert (Hin : x ∈ members) by (apply Hupm; by left). set_solver.
Qed.

Lemma place_names up :
  Forall isEntryName (namesDown up) -> Forall isEntryName (namesDown (up ++ f' :: upp)).
Proof using Ho Hplace.
  clear -Ho Hplace.
  intros Hu. destruct Hplace as [Hf Hne Hid Hname Hp HpL Hwp Ha].
  change (f' :: upp) with ([f'] ++ upp). rewrite !namesDown_app.
  apply Forall_app; split; [apply Forall_app; split|done].
  - eapply way_names; [done|exact Hwp|done|]. by apply climbs_below with (look := look) (f := p).
  - by constructor.
Qed.

Lemma keyIn_next file folder up :
  ownFile owner db file -> folder ∈ L -> fi_folderId file = Some (fo_id folder) ->
  climbs look f folder up -> isEntryName (fi_name file) ->
  keyIn next root file = keyOf (filePath owner (up ++ f' :: upp) (fi_name file)).
Proof.
  intros [Hfile Hown] Hf Hid Hw Hn. destruct (next_way folder up Hw Hf) as [Hway Hat].
  unfold keyIn, buildFileStorageKey. rewrite Hid.
  assert (Hne : fo_id folder <> "").
  { apply (or_ids _ _ _ Ho). by apply elem_of_liveFolders in Hf as [_ ?]. }
  assert (E : match fo_id folder with
    | "" => root | String _ _ => default root (next !! fo_id folder) end = inNext folder).
  { rewrite Hat. by destruct (fo_id folder). }
  rewrite E. rewrite (buildFolderPathSegments_climbs next root _ _ Hway).
  2:{ rewrite <- Hat. f_equal. unfold inNext. case_decide as Ei; [|done].
      by rewrite (np_id _ _ _ _ _ _ _ Hplace). }
  rewrite (storageId_of_file _ _ _ _ Hfile), Hown.
  rewrite getActiveCommittedStorageKey_plain; [done|apply (or_storage _ _ _ Ho)| |done].
  apply place_names. eapply way_names; [done|exact Hw|done|].
  intros x Hx E'. assert (x = root) as ->.
  { eapply ids_agree; [by eapply way_in|by eapply root_live|done]. }
  destruct (climbs_from _ _ _ _ _ Hw Hx) as (? & ? & _ & Hr).
  apply (root_stays _ _ _ Ho) in Hr. destruct Hplace. congruence.
Qed.

(** ** The rows afterwards *)

Lemma elem_of_updates operation : operation ∈ updates <->
  operation = folderUpdate {| tu_folder := f; tu_data := data |} \/
  (exists x, x ∈ members /\ operation = folderUpdate (unchangedFolder x)) \/
  (exists file, file ∈ moved /\ operation = fileUpdate (movedFileUpdate checksums next root file)).
Proof.
  unfold updates, treeUpdates. rewrite elem_of_app, fmap_cons, elem_of_cons, !list_elem_of_fmap.
  setoid_rewrite list_elem_of_fmap. naive_solver.
Qed.

Lemma row_after key : db_rows db !! key = None -> db_rows db' !! key = None.
Proof.
  destruct Hup as (_ & Hrows & Hothers). rewrite <- Hdb. intros Hk. rewrite Hothers; [done|].
  intros operation Hop ->. destruct (Hrows operation Hop) as (row & _ & E & _). congruence.
Qed.

(** A row that an update names. *)
Lemma row_updated operation row columns :
  operation ∈ updates -> db_rows db !! rowKey operation = Some row ->
  columnsOf operation = Some columns ->
  db_rows db' !! rowKey operation = Some (setColumns columns row).
Proof.
  destruct Hup as (_ & Hrows & _). rewrite <- Hdb. intros Hop Hrow Hc.
  destruct (Hrows operation Hop) as (row' & columns' & ? & _ & ? & E). congruence.
Qed.

Lemma row_kept type id :
  (type = et_folder -> id ∉ fo_id <$> f :: members) -> (type = et_file -> id ∉ fi_id <$> moved) ->
  db_rows db' !! (type, id) = db_rows db !! (type, id).
Proof.
  destruct Hup as (_ & _ & Hothers). rewrite <- Hdb. intros Hf Hm. apply Hothers.
  intros operation [->|[(x & Hx & ->)|(file & Hfile & ->)]]%elem_of_updates [= -> ->].
  - apply Hf; [done|]. by left.
  - apply Hf; [done|]. right. by apply list_elem_of_fmap_2.
  - apply Hm; [done|]. by apply list_elem_of_fmap_2.
Qed.

Lemma columns_of_place : exists columns, columnsOf (folderUpdate {| tu_folder := f; tu_data := data |})
  = Some columns /\ forall id row,
  toFolderSummary id row = f ->
  let y := toFolderSummary id (setColumns columns row) in
  sameRow f y /\ fo_name y = fo_name f' /\ fo_parentId y = fo_parentId f'.
Proof.
  inversion Hdata as [name Hn Hp|parentId Hn Hp]; subst.
  - exists [("name", CText (fo_name f'))]. split; [done|]. intros id row E. cbn.
    unfold sameRow. rewrite <- E at 1 2 3 4. rewrite Hp, <- E.
    unfold toFolderSummary, textColumn, dateColumn. cbn.
    by rewrite !column_setColumn.
  - exists [("parentId", CText parentId)]. split; [done|]. intros id row E. cbn.
    unfold sameRow. rewrite <- E at 1 2 3 4. rewrite Hp, Hn, <- E.
    unfold toFolderSummary, textColumn, dateColumn. cbn.
    by rewrite !column_setColumn.
Qed.

Lemma named_folder x :
  findFolderById (fo_id x) db = Some x -> fo_id x ∈ fo_id <$> f :: members -> x = f \/ x ∈ members.
Proof.
  intros Hx (y & E & Hy)%list_elem_of_fmap. assert (HyL : y ∈ L).
  { apply elem_of_cons in Hy as [->|Hy]; [by destruct Hplace|by apply Hmembers in Hy as [? _]]. }
  apply row_of in HyL. rewrite E in Hx. assert (x = y) as -> by congruence. set_solver.
Qed.

Lemma folder_after x :
  findFolderById (fo_id x) db = Some x ->
  exists y, findFolderById (fo_id x) db' = Some y /\ sameRow x y /\
    (x = f -> fo_name y = fo_name f' /\ fo_parentId y = fo_parentId f') /\
    (fo_id x <> fo_id f -> fo_name y = fo_name x /\ fo_parentId y = fo_parentId x).
Proof.
  intros Hx. pose proof Hx as Hrow. unfold findFolderById in Hx |- *.
  destruct (db_rows db !! (et_folder, fo_id x)) as [row|] eqn:Er; [|done]. injection Hx as Ex.
  destruct (decide (fo_id x ∈ fo_id <$> f :: members)) as [Hin|Hn].
  - destruct (named_folder x Hrow Hin) as [->|Hm].
    + destruct columns_of_place as (columns & Hc & Hy). destruct (Hy _ _ Ex) as (Hs & Hn & Hp).
      pose proof (row_updated (folderUpdate {| tu_folder := f; tu_data := data |}) row columns) as Hu.
      unfold rowKey in Hu. cbn in Hu. rewrite Hu; [|by apply elem_of_updates; left|done|done].
      eexists. split_and!; [done|done|done|]. by intros [].
    + pose proof (row_updated (folderUpdate (unchangedFolder x)) row []) as Hu.
      unfold rowKey in Hu. cbn in Hu. rewrite Hu; [|apply elem_of_updates; right; left; by exists x|done|done].
      eexists. split_and!; [done| | |].
      * rewrite <- Ex. by split_and!.
      * apply Hmembers in Hm as (_ & Hm & _). done.
      * intros _. by rewrite <- Ex.
  - rewrite row_kept, Er by done. exists x. cbn. rewrite Ex. split_and!; [done|by split_and!| |done].
    intros ->. exfalso. apply Hn. by left.
Qed.

(** ** The files afterwards *)

Lemma named_file x :
  findFileById (fi_id x) true db = Some x -> fi_id x ∈ fi_id <$> moved -> x ∈ moved.
Proof.
  intros Hx (y & E & Hy)%list_elem_of_fmap. pose proof Hy as [[Hrow _] _]%Hmoved.
  rewrite E in Hx. by assert (x = y) as -> by congruence.
Qed.

Lemma columns_of_key file : exists columns,
  columnsOf (fileUpdate (movedFileUpdate checksums next root file)) = Some columns /\
  forall id row, toStoredFile id row = file ->
  let y := toStoredFile id (setColumns columns row) in
  sameFileRow file y /\ fi_storageKey y = keyIn next root file.
Proof.
  assert (Hcase : capturedData checksums file = [] \/
    exists checksum, capturedData checksums file = [("contentChecksum", JsString checksum)]).
  { unfold capturedData. destruct (givenKey _); [by left|]. case_match; [right; eauto|by left]. }
  destruct Hcase as [E|[checksum E]].
  - exists [("storageKey", CText (keyIn next root file))]. split.
    + unfold columnsOf, fileUpdate, movedFileUpdate. cbn [up_data tf_data]. by rewrite E.
    + intros id row Ef. generalize (keyIn next root file). intros key.
      unfold sameFileRow. rewrite <- Ef. unfold toStoredFile, textColumn, dateColumn.
      cbn [fi_id fi_ownerUserId fi_folderId fi_name fi_deletedAt fi_storageKey].
      by rewrite !column_setColumn.
  - exists ([("contentChecksum", CText checksum)] ++ [("storageKey", CText (keyIn next root file))]).
    split.
    + unfold columnsOf, fileUpdate, movedFileUpdate. cbn [up_data tf_data]. by rewrite E.
    + intros id row Ef. generalize (keyIn next root file). intros key.
      unfold sameFileRow. rewrite <- Ef. unfold toStoredFile, textColumn, dateColumn.
      cbn [fi_id fi_ownerUserId fi_folderId fi_name fi_deletedAt fi_storageKey].
      by rewrite !column_setColumns, !column_setColumn.
Qed.

Lemma file_row_after x :
  findFileById (fi_id x) true db = Some x ->
  exists y, findFileById (fi_id x) true db' = Some y /\ sameFileRow x y /\
    (x ∈ moved -> fi_storageKey y = keyIn next root x) /\
    (x ∉ moved -> fi_storageKey y = fi_storageKey x).
Proof.
  intros Hx. pose proof Hx as Hrow. unfold findFileById in Hx |- *.
  destruct (db_rows db !! (et_file, fi_id x)) as [row|] eqn:Er; [|done]. injection Hx as Ex.
  destruct (decide (fi_id x ∈ fi_id <$> moved)) as [Hin|Hn].
  - pose proof (named_file x Hrow Hin) as Hm.
    destruct (columns_of_key x) as (columns & Hc & Hy). destruct (Hy _ _ Ex) as (Hs & Hk).
    pose proof (row_updated (fileUpdate (movedFileUpdate checksums next root x)) row columns) as Hu.
    unfold rowKey in Hu. cbn [up_entityType up_entityId fileUpdate tf_file movedFileUpdate] in Hu.
    rewrite Hu; [|apply elem_of_updates; right; right; by exists x|done|done].
    eexists. by split_and!.
  - rewrite row_kept, Er by done. exists x. cbn. rewrite Ex. split_and!; [done|by split_and!| |done].
    intros Hm. exfalso. by apply Hn, list_elem_of_fmap_2.
Qed.

(** ** The tree afterwards *)

Definition folderThen (x : FolderSummary) : FolderSummary := default x (findFolderById (fo_id x) db').
Definition fileThen (x : StoredFile) : StoredFile := default x (findFileById (fi_id x) true db').

Lemma folderThen_spec x :
  findFolderById (fo_id x) db = Some x ->
  findFolderById (fo_id x) db' = Some (folderThen x) /\ sameRow x (folderThen x) /\
  (x = f -> fo_name (folderThen x) = fo_name f' /\ fo_parentId (folderThen x) = fo_parentId f') /\
  (fo_id x <> fo_id f ->
   fo_name (folderThen x) = fo_name x /\ fo_parentId (folderThen x) = fo_parentId x).
Proof. intros (y & E & ?)%folder_after. unfold folderThen. by rewrite E. Qed.

Lemma fileThen_spec x :
  findFileById (fi_id x) true db = Some x ->
  findFileById (fi_id x) true db' = Some (fileThen x) /\ sameFileRow x (fileThen x) /\
  (x ∈ moved -> fi_storageKey (fileThen x) = keyIn next root x) /\
  (x ∉ moved -> fi_storageKey (fileThen x) = fi_storageKey x).
Proof. intros (y & E & ?)%file_row_after. unfold fileThen. by rewrite E. Qed.

(** The files moved are those below the folder. *)
Lemma moved_below file folder up :
  ownFile owner db file -> isLiveFile file = true -> folder ∈ L ->
  fi_folderId file = Some (fo_id folder) -> climbs look f folder up -> file ∈ moved.
Proof.
  intros Hown Hl Hf Hid Hw. apply Hmoved. split_and!; [done|done|].
  unfold inFolders. rewrite Hid. apply bool_decide_eq_true.
  destruct (decide (fo_id folder = fo_id f)) as [E|E]; [rewrite E; by left|]. right.
  apply Hbelow; [done|]. split; [by intros ->|eauto].
Qed.

Lemma moved_passes file folder up :
  file ∈ moved -> folder ∈ L -> fi_folderId file = Some (fo_id folder) ->
  climbs look root folder up -> f ∈ up.
Proof.
  intros (Hown & Hl & Hin)%Hmoved Hf Hid Hw. unfold inFolders in Hin. rewrite Hid in Hin.
  apply bool_decide_eq_true in Hin. destruct Hplace as [HfL Hne _ _ _ _ _ _].
  assert (Hnr : f <> root) by congruence.
  destruct (or_tree _ _ _ Ho f HfL) as [upf Hwf].
  assert (Hfin : f ∈ upf) by (destruct (climbs_ne _ _ _ _ Hwf Hnr) as [rest ->]; by left).
  assert (Hb : exists up1, climbs look f folder up1).
  { apply elem_of_cons in Hin as [E|Hin].
    - exists []. assert (folder = f) as -> by by eapply ids_agree. constructor.
    - apply Hbelow in Hin as (_ & up1 & ?); [|done]. by exists up1. }
  destruct Hb as [up1 H1].
  rewrite <- (climbs_fun _ _ _ _ _ (way_to_root owner root db Ho f upf folder up1 HfL Hwf Hnr Hf H1) Hw).
  set_solver.
Qed.

Lemma change_replaces : replaced owner root db db' f f' upp folderThen fileThen.
Proof.
  split.
  - intros id. destruct (findFolderById id db) as [x|] eqn:E; cbn.
    + pose proof (findFolderById_id _ _ _ E) as <-. by apply folderThen_spec.
    + unfold findFolderById in *. destruct (db_rows db !! _) eqn:Er; [done|].
      by rewrite row_after.
  - intros x Hx. by apply folderThen_spec.
  - intros x Hx Hne. by apply folderThen_spec.
  - apply (folderThen_spec f); [|done]. apply (row_of owner). by destruct Hplace.
  - intros id. destruct (findFileById id true db) as [x|] eqn:E; cbn.
    + pose proof (findFileById_id _ _ _ _ E) as <-. by apply fileThen_spec.
    + unfold findFileById in *. destruct (db_rows db !! _) eqn:Er; [done|].
      by rewrite row_after.
  - intros x Hx. by apply fileThen_spec.
  - intros file folder up Hown Hl Hf Hid Hw Hn. pose proof Hown as [Hx _].
    destruct (fileThen_spec file Hx) as (_ & _ & Hk & _).
    rewrite Hk by by eapply moved_below. by eapply keyIn_next.
  - intros file Hown Hcase. pose proof Hown as [Hx _].
    apply (fileThen_spec file Hx). intros Hm. pose proof Hm as (_ & Hl & _)%Hmoved.
    destruct (or_files _ _ _ Ho file Hown Hl) as (folder & up & Hf & Hid & Hw & _ & _).
    eapply Hcase; [done..|]. by eapply moved_passes.
Qed.
End tree.
End changes.
