(* ===== verification/FolderPromises.v ===== *)
(** * What renaming and moving a folder promise

    The rows of an owner stay in order, and no file of the tree loses its bytes: the
    rows that the plan writes and the directory that it renames agree, so that
    whatever bytes the key of a file's row led to, the key of its row leads to them
    afterwards. *)

From Stdlib Require String.
From S2P Require Import Prelude JsValues Database MutationMetadata MutationPrepare Journal MetadataFacts Disk Io StoragePaths StorageLayout TreeManifest ExecutorSteps ManifestFacts StepFacts RenameFacts ForwardPhase FileRows DurableMutation FileService FileOperations FilePromises FolderTree FolderMoves.

Open Scope Z_scope.

(** Takes a plan that answered apart, one read at a time. *)
Ltac plan_step E x H :=
  apply answered_bind in E as (x & H & E); [|eauto with steady|done].
Ltac plan_query E x :=
  let H := fresh in plan_step E x H; apply answered_query in H; [|done]; subst x.
Ltac plan_check E H :=
  let u := fresh in plan_step E u H; apply answered_check in H.

Section plans.
Context `{Runtime, Installation}.

(** A plan that puts a folder elsewhere. *)
Inductive placePlan (request : Request) (w : World) (folder : FolderSummary) (change : FolderChange) :
    Prop :=
| by_renaming folderId name payload w' :
    isEntryName name ->
    renameFolderPlan request folderId name payload w = (Done (Ok (folder, change)), w') ->
    placePlan request w folder change
| by_moving folderId destinationFolderId payload w' :
    moveFolderPlan request folderId destinationFolderId payload w
      = (Done (Ok (folder, change)), w') ->
    placePlan request w folder change.

(** What such a plan was made from. *)
Record madeFrom (db : DB) (owner : string) (root folder next : FolderSummary)
    (members below : list FolderSummary) (m : FolderMap) (data : list (string * JsonScalar))
    (change : FolderChange) : Prop := {
  mf_folder : findFolderById (fo_id folder) db = Some folder;
  mf_own : fo_ownerUserId folder = owner;
  mf_live : isLiveFolder folder = true;
  mf_notRoot : fo_isFilesRoot folder = false;
  mf_root : filesRoots owner db = [root];
  mf_change : exists checksums,
    dc_folderUpdates change = {| tu_folder := folder; tu_data := data |} :: (unchangedFolder <$> members) /\
    dc_fileUpdates change = movedFileUpdate checksums (buildUpdatedFolderMap m [next]) root
      <$> liveFiles (listFilesInFolders owner (fo_id folder :: (fo_id <$> below)) true db) /\
    dc_trashEntry change = None /\ dc_deleteTrashEntryId change = None /\
    dc_stepsOverride change = None /\
    dc_fromStorageKey change = buildFolderStorageKey folder m root /\
    dc_toStorageKey change
      = buildFolderStorageKey next (buildUpdatedFolderMap m [next]) root
}.

Lemma renameFolderPlan_made request folderId name payload w folder change w' :
  calm w -> renameFolderPlan request folderId name payload w = (Done (Ok (folder, change)), w') ->
  exists root below, below = collectDescendants (rq_actorUserId request) (fo_id folder) true (w_db w) /\
    madeFrom (w_db w) (rq_actorUserId request) root folder (renamedFolder name folder)
      (liveFolders below) below
      (readFolderMap (rq_actorUserId request) [Some (fo_id folder)] below (w_db w))
      [("name", JsString name)] change.
Proof.
  intros Hc E. unfold renameFolderPlan in E.
  plan_step E f Hf. apply answered_getActiveOwnedFolder in Hf as (Hf & Hown & Hl); [|done].
  pose proof (findFolderById_id _ _ _ Hf) as Hid. rewrite <- Hid in Hf.
  plan_step E u1 Hu1. plan_check E Hm. plan_step E root Hr. apply answered_ensureFilesRoot in Hr; [|done].
  plan_step E u2 Hu2. plan_query E below. plan_query E listed. plan_query E m.
  rewrite Hown in *. plan_step E captured Hcap. plan_step E u3 Hu3.
  apply answered_ret, pair_equal_spec in E as [-> ->]. eexists root, _. split; [done|].
  apply negb_true_iff in Hm. split; try done. by eexists.
Qed.

Lemma moveFolderPlan_made request folderId destinationFolderId payload w folder change w' :
  calm w ->
  moveFolderPlan request folderId destinationFolderId payload w
    = (Done (Ok (folder, change)), w') ->
  exists root destination below,
    below = collectDescendants (rq_actorUserId request) (fo_id folder) false (w_db w) /\
    destinationOf request destinationFolderId w = (Done (Ok destination), w) /\
    fo_id destination <> fo_id folder /\ fo_id destination ∉ fo_id <$> below /\
    madeFrom (w_db w) (rq_actorUserId request) root folder (movedFolder (fo_id destination) folder)
      below below (readFolderMap (rq_actorUserId request)
        [Some (fo_id folder); Some (fo_id destination)] below (w_db w))
      [("parentId", JsString (fo_id destination))] change.
Proof.
  intros Hc E. unfold moveFolderPlan in E.
  plan_step E f Hf. apply answered_getActiveOwnedFolder in Hf as (Hf & Hown & Hl); [|done].
  pose proof (findFolderById_id _ _ _ Hf) as Hid. rewrite <- Hid in Hf.
  plan_step E u1 Hu1. plan_check E Hm. plan_step E destination Hd. plan_check E Hself.
  plan_check E Hnoop. plan_query E below. plan_check E Hcycle. plan_step E u2 Hu2.
  plan_step E root Hr. apply answered_ensureFilesRoot in Hr; [|done].
  plan_query E listed. plan_query E m.
  rewrite Hown in *. plan_step E captured Hcap. plan_step E u3 Hu3.
  apply answered_ret, pair_equal_spec in E as [-> ->]. eexists root, destination, _. split; [done|].
  split; [done|]. apply negb_true_iff in Hm, Hself, Hcycle.
  apply bool_decide_eq_false in Hself, Hcycle. split_and!; [done|done|].
  split; try done. by eexists.
Qed.

(** ** What a plan that was made from rows in order holds *)

Section inOrder.
Context (owner : string) (root : FolderSummary) (db : DB) (Ho : orderly owner root db).
Context (f : FolderSummary) (HfL : f ∈ ownLive false owner db) (Hnr : fo_id f <> fo_id root).
#[local] Notation L := (ownLive false owner db).
#[local] Notation look := (liveTree owner db).
#[local] Notation A := (ownLive true owner db).

Lemma live_all x : x ∈ L -> x ∈ A.
Proof. rewrite !elem_of_ownLive. naive_solver. Qed.

Lemma ownFolders_all : ownLive true owner db = ownFolders owner db.
Proof.
  unfold ownLive. induction (ownFolders owner db) as [|x l IH]; [done|].
  rewrite filter_cons_True by by left. by rewrite IH.
Qed.

Lemma way_live_all top x up : climbs look top x up -> climbs (lookIn A) top x up.
Proof.
  intros Hw. apply (climbs_mono look); [done|]. intros y _ Hy.
  apply lookIn_of; [apply NoDup_ownLive|]. apply live_all. by apply liveTree_in in Hy as [? _].
Qed.

Lemma all_agree x y : x ∈ A -> y ∈ A -> fo_id x = fo_id y -> x = y.
Proof.
  intros [_ [Hx _]]%elem_of_ownLive [_ [Hy _]]%elem_of_ownLive E. rewrite E in Hx. congruence.
Qed.

(** No way leads through the trash. *)
Lemma way_all_live x up : x ∈ L -> climbs (lookIn A) f x up -> climbs look f x up.
Proof.
  intros Hx Hw. destruct (or_tree _ _ _ Ho x Hx) as [upx Hwx].
  destruct (or_tree _ _ _ Ho f HfL) as [upf Hwf].
  assert (Hj : climbs (lookIn A) root x (up ++ upf)).
  { eapply climbs_join; [done|by apply way_live_all|]. intros y Hy E.
    assert (HyA : y ∈ A).
    { eapply (climbs_in _ (NoDup_ownLive _ _ _)); [done|by apply live_all|by right]. }
    assert (y = root) as -> by (apply all_agree; [done|by eapply live_all, root_live|done]).
    destruct (climbs_from _ _ _ _ _ Hw Hy) as (? & ? & _ & Hr). inversion Hr as [|? ? ? ? Hp]; subst.
    - done.
    - by rewrite (or_rootTop _ _ _ Ho) in Hp. }
  pose proof (climbs_fun _ _ _ _ _ Hj (way_live_all _ _ _ Hwx)) as <-.
  apply (climbs_mono (lookIn A)); [done|]. intros y Hy _. apply liveTree_of.
  apply elem_of_cons in Hy as [->|Hy]; [done|]. eapply way_in; [exact Hwx|done|].
  apply elem_of_app. by left.
Qed.

Lemma collected includeDeleted x : x ∈ L ->
  x ∈ collectDescendants owner (fo_id f) includeDeleted db <-> x <> f /\ exists up, climbs look f x up.
Proof.
  intros Hx. rewrite collectDescendants_spec.
  - assert (E : fo_id x <> fo_id f <-> x <> f).
    { split; [by intros ? ->|]. intros Hne E. apply Hne. by eapply ids_agree. }
    rewrite E. destruct includeDeleted; [|naive_solver]. split.
    + intros (_ & ? & up & Hw). split; [done|]. exists up. by apply way_all_live.
    + intros (? & up & Hw). split_and!; [by apply live_all|done|]. exists up. by apply way_live_all.
  - intros y [_ Hy]%elem_of_ownLive. by apply (or_ids _ _ _ Ho).
  - destruct includeDeleted; [by apply live_all|done].
Qed.

Lemma collected_own includeDeleted x :
  x ∈ collectDescendants owner (fo_id f) includeDeleted db ->
  x ∈ ownLive includeDeleted owner db.
Proof.
  rewrite collectDescendants_spec; [by intros [? _]| |].
  - intros y [_ Hy]%elem_of_ownLive. by apply (or_ids _ _ _ Ho).
  - destruct includeDeleted; [by apply live_all|done].
Qed.

Lemma collected_id includeDeleted x : x ∈ L ->
  fo_id x ∈ fo_id <$> collectDescendants owner (fo_id f) includeDeleted db <->
  x <> f /\ exists up, climbs look f x up.
Proof.
  intros Hx. rewrite <- (collected includeDeleted x Hx). split; [|apply list_elem_of_fmap_2].
  intros (y & E & Hy)%list_elem_of_fmap. pose proof (collected_own _ _ Hy) as Hown.
  assert (x = y) as ->; [|done]. apply all_agree; [by apply live_all| |done].
  destruct includeDeleted; [done|by apply live_all].
Qed.

Lemma liveFolders_collected x :
  x ∈ liveFolders (collectDescendants owner (fo_id f) true db) <->
  x ∈ L /\ x <> f /\ exists up, climbs look f x up.
Proof.
  unfold liveFolders. rewrite list_elem_of_filter. split.
  - intros [Hl Hx]. assert (HxL : x ∈ L).
    { apply elem_of_liveFolders. split; [done|]. by apply collected_own, elem_of_ownLive in Hx as [_ ?]. }
    split; [done|]. by apply (collected true).
  - intros (HxL & Hb). split; [by apply elem_of_liveFolders in HxL as [? _]|]. by apply (collected true).
Qed.

Lemma collected_live x :
  x ∈ collectDescendants owner (fo_id f) false db <->
  x ∈ L /\ x <> f /\ exists up, climbs look f x up.
Proof.
  split; [|by intros (? & Hb); apply collected].
  intros Hx. pose proof (collected_own _ _ Hx) as HxL. split; [done|]. by apply (collected false).
Qed.

Lemma listed_files below file :
  file ∈ liveFiles (listFilesInFolders owner (fo_id f :: (fo_id <$> below)) true db) <->
  ownFile owner db file /\ isLiveFile file = true /\
  inFolders (fo_id f :: (fo_id <$> below)) file = true.
Proof.
  unfold liveFiles, ownFile. rewrite list_elem_of_filter, elem_of_listFilesInFolders, elem_of_files.
  naive_solver.
Qed.

Lemma NoDup_listed below :
  NoDup (fi_id <$> liveFiles (listFilesInFolders owner (fo_id f :: (fo_id <$> below)) true db)).
Proof. apply (NoDup_filter_on fi_id), NoDup_listFilesInFolders. Qed.

(** The folders of the map are the rows. *)
Lemma readFolderMap_ways ids below top x up :
  climbs look top x up -> x ∈ L -> Some (fo_id x) ∈ ids ->
  (forall y, y ∈ below -> ownFolder owner db y) ->
  forall y, y ∈ top :: up -> readFolderMap owner ids below db !! fo_id y = Some y.
Proof.
  intros Hw Hx Hid Hb y Hy. unfold readFolderMap. apply (buildFolderMap_lookup _ db).
  - intros z [Hz|Hz]%elem_of_app; [|by apply Hb].
    by apply elem_of_listFolderAncestors in Hz as [? _].
  - apply elem_of_app. left. eapply listFolderAncestors_found; [| | |done].
    + rewrite <- ownFolders_all. by apply way_live_all.
    + by apply elem_of_liveFolders in Hx as [_ ?].
    + apply list_elem_of_omap. by exists (Some (fo_id x)).
Qed.

Lemma readFolderMap_below ids below :
  (forall y, y ∈ below -> ownFolder owner db y) ->
  forall y, y ∈ below -> readFolderMap owner ids below db !! fo_id y = Some y.
Proof.
  intros Hb y Hy. unfold readFolderMap. apply (buildFolderMap_lookup _ db).
  - intros z [Hz|Hz]%elem_of_app; [|by apply Hb].
    by apply elem_of_listFolderAncestors in Hz as [? _].
  - apply elem_of_app. by right.
Qed.
End inOrder.

(** Everything the rows after a plan depend on. *)
Record planned (owner : string) (root : FolderSummary) (db : DB) (f : FolderSummary)
    (change : FolderChange) (f' p : FolderSummary) (upp : list FolderSummary)
    (data : list (string * JsonScalar)) (members below : list FolderSummary)
    (moved : list StoredFile) (m : FolderMap) (checksums : list (string * string)) : Prop := {
  pl_place : newPlace owner root db f f' p upp;
  pl_data : placeData f f' data;
  pl_members x : x ∈ members <->
    x ∈ ownLive false owner db /\ x <> f /\ exists up, climbs (liveTree owner db) f x up;
  pl_below x : x ∈ ownLive false owner db -> fo_id x ∈ fo_id <$> below <->
    x <> f /\ exists up, climbs (liveTree owner db) f x up;
  pl_membersN : NoDup (fo_id f :: (fo_id <$> members));
  pl_moved file : file ∈ moved <-> ownFile owner db file /\ isLiveFile file = true /\
    inFolders (fo_id f :: (fo_id <$> below)) file = true;
  pl_movedN : NoDup (fi_id <$> moved);
  pl_map x : x ∈ root :: f :: upp ++ members -> m !! fo_id x = Some x;
  pl_storage : fo_ownerStorageId f' = storageIdOf owner;
  pl_way up : climbs (liveTree owner db) root f up ->
    forall x, x ∈ root :: up -> m !! fo_id x = Some x;
  pl_operations request digest :
    di_metadataOperations (durableFolderInput request f digest change)
    = op_update <$> updates root f f' data members moved m checksums;
  pl_from : dc_fromStorageKey change = buildFolderStorageKey f m root;
  pl_to : dc_toStorageKey change = buildFolderStorageKey f' (buildUpdatedFolderMap m [f']) root;
  pl_steps : dc_stepsOverride change = None
}.

Lemma made_operations db owner root f next members below m data change :
  madeFrom db owner root f next members below m data change ->
  exists checksums, forall request digest,
    di_metadataOperations (durableFolderInput request f digest change)
    = op_update <$> updates root f next data members
        (liveFiles (listFilesInFolders owner (fo_id f :: (fo_id <$> below)) true db)) m checksums.
Proof.
  intros [_ _ _ _ _ (checksums & E1 & E2 & E3 & E4 & _)]. exists checksums. intros request digest.
  cbn [di_metadataOperations durableFolderInput]. rewrite E1, E2, E3, E4.
  apply operations_are_updates.
Qed.

Lemma own_storage owner db f : f ∈ ownLive false owner db -> fo_ownerStorageId f = storageIdOf owner.
Proof.
  intros [_ [Hf <-]]%elem_of_liveFolders. unfold findFolderById in Hf.
  destruct (db_rows db !! _) as [row|]; [|done]. by injection Hf as <-.
Qed.

Lemma made_live db owner root f next members below m data change :
  orderly owner root db -> madeFrom db owner root f next members below m data change ->
  f ∈ ownLive false owner db /\ fo_id f <> fo_id root.
Proof.
  intros Ho [Hf Hown Hl Hn Hr _]. split; [by apply elem_of_liveFolders|]. intros E.
  destruct (filesRoots_row _ _ _ (or_root _ _ _ Ho)) as (Hroot & _ & Hir).
  rewrite E in Hf. assert (f = root) as -> by congruence. congruence.
Qed.

Lemma destination_live request destinationFolderId w destination root :
  calm w -> orderly (rq_actorUserId request) root (w_db w) ->
  destinationOf request destinationFolderId w = (Done (Ok destination), w) ->
  destination ∈ ownLive false (rq_actorUserId request) (w_db w).
Proof.
  intros Hc Ho Hdest. unfold destinationOf in Hdest.
  destruct (givenKey destinationFolderId) as [id|].
  - apply answered_getActiveOwnedFolder in Hdest as (Hd & Hdo & Hdl); [|done].
    pose proof (findFolderById_id _ _ _ Hd) as Hid. rewrite <- Hid in Hd.
    by apply elem_of_liveFolders.
  - apply answered_ensureFilesRoot in Hdest; [|done].
    rewrite (or_root _ _ _ Ho) in Hdest. injection Hdest as <-. by eapply root_live.
Qed.

Lemma rename_planned request w folderId name payload f change w' root :
  calm w -> orderly (rq_actorUserId request) root (w_db w) -> isEntryName name ->
  renameFolderPlan request folderId name payload w = (Done (Ok (f, change)), w') ->
  exists f' p upp data members below moved m checksums,
    planned (rq_actorUserId request) root (w_db w) f change f' p upp data members below moved m
      checksums.
Proof.
  intros Hc Ho Hname E. set (owner := rq_actorUserId request) in *. set (db := w_db w) in *.
  apply renameFolderPlan_made in E as (root' & below & -> & Hmade); [|done].
  fold owner db in Hmade.
  assert (root' = root) as -> by (pose proof (mf_root _ _ _ _ _ _ _ _ _ _ Hmade);
    pose proof (or_root _ _ _ Ho); congruence).
  destruct (made_live _ _ _ _ _ _ _ _ _ _ Ho Hmade) as [HfL Hnr].
  destruct (made_operations _ _ _ _ _ _ _ _ _ _ Hmade) as [checksums Hops].
  destruct Hmade as [Hf Hown Hl Hn Hr (_ & _ & _ & _ & _ & Hst & Hfrom & Hto)].
  destruct (or_tree _ _ _ Ho f HfL) as [upf Hwf]. assert (Hn' : f <> root) by congruence.
  inversion Hwf as [|f1 p upp Hne Hp Hlp Hwp]; subst; [done|].
  destruct (liveTree_in _ _ _ _ Hlp) as [HpL _].
  pose proof (readFolderMap_ways owner root db f Hnr [Some (fo_id f)]
    (collectDescendants owner (fo_id f) true db) root f (f :: upp) Hwf HfL) as Hm.
  assert (Hb : forall y, y ∈ collectDescendants owner (fo_id f) true db -> ownFolder owner db y).
  { intros y Hy%(collected_own _ _ _ Ho _ HfL Hnr). by apply elem_of_ownLive in Hy as [_ ?]. }
  do 9 eexists. split; try done.
  - split; try done. intros Hin. pose proof (climbs_NoDup _ _ _ _ Hwf (liveTree_of _ _ _ HfL)) as Hnd.
    cbn in Hnd. apply NoDup_cons in Hnd as [Hnd _]. by apply Hnd, list_elem_of_fmap_2.
  - by apply by_name.
  - by apply (liveFolders_collected _ root).
  - by apply (collected_id _ root).
  - pose proof (NoDup_collectDescendants owner (fo_id f) true db) as Hnd.
    apply NoDup_cons in Hnd as [Hnin Hnd]. constructor; [|by apply NoDup_filter_ids].
    intros (y & E' & [_ Hy]%list_elem_of_filter)%list_elem_of_fmap. apply Hnin.
    apply list_elem_of_fmap. by exists y.
  - by eapply listed_files.
  - apply NoDup_listed.
  - intros x Hx. assert (Hcase : x ∈ root :: f :: upp \/
      x ∈ liveFolders (collectDescendants owner (fo_id f) true db)) by set_solver.
    destruct Hcase as [Hin|[_ Hin]%list_elem_of_filter]; [|by apply readFolderMap_below].
    apply Hm; [by left|done|done].
  - change (fo_ownerStorageId f = storageIdOf owner). by eapply own_storage.
  - intros up Hw. rewrite (climbs_fun _ _ _ _ _ Hw Hwf). apply Hm; [by left|done].
Qed.

Lemma move_planned request w folderId destinationFolderId payload f change w' root :
  calm w -> orderly (rq_actorUserId request) root (w_db w) ->
  moveFolderPlan request folderId destinationFolderId payload w = (Done (Ok (f, change)), w') ->
  exists f' p upp data members below moved m checksums,
    planned (rq_actorUserId request) root (w_db w) f change f' p upp data members below moved m
      checksums.
Proof.
  intros Hc Ho E. set (owner := rq_actorUserId request) in *. set (db := w_db w) in *.
  apply moveFolderPlan_made in E as (root' & dest & below & -> & Hdest & Hself & Hcycle & Hmade); [|done].
  fold owner db in Hmade, Hcycle.
  assert (root' = root) as -> by (pose proof (mf_root _ _ _ _ _ _ _ _ _ _ Hmade);
    pose proof (or_root _ _ _ Ho); congruence).
  destruct (made_live _ _ _ _ _ _ _ _ _ _ Ho Hmade) as [HfL Hnr].
  destruct (made_operations _ _ _ _ _ _ _ _ _ _ Hmade) as [checksums Hops].
  destruct Hmade as [Hf Hown Hl Hn Hr (_ & _ & _ & _ & _ & Hst & Hfrom & Hto)].
  assert (HdL : dest ∈ ownLive false owner db) by by eapply destination_live.
  destruct (or_tree _ _ _ Ho dest HdL) as [upp Hwp].
  destruct (or_tree _ _ _ Ho f HfL) as [upf Hwf].
  assert (Ha : f ∉ upp).
  { intros Hin. destruct (climbs_split _ _ _ _ _ Hwp (liveTree_of _ _ _ HdL) Hin)
      as (up1 & up2 & _ & H1 & _).
    apply Hcycle, (collected_id _ root); [done..|]. split; [by intros ->|eauto]. }
  assert (Hb : forall y, y ∈ collectDescendants owner (fo_id f) false db -> ownFolder owner db y).
  { intros y Hy%(collected_own _ _ _ Ho _ HfL Hnr). by apply elem_of_ownLive in Hy as [_ ?]. }
  assert (Hm : forall y, y ∈ root :: upf -> readFolderMap owner [Some (fo_id f); Some (fo_id dest)]
    (collectDescendants owner (fo_id f) false db) db !! fo_id y = Some y).
  { eapply (readFolderMap_ways owner root db f Hnr); [exact Hwf|done|by left|done]. }
  do 9 eexists. split; try done.
  - split; try done; cbn; [by apply (or_names _ _ _ Ho)|].
    unfold parentOf, givenKey. cbn. assert (Hne : fo_id dest <> "").
    { apply (or_ids _ _ _ Ho). by apply elem_of_liveFolders in HdL as [_ ?]. }
    by destruct (fo_id dest).
  - by apply by_parent.
  - by apply (collected_live _ root).
  - by apply (collected_id _ root).
  - apply NoDup_collectDescendants.
  - by eapply listed_files.
  - apply NoDup_listed.
  - intros x Hx. assert (Hfin : f ∈ root :: upf).
    { destruct (climbs_ne _ _ _ _ Hwf) as [rest ->]; [congruence|by right; left]. }
    assert (Hcase : x ∈ root :: upp \/ x ∈ root :: upf \/
      x ∈ collectDescendants owner (fo_id f) false db) by set_solver.
    destruct Hcase as [Hin|[Hin|Hin]]; [|by apply Hm|by apply readFolderMap_below].
    eapply (readFolderMap_ways owner root db f Hnr); [exact Hwp|done|by right; left|done|done].
  - change (fo_ownerStorageId f = storageIdOf owner). by eapply own_storage.
  - intros up Hw. by rewrite (climbs_fun _ _ _ _ _ Hw Hwf).
Qed.

Lemma place_planned request w f change root :
  calm w -> orderly (rq_actorUserId request) root (w_db w) -> placePlan request w f change ->
  exists f' p upp data members below moved m checksums,
    planned (rq_actorUserId request) root (w_db w) f change f' p upp data members below moved m
      checksums.
Proof. intros Hc Ho [*|*]; [by eapply rename_planned|by eapply move_planned]. Qed.

(** ** What the plan leaves *)

(** What the journal applies when the mutation commits. *)
Definition applied (input : DurableStorageMutationInput) (db0 db' : DB) : Prop :=
  exists locks now u,
    applyStorageMutationIntentMetadata locks now (buildDurableMutationPlan input) db0 = Ok (u, db').

Section planned.
Context (owner : string) (root : FolderSummary) (db db0 db' : DB) (Ho : orderly owner root db).
Context (f : FolderSummary) (change : FolderChange) (f' p : FolderSummary) (upp : list FolderSummary)
  (data : list (string * JsonScalar)) (members below : list FolderSummary) (moved : list StoredFile)
  (m : FolderMap) (checksums : list (string * string)).
Context (Hpl : planned owner root db f change f' p upp data members below moved m checksums).
Context (request : Request) (digest : option string) (Hdb : db_rows db0 = db_rows db).
Context (Happ : applied (durableFolderInput request f digest change) db0 db').
#[local] Notation L := (ownLive false owner db).
#[local] Notation look := (liveTree owner db).

Lemma planned_replaced :
  replaced owner root db db' f f' upp (folderThen db') (fileThen db').
Proof.
  destruct Hpl. destruct Happ as (locks & now & u & E).
  change (applyOperations (length (di_metadataOperations (durableFolderInput request f digest change)))
    locks now (di_metadataOperations (durableFolderInput request f digest change)) db0 = Ok (u, db')) in E.
  rewrite pl_operations0 in E. eapply change_replaces; try done.
  eapply updates_apply in E; [exact E|by rewrite length_fmap|].
  by eapply NoDup_updates.
Qed.

Lemma planned_orderly : orderly owner (folderThen db' root) db'.
Proof. eapply orderly_after; [done|by apply Hpl|apply planned_replaced]. Qed.
End planned.
End plans.

(** ** Keys made of names *)

Lemma resolve_keyOf names s :
  names <> [] -> Forall isEntryName names -> resolveMutationStoragePath (keyOf names) = Ok s ->
  s = names.
Proof.
  intros Hne Hn Hs. unfold resolveMutationStoragePath, normalizeStorageKey in Hs.
  rewrite posixNormalize_keyOf in Hs by done. case_match; [done|]. cbn in Hs.
  case_match; [done|]. cbn in Hs. case_match; [done|]. injection Hs as <-.
  by apply pathOfKey_keyOf.
Qed.

Section typed.
Context `{RuntimeLaws}.

Lemma validate_directory d s step n :
  wellFormed d -> in_expectedNodeType (sp_input step) = Some directory_node ->
  nodeAt d s = Some n -> look (validateExpectedNode s step) d = Done tt -> n = NDirectory.
Proof.
  intros Hwf Ht Hn Hv. unfold validateExpectedNode in Hv.
  rewrite look_bind, (look_pathState_some _ _ n) in Hv by eauto with observes.
  unfold assertExpectedNodeExists, assertExpectedNodeType in Hv.
  do 2 (rewrite look_bind, look_assertIo in Hv by eauto with observes;
        match type of Hv with context [if ?b then Done tt else _] => destruct b eqn:?; [|done] end).
  rewrite Ht in *. by destruct n.
Qed.

(** What a rename that was ready does to a file of another place. *)
Lemma renamed_elsewhere d step s t n p content :
  renameReady step d s t n -> nodeAt d p = Some content -> ~ s ⊑ p ->
  renamedNodes s t (dk_nodes d) !! p = Some content.
Proof.
  intros Hready Hp Hs. pose proof (ready_apart _ _ _ _ _ Hready) as Hts.
  destruct Hready as [Hwf _ _ _ Ht Hst _ _]. unfold renamedNodes.
  rewrite lookup_moveNodes_other; [|done|done|done|].
  - rewrite lookup_withDirectories. unfold nodeAt in Hp. by rewrite Hp.
  - intros Htp. apply (wf_below _ Hwf t p); [congruence|done|done].
Qed.

Lemma renamed_below d step s t n r content :
  renameReady step d s t n -> nodeAt d (s ++ r) = Some content ->
  renamedNodes s t (dk_nodes d) !! (t ++ r) = Some content.
Proof.
  intros Hready Hp. pose proof (ready_apart _ _ _ _ _ Hready) as Hts.
  destruct Hready as [Hwf _ _ _ Ht Hst _ _]. unfold renamedNodes.
  rewrite lookup_moveNodes_target by done. rewrite lookup_withDirectories.
  unfold nodeAt in Hp. by rewrite Hp.
Qed.
End typed.

(** ** The directory that is renamed *)

Section bytes.
Context `{RuntimeLaws, Installation}.

Definition folderPath (owner : string) (up : list FolderSummary) : path :=
  "files" :: storageIdOf owner :: namesDown up.

Lemma plain_path owner up :
  isEntryName (storageIdOf owner) -> Forall isEntryName (namesDown up) ->
  Forall isEntryName (folderPath owner up).
Proof. intros Hs Hn. constructor; [by split_and!|]. by constructor. Qed.

Lemma folderKey_way owner (m : FolderMap) root folder up :
  climbs (fun id => m !! id) root folder up -> m !! fo_id folder = Some folder ->
  fo_ownerStorageId folder = storageIdOf owner -> isEntryName (storageIdOf owner) ->
  Forall isEntryName (namesDown up) ->
  buildFolderStorageKey folder m root = keyOf (folderPath owner up).
Proof.
  intros Hw Hf Hs Hi Hn. unfold buildFolderStorageKey.
  rewrite (buildFolderPathSegments_climbs m root _ _ Hw Hf), Hs.
  by apply getActiveFolderStorageKey_plain.
Qed.

Section planned.
Context (owner : string) (root : FolderSummary) (db db0 db' : DB) (Ho : orderly owner root db).
Context (f : FolderSummary) (change : FolderChange) (f' p : FolderSummary) (upp : list FolderSummary)
  (data : list (string * JsonScalar)) (members below : list FolderSummary) (moved : list StoredFile)
  (m : FolderMap) (checksums : list (string * string)).
Context (Hpl : planned owner root db f change f' p upp data members below moved m checksums).
#[local] Notation L := (ownLive false owner db).
#[local] Notation look := (liveTree owner db).
#[local] Notation next := (buildUpdatedFolderMap m [f']).

Lemma way_plain top x up : climbs look root x up -> x ∈ L -> top = root -> Forall isEntryName (namesDown up).
Proof.
  intros Hw Hx _. eapply way_names; [done|exact Hw|done|]. by eapply climbs_below.
Qed.

Lemma planned_from up :
  climbs look root f up -> dc_fromStorageKey change = keyOf (folderPath owner up).
Proof.
  intros Hw. destruct Hpl. rewrite pl_from0. destruct pl_place0 as [HfL Hne _ _ _ _ _ _].
  assert (Hf : f ∈ up).
  { destruct (climbs_ne _ _ _ _ Hw) as [rest ->]; [congruence|by left]. }
  apply folderKey_way; [|apply (pl_way0 up Hw); set_solver|by eapply own_storage|
    apply (or_storage _ _ _ Ho)|by eapply way_plain].
  apply (climbs_mono look); [done|]. intros y Hy _. by apply (pl_way0 up Hw).
Qed.

Lemma planned_names : Forall isEntryName (namesDown (f' :: upp)).
Proof.
  destruct Hpl. apply (place_names owner root db Ho f f' p upp pl_place0 []). constructor.
Qed.

Lemma planned_to : dc_toStorageKey change = keyOf (folderPath owner (f' :: upp)).
Proof.
  pose proof planned_names as Hn. destruct Hpl. rewrite pl_to0.
  destruct (next_way owner root db Ho f f' p upp pl_place0 members m pl_members0 pl_map0 f [])
    as [Hway Hat]; [constructor|by destruct pl_place0|].
  rewrite inNext_self in *. cbn [app] in Hway.
  apply folderKey_way; [done| |done|apply (or_storage _ _ _ Ho)|done].
  by rewrite (np_id _ _ _ _ _ _ _ pl_place0).
Qed.

(** ** Where a file is *)

Context (request : Request) (digest : option string) (Hdb : db_rows db0 = db_rows db).
Context (Happ : applied (durableFolderInput request f digest change) db0 db').

Lemma planned_place : newPlace owner root db f f' p upp.
Proof. apply Hpl. Qed.

Lemma planned_change : replaced owner root db db' f f' upp (folderThen db') (fileThen db').
Proof. by eapply planned_replaced. Qed.

Lemma pathOfKey_file up name :
  isEntryName (storageIdOf owner) -> Forall isEntryName (namesDown up) -> isEntryName name ->
  pathOfKey (keyOf (filePath owner up name)) = folderPath owner up ++ [name].
Proof.
  intros Hi Hu Hn. rewrite pathOfKey_keyOf; [done|done|].
  change (Forall isEntryName (folderPath owner up ++ [name])).
  apply Forall_app; split; [by apply plain_path|by constructor].
Qed.

(** A file that another folder holds is not below the directory. *)
Lemma apart_path (Hd : distinctNames owner root db) upf folder up name :
  climbs look root f upf -> f ∈ L -> climbs look root folder up -> folder ∈ L -> f ∉ up -> f <> root ->
  folderPath owner upf ⊑ folderPath owner up ++ [name] ->
  folderPath owner upf = folderPath owner up ++ [name].
Proof.
  intros Hwf HfL Hw HF Hn Hr Hpre. unfold folderPath in *. cbn [app] in *.
  do 2 apply prefix_cons_inv_2 in Hpre. destruct Hpre as [r E].
  destruct r as [|x r' _] using rev_ind.
  - rewrite app_nil_r in E. by rewrite E.
  - rewrite app_assoc in E. apply app_inj_tail in E as [E _].
    destruct (path_prefix owner root db Ho Hd f upf folder up Hwf HfL Hw HF) as [up1 ->]; [by exists r'|].
    exfalso. apply Hn. destruct (climbs_ne _ _ _ _ Hwf Hr) as [rest ->]. set_solver.
Qed.

Lemma file_place (Hd : distinctNames owner root db) upf file :
  climbs look root f upf -> ownFile owner db file ->
  (fi_storageKey (fileThen db' file) = fi_storageKey file /\
   (folderPath owner upf ⊑ pathOfKey (fi_storageKey file) ->
    pathOfKey (fi_storageKey file) = folderPath owner upf)) \/
  exists r, pathOfKey (fi_storageKey file) = folderPath owner upf ++ r /\
    pathOfKey (fi_storageKey (fileThen db' file)) = folderPath owner (f' :: upp) ++ r.
Proof.
  intros Hwf Hown. pose proof planned_change as Hre. pose proof planned_place as Hplace.
  pose proof planned_names as Hnames. pose proof (or_storage _ _ _ Ho) as Hst.
  pose proof (np_live _ _ _ _ _ _ _ Hplace) as HfL. pose proof (np_notRoot _ _ _ _ _ _ _ Hplace) as Hne.
  assert (Hr : f <> root) by congruence.
  destruct (isLiveFile file) eqn:Hl.
  2:{ left. split; [apply (re_elsewhere _ _ _ _ _ _ _ _ _ Hre file Hown); by rewrite Hl|].
      destruct (or_trash _ _ _ Ho file Hown Hl) as [rest ->]. by intros [k [=]]. }
  destruct (or_files _ _ _ Ho file Hown Hl) as (folder & up & HF & Hid & Hw & Hn & Hk).
  pose proof (way_plain root folder up Hw HF eq_refl) as Hu.
  rewrite Hk, pathOfKey_file by done.
  destruct (decide (fo_id f ∈ fo_id <$> up)) as [(y & E & Hy)%list_elem_of_fmap|Hnot].
  - right. assert (y = f) as -> by (eapply ids_agree; [by eapply way_in|done|done]).
    destruct (climbs_split _ _ _ _ _ Hw (liveTree_of _ _ _ HF) Hy) as (up1 & up2 & -> & Hlow & Htop).
    rewrite (climbs_fun _ _ _ _ _ Hwf Htop).
    exists (namesDown up1 ++ [fi_name file]).
    rewrite (re_below _ _ _ _ _ _ _ _ _ Hre file folder up1) by done.
    rewrite namesDown_app in Hu. apply Forall_app in Hu as [_ Hu1].
    rewrite pathOfKey_file; [|done| |done].
    + unfold folderPath. rewrite !namesDown_app. cbn [app]. by rewrite <- !app_assoc.
    + rewrite namesDown_app. by apply Forall_app.
  - left. assert (Hf : f ∉ up) by (intros Hin; by apply Hnot, list_elem_of_fmap_2).
    split.
    + rewrite (re_elsewhere _ _ _ _ _ _ _ _ _ Hre file Hown); [done|]. intros _ folder' up' HF' Hid' Hw'.
      rewrite Hid in Hid'. injection Hid' as Hid'.
      assert (folder' = folder) as -> by by eapply ids_agree.
      by rewrite (climbs_fun _ _ _ _ _ Hw' Hw).
    + intros Hpre. symmetry. by eapply apart_path.
Qed.

(** ** The steps of the plan *)

Definition planSteps (id : string) : list Step :=
  imap (newStep id) (di_steps (durableFolderInput request f digest change)).

Lemma planned_steps id : planSteps id =
  if bool_decide (dc_fromStorageKey change = dc_toStorageKey change) then []
  else [newStep id 0 (renameFolderStep (dc_fromStorageKey change) (dc_toStorageKey change) digest)].
Proof.
  unfold planSteps. cbn [di_steps durableFolderInput]. unfold buildDurableFolderSteps.
  rewrite (pl_steps _ _ _ _ _ _ _ _ _ _ _ _ _ _ Hpl). by case_bool_decide.
Qed.

Lemma planned_bytes id nodes file content :
  distinctNames owner root db -> planReady (planSteps id) nodes -> ownFile owner db file ->
  nodes !! pathOfKey (fi_storageKey file) = Some (NFile content) ->
  foldl forwardNodes nodes (planSteps id) !! pathOfKey (fi_storageKey (fileThen db' file))
  = Some (NFile content).
Proof.
  intros Hd [Hready _ _] Hown Hc. pose proof (or_storage _ _ _ Ho) as Hst.
  pose proof (np_live _ _ _ _ _ _ _ planned_place) as HfL.
  destruct (or_tree _ _ _ Ho f HfL) as [upf Hwf].
  pose proof (plain_path owner upf Hst (way_plain root f upf Hwf HfL eq_refl)) as Hfrom.
  pose proof (plain_path owner (f' :: upp) Hst planned_names) as Hto.
  pose proof (file_place Hd upf file Hwf Hown) as Hplace.
  rewrite planned_steps, (planned_from upf Hwf), planned_to in *. case_bool_decide as E.
  - cbn. destruct Hplace as [[-> _]|(r & E1 & ->)]; [done|]. rewrite E1 in Hc.
    apply (f_equal pathOfKey) in E. rewrite !pathOfKey_keyOf in E by done. by rewrite <- E.
  - destruct (Hready 0%nat _ eq_refl) as (s & t & n & Hrr).
    pose proof (rr_keys _ _ _ _ _ Hrr) as [Es Et]. cbn [foldl]. unfold forwardNodes.
    cbn [in_action sp_input newStep renameFolderStep]. rewrite Es, Et.
    apply resolve_keyOf in Es as ->, Et as ->; [|done..].
    destruct Hplace as [[-> Hon]|(r & E1 & ->)].
    + eapply (renamed_elsewhere (diskOf nodes)); [exact Hrr|exact Hc|].
      intros Hin. rewrite (Hon Hin) in Hc. pose proof (rr_source _ _ _ _ _ Hrr) as Hs.
      pose proof (rr_expected _ _ _ _ _ Hrr) as Hv.
      apply validate_directory with (n := n) in Hv as ->; [|by destruct Hrr|done|exact Hs].
      unfold nodeAt in Hs. cbn in Hs. congruence.
    + rewrite E1 in Hc. by eapply (renamed_below (diskOf nodes)).
Qed.
End planned.

(** C7: A plan to rename or move a folder is made from the rows, and applied to
    rows that did not change in between: an owner whose rows were in order (one
    root, every live folder hangs from it, every live file's key spells the names
    of its folders and its own, trashed files are in the trash) has them in order
    again, under the same root. *)
Theorem moving_keeps_the_tree_in_order request w folder change root digest db0 db' :
  calm w -> orderly (rq_actorUserId request) root (w_db w) -> placePlan request w folder change ->
  db_rows db0 = db_rows (w_db w) ->
  applied (durableFolderInput request folder digest change) db0 db' ->
  exists root', fo_id root' = fo_id root /\ orderly (rq_actorUserId request) root' db'.
Proof.
  intros Hc Ho Hplan Hdb Happ.
  destruct (place_planned _ _ _ _ _ Hc Ho Hplan) as (f' & p & upp & data & members & below & moved
    & m & checksums & Hpl).
  exists (folderThen db' root). split; [|by eapply planned_orderly].
  pose proof (planned_replaced _ _ _ _ _ Ho _ _ _ _ _ _ _ _ _ _ _ Hpl _ _ Hdb Happ) as Hre.
  eapply id_after; [exact Hre|by eapply root_live].
Qed.

(** C4: A rename or move of a folder loses no bytes of its owner, live or in the
    trash: where the key of a file's row led to its bytes before the steps of the
    mutation ran, the key of its row leads to the same bytes afterwards. The rows
    were in order and did not change since the plan was made, no two live folders in
    one folder have one name, as the unique index has it, and the steps run as they
    were planned. *)
Theorem moving_loses_no_bytes request w folder change root digest id db0 db' nodes file content :
  calm w -> orderly (rq_actorUserId request) root (w_db w) ->
  distinctNames (rq_actorUserId request) root (w_db w) -> placePlan request w folder change ->
  db_rows db0 = db_rows (w_db w) ->
  applied (durableFolderInput request folder digest change) db0 db' ->
  planReady (planSteps folder change request digest id) nodes ->
  ownFile (rq_actorUserId request) (w_db w) file ->
  nodes !! pathOfKey (fi_storageKey file) = Some (NFile content) ->
  exists file', findFileById (fi_id file) true db' = Some file' /\ sameFileRow file file' /\
    foldl forwardNodes nodes (planSteps folder change request digest id)
      !! pathOfKey (fi_storageKey file') = Some (NFile content).
Proof.
  intros Hc Ho Hd Hplan Hdb Happ Hready Hown Hcontent.
  destruct (place_planned _ _ _ _ _ Hc Ho Hplan) as (f' & p & upp & data & members & below & moved
    & m & checksums & Hpl).
  pose proof (planned_replaced _ _ _ _ _ Ho _ _ _ _ _ _ _ _ _ _ _ Hpl _ _ Hdb Happ) as Hre.
  exists (fileThen db' file). pose proof Hown as [Hfile _]. split_and!.
  - by rewrite (re_files _ _ _ _ _ _ _ _ _ Hre), Hfile.
  - by apply (re_sameFile _ _ _ _ _ _ _ _ _ Hre).
  - by eapply planned_bytes.
Qed.
End bytes.
