(* ===== verification/FileBytes.v ===== *)
(** * A file keeps its bytes

    One file that is renamed, moved, trashed or restored, and the two files that
    keeping the device's version exchanges: where the bytes go, the keys of the rows
    go. *)

From Stdlib Require String.
From S2P Require Import Prelude JsValues Database MutationMetadata MutationPrepare MetadataFacts Journal Disk Io StoragePaths StorageLayout TreeManifest ExecutorSteps ManifestFacts StepFacts RenameFacts ForwardPhase FileRows DurableMutation FileService FileOperations FilePromises FolderTree FolderPromises.

Open Scope Z_scope.

(** ** The columns that an update leaves *)

(** The value of a field that is given last. *)
Fixpoint lastOf {A} (name : string) (fields : list (string * A)) : option A :=
  match fields with
  | [] => None
  | (key, value) :: rest =>
      match lastOf name rest with
      | Some later => Some later
      | None => if bool_decide (key = name) then Some value else None
      end
  end.

Lemma column_lastOf columns : forall row name,
  column (setColumns columns row) name = default (column row name) (lastOf name columns).
Proof.
  intros row name. unfold column, setColumns. cbn. generalize (rw_columns row) as m.
  induction columns as [|[key value] rest IH]; intros m; [done|]. cbn. rewrite IH.
  destruct (lastOf name rest); [done|]. cbn. case_bool_decide as E.
  - subst. by rewrite lookup_insert_eq.
  - by rewrite lookup_insert_ne.
Qed.

Definition writtenAs (name : string) (value : JsonScalar) : option Column :=
  parsed ← parseMetadataValue name value; type ← metadataCastByKey name; sqlCast type parsed.

Lemma written_date text value :
  writtenAs "deletedAt" (JsString text) = Some value -> exists ms, value = CDate ms.
Proof.
  unfold writtenAs, parseMetadataValue.
  change (bool_decide ("deletedAt" ∈ metadataDateKeys)) with true. cbn iota.
  destruct (dateOf text) as [ms|]; [|done]. intros [= <-]. by exists ms.
Qed.

Lemma lastOf_columns data : forall parsed columns name,
  parseMetadataData data = Some parsed -> castColumns parsed = Some columns ->
  match lastOf name data with
  | Some value => exists c, writtenAs name value = Some c /\ lastOf name columns = Some c
  | None => lastOf name columns = None
  end.
Proof.
  induction data as [|[key value] rest IH]; intros parsed columns name Hp Hc; cbn in Hp.
  { injection Hp as <-. by injection Hc as <-. }
  destruct (parseMetadataValue key value) as [p|] eqn:Ev; [|done]. cbn in Hp.
  destruct (parseMetadataData rest) as [others|] eqn:Er; [|done]. cbn in Hp. injection Hp as <-.
  cbn in Hc. destruct (metadataCastByKey key) as [type|] eqn:Et; [|done]. cbn in Hc.
  destruct (sqlCast type p) as [cast|] eqn:Es; [|done]. cbn in Hc.
  destruct (castColumns others) as [columns'|] eqn:Eo; [|done]. cbn in Hc. injection Hc as <-.
  specialize (IH others columns' name eq_refl Eo). cbn. destruct (lastOf name rest) as [v|].
  - destruct IH as (c & ? & ->). eauto.
  - rewrite IH. case_bool_decide as E; [|done]. subst. exists cast. split; [|done].
    unfold writtenAs. rewrite Ev. cbn. by rewrite Et.
Qed.

(** A column of a row that an update names: what the update writes, or as it was. *)
Lemma updated_column update columns row name :
  columnsOf update = Some columns ->
  match lastOf name (up_data update) with
  | Some value => writtenAs name value = Some (column (setColumns columns row) name)
  | None => column (setColumns columns row) name = column row name
  end.
Proof.
  intros Hc. unfold columnsOf in Hc.
  destruct (parseMetadataData (up_data update)) as [parsed|] eqn:Ep; [|done]. cbn in Hc.
  pose proof (lastOf_columns (up_data update) parsed columns name Ep Hc) as Hl.
  rewrite column_lastOf. destruct (lastOf name (up_data update)) as [v|].
  - by destruct Hl as (c & -> & ->).
  - by rewrite Hl.
Qed.

(** The row of an update among entries of the trash. *)
Lemma row_written rows db1 db2 rows' updates update :
  keptRows rows (db_rows db1) -> rowsUpdated updates db1 db2 -> keptRows (db_rows db2) rows' ->
  update ∈ updates -> exists row row', rows !! rowKey update = Some row /\
    rows' !! rowKey update = Some row' /\
    forall name, name <> "trashEntryId" ->
      match lastOf name (up_data update) with
      | Some value => writtenAs name value = Some (column row' name)
      | None => column row' name = column row name
      end.
Proof.
  intros H1 (_ & Hrows & _) H2 Hin. destruct (Hrows update Hin) as (row1 & columns & E1 & _ & Hc & E2).
  assert (Hname : "name" <> "trashEntryId") by done.
  pose proof (H1 (rowKey update) "name" Hname) as K1. rewrite E1 in K1.
  destruct (rows !! rowKey update) as [row|] eqn:Er; [|done].
  pose proof (H2 (rowKey update) "name" Hname) as K2. rewrite E2 in K2.
  destruct (rows' !! rowKey update) as [row'|] eqn:Er'; [|done].
  exists row, row'. split_and!; [done|done|]. intros name Hn.
  pose proof (H1 (rowKey update) name Hn) as K3. pose proof (H2 (rowKey update) name Hn) as K4.
  rewrite E1, Er in K3. rewrite E2, Er' in K4. injection K3 as K3. injection K4 as ->.
  pose proof (updated_column update columns row1 name Hc) as Hu. by rewrite K3 in Hu.
Qed.

Lemma row_unwritten rows db1 db2 rows' updates key name :
  keptRows rows (db_rows db1) -> rowsUpdated updates db1 db2 -> keptRows (db_rows db2) rows' ->
  key ∉ rowKey <$> updates -> name <> "trashEntryId" ->
  (fun row => column row name) <$> rows' !! key = (fun row => column row name) <$> rows !! key.
Proof.
  intros H1 (_ & _ & Hothers) H2 Hk Hn. rewrite (H2 key name Hn), Hothers, (H1 key name Hn); [done|].
  intros update Hin ->. by apply Hk, list_elem_of_fmap_2.
Qed.

(** ** One file that takes another place *)

Section files.
Context `{RuntimeLaws, Installation}.

(** A plan that puts one file elsewhere. *)
Inductive filePlan (request : Request) (w : World) (file : StoredFile) (change : FileChange) : Prop :=
| file_renaming fileId name payload w' :
    renameFilePlan request fileId name payload w = (Done (Ok (file, change)), w') ->
    filePlan request w file change
| file_moving fileId destinationFolderId payload w' :
    moveFilePlan request fileId destinationFolderId payload w = (Done (Ok (file, change)), w') ->
    filePlan request w file change
| file_trashing fileId payload w' :
    trashFilePlan request fileId payload w = (Done (Ok (file, change)), w') ->
    filePlan request w file change
| file_restoring fileId payload location w' :
    restoreFilePlan request fileId payload w = (Done (Ok (file, change, location)), w') ->
    filePlan request w file change.

Lemma answered_getOwnedFile request id missing w file w' :
  calm w -> getOwnedFile request id missing w = (Done (Ok file), w') ->
  findFileById (fi_id file) true (w_db w) = Some file /\ fi_ownerUserId file = rq_actorUserId request.
Proof.
  intros Hc E. plan_query E found. plan_step E f Hf. plan_step E u Hu.
  apply answered_ret in E as ->. unfold lifted, assertFileAccess in Hf.
  destruct (findFileById id missing (w_db w)) as [g|] eqn:Eg; [|done].
  destruct (accessible request _) eqn:Ea; [|done]. injection Hf as <-.
  split; [|by apply accessible_own in Ea]. rewrite (findFileById_id _ _ _ _ Eg).
  revert Eg. unfold findFileById. destruct (_ !! _); [|done]. cbn. by case_match.
Qed.

Lemma answered_getActiveOwnedFile request id w file w' :
  calm w -> getActiveOwnedFile request id w = (Done (Ok file), w') ->
  findFileById (fi_id file) true (w_db w) = Some file /\ fi_ownerUserId file = rq_actorUserId request /\
  isLiveFile file = true.
Proof.
  intros Hc E. plan_step E f Hf. plan_step E u Hu. apply answered_check in Hu.
  apply answered_ret in E as ->. by apply answered_getOwnedFile in Hf as [? ?].
Qed.

(** What the plans have in common. *)
Lemma filePlan_made request w file change :
  calm w -> filePlan request w file change ->
  findFileById (fi_id file) true (w_db w) = Some file /\
  lastOf "storageKey" (fc_data change) = Some (JsString (fc_toStorageKey change)).
Proof.
  intros Hc [fileId name payload w' E|fileId dest payload w' E|fileId payload w' E|fileId payload loc w' E].
  - plan_step E f Hf. apply answered_getActiveOwnedFile in Hf as [Hf _]; [|done].
    repeat (let x := fresh in let H := fresh in plan_step E x H).
    by apply answered_ret, pair_equal_spec in E as [-> ->].
  - plan_step E f Hf. apply answered_getActiveOwnedFile in Hf as [Hf _]; [|done].
    repeat (let x := fresh in let H := fresh in plan_step E x H).
    by apply answered_ret, pair_equal_spec in E as [-> ->].
  - plan_step E f Hf. apply answered_getActiveOwnedFile in Hf as [Hf _]; [|done].
    repeat (let x := fresh in let H := fresh in plan_step E x H).
    by apply answered_ret, pair_equal_spec in E as [-> ->].
  - plan_step E f Hf. apply answered_getOwnedFile in Hf as [Hf _]; [|done].
    repeat (let x := fresh in let H := fresh in plan_step E x H).
    by apply answered_ret, pair_equal_spec in E as [[-> ->]%pair_equal_spec _].
Qed.

Lemma lastOf_app {A} name (l1 l2 : list (string * A)) :
  lastOf name (l1 ++ l2) = match lastOf name l2 with Some v => Some v | None => lastOf name l1 end.
Proof.
  induction l1 as [|[key value] l1 IH]; cbn; [by destruct (lastOf name l2)|].
  rewrite IH. by destruct (lastOf name l2).
Qed.

Lemma lastOf_captured file data checksum :
  lastOf "storageKey" (includeCapturedChecksum file data checksum) = lastOf "storageKey" data.
Proof.
  unfold includeCapturedChecksum. do 2 (case_match; try done). by rewrite lastOf_app.
Qed.

Definition rowUpdate (file : StoredFile) (data : list (string * JsonScalar)) : UpdateOperation :=
  {| up_entityType := et_file; up_entityId := fi_id file;
     up_preRevision := fi_storageRevision file; up_data := data |}.

Lemma file_operations request file checksum change :
  exists pre post, Forall ofTrash pre /\ Forall ofTrash post /\
    di_metadataOperations (durableFileInput request file checksum change)
    = pre ++ (op_update <$> [rowUpdate file (includeCapturedChecksum file (fc_data change) checksum)])
      ++ post.
Proof.
  cbn. unfold buildDurableFileOperations. do 2 eexists. split; [|split; [|reflexivity]].
  - destruct (fc_trashEntry change); repeat constructor.
  - unfold deleteEntry. destruct (givenKey _); repeat constructor.
Qed.

(** The nodes of a file that a rename took elsewhere, and every other file. *)
Lemma renamed_file nodes step s t n content :
  renameReady step (diskOf nodes) s t n -> nodes !! s = Some (NFile content) ->
  renamedNodes s t nodes !! t = Some (NFile content) /\
  forall p c, p <> s -> nodes !! p = Some (NFile c) -> renamedNodes s t nodes !! p = Some (NFile c).
Proof.
  intros Hr Hs. split.
  - pose proof (renamed_below (diskOf nodes) step s t n [] (NFile content) Hr) as E.
    rewrite !app_nil_r in E. by apply E.
  - intros p c Hne Hp. apply (renamed_elsewhere (diskOf nodes) step s t n p); [done|done|].
    intros Hsp. pose proof (rr_wf _ _ _ _ _ Hr) as Hwf.
    assert (E : nodeAt (diskOf nodes) s = Some NDirectory).
    { apply (wf_ancestor _ Hwf p s); [|done|congruence]. unfold nodeAt. cbn. congruence. }
    unfold nodeAt in E. cbn in E. congruence.
Qed.

Definition fileSteps (request : Request) (file : StoredFile) (checksum : option string)
    (change : FileChange) (id : string) : list Step :=
  imap (newStep id) (di_steps (durableFileInput request file checksum change)).

Lemma file_nodes request file checksum change id nodes s content :
  planReady (fileSteps request file checksum change id) nodes ->
  resolveMutationStoragePath (fi_storageKey file) = Ok s -> nodes !! s = Some (NFile content) ->
  let nodes' := foldl forwardNodes nodes (fileSteps request file checksum change id) in
  exists t, resolveMutationStoragePath (fc_toStorageKey change) = Ok t /\
    nodes' !! t = Some (NFile content) /\
    forall p c, p <> s -> nodes !! p = Some (NFile c) -> nodes' !! p = Some (NFile c).
Proof.
  intros Hready Hs Hcontent. unfold fileSteps in *. cbn [di_steps durableFileInput] in *.
  unfold buildDurableFileSteps in *. case_bool_decide as E; [rewrite <- E; by exists s|].
  destruct (pr_ready _ _ Hready 0%nat _ eq_refl) as (s' & t & n & Hrr).
  pose proof (rr_keys _ _ _ _ _ Hrr) as [Es Et]. change (stepSource _) with (fi_storageKey file) in Es.
  rewrite Hs in Es. injection Es as <-. exists t. split; [done|].
  cbn [imap foldl]. unfold forwardNodes. cbn [in_action sp_input newStep renameFileStep].
  change (stepSource _) with (fi_storageKey file). rewrite Hs, Et. by eapply renamed_file.
Qed.

Lemma file_rows request file checksum change db0 db' :
  lastOf "storageKey" (fc_data change) = Some (JsString (fc_toStorageKey change)) ->
  applied (durableFileInput request file checksum change) db0 db' ->
  (exists file', findFileById (fi_id file) true db' = Some file' /\
     fi_storageKey file' = fc_toStorageKey change) /\
  forall other, other <> fi_id file ->
    fi_storageKey <$> findFileById other true db' = fi_storageKey <$> findFileById other true db0.
Proof.
  intros Hkey (locks & now & u & Happ).
  destruct (file_operations request file checksum change) as (pre & post & Hpre & Hpost & Eops).
  change (applyOperations (length (di_metadataOperations (durableFileInput request file checksum change)))
    locks now (di_metadataOperations (durableFileInput request file checksum change)) db0 = Ok (u, db')) in Happ.
  rewrite Eops in Happ.
  apply intent_run in Happ as (db1 & db2 & Hk1 & Hup & Hk2); [|done|done|apply NoDup_singleton|done].
  split.
  - destruct (row_written _ _ _ _ _ (rowUpdate file
      (includeCapturedChecksum file (fc_data change) checksum)) Hk1 Hup Hk2) as (row & row' & Er & Er' & Hcol);
      [by left|].
    change (rowKey _) with (et_file, fi_id file) in *.
    specialize (Hcol "storageKey" ltac:(done)). cbn [up_data rowUpdate] in Hcol.
    rewrite lastOf_captured, Hkey in Hcol. injection Hcol as Hcol.
    exists (toStoredFile (fi_id file) row'). unfold findFileById. rewrite Er'. split; [done|].
    cbn. unfold textColumn. by rewrite <- Hcol.
  - intros other Hne. unfold findFileById.
    pose proof (row_unwritten _ _ _ _ _ (et_file, other) "storageKey" Hk1 Hup Hk2) as Hrow.
    rewrite list_elem_of_fmap in Hrow.
    assert (Hn : ~ exists y, (et_file, other) = rowKey y /\ y ∈ [rowUpdate file
      (includeCapturedChecksum file (fc_data change) checksum)]).
    { intros (y & E & ->%list_elem_of_singleton). by injection E. }
    specialize (Hrow Hn ltac:(done)).
    destruct (db_rows db' !! _) as [row'|], (db_rows db0 !! _) as [row|]; try done.
    cbn in *. injection Hrow as Hrow. unfold textColumn. by rewrite Hrow.
Qed.

(** C6: One file is renamed, moved, trashed or restored: where the key of its row led to
    its bytes before the steps of the mutation ran, the key of its row, which is the
    one that was planned, leads to them afterwards; the bytes of every other path are
    where they were, and no other row's key changed. *)
Theorem a_moved_file_keeps_its_bytes request w file change checksum id db0 db' nodes s content :
  calm w -> filePlan request w file change ->
  applied (durableFileInput request file checksum change) db0 db' ->
  planReady (fileSteps request file checksum change id) nodes ->
  resolveMutationStoragePath (fi_storageKey file) = Ok s -> nodes !! s = Some (NFile content) ->
  let nodes' := foldl forwardNodes nodes (fileSteps request file checksum change id) in
  (exists file' t, findFileById (fi_id file) true db' = Some file' /\
     fi_storageKey file' = fc_toStorageKey change /\
     resolveMutationStoragePath (fi_storageKey file') = Ok t /\ nodes' !! t = Some (NFile content)) /\
  (forall p c, p <> s -> nodes !! p = Some (NFile c) -> nodes' !! p = Some (NFile c)) /\
  (forall other, other <> fi_id file ->
     fi_storageKey <$> findFileById other true db' = fi_storageKey <$> findFileById other true db0).
Proof.
  intros Hc Hplan Happ Hready Hs Hcontent nodes'.
  destruct (filePlan_made _ _ _ _ Hc Hplan) as [_ Hkey].
  destruct (file_rows _ _ _ _ _ _ Hkey Happ) as [(file' & Hfile' & Ekey) Hothers].
  destruct (file_nodes _ _ _ _ _ _ _ _ Hready Hs Hcontent) as (t & Et & Hnode & Hrest).
  split_and!; [|done|done]. exists file', t. by rewrite Ekey.
Qed.

(** ** The two files of a conflict *)

Definition derivativeUpdate (x : string * string * Row) : UpdateOperation :=
  {| up_entityType := et_derivative; up_entityId := x.1.1;
     up_preRevision := rw_storageRevision x.2;
     up_data := [("status", JsString "stale"); ("storageKey", JsNull); ("sizeBytes", JsNull)] |}.

(** Steps that the forward phase leaves to the cleanup. *)
Definition deletes (step : StorageMutationStepInput) : Prop := in_action step = delete_file_step.

Lemma invalidate_made derivatives : forall w d w',
  calm w -> invalidate derivatives w = (Done d, w') ->
  w' = w /\ dv_operations d = op_update <$> (derivativeUpdate <$> derivatives) /\
  Forall deletes (dv_steps d).
Proof.
  induction derivatives as [|[[id key] row] rest IH]; intros w d w' Hc E; cbn in E.
  { injection E as <- <-. by split_and!. }
  unfold mbind, Io_bind in E. pose proof (still_fingerprint key w Hc) as Hs.
  destruct (fingerprintFileIfDeterminable key w) as [[checksum| |] w1]; cbn in Hs; subst w1; [|done..].
  destruct (invalidate rest w) as [[others| |] w2] eqn:Er; [|done..].
  destruct (IH _ _ _ Hc Er) as (-> & E1 & E2). injection E as <- <-. cbn.
  split_and!; [done|by rewrite E1|by constructor].
Qed.

Lemma steady_invalidation fileId : steady (buildDerivativeInvalidation fileId).
Proof.
  apply steady_bind; [apply steady_query|]. intros derivatives. apply steady_still.
  induction derivatives as [|[[id key] row] rest IH]; [done|]. cbn.
  apply still_bind; [apply still_fingerprint|]. intros checksum.
  apply still_bind; [done|]. done.
Qed.

Lemma invalidation_made fileId w d w' :
  calm w -> buildDerivativeInvalidation fileId w = (Done (Ok d), w') ->
  dv_operations d = op_update <$> (derivativeUpdate <$> placedDerivatives fileId (w_db w)) /\
  Forall deletes (dv_steps d).
Proof.
  intros Hc E. plan_query E derivatives. unfold doing in E.
  destruct (invalidate _ w) as [[others| |] w1] eqn:Ei; [|done..]. injection E as <- _.
  by apply invalidate_made in Ei as (_ & ? & ?).
Qed.

Lemma elem_of_placed fileId db x :
  x ∈ placedDerivatives fileId db ->
  db_rows db !! (et_derivative, x.1.1) = Some x.2 /\ textColumn x.2 "fileId" = Some fileId.
Proof.
  unfold placedDerivatives. intros ([id row] & Hin & E)%list_elem_of_omap. cbn in E.
  case_bool_decide; [|done]. destruct (givenKey _) as [key|]; [|done]. cbn in E. injection E as <-.
  split; [|done]. cbn. unfold typedRows in Hin.
  apply list_elem_of_omap in Hin as ([[type id'] row'] & Hm & E'). cbn in E'.
  case_bool_decide; [|done]. subst. injection E' as <- <-. by apply elem_of_map_to_list in Hm.
Qed.

Lemma NoDup_placed fileId db : NoDup ((fun x => x.1.1) <$> placedDerivatives fileId db).
Proof.
  unfold placedDerivatives. pose proof (NoDup_typedRows et_derivative db) as Hn.
  induction (typedRows et_derivative db) as [|[id row] l IH]; [constructor|].
  cbn in Hn. apply NoDup_cons in Hn as [Hnin Hn]. specialize (IH Hn). cbn.
  case_bool_decide; [|done]. destruct (givenKey _) as [key|]; [|done]. cbn. constructor; [|done].
  intros (x & E & Hx)%list_elem_of_fmap. apply list_elem_of_omap in Hx as ([id' row'] & Hin & Ex).
  cbn in Ex. case_bool_decide; [|done]. destruct (givenKey _); [|done]. cbn in Ex. injection Ex as <-.
  cbn in E. subst. apply Hnin. apply list_elem_of_fmap. by exists (id', row').
Qed.

Record keepMineMade (w : World) (original copy : StoredFile)
    (input : DurableStorageMutationInput) (key : string) : Prop := {
  km_original : findFileById (fi_id original) true (w_db w) = Some original;
  km_live : isLiveFile original = true;
  km_copy : findFileById (fi_id copy) true (w_db w) = Some copy;
  km_two : fi_id copy <> fi_id original;
  km_input : exists originalChecksum copyChecksum deletedAt trashEntryId stepsD derivatives,
    Forall deletes stepsD /\ derivatives = placedDerivatives (fi_id original) (w_db w)
                                           ++ placedDerivatives (fi_id copy) (w_db w) /\
    di_steps input = stepsD
      ++ [renameFileStep (fi_storageKey original) key (fi_sizeBytes original) originalChecksum;
          renameFileStep (fi_storageKey copy) (fi_storageKey original) (fi_sizeBytes copy) copyChecksum] /\
    exists entry, ofTrash entry /\ di_metadataOperations input = [entry]
      ++ (op_update <$> rowUpdate copy (copyData original originalChecksum key deletedAt trashEntryId)
            :: rowUpdate original (originalData copy copyChecksum) :: (derivativeUpdate <$> derivatives)) ++ []
}.

Lemma keepMinePlan_made request fileId copyId revision payload w original copy input w' :
  calm w -> keepMinePlan request fileId copyId revision payload w
              = (Done (Ok (original, copy, input)), w') ->
  exists key, keepMineMade w original copy input key.
Proof.
  intros Hc E. unfold keepMinePlan in E.
  plan_step E o Ho. apply answered_getActiveOwnedFile in Ho as (Ho & _ & Hl); [|done].
  plan_step E c Hcopy. apply answered_getActiveOwnedFile in Hcopy as (Hcopy & _ & _); [|done].
  plan_step E u1 Hu1. plan_step E u2 Hu2. apply answered_check, andb_true_iff in Hu2 as [Htwo _].
  plan_step E deletedAt Hd. plan_step E key Hk.
  apply answered_bind in E as (oc & _ & E); [|apply steady_still, still_fileFingerprint|done].
  apply answered_bind in E as (cc & _ & E); [|apply steady_still, still_fileFingerprint|done].
  apply answered_bind in E as (od & Hod & E); [|apply steady_invalidation|done].
  apply answered_bind in E as (cd & Hcd & E); [|apply steady_invalidation|done].
  apply answered_ret in E. injection E as -> -> ->. exists key.
  apply invalidation_made in Hod as [Eo So], Hcd as [Ec Sc]; [|done..].
  split; [done|done|done|by apply negb_true_iff, bool_decide_eq_false in Htwo|].
  exists oc, cc, deletedAt, (idFor request ("file-keep-mine:" +:+ fi_id c)).
  exists (dv_steps od ++ dv_steps cd). eexists.
  split_and!; [by apply Forall_app|reflexivity|reflexivity|].
  eexists. split; [|cbn; rewrite Eo, Ec; rewrite app_nil_r, !fmap_app; reflexivity]. done.
Qed.

(** ** Where the bytes of the two go *)

Lemma deletes_leave id k steps nodes :
  Forall deletes steps -> foldl forwardNodes nodes (imap (fun i => newStep id (k + i)) steps) = nodes.
Proof.
  intros Hd. revert k. induction Hd as [|step steps Hs _ IH]; intros k; [done|].
  cbn [imap foldl]. unfold deletes in Hs.
  assert (E : forwardNodes nodes (newStep id (k + 0) step) = nodes).
  { unfold forwardNodes. cbn. by rewrite Hs. }
  rewrite E. etrans; [|exact (IH (S k))]. f_equal. apply imap_ext. intros j x _. cbn. f_equal. lia.
Qed.

Section exchange.
Context (id : string) (stepsD : list StorageMutationStepInput) (Hd : Forall deletes stepsD).
Context (first second : StorageMutationStepInput) (nodes : gmap path Node).
#[local] Notation steps := (imap (newStep id) (stepsD ++ [first; second])).
#[local] Notation firstStep := (newStep id (length stepsD) first).
#[local] Notation secondStep := (newStep id (S (length stepsD)) second).

Lemma exchange_steps : steps = imap (newStep id) stepsD ++ [firstStep; secondStep].
Proof. rewrite imap_app. cbn. by rewrite Nat.add_0_r, Nat.add_1_r. Qed.

Lemma exchange_after : foldl forwardNodes nodes steps = forwardNodes (forwardNodes nodes firstStep) secondStep.
Proof.
  rewrite exchange_steps, foldl_app. cbn.
  assert (E : foldl forwardNodes nodes (imap (newStep id) stepsD) = nodes)
    by exact (deletes_leave id 0 stepsD nodes Hd). by rewrite E.
Qed.

Lemma exchange_ready : planReady steps nodes ->
  stepReady firstStep (diskOf nodes) /\ stepReady secondStep (diskOf (forwardNodes nodes firstStep)).
Proof.
  intros [Hready _ _]. rewrite exchange_steps in Hready.
  assert (E : foldl forwardNodes nodes (imap (newStep id) stepsD) = nodes)
    by exact (deletes_leave id 0 stepsD nodes Hd).
  pose proof (Hready (length stepsD) firstStep) as R1.
  pose proof (Hready (S (length stepsD)) secondStep) as R2. unfold nodesAfter in *.
  rewrite lookup_app_r in R1, R2 by (rewrite length_imap; lia).
  rewrite length_imap in R1, R2. rewrite Nat.sub_diag in R1.
  rewrite Nat.sub_succ_l, Nat.sub_diag in R2 by lia.
  rewrite take_app_length' in R1 by by rewrite length_imap.
  rewrite take_app_ge in R2 by (rewrite length_imap; lia). rewrite length_imap in R2.
  rewrite Nat.sub_succ_l, Nat.sub_diag in R2 by lia. cbn [take] in R2. rewrite foldl_app, E in R2.
  rewrite E in R1. split; [by apply R1|by apply R2].
Qed.
End exchange.

Lemma forward_rename m step s t :
  in_action (sp_input step) = rename_step -> renameKeys step s t ->
  forwardNodes m step = renamedNodes s t m.
Proof. intros Ha [Es Et]. unfold forwardNodes. by rewrite Ha, Es, Et. Qed.

Lemma exchanged nodes step1 step2 so sc t n1 n2 content content' :
  renameReady step1 (diskOf nodes) so t n1 ->
  renameReady step2 (diskOf (renamedNodes so t nodes)) sc so n2 ->
  nodes !! so = Some (NFile content) -> nodes !! sc = Some (NFile content') ->
  let nodes' := renamedNodes sc so (renamedNodes so t nodes) in
  nodes' !! so = Some (NFile content') /\ nodes' !! t = Some (NFile content).
Proof.
  intros R1 R2 Ho Hk. assert (Hne : sc <> so) by (intros ->; by apply (rr_apart _ _ _ _ _ R2)).
  pose proof (rr_target _ _ _ _ _ R1) as Ht. unfold nodeAt in Ht. cbn in Ht.
  destruct (renamed_file _ _ _ _ _ _ R1 Ho) as [E1 E2]. pose proof (E2 sc content' Hne Hk) as Hk1.
  destruct (renamed_file _ _ _ _ _ _ R2 Hk1) as [E3 E4].
  split; [done|]. apply E4; [congruence|done].
Qed.

Lemma keepMine_nodes original copy key oc cc stepsD id nodes so sc content content' :
  Forall deletes stepsD ->
  let steps := imap (newStep id) (stepsD
    ++ [renameFileStep (fi_storageKey original) key (fi_sizeBytes original) oc;
        renameFileStep (fi_storageKey copy) (fi_storageKey original) (fi_sizeBytes copy) cc]) in
  planReady steps nodes ->
  resolveMutationStoragePath (fi_storageKey original) = Ok so ->
  resolveMutationStoragePath (fi_storageKey copy) = Ok sc ->
  nodes !! so = Some (NFile content) -> nodes !! sc = Some (NFile content') ->
  foldl forwardNodes nodes steps !! so = Some (NFile content') /\
  exists t, resolveMutationStoragePath key = Ok t /\
    foldl forwardNodes nodes steps !! t = Some (NFile content).
Proof.
  intros Hd steps Hready Hso Hsc Ho Hk. unfold steps. rewrite exchange_after by done.
  apply exchange_ready in Hready as [(s1 & t & n1 & R1) R2]; [|done].
  assert (K1 : renameKeys (newStep id (length stepsD) (renameFileStep (fi_storageKey original) key
    (fi_sizeBytes original) oc)) so t).
  { destruct (rr_keys _ _ _ _ _ R1) as [Es Et]. by split. }
  assert (s1 = so) as -> by (destruct (rr_keys _ _ _ _ _ R1), K1; congruence).
  rewrite (forward_rename nodes _ so t) in * by done.
  destruct R2 as (s2 & t2 & n2 & R2).
  assert (s2 = sc /\ t2 = so) as [-> ->].
  { destruct (rr_keys _ _ _ _ _ R2) as [Es2 Et2]. cbn in Es2, Et2. split; congruence. }
  rewrite (forward_rename _ _ sc so) by done.
  destruct (exchanged _ _ _ _ _ _ _ _ _ _ R1 R2 Ho Hk) as [E1 E2].
  split; [done|]. exists t. split; [apply K1|done].
Qed.

(** ** Their rows *)

Lemma keepMine_distinct w original copy (originalData copyData : list (string * JsonScalar)) :
  fi_id copy <> fi_id original ->
  NoDup (rowKey <$> rowUpdate copy copyData :: rowUpdate original originalData
    :: (derivativeUpdate <$> placedDerivatives (fi_id original) w ++ placedDerivatives (fi_id copy) w)).
Proof.
  intros Hne. rewrite !fmap_cons.
  assert (Hd : forall id (l : list (string * string * Row)),
    (et_file, id) ∉ rowKey <$> (derivativeUpdate <$> l)).
  { intros id l (u & E & (x & -> & _)%list_elem_of_fmap)%list_elem_of_fmap. done. }
  constructor; [intros [E|Hin]%elem_of_cons; [by injection E|by eapply Hd]|].
  constructor; [apply Hd|]. rewrite <- list_fmap_compose. apply (NoDup_fmap_1 snd).
  rewrite <- list_fmap_compose, fmap_app. apply NoDup_app. split_and!; [apply NoDup_placed| |apply NoDup_placed].
  intros id (x & -> & [Hx Ex]%elem_of_placed)%list_elem_of_fmap
    (y & E & [Hy Ey]%elem_of_placed)%list_elem_of_fmap.
  cbn in E. rewrite E in Hx. congruence.
Qed.

(** What a file's row shows after an update, in the fields that place it. *)
Lemma written_file rows db1 db2 db' updates file data :
  keptRows rows (db_rows db1) -> rowsUpdated updates db1 db2 -> keptRows (db_rows db2) (db_rows db') ->
  rowUpdate file data ∈ updates ->
  exists row row', rows !! (et_file, fi_id file) = Some row /\
    findFileById (fi_id file) true db' = Some (toStoredFile (fi_id file) row') /\
    forall name, name <> "trashEntryId" ->
      match lastOf name data with
      | Some value => writtenAs name value = Some (column row' name)
      | None => column row' name = column row name
      end.
Proof.
  intros Hk1 Hup Hk2 Hin. destruct (row_written _ _ _ _ _ _ Hk1 Hup Hk2 Hin) as (row & row' & Er & Er' & Hcol).
  change (rowKey _) with (et_file, fi_id file) in *. exists row, row'.
  unfold findFileById. by rewrite Er'.
Qed.

Lemma row_of_file db file row :
  findFileById (fi_id file) true db = Some file -> db_rows db !! (et_file, fi_id file) = Some row ->
  file = toStoredFile (fi_id file) row.
Proof. intros Hf Hr. unfold findFileById in Hf. rewrite Hr in Hf. by injection Hf as <-. Qed.

Lemma keepMine_rows w original copy input key db0 db' :
  keepMineMade w original copy input key -> db_rows db0 = db_rows (w_db w) -> applied input db0 db' ->
  (exists original', findFileById (fi_id original) true db' = Some original' /\
     isLiveFile original' = true /\ fi_storageKey original' = fi_storageKey original /\
     fi_name original' = fi_name original /\ fi_folderId original' = fi_folderId original) /\
  exists copy', findFileById (fi_id copy) true db' = Some copy' /\
     isLiveFile copy' = false /\ fi_storageKey copy' = key /\ fi_name copy' = fi_name original /\
     fi_folderId copy' = fi_folderId original.
Proof.
  intros [Ho Hl Hcopy Htwo (oc & cc & deletedAt & trashId & stepsD & ds & Hd & -> & Es & entry & Ht & Eops)]
    Hdb (locks & now & u & Happ).
  change (applyOperations (length (di_metadataOperations input)) locks now
    (di_metadataOperations input) db0 = Ok (u, db')) in Happ.
  rewrite Eops in Happ. apply intent_run in Happ as (db1 & db2 & Hk1 & Hup & Hk2);
    [|by constructor|done|by apply keepMine_distinct|done].
  rewrite Hdb in Hk1. split.
  - destruct (written_file _ _ _ _ _ original (originalData copy cc) Hk1 Hup Hk2) as (row & row' & Er & Ef & Hcol);
      [by right; left|].
    pose proof (row_of_file _ _ _ Ho Er) as Erow. eexists. split; [exact Ef|].
    pose proof (Hcol "deletedAt" ltac:(done)) as C1. pose proof (Hcol "storageKey" ltac:(done)) as C2.
    pose proof (Hcol "originalName" ltac:(done)) as C3. pose proof (Hcol "folderId" ltac:(done)) as C4.
    cbn in C1, C2, C3, C4. rewrite Erow in Hl |- *. revert Hl. unfold isLiveFile. cbn.
    unfold dateColumn, textColumn. by rewrite C1, C2, C3, C4.
  - destruct (written_file _ _ _ _ _ copy (copyData original oc key deletedAt trashId) Hk1 Hup Hk2)
      as (row & row' & Er & Ef & Hcol); [by left|].
    eexists. split; [exact Ef|].
    assert (C1 : writtenAs "deletedAt" (JsString (toISOString deletedAt)) = Some (column row' "deletedAt"))
      by exact (Hcol "deletedAt" ltac:(done)).
    assert (C2 : Some (CText key) = Some (column row' "storageKey"))
      by exact (Hcol "storageKey" ltac:(done)).
    assert (C3 : Some (CText (fi_name original)) = Some (column row' "originalName"))
      by exact (Hcol "originalName" ltac:(done)).
    assert (C4 : writtenAs "folderId" (scalarOr (fi_folderId original)) = Some (column row' "folderId"))
      by exact (Hcol "folderId" ltac:(done)).
    assert (Ew : writtenAs "folderId" (scalarOr (fi_folderId original))
      = Some (match fi_folderId original with Some s => CText s | None => CNull end))
      by by destruct (fi_folderId original).
    rewrite Ew in C4. clear Hcol Ew. injection C4 as C4.
    injection C2 as C2. injection C3 as C3. unfold isLiveFile.
    cbn [toStoredFile fi_deletedAt fi_storageKey fi_name fi_folderId].
    unfold dateColumn, textColumn. rewrite <- C2, <- C3, <- C4. clear C2 C3 C4.
    apply written_date in C1 as [ms ->].
    split_and!; try reflexivity. by destruct (fi_folderId original).
Qed.

(** C5: Keeping the device's version of a conflict exchanges the bytes of the two
    files, and loses none: the file keeps its key, name and folder, and its key leads
    to the bytes of the conflict copy; the row of the copy is in the trash under the
    file's name, and its key leads to the bytes that the file had. *)
Theorem keep_mine_exchanges_the_bytes request fileId copyId revision payload w original copy input w'
    id db0 db' nodes so sc content content' :
  calm w -> keepMinePlan request fileId copyId revision payload w
              = (Done (Ok (original, copy, input)), w') ->
  db_rows db0 = db_rows (w_db w) -> applied input db0 db' ->
  planReady (imap (newStep id) (di_steps input)) nodes ->
  resolveMutationStoragePath (fi_storageKey original) = Ok so -> nodes !! so = Some (NFile content) ->
  resolveMutationStoragePath (fi_storageKey copy) = Ok sc -> nodes !! sc = Some (NFile content') ->
  let nodes' := foldl forwardNodes nodes (imap (newStep id) (di_steps input)) in
  (exists original', findFileById (fi_id original) true db' = Some original' /\
     isLiveFile original' = true /\ fi_storageKey original' = fi_storageKey original /\
     fi_name original' = fi_name original /\ fi_folderId original' = fi_folderId original) /\
  nodes' !! so = Some (NFile content') /\
  exists copy' t, findFileById (fi_id copy) true db' = Some copy' /\
     isLiveFile copy' = false /\ fi_name copy' = fi_name original /\
     fi_folderId copy' = fi_folderId original /\
     resolveMutationStoragePath (fi_storageKey copy') = Ok t /\ nodes' !! t = Some (NFile content).
Proof.
  intros Hc Hplan Hdb Happ Hready Hso Ho Hsc Hk nodes'.
  apply keepMinePlan_made in Hplan as [key Hmade]; [|done].
  destruct (keepMine_rows _ _ _ _ _ _ _ Hmade Hdb Happ)
    as [Horiginal (copy' & Hf & Hl & Ekey & Hn & Hfolder)].
  destruct Hmade as [_ _ _ _ (oc & cc & deletedAt & trashId & stepsD & ds & Hd & _ & Es & _)].
  unfold nodes'. rewrite Es in *.
  destruct (keepMine_nodes _ _ _ _ _ _ _ _ _ _ _ _ Hd Hready Hso Hsc Ho Hk) as (E1 & t & Et & E2).
  split_and!; [done|done|]. exists copy', t. by rewrite Ekey.
Qed.
End files.
