(* ===== verification/FileExamples.v ===== *)
(** * Requests on a small tree

    The whole stack at work: a user with a few folders and files, and requests that
    run from the service through the journal to the disk and back; the hypotheses of
    the properties of files and folders hold there.

    Then requests that overlap. A folder that is made reads its parent before its
    mutation is prepared, and the mutation does not guard the revision of the parent;
    a folder that is renamed captures its tree before, and guards only what it saw.
    Both may so run into what another request did in between. *)

From Stdlib Require Import Ascii.
From Stdlib Require String.
From S2P Require Import Prelude JsValues Database MutationMetadata MutationPrepare StorageChanges Journal Disk Io StoragePaths StorageLayout TreeManifest ExecutorSteps Executor ManifestFacts StepFacts RenameFacts ForwardPhase ExecutorExamples FileRows DurableMutation FileService FileOperations FilePromises FolderTree FolderMoves FolderPromises FileBytes.

Open Scope Z_scope.

(** ** The server *)

Definition hexOf (n : nat) : ascii :=
  default "0"%char (String.get n "0123456789abcdef").
Fixpoint hexText (s : string) : string :=
  match s with
  | EmptyString => ""
  | String c rest =>
      let n := nat_of_ascii c in
      String (hexOf (n / 16)) (String (hexOf (n mod 16)) (hexText rest))
  end.

(** A digest of hexadecimal digits, as the ids made of one need. *)
#[export] Instance hexRuntime : Runtime := {|
  sha256 s := hexText s;
  stringLess s t := String.ltb s t;
  lowerCase s := s;
  entrySize _ := 4096;
  errnoText _ := "disk error";
  databaseText _ := "database error"
|}.

#[export] Instance hexRuntime_laws : RuntimeLaws.
Proof. by apply ordered_laws. Qed.

#[export] Instance exampleInstallation : Installation := {|
  storageIdOf user := user; storageRoot := "/data"; storageProtocolVersion := Some 2
|}.

Definition rowOf (columns : list (string * Column)) : Row :=
  {| rw_storageRevision := 0; rw_columns := list_to_map columns |}.
Definition folderRow (parentId : Column) (name : string) (isRoot : bool) : Row :=
  rowOf [("ownerUserId", CText "u1"); ("parentId", parentId); ("name", CText name);
         ("isFilesRoot", CBool isRoot)].
Definition fileRow (folderId name key : string) (size : Z) : Row :=
  rowOf [("ownerUserId", CText "u1"); ("folderId", CText folderId); ("originalName", CText name);
         ("mimeType", CText "text/plain"); ("sizeBytes", CBigInt size);
         ("storageKey", CText key); ("storageStatus", CText "available")].

Definition trashedRow (folderId name key : string) (size : Z) : Row :=
  setColumns [("deletedAt", CDate 1785069290000)] (fileRow folderId name key size).

Definition treeDB : DB :=
  {| db_rows := list_to_map
       [((et_folder, "r1"), folderRow CNull "Files" true);
        ((et_folder, "f1"), folderRow (CText "r1") "Docs" false);
        ((et_folder, "f2"), folderRow (CText "f1") "Old" false);
        ((et_file, "a1"), fileRow "f2" "a.txt" "files/u1/Docs/Old/a.txt" 3);
        ((et_file, "b1"), fileRow "f1" "b.txt" "files/u1/Docs/b.txt" 2);
        ((et_file, "t1"), trashedRow "f1" "t.txt" ".trash/u1/t.txt" 1)];
     db_users := {[ "u1" := {| us_storageLimitBytes := None; us_usageKnown := true |} ]};
     db_sessions := ∅; db_trash := ∅; db_mutations := ∅; db_resources := [];
     db_changes := []; db_nextSeq := 1 |}.

Definition treeDisk : Disk :=
  {| dk_nodes := list_to_map
       [([], NDirectory); (["files"], NDirectory); (["files"; "u1"], NDirectory);
        (["files"; "u1"; "Docs"], NDirectory); (["files"; "u1"; "Docs"; "Old"], NDirectory);
        (["files"; "u1"; "Docs"; "Old"; "a.txt"], NFile "abc");
        (["files"; "u1"; "Docs"; "b.txt"], NFile "xy");
        ([".trash"], NDirectory); ([".trash"; "u1"], NDirectory);
        ([".trash"; "u1"; "t.txt"], NFile "z")];
     dk_unsynced := ∅ |}.

Definition treeWorld : World :=
  {| w_disk := treeDisk; w_db := treeDB; w_now := 1785069296789; w_steps := [];
     w_timer := None; w_leaseFailure := None; w_future := [] |}.

Definition requestBy (user key mutation item : string) : Request :=
  {| rq_actorUserId := user; rq_actorRole := role_member; rq_idempotencyKey := Some key;
     rq_ifRevision := None; rq_storageMutationParentId := None; rq_mutationId := mutation;
     rq_itemId := item; rq_leaseOwner := "w1"; rq_deviceId := Some "laptop" |}.

(** ** The rows are in order *)

Definition anyFolder : FolderSummary :=
  {| fo_id := ""; fo_ownerUserId := ""; fo_ownerStorageId := ""; fo_parentId := None;
     fo_name := ""; fo_isFilesRoot := false; fo_deletedAt := None; fo_storageRevision := 0;
     fo_trashEntryId := None |}.
Definition treeFolder (id : string) : FolderSummary := default anyFolder (findFolderById id treeDB).
Definition treeFile (id : string) : option StoredFile := findFileById id true treeDB.

Lemma tree_live : ownLive false "u1" treeDB = treeFolder <$> ["f1"; "f2"; "r1"].
Proof. by vm_compute. Qed.

Lemma tree_way folder : folder ∈ ownLive false "u1" treeDB ->
  exists up, climbs (liveTree "u1" treeDB) (treeFolder "r1") folder up /\
    Forall isEntryName (namesDown up) /\
    (folder = treeFolder "f1" -> namesDown up = ["Docs"]) /\
    (folder = treeFolder "f2" -> namesDown up = ["Docs"; "Old"]).
Proof.
  assert (H1 : climbs (liveTree "u1" treeDB) (treeFolder "r1") (treeFolder "f1") [treeFolder "f1"]).
  { apply climbs_up with (treeFolder "r1"); [done|by vm_compute|by vm_compute|constructor]. }
  rewrite tree_live. cbn [fmap list_fmap]. rewrite !elem_of_cons, elem_of_nil.
  intros [->|[->|[->|[]]]].
  - exists [treeFolder "f1"]. split; [done|]. split; [by repeat constructor|]. by split.
  - exists [treeFolder "f2"; treeFolder "f1"]. split; [|split; [by repeat constructor|by split]].
    by apply climbs_up with (treeFolder "f1"); [|vm_compute|vm_compute|].
  - exists []. split; [constructor|]. split; [constructor|by split].
Qed.

Lemma tree_files file : ownFile "u1" treeDB file ->
  Some file = treeFile "a1" \/ Some file = treeFile "b1" \/ Some file = treeFile "t1".
Proof.
  intros [Hf _]. apply elem_of_files in Hf.
  assert (E : Some <$> files treeDB = [treeFile "a1"; treeFile "b1"; treeFile "t1"]) by by vm_compute.
  apply (list_elem_of_fmap_2 Some) in Hf. rewrite E, !elem_of_cons, elem_of_nil in Hf.
  destruct Hf as [Hf|[Hf|[Hf|[]]]]; auto.
Qed.

Lemma tree_orderly : orderly "u1" (treeFolder "r1") treeDB.
Proof.
  split.
  - by vm_compute.
  - by vm_compute.
  - by vm_compute.
  - by split_and!.
  - intros folder Hf. assert (Hin : folder ∈ ownFolders "u1" treeDB) by by apply elem_of_ownFolders.
    assert (E : fo_id <$> ownFolders "u1" treeDB = ["f1"; "f2"; "r1"]) by by vm_compute.
    apply (list_elem_of_fmap_2 fo_id) in Hin. rewrite E, !elem_of_cons, elem_of_nil in Hin.
    destruct Hin as [->|[->|[->|[]]]]; done.
  - intros folder. rewrite tree_live. cbn [fmap list_fmap]. rewrite !elem_of_cons, elem_of_nil.
    intros [->|[->|[->|[]]]] Hne; [by split_and!|by split_and!|by destruct Hne].
  - intros folder (up & Hw & _)%tree_way. by exists up.
  - intros file [Hf|[Hf|Hf]]%tree_files Hl.
    + destruct (tree_way (treeFolder "f2")) as (up & Hw & _ & _ & Hn); [rewrite tree_live; set_solver|].
      exists (treeFolder "f2"), up. unfold filePath. rewrite Hn by done.
      vm_compute in Hf; injection Hf as ->. split_and!; [rewrite tree_live; set_solver|by vm_compute|done|by split_and!|by vm_compute].
    + destruct (tree_way (treeFolder "f1")) as (up & Hw & _ & Hn & _); [rewrite tree_live; set_solver|].
      exists (treeFolder "f1"), up. unfold filePath. rewrite Hn by done.
      vm_compute in Hf; injection Hf as ->. split_and!; [rewrite tree_live; set_solver|by vm_compute|done|by split_and!|by vm_compute].
    + by vm_compute in Hf; injection Hf as ->.
  - intros file [Hf|[Hf|Hf]]%tree_files Hl; vm_compute in Hf; injection Hf as ->; [done|done|]. eexists. by vm_compute.
Qed.

(** ** Renaming the folder *)

Definition renameRequest : Request := requestBy "u1" "k" "m1" "i1".
Definition renamePlan : FolderSummary * FolderChange.
Proof.
  let plan := eval vm_compute in (renameFolderPlan renameRequest "f1" "Papers" JNull treeWorld) in
  match plan with (Done (Ok ?p), _) => exact p end.
Defined.

Lemma rename_planned_so :
  renameFolderPlan renameRequest "f1" "Papers" JNull treeWorld = (Done (Ok renamePlan), treeWorld).
Proof. vm_compute. reflexivity. Qed.

Definition renameDigest : option string := dc_expectedTreeManifestDigest renamePlan.2.
Definition renameInput : DurableStorageMutationInput :=
  durableFolderInput renameRequest renamePlan.1 renameDigest renamePlan.2.

(** The rows when an intent is applied to the tree's. *)
Definition rowsAfter (input : DurableStorageMutationInput) : DB :=
  match applyStorageMutationIntentMetadata ∅ 0 (buildDurableMutationPlan input) treeDB with
  | Ok (_, db') => db' | Throw _ => treeDB
  end.

Lemma rowsAfter_applied input :
  (if applyStorageMutationIntentMetadata ∅ 0 (buildDurableMutationPlan input) treeDB
   then true else false) = true -> applied input treeDB (rowsAfter input).
Proof.
  unfold applied, rowsAfter. intros H. exists ∅, 0.
  destruct (applyStorageMutationIntentMetadata ∅ 0 _ treeDB) as [[u db']|]; [|done]. by exists u.
Qed.

Lemma moving_keeps_the_tree_in_order_witness :
  exists root', fo_id root' = "r1" /\ orderly "u1" root' (rowsAfter renameInput).
Proof.
  apply (moving_keeps_the_tree_in_order renameRequest treeWorld renamePlan.1 renamePlan.2
    (treeFolder "r1") renameDigest treeDB).
  - reflexivity.
  - apply tree_orderly.
  - eapply by_renaming; [|rewrite <- surjective_pairing; apply rename_planned_so]. by split_and!.
  - reflexivity.
  - apply rowsAfter_applied. by vm_compute.
Defined.

Lemma treeDisk_ok : wellFormed treeDisk.
Proof. apply wellFormed_check; by vm_compute. Qed.

Lemma tree_distinct : distinctNames "u1" (treeFolder "r1") treeDB.
Proof.
  intros x y. rewrite tree_live. cbn [fmap list_fmap]. rewrite !elem_of_cons, !elem_of_nil.
  intros [->|[->|[->|[]]]] [->|[->|[->|[]]]] Hp Hn H1 H2; try done;
    exfalso; by vm_compute in Hp.
Qed.

(** A plan of one rename. *)
Lemma one_rename_ready step nodes s t n :
  in_action (sp_input step) = rename_step -> sp_status step = step_pending ->
  renameReady step (diskOf nodes) s t n -> planReady [step] nodes.
Proof.
  intros Ha Hs Hr. split.
  - intros [|k] step' Hk; [|done]. injection Hk as <-. unfold stepReady. rewrite Ha. by exists s, t, n.
  - apply NoDup_singleton.
  - intros [|k] step' Hk; [|done]. injection Hk as <-. congruence.
Qed.

Lemma rename_ready : planReady (planSteps renamePlan.1 renamePlan.2 renameRequest renameDigest "m1")
  (dk_nodes treeDisk).
Proof.
  apply (one_rename_ready _ _ ["files"; "u1"; "Docs"] ["files"; "u1"; "Papers"] NDirectory);
    [done|done|].
  apply renameReady_check; [apply treeDisk_ok|split; by vm_compute|done|by vm_compute..].
Qed.

Lemma moving_loses_no_bytes_witness :
  exists file', findFileById "a1" true (rowsAfter renameInput) = Some file' /\
    fi_name file' = "a.txt" /\
    foldl forwardNodes (dk_nodes treeDisk)
      (planSteps renamePlan.1 renamePlan.2 renameRequest renameDigest "m1")
      !! pathOfKey (fi_storageKey file') = Some (NFile "abc").
Proof.
  destruct (treeFile "a1") as [file|] eqn:Ef; [|by vm_compute in Ef].
  destruct (moving_loses_no_bytes renameRequest treeWorld renamePlan.1 renamePlan.2
    (treeFolder "r1") renameDigest "m1" treeDB (rowsAfter renameInput) (dk_nodes treeDisk)
    file "abc") as (file' & Hf & (_ & _ & _ & Hn & _) & Hc).
  - reflexivity.
  - apply tree_orderly.
  - apply tree_distinct.
  - eapply by_renaming; [|rewrite <- surjective_pairing; apply rename_planned_so]. by split_and!.
  - reflexivity.
  - apply rowsAfter_applied. by vm_compute.
  - apply rename_ready.
  - vm_compute in Ef. injection Ef as <-. split; by vm_compute.
  - vm_compute in Ef. injection Ef as <-. by vm_compute.
  - vm_compute in Ef. injection Ef as <-. exists file'. exact (conj Hf (conj Hn Hc)).
Defined.

(** ** Renaming a file *)

Definition filePlanned : StoredFile * FileChange.
Proof.
  let plan := eval vm_compute in (renameFilePlan renameRequest "b1" "c.txt" JNull treeWorld) in
  match plan with (Done (Ok ?p), _) => exact p end.
Defined.
Definition fileChecksum : option string.
Proof.
  let checksum := eval vm_compute in (resolveDurableFileFingerprint filePlanned.1 treeWorld) in
  match checksum with (Done ?c, _) => exact c end.
Defined.
Definition fileInput : DurableStorageMutationInput :=
  durableFileInput renameRequest filePlanned.1 fileChecksum filePlanned.2.

Lemma a_moved_file_keeps_its_bytes_witness :
  exists file' t, findFileById "b1" true (rowsAfter fileInput) = Some file' /\
    fi_storageKey file' = "files/u1/Docs/c.txt" /\
    resolveMutationStoragePath (fi_storageKey file') = Ok t /\
    foldl forwardNodes (dk_nodes treeDisk)
      (fileSteps renameRequest filePlanned.1 fileChecksum filePlanned.2 "m1") !! t
    = Some (NFile "xy").
Proof.
  apply (a_moved_file_keeps_its_bytes renameRequest treeWorld filePlanned.1 filePlanned.2 fileChecksum
    "m1" treeDB (rowsAfter fileInput) (dk_nodes treeDisk) ["files"; "u1"; "Docs"; "b.txt"] "xy").
  - reflexivity.
  - apply (file_renaming _ _ _ _ "b1" "c.txt" JNull treeWorld). vm_compute. reflexivity.
  - apply rowsAfter_applied. by vm_compute.
  - apply (one_rename_ready _ _ ["files"; "u1"; "Docs"; "b.txt"] ["files"; "u1"; "Docs"; "c.txt"] (NFile "xy"));
      [done|done|].
    apply renameReady_check; [apply treeDisk_ok|split; by vm_compute|done|by vm_compute..].
  - by vm_compute.
  - by vm_compute.
Defined.

(** ** Keeping the device's version *)

Definition keepPlanned : StoredFile * StoredFile * DurableStorageMutationInput.
Proof.
  let plan := eval vm_compute in (keepMinePlan renameRequest "a1" "b1" 0 JNull treeWorld) in
  match plan with (Done (Ok ?p), _) => exact p end.
Defined.

Definition keepSteps : list Step := imap (newStep "m1") (di_steps keepPlanned.2).
Definition keepTrash : path :=
  match keepSteps with step :: _ => pathOfKey (stepTarget step) | [] => [] end.

Lemma keep_ready : planReady keepSteps (dk_nodes treeDisk).
Proof.
  split.
  - intros [|[|k]] step Hk; [| |done]; injection Hk as <-.
    + exists ["files"; "u1"; "Docs"; "Old"; "a.txt"], keepTrash, (NFile "abc").
      apply renameReady_check; [apply treeDisk_ok|split; by vm_compute|done|by vm_compute..].
    + exists ["files"; "u1"; "Docs"; "b.txt"], ["files"; "u1"; "Docs"; "Old"; "a.txt"], (NFile "xy").
      apply renameReady_check; [apply wellFormed_check; by vm_compute|split; by vm_compute|done|by vm_compute..].
  - apply NoDup_cons. split; [|apply NoDup_singleton]. by intros [=]%list_elem_of_singleton.
  - intros [|[|k]] step Hk; [| |done]; by injection Hk as <-.
Qed.

Lemma keep_mine_exchanges_the_bytes_witness :
  foldl forwardNodes (dk_nodes treeDisk) keepSteps !! ["files"; "u1"; "Docs"; "Old"; "a.txt"]
  = Some (NFile "xy").
Proof.
  apply (keep_mine_exchanges_the_bytes renameRequest "a1" "b1" 0 JNull treeWorld keepPlanned.1.1
    keepPlanned.1.2 keepPlanned.2 treeWorld "m1" treeDB (rowsAfter keepPlanned.2) (dk_nodes treeDisk)
    ["files"; "u1"; "Docs"; "Old"; "a.txt"] ["files"; "u1"; "Docs"; "b.txt"] "abc" "xy").
  - reflexivity.
  - vm_compute. reflexivity.
  - reflexivity.
  - apply rowsAfter_applied. by vm_compute.
  - apply keep_ready.
  - by vm_compute.
  - by vm_compute.
  - by vm_compute.
  - by vm_compute.
Defined.

(** ** Requests that run nothing *)

(** The folder is renamed. *)
Definition renamedWorld : World := (renameFolder renameRequest "f1" "Papers" treeWorld).2.
Definition renamePrior : option (string * Mutation) := findByIdempotencyKey (w_db renamedWorld) "k".

Lemma a_known_key_runs_nothing_witness :
  (perform renameRequest (trash_folder "f1") renamedWorld).2 = renamedWorld /\
  match renamePrior with Some (_, m) => mu_status m = succeeded | None => False end.
Proof.
  destruct renamePrior as [[id m]|] eqn:E; [|by vm_compute in E]. split.
  - destruct (a_known_key_runs_nothing renameRequest (trash_folder "f1") renamedWorld "k" id m)
      as (o & -> & _); [by vm_compute|reflexivity|exact E|reflexivity].
  - vm_compute in E. by injection E as _ <-.
Defined.

Lemma items_of_others_are_not_found_witness :
  perform (requestBy "u2" "k" "m1" "i1") (trash_folder "f1") treeWorld
  = (Done (Throw (FilesError "FOLDER_NOT_FOUND")), treeWorld).
Proof.
  eapply (items_of_others_are_not_found (requestBy "u2" "k" "m1" "i1") (trash_folder "f1") treeWorld
    et_folder "f1").
  - reflexivity.
  - reflexivity.
  - reflexivity.
  - intros key [= <-]. by vm_compute.
  - reflexivity.
  - intros folder Hf. vm_compute in Hf. injection Hf as <-. done.
Defined.

Definition live (id : string) (w : World) : bool :=
  match findFolderById id (w_db w) with Some folder => isLiveFolder folder | None => false end.
Definition parentIdOf (id : string) (w : World) : option string :=
  findFolderById id (w_db w) ≫= fo_parentId.
Definition statusOf (id : string) (w : World) : option StorageMutationStatus :=
  mu_status <$> db_mutations (w_db w) !! id.

Definition making : Request := requestBy "u1" "k1" "m1" "i1".
Definition trashing : Request := requestBy "u1" "k2" "m2" "i2".
Definition restoring : Request := requestBy "u1" "k3" "m3" "i3".
Definition renaming : Request := requestBy "u1" "k4" "m4" "i4".

(** A folder is planned in [Docs], which another request trashes; then it is made. *)
Definition madeId : string := idFor making "folder-create:u1".
Definition madeLate : World :=
  match createFolderPlan making (Some "f1") "New" treeWorld with
  | (Done (Ok (folder, key)), _) =>
      (runCreateFolder making (createFolderPayload (Some "f1") "New") folder key
         (trashFolder trashing "f1" treeWorld).2).2
  | _ => treeWorld
  end.

(** The mutation succeeds, a live folder has a trashed parent, and the parent can no
    longer be restored: its restore ends as one to be recovered. *)
Example a_folder_is_made_in_a_trashed_folder :
  (statusOf "m1" madeLate, live madeId madeLate, parentIdOf madeId madeLate, live "f1" madeLate)
    = (Some succeeded, true, Some "f1", false) /\
  statusOf "m3" (restoreFolder restoring "f1" madeLate).2 = Some recovery_required.
Proof. split; by vm_compute. Qed.

(** [Docs] is planned to be renamed, another request makes a folder in it, and then
    the rename runs. *)
Definition renamedLate : World :=
  match renameFolderPlan renaming "f1" "Papers" JNull treeWorld with
  | (Done (Ok (folder, change)), _) =>
      (changeFolder renaming folder change None "Durable folder rename failed."
         (createFolder making (Some "f1") "New" treeWorld).2).2
  | _ => treeWorld
  end.

(** It is no conflict that the request may try again after: the mutation is prepared,
    and left for an administrator to recover. *)
Example a_rename_meets_a_new_folder :
  statusOf "m1" renamedLate = Some succeeded /\
  statusOf "m4" renamedLate = Some recovery_required.
Proof. split; by vm_compute. Qed.

(** Two dots and a line break pass the checks of a name as two dots, and the path of
    such a folder is the parent's parent. *)
Definition dotsName : string := ".." +:+ String "010"%char EmptyString.

Example a_name_of_dots_is_accepted :
  normalizeFolderName dotsName = Ok ".." /\
  statusOf "m1" (createFolder making (Some "f1") dotsName treeWorld).2 = Some recovery_required.
Proof. split; by vm_compute. Qed.
